(* ===== verification/_CoqProject ===== *)
-Q . S2P
Prelude.v
DispatchTask.v
GoString.v
GoRegexp.v
SandboxSpec.v
SandboxSafe.v
SandboxAssess.v
SandboxPolicy.v
HitlChannel.v
Approvals.v
HitlGate.v
JsonLines.v
ScanJsonl.v
RpcFrame.v
RpcConn.v
RpcConnProps.v
AcpServer.v
AcpServerProps.v
DispatchStore.v
DispatchEventLog.v
ControlLease.v
RequestRegistry.v
EventHub.v
HubSystem.v
RunJournal.v
RunJournalProps.v
AgentRun.v
SessionRecord.v
SessionStore.v
SessionTree.v
SessionOps.v
SessionStoreProps.v
Compressor.v
Capability.v
CapabilityProps.v
CapabilityInv.v
CapabilityRuns.v
AgentLoop.v
SessionTurn.v
SessionTurnProps.v
Supervisor.v
SupervisorInv.v
SupervisorProps.v
ControlService.v
ControlServiceProps.v
GoPath.v
DispatchOrch.v
Dispatcher.v
DispatcherProps.v
DispatcherLive.v
DispatcherRuns.v
GoFloat.v
GoStrconv.v
DispatchIngress.v
DispatchIngressProps.v
DispatchReview.v
GoUtf8.v
GoSort.v
GoLines.v
MemorySearch.v
MemoryStore.v
MemoryCheckpoint.v
MemoryCheckpointProps.v
MemoryCheckpointTasks.v
MemoryRuns.v
MemoryProfile.v
MemoryProfileProps.v
Engine.v
Logger.v
PluginRegistry.v
RuntimeConfig.v
ServiceRegistry.v
DaemonConfig.v
SessionRepository.v
SessionLifecycle.v
SessionLifecycleProps.v
Frontend.v
FrontendEvents.v
ProviderOpenAI.v
ProviderAnthropic.v
