(* ===== verification/Prelude.v ===== *)
(** * goworker: a verification library for a coding-agent host

    The repository is a host for a coding agent: a daemon that owns sessions,
    runs the agent on them, asks the user for permissions, publishes what
    happens to clients, and dispatches tasks to workers. This library models its
    core as Rocq definitions, one file per component, translated from the Go
    sources under src/, and proves what makes each component correct. Every
    definition is executable: the concrete instances that close the files run by
    [vm_compute].

    ** How the parts of the program interact

    A client sends a request; the request registry makes it start one run at
    most; a control lease says which client may steer a session; the supervisor
    admits the run to the session's runtime within the quotas and executes it;
    the agent loop calls the model and the tools; before a tool runs, the gate
    consults the sandbox and, if need be, the user, through the approvals; the
    tokens of the run become events, which the hub writes to the run's journal
    and delivers to the subscribers; at the end the turn is committed to the
    session store, after a compaction if the conversation was folded. The
    dispatcher keeps its tasks in a store and an event log of their own. A session
    lives in the agent plugin while a connection is bound to it or a run is on; its
    store comes from the repository. At start-up the daemon loads its configuration,
    opens its log, sorts the plugins and lets the engine initialise and start them.

    ** The files

    - [Prelude]: results, machine integers, Go slices, lists, automation.
    - [GoString], [GoPath], [GoRegexp]: package strings, paths, and package regexp
      for the syntax the sources use.
    - [DispatchTask], [DispatchStore], [DispatchEventLog]: ai-dispatch/task, the
      status machine, the snapshot store and the event log with its consumers.
    - [DispatchOrch], [Dispatcher], [DispatcherProps], [DispatcherLive],
      [DispatcherRuns]: orchestrator.go and workspace.go of ai-dispatch and the
      dispatcher plugin, a run as a thread over the store, the decisions of the
      operator as the thread that holds the lock, and executable schedules.
    - [DispatchIngress], [DispatchIngressProps]: the dispatcher's configuration,
      directives, streams of events, routes and permission policies.
    - [DispatchReview]: review.go of the dispatcher.
    - [SandboxSpec], [SandboxSafe], [SandboxAssess], [SandboxPolicy]: ai-sandbox,
      the levels, the read-only classifier, the assessment of a command and the
      decision.
    - [HitlChannel], [HitlGate]: ai-runtime/hitl and middlewares/hitl.go, the
      answers of the user and the gate in front of the tools.
    - [Approvals]: ai-runtime/agent/approval.go, waits as threads.
    - [JsonLines], [ScanJsonl]: files of JSON lines, writes that fail, and
      scanJSONL of ai-runtime/session/store.go.
    - [ControlLease], [RequestRegistry]: daemon/internal/agentcontrol, leases,
      client bindings and single-flight requests, as threads.
    - [EventHub], [HubSystem]: ai-runtime/agent/event_hub.go, the hub, and the
      hub with its consumers.
    - [RunJournal], [RunJournalProps]: ai-runtime/session/journal.go and
      journal_store.go, the files of the runs.
    - [AgentRun], [Supervisor], [SupervisorInv], [SupervisorProps]: run.go,
      runtime.go, manager.go and supervisor.go of ai-runtime/agent, a run's
      record, the registry with its quotas, and the threads that start, execute,
      archive, retire and close.
    - [SessionRecord], [SessionStore], [SessionTree], [SessionOps],
      [SessionStoreProps]: ai-runtime/session, the record format, the store as
      bytes of its file with the records, the head and the cursor, the tree of
      messages behind the active view, and what each operation writes.
    - [Capability], [CapabilityProps], [CapabilityInv], [CapabilityRuns]:
      capability.go of ai-runtime/agent, the connections that execute a client's
      tools, and the calls that wait for them.
    - [Compressor]: compressor.go, compression.go and memory.go of
      ai-runtime/middlewares.
    - [AgentLoop]: ai-core/agent.
    - [SessionTurn], [SessionTurnProps]: ai-runtime/agent/session.go and
      checkpoint.go, a turn from the agent's messages to the store.
    - [RpcFrame], [RpcConn], [RpcConnProps]: ai-acp/protocol/jsonrpc.go, frames,
      the dispatch of a line, and a connection as threads.
    - [AcpServer], [AcpServerProps]: server.go and client.go of ai-acp, prompts as
      threads, stopping, permissions.
    - [ControlService], [ControlServiceProps]: the service of agentcontrol over
      all of the above, one call as a function, and its host interfaces.
    - [GoUtf8], [GoSort], [GoFloat], [GoLines]: runes and their encoding, stable
      sorting, float64 over the Standard Library's SpecFloat, lines and fields.
    - [MemorySearch], [MemoryStore], [MemoryCheckpoint], [MemoryProfile]: ai-memory,
      the ranked search, the store of facts and tasks as the bytes of its two
      files, checkpoints as programs of writes and as threads over the semaphore,
      the profile and the instruction files;
      [MemoryCheckpointProps], [MemoryCheckpointTasks], [MemoryRuns],
      [MemoryProfileProps] hold their theorems and schedules.
    - [PluginRegistry], [ServiceRegistry], [Engine]: the plugins
      in the order of their dependencies, the services of the daemon, the engine of
      daemon/internal/core with commands, interceptors and the life of the plugins.
    - [RuntimeConfig], [DaemonConfig], [GoStrconv]: the
      configuration of ai-runtime and of the daemon, its defaults, validation,
      settable fields, loading with migration, saving and display.
    - [Logger]: ai-runtime/logger, the rotating file
      over a disk of inodes.
    - [SessionRepository]: repository.go of
      ai-runtime/session, the directories, their locks and the cache of stores.
    - [SessionLifecycle], [SessionLifecycleProps]: the agent plugin's sessions, from
      session/new to release, over the manager, the bindings and an interface of
      the repository.
    - [Frontend], [FrontendEvents]: one connection of a client in
      daemon/internal/core/service/acp: sessions that are made, loaded and prompted,
      as calls and as threads whose steps interleave, the output of commands;
      attach, detach, the pumps and the end of the connection as threads.
    - [ProviderOpenAI], [ProviderAnthropic]: the two providers of ai-runtime/provider:
      requests from histories, streams and responses.

    ** What the theorems show

    - Permissions: a shell command runs only if the sandbox allows it or the user
      answered this very request in time; hard denials dominate; the decision tables of
      the modes; an answer counts once and for its own request; every wait for an
      approval ends.
    - Durability: stores, logs and journals reopen to what was written, whatever
      the writes did, as long as lines stay below their limits and nothing is
      written behind a torn line (what happens then is stated too); commits and
      compactions of a session are atomic for the reader in memory and for the
      reader after a crash; recovery marks exactly the runs whose last state is not
      an end and is idempotent; a stored turn that continues or folds the
      conversation is the turn in memory.
    - Delivery: a subscriber receives the events after its cursor once and in
      order, or its history is skipped or reported as incomplete, or it is
      disconnected; key events are durable before they are broadcast.
    - Protocols: a frame is a line, a response goes to its call, every request is
      answered once, notifications are handled in the order of their lines.
    - Exclusion: one run per session and per request key, control only while the
      lease is held, for every interleaving of the threads; quotas are conserved
      and nothing leaks.
    - Progress and termination: executors drain, waits return, runs of the agent
      end with exactly one final token, walks of the message tree end.
    - Structure: the histories the agent leaves pair every call with its result,
      also across compactions; the cut of a compaction is the last safe one.
    - Memory: the memory reopens to what was written; a search gives the best of
      the hits in their order; a checkpoint loses nothing between reading and
      writing and touches nothing it was not shown; the profile keeps its lines.
    - Dispatch: a decision of the operator is final and the only way to done or
      rejected; no task is left behind while writes succeed; a run ends; a stream
      of events is the history behind its cursor; permissions are given by
      somebody; a review is clean text and its command is what it says.
    - The host: plugins are built, started and stopped in the order of their
      dependencies, services once; a session with a connection has a runtime and an
      open store, and one that nobody uses is given back; a prompt goes to the session
      its connection declared and selected last; a closed connection leaves no subscription and no
      lease; a store is open once; the
      configuration of the models stays valid whatever is set and a save is all or
      nothing; no accepted line of the log is lost.
    - Providers: a streamed answer is the answer, whole or not at all; a history
      becomes a request with alternating roles in which every call is answered, or
      the call that prevents it is named; an answer goes back as it came.

    ** State, effects and interleavings

    The state of a component is a [Record]; a Go method is a function from the
    state to the state and its results. What comes from outside is an argument:
    the outcome of each I/O call, the readings of the clock, random ids, the
    answers of models, tools and users. A mutex-protected section is one step;
    where goroutines interleave, a step relation runs threads with their program
    counters over the shared state, and invariants are proved by induction over
    it. A mutex makes the steps atomic, so the orders of the steps are the
    interleavings of the program.

    ** Bounds and fuel

    Machine integers are kept at their width where they can wrap (64-bit event
    numbers, modulo 2^64). The bounds of the sources are in the model: 16 MiB
    lines of the task store, 1 MiB lines of the session files, 4096 requests in
    the registry, 256 events in a subscriber's queue, 30 s of retention of an
    approval, 4 concurrent and 16 pending runs. Recursion that is not structural
    has fuel: the walk of a message tree has one more round than there are nodes
    ([SessionTree.walk_enough] shows that more change nothing), the regexp
    matcher has the length of its input and pattern ([GoRegexp]), the loop of the
    agent has its iterations, as in the source; the walk up the directories has
    three rounds more than the path has bytes
    ([MemoryProfileProps.the_nearest_file_is_found] shows that it ends); the sort of
    the plugins has one round for each plugin, and the search of a free name for a
    rotated log two more than there are files
    ([Logger.nextRotateName_total]).

    ** External code

    encoding/json is a parameter: a class of encoders and decoders ([JsonLines],
    [SessionRecord.RecordCodec]) with the laws that a decoder reads back what the
    encoder wrote and that an encoding is one line; a concrete codec inhabits
    every such class. The laws assume texts that are valid UTF-8 and, for raw
    JSON values, compact form. SHA-256 is a parameter, and so are the Unicode tables
    of the search ([MemorySearch.Unicode]). net/url and the letters of a
    provider's name are in [RuntimeConfig.Host], yaml in [DaemonConfig.Yaml]. File
    systems are modelled as the bytes of a file, with writes that may stop anywhere.
    Where the agent plugin uses the repository of the sessions it uses the
    interface [SessionLifecycle.SessionRepo] with its laws, which a repository in
    memory satisfies.

    ** Not modelled

    The wiring in the commands, the terminal interface, the HTTP client under the
    providers, network transports, file permissions, failing
    Stat calls, and goroutine scheduling within a mutex-protected section.
    The declarations of a client's tools, the printed layout of reviews and lists, and the
    branches that the dispatcher deletes with a worktree are left out too. *)

From Stdlib Require Export Ascii String ZArith Lia.
From stdpp Require Export base tactics option list list_numbers gmap sets strings numbers relations sorting.

(** ** Results

    A Go function returning [(T, error)] becomes a function returning
    [result E T], with one error type per component. *)

Inductive result (E A : Type) : Type :=
  | Ok (a : A)
  | Err (e : E).
Arguments Ok {E A} a.
Arguments Err {E A} e.

#[export] Instance result_ret {E} : MRet (result E) := fun A a => Ok a.
#[export] Instance result_bind {E} : MBind (result E) :=
  fun A B f m => match m with Ok a => f a | Err e => Err e end.
#[export] Instance result_fmap {E} : FMap (result E) :=
  fun A B f m => match m with Ok a => Ok (f a) | Err e => Err e end.

#[export] Instance result_eq_dec {E A} `{EqDecision E, EqDecision A} : EqDecision (result E A).
Proof. solve_decision. Defined.

Definition is_ok {E A} (r : result E A) : bool :=
  match r with Ok _ => true | Err _ => false end.

Definition is_err {E A} (r : result E A) : bool := negb (is_ok r).

(** ** Machine integers

    Go's [uint64] is a [Z] in [[0, 2^64)]; every addition wraps. *)

Definition u64_max : Z := 2 ^ 64 - 1.
Definition u64 (z : Z) : Z := z mod 2 ^ 64.
Definition u64_add (a b : Z) : Z := u64 (a + b).
Definition is_u64 (z : Z) : Prop := (0 <= z < 2 ^ 64)%Z.

(** ** Labelled transition systems

    Concurrent components are step relations; the only way the library
    reasons about them is through inductive invariants of the reachable
    states. *)

Section lts.
Context {S : Type} (init : S -> Prop) (step : S -> S -> Prop).

Inductive reachable : S -> Prop :=
  | reachable_init s : init s -> reachable s
  | reachable_step s s' : reachable s -> step s s' -> reachable s'.

Lemma reachable_invariant (I : S -> Prop) :
  (forall s, init s -> I s) ->
  (forall s s', I s -> step s s' -> I s') ->
  forall s, reachable s -> I s.
Proof. intros Hi Hs s Hr. induction Hr; eauto. Qed.

(** The same principle when the step case may use that the source state is
    reachable (hence satisfies every invariant already proved). *)
Lemma reachable_invariant_strong (I : S -> Prop) :
  (forall s, init s -> I s) ->
  (forall s s', reachable s -> I s -> step s s' -> I s') ->
  forall s, reachable s -> I s.
Proof. intros Hi Hs s Hr. induction Hr; eauto. Qed.

Lemma reachable_rtc s s' : reachable s -> rtc step s s' -> reachable s'.
Proof. intros Hr Hst. induction Hst; eauto using reachable_step. Qed.

(** A property stable under steps and true of [s] holds of all successors. *)
Lemma rtc_invariant (I : S -> Prop) :
  (forall s s', I s -> step s s' -> I s') ->
  forall s s', rtc step s s' -> I s -> I s'.
Proof. intros Hs s s' Hr. induction Hr; eauto. Qed.
End lts.

(** ** Automation *)

Create HintDb gow.
#[export] Hint Constructors reachable : gow.
#[export] Hint Resolve reachable_init reachable_step : gow.

(** Split every boolean test, [decide] and [match] of the goal and hypotheses. *)
Ltac cases :=
  repeat (case_match; simplify_eq/=); simplify_eq/=.

(** Turn boolean facts into propositions. *)
Ltac bools :=
  repeat match goal with
  | H : _ && _ = true |- _ => apply andb_true_iff in H as [? ?]
  | H : _ || _ = false |- _ => apply orb_false_iff in H as [? ?]
  | H : negb _ = true |- _ => apply negb_true_iff in H
  | H : negb _ = false |- _ => apply negb_false_iff in H
  | H : bool_decide _ = true |- _ => apply bool_decide_eq_true in H
  | H : bool_decide _ = false |- _ => apply bool_decide_eq_false in H
  | H : String.eqb _ _ = true |- _ => apply String.eqb_eq in H
  | H : String.eqb _ _ = false |- _ => apply String.eqb_neq in H
  | H : (_ <=? _)%Z = true |- _ => apply Z.leb_le in H
  | H : (_ <=? _)%Z = false |- _ => apply Z.leb_gt in H
  | H : (_ <? _)%Z = true |- _ => apply Z.ltb_lt in H
  | H : (_ <? _)%Z = false |- _ => apply Z.ltb_ge in H
  | H : (_ =? _)%Z = true |- _ => apply Z.eqb_eq in H
  | H : (_ =? _)%Z = false |- _ => apply Z.eqb_neq in H
  end.

(** Invert a step and simplify the record states it produces. *)
Ltac inv_step H := inversion H; simplify_eq/=; clear H.

(** Extend a reachability proof by one step, closed by [tac]. *)
Ltac advance H tac :=
  let H' := fresh in
  rename H into H';
  eassert (reachable _ _ _) as H by (eapply reachable_step; [exact H'|solve [tac]]);
  clear H'.

(** ** Lists *)

Section list_lemmas.
Context {A : Type}.
Implicit Types l : list A.

Lemma existsb_forallb_negb (f : A -> bool) l :
  existsb f l = negb (forallb (fun x => negb (f x)) l).
Proof. induction l as [|x l IH]; simpl; [done|]. rewrite IH. by destruct (f x). Qed.

Lemma forallb_Forall (f : A -> bool) l :
  forallb f l = true <-> Forall (fun x => f x = true) l.
Proof.
  induction l as [|x l IH]; simpl; [by split|].
  rewrite andb_true_iff, IH, Forall_cons. done.
Qed.

Lemma existsb_Exists (f : A -> bool) l :
  existsb f l = true <-> Exists (fun x => f x = true) l.
Proof.
  induction l as [|x l IH]; simpl; [split; [done|inversion 1]|].
  rewrite orb_true_iff, IH, Exists_cons. done.
Qed.
End list_lemmas.

Lemma filter_all {A} (f : A -> bool) l : Forall (fun x => f x = true) l -> List.filter f l = l.
Proof. induction 1 as [|x l Hx _ IH]; [done|]. cbn. by rewrite Hx, IH. Qed.

Lemma filter_none {A} (f : A -> bool) l : Forall (fun x => f x = false) l -> List.filter f l = [].
Proof. induction 1 as [|x l Hx _ IH]; [done|]. cbn. by rewrite Hx. Qed.

Lemma StronglySorted_filter {A} (R : A -> A -> Prop) (f : A -> bool) l :
  StronglySorted R l -> StronglySorted R (List.filter f l).
Proof.
  induction 1 as [|x l _ IH Hf]; cbn; [constructor|]. destruct (f x); [|done]. constructor; [done|].
  rewrite Forall_forall in *. intros y Hy. apply Hf. apply list_elem_of_In in Hy.
  apply list_elem_of_In. by apply filter_In in Hy as [Hy _].
Qed.

(** The first element satisfying a test, as Go's [for ... { if p { return x } }]. *)
Fixpoint find_first {A} (p : A -> bool) (l : list A) : option A :=
  match l with
  | [] => None
  | x :: l' => if p x then Some x else find_first p l'
  end.

Lemma find_first_Some {A} (p : A -> bool) l x :
  find_first p l = Some x -> x ∈ l /\ p x = true.
Proof.
  induction l as [|y l IH]; simpl; [done|].
  destruct (p y) eqn:E; intros H.
  - simplify_eq. split; [apply elem_of_cons; by left|done].
  - destruct (IH H) as [? ?]. split; [apply elem_of_cons; by right|done].
Qed.

Lemma find_first_None {A} (p : A -> bool) l :
  find_first p l = None <-> Forall (fun x => p x = false) l.
Proof.
  induction l as [|y l IH]; simpl; [by split|].
  rewrite Forall_cons. destruct (p y) eqn:E; [naive_solver|].
  rewrite IH. naive_solver.
Qed.

Lemma find_first_app {A} (p : A -> bool) (l1 l2 : list A) :
  find_first p (l1 ++ l2) = match find_first p l1 with Some x => Some x | None => find_first p l2 end.
Proof. induction l1 as [|y l1 IH]; simpl; [done|]. by destruct (p y). Qed.

(** The last element satisfying a test, as Go's backward scans. *)
Definition find_last {A} (p : A -> bool) (l : list A) : option A := find_first p (rev l).

Lemma find_last_snoc {A} (p : A -> bool) l x :
  find_last p (l ++ [x]) = if p x then Some x else find_last p l.
Proof. unfold find_last. rewrite rev_app_distr. simpl. done. Qed.

(** ** Counting the threads of a system *)

Definition tally {A} (f : A -> bool) (m : gmap nat A) : nat := length (List.filter f (map_to_list m).*2).

Lemma filter_length_perm {A} (f : A -> bool) l l' :
  l ≡ₚ l' -> length (List.filter f l) = length (List.filter f l').
Proof. induction 1; cbn; repeat case_match; cbn; lia. Qed.

Lemma tally_new {A} (f : A -> bool) m k x :
  m !! k = None -> tally f (<[k := x]> m) = (tally f m + (if f x then 1 else 0))%nat.
Proof.
  intros H. unfold tally. rewrite (filter_length_perm f _ (x :: (map_to_list m).*2)).
  - cbn. destruct (f x); cbn; lia.
  - by rewrite map_to_list_insert.
Qed.

Lemma tally_update {A} (f : A -> bool) m k x y :
  m !! k = Some x ->
  (tally f (<[k := y]> m) + (if f x then 1 else 0) = tally f m + (if f y then 1 else 0))%nat.
Proof.
  intros H. rewrite <- insert_delete_eq. rewrite tally_new by apply lookup_delete_eq.
  assert (E : tally f m = (tally f (delete k m) + (if f x then 1 else 0))%nat).
  { rewrite <- (insert_delete_id m k x H) at 1. apply tally_new. apply lookup_delete_eq. }
  lia.
Qed.

Lemma tally_zero {A} (f : A -> bool) (m : gmap nat A) k x : tally f m = 0%nat -> m !! k = Some x -> f x = false.
Proof.
  intros H0 H. destruct (f x) eqn:E; [|done]. pose proof (tally_update f m k x x H). 
  rewrite <- (insert_delete_id m k x H) in H0. rewrite tally_new, E in H0 by apply lookup_delete_eq. lia.
Qed.

Lemma tally_pos {A} (f : A -> bool) (m : gmap nat A) :
  (0 < tally f m)%nat -> exists k x, m !! k = Some x /\ f x = true.
Proof.
  unfold tally. intros H. destruct (List.filter f (map_to_list m).*2) as [|x l] eqn:E; [cbn in H; lia|].
  assert (Hin : In x (List.filter f (map_to_list m).*2)) by (rewrite E; by left).
  apply filter_In in Hin as [Hin Hf]. apply list_elem_of_In, list_elem_of_fmap in Hin as ([k y] & -> & Hk).
  apply elem_of_map_to_list in Hk. eauto.
Qed.

Lemma tally_some {A} (f : A -> bool) (m : gmap nat A) k x :
  m !! k = Some x -> f x = true -> (0 < tally f m)%nat.
Proof.
  intros H Hf. rewrite <- (insert_delete_id m k x H), tally_new, Hf by apply lookup_delete_eq. lia.
Qed.

(** Two different keys count twice. *)
Lemma tally_unique {A} (f : A -> bool) (m : gmap nat A) k1 k2 x1 x2 :
  (tally f m <= 1)%nat -> m !! k1 = Some x1 -> m !! k2 = Some x2 -> f x1 = true -> f x2 = true -> k1 = k2.
Proof.
  intros Hle H1 H2 F1 F2. destruct (decide (k1 = k2)) as [|Hne]; [done|exfalso].
  rewrite <- (insert_delete_id m k1 x1 H1), tally_new, F1 in Hle by apply lookup_delete_eq.
  assert (0 < tally f (delete k1 m))%nat; [|lia].
  apply (tally_some f _ k2 x2); [by rewrite lookup_delete_ne|done].
Qed.

Lemma tally_le {A} (f g : A -> bool) (m : gmap nat A) :
  (forall x, f x = true -> g x = true) -> (tally f m <= tally g m)%nat.
Proof.
  intros H. unfold tally. induction (map_to_list m).*2 as [|x l IH]; cbn; [lia|].
  destruct (f x) eqn:E; [rewrite (H x E); cbn; lia|]. destruct (g x); cbn; lia.
Qed.

Lemma tally_nobody {A} (f : A -> bool) (m : gmap nat A) :
  (forall k x, m !! k = Some x -> f x = false) -> tally f m = 0%nat.
Proof.
  intros H. destruct (tally f m) eqn:E; [done|]. destruct (tally_pos f m) as (k & x & Hk & Hx); [lia|].
  by rewrite (H k x Hk) in Hx.
Qed.

(** The same for a measure. *)
Definition weigh {A} (f : A -> nat) (m : gmap nat A) : nat := sum_list (f <$> (map_to_list m).*2).

Lemma sum_list_perm l l' : l ≡ₚ l' -> sum_list l = sum_list l'.
Proof. induction 1; cbn; lia. Qed.

Lemma weigh_new {A} (f : A -> nat) m k x : m !! k = None -> weigh f (<[k := x]> m) = (weigh f m + f x)%nat.
Proof.
  intros H. unfold weigh. rewrite (sum_list_perm _ (f x :: (f <$> (map_to_list m).*2))).
  - cbn. lia.
  - by rewrite map_to_list_insert.
Qed.

Lemma weigh_update {A} (f : A -> nat) m k x y :
  m !! k = Some x -> (weigh f (<[k := y]> m) + f x = weigh f m + f y)%nat.
Proof.
  intros H. rewrite <- insert_delete_eq, weigh_new by apply lookup_delete_eq.
  rewrite <- (insert_delete_id m k x H) at 2. rewrite weigh_new by apply lookup_delete_eq. lia.
Qed.

Lemma weigh_pos {A} (f : A -> nat) (m : gmap nat A) :
  (0 < weigh f m)%nat -> exists k x, m !! k = Some x /\ (0 < f x)%nat.
Proof.
  intros H. assert (exists x, x ∈ (map_to_list m).*2 /\ (0 < f x)%nat) as (x & Hin & Hx).
  { unfold weigh in H. induction (map_to_list m).*2 as [|y l IH]; cbn in H; [lia|].
    destruct (decide (0 < f y)%nat); [exists y; split; [by left|done]|].
    destruct IH as (x & ? & ?); [lia|]. exists x. split; [by right|done]. }
  apply list_elem_of_fmap in Hin as ([k y] & -> & Hk). apply elem_of_map_to_list in Hk. eauto.
Qed.

Lemma weigh_zero {A} (f : A -> nat) (m : gmap nat A) k x : weigh f m = 0%nat -> m !! k = Some x -> f x = 0%nat.
Proof.
  intros H0 H. rewrite <- (insert_delete_id m k x H), weigh_new in H0 by apply lookup_delete_eq. lia.
Qed.

(** ** Strings

    Go orders strings by their bytes. *)
Definition string_le (a b : string) : Prop := String.leb a b = true.

#[export] Instance string_le_dec a b : Decision (string_le a b).
Proof. unfold string_le. apply _. Defined.

#[export] Instance string_le_trans : Transitive string_le.
Proof. intros a b c H1 H2. apply Is_true_true_1, (transitivity (R := String.le) (y := b)); by apply Is_true_true_2. Qed.
#[export] Instance string_le_total : Total string_le.
Proof.
  intros a b. destruct (total String.le a b) as [H|H]; [left|right]; by apply Is_true_true_1.
Qed.
#[export] Instance string_le_antisymm : AntiSymm (=) string_le.
Proof. intros a b H1 H2. apply (anti_symm String.le); by apply Is_true_true_2. Qed.

Lemma string_append_inj (c a b : string) : a +:+ c = b +:+ c -> a = b.
Proof.
  intros Hs. apply (f_equal list_ascii_of_string) in Hs.
  assert (Happ : forall x y, list_ascii_of_string (x +:+ y) = list_ascii_of_string x ++ list_ascii_of_string y).
  { induction x as [|z x IH]; intros y; cbn; [done|]. by rewrite <- IH. }
  rewrite !Happ in Hs. apply app_inv_tail in Hs.
  rewrite <- (string_of_list_ascii_of_string a), <- (string_of_list_ascii_of_string b). by rewrite Hs.
Qed.

(** ** Time

    [time.Time] as nanoseconds since Go's zero time, so that [IsZero] is [0]. *)
Definition Time : Type := Z.
Bind Scope Z_scope with Time.
Definition IsZero (t : Time) : bool := (t =? 0)%Z.
Definition After (a b : Time) : bool := (b <? a)%Z.
Definition Second : Z := 1000000000.
Definition Millisecond : Z := 1000000.
