(* ===== verification/DispatchTask.v ===== *)
(** * ai-dispatch/task/task.go: the task model and its state machine

    [Kind] and [Status] are Go string types, so any string is a possible value
    (a replayed snapshot may hold one); the named constants are the ones the
    transition table knows. *)

From S2P Require Import Prelude.
#[local] Open Scope string_scope.
#[local] Open Scope list_scope.

Module Task.

(** ** Data *)

Definition Kind : Type := string.
Definition KindCode : Kind := "code".
Definition KindGeneral : Kind := "general".

Definition ValidKind (k : Kind) : bool := String.eqb k KindCode || String.eqb k KindGeneral.

Definition Status : Type := string.
Definition StatusQueued : Status := "queued".
Definition StatusDispatching : Status := "dispatching".
Definition StatusWorking : Status := "working".
Definition StatusAwaitingReview : Status := "awaiting_review".
Definition StatusMerging : Status := "merging".
Definition StatusDone : Status := "done".
Definition StatusRejected : Status := "rejected".
Definition StatusFailed : Status := "failed".
Definition StatusCancelled : Status := "cancelled".

Definition Terminal (s : Status) : bool :=
  String.eqb s StatusDone || String.eqb s StatusRejected
  || String.eqb s StatusFailed || String.eqb s StatusCancelled.

(** [transitions[from]]: a missing key is the nil slice. *)
Definition transitions (from : Status) : list Status :=
  if String.eqb from StatusQueued then [StatusDispatching; StatusFailed; StatusCancelled]
  else if String.eqb from StatusDispatching then [StatusWorking; StatusFailed; StatusCancelled]
  else if String.eqb from StatusWorking then [StatusAwaitingReview; StatusFailed; StatusCancelled]
  else if String.eqb from StatusAwaitingReview then
    [StatusMerging; StatusDone; StatusRejected; StatusFailed; StatusCancelled]
  else if String.eqb from StatusMerging then [StatusDone; StatusFailed; StatusCancelled]
  else [].

Definition CanTransition (from to : Status) : bool :=
  existsb (fun next => String.eqb next to) (transitions from).

Record Task := mkTask {
  ID : string;
  Source : string;
  TKind : Kind;
  Prompt : string;
  Repo : string;
  Worker : string;
  TStatus : Status;
  BaseCommit : string;
  Worktree : string;
  Branch : string;
  WorkerSession : string;
  Commits : list string;
  TError : string;
  CreatedAt : Time;
  UpdatedAt : Time;
  ExpiresAt : Time;
}.

#[export] Instance Task_eq_dec : EqDecision Task.
Proof. solve_decision. Defined.

(** Tasks as field lists, which makes them countable. *)
Definition task_fields (t : Task) : list (string + (Z + list string)) :=
  [inl (ID t); inl (Source t); inl (TKind t); inl (Prompt t); inl (Repo t); inl (Worker t);
   inl (TStatus t); inl (BaseCommit t); inl (Worktree t); inl (Branch t); inl (WorkerSession t);
   inr (inr (Commits t)); inl (TError t); inr (inl (CreatedAt t)); inr (inl (UpdatedAt t));
   inr (inl (ExpiresAt t))].

Definition fields_task (fs : list (string + (Z + list string))) : option Task :=
  match fs with
  | [inl a; inl b; inl c; inl d; inl e; inl f; inl g; inl h; inl i; inl j; inl k;
     inr (inr l); inl m; inr (inl n); inr (inl o); inr (inl p)] =>
      Some (mkTask a b c d e f g h i j k l m n o p)
  | _ => None
  end.

#[export] Instance Task_countable : Countable Task.
Proof. apply (inj_countable task_fields fields_task). by intros []. Defined.

(** Field assignments [t.Status = s], [t.UpdatedAt = now], ... *)
Definition set_Status (s : Status) (t : Task) : Task :=
  mkTask (ID t) (Source t) (TKind t) (Prompt t) (Repo t) (Worker t) s (BaseCommit t) (Worktree t)
    (Branch t) (WorkerSession t) (Commits t) (TError t) (CreatedAt t) (UpdatedAt t) (ExpiresAt t).
Definition set_UpdatedAt (u : Time) (t : Task) : Task :=
  mkTask (ID t) (Source t) (TKind t) (Prompt t) (Repo t) (Worker t) (TStatus t) (BaseCommit t)
    (Worktree t) (Branch t) (WorkerSession t) (Commits t) (TError t) (CreatedAt t) u (ExpiresAt t).
Definition set_CreatedAt (c : Time) (t : Task) : Task :=
  mkTask (ID t) (Source t) (TKind t) (Prompt t) (Repo t) (Worker t) (TStatus t) (BaseCommit t)
    (Worktree t) (Branch t) (WorkerSession t) (Commits t) (TError t) c (UpdatedAt t) (ExpiresAt t).
Definition set_Error (e : string) (t : Task) : Task :=
  mkTask (ID t) (Source t) (TKind t) (Prompt t) (Repo t) (Worker t) (TStatus t) (BaseCommit t)
    (Worktree t) (Branch t) (WorkerSession t) (Commits t) e (CreatedAt t) (UpdatedAt t) (ExpiresAt t).

(** ** Operations *)

(** [ErrInvalidTransition], with the two messages that wrap it. *)
Inductive transition_error : Type :=
  | ErrTerminal (s : Status)
  | ErrIllegal (from to : Status).

(** [t.Transition(to)] at clock reading [now]. *)
Definition Transition (now : Time) (to : Status) (t : Task) : result transition_error Task :=
  if Terminal (TStatus t) then Err (ErrTerminal (TStatus t))
  else if negb (CanTransition (TStatus t) to) then Err (ErrIllegal (TStatus t) to)
  else Ok (set_UpdatedAt now (set_Status to t)).

(** [t.FailInto(reason)]. *)
Definition FailInto (now : Time) (reason : string) (t : Task) : result transition_error Task :=
  let finish (t : Task) := Ok (set_UpdatedAt now (set_Error reason t)) in
  if negb (Terminal (TStatus t)) then
    t' ← Transition now StatusFailed t; finish t'
  else finish t.

(** ** Properties *)

Lemma CanTransition_elem from to : CanTransition from to = true <-> to ∈ transitions from.
Proof.
  unfold CanTransition. rewrite existsb_Exists, Exists_exists. split.
  - intros (x & Hx & E). by apply String.eqb_eq in E as ->.
  - intros H. exists to. by rewrite String.eqb_refl.
Qed.

(** Case analysis on the transition table. *)
Ltac table :=
  unfold transitions, Terminal in *;
  repeat match goal with
  | |- context [String.eqb ?a ?b] => destruct (String.eqb_spec a b); subst
  | H : context [String.eqb ?a ?b] |- _ => destruct (String.eqb_spec a b); subst
  end; try done.

Lemma Terminal_no_transitions s : Terminal s = true -> transitions s = [].
Proof. table. Qed.

(** A non-terminal status of the table can always fail and be cancelled. *)
Lemma live_can_fail s :
  transitions s <> [] -> CanTransition s StatusFailed = true /\ CanTransition s StatusCancelled = true.
Proof. unfold CanTransition. table. Qed.

(** A rank that every accepted transition increases: the machine is acyclic. *)
Definition rank (s : Status) : nat :=
  if String.eqb s StatusQueued then 0
  else if String.eqb s StatusDispatching then 1
  else if String.eqb s StatusWorking then 2
  else if String.eqb s StatusAwaitingReview then 3
  else if String.eqb s StatusMerging then 4
  else 5.

(** Enumerate the successors of a status known to the table. *)
Ltac successors :=
  rewrite ?CanTransition_elem; unfold transitions;
  repeat (case_match; bools; subst;
    [rewrite ?elem_of_cons, ?elem_of_nil; intros; destruct_or?; subst; try done|]);
  try by rewrite elem_of_nil.

Lemma CanTransition_rank a b : CanTransition a b = true -> rank a < rank b.
Proof. successors; compute; lia. Qed.

Lemma rank_le s : rank s <= 5.
Proof. unfold rank. repeat case_match; lia. Qed.

(** The statuses before the human review. *)
Definition unreviewed (s : Status) : Prop :=
  s = StatusQueued \/ s = StatusDispatching \/ s = StatusWorking.

Lemma unreviewed_next a b :
  unreviewed a -> CanTransition a b = true ->
  unreviewed b \/ b = StatusAwaitingReview \/ (Terminal b = true /\ b <> StatusDone).
Proof. unfold unreviewed. intros [-> | [-> | ->]]; successors; naive_solver. Qed.

Lemma Transition_ok now to t t' :
  Transition now to t = Ok t' <->
  Terminal (TStatus t) = false /\ CanTransition (TStatus t) to = true
  /\ t' = set_UpdatedAt now (set_Status to t).
Proof.
  unfold Transition. destruct (Terminal _), (CanTransition _ _); simpl; naive_solver.
Qed.

(** A sequence of accepted [Transition] calls, each at its clock reading. *)
Fixpoint run_transitions (steps : list (Time * Status)) (t : Task) : result transition_error Task :=
  match steps with
  | [] => Ok t
  | (now, to) :: steps' => t' ← Transition now to t; run_transitions steps' t'
  end.

Lemma run_transitions_cons now to steps t t' :
  run_transitions ((now, to) :: steps) t = Ok t' ->
  exists t1, Transition now to t = Ok t1 /\ run_transitions steps t1 = Ok t'.
Proof. simpl. destruct (Transition now to t) as [t1|e] eqn:E; simpl; [eauto|done]. Qed.

Lemma run_transitions_rank steps t t' :
  run_transitions steps t = Ok t' -> rank (TStatus t) + length steps <= rank (TStatus t').
Proof.
  revert t. induction steps as [|[now to] steps IH]; intros t.
  - intros [= ->]. simpl. lia.
  - intros (t1 & [_ [Hc ->]]%Transition_ok & Hr)%run_transitions_cons.
    apply IH in Hr. apply CanTransition_rank in Hc. simpl in *. lia.
Qed.

Lemma run_transitions_terminal steps t t' :
  Terminal (TStatus t) = true -> run_transitions steps t = Ok t' -> t' = t.
Proof.
  destruct steps as [|[now to] steps]; [by intros _ [= ->]|].
  intros HT (t1 & [HT' _]%Transition_ok & _)%run_transitions_cons. congruence.
Qed.

Lemma run_transitions_review steps t t' :
  unreviewed (TStatus t) -> run_transitions steps t = Ok t' ->
  TStatus t' = StatusDone -> StatusAwaitingReview ∈ steps.*2.
Proof.
  revert t. induction steps as [|[now to] steps IH]; intros t Hu.
  - intros [= ->] E. rewrite E in Hu. unfold unreviewed in Hu. naive_solver.
  - intros (t1 & [_ [Hc ->]]%Transition_ok & Hr)%run_transitions_cons Hd.
    simpl. apply elem_of_cons.
    destruct (unreviewed_next _ _ Hu Hc) as [Hu' | [-> | [HT Hne]]]; [right|by left|].
    + refine (IH _ _ Hr Hd). exact Hu'.
    + apply run_transitions_terminal in Hr; [|done]. subst t'. by destruct Hne.
Qed.

(** C8: from [queued], accepted transitions go strictly forward: a task makes at
    most five of them, it reaches [done] only through [awaiting_review] (the
    human gate), and a finished task accepts no further transition. *)
Theorem run_transitions_bounded_and_reviewed steps t t' :
  TStatus t = StatusQueued -> run_transitions steps t = Ok t' ->
  length steps <= 5
  /\ (TStatus t' = StatusDone -> StatusAwaitingReview ∈ steps.*2)
  /\ (Terminal (TStatus t') = true -> forall now to, is_err (Transition now to t') = true).
Proof.
  intros Hq Hr. split_and!.
  - pose proof (run_transitions_rank _ _ _ Hr). pose proof (rank_le (TStatus t')).
    rewrite Hq in *. unfold rank in H at 1. simpl in H. lia.
  - apply (run_transitions_review _ _ _ ltac:(by left) Hr).
  - intros HT now to. unfold Transition. by rewrite HT.
Qed.

Definition sample_task : Task :=
  mkTask "task_1" "repl" KindCode "fix" "/repo" "claude" StatusQueued "" "" "" "" [] "" 1 1 0.

Definition sample_steps : list (Time * Status) :=
  [(2, StatusDispatching); (3, StatusWorking); (4, StatusAwaitingReview);
   (5, StatusMerging); (6, StatusDone)]%Z.

Definition sample_done : Task :=
  set_UpdatedAt 6 (set_Status StatusDone sample_task).

Lemma run_transitions_bounded_and_reviewed_witness :
  length sample_steps <= 5
  /\ (TStatus sample_done = StatusDone -> StatusAwaitingReview ∈ sample_steps.*2)
  /\ (Terminal (TStatus sample_done) = true ->
      forall now to, is_err (Transition now to sample_done) = true).
Proof.
  apply (run_transitions_bounded_and_reviewed sample_steps sample_task sample_done);
    vm_compute; reflexivity.
Defined.

(** [FailInto] on every branch. On a terminal task the status stays and only
    the error (and clock) is recorded; on a live task of the table it moves to
    [failed]; it fails only for a status the table does not know, and then
    reports the rejected transition. *)
Theorem FailInto_spec now reason t :
  match FailInto now reason t with
  | Ok t' =>
      TError t' = reason /\ UpdatedAt t' = now /\ ID t' = ID t
      /\ Terminal (TStatus t') = true
      /\ TStatus t' = (if Terminal (TStatus t) then TStatus t else StatusFailed)
  | Err e =>
      e = ErrIllegal (TStatus t) StatusFailed /\ transitions (TStatus t) = []
      /\ Terminal (TStatus t) = false
  end.
Proof.
  unfold FailInto, Transition.
  destruct (Terminal (TStatus t)) eqn:HT; simpl; [done|].
  destruct (CanTransition (TStatus t) StatusFailed) eqn:HC; simpl; [done|].
  split_and!; [done| |done].
  destruct (transitions (TStatus t)) eqn:E; [done|].
  destruct (live_can_fail (TStatus t)); congruence.
Qed.

End Task.
