(* ===== verification/GoString.v ===== *)
(** * Go strings: the part of the standard library the components use

    A Go string is a byte sequence ([string]); [range] decodes it as UTF-8. The
    functions below follow package [strings], [unicode] and [path/filepath]
    (Unix) on every byte sequence, valid UTF-8 or not. *)

From S2P Require Import Prelude.
#[local] Open Scope string_scope.
#[local] Open Scope list_scope.

(** ** UTF-8 *)

Definition byte_val (a : ascii) : N := N_of_ascii a.
Definition in_range (lo hi x : N) : bool := (lo <=? x)%N && (x <=? hi)%N.
Definition RuneError : N := 65533.

(** Well-formed sequences of two, three and four bytes. *)
Definition ok2 (x y : N) : bool := in_range 194 223 x && in_range 128 191 y.
Definition ok3 (x y z : N) : bool :=
  in_range 224 239 x && in_range 128 191 z
  && in_range (if (x =? 224)%N then 160 else 128) (if (x =? 237)%N then 159 else 191) y.
Definition ok4 (x y z w : N) : bool :=
  in_range 240 244 x && in_range 128 191 z && in_range 128 191 w
  && in_range (if (x =? 240)%N then 144 else 128) (if (x =? 244)%N then 143 else 191) y.

(** The runes of a string, each with the bytes it was decoded from; an invalid
    byte is one [RuneError] of width one. *)
Fixpoint runes (s : string) : list (N * string) :=
  match s with
  | EmptyString => []
  | String a s1 =>
      let x := byte_val a in
      let err := (RuneError, String a EmptyString) in
      if (x <? 128)%N then (x, String a EmptyString) :: runes s1
      else match s1 with
      | EmptyString => [err]
      | String b s2 =>
          let y := byte_val b in
          if ok2 x y then
            (N.lor (N.shiftl (N.land x 31) 6) (N.land y 63), String a (String b EmptyString))
            :: runes s2
          else match s2 with
          | EmptyString => err :: runes s1
          | String c s3 =>
              let z := byte_val c in
              if ok3 x y z then
                (N.lor (N.shiftl (N.land x 15) 12) (N.lor (N.shiftl (N.land y 63) 6) (N.land z 63)),
                 String a (String b (String c EmptyString))) :: runes s3
              else match s3 with
              | EmptyString => err :: runes s1
              | String d s4 =>
                  let w := byte_val d in
                  if ok4 x y z w then
                    (N.lor (N.shiftl (N.land x 7) 18) (N.lor (N.shiftl (N.land y 63) 12)
                       (N.lor (N.shiftl (N.land z 63) 6) (N.land w 63))),
                     String a (String b (String c (String d EmptyString)))) :: runes s4
                  else err :: runes s1
              end
          end
      end
  end.

(** The bytes of a rune list. *)
Definition raw (rs : list (N * string)) : string :=
  foldr (fun r acc => String.append r.2 acc) "" rs.

(** The bytes of a string as runes of width one, for byte-indexed loops. *)
Fixpoint chars (s : string) : list N :=
  match s with
  | EmptyString => []
  | String a s' => byte_val a :: chars s'
  end.

Definition rune (c : ascii) : N := byte_val c.

(** ** Package strings *)

Definition IsSpace (r : N) : bool :=
  in_range 9 13 r || (r =? 32)%N || (r =? 133)%N || (r =? 160)%N || (r =? 5760)%N
  || in_range 8192 8202 r || (r =? 8232)%N || (r =? 8233)%N || (r =? 8239)%N
  || (r =? 8287)%N || (r =? 12288)%N.

Definition is_space (r : N * string) : bool := IsSpace r.1.

Fixpoint drop_while {A} (p : A -> bool) (l : list A) : list A :=
  match l with
  | [] => []
  | x :: l' => if p x then drop_while p l' else l
  end.

Definition trim_runes (rs : list (N * string)) : list (N * string) :=
  rev (drop_while is_space (rev (drop_while is_space rs))).

Definition TrimSpace (s : string) : string := raw (trim_runes (runes s)).

(** [Fields]: [cur] is the field being read, reversed. *)
Fixpoint fields_go (cur : list (N * string)) (rs : list (N * string)) : list string :=
  let flush := match cur with [] => [] | _ => [raw (rev cur)] end in
  match rs with
  | [] => flush
  | r :: rs' => if is_space r then flush ++ fields_go [] rs' else fields_go (r :: cur) rs'
  end.

Definition Fields (s : string) : list string := fields_go [] (runes s).

Definition HasPrefix (s p : string) : bool := String.prefix p s.

Fixpoint Contains (s sub : string) : bool :=
  String.prefix sub s || match s with EmptyString => false | String _ s' => Contains s' sub end.

Fixpoint string_rev_app (s acc : string) : string :=
  match s with EmptyString => acc | String a s' => string_rev_app s' (String a acc) end.
Definition string_rev (s : string) : string := string_rev_app s "".

Definition HasSuffix (s p : string) : bool := HasPrefix (string_rev s) (string_rev p).

Fixpoint string_drop (n : nat) (s : string) : string :=
  match n, s with
  | S n', String _ s' => string_drop n' s'
  | _, _ => s
  end.

Definition slen (s : string) : Z := Z.of_nat (String.length s).

Definition TrimPrefix (s p : string) : string := if HasPrefix s p then string_drop (String.length p) s else s.

Definition TrimSuffix (s p : string) : string :=
  if HasSuffix s p then string_rev (string_drop (String.length p) (string_rev s)) else s.

(** [s[i]] for [i < len(s)]. *)
Definition byte_at (i : nat) (s : string) : option ascii := String.get i s.

(** [ToUpper], exact on the runes whose upper case is an ASCII letter (a to z,
    U+0131, U+017F): its only use compares the result with ASCII words, which no
    other rune can produce. *)
Definition upper_rune (r : N * string) : string :=
  if in_range 97 122 r.1 then String (ascii_of_N (r.1 - 32)) ""
  else if (r.1 =? 305)%N then "I"
  else if (r.1 =? 383)%N then "S"
  else r.2.
Definition ToUpper (s : string) : string := foldr (fun r acc => upper_rune r +:+ acc) "" (runes s).

(** [EqualFold(s, w)] for an ASCII lower-case [w]: simple folding sends A to Z,
    U+017F and U+212A to ASCII letters and no other rune. *)
Definition fold_rune (r : N * string) : string :=
  if in_range 65 90 r.1 then String (ascii_of_N (r.1 + 32)) ""
  else if (r.1 =? 383)%N then "s"
  else if (r.1 =? 8490)%N then "k"
  else r.2.
Definition EqualFold (s w : string) : bool :=
  String.eqb (foldr (fun r acc => fold_rune r +:+ acc) "" (runes s)) w.

(** ** Package path/filepath (Unix) *)

Definition slash : ascii := "/"%char.

Fixpoint strip_slashes (s : string) : string :=
  match s with
  | String a s' => if Ascii.eqb a slash then strip_slashes s' else s
  | EmptyString => EmptyString
  end.

Fixpoint take_to_slash (s : string) : string :=
  match s with
  | String a s' => if Ascii.eqb a slash then EmptyString else String a (take_to_slash s')
  | EmptyString => EmptyString
  end.

(** [filepath.Base]: drop trailing slashes, keep what follows the last slash. *)
Definition Base (path : string) : string :=
  if String.eqb path "" then "."
  else
    let p := strip_slashes (string_rev path) in
    if String.eqb p "" then "/" else string_rev (take_to_slash p).

(** ** Lemmas *)

Lemma append_assoc (a b c : string) : a +:+ (b +:+ c) = (a +:+ b) +:+ c.
Proof.
  induction a as [|x a IH]; [done|].
  change (String x (a +:+ (b +:+ c)) = String x ((a +:+ b) +:+ c)). by rewrite IH.
Qed.

Lemma append_nil_r (a : string) : a +:+ "" = a.
Proof. induction a as [|x a IH]; [done|]. change (String x (a +:+ "") = String x a). by rewrite IH. Qed.

Lemma length_append a b : String.length (a +:+ b) = (String.length a + String.length b)%nat.
Proof. induction a as [|x a IH]; [done|]. change (String x a +:+ b) with (String x (a +:+ b)). cbn [String.length]. by rewrite IH. Qed.

Lemma string_rev_app_spec s acc : string_rev_app s acc = string_rev s +:+ acc.
Proof.
  unfold string_rev. revert acc. induction s as [|a s IH]; intros acc; simpl; [done|].
  rewrite (IH (String a acc)), (IH (String a "")).  rewrite <- append_assoc. done.
Qed.

Lemma raw_app a b : raw (a ++ b) = raw a +:+ raw b.
Proof.
  induction a as [|r a IH]; simpl; [done|].  by rewrite IH, append_assoc.
Qed.

Lemma raw_cons r rs : raw (r :: rs) = r.2 +:+ raw rs.
Proof. done. Qed.

(** Decoding loses no byte. *)
Lemma raw_runes s : raw (runes s) = s.
Proof.
  remember (String.length s) as n eqn:Hn. assert (Hle : String.length s <= n) by lia. clear Hn.
  revert s Hle. induction n as [|n IH]; intros s Hle.
  - destruct s; [done|simpl in Hle; lia].
  - destruct s as [|a s1]; [done|]. simpl in Hle.
    assert (Hs : forall t, String.length t <= String.length s1 -> raw (runes t) = t)
      by (intros t Ht; apply IH; lia).
    cbn [runes]. case_match; [by rewrite raw_cons, Hs|].
    destruct s1 as [|b s2]; [done|]. lazy beta match zeta.
    case_match; [rewrite raw_cons, Hs by (simpl; lia); done|].
    destruct s2 as [|c s3]; lazy beta match zeta; [by rewrite raw_cons, Hs|].
    case_match; [rewrite raw_cons, Hs by (simpl; lia); done|].
    destruct s3 as [|d s4]; lazy beta match zeta; [by rewrite raw_cons, Hs|].
    case_match; [rewrite raw_cons, Hs by (simpl; lia); done|].
    by rewrite raw_cons, Hs.
Qed.

(** Decoding splits at an ASCII byte, whatever precedes it. *)
Lemma in_range_low lo hi x : (x < lo)%N -> in_range lo hi x = false.
Proof. intros H. unfold in_range. by assert ((lo <=? x)%N = false) as -> by (apply N.leb_gt; lia). Qed.

Lemma ascii_not_continuation c x y z :
  (byte_val c <? 128)%N = true ->
  ok2 x (byte_val c) = false /\ ok3 x (byte_val c) z = false /\ ok3 x y (byte_val c) = false.
Proof.
  intros H%N.ltb_lt. unfold ok2, ok3. repeat split.
  - rewrite (in_range_low 128 191) by lia. by rewrite andb_false_r.
  - rewrite (in_range_low (if (x =? 224)%N then 160 else 128)) by (case_match; lia).
    by rewrite andb_false_r.
  - rewrite (in_range_low 128 191) by lia. by rewrite andb_false_r.
Qed.

Lemma ascii_not_continuation4 c x y z w :
  (byte_val c <? 128)%N = true ->
  ok4 x (byte_val c) z w = false /\ ok4 x y (byte_val c) w = false /\ ok4 x y z (byte_val c) = false.
Proof.
  intros H%N.ltb_lt. unfold ok4. repeat split.
  - rewrite (in_range_low (if (x =? 240)%N then 144 else 128)) by (case_match; lia).
    by rewrite andb_false_r.
  - rewrite (in_range_low 128 191 (byte_val c)) by lia. by rewrite andb_false_r.
  - rewrite (in_range_low 128 191 (byte_val c)) by lia. by rewrite !andb_false_r.
Qed.

Lemma runes_ascii c b :
  (byte_val c <? 128)%N = true -> runes (String c b) = (byte_val c, String c "") :: runes b.
Proof. intros H. cbn [runes]. by rewrite H. Qed.

Lemma runes_app_ascii a c b :
  (byte_val c <? 128)%N = true -> runes (a +:+ String c b) = runes a ++ runes (String c b).
Proof.
  intros Hc. rewrite (runes_ascii c b Hc).
  remember (String.length a) as n eqn:Hn. assert (Hle : String.length a <= n) by lia. clear Hn.
  revert a Hle. induction n as [|n IH]; intros a Hle.
  { destruct a; [by rewrite <- runes_ascii|simpl in Hle; lia]. }
  destruct a as [|x a1]; [by rewrite <- runes_ascii|]. simpl in Hle.
  assert (Hs : forall t, String.length t <= String.length a1 ->
            runes (t +:+ String c b) = runes t ++ (byte_val c, String c "") :: runes b)
    by (intros t Ht; apply IH; lia).
  change (String x a1 +:+ String c b) with (String x (a1 +:+ String c b)).
  cbn [runes]. destruct (byte_val x <? 128)%N; [by rewrite Hs|].
  destruct a1 as [|y a2].
  { change ("" +:+ String c b) with (String c b). lazy beta match zeta.
    rewrite (proj1 (ascii_not_continuation c (byte_val x) 0 0 Hc)).
    destruct b as [|d b2]; [by rewrite runes_ascii|]. lazy beta match zeta.
    rewrite (proj1 (proj2 (ascii_not_continuation c (byte_val x) 0 (byte_val d) Hc))).
    destruct b2 as [|e b3]; [by rewrite runes_ascii|]. lazy beta match zeta.
    rewrite (proj1 (ascii_not_continuation4 c (byte_val x) 0 (byte_val d) (byte_val e) Hc)).
    by rewrite runes_ascii. }
  change (String y a2 +:+ String c b) with (String y (a2 +:+ String c b)).
  lazy beta match zeta.
  destruct (ok2 (byte_val x) (byte_val y)); [rewrite Hs by (simpl; lia); done|].
  change (String y (a2 +:+ String c b)) with (String y a2 +:+ String c b). rewrite Hs by done.
  destruct a2 as [|z a3].
  { change ("" +:+ String c b) with (String c b). lazy beta match zeta.
    rewrite (proj2 (proj2 (ascii_not_continuation c (byte_val x) (byte_val y) 0 Hc))).
    destruct b as [|d b2]; [done|]. lazy beta match zeta.
    by rewrite (proj1 (proj2 (ascii_not_continuation4 c (byte_val x) (byte_val y) 0 (byte_val d) Hc))). }
  change (String z a3 +:+ String c b) with (String z (a3 +:+ String c b)).
  lazy beta match zeta.
  destruct (ok3 (byte_val x) (byte_val y) (byte_val z)); [rewrite Hs by (simpl; lia); done|].
  destruct a3 as [|w a4].
  { change ("" +:+ String c b) with (String c b). lazy beta match zeta.
    by rewrite (proj2 (proj2 (ascii_not_continuation4 c (byte_val x) (byte_val y) (byte_val z) 0 Hc))). }
  change (String w a4 +:+ String c b) with (String w (a4 +:+ String c b)).
  lazy beta match zeta.
  destruct (ok4 (byte_val x) (byte_val y) (byte_val z) (byte_val w));
    [rewrite Hs by (simpl; lia); done|done].
Qed.

Example runes_mixed : fst <$> runes "a中 ⏎" = [97; 20013; 32; 9166]%N.
Proof. reflexivity. Qed.
Example fields_ex : Fields "  FOO=1  git   push " = ["FOO=1"; "git"; "push"].
Proof. reflexivity. Qed.
Example base_ex : (Base "/usr/bin/curl", Base "rm", Base "/", Base "a//", Base "") =
  ("curl", "rm", "/", "a", ".").
Proof. reflexivity. Qed.
Example trim_ex : TrimSpace "  x y  " = "x y".
Proof. reflexivity. Qed.
