(* ===== verification/GoRegexp.v ===== *)
(** * Package regexp: the part the sandbox uses

    Patterns are regular expressions over runes; a match is the leftmost one,
    with the preferences of the backtracking order (greedy operators, left
    alternative first), as Go documents. [Compile] reads the syntax of the
    repository's own patterns: literals, escapes, [.], [^], [$], bracket
    classes, groups, alternation and the greedy [*], [+], [?]; any other
    construct of Go's syntax is refused here like a syntax error. The theorems
    about the sandbox quantify over compiled patterns and do not depend on
    [Compile]. *)

From S2P Require Import Prelude GoString.
#[local] Open Scope string_scope.
#[local] Open Scope list_scope.

(** ** Syntax *)

Inductive re : Type :=
  | RNil
  | RClass (neg : bool) (rs : list (N * N))
  | RCat (a b : re)
  | RAlt (a b : re)
  | RStar (a : re)
  | RQuest (a : re)
  | RGroup (n : nat) (a : re)
  | RBegin
  | REnd.

Definition RPlus (a : re) : re := RCat a (RStar a).

Definition class_matches (neg : bool) (rs : list (N * N)) (x : N) : bool :=
  xorb neg (existsb (fun r => in_range r.1 r.2 x) rs).

(** A compiled pattern; [String()] returns its source. *)
Record Regexp := mkRegexp { source : string; prog : re }.

(** ** Matching *)

Definition input : Type := list (N * string).
Definition caps : Type := list (nat * string).
Definition cont : Type := input -> caps -> option (input * caps).

(** [m total r s c k]: match [r] at the input [s] (of a text of [total] runes),
    then continue with [k]. A star iterates only while it consumes, so the
    length of the input bounds its iterations. *)
Fixpoint m (total : nat) (r : re) (s : input) (c : caps) (k : cont) : option (input * caps) :=
  match r with
  | RNil => k s c
  | RClass neg rs =>
      match s with
      | x :: s' => if class_matches neg rs x.1 then k s' c else None
      | [] => None
      end
  | RCat a b => m total a s c (fun s' c' => m total b s' c' k)
  | RAlt a b => match m total a s c k with Some x => Some x | None => m total b s c k end
  | RStar a =>
      (fix loop (fuel : nat) (s : input) (c : caps) : option (input * caps) :=
         match fuel with
         | O => k s c
         | S fuel' =>
             match m total a s c
                     (fun s' c' => if (length s' <? length s)%nat then loop fuel' s' c' else None) with
             | Some x => Some x
             | None => k s c
             end
         end) (length s) s c
  | RQuest a => match m total a s c k with Some x => Some x | None => k s c end
  | RGroup n a =>
      m total a s c (fun s' c' => k s' ((n, raw (take (length s - length s') s)) :: c'))
  | RBegin => if (length s =? total)%nat then k s c else None
  | REnd => match s with [] => k s c | _ => None end
  end.

(** The leftmost match from a position: the input left after it and its captures. *)
Fixpoint search (total : nat) (r : re) (s : input) : option (input * caps) :=
  match m total r s [] (fun s' c' => Some (s', c')) with
  | Some x => Some x
  | None => match s with [] => None | _ :: s' => search total r s' end
  end.

Definition MatchString (p : Regexp) (s : string) : bool :=
  let rs := runes s in
  match search (length rs) (prog p) rs with Some _ => true | None => false end.

(** Group [n] of a match; an unmatched group is the empty string. *)
Definition submatch (c : caps) (n : nat) : string :=
  match find_first (fun x => (x.1 =? n)%nat) c with Some x => x.2 | None => "" end.

Definition FindStringSubmatch (p : Regexp) (s : string) : option caps :=
  let rs := runes s in snd <$> search (length rs) (prog p) rs.

(** The successive matches; each non-empty match consumes input. *)
Fixpoint find_all (fuel total : nat) (r : re) (s : input) : list caps :=
  match fuel with
  | O => []
  | S fuel' =>
      match search total r s with
      | None => []
      | Some (s', c) => c :: find_all fuel' total r s'
      end
  end.

Definition FindAllStringSubmatch (p : Regexp) (s : string) : list caps :=
  let rs := runes s in find_all (length rs) (length rs) (prog p) rs.

(** ** Compile *)

Definition ch (a : ascii) : N := byte_val a.
Definition single (x : N) : list (N * N) := [(x, x)].
Definition space_class : list (N * N) := [(9, 10); (12, 13); (32, 32)]%N.
Definition digit_class : list (N * N) := [(48, 57)]%N.
Definition word_class : list (N * N) := [(48, 57); (65, 90); (95, 95); (97, 122)]%N.

Definition is_punct (x : N) : bool :=
  in_range 33 47 x || in_range 58 64 x || in_range 91 96 x || in_range 123 126 x.

(** The class an escape stands for: negated?, ranges. *)
Definition escape (x : N) : option (bool * list (N * N)) :=
  if (x =? ch "s")%N then Some (false, space_class)
  else if (x =? ch "S")%N then Some (true, space_class)
  else if (x =? ch "d")%N then Some (false, digit_class)
  else if (x =? ch "D")%N then Some (true, digit_class)
  else if (x =? ch "w")%N then Some (false, word_class)
  else if (x =? ch "W")%N then Some (true, word_class)
  else if (x =? ch "n")%N then Some (false, single 10)
  else if (x =? ch "t")%N then Some (false, single 9)
  else if (x =? ch "r")%N then Some (false, single 13)
  else if is_punct x then Some (false, single x)
  else None.

(** The items of a bracket class up to its closing bracket. *)
Fixpoint p_class (s : list N) (acc : list (N * N)) : option (list (N * N) * list N) :=
  match s with
  | [] => None
  | x :: s1 =>
      if (x =? ch "]")%N then match acc with [] => None | _ => Some (acc, s1) end
      else if (x =? ch "[")%N then None
      else if (x =? ch "\")%N then
        match s1 with
        | y :: s2 => match escape y with
                     | Some (false, rs) => p_class s2 (acc ++ rs)
                     | _ => None
                     end
        | [] => None
        end
      else match s1 with
      | d :: hi :: s3 =>
          if (d =? ch "-")%N && negb (hi =? ch "]")%N then
            if (x <=? hi)%N && negb (hi =? ch "\")%N then p_class s3 (acc ++ [(x, hi)]) else None
          else p_class s1 (acc ++ single x)
      | _ => p_class s1 (acc ++ single x)
      end
  end.

(** A greedy postfix operator; a second one is not a plain repetition. *)
Definition is_rep (x : N) : bool :=
  (x =? ch "*")%N || (x =? ch "+")%N || (x =? ch "?")%N || (x =? ch "{")%N.

Definition p_rep (a : re) (s : list N) : option (re * list N) :=
  match s with
  | x :: s' =>
      if is_rep x then
        match s' with
        | y :: _ => if is_rep y then None
                    else if (x =? ch "*")%N then Some (RStar a, s')
                    else if (x =? ch "+")%N then Some (RPlus a, s')
                    else if (x =? ch "?")%N then Some (RQuest a, s') else None
        | [] => if (x =? ch "*")%N then Some (RStar a, s')
                else if (x =? ch "+")%N then Some (RPlus a, s')
                else if (x =? ch "?")%N then Some (RQuest a, s') else None
        end
      else Some (a, s)
  | [] => Some (a, s)
  end.

Fixpoint p_alt (f n : nat) (s : list N) : option (re * nat * list N) :=
  match f with
  | O => None
  | S f =>
      match p_cat f n s with
      | Some (r, n1, x :: s1) =>
          if (x =? ch "|")%N then
            match p_alt f n1 s1 with
            | Some (r2, n2, s2) => Some (RAlt r r2, n2, s2)
            | None => None
            end
          else Some (r, n1, x :: s1)
      | res => res
      end
  end
with p_cat (f n : nat) (s : list N) : option (re * nat * list N) :=
  match f with
  | O => None
  | S f =>
      match s with
      | [] => Some (RNil, n, [])
      | x :: _ =>
          if (x =? ch "|")%N || (x =? ch ")")%N then Some (RNil, n, s)
          else match p_atom f n s with
          | Some (a, n1, s1) =>
              match p_rep a s1 with
              | Some (a', s2) =>
                  match p_cat f n1 s2 with
                  | Some (r, n2, s3) => Some (RCat a' r, n2, s3)
                  | None => None
                  end
              | None => None
              end
          | None => None
          end
      end
  end
with p_atom (f n : nat) (s : list N) : option (re * nat * list N) :=
  match f with
  | O => None
  | S f =>
      match s with
      | [] => None
      | x :: s1 =>
          if (x =? ch "(")%N then
            match s1 with
            | y :: _ => if (y =? ch "?")%N then None else
                match p_alt f (S n) s1 with
                | Some (r, n1, z :: s2) =>
                    if (z =? ch ")")%N then Some (RGroup n r, n1, s2) else None
                | _ => None
                end
            | [] => None
            end
          else if (x =? ch "[")%N then
            match s1 with
            | y :: s2 =>
                if (y =? ch "^")%N then
                  match p_class s2 [] with
                  | Some (rs, s3) => Some (RClass true rs, n, s3)
                  | None => None
                  end
                else match p_class s1 [] with
                     | Some (rs, s3) => Some (RClass false rs, n, s3)
                     | None => None
                     end
            | [] => None
            end
          else if (x =? ch ".")%N then Some (RClass true (single 10), n, s1)
          else if (x =? ch "^")%N then Some (RBegin, n, s1)
          else if (x =? ch "$")%N then Some (REnd, n, s1)
          else if (x =? ch "\")%N then
            match s1 with
            | y :: s2 => match escape y with
                         | Some (neg, rs) => Some (RClass neg rs, n, s2)
                         | None => None
                         end
            | [] => None
            end
          else if is_rep x then None
          else Some (RClass false (single x), n, s1)
      end
  end.

(** [regexp.Compile]. Every recursive call of the parser consumes input or
    descends one level of the grammar, so three units of fuel per rune do. *)
Definition Compile (src : string) : option Regexp :=
  let s := fst <$> runes src in
  match p_alt (3 * length s + 3) 1 s with
  | Some (r, _, []) => Some (mkRegexp src r)
  | _ => None
  end.

(** ** Examples *)

Definition matches (src s : string) : option bool := (fun p => MatchString p s) <$> Compile src.

Example re_rm : (matches "rm\s+(-rf?\s+)?/\s*$" "rm -rf /", matches "rm\s+(-rf?\s+)?/\s*$" "rm -rf /tmp")
  = (Some true, Some false).
Proof. vm_compute. done. Qed.
Example re_fork : matches ":\(\)\s*\{" ":() { :|:& };:" = Some true.
Proof. vm_compute. done. Qed.
Example re_pipe : (matches "curl\s+.*\|\s*(bash|sh)" "curl x | sh", matches "\|\s*sh\s*$" "a | sh ")
  = (Some true, Some true).
Proof. vm_compute. done. Qed.
Example re_capture :
  (fun p => (fun c => submatch c 1) <$> FindAllStringSubmatch p "a > /dev/null; b >/dev/sda") <$>
    Compile ">\s*\/dev\/([^\s;&|]+)" = Some ["null"; "sda"].
Proof. vm_compute. done. Qed.
