(* ===== verification/SandboxSpec.v ===== *)
(** * ai-sandbox/spec.go, risk.go: the data of the command sandbox

    [RiskLevel] is a Go int and [Effects] a uint32 bit set; both are [Z]. *)

From S2P Require Import Prelude GoString GoRegexp.
#[local] Open Scope string_scope.
#[local] Open Scope list_scope.

(** ** Modes, levels, effects *)

Definition Mode : Type := string.
Definition ModeNormal : Mode := "normal".
Definition ModeAuto : Mode := "auto".
Definition ModeStrict : Mode := "strict".
Definition ModeReadOnly : Mode := "readonly".
Definition ModeOff : Mode := "off".

Definition RiskLevel : Type := Z.
Definition RiskBenign : RiskLevel := 0%Z.
Definition RiskLow : RiskLevel := 1%Z.
Definition RiskMedium : RiskLevel := 2%Z.
Definition RiskElevated : RiskLevel := 3%Z.
Definition RiskHigh : RiskLevel := 4%Z.
Definition RiskCritical : RiskLevel := 5%Z.
Definition RiskUnclassified : RiskLevel := 6%Z.
Definition RiskReserved : RiskLevel := 7%Z.

Definition Effect : Type := Z.
Definition EffectFileRead : Effect := 1%Z.
Definition EffectFileWrite : Effect := 2%Z.
Definition EffectNetwork : Effect := 4%Z.
Definition EffectPrivileged : Effect := 8%Z.
Definition EffectDestructive : Effect := 16%Z.
Definition EffectSecretAccess : Effect := 32%Z.
Definition EffectProcessSpawn : Effect := 64%Z.
Definition EffectCodeExecution : Effect := 128%Z.

Definition Effects : Type := Z.

Inductive Source : Type :=
  | SourceBypass
  | SourceRule
  | SourceClassifier
  | SourceHeuristic
  | SourceUnclassified.

Inductive Decision : Type :=
  | DecisionAllow
  | DecisionSandbox
  | DecisionHitl
  | DecisionDeny.

#[export] Instance Decision_eq_dec : EqDecision Decision.
Proof. solve_decision. Defined.
#[export] Instance Source_eq_dec : EqDecision Source.
Proof. solve_decision. Defined.

Record Reason := mkReason { Code : string; Pattern : string; Detail : string }.

(** ** Configuration, requests, outcomes *)

Record AllowRule := mkAllowRule {
  MatchTokens : list string;
  MaxRisk : RiskLevel;
  AllowEffects : Effects;
  AllowDesc : string;
}.

Record ToolAllowRule := mkToolAllowRule { ToolKey : string; ToolMaxRisk : RiskLevel; ToolDesc : string }.

Record Config := mkConfig {
  DeniedPatterns : list Regexp;
  RiskyPatterns : list Regexp;
  PatternDescs : gmap string string;
  AllowedWorkDir : string;
  ReadOnly : bool;
  MaxOutputBytes : Z;
  CMode : Mode;
  AutoMaxRisk : RiskLevel;
  SafeCommands : gmap string bool;
  AllowRules : list AllowRule;
  ToolAllowRules : list ToolAllowRule;
}.

Record CommandRequest := mkCommandRequest { Command : string; Cwd : string; Workspace : string }.

(** [Confidence] only takes the values 0 and 1. *)
Record RiskAssessment := mkRiskAssessment {
  Level : RiskLevel;
  AEffects : Effects;
  Reasons : list Reason;
  ASource : Source;
  Confidence : Z;
  HardDeny : bool;
}.

Record Outcome := mkOutcome {
  ODecision : Decision;
  OLevel : RiskLevel;
  OEffects : Effects;
  OReasons : list Reason;
  OSource : Source;
  OCommand : string;
  OHardDeny : bool;
  Override : option AllowRule;
}.

(** ** Levels *)

Definition riskLevelNames : list string :=
  ["benign"; "low"; "medium"; "elevated"; "high"; "critical"; "unclassified"; "reserved"].

Definition RiskLevel_String (l : RiskLevel) : string :=
  if (l <? RiskBenign)%Z || (RiskReserved <? l)%Z then "invalid"
  else nth (Z.to_nat l) riskLevelNames "".

Fixpoint parse_level (i : Z) (names : list string) (s : string) : option RiskLevel :=
  match names with
  | [] => None
  | n :: names' => if String.eqb s n then Some i else parse_level (i + 1) names' s
  end.

Definition ParseRiskLevel (s : string) : option RiskLevel := parse_level 0 riskLevelNames s.

Definition maxLevel (a b : RiskLevel) : RiskLevel := if (b <? a)%Z then a else b.

(** ** Effects *)

Definition Has (e : Effects) (f : Effect) : bool := negb (Z.land e f =? 0)%Z.
Definition Add (e : Effects) (fs : list Effect) : Effects := foldl Z.lor e fs.

Definition effectNames : list (Effect * string) :=
  [(EffectFileRead, "file_read"); (EffectFileWrite, "file_write"); (EffectNetwork, "network");
   (EffectPrivileged, "privileged"); (EffectDestructive, "destructive");
   (EffectSecretAccess, "secret_access"); (EffectProcessSpawn, "process_spawn");
   (EffectCodeExecution, "code_execution")].

Definition Names (e : Effects) : list string :=
  snd <$> List.filter (fun en => Has e en.1) effectNames.

Definition Source_String (s : Source) : string :=
  match s with
  | SourceBypass => "bypass"
  | SourceRule => "rule"
  | SourceClassifier => "classifier"
  | SourceHeuristic => "heuristic"
  | SourceUnclassified => "unclassified"
  end.

(** ** Reasons *)

Fixpoint firstDetail (rs : list Reason) : string :=
  match rs with
  | [] => ""
  | r :: rs' => if negb (String.eqb (Detail r) "") then Detail r else firstDetail rs'
  end.

Fixpoint firstPattern (rs : list Reason) : string :=
  match rs with
  | [] => ""
  | r :: rs' => if negb (String.eqb (Pattern r) "") then Pattern r else firstPattern rs'
  end.

(** [strings.ReplaceAll(cmd, newline, backslash n)] and the cut at 200 bytes. *)
Fixpoint escape_newlines (s : string) : string :=
  match s with
  | EmptyString => EmptyString
  | String a s' => if Ascii.eqb a "010"%char then String "\" (String "n" (escape_newlines s'))
                   else String a (escape_newlines s')
  end.

Definition describeCommand (cmd : string) : string :=
  let c := escape_newlines cmd in
  if (200 <? slen c)%Z then substring 0 200 c +:+ "…" else c.

(** ** Lemmas *)

Definition valid_level (l : RiskLevel) : Prop := (RiskBenign <= l <= RiskReserved)%Z.

Lemma level_cases l : valid_level l ->
  l = 0%Z \/ l = 1%Z \/ l = 2%Z \/ l = 3%Z \/ l = 4%Z \/ l = 5%Z \/ l = 6%Z \/ l = 7%Z.
Proof. unfold valid_level, RiskBenign, RiskReserved. lia. Qed.

Lemma ParseRiskLevel_String l : valid_level l -> ParseRiskLevel (RiskLevel_String l) = Some l.
Proof. intros H%level_cases. destruct_or! H; subst; reflexivity. Qed.

Lemma parse_level_sound i names s l :
  parse_level i names s = Some l ->
  (i <= l < i + Z.of_nat (length names))%Z /\ nth (Z.to_nat (l - i)) names "" = s.
Proof.
  revert i. induction names as [|n names IH]; intros i; cbn [parse_level length]; [done|].
  destruct (String.eqb_spec s n) as [-> | _].
  - intros [= <-]. split; [lia|]. by rewrite Z.sub_diag.
  - intros [? <-]%IH. split; [lia|].
    replace (Z.to_nat (l - i)) with (S (Z.to_nat (l - (i + 1)))) by lia. done.
Qed.

Lemma ParseRiskLevel_sound s l :
  ParseRiskLevel s = Some l -> valid_level l /\ RiskLevel_String l = s.
Proof.
  intros [Hl Hn]%parse_level_sound. rewrite Z.sub_0_r in Hn.
  change (length riskLevelNames) with 8 in Hl.
  assert (valid_level l) as Hv by (unfold valid_level, RiskBenign, RiskReserved; lia).
  split; [done|]. unfold RiskLevel_String.
  destruct (Z.ltb_spec l RiskBenign), (Z.ltb_spec RiskReserved l);
    unfold valid_level in Hv; try lia. done.
Qed.

Lemma Has_lor a b f : Has (Z.lor a b) f = Has a f || Has b f.
Proof.
  unfold Has. rewrite Z.land_lor_distr_l.
  destruct (Z.eqb_spec (Z.lor (Z.land a f) (Z.land b f)) 0) as [E|E].
  - apply Z.lor_eq_0_iff in E as [-> ->]. done.
  - destruct (Z.eqb_spec (Z.land a f) 0) as [Ea|], (Z.eqb_spec (Z.land b f) 0) as [Eb|]; try done.
    rewrite Ea, Eb in E. done.
Qed.
