(* ===== verification/SandboxSafe.v ===== *)
(** * ai-sandbox/safe.go: the read-only classifier of shell commands

    A command is cut into segments at the unquoted [|], [;], [&] and newlines,
    and each segment's main command is looked up in the read-only tables. The
    rune loop of [splitShellSegments] and the byte loops are folds with the
    loop's variables as arguments. The theorems: a command is safe exactly when
    each of its segments is, and chaining commands with an unquoted [;] keeps
    that reading. *)

From S2P Require Import Prelude GoString GoRegexp SandboxSpec.
#[local] Open Scope string_scope.
#[local] Open Scope list_scope.

Inductive safeVerdict : Type := verdictUnknown | verdictSafe | verdictUnsafe.

#[export] Instance safeVerdict_eq_dec : EqDecision safeVerdict.
Proof. solve_decision. Defined.

Definition mem (s : string) (l : list string) : bool := existsb (String.eqb s) l.

Definition safeReadonlyCmds : list string :=
  ["cat"; "head"; "tail"; "ls"; "grep"; "egrep"; "fgrep"; "wc"; "sort"; "uniq"; "cut"; "diff";
   "stat"; "file"; "du"; "df"; "date"; "whoami"; "pwd"; "echo"; "printf"; "which"; "true";
   "false"; "jq"].

Definition flagCheckCmds : list string := ["curl"; "wget"; "sed"; "awk"; "find"; "git"; "go"].

(** ** Splitting into segments *)

Definition squote : N := 39.
Definition dquote : N := 34.
Definition backslash : N := 92.

(** [cur.WriteRune(r)]: an invalid byte, decoded as U+FFFD, is written as U+FFFD. *)
Definition write_rune (r : N * string) : string :=
  if (r.1 =? RuneError)%N then "�" else r.2.

(** The variables of the loop: the quoting flags and the last non-blank rune. *)
Record scan := mkScan { inSingle : bool; inDouble : bool; esc : bool; last_rune : N }.
Definition scan0 : scan := mkScan false false false 0.

(** What one rune does: it is written, or it ends the segment. *)
Definition is_redir (r : N) : bool := (r =? rune ">")%N || (r =? rune "<")%N.

Definition scan_rune (st : scan) (r : N) : bool * scan :=
  let '(mkScan sq dq e last) := st in
  let open := negb sq && negb dq in
  if e then (true, mkScan sq dq false last)
  else if (r =? backslash)%N then (true, mkScan sq dq true last)
  else if (r =? squote)%N && negb dq then (true, mkScan (negb sq) dq e last)
  else if (r =? dquote)%N && negb sq then (true, mkScan sq (negb dq) e last)
  else if ((r =? 10)%N || (r =? 13)%N) && open then (false, st)
  else if ((r =? rune "|")%N || (r =? rune ";")%N) && open then (false, st)
  else if (r =? rune "&")%N && open then (is_redir last, st)
  else (true, mkScan sq dq e (if (r =? 32)%N || (r =? 9)%N then last else r)).

(** [flush]: keep the current segment unless it is blank. *)
Definition flush (cur : string) : list string :=
  let s := TrimSpace cur in if String.eqb s "" then [] else [s].

Fixpoint split_loop (st : scan) (cur : string) (rs : list (N * string)) : list string :=
  match rs with
  | [] => flush cur
  | r :: rs' =>
      match scan_rune st r.1 with
      | (true, st') => split_loop st' (cur +:+ write_rune r) rs'
      | (false, st') => flush cur ++ split_loop st' "" rs'
      end
  end.

Definition splitShellSegments (cmd : string) : list string := split_loop scan0 "" (runes cmd).

(** [splitMain]: the main command and its arguments, after [FOO=bar] prefixes. *)
Definition splitMain (seg : string) : string * list string :=
  match drop_while (fun f => Contains f "=") (Fields seg) with
  | [] => ("", [])
  | name :: args => (name, args)
  end.

(** [envResolve]: the command [env] runs, with its arguments. A flag with a value
    skips the value. *)
Fixpoint envResolve (args : list string) : option (string * list string) :=
  match args with
  | [] => None
  | a :: rest =>
      if Contains a "=" then envResolve rest
      else if mem a ["-i"; "--ignore-environment"] then envResolve rest
      else if mem a ["-u"; "--unset"; "-C"; "--chdir"; "-S"; "--split-string"] then
        match rest with [] => None | _ :: rest' => envResolve rest' end
      else if String.eqb a "--" then
        match rest with [] => None | b :: rest' => Some (b, rest') end
      else Some (a, rest)
  end.

(** ** Output redirections *)

Definition pseudoDevNames : list string :=
  ["null"; "stdout"; "stderr"; "zero"; "full"; "random"; "urandom"; "tty"; "tty0"].

(** The pattern [>\s*\/dev\/([^\s;&|]+)]. *)
Definition devRe : Regexp :=
  default (mkRegexp "" RNil) (Compile ">\s*\/dev\/([^\s;&|]+)").

Definition harmless_dev (c : caps) : bool :=
  let dev := submatch c 1 in
  mem (TrimSuffix dev "/") pseudoDevNames || HasPrefix (TrimSuffix dev "/") "fd/".

Definition pseudoDevRedirectOnly (cmd : string) : bool :=
  match FindAllStringSubmatch devRe cmd with
  | [] => false
  | ms => forallb harmless_dev ms
  end.

Definition is_char (c : ascii) (n : N) : bool := (byte_val c =? n)%N.

Fixpoint drop_chars (cs : list N) (s : string) : string :=
  match s with
  | String c s' => if existsb (is_char c) cs then drop_chars cs s' else s
  | EmptyString => EmptyString
  end.

Definition starts_digit (s : string) : bool :=
  match s with String c _ => in_range 48 57 (byte_val c) | EmptyString => false end.

(** What follows an unquoted [>]: does it write to a file? [here] is the segment
    from the [>] on, [rest] what follows it. *)
Definition redirect_target (here rest : string) : bool :=
  let s := drop_chars [rune ">"; 32; 9]%N rest in
  match s with
  | EmptyString => false
  | String d s' =>
      if is_char d (rune "&") then negb (starts_digit (drop_chars [32; 9]%N s'))
      else if is_char d (rune "/") then negb (HasPrefix s "/dev/" && pseudoDevRedirectOnly here)
      else true
  end.

Fixpoint redirect_loop (sq dq e : bool) (s : string) : bool :=
  match s with
  | EmptyString => false
  | String c s' =>
      if e then redirect_loop sq dq false s'
      else if is_char c backslash then redirect_loop sq dq true s'
      else if is_char c squote && negb dq then redirect_loop (negb sq) dq e s'
      else if is_char c dquote && negb sq then redirect_loop sq (negb dq) e s'
      else if is_char c (rune ">") && negb sq && negb dq then
        redirect_target s s' || redirect_loop sq dq e s'
      else redirect_loop sq dq e s'
  end.

Definition hasFileRedirect (seg : string) : bool := redirect_loop false false false seg.

(** ** Flags of the commands that can write *)

Definition hasArg (args : list string) (names : list string) : bool :=
  existsb (fun a => existsb (fun n =>
    String.eqb a n || HasPrefix a (n +:+ "=")
    || ((slen n =? 2)%Z && HasPrefix a n && (2 <? slen a)%Z)) names) args.

(** [a[:2]] of a bundled short flag, [len(a) > 2 && a[0] == '-' && a[1] != '-']. *)
Definition short_flag (a : string) : option string :=
  match a with
  | String c1 (String c2 (String _ _)) =>
      if is_char c1 (rune "-") && negb (is_char c2 (rune "-"))
      then Some (String c1 (String c2 EmptyString)) else None
  | _ => None
  end.

Definition short_in (a : string) (l : list string) : bool :=
  match short_flag a with Some f => mem f l | None => false end.

Definition long_in (a : string) (l : list string) : bool :=
  existsb (fun f => String.eqb a f || HasPrefix a (f +:+ "=")) l.

Definition isReadMethod (s : string) : bool :=
  mem (ToUpper s) ["GET"; "HEAD"; "OPTIONS"; "TRACE"].

Definition curl_writeFlags : list string :=
  ["-o"; "--output"; "-O"; "--remote-name"; "--remote-name-all";
   "-d"; "--data"; "--data-raw"; "--data-ascii"; "--data-binary"; "--data-urlencode";
   "-F"; "--form"; "-T"; "--upload-file"; "--cookie-jar"].

Definition curl_shortFlags : list string := ["-o"; "-O"; "-d"; "-F"; "-T"].

Fixpoint curlHasWrite (args : list string) : bool :=
  match args with
  | [] => false
  | a :: rest =>
      if long_in a curl_writeFlags then true
      else if short_in a curl_shortFlags then true
      else if mem a ["-X"; "--request"] then
        match rest with
        | b :: _ => if negb (isReadMethod b) then true else curlHasWrite rest
        | [] => curlHasWrite rest
        end
      else if HasPrefix a "-X" && (2 <? slen a)%Z then negb (isReadMethod (string_drop 2 a))
      else if HasPrefix a "--request=" then negb (isReadMethod (string_drop 10 a))
      else curlHasWrite rest
  end.

Definition wget_writeFlags : list string :=
  ["-O"; "-o"; "--output-document"; "--output-file"; "--post-data"; "--post-file"; "--save-headers"].

Definition wgetHasWrite (args : list string) : bool :=
  existsb (fun a => long_in a wget_writeFlags || short_in a ["-O"; "-o"]) args.

Definition gitReadonlySubs : list string :=
  ["status"; "log"; "diff"; "show"; "branch"; "ls-files"; "rev-parse"; "remote"; "describe";
   "tag"; "version"; "help"; "blame"; "grep"].

Definition gitReadonly (args : list string) : bool :=
  match args with [] => false | a :: _ => mem a gitReadonlySubs end.

Definition goReadonlySubs : list string := ["version"; "env"; "list"; "doc"].

Definition goReadonly (args : list string) : bool :=
  match args with [] => false | a :: _ => mem a goReadonlySubs end.

Definition validateFlags (base : string) (args : list string) : bool :=
  if mem base ["sed"; "awk"] then negb (hasArg args ["-i"; "--in-place"])
  else if String.eqb base "find" then negb (hasArg args ["-delete"; "-exec"; "-execdir"; "-ok"])
  else if String.eqb base "curl" then negb (curlHasWrite args)
  else if String.eqb base "wget" then negb (wgetHasWrite args)
  else if String.eqb base "git" then gitReadonly args
  else if String.eqb base "go" then goReadonly args
  else true.

(** ** Classification *)

Definition has_key (extra : gmap string bool) (k : string) : bool := default false (extra !! k).

Definition declaredBase (extra : gmap string bool) (base : string) : bool :=
  existsb (fun kv => String.eqb kv.1 base || HasPrefix kv.1 (base +:+ " ")) (map_to_list extra).

Definition classifyCommand (base : string) (args : list string) (extra : gmap string bool)
  : safeVerdict * string :=
  let checked :=
    if validateFlags base args then (verdictSafe, "") else (verdictUnsafe, base +:+ " 带写操作参数") in
  let declared :=
    has_key extra base
    || match args with a :: _ => has_key extra (base +:+ (" " +:+ a)) | [] => false end in
  if declared then
    if mem base flagCheckCmds then checked else (verdictSafe, "")
  else if mem base safeReadonlyCmds then (verdictSafe, "")
  else if mem base flagCheckCmds then checked
  else match args with
       | a :: _ =>
           if declaredBase extra base
           then (verdictUnsafe, base +:+ (" " +:+ (a +:+ " 未在 safe_commands 中声明")))
           else (verdictUnknown, "")
       | [] => (verdictUnknown, "")
       end.

Definition classifySegment (seg : string) (extra : gmap string bool) : safeVerdict * string :=
  let '(name, args) := splitMain seg in
  if String.eqb name "" then (verdictUnknown, "")
  else
    let base := Base name in
    if String.eqb base "env" then
      match envResolve args with
      | None => (verdictUnknown, "")
      | Some (realName, realArgs) => classifyCommand (Base realName) realArgs extra
      end
    else classifyCommand base args extra.

Fixpoint classify_segs (segs : list string) (extra : gmap string bool) : safeVerdict * string :=
  match segs with
  | [] => (verdictSafe, "")
  | seg :: segs' =>
      if hasFileRedirect seg then (verdictUnsafe, "输出重定向到文件")
      else match classifySegment seg extra with
           | (verdictSafe, _) => classify_segs segs' extra
           | v => v
           end
  end.

Definition classifyCmd (cmd : string) (extra : gmap string bool) : safeVerdict * string :=
  match splitShellSegments cmd with
  | [] => (verdictUnknown, "")
  | segs => classify_segs segs extra
  end.

(** ** Lemmas *)

Example devRe_compiles : Compile ">\s*\/dev\/([^\s;&|]+)" = Some devRe.
Proof. vm_compute. reflexivity. Qed.
Example split_ex :
  splitShellSegments "ls -l | grep 'a|b' && echo x 2>&1; date" =
  ["ls -l"; "grep 'a|b'"; "echo x 2>&1"; "date"].
Proof. vm_compute. reflexivity. Qed.
Example redirect_ex :
  (hasFileRedirect "echo x > /dev/null", hasFileRedirect "echo x >> out", hasFileRedirect "echo '>' a",
   hasFileRedirect "ls 2>&1") = (false, true, false, false).
Proof. vm_compute. reflexivity. Qed.

(** The state after a prefix, and a prefix after which the shell reads a
    separator as one: no open quote, no pending escape, no pending redirection. *)
Definition scan_runes (st : scan) (rs : list (N * string)) : scan :=
  foldl (fun st r => (scan_rune st r.1).2) st rs.

Definition neutral (st : scan) : bool :=
  negb (inSingle st) && negb (inDouble st) && negb (esc st) && negb (is_redir (last_rune st)).

Definition closed (cmd : string) : bool := neutral (scan_runes scan0 (runes cmd)).

Definition separators : list ascii := [";"; "|"; "&"; "010"; "013"]%char.

Lemma scan_separator st c :
  neutral st = true -> c ∈ separators -> scan_rune st (byte_val c) = (false, st).
Proof.
  destruct st as [sq dq e last]. unfold neutral. cbn. intros H Hc.
  destruct sq, dq, e; try done. destruct (is_redir last) eqn:Hr; [done|].
  unfold separators in Hc. rewrite !elem_of_cons in Hc.
  destruct Hc as [-> |[-> |[-> |[-> |[-> |Hc]]]]]; cbn; rewrite ?Hr; try done.
  by apply elem_of_nil in Hc.
Qed.

(** Two states that differ only in [last], and agree on its being a redirection,
    split alike. *)
Definition same_scan (s t : scan) : Prop :=
  inSingle s = inSingle t /\ inDouble s = inDouble t /\ esc s = esc t
  /\ is_redir (last_rune s) = is_redir (last_rune t).

Lemma same_scan_rune s t r :
  same_scan s t ->
  (scan_rune s r).1 = (scan_rune t r).1 /\ same_scan (scan_rune s r).2 (scan_rune t r).2.
Proof.
  destruct s as [sq dq e l], t as [sq' dq' e' l']. intros (E1 & E2 & E3 & E4). cbn in *. subst.
  unfold scan_rune. repeat case_match; repeat split; cbn; auto.
Qed.

Lemma split_loop_same rs : forall s t cur,
  same_scan s t -> split_loop s cur rs = split_loop t cur rs.
Proof.
  induction rs as [|r rs IH]; intros s t cur H; [done|]. cbn [split_loop].
  destruct (same_scan_rune s t r.1 H) as [Hw Hs].
  destruct (scan_rune s r.1) as [[] s'], (scan_rune t r.1) as [[] t']; cbn in *; try done.
  - by apply IH.
  - f_equal. by apply IH.
Qed.

Lemma split_loop_app rs1 : forall st st' cur r rs2,
  scan_rune (scan_runes st rs1) r.1 = (false, st') ->
  split_loop st cur (rs1 ++ r :: rs2) = split_loop st cur rs1 ++ split_loop st' "" rs2.
Proof.
  induction rs1 as [|x rs1 IH]; intros st st' cur r rs2 H; cbn [app split_loop].
  - cbn in H. by rewrite H.
  - cbn in H. destruct (scan_rune st x.1) as [[] s'] eqn:E; cbn in H.
    + by apply IH.
    + rewrite (IH s' st' "" r rs2 H). by rewrite app_assoc.
Qed.

Lemma runes_ascii_list cs b :
  Forall (fun c => (byte_val c <? 128)%N = true) cs ->
  runes (string_of_list_ascii cs +:+ b) = ((fun c => (byte_val c, String c "")) <$> cs) ++ runes b.
Proof.
  induction 1 as [|c cs Hc _ IH]; [done|].
  change (string_of_list_ascii (c :: cs) +:+ b) with (String c (string_of_list_ascii cs +:+ b)).
  rewrite runes_ascii by done. by rewrite IH.
Qed.

Lemma separators_ascii cs :
  Forall (fun c => c ∈ separators) cs -> Forall (fun c => (byte_val c <? 128)%N = true) cs.
Proof.
  intros H. eapply List.Forall_impl; [|exact H]. intros c Hc. unfold separators in Hc. rewrite !elem_of_cons in Hc.
  destruct Hc as [-> |[-> |[-> |[-> |[-> |Hc]]]]]; try done. by apply elem_of_nil in Hc.
Qed.

Lemma split_separators cs : forall st rs,
  neutral st = true -> Forall (fun c => c ∈ separators) cs ->
  split_loop st "" (((fun c => (byte_val c, String c "")) <$> cs) ++ rs) = split_loop st "" rs.
Proof.
  intros st rs Hn. induction 1 as [|c cs Hc _ IH]; [done|].
  rewrite fmap_cons. cbn [app split_loop fst]. by rewrite scan_separator.
Qed.

Lemma neutral_same st : neutral st = true -> same_scan st scan0.
Proof.
  destruct st as [[] [] [] l]; unfold neutral, same_scan; cbn; try done.
  destruct (is_redir l); done.
Qed.

Lemma splitShellSegments_app a c cs b :
  closed a = true -> Forall (fun c => c ∈ separators) (c :: cs) ->
  splitShellSegments (a +:+ (string_of_list_ascii (c :: cs) +:+ b)) =
  splitShellSegments a ++ splitShellSegments b.
Proof.
  intros Ha Hcs. pose proof (separators_ascii _ Hcs) as Has.
  unfold splitShellSegments.
  change (string_of_list_ascii (c :: cs) +:+ b) with (String c (string_of_list_ascii cs +:+ b)).
  rewrite runes_app_ascii by (by inversion Has).
  rewrite runes_ascii by (by inversion Has). rewrite runes_ascii_list by (by inversion Has).
  inversion Hcs as [|? ? Hc Hcs']; subst.
  rewrite (split_loop_app _ _ (scan_runes scan0 (runes a))).
  2:{ cbn [fst]. by apply scan_separator. }
  f_equal. rewrite split_separators by done. apply split_loop_same. by apply neutral_same.
Qed.

(** What makes a segment safe. *)
Definition segment_safe (extra : gmap string bool) (seg : string) : Prop :=
  hasFileRedirect seg = false /\ (classifySegment seg extra).1 = verdictSafe.

Lemma classify_segs_safe segs extra :
  (classify_segs segs extra).1 = verdictSafe <-> Forall (segment_safe extra) segs.
Proof.
  induction segs as [|seg segs IH]; cbn [classify_segs]; [by split|].
  rewrite Forall_cons. unfold segment_safe at 1.
  destruct (hasFileRedirect seg); [split; [done|naive_solver]|].
  destruct (classifySegment seg extra) as [[] ?]; cbn; [split; naive_solver| |split; naive_solver].
  rewrite IH. naive_solver.
Qed.

Lemma classifyCmd_safe cmd extra :
  (classifyCmd cmd extra).1 = verdictSafe <->
  splitShellSegments cmd <> [] /\ Forall (segment_safe extra) (splitShellSegments cmd).
Proof.
  unfold classifyCmd. destruct (splitShellSegments cmd) as [|s l] eqn:E; [split; [done|naive_solver]|].
  rewrite classify_segs_safe. naive_solver.
Qed.

(** ** Properties *)

(** commands chained by shell separators ([;], [|], [||], [&], [&&] or a newline) are read
    one by one: after a prefix that leaves no quote, escape or redirection
    open, the chain is classified read-only exactly when both parts are, so no
    command rides along behind a safe one. *)
Theorem classifyCmd_chain a c cs b extra :
  closed a = true -> Forall (fun c => c ∈ separators) (c :: cs) ->
  splitShellSegments a <> [] -> splitShellSegments b <> [] ->
  (classifyCmd (a +:+ (string_of_list_ascii (c :: cs) +:+ b)) extra).1 = verdictSafe <->
  (classifyCmd a extra).1 = verdictSafe /\ (classifyCmd b extra).1 = verdictSafe.
Proof.
  intros Ha Hc Hna Hnb. rewrite !classifyCmd_safe, splitShellSegments_app, Forall_app by done.
  split; [naive_solver|]. intros [[_ ?] [_ ?]]. split; [|done].
  destruct (splitShellSegments a); [done|]. discriminate.
Qed.

Lemma classifyCmd_chain_witness :
  (classifyCmd "git status && go build" ∅).1 = verdictSafe <->
  (classifyCmd "git status" ∅).1 = verdictSafe /\ (classifyCmd "go build" ∅).1 = verdictSafe.
Proof.
  apply (classifyCmd_chain "git status " "&" ["&"%char] " go build" ∅).
  - vm_compute. reflexivity.
  - repeat constructor; set_solver.
  - vm_compute. discriminate.
  - vm_compute. discriminate.
Defined.

(** ** What the tables let through *)

(** [curlHasWrite] returns at a merged [-XGET], before it reads the [-o] behind it. *)
Example curl_merged_method_hides_output :
  (classifyCmd "curl -o out -XGET http://h" ∅).1 = verdictUnsafe /\
  (classifyCmd "curl -XGET http://h -o out" ∅).1 = verdictSafe.
Proof. split; vm_compute; reflexivity. Qed.

(** Inside single quotes the shell knows no escape, the scanner does: the text
    behind a quoted backslash is taken for quoted. *)
Example quoted_backslash_hides_a_command :
  splitShellSegments "echo '\'; rm -rf /home" = ["echo '\'; rm -rf /home"] /\
  (classifyCmd "echo '\'; rm -rf /home" ∅).1 = verdictSafe.
Proof. split; vm_compute; reflexivity. Qed.

(** [/dev/fd/] exempts every path that starts with it. *)
Example dev_fd_path_escapes :
  (classifyCmd "echo x > /dev/fd/../../../etc/passwd" ∅).1 = verdictSafe.
Proof. vm_compute. reflexivity. Qed.

(** The subcommand alone decides for git. *)
Example git_branch_delete_is_safe :
  (classifyCmd "git branch -D main" ∅).1 = verdictSafe /\
  (classifyCmd "git remote add o url" ∅).1 = verdictSafe.
Proof. split; vm_compute; reflexivity. Qed.

(** [>|] is cut at its bar before the redirection is looked for. *)
Example clobber_is_not_seen :
  hasFileRedirect "echo x >| ls" = true /\
  splitShellSegments "echo x >| ls" = ["echo x >"; "ls"] /\
  (classifyCmd "echo x >| ls" ∅).1 = verdictSafe.
Proof. repeat split; vm_compute; reflexivity. Qed.
