(* ===== verification/SandboxAssess.v ===== *)
(** * ai-sandbox/assess.go, normalize.go, defaults.go: the risk of a command

    [Assess] tries, in order: the deny patterns, the injection vectors, the
    read-only classifier, the table of write commands, the write scan of the
    read-only mode, the risky patterns; what nothing recognises is
    unclassified. *)

From S2P Require Import Prelude GoString GoRegexp SandboxSpec SandboxSafe.
#[local] Open Scope string_scope.
#[local] Open Scope list_scope.

(** ** defaults.go *)

Definition DefaultDeniedPatterns : list string :=
  ["rm\s+(-rf?\s+)?/\s*$"; ":\(\)\s*\{"; "dd\s+if="; "mkfs\."; ">\s*/dev/"; "chmod\s+777\s+/";
   "wget\s+.*\|\s*(bash|sh)"; "curl\s+.*\|\s*(bash|sh)"; "eval\s*\$\("; "\|\s*sh\s*$"].

Definition DefaultRiskyPatterns : list string :=
  ["rm\s+"; "mv\s+"; "dd\s+"; ">\s+\S"; ">>\s+\S"; "\|"; "sudo\s+"; "chmod\s+"; "chown\s+";
   "kill\s+"; "shutdown"; "reboot"; "init\s+0"; "init\s+6"].

(** A Go map literal as the list of its entries. *)
Definition assoc {A} (l : list (string * A)) (k : string) : option A :=
  snd <$> find_first (fun kv => String.eqb kv.1 k) l.

Definition riskPatternDesc : list (string * string) :=
  [("rm\s+", "删除文件/目录"); ("mv\s+", "移动/重命名文件"); ("dd\s+", "磁盘直接读写（危险）");
   (">\s+\S", "输出重定向到文件"); (">>\s+\S", "追加重定向到文件"); ("\|", "管道链式执行");
   ("sudo\s+", "提权（root 权限）"); ("chmod\s+", "改变文件权限"); ("chown\s+", "改变文件所有者");
   ("kill\s+", "杀死进程"); ("shutdown", "关机"); ("reboot", "重启"); ("init\s+0", "关机");
   ("init\s+6", "重启")].

Definition PatternDesc (pattern : string) : string := default pattern (assoc riskPatternDesc pattern).

Definition riskPatternLevel : list (string * RiskLevel) :=
  [("rm\s+", RiskElevated); ("mv\s+", RiskElevated); ("dd\s+", RiskElevated);
   (">\s+\S", RiskMedium); (">>\s+\S", RiskMedium); ("\|", RiskMedium);
   ("sudo\s+", RiskHigh); ("chmod\s+", RiskHigh); ("chown\s+", RiskHigh); ("kill\s+", RiskHigh);
   ("shutdown", RiskHigh); ("reboot", RiskHigh); ("init\s+0", RiskHigh); ("init\s+6", RiskHigh)].

Definition riskPatternEffects : list (string * Effects) :=
  [("rm\s+", EffectDestructive); ("mv\s+", EffectFileWrite); ("dd\s+", EffectDestructive);
   (">\s+\S", EffectFileWrite); (">>\s+\S", EffectFileWrite); ("\|", 0%Z);
   ("sudo\s+", EffectPrivileged); ("chmod\s+", EffectPrivileged); ("chown\s+", EffectPrivileged);
   ("kill\s+", EffectProcessSpawn); ("shutdown", EffectProcessSpawn); ("reboot", EffectProcessSpawn);
   ("init\s+0", EffectProcessSpawn); ("init\s+6", EffectProcessSpawn)].

Definition builtinDevWritePattern : string := ">\s*/dev/".

Definition isBuiltinDevWritePattern (p : Regexp) : bool := String.eqb (source p) builtinDevWritePattern.

(** [None] stands for the compile error, which [MustCompile] turns into a panic. *)
Fixpoint CompilePatterns (patterns : list string) : option (list Regexp) :=
  match patterns with
  | [] => Some []
  | p :: ps =>
      match Compile p, CompilePatterns ps with
      | Some r, Some rs => Some (r :: rs)
      | _, _ => None
      end
  end.

Definition MustCompile (patterns : list string) : option (list Regexp) := CompilePatterns patterns.

Definition hasWriteOps_patterns : list string :=
  [">\s+"; "dd\s+"; "mkfs\."; "rm\s+"; "mv\s+"; "chmod\s+"; "chown\s+"; "touch\s+"; "ln\s+"; "cp\s+"].

Definition hasWriteOps (cmd : string) : bool :=
  existsb (fun p => match Compile p with Some r => MatchString r cmd | None => false end)
    hasWriteOps_patterns.

(** ** normalize.go: injection vectors *)

Definition interpreterCmds : list string :=
  ["bash"; "sh"; "zsh"; "ksh"; "dash"; "python"; "python2"; "python3"; "perl"; "ruby"; "node";
   "php"; "lua"].

Definition dangerousSubMarkers : list string :=
  ["rm "; "mv "; "dd "; "sudo "; "chmod "; "chown "; "kill "; "pkill "; "mkfs"; ">>"; "> "; "|";
   "sh "; "bash"; "curl"; "wget"; "eval"; "python -c"; "perl -e"; "reboot"; "shutdown"].

(** A command substitution, in the dollar form (group 1) or in back quotes (group 2). *)
Definition subshellRe : Regexp :=
  default (mkRegexp "" RNil) (Compile "\$\(([^)]*)\)|`([^`]*)`").

Definition hasExecFlag (args flags : list string) : bool :=
  existsb (fun a => mem a flags) args.

Definition evalCommand (cmd : string) : option (RiskLevel * Effects) :=
  match splitShellSegments cmd with
  | [] => None
  | seg :: _ =>
      let '(name, _) := splitMain seg in
      if String.eqb name "" then None
      else if String.eqb (Base name) "eval" then Some (RiskHigh, EffectCodeExecution)
      else None
  end.

(** The bytes outside single quotes. *)
Fixpoint outside_quotes (inSingle : bool) (s : string) : string :=
  match s with
  | EmptyString => EmptyString
  | String c s' =>
      if is_char c squote then outside_quotes (negb inSingle) s'
      else if inSingle then outside_quotes inSingle s'
      else String c (outside_quotes inSingle s')
  end.

Definition extractSubshellCode (cmd : string) : string :=
  match FindStringSubmatch subshellRe (outside_quotes false cmd) with
  | None => ""
  | Some c => if negb (String.eqb (submatch c 1) "") then submatch c 1 else submatch c 2
  end.

Definition containsDanger (code : string) : bool := existsb (Contains code) dangerousSubMarkers.

Fixpoint heredoc_loop (sq dq e : bool) (s : string) : bool :=
  match s with
  | EmptyString => false
  | String c s' =>
      if e then heredoc_loop sq dq false s'
      else if is_char c backslash then heredoc_loop sq dq true s'
      else if is_char c squote && negb dq then heredoc_loop (negb sq) dq e s'
      else if is_char c dquote && negb sq then heredoc_loop sq (negb dq) e s'
      else if is_char c (rune "<") && negb sq && negb dq then
        match s' with
        | String d _ => if is_char d (rune "<") then true else heredoc_loop sq dq e s'
        | EmptyString => heredoc_loop sq dq e s'
        end
      else heredoc_loop sq dq e s'
  end.

Definition hasHeredoc (cmd : string) : bool := heredoc_loop false false false cmd.

(** A segment runs an interpreter on code given as an argument. *)
Definition interpreter_exec (seg : string) : bool :=
  let '(name, args) := splitMain seg in
  negb (String.eqb name "") && mem (Base name) interpreterCmds
  && hasExecFlag args ["-c"; "-e"; "--command"].

Definition assessInjection (cmd : string) : option (RiskLevel * Effects) :=
  if existsb interpreter_exec (splitShellSegments cmd) then Some (RiskHigh, EffectCodeExecution)
  else match evalCommand cmd with
  | Some r => Some r
  | None =>
      let code := extractSubshellCode cmd in
      if negb (String.eqb code "") && containsDanger code
      then Some (RiskHigh, Add EffectCodeExecution [EffectProcessSpawn])
      else if hasHeredoc cmd then Some (RiskMedium, Add EffectFileWrite [EffectProcessSpawn])
      else None
  end.

(** ** assess.go *)

Definition writeCommandLevels : list (string * (RiskLevel * Effects)) :=
  [("rm", (RiskElevated, EffectDestructive)); ("mv", (RiskElevated, EffectFileWrite));
   ("dd", (RiskElevated, EffectDestructive)); ("cp", (RiskMedium, EffectFileWrite));
   ("touch", (RiskMedium, EffectFileWrite)); ("mkdir", (RiskMedium, EffectFileWrite));
   ("rmdir", (RiskMedium, EffectFileWrite)); ("ln", (RiskMedium, EffectFileWrite));
   ("tee", (RiskMedium, EffectFileWrite)); ("truncate", (RiskMedium, EffectFileWrite));
   ("chmod", (RiskHigh, EffectPrivileged)); ("chown", (RiskHigh, EffectPrivileged));
   ("kill", (RiskHigh, EffectProcessSpawn)); ("pkill", (RiskHigh, EffectProcessSpawn));
   ("killall", (RiskHigh, EffectProcessSpawn)); ("mkfs", (RiskCritical, EffectDestructive));
   ("shutdown", (RiskHigh, EffectProcessSpawn)); ("reboot", (RiskHigh, EffectProcessSpawn))].

Definition readNetworkCmds : list string := ["curl"; "wget"].

Definition assessReadEffects (cmd : string) : Effects :=
  foldl (fun e seg =>
    let '(name, _) := splitMain seg in
    if String.eqb name "" then e
    else if mem (Base name) readNetworkCmds then Add e [EffectNetwork] else e)
    EffectFileRead (splitShellSegments cmd).

Definition curlSavesFile (args : list string) : bool :=
  existsb (fun a =>
    mem a ["-o"; "--output"; "-O"; "--remote-name"; "--remote-name-all"; "-T"; "--upload-file"]
    || HasPrefix a "--output=" || HasPrefix a "--upload-file="
    || short_in a ["-o"; "-O"; "-T"]) args.

Definition wgetSavesFile (args : list string) : bool :=
  existsb (fun a =>
    mem a ["-O"; "--output-document"] || HasPrefix a "--output-document=" || short_in a ["-O"]) args.

(** One segment of the loop of [assessUnsafe], on the pair (effects, level). *)
Definition assessUnsafe_seg (acc : Effects * RiskLevel) (seg : string) : Effects * RiskLevel :=
  let '(name, args) := splitMain seg in
  if String.eqb name "" then acc
  else
    let base := Base name in
    let '(effects, level) :=
      match assoc writeCommandLevels base with
      | Some (wl, we) =>
          (Z.lor acc.1 we, if (acc.2 <? wl)%Z then wl else acc.2)
      | None => acc
      end in
    if String.eqb base "curl" then
      if curlHasWrite args then
        let e := Add effects [EffectNetwork] in
        ((if curlSavesFile args then Add e [EffectFileWrite] else e), level)
      else (effects, level)
    else if String.eqb base "wget" then
      if wgetHasWrite args then
        let e := Add effects [EffectNetwork] in
        ((if wgetSavesFile args then Add e [EffectFileWrite] else e), level)
      else (effects, level)
    else if mem base ["sed"; "awk"] then
      ((if hasArg args ["-i"; "--in-place"] then Add effects [EffectFileWrite] else effects), level)
    else if String.eqb base "git" then
      let eff := Add EffectNetwork [EffectFileWrite] in
      if hasArg args ["--force"; "-f"; "--force-with-lease"] then
        (Z.lor effects (Add eff [EffectDestructive]), maxLevel (maxLevel level RiskElevated) RiskMedium)
      else (Z.lor effects eff, maxLevel level RiskMedium)
    else (effects, level).

Definition assessUnsafe (cmd : string) : RiskAssessment :=
  let effects := if hasFileRedirect cmd then Add 0%Z [EffectFileWrite] else 0%Z in
  let '(effects, level) := foldl assessUnsafe_seg (effects, RiskMedium) (splitShellSegments cmd) in
  mkRiskAssessment level effects [mkReason "unsafe_args" "" "命令带写操作参数"] SourceClassifier 1%Z false.

Fixpoint write_segs (segs : list string) : option (RiskLevel * Effects) :=
  match segs with
  | [] => None
  | seg :: segs' =>
      let '(name, _) := splitMain seg in
      if String.eqb name "" then write_segs segs'
      else match assoc writeCommandLevels (Base name) with
           | Some w => Some w
           | None => write_segs segs'
           end
  end.

Definition assessWriteCommand (cmd : string) : option (RiskLevel * Effects) :=
  write_segs (splitShellSegments cmd).

Definition assessRiskyPattern (cmd : string) (cfg : Config) : option (RiskLevel * Effects * string) :=
  match find_first (fun p => MatchString p cmd) (RiskyPatterns cfg) with
  | None => None
  | Some p =>
      let lv := default 0%Z (assoc riskPatternLevel (source p)) in
      Some ((if (lv =? 0)%Z then RiskMedium else lv),
            default 0%Z (assoc riskPatternEffects (source p)), source p)
  end.

(** The test of the deny loop: a match, unless the built-in device rule is exempted. *)
Definition denies (cmd : string) (p : Regexp) : bool :=
  MatchString p cmd && negb (isBuiltinDevWritePattern p && pseudoDevRedirectOnly cmd).

Definition Assess (cmd : string) (cfg : option Config) : RiskAssessment :=
  let bypass := mkRiskAssessment RiskBenign 0%Z [] SourceBypass 1%Z false in
  match cfg with
  | None => bypass
  | Some cfg =>
  if String.eqb (CMode cfg) ModeOff then bypass
  else match find_first (denies cmd) (DeniedPatterns cfg) with
  | Some p =>
      mkRiskAssessment RiskCritical (Add EffectDestructive [EffectCodeExecution])
        [mkReason "deny_pattern" (source p) "拒绝执行的危险命令"] SourceRule 1%Z true
  | None =>
  match assessInjection cmd with
  | Some (lv, eff) =>
      mkRiskAssessment lv eff [mkReason "injection" "" "检测到命令注入向量"] SourceHeuristic 1%Z false
  | None =>
  match classifyCmd cmd (SafeCommands cfg) with
  | (verdictSafe, reason) =>
      mkRiskAssessment RiskLow (assessReadEffects cmd)
        [mkReason "safe_readonly" "" reason] SourceClassifier 1%Z false
  | (verdictUnsafe, _) => assessUnsafe cmd
  | (verdictUnknown, _) =>
  match assessWriteCommand cmd with
  | Some (lv, eff) =>
      mkRiskAssessment lv eff [mkReason "write_command" "" "写操作命令"] SourceHeuristic 1%Z false
  | None =>
  if ReadOnly cfg && hasWriteOps cmd then
    mkRiskAssessment RiskMedium EffectFileWrite
      [mkReason "write_op" "" "只读模式检测到写操作"] SourceHeuristic 1%Z false
  else match assessRiskyPattern cmd cfg with
  | Some (lv, eff, pat) =>
      mkRiskAssessment lv eff [mkReason "risky_pattern" pat (PatternDesc pat)] SourceRule 1%Z false
  | None =>
      mkRiskAssessment RiskUnclassified 0%Z
        [mkReason "unclassified" "" "无法分类的命令，默认不信任"] SourceUnclassified 0%Z false
  end end end end end end.

(** ** Lemmas *)

Example default_patterns_compile :
  forallb (fun p => match Compile p with Some _ => true | None => false end)
    (DefaultDeniedPatterns ++ DefaultRiskyPatterns ++ hasWriteOps_patterns) = true.
Proof. vm_compute. reflexivity. Qed.
Example subshellRe_compiles :
  (extractSubshellCode "echo $(rm -rf x) y", extractSubshellCode "a `date` b",
   extractSubshellCode "echo '$(rm x)'") = ("rm -rf x", "date", "").
Proof. vm_compute. reflexivity. Qed.

(** Only the eight declared bits are set. *)
Definition small (e : Effects) : Prop := Z.land e 255 = e.

Lemma small_lor a b : small a -> small b -> small (Z.lor a b).
Proof. unfold small. intros Ha Hb. rewrite Z.land_lor_distr_l. congruence. Qed.

Lemma small_range e : small e -> (0 <= e < 256)%Z.
Proof.
  unfold small. change 255%Z with (Z.ones 8). rewrite Z.land_ones by lia. intros <-.
  apply Z.mod_pos_bound. lia.
Qed.

Lemma small_Add e fs : small e -> Forall small fs -> small (Add e fs).
Proof.
  intros He Hfs. revert e He. induction Hfs as [|f fs Hf _ IH]; intros e He; cbn; [done|].
  apply IH. by apply small_lor.
Qed.

#[export] Hint Resolve small_lor small_Add : gow.
#[export] Hint Extern 1 (small _) => (vm_compute; reflexivity) : gow.
#[export] Hint Extern 1 (Forall small _) => (repeat constructor) : gow.

Lemma assoc_Forall {A} (P : A -> Prop) (l : list (string * A)) k v :
  assoc l k = Some v -> Forall (fun kv => P kv.2) l -> P v.
Proof.
  unfold assoc. intros H HF. apply fmap_Some in H as (kv & H & ->).
  apply find_first_Some in H as [H _]. rewrite Forall_forall in HF. by apply HF.
Qed.

(** A table whose entries satisfy [P], entry by entry. *)
Ltac table tac := repeat (apply Forall_cons_2 || apply Forall_nil_2); tac.

(** The level and the effects of every entry of the write-command table. *)
Definition risky_pair (le : RiskLevel * Effects) : Prop := (RiskMedium <= le.1 <= RiskReserved)%Z /\ small le.2.

Lemma writeCommandLevels_ok base w : assoc writeCommandLevels base = Some w -> risky_pair w.
Proof.
  intros H. apply (assoc_Forall _ _ _ _ H).
  table ltac:(idtac; split; [vm_compute; split; discriminate|vm_compute; reflexivity]).
Qed.

Lemma assessInjection_ok cmd r : assessInjection cmd = Some r -> risky_pair r.
Proof.
  unfold assessInjection, evalCommand. intros H.
  repeat case_match; simplify_eq;
    (split; [vm_compute; split; discriminate|vm_compute; reflexivity]).
Qed.

Lemma assessWriteCommand_ok cmd r : assessWriteCommand cmd = Some r -> risky_pair r.
Proof.
  unfold assessWriteCommand. induction (splitShellSegments cmd) as [|seg segs IH]; cbn [write_segs]; [done|].
  destruct (splitMain seg) as [name args]. case_match; [done|].
  destruct (assoc writeCommandLevels (Base name)) eqn:E; [|exact IH].
  intros [= <-]. by eapply writeCommandLevels_ok.
Qed.

Lemma assessRiskyPattern_ok cmd cfg lv eff pat :
  assessRiskyPattern cmd cfg = Some (lv, eff, pat) -> risky_pair (lv, eff).
Proof.
  unfold assessRiskyPattern. destruct (find_first _ _) as [p|]; [|done]. intros [= <- <- <-].
  split; cbn [fst snd].
  - destruct (assoc riskPatternLevel (source p)) as [l|] eqn:E; cbn [default from_option id];
      [|vm_compute; split; discriminate].
    assert ((RiskMedium <= l <= RiskReserved)%Z) as ?.
    { apply (assoc_Forall (fun l => (RiskMedium <= l <= RiskReserved)%Z) _ _ _ E).
      table ltac:(vm_compute; split; discriminate). }
    case_match; unfold RiskMedium, RiskReserved in *; lia.
  - destruct (assoc riskPatternEffects (source p)) as [e|] eqn:E; cbn [default from_option id]; [|done].
    apply (assoc_Forall small _ _ _ E). table ltac:(vm_compute; reflexivity).
Qed.

Lemma assessUnsafe_seg_ok acc seg :
  risky_pair (acc.2, acc.1) ->
  risky_pair ((assessUnsafe_seg acc seg).2, (assessUnsafe_seg acc seg).1).
Proof.
  destruct acc as [e l]. intros [Hl He]. cbn [fst snd] in *. unfold assessUnsafe_seg.
  destruct (splitMain seg) as [name args]. case_match; [done|].
  destruct (assoc writeCommandLevels (Base name)) as [[wl we]|] eqn:E.
  - apply writeCommandLevels_ok in E as [Hw Hs]. cbn [fst snd] in *.
    unfold risky_pair, maxLevel, RiskMedium, RiskReserved, RiskElevated in *. cbn [fst snd].
    repeat case_match; cbn [fst snd]; bools; (split; [lia|auto 8 with gow]).
  - unfold risky_pair, maxLevel, RiskMedium, RiskReserved, RiskElevated in *. cbn [fst snd].
    repeat case_match; cbn [fst snd]; bools; (split; [lia|auto 8 with gow]).
Qed.

Lemma assessUnsafe_ok cmd : risky_pair (Level (assessUnsafe cmd), AEffects (assessUnsafe cmd)).
Proof.
  unfold assessUnsafe.
  set (e0 := if hasFileRedirect cmd then _ else _).
  assert (H0 : risky_pair (RiskMedium, e0)).
  { split; [unfold RiskMedium, RiskReserved; cbn; lia|]. cbn. subst e0. case_match; done. }
  change (risky_pair ((e0, RiskMedium).2, (e0, RiskMedium).1)) in H0.
  revert H0. generalize (e0, RiskMedium). induction (splitShellSegments cmd) as [|seg segs IH].
  - intros [e l] H. done.
  - intros acc H. cbn [foldl]. apply IH. by apply assessUnsafe_seg_ok.
Qed.

Lemma assessReadEffects_ok cmd :
  assessReadEffects cmd = EffectFileRead \/ assessReadEffects cmd = Z.lor EffectFileRead EffectNetwork.
Proof.
  unfold assessReadEffects.
  assert (H : forall segs e, e = EffectFileRead \/ e = Z.lor EffectFileRead EffectNetwork ->
    let r := foldl (fun e seg => let '(name, _) := splitMain seg in
      if String.eqb name "" then e
      else if mem (Base name) readNetworkCmds then Add e [EffectNetwork] else e) e segs in
    r = EffectFileRead \/ r = Z.lor EffectFileRead EffectNetwork).
  { induction segs as [|seg segs IH]; intros e He; cbn; [done|]. apply IH.
    destruct (splitMain seg). repeat case_match; try done. right. by destruct He as [-> | ->]. }
  apply H. by left.
Qed.

(** A command a configuration denies outright. *)
Definition denied (cmd : string) (cfg : Config) : Prop :=
  exists p, p ∈ DeniedPatterns cfg /\ denies cmd p = true.

(** A command the classifier lets through: not denied, no injection vector, and
    read-only in every segment. *)
Definition readonly_cmd (cmd : string) (cfg : Config) : Prop :=
  ~ denied cmd cfg /\ assessInjection cmd = None /\ (classifyCmd cmd (SafeCommands cfg)).1 = verdictSafe.

Lemma denies_find cmd cfg :
  match find_first (denies cmd) (DeniedPatterns cfg) with
  | Some p => denied cmd cfg
  | None => ~ denied cmd cfg
  end.
Proof.
  destruct (find_first (denies cmd) (DeniedPatterns cfg)) as [p|] eqn:E.
  - apply find_first_Some in E as [??]. by exists p.
  - apply find_first_None in E. rewrite Forall_forall in E. intros (p & Hp & Hd).
    rewrite (E p Hp) in Hd. done.
Qed.

(** The three outcomes of an assessment: hard denial, read-only, or a level of
    at least medium with declared effects. *)
Lemma Assess_cases cmd cfg :
  CMode cfg <> ModeOff ->
  let ra := Assess cmd (Some cfg) in
  (denied cmd cfg /\ HardDeny ra = true /\ Level ra = RiskCritical)
  \/ (readonly_cmd cmd cfg /\ HardDeny ra = false /\ Level ra = RiskLow
      /\ AEffects ra = assessReadEffects cmd)
  \/ (~ denied cmd cfg /\ ~ readonly_cmd cmd cfg /\ HardDeny ra = false
      /\ risky_pair (Level ra, AEffects ra)).
Proof.
  intros Hm. apply String.eqb_neq in Hm. cbn [Assess]. rewrite Hm.
  pose proof (denies_find cmd cfg) as Hd. unfold readonly_cmd.
  destruct (find_first _ _); [left; done|]. right.
  destruct (assessInjection cmd) as [[lv eff]|] eqn:Ei.
  { right. apply assessInjection_ok in Ei. repeat split; try apply Ei; naive_solver. }
  destruct (classifyCmd cmd (SafeCommands cfg)) as [[] reason] eqn:Ec; cbn.
  - right. assert (~ (~ denied cmd cfg /\ (@None (RiskLevel * Effects)) = None /\ verdictUnknown = verdictSafe)) by naive_solver.
    destruct (assessWriteCommand cmd) as [[lv eff]|] eqn:Ew.
    { apply assessWriteCommand_ok in Ew. done. }
    case_match; [done|].
    destruct (assessRiskyPattern cmd cfg) as [[[lv eff] pat]|] eqn:Er; [|done].
    apply assessRiskyPattern_ok in Er. done.
  - left. done.
  - right. repeat split; [done|naive_solver| | | |]; try apply assessUnsafe_ok.
    unfold assessUnsafe. by case_match.
Qed.
