(* ===== verification/SandboxPolicy.v ===== *)
(** * ai-sandbox/policy.go, config.go, tool_policy.go: from a risk to a decision

    [Decide] raises the assessed level to the floor of its effects, reads the
    decision off the level and the mode, and lets an allow rule turn a
    confirmation into an allowance in normal mode only. *)

From S2P Require Import Prelude GoString GoRegexp SandboxSpec SandboxSafe SandboxAssess.
#[local] Open Scope string_scope.
#[local] Open Scope list_scope.

(** ** policy.go *)

Definition Decision_String (d : Decision) : string :=
  match d with
  | DecisionAllow => "allow"
  | DecisionSandbox => "sandbox"
  | DecisionHitl => "hitl"
  | DecisionDeny => "deny"
  end.

(** The errors [Outcome.Error] and [Check] return. *)
Inductive CheckError : Type :=
  | NeedsConfirmationError (command pattern reason : string)
  | CommandDenied (detail : string).

Definition Outcome_Error (o : Outcome) : option CheckError :=
  match ODecision o with
  | DecisionAllow | DecisionSandbox => None
  | DecisionHitl =>
      Some (NeedsConfirmationError (describeCommand (OCommand o)) (firstPattern (OReasons o))
              (firstDetail (OReasons o)))
  | DecisionDeny => Some (CommandDenied (firstDetail (OReasons o)))
  end.

(** A [Policy] is its rules. *)
Definition Policy : Type := list AllowRule.

Definition NewPolicy (cfg : option Config) : Policy :=
  match cfg with None => [] | Some c => AllowRules c end.

Definition decisionFor (level : RiskLevel) (mode : Mode) (autoMaxRisk : RiskLevel) : Decision :=
  if String.eqb mode ModeAuto then
    if (level <=? autoMaxRisk)%Z then DecisionAllow else DecisionHitl
  else if String.eqb mode ModeStrict || String.eqb mode ModeReadOnly then
    if (level <=? RiskLow)%Z then DecisionAllow else DecisionDeny
  else
    if (level <=? RiskLow)%Z then DecisionAllow else DecisionHitl.

Definition floorByEffects (e : Effects) : RiskLevel :=
  if Has e EffectCodeExecution || Has e EffectPrivileged || Has e EffectSecretAccess then RiskHigh
  else if Has e EffectDestructive then RiskElevated
  else if Has e EffectFileWrite || Has e EffectProcessSpawn then RiskMedium
  else RiskBenign.

Definition mainTokens (cmd : string) : list string :=
  match splitShellSegments cmd with
  | [] => []
  | seg :: _ =>
      let '(name, args) := splitMain seg in
      if String.eqb name "" then []
      else
        let base := Base name in
        if String.eqb base "env" then
          match envResolve args with
          | None => base :: args
          | Some (realName, realArgs) => Base realName :: realArgs
          end
        else base :: args
  end.

Fixpoint tokensMatch (cmdTokens matchTokens : list string) : bool :=
  match matchTokens, cmdTokens with
  | [], _ => true
  | _ :: _, [] => false
  | m :: ms, c :: cs => String.eqb c m && tokensMatch cs ms
  end.

(** [ra.Effects & ^rule.Effects]: the effects outside the rule's. *)
Definition rule_admits (toks : list string) (ra : RiskAssessment) (effLv : RiskLevel) (rule : AllowRule)
  : bool :=
  tokensMatch toks (MatchTokens rule)
  && (effLv <=? MaxRisk rule)%Z
  && negb (negb (AllowEffects rule =? 0)%Z && negb (Z.land (AEffects ra) (Z.lnot (AllowEffects rule)) =? 0)%Z).

Definition matchAllowRule (p : Policy) (req : CommandRequest) (ra : RiskAssessment) (effLv : RiskLevel)
  : option AllowRule :=
  match p with
  | [] => None
  | _ =>
      match mainTokens (Command req) with
      | [] => None
      | toks => find_first (rule_admits toks ra effLv) p
      end
  end.

Definition effective_level (ra : RiskAssessment) : RiskLevel :=
  let f := floorByEffects (AEffects ra) in
  if (Level ra <? f)%Z then f else Level ra.

Definition Decide (p : Policy) (req : CommandRequest) (cfg : option Config) (ra : RiskAssessment)
  : Outcome :=
  let out d lv ov :=
    mkOutcome d lv (AEffects ra) (Reasons ra) (ASource ra) (Command req) (HardDeny ra) ov in
  match cfg with
  | None => out DecisionAllow RiskBenign None
  | Some c =>
      if String.eqb (CMode c) ModeOff then out DecisionAllow RiskBenign None
      else if HardDeny ra then out DecisionDeny (Level ra) None
      else
        let effLv := effective_level ra in
        let d := decisionFor effLv (CMode c) (AutoMaxRisk c) in
        if (match d with DecisionHitl => true | _ => false end) && String.eqb (CMode c) ModeNormal then
          match matchAllowRule p req ra effLv with
          | Some rule => out DecisionAllow effLv (Some rule)
          | None => out d effLv None
          end
        else out d effLv None
  end.

Definition Evaluate (req : CommandRequest) (cfg : option Config) : Outcome :=
  let bypass := mkOutcome DecisionAllow RiskBenign 0%Z [] SourceBypass (Command req) false None in
  match cfg with
  | None => bypass
  | Some c =>
      if String.eqb (CMode c) ModeOff then bypass
      else Decide (NewPolicy cfg) req cfg (Assess (Command req) cfg)
  end.

(** ** config.go *)

Definition parseEffect (n : string) : Effect :=
  if String.eqb n "file_read" then EffectFileRead
  else if String.eqb n "file_write" then EffectFileWrite
  else if String.eqb n "network" then EffectNetwork
  else if String.eqb n "privileged" then EffectPrivileged
  else if String.eqb n "destructive" then EffectDestructive
  else if String.eqb n "secret_access" then EffectSecretAccess
  else if String.eqb n "process_spawn" then EffectProcessSpawn
  else if String.eqb n "code_execution" then EffectCodeExecution
  else 0%Z.

(** An unknown name adds no bit. *)
Definition parseEffects (names : list string) : Effects :=
  foldl (fun e n => Add e [parseEffect n]) 0%Z names.

Definition AllowRuleForCommand (command : string) (maxRisk : RiskLevel) (effects : list string)
  : option AllowRule :=
  match mainTokens command with
  | [] => None
  | tokens => Some (mkAllowRule tokens maxRisk (parseEffects effects) "")
  end.

Record RiskPatternConfig := mkRiskPatternConfig { rpPattern : string; rpDesc : string }.
Record AllowRuleConfig := mkAllowRuleConfig {
  arMatch : string; arMaxRisk : string; arEffects : list string; arDesc : string }.
Record ToolAllowRuleConfig := mkToolAllowRuleConfig { tarKey : string; tarMaxRisk : string; tarDesc : string }.

Record SandboxConfig := mkSandboxConfig {
  scMode : string;
  scAutoMaxRisk : string;
  scAllowedWorkDir : string;
  scDeniedPatterns : list string;
  scRiskyPatterns : list RiskPatternConfig;
  scSafeCommands : list string;
  scAllowRules : list AllowRuleConfig;
  scToolAllowRules : list ToolAllowRuleConfig;
  scAuditLog : bool;
}.

Definition compileAllowRules (rules : list AllowRuleConfig) : list AllowRule :=
  omap (fun r =>
    match ParseRiskLevel (arMaxRisk r), Fields (arMatch r) with
    | Some lv, (_ :: _) as tokens => Some (mkAllowRule tokens lv (parseEffects (arEffects r)) (arDesc r))
    | _, _ => None
    end) rules.

Definition compileToolAllowRules (rules : list ToolAllowRuleConfig) : list ToolAllowRule :=
  omap (fun r =>
    let key := TrimSpace (tarKey r) in
    match ParseRiskLevel (tarMaxRisk r) with
    | Some lv => if String.eqb key "" then None else Some (mkToolAllowRule key lv (tarDesc r))
    | None => None
    end) rules.

(** [wd] is what [os.Getwd] returns, when it succeeds. [None] is the panic of
    [MustCompile]. *)
Definition NewFromConfig (wd : option string) (cfg : SandboxConfig) : option Config :=
  let denied := match scDeniedPatterns cfg with [] => DefaultDeniedPatterns | l => l end in
  let riskyStrs :=
    match scRiskyPatterns cfg with [] => DefaultRiskyPatterns | l => rpPattern <$> l end in
  let patternDescs :=
    foldl (fun (acc : gmap string string) r =>
      if negb (String.eqb (rpDesc r) "") then <[rpPattern r := rpDesc r]> acc else acc)
      ∅ (scRiskyPatterns cfg) in
  let workDir :=
    if String.eqb (scAllowedWorkDir cfg) "" then default "" wd else scAllowedWorkDir cfg in
  let autoMaxRisk :=
    if String.eqb (scAutoMaxRisk cfg) "" then RiskLow
    else default RiskLow (ParseRiskLevel (scAutoMaxRisk cfg)) in
  let safeCmds :=
    foldl (fun (acc : gmap string bool) c => <[c := true]> acc) ∅ (scSafeCommands cfg) in
  match MustCompile denied, MustCompile riskyStrs with
  | Some d, Some r =>
      Some (mkConfig d r patternDescs workDir (String.eqb (scMode cfg) ModeReadOnly) 0%Z (scMode cfg)
              autoMaxRisk safeCmds (compileAllowRules (scAllowRules cfg))
              (compileToolAllowRules (scToolAllowRules cfg)))
  | _, _ => None
  end.

Definition Check (cmd : string) (cfg : option Config) : option CheckError :=
  match cfg with
  | None => None
  | Some c =>
      if String.eqb (CMode c) ModeOff then None
      else Outcome_Error (Evaluate (mkCommandRequest cmd "" "") cfg)
  end.

(** ** tool_policy.go *)

Record ToolPolicyMetadata := mkToolPolicyMetadata {
  tpRiskLevel : RiskLevel;
  RequiresPermission : bool;
  AllowAlwaysKey : string;
  ForceHITL : bool;
  ParseReason : string;
}.

Definition meta (md : gmap string string) (k : string) : string := default "" (md !! k).

Definition NormalizeToolMetadata (metadata : option (gmap string string)) : ToolPolicyMetadata :=
  match metadata with
  | None => mkToolPolicyMetadata RiskUnclassified false "" false "missing risk_level"
  | Some md =>
      let '(level, reason) :=
        match ParseRiskLevel (meta md "risk_level") with
        | Some l => (l, "")
        | None =>
            (RiskUnclassified,
             if bool_decide (is_Some (md !! "risk_level")) then "invalid risk_level" else "missing risk_level")
        end in
      let reason :=
        if String.eqb reason "" && negb (bool_decide (is_Some (md !! "risk_level")))
        then "missing risk_level" else reason in
      let requires := EqualFold (meta md "requires_permission") "true" in
      let key := TrimSpace (meta md "allow_always_key") in
      if EqualFold (meta md "permission_policy") "always_hitl" then
        mkToolPolicyMetadata level true key true
          (if String.eqb reason "" then "permission_policy=always_hitl" else reason)
      else mkToolPolicyMetadata level requires key false reason
  end.

(** ** Lemmas *)

Lemma assessReadEffects_floor cmd : floorByEffects (assessReadEffects cmd) = RiskBenign.
Proof. destruct (assessReadEffects_ok cmd) as [-> | ->]; reflexivity. Qed.

Lemma effective_level_max ra :
  effective_level ra = Z.max (Level ra) (floorByEffects (AEffects ra)).
Proof. unfold effective_level. case_match; bools; lia. Qed.

(** In every mode but off, [Evaluate] decides on the assessment. *)
Lemma Evaluate_on req cfg :
  CMode cfg <> ModeOff ->
  Evaluate req (Some cfg) = Decide (AllowRules cfg) req (Some cfg) (Assess (Command req) (Some cfg)).
Proof. intros H%String.eqb_neq. unfold Evaluate. by rewrite H. Qed.

(** The decision without a hard denial. *)
Definition soft_decision (p : Policy) (req : CommandRequest) (cfg : Config) (ra : RiskAssessment)
  : Decision * option AllowRule :=
  match decisionFor (effective_level ra) (CMode cfg) (AutoMaxRisk cfg) with
  | DecisionHitl =>
      if String.eqb (CMode cfg) ModeNormal then
        match matchAllowRule p req ra (effective_level ra) with
        | Some r => (DecisionAllow, Some r)
        | None => (DecisionHitl, None)
        end
      else (DecisionHitl, None)
  | d => (d, None)
  end.

Lemma Decide_soft p req cfg ra :
  CMode cfg <> ModeOff -> HardDeny ra = false ->
  let out := Decide p req (Some cfg) ra in
  OLevel out = effective_level ra /\ OEffects out = AEffects ra /\ OHardDeny out = false /\
  ODecision out = (soft_decision p req cfg ra).1 /\ Override out = (soft_decision p req cfg ra).2.
Proof.
  intros Hm%String.eqb_neq Hh. unfold Decide, soft_decision. rewrite Hm, Hh.
  destruct (decisionFor _ _ _); destruct (String.eqb (CMode cfg) ModeNormal); cbn [andb];
    try done; destruct (matchAllowRule _ _ _ _); done.
Qed.

Lemma soft_decision_strict p req cfg ra :
  CMode cfg = ModeStrict \/ CMode cfg = ModeReadOnly ->
  soft_decision p req cfg ra =
    (if (effective_level ra <=? RiskLow)%Z then DecisionAllow else DecisionDeny, None).
Proof.
  intros H. unfold soft_decision, decisionFor.
  destruct H as [-> | ->]; by destruct (effective_level ra <=? RiskLow)%Z.
Qed.

Lemma soft_decision_normal p req cfg ra :
  CMode cfg = ModeNormal ->
  soft_decision p req cfg ra =
    if (effective_level ra <=? RiskLow)%Z then (DecisionAllow, None)
    else match matchAllowRule p req ra (effective_level ra) with
         | Some r => (DecisionAllow, Some r)
         | None => (DecisionHitl, None)
         end.
Proof.
  intros H. unfold soft_decision, decisionFor. rewrite H. by destruct (effective_level ra <=? RiskLow)%Z.
Qed.

#[global] Arguments Assess : simpl never.
#[global] Arguments Decide : simpl never.
#[global] Arguments Evaluate : simpl never.

Lemma readonly_level cmd cfg :
  CMode cfg <> ModeOff -> readonly_cmd cmd cfg ->
  HardDeny (Assess cmd (Some cfg)) = false /\ effective_level (Assess cmd (Some cfg)) = RiskLow.
Proof.
  intros Hm Hr. pose proof Hr as (Hd & _).
  destruct (Assess_cases cmd cfg Hm) as [(Hx & _)|[(_ & Hh & Hl & He)|(_ & Hx & _)]]; try done.
  rewrite effective_level_max, Hl, He, assessReadEffects_floor. done.
Qed.

Lemma risky_level cmd cfg :
  CMode cfg <> ModeOff -> ~ denied cmd cfg -> ~ readonly_cmd cmd cfg ->
  HardDeny (Assess cmd (Some cfg)) = false /\
  (RiskMedium <= effective_level (Assess cmd (Some cfg)))%Z /\ small (AEffects (Assess cmd (Some cfg))).
Proof.
  intros Hm Hd Hr.
  destruct (Assess_cases cmd cfg Hm) as [(Hx & _)|[(Hx & _)|(_ & _ & Hh & Hl & He)]]; try done.
  rewrite effective_level_max. cbn [fst snd] in *. repeat split; [done|lia|done].
Qed.

(** A rule that covers a command at a level and with effects. *)
Definition covers (req : CommandRequest) (out : Outcome) (rule : AllowRule) : Prop :=
  MatchTokens rule `prefix_of` mainTokens (Command req) /\ mainTokens (Command req) <> [] /\
  (OLevel out <= MaxRisk rule)%Z /\
  (AllowEffects rule = 0%Z \/ Z.land (OEffects out) (Z.lnot (AllowEffects rule)) = 0%Z).

Lemma tokensMatch_prefix cs ms : tokensMatch cs ms = true <-> ms `prefix_of` cs.
Proof.
  revert cs. induction ms as [|m ms IH]; intros [|c cs]; cbn.
  - split; [intros _; apply prefix_nil|done].
  - split; [intros _; apply prefix_nil|done].
  - split; [done|intros H; by apply prefix_nil_not in H].
  - rewrite andb_true_iff, String.eqb_eq, IH. split.
    + intros [-> H]. by apply prefix_cons.
    + intros H. split; [symmetry; by eapply prefix_cons_inv_1|by eapply prefix_cons_inv_2].
Qed.

Lemma rule_admits_iff toks ra lv rule :
  rule_admits toks ra lv rule = true <->
  MatchTokens rule `prefix_of` toks /\ (lv <= MaxRisk rule)%Z /\
  (AllowEffects rule = 0%Z \/ Z.land (AEffects ra) (Z.lnot (AllowEffects rule)) = 0%Z).
Proof.
  unfold rule_admits. rewrite !andb_true_iff, tokensMatch_prefix, Z.leb_le.
  rewrite negb_true_iff, andb_false_iff, !negb_false_iff, !Z.eqb_eq. tauto.
Qed.

Lemma matchAllowRule_iff p req ra lv :
  match matchAllowRule p req ra lv with
  | Some rule => rule ∈ p /\ mainTokens (Command req) <> []
                 /\ rule_admits (mainTokens (Command req)) ra lv rule = true
  | None => mainTokens (Command req) <> [] ->
            Forall (fun r => rule_admits (mainTokens (Command req)) ra lv r = false) p
  end.
Proof.
  unfold matchAllowRule. destruct p as [|r p]; [done|].
  destruct (mainTokens (Command req)) as [|t ts]; [done|].
  destruct (find_first _ _) as [x|] eqn:E.
  - apply find_first_Some in E as [??]. done.
  - intros _. by apply find_first_None in E.
Qed.

(** Effects survive their names. *)
Lemma parseEffects_Names e : small e -> parseEffects (Names e) = e.
Proof.
  intros H%small_range.
  assert (Hall : forallb (fun n => (parseEffects (Names (Z.of_nat n)) =? Z.of_nat n)%Z) (seq 0 256) = true)
    by (vm_compute; reflexivity).
  apply forallb_Forall in Hall. rewrite Forall_forall in Hall.
  specialize (Hall (Z.to_nat e)). rewrite Z2Nat.id in Hall by lia.
  apply Z.eqb_eq, Hall, elem_of_seq. lia.
Qed.

Lemma land_lnot_self e : Z.land e (Z.lnot e) = 0%Z.
Proof. apply Z.land_lnot_diag. Qed.

Definition with_rules (cfg : Config) (rules : list AllowRule) : Config :=
  mkConfig (DeniedPatterns cfg) (RiskyPatterns cfg) (PatternDescs cfg) (AllowedWorkDir cfg)
    (ReadOnly cfg) (MaxOutputBytes cfg) (CMode cfg) (AutoMaxRisk cfg) (SafeCommands cfg) rules
    (ToolAllowRules cfg).

(** The rules do not enter the assessment. *)
Lemma Assess_with_rules cmd cfg rules : Assess cmd (Some (with_rules cfg rules)) = Assess cmd (Some cfg).
Proof. done. Qed.

(** A rule built from a command the user was asked about covers that command from
    then on, and no other rule could have. *)
Lemma approved_rule_covers req cfg rule :
  CMode cfg = ModeNormal ->
  let out := Evaluate req (Some cfg) in
  ODecision out = DecisionHitl ->
  AllowRuleForCommand (Command req) (OLevel out) (Names (OEffects out)) = Some rule ->
  let out' := Evaluate req (Some (with_rules cfg (AllowRules cfg ++ [rule]))) in
  ODecision out' = DecisionAllow /\ Override out' = Some rule /\ OLevel out' = OLevel out.
Proof.
  intros Hn out Hhitl Hrule out'. assert (Hm : CMode cfg <> ModeOff) by (by rewrite Hn).
  set (cfg' := with_rules cfg (AllowRules cfg ++ [rule])) in out'. assert (Hm' : CMode cfg' <> ModeOff) by exact Hm.
  assert (Eo : out = Decide (AllowRules cfg) req (Some cfg) (Assess (Command req) (Some cfg)))
    by exact (Evaluate_on req cfg Hm).
  assert (Eo' : Evaluate req (Some cfg') = Decide (AllowRules cfg') req (Some cfg') (Assess (Command req) (Some cfg)))
    by exact (Evaluate_on req cfg' Hm').
  change out' with (Evaluate req (Some cfg')). rewrite Eo'. clear Eo' out'. clearbody out.
  revert Hhitl Hrule.
  destruct (Assess_cases (Command req) cfg Hm) as [(Hd & Hh & _)|[(Hr & Hh & _)|(Hd & Hr & Hh & _)]].
  - rewrite Eo. apply String.eqb_neq in Hm. unfold Decide. by rewrite Hm, Hh.
  - destruct (Decide_soft (AllowRules cfg) req cfg _ Hm Hh) as (_ & _ & _ & Ho & _).
    rewrite <- Eo in Ho. rewrite Ho, soft_decision_normal by done.
    destruct (readonly_level _ _ Hm Hr) as [_ ->]. done.
  - destruct (risky_level _ _ Hm Hd Hr) as (_ & Hl & Hs).
    destruct (Decide_soft (AllowRules cfg) req cfg _ Hm Hh) as (Hlv & Hef & _ & Ho & _).
    destruct (Decide_soft (AllowRules cfg') req cfg' _ Hm' Hh) as (-> & _ & _ & -> & ->).
    rewrite <- Eo in Hlv, Hef, Ho. rewrite Ho, Hlv, Hef, !soft_decision_normal by done.
    rewrite (proj2 (Z.leb_gt _ _)) by (unfold RiskMedium, RiskLow in *; lia).
    unfold matchAllowRule, AllowRuleForCommand. rewrite parseEffects_Names by done.
    destruct (mainTokens (Command req)) as [|t ts] eqn:Et.
    { by destruct (AllowRules cfg). }
    intros Hhitl [= <-].
    set (rule := mkAllowRule _ _ _ _) in *.
    assert (Hadm : rule_admits (t :: ts) (Assess (Command req) (Some cfg))
                     (effective_level (Assess (Command req) (Some cfg))) rule = true).
    { apply rule_admits_iff. cbn. split; [done|]. split; [lia|]. right. apply Z.land_lnot_diag. }
    assert (Hnone : find_first (rule_admits (t :: ts) (Assess (Command req) (Some cfg))
              (effective_level (Assess (Command req) (Some cfg)))) (AllowRules cfg) = None).
    { destruct (AllowRules cfg); [done|]. by destruct (find_first _ _). }
    cbn [AllowRules cfg' with_rules]. rewrite find_first_app, Hnone. cbn [find_first]. rewrite Hadm.
    destruct (AllowRules cfg ++ [rule]) eqn:Ea; [by destruct (AllowRules cfg)|].
    done.
Qed.

(** ** Properties *)

(** What the redirections to devices in a command name: what the pattern of the
    exemption finds in it, and only devices that lose or copy what is written. *)
Definition harmless_devices_only (cmd : string) : Prop :=
  exists re, Compile ">\s*\/dev\/([^\s;&|]+)" = Some re /\
    FindAllStringSubmatch re cmd <> [] /\
    forall c, c ∈ FindAllStringSubmatch re cmd ->
      let dev := TrimSuffix (submatch c 1) "/" in
      dev ∈ ["null"; "stdout"; "stderr"; "zero"; "full"; "random"; "urandom"; "tty"; "tty0"]
      \/ exists n, dev = "fd/" +:+ n.

(** A deny pattern of the configuration matches, and it is not the built-in device
    pattern on a command whose redirections name harmless devices only. *)
Definition hard_denied (cmd : string) (cfg : Config) : Prop :=
  exists p, p ∈ DeniedPatterns cfg /\ MatchString p cmd = true /\
    ~ (source p = ">\s*/dev/" /\ harmless_devices_only cmd).

Lemma mem_elem s l : mem s l = true <-> s ∈ l.
Proof.
  unfold mem. rewrite existsb_exists. setoid_rewrite <- list_elem_of_In.
  setoid_rewrite String.eqb_eq. naive_solver.
Qed.

Lemma HasPrefix_spec s p : HasPrefix s p = true <-> exists t, s = p +:+ t.
Proof.
  unfold HasPrefix. revert s. induction p as [|a p IH]; intros [|b s].
  - split; [by exists ""|done].
  - split; [by eexists|done].
  - split; [done|by intros [? ?]].
  - cbn [String.prefix]. destruct (ascii_dec a b) as [->|Hn].
    + rewrite IH. split; intros [t Ht]; exists t; [by rewrite Ht|by injection Ht].
    + split; [done|]. intros [t Ht]. by injection Ht.
Qed.

Lemma pseudoDevRedirectOnly_iff cmd : pseudoDevRedirectOnly cmd = true <-> harmless_devices_only cmd.
Proof.
  unfold pseudoDevRedirectOnly, harmless_devices_only.
  assert (Hre : Compile ">\s*\/dev\/([^\s;&|]+)" = Some devRe) by (vm_compute; reflexivity).
  rewrite Hre.
  assert (Hh : forall c, harmless_dev c = true <->
    (TrimSuffix (submatch c 1) "/" ∈ pseudoDevNames \/ exists n, TrimSuffix (submatch c 1) "/" = "fd/" +:+ n)).
  { intros c. unfold harmless_dev. by rewrite orb_true_iff, mem_elem, HasPrefix_spec. }
  destruct (FindAllStringSubmatch devRe cmd) as [|c cs] eqn:E.
  - split; [done|]. intros (re & [= <-] & Hne & _). by rewrite E in Hne.
  - rewrite forallb_forall. setoid_rewrite <- list_elem_of_In. split.
    + intros H. exists devRe. rewrite E. split; [done|]. split; [done|]. intros c' Hc. by apply Hh, H.
    + intros (re & [= <-] & _ & H) c' Hc. apply Hh, H. by rewrite E.
Qed.

Lemma denied_iff cmd cfg : denied cmd cfg <-> hard_denied cmd cfg.
Proof.
  unfold denied, hard_denied, denies, isBuiltinDevWritePattern. apply exist_proper. intros p.
  rewrite andb_true_iff, negb_true_iff, <- not_true_iff_false, andb_true_iff, String.eqb_eq,
    pseudoDevRedirectOnly_iff. done.
Qed.

(** C2: a hard denial dominates. In every mode but off, a command is hard denied
    exactly when it matches a deny pattern of the configuration, except that the
    built-in pattern for writes to devices does not count on a command whose
    redirections to devices name harmless ones only (null, stdout, stderr, zero,
    full, random, urandom, tty, tty0 or fd/...). It is then denied at level
    critical, with no override, whatever the allow rules say and however read-only
    it looks. *)
Theorem hard_deny_dominates req cfg :
  CMode cfg <> ModeOff ->
  let out := Evaluate req (Some cfg) in
  (OHardDeny out = true <-> hard_denied (Command req) cfg) /\
  (hard_denied (Command req) cfg ->
     ODecision out = DecisionDeny /\ OLevel out = RiskCritical /\ Override out = None).
Proof.
  intros Hm out. subst out. rewrite <- denied_iff, Evaluate_on by done.
  destruct (Assess_cases (Command req) cfg Hm) as [(Hd & Hh & Hl)|[(Hr & Hh & _)|(Hd & _ & Hh & _)]].
  - apply String.eqb_neq in Hm. unfold Decide. rewrite Hm, Hh. cbn. tauto.
  - destruct (Decide_soft (AllowRules cfg) req cfg _ Hm Hh) as (_ & _ & -> & _).
    destruct Hr as [Hd _]. done.
  - destruct (Decide_soft (AllowRules cfg) req cfg _ Hm Hh) as (_ & _ & -> & _). done.
Qed.

Definition sample_config (mode : Mode) (rules : list AllowRule) : Config :=
  mkConfig (default [] (MustCompile DefaultDeniedPatterns)) (default [] (MustCompile DefaultRiskyPatterns))
    ∅ "" (String.eqb mode ModeReadOnly) 0%Z mode RiskMedium ∅ rules [].

Definition sample_req (cmd : string) : CommandRequest := mkCommandRequest cmd "" "".

Lemma hard_deny_dominates_witness :
  hard_denied "echo x > /dev/null; rm -rf /" (sample_config ModeAuto []) /\
  ODecision (Evaluate (sample_req "echo x > /dev/null; rm -rf /") (Some (sample_config ModeAuto []))) = DecisionDeny /\
  ~ hard_denied "echo x > /dev/null" (sample_config ModeAuto []) /\
  hard_denied "echo x > /dev/sda" (sample_config ModeAuto []).
Proof.
  assert (Hm : CMode (sample_config ModeAuto []) <> ModeOff) by (vm_compute; discriminate).
  assert (hard_denied "echo x > /dev/null; rm -rf /" (sample_config ModeAuto [])) as Hd.
  { apply (proj1 (hard_deny_dominates (sample_req "echo x > /dev/null; rm -rf /") (sample_config ModeAuto []) Hm)).
    vm_compute. reflexivity. }
  split; [done|]. split.
  - refine (proj1 (proj2 (hard_deny_dominates (sample_req "echo x > /dev/null; rm -rf /") (sample_config ModeAuto []) Hm) Hd)).
  - split.
    + intros H. apply (proj1 (hard_deny_dominates (sample_req "echo x > /dev/null") (sample_config ModeAuto []) Hm)) in H.
      vm_compute in H. discriminate H.
    + apply (proj1 (hard_deny_dominates (sample_req "echo x > /dev/sda") (sample_config ModeAuto []) Hm)).
      vm_compute. reflexivity.
Defined.

(** in strict and read-only mode nothing is asked of the user and no rule
    applies: a command is allowed exactly when it matches no deny pattern, has
    no injection vector and is read-only in every segment, and is denied
    otherwise. *)
Theorem strict_allows_only_readonly req cfg :
  CMode cfg = ModeStrict \/ CMode cfg = ModeReadOnly ->
  let out := Evaluate req (Some cfg) in
  (ODecision out = DecisionAllow <-> readonly_cmd (Command req) cfg) /\
  (ODecision out = DecisionDeny <-> ~ readonly_cmd (Command req) cfg) /\
  Override out = None.
Proof.
  intros Hs out. subst out. assert (Hm : CMode cfg <> ModeOff) by (by destruct Hs as [-> | ->]).
  rewrite (Evaluate_on req cfg Hm).
  destruct (Assess_cases (Command req) cfg Hm) as [(Hd & Hh & _)|[(Hr & Hh & _)|(Hd & Hr & Hh & _)]].
  - assert (~ readonly_cmd (Command req) cfg) by (by intros [? _]).
    apply String.eqb_neq in Hm. unfold Decide. rewrite Hm, Hh. cbn. naive_solver.
  - destruct (readonly_level _ _ Hm Hr) as [_ Hl].
    destruct (Decide_soft (AllowRules cfg) req cfg _ Hm Hh) as (_ & _ & _ & -> & ->).
    rewrite soft_decision_strict, Hl by done. cbn. naive_solver.
  - destruct (risky_level _ _ Hm Hd Hr) as (_ & Hl & _).
    destruct (Decide_soft (AllowRules cfg) req cfg _ Hm Hh) as (_ & _ & _ & -> & ->).
    rewrite soft_decision_strict by done.
    rewrite (proj2 (Z.leb_gt _ _)) by (unfold RiskMedium, RiskLow in *; lia). cbn. naive_solver.
Qed.

Lemma strict_allows_only_readonly_witness :
  ODecision (Evaluate (sample_req "ls -l | wc -l") (Some (sample_config ModeStrict []))) = DecisionAllow
  <-> readonly_cmd "ls -l | wc -l" (sample_config ModeStrict []).
Proof.
  apply (strict_allows_only_readonly (sample_req "ls -l | wc -l") (sample_config ModeStrict [])).
  left. reflexivity.
Defined.

(** normal mode asks for everything else. A command that is not denied and
    not read-only is put to the user, unless one of the configured rules covers
    it: the rule's tokens start the command, the effective level is within the
    rule's bound, and its effects are within the rule's effects. Nothing but a
    denied command is denied. *)
Theorem normal_mode_decision req cfg :
  CMode cfg = ModeNormal ->
  let out := Evaluate req (Some cfg) in
  let covered := exists rule, rule ∈ AllowRules cfg /\ covers req out rule in
  (ODecision out = DecisionDeny <-> denied (Command req) cfg) /\
  (ODecision out = DecisionAllow <->
     readonly_cmd (Command req) cfg \/ ~ denied (Command req) cfg /\ covered) /\
  (ODecision out = DecisionHitl <->
     ~ denied (Command req) cfg /\ ~ readonly_cmd (Command req) cfg /\ ~ covered).
Proof.
  intros Hn out covered. assert (Hm : CMode cfg <> ModeOff) by (by rewrite Hn).
  assert (Eo : out = Decide (AllowRules cfg) req (Some cfg) (Assess (Command req) (Some cfg)))
    by exact (Evaluate_on req cfg Hm).
  clearbody out.
  destruct (Assess_cases (Command req) cfg Hm) as [(Hd & Hh & _)|[(Hr & Hh & _)|(Hd & Hr & Hh & _)]].
  - assert (~ readonly_cmd (Command req) cfg) by (by intros [? _]).
    assert (ODecision out = DecisionDeny) as ->.
    { rewrite Eo. apply String.eqb_neq in Hm. unfold Decide. by rewrite Hm, Hh. }
    naive_solver.
  - destruct (readonly_level _ _ Hm Hr) as [_ Hl].
    destruct (Decide_soft (AllowRules cfg) req cfg _ Hm Hh) as (_ & _ & _ & Ho & _).
    rewrite <- Eo in Ho. rewrite Ho, soft_decision_normal, Hl by done. cbn.
    pose proof Hr as [? _]. naive_solver.
  - destruct (risky_level _ _ Hm Hd Hr) as (_ & Hl & _).
    destruct (Decide_soft (AllowRules cfg) req cfg _ Hm Hh) as (Hlv & Hef & _ & Ho & _).
    rewrite <- Eo in Hlv, Hef, Ho. rewrite Ho, soft_decision_normal by done.
    rewrite (proj2 (Z.leb_gt _ _)) by (unfold RiskMedium, RiskLow in *; lia).
    pose proof (matchAllowRule_iff (AllowRules cfg) req (Assess (Command req) (Some cfg))
      (effective_level (Assess (Command req) (Some cfg)))) as Hmatch.
    destruct (matchAllowRule _ _ _ _) as [rule|]; cbn.
    + destruct Hmatch as (Hin & Ht & (Hp & Hle & He)%rule_admits_iff).
      assert covered.
      { exists rule. split; [done|]. unfold covers. by rewrite Hlv, Hef. }
      naive_solver.
    + assert (~ covered).
      { intros (rule & Hin & Hp & Ht & Hle & He). specialize (Hmatch Ht).
        rewrite Forall_forall in Hmatch. specialize (Hmatch rule Hin).
        rewrite Hlv in Hle. rewrite Hef in He.
        rewrite (proj2 (rule_admits_iff _ _ _ _)) in Hmatch; done. }
      naive_solver.
Qed.

Definition npm_rule : AllowRule := mkAllowRule ["npm"; "install"] RiskUnclassified 0%Z "".

Lemma normal_mode_decision_witness :
  let cfg := sample_config ModeNormal [npm_rule] in
  let req := sample_req "npm install left-pad" in
  ODecision (Evaluate req (Some cfg)) = DecisionAllow <->
  readonly_cmd (Command req) cfg \/ ~ denied (Command req) cfg /\
    exists rule, rule ∈ AllowRules cfg /\ covers req (Evaluate req (Some cfg)) rule.
Proof.
  exact (proj1 (proj2 (normal_mode_decision (sample_req "npm install left-pad")
                         (sample_config ModeNormal [npm_rule]) eq_refl))).
Defined.

(** the risk of a command is only ever raised. Outside off mode the level an
    outcome reports is the assessed level or the floor its effects demand,
    whichever is higher: code execution, privilege or secrets mean at least
    high, destruction at least elevated, writing or spawning at least medium. *)
Theorem level_only_raised req cfg :
  CMode cfg <> ModeOff -> ~ denied (Command req) cfg ->
  let ra := Assess (Command req) (Some cfg) in
  let out := Evaluate req (Some cfg) in
  OEffects out = AEffects ra /\
  OLevel out = Z.max (Level ra) (floorByEffects (AEffects ra)) /\
  (Has (OEffects out) EffectCodeExecution || Has (OEffects out) EffectPrivileged
     || Has (OEffects out) EffectSecretAccess = true -> (RiskHigh <= OLevel out)%Z) /\
  (Has (OEffects out) EffectDestructive = true -> (RiskElevated <= OLevel out)%Z) /\
  (Has (OEffects out) EffectFileWrite || Has (OEffects out) EffectProcessSpawn = true ->
     (RiskMedium <= OLevel out)%Z).
Proof.
  intros Hm Hd ra out. subst out. rewrite Evaluate_on by done. fold ra.
  assert (Hh : HardDeny ra = false).
  { destruct (Assess_cases (Command req) cfg Hm) as [(? & _)|[(_ & ? & _)|(_ & _ & ? & _)]]; done. }
  destruct (Decide_soft (AllowRules cfg) req cfg ra Hm Hh) as (-> & -> & _).
  rewrite effective_level_max. unfold floorByEffects, RiskHigh, RiskElevated, RiskMedium, RiskBenign.
  split; [done|]. split; [done|].
  destruct (Has (AEffects ra) EffectCodeExecution || _ || _); [repeat split; intros; lia|].
  destruct (Has (AEffects ra) EffectDestructive); [repeat split; intros; try done; lia|].
  destruct (Has (AEffects ra) EffectFileWrite || _); repeat split; intros; try done; lia.
Qed.

Lemma level_only_raised_witness :
  let req := sample_req "chmod +x run.sh" in
  let out := Evaluate req (Some (sample_config ModeAuto [])) in
  (RiskHigh <= OLevel out)%Z.
Proof.
  intros req out.
  refine (proj1 (proj2 (proj2 (level_only_raised req (sample_config ModeAuto []) _ _))) _).
  - vm_compute. discriminate.
  - intros (p & Hp & Hd).
    assert (H : forallb (fun p => negb (denies "chmod +x run.sh" p)) (DeniedPatterns (sample_config ModeAuto [])) = true)
      by (vm_compute; reflexivity).
    apply forallb_Forall in H. rewrite Forall_forall in H. specialize (H p Hp).
    cbv beta in H. change (denies "chmod +x run.sh" p = true) in Hd. rewrite Hd in H. discriminate.
  - vm_compute. reflexivity.
Defined.

(** ** What the assessment lets through *)

(** Without the redirection the command needs the user at level high; the
    redirection in front lowers it to medium, because [assessUnsafe] consults
    the table of write commands only. *)
Example redirection_lowers_sudo :
  let eval c := let o := Evaluate (sample_req c) (Some (sample_config ModeAuto [])) in (ODecision o, OLevel o) in
  eval "sudo systemctl stop db" = (DecisionHitl, RiskHigh) /\
  eval "ls > x; sudo systemctl stop db" = (DecisionAllow, RiskMedium).
Proof. split; vm_compute; reflexivity. Qed.

(** A rule is matched on the first segment only: what is chained behind an
    approved command is approved with it. *)
Example rule_covers_the_chain :
  ODecision (Evaluate (sample_req "npm install; rm -rf /home") (Some (sample_config ModeNormal [npm_rule])))
  = DecisionAllow.
Proof. vm_compute. reflexivity. Qed.
