(* ===== verification/HitlChannel.v ===== *)
(** * ai-runtime/hitl: interrupts, answers and the answer channel

    The data of an interrupt and of the user's answer, and [GetDecision], which
    waits for the answer to one interrupt on a channel all the interrupts of a
    run share: a loop over the branches its [select] takes. *)

From S2P Require Import Prelude.
#[local] Open Scope string_scope.
#[local] Open Scope list_scope.

(** ** hitl/spec.go *)

Definition DecisionType : Type := string.
Definition DecisionApprove : DecisionType := "approve".
Definition DecisionApproveAlways : DecisionType := "approve_always".
Definition DecisionReject : DecisionType := "reject".
Definition DecisionEdit : DecisionType := "edit".
Definition DecisionRespond : DecisionType := "respond".

Definition DefaultTimeout : Z := (120 * Second)%Z.

Record InterruptRequest := mkInterruptRequest {
  ID : string;
  ToolName : string;
  ReqCommand : string;
  RiskReason : string;
  Description : string;
  ReqRiskLevel : string;
  AllowAlways : bool;
  ReqAllowAlwaysKey : string;
  ReqEffects : list string;
  CreatedAt : Time;
  ExpiresAt : Time;
}.

(** The user's [hitl.Decision]. *)
Record Answer := mkAnswer {
  InterruptID : string;
  AType : DecisionType;
  ACommand : string;
  AMessage : string;
}.

(** ** hitl/channel_decision_provider.go *)

Module Channel.

(** What the [select] of the loop can take, one branch at a time. *)
Inductive event : Type :=
  | CtxDone
  | TimerFired
  | Received (d : Answer)
  | ChannelClosed.

Definition reject (req : InterruptRequest) : Answer := mkAnswer (ID req) DecisionReject "" "".

(** The loop over the branches taken; [None]: still waiting after them. *)
Fixpoint wait (req : InterruptRequest) (evs : list event) : option Answer :=
  match evs with
  | [] => None
  | CtxDone :: _ | TimerFired :: _ | ChannelClosed :: _ => Some (reject req)
  | Received d :: evs' =>
      if negb (String.eqb (InterruptID d) (ID req)) then wait req evs' else Some d
  end.

(** The timer's duration, or [None] when the request has already expired. *)
Definition timer (now : Time) (req : InterruptRequest) : option Z :=
  if IsZero (ExpiresAt req) then Some DefaultTimeout
  else if (ExpiresAt req - now <=? 0)%Z then None
  else Some (ExpiresAt req - now)%Z.

Definition GetDecision (now : Time) (evs : list event) (req : InterruptRequest) : option Answer :=
  match timer now req with
  | None => Some (reject req)
  | Some _ => wait req evs
  end.

(** Every answer is to this request; a stale one is dropped. *)
Lemma wait_inv req evs d :
  wait req evs = Some d ->
  d = reject req \/ (Received d ∈ evs /\ InterruptID d = ID req).
Proof.
  induction evs as [|e evs IH]; simpl; [done|].
  destruct e as [| |d'|]; try (intros [= <-]; by left).
  destruct (String.eqb_spec (InterruptID d') (ID req)) as [E|E]; simpl.
  - intros [= <-]. right. split; [apply elem_of_cons; by left|done].
  - intros H. destruct (IH H) as [?|[??]]; [by left|right].
    split; [apply elem_of_cons; by right|done].
Qed.

Lemma wait_returns req evs :
  Exists (fun e => match e with Received d => InterruptID d = ID req | _ => True end) evs ->
  exists d, wait req evs = Some d.
Proof.
  induction 1 as [e evs He|e evs _ [d IH]]; simpl.
  - destruct e; eauto. rewrite He, String.eqb_refl. simpl. eauto.
  - destruct e; eauto. case_match; eauto.
Qed.

Lemma wait_skips_stale req stale evs :
  Forall (fun d => InterruptID d <> ID req) stale ->
  wait req ((Received <$> stale) ++ evs) = wait req evs.
Proof.
  induction 1 as [|d stale Hd _ IH]; simpl; [done|].
  rewrite (proj2 (String.eqb_neq _ _) Hd). done.
Qed.

Lemma GetDecision_inv now evs req d :
  GetDecision now evs req = Some d ->
  d = reject req \/ (Received d ∈ evs /\ InterruptID d = ID req).
Proof.
  unfold GetDecision. destruct (timer now req); [apply wait_inv|]. intros [= <-]. by left.
Qed.

(** An answer taken in time: the request had not expired when the wait began, the
    timer was set for the rest of its life (for two minutes when it has no end),
    the answer is to this request, and before it only answers to other requests
    were taken, neither the timer nor the end of the context or of the channel. *)
Definition in_time (now : Time) (req : InterruptRequest) (evs : list event) (d : Answer) : Prop :=
  (IsZero (ExpiresAt req) = true /\ timer now req = Some (120 * Second)%Z
   \/ (now < ExpiresAt req)%Z /\ timer now req = Some (ExpiresAt req - now)%Z) /\
  InterruptID d = ID req /\
  exists before after, evs = before ++ Received d :: after /\
    Forall (fun e => exists d', e = Received d' /\ InterruptID d' <> ID req) before.

Lemma wait_in_time req evs d :
  wait req evs = Some d ->
  d = reject req \/
  InterruptID d = ID req /\
  exists before after, evs = before ++ Received d :: after /\
    Forall (fun e => exists d', e = Received d' /\ InterruptID d' <> ID req) before.
Proof.
  induction evs as [|e evs IH]; simpl; [done|].
  destruct e as [| |d'|]; try (intros [= <-]; by left).
  destruct (String.eqb_spec (InterruptID d') (ID req)) as [E|E]; simpl.
  - intros [= <-]. right. split; [done|]. by exists [], evs.
  - intros H. destruct (IH H) as [?|(Ei & b & a & -> & Hb)]; [by left|right].
    split; [done|]. exists (Received d' :: b), a. split; [done|]. constructor; eauto.
Qed.

Lemma GetDecision_in_time now evs req d :
  GetDecision now evs req = Some d -> d = reject req \/ in_time now req evs d.
Proof.
  unfold GetDecision, in_time, timer. destruct (IsZero (ExpiresAt req)).
  - intros H. destruct (wait_in_time _ _ _ H); naive_solver.
  - destruct (Z.leb_spec (ExpiresAt req - now) 0) as [Hle|Hgt]; [intros [= <-]; by left|].
    intros H. destruct (wait_in_time _ _ _ H); [by left|right].
    split; [|done]. right. split; [lia|done].
Qed.

(** the answers left over from earlier interrupts of the run never count for
    this one. Whatever stale answers are in the channel, the result is the one
    without them; an answer other than the default rejection is one the user
    sent for this very interrupt; and once the timer fires, the context ends or
    such an answer arrives, the call returns. *)
Theorem GetDecision_own_answer now req stale evs :
  Forall (fun d => InterruptID d <> ID req) stale ->
  GetDecision now ((Received <$> stale) ++ evs) req = GetDecision now evs req /\
  (forall d, GetDecision now evs req = Some d ->
     d = reject req \/ (Received d ∈ evs /\ InterruptID d = ID req)) /\
  (Exists (fun e => match e with Received d => InterruptID d = ID req | _ => True end) evs ->
     exists d, GetDecision now evs req = Some d).
Proof.
  intros Hs. split; [|split; [apply GetDecision_inv|]]; unfold GetDecision; destruct (timer now req).
  - by apply wait_skips_stale.
  - done.
  - apply wait_returns.
  - eauto.
Qed.

Definition sample_request : InterruptRequest :=
  mkInterruptRequest "req-2" "bash" "rm x" "" "" "elevated" true "" ["destructive"] 5%Z 125%Z.

Lemma GetDecision_own_answer_witness :
  GetDecision 10 [Received (mkAnswer "req-1" "reject" "" ""); Received (mkAnswer "req-2" "approve" "" "")]
    sample_request
  = GetDecision 10 [Received (mkAnswer "req-2" "approve" "" "")] sample_request.
Proof.
  apply (GetDecision_own_answer 10 sample_request [mkAnswer "req-1" "reject" "" ""]
           [Received (mkAnswer "req-2" "approve" "" "")]).
  repeat constructor. discriminate.
Defined.

End Channel.
