(* ===== verification/Approvals.v ===== *)
(** * ai-runtime/agent/approval.go: approvals that outlive a connection

    Each critical section of [ApprovalManager] is a function on its table and on
    the entries the waiting goroutines hold. The step relation runs any number
    of [Wait]s, with their timers and run contexts, against any decisions that
    [Resolve] delivers; the log records what was registered, resolved and
    returned. *)

From S2P Require Import Prelude HitlChannel.
#[local] Open Scope string_scope.
#[local] Open Scope list_scope.

Record PendingApproval := mkPending {
  RequestID : string;
  PSessionID : string;
  PRunID : string;
  Request : InterruptRequest;
}.

Inductive approval_error : Type := ErrApprovalUnknown | ErrApprovalResolved.

Definition approvalResolvedRetention : Z := (30 * Second)%Z.

(** [decideCh] is the buffered decision, if any. *)
Record approvalEntry := mkEntry {
  pa : PendingApproval;
  resolved : bool;
  decideCh : option Answer;
}.

(** The table maps a request id to its entry; an entry stays with its [Wait]
    after it left the table. *)
Record ApprovalManager := mkManager {
  pending : gmap string nat;
  entries : gmap nat approvalEntry;
}.

Definition NewApprovalManager : ApprovalManager := mkManager ∅ ∅.

Definition set_entry (p : nat) (e : approvalEntry) (m : ApprovalManager) : ApprovalManager :=
  mkManager (pending m) (<[p := e]> (entries m)).

Definition expires (e : approvalEntry) : Time := ExpiresAt (Request (pa e)).

(** ** Sweeping *)

(** An entry the sweep removes. *)
Definition swept (now : Time) (e : approvalEntry) : bool :=
  if negb (resolved e) || IsZero (expires e) then false
  else if After (expires e + approvalResolvedRetention)%Z now then false
  else true.

Definition kept (now : Time) (m : ApprovalManager) (p : nat) : bool :=
  match entries m !! p with Some e => negb (swept now e) | None => true end.

Definition sweepResolvedExpiredLocked (now : Time) (m : ApprovalManager) : ApprovalManager :=
  mkManager (filter (fun kv => kept now m kv.2 = true) (pending m)) (entries m).

(** ** Wait *)

Definition reject (req : InterruptRequest) : Answer := mkAnswer (ID req) DecisionReject "" "".

(** The first critical section, with [p] for the new entry; [false]: the request is already there. *)
Definition register (now : Time) (sid rid : string) (req : InterruptRequest) (p : nat) (m : ApprovalManager)
  : ApprovalManager * bool :=
  let m := sweepResolvedExpiredLocked now m in
  match pending m !! ID req with
  | Some _ => (m, false)
  | None =>
      (mkManager (<[ID req := p]> (pending m))
         (<[p := mkEntry (mkPending (ID req) sid rid req) false None]> (entries m)), true)
  end.

(** When the timer fires; [None]: the request has already expired. *)
Definition deadline (now : Time) (req : InterruptRequest) : option Time :=
  if IsZero (ExpiresAt req) then Some (now + DefaultTimeout)%Z
  else if (ExpiresAt req - now <=? 0)%Z then None
  else Some (now + (ExpiresAt req - now))%Z.

Definition markResolved (p : nat) (m : ApprovalManager) : ApprovalManager :=
  mkManager (pending m) (alter (fun e => mkEntry (pa e) true (decideCh e)) p (entries m)).

(** ** Resolve, Owner, Pending *)

Definition addressed (id : string) (d : Answer) : Answer := mkAnswer id (AType d) (ACommand d) (AMessage d).

Definition Resolve (now : Time) (id : string) (d : Answer) (m : ApprovalManager)
  : ApprovalManager * option approval_error :=
  let m := sweepResolvedExpiredLocked now m in
  match pending m !! id ≫= fun p => e ← entries m !! p; Some (p, e) with
  | None => (m, Some ErrApprovalUnknown)
  | Some (p, e) =>
      if resolved e then (m, Some ErrApprovalResolved)
      else (set_entry p (mkEntry (pa e) true (Some (addressed id d))) m, None)
  end.

Definition Owner (id : string) (m : ApprovalManager) : option string :=
  p ← pending m !! id; e ← entries m !! p; Some (PSessionID (pa e)).

(** An entry [Pending] removes. *)
Definition expired (now : Time) (m : ApprovalManager) (p : nat) : bool :=
  match entries m !! p with
  | Some e => negb (IsZero (expires e)) && negb (After (expires e) now)
  | None => false
  end.

Definition approval_le (a b : PendingApproval) : Prop := string_le (RequestID a) (RequestID b).
#[export] Instance approval_le_dec a b : Decision (approval_le a b).
Proof. unfold approval_le. apply _. Defined.

Definition Pending (now : Time) (sid : string) (m : ApprovalManager) : ApprovalManager * list PendingApproval :=
  let m := mkManager (filter (fun kv => expired now m kv.2 = false) (pending m)) (entries m) in
  (m, merge_sort approval_le
        (omap (fun kv => e ← entries m !! kv.2;
                         if resolved e || negb (String.eqb (PSessionID (pa e)) sid) then None else Some (pa e))
           (map_to_list (pending m)))).

(** ** Waiting goroutines *)

Inductive pc : Type :=
  | AtWait (sid rid : string) (req : InterruptRequest)
  | AtTimer (req : InterruptRequest) (p : nat)
  | Waiting (req : InterruptRequest) (p : nat) (due : Time)
  | Rejecting (req : InterruptRequest) (p : nat)
  | Returned (req : InterruptRequest) (p : option nat) (d : Answer).

Inductive event : Type :=
  | EvRegistered (tid : nat) (req : InterruptRequest) (p : nat)
  | EvResolved (p : nat) (d : Answer)
  | EvReturned (tid : nat) (req : InterruptRequest) (p : option nat) (d : Answer).

Record state := mkState {
  mgr : ApprovalManager;
  threads : gmap nat pc;
  cancelled : gset nat;
  clock : Time;
  log : list event;
}.

Definition initial (s : state) : Prop :=
  mgr s = NewApprovalManager /\ threads s = ∅ /\ log s = [].

Definition goto (s : state) (m : ApprovalManager) (tid : nat) (p : pc) (evs : list event) : state :=
  mkState m (<[tid := p]> (threads s)) (cancelled s) (clock s) (log s ++ evs).

Inductive step : state -> state -> Prop :=
  | step_tick s t :
      (0 <= t)%Z -> step s (mkState (mgr s) (threads s) (cancelled s) (clock s + t)%Z (log s))
  | step_cancel s tid :
      step s (mkState (mgr s) (threads s) ({[tid]} ∪ cancelled s) (clock s) (log s))
  | step_call s tid sid rid req :
      threads s !! tid = None -> step s (goto s (mgr s) tid (AtWait sid rid req) [])
  | step_register s tid sid rid req p m' :
      threads s !! tid = Some (AtWait sid rid req) -> entries (mgr s) !! p = None ->
      register (clock s) sid rid req p (mgr s) = (m', true) ->
      step s (goto s m' tid (AtTimer req p) [EvRegistered tid req p])
  | step_duplicate s tid sid rid req p m' :
      threads s !! tid = Some (AtWait sid rid req) ->
      register (clock s) sid rid req p (mgr s) = (m', false) ->
      step s (goto s m' tid (Returned req None (reject req)) [EvReturned tid req None (reject req)])
  | step_timer s tid req p due :
      threads s !! tid = Some (AtTimer req p) -> deadline (clock s) req = Some due ->
      step s (goto s (mgr s) tid (Waiting req p due) [])
  | step_expired s tid req p :
      threads s !! tid = Some (AtTimer req p) -> deadline (clock s) req = None ->
      step s (goto s (mgr s) tid (Rejecting req p) [])
  (** The [select]: any ready branch may be taken. *)
  | step_ctx s tid req p due :
      threads s !! tid = Some (Waiting req p due) -> tid ∈ cancelled s ->
      step s (goto s (mgr s) tid (Rejecting req p) [])
  | step_timeout s tid req p due :
      threads s !! tid = Some (Waiting req p due) -> (due <= clock s)%Z ->
      step s (goto s (mgr s) tid (Rejecting req p) [])
  | step_decide s tid req p due e d :
      threads s !! tid = Some (Waiting req p due) ->
      entries (mgr s) !! p = Some e -> decideCh e = Some d ->
      step s (goto s (set_entry p (mkEntry (pa e) (resolved e) None) (mgr s)) tid
                (Returned req (Some p) d) [EvReturned tid req (Some p) d])
  (** [markResolved] and the return. *)
  | step_reject s tid req p :
      threads s !! tid = Some (Rejecting req p) ->
      step s (goto s (markResolved p (mgr s)) tid (Returned req (Some p) (reject req))
                [EvReturned tid req (Some p) (reject req)])
  | step_resolve s id d m' r :
      Resolve (clock s) id d (mgr s) = (m', r) ->
      step s (mkState m' (threads s) (cancelled s) (clock s)
                (log s ++ match r, pending (mgr s) !! id with
                          | None, Some p => [EvResolved p (addressed id d)]
                          | _, _ => []
                          end))
  | step_pending s sid m' out :
      Pending (clock s) sid (mgr s) = (m', out) ->
      step s (mkState m' (threads s) (cancelled s) (clock s) (log s)).

(** ** Lemmas *)

Definition resolutions (p : nat) (l : list event) : list Answer :=
  omap (fun e => match e with EvResolved q d => if decide (q = p) then Some d else None | _ => None end) l.
#[global] Arguments resolutions : simpl never.

Lemma resolutions_app p l l' : resolutions p (l ++ l') = resolutions p l ++ resolutions p l'.
Proof. apply omap_app. Qed.

(** The entry a goroutine waits on. *)
Definition at_entry (c : pc) : option (InterruptRequest * nat) :=
  match c with
  | AtTimer req p | Waiting req p _ | Rejecting req p => Some (req, p)
  | AtWait _ _ _ | Returned _ _ _ => None
  end.

Definition waiting (s : state) (req : InterruptRequest) (p : nat) : Prop :=
  exists tid c, threads s !! tid = Some c /\ at_entry c = Some (req, p).

Record entry_ok (s : state) (p : nat) (e : approvalEntry) : Prop := {
  e_id : RequestID (pa e) = ID (Request (pa e));
  e_open : resolved e = false ->
    decideCh e = None /\
    resolutions p (log s) = [] /\ waiting s (Request (pa e)) p;
  e_once : (length (resolutions p (log s)) <= 1)%nat;
  e_decided : forall d, decideCh e = Some d ->
    resolved e = true /\ resolutions p (log s) = [d] /\ InterruptID d = RequestID (pa e);
}.

Definition pc_ok (s : state) (tid : nat) (c : pc) : Prop :=
  forall req p, at_entry c = Some (req, p) ->
    exists e, entries (mgr s) !! p = Some e /\ Request (pa e) = req /\ EvRegistered tid req p ∈ log s.

Definition returned_ok (s : state) (tid : nat) (req : InterruptRequest) (po : option nat) (d : Answer) : Prop :=
  (d = reject req \/
   exists p, po = Some p /\ resolutions p (log s) = [d] /\ InterruptID d = ID req /\ EvRegistered tid req p ∈ log s) /\
  forall p, po = Some p -> exists e, entries (mgr s) !! p = Some e /\ resolved e = true /\ Request (pa e) = req.

Record inv (s : state) : Prop := {
  i_pending : forall id p, pending (mgr s) !! id = Some p ->
    exists e, entries (mgr s) !! p = Some e /\ RequestID (pa e) = id;
  i_entry : forall p e, entries (mgr s) !! p = Some e -> entry_ok s p e;
  i_fresh : forall p, entries (mgr s) !! p = None -> resolutions p (log s) = [];
  i_pc : forall tid c, threads s !! tid = Some c -> pc_ok s tid c;
  i_returned : forall tid req po d, EvReturned tid req po d ∈ log s -> returned_ok s tid req po d;
}.

(** No decision is in these events. *)
Definition undecided (evs : list event) : Prop := forall p, resolutions p evs = [].

(** A step that leaves the entries alone and keeps who waits. *)
Lemma approvals_inv_quiet s s' evs :
  inv s -> log s' = log s ++ evs -> undecided evs ->
  entries (mgr s') = entries (mgr s) ->
  (forall id p, pending (mgr s') !! id = Some p -> pending (mgr s) !! id = Some p) ->
  (forall req p, waiting s req p -> waiting s' req p) ->
  (forall tid c, threads s' !! tid = Some c -> threads s !! tid = Some c \/
     (at_entry c = None \/ exists c0, threads s !! tid = Some c0 /\ at_entry c0 = at_entry c)) ->
  (forall tid req po d, EvReturned tid req po d ∈ evs -> returned_ok s' tid req po d) ->
  inv s'.
Proof.
  intros [Hp He Hf Hpc Hr] El Hu Ee Hpend Hw Ht Hev.
  assert (Hres : forall p, resolutions p (log s') = resolutions p (log s)).
  { intros p. by rewrite El, resolutions_app, Hu, app_nil_r. }
  assert (Hreg : forall e, e ∈ log s -> e ∈ log s') by (intros e Hin; rewrite El; apply elem_of_app; by left).
  split; unfold pc_ok, returned_ok in *; rewrite ?Ee.
  - intros id p Hid. by apply Hp, Hpend.
  - intros p e Hl. destruct (He p e Hl) as [H1 H2 H3 H4]. split; rewrite ?Hres; naive_solver.
  - intros p. rewrite Hres. apply Hf.
  - intros tid c Hc req p Hat. destruct (Ht tid c Hc) as [H|[H|(c0 & H & E)]]; [|congruence|].
    + destruct (Hpc tid c H req p Hat) as (e & ? & ? & ?). eauto.
    + rewrite <- E in Hat. destruct (Hpc tid c0 H req p Hat) as (e & ? & ? & ?). eauto.
  - intros tid req po d Hin. rewrite El in Hin. apply elem_of_app in Hin as [Hin|Hin].
    + destruct (Hr _ _ _ _ Hin) as [Ha Hb]. split; [|done].
      destruct Ha as [?|(p & ? & ? & ? & ?)]; [by left|right]. exists p. rewrite Hres. eauto.
    + specialize (Hev _ _ _ _ Hin). by rewrite Ee in Hev.
Qed.

Lemma waiting_goto s m tid c evs req p :
  waiting s req p -> (forall c0, threads s !! tid = Some c0 -> at_entry c0 = at_entry c) -> 
  waiting (goto s m tid c evs) req p.
Proof.
  intros (t & c0 & Ht & Hat) H. unfold waiting. cbn. destruct (decide (t = tid)) as [-> |Hne].
  - exists tid, c. rewrite lookup_insert_eq. split; [done|]. by rewrite <- (H c0 Ht).
  - exists t, c0. by rewrite lookup_insert_ne.
Qed.

Lemma sweep_pending now m id p :
  pending (sweepResolvedExpiredLocked now m) !! id = Some p -> pending m !! id = Some p.
Proof. cbn. intros H. by apply map_lookup_filter_Some in H as [? _]. Qed.

(** A goroutine moves on without touching the entries. *)
Lemma approvals_inv_goto s tid c0 c m evs :
  inv s -> threads s !! tid = Some c0 \/ threads s !! tid = None /\ at_entry c = None ->
  (threads s !! tid = Some c0 -> at_entry c0 = at_entry c) ->
  entries m = entries (mgr s) -> (forall id p, pending m !! id = Some p -> pending (mgr s) !! id = Some p) ->
  undecided evs ->
  (forall t req po d, EvReturned t req po d ∈ evs -> d = reject req /\ po = None) ->
  inv (goto s m tid c evs).
Proof.
  intros Hi Ht Hat Ee Hp Hu Hev. eapply (approvals_inv_quiet s _ evs); [done..| | |]; cbn.
  - intros req p Hw. apply waiting_goto; [done|]. intros c1 Hc1. destruct Ht as [Ht|[Ht _]]; [|congruence].
    rewrite Ht in Hc1. injection Hc1 as <-. by apply Hat.
  - intros t c1. destruct (decide (t = tid)) as [-> |Hne].
    + rewrite lookup_insert_eq. intros [= <-]. right. destruct Ht as [Ht|[_ Hn]]; [|by left].
      right. exists c0. split; [done|]. by apply Hat.
    + rewrite lookup_insert_ne by done. by left.
  - intros t req po d Hin. destruct (Hev _ _ _ _ Hin) as [-> ->]. split; [by left|done].
Qed.

Lemma inv_register s tid sid rid req p m' :
  inv s -> threads s !! tid = Some (AtWait sid rid req) -> entries (mgr s) !! p = None ->
  register (clock s) sid rid req p (mgr s) = (m', true) ->
  inv (goto s m' tid (AtTimer req p) [EvRegistered tid req p]).
Proof.
  intros [Hp He Hf Hpc Hr] Ht Hfresh. unfold register.
  destruct (pending (sweepResolvedExpiredLocked (clock s) (mgr s)) !! ID req) eqn:Hn; [done|].
  intros [= <-]. set (s' := goto _ _ _ _ _).
  assert (Hres : forall q, resolutions q (log s') = resolutions q (log s)).
  { intros q. cbn. rewrite resolutions_app. apply app_nil_r. }
  assert (Hreg : forall e, e ∈ log s -> e ∈ log s') by (intros e Hin; cbn; apply elem_of_app; by left).
  assert (Hold : forall q e, entries (mgr s) !! q = Some e -> entries (mgr s') !! q = Some e).
  { intros q e Hq. cbn. rewrite lookup_insert_ne; [done|congruence]. }
  assert (Hw : forall r q, waiting s r q -> waiting s' r q).
  { intros r q (t & c & Hc & Hat). exists t, c. cbn. rewrite lookup_insert_ne; [done|].
    intros ->. rewrite Ht in Hc. by injection Hc as <-. }
  split.
  - intros id q. cbn. rewrite lookup_insert_Some. intros [[<- <-]|[_ Hq]].
    + rewrite lookup_insert_eq. by eexists.
    + apply sweep_pending in Hq. destruct (Hp _ _ Hq) as (e & Hl & ?). exists e. split; [exact (Hold q e Hl)|done].
  - intros q e. cbn. rewrite lookup_insert_Some. intros [[<- <-]|[_ Hq]].
    + split; cbn; change (log s ++ _) with (log s'); rewrite ?Hres, ?(Hf p Hfresh); cbn; try done; [|lia].
      intros _. split_and!; [done..|]. exists tid, (AtTimer req p). cbn. by rewrite lookup_insert_eq.
    + destruct (He q e Hq) as [H1 H2 H3 H4]. split; rewrite ?Hres; naive_solver.
  - intros q. cbn. rewrite lookup_insert_None. intros [Hq _]. change (log s ++ _) with (log s').
    rewrite Hres. by apply Hf.
  - intros t c. cbn. rewrite lookup_insert_Some. intros [[<- <-]|[_ Hc]].
    + intros r q [= <- <-]. eexists. cbn. rewrite lookup_insert_eq. split_and!; [done..|].
      apply elem_of_app. right. by left.
    + intros r q Hat. destruct (Hpc t c Hc r q Hat) as (e & Hl & ? & ?). exists e. split_and!; [by apply Hold|done|].
      by apply Hreg.
  - intros t r po d Hin. cbn in Hin. apply elem_of_app in Hin as [Hin|Hin]; [|set_solver].
    destruct (Hr _ _ _ _ Hin) as [Ha Hb]. split.
    + destruct Ha as [?|(q & ? & ? & ? & ?)]; [by left|right]. exists q. rewrite Hres. eauto.
    + intros q Hq. destruct (Hb q Hq) as (e & Hl & ?). exists e. split; [by apply Hold|done].
Qed.

(** Entry [p] becomes [e'], resolved; the goroutine [tid], if any, returns. *)
Lemma inv_settle s s' p e e' evs :
  inv s -> entries (mgr s) !! p = Some e -> resolved e' = true -> pa e' = pa e ->
  entries (mgr s') = <[p := e']> (entries (mgr s)) ->
  (forall id q, pending (mgr s') !! id = Some q -> pending (mgr s) !! id = Some q) ->
  log s' = log s ++ evs ->
  (forall q, q <> p -> resolutions q evs = []) ->
  (length (resolutions p (log s')) <= 1)%nat ->
  (resolutions p (log s) <> [] -> resolutions p evs = []) ->
  (forall d, decideCh e' = Some d -> resolutions p (log s') = [d] /\ InterruptID d = RequestID (pa e)) ->
  (forall r q, q <> p -> waiting s r q -> waiting s' r q) ->
  (forall t c, threads s' !! t = Some c -> threads s !! t = Some c \/ at_entry c = None) ->
  (forall t r po d, EvReturned t r po d ∈ evs -> returned_ok s' t r po d) ->
  inv s'.
Proof.
  intros [Hp He Hf Hpc Hr] Hl Hre Hpa Ee Hpend El Hother Honce Hnone Hdec Hw Ht Hev.
  assert (Hreg : forall e, e ∈ log s -> e ∈ log s') by (intros x Hin; rewrite El; apply elem_of_app; by left).
  assert (Hres : forall q, q <> p -> resolutions q (log s') = resolutions q (log s)).
  { intros q Hq. by rewrite El, resolutions_app, Hother, app_nil_r. }
  assert (Hsame : forall d, resolutions p (log s) = [d] -> resolutions p (log s') = [d]).
  { intros d Hd. by rewrite El, resolutions_app, Hd, Hnone by (by rewrite Hd). }
  assert (Hent : forall q x, entries (mgr s) !! q = Some x ->
    exists y, entries (mgr s') !! q = Some y /\ pa y = pa x /\ (resolved x = true -> resolved y = true)).
  { intros q x Hx. rewrite Ee. destruct (decide (q = p)) as [-> |Hne].
    - rewrite lookup_insert_eq. exists e'. rewrite Hl in Hx. injection Hx as <-. done.
    - rewrite lookup_insert_ne by done. by exists x. }
  split.
  - intros id q Hq. destruct (Hp _ _ (Hpend _ _ Hq)) as (x & Hx & Hid). destruct (Hent _ _ Hx) as (y & Hy & E & _).
    exists y. by rewrite E.
  - intros q x. rewrite Ee, lookup_insert_Some. intros [[<- <-]|[Hne Hq]].
    + destruct (He p e Hl) as [H1 _ _ _]. split; rewrite ?Hpa; [done|congruence|done|].
      intros d Hd. destruct (Hdec d Hd). done.
    + destruct (He q x Hq) as [H1 H2 H3 H4]. split; rewrite ?Hres by done; naive_solver.
  - intros q. rewrite Ee, lookup_insert_None. intros [Hq Hne]. rewrite Hres by done. by apply Hf.
  - intros t c Hc r q Hat. destruct (Ht t c Hc) as [Hc0|]; [|congruence].
    destruct (Hpc t c Hc0 r q Hat) as (x & Hx & Hrq & Hin). destruct (Hent _ _ Hx) as (y & Hy & E & _).
    exists y. rewrite E. split_and!; [done|done|by apply Hreg].
  - intros t r po d Hin. rewrite El in Hin. apply elem_of_app in Hin as [Hin|Hin]; [|by apply Hev].
    destruct (Hr _ _ _ _ Hin) as [Ha Hb]. split.
    + destruct Ha as [?|(q & ? & Hd & ? & ?)]; [by left|right]. exists q. split_and!; [done| |done|by apply Hreg].
      destruct (decide (q = p)) as [-> |]; [by apply Hsame|by rewrite Hres].
    + intros q Hq. destruct (Hb q Hq) as (x & Hx & Hxr & Hxq). destruct (Hent _ _ Hx) as (y & Hy & E & Hy').
      exists y. rewrite E. auto.
Qed.

Lemma inv_approvals_initial s : initial s -> inv s.
Proof.
  destruct s as [m th ca cl l]. intros (Em & Et & El). cbn in *. subst. split; cbn; try done. set_solver.
Qed.

(** The rejection at the end of a wait. *)
Lemma inv_reject s tid req p :
  inv s -> threads s !! tid = Some (Rejecting req p) ->
  inv (goto s (markResolved p (mgr s)) tid (Returned req (Some p) (reject req)) [EvReturned tid req (Some p) (reject req)]).
Proof.
  intros Hi Ht. destruct (i_pc _ Hi _ _ Ht req p eq_refl) as (e & Hl & Hreq & _).
  destruct (i_entry _ Hi _ _ Hl) as [_ _ Honce Hdec].
  assert (Ee : alter (fun e => mkEntry (pa e) true (decideCh e)) p (entries (mgr s)) =
               <[p := mkEntry (pa e) true (decideCh e)]> (entries (mgr s))).
  { apply map_eq. intros q. destruct (decide (q = p)) as [-> |].
    - by rewrite lookup_alter_eq, Hl, lookup_insert_eq.
    - by rewrite lookup_alter_ne, lookup_insert_ne. }
  assert (Hres : forall q l, resolutions q (l ++ [EvReturned tid req (Some p) (reject req)]) = resolutions q l).
  { intros q l. rewrite resolutions_app. apply app_nil_r. }
  eapply (inv_settle s _ p e (mkEntry (pa e) true (decideCh e)) [EvReturned tid req (Some p) (reject req)]); cbn; try done.
  - by rewrite Hres.
  - intros d Hd. rewrite Hres. by destruct (Hdec d Hd) as (_ & ? & ?).
  - intros r q Hq Hw. destruct Hw as (t & c & Hc & Hat). exists t, c. cbn. rewrite lookup_insert_ne; [done|].
    intros ->. rewrite Ht in Hc. injection Hc as <-. cbn in Hat. congruence.
  - intros t c. rewrite lookup_insert_Some. intros [[<- <-]|[_ Hc]]; [by right|by left].
  - intros t r po d Hin. apply list_elem_of_singleton in Hin. injection Hin as -> -> -> ->.
    split; [by left|]. intros q [= <-]. exists (mkEntry (pa e) true (decideCh e)). cbn. rewrite Ee, lookup_insert_eq. done.
Qed.

Lemma inv_decide s tid req p due e d :
  inv s -> threads s !! tid = Some (Waiting req p due) ->
  entries (mgr s) !! p = Some e -> decideCh e = Some d ->
  inv (goto s (set_entry p (mkEntry (pa e) (resolved e) None) (mgr s)) tid
         (Returned req (Some p) d) [EvReturned tid req (Some p) d]).
Proof.
  intros Hi Ht Hl Hd. destruct (i_pc _ Hi _ _ Ht req p eq_refl) as (e0 & Hl0 & Hreq & Hin0).
  rewrite Hl in Hl0. injection Hl0 as <-. destruct (i_entry _ Hi _ _ Hl) as [Hid _ Honce Hdec].
  destruct (Hdec d Hd) as (Hre & Hrd & Hint).
  assert (Hres : forall q l, resolutions q (l ++ [EvReturned tid req (Some p) d]) = resolutions q l).
  { intros q l. rewrite resolutions_app. apply app_nil_r. }
  eapply (inv_settle s _ p e (mkEntry (pa e) (resolved e) None) [EvReturned tid req (Some p) d]); cbn; try done.
  - by rewrite Hres.
  - intros r q Hq (t & c & Hc & Hat). exists t, c. cbn. rewrite lookup_insert_ne; [done|].
    intros ->. rewrite Ht in Hc. injection Hc as <-. cbn in Hat. congruence.
  - intros t c. rewrite lookup_insert_Some. intros [[<- <-]|[_ Hc]]; [by right|by left].
  - intros t r po x Hin. apply list_elem_of_singleton in Hin. injection Hin as -> -> -> ->. split.
    + right. exists p. cbn. rewrite Hres, Hrd, Hint, Hid, Hreq. split_and!; [done..|].
      apply elem_of_app. by left.
    + intros q [= <-]. exists (mkEntry (pa e) (resolved e) None). cbn. by rewrite lookup_insert_eq.
Qed.

(** What [Resolve] does to the table. *)
Lemma Resolve_cases now id d m m' r :
  Resolve now id d m = (m', r) ->
  (exists er, r = Some er /\ m' = sweepResolvedExpiredLocked now m) \/
  (r = None /\ exists p e, pending m !! id = Some p /\ entries m !! p = Some e /\ resolved e = false /\
     m' = set_entry p (mkEntry (pa e) true (Some (addressed id d))) (sweepResolvedExpiredLocked now m)).
Proof.
  unfold Resolve. destruct (pending (sweepResolvedExpiredLocked now m) !! id) as [p|] eqn:Hp; cbn.
  - destruct (entries m !! p) as [e|] eqn:He; cbn; [|intros [= <- <-]; left; eauto].
    destruct (resolved e) eqn:Hr; intros [= <- <-]; [left; eauto|right].
    apply sweep_pending in Hp. split; [done|]. exists p, e. done.
  - intros [= <- <-]. left. eauto.
Qed.

Lemma inv_resolve s id d m' r :
  inv s -> Resolve (clock s) id d (mgr s) = (m', r) ->
  inv (mkState m' (threads s) (cancelled s) (clock s)
         (log s ++ match r, pending (mgr s) !! id with
                   | None, Some p => [EvResolved p (addressed id d)]
                   | _, _ => [] end)).
Proof.
  intros Hi Hr. destruct (Resolve_cases _ _ _ _ _ _ Hr) as [(er & -> & ->)|(-> & p & e & Hp & Hl & Hre & ->)].
  - eapply (approvals_inv_quiet s _ []); cbn; try done; [|by left|set_solver].
    intros i q. apply sweep_pending.
  - rewrite Hp. destruct (i_pending _ Hi _ _ Hp) as (e0 & Hl0 & Hid). rewrite Hl in Hl0. injection Hl0 as <-.
    destruct (i_entry _ Hi _ _ Hl) as [_ Hopen _ _]. destruct (Hopen Hre) as (_ & Hnil & _).
    assert (Hone : resolutions p [EvResolved p (addressed id d)] = [addressed id d]).
    { unfold resolutions. cbn. by rewrite decide_True. }
    eapply (inv_settle s _ p e (mkEntry (pa e) true (Some (addressed id d))) [EvResolved p (addressed id d)]); cbn; try done.
    + intros i q. apply sweep_pending.
    + intros q Hq. unfold resolutions. cbn. by rewrite decide_False.
    + rewrite resolutions_app, Hnil, Hone. cbn. lia.
    + intros x [= <-]. rewrite resolutions_app, Hnil, Hone. done.
    + by left.
    + intros t r po x Hin. set_solver.
Qed.

Lemma approvals_inv_step s s' : inv s -> step s s' -> inv s'.
Proof.
  intros Hi Hst. destruct Hst.
  - eapply (approvals_inv_quiet s _ []); cbn; try done; [by rewrite app_nil_r|by left|set_solver].
  - eapply (approvals_inv_quiet s _ []); cbn; try done; [by rewrite app_nil_r|by left|set_solver].
  - eapply (approvals_inv_goto s tid (AtWait sid rid req)); try done; [by right|set_solver].
  - by eapply inv_register.
  - eapply (approvals_inv_goto s tid (AtWait sid rid req)); try done; [by left|..].
    + unfold register in H0. by destruct (pending (sweepResolvedExpiredLocked _ _) !! _); injection H0 as <-.
    + intros id q. unfold register in H0. destruct (pending (sweepResolvedExpiredLocked _ _) !! _); [|done].
      injection H0 as <-. apply sweep_pending.
    + intros t r po d Hin. apply list_elem_of_singleton in Hin. by injection Hin as -> -> -> ->.
  - eapply (approvals_inv_goto s tid (AtTimer req p)); try done; [by left|set_solver].
  - eapply (approvals_inv_goto s tid (AtTimer req p)); try done; [by left|set_solver].
  - eapply (approvals_inv_goto s tid (Waiting req p due)); try done; [by left|set_solver].
  - eapply (approvals_inv_goto s tid (Waiting req p due)); try done; [by left|set_solver].
  - by eapply inv_decide.
  - by apply inv_reject.
  - by eapply inv_resolve.
  - injection H as <- _. eapply (approvals_inv_quiet s _ []); cbn; try done; [by rewrite app_nil_r| |by left|set_solver].
    intros id q Hq. by apply map_lookup_filter_Some in Hq as [? _].
Qed.

Lemma approvals_reachable_inv s : reachable initial step s -> inv s.
Proof. apply reachable_invariant; [apply inv_approvals_initial|apply approvals_inv_step]. Qed.

Definition returns (tid : nat) (s : state) : Prop :=
  exists s' req po d, rtc step s s' /\ threads s' !! tid = Some (Returned req po d).

Lemma returns_step tid s s' : step s s' -> returns tid s' -> returns tid s.
Proof. intros Hs (s2 & req & po & d & Hr & Ht). exists s2, req, po, d. split; [by eapply rtc_l|done]. Qed.

Lemma rejecting_returns s tid req p : threads s !! tid = Some (Rejecting req p) -> returns tid s.
Proof.
  intros Ht. eapply returns_step; [by eapply step_reject|]. eexists _, _, _, _. split; [apply rtc_refl|].
  cbn. by rewrite lookup_insert_eq.
Qed.

Lemma waiting_returns s tid req p due : threads s !! tid = Some (Waiting req p due) -> returns tid s.
Proof.
  intros Ht. eapply returns_step; [apply (step_tick s (Z.max 0 (due - clock s))); lia|].
  eapply returns_step; [eapply step_timeout; [exact Ht|cbn; lia]|].
  apply (rejecting_returns _ _ req p). cbn. by rewrite lookup_insert_eq.
Qed.

Lemma timer_returns s tid req p : threads s !! tid = Some (AtTimer req p) -> returns tid s.
Proof.
  intros Ht. destruct (deadline (clock s) req) as [due|] eqn:Hd.
  - eapply returns_step; [by eapply step_timer|]. apply (waiting_returns _ _ req p due). cbn. by rewrite lookup_insert_eq.
  - eapply returns_step; [by eapply step_expired|]. apply (rejecting_returns _ _ req p). cbn. by rewrite lookup_insert_eq.
Qed.

(** ** What the manager promises *)

(** No implicit approval. A [Wait] returns the rejection of its own request
    or a decision that [Resolve] accepted for the very entry this [Wait]
    registered, addressed to its request; an entry accepts at most one
    decision, whatever is resolved, cancelled or timed out when. *)
Theorem decision_is_the_users s tid req po d :
  reachable initial step s -> EvReturned tid req po d ∈ log s ->
  d = reject req \/
  exists p, po = Some p /\ EvRegistered tid req p ∈ log s /\ InterruptID d = ID req /\
    resolutions p (log s) = [d].
Proof.
  intros Hr Hin. destruct (i_returned _ (approvals_reachable_inv s Hr) _ _ _ _ Hin) as [[?|(p & ? & ? & ? & ?)] _]; eauto 10.
Qed.

(** The first outcome is final. Once a request was decided or its [Wait]
    returned, no later decision for it is accepted as long as it is in the
    table: [Resolve] says it is resolved, or, when the retention has passed,
    unknown. It never blocks on the buffered channel. *)
Theorem first_outcome_is_final s id p d :
  reachable initial step s -> pending (mgr s) !! id = Some p ->
  (resolutions p (log s) <> [] \/ exists tid req x, EvReturned tid req (Some p) x ∈ log s) ->
  exists e, entries (mgr s) !! p = Some e /\
    (Resolve (clock s) id d (mgr s)).2 =
      Some (if swept (clock s) e then ErrApprovalUnknown else ErrApprovalResolved).
Proof.
  intros Hr Hp Hout. pose proof (approvals_reachable_inv s Hr) as Hi.
  destruct (i_pending _ Hi _ _ Hp) as (e & Hl & _). exists e. split; [done|].
  assert (Hre : resolved e = true).
  { destruct Hout as [Hn|(tid & req & x & Hin)].
    - destruct (resolved e) eqn:E; [done|]. by destruct (e_open _ _ _ (i_entry _ Hi _ _ Hl) E) as (_ & ? & _).
    - destruct (i_returned _ Hi _ _ _ _ Hin) as [_ H]. destruct (H p eq_refl) as (e0 & Hl0 & ? & _).
      rewrite Hl in Hl0. by injection Hl0 as <-. }
  unfold Resolve. cbn. destruct (swept (clock s) e) eqn:Hs.
  - rewrite (map_lookup_filter_None_2); [done|]. right. intros q Hq. cbn. rewrite Hp in Hq. injection Hq as <-.
    unfold kept. by rewrite Hl, Hs.
  - rewrite (map_lookup_filter_Some_2 _ _ _ _ Hp); cbn; [|unfold kept; by rewrite Hl, Hs].
    rewrite Hl. cbn. by rewrite Hre.
Qed.

(** What is in the table is alive or recent: right after an entry of [Wait]
    or [Resolve] swept the table, every request in it is still waited for, or
    was decided and has no expiry or expired less than thirty seconds ago. *)
Theorem table_live_or_recent s id p :
  reachable initial step s -> pending (sweepResolvedExpiredLocked (clock s) (mgr s)) !! id = Some p ->
  exists e, entries (mgr s) !! p = Some e /\
    (waiting s (Request (pa e)) p \/
     resolved e = true /\ (IsZero (expires e) = true \/ (clock s < expires e + approvalResolvedRetention)%Z)).
Proof.
  intros Hr Hp. pose proof (approvals_reachable_inv s Hr) as Hi. cbn in Hp.
  apply map_lookup_filter_Some in Hp as [Hp Hk]. cbn in Hk.
  destruct (i_pending _ Hi _ _ Hp) as (e & Hl & _). exists e. split; [done|].
  unfold kept in Hk. rewrite Hl in Hk. unfold swept in Hk.
  destruct (resolved e) eqn:Hre; [|by left; destruct (e_open _ _ _ (i_entry _ Hi _ _ Hl) Hre) as (_ & _ & ?)].
  right. split; [done|]. cbn in Hk. destruct (IsZero (expires e)); [by left|right].
  unfold After in Hk. destruct (Z.ltb_spec (clock s) (expires e + approvalResolvedRetention)); [done|]. done.
Qed.

(** No wait hangs: a [Wait] that was called can come to return with
    nothing but the passage of time. *)
Theorem wait_always_returns s tid c :
  threads s !! tid = Some c -> returns tid s.
Proof.
  destruct c as [sid rid req|req p|req p due|req p|req po d]; intros Ht;
    [|by eapply timer_returns|by eapply waiting_returns|by eapply rejecting_returns|].
  - set (p := fresh (dom (entries (mgr s)))).
    assert (Hfresh : entries (mgr s) !! p = None) by (apply not_elem_of_dom, is_fresh).
    destruct (register (clock s) sid rid req p (mgr s)) as [m' [|]] eqn:E.
    + eapply returns_step; [by eapply step_register|]. apply (timer_returns _ _ req p). cbn. by rewrite lookup_insert_eq.
    + eapply returns_step; [by eapply step_duplicate|]. eexists _, _, _, _. split; [apply rtc_refl|].
      cbn. by rewrite lookup_insert_eq.
  - exists s, req, po, d. split; [apply rtc_refl|done].
Qed.

(** ** Concrete runs *)

Definition wreq : InterruptRequest :=
  mkInterruptRequest "req-1" "bash" "rm x" "" "" "elevated" true "" ["destructive"] 5%Z 125%Z.
Definition yes : Answer := mkAnswer "" DecisionApprove "" "".

Definition w_init : state := mkState NewApprovalManager ∅ ∅ 10%Z [].

(** A wait that has registered and set its timer. *)
Definition w_waiting : state :=
  goto (goto (goto w_init (mgr w_init) 0 (AtWait "s1" "run-1" wreq) [])
          (register 10 "s1" "run-1" wreq 0 NewApprovalManager).1 0 (AtTimer wreq 0) [EvRegistered 0 wreq 0])
       (register 10 "s1" "run-1" wreq 0 NewApprovalManager).1 0 (Waiting wreq 0 125%Z) [].

Lemma w_waiting_reachable : reachable initial step w_waiting.
Proof.
  assert (H : reachable initial step w_init) by (by apply reachable_init).
  advance H ltac:(apply (step_call w_init 0 "s1" "run-1" wreq); reflexivity).
  advance H ltac:(eapply (step_register _ 0 "s1" "run-1" wreq 0); [reflexivity..|vm_compute; reflexivity]).
  advance H ltac:(eapply (step_timer _ 0 wreq 0 125%Z); reflexivity).
  exact H.
Qed.

(** The user's approval arrives. *)
Definition w_resolved : state :=
  mkState (Resolve 10 "req-1" yes (mgr w_waiting)).1 (threads w_waiting) ∅ 10%Z
    (log w_waiting ++ [EvResolved 0 (addressed "req-1" yes)]).

Lemma w_resolved_reachable : reachable initial step w_resolved.
Proof.
  eapply reachable_step; [exact w_waiting_reachable|].
  apply (step_resolve w_waiting "req-1" yes _ None). vm_compute. reflexivity.
Qed.

(** The wait takes it, or its timer, which has fired by then. *)
Definition w_approved : state :=
  goto w_resolved (set_entry 0 (mkEntry (mkPending "req-1" "s1" "run-1" wreq) true None) (mgr w_resolved)) 0
    (Returned wreq (Some 0) (addressed "req-1" yes)) [EvReturned 0 wreq (Some 0) (addressed "req-1" yes)].

Lemma w_approved_reachable : reachable initial step w_approved.
Proof.
  eapply reachable_step; [exact w_resolved_reachable|].
  apply (step_decide w_resolved 0 wreq 0 125%Z (mkEntry (mkPending "req-1" "s1" "run-1" wreq) true
           (Some (addressed "req-1" yes)))); reflexivity.
Qed.

Lemma decision_is_the_users_witness :
  exists p, EvRegistered 0 wreq p ∈ log w_approved /\ resolutions p (log w_approved) = [addressed "req-1" yes].
Proof.
  destruct (decision_is_the_users w_approved 0 wreq (Some 0) (addressed "req-1" yes) w_approved_reachable)
    as [E|(p & _ & Hin & _ & Hr)].
  - do 2 right. left.
  - discriminate.
  - exists p. split; assumption.
Defined.

Lemma first_outcome_is_final_witness :
  (Resolve 10 "req-1" yes (mgr w_approved)).2 = Some ErrApprovalResolved.
Proof.
  destruct (first_outcome_is_final w_approved "req-1" 0 yes w_approved_reachable) as (e & He & H).
  - reflexivity.
  - left. discriminate.
  - vm_compute in He. injection He as <-. exact H.
Defined.

Lemma table_live_or_recent_witness :
  exists e, entries (mgr w_waiting) !! 0%nat = Some e /\ waiting w_waiting (Request (pa e)) 0.
Proof.
  destruct (table_live_or_recent w_waiting "req-1" 0 w_waiting_reachable) as (e & He & H).
  - reflexivity.
  - exists e. split; [exact He|]. destruct H as [H|[H _]]; [exact H|].
    vm_compute in He. injection He as <-. discriminate.
Defined.

Lemma wait_always_returns_witness : threads w_waiting !! 0%nat = Some (Waiting wreq 0 125%Z) /\ returns 0 w_waiting.
Proof.
  split; [reflexivity|]. apply (wait_always_returns w_waiting 0 (Waiting wreq 0 125%Z)). reflexivity.
Defined.

(** *** Limits *)

(** The timer wins the race against a decision that [Resolve] has accepted: the
    caller of [Resolve] saw success, the tool is rejected. *)
Example accepted_but_rejected :
  exists s, reachable initial step s /\ EvResolved 0 (addressed "req-1" yes) ∈ log s /\
    threads s !! 0%nat = Some (Returned wreq (Some 0) (reject wreq)).
Proof.
  pose proof w_resolved_reachable as H.
  advance H ltac:(apply (step_tick w_resolved 200); lia).
  advance H ltac:(eapply (step_timeout _ 0 wreq 0 125%Z); [reflexivity|cbn; lia]).
  advance H ltac:(eapply (step_reject _ 0 wreq 0); reflexivity).
  eexists. split; [exact H|]. split; [|reflexivity]. cbn. do 1 right. left.
Qed.

(** An entry without expiry stays in the table for good once it is resolved. *)
Example no_expiry_is_never_swept now p :
  swept now (mkEntry (mkPending "req-1" "s1" p (mkInterruptRequest "req-1" "bash" "" "" "" "" false "" [] 0%Z 0%Z)) true None)
  = false.
Proof. reflexivity. Qed.
