(* ===== verification/HitlGate.v ===== *)
(** * ai-runtime/middlewares/hitl.go: the human in the loop

    [OnBeforeTool] puts the sandbox's decision into effect: it lets a tool call
    run, blocks it, or asks the user through [HitlChannel]. The state of the
    middleware is its sandbox configuration, which "approve always" extends, and
    what it wrote to the audit log and to the event stream. *)

From S2P Require Import Prelude GoString GoRegexp SandboxSpec SandboxSafe SandboxAssess SandboxPolicy HitlChannel.
From stdpp Require Import pretty.
#[local] Open Scope string_scope.
#[local] Open Scope list_scope.

(** ** middlewares/hitl.go *)

Module Gate.

(** The tool call the middleware sees. [argsJSON] is [json.Marshal(ev.Args)],
    [command] the string under "command", [metadata] that of the tool's
    definition when there is one ([Some None]: a definition without metadata). *)
Record BeforeToolEvent := mkEvent {
  toolName : string;
  toolID : string;
  command : option string;
  argsJSON : string;
  metadata : option (option (gmap string string));
  Abort : option string;
}.

Definition set_Abort (ev : BeforeToolEvent) (m : string) : BeforeToolEvent :=
  mkEvent (toolName ev) (toolID ev) (command ev) (argsJSON ev) (metadata ev) (Some m).
Definition set_command (ev : BeforeToolEvent) (c : string) : BeforeToolEvent :=
  mkEvent (toolName ev) (toolID ev) (Some c) (argsJSON ev) (metadata ev) (Abort ev).

Record AuditEntry := mkAuditEntry {
  aeTimestamp : Time;
  aeCommand : string;
  aeRiskLevel : string;
  aeEffects : list string;
  aeReasons : list Reason;
  aeSource : string;
  aeEngineDecision : string;
  aeUserDecision : string;
  aeOutcome : string;
}.

(** What the middleware is given: the decision provider, the audit logger's
    presence and the two persistence handlers, whose result says whether they
    succeeded; and the text [json.Marshal] makes of a request. *)
Record env := mkEnv {
  provider : option (InterruptRequest -> Answer);
  audited : bool;
  allowAlways : option (AllowRule -> bool);
  toolAllowAlways : option (ToolAllowRule -> bool);
  marshal : InterruptRequest -> option string;
  clock : Time;
}.

(** Its state, with the event stream and the audit log it has written. *)
Record state := mkState {
  sandboxCfg : Config;
  reqID : Z;
  emitted : list InterruptRequest;
  audit : list AuditEntry;
}.

Definition set_cfg (st : state) (c : Config) : state := mkState c (reqID st) (emitted st) (audit st).
Definition set_emitted (st : state) (l : list InterruptRequest) : state :=
  mkState (sandboxCfg st) (reqID st) l (audit st).
Definition set_audit (st : state) (l : list AuditEntry) : state :=
  mkState (sandboxCfg st) (reqID st) (emitted st) l.

(** [fmt.Sprintf("req-%d", reqID.Add(1))]. *)
Definition next_req (st : state) : state * string :=
  let n := (reqID st + 1)%Z in
  (mkState (sandboxCfg st) n (emitted st) (audit st), "req-" +:+ pretty n).

(** Errors are their messages, without the text of the wrapped parse error. *)
Definition allowRuleForRequest (req : InterruptRequest) : result string AllowRule :=
  if negb (String.eqb (ToolName req) "bash") then Err "allow_always only supports bash"
  else match ParseRiskLevel (ReqRiskLevel req) with
  | None => Err "parse risk level"
  | Some maxRisk =>
      match AllowRuleForCommand (ReqCommand req) maxRisk (ReqEffects req) with
      | None => Err "empty or invalid command"
      | Some rule => Ok rule
      end
  end.

Definition toolAllowRuleForRequest (req : InterruptRequest) : result string ToolAllowRule :=
  if String.eqb (TrimSpace (ReqAllowAlwaysKey req)) "" then Err "allow_always is unavailable for this tool"
  else match ParseRiskLevel (ReqRiskLevel req) with
  | None => Err "parse risk level"
  | Some maxRisk => Ok (mkToolAllowRule (ReqAllowAlwaysKey req) maxRisk "")
  end.

Definition with_tool_rules (cfg : Config) (rules : list ToolAllowRule) : Config :=
  mkConfig (DeniedPatterns cfg) (RiskyPatterns cfg) (PatternDescs cfg) (AllowedWorkDir cfg)
    (ReadOnly cfg) (MaxOutputBytes cfg) (CMode cfg) (AutoMaxRisk cfg) (SafeCommands cfg)
    (AllowRules cfg) rules.

(** Replace the first rule of the same key, or append. *)
Fixpoint appendToolAllowRule (rules : list ToolAllowRule) (next : ToolAllowRule) : list ToolAllowRule :=
  match rules with
  | [] => [next]
  | r :: rs => if negb (String.eqb (ToolKey r) (ToolKey next)) then r :: appendToolAllowRule rs next
               else next :: rs
  end.

Definition recordAudit (e : env) (st : state) (out : Outcome) (userDec outcome : string) : state :=
  if audited e then
    set_audit st (audit st ++
      [mkAuditEntry (clock e) (OCommand out) (RiskLevel_String (OLevel out)) (Names (OEffects out))
         (OReasons out) (Source_String (OSource out)) (Decision_String (ODecision out)) userDec outcome])
  else st.

(** [onDecide]: the outcome to audit, [None] for the tools that are not audited. *)
Definition on_decide (e : env) (st : state) (aud : option Outcome) (d : Answer) (outcome : string) : state :=
  match aud with
  | None => st
  | Some out => recordAudit e st out (AType d) outcome
  end.

Definition block (st : state) (ev : BeforeToolEvent) (msg : string) : state * BeforeToolEvent :=
  (st, set_Abort ev msg).

Definition deny_text (o : Outcome) : string :=
  "⛔ sandbox: command denied: " +:+ firstDetail (OReasons o).

(** The whole of [confirm]. *)
Definition confirm (e : env) (st : state) (ev : BeforeToolEvent) (req : InterruptRequest)
    (aud : option Outcome) : state * BeforeToolEvent :=
  match marshal e req with
  | None => block st ev "⛔ failed to encode interrupt request"
  | Some _ =>
  let st := set_emitted st (emitted st ++ [req]) in
  match provider e with
  | None => block st ev "⛔ no decision provider available"
  | Some getDecision =>
  let d := getDecision req in
  let blocked msg := block (on_decide e st aud d "blocked") ev msg in
  if String.eqb (AType d) DecisionApprove then (on_decide e st aud d "executed", ev)
  else if String.eqb (AType d) DecisionApproveAlways then
    if String.eqb (ReqAllowAlwaysKey req) "" then
      match allowAlways e with
      | None => blocked "⛔ allow_always is unavailable"
      | Some handler =>
          match allowRuleForRequest req with
          | Err err => blocked ("⛔ " +:+ err)
          | Ok rule =>
              if negb (handler rule) then blocked "⛔ failed to persist allow_always"
              else
                let cfg := sandboxCfg st in
                let st := set_cfg st (with_rules cfg (AllowRules cfg ++ [rule])) in
                (on_decide e st aud d "executed", ev)
          end
      end
    else
      match toolAllowAlways e with
      | None => blocked "⛔ allow_always is unavailable"
      | Some handler =>
          match toolAllowRuleForRequest req with
          | Err err => blocked ("⛔ " +:+ err)
          | Ok rule =>
              if negb (handler rule) then blocked "⛔ failed to persist allow_always"
              else
                let cfg := sandboxCfg st in
                let st := set_cfg st (with_tool_rules cfg (appendToolAllowRule (ToolAllowRules cfg) rule)) in
                (on_decide e st aud d "executed", ev)
          end
      end
  else if String.eqb (AType d) DecisionEdit then
    let edited := TrimSpace (ACommand d) in
    if String.eqb (ToolName req) "bash" && negb (String.eqb edited "") then
      let ev := set_command ev edited in
      let re := Evaluate (mkCommandRequest edited "" "") (Some (sandboxCfg st)) in
      if bool_decide (ODecision re = DecisionDeny)
      then block (recordAudit e st re (AType d) "blocked") ev (deny_text re)
      else (on_decide e st aud d "executed", ev)
    else (on_decide e st aud d "executed", ev)
  else if String.eqb (AType d) DecisionReject then blocked "⛔ rejected by user"
  else if String.eqb (AType d) DecisionRespond then
    let msg := TrimSpace (AMessage d) in
    let msg := if String.eqb msg "" then "user declined to answer" else msg in
    block (on_decide e st aud d "aborted") ev ("[tool not executed] user replied: " +:+ msg)
  else blocked "⛔ unknown HITL decision"
  end
  end.

(** ** checkBash *)

(** [riskReason]. *)
Definition join_comma (l : list string) : string :=
  match l with [] => "" | x :: l' => foldl (fun acc y => acc +:+ ("," +:+ y)) x l' end.

Definition riskReason (out : Outcome) : string :=
  let reason := match OReasons out with [] => "" | r :: _ => Detail r end in
  let effs := Names (OEffects out) in
  let lv := RiskLevel_String (OLevel out) in
  if negb (String.eqb reason "") && (match effs with [] => false | _ => true end) then
    reason +:+ (" (risk " +:+ (lv +:+ (", " +:+ (join_comma effs +:+ ")"))))
  else if negb (String.eqb reason "") then reason +:+ (" (risk " +:+ (lv +:+ ")"))
  else "risk " +:+ lv.

Definition bash_request (e : env) (id cmd : string) (out : Outcome) : InterruptRequest :=
  mkInterruptRequest id "bash" cmd (riskReason out) "" (RiskLevel_String (OLevel out)) true ""
    (Names (OEffects out)) (clock e) (clock e + DefaultTimeout)%Z.

Definition checkBash (e : env) (st : state) (ev : BeforeToolEvent) : state * BeforeToolEvent :=
  let cmd := default "" (command ev) in
  if String.eqb cmd "" then (st, ev)
  else
    let out := Evaluate (mkCommandRequest cmd "" "") (Some (sandboxCfg st)) in
    match ODecision out with
    | DecisionAllow | DecisionSandbox => (recordAudit e st out "" "executed", ev)
    | DecisionDeny => block (recordAudit e st out "" "blocked") ev (deny_text out)
    | DecisionHitl =>
        let '(st, id) := next_req st in
        confirm e st ev (bash_request e id cmd out) (Some out)
    end.

(** ** The tools with a declared risk *)

Inductive verdict : Type := VAllow | VDeny | VHitl.

Definition toolAllowRuleMatches (rules : list ToolAllowRule) (policy : ToolPolicyMetadata) : bool :=
  if String.eqb (AllowAlwaysKey policy) "" then false
  else existsb (fun r => String.eqb (ToolKey r) (AllowAlwaysKey policy)
                         && (tpRiskLevel policy <=? ToolMaxRisk r)%Z) rules.

Definition toolDecision (cfg : Config) (policy : ToolPolicyMetadata) : verdict :=
  let level := tpRiskLevel policy in
  let free := negb (ForceHITL policy) in
  let mode := CMode cfg in
  if String.eqb mode ModeStrict || String.eqb mode ModeReadOnly then
    if (level <=? RiskLow)%Z then VAllow else VDeny
  else if String.eqb mode ModeAuto then
    if free && (level <=? AutoMaxRisk cfg)%Z then VAllow else VHitl
  else if String.eqb mode ModeOff then
    if free then VAllow else VHitl
  else
    if free && (level <=? RiskLow)%Z then VAllow
    else if free && toolAllowRuleMatches (ToolAllowRules cfg) policy then VAllow
    else VHitl.

Definition resolveToolPolicy (ev : BeforeToolEvent) : option ToolPolicyMetadata :=
  match metadata ev with
  | None => None
  | Some md =>
      if EqualFold (meta (default ∅ md) "requires_permission") "true"
      then Some (NormalizeToolMetadata md) else None
  end.

Definition checkPolicyTool (e : env) (st : state) (ev : BeforeToolEvent) (policy : ToolPolicyMetadata)
  : state * BeforeToolEvent :=
  let decision := toolDecision (sandboxCfg st) policy in
  let '(st, id) := next_req st in
  let lv := RiskLevel_String (tpRiskLevel policy) in
  let req := mkInterruptRequest id (toolName ev) (argsJSON ev)
    ("declared risk_level=" +:+ (lv +:+ " (tool metadata)"))
    ("tool " +:+ (toolName ev +:+ (" with args " +:+ argsJSON ev)))
    lv false (AllowAlwaysKey policy) [] (clock e) (clock e + DefaultTimeout)%Z in
  match decision with
  | VAllow => (st, ev)
  | VDeny => block st ev ("⛔ tool " +:+ (toolName ev +:+ (" denied in " +:+ (CMode (sandboxCfg st)
               +:+ (" mode (risk_level=" +:+ (lv +:+ ")"))))))
  | VHitl => confirm e st ev req None
  end.

Definition sys_level (ev : BeforeToolEvent) : string :=
  match metadata ev with
  | None => "mode"
  | Some md =>
      let l := meta (default ∅ md) "risk_level" in
      if mem l ["never"; "mode"; "always"] then l else "mode"
  end.

Definition sysDecision (cfg : Config) (level : string) : verdict :=
  let mode := CMode cfg in
  if String.eqb mode ModeStrict || String.eqb mode ModeReadOnly then
    if String.eqb level "never" then VAllow else VDeny
  else if String.eqb mode ModeOff then
    if String.eqb level "always" then VHitl else VAllow
  else if String.eqb level "never" then VAllow else VHitl.

Definition checkSys (e : env) (st : state) (ev : BeforeToolEvent) : state * BeforeToolEvent :=
  let level := sys_level ev in
  let decision := sysDecision (sandboxCfg st) level in
  let '(st, id) := next_req st in
  let req := mkInterruptRequest id (toolName ev) (argsJSON ev)
    ("declared risk_level=" +:+ (level +:+ " (device capability)")) "" level false "" []
    (clock e) (clock e + DefaultTimeout)%Z in
  match decision with
  | VAllow => (st, ev)
  | VDeny => block st ev ("⛔ tool " +:+ (toolName ev +:+ (" denied in " +:+ (CMode (sandboxCfg st)
               +:+ (" mode (risk_level=" +:+ (level +:+ ")"))))))
  | VHitl => confirm e st ev req None
  end.

Definition checkMCP (e : env) (st : state) (ev : BeforeToolEvent) : state * BeforeToolEvent :=
  let mode := CMode (sandboxCfg st) in
  if String.eqb mode ModeOff || String.eqb mode ModeAuto then (st, ev)
  else if String.eqb mode ModeStrict || String.eqb mode ModeReadOnly then
    block st ev ("MCP tool " +:+ (toolName ev +:+ (" executes outside the sandbox, blocked in "
      +:+ (mode +:+ " mode"))))
  else
    let '(st, id) := next_req st in
    confirm e st ev (mkInterruptRequest id (toolName ev) (argsJSON ev)
      "MCP tool executes in an external process outside the sandbox"
      ("MCP tool " +:+ (toolName ev +:+ (" with args " +:+ argsJSON ev)))
      "" false "" [] (clock e) (clock e + DefaultTimeout)%Z) None.

Definition OnBeforeTool (e : env) (st : state) (ev : BeforeToolEvent) : state * BeforeToolEvent :=
  if String.eqb (toolName ev) "bash" then checkBash e st ev
  else match resolveToolPolicy ev with
  | Some policy => checkPolicyTool e st ev policy
  | None =>
      if HasPrefix (toolName ev) "mcp_" then checkMCP e st ev
      else if HasPrefix (toolName ev) "sys_" then checkSys e st ev
      else (st, ev)
  end.

(** ** Lemmas *)

Definition authorising (t : DecisionType) : Prop :=
  t = DecisionApprove \/ t = DecisionApproveAlways \/ t = DecisionEdit.

Definition deny_edit (st : state) (c : string) : Prop :=
  ODecision (Evaluate (mkCommandRequest c "" "") (Some (sandboxCfg st))) = SandboxSpec.DecisionDeny.

(** [confirm] lets the call run only on an authorising answer to the request it
    emitted; what runs is the command asked about or, for a bash command, a
    replacement the sandbox does not deny. *)
Lemma confirm_runs e st ev req aud st' ev' :
  confirm e st ev req aud = (st', ev') -> Abort ev' = None ->
  emitted st' = emitted st ++ [req] /\
  exists get, provider e = Some get /\ authorising (AType (get req)) /\
    (ev' = ev \/
     AType (get req) = DecisionEdit /\ ToolName req = "bash" /\
     ev' = set_command ev (TrimSpace (ACommand (get req))) /\
     ~ deny_edit st (TrimSpace (ACommand (get req)))).
Proof.
  unfold confirm, block, authorising, deny_edit. intros H Ha.
  destruct (marshal e req); [|by simplify_eq].
  destruct (provider e) as [get|]; [|by simplify_eq].
  assert (Hem : forall st0 o, emitted (on_decide e st0 aud (get req) o) = emitted st0).
  { intros st0 o. unfold on_decide, recordAudit. by destruct aud, (audited e). }
  repeat (case_match; simplify_eq; try done); bools; (split; [by rewrite Hem|]);
    exists get; (split; [done|]); (split; [by auto|]); auto.
Qed.

(** The state after [confirm] differs in the rules only. *)
Lemma confirm_mode e st ev req aud :
  CMode (sandboxCfg (confirm e st ev req aud).1) = CMode (sandboxCfg st).
Proof.
  unfold confirm, block, on_decide, recordAudit. repeat (case_match; simplify_eq/=); done.
Qed.

Lemma next_req_cfg st st1 id : next_req st = (st1, id) -> sandboxCfg st1 = sandboxCfg st /\ emitted st1 = emitted st /\ audit st1 = audit st.
Proof. by intros [= <- _]. Qed.

Lemma effective_level_valid cmd cfg :
  CMode cfg <> ModeOff -> ~ denied cmd cfg -> valid_level (effective_level (Assess cmd (Some cfg))).
Proof.
  intros Hm Hd. rewrite effective_level_max. unfold valid_level.
  assert (RiskBenign <= floorByEffects (AEffects (Assess cmd (Some cfg))) <= RiskReserved)%Z.
  { unfold floorByEffects, RiskBenign, RiskReserved, RiskHigh, RiskElevated, RiskMedium.
    repeat case_match; lia. }
  assert (RiskBenign <= Level (Assess cmd (Some cfg)) <= RiskReserved)%Z; [|lia].
  unfold RiskBenign, RiskReserved.
  destruct (Assess_cases cmd cfg Hm) as [(? & _)|[(_ & _ & -> & _)|(_ & _ & _ & [Hl _])]].
  - done.
  - unfold RiskLow. lia.
  - cbn in Hl. unfold RiskMedium, RiskReserved in Hl. lia.
Qed.

(** The levels of an outcome that asks the user survive their names. *)
Lemma hitl_level_valid req cfg :
  ODecision (Evaluate req (Some cfg)) = SandboxSpec.DecisionHitl ->
  CMode cfg <> ModeOff -> valid_level (OLevel (Evaluate req (Some cfg))).
Proof.
  intros Hh Hm. rewrite Evaluate_on in * by done.
  destruct (Assess_cases (Command req) cfg Hm) as [(Hd & Hx & _)|[([Hd _] & Hx & _)|(Hd & _ & Hx & _)]].
  - apply String.eqb_neq in Hm. unfold Decide in Hh. by rewrite Hm, Hx in Hh.
  - destruct (Decide_soft (AllowRules cfg) req cfg _ Hm Hx) as (-> & _). by apply effective_level_valid.
  - destruct (Decide_soft (AllowRules cfg) req cfg _ Hm Hx) as (-> & _). by apply effective_level_valid.
Qed.

(** ** Properties *)

(** C1: a bash command runs only if the policy allows it or the user said so in
    time. When the gate does not abort a call with a command, either the sandbox
    allows that command and nothing was asked, or the sandbox asks for it, exactly
    one request was sent, and the answer is one the user gave to that request and
    that approves it or replaces the command; it was taken in time, that is when
    the request had not expired as the wait began and neither the timer, set for
    the rest of the request's life, nor a cancellation nor the end of the channel
    came before it, only answers to other requests. What runs in the end is never
    a command the sandbox denies. *)
Theorem bash_runs_only_if_authorised e st ev cmd st' ev' now evs get :
  toolName ev = "bash" -> command ev = Some cmd -> cmd <> "" ->
  provider e = Some get ->
  (forall r, Channel.GetDecision now evs r = Some (get r)) ->
  OnBeforeTool e st ev = (st', ev') -> Abort ev' = None ->
  let dec c := ODecision (Evaluate (mkCommandRequest c "" "") (Some (sandboxCfg st))) in
  (exists run, command ev' = Some run /\ dec run <> SandboxSpec.DecisionDeny) /\
  (dec cmd = SandboxSpec.DecisionAllow /\ ev' = ev /\ emitted st' = emitted st
   \/ dec cmd = SandboxSpec.DecisionHitl /\
      exists req d, emitted st' = emitted st ++ [req] /\ ReqCommand req = cmd /\
        Channel.in_time now req evs d /\ authorising (AType d)).
Proof.
  intros Ht Hc Hne Hp Hch Hrun Ha dec. unfold OnBeforeTool in Hrun. rewrite Ht in Hrun.
  change (String.eqb "bash" "bash") with true in Hrun. cbv match in Hrun.
  unfold checkBash in Hrun. rewrite Hc in Hrun. cbn [default from_option id] in Hrun.
  apply String.eqb_neq in Hne. rewrite Hne in Hrun.
  assert (Ho : ODecision (Evaluate (mkCommandRequest cmd "" "") (Some (sandboxCfg st))) = dec cmd) by done.
  destruct (ODecision (Evaluate (mkCommandRequest cmd "" "") (Some (sandboxCfg st)))) eqn:Ed.
  - simplify_eq. split; [exists cmd; by rewrite <- Ho|]. left.
    repeat split; [done|]. unfold recordAudit. by case_match.
  - exfalso. revert Ed. unfold Evaluate, Decide. clear. repeat (case_match; simplify_eq/=); try done.
    all: unfold decisionFor in *; repeat (case_match; simplify_eq/=); done.
  - destruct (next_req st) as [st1 id] eqn:En. apply next_req_cfg in En as (Ecfg & Eem & _).
    set (req := bash_request _ _ _ _) in Hrun.
    apply confirm_runs in Hrun as (Hem & g & Hg & Haut & Hcase); [|done].
    rewrite Hp in Hg. injection Hg as <-.
    assert (Hauth : Channel.in_time now req evs (get req)).
    { destruct (Channel.GetDecision_in_time _ _ _ _ (Hch req)) as [E|?]; [|done].
      rewrite E in Haut. by destruct Haut as [?|[?|?]]. }
    split.
    + destruct Hcase as [-> |(_ & _ & -> & Hnd)].
      * exists cmd. by rewrite <- Ho.
      * eexists. split; [done|]. unfold deny_edit in Hnd. by rewrite Ecfg in Hnd.
    + right. split; [done|]. exists req, (get req). rewrite Hem, Eem. naive_solver.
  - unfold block in Hrun. by simplify_eq.
Qed.

Definition approving (c : string) : InterruptRequest -> Answer :=
  fun r => mkAnswer (ID r) DecisionEdit c "".

Definition sample_env (get : InterruptRequest -> Answer) : env :=
  mkEnv (Some get) true (Some (fun _ => true)) (Some (fun _ => true)) (fun _ => Some "") 10%Z.

Definition bash_event (c : string) : BeforeToolEvent := mkEvent "bash" "t1" (Some c) "{}" None None.

(** The provider of the channel [evs], which rejects where it would wait on. *)
Definition channel_provider (now : Time) (evs : list Channel.event) (r : InterruptRequest) : Answer :=
  default (Channel.reject r) (Channel.GetDecision now evs r).

Definition sample_events : list Channel.event :=
  [Channel.Received (mkAnswer "req-7" DecisionApprove "" "");
   Channel.Received (mkAnswer "req-1" DecisionApprove "" ""); Channel.TimerFired].

Lemma channel_provider_ok now r :
  Channel.GetDecision now sample_events r = Some (channel_provider now sample_events r).
Proof.
  unfold channel_provider, Channel.GetDecision. destruct (Channel.timer now r); [|done].
  cbn -[String.eqb]. repeat case_match; done.
Qed.

Lemma bash_runs_only_if_authorised_witness :
  let st := mkState (sample_config ModeNormal []) 0 [] [] in
  let e := sample_env (channel_provider 10 sample_events) in
  let dec c := ODecision (Evaluate (mkCommandRequest c "" "") (Some (sandboxCfg st))) in
  dec "rm x" = SandboxSpec.DecisionHitl /\
    exists req d, emitted (OnBeforeTool e st (bash_event "rm x")).1 = [] ++ [req]
      /\ ReqCommand req = "rm x"
      /\ Channel.in_time 10 req sample_events d /\ authorising (AType d).
Proof.
  intros st e dec.
  destruct (bash_runs_only_if_authorised e st (bash_event "rm x") "rm x"
           (OnBeforeTool e st (bash_event "rm x")).1 (OnBeforeTool e st (bash_event "rm x")).2
           10 sample_events (channel_provider 10 sample_events)) as [_ [[Hd _]|H]].
  - reflexivity.
  - reflexivity.
  - discriminate.
  - reflexivity.
  - intros r. apply channel_provider_ok.
  - generalize (OnBeforeTool e st (bash_event "rm x")). intros []. reflexivity.
  - vm_compute. reflexivity.
  - vm_compute in Hd. discriminate Hd.
  - exact H.
Defined.

(** an approval for always is remembered. In normal mode, a bash command the
    user was asked about and approved for always is allowed from then on
    without another request: the rule stored from it covers it. *)
Theorem approve_always_not_asked_again e st ev cmd get handler st' ev' e' ev2 :
  CMode (sandboxCfg st) = ModeNormal ->
  toolName ev = "bash" -> command ev = Some cmd ->
  provider e = Some get -> allowAlways e = Some handler ->
  OnBeforeTool e st ev = (st', ev') ->
  ODecision (Evaluate (mkCommandRequest cmd "" "") (Some (sandboxCfg st))) = SandboxSpec.DecisionHitl ->
  (forall r, AType (get r) = DecisionApproveAlways) -> Abort ev' = None ->
  toolName ev2 = "bash" -> command ev2 = Some cmd ->
  (OnBeforeTool e' st' ev2).2 = ev2 /\ emitted (OnBeforeTool e' st' ev2).1 = emitted st'.
Proof.
  intros Hn Ht Hc Hp Hh Hrun Hhitl Halways Ha Ht2 Hc2. unfold OnBeforeTool in *.
  rewrite Ht in Hrun. rewrite Ht2. change (String.eqb "bash" "bash") with true in *. cbv match in *.
  unfold checkBash in *. rewrite Hc2. rewrite Hc in Hrun. cbn [default from_option id] in *.
  destruct (String.eqb cmd ""); [done|]. rewrite Hhitl in Hrun.
  assert (Hv : valid_level (OLevel (Evaluate (mkCommandRequest cmd "" "") (Some (sandboxCfg st)))))
    by (apply hitl_level_valid; [done|by rewrite Hn]).
  destruct (next_req st) as [st1 id] eqn:En. apply next_req_cfg in En as (Ecfg & _ & _).
  assert (Hrule : exists rule,
    AllowRuleForCommand cmd (OLevel (Evaluate (mkCommandRequest cmd "" "") (Some (sandboxCfg st))))
      (Names (OEffects (Evaluate (mkCommandRequest cmd "" "") (Some (sandboxCfg st))))) = Some rule /\
    sandboxCfg st' = with_rules (sandboxCfg st) (AllowRules (sandboxCfg st) ++ [rule])).
  { revert Hrun. unfold confirm, block, allowRuleForRequest. rewrite Hp, Hh, Halways.
    cbn [ToolName bash_request ReqRiskLevel ReqCommand ReqEffects ReqAllowAlwaysKey].
    rewrite (ParseRiskLevel_String _ Hv). change (String.eqb "bash" "bash") with true. cbn [negb].
    change (String.eqb DecisionApproveAlways DecisionApprove) with false.
    change (String.eqb DecisionApproveAlways DecisionApproveAlways) with true.
    change (String.eqb "" "") with true. cbv match.
    destruct (marshal e _); [|by intros; simplify_eq].
    destruct (AllowRuleForCommand _ _ _) as [rule|]; [|by intros; simplify_eq].
    destruct (handler rule); cbn [negb]; cbv match; [|by intros; simplify_eq].
    intros [= <- <-]. exists rule. split; [done|].
    unfold on_decide, recordAudit. cbn. rewrite Ecfg. by case_match. }
  destruct Hrule as (rule & Er & Es). rewrite Es.
  destruct (approved_rule_covers _ _ _ Hn Hhitl Er) as (-> & _).
  split; [done|]. unfold recordAudit. by case_match.
Qed.

Definition always_answer (r : InterruptRequest) : Answer := mkAnswer (ID r) DecisionApproveAlways "" "".

Lemma approve_always_not_asked_again_witness :
  let st := mkState (sample_config ModeNormal []) 0 [] [] in
  let e := sample_env always_answer in
  let st' := (OnBeforeTool e st (bash_event "make clean")).1 in
  (OnBeforeTool e st' (bash_event "make clean")).2 = bash_event "make clean" /\
  emitted (OnBeforeTool e st' (bash_event "make clean")).1 = emitted st'.
Proof.
  intros st e st'.
  apply (approve_always_not_asked_again e st (bash_event "make clean") "make clean" always_answer
           (fun _ => true) st' (OnBeforeTool e st (bash_event "make clean")).2).
  - reflexivity.
  - reflexivity.
  - reflexivity.
  - reflexivity.
  - reflexivity.
  - subst st'. generalize (OnBeforeTool e st (bash_event "make clean")). intros []. reflexivity.
  - vm_compute. reflexivity.
  - intros r. reflexivity.
  - vm_compute. reflexivity.
  - reflexivity.
  - reflexivity.
Defined.

(** What [confirm] adds to the audit log of an audited call: one entry, which says
    "executed" exactly when the call is not aborted. *)
Lemma confirm_audit e st ev req out get :
  audited e = true -> provider e = Some get -> marshal e req <> None -> Abort ev = None ->
  exists en, audit (confirm e st ev req (Some out)).1 = audit st ++ [en] /\
    (aeOutcome en = "executed" <-> Abort (confirm e st ev req (Some out)).2 = None).
Proof.
  intros Ha Hp Hm Hab. unfold confirm, block, on_decide, recordAudit. rewrite Ha, Hp.
  destruct (marshal e req); [|done].
  repeat (case_match; simplify_eq/=); eexists; (split; [reflexivity|]); cbn; split; done.
Qed.

(** every decision on a bash command is audited once, and truthfully about
    whether it runs: with an audit log and a decision provider, each call with
    a command appends exactly one entry, whose outcome is "executed" exactly
    when the call is not aborted. *)
Theorem bash_audited_once e st ev cmd get :
  audited e = true -> provider e = Some get -> (forall r, marshal e r <> None) ->
  toolName ev = "bash" -> command ev = Some cmd -> cmd <> "" -> Abort ev = None ->
  exists en, audit (OnBeforeTool e st ev).1 = audit st ++ [en] /\
    (aeOutcome en = "executed" <-> Abort (OnBeforeTool e st ev).2 = None).
Proof.
  intros Ha Hp Hm Ht Hc Hne Hab. unfold OnBeforeTool. rewrite Ht.
  change (String.eqb "bash" "bash") with true. cbv match.
  unfold checkBash. rewrite Hc. cbn [default from_option id].
  rewrite (proj2 (String.eqb_neq _ _) Hne).
  destruct (ODecision (Evaluate (mkCommandRequest cmd "" "") (Some (sandboxCfg st)))).
  - unfold recordAudit. rewrite Ha. eexists. split; [reflexivity|]. done.
  - unfold recordAudit. rewrite Ha. eexists. split; [reflexivity|]. done.
  - destruct (next_req st) as [st1 id] eqn:En. apply next_req_cfg in En as (_ & _ & <-).
    eapply confirm_audit; eauto.
  - unfold block, recordAudit. rewrite Ha. eexists. split; [reflexivity|]. cbn. split; done.
Qed.

Lemma bash_audited_once_witness :
  let st := mkState (sample_config ModeStrict []) 0 [] [] in
  let e := sample_env always_answer in
  exists en, audit (OnBeforeTool e st (bash_event "rm x")).1 = [] ++ [en] /\
    (aeOutcome en = "executed" <-> Abort (OnBeforeTool e st (bash_event "rm x")).2 = None).
Proof.
  intros st e. apply (bash_audited_once e st (bash_event "rm x") "rm x" always_answer).
  - reflexivity.
  - reflexivity.
  - discriminate.
  - reflexivity.
  - reflexivity.
  - discriminate.
  - reflexivity.
Defined.

(** A tool allow rule that covers a tool's declared policy. *)
Definition tool_rule_covers (cfg : Config) (policy : ToolPolicyMetadata) : Prop :=
  AllowAlwaysKey policy <> "" /\
  exists r, r ∈ ToolAllowRules cfg /\ ToolKey r = AllowAlwaysKey policy
            /\ (tpRiskLevel policy <= ToolMaxRisk r)%Z.

Lemma toolAllowRuleMatches_iff cfg policy :
  toolAllowRuleMatches (ToolAllowRules cfg) policy = true <-> tool_rule_covers cfg policy.
Proof.
  unfold toolAllowRuleMatches, tool_rule_covers.
  destruct (String.eqb_spec (AllowAlwaysKey policy) "") as [E|E]; [naive_solver|].
  rewrite existsb_Exists, Exists_exists. setoid_rewrite andb_true_iff.
  setoid_rewrite String.eqb_eq. setoid_rewrite Z.leb_le. naive_solver.
Qed.

(** A missing or unreadable risk level counts as unclassified. *)
Lemma NormalizeToolMetadata_level md :
  tpRiskLevel (NormalizeToolMetadata md) =
    default RiskUnclassified (ParseRiskLevel (meta (default ∅ md) "risk_level")).
Proof.
  unfold NormalizeToolMetadata. destruct md as [md|]; [|done]. cbn [default from_option id].
  destruct (ParseRiskLevel (meta md "risk_level")); cbn; by case_match.
Qed.

(** a tool that declares that it needs permission runs without asking the user
    only where its risk is within bounds. If the gate lets such a call through
    and asks nothing, then: in strict and read-only mode its level is at most
    low; in auto mode it is at most the configured bound; in the other modes
    but off it is at most low or a stored rule for its key covers it; and
    outside strict and read-only mode the tool does not insist on being asked.
    A level that is missing or unreadable counts as unclassified. *)
Theorem declared_tool_unattended e st ev policy st' ev' :
  toolName ev <> "bash" -> resolveToolPolicy ev = Some policy -> Abort ev = None ->
  OnBeforeTool e st ev = (st', ev') -> Abort ev' = None -> emitted st' = emitted st ->
  let cfg := sandboxCfg st in
  tpRiskLevel policy =
    default RiskUnclassified (ParseRiskLevel (meta (default ∅ (default None (metadata ev))) "risk_level")) /\
  (CMode cfg = ModeStrict \/ CMode cfg = ModeReadOnly -> (tpRiskLevel policy <= RiskLow)%Z) /\
  (CMode cfg = ModeAuto -> (tpRiskLevel policy <= AutoMaxRisk cfg)%Z) /\
  (CMode cfg = ModeNormal -> (tpRiskLevel policy <= RiskLow)%Z \/ tool_rule_covers cfg policy) /\
  (CMode cfg <> ModeStrict -> CMode cfg <> ModeReadOnly -> ForceHITL policy = false).
Proof.
  intros Ht Hpol Hab Hrun Hab' Hem cfg. split.
  { revert Hpol. unfold resolveToolPolicy. destruct (metadata ev) as [md|]; [|done].
    cbn [default from_option id]. destruct (EqualFold _ _); [|done]. intros [= <-].
    apply NormalizeToolMetadata_level. }
  unfold OnBeforeTool in Hrun. rewrite (proj2 (String.eqb_neq _ _) Ht), Hpol in Hrun.
  unfold checkPolicyTool in Hrun.
  destruct (next_req st) as [st1 id] eqn:En. apply next_req_cfg in En as (Ecfg & Eem & _).
  assert (Hd : toolDecision cfg policy = VAllow).
  { subst cfg. destruct (toolDecision (sandboxCfg st) policy); [done| |].
    - unfold block in Hrun. by simplify_eq.
    - apply confirm_runs in Hrun as [Hem' _]; [|done]. rewrite Hem', Eem in Hem.
      apply (f_equal length) in Hem. rewrite length_app in Hem. cbn in Hem. lia. }
  revert Hd. unfold toolDecision. clear.
  destruct (String.eqb_spec (CMode cfg) ModeStrict) as [-> | Hs];
    [|destruct (String.eqb_spec (CMode cfg) ModeReadOnly) as [-> | Hr]];
    [cbn; case_match; bools; naive_solver..|]. cbn [orb].
  destruct (String.eqb_spec (CMode cfg) ModeAuto) as [-> | Ha].
  { destruct (ForceHITL policy); cbn; [done|]. case_match; bools; naive_solver. }
  destruct (String.eqb_spec (CMode cfg) ModeOff) as [-> | Ho].
  { destruct (ForceHITL policy); cbn; [done|]. naive_solver. }
  destruct (ForceHITL policy); cbn [negb andb]; [done|].
  destruct (Z.leb_spec (tpRiskLevel policy) RiskLow); [naive_solver|].
  destruct (toolAllowRuleMatches (ToolAllowRules cfg) policy) eqn:E; [|done].
  apply toolAllowRuleMatches_iff in E. naive_solver.
Qed.

Lemma declared_tool_unattended_witness :
  let md : gmap string string := {["requires_permission" := "true"; "risk_level" := "low"]} in
  let st := mkState (sample_config ModeNormal []) 0 [] [] in
  let ev := mkEvent "mcp_fs_list" "t1" None "{}" (Some (Some md)) None in
  (RiskLow <= RiskLow)%Z \/
  tool_rule_covers (sandboxCfg st) (mkToolPolicyMetadata RiskLow true "" false "").
Proof.
  intros md st ev.
  exact (proj1 (proj2 (proj2 (proj2
    (declared_tool_unattended (sample_env always_answer) st ev
       (mkToolPolicyMetadata RiskLow true "" false "")
       (mkState (sample_config ModeNormal []) 1 [] []) ev
       ltac:(discriminate) ltac:(vm_compute; reflexivity) eq_refl
       ltac:(vm_compute; reflexivity) eq_refl eq_refl)))) eq_refl).
Defined.

(** ** What the gate writes and forgets *)

(** After an edit the audit log names the command the user replaced, not the one
    that runs. *)
Example edited_command_not_in_audit :
  let st := mkState (sample_config ModeNormal []) 0 [] [] in
  let r := OnBeforeTool (sample_env (approving "rm y")) st (bash_event "rm x") in
  command r.2 = Some "rm y" /\ Abort r.2 = None /\
  (aeCommand <$> audit r.1) = ["rm x"] /\ (aeOutcome <$> audit r.1) = ["executed"].
Proof. vm_compute. repeat split; reflexivity. Qed.

(** An edit to a blank command runs the original one. *)
Example blank_edit_runs_the_original :
  let st := mkState (sample_config ModeNormal []) 0 [] [] in
  let r := OnBeforeTool (sample_env (approving "  ")) st (bash_event "rm x") in
  command r.2 = Some "rm x" /\ Abort r.2 = None.
Proof. vm_compute. repeat split; reflexivity. Qed.

(** A tool that insists on being asked is not asked about in strict mode. *)
Example always_hitl_ignored_in_strict :
  toolDecision (sample_config ModeStrict []) (mkToolPolicyMetadata RiskLow true "" true "") = VAllow.
Proof. reflexivity. Qed.

End Gate.
