(* ===== verification/JsonLines.v ===== *)
(** * Append-only JSON-lines files

    What the persistent components use of Go's standard library: an
    append-only file (its content is a list of bytes), [bufio.Scanner] with
    [ScanLines] and a maximum token size, and [encoding/json] as the interface
    [JsonCodec], whose laws are the documented behaviour of [Marshal] and
    [Unmarshal] on the record types that are stored: a marshalled value is a
    non-empty text on one line that unmarshals to the value. *)

From S2P Require Import Prelude.

Definition bytes : Type := list ascii.
Definition NL : ascii := "010"%char.
Definition CR : ascii := "013"%char.

Definition blen (b : bytes) : Z := Z.of_nat (length b).

(** ** Files *)

(** The outcome of one [file.Write]: everything was written, or an error came
    after [n] bytes. *)
Inductive write_result : Type :=
  | WriteOk
  | WriteErr (n : nat).

Definition file_write (w : write_result) (content data : bytes) : bytes * bool :=
  match w with
  | WriteOk => (content ++ data, true)
  | WriteErr n => (content ++ take n data, false)
  end.

(** ** bufio.ScanLines *)

(** The newline-terminated lines (without their newline) and the bytes after
    the last newline. *)
Fixpoint lines (s : bytes) : list bytes * bytes :=
  match s with
  | [] => ([], [])
  | c :: s' =>
      let '(ls, r) := lines s' in
      if Ascii.eqb c NL then ([] :: ls, r)
      else match ls with
           | [] => ([], c :: r)
           | l :: ls' => ((c :: l) :: ls', r)
           end
  end.

(** The raw tokens: a final line without newline counts when it is not empty. *)
Definition raw_tokens (s : bytes) : list bytes :=
  let '(ls, r) := lines s in ls ++ match r with [] => [] | _ => [r] end.

(** [dropCR]. *)
Definition drop_cr (l : bytes) : bytes :=
  match last l with
  | Some c => if Ascii.eqb c CR then removelast l else l
  | None => l
  end.

(** The tokens delivered before the first one that does not fit the buffer, and
    whether the scan stopped there ([bufio.ErrTooLong]): a line needs its bytes
    plus one more (the newline, or the room that lets the reader see EOF). *)
Fixpoint scan_tokens (max : Z) (toks : list bytes) : list bytes * bool :=
  match toks with
  | [] => ([], true)
  | t :: toks' =>
      if (max <=? blen t)%Z then ([], false)
      else let '(ts, ok) := scan_tokens max toks' in (drop_cr t :: ts, ok)
  end.

Definition scan_lines (max : Z) (s : bytes) : list bytes * bool := scan_tokens max (raw_tokens s).

(** ** The JSON interface *)

Class JsonCodec (A : Type) := {
  marshal : A -> option bytes;
  unmarshal : bytes -> option A;
}.

Class JsonLaws (A : Type) `{JsonCodec A} := {
  unmarshal_marshal : forall a b, marshal a = Some b -> unmarshal b = Some a;
  marshal_one_line : forall a b, marshal a = Some b -> NL ∉ b;
  marshal_nonempty : forall a b, marshal a = Some b -> b <> [];
  marshal_no_cr : forall a b, marshal a = Some b -> last b <> Some CR;
}.

(** ** Lemmas *)

(** A file is line-complete when it ends at a line boundary. *)
Definition complete (s : bytes) : Prop := (lines s).2 = [].

Lemma lines_no_nl (a : bytes) : NL ∉ a -> lines a = ([], a).
Proof.
  induction a as [|c a IH]; [done|]. rewrite not_elem_of_cons. intros [Hc Ha].
  simpl. rewrite IH by done. by rewrite (proj2 (Ascii.eqb_neq c NL)) by congruence.
Qed.

Lemma lines_app_nl (a b : bytes) :
  NL ∉ a -> lines (a ++ NL :: b) = (a :: (lines b).1, (lines b).2).
Proof.
  induction a as [|c a IH]; intros Ha.
  - simpl. by destruct (lines b).
  - apply not_elem_of_cons in Ha as [Hc Ha]. simpl. rewrite IH by done.
    by rewrite (proj2 (Ascii.eqb_neq c NL)) by congruence.
Qed.

Lemma lines_complete_app (s t : bytes) :
  complete s -> lines (s ++ t) = ((lines s).1 ++ (lines t).1, (lines t).2).
Proof.
  unfold complete. induction s as [|c s IH]; simpl.
  - intros _. by destruct (lines t).
  - destruct (lines s) as [ls r] eqn:E; simpl in *. case_match; simpl.
    + intros ->. rewrite IH by done. done.
    + destruct ls as [|l ls]; simpl; [done|]. intros ->. by rewrite IH.
Qed.

Lemma complete_nil : complete [].
Proof. done. Qed.

Lemma complete_app_line (s l : bytes) : complete s -> NL ∉ l -> complete (s ++ l ++ [NL]).
Proof.
  intros Hs Hl. unfold complete. rewrite lines_complete_app by done.
  rewrite lines_app_nl by done. done.
Qed.

Lemma raw_tokens_complete_line (s l : bytes) :
  complete s -> NL ∉ l -> raw_tokens (s ++ l ++ [NL]) = raw_tokens s ++ [l].
Proof.
  intros Hs Hl. unfold raw_tokens. rewrite lines_complete_app by done.
  rewrite lines_app_nl by done. unfold complete in Hs.
  destruct (lines s) as [ls r]; simpl in *. subst r. rewrite !app_nil_r. done.
Qed.

(** A file with a torn tail: the tail is a token of its own... *)
Lemma raw_tokens_torn (s p : bytes) :
  complete s -> NL ∉ p -> p <> [] -> raw_tokens (s ++ p) = raw_tokens s ++ [p].
Proof.
  intros Hs Hp Hne. unfold raw_tokens. rewrite lines_complete_app by done.
  rewrite (lines_no_nl p) by done. unfold complete in Hs.
  destruct (lines s) as [ls r]; simpl in *. subst r. destruct p; [done|].
  by rewrite !app_nil_r.
Qed.

(** ... and what is appended after it joins it on the same line. *)
Lemma raw_tokens_torn_line (s p l : bytes) :
  complete s -> NL ∉ p -> NL ∉ l ->
  raw_tokens ((s ++ p) ++ l ++ [NL]) = raw_tokens s ++ [p ++ l].
Proof.
  intros Hs Hp Hl.
  replace ((s ++ p) ++ l ++ [NL]) with (s ++ (p ++ l) ++ [NL]) by by rewrite !app_assoc.
  apply raw_tokens_complete_line; [done|]. rewrite elem_of_app. naive_solver.
Qed.

(** [lines] inverted. *)
Fixpoint unlines (ls : list bytes) : bytes :=
  match ls with [] => [] | l :: ls' => l ++ NL :: unlines ls' end.

Lemma lines_join (s : bytes) : unlines (lines s).1 ++ (lines s).2 = s.
Proof.
  induction s as [|c s IH]; simpl; [done|].
  destruct (lines s) as [ls r]; simpl in *.
  destruct (Ascii.eqb_spec c NL) as [->|Hc]; simpl; [f_equal; exact IH|].
  destruct ls as [|l ls]; simpl in *; f_equal; exact IH.
Qed.

Lemma lines_parts (s : bytes) : Forall (fun l => NL ∉ l) (lines s).1 /\ NL ∉ (lines s).2.
Proof.
  induction s as [|c s [IH1 IH2]]; simpl; [split; [done|apply not_elem_of_nil]|].
  destruct (lines s) as [ls r]; simpl in *.
  destruct (Ascii.eqb_spec c NL) as [->|Hc]; simpl.
  - split; [|done]. constructor; [apply not_elem_of_nil|done].
  - destruct ls as [|l ls]; simpl.
    + split; [done|]. apply not_elem_of_cons. done.
    + split; [|done]. inversion_clear IH1. constructor; [|done]. by apply not_elem_of_cons.
Qed.

Lemma lines_unlines ls : Forall (fun l => NL ∉ l) ls -> lines (unlines ls) = (ls, []).
Proof.
  induction 1 as [|l ls Hl _ IH]; simpl; [done|]. by rewrite lines_app_nl, IH.
Qed.

Lemma raw_tokens_app (s t : bytes) :
  complete s -> raw_tokens (s ++ t) = raw_tokens s ++ raw_tokens t.
Proof.
  intros Hs. unfold raw_tokens. rewrite lines_complete_app by done. unfold complete in Hs.
  destruct (lines s) as [ls r], (lines t) as [ls' r']; simpl in *. subst r.
  by rewrite app_nil_r, app_assoc.
Qed.

Lemma scan_tokens_all max toks :
  (scan_tokens max toks).2 = true -> (scan_tokens max toks).1 = drop_cr <$> toks.
Proof.
  induction toks as [|t toks IH]; simpl; [done|].
  destruct (_ <=? _)%Z; simpl; [done|].
  destruct (scan_tokens max toks); simpl in *. intros E. by rewrite IH.
Qed.

Lemma scan_tokens_app max ts us :
  (scan_tokens max ts).2 = true ->
  scan_tokens max (ts ++ us) =
    ((scan_tokens max ts).1 ++ (scan_tokens max us).1, (scan_tokens max us).2).
Proof.
  induction ts as [|t ts IH]; simpl.
  - intros _. by destruct (scan_tokens max us).
  - destruct (max <=? blen t)%Z; simpl; [done|].
    destruct (scan_tokens max ts); simpl in *. intros H. by rewrite IH.
Qed.

Lemma scan_tokens_fits max l :
  (blen l < max)%Z -> scan_tokens max [l] = ([drop_cr l], true).
Proof. intros H. simpl. by rewrite (proj2 (Z.leb_gt _ _) H). Qed.

Lemma scan_tokens_too_long max l :
  (max <= blen l)%Z -> scan_tokens max [l] = ([], false).
Proof. intros H. simpl. by rewrite (proj2 (Z.leb_le _ _) H). Qed.

Lemma drop_cr_id l : last l <> Some CR -> drop_cr l = l.
Proof. unfold drop_cr. destruct (last l) as [c|]; [|done]. intros H.
  rewrite (proj2 (Ascii.eqb_neq c CR)); [done|congruence]. Qed.

(** ** A concrete codec

    Any countable type has a lawful codec: the binary digits of its encoding.
    It shows that the laws can hold and lets examples compute. *)
Fixpoint pos_digits (p : positive) : bytes :=
  match p with
  | xH => ["."%char]
  | xO p' => "0"%char :: pos_digits p'
  | xI p' => "1"%char :: pos_digits p'
  end.

Fixpoint digits_pos (b : bytes) : option positive :=
  match b with
  | [] => None
  | c :: b' =>
      if Ascii.eqb c "."%char then match b' with [] => Some xH | _ => None end
      else if Ascii.eqb c "0"%char then xO <$> digits_pos b'
      else if Ascii.eqb c "1"%char then xI <$> digits_pos b'
      else None
  end.

Lemma digits_pos_digits p : digits_pos (pos_digits p) = Some p.
Proof. induction p as [p IH|p IH|]; simpl; rewrite ?IH; done. Qed.

Lemma pos_digits_elem p c : c ∈ pos_digits p -> c = "."%char \/ c = "0"%char \/ c = "1"%char.
Proof.
  induction p as [p IH|p IH|]; simpl; rewrite elem_of_cons, ?elem_of_nil; naive_solver.
Qed.

Definition countable_codec (A : Type) `{Countable A} : JsonCodec A := {|
  marshal a := Some (pos_digits (encode a));
  unmarshal b := digits_pos b ≫= decode;
|}.

Lemma countable_codec_laws (A : Type) `{Countable A} : @JsonLaws A (countable_codec A).
Proof.
  split; simpl; intros a b [= <-].
  - rewrite digits_pos_digits. simpl. apply decode_encode.
  - intros [?|[?|?]]%pos_digits_elem; done.
  - by destruct (encode a).
  - intros Hl. apply last_Some_elem_of, pos_digits_elem in Hl. naive_solver.
Qed.

(** No proper prefix of the digits is a number. *)
Lemma digits_pos_prefix p n : n < length (pos_digits p) -> digits_pos (take n (pos_digits p)) = None.
Proof.
  revert n. induction p as [p IH|p IH|]; intros [|n] Hn; simpl in *; try done.
  - by rewrite IH by lia.
  - by rewrite IH by lia.
  - lia.
Qed.

Lemma countable_codec_prefix (A : Type) `{Countable A} (a : A) b n :
  @marshal A (countable_codec A) a = Some b -> n < length b -> @unmarshal A (countable_codec A) (take n b) = None.
Proof. intros [= <-] Hn. simpl. by rewrite digits_pos_prefix. Qed.
