(* ===== verification/ScanJsonl.v ===== *)
(** * ai-runtime/session/store.go: [scanJSONL]

    The line scanner shared by the session store and the run journals: lines of
    less than 1 MiB, blanks skipped, each other line handed to the caller, and
    the offset behind the last line the caller accepted, from which torn tails
    are cut off. *)

From S2P Require Import Prelude GoString JsonLines.
#[local] Open Scope string_scope.
#[local] Open Scope list_scope.

Definition maxLine : Z := 2 ^ 20.

(** [bytes.TrimSpace]. *)
Definition trim (b : bytes) : bytes := list_ascii_of_string (TrimSpace (string_of_list_ascii b)).

(** The records so far, the offset behind the scanned bytes as the code counts
    it (the token has lost its [\r]), the offset behind the last good record. *)
Definition scan_line {A} (handle : bytes -> option A) (st : list A * Z * Z) (tok : bytes) : list A * Z * Z :=
  let '(recs, pos, good) := st in
  let lineEnd := (pos + blen tok + 1)%Z in
  match trim tok with
  | [] => (recs, lineEnd, good)
  | line => match handle line with
            | Some a => (recs ++ [a], lineEnd, lineEnd)
            | None => (recs, lineEnd, good)
            end
  end.

(** [None]: the scanner stopped at a line that is too long. *)
Definition scanJSONL {A} (handle : bytes -> option A) (content : bytes) : option (list A * Z) :=
  let '(toks, ok) := scan_lines maxLine content in
  if ok then
    let '(recs, _, good) := foldl (scan_line handle) ([], 0%Z, 0%Z) toks in
    Some (recs, if (blen content <? good)%Z then blen content else good)
  else None.

(** The [jsonl] file is cut when bytes follow the last good record. *)
Definition repair (content : bytes) (good : Z) : bytes :=
  if (good <? blen content)%Z then take (Z.to_nat good) content else content.

(** What [json.Marshal] returns of a struct: one line without blanks around it. *)
Definition json_line (b : bytes) : Prop := (NL ∉ b) /\ (CR ∉ b) /\ trim b = b /\ b <> [].

(** ** Lemmas *)

(** A line as the writers make it. *)
Record line_ok (b : bytes) : Prop := {
  l_nl : (NL ∉ b);
  l_cr : (CR ∉ b);
  l_trim : trim b = b;
  l_full : b <> [];
  l_fits : (blen b < maxLine)%Z;
}.

(** A tail that is not a record: nothing at all, or bytes that no reader accepts. *)
Record torn_ok {A} (handle : bytes -> option A) (t : bytes) : Prop := {
  t_nl : (NL ∉ t);
  t_cr : (CR ∉ t);
  t_fits : (blen t < maxLine)%Z;
  t_bad : trim t = [] \/ handle (trim t) = None;
}.

Lemma drop_cr_clean b : CR ∉ b -> drop_cr b = b.
Proof. intros H. apply drop_cr_id. intros E. apply H. by apply last_Some_elem_of. Qed.

Lemma scan_tokens_clean toks :
  Forall (fun b => (CR ∉ b) /\ (blen b < maxLine)%Z) toks -> scan_tokens maxLine toks = (toks, true).
Proof.
  induction 1 as [|b toks [Hc Hf] _ IH]; [done|]. cbn. rewrite (proj2 (Z.leb_gt _ _) Hf), IH.
  by rewrite drop_cr_clean.
Qed.

(** A tail without newline is a token when it is not empty. *)
Definition tail_token (t : bytes) : list bytes := match t with [] => [] | _ => [t] end.

Lemma raw_tokens_unlines bs t :
  Forall (fun b => NL ∉ b) bs -> NL ∉ t -> raw_tokens (unlines bs ++ t) = bs ++ tail_token t.
Proof.
  intros Hb Ht. unfold raw_tokens. rewrite lines_complete_app.
  - rewrite lines_unlines by done. rewrite (lines_no_nl t) by done. cbn. by rewrite app_nil_r.
  - unfold complete. by rewrite lines_unlines.
Qed.

Lemma blen_app a b : blen (a ++ b) = (blen a + blen b)%Z.
Proof. unfold blen. rewrite length_app. lia. Qed.

Lemma blen_cons c b : blen (c :: b) = (1 + blen b)%Z.
Proof. unfold blen. cbn [length]. lia. Qed.

Lemma unlines_app a b : unlines (a ++ b) = unlines a ++ unlines b.
Proof. induction a as [|x a IH]; cbn; [done|]. by rewrite IH, <- app_assoc. Qed.

Lemma unlines_snoc a b : unlines (a ++ [b]) = unlines a ++ b ++ [NL].
Proof. by rewrite unlines_app. Qed.

(** Equal up to arithmetic on the two offsets. *)
Ltac offsets := apply pair_equal_spec; split; [apply pair_equal_spec; split; [done|]|]; lia.

Lemma scan_good {A} (handle : bytes -> option A) bs rs recs0 pos0 :
  Forall2 (fun b r => line_ok b /\ handle b = Some r) bs rs ->
  forall good0, (bs = [] -> good0 = pos0) ->
  foldl (scan_line handle) (recs0, pos0, good0) bs =
    (recs0 ++ rs, (pos0 + blen (unlines bs))%Z, (pos0 + blen (unlines bs))%Z).
Proof.
  intros H. revert recs0 pos0. induction H as [|b r bs rs [Hb Hr] _ IH]; intros recs0 pos0 good0 Hg.
  - cbn. rewrite app_nil_r, Hg by done. unfold blen. cbn. by rewrite Z.add_0_r.
  - cbn [foldl]. unfold scan_line at 2. rewrite (l_trim _ Hb). pose proof (l_full _ Hb).
    destruct b as [|c b]; [done|]. rewrite Hr. rewrite IH by done. cbn [unlines].
    rewrite blen_app, !blen_cons, <- app_assoc. cbn [app]. offsets.
Qed.

(** What a file of whole records and a torn tail scans to. *)
Lemma scanJSONL_spec {A} (handle : bytes -> option A) bs rs t :
  Forall2 (fun b r => line_ok b /\ handle b = Some r) bs rs -> torn_ok handle t ->
  scanJSONL handle (unlines bs ++ t) = Some (rs, blen (unlines bs)).
Proof.
  intros Hb Ht. unfold scanJSONL, scan_lines. rewrite raw_tokens_unlines; [| |apply (t_nl _ _ Ht)].
  2: { clear Ht. induction Hb as [|b r ? ? [Hl _]]; constructor; [apply (l_nl _ Hl)|done]. }
  rewrite scan_tokens_clean.
  2: { apply Forall_app. split; [|destruct t; repeat constructor; apply Ht].
       clear Ht. induction Hb as [|b r ? ? [Hl _]]; constructor; [split; apply Hl|done]. }
  rewrite foldl_app, (scan_good _ _ _ _ _ Hb) by done. cbn [app].
  assert (E : foldl (scan_line handle) (rs, (0 + blen (unlines bs))%Z, (0 + blen (unlines bs))%Z) (tail_token t) =
    (rs, (0 + blen (unlines bs) + (if decide (t = []) then 0 else blen t + 1))%Z, blen (unlines bs))).
  { destruct t as [|c t]; cbn [foldl tail_token].
    - rewrite decide_True by done. offsets.
    - rewrite decide_False by done. unfold scan_line. destruct (t_bad _ _ Ht) as [E|E].
      + rewrite E. offsets.
      + destruct (trim (c :: t)) as [|c' t']; [|rewrite E]; offsets. }
  rewrite E, blen_app. destruct (Z.ltb_spec (blen (unlines bs) + blen t) (blen (unlines bs))) as [Hlt|]; [|done].
  unfold blen in Hlt. lia.
Qed.

(** A last record that lacks only its newline is read, and nothing is cut. *)
Lemma scanJSONL_unterminated {A} (handle : bytes -> option A) bs rs b r :
  Forall2 (fun b r => line_ok b /\ handle b = Some r) bs rs -> line_ok b -> handle b = Some r ->
  scanJSONL handle (unlines bs ++ b) = Some (rs ++ [r], blen (unlines bs ++ b)).
Proof.
  intros Hbs Hb Hr. unfold scanJSONL, scan_lines. rewrite raw_tokens_unlines; [| |apply (l_nl _ Hb)].
  2: { clear -Hbs. induction Hbs as [|? ? ? ? [Hl _]]; constructor; [apply (l_nl _ Hl)|done]. }
  pose proof (l_full _ Hb). destruct b as [|c b]; [done|]. cbn [tail_token].
  rewrite scan_tokens_clean.
  2: { apply Forall_app. split; [|repeat constructor; apply Hb].
       clear -Hbs. induction Hbs as [|? ? ? ? [Hl _]]; constructor; [split; apply Hl|done]. }
  assert (H2 : Forall2 (fun b r => line_ok b /\ handle b = Some r) (bs ++ [c :: b]) (rs ++ [r]))
    by (apply Forall2_app; [done|constructor; [by split|constructor]]).
  rewrite (scan_good _ _ _ _ _ H2) by done.
  cbn [app]. rewrite unlines_snoc, !blen_app, (blen_cons NL).
  rewrite (proj2 (Z.ltb_lt _ _)) by (unfold blen; cbn [length]; lia). done.
Qed.

(** The repair leaves exactly the whole records. *)
Lemma repair_spec bs t : repair (unlines bs ++ t) (blen (unlines bs)) = unlines bs.
Proof.
  unfold repair. rewrite blen_app. destruct (Z.ltb_spec (blen (unlines bs)) (blen (unlines bs) + blen t)) as [H|H].
  - unfold blen at 1. rewrite Nat2Z.id. apply take_app_length.
  - assert (t = []) as -> by (destruct t; [done|]; rewrite blen_cons in H; unfold blen in H; lia). by rewrite app_nil_r.
Qed.

Lemma torn_nil {A} (handle : bytes -> option A) : torn_ok handle [].
Proof. split; try apply not_elem_of_nil; try done. by left. Qed.

(** A marshalled record that is short enough. *)
Lemma json_line_ok b : json_line b -> (blen b < maxLine)%Z -> line_ok b.
Proof. intros (H1 & H2 & H3 & H4) H5. by split. Qed.

(** ** Digits as lines: the concrete codecs of the examples *)

Definition plain (c : ascii) : Prop := c = "."%char \/ c = "0"%char \/ c = "1"%char.

Lemma trim_plain b : Forall plain b -> trim b = b.
Proof.
  intros Hb. unfold trim, TrimSpace.
  assert (Hr : Forall (fun r => is_space r = false) (runes (string_of_list_ascii b))).
  { induction Hb as [|c b Hc _ IH]; [constructor|]. cbn [string_of_list_ascii].
    rewrite runes_ascii by by destruct Hc as [->|[->| ->]]. constructor; [by destruct Hc as [->|[->| ->]]|done]. }
  assert (Hd : forall l, Forall (fun r => is_space r = false) l -> drop_while is_space l = l).
  { intros l Hl. destruct Hl as [|r l Hr1 _]; cbn; by rewrite ?Hr1. }
  unfold trim_runes. rewrite (Hd _ Hr), Hd by by apply Forall_rev. rewrite rev_involutive, raw_runes.
  apply list_ascii_of_string_of_list_ascii.
Qed.

Lemma plain_digits p : Forall plain (pos_digits p).
Proof. apply Forall_forall. intros c. apply pos_digits_elem. Qed.

Lemma digits_prefix p n : (n < length (pos_digits p))%nat -> digits_pos (take n (pos_digits p)) = None.
Proof.
  revert n. induction p as [p IH|p IH|]; intros [|n] Hn; cbn in *; try done; try lia; by rewrite IH by lia.
Qed.

Lemma json_digits p : json_line (pos_digits p).
Proof.
  pose proof (plain_digits p) as Hp. split_and!.
  - intros Hin. by apply pos_digits_elem in Hin as [|[|]].
  - intros Hin. by apply pos_digits_elem in Hin as [|[|]].
  - by apply trim_plain.
  - by destruct p.
Qed.

Lemma digits_prefix_trim p n : (n < length (pos_digits p))%nat -> digits_pos (trim (take n (pos_digits p))) = None.
Proof. intros Hn. rewrite trim_plain by apply Forall_take, plain_digits. by apply digits_prefix. Qed.
