(* ===== verification/RpcFrame.v ===== *)
(** * ai-acp/protocol: frames and the dispatch of a line

    [readFrame], the read loop of [Serve] and [dispatch] of jsonrpc.go: how a
    stream of bytes is cut into lines, and what a line makes the connection do.
    A raw JSON value is a string of bytes; encoding/json is a class. *)

From S2P Require Import Prelude GoString JsonLines ScanJsonl.
#[local] Open Scope string_scope.
#[local] Open Scope list_scope.

Definition JSONRPCVersion : string := "2.0".
Definition DefaultMaxMessageBytes : Z := 2 ^ 20.

Definition CodeParseError : Z := (-32700)%Z.
Definition CodeInvalidRequest : Z := (-32600)%Z.
Definition CodeMethodNotFound : Z := (-32601)%Z.
Definition CodeInvalidParams : Z := (-32602)%Z.
Definition CodeInternalError : Z := (-32603)%Z.

(** ** Frames *)

(** [bufio.NewReader]'s buffer. *)
Definition bufSize : nat := 4096.

Fixpoint index_nl (s : bytes) : option nat :=
  match s with
  | [] => None
  | c :: s' => if Ascii.eqb c NL then Some O else S <$> index_nl s'
  end.

Inductive read_err : Type := RNil | RFull | REOF.

(** [ReadSlice] with the bytes that are still to come: up to the newline if it is
    within the buffer, a full buffer, or all there is. *)
Definition ReadSlice (s : bytes) : bytes * bytes * read_err :=
  match index_nl (take bufSize s) with
  | Some i => (take (S i) s, drop (S i) s, RNil)
  | None => if (bufSize <=? length s)%nat then (take bufSize s, drop bufSize s, RFull) else (s, [], REOF)
  end.

(** A line, whether the stream ended behind it, and the bytes to come. *)
Inductive frame : Type :=
  | Frame (line : bytes) (eof : bool) (rest : bytes)
  | TooLarge.

Definition payload_len (part : bytes) : Z :=
  match last part with
  | Some c => if Ascii.eqb c NL then blen part - 1 else blen part
  | None => blen part
  end.

(** The loop: [acc] is the frame so far. *)
Fixpoint readFrame_from (fuel : nat) (max : Z) (acc s : bytes) : frame :=
  match fuel with
  | O => TooLarge
  | S fuel' =>
      let '(part, rest, err) := ReadSlice s in
      if (max <? blen acc + payload_len part)%Z then TooLarge
      else match err with
      | RFull => readFrame_from fuel' max (acc ++ part) rest
      | RNil => Frame (acc ++ part) false rest
      | REOF => Frame (acc ++ part) true rest
      end
  end.

(** Every round but the last takes a full buffer. *)
Definition readFrame (max : Z) (s : bytes) : frame := readFrame_from (S (length s)) max [] s.

(** The lines [Serve] dispatches, and whether a frame was too large. *)
Fixpoint serve_lines (fuel : nat) (max : Z) (s : bytes) : list bytes * bool :=
  match fuel with
  | O => ([], true)
  | S fuel' =>
      match readFrame max s with
      | TooLarge => ([], true)
      | Frame line eof rest =>
          let dispatched := match line with [] => [] | _ => [line] end in
          if eof then (dispatched, false)
          else let '(ls, large) := serve_lines fuel' max rest in (dispatched ++ ls, large)
      end
  end.

Definition Serve (max : Z) (s : bytes) : list bytes * bool := serve_lines (S (length s)) max s.

(** ** Messages *)

Record RPCError := mkRPCError { Code : Z; ErrMessage : string; Data : string }.
Record Request := mkRequest { ReqVersion : string; ReqID : string; Method : string; Params : string }.
Record Response := mkResponse { RespVersion : string; RespID : string; Result : string; Error : option RPCError }.

(** The envelope's fields; [EMethod] is a pointer. *)
Record envelope := mkEnvelope {
  EVersion : string;
  EID : string;
  EMethod : option string;
  EParams : string;
}.

(** The dynamic type of a JSON value. *)
Inductive json_kind : Type := KString | KNumber | KOther.

Class RpcCodec := {
  fields_of : bytes -> option (option (gmap string string));
  envelope_of : bytes -> option envelope;
  response_of : bytes -> option Response;
  value_of : string -> option json_kind;
  marshal_request : Request -> option bytes;
  marshal_response : Response -> option bytes;
}.

(** ** Dispatch *)

(** What a line makes the connection do. *)
Inductive action : Type :=
  | Refuse (id : string) (code : Z) (message : string)
  | DoRequest (id method params : string)
  | DoNotification (method params : string)
  | Deliver (resp : Response).

Section dispatch.
Context `{RpcCodec}.

Definition is_null (id : string) : bool := String.eqb id "" || String.eqb id "null".

Definition validID (id : string) : bool :=
  if is_null id then true
  else match value_of id with Some KString | Some KNumber => true | _ => false end.

Definition hasField (fields : gmap string string) (name : string) : bool :=
  match fields !! name with Some _ => true | None => false end.

Definition field (fields : gmap string string) (name : string) : string :=
  match fields !! name with Some v => v | None => "" end.

(** The first branch of [dispatchRequest]. *)
Definition dispatchRequest (id method params : string) : action :=
  if is_null id then DoNotification method params else DoRequest id method params.

Definition dispatch (line : bytes) : action :=
  match fields_of line with
  | None => Refuse "null" CodeParseError "parse error"
  | Some None => Refuse "null" CodeInvalidRequest "invalid request"
  | Some (Some fields) =>
      let id := if String.eqb (field fields "id") "" then "null" else field fields "id" in
      match envelope_of line with
      | None => Refuse id CodeInvalidRequest "invalid request"
      | Some e =>
          if negb (String.eqb (EVersion e) JSONRPCVersion) || negb (validID (EID e))
          then Refuse id CodeInvalidRequest "invalid request"
          else
            let hasMethod := match EMethod e with Some _ => true | None => hasField fields "method" end in
            let hasResult := hasField fields "result" in
            let hasError := hasField fields "error" in
            if hasMethod then
              match EMethod e with
              | None => Refuse id CodeInvalidRequest "invalid request"
              | Some m =>
                  if String.eqb m "" || hasResult || hasError then Refuse id CodeInvalidRequest "invalid request"
                  else dispatchRequest (EID e) m (EParams e)
              end
            else if (negb hasResult && negb hasError) || (hasResult && hasError) || String.eqb (field fields "id") ""
            then Refuse id CodeInvalidRequest "invalid request"
            else match response_of line with
            | None => Refuse id CodeInvalidRequest "invalid response"
            | Some r =>
                if hasError && match Error r with None => true | Some _ => false end
                then Refuse id CodeInvalidRequest "invalid response"
                else Deliver r
            end
      end
  end.
End dispatch.

(** ** Frames are lines *)

Lemma index_nl_none s : NL ∉ s -> index_nl s = None.
Proof.
  induction s as [|c s IH]; cbn; [done|]. intros [Hne Hn]%not_elem_of_cons.
  destruct (Ascii.eqb_spec c NL); [by subst|]. by rewrite IH.
Qed.

Lemma index_nl_app a b : NL ∉ a -> index_nl (a ++ NL :: b) = Some (length a).
Proof.
  induction a as [|c a IH]; cbn; [done|]. intros [Hne Hn]%not_elem_of_cons.
  destruct (Ascii.eqb_spec c NL); [by subst|]. by rewrite IH.
Qed.

(** Bytes up to the first newline, if there is one. *)
Lemma nl_split s : (NL ∉ s) \/ exists a b, s = a ++ NL :: b /\ NL ∉ a.
Proof.
  induction s as [|c s IH]; [left; apply not_elem_of_nil|]. destruct (decide (c = NL)) as [->|Hne].
  - right. exists [], s. split; [done|apply not_elem_of_nil].
  - destruct IH as [Hn|(a & b & -> & Ha)]; [left|right; exists (c :: a), b]; [|split; [done|]]; apply not_elem_of_cons; auto.
Qed.

Lemma payload_line a : payload_len (a ++ [NL]) = blen a.
Proof. unfold payload_len. rewrite last_snoc, Ascii.eqb_refl, blen_app. change (blen [NL]) with 1%Z. lia. Qed.

Lemma payload_plain a : NL ∉ a -> payload_len a = blen a.
Proof.
  intros Hn. unfold payload_len. destruct (last a) as [c|] eqn:E; [|done].
  destruct (Ascii.eqb_spec c NL) as [->|]; [|done]. by apply last_Some_elem_of in E.
Qed.

Lemma ReadSlice_full s : NL ∉ take bufSize s -> (bufSize <= length s)%nat -> ReadSlice s = (take bufSize s, drop bufSize s, RFull).
Proof. intros Hn Hl. unfold ReadSlice. by rewrite index_nl_none, (proj2 (Nat.leb_le _ _) Hl). Qed.

Lemma ReadSlice_eof s : NL ∉ s -> (length s < bufSize)%nat -> ReadSlice s = (s, [], REOF).
Proof. intros Hn Hl. unfold ReadSlice. rewrite firstn_all2 by lia. by rewrite index_nl_none, (proj2 (Nat.leb_gt _ _) Hl). Qed.

Lemma ReadSlice_line a b : NL ∉ a -> (length a < bufSize)%nat -> ReadSlice (a ++ NL :: b) = (a ++ [NL], b, RNil).
Proof.
  intros Hn Hl. unfold ReadSlice. rewrite take_app_ge by lia.
  destruct (bufSize - length a)%nat as [|k] eqn:E; [lia|]. cbn [take]. rewrite index_nl_app by done.
  replace (a ++ NL :: b) with ((a ++ [NL]) ++ b) by by rewrite <- app_assoc.
  rewrite take_app_length', drop_app_length' by (rewrite length_app; cbn; lia). done.
Qed.

(** A round that fills the buffer. *)
Lemma readFrame_full fuel max acc s :
  NL ∉ take bufSize s -> (bufSize <= length s)%nat ->
  readFrame_from (S fuel) max acc s =
    if (max <? blen acc + Z.of_nat bufSize)%Z then TooLarge else readFrame_from fuel max (acc ++ take bufSize s) (drop bufSize s).
Proof.
  intros Hn Hl. cbn [readFrame_from]. rewrite ReadSlice_full by done. rewrite payload_plain by done.
  unfold blen at 2. rewrite length_take_le by done. done.
Qed.

Lemma not_in_take n (s : bytes) : NL ∉ s -> NL ∉ take n s.
Proof. intros Hn Hin. apply Hn. rewrite <- (take_drop n s). apply elem_of_app. by left. Qed.

Lemma not_in_drop n (s : bytes) : NL ∉ s -> NL ∉ drop n s.
Proof. intros Hn Hin. apply Hn. rewrite <- (take_drop n s). apply elem_of_app. by right. Qed.

Lemma readFrame_from_plain fuel max acc s :
  NL ∉ s -> (length s < fuel)%nat ->
  readFrame_from fuel max acc s = if (blen acc + blen s <=? max)%Z then Frame (acc ++ s) true [] else TooLarge.
Proof.
  revert acc s. induction fuel as [|fuel IH]; intros acc s Hn Hf; [lia|].
  destruct (decide (bufSize <= length s)%nat) as [Hl|Hl].
  - pose proof (not_in_take bufSize s Hn) as Ht.
    rewrite readFrame_full by done. assert (Hs : blen s = (Z.of_nat bufSize + blen (drop bufSize s))%Z) by (unfold blen; rewrite length_drop; lia).
    destruct (Z.ltb_spec max (blen acc + Z.of_nat bufSize)).
    + rewrite (proj2 (Z.leb_gt _ _)); [done|]. unfold blen in *. lia.
    + rewrite IH by (apply not_in_drop || rewrite length_drop; unfold bufSize in *; done || lia).
      rewrite blen_app, <- app_assoc, take_drop. unfold blen at 2. rewrite length_take_le by done.
      rewrite Hs. by replace (blen acc + Z.of_nat bufSize + blen (drop bufSize s))%Z with (blen acc + (Z.of_nat bufSize + blen (drop bufSize s)))%Z by lia.
  - cbn [readFrame_from]. rewrite ReadSlice_eof by (done || lia). rewrite payload_plain by done.
    destruct (Z.ltb_spec max (blen acc + blen s)); [by rewrite (proj2 (Z.leb_gt _ _))|by rewrite (proj2 (Z.leb_le _ _))].
Qed.

Lemma readFrame_from_line fuel max acc a b :
  NL ∉ a -> (length a < fuel)%nat ->
  readFrame_from fuel max acc (a ++ NL :: b) = if (blen acc + blen a <=? max)%Z then Frame (acc ++ a ++ [NL]) false b else TooLarge.
Proof.
  revert acc a. induction fuel as [|fuel IH]; intros acc a Hn Hf; [lia|].
  destruct (decide (bufSize <= length a)%nat) as [Hl|Hl].
  - pose proof (not_in_take bufSize a Hn) as Ht.
    rewrite readFrame_full; [|by rewrite take_app_le|rewrite length_app; lia].
    rewrite take_app_le, drop_app_le by done.
    assert (Hs : blen a = (Z.of_nat bufSize + blen (drop bufSize a))%Z) by (unfold blen; rewrite length_drop; lia).
    destruct (Z.ltb_spec max (blen acc + Z.of_nat bufSize)).
    + rewrite (proj2 (Z.leb_gt _ _)); [done|]. unfold blen in *. lia.
    + rewrite IH by (apply not_in_drop || rewrite length_drop; unfold bufSize in *; done || lia).
      rewrite blen_app. unfold blen at 2. rewrite length_take_le by done.
      replace ((acc ++ take bufSize a) ++ drop bufSize a ++ [NL]) with (acc ++ a ++ [NL]) by (rewrite <- app_assoc, (app_assoc (take _ _)), take_drop; done).
      rewrite Hs. by replace (blen acc + Z.of_nat bufSize + blen (drop bufSize a))%Z with (blen acc + (Z.of_nat bufSize + blen (drop bufSize a)))%Z by lia.
  - cbn [readFrame_from]. rewrite ReadSlice_line by (done || lia). rewrite payload_line.
    destruct (Z.ltb_spec max (blen acc + blen a)); [by rewrite (proj2 (Z.leb_gt _ _))|by rewrite (proj2 (Z.leb_le _ _))].
Qed.

(** A line at a time, without a buffer. *)
Definition frame_spec (max : Z) (s : bytes) : frame :=
  match index_nl s with
  | Some i => if (Z.of_nat i <=? max)%Z then Frame (take (S i) s) false (drop (S i) s) else TooLarge
  | None => if (blen s <=? max)%Z then Frame s true [] else TooLarge
  end.

Lemma readFrame_line max a b : NL ∉ a ->
  readFrame max (a ++ NL :: b) = if (blen a <=? max)%Z then Frame (a ++ [NL]) false b else TooLarge.
Proof. intros Hn. unfold readFrame. rewrite readFrame_from_line; [done..|]. rewrite length_app. lia. Qed.

Lemma readFrame_rest max s : NL ∉ s -> readFrame max s = if (blen s <=? max)%Z then Frame s true [] else TooLarge.
Proof. intros Hn. unfold readFrame. rewrite readFrame_from_plain; [done..|]. lia. Qed.

(** C24: A frame is a line. Reading through the buffer, piece by piece, gives the
    bytes up to and including the next newline, or all that is left, exactly
    when they are within the limit without their newline; whatever the limit and
    the stream are, and without reading past the line. *)
Theorem readFrame_is_a_line max s : readFrame max s = frame_spec max s.
Proof.
  unfold frame_spec. destruct (nl_split s) as [Hn|(a & b & -> & Ha)].
  - by rewrite readFrame_rest, index_nl_none.
  - rewrite readFrame_line, index_nl_app by done. unfold blen. destruct (_ <=? _)%Z; [|done].
    replace (a ++ NL :: b) with ((a ++ [NL]) ++ b) by by rewrite <- app_assoc.
    by rewrite take_app_length', drop_app_length' by (rewrite length_app; cbn; lia).
Qed.

(** *** Streams of messages *)

Lemma serve_lines_messages fuel max ms tail :
  Forall (fun m => (NL ∉ m) /\ (blen m <= max)%Z) ms -> (NL ∉ tail) -> (blen tail <= max)%Z -> (length ms < fuel)%nat ->
  serve_lines fuel max (unlines ms ++ tail) = (((fun m => m ++ [NL]) <$> ms) ++ match tail with [] => [] | _ => [tail] end, false).
Proof.
  intros Hm Ht Hl. revert fuel. induction Hm as [|m ms [Hn Hb] _ IH]; intros fuel Hf; (destruct fuel as [|fuel]; [cbn in Hf; lia|]).
  - cbn [unlines app serve_lines]. rewrite readFrame_rest, (proj2 (Z.leb_le _ _) Hl) by done. by destruct tail.
  - cbn [unlines serve_lines length] in *. rewrite <- !app_assoc. cbn [app]. rewrite readFrame_line, (proj2 (Z.leb_le _ _) Hb) by done.
    rewrite IH by lia. by destruct m.
Qed.

(** What was sent is what is dispatched. Of a stream of messages without
    newlines and within the limit, each written with a newline behind it, the
    read loop dispatches exactly the messages, in their order, and a part of a
    line at the end. *)
Theorem serve_dispatches_what_was_sent max ms tail :
  Forall (fun m => (NL ∉ m) /\ (blen m <= max)%Z) ms -> (NL ∉ tail) -> (blen tail <= max)%Z ->
  Serve max (unlines ms ++ tail) = (((fun m => m ++ [NL]) <$> ms) ++ match tail with [] => [] | _ => [tail] end, false).
Proof.
  intros Hm Ht Hl. apply serve_lines_messages; [done..|].
  assert (length ms <= length (unlines ms))%nat; [|rewrite length_app; lia].
  clear. induction ms as [|m ms IH]; cbn; [lia|]. rewrite !length_app. cbn. lia.
Qed.

(** A message over the limit ends the connection. *)
Lemma serve_refuses_large fuel max m rest :
  NL ∉ m -> (max < blen m)%Z -> serve_lines (S fuel) max (m ++ NL :: rest) = ([], true).
Proof. intros Hn Hl. cbn [serve_lines]. by rewrite readFrame_line, (proj2 (Z.leb_gt _ _) Hl). Qed.

Module Examples.
Definition text (s : string) : bytes := list_ascii_of_string s.

(** Two messages and the beginning of a third, with a limit of five bytes. *)
Lemma serve_dispatches_what_was_sent_witness :
  Serve 5 (unlines [text "hello"; text "you"] ++ text "the") = ([text "hello" ++ [NL]; text "you" ++ [NL]; text "the"], false).
Proof.
  apply (serve_dispatches_what_was_sent 5 [text "hello"; text "you"] (text "the")).
  - repeat constructor; try (by vm_compute); apply (bool_decide_eq_true_1 _); by vm_compute.
  - apply (bool_decide_eq_true_1 _). by vm_compute.
  - by vm_compute.
Defined.
End Examples.
