(* ===== verification/RpcConn.v ===== *)
(** * ai-acp/protocol: a connection

    [Conn] of jsonrpc.go as a step relation: calls that wait for their responses,
    handlers of the peer's requests, the chain of the notifications, the read
    loop, writes that may fail, and closing. Each mutex-protected section is a
    step; a label of a step is what comes from outside (the lines of the peer,
    the outcome of a write, what a handler returns, a context that is over). *)

From stdpp Require Import pretty.
From S2P Require Import Prelude GoString JsonLines ScanJsonl RpcFrame.
#[local] Open Scope string_scope.
#[local] Open Scope list_scope.

(** ** Threads *)

Inductive call_result : Type :=
  | Answered (r : Response)
  | ErrClosed
  | CtxDone
  | WriteFailed.

Inductive call_pc : Type :=
  | Registered
  | Waiting
  | Dropping (r : call_result)
  | Returned (r : call_result).

(** A [Call]: its key in [pending], the request ([None]: its parameters cannot
    be marshalled), the channel, and how many lines had been read when it was
    registered. *)
Record call := mkCall {
  c_key : string;
  c_request : option Request;
  c_chan : option Response;
  c_pc : call_pc;
  c_since : nat;
}.

Definition set_call_pc (pc : call_pc) (c : call) : call := mkCall (c_key c) (c_request c) (c_chan c) pc (c_since c).
Definition set_chan (r : Response) (c : call) : call := mkCall (c_key c) (c_request c) (Some r) (c_pc c) (c_since c).

(** What a handler does: a result that is marshalled or fails to be, an error of
    the protocol, another error, a panic. *)
Inductive handler_result : Type :=
  | HOk (data : string)
  | HUnmarshalable (message : string)
  | HRpcError (e : RPCError)
  | HError (message : string)
  | HPanic.

Inductive req_pc : Type :=
  | Starting
  | Running (known : bool)
  | Writing (resp : Response)
  | Leaving (resp : Response)
  | Finished (resp : Response).

(** The goroutine of a request; its position is its number in [requestSeq]. *)
Record request := mkReq {
  r_id : string;
  r_method : string;
  r_params : string;
  r_cancelled : bool;
  r_pc : req_pc;
}.

Definition set_req_pc (pc : req_pc) (r : request) : request := mkReq (r_id r) (r_method r) (r_params r) (r_cancelled r) pc.
Definition cancel_req (r : request) : request := mkReq (r_id r) (r_method r) (r_params r) true (r_pc r).

Inductive note_pc : Type := NQueued | NRunning | NDone.

(** A notification on the chain, with the position of its line. *)
Record note := mkNote { n_method : string; n_params : string; n_line : nat; n_pc : note_pc }.

Definition set_note_pc (pc : note_pc) (n : note) : note := mkNote (n_method n) (n_params n) (n_line n) pc.

Inductive reader : Type :=
  | RIdle
  | RRefusing (id : string) (code : Z) (message : string)
  | RSending (i : nat) (resp : Response)
  | RDone.

Inductive origin : Type :=
  | FromCall (i : nat)
  | FromRequest (j : nat)
  | FromRefusal
  | FromNotify.

(** ** The connection *)

(** [cancels]: the requests whose cancel function is registered; [to_cancel]:
    those [closeWith] has taken and will call. [wire]: the lines written, with
    their writers; [received]: the lines read. *)
Record conn := mkConn {
  closed : bool;
  nextID : Z;
  pending : gmap string nat;
  calls : list call;
  methods : gset string;
  notif : gset string;
  requests : list request;
  cancels : gset nat;
  to_cancel : list nat;
  notes : list note;
  reader_pc : reader;
  wire : list (origin * bytes);
  received : list bytes;
}.

Definition NewConn : conn := mkConn false 0 ∅ [] ∅ ∅ [] ∅ [] [] RIdle [] [].

Definition with_pending (p : gmap string nat) (s : conn) : conn :=
  mkConn (closed s) (nextID s) p (calls s) (methods s) (notif s) (requests s) (cancels s) (to_cancel s) (notes s) (reader_pc s) (wire s) (received s).
Definition with_calls (cs : list call) (s : conn) : conn :=
  mkConn (closed s) (nextID s) (pending s) cs (methods s) (notif s) (requests s) (cancels s) (to_cancel s) (notes s) (reader_pc s) (wire s) (received s).
Definition with_requests (rs : list request) (s : conn) : conn :=
  mkConn (closed s) (nextID s) (pending s) (calls s) (methods s) (notif s) rs (cancels s) (to_cancel s) (notes s) (reader_pc s) (wire s) (received s).
Definition with_cancels (cs : gset nat) (s : conn) : conn :=
  mkConn (closed s) (nextID s) (pending s) (calls s) (methods s) (notif s) (requests s) cs (to_cancel s) (notes s) (reader_pc s) (wire s) (received s).
Definition with_to_cancel (l : list nat) (s : conn) : conn :=
  mkConn (closed s) (nextID s) (pending s) (calls s) (methods s) (notif s) (requests s) (cancels s) l (notes s) (reader_pc s) (wire s) (received s).
Definition with_notes (ns : list note) (s : conn) : conn :=
  mkConn (closed s) (nextID s) (pending s) (calls s) (methods s) (notif s) (requests s) (cancels s) (to_cancel s) ns (reader_pc s) (wire s) (received s).
Definition with_reader (r : reader) (s : conn) : conn :=
  mkConn (closed s) (nextID s) (pending s) (calls s) (methods s) (notif s) (requests s) (cancels s) (to_cancel s) (notes s) r (wire s) (received s).
Definition add_wire (w : origin * bytes) (s : conn) : conn :=
  mkConn (closed s) (nextID s) (pending s) (calls s) (methods s) (notif s) (requests s) (cancels s) (to_cancel s) (notes s) (reader_pc s) (wire s ++ [w]) (received s).
Definition add_received (l : bytes) (s : conn) : conn :=
  mkConn (closed s) (nextID s) (pending s) (calls s) (methods s) (notif s) (requests s) (cancels s) (to_cancel s) (notes s) (reader_pc s) (wire s) (received s ++ [l]).
Definition with_methods (ms : gset string) (s : conn) : conn :=
  mkConn (closed s) (nextID s) (pending s) (calls s) ms (notif s) (requests s) (cancels s) (to_cancel s) (notes s) (reader_pc s) (wire s) (received s).
Definition with_notif (ms : gset string) (s : conn) : conn :=
  mkConn (closed s) (nextID s) (pending s) (calls s) (methods s) ms (requests s) (cancels s) (to_cancel s) (notes s) (reader_pc s) (wire s) (received s).
Definition with_nextID (n : Z) (s : conn) : conn :=
  mkConn (closed s) n (pending s) (calls s) (methods s) (notif s) (requests s) (cancels s) (to_cancel s) (notes s) (reader_pc s) (wire s) (received s).

(** [closeWith]: once. *)
Definition closeWith (s : conn) : conn :=
  if closed s then s
  else mkConn true (nextID s) ∅ (calls s) (methods s) (notif s) (requests s) ∅ (to_cancel s ++ elements (cancels s)) (notes s)
         (reader_pc s) (wire s) (received s).

(** *** Writing *)

(** The outcome of the transport's [Write]: all of the line, or not. *)
Inductive io_result : Type := IoOk | IoFailed.

Section conn.
Context `{RpcCodec}.
Context (maxMessageBytes : Z).

(** [data]: the marshalled message. *)
Definition write (io : io_result) (o : origin) (data : option bytes) (s : conn) : conn * bool :=
  match data with
  | None => (s, false)
  | Some d =>
      if (maxMessageBytes <? blen d)%Z then (closeWith s, false)
      else if closed s then (s, false)
      else match io with
      | IoOk => (add_wire (o, d ++ [NL]) s, true)
      | IoFailed => (closeWith s, false)
      end
  end.

Definition error_response (id : string) (code : Z) (message : string) : Response :=
  mkResponse JSONRPCVersion id "" (Some (mkRPCError code message "")).

(** The response to a request, from what its handler did. *)
Definition answer (id method : string) (known : bool) (res : handler_result) : Response :=
  if negb known then error_response id CodeMethodNotFound ("method not found: " +:+ method)
  else match res with
  | HOk data => mkResponse JSONRPCVersion id data None
  | HUnmarshalable message => error_response id CodeInternalError ("marshal result: " +:+ message)
  | HRpcError e => mkResponse JSONRPCVersion id "" (Some e)
  | HError message => error_response id CodeInternalError message
  | HPanic => error_response id CodeInternalError "internal error: handler panic"
  end.

(** *** The read loop *)

(** What [dispatch] does with a line at once. *)
Definition on_line (line : bytes) (s : conn) : conn :=
  let n := length (received s) in
  let s := add_received line s in
  match dispatch line with
  | Refuse id code message => with_reader (RRefusing id code message) s
  | DoRequest id method params =>
      if closed s then s
      else with_cancels ({[length (requests s)]} ∪ cancels s)
             (with_requests (requests s ++ [mkReq id method params false Starting]) s)
  | DoNotification method params =>
      if decide (method ∈ notif s) then with_notes (notes s ++ [mkNote method params n NQueued]) s else s
  | Deliver resp =>
      match pending s !! RespID resp with
      | Some i => with_reader (RSending i resp) (with_pending (delete (RespID resp) (pending s)) s)
      | None => s
      end
  end.

(** [pending[key] = ch] of a new call. *)
Definition key_of (id : Z) : string := pretty id.

Definition begin_call (method : string) (params : option string) (s : conn) : conn :=
  let id := (nextID s + 1)%Z in
  let key := key_of id in
  let req := match params with Some p => Some (mkRequest JSONRPCVersion key method p) | None => None end in
  with_nextID id (with_pending (<[key := length (calls s)]> (pending s))
    (with_calls (calls s ++ [mkCall key req None Registered (length (received s))]) s)).

(** *** Steps *)

(** [nextID] is an int64: a connection makes fewer than 2^63 calls. *)
Inductive step : conn -> conn -> Prop :=
  | step_call s method params :
      (Z.of_nat (length (calls s)) < 2 ^ 63 - 1)%Z -> step s (begin_call method params s)
  | step_call_params s i c :
      calls s !! i = Some c -> c_pc c = Registered -> c_request c = None ->
      step s (with_calls (<[i := set_call_pc (Dropping WriteFailed) c]> (calls s)) s)
  | step_call_write s i c q io s' ok :
      calls s !! i = Some c -> c_pc c = Registered -> c_request c = Some q ->
      write io (FromCall i) (marshal_request q) s = (s', ok) ->
      step s (with_calls (<[i := set_call_pc (if ok then Waiting else Dropping WriteFailed) c]> (calls s')) s')
  | step_call_answered s i c r :
      calls s !! i = Some c -> c_pc c = Waiting -> c_chan c = Some r ->
      step s (with_calls (<[i := set_call_pc (Returned (Answered r)) c]> (calls s)) s)
  | step_call_ctx s i c :
      calls s !! i = Some c -> c_pc c = Waiting ->
      step s (with_calls (<[i := set_call_pc (Dropping CtxDone) c]> (calls s)) s)
  | step_call_closed s i c :
      calls s !! i = Some c -> c_pc c = Waiting -> closed s = true ->
      step s (with_calls (<[i := set_call_pc (Dropping ErrClosed) c]> (calls s)) s)
  | step_call_drop s i c r :
      calls s !! i = Some c -> c_pc c = Dropping r ->
      step s (with_pending (delete (c_key c) (pending s)) (with_calls (<[i := set_call_pc (Returned r) c]> (calls s)) s))
  | step_notify s io data s' ok : write io FromNotify data s = (s', ok) -> step s s'
  | step_handle s m : step s (with_methods ({[m]} ∪ methods s) s)
  | step_handle_notification s m : step s (with_notif ({[m]} ∪ notif s) s)
  | step_line s line : reader_pc s = RIdle -> step s (on_line line s)
  | step_refuse s id code message io s' ok :
      reader_pc s = RRefusing id code message ->
      write io FromRefusal (marshal_response (error_response id code message)) s = (s', ok) ->
      step s (with_reader RIdle s')
  | step_send s i r c :
      reader_pc s = RSending i r -> calls s !! i = Some c -> c_chan c = None ->
      step s (with_reader RIdle (with_calls (<[i := set_chan r c]> (calls s)) s))
  | step_read_end s : reader_pc s = RIdle -> step s (with_reader RDone (closeWith s))
  | step_close s : step s (closeWith s)
  | step_start s j r :
      requests s !! j = Some r -> r_pc r = Starting ->
      step s (with_requests (<[j := set_req_pc (Running (bool_decide (r_method r ∈ methods s))) r]> (requests s)) s)
  | step_handler s j r known res :
      requests s !! j = Some r -> r_pc r = Running known ->
      step s (with_requests (<[j := set_req_pc (Writing (answer (r_id r) (r_method r) known res)) r]> (requests s)) s)
  | step_respond s j r resp io s' ok :
      requests s !! j = Some r -> r_pc r = Writing resp ->
      write io (FromRequest j) (marshal_response resp) s = (s', ok) ->
      step s (with_requests (<[j := set_req_pc (Leaving resp) r]> (requests s')) s')
  | step_leave s j r resp :
      requests s !! j = Some r -> r_pc r = Leaving resp ->
      step s (with_cancels (cancels s ∖ {[j]}) (with_requests (<[j := set_req_pc (Finished resp) r]> (requests s)) s))
  | step_cancel s j l r :
      to_cancel s = j :: l -> requests s !! j = Some r ->
      step s (with_to_cancel l (with_requests (<[j := cancel_req r]> (requests s)) s))
  | step_note_start s k n :
      notes s !! k = Some n -> n_pc n = NQueued ->
      (forall k' n', k = S k' -> notes s !! k' = Some n' -> n_pc n' = NDone) ->
      step s (with_notes (<[k := set_note_pc NRunning n]> (notes s)) s)
  | step_note_end s k n :
      notes s !! k = Some n -> n_pc n = NRunning ->
      step s (with_notes (<[k := set_note_pc NDone n]> (notes s)) s).

Definition initial (s : conn) : Prop := s = NewConn.
End conn.
