(* ===== verification/RpcConnProps.v ===== *)
(** * What a connection promises

    Every response goes to the call it answers, every request is answered once,
    notifications are handled in the order of their lines, and once the
    connection is closed every call returns and every handler is cancelled. *)

From stdpp Require Import pretty.
From S2P Require Import Prelude GoString JsonLines ScanJsonl RpcFrame RpcConn.
#[local] Open Scope string_scope.
#[local] Open Scope list_scope.

Section props.
Context `{RpcCodec}.
Context (max : Z).

#[local] Abbreviation write := (write max).
#[local] Abbreviation step := (step max).
#[local] Abbreviation reach := (reachable initial step).

(** ** Writes *)

Inductive wrote : origin -> option bytes -> conn -> conn -> bool -> Prop :=
  | wrote_line o d s : closed s = false -> wrote o (Some d) s (add_wire (o, d ++ [NL]) s) true
  | wrote_nothing o data s : data = None \/ closed s = true -> wrote o data s s false
  | wrote_close o data s : wrote o data s (closeWith s) false.

Lemma write_wrote io o data s s' ok : write io o data s = (s', ok) -> wrote o data s s' ok.
Proof.
  unfold RpcConn.write. destruct data as [d|]; [|intros [= <- <-]; constructor; by left].
  destruct (_ <? _)%Z; [intros [= <- <-]; constructor|]. destruct (closed s) eqn:E; [intros [= <- <-]; constructor; by right|].
  destruct io; intros [= <- <-]; by constructor.
Qed.

(** What closing leaves alone. *)
Lemma close_fields s :
  closed (closeWith s) = true /\ nextID (closeWith s) = nextID s /\ calls (closeWith s) = calls s /\ requests (closeWith s) = requests s /\
  notes (closeWith s) = notes s /\ reader_pc (closeWith s) = reader_pc s /\ wire (closeWith s) = wire s /\ received (closeWith s) = received s.
Proof. unfold closeWith. by destruct (closed s) eqn:E. Qed.

Lemma close_pending s k i : pending (closeWith s) !! k = Some i -> pending s !! k = Some i.
Proof. unfold closeWith. by destruct (closed s). Qed.

(** ** Calls *)

(** A response among the lines read since [n]. *)
Definition answered_by (s : conn) (since : nat) (r : Response) : Prop :=
  exists n line, (since <= n)%nat /\ received s !! n = Some line /\ dispatch line = Deliver r.

Definition expects (s : conn) (k : string) (i : nat) : Prop :=
  exists c, calls s !! i = Some c /\ c_key c = k /\ c_chan c = None /\ forall r, c_pc c <> Returned r.

(** A call without a response is still known. *)
Definition open_call (s : conn) (i : nat) (c : call) : Prop :=
  closed s = true \/ pending s !! c_key c = Some i \/ (exists r, reader_pc s = RSending i r) \/ is_Some (c_chan c).

Record calls_ok (s : conn) : Prop := {
  k_next : nextID s = Z.of_nat (length (calls s));
  k_keys : forall i c, calls s !! i = Some c -> c_key c = key_of (Z.of_nat (S i)) /\ (c_since c <= length (received s))%nat;
  k_pending : forall k i, pending s !! k = Some i -> expects s k i /\ forall r, reader_pc s <> RSending i r;
  k_sending : forall i r, reader_pc s = RSending i r ->
    exists c, calls s !! i = Some c /\ c_chan c = None /\ RespID r = c_key c /\ answered_by s (c_since c) r;
  k_chan : forall i c r, calls s !! i = Some c -> c_chan c = Some r -> RespID r = c_key c /\ answered_by s (c_since c) r;
  k_returned : forall i c r, calls s !! i = Some c -> c_pc c = Returned (Answered r) \/ c_pc c = Dropping (Answered r) -> c_chan c = Some r;
  k_open : forall i c, calls s !! i = Some c -> c_pc c = Registered \/ c_pc c = Waiting -> open_call s i c;
}.

Lemma answered_mono s s' n r : received s `prefix_of` received s' -> answered_by s n r -> answered_by s' n r.
Proof. intros [t Ht] (k & line & Hk & Hl & Hd). exists k, line. split_and!; [done| |done]. rewrite Ht. by apply lookup_app_l_Some. Qed.

(** Steps that touch no call. *)
Lemma calls_frame s s' :
  nextID s' = nextID s -> calls s' = calls s -> (forall i r, reader_pc s' = RSending i r <-> reader_pc s = RSending i r) ->
  (forall k i, pending s' !! k = Some i -> pending s !! k = Some i) ->
  closed s' = true \/ closed s' = closed s /\ pending s' = pending s ->
  received s `prefix_of` received s' -> calls_ok s -> calls_ok s'.
Proof.
  intros Hn Hc Hr Hp Hcl Hre [I1 I2 I3 I4 I5 I6 I7]. split; rewrite ?Hn, ?Hc; try done.
  - intros i c Hi. destruct (I2 i c Hi) as [? ?]. split; [done|]. apply prefix_length in Hre. lia.
  - intros k i Hk. destruct (I3 k i (Hp _ _ Hk)) as [(c & ? & ? & ? & ?) Hs]. split.
    + exists c. by rewrite Hc.
    + intros r Hrr. apply Hr in Hrr. by apply (Hs r).
  - intros i r Hrr. apply Hr in Hrr. destruct (I4 i r Hrr) as (c & ? & ? & ? & ?). exists c. split_and!; try done. by eapply answered_mono.
  - intros i c r Hi Hch. destruct (I5 i c r Hi Hch) as [? ?]. split; [done|]. by eapply answered_mono.
  - intros i c Hi Hpc. destruct (I7 i c Hi Hpc) as [Hx|[Hx|[[r Hx]|Hx]]]; unfold open_call.
    + destruct Hcl as [?|[-> _]]; auto.
    + destruct Hcl as [?|[_ ->]]; auto.
    + right. right. left. exists r. by apply Hr.
    + auto.
Qed.

Lemma calls_close s : calls_ok s -> calls_ok (closeWith s).
Proof.
  destruct (close_fields s) as (Hc & Hn & Hca & _ & _ & Hr & _ & Hre).
  apply calls_frame; [done..|by rewrite Hr|apply close_pending|by left|by rewrite Hre].
Qed.

Lemma calls_wrote o data s s' ok : wrote o data s s' ok -> calls_ok s -> calls_ok s'.
Proof. intros [| |]; [|done|apply calls_close]. apply calls_frame; try done. by right. Qed.

Lemma wrote_calls o data s s' ok : wrote o data s s' ok ->
  calls s' = calls s /\ requests s' = requests s /\ notes s' = notes s /\ reader_pc s' = reader_pc s /\ received s' = received s.
Proof. intros [| |]; [done..|]. destruct (close_fields s0) as (? & ? & ? & ? & ? & ? & ? & ?). done. Qed.

(** A call moves on. *)
Lemma calls_pc s i c pc p' :
  calls_ok s -> calls s !! i = Some c ->
  (forall r, pc = Returned (Answered r) \/ pc = Dropping (Answered r) -> c_chan c = Some r) ->
  (pc = Registered \/ pc = Waiting -> (c_pc c = Registered \/ c_pc c = Waiting) /\ p' = pending s) ->
  p' = pending s /\ ((forall r, pc <> Returned r) \/ is_Some (c_chan c)) \/ p' = delete (c_key c) (pending s) ->
  calls_ok (with_pending p' (with_calls (<[i := set_call_pc pc c]> (calls s)) s)).
Proof.
  intros [I1 I2 I3 I4 I5 I6 I7] Hi Hans Hop Hp.
  assert (Hsub : forall k j, p' !! k = Some j -> pending s !! k = Some j).
  { intros k j. destruct Hp as [[-> _]| ->]; [done|]. by intros [_ ?]%lookup_delete_Some. }
  assert (Hother : forall j x, calls s !! j = Some x -> j <> i -> c_key x <> c_key c).
  { intros j x Hj Hne E. destruct (I2 _ _ Hj) as [Hk _], (I2 _ _ Hi) as [Hk' _]. rewrite Hk, Hk' in E.
    apply (inj pretty) in E. lia. }
  split; cbn; try done.
  - by rewrite length_insert.
  - intros j x. rewrite list_lookup_insert_Some. intros [(-> & <- & _)|[_ Hj]]; [exact (I2 _ _ Hi)|exact (I2 _ _ Hj)].
  - intros k j Hk. pose proof (Hsub _ _ Hk) as Hk'. destruct (I3 k j Hk') as [(x & Hj & Hkey & Hch & Hnr) Hs]. split; [|done].
    destruct (decide (j = i)) as [->|Hne].
    + simplify_eq. exists (set_call_pc pc c). cbn. rewrite list_lookup_insert_eq by by eapply lookup_lt_Some. split_and!; try done.
      intros r Hr. cbn in Hr. destruct Hp as [[-> [Hp|[? ?]]]| ->]; [by apply (Hp r)|congruence|].
      by rewrite lookup_delete_eq in Hk.
    + exists x. cbn. by rewrite list_lookup_insert_ne.
  - intros j r Hr. destruct (I4 j r Hr) as (x & Hj & ? & ? & ?). destruct (decide (j = i)) as [->|Hne].
    + simplify_eq. exists (set_call_pc pc c). by rewrite list_lookup_insert_eq by by eapply lookup_lt_Some.
    + exists x. by rewrite list_lookup_insert_ne.
  - intros j x r. rewrite list_lookup_insert_Some. intros [(-> & <- & _)|[_ Hj]]; [exact (I5 _ _ r Hi)|exact (I5 _ _ r Hj)].
  - intros j x r. rewrite list_lookup_insert_Some. intros [(-> & <- & _)|[_ Hj]]; [exact (Hans r)|exact (I6 _ _ r Hj)].
  - intros j x. rewrite list_lookup_insert_Some. intros [(-> & <- & _)|[Hne Hj]] Hpc; cbn in Hpc.
    + destruct (Hop Hpc) as [Hpc' ->]. exact (I7 _ _ Hi Hpc').
    + destruct (I7 j x Hj Hpc) as [Hx|[Hx|[[r Hx]|Hx]]]; unfold open_call; cbn; eauto.
      destruct Hp as [[-> _]| ->]; [auto|]. right. left. rewrite lookup_delete_ne; [done|]. apply not_eq_sym, (Hother j x Hj). congruence.
Qed.

Lemma calls_pc_same s i c pc :
  calls_ok s -> calls s !! i = Some c ->
  (forall r, pc = Returned (Answered r) \/ pc = Dropping (Answered r) -> c_chan c = Some r) ->
  (pc = Registered \/ pc = Waiting -> c_pc c = Registered \/ c_pc c = Waiting) ->
  (forall r, pc <> Returned r) \/ is_Some (c_chan c) ->
  calls_ok (with_calls (<[i := set_call_pc pc c]> (calls s)) s).
Proof.
  intros Hok Hi H1 H2 H3. pose proof (calls_pc s i c pc (pending s) Hok Hi H1 (fun h => conj (H2 h) eq_refl) (or_introl (conj eq_refl H3))) as Hr.
  destruct Hr. by split.
Qed.

Lemma calls_begin s method params : calls_ok s -> calls_ok (begin_call method params s).
Proof.
  intros [I1 I2 I3 I4 I5 I6 I7].
  assert (Hnew : forall j x, calls s !! j = Some x -> c_key x <> key_of (nextID s + 1)).
  { intros j x Hj E. destruct (I2 _ _ Hj) as [Hk _]. rewrite Hk in E. apply (inj pretty) in E. rewrite I1 in E.
    apply lookup_lt_Some in Hj. lia. }
  split; cbn.
  - rewrite length_app, I1. cbn. lia.
  - intros i c. rewrite lookup_app_Some. intros [Hi|[Hl Hi]]; [exact (I2 _ _ Hi)|]. apply list_lookup_singleton_Some in Hi as [Hi <-]. cbn.
    split; [|lia]. rewrite I1. f_equal. lia.
  - intros k i. rewrite lookup_insert_Some. intros [[<- <-]|[Hne Hk]].
    + split; [|intros r Hr; destruct (I4 _ _ Hr) as (c & Hc & _); apply lookup_lt_Some in Hc; lia].
      eexists. cbn. rewrite lookup_app_r, Nat.sub_diag by done. by split_and!.
    + destruct (I3 k i Hk) as [(c & ? & ? & ? & ?) ?]. split; [|done]. exists c. split; [by apply lookup_app_l_Some|done].
  - intros i r Hr. destruct (I4 i r Hr) as (c & ? & ? & ? & ?). exists c. split; [by apply lookup_app_l_Some|done].
  - intros i c r. rewrite lookup_app_Some. intros [Hi|[Hl Hi]]; [exact (I5 _ _ r Hi)|]. by apply list_lookup_singleton_Some in Hi as [_ <-].
  - intros i c r. rewrite lookup_app_Some. intros [Hi|[Hl Hi]]; [exact (I6 _ _ r Hi)|]. apply list_lookup_singleton_Some in Hi as [_ <-]. by intros [|].
  - intros i c. rewrite lookup_app_Some. intros [Hi|[Hl Hi]] Hpc.
    + destruct (I7 i c Hi Hpc) as [Hx|[Hx|[[r Hx]|Hx]]]; unfold open_call; cbn; eauto.
      right. left. rewrite lookup_insert_ne; [done|]. by apply not_eq_sym, (Hnew i c).
    + apply list_lookup_singleton_Some in Hi as [Hi <-]. right. left. cbn. rewrite lookup_insert_eq. f_equal. lia.
Qed.

(** The read loop takes a call out of [pending] for the response it has read. *)
Lemma calls_take s r i line :
  calls_ok s -> reader_pc s = RIdle -> pending s !! RespID r = Some i -> dispatch line = Deliver r ->
  calls_ok (with_reader (RSending i r) (with_pending (delete (RespID r) (pending s)) (add_received line s))).
Proof.
  intros [I1 I2 I3 I4 I5 I6 I7] Hr Hp Hd.
  assert (Hre : received s `prefix_of` received s ++ [line]) by by eexists.
  assert (Hmono : forall n x, answered_by s n x -> answered_by (add_received line s) n x) by (intros n x; by apply answered_mono).
  split; cbn; try done.
  - intros j c Hj. destruct (I2 j c Hj) as [? ?]. split; [done|]. rewrite length_app. cbn. lia.
  - intros k j [Hne Hk]%lookup_delete_Some. destruct (I3 k j Hk) as [(c & Hj & Hkey & ?) _]. split; [by exists c|].
    intros x [= <- <-]. destruct (I3 _ _ Hp) as [(c' & Hi & Hkey' & _) _]. simplify_eq.
  - intros j x [= <- <-]. destruct (I3 _ _ Hp) as [(c & Hi & Hkey & Hch & _) _]. exists c. split_and!; try done.
    exists (length (received s)), line. destruct (I2 _ _ Hi) as [_ ?]. split_and!; [done| |done].
    cbn. by rewrite lookup_app_r, Nat.sub_diag.
  - intros j c x Hj Hch. destruct (I5 j c x Hj Hch) as [? ?]. split; [done|]. by apply Hmono.
  - intros j c Hj Hpc. destruct (I7 j c Hj Hpc) as [Hx|[Hx|[[x Hx]|Hx]]]; unfold open_call; cbn; eauto.
    + destruct (decide (c_key c = RespID r)) as [E|Hne].
      * rewrite E, Hp in Hx. injection Hx as ->. eauto.
      * right. left. by rewrite lookup_delete_ne.
    + by rewrite Hr in Hx.
Qed.

Lemma calls_send s i r c :
  calls_ok s -> reader_pc s = RSending i r -> calls s !! i = Some c -> c_chan c = None ->
  calls_ok (with_reader RIdle (with_calls (<[i := set_chan r c]> (calls s)) s)).
Proof.
  intros [I1 I2 I3 I4 I5 I6 I7] Hr Hi Hn. pose proof (lookup_lt_Some _ _ _ Hi) as Hlt. split; cbn; try done.
  - by rewrite length_insert.
  - intros j x. rewrite list_lookup_insert_Some. intros [(-> & <- & _)|[_ Hj]]; [exact (I2 _ _ Hi)|exact (I2 _ _ Hj)].
  - intros k j Hk. destruct (I3 k j Hk) as [(x & Hj & ?) Hs]. split; [|done]. exists x. cbn. rewrite list_lookup_insert_ne; [done|].
    intros ->. by apply (Hs r).
  - intros j x y. rewrite list_lookup_insert_Some. intros [(-> & <- & _)|[_ Hj]]; [|exact (I5 _ _ y Hj)].
    cbn. intros [= <-]. destruct (I4 _ _ Hr) as (c' & Hc' & _ & ? & ?). by simplify_eq.
  - intros j x y. rewrite list_lookup_insert_Some. intros [(-> & <- & _)|[_ Hj]]; [|exact (I6 _ _ y Hj)].
    cbn. intros Hpc. pose proof (I6 _ _ _ Hi Hpc). congruence.
  - intros j x. rewrite list_lookup_insert_Some. intros [(-> & <- & _)|[Hne Hj]] Hpc; [right; right; right; by eexists|].
    destruct (I7 j x Hj Hpc) as [Hx|[Hx|[[y Hx]|Hx]]]; unfold open_call; cbn; eauto. congruence.
Qed.

Lemma calls_line s line : calls_ok s -> reader_pc s = RIdle -> calls_ok (on_line line s).
Proof.
  intros Hok Hr. assert (Hre : received s `prefix_of` received s ++ [line]) by by eexists.
  unfold on_line. destruct (dispatch line) as [id code m|id m p|m p|r] eqn:Hd; cbn [closed add_received notif pending].
  - apply (calls_frame s); try done; [|by right]. intros i r. cbn. by rewrite Hr.
  - destruct (closed s) eqn:E; (apply (calls_frame s); try done; by right).
  - destruct (decide _); (apply (calls_frame s); try done; by right).
  - destruct (pending s !! RespID r) as [i|] eqn:E; [by apply calls_take|]. apply (calls_frame s); try done. by right.
Qed.

Ltac moves := eapply calls_pc_same; eauto; try (by intros ? [[= <-]|]); try (by intros ? [|]); try (by intros [|]); try (by left).

(** A write among the steps. *)
Ltac written :=
  match goal with Hw : write _ _ _ _ = _ |- _ =>
    apply write_wrote in Hw; pose proof (wrote_calls _ _ _ _ _ Hw) as (Hcs & Hrs & Hns & Hrd & Hre); rename Hw into Hwr end.

Lemma calls_inv s : reach s -> calls_ok s.
Proof.
  apply reachable_invariant.
  - intros ? ->. split; cbn; try done; intros; simplify_map_eq.
  - intros s1 s2 Hok Hst. inversion Hst; subst; clear Hst.
    + by apply calls_begin.
    + moves.
    + written. pose proof (calls_wrote _ _ _ _ _ Hwr Hok) as Hok'.
      assert (calls s' !! i = Some c) by by rewrite Hcs. destruct ok; moves.
    + moves.
    + moves.
    + moves.
    + eapply calls_pc; eauto; [intros x [[= ->]|]; [|done]; eapply (k_returned _ Hok); [done|by right]|by intros [|]].
    + written. by eapply calls_wrote.
    + by apply (calls_frame s1); try done; right.
    + by apply (calls_frame s1); try done; right.
    + by apply calls_line.
    + written. apply (calls_frame s'); try done; [|by right|by eapply calls_wrote]. intros i r. cbn. rewrite Hrd. by match goal with H : reader_pc s1 = _ |- _ => rewrite H end.
    + by eapply calls_send.
    + apply (calls_frame (closeWith s1)); try done; [|by right|by apply calls_close].
      intros i r. cbn. destruct (close_fields s1) as (_ & _ & _ & _ & _ & -> & _). by match goal with H : reader_pc s1 = _ |- _ => rewrite H end.
    + by apply calls_close.
    + by apply (calls_frame s1); try done; right.
    + by apply (calls_frame s1); try done; right.
    + written. apply (calls_frame s'); try done; [by right|by eapply calls_wrote].
    + by apply (calls_frame s1); try done; right.
    + by apply (calls_frame s1); try done; right.
    + by apply (calls_frame s1); try done; right.
    + by apply (calls_frame s1); try done; right.
Qed.

(** ** Requests *)

(** What the goroutine of a request has written. *)
Definition responses (j : nat) (s : conn) : list bytes :=
  omap (fun w => match w.1 with FromRequest j' => if decide (j = j') then Some w.2 else None | _ => None end) (wire s).

(** The requests among the lines read. *)
Definition asked (s : conn) : list (string * string * string) :=
  omap (fun line => match dispatch line with DoRequest id m p => Some (id, m, p) | _ => None end) (received s).

Definition asks (r : request) : string * string * string := (r_id r, r_method r, r_params r).

(** A response is what the request's handler did. *)
Definition answers (r : request) (resp : Response) : Prop := exists known res, resp = answer (r_id r) (r_method r) known res.

Definition said_once (s : conn) (j : nat) (resp : Response) : Prop :=
  (exists d, marshal_response resp = Some d /\ responses j s = [d ++ [NL]]) \/
  (responses j s = [] /\ (closed s = true \/ marshal_response resp = None)).

Definition req_at (s : conn) (j : nat) (r : request) : Prop :=
  match r_pc r with
  | Starting | Running _ => responses j s = []
  | Writing resp => responses j s = [] /\ answers r resp
  | Leaving resp | Finished resp => answers r resp /\ said_once s j resp
  end.

Definition unfinished (r : request) : Prop := forall resp, r_pc r <> Finished resp.

Record requests_ok (s : conn) : Prop := {
  q_none : forall j, (length (requests s) <= j)%nat -> responses j s = [];
  q_at : forall j r, requests s !! j = Some r -> req_at s j r;
  q_asked : exists late, asked s = (asks <$> requests s) ++ late /\ (closed s = false -> late = []);
  q_open : closed s = false -> to_cancel s = [] /\ forall j r, requests s !! j = Some r -> unfinished r -> j ∈ cancels s;
  q_closed : closed s = true -> forall j r, requests s !! j = Some r -> unfinished r -> r_cancelled r = true \/ j ∈ to_cancel s;
}.

Lemma answer_id id m known res : RespID (answer id m known res) = id.
Proof. unfold answer. destruct (negb known); [done|]. by destruct res. Qed.

Lemma requests_close s : requests_ok s -> requests_ok (closeWith s).
Proof.
  unfold closeWith. destruct (closed s) eqn:E; [done|]. intros [I1 I2 (late & I3 & I3') I4 I5]. split; cbn; try done.
  - intros j r Hj. specialize (I2 j r Hj). unfold req_at in *. destruct (r_pc r); try done; destruct I2 as [? Hs]; (split; [done|]);
      (destruct Hs as [?|[? _]]; [by left|right; split; [done|by left]]).
  - exists late. by split.
  - intros _ j r Hj Hu. right. destruct (I4 E) as [_ Hc]. apply elem_of_app. right. apply elem_of_elements. by eapply Hc.
Qed.

(** Steps that touch neither the requests nor what they wrote. *)
Lemma requests_frame s s' :
  requests s' = requests s -> (forall j, responses j s' = responses j s) -> asked s' = asked s -> closed s' = closed s ->
  cancels s' = cancels s -> to_cancel s' = to_cancel s -> requests_ok s -> requests_ok s'.
Proof.
  intros Hr Hw Ha Hc Hx Ht [I1 I2 I3 I4 I5]. split.
  - intros j Hl. rewrite Hw. apply I1. by rewrite <- Hr.
  - intros j r. rewrite Hr. intros Hj. specialize (I2 j r Hj). unfold req_at, said_once in *. by rewrite !Hw, Hc.
  - by rewrite Ha, Hr, Hc.
  - by rewrite Hc, Ht, Hr, Hx.
  - by rewrite Hc, Ht, Hr.
Qed.

Lemma requests_wrote o data s s' ok :
  (forall j, o <> FromRequest j) -> wrote o data s s' ok -> requests_ok s -> requests_ok s'.
Proof.
  intros Ho Hw. destruct Hw as [o d s Hc| |]; [|done|apply requests_close]. apply requests_frame; try done.
  intros j. unfold responses. cbn. rewrite omap_app. cbn. destruct o; try (by rewrite app_nil_r). exfalso. by eapply Ho.
Qed.

(** A request moves on without writing. *)
Lemma requests_pc s j r pc :
  requests_ok s -> requests s !! j = Some r -> unfinished r ->
  req_at s j (set_req_pc pc r) -> requests_ok (with_requests (<[j := set_req_pc pc r]> (requests s)) s).
Proof.
  intros [I1 I2 I3 I4 I5] Hj Hu Hat. split; cbn.
  - rewrite length_insert. apply I1.
  - intros k x. rewrite list_lookup_insert_Some. intros [(-> & <- & _)|[_ Hk]]; [exact Hat|exact (I2 _ _ Hk)].
  - destruct I3 as (late & Ha & Hl). exists late. split; [|done]. cbn. rewrite list_fmap_insert. change (asks (set_req_pc pc r)) with (asks r).
    rewrite list_insert_id; [done|]. by rewrite list_lookup_fmap, Hj.
  - intros Hc. destruct (I4 Hc) as [Ht Hx]. split; [done|]. intros k x. rewrite list_lookup_insert_Some.
    intros [(-> & <- & _)|[_ Hk]] Hux; [by eapply Hx|by eapply Hx].
  - intros Hc k x. rewrite list_lookup_insert_Some. intros [(-> & <- & _)|[_ Hk]] Hux; [|by apply I5]. exact (I5 Hc _ r Hj Hu).
Qed.

(** A response is written, or not. *)
Lemma requests_respond s j r resp s' ok :
  requests_ok s -> requests s !! j = Some r -> r_pc r = Writing resp -> wrote (FromRequest j) (marshal_response resp) s s' ok ->
  requests_ok (with_requests (<[j := set_req_pc (Leaving resp) r]> (requests s')) s').
Proof.
  intros Hok Hj Hpc Hw. pose proof (q_at _ Hok _ _ Hj) as Hat. unfold req_at in Hat. rewrite Hpc in Hat. destruct Hat as [Hnone Hans].
  assert (Hu : unfinished r) by (intros x; by rewrite Hpc).
  inversion Hw; subst; clear Hw.
  - destruct Hok as [I1 I2 I3 I4 I5].
    assert (Hother : forall k, k <> j -> responses k (add_wire (FromRequest j, d ++ [NL]) s) = responses k s).
    { intros k Hk. unfold responses. cbn. rewrite omap_app. cbn. by rewrite decide_False, app_nil_r by done. }
    assert (Hmine : responses j (add_wire (FromRequest j, d ++ [NL]) s) = [d ++ [NL]]).
    { unfold responses in *. cbn. rewrite omap_app, Hnone. cbn. by rewrite decide_True. }
    split; cbn.
    + rewrite length_insert. intros k Hk. pose proof (lookup_lt_Some _ _ _ Hj). change (responses k (add_wire (FromRequest j, d ++ [NL]) s) = []).
      rewrite Hother by lia. by apply I1.
    + intros k x. rewrite list_lookup_insert_Some. intros [(-> & <- & _)|[Hne Hk]].
      * split; [done|]. left. exists d. split; [done|]. exact Hmine.
      * specialize (I2 _ _ Hk). unfold req_at, said_once in *.
        change (responses k (with_requests _ _)) with (responses k (add_wire (FromRequest j, d ++ [NL]) s)).
        rewrite Hother by done. exact I2.
    + destruct I3 as (late & Ha & Hl). exists late. split; [|done]. cbn. rewrite list_fmap_insert. change (asks (set_req_pc (Leaving resp) r)) with (asks r).
      rewrite list_insert_id; [done|]. by rewrite list_lookup_fmap, Hj.
    + intros Hc. destruct (I4 Hc) as [Ht Hx]. split; [done|]. intros k x. rewrite list_lookup_insert_Some.
      intros [(-> & <- & _)|[_ Hk]] Hux; by eapply Hx.
    + intros Hc. congruence.
  - apply requests_pc; [done..|]. split; [done|]. right. split; [done|]. cbn. tauto.
  - destruct (close_fields s) as (Hc & _ & _ & Hrq & _ & _ & Hwi & _). apply requests_pc; [by apply requests_close|by rewrite Hrq|done|].
    split; [done|]. right. split; [unfold responses in *; by rewrite Hwi|by left].
Qed.

Lemma requests_line s line : requests_ok s -> requests_ok (on_line line s).
Proof.
  intros Hok. assert (Hasked : forall x, dispatch line = x -> asked (add_received line s) = asked s ++ match x with DoRequest id m p => [(id, m, p)] | _ => [] end).
  { intros x Hx. unfold asked. cbn. rewrite omap_app. cbn. rewrite Hx. by destruct x. }
  unfold on_line. destruct (dispatch line) as [id code m|id m p|m p|resp] eqn:Hd; specialize (Hasked _ eq_refl); cbn [closed add_received notif pending].
  - apply (requests_frame s); try done. exact (eq_trans Hasked (app_nil_r _)).
  - destruct Hok as [I1 I2 (late & I3 & I3') I4 I5]. destruct (closed s) eqn:E.
    + split; cbn; try done; [|by rewrite E|by rewrite E]. exists (late ++ [(id, m, p)]). split; [|by rewrite E]. etrans; [exact Hasked|]. by rewrite I3, <- app_assoc.
    + specialize (I3' eq_refl). subst late. rewrite app_nil_r in I3. destruct (I4 eq_refl) as [Ht Hx]. split; cbn.
      * rewrite length_app. cbn. intros j Hl. apply I1. lia.
      * intros j r. rewrite lookup_app_Some. intros [Hj|[Hl Hj]]; [exact (I2 _ _ Hj)|]. apply list_lookup_singleton_Some in Hj as [Hj <-].
        apply I1. lia.
      * exists []. rewrite app_nil_r. split; [|done]. etrans; [exact Hasked|]. by rewrite I3, fmap_app.
      * intros _. split; [done|]. intros j r. rewrite lookup_app_Some. intros [Hj|[Hl Hj]] Hu; [apply elem_of_union; right; by eapply Hx|].
        apply list_lookup_singleton_Some in Hj as [Hj _]. apply elem_of_union. left. apply elem_of_singleton. lia.
      * rewrite E. done.
  - destruct (decide _); (apply (requests_frame s); try done; exact (eq_trans Hasked (app_nil_r _))).
  - destruct (pending s !! RespID resp); (apply (requests_frame s); try done; exact (eq_trans Hasked (app_nil_r _))).
Qed.

(** The last step of a handler's goroutine, and the calls of the cancel functions. *)
Lemma requests_leave s j r resp :
  requests_ok s -> requests s !! j = Some r -> r_pc r = Leaving resp ->
  requests_ok (with_cancels (cancels s ∖ {[j]}) (with_requests (<[j := set_req_pc (Finished resp) r]> (requests s)) s)).
Proof.
  intros Hok Hj Hpc. pose proof (q_at _ Hok _ _ Hj) as Hat. unfold req_at in Hat. rewrite Hpc in Hat.
  destruct Hok as [I1 I2 (late & I3 & I3') I4 I5]. split; cbn.
  - rewrite length_insert. apply I1.
  - intros k x. rewrite list_lookup_insert_Some. intros [(-> & <- & _)|[_ Hk]]; [exact Hat|exact (I2 _ _ Hk)].
  - exists late. split; [|done]. cbn. rewrite list_fmap_insert. change (asks (set_req_pc (Finished resp) r)) with (asks r).
    rewrite list_insert_id; [done|]. by rewrite list_lookup_fmap, Hj.
  - intros Hc. destruct (I4 Hc) as [Ht Hx]. split; [done|]. intros k x. rewrite list_lookup_insert_Some.
    intros [(-> & <- & _)|[Hne Hk]] Hux; [by destruct (Hux resp)|]. apply elem_of_difference. split; [by eapply Hx|].
    apply not_elem_of_singleton. congruence.
  - intros Hc k x. rewrite list_lookup_insert_Some. intros [(-> & <- & _)|[_ Hk]] Hux; [by destruct (Hux resp)|]. by apply I5.
Qed.

Lemma requests_cancel s j l r :
  requests_ok s -> to_cancel s = j :: l -> requests s !! j = Some r ->
  requests_ok (with_to_cancel l (with_requests (<[j := cancel_req r]> (requests s)) s)).
Proof.
  intros [I1 I2 (late & I3 & I3') I4 I5] Ht Hj. split; cbn.
  - rewrite length_insert. apply I1.
  - intros k x. rewrite list_lookup_insert_Some. intros [(-> & <- & _)|[_ Hk]]; [exact (I2 _ _ Hj)|exact (I2 _ _ Hk)].
  - exists late. split; [|done]. cbn. rewrite list_fmap_insert. change (asks (cancel_req r)) with (asks r).
    rewrite list_insert_id; [done|]. by rewrite list_lookup_fmap, Hj.
  - intros Hc. destruct (I4 Hc) as [Ht' _]. by rewrite Ht in Ht'.
  - intros Hc k x. rewrite list_lookup_insert_Some. intros [(-> & <- & _)|[Hne Hk]] Hux; [by left|].
    destruct (I5 Hc _ _ Hk Hux) as [?|Hin]; [by left|right]. rewrite Ht in Hin. apply elem_of_cons in Hin as [->|?]; done.
Qed.

Lemma requests_inv s : reach s -> requests_ok s.
Proof.
  apply reachable_invariant.
  - intros ? ->. split; cbn; try done. by exists [].
  - intros s1 s2 Hok Hst. inversion Hst; subst; clear Hst; try (by apply (requests_frame s1)).
    + written. apply (requests_frame s'); try done. by apply (requests_wrote (FromCall i) (marshal_request q) s1 s' ok).
    + written. by apply (requests_wrote FromNotify data s1 s2 ok).
    + by apply requests_line.
    + written. apply (requests_frame s'); try done. by eapply (requests_wrote FromRefusal _ s1 s' ok).
    + apply (requests_frame (closeWith s1)); try done. by apply requests_close.
    + by apply requests_close.
    + pose proof (q_at _ Hok _ _ H0) as Hat. unfold req_at in Hat. rewrite H1 in Hat. apply requests_pc; try done. by intros x; rewrite H1.
    + pose proof (q_at _ Hok _ _ H0) as Hat. unfold req_at in Hat. rewrite H1 in Hat. apply requests_pc; try done; [by intros x; rewrite H1|].
      split; [done|]. by eexists _, _.
    + written. by eapply requests_respond.
    + by apply requests_leave.
    + by apply requests_cancel.
Qed.

(** ** Notifications *)

Record notes_ok (s : conn) : Prop := {
  o_chain : forall k k' n n', (k < k')%nat -> notes s !! k = Some n -> notes s !! k' = Some n' -> n_pc n' <> NQueued -> n_pc n = NDone;
  o_line : forall k n, notes s !! k = Some n -> exists line, received s !! n_line n = Some line /\ dispatch line = DoNotification (n_method n) (n_params n);
  o_sorted : forall k k' n n', (k < k')%nat -> notes s !! k = Some n -> notes s !! k' = Some n' -> (n_line n < n_line n')%nat;
}.

Lemma notes_frame s s' : notes s' = notes s -> received s `prefix_of` received s' -> notes_ok s -> notes_ok s'.
Proof.
  intros Hn [t Ht] [I1 I2 I3]. split; rewrite Hn; try done. intros k n Hk. destruct (I2 k n Hk) as (line & ? & ?). exists line.
  split; [|done]. rewrite Ht. by apply lookup_app_l_Some.
Qed.

Lemma notes_pc s k n pc :
  notes_ok s -> notes s !! k = Some n -> (n_pc n = NDone -> pc = NDone) ->
  (pc <> NQueued -> forall k' n', (k' < k)%nat -> notes s !! k' = Some n' -> n_pc n' = NDone) ->
  (forall k' n', (k < k')%nat -> notes s !! k' = Some n' -> n_pc n' <> NQueued -> pc = NDone) ->
  notes_ok (with_notes (<[k := set_note_pc pc n]> (notes s)) s).
Proof.
  intros [I1 I2 I3] Hk Hd Hb Ha. split; cbn.
  - intros i j x y Hij. rewrite !list_lookup_insert_Some. intros [(-> & <- & _)|[Hi Hx]] [(-> & <- & _)|[Hj Hy]] Hq; cbn in *; try lia.
    + by eapply Ha.
    + by eapply Hb.
    + by eapply (I1 i j).
  - intros i x. rewrite list_lookup_insert_Some. intros [(-> & <- & _)|[_ Hx]]; [exact (I2 _ _ Hk)|exact (I2 _ _ Hx)].
  - intros i j x y Hij. rewrite !list_lookup_insert_Some. intros [(-> & <- & _)|[_ Hx]] [(-> & <- & _)|[_ Hy]]; try lia; cbn; by eapply (I3 i j).
Qed.

(** The chain: a notification is started when the one before it is done. *)
Lemma notes_start s k n :
  notes_ok s -> notes s !! k = Some n -> n_pc n = NQueued ->
  (forall k' n', k = S k' -> notes s !! k' = Some n' -> n_pc n' = NDone) ->
  notes_ok (with_notes (<[k := set_note_pc NRunning n]> (notes s)) s).
Proof.
  intros Hok Hk Hq Hprev. apply notes_pc; try done; [by rewrite Hq| |].
  - intros _ k' n' Hlt Hk'. destruct k as [|k0]; [lia|]. destruct (decide (k' = k0)) as [->|Hne]; [by apply (Hprev k0)|].
    pose proof (lookup_lt_Some _ _ _ Hk). destruct (lookup_lt_is_Some_2 (notes s) k0 ltac:(lia)) as [p Hp].
    apply (o_chain _ Hok k' k0 n' p); [lia|done..|]. by rewrite (Hprev k0 p eq_refl Hp).
  - intros k' n' Hlt Hk' Hnq. pose proof (o_chain _ Hok k k' n n' Hlt Hk Hk' Hnq). congruence.
Qed.

Lemma notes_end s k n :
  notes_ok s -> notes s !! k = Some n -> n_pc n = NRunning -> notes_ok (with_notes (<[k := set_note_pc NDone n]> (notes s)) s).
Proof.
  intros Hok Hk Hr. apply notes_pc; try done. intros _ k' n' Hlt Hk'. apply (o_chain _ Hok k' k n' n); try done. by rewrite Hr.
Qed.

Lemma notes_line s line : notes_ok s -> notes_ok (on_line line s).
Proof.
  intros Hok. assert (Hre : received s `prefix_of` received s ++ [line]) by by eexists.
  unfold on_line. destruct (dispatch line) as [id code m|id m p|m p|resp] eqn:Hd; cbn [closed add_received notif pending].
  - by apply (notes_frame s).
  - destruct (closed s); by apply (notes_frame s).
  - destruct (decide _); [|by apply (notes_frame s)]. destruct Hok as [I1 I2 I3]. split; cbn.
    + intros k k' n n' Hlt. rewrite !lookup_app_Some. intros [Hk|[Hk _]] [Hk'|[Hk' Hn']].
      * by apply (I1 k k').
      * by apply list_lookup_singleton_Some in Hn' as [_ <-].
      * apply lookup_lt_Some in Hk'. lia.
      * apply list_lookup_singleton_Some in Hn' as [Hn' _]. lia.
    + intros k n. rewrite lookup_app_Some. intros [Hk|[_ Hk]].
      * destruct (I2 k n Hk) as (l & ? & ?). exists l. split; [by apply lookup_app_l_Some|done].
      * apply list_lookup_singleton_Some in Hk as [_ <-]. exists line. cbn. by rewrite lookup_app_r, Nat.sub_diag.
    + intros k k' n n' Hlt. rewrite !lookup_app_Some. intros [Hk|[Hk _]] [Hk'|[Hk' Hn']].
      * by apply (I3 k k').
      * apply list_lookup_singleton_Some in Hn' as [_ <-]. cbn. destruct (I2 k n Hk) as (l & Hl & _). by eapply lookup_lt_Some.
      * apply lookup_lt_Some in Hk'. lia.
      * apply list_lookup_singleton_Some in Hn' as [Hn' _]. lia.
  - destruct (pending s !! RespID resp); by apply (notes_frame s).
Qed.

Lemma notes_inv s : reach s -> notes_ok s.
Proof.
  apply reachable_invariant; [by intros ? ->|].
  intros s1 s2 Hok Hst. inversion Hst; subst; clear Hst; try (by apply (notes_frame s1)).
  - written. by apply (notes_frame s1); cbn; [|rewrite Hre|].
  - written. by apply (notes_frame s1); [|rewrite Hre|].
  - by apply notes_line.
  - written. by apply (notes_frame s1); cbn; [|rewrite Hre|].
  - destruct (close_fields s1) as (_ & _ & _ & _ & Hn & _ & _ & Hr). by apply (notes_frame s1); cbn; [|rewrite Hr|].
  - destruct (close_fields s1) as (_ & _ & _ & _ & Hn & _ & _ & Hr). by apply (notes_frame s1); [|rewrite Hr|].
  - written. by apply (notes_frame s1); cbn; [|rewrite Hre|].
  - by apply notes_start.
  - by apply notes_end.
Qed.

(** ** Closing *)

Definition returned (c : call) : Prop := exists r, c_pc c = Returned r.

(** A closed connection lets a call return by its own steps. *)
Lemma closed_call_returns s i c :
  closed s = true -> calls s !! i = Some c ->
  exists s' c', rtc step s s' /\ closed s' = true /\ returned c' /\ calls s' = <[i := c']> (calls s).
Proof.
  intros Hc Hi. pose proof (lookup_lt_Some _ _ _ Hi) as Hlt.
  assert (Hdrop : forall s c r, closed s = true -> calls s !! i = Some c -> c_pc c = Dropping r ->
    exists s' c', rtc step s s' /\ closed s' = true /\ returned c' /\ calls s' = <[i := c']> (calls s)).
  { intros s0 c0 r Hc0 Hi0 Hr. eexists _, (set_call_pc (Returned r) c0).
    split; [eapply rtc_once, step_call_drop; eauto|]. cbn. split_and!; [done|by eexists|done]. }
  assert (Hto : forall r, step s (with_calls (<[i := set_call_pc (Dropping r) c]> (calls s)) s) ->
    exists s' c', rtc step s s' /\ closed s' = true /\ returned c' /\ calls s' = <[i := c']> (calls s)).
  { intros r Hst. destruct (Hdrop (with_calls (<[i := set_call_pc (Dropping r) c]> (calls s)) s) (set_call_pc (Dropping r) c) r Hc)
      as (s' & c' & Hs & ? & ? & Hcs); [cbn; by rewrite list_lookup_insert_eq|done|].
    exists s', c'. split; [by eapply rtc_l|]. split_and!; [done|done|]. rewrite Hcs. cbn. by rewrite list_insert_insert_eq. }
  destruct (c_pc c) as [| |r|r] eqn:Hpc.
  - destruct (c_request c) as [q|] eqn:Hq; [|eapply Hto, step_call_params; eauto].
    destruct (write IoOk (FromCall i) (marshal_request q) s) as [s1 ok] eqn:E.
    assert (s1 = s /\ ok = false) as [-> ->].
    { apply write_wrote in E. inversion E; subst; [congruence|done|]. split; [|done]. unfold closeWith. by rewrite Hc. }
    eapply Hto. by eapply (step_call_write max s i c q IoOk s false).
  - eapply Hto, step_call_closed; eauto.
  - by eapply Hdrop.
  - exists s, c. split; [done|]. split_and!; [done|by eexists|]. by rewrite list_insert_id.
Qed.

Lemma closed_returns s : closed s = true -> exists s', rtc step s s' /\ length (calls s') = length (calls s) /\ Forall returned (calls s').
Proof.
  intros Hc.
  assert (H0 : forall k, (k <= length (calls s))%nat -> exists s', rtc step s s' /\ closed s' = true /\ length (calls s') = length (calls s) /\
    Forall returned (take k (calls s'))).
  { induction k as [|k IH]; intros Hk; [exists s; by rewrite take_0|]. destruct IH as (s1 & Hs1 & Hc1 & Hl1 & Hf); [lia|].
    destruct (lookup_lt_is_Some_2 (calls s1) k ltac:(lia)) as [c Hi].
    destruct (closed_call_returns s1 k c Hc1 Hi) as (s2 & c' & Hs2 & Hc2 & Hr & Hcs). exists s2.
    split; [by etrans|]. split; [done|]. rewrite Hcs, length_insert. split; [done|].
    rewrite (take_S_r _ _ c') by (rewrite list_lookup_insert_eq by lia; done). apply Forall_app. split; [|by constructor].
    rewrite take_insert_ge by lia. exact Hf. }
  destruct (H0 (length (calls s)) (le_n _)) as (s' & Hs & _ & Hl & Hf). exists s'. split_and!; [done|done|].
  by rewrite <- Hl, firstn_all in Hf.
Qed.

(** ** The properties *)

(** C23: A response goes to the call it answers. Whatever lines the peer sends
    and however the goroutines interleave, a call that returns a response
    returns one with its own id, read from a line that came after the call was
    registered, and no other call has that id; and no response is lost: a call
    that still waits is known to the read loop, is being given its response, or
    has it, unless the connection is closed. *)
Theorem responses_go_to_their_calls s i c :
  reach s -> calls s !! i = Some c ->
  (forall r, c_pc c = Returned (Answered r) ->
    RespID r = c_key c /\ answered_by s (c_since c) r /\ forall j c', calls s !! j = Some c' -> c_key c' = c_key c -> j = i) /\
  (c_pc c = Waiting -> open_call s i c).
Proof.
  intros Hr Hi. pose proof (calls_inv _ Hr) as Hok. split.
  - intros r Hpc. pose proof (k_returned _ Hok _ _ _ Hi (or_introl Hpc)) as Hch. destruct (k_chan _ Hok _ _ _ Hi Hch) as [? ?].
    split_and!; [done..|]. intros j c' Hj E. destruct (k_keys _ Hok _ _ Hi) as [Hk _], (k_keys _ Hok _ _ Hj) as [Hk' _].
    rewrite Hk, Hk' in E. apply (inj pretty) in E. lia.
  - intros Hpc. apply (k_open _ Hok _ _ Hi). by right.
Qed.

(** Every request is answered once. The requests taken on are those of the
    lines read, in their order, all of them unless the connection is closed; a
    request's goroutine writes nothing before its handler is done and at most
    one line ever, the response to this request with what its handler did; when
    it has ended, it has written it, unless the response cannot be marshalled or
    the connection is closed; and once that is closed the context of every
    goroutine that has not ended is cancelled, or about to be. *)
Theorem requests_are_answered_once s :
  reach s ->
  (exists late, asked s = (asks <$> requests s) ++ late /\ (closed s = false -> late = [])) /\
  forall j r, requests s !! j = Some r ->
    (length (responses j s) <= 1)%nat /\ (r_pc r = Starting -> responses j s = []) /\
    (forall resp, r_pc r = Finished resp -> RespID resp = r_id r /\ answers r resp /\ said_once s j resp) /\
    (closed s = true -> unfinished r -> r_cancelled r = true \/ j ∈ to_cancel s).
Proof.
  intros Hr. pose proof (requests_inv _ Hr) as Hok. split; [apply (q_asked _ Hok)|]. intros j r Hj.
  pose proof (q_at _ Hok _ _ Hj) as Hat. unfold req_at in Hat. split_and!.
  - assert (Hone : forall resp, said_once s j resp -> (length (responses j s) <= 1)%nat).
    { intros resp [(d & _ & ->)|[-> _]]; cbn; lia. }
    destruct (r_pc r); [rewrite Hat; cbn; lia|rewrite Hat; cbn; lia|destruct Hat as [-> _]; cbn; lia|eapply Hone, Hat|eapply Hone, Hat].
  - intros Hpc. by rewrite Hpc in Hat.
  - intros resp Hpc. rewrite Hpc in Hat. destruct Hat as [Ha ?]. split_and!; [|done|done]. destruct Ha as (known & res & ->). apply answer_id.
  - intros Hc Hu. by apply (q_closed _ Hok Hc).
Qed.

(** Notifications are handled one at a time and in the order of their lines:
    when one is being handled or has been, all before it are done, and each is
    one of the notifications read. *)
Theorem notifications_in_wire_order s k k' n n' :
  reach s -> (k < k')%nat -> notes s !! k = Some n -> notes s !! k' = Some n' ->
  (n_line n < n_line n')%nat /\ (n_pc n' <> NQueued -> n_pc n = NDone) /\
  exists line, received s !! n_line n' = Some line /\ dispatch line = DoNotification (n_method n') (n_params n').
Proof.
  intros Hr Hlt Hk Hk'. pose proof (notes_inv _ Hr) as Hok. split_and!; [by eapply (o_sorted _ Hok)|by eapply (o_chain _ Hok)|by eapply (o_line _ Hok)].
Qed.

(** No call outlives the connection. From every closed connection the calls
    can all return by their own steps alone, whatever their states are. *)
Theorem closed_connections_let_calls_return s :
  closed s = true -> exists s', rtc step s s' /\ length (calls s') = length (calls s) /\ Forall returned (calls s').
Proof. apply closed_returns. Qed.
End props.

(** ** A concrete connection *)

Module Examples.
(** A toy format: a letter for the kind of the message, and its id. *)
Definition line (s : string) : bytes := list_ascii_of_string s.
Definition id_of (rest : bytes) : string := string_of_list_ascii (List.filter (fun c => negb (Ascii.eqb c NL)) rest).

#[local] Instance toy_codec : RpcCodec := {|
  fields_of b :=
    match b with
    | "R"%char :: rest => Some (Some {["id" := id_of rest; "result" := "1"]})
    | "Q"%char :: rest => Some (Some {["id" := id_of rest; "method" := "m"]})
    | "N"%char :: rest => Some (Some {["method" := "n"]})
    | _ => None
    end;
  envelope_of b :=
    match b with
    | "R"%char :: rest => Some (mkEnvelope "2.0" (id_of rest) None "")
    | "Q"%char :: rest => Some (mkEnvelope "2.0" (id_of rest) (Some "m") "{}")
    | "N"%char :: rest => Some (mkEnvelope "2.0" "" (Some "n") (id_of rest))
    | _ => None
    end;
  response_of b := match b with "R"%char :: rest => Some (mkResponse "2.0" (id_of rest) "1" None) | _ => None end;
  value_of _ := Some KNumber;
  marshal_request q := Some ("Q"%char :: line (ReqID q));
  marshal_response r := Some ("R"%char :: line (RespID r));
|}.

#[local] Abbreviation reach := (reachable initial (step 100)).

Definition s1 : conn := begin_call "m" (Some "{}") NewConn.
Definition c1 : call := mkCall "1" (Some (mkRequest "2.0" "1" "m" "{}")) None Registered 0.
Definition w1 : conn := (write 100 IoOk (FromCall 0) (Some (line "Q1")) s1).1.
Definition s2 : conn := with_calls (<[0%nat := set_call_pc Waiting c1]> (calls w1)) w1.
Definition s3 : conn := on_line (line "Q7" ++ [NL]) s2.
Definition s4 : conn := on_line (line "R1" ++ [NL]) s3.
Definition r1 : Response := mkResponse "2.0" "1" "1" None.
Definition c2 : call := set_call_pc Waiting c1.
Definition s5 : conn := with_reader RIdle (with_calls (<[0%nat := set_chan r1 c2]> (calls s4)) s4).
Definition c3 : call := set_chan r1 c2.
Definition s6 : conn := with_calls (<[0%nat := set_call_pc (Returned (Answered r1)) c3]> (calls s5)) s5.

(** A call is made and answered, with a request of the peer in between. *)
Lemma s6_reach : reach s6.
Proof.
  eapply reachable_step; [|by eapply (step_call_answered 100 s5 0 c3 r1); vm_compute].
  eapply reachable_step; [|by eapply (step_send 100 s4 0 r1 c2); vm_compute].
  eapply reachable_step; [|by eapply (step_line 100 s3); vm_compute].
  eapply reachable_step; [|by eapply (step_line 100 s2); vm_compute].
  eapply reachable_step; [|by eapply (step_call_write 100 s1 0 c1 (mkRequest "2.0" "1" "m" "{}") IoOk w1 true); vm_compute].
  eapply reachable_step; [|by eapply (step_call 100 NewConn); vm_compute].
  by apply reachable_init.
Qed.

Lemma responses_go_to_their_calls_witness : RespID r1 = "1" /\ answered_by s6 0 r1.
Proof.
  destruct (responses_go_to_their_calls 100 s6 0 (set_call_pc (Returned (Answered r1)) c3) s6_reach eq_refl) as [H1 _].
  destruct (H1 r1 eq_refl) as (H2 & H3 & _). split; [exact H2|exact H3].
Defined.

(** The request of the peer is handled and answered. *)
Definition q0 : request := mkReq "7" "m" "{}" false Starting.
Definition s7 : conn := with_requests (<[0%nat := set_req_pc (Running false) q0]> (requests s6)) s6.
Definition resp0 : Response := answer "7" "m" false HPanic.
Definition s8 : conn := with_requests (<[0%nat := set_req_pc (Writing resp0) q0]> (requests s7)) s7.
Definition w8 : conn := (write 100 IoOk (FromRequest 0) (Some (line "R7")) s8).1.
Definition s9 : conn := with_requests (<[0%nat := set_req_pc (Leaving resp0) q0]> (requests w8)) w8.

Lemma s9_reach : reach s9.
Proof.
  eapply reachable_step; [|by eapply (step_respond 100 s8 0 (set_req_pc (Writing resp0) q0) resp0 IoOk w8 true); vm_compute].
  eapply reachable_step; [|by eapply (step_handler 100 s7 0 (set_req_pc (Running false) q0) false HPanic); vm_compute].
  eapply reachable_step; [|by eapply (step_start 100 s6 0 q0); vm_compute].
  apply s6_reach.
Qed.

Lemma requests_are_answered_once_witness : responses 0 s9 = [line "R7" ++ [NL]] /\ asked s9 = [("7", "m", "{}")] /\ (length (responses 0 s9) <= 1)%nat.
Proof.
  destruct (requests_are_answered_once 100 s9 s9_reach) as [_ H1].
  destruct (H1 0%nat (set_req_pc (Leaving resp0) q0) eq_refl) as (H2 & _). split; [by vm_compute|]. split; [by vm_compute|exact H2].
Defined.

(** Two notifications. *)
Definition n1 : conn := with_notif ({["n"]} ∪ notif NewConn) NewConn.
Definition n2 : conn := on_line (line "Na" ++ [NL]) n1.
Definition n3 : conn := on_line (line "Nb" ++ [NL]) n2.

Lemma n3_reach : reach n3.
Proof.
  eapply reachable_step; [|by eapply (step_line 100 n2); vm_compute].
  eapply reachable_step; [|by eapply (step_line 100 n1); vm_compute].
  eapply reachable_step; [|by eapply (step_handle_notification 100 NewConn "n")].
  by apply reachable_init.
Qed.

Lemma notifications_in_wire_order_witness :
  notes n3 = [mkNote "n" "a" 0 NQueued; mkNote "n" "b" 1 NQueued] /\
  exists l, received n3 !! 1%nat = Some l /\ dispatch l = DoNotification "n" "b".
Proof.
  assert (E : notes n3 = [mkNote "n" "a" 0 NQueued; mkNote "n" "b" 1 NQueued]) by by vm_compute.
  split; [exact E|].
  destruct (notifications_in_wire_order 100 n3 0 1 (mkNote "n" "a" 0 NQueued) (mkNote "n" "b" 1 NQueued) n3_reach (le_n 1)) as (_ & _ & H3);
    [by rewrite E|by rewrite E|exact H3].
Defined.

(** The call is waiting when the connection is closed. *)
Lemma closed_connections_let_calls_return_witness :
  exists s', rtc (step 100) (closeWith s2) s' /\ length (calls s') = 1%nat /\ Forall returned (calls s').
Proof. exact (closed_connections_let_calls_return 100 (closeWith s2) eq_refl). Defined.
End Examples.
