(* ===== verification/AcpServer.v ===== *)
(** * ai-acp: the agent side and the client side of a connection

    server.go: prompts as threads over the server's table of cancel functions,
    with [cancelAll], [Start]'s watcher and [Close]; the other handlers as
    functions. client.go: the callbacks for updates and permissions. A
    parameter of a handler is the decoded request, [None] when it cannot be
    decoded; encoding/json is a class where an answer crosses the wire. *)

From S2P Require Import Prelude GoString JsonLines RpcFrame.
#[local] Open Scope string_scope.
#[local] Open Scope list_scope.

(** ** spec.go *)

Definition Version : Z := 1.
Definition StopEndTurn : string := "end_turn".

Record ContentBlock := mkBlock { BType : string; Text : string }.
Definition TextBlock (text : string) : ContentBlock := mkBlock "text" text.

Record PromptRequest := mkPromptRequest { PSession : string; Prompt : list ContentBlock }.
Record SessionInfo := mkInfo { ISession : string; Cwd : string; Title : string }.
Record SessionModeState := mkModes { CurrentModeID : string; AvailableModes : list string }.
Record PermissionOption := mkOption { OptionID : string; Kind : string }.
Record PermissionRequest := mkPermission { QSession : string; ToolCallID : string; Options : list PermissionOption }.
Record PermissionOutcome := mkOutcome { Outcome : string; Chosen : string }.

Definition SelectedPermissionOutcome (optionID : string) : PermissionOutcome := mkOutcome "selected" optionID.
Definition CancelledPermissionOutcome : PermissionOutcome := mkOutcome "cancelled" "".

(** ** server.go: the handlers *)

(** The error a handler returns: of the protocol, or another. *)
Inductive handler_error : Type :=
  | Rpc (code : Z) (message : string)
  | Plain (message : string).

(** The adapters of the application, [None] where there is none. *)
Record serverConfig := mkConfig {
  creator : option (string -> option handler_error);
  loader : option (string -> option handler_error);
  lister : option (Prelude.result handler_error (list SessionInfo));
  modes : option (option SessionModeState);
}.

(** [NewServer]: an adapter that was not set explicitly is the handler's own,
    if it has one. *)
Definition resolve_adapter {A} (explicit : option (option A)) (handler : option A) : option A :=
  match explicit with Some a => a | None => handler end.

Definition session_modes (c : serverConfig) : option SessionModeState :=
  match modes c with Some m => m | None => None end.

(** The version and whether sessions can be loaded. *)
Definition handleInitialize (c : serverConfig) (req : option unit) : Prelude.result handler_error (Z * bool) :=
  match req with
  | None => Err (Plain "acp: decode initialize")
  | Some _ => Ok (Version, match loader c with Some _ => true | None => false end)
  end.

(** [sid]: the new id. *)
Definition handleSessionNew (c : serverConfig) (sid : string) (req : option unit)
  : Prelude.result handler_error (string * option SessionModeState) :=
  match req with
  | None => Err (Plain "acp: decode session/new")
  | Some _ =>
      match creator c ≫= fun f => f sid with
      | Some e => Err e
      | None => Ok (sid, session_modes c)
      end
  end.

(** [params]: empty, [null], or a request that can be decoded or not. *)
Definition handleSessionList (c : serverConfig) (params : string) (req : option unit)
  : Prelude.result handler_error (list SessionInfo) :=
  match lister c with
  | None => Err (Rpc (-32000) "acp: session list not supported")
  | Some sessions =>
      if negb (is_null params) && match req with None => true | Some _ => false end
      then Err (Plain "acp: decode session/list")
      else sessions
  end.

Definition handleSessionLoad (c : serverConfig) (req : option string)
  : Prelude.result handler_error (option SessionModeState) :=
  match req with
  | None => Err (Plain "acp: decode session/load")
  | Some sid =>
      if String.eqb sid "" then Err (Plain "acp: session/load requires sessionId")
      else match loader c with
      | None => Err (Rpc (-32000) "acp: session load not supported")
      | Some f => match f sid with Some e => Err e | None => Ok (session_modes c) end
      end
  end.

(** ** Prompts *)

(** [PLeave]: the handler has returned, the deferred calls are to come;
    [PCounted]: the entry is gone, [prompts.Done] is to come. *)
Inductive prompt_pc : Type := PRunning | PLeave | PCounted | PEnded.

Record prompt := mkPrompt { p_session : string; p_cancelled : bool; p_pc : prompt_pc }.

Definition set_pc (pc : prompt_pc) (p : prompt) : prompt := mkPrompt (p_session p) (p_cancelled p) pc.
Definition cancel_prompt (p : prompt) : prompt := mkPrompt (p_session p) true (p_pc p).

(** The threads beside the prompts: [Start]'s watcher, a [Close], a
    [session/cancel] that has read the table. [Cancelling]: in [cancelAll], behind
    its critical section, with the cancel functions to call. *)
Inductive pc : Type :=
  | AtWatch
  | WatchCancelling (l : list nat)
  | WatchWaiting
  | WatchEnded
  | AtClose
  | CloseCancelling (l : list nat)
  | ClosePeer
  | CloseCheck
  | CloseEnded
  | AtCancel (sid : string)
  | CancelFound (sid : string) (i : nat)
  | CancelEnded.

Record server := mkServer {
  closed : bool;
  started : bool;
  cancels : gmap string nat;
  prompts : list prompt;
  peer_done : bool;
  done_ : bool;
  threads : gmap nat pc;
}.

Definition NewServer : server := mkServer false false ∅ [] false false ∅.

Definition with_prompts (ps : list prompt) (s : server) : server :=
  mkServer (closed s) (started s) (cancels s) ps (peer_done s) (done_ s) (threads s).
Definition with_cancels (cs : gmap string nat) (s : server) : server :=
  mkServer (closed s) (started s) cs (prompts s) (peer_done s) (done_ s) (threads s).
Definition with_thread (tid : nat) (c : pc) (s : server) : server :=
  mkServer (closed s) (started s) (cancels s) (prompts s) (peer_done s) (done_ s) (<[tid := c]> (threads s)).
Definition with_done (s : server) : server :=
  mkServer (closed s) (started s) (cancels s) (prompts s) (peer_done s) true (threads s).
Definition with_peer_done (s : server) : server :=
  mkServer (closed s) (started s) (cancels s) (prompts s) true (done_ s) (threads s).
Definition with_started (s : server) : server :=
  mkServer (closed s) true (cancels s) (prompts s) (peer_done s) (done_ s) (threads s).

(** [handlePrompt] before its handler. *)
Definition enter_prompt (req : option PromptRequest) (s : server) : server * Prelude.result handler_error nat :=
  match req with
  | None => (s, Err (Plain "acp: decode session/prompt"))
  | Some q =>
      if String.eqb (PSession q) "" || match Prompt q with [] => true | _ => false end
      then (s, Err (Plain "acp: session/prompt requires sessionId and prompt"))
      else if closed s then (s, Err (Plain "acp: connection closed"))
      else match cancels s !! PSession q with
      | Some _ => (s, Err (Rpc (-32000) "acp: session already has an active prompt"))
      | None =>
          let i := length (prompts s) in
          (with_cancels (<[PSession q := i]> (cancels s)) (with_prompts (prompts s ++ [mkPrompt (PSession q) false PRunning]) s), Ok i)
      end
  end.

(** What [handlePrompt] makes of the handler's result. *)
Definition prompt_response (res : Prelude.result handler_error string) : Prelude.result handler_error string :=
  match res with
  | Err e => Err e
  | Ok reason => Ok (if String.eqb reason "" then StopEndTurn else reason)
  end.

(** The critical section of [cancelAll]: the cancel functions it takes. *)
Definition cancelAll (s : server) : server * list nat :=
  if closed s then (s, [])
  else (mkServer true (started s) ∅ (prompts s) (peer_done s) (done_ s) (threads s), (map_to_list (cancels s)).*2).

(** [prompts.Wait] returns when every prompt has been counted down. *)
Definition all_ended (s : server) : Prop := Forall (fun p => p_pc p = PEnded) (prompts s).

(** A prompt comes from a connection that is served, so after [Start]. *)
Inductive step (s : server) : server -> Prop :=
  | step_start tid :
      started s = false -> threads s !! tid = None -> step s (with_thread tid AtWatch (with_started s))
  | step_peer_done : step s (with_peer_done s)
  | step_watch tid s' l :
      threads s !! tid = Some AtWatch -> peer_done s = true -> cancelAll s = (s', l) ->
      step s (with_thread tid (WatchCancelling l) s')
  | step_watch_cancel tid i l p :
      threads s !! tid = Some (WatchCancelling (i :: l)) -> prompts s !! i = Some p ->
      step s (with_thread tid (WatchCancelling l) (with_prompts (<[i := cancel_prompt p]> (prompts s)) s))
  | step_watch_wait tid :
      threads s !! tid = Some (WatchCancelling []) -> step s (with_thread tid WatchWaiting s)
  | step_watch_end tid :
      threads s !! tid = Some WatchWaiting -> all_ended s -> step s (with_thread tid WatchEnded (with_done s))
  | step_close_call tid :
      threads s !! tid = None -> step s (with_thread tid AtClose s)
  | step_close tid s' l :
      threads s !! tid = Some AtClose -> cancelAll s = (s', l) -> step s (with_thread tid (CloseCancelling l) s')
  | step_close_cancel tid i l p :
      threads s !! tid = Some (CloseCancelling (i :: l)) -> prompts s !! i = Some p ->
      step s (with_thread tid (CloseCancelling l) (with_prompts (<[i := cancel_prompt p]> (prompts s)) s))
  | step_close_cancelled tid :
      threads s !! tid = Some (CloseCancelling []) -> step s (with_thread tid ClosePeer s)
  | step_close_peer tid :
      threads s !! tid = Some ClosePeer -> step s (with_thread tid CloseCheck (with_peer_done s))
  | step_close_end tid :
      threads s !! tid = Some CloseCheck ->
      step s (with_thread tid CloseEnded (if started s then s else with_done s))
  | step_prompt req s' i :
      started s = true -> enter_prompt req s = (s', Ok i) -> step s s'
  (** The request's context is over: the connection closes. *)
  | step_prompt_ctx i p :
      prompts s !! i = Some p -> step s (with_prompts (<[i := cancel_prompt p]> (prompts s)) s)
  | step_prompt_return i p :
      prompts s !! i = Some p -> p_pc p = PRunning ->
      step s (with_prompts (<[i := set_pc PLeave p]> (prompts s)) s)
  | step_prompt_leave i p :
      prompts s !! i = Some p -> p_pc p = PLeave ->
      step s (with_cancels (delete (p_session p) (cancels s))
                (with_prompts (<[i := set_pc PCounted (cancel_prompt p)]> (prompts s)) s))
  | step_prompt_count i p :
      prompts s !! i = Some p -> p_pc p = PCounted ->
      step s (with_prompts (<[i := set_pc PEnded p]> (prompts s)) s)
  | step_cancel_call tid sid :
      threads s !! tid = None -> sid <> "" -> step s (with_thread tid (AtCancel sid) s)
  | step_cancel tid sid :
      threads s !! tid = Some (AtCancel sid) ->
      step s (with_thread tid (match cancels s !! sid with Some i => CancelFound sid i | None => CancelEnded end) s)
  | step_cancel_found tid sid i p :
      threads s !! tid = Some (CancelFound sid i) -> prompts s !! i = Some p ->
      step s (with_thread tid CancelEnded (with_prompts (<[i := cancel_prompt p]> (prompts s)) s)).

Definition initial (s : server) : Prop := s = NewServer.

(** ** Permissions *)

Class PermissionCodec := {
  marshal_outcome : PermissionOutcome -> option string;
  unmarshal_outcome : string -> option PermissionOutcome;
}.
Class PermissionLaws `{PermissionCodec} := {
  outcome_roundtrip o data : marshal_outcome o = Some data -> unmarshal_outcome data = Some o;
}.

(** [ClientCallbacks.OnPermission]. *)
Definition callback : Type := PermissionRequest -> option string.

(** [handlePermission]: [None] the request cannot be decoded. *)
Definition handlePermission (onPermission : option callback) (req : option PermissionRequest) : Prelude.result string PermissionOutcome :=
  match req with
  | None => Err "acp: decode request_permission"
  | Some q =>
      match onPermission with
      | None => Ok CancelledPermissionOutcome
      | Some f => match f q with None => Ok CancelledPermissionOutcome | Some id => Ok (SelectedPermissionOutcome id) end
      end
  end.

Inductive permission_error : Type := ErrPermissionUnsupported | ErrPermission (message : string).

(** What [Call] gives the server: an error of the peer with its code, another
    error, or the data of the response. *)
Inductive call_outcome : Type :=
  | CallRpc (code : Z) (message : string)
  | CallFailed (message : string)
  | CallData (data : string).

Section permission.
Context `{PermissionCodec}.

(** [RequestPermission], from the outcome of its call. *)
Definition RequestPermission (o : call_outcome) : Prelude.result permission_error string :=
  match o with
  | CallRpc code message => if (code =? CodeMethodNotFound)%Z then Err ErrPermissionUnsupported else Err (ErrPermission message)
  | CallFailed message => Err (ErrPermission message)
  | CallData data =>
      match unmarshal_outcome data with
      | None => Err (ErrPermission "acp: request permission")
      | Some r => if negb (String.eqb (Outcome r) "selected") then Ok "" else Ok (Chosen r)
      end
  end.

(** The client's answer as the server's call sees it, as long as the connection
    lasts. *)
Definition answer_permission (cb : option callback) (req : option PermissionRequest) : call_outcome :=
  match handlePermission cb req with
  | Err message => CallRpc CodeInternalError message
  | Ok o => match marshal_outcome o with Some data => CallData data | None => CallRpc CodeInternalError "marshal result" end
  end.
End permission.

(** ** client.go: sessions *)

(** [NewSessionWithRequest], from the response's id. *)
Definition NewSessionWithRequest (resp : Prelude.result string string) : Prelude.result string string :=
  match resp with
  | Err e => Err e
  | Ok sid => if String.eqb sid "" then Err "acp: agent returned empty sessionId" else Ok sid
  end.

(** [LoadSession]: the id is the requested one. *)
Definition LoadSession (sid : string) (resp : Prelude.result string unit) : Prelude.result string string :=
  if String.eqb sid "" then Err "acp: session/load requires sessionId"
  else match resp with Err e => Err e | Ok _ => Ok sid end.
