(* ===== verification/AcpServerProps.v ===== *)
(** * The ACP server: prompts, stopping, permissions *)

From S2P Require Import Prelude GoString JsonLines RpcFrame AcpServer.
#[local] Open Scope string_scope.
#[local] Open Scope list_scope.

#[local] Abbreviation reach := (reachable initial step).

(** ** The invariant *)

(** The prompt has its entry, as long as the server is open. *)
Definition active (p : prompt) : Prop := p_pc p = PRunning \/ p_pc p = PLeave.

Definition cancelling (c : pc) : list nat :=
  match c with WatchCancelling l | CloseCancelling l => l | _ => [] end.

(** Threads that are behind a [cancelAll]. *)
Definition behind_close (c : pc) : bool :=
  match c with
  | WatchCancelling _ | WatchWaiting | WatchEnded | CloseCancelling _ | ClosePeer | CloseCheck | CloseEnded => true
  | _ => false
  end.

Definition thread_ok (s : server) (c : pc) : Prop :=
  (behind_close c = true -> closed s = true) /\
  match c with
  | CancelFound sid i => exists p, prompts s !! i = Some p /\ p_session p = sid
  | WatchEnded => all_ended s
  | _ => True
  end.

Record ok (s : server) : Prop := {
  o_entry : forall sid i, cancels s !! sid = Some i -> exists p, prompts s !! i = Some p /\ p_session p = sid /\ active p;
  o_active : forall i p, prompts s !! i = Some p -> active p ->
    if closed s then p_cancelled p = true \/ exists tid c, threads s !! tid = Some c /\ i ∈ cancelling c
    else cancels s !! p_session p = Some i;
  o_closed : closed s = true -> cancels s = ∅;
  o_unique : forall i j p q, prompts s !! i = Some p -> prompts s !! j = Some q -> active p -> active q -> p_session p = p_session q -> i = j;
  o_started : started s = false -> prompts s = [];
  o_done : done_ s = true -> closed s = true /\ all_ended s;
  o_threads : forall tid c, threads s !! tid = Some c -> thread_ok s c;
}.

Lemma ok_initial s : initial s -> ok s.
Proof. intros ->. split; cbn; try done; intros; by rewrite ?lookup_empty, ?lookup_nil in *. Qed.

(** A change of one prompt that neither starts it nor renames it. *)
Definition advances (p p' : prompt) : Prop :=
  p_session p' = p_session p /\ (active p' -> active p) /\ (p_cancelled p = true -> p_cancelled p' = true) /\ (p_pc p = PEnded -> p_pc p' = PEnded).

Lemma all_ended_advance ps i p p' :
  ps !! i = Some p -> advances p p' -> Forall (fun p => p_pc p = PEnded) ps -> Forall (fun p => p_pc p = PEnded) (<[i := p']> ps).
Proof.
  intros Hi (_ & _ & _ & Ha) Hf. apply Forall_insert; [done|]. apply Ha. by eapply (Forall_lookup_1 _ _ _ _ Hf).
Qed.

Lemma lookup_advance (ps : list prompt) i p p' j q :
  ps !! i = Some p -> <[i := p']> ps !! j = Some q -> (j = i /\ q = p') \/ ps !! j = Some q.
Proof. intros Hi [(<- & <- & _)|[_ ?]]%list_lookup_insert_Some; auto. Qed.

(** The threads stay right when a prompt advances. *)
Lemma thread_advance s i p p' c :
  prompts s !! i = Some p -> advances p p' -> thread_ok s c -> thread_ok (with_prompts (<[i := p']> (prompts s)) s) c.
Proof.
  intros Hi Ha [Hb Hc]. split; [done|]. destruct c; cbn in *; try done; [by eapply all_ended_advance|].
  destruct Hc as (q & Hq & Hs). destruct (decide (i = i0)) as [<- |].
  - rewrite list_lookup_insert_eq by by eapply lookup_lt_Some. exists p'. split; [done|]. destruct Ha as [-> _]. congruence.
  - rewrite list_lookup_insert_ne by done. eauto.
Qed.

(** A prompt advances that keeps its entry, or whose entry is dropped. *)
Lemma ok_advance s i p p' cs :
  ok s -> prompts s !! i = Some p -> advances p p' ->
  (forall sid, cs !! sid = Some i -> active p') ->
  (forall sid j, cs !! sid = Some j -> cancels s !! sid = Some j) ->
  (closed s = false -> forall sid j, cancels s !! sid = Some j -> (j = i -> active p') -> cs !! sid = Some j) ->
  ok (with_cancels cs (with_prompts (<[i := p']> (prompts s)) s)).
Proof.
  intros [O1 O2 O3 O4 O5 O6 O7] Hi Ha Hcs Hsub Hkeep. pose proof Ha as (Hs & Hact & Hcan & Hend). split; cbn.
  - intros sid j Hj. destruct (O1 _ _ (Hsub _ _ Hj)) as (q & Hq & Hqs & Hqa). destruct (decide (j = i)) as [-> |].
    + rewrite list_lookup_insert_eq by by eapply lookup_lt_Some. exists p'. split_and!; [done| |by eapply Hcs]. congruence.
    + rewrite list_lookup_insert_ne by done. eauto.
  - intros j q Hj Hq. destruct (lookup_advance _ _ _ _ _ _ Hi Hj) as [[-> ->]|Hj'].
    + specialize (O2 _ _ Hi (Hact Hq)). destruct (closed s); [destruct O2; auto|].
      rewrite Hs. apply Hkeep; [done..|]. auto.
    + specialize (O2 _ _ Hj' Hq). destruct (closed s); [done|]. apply Hkeep; [done..|]. intros ->.
      rewrite list_lookup_insert_eq in Hj by (by eapply lookup_lt_Some). by injection Hj as ->.
  - intros Hc. apply map_eq. intros sid. rewrite lookup_empty. destruct (cs !! sid) as [j|] eqn:E; [|done].
    specialize (Hsub _ _ E). by rewrite (O3 Hc) in Hsub.
  - intros j k q r Hj Hk Hq Hr E.
    destruct (lookup_advance _ _ _ _ _ _ Hi Hj) as [[-> ->]|Hj'], (lookup_advance _ _ _ _ _ _ Hi Hk) as [[-> ->]|Hk']; [done|..].
    + apply (O4 i k p r Hi Hk' (Hact Hq) Hr). congruence.
    + apply (O4 j i q p Hj' Hi Hq (Hact Hr)). congruence.
    + by apply (O4 j k q r).
  - intros Hst. rewrite (O5 Hst) in Hi. done.
  - intros Hd. destruct (O6 Hd). split; [done|]. by eapply all_ended_advance.
  - intros tid c Ht. apply (thread_advance s i p); [done..|]. by eapply O7.
Qed.

Lemma ok_advance_same s i p p' :
  ok s -> prompts s !! i = Some p -> advances p p' -> (active p -> active p') -> ok (with_prompts (<[i := p']> (prompts s)) s).
Proof.
  intros Hok Hi Ha Hact. change (ok (with_cancels (cancels s) (with_prompts (<[i := p']> (prompts s)) s))).
  apply (ok_advance _ _ p); auto. intros sid Hs. destruct (o_entry _ Hok _ _ Hs) as (q & Hq & _ & Hqa).
  rewrite Hi in Hq. injection Hq as <-. auto.
Qed.

(** A thread moves. *)
Lemma ok_thread s tid c :
  ok s -> (forall i, i ∈ default [] (cancelling <$> threads s !! tid) -> i ∈ cancelling c \/ exists p, prompts s !! i = Some p /\ p_cancelled p = true) ->
  thread_ok s c -> ok (with_thread tid c s).
Proof.
  intros [O1 O2 O3 O4 O5 O6 O7] Hl Hc. split; cbn; auto.
  - intros i p Hi Ha. specialize (O2 _ _ Hi Ha). destruct (closed s); [|done]. destruct O2 as [O2|(t & d & Ht & Hin)]; [by left|].
    destruct (decide (t = tid)) as [-> |].
    + rewrite Ht in Hl. cbn in Hl. destruct (Hl _ Hin) as [|(q & Hq & ?)]; [right; exists tid, c; by rewrite lookup_insert_eq|left; congruence].
    + right. exists t, d. by rewrite lookup_insert_ne.
  - intros t d. destruct (decide (t = tid)) as [-> |]; [rewrite lookup_insert_eq; by intros [= <-]|].
    rewrite lookup_insert_ne by done. apply O7.
Qed.

(** [cancelAll]: who has an entry is in the list. *)
Lemma ok_cancelAll s s' l tid c :
  ok s -> cancelAll s = (s', l) -> cancelling c = l -> thread_ok s' c ->
  default [] (cancelling <$> threads s !! tid) = [] -> ok (with_thread tid c s').
Proof.
  unfold cancelAll. intros Hok. destruct (closed s) eqn:Hcl; intros [= <- <-] Hc Ht Hn.
  - apply ok_thread; [done| |done]. rewrite Hn. intros i Hin. by apply not_elem_of_nil in Hin.
  - destruct Hok as [O1 O2 O3 O4 O5 O6 O7]. split; cbn; try done.
    + intros i p Hi Ha. right. specialize (O2 _ _ Hi Ha). rewrite Hcl in O2. exists tid, c. rewrite lookup_insert_eq, Hc. split; [done|].
      apply list_elem_of_fmap. exists (p_session p, i). split; [done|]. by apply elem_of_map_to_list.
    + intros Hd. destruct (O6 Hd). congruence.
    + intros t d. destruct (decide (t = tid)) as [-> |]; [rewrite lookup_insert_eq; by intros [= <-]|].
      rewrite lookup_insert_ne by done. intros Hd. destruct (O7 _ _ Hd) as [Hb Hd']. split; [done|exact Hd'].
Qed.

Lemma ok_enter req s s' i : ok s -> started s = true -> enter_prompt req s = (s', Ok i) -> ok s'.
Proof.
  intros [O1 O2 O3 O4 O5 O6 O7] Hst. unfold enter_prompt. destruct req as [q|]; [|done].
  destruct (_ || _); [done|]. destruct (closed s) eqn:Hcl; [done|]. destruct (cancels s !! PSession q) eqn:E; [done|]. intros [= <- <-].
  assert (Hn : forall j p, prompts s !! j = Some p -> active p -> p_session p <> PSession q).
  { intros j p Hj Ha Hs. specialize (O2 _ _ Hj Ha). rewrite Hs in O2. congruence. }
  assert (Hnew : forall j p, (prompts s ++ [mkPrompt (PSession q) false PRunning]) !! j = Some p ->
    prompts s !! j = Some p \/ j = length (prompts s) /\ p = mkPrompt (PSession q) false PRunning).
  { intros j p [?|[Hge Hj]]%lookup_app_Some; [by left|]. apply list_lookup_singleton_Some in Hj as [? <-]. right. split; [lia|done]. }
  split; cbn; rewrite ?Hcl; try done.
  - intros sid j [[<- <-]|[Hne Hj]]%lookup_insert_Some.
    + eexists. rewrite lookup_app_r, Nat.sub_diag by lia. split_and!; [done..|by left].
    + destruct (O1 _ _ Hj) as (p & Hp & Hs). exists p. split; [by apply lookup_app_l_Some|done].
  - intros j p [Hj|[-> ->]]%Hnew Ha; [|apply lookup_insert_eq]. rewrite lookup_insert_ne; [by apply O2|].
    intros Hs. by destruct (Hn _ _ Hj Ha).
  - intros j k p r [Hj|[-> ->]]%Hnew [Hk|[-> ->]]%Hnew Ha Hb Hs; [by eapply O4| | |done].
    + by destruct (Hn _ _ Hj Ha).
    + by destruct (Hn _ _ Hk Hb).
  - congruence.
  - intros Hd. destruct (O6 Hd). congruence.
  - intros t c Ht. destruct (O7 _ _ Ht) as [Hb Hc]. split; [done|]. destruct c; cbn in *; try done.
    + exfalso. specialize (Hb eq_refl). congruence.
    + destruct Hc as (p & Hp & Hs). exists p. split; [by apply lookup_app_l_Some|done].
Qed.

Lemma cancel_advances p : advances p (cancel_prompt p).
Proof. by split_and!. Qed.

Lemma ok_cancel s i p : ok s -> prompts s !! i = Some p -> ok (with_prompts (<[i := cancel_prompt p]> (prompts s)) s).
Proof. intros Hok Hi. apply (ok_advance_same _ _ p); [done..|apply cancel_advances|done]. Qed.

(** One of the cancel functions is called. *)
Lemma ok_cancel_next s tid i l p c c' :
  ok s -> threads s !! tid = Some c -> cancelling c = i :: l -> cancelling c' = l -> behind_close c = true ->
  match c' with CancelFound _ _ | WatchEnded => False | _ => True end ->
  prompts s !! i = Some p -> ok (with_thread tid c' (with_prompts (<[i := cancel_prompt p]> (prompts s)) s)).
Proof.
  intros Hok Ht Hc Hc' Hb Hsimple Hi. apply ok_thread; [by apply ok_cancel| |].
  - cbn. rewrite Ht. cbn. rewrite Hc, Hc'. intros j [-> |Hj]%elem_of_cons; [right|by left].
    exists (cancel_prompt p). split; [|done]. apply list_lookup_insert_eq. by eapply lookup_lt_Some.
  - destruct (o_threads _ Hok _ _ Ht) as [Hcl _]. split; cbn; [auto|]. by destruct c'.
Qed.

Lemma ok_move s tid c c' :
  ok s -> threads s !! tid = Some c -> cancelling c = [] -> thread_ok s c' -> ok (with_thread tid c' s).
Proof. intros Hok Ht Hc Hc'. apply ok_thread; [done| |done]. rewrite Ht. cbn. rewrite Hc. intros i Hin. by apply not_elem_of_nil in Hin. Qed.

Lemma ok_spawn s tid c : ok s -> threads s !! tid = None -> thread_ok s c -> ok (with_thread tid c s).
Proof. intros Hok Ht Hc. apply ok_thread; [done| |done]. rewrite Ht. intros i Hin. by apply not_elem_of_nil in Hin. Qed.

(** The flags. *)
Lemma ok_peer_done s : ok s -> ok (with_peer_done s).
Proof. intros [O1 O2 O3 O4 O5 O6 O7]. by split. Qed.

Lemma ok_started s : ok s -> ok (with_started s).
Proof. intros [O1 O2 O3 O4 O5 O6 O7]. by split. Qed.

Lemma ok_done s : ok s -> closed s = true -> all_ended s -> ok (with_done s).
Proof. intros [O1 O2 O3 O4 O5 O6 O7] Hc Ha. by split. Qed.

Lemma ok_step s s' : ok s -> step s s' -> ok s'.
Proof.
  intros Hok Hst. destruct Hst as [tid Hs Ht| |tid s' l Ht Hp Hc|tid i l p Ht Hi|tid Ht|tid Ht Ha|tid Ht|tid s' l Ht Hc
    |tid i l p Ht Hi|tid Ht|tid Ht|tid Ht|req s' i Hst He|i p Hi|i p Hi Hpc|i p Hi Hpc|i p Hi Hpc|tid sid Ht Hsid|tid sid Ht|tid sid i p Ht Hi].
  - apply ok_spawn; [by apply ok_started|done|by split].
  - by apply ok_peer_done.
  - assert (Hcl : closed s' = true) by (unfold cancelAll in Hc; destruct (closed s) eqn:E; by injection Hc as <- _).
    eapply ok_cancelAll; [done|exact Hc|done|by split|by rewrite Ht].
  - by eapply ok_cancel_next.
  - eapply ok_move; [done..|]. destruct (o_threads _ Hok _ _ Ht) as [Hcl _]. split; [auto|done].
  - destruct (o_threads _ Hok _ _ Ht) as [Hcl _]. specialize (Hcl eq_refl).
    eapply ok_move; [by apply ok_done|done|done|by split].
  - apply ok_spawn; [done..|by split].
  - assert (Hcl : closed s' = true) by (unfold cancelAll in Hc; destruct (closed s) eqn:E; by injection Hc as <- _).
    eapply ok_cancelAll; [done|exact Hc|done|by split|by rewrite Ht].
  - by eapply ok_cancel_next.
  - eapply ok_move; [done..|]. destruct (o_threads _ Hok _ _ Ht) as [Hcl _]. split; [auto|done].
  - destruct (o_threads _ Hok _ _ Ht) as [Hcl _]. eapply ok_move; [by apply ok_peer_done|done|done|]. split; [auto|done].
  - destruct (o_threads _ Hok _ _ Ht) as [Hcl _]. specialize (Hcl eq_refl). destruct (started s) eqn:Hs.
    + eapply ok_move; [done..|by split].
    + eapply ok_move; [apply ok_done; [done..|]|done|done|by split]. unfold all_ended. by rewrite (o_started _ Hok Hs).
  - by eapply ok_enter.
  - by apply ok_cancel.
  - apply (ok_advance_same _ _ p); [done..| |].
    + split_and!; try done; [by intros _; left|by rewrite Hpc].
    + by right.
  - apply (ok_advance _ _ p); [done..| | | |].
    + split_and!; try done; [by intros [|]|by rewrite Hpc].
    + intros sid Hs. exfalso. apply lookup_delete_Some in Hs as [Hne Hs].
      destruct (o_entry _ Hok _ _ Hs) as (q & Hq & Hqs & _). congruence.
    + intros sid j Hs. by apply lookup_delete_Some in Hs as [_ Hs].
    + intros Hcl sid j Hs Hne. rewrite lookup_delete_ne; [done|]. intros <-.
      pose proof (o_active _ Hok _ _ Hi (or_intror Hpc)) as Hact. rewrite Hcl in Hact.
      assert (j = i) as -> by congruence. by destruct (Hne eq_refl).
  - apply (ok_advance_same _ _ p); [done..| |].
    + split_and!; try done. by intros [|].
    + intros [Ha|Ha]; congruence.
  - apply ok_spawn; [done..|by split].
  - eapply ok_move; [done..|]. destruct (cancels s !! sid) as [i|] eqn:E; (split; [done|]); [|done].
    destruct (o_entry _ Hok _ _ E) as (p & Hp & Hs & _). eauto.
  - eapply ok_move; [by apply ok_cancel|done|done|by split].
Qed.

Lemma ok_reachable s : reach s -> ok s.
Proof. apply reachable_invariant; [apply ok_initial|apply ok_step]. Qed.

(** Prompts exclude each other and cancellations find theirs. At every moment
    a session has one active prompt at most; a [session/cancel] that has found a
    cancel function has found that of a prompt of its own session; and once the
    server is closed every active prompt has been cancelled, or a thread is about
    to cancel it. *)
Theorem prompts_are_exclusive s :
  reach s ->
  (forall i j p q, prompts s !! i = Some p -> prompts s !! j = Some q -> active p -> active q -> p_session p = p_session q -> i = j) /\
  (forall tid sid i, threads s !! tid = Some (CancelFound sid i) -> exists p, prompts s !! i = Some p /\ p_session p = sid) /\
  (closed s = true -> forall i p, prompts s !! i = Some p -> active p ->
    p_cancelled p = true \/ exists tid c, threads s !! tid = Some c /\ i ∈ cancelling c).
Proof.
  intros Hr. pose proof (ok_reachable _ Hr) as Hok. split_and!.
  - apply (o_unique _ Hok).
  - intros tid sid i Ht. by destruct (o_threads _ Hok _ _ Ht) as [_ Hc].
  - intros Hc i p Hi Ha. pose proof (o_active _ Hok _ _ Hi Ha) as Ho. by rewrite Hc in Ho.
Qed.

(** A server that is done is done for good. *)
Lemma done_step s s' : ok s -> done_ s = true -> step s s' -> done_ s' = true /\ length (prompts s') = length (prompts s).
Proof.
  intros Hok Hd Hst. destruct (o_done _ Hok Hd) as [Hcl Ha].
  assert (Hca : forall s1 l, cancelAll s = (s1, l) -> done_ s1 = true /\ length (prompts s1) = length (prompts s)).
  { unfold cancelAll. rewrite Hcl. by intros s1 l [= <- _]. }
  destruct Hst as [| |tid s' l Ht Hp Hc| | | | |tid s' l Ht Hc| | | | |req s' i _ He| | | | | | | ]; cbn; rewrite ?length_insert; auto.
  - by eapply Hca.
  - by eapply Hca.
  - by destruct (started s).
  - exfalso. unfold enter_prompt in He. rewrite Hcl in He. destruct req; [|done]. by destruct (_ || _).
Qed.

(** Done comes after the last prompt. When the server reports that it is done,
    it is closed, every prompt it ever accepted has ended, and from then on it
    accepts none. *)
Theorem done_after_the_last_prompt s s' :
  reach s -> done_ s = true -> rtc step s s' ->
  closed s = true /\ all_ended s /\ all_ended s' /\ length (prompts s') = length (prompts s).
Proof.
  intros Hr Hd Hst. destruct (o_done _ (ok_reachable _ Hr) Hd) as [Hc Ha].
  split; [exact Hc|]. split; [exact Ha|]. split.
  - assert (H : ok s' /\ done_ s' = true); [|by apply (o_done _ (proj1 H)), H].
    refine (rtc_invariant step (fun s => ok s /\ done_ s = true) _ _ _ Hst _).
    + intros a b [Hok Hda] Hab. split; [by eapply ok_step|by eapply done_step].
    + split; [by apply ok_reachable|done].
  - pose proof (ok_reachable _ Hr) as Hok. clear Hr Ha Hc. induction Hst as [|a b c Hab _ IH]; [done|].
    destruct (done_step _ _ Hok Hd Hab) as [Hdb E]. rewrite IH; [done..|by eapply ok_step].
Qed.

(** ** Permissions across the wire *)

(** A permission is the client's choice. As long as the connection lasts and
    the answer can be written, what the agent's side is told is the option the
    client's callback chose, and a denial (the empty option) if there is no
    callback or it fails; a request that cannot be read is an error, and never a
    permission. *)
Theorem permission_is_the_clients_choice `{PermissionLaws} cb req :
  (forall o, is_Some (marshal_outcome o)) ->
  RequestPermission (answer_permission cb req) =
    match req with
    | None => Err (ErrPermission "acp: decode request_permission")
    | Some q => Ok (default "" (cb ≫= fun f => f q))
    end.
Proof.
  intros Hm. assert (E : forall o, RequestPermission (match marshal_outcome o with Some d => CallData d | None => CallRpc CodeInternalError "marshal result" end)
    = if negb (String.eqb (Outcome o) "selected") then Ok "" else Ok (Chosen o)).
  { intros o. destruct (Hm o) as [d Hd]. rewrite Hd. cbn. by rewrite (outcome_roundtrip _ _ Hd). }
  unfold answer_permission. destruct req as [q|]; [|done]. destruct cb as [f|]; cbn [handlePermission].
  - cbn. destruct (f q); by rewrite E.
  - by rewrite E.
Qed.

(** ** A concrete server *)

Module Examples.
Definition hello : PromptRequest := mkPromptRequest "s1" [TextBlock "hello"].

(** Started, one prompt entered, then a [Close] with its cancellation. *)
Definition s1 : server := with_thread 0 AtWatch (with_started NewServer).
Definition s2 : server := (enter_prompt (Some hello) s1).1.
Definition s3 : server := with_thread 1 AtClose s2.
Definition s4 : server := with_thread 1 (CloseCancelling [0%nat]) (cancelAll s3).1.

Lemma s2_reachable : reach s2.
Proof.
  apply (reachable_step _ _ s1); [apply (reachable_step _ _ NewServer); [by apply reachable_init|by apply (step_start _ 0)]|].
  by apply (step_prompt _ (Some hello) _ 0).
Qed.

Lemma s4_reachable : reach s4.
Proof.
  apply (reachable_step _ _ s3); [apply (reachable_step _ _ s2); [apply s2_reachable|by apply (step_close_call _ 1)]|].
  by apply (step_close s3 1 (cancelAll s3).1 [0%nat]).
Qed.

Lemma prompts_are_exclusive_witness :
  (enter_prompt (Some hello) s2).2 = Err (Rpc (-32000) "acp: session already has an active prompt") /\
  (p_cancelled (mkPrompt "s1" false PRunning) = true \/ exists tid c, threads s4 !! tid = Some c /\ 0%nat ∈ cancelling c).
Proof.
  split; [by vm_compute|]. destruct (prompts_are_exclusive s4 s4_reachable) as (_ & _ & Hc).
  apply (Hc eq_refl 0%nat); [reflexivity|by left].
Defined.

(** A server closed before it was started. *)
Definition d1 : server := with_thread 0 AtClose NewServer.
Definition d2 : server := with_thread 0 (CloseCancelling []) (cancelAll d1).1.
Definition d3 : server := with_thread 0 ClosePeer d2.
Definition d4 : server := with_thread 0 CloseCheck (with_peer_done d3).
Definition d5 : server := with_thread 0 CloseEnded (with_done d4).

Lemma d5_reachable : reach d5.
Proof.
  apply (reachable_step _ _ d4); [|by apply (step_close_end d4 0)].
  apply (reachable_step _ _ d3); [|by apply (step_close_peer d3 0)].
  apply (reachable_step _ _ d2); [|by apply (step_close_cancelled d2 0)].
  apply (reachable_step _ _ d1); [|by apply (step_close d1 0 (cancelAll d1).1 [])].
  apply (reachable_step _ _ NewServer); [by apply reachable_init|by apply (step_close_call _ 0)].
Qed.

Lemma done_after_the_last_prompt_witness : closed d5 = true /\ all_ended (with_peer_done d5).
Proof.
  destruct (done_after_the_last_prompt d5 (with_peer_done d5) d5_reachable eq_refl) as (Hc & _ & Ha & _); [|by split].
  eapply rtc_l; [apply step_peer_done|apply rtc_refl].
Defined.

(** A format for the outcomes. *)
#[local] Instance pair_codec : JsonCodec (string * string) := countable_codec (string * string).
#[local] Instance pair_laws : JsonLaws (string * string) := countable_codec_laws (string * string).
#[local] Instance toy : PermissionCodec := {|
  marshal_outcome o := string_of_list_ascii <$> marshal (Outcome o, Chosen o);
  unmarshal_outcome d := (fun x => mkOutcome x.1 x.2) <$> unmarshal (list_ascii_of_string d);
|}.
#[local] Instance toy_laws : PermissionLaws.
Proof.
  split. intros o data. cbn [marshal_outcome unmarshal_outcome toy].
  destruct (marshal (Outcome o, Chosen o)) as [b|] eqn:E; [|done]. cbn [fmap option_fmap option_map]. intros [= <-].
  rewrite list_ascii_of_string_of_list_ascii, (unmarshal_marshal _ _ E). by destruct o.
Qed.

Definition pick : callback := fun q => OptionID <$> head (Options q).
Definition ask : PermissionRequest := mkPermission "s1" "call-1" [mkOption "allow_once" "allow_once"].

Lemma permission_is_the_clients_choice_witness :
  RequestPermission (answer_permission (Some pick) (Some ask)) = Ok "allow_once" /\
  RequestPermission (answer_permission None (Some ask)) = Ok "".
Proof.
  assert (Hm : forall o, is_Some (marshal_outcome o)) by (intros o; by eexists).
  by rewrite !(permission_is_the_clients_choice _ _ Hm).
Defined.

(** A [session/cancel] can overtake its prompt: both are handled by goroutines of
    their own, and a cancellation that finds no entry has no effect on a prompt
    that enters behind it. *)
Definition c1 : server := with_thread 1 (AtCancel "s1") s1.
Definition c2 : server := with_thread 1 CancelEnded c1.
Definition c3 : server := (enter_prompt (Some hello) c2).1.

Lemma a_cancel_can_overtake_its_prompt :
  reach c3 /\ prompts c3 = [mkPrompt "s1" false PRunning] /\ threads c3 !! 1%nat = Some CancelEnded.
Proof.
  split; [|by vm_compute].
  apply (reachable_step _ _ c2); [|by apply (step_prompt _ (Some hello) _ 0)].
  apply (reachable_step _ _ c1); [|by apply (step_cancel c1 1 "s1")].
  apply (reachable_step _ _ s1); [|by apply (step_cancel_call s1 1 "s1")].
  apply (reachable_step _ _ NewServer); [by apply reachable_init|by apply (step_start _ 0)].
Qed.
End Examples.
