(* ===== verification/DispatchStore.v ===== *)
(** * ai-dispatch/task/store.go: the task snapshot store

    The store appends one JSON snapshot per line and keeps the latest snapshot
    of every task in memory. The in-memory map holds private copies
    ([snapshot := *t]), so a value map is faithful. The caller's task is
    mutated through its pointer, hence [Add] and [Update] also return it. *)

From S2P Require Import Prelude JsonLines DispatchTask.
Import Task.
#[local] Open Scope string_scope.
#[local] Open Scope list_scope.

Module Store.

(** [scanner.Buffer(_, 16*1024*1024)]. *)
Definition max_token : Z := 16 * 1024 * 1024.

Inductive store_error : Type :=
  | ErrEmptyID
  | ErrDuplicateID (id : string)
  | ErrNotQueued (s : Status)
  | ErrInvalidKind (k : Kind)
  | ErrUnknownID (id : string)
  | ErrMarshal
  | ErrAppend
  | ErrTooLong.

Section Store.
Context `{JsonCodec Task}.

Record Store := mkStore {
  file : bytes;
  tasks : gmap string Task;
  order : list string;
}.

(** The bookkeeping shared by [replay] and [appendLocked]. *)
Definition remember (t : Task) (m : gmap string Task) (o : list string) :
    gmap string Task * list string :=
  (<[ID t := t]> m, match m !! ID t with Some _ => o | None => o ++ [ID t] end).

(** One scanned line of [replay]: blank and undecodable lines are skipped. *)
Definition replay_line (st : gmap string Task * list string) (line : bytes) :
    gmap string Task * list string :=
  match line with
  | [] => st
  | _ =>
      match unmarshal line with
      | None => st
      | Some t => if String.eqb (ID t) "" then st else remember t st.1 st.2
      end
  end.

Definition replay_tokens (toks : list bytes) : gmap string Task * list string :=
  foldl replay_line (∅, []) toks.

Definition replay (content : bytes) : result store_error (gmap string Task * list string) :=
  let '(toks, ok) := scan_lines max_token content in
  if ok then Ok (replay_tokens toks) else Err ErrTooLong.

(** [Open(path)]: [None] is a missing file, which is created empty. *)
Definition Open (content : option bytes) : result store_error Store :=
  let c := default [] content in
  st ← replay c; Ok (mkStore c st.1 st.2).

Definition appendLocked (w : write_result) (t : Task) (s : Store) :
    Store * option store_error :=
  match marshal t with
  | None => (s, Some ErrMarshal)
  | Some data =>
      let '(f, ok) := file_write w (file s) (data ++ [NL]) in
      if ok then
        let '(m, o) := remember t (tasks s) (order s) in (mkStore f m o, None)
      else (mkStore f (tasks s) (order s), Some ErrAppend)
  end.

(** [Add(t)]: the (possibly stamped) task, the store, the error. *)
Definition Add (now : Time) (w : write_result) (t : Task) (s : Store) :
    Task * Store * option store_error :=
  if String.eqb (ID t) "" then (t, s, Some ErrEmptyID)
  else if decide (is_Some (tasks s !! ID t)) then (t, s, Some (ErrDuplicateID (ID t)))
  else if negb (String.eqb (TStatus t) StatusQueued) then (t, s, Some (ErrNotQueued (TStatus t)))
  else if negb (ValidKind (TKind t)) then (t, s, Some (ErrInvalidKind (TKind t)))
  else
    let t := if IsZero (CreatedAt t) then set_CreatedAt now t else t in
    let t := if IsZero (UpdatedAt t) then set_UpdatedAt (CreatedAt t) t else t in
    let '(s', e) := appendLocked w t s in (t, s', e).

Definition Update (now : Time) (w : write_result) (t : Task) (s : Store) :
    Task * Store * option store_error :=
  if decide (is_Some (tasks s !! ID t)) then
    let t := set_UpdatedAt now t in
    let '(s', e) := appendLocked w t s in (t, s', e)
  else (t, s, Some (ErrUnknownID (ID t))).

Definition Get (id : string) (s : Store) : option Task := tasks s !! id.

(** [List]: a dangling id in [order] would be a nil dereference ([None]). *)
Definition List (s : Store) : option (list Task) := mapM (fun id => tasks s !! id) (order s).

(** ** Invariant *)

(** [order] lists each key of [tasks] once, and a snapshot is stored under its
    own non-empty id. *)
Record wf (m : gmap string Task) (o : list string) : Prop := {
  wf_order : forall id, id ∈ o <-> is_Some (m !! id);
  wf_nodup : NoDup o;
  wf_key : forall id t, m !! id = Some t -> ID t = id /\ id <> "";
}.

Lemma wf_empty : wf ∅ [].
Proof.
  split; [|constructor|done].
  intros id. rewrite elem_of_nil, lookup_empty. split; [done|by intros []].
Qed.

Lemma remember_wf t m o :
  wf m o -> ID t <> "" -> wf (remember t m o).1 (remember t m o).2.
Proof.
  intros [Ho Hn Hk] Hid. unfold remember. split; simpl.
  - intros id. rewrite lookup_insert_is_Some.
    destruct (m !! ID t) eqn:E; rewrite ?elem_of_app, ?list_elem_of_singleton, Ho;
      destruct (decide (ID t = id)) as [<-|Hne]; naive_solver.
  - destruct (m !! ID t) eqn:E; [done|]. apply NoDup_app. split_and!; [done| |].
    + intros x Hx ->%list_elem_of_singleton. apply Ho in Hx. rewrite E in Hx. by destruct Hx.
    + apply NoDup_singleton.
  - intros id u. rewrite lookup_insert_Some. intros [[<- <-]|[? ?]]; [done|eauto].
Qed.

Lemma replay_line_wf st l : wf st.1 st.2 -> wf (replay_line st l).1 (replay_line st l).2.
Proof.
  intros Hwf. unfold replay_line. destruct l as [|c l]; [done|].
  destruct (unmarshal (c :: l)) as [t|]; [|done].
  destruct (String.eqb_spec (ID t) ""); [done|]. by apply remember_wf.
Qed.

Lemma replay_tokens_wf toks : wf (replay_tokens toks).1 (replay_tokens toks).2.
Proof.
  unfold replay_tokens. generalize wf_empty.
  change (wf ∅ []) with (wf (∅ : gmap string Task, [] : list string).1
    (∅ : gmap string Task, [] : list string).2).
  generalize (∅ : gmap string Task, [] : list string).
  induction toks as [|l toks IH]; intros st Hwf; simpl; [done|]. by apply IH, replay_line_wf.
Qed.

(** A line never removes a task. *)
Lemma replay_line_None st l id : (replay_line st l).1 !! id = None -> st.1 !! id = None.
Proof.
  unfold replay_line. destruct l as [|c l]; [done|].
  destruct (unmarshal (c :: l)) as [t|]; [|done]. case_match; [done|]. simpl.
  by rewrite lookup_insert_None; intros [? _].
Qed.

Lemma replay_tokens_snoc toks l :
  replay_tokens (toks ++ [l]) = replay_line (replay_tokens toks) l.
Proof. unfold replay_tokens. by rewrite foldl_app. Qed.

(** ** What one accepted snapshot does *)

Lemma appendLocked_ok w t s s' :
  appendLocked w t s = (s', None) ->
  exists data, marshal t = Some data /\ w = WriteOk
    /\ s' = mkStore (file s ++ data ++ [NL]) (remember t (tasks s) (order s)).1
               (remember t (tasks s) (order s)).2.
Proof.
  unfold appendLocked. destruct (marshal t) as [data|]; [|done].
  destruct w; simpl; [|done]. intros [= <-]. by exists data.
Qed.

Lemma appendLocked_err w t s s' e :
  appendLocked w t s = (s', Some e) ->
  tasks s' = tasks s /\ order s' = order s /\ exists torn, file s' = file s ++ torn.
Proof.
  unfold appendLocked. destruct (marshal t) as [data|].
  - destruct w; simpl; [done|]. intros [= <- _]. simpl. eauto.
  - intros [= <- _]. split_and!; [done..|]. exists []. by rewrite app_nil_r.
Qed.

(** ** Operation sequences *)

(** A call with the outcome its write has, if it comes to one. *)
Inductive op : Type :=
  | OpAdd (now : Time) (w : write_result) (t : Task)
  | OpUpdate (now : Time) (w : write_result) (t : Task).

Definition exec (o : op) (s : Store) : Store :=
  match o with
  | OpAdd now w t => (Add now w t s).1.2
  | OpUpdate now w t => (Update now w t s).1.2
  end.

Definition execs (ops : list op) (s : Store) : Store := foldl (fun s o => exec o s) s ops.

Definition written (o : op) : write_result :=
  match o with OpAdd _ w _ | OpUpdate _ w _ => w end.

(** The same call with a write that succeeds. *)
Definition succeeding (o : op) : op :=
  match o with OpAdd now _ t => OpAdd now WriteOk t | OpUpdate now _ t => OpUpdate now WriteOk t end.

(** The write puts its whole line into the file or fails leaving nothing of it. *)
Definition all_or_nothing (o : op) : Prop := written o = WriteOk \/ written o = WriteErr 0.

Definition appended (t : Task) (data : bytes) (s : Store) : Store :=
  mkStore (file s ++ data ++ [NL]) (remember t (tasks s) (order s)).1
    (remember t (tasks s) (order s)).2.

(** What is left by a write of [data] with the outcome [w]. *)
Definition left_by (w : write_result) (t : Task) (data : bytes) (s : Store) : Store :=
  match w with
  | WriteOk => appended t data s
  | WriteErr n => mkStore (file s ++ take n (data ++ [NL])) (tasks s) (order s)
  end.

Lemma appendLocked_cases w t s :
  (appendLocked w t s).1 = s /\ (appendLocked WriteOk t s).1 = s \/
  exists data, marshal t = Some data /\ (appendLocked w t s).1 = left_by w t data s
    /\ (appendLocked WriteOk t s).1 = appended t data s.
Proof.
  unfold appendLocked. destruct (marshal t) as [data|]; [right; exists data|by left].
  by destruct w.
Qed.

(** An operation appends one snapshot, whole or torn, or does nothing. *)
Lemma exec_cases o s :
  wf (tasks s) (order s) ->
  exec o s = s /\ exec (succeeding o) s = s \/
  exists t data, marshal t = Some data /\ ID t <> "" /\
    exec o s = left_by (written o) t data s /\ exec (succeeding o) s = appended t data s.
Proof.
  intros Hwf. destruct o as [now w t|now w t]; simpl; unfold Add, Update.
  - destruct (String.eqb_spec (ID t) ""); [by left|]. case_decide; [by left|].
    case_match; [by left|]. case_match; [by left|].
    set (t' := if IsZero (UpdatedAt _) then _ else _).
    assert (Hid : ID t' = ID t) by (subst t'; repeat case_match; done).
    pose proof (appendLocked_cases w t' s) as Hc.
    destruct (appendLocked w t' s), (appendLocked WriteOk t' s). simpl in *. rewrite <- Hid in *.
    naive_solver.
  - case_decide as Hin; [|by left].
    assert (ID t <> "") by (destruct Hin as [u Hu]; by apply (wf_key _ _ Hwf) in Hu as [_ ?]).
    pose proof (appendLocked_cases w (set_UpdatedAt now t) s) as Hc.
    destruct (appendLocked w _ s), (appendLocked WriteOk _ s). simpl in *. naive_solver.
Qed.
End Store.

(** ** Durability: the file determines the store *)

Section Durability.
Context `{JsonLaws Task}.

(** The memory state is what a replay of the file would rebuild, ignoring the
    scanner's limit on the length of a line. *)
Record synced (s : Store) : Prop := {
  synced_complete : complete (file s);
  synced_replay : replay_tokens (drop_cr <$> raw_tokens (file s)) = (tasks s, order s);
}.

(** Every line of the file fits the scanner's buffer. *)
Definition fits (s : Store) : bool := (scan_lines max_token (file s)).2.

Lemma synced_wf s : synced s -> wf (tasks s) (order s).
Proof.
  intros [_ Hr]. pose proof (replay_tokens_wf (drop_cr <$> raw_tokens (file s))) as Hwf.
  by rewrite Hr in Hwf.
Qed.

Lemma replay_line_marshal t data m o :
  marshal t = Some data -> ID t <> "" -> replay_line (m, o) data = remember t m o.
Proof.
  intros Hm Hid. unfold replay_line. pose proof (marshal_nonempty t data Hm).
  destruct data; [done|]. rewrite (unmarshal_marshal t _ Hm).
  by rewrite (proj2 (String.eqb_neq _ _) Hid).
Qed.

Lemma appended_synced t data s :
  synced s -> marshal t = Some data -> ID t <> "" -> synced (appended t data s).
Proof.
  intros [Hc Hr] Hm Hid. pose proof (marshal_one_line t data Hm) as Hl.
  split; simpl.
  - by apply complete_app_line.
  - rewrite raw_tokens_complete_line, fmap_app by done. simpl.
    rewrite replay_tokens_snoc, Hr, (drop_cr_id _ (marshal_no_cr t _ Hm)).
    by apply replay_line_marshal.
Qed.

Lemma left_by_nothing t data s : left_by (WriteErr 0) t data s = s.
Proof. simpl. rewrite app_nil_r. by destruct s. Qed.

Lemma execs_synced ops s : Forall all_or_nothing ops -> synced s -> synced (execs ops s).
Proof.
  unfold execs. intros Hops. revert s.
  induction Hops as [|o ops Ho _ IH]; intros s Hs; simpl; [done|].
  apply IH. destruct (exec_cases o s (synced_wf s Hs)) as [[-> _]|(t & data & Hm & Hid & -> & _)];
    [done|]. destruct Ho as [-> | ->]; [by apply appended_synced|by rewrite left_by_nothing].
Qed.

Lemma Open_synced content s :
  complete (default [] content) -> Open content = Ok s -> synced s.
Proof.
  intros Hc. unfold Open, replay, scan_lines.
  destruct (scan_tokens _ _) as [toks [|]] eqn:E; simpl; [|done]. intros [= <-].
  split; simpl; [done|].
  pose proof (scan_tokens_all max_token (raw_tokens (default [] content))) as Ha.
  rewrite E in Ha. simpl in Ha. rewrite <- Ha by done. by destruct (replay_tokens toks).
Qed.

Lemma Open_file s :
  Open (Some (file s)) =
    if fits s then Ok (mkStore (file s) (replay_tokens (drop_cr <$> raw_tokens (file s))).1
                         (replay_tokens (drop_cr <$> raw_tokens (file s))).2)
    else Err ErrTooLong.
Proof.
  unfold Open, replay, fits, scan_lines.
  pose proof (scan_tokens_all max_token (raw_tokens (file s))) as Ha. simpl.
  destruct (scan_tokens _ _) as [toks [|]]; simpl in *; [|done]. by rewrite Ha.
Qed.

Lemma synced_Open s :
  synced s -> Open (Some (file s)) = if fits s then Ok s else Err ErrTooLong.
Proof. intros [_ Hr]. rewrite Open_file, Hr. by destruct s. Qed.

(** Cutting the text of a task short never gives the text of a task: a JSON object
    ends with its brace. *)
Definition prefix_free : Prop := forall t data n,
  marshal t = Some data -> (0 < n < length data)%nat -> unmarshal (take n data) = None.

Lemma replay_torn st t data n :
  prefix_free -> marshal t = Some data -> (0 < n < length data)%nat ->
  replay_line st (drop_cr (take n data)) = st.
Proof.
  intros Hp Hm Hn.
  assert (Hd : drop_cr (take n data) = take n data \/ drop_cr (take n data) = take (pred n) data).
  { unfold drop_cr. case_match; [|by left]. case_match; [|by left]. right.
    rewrite removelast_firstn_len, length_take, take_take. f_equal. lia. }
  unfold replay_line. destruct Hd as [-> | ->].
  - destruct (take n data) eqn:E; [done|]. rewrite <- E. by rewrite (Hp t data n Hm Hn).
  - destruct (decide (n = 1)) as [->|Hne]; [done|].
    destruct (take (pred n) data) eqn:E; [done|]. rewrite <- E. rewrite (Hp t data (pred n) Hm); [done|lia].
Qed.

(** What is replayed after a write that was cut anywhere: the snapshot or nothing. *)
Lemma left_by_replay w t data s :
  prefix_free -> synced s -> marshal t = Some data -> ID t <> "" ->
  let r := replay_tokens (drop_cr <$> raw_tokens (file (left_by w t data s))) in
  r = (tasks s, order s) \/ r = remember t (tasks s) (order s).
Proof.
  intros Hp Hs Hm Hid r. subst r. pose proof (marshal_one_line t data Hm) as Hl.
  destruct Hs as [Hc Hr]. pose proof (appended_synced t data s (Build_synced _ Hc Hr) Hm Hid) as [_ Ha].
  assert (Hw : replay_tokens (drop_cr <$> raw_tokens (file (appended t data s))) = remember t (tasks s) (order s)).
  { rewrite Ha. symmetry. apply surjective_pairing. }
  destruct w as [|n]; [by right|].
  destruct (decide (length data < n)%nat) as [Hgt|Hle].
  { right. rewrite <- Hw. simpl. by rewrite take_ge by (rewrite length_app; simpl; lia). }
  simpl. rewrite take_app_le by lia. destruct (decide (n = 0)) as [->|Hn0].
  { left. by rewrite app_nil_r. }
  assert (Hne : data <> []) by by eapply marshal_nonempty.
  rewrite raw_tokens_torn, fmap_app; [|done| |]; last first.
  { destruct data, n; done. }
  { intros Hin. apply Hl. by eapply elem_of_take in Hin as (i & Hi & _); eapply list_elem_of_lookup_2. }
  simpl. rewrite replay_tokens_snoc, Hr.
  destruct (decide (n = length data)) as [->|Hlt].
  - right. rewrite take_ge, (drop_cr_id _ (marshal_no_cr t _ Hm)) by lia. by apply replay_line_marshal.
  - left. apply (replay_torn _ t); [done..|lia].
Qed.

(** C7: durability. After any sequence of [Add] and [Update] calls (rejected
    ones included, and writes that fail leaving nothing in the file) on a store
    opened from a line-complete file, reopening the file rebuilds exactly the
    in-memory store, snapshots and [List] order alike. A write cut anywhere may
    end the sequence: the store is then reopened as it was before that call or as
    it would be after it, provided that a cut snapshot does not decode. The one
    exception is a snapshot longer than the scanner's buffer, after which the
    store cannot be opened at all. (What is written after a torn line is not part
    of the claim: see [torn_tail_loses_next_add].) *)
Theorem reopen_after_operations content s0 ops :
  complete (default [] content) -> Open content = Ok s0 -> Forall all_or_nothing ops ->
  let s := execs ops s0 in
  Open (Some (file s)) = (if fits s then Ok s else Err ErrTooLong) /\
  forall o, prefix_free ->
    (fits (exec o s) = true -> exists s', Open (Some (file (exec o s))) = Ok s' /\
       ((tasks s', order s') = (tasks s, order s) \/
        (tasks s', order s') = (tasks (exec (succeeding o) s), order (exec (succeeding o) s)))) /\
    (fits (exec o s) = false -> Open (Some (file (exec o s))) = Err ErrTooLong).
Proof.
  intros Hc Ho Hops s.
  assert (Hs : synced s) by (apply execs_synced, (Open_synced content); done).
  split; [by apply synced_Open|]. intros o Hp. rewrite Open_file.
  split; intros ->; [|done]. eexists. split; [done|]. simpl.
  destruct (exec_cases o s (synced_wf s Hs)) as [[-> _]|(t & data & Hm & Hid & -> & ->)].
  - left. destruct Hs as [_ ->]. done.
  - destruct (left_by_replay (written o) t data s Hp Hs Hm Hid) as [-> | ->]; solve [by left|by right].
Qed.

(** [List] of a store whose order and tasks agree. *)
Lemma List_wf s :
  wf (tasks s) (order s) ->
  exists ts, List s = Some ts /\ ID <$> ts = order s /\ NoDup (ID <$> ts)
    /\ forall t, t ∈ ts <-> Get (ID t) s = Some t.
Proof.
  intros [Hord Hnd Hkey].
  destruct (mapM (fun id => tasks s !! id) (order s)) as [ts|] eqn:E0.
  - exists ts. pose proof (mapM_Some_1 _ _ _ E0) as E.
    assert (HID : ID <$> ts = order s).
    { clear -E Hkey. induction E as [|id t o ts Ht E IH]; simpl; [done|].
      f_equal; [|by apply IH]. by apply Hkey in Ht as [? _]. }
    split_and!; [|done|by rewrite HID|].
    + exact E0.
    + intros t. unfold Get. rewrite list_elem_of_lookup. split.
      * intros [i Hi]. eapply Forall2_lookup_r in E as (id & Hid & Ht); [|done].
        by destruct (Hkey _ _ Ht) as [-> _].
      * intros Ht. assert (Hin : ID t ∈ order s) by (apply Hord; eauto).
        apply list_elem_of_lookup in Hin as [i Hi].
        eapply Forall2_lookup_l in E as (u & Hu & Hl); [|done]. exists i. congruence.
  - apply mapM_None in E0. apply Exists_exists in E0 as (id & Hin & Hnone).
    apply Hord in Hin as [? ?]. congruence.
Qed.

(** [List] never dereferences a missing task, lists every task once, and
    agrees with [Get]. *)
Theorem List_total content s0 ops :
  complete (default [] content) -> Open content = Ok s0 -> Forall all_or_nothing ops ->
  let s := execs ops s0 in
  exists ts, List s = Some ts /\ ID <$> ts = order s /\ NoDup (ID <$> ts)
    /\ forall t, t ∈ ts <-> Get (ID t) s = Some t.
Proof. intros Hc Ho Hops s. apply List_wf, synced_wf, execs_synced; [done|]. by eapply Open_synced. Qed.

Lemma Open_wf content s : Open content = Ok s -> wf (tasks s) (order s).
Proof.
  unfold Open, replay. destruct (scan_lines _ _) as [toks []]; cbn; [|done]. intros [= <-]. apply replay_tokens_wf.
Qed.

(** a torn tail costs the next snapshot. Opening a file whose last line is
    incomplete succeeds and leaves the torn bytes in place; the task added
    next is reported as stored and readable, yet its line is glued to the torn
    bytes, so the next open does not find it. *)
Theorem torn_tail_loses_next_add good torn s now t t' s' s'' data :
  complete good -> NL ∉ torn -> torn <> [] ->
  Open (Some (good ++ torn)) = Ok s ->
  Add now WriteOk t s = (t', s', None) ->
  marshal t' = Some data -> unmarshal (torn ++ data) = None ->
  Open (Some (file s')) = Ok s'' ->
  Get (ID t) s' = Some t' /\ Get (ID t) s'' = None.
Proof.
  intros Hc Hp Hne Ho HA Hm Hu Ho2.
  assert (Hid : ID t' = ID t /\ tasks s !! ID t = None /\ s' = appended t' data s).
  { unfold Add in HA. repeat (case_match; [done|]). simplify_eq/=.
    match type of HA with (let '(_, _) := appendLocked _ ?u s in _) = _ => set (v := u) in HA end.
    assert (Hv : ID v = ID t) by (subst v; repeat case_match; done).
    destruct (appendLocked WriteOk v s) as [s1 [e|]] eqn:E; [done|]. injection HA as <- <-.
    apply appendLocked_ok in E as (d & Hd & _ & ->). simplify_eq.
    split_and!; [done| |done]. by apply eq_None_not_Some. }
  destruct Hid as (Hid & Hnone & ->). split.
  { unfold Get. simpl. by rewrite <- Hid, lookup_insert_eq. }
  pose proof (marshal_one_line t' data Hm) as Hl.
  unfold Open, replay, scan_lines in Ho, Ho2. simpl in Ho, Ho2.
  pose proof (scan_tokens_all max_token (raw_tokens (good ++ torn))) as Ha1.
  destruct (scan_tokens max_token (raw_tokens (good ++ torn))) as [tk1 [|]]; simpl in *; [|done].
  injection Ho as <-. simpl in *.
  rewrite raw_tokens_torn_line in Ho2 by done.
  pose proof (scan_tokens_all max_token (raw_tokens good ++ [torn ++ data])) as Ha2.
  destruct (scan_tokens max_token (raw_tokens good ++ _)) as [tk2 [|]]; simpl in *; [|done].
  injection Ho2 as <-. unfold Get. simpl.
  rewrite Ha1, raw_tokens_torn, fmap_app in Hnone by done. simpl in Hnone.
  rewrite replay_tokens_snoc in Hnone.
  rewrite Ha2, fmap_app by done. simpl. rewrite replay_tokens_snoc, drop_cr_id; last first.
  { rewrite last_app. pose proof (marshal_no_cr t' data Hm).
    destruct (last data) eqn:E; [done|]. apply last_None in E. by apply marshal_nonempty in Hm. }
  apply replay_line_None in Hnone.
  unfold replay_line at 1. destruct (torn ++ data) as [|c l]; [done|]. by rewrite Hu.
Qed.
End Durability.

(** ** Concrete runs, with the binary codec *)

Module Examples.
#[export] Instance codec : JsonCodec Task := countable_codec Task.
#[export] Instance codec_laws : JsonLaws Task := countable_codec_laws Task.

Definition t1 : Task :=
  mkTask "a" "" KindCode "" "" "" StatusQueued "" "" "" "" [] "" 1 1 0.
Definition t2 : Task :=
  mkTask "b" "" KindGeneral "" "" "" StatusQueued "" "" "" "" ["c"] "" 1 1 0.
Definition ops : list op :=
  [OpAdd 5 WriteOk t1; OpAdd 6 (WriteErr 0) t2; OpAdd 6 WriteOk t2; OpAdd 7 WriteOk t1; OpUpdate 8 WriteOk t1].
Definition s0 : Store := mkStore [] ∅ [].
Definition torn : bytes := ["{"%char].
Definition s_torn : Store := mkStore torn ∅ [].
Definition s_added : Store := Eval vm_compute in (Add 5 WriteOk t1 s_torn).1.2.

Example ops_kept : order (execs ops s0) = ["a"; "b"] /\ fits (execs ops s0) = true.
Proof. vm_compute. done. Qed.
End Examples.

Import Examples.

Lemma ops_all_or_nothing : Forall all_or_nothing ops.
Proof. repeat constructor; solve [by left | by right]. Qed.

(** An update cut after three bytes: the store is reopened as it was. *)
Lemma reopen_after_operations_witness :
  let s := execs ops s0 in
  Open (Some (file s)) = Ok s /\
  exists s', Open (Some (file (exec (OpUpdate 9 (WriteErr 3) t2) s))) = Ok s' /\
    ((tasks s', order s') = (tasks s, order s) \/
     (tasks s', order s') = (tasks (exec (OpUpdate 9 WriteOk t2) s), order (exec (OpUpdate 9 WriteOk t2) s))).
Proof.
  destruct (reopen_after_operations None s0 ops eq_refl eq_refl ops_all_or_nothing) as [H1 H2].
  split; [exact H1|].
  refine (proj1 (H2 (OpUpdate 9 (WriteErr 3) t2) _) _).
  - intros t data n Hm [_ Hn]. by apply (countable_codec_prefix Task t data n).
  - vm_compute. reflexivity.
Defined.

Lemma List_total_witness :
  exists ts, List (execs ops s0) = Some ts /\ ID <$> ts = order (execs ops s0)
    /\ NoDup (ID <$> ts) /\ forall t, t ∈ ts <-> Get (ID t) (execs ops s0) = Some t.
Proof. apply (List_total None s0 ops); [reflexivity..|apply ops_all_or_nothing]. Defined.

Lemma torn_tail_loses_next_add_witness :
  Get "a" s_added = Some t1 /\ Get "a" (mkStore (file s_added) ∅ []) = None.
Proof.
  apply (torn_tail_loses_next_add [] torn s_torn 5 t1 t1 s_added (mkStore (file s_added) ∅ [])
           (pos_digits (encode t1)));
    try (vm_compute; reflexivity).
  - intros [H|H]%elem_of_cons; [discriminate H|by apply elem_of_nil in H].
  - discriminate.
Defined.

End Store.
