(* ===== verification/DispatchEventLog.v ===== *)
(** * ai-dispatch/task/event_log.go: the durable task event log

    Part one is the log itself (append-only file, in-memory history, wake-up
    channels of capacity one). Part two is the subscription protocol the
    comment of [Subscribe] prescribes, as a transition system in which appends
    interleave freely with a consumer, and the proof that no event is lost,
    duplicated or reordered. *)

From S2P Require Import Prelude JsonLines DispatchTask.
Import Task.
#[local] Open Scope string_scope.
#[local] Open Scope list_scope.

Module EventLog.

Definition EventType : Type := string.
Definition EventUpdate : EventType := "update".
Definition EventStatus : EventType := "status".

Record TaskEvent := mkTaskEvent {
  TaskID : string;
  Timestamp : Time;
  EType : EventType;
  Update : bytes;
  From : Status;
  To : Status;
}.

#[export] Instance TaskEvent_eq_dec : EqDecision TaskEvent.
Proof. solve_decision. Defined.

Definition set_Timestamp (ts : Time) (e : TaskEvent) : TaskEvent :=
  mkTaskEvent (TaskID e) ts (EType e) (Update e) (From e) (To e).

Definition validEvent (e : TaskEvent) : bool :=
  if String.eqb (TaskID e) "" then false
  else if String.eqb (EType e) EventUpdate then (0 <? blen (Update e))%Z
  else if String.eqb (EType e) EventStatus then negb (String.eqb (To e) "")
  else false.

Inductive log_error : Type :=
  | ErrInvalidEvent
  | ErrMarshal
  | ErrAppend
  | ErrScan.

(** [chan struct{}] of capacity one: whether a signal is buffered. *)
Definition signal : Type := bool.

Section Log.
Context `{JsonCodec TaskEvent}.

Record EventLog := mkEventLog {
  file : bytes;
  events : gmap string (list TaskEvent);
  subscribers : gmap string (gmap nat signal);
  next_chan : nat;
}.

Definition max_token : Z := 16 * 1024 * 1024.

Definition history (m : gmap string (list TaskEvent)) (id : string) : list TaskEvent :=
  default [] (m !! id).

Definition record_event (e : TaskEvent) (m : gmap string (list TaskEvent)) :
    gmap string (list TaskEvent) :=
  <[TaskID e := history m (TaskID e) ++ [e]]> m.

(** One scanned line of [replay]. *)
Definition replay_line (m : gmap string (list TaskEvent)) (line : bytes) :
    gmap string (list TaskEvent) :=
  match unmarshal line with
  | Some e => if validEvent e then record_event e m else m
  | None => m
  end.

Definition replay_tokens (toks : list bytes) : gmap string (list TaskEvent) :=
  foldl replay_line ∅ toks.

Definition replay (content : bytes) : result log_error (gmap string (list TaskEvent)) :=
  let '(toks, ok) := scan_lines max_token content in
  if ok then Ok (replay_tokens toks) else Err ErrScan.

(** [trimPartialRecord]: cut the file after its last newline. *)
Definition trimPartialRecord (content : bytes) : bytes :=
  match last content with
  | None => content
  | Some c => if Ascii.eqb c NL then content
              else take (length content - length (lines content).2) content
  end.

Definition OpenEventLog (content : option bytes) : result log_error EventLog :=
  m ← replay (default [] content);
  Ok (mkEventLog (trimPartialRecord (default [] content)) m ∅ 0).

(** The non-blocking send to every subscriber of the task. *)
Definition notify (id : string) (subs : gmap string (gmap nat signal)) :
    gmap string (gmap nat signal) :=
  match subs !! id with
  | Some chans => <[id := (fun _ => true) <$> chans]> subs
  | None => subs
  end.

Definition Append (now : Time) (w : write_result) (e : TaskEvent) (l : EventLog) :
    EventLog * option log_error :=
  if negb (validEvent e) then (l, Some ErrInvalidEvent)
  else
    let e := if IsZero (Timestamp e) then set_Timestamp now e else e in
    match marshal e with
    | None => (l, Some ErrMarshal)
    | Some data =>
        let '(f, ok) := file_write w (file l) (data ++ [NL]) in
        if ok then
          (mkEventLog f (record_event e (events l)) (notify (TaskID e) (subscribers l))
             (next_chan l), None)
        else (mkEventLog f (events l) (subscribers l) (next_chan l), Some ErrAppend)
    end.

(** [Subscribe]: the history, its cursor, the new channel and the log. *)
Definition Subscribe (taskID : string) (l : EventLog) :
    list TaskEvent * nat * nat * EventLog :=
  let h := history (events l) taskID in
  let ch := next_chan l in
  let chans := default ∅ (subscribers l !! taskID) in
  (h, length h, ch,
   mkEventLog (file l) (events l) (<[taskID := <[ch := false]> chans]> (subscribers l)) (S ch)).

(** The closure returned by [Subscribe]. *)
Definition unsubscribe (taskID : string) (ch : nat) (l : EventLog) : EventLog :=
  let chans := delete ch (default ∅ (subscribers l !! taskID)) in
  mkEventLog (file l) (events l)
    (if decide (chans = ∅) then delete taskID (subscribers l)
     else <[taskID := chans]> (subscribers l)) (next_chan l).

(** [EventsAfter(taskID, cursor)] with its clamping of the cursor. *)
Definition EventsAfter (taskID : string) (cursor : Z) (l : EventLog) : list TaskEvent * Z :=
  let evs := history (events l) taskID in
  let cursor := if (cursor <? 0)%Z then 0%Z else cursor in
  let n := Z.of_nat (length evs) in
  let cursor := if (n <? cursor)%Z then n else cursor in
  (drop (Z.to_nat cursor) evs, n).

(** ** The log *)

Lemma history_record e m id :
  history (record_event e m) id =
    history m id ++ (if decide (id = TaskID e) then [e] else []).
Proof.
  unfold history, record_event. case_decide as E; [subst|].
  - by rewrite lookup_insert_eq.
  - rewrite lookup_insert_ne by done. by rewrite app_nil_r.
Qed.

Lemma EventsAfter_spec taskID (k : nat) l :
  k <= length (history (events l) taskID) ->
  EventsAfter taskID (Z.of_nat k) l =
    (drop k (history (events l) taskID), Z.of_nat (length (history (events l) taskID))).
Proof.
  intros Hk. unfold EventsAfter.
  assert ((Z.of_nat k <? 0)%Z = false) as -> by (apply Z.ltb_ge; lia).
  assert ((Z.of_nat (length (history (events l) taskID)) <? Z.of_nat k)%Z = false) as ->
    by (apply Z.ltb_ge; lia).
  by rewrite Nat2Z.id.
Qed.

Lemma Append_cases now w e l l' err :
  Append now w e l = (l', err) ->
  (events l' = events l /\ subscribers l' = subscribers l /\ next_chan l' = next_chan l
   /\ err <> None)
  \/ (exists e', validEvent e' = true /\ TaskID e' = TaskID e /\ err = None
       /\ events l' = record_event e' (events l)
       /\ subscribers l' = notify (TaskID e') (subscribers l) /\ next_chan l' = next_chan l).
Proof.
  unfold Append. destruct (validEvent e) eqn:Hv; simpl; [|intros [= <- <-]; by left].
  set (e' := if IsZero (Timestamp e) then _ else e).
  assert (He' : validEvent e' = true /\ TaskID e' = TaskID e).
  { subst e'. case_match; [|done]. split; [|done]. rewrite <- Hv. by destruct e. }
  destruct (marshal e'); [|intros [= <- <-]; by left].
  destruct w; simpl; intros [= <- <-]; [right; exists e'; naive_solver|by left].
Qed.

(** ** Signals *)

(** [signalled id ch l]: channel [ch] is registered for [id] with a signal. *)
Definition chan_state (id : string) (ch : nat) (l : EventLog) : option signal :=
  subscribers l !! id ≫= fun chans => chans !! ch.

Lemma notify_lookup id subs id' ch :
  notify id subs !! id' ≫= (fun chans => chans !! ch) =
    (if decide (id = id') then (fun _ => true) <$> (subs !! id' ≫= (fun chans => chans !! ch))
     else subs !! id' ≫= (fun chans => chans !! ch)).
Proof.
  unfold notify. destruct (subs !! id) as [chans|] eqn:E; case_decide as Hd; subst.
  - rewrite lookup_insert_eq, E. simpl. by rewrite lookup_fmap.
  - by rewrite lookup_insert_ne.
  - by rewrite E.
  - done.
Qed.

(** ** The subscription protocol

    A consumer that subscribed to [task] alternates between waiting for a
    signal and calling [EventsAfter] with its cursor. *)

Inductive consumer_pc : Type := Waiting | Draining.

Record sys := mkSys {
  log : EventLog;
  pc : consumer_pc;
  cursor : Z;
  received : list TaskEvent;
}.

Section Protocol.
Context (task : string) (ch : nat).

(** The system right after [Subscribe] returned [ch] to the consumer. *)
Definition sys_init (s : sys) : Prop :=
  exists l0 h c, Subscribe task l0 = (h, c, ch, log s)
    /\ pc s = Waiting /\ cursor s = Z.of_nat c /\ received s = h.

Inductive sys_step : sys -> sys -> Prop :=
  | step_append s now w e l' err :
      Append now w e (log s) = (l', err) ->
      sys_step s (mkSys l' (pc s) (cursor s) (received s))
  | step_subscribe_other s id h c ch' l' :
      Subscribe id (log s) = (h, c, ch', l') ->
      sys_step s (mkSys l' (pc s) (cursor s) (received s))
  | step_unsubscribe_other s id ch' :
      ch' <> ch ->
      sys_step s (mkSys (unsubscribe id ch' (log s)) (pc s) (cursor s) (received s))
  | step_receive s chans :
      pc s = Waiting ->
      subscribers (log s) !! task = Some chans -> chans !! ch = Some true ->
      sys_step s (mkSys (mkEventLog (file (log s)) (events (log s))
                    (<[task := <[ch := false]> chans]> (subscribers (log s)))
                    (next_chan (log s))) Draining (cursor s) (received s))
  | step_drain s evs c :
      pc s = Draining ->
      EventsAfter task (cursor s) (log s) = (evs, c) ->
      sys_step s (mkSys (log s) Waiting c (received s ++ evs)).

Record sys_inv (s : sys) : Prop := {
  inv_cursor : exists k, cursor s = Z.of_nat k /\ k <= length (history (events (log s)) task)
                 /\ received s = take k (history (events (log s)) task);
  inv_chan : is_Some (chan_state task ch (log s)) /\ ch < next_chan (log s);
  inv_wakeup : pc s = Waiting -> chan_state task ch (log s) = Some false ->
               cursor s = Z.of_nat (length (history (events (log s)) task));
}.

Lemma sys_inv_init s : sys_init s -> sys_inv s.
Proof.
  intros (l0 & h & c & Hs & Hpc & Hc & Hr). unfold Subscribe in Hs. injection Hs as <- <- Hch Hl.
  destruct s as [lg p cu r]; simpl in *; subst lg p cu r. split; simpl.
  - exists (length (history (events l0) task)). split_and!; [done|done|].
    by rewrite firstn_all.
  - unfold chan_state. simpl. rewrite lookup_insert_eq. simpl. rewrite Hch, lookup_insert_eq.
    split; [eauto|lia].
  - done.
Qed.

(** Appending: the history grows by the event (for this task), and then the
    channel is signalled. *)
Lemma sys_inv_append s now w e l' err :
  sys_inv s -> Append now w e (log s) = (l', err) ->
  sys_inv (mkSys l' (pc s) (cursor s) (received s)).
Proof.
  intros [(k & Hk & Hle & Hr) [Hch Hlt] Hw] HA.
  apply Append_cases in HA as [(He & Hs & Hn & _)|(e' & _ & _ & _ & He & Hs & Hn)].
  { unfold chan_state in *. split; simpl; unfold chan_state; rewrite ?He, ?Hs, ?Hn; eauto. }
  assert (Hcs : chan_state task ch l' =
    if decide (TaskID e' = task) then (fun _ => true) <$> chan_state task ch (log s)
    else chan_state task ch (log s)).
  { unfold chan_state. by rewrite Hs, notify_lookup. }
  split; simpl.
  - exists k. rewrite He, history_record, length_app. split_and!; [done|lia|].
    by rewrite take_app_le.
  - rewrite Hcs, Hn. split; [|done]. destruct Hch as [b ->]. case_decide; simpl; eauto.
  - intros Hp. rewrite Hcs, He, history_record.
    destruct Hch as [b Hb]. rewrite Hb in *. case_decide as Hd; simpl; [done|].
    rewrite decide_False by congruence. rewrite app_nil_r. auto.
Qed.

Lemma sys_inv_subscribe s id h c ch' l' :
  sys_inv s -> Subscribe id (log s) = (h, c, ch', l') ->
  sys_inv (mkSys l' (pc s) (cursor s) (received s)).
Proof.
  intros [Hc [Hch Hlt] Hw] Hs. unfold Subscribe in Hs. injection Hs as _ _ _ <-.
  assert (Hcs : chan_state task ch
    (mkEventLog (file (log s)) (events (log s))
      (<[id := <[next_chan (log s) := false]> (default ∅ (subscribers (log s) !! id))]>
         (subscribers (log s))) (S (next_chan (log s)))) = chan_state task ch (log s)).
  { unfold chan_state. simpl. destruct (decide (id = task)) as [->|Hne].
    - rewrite lookup_insert_eq. simpl. rewrite lookup_insert_ne by lia.
      by destruct (subscribers (log s) !! task).
    - by rewrite lookup_insert_ne. }
  split; simpl; rewrite ?Hcs; [done| |done]. split; [done|lia].
Qed.

Lemma sys_inv_unsubscribe s id ch' :
  sys_inv s -> ch' <> ch ->
  sys_inv (mkSys (unsubscribe id ch' (log s)) (pc s) (cursor s) (received s)).
Proof.
  intros [Hc [Hch Hlt] Hw] Hne.
  assert (Hcs : chan_state task ch (unsubscribe id ch' (log s)) = chan_state task ch (log s)).
  { unfold chan_state, unsubscribe. simpl. destruct (decide (id = task)) as [->|Hd].
    - assert (Hl : delete ch' (default ∅ (subscribers (log s) !! task)) !! ch
                   = subscribers (log s) !! task ≫= (fun chans => chans !! ch)).
      { rewrite lookup_delete_ne by done. by destruct (subscribers (log s) !! task). }
      case_decide as He; [|by rewrite lookup_insert_eq].
      rewrite lookup_delete_eq. simpl. rewrite He, lookup_empty in Hl. by rewrite <- Hl.
    - case_decide; by rewrite ?lookup_delete_ne, ?lookup_insert_ne. }
  split; simpl; rewrite ?Hcs; done.
Qed.

Lemma sys_inv_receive s chans :
  sys_inv s -> pc s = Waiting ->
  sys_inv (mkSys (mkEventLog (file (log s)) (events (log s))
             (<[task := <[ch := false]> chans]> (subscribers (log s)))
             (next_chan (log s))) Draining (cursor s) (received s)).
Proof.
  intros [Hc [Hch Hlt] Hw] Hp. split; simpl; [done| |done].
  split; [|done]. unfold chan_state. simpl. rewrite lookup_insert_eq. simpl.
  rewrite lookup_insert_eq. eauto.
Qed.

Lemma drain_all s evs c :
  sys_inv s -> EventsAfter task (cursor s) (log s) = (evs, c) ->
  received s ++ evs = history (events (log s)) task
  /\ c = Z.of_nat (length (history (events (log s)) task)).
Proof.
  intros [(k & Hk & Hle & Hr) _ _] HE. rewrite Hk, EventsAfter_spec in HE by done.
  injection HE as <- <-. by rewrite Hr, take_drop.
Qed.

Lemma sys_inv_drain s evs c :
  sys_inv s -> EventsAfter task (cursor s) (log s) = (evs, c) ->
  sys_inv (mkSys (log s) Waiting c (received s ++ evs)).
Proof.
  intros Hi HE. destruct (drain_all s evs c Hi HE) as [Hr ->]. destruct Hi as [_ Hch _].
  split; simpl; [|done|done]. eexists. split_and!; [done|done|]. by rewrite Hr, firstn_all.
Qed.

Lemma sys_inv_reachable s : reachable sys_init sys_step s -> sys_inv s.
Proof.
  apply reachable_invariant; [apply sys_inv_init|].
  intros s1 s2 Hi Hst. inversion Hst; subst;
    eauto using sys_inv_append, sys_inv_subscribe, sys_inv_unsubscribe, sys_inv_receive,
      sys_inv_drain.
Qed.
End Protocol.

(** C6: a subscriber that follows the documented protocol gets the task's
    events exactly once and in order, however appends (failed ones included),
    other subscriptions and cancellations interleave: what it has received is
    always a prefix of the log, a drain completes it, and it is never asleep
    without a pending signal while an event is missing. *)
Theorem subscriber_exactly_once task ch s :
  reachable (sys_init task ch) (sys_step task ch) s ->
  received s `prefix_of` history (events (log s)) task
  /\ (forall evs c, EventsAfter task (cursor s) (log s) = (evs, c) ->
        received s ++ evs = history (events (log s)) task)
  /\ (received s <> history (events (log s)) task ->
        pc s = Draining \/ chan_state task ch (log s) = Some true).
Proof.
  intros Hi%sys_inv_reachable. split_and!.
  - destruct Hi as [(k & _ & _ & ->) _ _]. apply prefix_take.
  - intros evs c HE. by apply (drain_all task ch s evs c).
  - intros Hne. destruct Hi as [(k & Hk & Hle & Hr) [[b Hb] _] Hw].
    destruct (pc s) eqn:Hp; [right|by left]. destruct b; [done|].
    specialize (Hw eq_refl Hb). destruct Hne. rewrite Hr. apply take_ge. lia.
Qed.
End Log.

(** ** Durability *)

Section Durability.
Context `{JsonLaws TaskEvent}.

Lemma trim_lines c : lines (trimPartialRecord c) = ((lines c).1, []).
Proof.
  destruct (lines_parts c) as [Hls Hr]. pose proof (lines_join c) as Hj.
  unfold trimPartialRecord. destruct (last c) as [a|] eqn:El.
  - destruct (Ascii.eqb_spec a NL) as [->|Hne].
    + destruct (lines c) as [ls r] eqn:E; simpl in *.
      destruct r as [|x r'] using rev_ind; [done|]. rewrite <- Hj, !app_assoc, last_snoc in El.
      simplify_eq. destruct Hr. set_solver.
    + rewrite <- Hj at 1 3. rewrite length_app, Nat.add_sub, take_app_length.
      by apply lines_unlines.
  - apply last_None in El as ->. done.
Qed.

Lemma trim_complete c : complete (trimPartialRecord c).
Proof. unfold complete. by rewrite trim_lines. Qed.

(** Appends with successful writes. *)
Definition appends (es : list (Time * TaskEvent)) (l : EventLog) : EventLog :=
  foldl (fun l e => (Append e.1 WriteOk e.2 l).1) l es.

Definition fits (l : EventLog) : bool := (scan_lines max_token (file l)).2.

(** The histories are those of the complete lines of the file. *)
Record synced (l : EventLog) : Prop := {
  synced_complete : complete (file l);
  synced_replay : replay_tokens (drop_cr <$> raw_tokens (file l)) = events l;
}.

Lemma synced_append l now e : synced l -> synced (Append now WriteOk e l).1.
Proof.
  intros Hs. unfold Append. destruct (validEvent e) eqn:Hv; simpl; [|done].
  set (e' := if IsZero (Timestamp e) then _ else e).
  assert (Hv' : validEvent e' = true).
  { subst e'. case_match; [|done]. rewrite <- Hv. by destruct e. }
  destruct (marshal e') as [data|] eqn:Hm; simpl; [|done]. destruct Hs as [Hc Hr].
  pose proof (marshal_one_line e' data Hm) as Hl.
  split; simpl; [by apply complete_app_line|].
  rewrite raw_tokens_complete_line, fmap_app by done. simpl.
  rewrite (drop_cr_id _ (marshal_no_cr e' _ Hm)). unfold replay_tokens in *.
  rewrite foldl_app, Hr. simpl. unfold replay_line.
  by rewrite (unmarshal_marshal e' _ Hm), Hv'.
Qed.

Lemma synced_appends es l : synced l -> synced (appends es l).
Proof.
  unfold appends. revert l. induction es as [|e es IH]; intros l Hs; simpl; [done|].
  by apply IH, synced_append.
Qed.

Lemma synced_OpenEventLog l :
  synced l -> fits l = true ->
  OpenEventLog (Some (file l)) = Ok (mkEventLog (file l) (events l) ∅ 0).
Proof.
  intros [Hc Hr] Hf. unfold OpenEventLog, replay, fits, scan_lines in *. simpl.
  pose proof (scan_tokens_all max_token (raw_tokens (file l)) Hf) as Ha.
  destruct (scan_tokens _ _) as [toks ok]; simpl in *. rewrite Hf. simpl.
  rewrite Ha, Hr. do 2 f_equal. unfold complete in Hc. unfold trimPartialRecord.
  destruct (last (file l)); [|done]. case_match; [done|].
  rewrite Hc. simpl. rewrite Nat.sub_0_r. apply firstn_all.
Qed.

(** The tail after the last newline adds nothing to the histories. *)
Definition tail_void (c : bytes) : Prop :=
  forall m, replay_line m (drop_cr (lines c).2) = m.

Lemma OpenEventLog_synced content l :
  tail_void (default [] content) -> OpenEventLog content = Ok l -> synced l.
Proof.
  intros Ht. unfold OpenEventLog, replay, scan_lines.
  pose proof (scan_tokens_all max_token (raw_tokens (default [] content))) as Ha.
  destruct (scan_tokens _ _) as [toks [|]]; simpl in *; [|done]. intros [= <-].
  split; simpl; [apply trim_complete|]. rewrite Ha by done. clear Ha.
  unfold tail_void in Ht. unfold raw_tokens. rewrite trim_lines.
  destruct (lines (default [] content)) as [ls r]; simpl in *. rewrite app_nil_r.
  destruct r as [|a r]; [by rewrite app_nil_r|].
  rewrite fmap_app. unfold replay_tokens. rewrite foldl_app. simpl. by rewrite Ht.
Qed.

(** durability of the event log. Whatever follows the last newline of the
    file (a torn record), provided it does not decode to a valid event,
    opening trims it, and after any appends a reopen rebuilds exactly the
    histories in memory. *)
Theorem reopen_log content l es :
  tail_void (default [] content) -> OpenEventLog content = Ok l ->
  let l' := appends es l in
  fits l' = true ->
  OpenEventLog (Some (file l')) = Ok (mkEventLog (file l') (events l') ∅ 0).
Proof. intros Ht Ho l' Hf. apply synced_OpenEventLog; [|done]. by eapply synced_appends, OpenEventLog_synced. Qed.

Lemma Open_events content l :
  OpenEventLog content = Ok l ->
  events l = replay_tokens (drop_cr <$> raw_tokens (default [] content))
  /\ file l = trimPartialRecord (default [] content).
Proof.
  unfold OpenEventLog, replay, scan_lines.
  pose proof (scan_tokens_all max_token (raw_tokens (default [] content))) as Ha.
  destruct (scan_tokens _ _) as [toks [|]]; simpl in *; [|done]. intros [= <-].
  by rewrite Ha.
Qed.

(** a record that lost only its newline is replayed and yet trimmed: its
    event is in the history of the first open and missing from the second. *)
Theorem unterminated_record_vanishes good e data l1 l2 :
  complete good -> marshal e = Some data -> validEvent e = true ->
  OpenEventLog (Some (good ++ data)) = Ok l1 -> OpenEventLog (Some (file l1)) = Ok l2 ->
  history (events l1) (TaskID e) = history (events l2) (TaskID e) ++ [e].
Proof.
  intros Hc Hm Hv [E1 F1]%Open_events [E2 _]%Open_events. simpl in *.
  pose proof (marshal_one_line e data Hm) as Hl.
  pose proof (marshal_nonempty e data Hm) as Hne.
  rewrite F1 in E2. rewrite raw_tokens_torn, fmap_app in E1 by done. simpl in E1.
  rewrite (drop_cr_id _ (marshal_no_cr e _ Hm)) in E1.
  assert (Ht : raw_tokens (trimPartialRecord (good ++ data)) = raw_tokens good).
  { unfold raw_tokens. rewrite trim_lines, lines_complete_app by done.
    rewrite (lines_no_nl data) by done. unfold complete in Hc.
    destruct (lines good) as [ls r]; simpl in *. subst r. by rewrite !app_nil_r. }
  rewrite E1, E2, Ht. unfold replay_tokens. rewrite foldl_app. simpl. unfold replay_line at 1.
  rewrite (unmarshal_marshal e _ Hm), Hv, history_record. by rewrite decide_True.
Qed.
End Durability.

(** ** Concrete runs *)

(** Events as field lists, which makes them countable. *)
Definition event_fields (e : TaskEvent) : list (string + (Z + bytes)) :=
  [inl (TaskID e); inr (inl (Timestamp e)); inl (EType e); inr (inr (Update e));
   inl (From e); inl (To e)].

Definition fields_event (fs : list (string + (Z + bytes))) : option TaskEvent :=
  match fs with
  | [inl a; inr (inl b); inl c; inr (inr d); inl e; inl f] => Some (mkTaskEvent a b c d e f)
  | _ => None
  end.

#[export] Instance TaskEvent_countable : Countable TaskEvent.
Proof. apply (inj_countable event_fields fields_event). by intros []. Defined.

Module Examples.
#[export] Instance codec : JsonCodec TaskEvent := countable_codec TaskEvent.
#[export] Instance codec_laws : JsonLaws TaskEvent := countable_codec_laws TaskEvent.

Definition e1 : TaskEvent := mkTaskEvent "t" 0 EventUpdate ["x"%char] "" "".
Definition e1' : TaskEvent := set_Timestamp 7 e1.
Definition log0 : EventLog := mkEventLog [] ∅ ∅ 0.
Definition sub0 : list TaskEvent * nat * nat * EventLog := Subscribe "t" log0.
Definition sys0 : sys := mkSys sub0.2 Waiting 0 [].
Definition sys1 : sys := mkSys (Append 7 WriteOk e1 (log sys0)).1 Waiting 0 [].
Definition log_unterminated : EventLog :=
  mkEventLog [] {["t" := [e1']]} ∅ 0.
End Examples.

Import Examples.

Lemma subscriber_exactly_once_witness :
  received sys1 `prefix_of` history (events (log sys1)) "t"
  /\ (forall evs c, EventsAfter "t" (cursor sys1) (log sys1) = (evs, c) ->
        received sys1 ++ evs = history (events (log sys1)) "t")
  /\ (received sys1 <> history (events (log sys1)) "t" ->
        pc sys1 = Draining \/ chan_state "t" 0 (log sys1) = Some true).
Proof.
  apply (subscriber_exactly_once "t" 0 sys1).
  apply reachable_step with sys0.
  - apply reachable_init. exists log0, [], 0%nat. split_and!; reflexivity.
  - apply (step_append "t" 0 sys0 7 WriteOk e1 (log sys1) None). reflexivity.
Defined.

Lemma reopen_log_witness :
  OpenEventLog (Some (file (appends [(7%Z, e1)] log0))) =
    Ok (mkEventLog (file (appends [(7%Z, e1)] log0)) (events (appends [(7%Z, e1)] log0)) ∅ 0).
Proof.
  apply (reopen_log (Some ["{"%char]) log0 [(7%Z, e1)]); try reflexivity.
  intros m. reflexivity.
Defined.

Lemma unterminated_record_vanishes_witness :
  history (events log_unterminated) "t" = history (events log0) "t" ++ [e1'].
Proof.
  apply (unterminated_record_vanishes [] e1' (pos_digits (encode e1')) log_unterminated log0);
    reflexivity.
Defined.

End EventLog.
