(* ===== verification/ControlLease.v ===== *)
(** * daemon/internal/agentcontrol/lease.go, bindings.go: control leases

    One lease per session, held by at most one client; the operations are
    functions on the table of holders. [Concurrent] runs them as threads: a
    lease's mutex is taken for a whole critical section, a fenced operation
    stays inside it while it commits, and [ReleaseConnection] visits the leases
    one by one. The log of what happened is the specification: who owns a lease
    is a fold over it. *)

From S2P Require Import Prelude.
#[local] Open Scope string_scope.
#[local] Open Scope list_scope.

(** ** lease.go: the operations *)

(** [LeaseRegistry.leases]: session to holder; "" is a free lease. *)
Abbreviation LeaseRegistry := (gmap string string).

Definition NewLeaseRegistry : LeaseRegistry := ∅.

(** [lease(sessionID)]: get or create. *)
Definition lease (sid : string) (r : LeaseRegistry) : LeaseRegistry :=
  match r !! sid with Some _ => r | None => <[sid := ""]> r end.

Definition holder (r : LeaseRegistry) (sid : string) : string := default "" (r !! sid).

Definition holds (r : LeaseRegistry) (sid client : string) : bool :=
  negb (String.eqb client "") && String.eqb (holder r sid) client.

(** The result says whether the lease was taken over from another client. *)
Definition Acquire (sid client : string) (r : LeaseRegistry) : bool * LeaseRegistry :=
  if String.eqb client "" then (false, r)
  else
    let r := lease sid r in
    if String.eqb (holder r sid) client then (false, r)
    else (negb (String.eqb (holder r sid) ""), <[sid := client]> r).

Definition Release (sid client : string) (r : LeaseRegistry) : LeaseRegistry :=
  if String.eqb client "" then r
  else
    let r := lease sid r in
    if String.eqb (holder r sid) client then <[sid := ""]> r else r.

Definition Hold (sid client : string) (r : LeaseRegistry) : bool * LeaseRegistry :=
  let r := lease sid r in (holds r sid client, r).

Inductive control_error (E : Type) : Type :=
  | ErrControlLeaseLost (sid client : string)
  | OperationError (e : E).
Arguments ErrControlLeaseLost {E}.
Arguments OperationError {E}.

(** [WithControl]: check and commit in one critical section. *)
Definition WithControl {S E A} (sid client : string) (fn : S -> S * result E A) (r : LeaseRegistry) (s : S)
  : LeaseRegistry * S * result (control_error E) A :=
  let r := lease sid r in
  if negb (holds r sid client) then (r, s, Err (ErrControlLeaseLost sid client))
  else match fn s with
       | (s', Ok a) => (r, s', Ok a)
       | (s', Err e) => (r, s', Err (OperationError e))
       end.

(** One lease of the loop of [ReleaseConnection]. *)
Definition clear_holder (client : string) (sid : string) (r : LeaseRegistry) : LeaseRegistry :=
  if String.eqb (holder r sid) client then <[sid := ""]> r else r.

(** Without interference the loop runs over the snapshot of the leases. *)
Definition ReleaseConnection (client : string) (r : LeaseRegistry) : LeaseRegistry :=
  if String.eqb client "" then r
  else foldr (clear_holder client) r (map_to_list r).*1.

(** ** bindings.go *)

(** [byClient]: a client's current session. *)
Abbreviation BindingRegistry := (gmap string string).

Definition Bind (client sid : string) (b : BindingRegistry) : string * BindingRegistry :=
  if String.eqb client "" then ("", b)
  else
    let prev := default "" (b !! client) in
    if String.eqb sid "" then (prev, delete client b)
    else if String.eqb prev sid then (prev, b)
    else (prev, <[client := sid]> b).

Definition Unbind (client : string) (b : BindingRegistry) : string * BindingRegistry :=
  if String.eqb client "" then ("", b)
  else (default "" (b !! client), delete client b).

Definition Bindings (sid : string) (b : BindingRegistry) : list string :=
  merge_sort string_le (omap (fun kv => if String.eqb kv.2 sid then Some kv.1 else None) (map_to_list b)).

(** ** Threads *)

Module Concurrent.

(** What the registry's clients can observe, in the order of the critical sections. *)
Inductive event : Type :=
  | EvAcquired (sid client : string)
  | EvReleased (sid client : string)
  | EvCommit (sid client : string)
  | EvSnapshot (tid : nat) (client : string)
  | EvReleasedAll (tid : nat) (client : string).

(** The owner of a lease, read off the log. *)
Definition owner_step (sid : string) (o : option string) (e : event) : option string :=
  match e with
  | EvAcquired s c => if String.eqb s sid then Some c else o
  | EvReleased s c => if String.eqb s sid then None else o
  | _ => o
  end.

Definition owner (sid : string) (log : list event) : option string := foldl (owner_step sid) None log.

(** Where a thread is: before its operation, inside the fenced function of
    [WithControl], or in the loop of [ReleaseConnection] with the leases it has yet to visit;
    [since] is the length of the log at the snapshot. *)
Inductive pc : Type :=
  | AtAcquire (sid client : string)
  | AtRelease (sid client : string)
  | AtControl (sid client : string)
  | InControl (sid client : string)
  | AtReleaseConnection (client : string)
  | InReleaseConnection (client : string) (rest : list string) (since : nat)
  | Done.

Record state := mkState {
  leases : LeaseRegistry;
  locks : gmap string nat;
  threads : gmap nat pc;
  log : list event;
}.

Definition initial (s : state) : Prop :=
  leases s = NewLeaseRegistry /\ locks s = ∅ /\ threads s = ∅ /\ log s = [].

Definition acquired_events (sid client : string) (r : LeaseRegistry) : list event :=
  if String.eqb client "" then [] else if String.eqb (holder r sid) client then []
  else [EvAcquired sid client].

Definition released_events (sid client : string) (r : LeaseRegistry) : list event :=
  if String.eqb client "" then [] else if String.eqb (holder r sid) client then [EvReleased sid client] else [].

Inductive step : state -> state -> Prop :=
  (** A client calls an operation. *)
  | step_spawn s tid p :
      threads s !! tid = None ->
      match p with InControl _ _ | InReleaseConnection _ _ _ => False | _ => True end ->
      step s (mkState (leases s) (locks s) (<[tid := p]> (threads s)) (log s))
  | step_acquire s tid sid c :
      threads s !! tid = Some (AtAcquire sid c) -> locks s !! sid = None ->
      step s (mkState (Acquire sid c (leases s)).2 (locks s) (<[tid := Done]> (threads s))
                (log s ++ acquired_events sid c (leases s)))
  | step_release s tid sid c :
      threads s !! tid = Some (AtRelease sid c) -> locks s !! sid = None ->
      step s (mkState (Release sid c (leases s)) (locks s) (<[tid := Done]> (threads s))
                (log s ++ released_events sid c (leases s)))
  (** [WithControl]: the check succeeds and the mutex stays taken. *)
  | step_control_enter s tid sid c :
      threads s !! tid = Some (AtControl sid c) -> locks s !! sid = None ->
      holds (lease sid (leases s)) sid c = true ->
      step s (mkState (lease sid (leases s)) (<[sid := tid]> (locks s))
                (<[tid := InControl sid c]> (threads s)) (log s))
  | step_control_lost s tid sid c :
      threads s !! tid = Some (AtControl sid c) -> locks s !! sid = None ->
      holds (lease sid (leases s)) sid c = false ->
      step s (mkState (lease sid (leases s)) (locks s) (<[tid := Done]> (threads s)) (log s))
  (** The fenced function commits, any number of times, and returns. *)
  | step_commit s tid sid c :
      threads s !! tid = Some (InControl sid c) ->
      step s (mkState (leases s) (locks s) (threads s) (log s ++ [EvCommit sid c]))
  | step_control_exit s tid sid c :
      threads s !! tid = Some (InControl sid c) ->
      step s (mkState (leases s) (delete sid (locks s)) (<[tid := Done]> (threads s)) (log s))
  (** [ReleaseConnection]: snapshot under the registry's mutex, then lease by lease. *)
  | step_snapshot s tid c :
      threads s !! tid = Some (AtReleaseConnection c) -> c <> "" ->
      step s (mkState (leases s) (locks s)
                (<[tid := InReleaseConnection c (map_to_list (leases s)).*1 (length (log s))]> (threads s))
                (log s ++ [EvSnapshot tid c]))
  | step_release_nobody s tid :
      threads s !! tid = Some (AtReleaseConnection "") ->
      step s (mkState (leases s) (locks s) (<[tid := Done]> (threads s)) (log s))
  | step_clear s tid c sid rest since :
      threads s !! tid = Some (InReleaseConnection c (sid :: rest) since) -> locks s !! sid = None ->
      step s (mkState (clear_holder c sid (leases s)) (locks s)
                (<[tid := InReleaseConnection c rest since]> (threads s))
                (log s ++ released_events sid c (leases s)))
  | step_release_done s tid c since :
      threads s !! tid = Some (InReleaseConnection c [] since) ->
      step s (mkState (leases s) (locks s) (<[tid := Done]> (threads s)) (log s ++ [EvReleasedAll tid c])).

(** ** Lemmas *)

Lemma holder_lease sid r x : holder (lease sid r) x = holder r x.
Proof.
  unfold lease. destruct (r !! sid) eqn:E; [done|]. unfold holder.
  destruct (decide (x = sid)) as [-> | Hx].
  - by rewrite lookup_insert_eq, E.
  - by rewrite lookup_insert_ne.
Qed.

Lemma holder_insert sid c r x : holder (<[sid := c]> r) x = if String.eqb sid x then c else holder r x.
Proof.
  unfold holder. destruct (String.eqb_spec sid x) as [-> |].
  - by rewrite lookup_insert_eq.
  - by rewrite lookup_insert_ne.
Qed.

Lemma owner_app sid l1 l2 : owner sid (l1 ++ l2) = foldl (owner_step sid) (owner sid l1) l2.
Proof. unfold owner. by rewrite foldl_app. Qed.

(** The owner a table of holders describes. *)
Definition owner_of (r : LeaseRegistry) (sid : string) : option string :=
  if String.eqb (holder r sid) "" then None else Some (holder r sid).

Definition agrees (l : list event) (r : LeaseRegistry) : Prop := forall sid, owner sid l = owner_of r sid.

Lemma agrees_acquire l r sid c :
  agrees l r -> agrees (l ++ acquired_events sid c r) (Acquire sid c r).2.
Proof.
  intros H x. rewrite owner_app, H. unfold acquired_events, Acquire, owner_of.
  destruct (String.eqb_spec c "") as [-> | Hc]; [done|].
  rewrite holder_lease. destruct (String.eqb_spec (holder r sid) c) as [E|E]; cbn.
  - by rewrite holder_lease.
  - rewrite holder_insert, holder_lease. destruct (String.eqb sid x); [|done].
    by rewrite (proj2 (String.eqb_neq _ _) Hc).
Qed.

Lemma agrees_clear l r sid c :
  c <> "" -> agrees l r -> agrees (l ++ released_events sid c r) (clear_holder c sid r).
Proof.
  intros Hc H x. rewrite owner_app, H. unfold released_events, clear_holder, owner_of.
  rewrite (proj2 (String.eqb_neq _ _) Hc).
  destruct (String.eqb_spec (holder r sid) c) as [E|E]; cbn; [|done].
  rewrite holder_insert. by destruct (String.eqb sid x).
Qed.

Lemma agrees_lease l r sid : agrees l r -> agrees l (lease sid r).
Proof. intros H x. rewrite H. unfold owner_of. by rewrite holder_lease. Qed.

Lemma agrees_release l r sid c :
  agrees l r -> agrees (l ++ released_events sid c r) (Release sid c r).
Proof.
  intros H. unfold Release. destruct (String.eqb_spec c "") as [-> | Hc].
  - unfold released_events. cbn. by rewrite app_nil_r.
  - rewrite holder_lease.
    replace (released_events sid c r) with (released_events sid c (lease sid r))
      by (unfold released_events; by rewrite holder_lease).
    apply (agrees_lease _ _ sid) in H. apply (agrees_clear _ _ sid c Hc) in H.
    unfold clear_holder in H. by rewrite holder_lease in H.
Qed.

Lemma agrees_silent l r e :
  match e with EvAcquired _ _ | EvReleased _ _ => False | _ => True end ->
  agrees l r -> agrees (l ++ [e]) r.
Proof. intros He H x. rewrite owner_app, H. by destruct e. Qed.

(** Whom an operation can make the holder, and whom it leaves one. *)
Lemma holder_acquire sid c r x :
  holder (Acquire sid c r).2 x = holder r x \/
  holder (Acquire sid c r).2 x = c /\ x = sid /\ acquired_events sid c r = [EvAcquired sid c].
Proof.
  unfold Acquire, acquired_events. destruct (String.eqb c ""); [by left|].
  rewrite holder_lease. destruct (String.eqb (holder r sid) c); cbn.
  - left. apply holder_lease.
  - rewrite holder_insert, holder_lease. destruct (String.eqb_spec sid x); [by right|by left].
Qed.

Lemma holder_clear sid c r x : holder (clear_holder c sid r) x = holder r x \/ holder (clear_holder c sid r) x = "".
Proof.
  unfold clear_holder. destruct (String.eqb (holder r sid) c); [|by left].
  rewrite holder_insert. destruct (String.eqb sid x); [by right|by left].
Qed.

Lemma holder_clear_same sid c r : c <> "" -> holder (clear_holder c sid r) sid <> c.
Proof.
  intros Hc. unfold clear_holder. destruct (String.eqb_spec (holder r sid) c); [|done].
  rewrite holder_insert, String.eqb_refl. done.
Qed.

Lemma clear_other sid c r x : x <> sid -> holder (clear_holder c sid r) x = holder r x.
Proof.
  intros Hx. unfold clear_holder. destruct (String.eqb (holder r sid) c); [|done].
  rewrite holder_insert. destruct (String.eqb_spec sid x); [by subst|done].
Qed.

Lemma holder_release sid c r x : holder (Release sid c r) x = holder (if String.eqb c "" then r else clear_holder c sid r) x.
Proof.
  unfold Release. destruct (String.eqb c ""); [done|].
  unfold clear_holder. rewrite holder_lease. destruct (String.eqb (holder r sid) c).
  - by rewrite !holder_insert, holder_lease.
  - by rewrite holder_lease.
Qed.

Lemma acquire_other sid c r x : x <> sid -> holder (Acquire sid c r).2 x = holder r x.
Proof. intros Hx. destruct (holder_acquire sid c r x) as [|(_ & ? & _)]; done. Qed.

Lemma holder_not_member (r : LeaseRegistry) sid : sid ∉ (map_to_list r).*1 -> holder r sid = "".
Proof.
  intros H. unfold holder. destruct (r !! sid) as [c|] eqn:E; [|done].
  exfalso. apply H. apply list_elem_of_fmap. exists (sid, c). by rewrite elem_of_map_to_list.
Qed.

(** ** The invariant *)

(** Since position [i] of the log, [c] has acquired [sid]. *)
Definition acquired_since (l : list event) (i : nat) (sid c : string) : Prop :=
  exists k, i <= k /\ l !! k = Some (EvAcquired sid c).

(** What the point a thread is at says about the rest of the state. *)
Definition pc_ok (s : state) (tid : nat) (p : pc) : Prop :=
  match p with
  | InControl sid c => locks s !! sid = Some tid /\ holder (leases s) sid = c /\ c <> ""
  | InReleaseConnection c rest since =>
      c <> "" /\ log s !! since = Some (EvSnapshot tid c) /\
      forall sid, holder (leases s) sid = c -> sid ∈ rest \/ acquired_since (log s) since sid c
  | _ => True
  end.

(** What an entry of the log says about the log before it. *)
Definition event_ok (l : list event) (e : event) : Prop :=
  match e with
  | EvCommit sid c => owner sid l = Some c
  | EvReleasedAll tid c =>
      exists i, l !! i = Some (EvSnapshot tid c) /\
        forall sid, owner sid l = Some c -> acquired_since l i sid c
  | _ => True
  end.

Record inv (s : state) : Prop := {
  inv_agrees : agrees (log s) (leases s);
  inv_threads : forall tid p, threads s !! tid = Some p -> pc_ok s tid p;
  inv_locks : forall sid tid, locks s !! sid = Some tid ->
              exists c, threads s !! tid = Some (InControl sid c);
  inv_log : forall i e, log s !! i = Some e -> event_ok (take i (log s)) e;
}.

Lemma acquired_since_app l l' i sid c : acquired_since l i sid c -> acquired_since (l ++ l') i sid c.
Proof. intros (k & ? & ?). exists k. split; [done|]. by apply lookup_app_l_Some. Qed.

Lemma acquired_since_last l i sid c : i <= length l -> acquired_since (l ++ [EvAcquired sid c]) i sid c.
Proof. intros H. exists (length l). split; [done|]. by rewrite lookup_app_r, Nat.sub_diag by lia. Qed.

(** A log that grows by admissible entries stays admissible. *)
Lemma lease_log_ok_snoc l e :
  (forall i e, l !! i = Some e -> event_ok (take i l) e) -> event_ok l e ->
  forall i e', (l ++ [e]) !! i = Some e' -> event_ok (take i (l ++ [e])) e'.
Proof.
  intros Hl He i e' Hi. apply lookup_app_Some in Hi as [Hi|[Hle Hi]].
  - rewrite take_app_le by (apply lookup_lt_Some in Hi; lia). by apply Hl.
  - apply list_lookup_singleton_Some in Hi as [Hz <-].
    assert (i = length l) as -> by lia. by rewrite take_app_length.
Qed.

Lemma log_ok_acquired l sid c r :
  (forall i e, l !! i = Some e -> event_ok (take i l) e) ->
  forall i e', (l ++ acquired_events sid c r) !! i = Some e' ->
    event_ok (take i (l ++ acquired_events sid c r)) e'.
Proof.
  intros Hl. unfold acquired_events. repeat case_match; rewrite ?app_nil_r; try done.
  by apply lease_log_ok_snoc.
Qed.

Lemma log_ok_released l sid c r :
  (forall i e, l !! i = Some e -> event_ok (take i l) e) ->
  forall i e', (l ++ released_events sid c r) !! i = Some e' ->
    event_ok (take i (l ++ released_events sid c r)) e'.
Proof.
  intros Hl. unfold released_events. repeat case_match; rewrite ?app_nil_r; try done.
  by apply lease_log_ok_snoc.
Qed.

(** The points of the other threads survive a step that changes the holders as
    described and respects the mutexes. *)
Lemma pc_ok_other s tid p r' evs k' t' :
  pc_ok s tid p ->
  (forall sid, locks s !! sid = Some tid -> k' !! sid = Some tid /\ holder r' sid = holder (leases s) sid) ->
  (forall sid c, holder r' sid = c -> c <> "" ->
     holder (leases s) sid = c \/ evs = [EvAcquired sid c]) ->
  pc_ok (mkState r' k' t' (log s ++ evs)) tid p.
Proof.
  intros Hp Hk Hh. destruct p as [| | |sid c| |c rest since|]; try done; cbn in *.
  - destruct Hp as (Hl & Hho & Hc). destruct (Hk sid Hl) as [? ->]. done.
  - destruct Hp as (Hc & Hs & Hleft). split; [done|]. split; [by apply lookup_app_l_Some|].
    intros sid Hsid. destruct (Hh sid c Hsid Hc) as [Hold| ->].
    + destruct (Hleft sid Hold) as [?|?]; [by left|right]. by apply acquired_since_app.
    + right. apply acquired_since_last. apply lookup_lt_Some in Hs. lia.
Qed.

(** The common shape of a step of thread [tid]. *)
Lemma lease_inv_step s tid p' r' k' evs :
  inv s ->
  agrees (log s ++ evs) r' ->
  (forall sid t, t <> tid -> locks s !! sid = Some t ->
     k' !! sid = Some t /\ holder r' sid = holder (leases s) sid) ->
  (forall sid c, holder r' sid = c -> c <> "" -> holder (leases s) sid = c \/ evs = [EvAcquired sid c]) ->
  pc_ok (mkState r' k' (<[tid := p']> (threads s)) (log s ++ evs)) tid p' ->
  (forall sid t, k' !! sid = Some t ->
     (t = tid /\ exists c, p' = InControl sid c) \/ (t <> tid /\ locks s !! sid = Some t)) ->
  (forall i e, (log s ++ evs) !! i = Some e -> event_ok (take i (log s ++ evs)) e) ->
  inv (mkState r' k' (<[tid := p']> (threads s)) (log s ++ evs)).
Proof.
  intros [Ha Ht Hl Hlog] Ha' Hk Hh Hp' Hk' Hlog'. split; cbn; [done| | |done].
  - intros t p Hp. destruct (decide (t = tid)) as [-> | Hne].
    + rewrite lookup_insert_eq in Hp. by injection Hp as <-.
    + rewrite lookup_insert_ne in Hp by done.
      eapply (pc_ok_other s); [by apply Ht|intros sid; by apply Hk|done].
  - intros sid t Hkt. destruct (Hk' sid t Hkt) as [[-> [c ->]]|[Hne Hs]].
    + exists c. by rewrite lookup_insert_eq.
    + destruct (Hl sid t Hs) as [c Hc]. exists c. by rewrite lookup_insert_ne.
Qed.

(** A step that logs nothing. *)
Lemma inv_step_quiet s tid p' r' k' :
  inv s -> agrees (log s) r' ->
  (forall sid t, t <> tid -> locks s !! sid = Some t ->
     k' !! sid = Some t /\ holder r' sid = holder (leases s) sid) ->
  (forall sid c, holder r' sid = c -> c <> "" -> holder (leases s) sid = c) ->
  pc_ok (mkState r' k' (<[tid := p']> (threads s)) (log s)) tid p' ->
  (forall sid t, k' !! sid = Some t ->
     (t = tid /\ exists c, p' = InControl sid c) \/ (t <> tid /\ locks s !! sid = Some t)) ->
  inv (mkState r' k' (<[tid := p']> (threads s)) (log s)).
Proof.
  intros Hi Ha Hk Hh Hp Hk'. rewrite <- (app_nil_r (log s)).
  apply lease_inv_step; rewrite ?app_nil_r; try done; [|apply Hi].
  intros sid c Hs Hc. left. by apply Hh.
Qed.

(** A thread that is not inside [WithControl] has no mutex. *)
Lemma inv_no_lock s tid p :
  inv s -> threads s !! tid = Some p -> (forall sid c, p <> InControl sid c) ->
  forall sid t, locks s !! sid = Some t -> t <> tid /\ locks s !! sid = Some t.
Proof.
  intros Hi Hp Hne sid t Hl. split; [|done]. intros ->.
  destruct (inv_locks _ Hi sid tid Hl) as [c Hc]. rewrite Hp in Hc. injection Hc as ->. by eapply Hne.
Qed.

Lemma inv_fresh_no_lock s tid :
  inv s -> threads s !! tid = None ->
  forall sid t, locks s !! sid = Some t -> t <> tid /\ locks s !! sid = Some t.
Proof.
  intros Hi Hp sid t Hl. split; [|done]. intros ->.
  destruct (inv_locks _ Hi sid tid Hl) as [c Hc]. by rewrite Hp in Hc.
Qed.

Lemma lease_inv_initial s : initial s -> inv s.
Proof.
  intros (E1 & E2 & E3 & E4). destruct s; cbn in *; subst.
  split; cbn; try done.
Qed.

Lemma inv_acquire s tid sid c :
  inv s -> threads s !! tid = Some (AtAcquire sid c) -> locks s !! sid = None ->
  inv (mkState (Acquire sid c (leases s)).2 (locks s) (<[tid := Done]> (threads s))
         (log s ++ acquired_events sid c (leases s))).
Proof.
  intros Hi Ht Hl. apply lease_inv_step; try done.
  - apply agrees_acquire, Hi.
  - intros x t _ Hx. split; [done|]. apply acquire_other. intros ->. by rewrite Hl in Hx.
  - intros x d Hx Hd. destruct (holder_acquire sid c (leases s) x) as [E|(E & -> & ->)].
    + left. by rewrite <- Hx, E.
    + right. by rewrite <- Hx, E.
  - intros x t Hx. right. by eapply inv_no_lock.
  - apply log_ok_acquired, Hi.
Qed.

Lemma inv_release s tid sid c :
  inv s -> threads s !! tid = Some (AtRelease sid c) -> locks s !! sid = None ->
  inv (mkState (Release sid c (leases s)) (locks s) (<[tid := Done]> (threads s))
         (log s ++ released_events sid c (leases s))).
Proof.
  intros Hi Ht Hl. apply lease_inv_step; try done.
  - apply agrees_release, Hi.
  - intros x t _ Hx. split; [done|]. rewrite holder_release.
    destruct (String.eqb c ""); [done|]. apply clear_other. intros ->. by rewrite Hl in Hx.
  - intros x d Hx Hd. left. rewrite holder_release in Hx. destruct (String.eqb c ""); [done|].
    destruct (holder_clear sid c (leases s) x) as [E|E]; congruence.
  - intros x t Hx. right. by eapply inv_no_lock.
  - apply log_ok_released, Hi.
Qed.

Lemma inv_clear s tid c sid rest since :
  inv s -> threads s !! tid = Some (InReleaseConnection c (sid :: rest) since) -> locks s !! sid = None ->
  inv (mkState (clear_holder c sid (leases s)) (locks s)
         (<[tid := InReleaseConnection c rest since]> (threads s))
         (log s ++ released_events sid c (leases s))).
Proof.
  intros Hi Ht Hl. destruct (inv_threads _ Hi _ _ Ht) as (Hc & Hs & Hrest).
  apply lease_inv_step; try done.
  - apply agrees_clear; [done|apply Hi].
  - intros x t _ Hx. split; [done|]. apply clear_other. intros ->. by rewrite Hl in Hx.
  - intros x d Hx Hd. left. destruct (holder_clear sid c (leases s) x) as [E|E]; congruence.
  - cbn. split; [done|]. split; [by apply lookup_app_l_Some|]. intros x Hx.
    destruct (decide (x = sid)) as [-> | Hne]; [by apply holder_clear_same in Hx|].
    rewrite clear_other in Hx by done. destruct (Hrest x Hx) as [Hin|?].
    + apply elem_of_cons in Hin as [?|?]; [done|by left].
    + right. by apply acquired_since_app.
  - intros x t Hx. right. by eapply inv_no_lock.
  - apply log_ok_released, Hi.
Qed.

Lemma inv_snapshot s tid c :
  inv s -> threads s !! tid = Some (AtReleaseConnection c) -> c <> "" ->
  inv (mkState (leases s) (locks s)
         (<[tid := InReleaseConnection c (map_to_list (leases s)).*1 (length (log s))]> (threads s))
         (log s ++ [EvSnapshot tid c])).
Proof.
  intros Hi Ht Hc. apply lease_inv_step; try done.
  - apply agrees_silent; [done|apply Hi].
  - intros x d Hx _. by left.
  - cbn. split; [done|]. split; [by rewrite lookup_app_r, Nat.sub_diag by done|]. intros x Hx. left.
    destruct (decide (x ∈ (map_to_list (leases s)).*1)) as [|Hn]; [done|].
    apply holder_not_member in Hn. congruence.
  - intros x t Hx. right. by eapply inv_no_lock.
  - apply lease_log_ok_snoc; [apply Hi|done].
Qed.

Lemma inv_release_done s tid c since :
  inv s -> threads s !! tid = Some (InReleaseConnection c [] since) ->
  inv (mkState (leases s) (locks s) (<[tid := Done]> (threads s)) (log s ++ [EvReleasedAll tid c])).
Proof.
  intros Hi Ht. destruct (inv_threads _ Hi _ _ Ht) as (Hc & Hs & Hrest).
  apply lease_inv_step; try done.
  - apply agrees_silent; [done|apply Hi].
  - intros x d Hx _. by left.
  - intros x t Hx. right. by eapply inv_no_lock.
  - apply lease_log_ok_snoc; [apply Hi|]. exists since. split; [done|]. intros x Hx.
    rewrite (inv_agrees _ Hi x) in Hx. unfold owner_of in Hx.
    destruct (String.eqb (holder (leases s) x) ""); [done|]. injection Hx as Hx.
    destruct (Hrest x Hx) as [Hin|?]; [by apply elem_of_nil in Hin|done].
Qed.

Lemma inv_commit s tid sid c :
  inv s -> threads s !! tid = Some (InControl sid c) ->
  inv (mkState (leases s) (locks s) (threads s) (log s ++ [EvCommit sid c])).
Proof.
  intros Hi Ht. destruct (inv_threads _ Hi _ _ Ht) as (Hl & Hh & Hc).
  rewrite <- (insert_id (threads s) tid (InControl sid c)) by done.
  apply lease_inv_step; try done.
  - apply agrees_silent; [done|apply Hi].
  - intros x d Hx _. by left.
  - intros x t Hx. destruct (decide (t = tid)) as [-> |]; [left|by right]. split; [done|].
    destruct (inv_locks _ Hi x tid Hx) as [d Hd]. rewrite Ht in Hd. injection Hd as -> ->. by exists d.
  - apply lease_log_ok_snoc; [apply Hi|]. cbn. rewrite (inv_agrees _ Hi sid). unfold owner_of.
    rewrite Hh. by rewrite (proj2 (String.eqb_neq _ _) Hc).
Qed.

Lemma holds_true r sid c : holds r sid c = true -> holder r sid = c /\ c <> "".
Proof. unfold holds. intros H. bools. done. Qed.

Lemma lease_inv_preserved s s' : inv s -> step s s' -> inv s'.
Proof.
  intros Hi Hst. destruct Hst as
    [s tid p Hf Hp|s tid sid c Ht Hl|s tid sid c Ht Hl|s tid sid c Ht Hl Hh|s tid sid c Ht Hl Hh
    |s tid sid c Ht|s tid sid c Ht|s tid c Ht Hc|s tid Ht|s tid c sid rest since Ht Hl|s tid c since Ht].
  - apply inv_step_quiet; try done; [apply Hi| |].
    + by destruct p.
    + intros x t Hx. right. by eapply inv_fresh_no_lock.
  - by apply inv_acquire.
  - by apply inv_release.
  - apply holds_true in Hh as [Hh Hc]. rewrite holder_lease in Hh.
    apply inv_step_quiet; [done|apply agrees_lease, Hi| | | |].
    + intros x t _ Hx. rewrite holder_lease, lookup_insert_ne; [done|]. intros ->. by rewrite Hl in Hx.
    + intros x d Hx _. by rewrite holder_lease in Hx.
    + cbn. by rewrite lookup_insert_eq, holder_lease.
    + intros x t Hx. destruct (decide (x = sid)) as [-> |].
      * rewrite lookup_insert_eq in Hx. injection Hx as <-. left. split; [done|by exists c].
      * rewrite lookup_insert_ne in Hx by done. right. by eapply inv_no_lock.
  - apply inv_step_quiet; try done; [apply agrees_lease, Hi| | |].
    + intros x t _ Hx. by rewrite holder_lease.
    + intros x d Hx _. by rewrite holder_lease in Hx.
    + intros x t Hx. right. by eapply inv_no_lock.
  - by eapply inv_commit.
  - destruct (inv_threads _ Hi _ _ Ht) as (Hl & _).
    apply inv_step_quiet; try done; [apply Hi| |].
    + intros x t Hne Hx. split; [|done]. rewrite lookup_delete_ne; [done|]. intros ->. congruence.
    + intros x t Hx. apply lookup_delete_Some in Hx as [Hne Hx]. right. split; [|done]. intros ->.
      destruct (inv_locks _ Hi x tid Hx) as [d Hd]. rewrite Ht in Hd. by injection Hd as ->.
  - by apply inv_snapshot.
  - apply inv_step_quiet; try done; [apply Hi|].
    intros x t Hx. right. by eapply inv_no_lock.
  - by apply inv_clear.
  - by eapply inv_release_done.
Qed.

Lemma lease_inv_reachable s : reachable initial step s -> inv s.
Proof. apply reachable_invariant; [apply lease_inv_initial|apply lease_inv_preserved]. Qed.

(** ** Properties *)

(** C4: fencing. In every interleaving of the registry's operations, whatever a
    fenced operation commits is committed while its client owns the session's
    lease, as the log of acquisitions and releases tells it; a client inside the
    fenced section stays the owner until it leaves it; and no two threads are
    inside the section of one session. *)
Theorem control_is_fenced s :
  reachable initial step s ->
  (forall i sid c, log s !! i = Some (EvCommit sid c) -> owner sid (take i (log s)) = Some c) /\
  (forall tid sid c, threads s !! tid = Some (InControl sid c) -> owner sid (log s) = Some c) /\
  (forall tid tid' sid c c', threads s !! tid = Some (InControl sid c) ->
     threads s !! tid' = Some (InControl sid c') -> tid = tid').
Proof.
  intros Hi%lease_inv_reachable. split_and!.
  - intros i sid c H. exact (inv_log _ Hi _ _ H).
  - intros tid sid c H. destruct (inv_threads _ Hi _ _ H) as (_ & Hh & Hc).
    rewrite (inv_agrees _ Hi sid). unfold owner_of. rewrite Hh. by rewrite (proj2 (String.eqb_neq _ _) Hc).
  - intros tid tid' sid c c' H H'. destruct (inv_threads _ Hi _ _ H) as (Hl & _).
    destruct (inv_threads _ Hi _ _ H') as (Hl' & _). congruence.
Qed.

Definition s_init : state := mkState ∅ ∅ ∅ [].

Lemma s_init_reachable : reachable initial step s_init.
Proof. apply reachable_init. repeat split. Qed.

Lemma control_is_fenced_witness : exists s,
  log s = [EvAcquired "s1" "a"; EvCommit "s1" "a"; EvAcquired "s1" "b"] /\
  owner "s1" (take 1 (log s)) = Some "a".
Proof.
  pose proof s_init_reachable as H.
  advance H ltac:(eapply step_spawn with (tid:=0) (p:=(AtAcquire "s1" "a")); try reflexivity; done).
  advance H ltac:(eapply step_acquire with (tid:=0) (sid:="s1") (c:="a"); try reflexivity; done).
  advance H ltac:(eapply step_spawn with (tid:=1) (p:=(AtControl "s1" "a")); try reflexivity; done).
  advance H ltac:(eapply step_control_enter with (tid:=1) (sid:="s1") (c:="a"); try reflexivity; done).
  advance H ltac:(eapply step_commit with (tid:=1) (sid:="s1") (c:="a"); try reflexivity; done).
  advance H ltac:(eapply step_control_exit with (tid:=1) (sid:="s1") (c:="a"); try reflexivity; done).
  advance H ltac:(eapply step_spawn with (tid:=2) (p:=(AtAcquire "s1" "b")); try reflexivity; done).
  advance H ltac:(eapply step_acquire with (tid:=2) (sid:="s1") (c:="b"); try reflexivity; done).
  eexists. split; [|exact (proj1 (control_is_fenced _ H) 1 "s1" "a" eq_refl)]. reflexivity.
Defined.

(** a connection that closes keeps no lease. When [ReleaseConnection] has
    returned, every lease its client still owns was acquired by that client
    after the call took its snapshot of the leases, whatever ran in between. *)
Theorem release_connection_complete s j tid c :
  reachable initial step s -> log s !! j = Some (EvReleasedAll tid c) ->
  exists i, i < j /\ log s !! i = Some (EvSnapshot tid c) /\
    forall sid, owner sid (take j (log s)) = Some c ->
      exists k, i <= k < j /\ log s !! k = Some (EvAcquired sid c).
Proof.
  intros Hi%lease_inv_reachable Hj. destruct (inv_log _ Hi _ _ Hj) as (i & Hs & Hall).
  apply lookup_take_Some in Hs as [Hs Hlt]. exists i. split; [done|]. split; [done|].
  intros sid Ho. destruct (Hall sid Ho) as (k & Hk & Ha).
  apply lookup_take_Some in Ha as [Ha Hlt']. by exists k.
Qed.

Lemma release_connection_complete_witness : exists s,
  log s = [EvAcquired "s1" "a"; EvSnapshot 1 "a"; EvReleased "s1" "a"; EvReleasedAll 1 "a"] /\
  exists i, i < 3 /\ log s !! i = Some (EvSnapshot 1 "a") /\
    forall sid, owner sid (take 3 (log s)) = Some "a" ->
      exists k, i <= k < 3 /\ log s !! k = Some (EvAcquired sid "a").
Proof.
  pose proof s_init_reachable as H.
  advance H ltac:(eapply step_spawn with (tid:=0) (p:=(AtAcquire "s1" "a")); try reflexivity; done).
  advance H ltac:(eapply step_acquire with (tid:=0) (sid:="s1") (c:="a"); try reflexivity; done).
  advance H ltac:(eapply step_spawn with (tid:=1) (p:=(AtReleaseConnection "a")); try reflexivity; done).
  advance H ltac:(eapply step_snapshot with (tid:=1) (c:="a"); try reflexivity; done).
  advance H ltac:(eapply step_clear with (tid:=1) (c:="a") (sid:="s1") (rest:=[]) (since:=1); try reflexivity; done).
  advance H ltac:(eapply step_release_done with (tid:=1) (c:="a") (since:=1); try reflexivity; done).
  eexists. split; [|exact (release_connection_complete _ 3 1 "a" H eq_refl)]. reflexivity.
Defined.

(** no thread waits for ever. A thread whose operation is not finished can
    move, or it waits for the mutex of one session, whose owner is inside its
    fenced section and can leave it: a slow operation blocks its own session
    only, and nothing deadlocks. *)
Theorem leases_never_stuck s tid p :
  reachable initial step s -> threads s !! tid = Some p -> p <> Done ->
  exists tid' s', step s s' /\ threads s' !! tid' = Some Done /\ threads s !! tid' <> Some Done
    /\ (exists sid c, locks s !! sid = Some tid' /\ threads s !! tid' = Some (InControl sid c))
  \/ step s s' /\ tid' = tid /\ threads s' !! tid <> threads s !! tid.
Proof.
  intros Hi%lease_inv_reachable Ht Hd.
  assert (Hwait : forall sid, is_Some (locks s !! sid) ->
    exists tid' s', step s s' /\ threads s' !! tid' = Some Done /\ threads s !! tid' <> Some Done
      /\ (exists sid c, locks s !! sid = Some tid' /\ threads s !! tid' = Some (InControl sid c))).
  { intros sid [t Hl]. destruct (inv_locks _ Hi _ _ Hl) as [c Hc].
    exists t. eexists. split; [by apply (step_control_exit s t sid c)|]. cbn.
    split; [by rewrite lookup_insert_eq|]. split; [by rewrite Hc|by exists sid, c]. }
  assert (Hgo : forall r k l p', step s (mkState r k (<[tid := p']> (threads s)) l) -> p' <> p ->
    exists tid' s', step s s' /\ tid' = tid /\ threads s' !! tid <> threads s !! tid).
  { intros r k l p' Hs Hp. exists tid. eexists. split; [exact Hs|]. cbn.
    rewrite lookup_insert_eq, Ht. split; [done|]. by intros [= ->]. }
  assert (Hor : (exists tid' s', step s s' /\ threads s' !! tid' = Some Done /\ threads s !! tid' <> Some Done
      /\ (exists sid c, locks s !! sid = Some tid' /\ threads s !! tid' = Some (InControl sid c)))
    \/ (exists tid' s', step s s' /\ tid' = tid /\ threads s' !! tid <> threads s !! tid)).
  { destruct p as [sid c|sid c|sid c|sid c|c|c [|sid rest] since|]; try done.
    - destruct (locks s !! sid) eqn:E; [left; by eapply Hwait|right]. eapply Hgo; [by eapply step_acquire|done].
    - destruct (locks s !! sid) eqn:E; [left; by eapply Hwait|right]. eapply Hgo; [by eapply step_release|done].
    - destruct (locks s !! sid) eqn:E; [left; by eapply Hwait|right].
      destruct (holds (lease sid (leases s)) sid c) eqn:Eh;
        [eapply Hgo; [by eapply step_control_enter|done]|eapply Hgo; [by eapply step_control_lost|done]].
    - right. eapply Hgo; [by apply (step_control_exit s tid sid c)|done].
    - right. destruct (decide (c = "")) as [-> |]; [eapply Hgo; [by eapply step_release_nobody|done]|].
      eapply Hgo; [by eapply step_snapshot|done].
    - right. eapply Hgo; [by apply (step_release_done s tid c since)|done].
    - destruct (locks s !! sid) eqn:E; [left; by eapply Hwait|right].
      eapply Hgo; [by apply step_clear|]. intros [= Hr]. by apply (f_equal length) in Hr; cbn in Hr; lia. }
  destruct Hor as [(t & s' & H)|(t & s' & H)]; exists t, s'; [left|right]; done.
Qed.

Lemma leases_never_stuck_witness : exists s tid' s', step s s' /\
  threads s !! 0 = Some (AtAcquire "s1" "a") /\ (tid' = 0 \/ exists c, threads s !! tid' = Some (InControl "s1" c)).
Proof.
  pose proof s_init_reachable as H.
  advance H ltac:(eapply step_spawn with (tid:=0) (p:=(AtAcquire "s1" "a")); try reflexivity; done).
  assert (Hne : AtAcquire "s1" "a" <> Done) by discriminate.
  destruct (leases_never_stuck _ 0 _ H eq_refl Hne) as (t & s' & [(Hs & _ & _ & sid & c & Hl & _)|(Hs & -> & _)]).
  - discriminate Hl.
  - eexists _, 0, s'. split; [exact Hs|]. split; [reflexivity|by left].
Defined.

End Concurrent.
