(* ===== verification/RequestRegistry.v ===== *)
(** * daemon/internal/agentcontrol/idempotency.go: single-flight run submission

    A submission is keyed by (session, request id) and fingerprinted by a hash of
    its input. [recordLocked], [Tracked] and [byRun] are functions on the table;
    [Submit] runs as a thread: it takes the mutex to look its key up, the leader
    of a key starts the run outside it, records the result under it, and then
    wakes the submissions that joined. Each constructor of [step] is one such
    critical section, or the start itself with one of its outcomes. *)

From S2P Require Import Prelude.
#[local] Open Scope string_scope.
#[local] Open Scope list_scope.

Record RequestKey := mkKey { KSession : string; RequestID : string }.
#[export] Instance RequestKey_eq_dec : EqDecision RequestKey.
Proof. solve_decision. Defined.
#[export] Instance RequestKey_countable : Countable RequestKey.
Proof.
  refine (inj_countable' (fun k => (KSession k, RequestID k)) (fun p => mkKey p.1 p.2) _).
  by intros [].
Defined.

(** A run handle, by the run it stands for. *)
Record RunHandle := mkHandle { RunID : string; HSession : string }.
#[export] Instance RunHandle_eq_dec : EqDecision RunHandle.
Proof. solve_decision. Defined.

Definition maxTrackedRequestIDs : Z := 4096.

Inductive submit_error : Type :=
  | ErrRequestConflict (requestID : string)
  | errFlightAborted
  | StartError (e : string).

Section Registry.
(** [inputFingerprint]: SHA-256, of which only equality is used. *)
Context {Hash : Type} `{EqDecision Hash} (fingerprint : string -> Hash).

Record trackedRun := mkTracked { handle : RunHandle; inputHash : Hash }.

(** A flight object: its key and fingerprint, and its result once [done] is closed. *)
Record flight := mkFlight { fkey : RequestKey; fhash : Hash; fdone : option (result submit_error RunHandle) }.

Record registry := mkRegistry {
  table : gmap RequestKey trackedRun;
  order : list RequestKey;
  flights : gmap RequestKey nat;
}.

(** ** The table *)

(** The eviction loop: the oldest entries go while the queue is too long. *)
Fixpoint evict (o : list RequestKey) (t : gmap RequestKey trackedRun)
  : list RequestKey * gmap RequestKey trackedRun * list RequestKey :=
  match o with
  | [] => (o, t, [])
  | oldest :: o' =>
      if (maxTrackedRequestIDs <? Z.of_nat (length o))%Z then
        let '(o'', t', out) := evict o' (delete oldest t) in (o'', t', oldest :: out)
      else (o, t, [])
  end.

(** The keys it evicts are returned too. *)
Definition recordLocked (key : RequestKey) (h : RunHandle) (fp : Hash) (r : registry)
  : registry * list RequestKey :=
  let '(o, t, out) :=
    match table r !! key with
    | Some _ => (order r, table r, [])
    | None => evict (order r ++ [key]) (table r)
    end in
  (mkRegistry (<[key := mkTracked h fp]> t) o (flights r), out).

Definition Tracked (sid requestID : string) (r : registry) : option RunHandle :=
  if String.eqb requestID "" then None else handle <$> table r !! mkKey sid requestID.

(** Go's map iteration order is unspecified; any matching entry may be returned. *)
Definition byRun (sid runID : string) (r : registry) : option RunHandle :=
  find_first (fun h => String.eqb (HSession h) sid && String.eqb (RunID h) runID)
    ((fun kv => handle kv.2) <$> map_to_list (table r)).

(** ** Submit *)

Inductive entry : Type :=
  | Hit (h : RunHandle)
  | Conflict
  | Join (f : nat)
  | Lead.

(** The first critical section. *)
Definition enter (key : RequestKey) (fp : Hash) (r : registry) (heap : gmap nat flight) : entry :=
  match table r !! key with
  | Some tr => if decide (inputHash tr = fp) then Hit (handle tr) else Conflict
  | None =>
      match flights r !! key with
      | Some f =>
          match heap !! f with
          | Some fl => if decide (fhash fl = fp) then Join f else Conflict
          | None => Conflict
          end
      | None => Lead
      end
  end.

(** Where a submission is. [Leading]: about to call [start]; [Started]: it
    returned, the mutex is next; [Recorded]: the flight is removed, [done] is
    not closed; [Panicked], [Aborting]: the same for a start that panicked. *)
Inductive pc : Type :=
  | AtSubmit (key : RequestKey) (input : string)
  | Joined (key : RequestKey) (f : nat) (fp : Hash)
  | Leading (key : RequestKey) (f : nat) (fp : Hash)
  | Started (key : RequestKey) (f : nat) (fp : Hash) (o : result submit_error RunHandle)
  | Recorded (key : RequestKey) (f : nat) (fp : Hash) (o : result submit_error RunHandle)
  | Panicked (key : RequestKey) (f : nat) (fp : Hash)
  | Aborting (key : RequestKey) (f : nat) (fp : Hash)
  | Returned (o : result submit_error RunHandle) (fresh : bool)
  | Crashed.

Inductive event : Type :=
  | EvLed (key : RequestKey) (fp : Hash)
  | EvStarted (key : RequestKey) (fp : Hash) (h : RunHandle)
  | EvEvicted (key : RequestKey)
  | EvReturned (key : RequestKey) (fp : Hash) (o : result submit_error RunHandle) (fresh : bool).

Record state := mkState {
  reg : registry;
  heap : gmap nat flight;
  threads : gmap nat pc;
  log : list event;
}.

Definition initial (s : state) : Prop :=
  reg s = mkRegistry ∅ [] ∅ /\ heap s = ∅ /\ threads s = ∅ /\ log s = [].

Definition del_flight (key : RequestKey) (r : registry) : registry :=
  mkRegistry (table r) (order r) (delete key (flights r)).
Definition add_flight (key : RequestKey) (f : nat) (r : registry) : registry :=
  mkRegistry (table r) (order r) (<[key := f]> (flights r)).

(** The third critical section: the flight goes, a success is recorded. *)
Definition finish (key : RequestKey) (fp : Hash) (o : result submit_error RunHandle) (r : registry)
  : registry * list RequestKey :=
  match o with
  | Ok h => recordLocked key h fp (del_flight key r)
  | Err _ => (del_flight key r, [])
  end.

Definition started_events (key : RequestKey) (fp : Hash) (o : result submit_error RunHandle) : list event :=
  match o with Ok h => [EvStarted key fp h] | Err _ => [] end.

Definition goto (s : state) (tid : nat) (p : pc) (evs : list event) : state :=
  mkState (reg s) (heap s) (<[tid := p]> (threads s)) (log s ++ evs).

Definition ret (s : state) (tid : nat) (key : RequestKey) (fp : Hash) (o : result submit_error RunHandle)
    (fresh : bool) : state :=
  goto s tid (Returned o fresh) [EvReturned key fp o fresh].

Inductive step : state -> state -> Prop :=
  | step_spawn s tid key input :
      threads s !! tid = None -> step s (goto s tid (AtSubmit key input) [])
  (** No request id: a start of its own, nothing recorded. *)
  | step_unkeyed s tid key input o :
      threads s !! tid = Some (AtSubmit key input) -> RequestID key = "" ->
      step s (goto s tid (Returned o true) [])
  | step_hit s tid key input h :
      threads s !! tid = Some (AtSubmit key input) -> RequestID key <> "" ->
      enter key (fingerprint input) (reg s) (heap s) = Hit h ->
      step s (ret s tid key (fingerprint input) (Ok h) false)
  | step_conflict s tid key input :
      threads s !! tid = Some (AtSubmit key input) -> RequestID key <> "" ->
      enter key (fingerprint input) (reg s) (heap s) = Conflict ->
      step s (ret s tid key (fingerprint input) (Err (ErrRequestConflict (RequestID key))) false)
  | step_join s tid key input f :
      threads s !! tid = Some (AtSubmit key input) -> RequestID key <> "" ->
      enter key (fingerprint input) (reg s) (heap s) = Join f ->
      step s (goto s tid (Joined key f (fingerprint input)) [])
  | step_lead s tid key input f :
      threads s !! tid = Some (AtSubmit key input) -> RequestID key <> "" ->
      enter key (fingerprint input) (reg s) (heap s) = Lead -> heap s !! f = None ->
      step s (mkState (add_flight key f (reg s)) (<[f := mkFlight key (fingerprint input) None]> (heap s))
                (<[tid := Leading key f (fingerprint input)]> (threads s))
                (log s ++ [EvLed key (fingerprint input)]))
  (** [start()] returns, with a run or an error, or panics. *)
  | step_start s tid key f fp o :
      threads s !! tid = Some (Leading key f fp) ->
      match o with Err (StartError _) | Ok _ => True | _ => False end ->
      step s (goto s tid (Started key f fp o) (started_events key fp o))
  | step_panic s tid key f fp :
      threads s !! tid = Some (Leading key f fp) ->
      step s (goto s tid (Panicked key f fp) [])
  | step_record s tid key f fp o r' out :
      threads s !! tid = Some (Started key f fp o) ->
      finish key fp o (reg s) = (r', out) ->
      step s (mkState r' (heap s) (<[tid := Recorded key f fp o]> (threads s)) (log s ++ (EvEvicted <$> out)))
  (** The result is written and [done] closed. *)
  | step_close s tid key f fp o :
      threads s !! tid = Some (Recorded key f fp o) ->
      step s (mkState (reg s) (<[f := mkFlight key fp (Some o)]> (heap s))
                (<[tid := Returned o true]> (threads s)) (log s ++ [EvReturned key fp o true]))
  | step_abort_delete s tid key f fp :
      threads s !! tid = Some (Panicked key f fp) ->
      step s (mkState (del_flight key (reg s)) (heap s) (<[tid := Aborting key f fp]> (threads s)) (log s ++ []))
  | step_abort_close s tid key f fp :
      threads s !! tid = Some (Aborting key f fp) ->
      step s (mkState (reg s) (<[f := mkFlight key fp (Some (Err errFlightAborted))]> (heap s))
                (<[tid := Crashed]> (threads s)) (log s ++ []))
  (** A joined submission wakes when [done] is closed. *)
  | step_wake s tid key f fp fl o :
      threads s !! tid = Some (Joined key f fp) ->
      heap s !! f = Some fl -> fdone fl = Some o ->
      step s (ret s tid key fp o false).

(** ** Lemmas: the table *)

Record table_ok (r : registry) : Prop := {
  ok_keys : forall k, is_Some (table r !! k) <-> k ∈ order r;
  ok_nodup : NoDup (order r);
  ok_size : (Z.of_nat (length (order r)) <= maxTrackedRequestIDs)%Z;
}.

Lemma evict_spec o t o' t' out :
  evict o t = (o', t', out) ->
  o = out ++ o' /\ Z.of_nat (length o') = Z.min (Z.of_nat (length o)) maxTrackedRequestIDs /\
  (forall k, k ∉ out -> t' !! k = t !! k) /\ (forall k, k ∈ out -> t' !! k = None).
Proof.
  revert t out. induction o as [|k o IH]; intros t out; cbn.
  { intros [= <- <- <-]. repeat split; set_solver. }
  destruct (Z.ltb_spec maxTrackedRequestIDs (Z.of_nat (S (length o)))) as [Hlt|Hge].
  - destruct (evict o (delete k t)) as [[o1 t1] out1] eqn:E. intros [= <- <- <-].
    destruct (IH _ _ E) as (-> & Hlen & Hkeep & Hgone). split; [done|]. split; [lia|]. split.
    + intros x Hx. rewrite not_elem_of_cons in Hx. destruct Hx as [Hne Hx].
      rewrite Hkeep by done. by rewrite lookup_delete_ne.
    + intros x Hx. destruct (decide (x ∈ out1)) as [|Hn]; [by apply Hgone|].
      rewrite Hkeep by done. apply elem_of_cons in Hx as [-> |]; [|done]. by rewrite lookup_delete_eq.
  - intros [= <- <- <-]. split; [done|]. split; [cbn; lia|]. split; [done|]. set_solver.
Qed.

(** What recording a new key does: the key is in, the evicted ones are out, the
    others stay. *)
Lemma record_new key h fp r r' out :
  table_ok r -> table r !! key = None -> recordLocked key h fp r = (r', out) ->
  table_ok r' /\ table r' !! key = Some (mkTracked h fp) /\ flights r' = flights r /\
  (forall k, k <> key -> k ∉ out -> table r' !! k = table r !! k) /\
  (forall k, k ∈ out -> table r' !! k = None).
Proof.
  intros [Hk Hnd Hs] Hnone. unfold recordLocked. rewrite Hnone.
  destruct (evict (order r ++ [key]) (table r)) as [[o t] out'] eqn:E. intros [= <- <-].
  apply evict_spec in E as (Ho & Hlen & Hkeep & Hgone).
  assert (Hnd' : NoDup (out' ++ o)).
  { rewrite <- Ho. apply NoDup_app. split_and!; [done| |apply NoDup_singleton].
    intros x Hx Hin%list_elem_of_singleton. subst x. apply Hk in Hx. rewrite Hnone in Hx. by destruct Hx. }
  assert (exists o1, o = o1 ++ [key] /\ order r = out' ++ o1) as (o1 & -> & Ho1).
  { destruct o as [|x o2] using rev_ind.
    - rewrite length_app in Hlen. cbn in Hlen. unfold maxTrackedRequestIDs in Hlen. lia.
    - rewrite app_assoc in Ho. apply app_inj_tail in Ho as [-> ->]. by exists o2. }
  apply NoDup_app in Hnd' as (_ & Hdis & Hnd').
  assert (Hout : key ∉ out') by (intros Hin; apply (Hdis key Hin), elem_of_app; right; by left).
  cbn. split_and!.
  - split; cbn; [|done|lia]. intros k. destruct (decide (k = key)) as [-> | Hne].
    + rewrite lookup_insert_eq. split; [intros _|by eauto]. apply elem_of_app. right. by left.
    + rewrite lookup_insert_ne by done. destruct (decide (k ∈ out')) as [Hin|Hn].
      * rewrite Hgone by done. split; [by intros []|]. intros Hin'. by destruct (Hdis k Hin).
      * rewrite Hkeep by done. rewrite Hk, Ho1, !elem_of_app, list_elem_of_singleton. tauto.
  - by rewrite lookup_insert_eq.
  - done.
  - intros k Hne Hn. rewrite lookup_insert_ne by done. by apply Hkeep.
  - intros k Hin. rewrite lookup_insert_ne by congruence. by apply Hgone.
Qed.

(** ** The invariant *)

(** The flight a thread is responsible for, and whether it is still registered. *)
Definition owns (p : pc) : option (RequestKey * nat * Hash) :=
  match p with
  | Leading key f fp | Started key f fp _ | Recorded key f fp _ | Panicked key f fp | Aborting key f fp =>
      Some (key, f, fp)
  | _ => None
  end.

Definition registered (p : pc) : option (RequestKey * nat * Hash) :=
  match p with
  | Leading key f fp | Started key f fp _ | Panicked key f fp => Some (key, f, fp)
  | _ => None
  end.

Lemma registered_owns p x : registered p = Some x -> owns p = Some x.
Proof. by destruct p. Qed.

Definition live (s : state) (key : RequestKey) : Prop :=
  is_Some (table (reg s) !! key) \/
  exists tid f fp h, threads s !! tid = Some (Started key f fp (Ok h)).

Definition evicted_since (l : list event) (i : nat) (key : RequestKey) : Prop :=
  exists k, i < k /\ l !! k = Some (EvEvicted key).

Definition pc_ok (s : state) (p : pc) : Prop :=
  match p with
  | Joined key f fp => exists fl, heap s !! f = Some fl /\ fkey fl = key /\ fhash fl = fp
  | Started key _ fp (Ok h) | Recorded key _ fp (Ok h) => EvStarted key fp h ∈ log s
  | _ => True
  end.

Definition event_ok (l : list event) (e : event) : Prop :=
  match e with
  | EvStarted key _ _ =>
      forall i fp h, l !! i = Some (EvStarted key fp h) -> evicted_since l i key
  | EvReturned key fp (Ok h) _ => EvStarted key fp h ∈ l
  | EvReturned key fp (Err (ErrRequestConflict _)) _ => exists fp', fp' <> fp /\ EvLed key fp' ∈ l
  | _ => True
  end.

Definition log_ok (l : list event) : Prop := forall i e, l !! i = Some e -> event_ok (take i l) e.

Record inv (s : state) : Prop := {
  inv_table : table_ok (reg s);
  inv_registered : forall tid p key f fp, threads s !! tid = Some p -> registered p = Some (key, f, fp) ->
    flights (reg s) !! key = Some f /\ table (reg s) !! key = None;
  inv_flights : forall key f, flights (reg s) !! key = Some f ->
    exists tid p fp, threads s !! tid = Some p /\ registered p = Some (key, f, fp);
  inv_owns : forall tid p key f fp, threads s !! tid = Some p -> owns p = Some (key, f, fp) ->
    heap s !! f = Some (mkFlight key fp None);
  inv_unique : forall tid tid' p p' key key' f fp fp', threads s !! tid = Some p -> threads s !! tid' = Some p' ->
    owns p = Some (key, f, fp) -> owns p' = Some (key', f, fp') -> tid = tid';
  inv_open : forall f fl, heap s !! f = Some fl -> fdone fl = None ->
    exists tid p, threads s !! tid = Some p /\ owns p = Some (fkey fl, f, fhash fl);
  inv_done : forall f fl h, heap s !! f = Some fl -> fdone fl = Some (Ok h) ->
    EvStarted (fkey fl) (fhash fl) h ∈ log s;
  inv_conflictfree : forall f fl r, heap s !! f = Some fl -> fdone fl <> Some (Err (ErrRequestConflict r));
  inv_heap_led : forall f fl, heap s !! f = Some fl -> EvLed (fkey fl) (fhash fl) ∈ log s;
  inv_tracked : forall key tr, table (reg s) !! key = Some tr ->
    EvStarted key (inputHash tr) (handle tr) ∈ log s /\ EvLed key (inputHash tr) ∈ log s;
  inv_pcs : forall tid p, threads s !! tid = Some p -> pc_ok s p;
  inv_outcomes : forall tid key f fp r, threads s !! tid <> Some (Started key f fp (Err (ErrRequestConflict r)))
                 /\ threads s !! tid <> Some (Recorded key f fp (Err (ErrRequestConflict r)));
  inv_since : forall i key fp h, log s !! i = Some (EvStarted key fp h) ->
    live s key \/ evicted_since (log s) i key;
  inv_log : log_ok (log s);
}.

Lemma request_log_ok_snoc l e : log_ok l -> event_ok l e -> log_ok (l ++ [e]).
Proof.
  intros Hl He i e' Hi. apply lookup_app_Some in Hi as [Hi|[Hle Hi]].
  - rewrite take_app_le by (apply lookup_lt_Some in Hi; lia). by apply Hl.
  - apply list_lookup_singleton_Some in Hi as [Hz <-].
    assert (i = length l) as -> by lia. by rewrite take_app_length.
Qed.

Lemma log_ok_evictions l ks : log_ok l -> log_ok (l ++ (EvEvicted <$> ks)).
Proof.
  revert l. induction ks as [|k ks IH]; intros l Hl; cbn; [by rewrite app_nil_r|].
  change (EvEvicted k :: (EvEvicted <$> ks)) with ([EvEvicted k] ++ (EvEvicted <$> ks)).
  rewrite app_assoc. apply IH. by apply request_log_ok_snoc.
Qed.

Lemma evicted_since_app l l' i key : evicted_since l i key -> evicted_since (l ++ l') i key.
Proof. intros (k & ? & ?). exists k. split; [done|]. by apply lookup_app_l_Some. Qed.

Lemma pc_ok_mono s r' h' t' evs p :
  pc_ok s p -> (forall f fl, heap s !! f = Some fl -> exists d, h' !! f = Some (mkFlight (fkey fl) (fhash fl) d)) ->
  pc_ok (mkState r' h' t' (log s ++ evs)) p.
Proof.
  intros Hp Hh. destruct p as [|key f fp| |key f fp []|key f fp []| | | |]; try done; cbn in *.
  - destruct Hp as (fl & Hf & <- & <-). destruct (Hh _ _ Hf) as [d Hd]. by exists (mkFlight (fkey fl) (fhash fl) d).
  - apply elem_of_app. by left.
  - apply elem_of_app. by left.
Qed.

(** A step that changes nothing but the point of one thread, which keeps the
    flights it is responsible for. *)
Lemma inv_goto s tid p' evs :
  inv s ->
  (threads s !! tid ≫= owns) = owns p' -> (threads s !! tid ≫= registered) = registered p' ->
  (forall key f fp h, threads s !! tid = Some (Started key f fp (Ok h)) -> False) ->
  pc_ok (goto s tid p' evs) p' ->
  (forall key f fp r, p' <> Started key f fp (Err (ErrRequestConflict r))
                      /\ p' <> Recorded key f fp (Err (ErrRequestConflict r))) ->
  (forall key fp h, EvStarted key fp h ∈ evs -> live (goto s tid p' evs) key) ->
  log_ok (log s ++ evs) ->
  inv (goto s tid p' evs).
Proof.
  intros Hi Ho Hr Hns Hp Hout Hev Hlog.
  assert (Hth : forall t p, <[tid := p']> (threads s) !! t = Some p ->
    exists q, owns q = owns p /\ registered q = registered p /\
      (threads s !! t = Some q \/ (t = tid /\ owns p = None /\ registered p = None))).
  { intros t p Ht. destruct (decide (t = tid)) as [-> | Hne].
    - rewrite lookup_insert_eq in Ht. injection Ht as <-. destruct (threads s !! tid) as [q|] eqn:E; cbn in Ho, Hr.
      + exists q. split_and!; auto.
      + exists p'. split_and!; auto.
    - rewrite lookup_insert_ne in Ht by done. exists p. auto. }
  assert (Hth' : forall t q, threads s !! t = Some q -> exists p, <[tid := p']> (threads s) !! t = Some p
                   /\ owns p = owns q /\ registered p = registered q).
  { intros t q Ht. destruct (decide (t = tid)) as [-> | Hne].
    - exists p'. rewrite lookup_insert_eq. rewrite Ht in Ho, Hr. cbn in Ho, Hr. auto.
    - exists q. by rewrite lookup_insert_ne. }
  split; cbn.
  - apply Hi.
  - intros t p key f fp Ht Hreg. destruct (Hth t p Ht) as (q & _ & Eq & [Hq|(_ & _ & Hn)]); [|congruence].
    eapply inv_registered; [done|exact Hq|by rewrite Eq].
  - intros key f Hf. destruct (inv_flights _ Hi _ _ Hf) as (t & q & fp & Hq & Hreg).
    destruct (Hth' t q Hq) as (p & ? & _ & ?). exists t, p, fp. split; [done|congruence].
  - intros t p key f fp Ht Hown. destruct (Hth t p Ht) as (q & Eq & _ & [Hq|(_ & Hn & _)]); [|congruence].
    eapply inv_owns; [done|exact Hq|by rewrite Eq].
  - intros t t' p q key key' f fp fp' Ht Ht' H1 H2.
    destruct (Hth t p Ht) as (p1 & Ep & _ & [Hp1|(_ & Hn & _)]); [|congruence].
    destruct (Hth t' q Ht') as (q1 & Eq & _ & [Hq1|(_ & Hn & _)]); [|congruence].
    eapply inv_unique; [done|exact Hp1|exact Hq1|by rewrite Ep|by rewrite Eq].
  - intros f fl Hf Hd. destruct (inv_open _ Hi _ _ Hf Hd) as (t & q & Hq & Hown).
    destruct (Hth' t q Hq) as (p & ? & ? & _). exists t, p. split; [done|congruence].
  - intros f fl h Hf Hd. apply elem_of_app. left. by eapply inv_done.
  - apply Hi.
  - intros f fl Hf. apply elem_of_app. left. by eapply inv_heap_led.
  - intros key tr Ht. destruct (inv_tracked _ Hi _ _ Ht). split; apply elem_of_app; by left.
  - intros t p Ht. destruct (decide (t = tid)) as [-> | Hne].
    + rewrite lookup_insert_eq in Ht. by injection Ht as <-.
    + rewrite lookup_insert_ne in Ht by done. apply (pc_ok_mono s); [by eapply inv_pcs|].
      intros f [] Hf. by eexists.
  - intros t key f fp r. destruct (decide (t = tid)) as [-> | Hne].
    + rewrite lookup_insert_eq. destruct (Hout key f fp r). split; congruence.
    + rewrite lookup_insert_ne by done. by apply inv_outcomes.
  - intros i key fp h Hl. apply lookup_app_Some in Hl as [Hl|[_ Hl]].
    + destruct (inv_since _ Hi _ _ _ _ Hl) as [[?|(t & f & fp0 & h0 & Ht)]|?].
      * left. by left.
      * left. right. exists t, f, fp0, h0. cbn. rewrite lookup_insert_ne; [done|]. intros <-. by eapply Hns.
      * right. by apply evicted_since_app.
    + left. apply (Hev key fp h). by eapply list_elem_of_lookup_2.
  - done.
Qed.

Lemma enter_lead key fp r h :
  enter key fp r h = Lead -> table r !! key = None /\ flights r !! key = None.
Proof. unfold enter. intros H. repeat case_match; try done. Qed.

Lemma live_mono s r' h' t' l' key :
  live s key ->
  (is_Some (table (reg s) !! key) -> is_Some (table r' !! key)) ->
  (forall tid f fp h, threads s !! tid = Some (Started key f fp (Ok h)) ->
     t' !! tid = Some (Started key f fp (Ok h))) ->
  live (mkState r' h' t' l') key.
Proof.
  intros [H|(tid & f & fp & h & H)] Htab Hth; [by left; apply Htab|].
  right. exists tid, f, fp, h. by apply Hth.
Qed.

Lemma inv_lead s tid key input f :
  inv s -> threads s !! tid = Some (AtSubmit key input) ->
  enter key (fingerprint input) (reg s) (heap s) = Lead -> heap s !! f = None ->
  inv (mkState (add_flight key f (reg s)) (<[f := mkFlight key (fingerprint input) None]> (heap s))
         (<[tid := Leading key f (fingerprint input)]> (threads s)) (log s ++ [EvLed key (fingerprint input)])).
Proof.
  intros Hi Ht [Htab Hfl]%enter_lead Hfresh. set (fp := fingerprint input).
  assert (Hne : forall t p x g y, threads s !! t = Some p -> owns p = Some (x, g, y) -> g <> f).
  { intros t p x g y Hp Ho ->. by rewrite (inv_owns _ Hi _ _ _ _ _ Hp Ho) in Hfresh. }
  split; cbn.
  - destruct (inv_table _ Hi). by split.
  - intros t p x g y [[<- <-]|[Hn Hp]]%lookup_insert_Some Hr; cbn in Hr.
    + injection Hr as <- <- <-. by rewrite lookup_insert_eq.
    + destruct (inv_registered _ Hi _ _ _ _ _ Hp Hr) as [Hf ?]. split; [|done].
      rewrite lookup_insert_ne; [done|]. intros ->. by rewrite Hfl in Hf.
  - intros x g [[<- <-]|[Hn Hg]]%lookup_insert_Some.
    + exists tid, (Leading key f fp), fp. by rewrite lookup_insert_eq.
    + destruct (inv_flights _ Hi _ _ Hg) as (t & p & y & Hp & Hr). exists t, p, y.
      rewrite lookup_insert_ne; [done|]. intros <-. rewrite Ht in Hp. by injection Hp as <-.
  - intros t p x g y [[<- <-]|[Hn Hp]]%lookup_insert_Some Ho; cbn in Ho.
    + injection Ho as <- <- <-. by rewrite lookup_insert_eq.
    + rewrite lookup_insert_ne; [by eapply inv_owns|]. intros <-. by eapply Hne.
  - intros t t' p p' x x' g y y' [[<- <-]|[Hn Hp]]%lookup_insert_Some
      [[<- <-]|[Hn' Hp']]%lookup_insert_Some Ho Ho'; [done| | |by eapply inv_unique].
    + cbn in Ho. injection Ho as <- <- <-. by destruct (Hne _ _ _ _ _ Hp' Ho').
    + cbn in Ho'. injection Ho' as <- <- <-. by destruct (Hne _ _ _ _ _ Hp Ho).
  - intros g fl [[<- <-]|[Hn Hg]]%lookup_insert_Some Hd.
    + exists tid, (Leading key f fp). by rewrite lookup_insert_eq.
    + destruct (inv_open _ Hi _ _ Hg Hd) as (t & p & Hp & Ho). exists t, p.
      rewrite lookup_insert_ne; [done|]. intros <-. rewrite Ht in Hp. by injection Hp as <-.
  - intros g fl h [[<- <-]|[Hn Hg]]%lookup_insert_Some Hd; [done|].
    apply elem_of_app. left. by eapply inv_done.
  - intros g fl r [[<- <-]|[Hn Hg]]%lookup_insert_Some; [done|]. by eapply inv_conflictfree.
  - intros g fl [[<- <-]|[Hn Hg]]%lookup_insert_Some; apply elem_of_app; [right; by left|left].
    by eapply inv_heap_led.
  - intros x tr Hx. destruct (inv_tracked _ Hi _ _ Hx). split; apply elem_of_app; by left.
  - intros t p [[<- <-]|[Hn Hp]]%lookup_insert_Some; [done|].
    apply (pc_ok_mono s); [by eapply inv_pcs|]. intros g fl Hg. exists (fdone fl).
    rewrite lookup_insert_ne by congruence. by destruct fl.
  - intros t x g y r. destruct (decide (t = tid)) as [-> |].
    + by rewrite lookup_insert_eq.
    + rewrite lookup_insert_ne by done. by apply inv_outcomes.
  - intros i x y h Hl. apply lookup_app_Some in Hl as [Hl|[_ Hl]].
    + destruct (inv_since _ Hi _ _ _ _ Hl) as [Hlive|]; [left|right; by apply evicted_since_app].
      eapply live_mono; [done|done|]. intros t g z h' Hp. rewrite lookup_insert_ne; [done|]. congruence.
    + by apply list_lookup_singleton_Some in Hl as [_ [=]].
  - by apply request_log_ok_snoc; [apply Hi|].
Qed.

(** A flight whose [done] is closed with [d] by its owner, which is then gone. *)
Lemma inv_close_flight s tid p0 p' key f fp d evs :
  inv s -> threads s !! tid = Some p0 -> owns p0 = Some (key, f, fp) -> registered p0 = None ->
  owns p' = None -> registered p' = None ->
  match p' with Returned _ _ | Crashed => True | _ => False end ->
  (forall h, d = Ok h -> EvStarted key fp h ∈ log s) -> (forall r, d <> Err (ErrRequestConflict r)) ->
  (forall x y h, EvStarted x y h ∉ evs) -> log_ok (log s ++ evs) ->
  inv (mkState (reg s) (<[f := mkFlight key fp (Some d)]> (heap s)) (<[tid := p']> (threads s)) (log s ++ evs)).
Proof.
  intros Hi Ht Ho0 Hr0 Ho' Hr' Hret Hd Hdc Hev Hlog.
  pose proof (inv_owns _ Hi _ _ _ _ _ Ht Ho0) as Hf.
  assert (Hne : forall t p x g y, t <> tid -> threads s !! t = Some p -> owns p = Some (x, g, y) -> g <> f).
  { intros t p x g y Hn Hp Ho ->. apply Hn. by eapply inv_unique. }
  split; cbn; try apply Hi.
  - intros t p x g y [[<- <-]|[Hn Hp]]%lookup_insert_Some Hr; [congruence|]. by eapply inv_registered.
  - intros x g Hg. destruct (inv_flights _ Hi _ _ Hg) as (t & p & y & Hp & Hr). exists t, p, y.
    rewrite lookup_insert_ne; [done|]. intros <-. congruence.
  - intros t p x g y [[<- <-]|[Hn Hp]]%lookup_insert_Some Ho; [congruence|].
    rewrite lookup_insert_ne; [by eapply inv_owns|]. intros <-. by eapply Hne.
  - intros t t' p q x x' g y y' [[<- <-]|[Hn Hp]]%lookup_insert_Some
      [[<- <-]|[Hn' Hq]]%lookup_insert_Some Ho Hoq; try congruence. by eapply inv_unique.
  - intros g fl [[<- <-]|[Hn Hg]]%lookup_insert_Some Hdn; [done|].
    destruct (inv_open _ Hi _ _ Hg Hdn) as (t & p & Hp & Ho). exists t, p.
    rewrite lookup_insert_ne; [done|]. intros <-. congruence.
  - intros g fl h [[<- <-]|[Hn Hg]]%lookup_insert_Some Hdn; apply elem_of_app; left.
    + cbn in *. injection Hdn as ->. by apply Hd.
    + by eapply inv_done.
  - intros g fl r [[<- <-]|[Hn Hg]]%lookup_insert_Some; [|by eapply inv_conflictfree].
    cbn. intros [= ->]. by eapply Hdc.
  - intros g fl [[<- <-]|[Hn Hg]]%lookup_insert_Some; apply elem_of_app; left.
    + exact (inv_heap_led _ Hi _ _ Hf).
    + by eapply inv_heap_led.
  - intros x tr Hx. destruct (inv_tracked _ Hi _ _ Hx). split; apply elem_of_app; by left.
  - intros t p [[<- <-]|[Hn Hp]]%lookup_insert_Some; [by destruct p'|].
    apply (pc_ok_mono s); [by eapply inv_pcs|]. intros g fl Hg.
    destruct (decide (g = f)) as [-> |].
    + rewrite lookup_insert_eq. exists (Some d). rewrite Hf in Hg. by injection Hg as <-.
    + rewrite lookup_insert_ne by done. exists (fdone fl). by destruct fl.
  - intros t x g y r. destruct (decide (t = tid)) as [-> |].
    + rewrite lookup_insert_eq. by destruct p'.
    + rewrite lookup_insert_ne by done. by apply inv_outcomes.
  - intros i x y h Hl. apply lookup_app_Some in Hl as [Hl|[_ Hl]].
    + destruct (inv_since _ Hi _ _ _ _ Hl) as [Hlive|]; [left|right; by apply evicted_since_app].
      eapply live_mono; [done|done|]. intros t g z h' Hp. rewrite lookup_insert_ne; [done|].
      intros <-. rewrite Ht in Hp. injection Hp as ->. by cbn in Hr0.
    + apply list_elem_of_lookup_2 in Hl. by destruct (Hev x y h).
  - done.
Qed.

(** A flight leaves the map of flights, its owner keeps it. *)
Lemma inv_unregister s tid p0 p' key f fp r' out :
  inv s -> threads s !! tid = Some p0 -> registered p0 = Some (key, f, fp) ->
  owns p' = Some (key, f, fp) -> registered p' = None ->
  (forall x g y h, p' <> Started x g y h) -> (forall x g y r, p' <> Recorded x g y (Err (ErrRequestConflict r))) ->
  pc_ok s p' -> table_ok r' -> flights r' = delete key (flights (reg s)) ->
  (forall k tr, table r' !! k = Some tr -> table (reg s) !! k = Some tr \/
     (k = key /\ EvStarted key (inputHash tr) (handle tr) ∈ log s /\ EvLed key (inputHash tr) ∈ log s)) ->
  (forall k, is_Some (table (reg s) !! k) -> is_Some (table r' !! k) \/ k ∈ out) ->
  (forall h, p0 = Started key f fp (Ok h) -> is_Some (table r' !! key)) ->
  inv (mkState r' (heap s) (<[tid := p']> (threads s)) (log s ++ (EvEvicted <$> out))).
Proof.
  intros Hi Ht Hr0 Ho' Hr' Hns Hnr Hpc Htab Hfl Htr Hkeep Hrec.
  pose proof (registered_owns _ _ Hr0) as Ho0.
  destruct (inv_registered _ Hi _ _ _ _ _ Ht Hr0) as [Hf0 _].
  split; cbn; [done|..].
  - intros t p x g y [[<- <-]|[Hn Hp]]%lookup_insert_Some Hr; [congruence|].
    destruct (inv_registered _ Hi _ _ _ _ _ Hp Hr) as [Hg Hnone].
    assert (x <> key).
    { intros ->. rewrite Hf0 in Hg. injection Hg as <-. apply Hn.
      eapply inv_unique; [exact Hi|exact Ht|exact Hp|exact Ho0|by apply registered_owns]. }
    rewrite Hfl, lookup_delete_ne by done. split; [done|].
    destruct (table r' !! x) as [tr|] eqn:E; [|done].
    destruct (Htr _ _ E) as [?|[? _]]; congruence.
  - intros x g Hg. rewrite Hfl in Hg. apply lookup_delete_Some in Hg as [Hn Hg].
    destruct (inv_flights _ Hi _ _ Hg) as (t & p & y & Hp & Hr). exists t, p, y.
    rewrite lookup_insert_ne; [done|]. intros <-. congruence.
  - intros t p x g y [[<- <-]|[Hn Hp]]%lookup_insert_Some Ho; [|by eapply inv_owns].
    rewrite Ho' in Ho. injection Ho as <- <- <-. by eapply inv_owns.
  - intros t t' p q x x' g y y' [[<- <-]|[Hn Hp]]%lookup_insert_Some
      [[<- <-]|[Hn' Hq]]%lookup_insert_Some Ho Hoq; [done| | |by eapply inv_unique].
    + rewrite Ho' in Ho. injection Ho as <- <- <-. by eapply inv_unique.
    + rewrite Ho' in Hoq. injection Hoq as <- <- <-. by eapply inv_unique.
  - intros g fl Hg Hd. destruct (inv_open _ Hi _ _ Hg Hd) as (t & p & Hp & Ho).
    destruct (decide (t = tid)) as [-> |].
    + exists tid, p'. rewrite lookup_insert_eq. split; [done|]. congruence.
    + exists t, p. by rewrite lookup_insert_ne.
  - intros g fl h Hg Hd. apply elem_of_app. left. by eapply inv_done.
  - apply Hi.
  - intros g fl Hg. apply elem_of_app. left. by eapply inv_heap_led.
  - intros x tr Hx. destruct (Htr _ _ Hx) as [Hx'|(-> & ? & ?)].
    + destruct (inv_tracked _ Hi _ _ Hx'). split; apply elem_of_app; by left.
    + split; apply elem_of_app; by left.
  - intros t p [[<- <-]|[Hn Hp]]%lookup_insert_Some; (apply (pc_ok_mono s); [|intros g [] Hg; by eexists]).
    + done.
    + by eapply inv_pcs.
  - intros t x g y r. destruct (decide (t = tid)) as [-> |].
    + rewrite lookup_insert_eq. split; intros [= ->]; [by eapply Hns|by eapply Hnr].
    + rewrite lookup_insert_ne by done. by apply inv_outcomes.
  - intros i x y h Hl. apply lookup_app_Some in Hl as [Hl|[_ Hl]].
    + assert (Hevd : x ∈ out -> evicted_since (log s ++ (EvEvicted <$> out)) i x).
      { intros (k & Hk)%list_elem_of_lookup_1. exists (length (log s) + k).
        split; [apply lookup_lt_Some in Hl; lia|].
        rewrite lookup_app_r by lia. replace (length (log s) + k - length (log s)) with k by lia.
        rewrite list_lookup_fmap. by rewrite Hk. }
      destruct (inv_since _ Hi _ _ _ _ Hl) as [[Hin|(t & g & z & h' & Hp)]|?].
      * destruct (Hkeep _ Hin); [left; by left|right; by apply Hevd].
      * left. destruct (decide (t = tid)) as [-> |].
        -- rewrite Ht in Hp. injection Hp as ->. cbn in Hr0. injection Hr0 as -> -> ->.
           left. by eapply Hrec.
        -- right. exists t, g, z, h'. cbn. by rewrite lookup_insert_ne.
      * right. by apply evicted_since_app.
    + apply list_elem_of_lookup_2 in Hl. by apply list_elem_of_fmap in Hl as (? & [=] & _).
  - apply log_ok_evictions, Hi.
Qed.

Lemma table_ok_del key r : table_ok r -> table_ok (del_flight key r).
Proof. intros []. by split. Qed.

Lemma inv_record s tid key f fp o r' out :
  inv s -> threads s !! tid = Some (Started key f fp o) -> finish key fp o (reg s) = (r', out) ->
  inv (mkState r' (heap s) (<[tid := Recorded key f fp o]> (threads s)) (log s ++ (EvEvicted <$> out))).
Proof.
  intros Hi Ht Hfin. destruct (inv_registered _ Hi _ _ _ _ _ Ht eq_refl) as [_ Hnone].
  pose proof (inv_pcs _ Hi _ _ Ht) as Hpc.
  assert (Hnc : forall x g y r, Recorded key f fp o <> Recorded x g y (Err (ErrRequestConflict r))).
  { intros x g y r E. injection E as ????. subst. by destruct (inv_outcomes _ Hi tid x g y r). }
  assert (Hled : EvLed key fp ∈ log s) by exact (inv_heap_led _ Hi _ _ (inv_owns _ Hi _ _ _ _ _ Ht eq_refl)).
  destruct o as [h|e]; cbn in Hfin.
  - apply record_new in Hfin as (Hok & Hkey & Hfl & Hsame & Hgone);
      [|by apply table_ok_del, Hi|done].
    eapply inv_unregister; try done.
    + intros k tr Hk. destruct (decide (k = key)) as [-> | Hne].
      * rewrite Hkey in Hk. injection Hk as <-. right. done.
      * left. destruct (decide (k ∈ out)) as [Hin|Hn]; [by rewrite (Hgone k Hin) in Hk|].
        pose proof (Hsame k Hne Hn) as E. cbn in E. congruence.
    + intros k Hk. destruct (decide (k ∈ out)) as [|Hn]; [by right|left].
      destruct (decide (k = key)) as [-> |]; [by rewrite Hkey|]. by rewrite Hsame.
  - injection Hfin as <- <-. eapply inv_unregister; try done.
    + by apply table_ok_del, Hi.
    + intros k tr Hk. by left.
    + intros k Hk. by left.
Qed.

Lemma request_inv_initial s : initial s -> inv s.
Proof.
  destruct s. intros (E1 & E2 & E3 & E4). cbn in *. subst.
  split; cbn; try done. split; cbn; [|constructor|unfold maxTrackedRequestIDs; lia].
  intros k. rewrite lookup_empty. split; [by intros []|]. by intros ?%elem_of_nil.
Qed.

Lemma started_events_elem key fp o x y h :
  EvStarted x y h ∈ started_events key fp o -> x = key /\ y = fp /\ o = Ok h.
Proof.
  destruct o; cbn; [|by intros ?%elem_of_nil].
  intros H%list_elem_of_singleton. by injection H as -> -> ->.
Qed.

(** A start is new: the last run of its key, if any, was evicted. *)
Lemma start_is_new s tid key f fp :
  inv s -> threads s !! tid = Some (Leading key f fp) ->
  forall i fp' h, log s !! i = Some (EvStarted key fp' h) -> evicted_since (log s) i key.
Proof.
  intros Hi Ht i fp' h Hl. destruct (inv_registered _ Hi _ _ _ _ _ Ht eq_refl) as [Hf Hn].
  destruct (inv_since _ Hi _ _ _ _ Hl) as [[[tr Htr]|(t & g & y & h' & Hp)]|?]; [congruence| |done].
  destruct (inv_registered _ Hi _ _ _ _ _ Hp eq_refl) as [Hg _].
  assert (f = g) as <- by congruence.
  assert (tid = t) as <- by (eapply inv_unique; [exact Hi|exact Ht|exact Hp|done|done]).
  congruence.
Qed.

Lemma enter_hit key fp r h v :
  enter key fp r h = Hit v -> exists tr, table r !! key = Some tr /\ inputHash tr = fp /\ handle tr = v.
Proof. unfold enter. intros H. repeat case_match; simplify_eq; try done; by exists t. Qed.

Lemma enter_join key fp r h f :
  enter key fp r h = Join f ->
  flights r !! key = Some f /\ exists fl, h !! f = Some fl /\ fhash fl = fp.
Proof. unfold enter. intros H. repeat case_match; simplify_eq; try done; eauto. Qed.

Lemma enter_conflict s key fp :
  inv s -> enter key fp (reg s) (heap s) = Conflict -> exists fp', fp' <> fp /\ EvLed key fp' ∈ log s.
Proof.
  intros Hi. unfold enter. destruct (table (reg s) !! key) as [tr|] eqn:Et.
  - destruct (decide _) as [|Hne]; [done|]. intros _. exists (inputHash tr). split; [done|].
    by apply (inv_tracked _ Hi).
  - destruct (flights (reg s) !! key) as [f|] eqn:Ef; [|done].
    destruct (inv_flights _ Hi _ _ Ef) as (t & p & y & Hp & Hr).
    pose proof (inv_owns _ Hi _ _ _ _ _ Hp (registered_owns _ _ Hr)) as Hf. rewrite Hf. cbn.
    destruct (decide (y = fp)) as [|Hne]; [done|]. intros _. exists y. split; [done|].
    exact (inv_heap_led _ Hi _ _ Hf).
Qed.

Lemma request_inv_preserved s s' : inv s -> step s s' -> inv s'.
Proof.
  intros Hi Hst. destruct Hst as
    [s tid key input Ht|s tid key input o Ht Hk|s tid key input h Ht Hk He|s tid key input Ht Hk He
    |s tid key input f Ht Hk He|s tid key input f Ht Hk He Hf|s tid key f fp o Ht Hot|s tid key f fp Ht
    |s tid key f fp o r' out Ht Hfin|s tid key f fp o Ht|s tid key f fp Ht|s tid key f fp Ht
    |s tid key f fp fl o Ht Hf Hd].
  - apply inv_goto; rewrite ?Ht, ?app_nil_r; try done; [intros; set_solver|apply Hi].
  - apply inv_goto; rewrite ?Ht, ?app_nil_r; try done; [intros; set_solver|apply Hi].
  - apply enter_hit in He as (tr & Htr & Hh & Hv).
    apply inv_goto; rewrite ?Ht; try done; [intros; set_solver|].
    apply request_log_ok_snoc; [apply Hi|]. cbn. destruct (inv_tracked _ Hi _ _ Htr) as [? _]. congruence.
  - apply inv_goto; rewrite ?Ht; try done; [intros; set_solver|].
    apply request_log_ok_snoc; [apply Hi|]. cbn. by eapply enter_conflict.
  - apply enter_join in He as (Hfl & fl & Hf & Hh).
    apply inv_goto; rewrite ?Ht, ?app_nil_r; try done; [|intros; set_solver|apply Hi].
    destruct (inv_flights _ Hi _ _ Hfl) as (t & p & y & Hp & Hr).
    pose proof (inv_owns _ Hi _ _ _ _ _ Hp (registered_owns _ _ Hr)) as Hf'. cbn. rewrite Hf.
    exists fl. split; [done|]. rewrite Hf' in Hf. by injection Hf as <-.
  - by apply inv_lead with (input := input).
  - apply inv_goto; rewrite ?Ht; try done.
    + cbn. destruct o; [|done]. apply elem_of_app. right. by left.
    + intros x g y r. split; [|done]. intros [= -> -> -> ->]. done.
    + intros x y h (-> & -> & ->)%started_events_elem. right. exists tid, f, fp, h. cbn. by rewrite lookup_insert_eq.
    + destruct o as [h|e]; cbn; [|rewrite app_nil_r; apply Hi]. apply request_log_ok_snoc; [apply Hi|].
      cbn. by eapply start_is_new.
  - apply inv_goto; rewrite ?Ht, ?app_nil_r; try done; [intros; set_solver|apply Hi].
  - by eapply inv_record.
  - pose proof (inv_pcs _ Hi _ _ Ht) as Hpc.
    eapply inv_close_flight; try done; [|intros r ->; by eapply inv_outcomes|intros; set_solver|].
    + by intros h ->.
    + apply request_log_ok_snoc; [apply Hi|]. destruct o as [|[]]; try done. cbn.
      by destruct (inv_outcomes _ Hi tid key f fp requestID).
  - change (@nil event) with (EvEvicted <$> []). eapply inv_unregister; try done.
    + by apply table_ok_del, Hi.
    + intros k tr Hk. by left.
    + intros k Hk. by left.
  - eapply inv_close_flight; try done; [set_solver|]. rewrite app_nil_r. apply Hi.
  - destruct (inv_pcs _ Hi _ _ Ht) as (fl' & Hf' & <- & <-). rewrite Hf in Hf'. injection Hf' as <-.
    apply inv_goto; rewrite ?Ht; try done; [intros; set_solver|].
    apply request_log_ok_snoc; [apply Hi|]. destruct o as [h|[]]; try done; cbn.
    + by eapply inv_done.
    + by destruct (inv_conflictfree _ Hi _ _ requestID Hf).
Qed.

Lemma request_inv_reachable s : reachable initial step s -> inv s.
Proof. apply reachable_invariant; [apply request_inv_initial|apply request_inv_preserved]. Qed.

(** ** Properties *)

(** C5: one run per request. However submissions interleave, a request key starts
    a second run only after the record of the first was evicted from the full
    table, and never two at once. *)
Theorem single_flight s :
  reachable initial step s ->
  (forall i j key fp fp' h h', i < j ->
     log s !! i = Some (EvStarted key fp h) -> log s !! j = Some (EvStarted key fp' h') ->
     exists k, i < k < j /\ log s !! k = Some (EvEvicted key)) /\
  (forall t t' key f f' fp fp',
     threads s !! t = Some (Leading key f fp) -> threads s !! t' = Some (Leading key f' fp') -> t = t').
Proof.
  intros Hi%request_inv_reachable. split.
  - intros i j key fp fp' h h' Hij Hl Hl'.
    assert (Htake : take j (log s) !! i = Some (EvStarted key fp h)) by (by rewrite lookup_take_lt).
    destruct (inv_log _ Hi _ _ Hl' i fp h Htake) as (k & Hk & He).
    apply lookup_take_Some in He as [He Hlt]. by exists k.
  - intros t t' key f f' fp fp' Ht Ht'.
    destruct (inv_registered _ Hi _ _ _ _ _ Ht eq_refl) as [Hf _].
    destruct (inv_registered _ Hi _ _ _ _ _ Ht' eq_refl) as [Hf' _].
    assert (f = f') as <- by congruence. by eapply inv_unique.
Qed.

(** every retry gets the same run. As long as a key was not evicted, all
    successful submissions of it, fresh, joined or answered from the table, had
    the same fingerprint and return the same run; and a submission is refused
    as a conflict only if another input was submitted under its key. *)
Theorem retries_get_the_same_run s key :
  reachable initial step s -> EvEvicted key ∉ log s ->
  (forall fp fp' h h' fr fr', EvReturned key fp (Ok h) fr ∈ log s -> EvReturned key fp' (Ok h') fr' ∈ log s ->
     fp = fp' /\ h = h') /\
  (forall fp r fr, EvReturned key fp (Err (ErrRequestConflict r)) fr ∈ log s ->
     exists fp', fp' <> fp /\ EvLed key fp' ∈ log s).
Proof.
  intros Hi%request_inv_reachable Hev.
  assert (Hone : forall i j fp fp' h h', log s !! i = Some (EvStarted key fp h) ->
    log s !! j = Some (EvStarted key fp' h') -> ~ i < j).
  { intros i j fp fp' h h' Hl Hl' Hij.
    assert (Htake : take j (log s) !! i = Some (EvStarted key fp h)) by (by rewrite lookup_take_lt).
    destruct (inv_log _ Hi _ _ Hl' i fp h Htake) as (k & _ & He).
    apply lookup_take_Some in He as [He _]. apply Hev. by eapply list_elem_of_lookup_2. }
  assert (Hsrc : forall fp h fr, EvReturned key fp (Ok h) fr ∈ log s -> EvStarted key fp h ∈ log s).
  { intros fp h fr (i & Hl)%list_elem_of_lookup_1. pose proof (inv_log _ Hi _ _ Hl) as He. cbn in He.
    apply elem_of_take in He as (k & Hk & _). by eapply list_elem_of_lookup_2. }
  split.
  - intros fp fp' h h' fr fr' H%Hsrc H'%Hsrc.
    apply list_elem_of_lookup_1 in H as [i Hl]. apply list_elem_of_lookup_1 in H' as [j Hl'].
    pose proof (Hone _ _ _ _ _ _ Hl Hl'). pose proof (Hone _ _ _ _ _ _ Hl' Hl).
    assert (i = j) as -> by lia. split; congruence.
  - intros fp r fr (i & Hl)%list_elem_of_lookup_1. destruct (inv_log _ Hi _ _ Hl) as (fp' & Hne & He).
    apply elem_of_take in He as (k & Hk & _). exists fp'. split; [done|]. by eapply list_elem_of_lookup_2.
Qed.

(** no submission waits for nothing. A submission that joined a flight can
    return at once, or the flight has an owner that is still running and can
    take its next step; a panic of the start included. *)
Theorem joined_never_orphaned s tid key f fp :
  reachable initial step s -> threads s !! tid = Some (Joined key f fp) ->
  (exists o s', step s s' /\ threads s' !! tid = Some (Returned o false)) \/
  (exists t p p' s', threads s !! t = Some p /\ owns p = Some (key, f, fp) /\
     step s s' /\ threads s' !! t = Some p' /\ p' <> p).
Proof.
  intros Hi%request_inv_reachable Ht. destruct (inv_pcs _ Hi _ _ Ht) as (fl & Hf & <- & <-).
  destruct (fdone fl) as [o|] eqn:Hd.
  - left. exists o. eexists. split; [by eapply step_wake|]. cbn. by rewrite lookup_insert_eq.
  - right. destruct (inv_open _ Hi _ _ Hf Hd) as (t & p & Hp & Ho). exists t, p.
    assert (Hgo : forall r h l p', step s (mkState r h (<[t := p']> (threads s)) l) -> p' <> p ->
      exists p' s', threads s !! t = Some p /\ owns p = Some (fkey fl, f, fhash fl) /\
        step s s' /\ threads s' !! t = Some p' /\ p' <> p).
    { intros r h l p' Hs Hn. exists p'. eexists. split; [done|]. split; [done|]. split; [exact Hs|].
      cbn. by rewrite lookup_insert_eq. }
    destruct p as [| |x g y|x g y o|x g y o|x g y|x g y| |]; try done; cbn in Ho; injection Ho as -> -> ->.
    + eapply Hgo; [by apply step_panic|done].
    + destruct (finish (fkey fl) (fhash fl) o (reg s)) as [r' out] eqn:E.
      eapply Hgo; [by eapply step_record|done].
    + eapply Hgo; [by apply step_close|done].
    + eapply Hgo; [by apply step_abort_delete|done].
    + eapply Hgo; [by apply step_abort_close|done].
Qed.

(** the table of requests is bounded and agrees with its eviction queue: they
    hold the same keys, the queue holds each once, and there are never more
    than 4096. *)
Theorem table_bounded s :
  reachable initial step s ->
  (forall k, is_Some (table (reg s) !! k) <-> k ∈ order (reg s)) /\ NoDup (order (reg s)) /\
  (Z.of_nat (size (table (reg s))) <= 4096)%Z.
Proof.
  intros [Hk Hnd Hs]%request_inv_reachable%inv_table. split; [done|]. split; [done|].
  assert (Hd : dom (table (reg s)) = list_to_set (order (reg s))).
  { apply set_eq. intros k. by rewrite elem_of_dom, elem_of_list_to_set, Hk. }
  rewrite <- (size_dom (D := gset RequestKey)), Hd, size_list_to_set by done. exact Hs.
Qed.

End Registry.

(** ** Witnesses: two submissions of one request, the second joining the first *)

Section Witness.

Definition wkey : RequestKey := mkKey "s1" "r1".
Definition wrun : RunHandle := mkHandle "run-1" "s1".
Definition w_init : @state string := mkState (mkRegistry ∅ [] ∅) ∅ ∅ [].

Lemma w_reachable : reachable initial (step (fun x : string => x)) w_init.
Proof. apply reachable_init. repeat split. Qed.

Ltac submit_both H :=
  advance H ltac:(eapply step_spawn with (tid := 0) (key := wkey) (input := "hi"); reflexivity);
  advance H ltac:(eapply step_spawn with (tid := 1) (key := wkey) (input := "hi"); reflexivity);
  advance H ltac:(eapply step_lead with (tid := 0) (f := 0); [reflexivity|discriminate|reflexivity|reflexivity]);
  advance H ltac:(eapply step_join with (tid := 1) (f := 0); [reflexivity|discriminate|reflexivity]).

Ltac finish_both H :=
  advance H ltac:(eapply step_start with (tid := 0) (o := Ok wrun); [reflexivity|exact I]);
  advance H ltac:(eapply step_record with (tid := 0); reflexivity);
  advance H ltac:(eapply step_close with (tid := 0); reflexivity);
  advance H ltac:(eapply step_wake with (tid := 1); reflexivity).

Definition returned (s : @state string) : list (result submit_error RunHandle * bool) :=
  omap (fun e => match e with EvReturned _ _ o fr => Some (o, fr) | _ => None end) (log s).

Lemma single_flight_witness : exists s : @state string,
  returned s = [(Ok wrun, true); (Ok wrun, false)] /\
  forall i j key fp fp' h h', i < j ->
    log s !! i = Some (EvStarted key fp h) -> log s !! j = Some (EvStarted key fp' h') ->
    exists k, i < k < j /\ log s !! k = Some (EvEvicted key).
Proof.
  pose proof w_reachable as H. submit_both H. finish_both H.
  eexists. split; [|exact (proj1 (single_flight _ _ H))]. reflexivity.
Defined.

Lemma retries_get_the_same_run_witness : exists s : @state string,
  returned s = [(Ok wrun, true); (Ok wrun, false)] /\
  forall fp fp' h h' fr fr', EvReturned wkey fp (Ok h) fr ∈ log s -> EvReturned wkey fp' (Ok h') fr' ∈ log s ->
    fp = fp' /\ h = h'.
Proof.
  pose proof w_reachable as H. submit_both H. finish_both H.
  eexists. split; [|refine (proj1 (retries_get_the_same_run _ _ wkey H _))]; [reflexivity|].
  cbn. set_solver.
Defined.

Lemma joined_never_orphaned_witness : exists s : @state string,
  threads s !! 1 = Some (Joined wkey 0 "hi") /\
  ((exists o s', step (fun x => x) s s' /\ threads s' !! 1 = Some (Returned o false)) \/
   (exists t p p' s', threads s !! t = Some p /\ owns p = Some (wkey, 0, "hi") /\
      step (fun x => x) s s' /\ threads s' !! t = Some p' /\ p' <> p)).
Proof.
  pose proof w_reachable as H. submit_both H.
  eexists. split; [|exact (joined_never_orphaned _ _ 1 wkey 0 "hi" H eq_refl)]. reflexivity.
Defined.

Lemma table_bounded_witness : exists s : @state string,
  order (reg s) = [wkey] /\ (Z.of_nat (size (table (reg s))) <= 4096)%Z.
Proof.
  pose proof w_reachable as H. submit_both H. finish_both H.
  eexists. split; [|exact (proj2 (proj2 (table_bounded _ _ H)))]. reflexivity.
Defined.

End Witness.
