(* ===== verification/EventHub.v ===== *)
(** * ai-runtime/agent/event_hub.go: the event stream of a session

    The hub numbers a session's events, persists them (key events one by one
    before they are broadcast, deltas merged into batches afterwards) and hands
    them to subscribers: a replay of the history first, the live events behind
    it. Its critical sections are functions on [EventHub]; [HubSystem] runs them
    together with the delivery loops of the subscribers.

    JSON payloads are values of which only three shapes matter here: a merged
    batch, a string (the older batch format), anything else. A [uint64] is [Z];
    the stream is considered up to 2^64 - 1 events. *)

From S2P Require Import Prelude.
#[local] Open Scope string_scope.
#[local] Open Scope list_scope.

(** ** session/journal.go, journal_store.go: event records *)

#[warnings="-register-all"]
Inductive json : Type :=
  | JOther (raw : string)
  | JString (s : string)
  | JBatch (events : list (Z * json)).

Record EventRecord := mkEventRecord {
  rSessionID : string;
  rRunID : string;
  rType : string;
  rSeq : Z;
  rFromSeq : Z;
  rTime : Time;
  rPayload : json;
}.

Record SessionEvent := mkSessionEvent {
  SessionID : string;
  RunID : string;
  Seq : Z;
  Type_ : string;
  ETime : Time;
  Payload : json;
}.

Definition keyEvents : list string :=
  ["tool_call"; "tool_result"; "permission.requested"; "permission.resolved";
   "assistant.message_finalized"; "run.started"; "run.state_changed"; "run.finished"; "run.error"].

Definition IsKeyEvent (typ : string) : bool := existsb (String.eqb typ) keyEvents.

(** A journal is the event records it holds, in file order. What an append does
    is the environment's choice: a failed one may have written the record. *)
Definition Journal : Type := list EventRecord.

Inductive append_outcome : Type := AppendOk | AppendFailed (written : bool).

Definition AppendEvent (o : append_outcome) (rec : EventRecord) (j : Journal) : Journal * bool :=
  match o with
  | AppendOk => (j ++ [rec], true)
  | AppendFailed true => (j ++ [rec], false)
  | AppendFailed false => (j, false)
  end.

(** The records of the session, in the two scans of [walkEventRecords]. *)
Definition ReadEvents (sid : string) (afterSeq : Z) (j : Journal) : Journal :=
  List.filter (fun r => String.eqb (rSessionID r) sid && (afterSeq <? rSeq r)%Z) j.

Definition SeqRange (sid : string) (j : Journal) : option (Z * Z) :=
  foldl (fun acc r =>
    if negb (String.eqb (rSessionID r) sid) then acc
    else match acc with
         | None => Some (rSeq r, rSeq r)
         | Some (e, l) => Some (if (rSeq r <? e)%Z then rSeq r else e, if (l <? rSeq r)%Z then rSeq r else l)
         end) None j.

(** ** The hub *)

Definition subscriberBuffer : nat := 256.
Definition deltaFlushBytes : Z := 4096.

Definition ReplayIntegrityComplete : string := "complete".
Definition ReplayIntegrityUnknown : string := "unknown".
Definition ReplayIntegrityIncomplete : string := "incomplete".

Definition DeltaBatch : Type := list (Z * json).

(** Strictly increasing from [lo]. *)
Fixpoint increasing (lo : Z) (parts : DeltaBatch) : bool :=
  match parts with
  | [] => true
  | p :: ps => (lo <? p.1)%Z && increasing p.1 ps
  end.

Definition validDeltaBatch (batch : DeltaBatch) (fromSeq seq : Z) : bool :=
  match batch with
  | [] => false
  | p :: ps =>
      (p.1 =? fromSeq)%Z && increasing p.1 ps && ((List.last batch p).1 =? seq)%Z
  end.

(** A subscriber: its queue, whether it is in the hub's table, whether its
    channels ([live] and [dead]) were closed. *)
Record hubSub := mkSub {
  live : list SessionEvent;
  watermark : Z;
  registered : bool;
  disconnected : bool;
}.

Record pendingDelta := mkPending {
  pRunID : string;
  pFromSeq : Z;
  pToSeq : Z;
  pLastTime : Time;
  pParts : DeltaBatch;
  pBytes : Z;
}.

Record IngressEvent := mkIngress { iRunID : string; iType : string; iPayload : json }.

Record EventHub := mkHub {
  sessionID : string;
  seq : Z;
  earliest : Z;
  latest : Z;
  replayIntegrity : string;
  subs : gmap nat hubSub;
  nextSubID : nat;
  journal : option Journal;
  curRunID : string;
  deltaBuf : gmap string pendingDelta;
  flushTimer : bool;
  closed : bool;
}.

Inductive hub_error : Type := ErrHubClosed | ErrCursorExpired | ErrAppend | ErrRead.

Section Hub.
(** The length of an encoded payload, and what the journal does to an append. *)
Context (jlen : json -> Z) (io : EventRecord -> append_outcome).

Definition set_seqs (h : EventHub) (s l : Z) : EventHub :=
  mkHub (sessionID h) s (earliest h) l (replayIntegrity h) (subs h) (nextSubID h) (journal h)
    (curRunID h) (deltaBuf h) (flushTimer h) (closed h).
Definition set_subs (h : EventHub) (s : gmap nat hubSub) : EventHub :=
  mkHub (sessionID h) (seq h) (earliest h) (latest h) (replayIntegrity h) s (nextSubID h) (journal h)
    (curRunID h) (deltaBuf h) (flushTimer h) (closed h).
Definition set_run (h : EventHub) (r : string) : EventHub :=
  mkHub (sessionID h) (seq h) (earliest h) (latest h) (replayIntegrity h) (subs h) (nextSubID h) (journal h)
    r (deltaBuf h) (flushTimer h) (closed h).
Definition set_buf (h : EventHub) (b : gmap string pendingDelta) (t : bool) : EventHub :=
  mkHub (sessionID h) (seq h) (earliest h) (latest h) (replayIntegrity h) (subs h) (nextSubID h) (journal h)
    (curRunID h) b t (closed h).
Definition set_journal (h : EventHub) (j : Journal) (ok : bool) : EventHub :=
  mkHub (sessionID h) (seq h) (earliest h) (latest h)
    (if ok then replayIntegrity h else ReplayIntegrityIncomplete) (subs h) (nextSubID h) (Some j)
    (curRunID h) (deltaBuf h) (flushTimer h) (closed h).

(** [seeded]: what [SeqRange] returned, [Err] for a read failure. *)
Definition NewEventHub (sid : string) (j : option Journal) (readable : bool) : result hub_error EventHub :=
  let mk e l i := mkHub sid (u64_add l 1) e l i ∅ 0 j "" ∅ false false in
  match j with
  | None => Ok (mk 0%Z 0%Z ReplayIntegrityComplete)
  | Some recs =>
      if negb readable then Err ErrRead
      else match SeqRange sid recs with
           | Some (e, l) => Ok (mk e l ReplayIntegrityUnknown)
           | None => Ok (mk 0%Z 0%Z ReplayIntegrityComplete)
           end
  end.

(** *** Fan-out *)

Definition fanout_sub (ev : SessionEvent) (sub : hubSub) : hubSub :=
  if negb (registered sub) then sub
  else if (Seq ev <=? watermark sub)%Z then sub
  else if (length (live sub) <? subscriberBuffer)%nat
  then mkSub (live sub ++ [ev]) (watermark sub) true (disconnected sub)
  else mkSub (live sub) (watermark sub) false true.

Definition fanOutLocked (ev : SessionEvent) (h : EventHub) : EventHub :=
  set_subs h (fanout_sub ev <$> subs h).

(** *** The delta buffer *)

Definition batch_record (sid typ : string) (b : pendingDelta) : EventRecord :=
  mkEventRecord sid (pRunID b) typ (pToSeq b) (pFromSeq b) (pLastTime b) (JBatch (pParts b)).

Definition stopFlushTimerLocked (h : EventHub) : EventHub := set_buf h (deltaBuf h) false.

Definition flushDeltaTypeLocked (typ : string) (h : EventHub) : EventHub :=
  match deltaBuf h !! typ, journal h with
  | Some b, Some j =>
      let h := set_buf h (delete typ (deltaBuf h)) (flushTimer h) in
      let rec := batch_record (sessionID h) typ b in
      let '(j', ok) := AppendEvent (io rec) rec j in
      set_journal h j' ok
  | _, _ => h
  end.

Definition flushAllDeltaLocked (h : EventHub) : EventHub :=
  stopFlushTimerLocked (foldr flushDeltaTypeLocked h (map_to_list (deltaBuf h)).*1).

Definition bufferDeltaLocked (typ : string) (payload : json) (out : SessionEvent) (h : EventHub) : EventHub :=
  let '(b, timer) :=
    match deltaBuf h !! typ with
    | Some b => (b, flushTimer h)
    | None => (mkPending (RunID out) (Seq out) 0%Z 0%Z [] 0%Z, true)
    end in
  let b := mkPending (pRunID b) (pFromSeq b) (Seq out) (ETime out) (pParts b ++ [(Seq out, payload)])
             (pBytes b + jlen payload)%Z in
  let h := set_buf h (<[typ := b]> (deltaBuf h)) timer in
  if (deltaFlushBytes <=? pBytes b)%Z then
    let h := flushDeltaTypeLocked typ h in
    if (size (deltaBuf h) =? 0)%nat then stopFlushTimerLocked h else h
  else h.

Definition flushDeltaOnTimer (h : EventHub) : EventHub :=
  if closed h then h else flushAllDeltaLocked h.

Definition BeginRun (runID : string) (h : EventHub) : EventHub :=
  if closed h then h else set_run (flushAllDeltaLocked h) runID.

Definition EndRun (h : EventHub) : EventHub :=
  if closed h then h else set_run (flushAllDeltaLocked h) "".

(** *** Publish *)

(** The event an ingress event becomes. *)
Definition outgoing (now : Time) (ev : IngressEvent) (h : EventHub) : SessionEvent :=
  mkSessionEvent (sessionID h) (if String.eqb (iRunID ev) "" then curRunID h else iRunID ev)
    (seq h) (iType ev) now (iPayload ev).

(** The result also says which event was broadcast, if any. *)
Definition Publish (now : Time) (ev : IngressEvent) (h : EventHub) : EventHub * result hub_error SessionEvent :=
  if closed h then (h, Err ErrHubClosed)
  else
    let out := outgoing now ev h in
    let h := set_seqs h (u64_add (seq h) 1) (latest h) in
    let broadcast h := fanOutLocked out (set_seqs h (seq h) (Seq out)) in
    if IsKeyEvent (iType ev) then
      match journal h with
      | None => (broadcast h, Ok out)
      | Some j =>
          let rec := mkEventRecord (sessionID h) (RunID out) (iType ev) (Seq out) 0%Z now (iPayload ev) in
          let '(j', ok) := AppendEvent (io rec) rec j in
          let h := set_journal h j' ok in
          if ok then (broadcast h, Ok out) else (h, Err ErrAppend)
      end
    else
      let h := broadcast h in
      match journal h with
      | None => (h, Ok out)
      | Some _ => (bufferDeltaLocked (iType ev) (iPayload ev) out h, Ok out)
      end.

(** *** Subscribe *)

(** The events a record stands for, and whether it was read without loss. *)
Definition expand (r : EventRecord) : list SessionEvent * bool :=
  let ev s p := mkSessionEvent (rSessionID r) (rRunID r) s (rType r) (rTime r) p in
  if (rFromSeq r =? 0)%Z then ([ev (rSeq r) (rPayload r)], true)
  else match rPayload r with
  | JBatch parts =>
      if validDeltaBatch parts (rFromSeq r) (rSeq r) then ((fun p => ev p.1 p.2) <$> parts, true)
      else ([], false)
  | JString _ => ([ev (rSeq r) (rPayload r)], false)
  | JOther _ => ([], false)
  end.

(** A batch may begin before the cursor: its earlier parts are skipped. *)
Definition replay_record (fromSeq : Z) (r : EventRecord) : list SessionEvent * bool :=
  let '(evs, ok) := expand r in
  (if (rFromSeq r =? 0)%Z then evs
   else match rPayload r with
        | JBatch _ => List.filter (fun e => (fromSeq <? Seq e)%Z) evs
        | _ => evs
        end, ok).

Definition seq_le (a b : SessionEvent) : Prop := (Seq a <= Seq b)%Z.
#[global] Instance seq_le_dec a b : Decision (seq_le a b).
Proof. unfold seq_le. apply _. Defined.

Definition replay_of (sid : string) (fromSeq : Z) (j : Journal) : list SessionEvent * bool :=
  let parts := replay_record fromSeq <$> ReadEvents sid fromSeq j in
  (merge_sort seq_le (concat parts.*1), forallb (fun b => b) parts.*2).

(** The subscriber's number and its replay. *)
Definition Subscribe (readable : bool) (fromSeq : Z) (h : EventHub)
  : EventHub * result hub_error (nat * list SessionEvent) :=
  if closed h then (h, Err ErrHubClosed)
  else if (latest h <? fromSeq)%Z || (negb (fromSeq =? 0)%Z && (u64_add fromSeq 1 <? earliest h)%Z)
  then (h, Err ErrCursorExpired)
  else
    let register h replay :=
      let id := nextSubID h in
      (mkHub (sessionID h) (seq h) (earliest h) (latest h) (replayIntegrity h)
         (<[id := mkSub [] (latest h) true false]> (subs h)) (S id) (journal h) (curRunID h)
         (deltaBuf h) (flushTimer h) (closed h), Ok (id, replay)) in
    match journal h with
    | None => register h []
    | Some _ =>
        let h := flushAllDeltaLocked h in
        let j := default [] (journal h) in
        if negb readable then (h, Err ErrRead)
        else
          let '(replay, ok) := replay_of (sessionID h) fromSeq j in
          register (set_journal h j ok) replay
    end.

Definition removeSub (id : nat) (h : EventHub) : EventHub :=
  set_subs h (alter (fun s => mkSub (live s) (watermark s) false (disconnected s)) id (subs h)).

Definition Close (h : EventHub) : EventHub :=
  if closed h then h
  else
    let h := flushAllDeltaLocked h in
    mkHub (sessionID h) (seq h) (earliest h) (latest h) (replayIntegrity h)
      ((fun s => if registered s then mkSub (live s) (watermark s) false true else s) <$> subs h)
      (nextSubID h) (journal h) (curRunID h) (deltaBuf h) (flushTimer h) true.

End Hub.

(** ** Lemmas: batches, records, replays *)

(** What a subscriber can tell of an event: number, type, payload. *)
Definition view (e : SessionEvent) : Z * string * json := (Seq e, Type_ e, Payload e).
Definition vseq (v : Z * string * json) : Z := v.1.1.
Definition after (n : Z) (v : Z * string * json) : bool := (n <? vseq v)%Z.

Lemma increasing_snoc lo ps s x :
  increasing lo ps = true -> (lo < s)%Z -> Forall (fun p => (p.1 < s)%Z) ps ->
  increasing lo (ps ++ [(s, x)]) = true.
Proof.
  revert lo. induction ps as [|p ps IH]; intros lo H Hlo Hf; cbn in *.
  - rewrite andb_true_r. by apply Z.ltb_lt.
  - bools. inversion Hf; subst. apply andb_true_iff. split; [by apply Z.ltb_lt|]. by apply IH.
Qed.

Lemma increasing_bounds ps : forall lo d,
  increasing lo ps = true -> d.1 = lo -> Forall (fun p => (lo < p.1 <= (List.last ps d).1)%Z) ps
    /\ (lo <= (List.last ps d).1)%Z.
Proof.
  induction ps as [|p ps IH]; intros lo d H Hd; cbn [increasing] in H; [subst lo; split; [constructor|reflexivity]|].
  bools. destruct (IH p.1 p H0 eq_refl) as [Hf Hle].
  assert (Hl : List.last (p :: ps) d = List.last ps p) by (destruct ps as [|q ps]; [done|]; cbn; clear; revert q; induction ps; [done|]; intros; cbn; apply IHps).
  rewrite Hl. split; [|lia]. constructor; [lia|].
  eapply List.Forall_impl; [|exact Hf]. cbn. intros q. lia.
Qed.

Lemma valid_bounds ps f t :
  validDeltaBatch ps f t = true -> Forall (fun p => (f <= p.1 <= t)%Z) ps /\ (f <= t)%Z.
Proof.
  destruct ps as [|p ps]; cbn [validDeltaBatch]; [done|]. intros H. bools.
  destruct (increasing_bounds ps p.1 p H1 eq_refl) as [Hf Hle].
  assert (Hl : List.last (p :: ps) p = List.last ps p) by (by destruct ps).
  rewrite Hl in H0. subst. split; [|lia]. constructor; [lia|].
  eapply List.Forall_impl; [|exact Hf]. cbn. intros q. lia.
Qed.

Lemma last_snoc_eq {A} (l : list A) x d : List.last (l ++ [x]) d = x.
Proof. apply last_last. Qed.

Lemma valid_snoc ps f t s x :
  validDeltaBatch ps f t = true -> (t < s)%Z -> validDeltaBatch (ps ++ [(s, x)]) f s = true.
Proof.
  intros Hv Hs. destruct (valid_bounds _ _ _ Hv) as [Hb _].
  destruct ps as [|p ps]; [done|]. cbn [validDeltaBatch] in Hv. bools.
  cbn [validDeltaBatch app]. change (p :: ps ++ [(s, x)]) with ((p :: ps) ++ [(s, x)]).
  rewrite last_snoc_eq. inversion Hb as [|? ? Hp Hps]; subst.
  rewrite !andb_true_iff. split_and!; [by apply Z.eqb_eq| |by apply Z.eqb_eq].
  apply increasing_snoc; [done|lia|]. eapply List.Forall_impl; [|exact Hps]. cbv beta. intros q. lia.
Qed.

Lemma valid_single s x : validDeltaBatch [(s, x)] s s = true.
Proof. cbn. by rewrite Z.eqb_refl. Qed.

(** A sorted list is determined by its elements. *)
Lemma sorted_views_eq (l1 l2 : list (Z * string * json)) :
  StronglySorted (fun a b => vseq a <= vseq b)%Z l1 ->
  StronglySorted (fun a b => vseq a < vseq b)%Z l2 -> l1 ≡ₚ l2 -> l1 = l2.
Proof.
  revert l1. induction l2 as [|x l2 IH]; intros l1 H1 H2 Hp.
  { by apply Permutation_nil_r in Hp. }
  destruct l1 as [|y l1]; [by apply Permutation_nil_l in Hp|].
  inversion H1 as [|? ? H1' Hy]; inversion H2 as [|? ? H2' Hx]; subst.
  rewrite Forall_forall in Hy, Hx.
  assert (y = x) as ->.
  { assert (Hin : y ∈ x :: l2) by (rewrite <- Hp; left).
    apply elem_of_cons in Hin as [?|Hin]; [done|]. specialize (Hx _ Hin).
    assert (Hin' : x ∈ y :: l1) by (rewrite Hp; left).
    apply elem_of_cons in Hin' as [?|Hin']; [by subst|]. specialize (Hy _ Hin'). lia. }
  f_equal. apply IH; [done|done|]. by apply Permutation_cons_inv in Hp.
Qed.

(** A record that reads without loss and whose events end at its number. *)
Definition record_ok (sid : string) (r : EventRecord) : Prop :=
  rSessionID r = sid /\ (expand r).2 = true /\ (0 < rSeq r)%Z /\ (0 <= rFromSeq r)%Z.

Definition rviews (r : EventRecord) : list (Z * string * json) := view <$> (expand r).1.

Lemma expand_bounds sid r :
  record_ok sid r -> Forall (fun e => (0 < Seq e <= rSeq r)%Z) (expand r).1.
Proof.
  intros (_ & Hok & Hp & Hf). unfold expand in *. destruct (Z.eqb_spec (rFromSeq r) 0).
  - repeat constructor; cbn; lia.
  - destruct (rPayload r) as [| |parts]; [done|done|].
    destruct (validDeltaBatch parts (rFromSeq r) (rSeq r)) eqn:Hv; [|done].
    apply valid_bounds in Hv as [Hv _]. cbn. apply Forall_fmap.
    eapply List.Forall_impl; [|exact Hv]. cbn. intros p. lia.
Qed.

Lemma filter_fmap_view n es :
  view <$> List.filter (fun e => (n <? Seq e)%Z) es = List.filter (after n) (view <$> es).
Proof.
  induction es as [|e es IH]; [done|]. cbn. unfold after, vseq. cbn.
  destruct (n <? Seq e)%Z; cbn; by rewrite IH.
Qed.

Lemma replay_record_views sid n r :
  record_ok sid r ->
  (replay_record n r).2 = true /\
  ((n < rSeq r)%Z -> view <$> (replay_record n r).1 = List.filter (after n) (rviews r)) /\
  ((rSeq r <= n)%Z -> List.filter (after n) (rviews r) = []).
Proof.
  intros Hr. pose proof (expand_bounds sid r Hr) as Hb. destruct Hr as (_ & Hok & _).
  unfold replay_record, rviews. destruct (expand r) as [evs ok] eqn:E. cbn in Hok, Hb |- *. subst ok.
  split; [done|]. split.
  - intros Hn. unfold expand in E. destruct (rFromSeq r =? 0)%Z.
    + injection E as <-. cbn. unfold after, vseq. cbn. by rewrite (proj2 (Z.ltb_lt _ _) Hn).
    + destruct (rPayload r); [done|done|]. apply filter_fmap_view.
  - intros Hn. apply filter_none. apply Forall_fmap.
    eapply List.Forall_impl; [|exact Hb]. cbn. intros e He. unfold after, vseq. cbn.
    apply Z.ltb_ge. lia.
Qed.

Definition jviews (j : Journal) : list (Z * string * json) := concat (rviews <$> j).
#[global] Arguments jviews : simpl never.

Lemma replay_parts sid n j :
  Forall (record_ok sid) j ->
  view <$> concat (replay_record n <$> ReadEvents sid n j).*1 = List.filter (after n) (jviews j) /\
  forallb (fun b => b) (replay_record n <$> ReadEvents sid n j).*2 = true.
Proof.
  unfold jviews, ReadEvents. induction 1 as [|r j Hr _ [IH1 IH2]]; [done|].
  destruct (replay_record_views sid n r Hr) as (Hok & Hin & Hout).
  pose proof Hr as (Hs & _ & _). cbn [List.filter].
  rewrite Hs, String.eqb_refl, fmap_cons. cbn [concat]. rewrite List.filter_app. cbn [andb].
  destruct (Z.ltb_spec n (rSeq r)) as [Hlt|Hge].
  - rewrite !fmap_cons. cbn [concat forallb]. rewrite fmap_app, IH1, Hin, Hok by done. done.
  - rewrite IH1, Hout by done. done.
Qed.

#[global] Instance seq_le_total : Total seq_le.
Proof. intros a b. unfold seq_le. lia. Qed.
#[global] Instance seq_le_trans : Transitive seq_le.
Proof. intros a b c. unfold seq_le. lia. Qed.

Lemma filter_perm {A} (f : A -> bool) l l' : l ≡ₚ l' -> List.filter f l ≡ₚ List.filter f l'.
Proof.
  induction 1; cbn; repeat case_match; try done; [by constructor|by constructor|by etrans].
Qed.

(** A replay of a sound journal is the history after the cursor. *)
Lemma replay_of_spec sid n j (h : list (Z * string * json)) :
  Forall (record_ok sid) j -> jviews j ≡ₚ h -> StronglySorted (fun a b => vseq a < vseq b)%Z h ->
  (replay_of sid n j).2 = true /\ view <$> (replay_of sid n j).1 = List.filter (after n) h.
Proof.
  intros Hj Hp Hs. unfold replay_of. destruct (replay_parts sid n j Hj) as [E1 E2]. cbn.
  split; [done|]. apply sorted_views_eq.
  - pose proof (StronglySorted_merge_sort seq_le (concat (replay_record n <$> ReadEvents sid n j).*1)) as Hsort.
    revert Hsort. generalize (merge_sort seq_le (concat (replay_record n <$> ReadEvents sid n j).*1)).
    induction 1 as [|e l _ IH Hf]; cbn; constructor; [done|]. by apply Forall_fmap.
  - by apply StronglySorted_filter.
  - rewrite merge_sort_Permutation, E1. by apply filter_perm.
Qed.
#[global] Arguments replay_of : simpl never.
