(* ===== verification/HubSystem.v ===== *)
(** * The event hub at work: publishers, subscribers, delivery loops

    [System] runs the critical sections of [EventHub] together with the
    delivery loop ([pumpEvents]) of each subscriber, under a journal whose every
    append may fail, and proves what subscribers get. *)

From S2P Require Import Prelude EventHub.
#[local] Open Scope string_scope.
#[local] Open Scope list_scope.

Module System.

(** A subscriber's delivery loop: what is left of the replay, the live event it
    took and has not delivered, the last delivered number, what it has sent to
    the consumer's channel and how much of that the consumer took. [from] is
    the cursor it subscribed with. *)
Record pump := mkPump {
  from : Z;
  replay : list SessionEvent;
  hand : option SessionEvent;
  lastSeq : Z;
  sent : list SessionEvent;
  taken : nat;
  running : bool;
}.

(** [hist]: every event broadcast so far. *)
Record state := mkState {
  hub : EventHub;
  pumps : gmap nat pump;
  hist : list SessionEvent;
}.

Section Steps.
Context (jlen : json -> Z).

Definition set_pump (s : state) (id : nat) (p : pump) : state := mkState (hub s) (<[id := p]> (pumps s)) (hist s).

(** The channel to the consumer has room. *)
Definition room (p : pump) : bool := (length (sent p) <? taken p + subscriberBuffer)%nat.
#[global] Arguments room : simpl never.

Definition deliver (p : pump) (e : SessionEvent) (rest : list SessionEvent) : pump :=
  mkPump (from p) rest None (Seq e) (sent p ++ [e]) (taken p) true.

Definition exit (s : state) (id : nat) (p : pump) : state :=
  mkState (removeSub id (hub s))
    (<[id := mkPump (from p) (replay p) (hand p) (lastSeq p) (sent p) (taken p) false]> (pumps s)) (hist s).

Inductive step : state -> state -> Prop :=
  | step_publish s io now ev h' out :
      (seq (hub s) < u64_max)%Z ->
      Publish jlen io now ev (hub s) = (h', Ok out) ->
      step s (mkState h' (pumps s) (hist s ++ [out]))
  | step_publish_failed s io now ev h' e :
      (seq (hub s) < u64_max)%Z ->
      Publish jlen io now ev (hub s) = (h', Err e) ->
      step s (mkState h' (pumps s) (hist s))
  | step_timer s io : step s (mkState (flushDeltaOnTimer io (hub s)) (pumps s) (hist s))
  | step_begin s io r : step s (mkState (BeginRun io r (hub s)) (pumps s) (hist s))
  | step_end s io : step s (mkState (EndRun io (hub s)) (pumps s) (hist s))
  | step_close s io : step s (mkState (Close io (hub s)) (pumps s) (hist s))
  | step_subscribe s io readable n h' id es :
      (0 <= n < u64_max)%Z ->
      Subscribe io readable n (hub s) = (h', Ok (id, es)) ->
      step s (mkState h' (<[id := mkPump n es None 0%Z [] 0 true]> (pumps s)) (hist s))
  | step_subscribe_refused s io readable n h' e :
      Subscribe io readable n (hub s) = (h', Err e) ->
      step s (mkState h' (pumps s) (hist s))
  (** [pumpEvents], phase one and two. *)
  | step_replay s id p e rest :
      pumps s !! id = Some p -> running p = true -> replay p = e :: rest -> room p = true ->
      step s (set_pump s id (deliver p e rest))
  | step_take s id p sub e rest :
      pumps s !! id = Some p -> running p = true -> replay p = [] -> hand p = None ->
      subs (hub s) !! id = Some sub -> live sub = e :: rest ->
      step s (mkState
        (set_subs (hub s) (<[id := mkSub rest (watermark sub) (registered sub) (disconnected sub)]> (subs (hub s))))
        (<[id := mkPump (from p) [] (if (Seq e <=? lastSeq p)%Z then None else Some e) (lastSeq p)
                   (sent p) (taken p) true]> (pumps s)) (hist s))
  | step_deliver s id p e :
      pumps s !! id = Some p -> running p = true -> replay p = [] -> hand p = Some e -> room p = true ->
      step s (set_pump s id (deliver p e []))
  (** The context ended, the hub closed, or the subscriber was disconnected. *)
  | step_exit s id p :
      pumps s !! id = Some p -> running p = true -> step s (exit s id p)
  | step_consume s id p :
      pumps s !! id = Some p -> (taken p < length (sent p))%nat ->
      step s (set_pump s id (mkPump (from p) (replay p) (hand p) (lastSeq p) (sent p) (S (taken p)) (running p))).

(** A hub just made over a journal of well-formed records, or over none;
    [hist] starts with the events the journal holds. *)
Definition initial (s : state) : Prop :=
  exists sid j, NewEventHub sid j true = Ok (hub s) /\ pumps s = ∅ /\
    match j with
    | Some recs =>
        Forall (fun r => rSessionID r = sid /\ 0 < rSeq r < u64_max /\ 0 <= rFromSeq r)%Z recs /\
        replay_of sid 0 recs = (hist s, true) /\
        StronglySorted (fun a b => Seq a < Seq b)%Z (hist s)
    | None => hist s = []
    end.

(** ** The store: journal and buffer together hold the history *)

Abbreviation Incomplete := ReplayIntegrityIncomplete.

Definition bv (typ : string) (b : pendingDelta) : list (Z * string * json) :=
  (fun p => (p.1, typ, p.2)) <$> pParts b.

Definition bviews (m : gmap string pendingDelta) : list (Z * string * json) :=
  concat ((fun kv => bv kv.1 kv.2) <$> map_to_list m).

Definition stored (h : EventHub) : list (Z * string * json) :=
  jviews (default [] (journal h)) ++ bviews (deltaBuf h).

Definition incr (es : list SessionEvent) : Prop := StronglySorted (fun a b => Seq a < Seq b)%Z es.

Definition bucket_ok (h : EventHub) (b : pendingDelta) : Prop :=
  validDeltaBatch (pParts b) (pFromSeq b) (pToSeq b) = true /\ (0 < pFromSeq b)%Z /\ (pToSeq b < seq h)%Z.

Record core (h : EventHub) (es : list SessionEvent) : Prop := {
  c_seq : (0 <= latest h < seq h)%Z;
  c_hist : incr es;
  c_bound : Forall (fun e => 0 < Seq e <= latest h)%Z es;
  c_recs : forall j, journal h = Some j -> Forall (record_ok (sessionID h)) j;
  c_buf : forall typ b, deltaBuf h !! typ = Some b -> bucket_ok h b;
  c_nodup : NoDup (vseq <$> stored h);
  c_below : Forall (fun v => vseq v < seq h)%Z (stored h);
  c_mem : journal h = None -> deltaBuf h = ∅;
  c_full : replayIntegrity h <> Incomplete -> is_Some (journal h) -> stored h ≡ₚ view <$> es;
}.

(** What the hub's operations do to the fields subscribers depend on: a lost
    record is remembered for good, the journal only grows. *)
Record later (h h' : EventHub) : Prop := {
  f_session : sessionID h' = sessionID h;
  f_seq : (seq h <= seq h')%Z;
  f_latest : (latest h <= latest h')%Z;
  f_sticky : replayIntegrity h' = replayIntegrity h \/ replayIntegrity h' = Incomplete;
  f_journal : forall j, journal h = Some j -> exists k, journal h' = Some (j ++ k);
  f_none : journal h = None -> journal h' = None;
}.

(** What flushing leaves alone. *)
Record frame (h h' : EventHub) : Prop := {
  f_later : later h h';
  f_seq_eq : seq h' = seq h;
  f_latest_eq : latest h' = latest h;
  f_subs : subs h' = subs h;
}.

Lemma later_refl h : later h h.
Proof. split; auto; try lia. intros j Hj. exists []. by rewrite app_nil_r. Qed.

Lemma later_trans h1 h2 h3 : later h1 h2 -> later h2 h3 -> later h1 h3.
Proof.
  intros [] []. split; try congruence; try lia; [destruct f_sticky1 as [->|]; auto| |naive_solver].
  intros j Hj. destruct (f_journal0 j Hj) as [k Hk]. destruct (f_journal1 _ Hk) as [k' Hk'].
  exists (k ++ k'). by rewrite app_assoc.
Qed.

Lemma later_incomplete h h' : later h h' -> replayIntegrity h' <> Incomplete -> replayIntegrity h <> Incomplete.
Proof. intros Hl H. destruct (f_sticky _ _ Hl) as [E|E]; [by rewrite <- E|done]. Qed.

Lemma later_journaled h h' : later h h' -> is_Some (journal h') <-> is_Some (journal h).
Proof.
  intros [_ _ _ _ Hs Hn]. destruct (journal h) as [j|] eqn:E.
  - destruct (Hs j eq_refl) as [k ->]. split; by eauto.
  - by rewrite Hn.
Qed.

Lemma frame_refl h : frame h h.
Proof. split; auto using later_refl. Qed.

Lemma frame_trans h1 h2 h3 : frame h1 h2 -> frame h2 h3 -> frame h1 h3.
Proof. intros [] []. split; try congruence. by eapply later_trans. Qed.

Lemma bviews_delete m typ b : m !! typ = Some b -> bviews m ≡ₚ bv typ b ++ bviews (delete typ m).
Proof. intros H. unfold bviews. rewrite <- (map_to_list_delete m typ b H). done. Qed.

Lemma bviews_insert m typ b : bviews (<[typ := b]> m) ≡ₚ bv typ b ++ bviews (delete typ m).
Proof. rewrite (bviews_delete _ typ b (lookup_insert_eq _ _ _)). by rewrite delete_insert_eq. Qed.

Lemma batch_record_ok h typ b :
  bucket_ok h b ->
  record_ok (sessionID h) (batch_record (sessionID h) typ b) /\
  rviews (batch_record (sessionID h) typ b) = bv typ b.
Proof.
  intros (Hv & Hf & _). destruct (valid_bounds _ _ _ Hv) as [_ Hle].
  assert (E : expand (batch_record (sessionID h) typ b) =
    ((fun p => mkSessionEvent (sessionID h) (pRunID b) p.1 typ (pLastTime b) p.2) <$> pParts b, true)).
  { unfold expand. cbn. destruct (Z.eqb_spec (pFromSeq b) 0); [lia|]. by rewrite Hv. }
  unfold record_ok, rviews. rewrite E. cbn. split; [split_and!; [done|done|lia|lia]|].
  rewrite <- list_fmap_compose. done.
Qed.

Lemma jviews_snoc j r : jviews (j ++ [r]) = jviews j ++ rviews r.
Proof. unfold jviews. rewrite fmap_app, concat_app. cbn. by rewrite app_nil_r. Qed.

(** The three things a flush of a bucket can do. *)
Lemma flush1_cases io typ h (P : EventHub -> Prop) :
  P h ->
  (forall b j rec, deltaBuf h !! typ = Some b -> journal h = Some j -> rec = batch_record (sessionID h) typ b ->
     P (set_journal (set_buf h (delete typ (deltaBuf h)) (flushTimer h)) (j ++ [rec]) true) /\
     P (set_journal (set_buf h (delete typ (deltaBuf h)) (flushTimer h)) (j ++ [rec]) false) /\
     P (set_journal (set_buf h (delete typ (deltaBuf h)) (flushTimer h)) j false)) ->
  P (flushDeltaTypeLocked io typ h).
Proof.
  intros H0 H. unfold flushDeltaTypeLocked. destruct (deltaBuf h !! typ) as [b|]; [|done].
  destruct (journal h) as [j|]; [|done]. cbn [sessionID set_buf].
  destruct (H b j _ eq_refl eq_refl eq_refl) as (H1 & H2 & H3).
  destruct (io _) as [|[]]; cbn [AppendEvent]; assumption.
Qed.

Lemma later_journal h b t j k ok :
  journal h = Some j -> later h (set_journal (set_buf h b t) (j ++ k) ok).
Proof.
  intros Hj. split; cbn; try lia; [done|destruct ok; auto| |congruence].
  intros j' Hj'. exists k. rewrite Hj in Hj'. by injection Hj' as ->.
Qed.

Lemma flush1_frame io typ h : frame h (flushDeltaTypeLocked io typ h).
Proof.
  apply flush1_cases; [apply frame_refl|]. intros b j rec _ Hj _.
  assert (forall k ok, frame h (set_journal (set_buf h (delete typ (deltaBuf h)) (flushTimer h)) (j ++ k) ok)).
  { intros k ok. split; [by apply later_journal|done..]. }
  split_and!; [done|done|]. rewrite <- (app_nil_r j). done.
Qed.

(** Moving a bucket to the journal keeps what is stored. *)
Lemma core_moved h es typ b j ok :
  core h es -> deltaBuf h !! typ = Some b -> journal h = Some j ->
  core (set_journal (set_buf h (delete typ (deltaBuf h)) (flushTimer h)) (j ++ [batch_record (sessionID h) typ b]) ok) es.
Proof.
  intros Hc Hb Hj. destruct (batch_record_ok h typ b (c_buf _ _ Hc _ _ Hb)) as [Hr Hv].
  assert (E : jviews (j ++ [batch_record (sessionID h) typ b]) ++ bviews (delete typ (deltaBuf h)) ≡ₚ stored h).
  { unfold stored. rewrite Hj, jviews_snoc, Hv. cbn. by rewrite (bviews_delete (deltaBuf h) typ b Hb), app_assoc. }
  destruct Hc. split; unfold stored in *; cbn; try done.
  - intros j' [= <-]. apply Forall_app. split; [by apply c_recs0|by constructor].
  - intros t c Hc. apply lookup_delete_Some in Hc as [_ Hc]. by eapply c_buf0.
  - by rewrite E.
  - by rewrite E.
  - intros Hi _. rewrite E. apply c_full0; [|by rewrite Hj; eauto]. by destruct ok.
Qed.

(** A bucket that could not be written: what is stored shrinks. *)
Lemma core_lost h es typ b j :
  core h es -> deltaBuf h !! typ = Some b -> journal h = Some j ->
  core (set_journal (set_buf h (delete typ (deltaBuf h)) (flushTimer h)) j false) es.
Proof.
  intros Hc Hb Hj.
  assert (E : stored h ≡ₚ bv typ b ++ jviews j ++ bviews (delete typ (deltaBuf h))).
  { unfold stored. rewrite Hj. cbn. rewrite (bviews_delete (deltaBuf h) typ b Hb), !app_assoc.
    by rewrite (Permutation_app_comm (jviews j)). }
  destruct Hc. split; unfold stored in *; cbn; try done.
  - intros j' [= <-]. by apply c_recs0.
  - intros t c Hc. apply lookup_delete_Some in Hc as [_ Hc]. by eapply c_buf0.
  - rewrite E, fmap_app in c_nodup0. by apply NoDup_app in c_nodup0 as (_ & _ & ?).
  - rewrite E in c_below0. by apply Forall_app in c_below0 as [_ ?].
Qed.

Lemma flush1_core io typ h es : core h es -> core (flushDeltaTypeLocked io typ h) es.
Proof.
  intros Hc. apply flush1_cases; [done|]. intros b j rec Hb Hj ->.
  split_and!; [by apply core_moved|by apply core_moved|by eapply core_lost].
Qed.

Lemma flushes_frame io ts h : frame h (foldr (flushDeltaTypeLocked io) h ts).
Proof.
  induction ts as [|t ts IH]; cbn; [apply frame_refl|]. eapply frame_trans; [exact IH|apply flush1_frame].
Qed.

Lemma flushes_core io ts h es : core h es -> core (foldr (flushDeltaTypeLocked io) h ts) es.
Proof. intros Hc. induction ts as [|t ts IH]; cbn; [done|]. by apply flush1_core. Qed.

Lemma stop_core h es : core h es -> core (stopFlushTimerLocked h) es.
Proof. intros []. by split. Qed.

Lemma stop_frame h : frame h (stopFlushTimerLocked h).
Proof. split; [|done..]. destruct (later_refl h). by split. Qed.

Lemma flushAll_frame io h : frame h (flushAllDeltaLocked io h).
Proof. eapply frame_trans; [apply flushes_frame|apply stop_frame]. Qed.

Lemma flushAll_core io h es : core h es -> core (flushAllDeltaLocked io h) es.
Proof. intros Hs. apply stop_core. by apply flushes_core. Qed.

Lemma flush1_buf io typ h :
  is_Some (journal h) -> deltaBuf (flushDeltaTypeLocked io typ h) = delete typ (deltaBuf h).
Proof.
  intros [j Hj]. unfold flushDeltaTypeLocked. rewrite Hj. destruct (deltaBuf h !! typ) eqn:E.
  - by destruct (AppendEvent _ _ _).
  - by rewrite delete_id.
Qed.

Lemma flushes_buf io ts h :
  is_Some (journal h) ->
  forall t, deltaBuf (foldr (flushDeltaTypeLocked io) h ts) !! t =
            if decide (t ∈ ts) then None else deltaBuf h !! t.
Proof.
  intros Hj. induction ts as [|x ts IH]; intros t; cbn [foldr].
  - destruct (decide _) as [Hi|]; [by apply not_elem_of_nil in Hi|done].
  - rewrite flush1_buf by (by apply (later_journaled _ _ (f_later _ _ (flushes_frame io ts h)))).
    destruct (decide (t = x)) as [-> |Hne].
    + rewrite lookup_delete_eq, decide_True; [done|left].
    + rewrite lookup_delete_ne, IH by done.
      destruct (decide (t ∈ ts)); destruct (decide (t ∈ x :: ts)); set_solver.
Qed.

Lemma flushAll_empty io h : is_Some (journal h) -> deltaBuf (flushAllDeltaLocked io h) = ∅.
Proof.
  intros Hj. apply map_empty. intros t. unfold flushAllDeltaLocked. cbn. rewrite flushes_buf by done.
  destruct (decide _) as [Hin|Hn]; [done|]. destruct (deltaBuf h !! t) as [b|] eqn:E; [|done].
  exfalso. apply Hn. apply list_elem_of_fmap. exists (t, b). by rewrite elem_of_map_to_list.
Qed.

(** ** Publishing *)

Lemma incr_snoc es out :
  incr es -> Forall (fun e => Seq e < Seq out)%Z es -> incr (es ++ [out]).
Proof.
  unfold incr. induction 1 as [|e es _ IH Hf]; intros Hb; cbn; [by repeat constructor|].
  inversion Hb; subst. constructor; [by apply IH|]. apply Forall_app. by repeat constructor.
Qed.

Lemma incr_app es1 es2 :
  incr (es1 ++ es2) <-> incr es1 /\ incr es2 /\ forall a b, a ∈ es1 -> b ∈ es2 -> (Seq a < Seq b)%Z.
Proof.
  unfold incr. split.
  - induction es1 as [|e es IH]; cbn; intros H; [split_and!; [constructor|done|set_solver]|].
    inversion H as [|? ? Hs Hf]; subst. destruct (IH Hs) as (H1 & H2 & H3).
    apply Forall_app in Hf as [Hf1 Hf2]. split_and!; [by constructor|done|].
    intros a b Ha Hb. apply elem_of_cons in Ha as [-> |Ha]; [|by apply H3].
    by apply (proj1 (Forall_forall _ _) Hf2).
  - intros (H1 & H2 & H3). induction H1 as [|e es Hs IH Hf]; cbn; [done|]. constructor.
    + apply IH. intros a b Ha. apply H3. by right.
    + apply Forall_app. split; [done|]. apply Forall_forall. intros b. apply H3. by left.
Qed.

(** A numbered event joins the history, and the store if there is a journal. *)
Lemma core_extend h es h1 out :
  core h es ->
  sessionID h1 = sessionID h -> seq h1 = (seq h + 1)%Z -> latest h1 = seq h -> Seq out = seq h ->
  replayIntegrity h1 = replayIntegrity h -> (journal h1 = None -> journal h = None) ->
  (forall j, journal h1 = Some j -> Forall (record_ok (sessionID h)) j) ->
  (forall typ b, deltaBuf h1 !! typ = Some b -> bucket_ok h1 b) ->
  (journal h1 = None -> deltaBuf h1 = ∅) ->
  (is_Some (journal h1) -> stored h1 ≡ₚ view out :: stored h /\ is_Some (journal h)) ->
  core h1 (es ++ [out]).
Proof.
  intros Hc Esid Eseq Elat Eout Eri Hnone Hrecs Hbuf Hmem Hst. destruct Hc.
  assert (Hs : journal h1 = None /\ stored h1 = [] \/ is_Some (journal h1)).
  { destruct (journal h1) eqn:E; [by right; eauto|left]. split; [done|].
    unfold stored. by rewrite E, Hmem. }
  split; try done.
  - lia.
  - apply incr_snoc; [done|]. eapply List.Forall_impl; [|exact c_bound0]. cbn. intros e. lia.
  - apply Forall_app. split; [|repeat constructor; lia].
    eapply List.Forall_impl; [|exact c_bound0]. cbn. intros e. lia.
  - by rewrite Esid.
  - destruct Hs as [[_ ->]|Hj]; [constructor|]. destruct (Hst Hj) as [-> _]. rewrite fmap_cons. constructor; [|done].
    rewrite list_elem_of_fmap. intros (v & Hv & Hin). rewrite Forall_forall in c_below0.
    specialize (c_below0 _ Hin). unfold vseq at 1 in Hv. cbn in Hv. lia.
  - destruct Hs as [[_ ->]|Hj]; [constructor|]. destruct (Hst Hj) as [-> _]. constructor.
    + unfold vseq. cbn. lia.
    + eapply List.Forall_impl; [|exact c_below0]. cbn. intros v. lia.
  - intros Hi Hj. destruct (Hst Hj) as [-> Hj']. rewrite fmap_app, Eri in *. cbn.
    rewrite Permutation_app_comm. cbn. constructor. by apply c_full0.
Qed.

Lemma bucket_ok_mono h h' b : bucket_ok h b -> (seq h <= seq h')%Z -> bucket_ok h' b.
Proof. intros (?&?&?) ?. split_and!; [done|done|lia]. Qed.

(** A delta that was broadcast and put into its bucket. *)
Lemma core_buffered h es h1 typ b0 b1 timer out j :
  core h es -> journal h = Some j ->
  h1 = set_buf (fanOutLocked out (set_seqs h (seq h + 1) (seq h))) (<[typ := b1]> (deltaBuf h)) timer ->
  Seq out = seq h -> view out = (seq h, typ, Payload out) ->
  (deltaBuf h !! typ = Some b0 \/ deltaBuf h !! typ = None /\ b0 = mkPending (RunID out) (Seq out) 0%Z 0%Z [] 0%Z) ->
  pParts b1 = pParts b0 ++ [(Seq out, Payload out)] -> pFromSeq b1 = pFromSeq b0 -> pToSeq b1 = Seq out ->
  core h1 (es ++ [out]).
Proof.
  intros Hc Hj -> Eout Ev Hb Ep Ef Et. eapply (core_extend h); cbn; try done.
  - intros j'. cbn. apply (c_recs _ _ Hc).
  - intros t b. rewrite lookup_insert_Some. intros [[_ <-]|[_ Hl]].
    + unfold bucket_ok. cbn. rewrite Ep, Ef, Et, Eout. destruct Hb as [Hl|[_ ->]].
      * destruct (c_buf _ _ Hc _ _ Hl) as (Hv & Hf & Ht). split_and!; [|done|lia].
        by eapply valid_snoc.
      * pose proof (c_seq _ _ Hc). cbn. rewrite !Eout, !Z.eqb_refl. split_and!; [done|lia|lia].
    + eapply bucket_ok_mono; [by eapply (c_buf _ _ Hc)|cbn; lia].
  - rewrite Hj. done.
  - intros _. split; [|by rewrite Hj; eauto]. unfold stored. cbn. rewrite Hj. cbn.
    assert (Eb : bviews (<[typ := b1]> (deltaBuf h)) ≡ₚ view out :: bviews (deltaBuf h)).
    { rewrite bviews_insert, Ev. destruct Hb as [Hl|[Hl ->]].
      - rewrite (bviews_delete _ _ _ Hl). unfold bv. rewrite Ep, fmap_app, Eout. cbn.
        rewrite <- app_assoc. cbn. by rewrite <- Permutation_middle.
      - rewrite (delete_id _ _ Hl). unfold bv. rewrite Ep, Eout. done. }
    rewrite Eb. by rewrite Permutation_middle.
Qed.

Lemma later_publish h h' :
  sessionID h' = sessionID h -> (seq h < seq h')%Z -> (latest h <= latest h')%Z ->
  (replayIntegrity h' = replayIntegrity h \/ replayIntegrity h' = Incomplete) ->
  (journal h' = journal h \/ exists j r, journal h = Some j /\ journal h' = Some (j ++ [r])) -> later h h'.
Proof.
  intros ??? ? Hj. split; try done; try lia.
  - intros j Ej. destruct Hj as [-> |(j' & r & Ej' & ->)].
    + exists []. by rewrite app_nil_r.
    + exists [r]. congruence.
  - intros En. destruct Hj as [-> |(j' & r & Ej' & ->)]; [done|congruence].
Qed.

Lemma u64_add_next h : (0 <= seq h < u64_max)%Z -> u64_add (seq h) 1 = (seq h + 1)%Z.
Proof. intros H. unfold u64_add, u64, u64_max in *. apply Z.mod_small. lia. Qed.

Lemma bufferDelta_flush io typ payload out h b timer h1 :
  (b, timer) = match deltaBuf h !! typ with
    | Some b => (b, flushTimer h)
    | None => (mkPending (RunID out) (Seq out) 0%Z 0%Z [] 0%Z, true)
    end ->
  h1 = set_buf h (<[typ := mkPending (pRunID b) (pFromSeq b) (Seq out) (ETime out)
         (pParts b ++ [(Seq out, payload)]) (pBytes b + jlen payload)%Z]> (deltaBuf h)) timer ->
  (forall es, core h1 es -> core (bufferDeltaLocked jlen io typ payload out h) es) /\
  frame h1 (bufferDeltaLocked jlen io typ payload out h).
Proof.
  intros Eb ->. unfold bufferDeltaLocked. rewrite <- Eb. cbn [pBytes].
  destruct (_ <=? _)%Z; [|split; [done|apply frame_refl]].
  destruct (_ =? _)%nat.
  - split; [intros es Hc; by apply stop_core, flush1_core|].
    eapply frame_trans; [apply flush1_frame|apply stop_frame].
  - split; [intros es; apply flush1_core|apply flush1_frame].
Qed.

(** A published event takes the next number and is stored; a key event is in
    the journal before anyone sees it. *)
Lemma publish_ok io now ev h es h' out :
  core h es -> (seq h < u64_max)%Z -> Publish jlen io now ev h = (h', Ok out) ->
  core h' (es ++ [out]) /\ later h h' /\ Seq out = seq h /\ subs h' = fanout_sub out <$> subs h /\
  (IsKeyEvent (Type_ out) = true -> forall j, journal h' = Some j -> view out ∈ jviews j).
Proof.
  intros Hc Hmax. unfold Publish. pose proof (c_seq _ _ Hc) as Hs.
  destruct (closed h); [done|]. cbn [set_seqs journal seq sessionID]. rewrite u64_add_next by lia.
  destruct (IsKeyEvent (iType ev)) eqn:Hk.
  - destruct (journal h) as [j|] eqn:Hj.
    + set (rec := mkEventRecord _ _ _ _ _ _ _). destruct (AppendEvent _ _ _) as [j' ok] eqn:Ea.
      destruct ok; [|done]. intros [= <- <-]. cbn.
      assert (j' = j ++ [rec]) as -> by (destruct (io rec) as [|[]]; cbn in Ea; congruence).
      assert (Hr : rviews rec = [view (outgoing now ev h)]) by done.
      split_and!; [| |done|done|].
      * apply (core_extend h); cbn; try done.
        -- intros j'' [= <-]. apply Forall_app. split; [by apply (c_recs _ _ Hc)|].
           repeat constructor; cbn; [lia|done].
        -- intros t b Hb. eapply bucket_ok_mono; [by eapply (c_buf _ _ Hc)|cbn; lia].
        -- intros _. split; [|by rewrite Hj; eauto]. unfold stored. cbn. rewrite Hj. rewrite jviews_snoc, Hr. cbn.
           rewrite <- app_assoc. cbn. by rewrite <- Permutation_middle.
      * apply later_publish; cbn; [done|lia|lia|by left|right; eauto].
      * intros _ j'' [= <-]. rewrite jviews_snoc, Hr. apply elem_of_app. right. by left.
    + intros [= <- <-]. cbn. split_and!; [| |done|done|congruence].
      * apply (core_extend h); cbn; try done; [by rewrite Hj| | |by rewrite Hj; intros [? ?]].
        -- intros t b Hb. by rewrite (c_mem _ _ Hc Hj), lookup_empty in Hb.
        -- intros _. by apply (c_mem _ _ Hc).
      * apply later_publish; cbn; [done|lia|lia|by left|by left].
  - destruct (journal h) as [j|] eqn:Hj.
    + cbn. rewrite Hj. intros [= <- <-].
      set (h2 := fanOutLocked _ _).
      destruct (match deltaBuf h2 !! iType ev with Some b => (b, flushTimer h2)
        | None => (mkPending (RunID (outgoing now ev h)) (Seq (outgoing now ev h)) 0%Z 0%Z [] 0%Z, true) end) as [b0 timer] eqn:Eb.
      destruct (bufferDelta_flush io (iType ev) (iPayload ev) (outgoing now ev h) h2 b0 timer _ (eq_sym Eb) eq_refl) as [Hcore Hfr].
      split_and!; [| |done| |intros Hk'; exfalso; change (IsKeyEvent (iType ev) = true) in Hk'; congruence].
      * apply Hcore. eapply (core_buffered h es _ (iType ev) b0); try done.
        cbn in Eb. destruct (deltaBuf h !! iType ev); injection Eb as <- <-; auto.
      * eapply later_trans; [|apply Hfr]. apply later_publish; cbn; [done|lia|lia|by left|by left].
      * by rewrite (f_subs _ _ Hfr).
    + cbn. rewrite Hj. intros [= <- <-]. cbn. split_and!; [| |done|done|congruence].
      * apply (core_extend h); cbn; try done; [by rewrite Hj| | |by rewrite Hj; intros [? ?]].
        -- intros t b Hb. by rewrite (c_mem _ _ Hc Hj), lookup_empty in Hb.
        -- intros _. by apply (c_mem _ _ Hc).
      * apply later_publish; cbn; [done|lia|lia|by left|by left].
Qed.

(** A refused or failed publication shows nobody anything. *)
Lemma publish_err io now ev h es h' e :
  core h es -> (seq h < u64_max)%Z -> Publish jlen io now ev h = (h', Err e) ->
  core h' es /\ later h h' /\ subs h' = subs h.
Proof.
  intros Hc Hmax. unfold Publish. pose proof (c_seq _ _ Hc) as Hs.
  destruct (closed h); [intros [= <- <-]; split_and!; [done|apply later_refl|done]|].
  cbn [set_seqs journal seq sessionID]. rewrite u64_add_next by lia.
  destruct (IsKeyEvent (iType ev)) eqn:Hk; [|by destruct (journal _)].
  destruct (journal h) as [j|] eqn:Hj; [|done].
  set (rec := mkEventRecord _ _ _ _ _ _ _). destruct (AppendEvent _ _ _) as [j' ok] eqn:Ea.
  destruct ok; [done|]. intros [= <- _]. cbn.
  assert (Hj' : j' = j \/ j' = j ++ [rec]) by (destruct (io rec) as [|[]]; cbn in Ea; naive_solver).
  assert (Hr : rviews rec = [view (outgoing now ev h)]) by done.
  split_and!; [| |done].
  - assert (E : jviews j' ++ bviews (deltaBuf h) = stored h \/
                jviews j' ++ bviews (deltaBuf h) ≡ₚ view (outgoing now ev h) :: stored h).
    { unfold stored. rewrite Hj. cbn. destruct Hj' as [-> | ->]; [by left|right].
      rewrite jviews_snoc, Hr, <- app_assoc. cbn. by rewrite <- Permutation_middle. }
    destruct Hc. split; unfold stored in *; cbn -[vseq] in *; try done; [lia| | | |].
    + intros j'' [= <-]. destruct Hj' as [-> | ->]; [by apply c_recs0|]. apply Forall_app. split; [by apply c_recs0|].
      repeat constructor; cbn; [lia|done].
    + intros t b Hb. eapply bucket_ok_mono; [by eapply c_buf0|cbn; lia].
    + destruct E as [-> | ->]; [done|]. rewrite fmap_cons. constructor; [|done].
      rewrite list_elem_of_fmap. intros (v & Hv & Hin). rewrite Forall_forall in c_below0.
      specialize (c_below0 _ Hin). unfold vseq at 1 in Hv. cbn in Hv. lia.
    + assert (Forall (fun v => vseq v < seq h + 1)%Z (jviews (default [] (journal h)) ++ bviews (deltaBuf h))).
      { eapply List.Forall_impl; [|exact c_below0]. cbn. intros v. lia. }
      destruct E as [-> | ->]; [done|]. constructor; [unfold vseq; cbn; lia|done].
  - apply later_publish; cbn; [done|lia|lia|by right|].
    destruct Hj' as [-> | ->]; [by left; rewrite Hj|by right; eauto].
Qed.

(** ** Subscribing *)

Lemma incr_views es : incr es -> StronglySorted (fun a b => vseq a < vseq b)%Z (view <$> es).
Proof. induction 1 as [|e es _ IH Hf]; cbn; constructor; [done|]. by apply Forall_fmap. Qed.

Lemma incr_of_sorted es : StronglySorted seq_le es -> NoDup (Seq <$> es) -> incr es.
Proof.
  induction 1 as [|e es _ IH Hf]; cbn; intros Hn; [constructor|].
  apply NoDup_cons in Hn as [Hni Hn]. constructor; [by apply IH|].
  apply Forall_forall. intros x Hx. rewrite Forall_forall in Hf. specialize (Hf x Hx). unfold seq_le in Hf.
  assert (Seq e <> Seq x) by (intros E; apply Hni; rewrite E; by apply list_elem_of_fmap_2). lia.
Qed.

Lemma replay_incr sid n j :
  Forall (record_ok sid) j -> NoDup (vseq <$> jviews j) ->
  (replay_of sid n j).2 = true /\ incr (replay_of sid n j).1 /\
  view <$> (replay_of sid n j).1 ≡ₚ List.filter (after n) (jviews j).
Proof.
  intros Hj Hn. destruct (replay_parts sid n j Hj) as [E1 E2].
  assert (Hp : view <$> (replay_of sid n j).1 ≡ₚ List.filter (after n) (jviews j)).
  { unfold replay_of. cbn. by rewrite merge_sort_Permutation, E1. }
  split_and!; [done| |done]. apply incr_of_sorted; [apply StronglySorted_merge_sort; apply _|].
  replace (Seq <$> (replay_of sid n j).1) with (vseq <$> (view <$> (replay_of sid n j).1))
    by (by rewrite <- list_fmap_compose).
  rewrite Hp. clear -Hn. induction (jviews j) as [|v vs IH]; cbn; [constructor|].
  apply NoDup_cons in Hn as [Hni Hn]. destruct (after n v); [|by apply IH]. cbn. constructor; [|by apply IH].
  rewrite list_elem_of_fmap. intros (y & E & Hy). apply Hni. rewrite E. apply list_elem_of_fmap_2.
  apply list_elem_of_In in Hy. apply filter_In in Hy as [Hy _]. by apply list_elem_of_In.
Qed.

Definition quiet (h h' : EventHub) : Prop :=
  later h h' /\ subs h' = subs h /\ forall es, core h es -> core h' es.

Lemma quiet_refl h : quiet h h.
Proof. split_and!; [apply later_refl|done|done]. Qed.

Lemma quiet_flush io h r : quiet h (set_run (flushAllDeltaLocked io h) r).
Proof.
  destruct (flushAll_frame io h) as [[] _ _ Hs]. split_and!; [by split|done|].
  intros es Hc. apply (flushAll_core io) in Hc. destruct Hc. by split.
Qed.

Lemma quiet_timer io h : quiet h (flushDeltaOnTimer io h).
Proof.
  unfold flushDeltaOnTimer. destruct (closed h); [apply quiet_refl|].
  destruct (flushAll_frame io h). split_and!; [done|done|]. intros es. apply flushAll_core.
Qed.

Lemma quiet_begin io r h : quiet h (BeginRun io r h).
Proof. unfold BeginRun. destruct (closed h); [apply quiet_refl|apply quiet_flush]. Qed.

Lemma quiet_end io h : quiet h (EndRun io h).
Proof. unfold EndRun. destruct (closed h); [apply quiet_refl|apply quiet_flush]. Qed.

Lemma close_core io h es : core h es -> core (Close io h) es /\ later h (Close io h).
Proof.
  intros Hc. unfold Close. destruct (closed h); [split; [done|apply later_refl]|].
  destruct (flushAll_frame io h) as [[] _ _ _]. apply (flushAll_core io) in Hc.
  split; [by destruct Hc; split|by split].
Qed.

(** A subscription's replay is in order, after the cursor, and complete unless
    the hub says otherwise. *)
Record subscribed (n : Z) (h h' : EventHub) (es : list SessionEvent) (id : nat) (rep : list SessionEvent) : Prop := {
  r_core : core h' es;
  r_later : later h h';
  r_cursor : (n <= latest h')%Z;
  r_subs : subs h' = <[id := mkSub [] (latest h') true false]> (subs h);
  r_incr : incr rep;
  r_after : Forall (fun e => n < Seq e < seq h')%Z rep;
  r_full : replayIntegrity h' <> Incomplete -> is_Some (journal h') ->
    view <$> rep = List.filter (after n) (view <$> es);
  r_mem : journal h' = None -> rep = [];
}.

Lemma core_same h es h' :
  core h es -> sessionID h' = sessionID h -> seq h' = seq h -> latest h' = latest h ->
  journal h' = journal h -> deltaBuf h' = deltaBuf h ->
  (replayIntegrity h' = replayIntegrity h \/ replayIntegrity h' = Incomplete) -> core h' es.
Proof.
  intros [] E1 E2 E3 E4 E5 E6. split; unfold stored, bucket_ok in *; rewrite ?E1, ?E2, ?E3, ?E4, ?E5; try done.
  intros Hi. destruct E6 as [E|E]; [rewrite E in Hi|]; auto.
Qed.

Lemma subscribe_ok io readable n h es h' id rep :
  core h es -> (0 <= n)%Z -> Subscribe io readable n h = (h', Ok (id, rep)) -> subscribed n h h' es id rep.
Proof.
  intros Hc Hn. unfold Subscribe. destruct (closed h); [done|].
  destruct (_ || _) eqn:Hw; [done|]. apply orb_false_iff in Hw as [Hw _]. apply Z.ltb_ge in Hw.
  destruct (journal h) as [j0|] eqn:Hj.
  - assert (Hsome : is_Some (journal h)) by eauto.
    pose proof (flushAll_core io h es Hc) as Hc1. pose proof (flushAll_frame io h) as Hf.
    pose proof (flushAll_empty io h Hsome) as He.
    revert Hc1 Hf He. generalize (flushAllDeltaLocked io h). intros h1 Hc1 Hf He.
    destruct readable; [cbn [negb]|done]. cbv zeta.
    assert (Hsome1 : is_Some (journal h1)) by (by apply (later_journaled _ _ (f_later _ _ Hf))).
    destruct Hsome1 as [j Hj1]. rewrite Hj1. change (default [] (Some j)) with j.
    pose proof (c_nodup _ _ Hc1) as Hnd. pose proof (c_below _ _ Hc1) as Hb.
    assert (Est : stored h1 = jviews j) by (unfold stored; rewrite Hj1, He; apply app_nil_r).
    rewrite Est in Hnd, Hb.
    destruct (replay_incr (sessionID h1) n j (c_recs _ _ Hc1 _ Hj1) Hnd) as (Hok & Hin & Hp).
    pose proof (replay_of_spec (sessionID h1) n j (view <$> es) (c_recs _ _ Hc1 _ Hj1)) as Hspec.
    destruct (replay_of (sessionID h1) n j) as [es1 ok]. cbn in Hok, Hin, Hp, Hspec. subst ok.
    intros [= <- <- <-]. destruct Hf as [Hlat Hseq Hl Hs].
    split; cbn; try done.
    + eapply core_same; [exact Hc1|first [done|by rewrite Hj1|by left]..].
    + destruct Hlat. split; cbn; try done.
      * intros j' Hj'. destruct (f_journal0 _ Hj') as [k Hk]. exists k. by rewrite <- Hk.
      * by rewrite Hj.
    + by rewrite Hl.
    + by rewrite Hs.
    + apply (proj1 (Forall_fmap view (fun v => n < vseq v < seq h1)%Z es1)). rewrite Hp.
      apply Forall_forall. intros v Hv. apply list_elem_of_In in Hv. apply filter_In in Hv as [Hv Ha].
      apply list_elem_of_In in Hv. rewrite Forall_forall in Hb. specialize (Hb _ Hv).
      apply Z.ltb_lt in Ha. lia.
    + intros Hi _. apply Hspec; [|by apply incr_views, (c_hist _ _ Hc1)].
      rewrite <- Est. apply (c_full _ _ Hc1); [done|by rewrite Hj1; eauto].
  - intros [= <- <- <-]. split; cbn; try done.
    + eapply core_same; [exact Hc|first [done|by rewrite Hj|by left]..].
    + destruct (later_refl h). split; cbn; try done; intros; congruence.
    + constructor.
Qed.

Lemma subscribe_err io readable n h es h' e :
  core h es -> Subscribe io readable n h = (h', Err e) -> quiet h h'.
Proof.
  intros Hc. unfold Subscribe. destruct (closed h); [intros [= <- _]; apply quiet_refl|].
  destruct (_ || _); [intros [= <- _]; apply quiet_refl|].
  destruct (journal h); [|done]. destruct readable; cbn [negb]; [by destruct (replay_of _ _ _)|].
  intros [= <- _]. destruct (flushAll_frame io h). split_and!; [done|done|].
  intros es'. apply flushAll_core.
Qed.

(** ** Subscribers *)

Definition since (n : Z) (es : list SessionEvent) : list SessionEvent := List.filter (fun e => (n <? Seq e)%Z) es.
Definition last_seq (es : list SessionEvent) : Z := from_option Seq 0%Z (last es).
Definition in_hand (p : pump) : list SessionEvent := match hand p with Some e => [e] | None => [] end.

(** What a subscriber has received and is going to receive. *)
Definition stream (p : pump) (sub : hubSub) : list SessionEvent :=
  sent p ++ replay p ++ in_hand p ++ live sub.

Record pump_ok (h : EventHub) (es : list SessionEvent) (p : pump) (sub : hubSub) : Prop := {
  p_incr : incr (stream p sub);
  p_range : Forall (fun e => from p < Seq e < seq h)%Z (stream p sub);
  p_from : (0 <= from p <= watermark sub)%Z;
  p_mark : (watermark sub <= latest h)%Z;
  p_last : lastSeq p = last_seq (sent p);
  p_phase : replay p <> [] -> hand p = None;
  p_live : exists rep lv, stream p sub = rep ++ lv /\ (journal h = None -> rep = []) /\
    lv `prefix_of` since (watermark sub) es /\
    (registered sub = true -> lv = since (watermark sub) es);
  p_full : replayIntegrity h <> Incomplete -> is_Some (journal h) ->
    view <$> stream p sub `prefix_of` List.filter (after (from p)) (view <$> es) /\
    (registered sub = true -> view <$> stream p sub = List.filter (after (from p)) (view <$> es));
  p_lost : registered sub = false -> disconnected sub = true \/ running p = false;
}.

Lemma pump_later h h' es p sub : later h h' -> pump_ok h es p sub -> pump_ok h' es p sub.
Proof.
  intros Hl []. pose proof (f_seq _ _ Hl). pose proof (f_latest _ _ Hl). split; try done; try lia.
  - eapply List.Forall_impl; [|exact p_range0]. cbn. intros e. lia.
  - destruct p_live0 as (rep & lv & E & Hm & Hp). exists rep, lv. split_and!; [done| |apply Hp..].
    intros Hn. apply Hm. destruct (journal h) eqn:Ej; [|done].
    destruct (f_journal _ _ Hl _ Ej). congruence.
  - intros Hi Hj. apply p_full0; [by eapply later_incomplete|by apply (later_journaled _ _ Hl)].
Qed.

(** A step of the delivery loop moves events along the stream. *)
Lemma pump_move h es p sub p' sub' :
  pump_ok h es p sub -> stream p' sub' = stream p sub -> from p' = from p -> watermark sub' = watermark sub ->
  lastSeq p' = last_seq (sent p') -> (replay p' <> [] -> hand p' = None) ->
  (registered sub' = true -> registered sub = true) ->
  (registered sub' = false -> disconnected sub' = true \/ running p' = false) ->
  pump_ok h es p' sub'.
Proof.
  intros [] Est Ef Ew ?? Hreg ?. split; rewrite ?Est, ?Ef, ?Ew; try done.
  - destruct p_live0 as (rep & lv & E & Hm & Hp & Hr). exists rep, lv. naive_solver.
  - intros Hi Hj. destruct (p_full0 Hi Hj). naive_solver.
Qed.

Lemma since_snoc n es out : (n < Seq out)%Z -> since n (es ++ [out]) = since n es ++ [out].
Proof. intros H. unfold since. rewrite List.filter_app. cbn. by rewrite (proj2 (Z.ltb_lt _ _) H). Qed.

Lemma after_snoc n es out :
  (n < Seq out)%Z -> List.filter (after n) (view <$> es ++ [out]) = List.filter (after n) (view <$> es) ++ [view out].
Proof.
  intros H. rewrite fmap_app, List.filter_app. cbn. unfold after at 2, vseq. cbn.
  by rewrite (proj2 (Z.ltb_lt _ _) H).
Qed.

Lemma pump_broadcast h h' es p sub out :
  core h es -> core h' (es ++ [out]) -> later h h' -> Seq out = seq h ->
  pump_ok h es p sub -> pump_ok h' (es ++ [out]) p (fanout_sub out sub).
Proof.
  intros Hc Hc' Hl Eout Hp.
  assert (Hout : (Seq out < seq h')%Z).
  { pose proof (c_bound _ _ Hc') as Hb. apply Forall_app in Hb as [_ Hb]. inversion Hb; subst.
    pose proof (c_seq _ _ Hc'). lia. }
  pose proof (c_seq _ _ Hc) as Hs. pose proof (pump_later _ _ _ _ _ Hl Hp) as Hp'.
  destruct (p_live _ _ _ _ Hp') as (rep & lv & E & Hm & Hpre & Hall).
  pose proof (p_range _ _ _ _ Hp) as Hr. pose proof (p_from _ _ _ _ Hp). pose proof (p_mark _ _ _ _ Hp).
  (* The subscriber gets nothing: whatever it had stays a prefix. *)
  assert (Hkeep : forall sub', stream p sub' = stream p sub -> watermark sub' = watermark sub ->
    registered sub' = false -> (disconnected sub' = true \/ running p = false) ->
    pump_ok h' (es ++ [out]) p sub').
  { intros sub' Est Ew Hreg Hlost. destruct Hp'. split; rewrite ?Est, ?Ew; try done.
    - exists rep, lv. split_and!; [done|done| |by rewrite Hreg].
      rewrite since_snoc by lia. by apply prefix_app_r.
    - intros Hi Hj. rewrite after_snoc by lia. destruct (p_full0 Hi Hj). split; [by apply prefix_app_r|by rewrite Hreg]. }
  unfold fanout_sub. destruct (registered sub) eqn:Hreg; cbn [negb].
  2: { apply Hkeep; try done. by apply (p_lost _ _ _ _ Hp). }
  destruct (Z.leb_spec (Seq out) (watermark sub)); [lia|].
  destruct (_ <? _)%nat; [|apply Hkeep; cbn; auto].
  set (sub' := mkSub _ _ _ _).
  assert (Est : stream p sub' = stream p sub ++ [out]) by (unfold stream; cbn; by rewrite !app_assoc).
  destruct Hp'. split; rewrite ?Est; try done; cbn [watermark registered sub'].
  - apply incr_snoc; [done|]. eapply List.Forall_impl; [|exact Hr]. cbn. intros e. lia.
  - apply Forall_app. split; [done|]. repeat constructor; lia.
  - exists rep, (lv ++ [out]). rewrite since_snoc, E by lia. rewrite (Hall eq_refl).
    split_and!; [by rewrite app_assoc|done|done|done].
  - intros Hi Hj. rewrite after_snoc, fmap_app by lia. destruct (p_full0 Hi Hj) as [_ Hf].
    by rewrite (Hf Hreg).
Qed.

Lemma since_all es n : Forall (fun e => Seq e <= n)%Z es -> since n es = [].
Proof.
  intros H. apply filter_none. eapply List.Forall_impl; [|exact H]. cbn. intros e He.
  by apply Z.ltb_ge.
Qed.

Lemma pump_new n h h' es id rep :
  (0 <= n)%Z -> subscribed n h h' es id rep ->
  pump_ok h' es (mkPump n rep None 0%Z [] 0 true) (mkSub [] (latest h') true false).
Proof.
  intros Hn []. assert (Est : stream (mkPump n rep None 0 [] 0 true) (mkSub [] (latest h') true false) = rep).
  { unfold stream. cbn. by rewrite app_nil_r. }
  split; rewrite ?Est; cbn; try done.
  - exists rep, []. rewrite app_nil_r. rewrite since_all; [by split_and!|].
    eapply List.Forall_impl; [|exact (c_bound _ _ r_core0)]. cbn. intros e. lia.
  - intros Hi Hj. by rewrite r_full0.
Qed.

(** *** The invariant *)

Record inv (s : state) : Prop := {
  i_core : core (hub s) (hist s);
  i_keys : forall (e : SessionEvent) (j : Journal), e ∈ hist s -> IsKeyEvent (Type_ e) = true -> journal (hub s) = Some j -> view e ∈ jviews j;
  i_pumps : forall id p, pumps s !! id = Some p ->
    exists sub, subs (hub s) !! id = Some sub /\ pump_ok (hub s) (hist s) p sub;
}.

Lemma jviews_app j k : jviews (j ++ k) = jviews j ++ jviews k.
Proof. unfold jviews. by rewrite fmap_app, concat_app. Qed.

Lemma keys_later h h' (es : list SessionEvent) :
  later h h' ->
  (forall (e : SessionEvent) (j : Journal), e ∈ es -> IsKeyEvent (Type_ e) = true -> journal h = Some j -> view e ∈ jviews j) ->
  (forall (e : SessionEvent) (j : Journal), e ∈ es -> IsKeyEvent (Type_ e) = true -> journal h' = Some j -> view e ∈ jviews j).
Proof.
  intros Hl H e j He Hk Hj. destruct (journal h) as [j0|] eqn:Ej.
  - destruct (f_journal _ _ Hl _ Ej) as [k Ek]. assert (j = j0 ++ k) as -> by congruence.
    rewrite jviews_app. apply elem_of_app. left. by eapply H.
  - rewrite (f_none _ _ Hl Ej) in Hj. done.
Qed.

Lemma inv_quiet h' s : inv s -> quiet (hub s) h' -> inv (mkState h' (pumps s) (hist s)).
Proof.
  intros [Hc Hk Hp] (Hl & Hs & Hq). split; cbn; [by apply Hq|by eapply keys_later|].
  intros id p Hid. destruct (Hp id p Hid) as (sub & Hsub & Hok). exists sub. rewrite Hs.
  split; [done|]. by eapply pump_later.
Qed.

Lemma close_sub io h id sub :
  subs h !! id = Some sub ->
  exists sub', subs (Close io h) !! id = Some sub' /\
    (sub' = sub \/ sub' = mkSub (live sub) (watermark sub) false true).
Proof.
  intros Hsub. unfold Close. destruct (closed h); [by eauto|]. cbn [subs].
  rewrite lookup_fmap, (f_subs _ _ (flushAll_frame io h)), Hsub. cbn.
  destruct (registered sub); eauto.
Qed.

Lemma inv_close io s : inv s -> inv (mkState (Close io (hub s)) (pumps s) (hist s)).
Proof.
  intros [Hc Hk Hp]. destruct (close_core io _ _ Hc) as [Hc' Hl]. split; cbn; [done|by eapply keys_later|].
  intros id p Hid. destruct (Hp id p Hid) as (sub & Hsub & Hok). apply (pump_later _ _ _ _ _ Hl) in Hok.
  destruct (close_sub io _ _ _ Hsub) as (sub' & Hsub' & E). exists sub'. split; [done|].
  destruct E as [-> | ->]; [done|]. destruct Hok as [] eqn:Eok.
  eapply pump_move; [exact Hok|try done..]. by left.
Qed.

Lemma inv_publish io now ev s h' out :
  inv s -> (seq (hub s) < u64_max)%Z -> Publish jlen io now ev (hub s) = (h', Ok out) ->
  inv (mkState h' (pumps s) (hist s ++ [out])).
Proof.
  intros [Hc Hk Hp] Hmax Hpub. destruct (publish_ok _ _ _ _ _ _ _ Hc Hmax Hpub) as (Hc' & Hl & Eout & Es & Hkey).
  split; cbn; [done| |].
  - intros e j He Hke Hj. apply elem_of_app in He as [He|He]; [by eapply keys_later|].
    apply list_elem_of_singleton in He as ->. by apply Hkey.
  - intros id p Hid. destruct (Hp id p Hid) as (sub & Hsub & Hok). exists (fanout_sub out sub).
    rewrite Es, lookup_fmap, Hsub. split; [done|]. by eapply pump_broadcast.
Qed.

Lemma inv_subscribe io readable n s h' id es :
  inv s -> (0 <= n)%Z -> Subscribe io readable n (hub s) = (h', Ok (id, es)) ->
  inv (mkState h' (<[id := mkPump n es None 0%Z [] 0 true]> (pumps s)) (hist s)).
Proof.
  intros [Hc Hk Hp] Hn Hsub. pose proof (subscribe_ok _ _ _ _ _ _ _ _ Hc Hn Hsub) as Hs.
  split; cbn; [apply Hs|eapply keys_later; [apply Hs|done]|].
  intros i p Hi. rewrite (r_subs _ _ _ _ _ _ Hs). destruct (decide (i = id)) as [-> |Hne].
  - rewrite lookup_insert_eq in Hi. injection Hi as <-. rewrite lookup_insert_eq.
    eexists. split; [done|]. by eapply pump_new.
  - rewrite lookup_insert_ne in Hi by done. rewrite lookup_insert_ne by done. destruct (Hp i p Hi) as (sub & Hl & Hok).
    exists sub. split; [done|]. eapply pump_later; [apply Hs|done].
Qed.

(** A step of one delivery loop. *)
Lemma inv_pump s id p sub p' sub' :
  inv s -> pumps s !! id = Some p -> subs (hub s) !! id = Some sub ->
  (pump_ok (hub s) (hist s) p sub -> pump_ok (hub s) (hist s) p' sub') ->
  inv (mkState (set_subs (hub s) (<[id := sub']> (subs (hub s)))) (<[id := p']> (pumps s)) (hist s)).
Proof.
  intros [Hc Hk Hp] Hid Hsub Hmove. destruct (Hp id p Hid) as (sub0 & E & Hok).
  rewrite Hsub in E. injection E as <-.
  assert (Hl : later (hub s) (set_subs (hub s) (<[id := sub']> (subs (hub s))))) by (destruct (later_refl (hub s)); by split).
  split; cbn; [eapply core_same; [exact Hc|first [done|by left]..]|done|].
  intros i q Hi. destruct (decide (i = id)) as [-> |Hne].
  - rewrite lookup_insert_eq in Hi. injection Hi as <-. rewrite lookup_insert_eq. exists sub'.
    split; [done|]. apply (pump_later (hub s)); [done|]. by apply Hmove.
  - rewrite lookup_insert_ne in Hi by done. rewrite lookup_insert_ne by done. destruct (Hp i q Hi) as (subi & Hl' & Hoki).
    exists subi. split; [done|]. by apply (pump_later (hub s)).
Qed.

Lemma last_seq_snoc l e : last_seq (l ++ [e]) = Seq e.
Proof. unfold last_seq. by rewrite last_snoc. Qed.

(** The duplicate test of [pumpEvents] never fires. *)
Lemma take_is_new h es p sub e rest :
  pump_ok h es p sub -> replay p = [] -> hand p = None -> live sub = e :: rest -> (lastSeq p < Seq e)%Z.
Proof.
  intros Hok Er Eh El. rewrite (p_last _ _ _ _ Hok). pose proof (p_incr _ _ _ _ Hok) as Hi.
  pose proof (p_range _ _ _ _ Hok) as Hr. pose proof (p_from _ _ _ _ Hok).
  unfold stream, in_hand in *. rewrite Er, Eh, El in *. cbn in *. unfold last_seq.
  destruct (last (sent p)) as [l|] eqn:Elast; cbn.
  - apply last_Some in Elast as [l' Es]. apply incr_app in Hi as (_ & _ & Hlt). apply Hlt; [|by left].
    rewrite Es. apply elem_of_app. right. by left.
  - rewrite Forall_app in Hr. destruct Hr as [_ Hr]. inversion Hr; subst. lia.
Qed.

Lemma subs_same h id sub : subs h !! id = Some sub -> set_subs h (<[id := sub]> (subs h)) = h.
Proof. intros H. rewrite insert_id by done. by destruct h. Qed.

Lemma hub_inv_step s s' : inv s -> step s s' -> inv s'.
Proof.
  intros Hi Hst.
  assert (Hsub : forall id p, pumps s !! id = Some p ->
    exists sub, subs (hub s) !! id = Some sub /\ pump_ok (hub s) (hist s) p sub) by apply Hi.
  destruct Hst as [s io now ev h' out Hmax Hpub|s io now ev h' e Hmax Hpub|s io|s io r|s io|s io
    |s io readable n h' id es Hn Hs|s io readable n h' e Hs
    |s id p e rest Hp Hrun Er Hroom|s id p sub e rest Hp Hrun Er Eh Hs El|s id p e Hp Hrun Er Eh Hroom
    |s id p Hp Hrun|s id p Hp Htk].
  - by eapply inv_publish.
  - pose proof (i_core _ Hi) as Hc.
    destruct Hi as [_ Hk Hps]. destruct (publish_err _ _ _ _ _ _ _ Hc Hmax Hpub) as (Hc' & Hl & Es).
    split; cbn; [done|by eapply keys_later|]. intros id p Hid. rewrite Es.
    destruct (Hps id p Hid) as (sub & Hsb & Hok). exists sub. split; [done|]. by eapply pump_later.
  - apply inv_quiet; [done|apply quiet_timer].
  - apply inv_quiet; [done|apply quiet_begin].
  - apply inv_quiet; [done|apply quiet_end].
  - by apply inv_close.
  - eapply inv_subscribe; [done| |done]. lia.
  - apply inv_quiet; [done|]. eapply subscribe_err; [apply Hi|done].
  - destruct (Hsub id p Hp) as (sub & Hsb & _).
    unfold set_pump. rewrite <- (subs_same _ _ _ Hsb). apply (inv_pump _ _ p sub); [done..|]. intros Hok.
    eapply pump_move; [exact Hok|try done..].
    + unfold stream, in_hand. cbn. rewrite Er, (p_phase _ _ _ _ Hok) by (by rewrite Er).
      cbn. by rewrite <- app_assoc.
    + symmetry. apply last_seq_snoc.
    + intros Hreg. destruct (p_lost _ _ _ _ Hok Hreg); [by left|congruence].
  - apply (inv_pump _ _ p sub); [done..|]. intros Hok.
    pose proof (take_is_new _ _ _ _ _ _ Hok Er Eh El) as Hnew.
    destruct (Z.leb_spec (Seq e) (lastSeq p)); [lia|].
    eapply pump_move; [exact Hok|try done..].
    + unfold stream, in_hand. cbn. by rewrite Er, Eh, El.
    + cbn. apply (p_last _ _ _ _ Hok).
    + intros Hreg. destruct (p_lost _ _ _ _ Hok Hreg); [by left|congruence].
  - destruct (Hsub id p Hp) as (sub & Hsb & _).
    unfold set_pump. rewrite <- (subs_same _ _ _ Hsb). apply (inv_pump _ _ p sub); [done..|]. intros Hok.
    eapply pump_move; [exact Hok|try done..].
    + unfold stream, in_hand. cbn. rewrite Er, Eh. cbn. by rewrite <- app_assoc.
    + symmetry. apply last_seq_snoc.
    + intros Hreg. destruct (p_lost _ _ _ _ Hok Hreg); [by left|congruence].
  - destruct (Hsub id p Hp) as (sub & Hsb & _).
    unfold exit, removeSub.
    assert (E : alter (fun q => mkSub (live q) (watermark q) false (disconnected q)) id (subs (hub s)) =
      <[id := mkSub (live sub) (watermark sub) false (disconnected sub)]> (subs (hub s))).
    { apply map_eq. intros i. destruct (decide (i = id)) as [-> |Hne].
      - by rewrite lookup_alter_eq, lookup_insert_eq, Hsb.
      - by rewrite lookup_alter_ne, lookup_insert_ne. }
    rewrite E. apply (inv_pump _ _ p sub); [done..|]. intros Hok.
    eapply pump_move; [exact Hok|try done..]; [apply (p_last _ _ _ _ Hok)|apply (p_phase _ _ _ _ Hok)|by right].
  - destruct (Hsub id p Hp) as (sub & Hsb & _).
    unfold set_pump. rewrite <- (subs_same _ _ _ Hsb). apply (inv_pump _ _ p sub); [done..|]. intros Hok.
    eapply pump_move; [exact Hok|try done..];
      [apply (p_last _ _ _ _ Hok)|apply (p_phase _ _ _ _ Hok)|apply (p_lost _ _ _ _ Hok)].
Qed.

(** *** Start *)

Lemma seq_range_spec sid j :
  Forall (fun r => rSessionID r = sid) j ->
  match SeqRange sid j with
  | Some (e, l) => Forall (fun r => rSeq r <= l)%Z j /\ exists r, r ∈ j /\ rSeq r = l
  | None => j = []
  end.
Proof.
  unfold SeqRange. induction j as [|r j IH] using rev_ind; intros H; [done|].
  apply Forall_app in H as [Hj Hr]. inversion Hr as [|? ? Es _]; subst. specialize (IH Hj).
  rewrite foldl_app. cbn. rewrite String.eqb_refl. cbn. revert IH.
  destruct (foldl _ None j) as [[e l]|].
  - intros [Hf (r' & Hin & El)]. destruct (Z.ltb_spec l (rSeq r)).
    + split; [|exists r; split; [apply elem_of_app; right; by left|done]].
      apply Forall_app. split; [|by constructor]. eapply List.Forall_impl; [|exact Hf]. cbn. intros x. lia.
    + split; [|exists r'; split; [apply elem_of_app; by left|done]].
      apply Forall_app. split; [done|by repeat constructor].
  - intros ->. cbn. split; [by repeat constructor|]. exists r. split; [by left|done].
Qed.

Lemma records_ok_of_replay sid j :
  Forall (fun r => rSessionID r = sid /\ 0 < rSeq r < u64_max /\ 0 <= rFromSeq r)%Z j ->
  (replay_of sid 0 j).2 = true -> Forall (record_ok sid) j.
Proof.
  unfold replay_of, ReadEvents. cbn. induction 1 as [|r j (Es & Hs & Hf) _ IH]; cbn; [constructor|].
  rewrite Es, String.eqb_refl, (proj2 (Z.ltb_lt _ _)) by lia. cbn. intros H.
  apply andb_true_iff in H as [Hr H]. constructor; [|by apply IH]. split_and!; [done| |lia|done].
  unfold replay_record in Hr. by destruct (expand r).
Qed.

Lemma initial_store sid recs es :
  Forall (fun r => rSessionID r = sid /\ 0 < rSeq r < u64_max /\ 0 <= rFromSeq r)%Z recs ->
  replay_of sid 0 recs = (es, true) -> incr es ->
  Forall (record_ok sid) recs /\ jviews recs ≡ₚ view <$> es /\
  (forall m, Forall (fun r => rSeq r <= m)%Z recs -> Forall (fun v => 0 < vseq v <= m)%Z (jviews recs)).
Proof.
  intros Hr Er Hi.
  assert (Hok : Forall (record_ok sid) recs) by (apply records_ok_of_replay; [done|by rewrite Er]).
  assert (Hb : forall m, Forall (fun r => rSeq r <= m)%Z recs -> Forall (fun v => 0 < vseq v <= m)%Z (jviews recs)).
  { intros m Hm. clear Er Hr. unfold jviews. induction Hok as [|r rs Hr _ IH]; cbn; [constructor|].
    inversion Hm; subst. apply Forall_app. split; [|by apply IH]. apply Forall_fmap.
    eapply List.Forall_impl; [|exact (expand_bounds sid r Hr)]. cbn. intros e. unfold vseq. cbn. lia. }
  split_and!; [done| |done].
  destruct (replay_parts sid 0 recs Hok) as [E _]. apply (f_equal fst) in Er. unfold replay_of in Er. cbn in Er.
  rewrite <- Er, merge_sort_Permutation, E, filter_all; [done|].
  assert (Hm : Forall (fun r => rSeq r <= u64_max)%Z recs).
  { eapply List.Forall_impl; [|exact Hr]. cbn. intros r. lia. }
  eapply List.Forall_impl; [|exact (Hb _ Hm)]. cbn. intros v Hv. apply Z.ltb_lt. lia.
Qed.

Lemma hub_inv_initial s : initial s -> inv s.
Proof.
  intros (sid & j & Hnew & Hp & Hj). unfold NewEventHub in Hnew. destruct j as [recs|].
  - destruct Hj as (Hr & Er & Hs). destruct (initial_store sid recs (hist s) Hr Er Hs) as (Hok & Hperm & Hb).
    assert (Hsid : Forall (fun r => rSessionID r = sid) recs) by (eapply List.Forall_impl; [|exact Hr]; naive_solver).
    pose proof (seq_range_spec sid recs Hsid) as Hrange.
    assert (Hnd : NoDup (vseq <$> jviews recs)).
    { rewrite Hperm, <- list_fmap_compose. clear -Hs. induction Hs as [|e es _ IH Hf]; cbn; constructor; [|done].
      rewrite list_elem_of_fmap. intros (x & E & Hx). rewrite Forall_forall in Hf. specialize (Hf _ Hx).
      unfold vseq in E. cbn in E. lia. }
    (* Both cases make a hub over [recs] whose numbers start above them. *)
    assert (Hcore : forall h l, journal h = Some recs -> sessionID h = sid -> deltaBuf h = ∅ ->
      latest h = l -> seq h = (l + 1)%Z -> (0 <= l)%Z -> Forall (fun r => rSeq r <= l)%Z recs -> core h (hist s)).
    { intros h l Ej Es Ed El Eseq Hl Hle.
      assert (Est : stored h = jviews recs) by (unfold stored; rewrite Ej, Ed; apply app_nil_r).
      specialize (Hb l Hle). split; rewrite ?Est; try done; rewrite ?El, ?Eseq.
      - lia.
      - apply (proj1 (Forall_fmap view (fun v => 0 < vseq v <= l)%Z (hist s))). by rewrite <- Hperm.
      - intros j. rewrite Ej, Es. by intros [= <-].
      - intros t b. by rewrite Ed.
      - eapply List.Forall_impl; [|exact Hb]. cbn. intros v. lia. }
    assert (Hkeys : forall e, e ∈ hist s -> view e ∈ jviews recs).
    { intros e He. rewrite Hperm. by apply list_elem_of_fmap_2. }
    assert (Hh : core (hub s) (hist s) /\ journal (hub s) = Some recs).
    { cbn [negb] in Hnew. destruct (SeqRange sid recs) as [[e l]|].
      - destruct Hrange as [Hle (r & Hin & El)]. rewrite Forall_forall in Hr. specialize (Hr _ Hin).
        destruct Hr as (_ & Hrl & _). injection Hnew as <-. split; [|done].
        apply (Hcore _ l); try done; [|lia]. cbn. unfold u64_add, u64, u64_max in *. apply Z.mod_small. lia.
      - subst recs. injection Hnew as <-. split; [|done]. by apply (Hcore _ 0%Z). }
    destruct Hh as [Hc Ej]. split; [done| |intros id p; by rewrite Hp].
    intros e j He _ Hj. assert (j = recs) as -> by congruence. by apply Hkeys.
  - destruct s as [hb ps hs]. cbn in Hnew, Hp, Hj. subst ps hs. injection Hnew as <-. split; cbn; [|done|done].
    split; cbn; try done; try constructor; try lia.
Qed.

Lemma reachable_inv s : reachable initial step s -> inv s.
Proof. apply reachable_invariant; [apply hub_inv_initial|apply hub_inv_step]. Qed.

(** ** The delivery loop as a function *)

(** One iteration of [pumpEvents] for subscriber [id]; [None] when it blocks. *)
Definition pump_next (id : nat) (s : state) : option state :=
  p ← pumps s !! id;
  if negb (running p) then None
  else match replay p, hand p with
  | e :: rest, _ => if room p then Some (set_pump s id (deliver p e rest)) else None
  | [], Some e => if room p then Some (set_pump s id (deliver p e [])) else None
  | [], None =>
      sub ← subs (hub s) !! id;
      match live sub with
      | [] => None
      | e :: rest =>
          Some (mkState
            (set_subs (hub s) (<[id := mkSub rest (watermark sub) (registered sub) (disconnected sub)]> (subs (hub s))))
            (<[id := mkPump (from p) [] (if (Seq e <=? lastSeq p)%Z then None else Some e) (lastSeq p)
                       (sent p) (taken p) true]> (pumps s)) (hist s))
      end
  end.

Definition take_one (p : pump) : pump :=
  mkPump (from p) (replay p) (hand p) (lastSeq p) (sent p) (S (taken p)) (running p).

Lemma pump_next_step id s s' : pump_next id s = Some s' -> step s s'.
Proof.
  unfold pump_next. destruct (pumps s !! id) as [p|] eqn:Hp; [|done]. cbn.
  destruct (running p) eqn:Hr; [|done]. cbn. destruct (replay p) as [|e rest] eqn:Er.
  - destruct (hand p) as [e|] eqn:Eh.
    + destruct (room p) eqn:Em; [|done]. intros [= <-]. by eapply step_deliver.
    + destruct (subs (hub s) !! id) as [sub|] eqn:Es; [|done]. cbn.
      destruct (live sub) as [|e rest] eqn:El; [done|]. intros [= <-]. by eapply step_take.
  - destruct (room p) eqn:Em; [|done]. intros [= <-]. by eapply step_replay.
Qed.

Lemma make_room s id p :
  pumps s !! id = Some p ->
  exists k, room (mkPump (from p) (replay p) (hand p) (lastSeq p) (sent p) k (running p)) = true /\
    rtc step s (set_pump s id (mkPump (from p) (replay p) (hand p) (lastSeq p) (sent p) k (running p))).
Proof.
  remember (length (sent p) - taken p)%nat as d eqn:Ed. revert s p Ed.
  induction d as [|d IH]; intros s p Ed Hp.
  - exists (taken p). split; [unfold room, subscriberBuffer; cbn; apply Nat.ltb_lt; lia|].
    replace (set_pump s id _) with s; [done|]. unfold set_pump. destruct s as [hb ps hs], p. cbn in *.
    by rewrite insert_id.
  - destruct (IH (set_pump s id (take_one p)) (take_one p)) as (k & Hr & Hrtc).
    + cbn. lia.
    + cbn. by rewrite lookup_insert_eq.
    + exists k. split; [done|]. eapply rtc_l; [apply (step_consume s id p Hp); lia|].
      unfold set_pump in Hrtc. cbn in Hrtc. rewrite insert_insert_eq in Hrtc. done.
Qed.

Lemma inv_rtc s s' : inv s -> rtc step s s' -> inv s'.
Proof. intros Hi Hr. induction Hr; eauto using hub_inv_step. Qed.

(** What is left to deliver, a live event counting twice. *)
Definition pending (p : pump) (sub : hubSub) : nat :=
  (length (replay p) + length (in_hand p) + 2 * length (live sub))%nat.

Lemma drain n : forall s id p sub,
  inv s -> pumps s !! id = Some p -> subs (hub s) !! id = Some sub -> running p = true ->
  (pending p sub <= n)%nat ->
  exists s' p' sub', rtc step s s' /\ hist s' = hist s /\ pumps s' !! id = Some p' /\
    subs (hub s') !! id = Some sub' /\ registered sub' = registered sub /\
    sent p' = stream p sub /\ pending p' sub' = 0%nat.
Proof.
  induction n as [|n IH]; intros s id p sub Hi Hp Hs Hrun Hn.
  { exists s, p, sub. split_and!; try done; [|lia]. unfold pending in Hn. unfold stream.
    destruct (replay p), (in_hand p), (live sub); cbn in Hn; try lia. by rewrite app_nil_r. }
  (* One iteration of the loop, after the consumer has made room. *)
  assert (Hgo : forall s1 p1 sub1, rtc step s s1 -> hist s1 = hist s -> pumps s1 !! id = Some p1 ->
    subs (hub s1) !! id = Some sub1 -> running p1 = true -> registered sub1 = registered sub ->
    stream p1 sub1 = stream p sub -> (pending p1 sub1 <= n)%nat ->
    exists s' p' sub', rtc step s s' /\ hist s' = hist s /\ pumps s' !! id = Some p' /\
      subs (hub s') !! id = Some sub' /\ registered sub' = registered sub /\
      sent p' = stream p sub /\ pending p' sub' = 0%nat).
  { intros s1 p1 sub1 Hr Hh Hp1 Hs1 Hrun1 Hreg Hst Hn1.
    destruct (IH s1 id p1 sub1) as (s' & p' & sub' & Hr' & Hh' & Hp' & Hs' & Hreg' & Hst' & H0);
      [by eapply inv_rtc|done..|].
    exists s', p', sub'. split_and!; try done; [by etrans|congruence|congruence|congruence]. }
  destruct (make_room s id p Hp) as (k & Hroom & Hr).
  set (pk := mkPump (from p) (replay p) (hand p) (lastSeq p) (sent p) k (running p)) in *.
  assert (Hpk : pumps (set_pump s id pk) !! id = Some pk) by (cbn; by rewrite lookup_insert_eq).
  destruct (i_pumps _ Hi id p Hp) as (sub0 & E & Hok). rewrite Hs in E. injection E as <-.
  destruct (replay p) as [|e rest] eqn:Er; [destruct (hand p) as [e|] eqn:Eh; [|destruct (live sub) as [|e rest] eqn:El]|].
  - eapply (Hgo _ (deliver pk e []) sub); [eapply rtc_r; [exact Hr|by apply (step_deliver _ id pk)]|done| |done..| |].
    + cbn. by rewrite lookup_insert_eq.
    + unfold stream, in_hand. cbn. rewrite Er, Eh. cbn. by rewrite <- app_assoc.
    + unfold pending, in_hand in *. cbn. rewrite Er, Eh in Hn. cbn in Hn. lia.
  - exists s, p, sub. split_and!; try done; unfold stream, pending, in_hand; rewrite Er, Eh, El; [|done].
    by rewrite app_nil_r.
  - pose proof (take_is_new _ _ _ _ _ _ Hok Er Eh El) as Hnew.
    eapply (Hgo _ (mkPump (from p) [] (Some e) (lastSeq p) (sent p) (taken p) true)
      (mkSub rest (watermark sub) (registered sub) (disconnected sub))); [apply rtc_once, (step_take s id p sub e rest)|..];
      try done; cbn.
    + rewrite lookup_insert_eq. destruct (Z.leb_spec (Seq e) (lastSeq p)); [lia|done].
    + by rewrite lookup_insert_eq.
    + unfold stream, in_hand. cbn. by rewrite Er, Eh, El.
    + unfold pending, in_hand in *. cbn. rewrite Er, Eh, El in Hn. cbn in Hn. lia.
  - assert (Eh : hand p = None) by (apply (p_phase _ _ _ _ Hok); by rewrite Er).
    eapply (Hgo _ (deliver pk e rest) sub); [eapply rtc_r; [exact Hr|by apply (step_replay _ id pk)]|done| |done..| |].
    + cbn. by rewrite lookup_insert_eq.
    + unfold stream, in_hand. cbn. rewrite Er, Eh. cbn. by rewrite <- app_assoc.
    + unfold pending, in_hand in *. cbn. rewrite Er, Eh in Hn. cbn in Hn. lia.
Qed.

(** ** What the hub promises *)

(** C3: Replay then live, without loss, repetition or reordering. Whatever a
    subscriber has received is strictly increasing and after its cursor. On a hub
    with a journal that does not report an incomplete history, it is moreover a
    prefix of exactly the broadcast events after the cursor (number, type and
    payload), and it is all of them when the subscriber is registered and its
    queues are empty. (Without a journal the history is skipped:
    [without_a_journal_history_is_skipped].) *)
Theorem replay_then_live s id p :
  reachable initial step s -> pumps s !! id = Some p ->
  exists sub, subs (hub s) !! id = Some sub /\
    incr (sent p) /\ Forall (fun e => from p < Seq e)%Z (sent p) /\
    (replayIntegrity (hub s) <> Incomplete -> is_Some (journal (hub s)) ->
       view <$> sent p `prefix_of` List.filter (after (from p)) (view <$> hist s) /\
       (registered sub = true -> pending p sub = 0%nat ->
          view <$> sent p = List.filter (after (from p)) (view <$> hist s))).
Proof.
  intros Hr Hp. destruct (i_pumps _ (reachable_inv s Hr) id p Hp) as (sub & Hs & []).
  exists sub. split; [done|]. unfold stream in *. split_and!.
  - by apply incr_app in p_incr0 as [? _].
  - apply Forall_app in p_range0 as [Hf _]. eapply List.Forall_impl; [|exact Hf]. cbn. lia.
  - intros Hi Hj. destruct (p_full0 Hi Hj) as [Hpre Hall]. split.
    + rewrite fmap_app in Hpre. by apply prefix_app_l in Hpre.
    + intros Hreg H0. rewrite <- Hall by done. unfold pending in H0.
      destruct (replay p), (in_hand p), (live sub); cbn in H0; try lia. by rewrite app_nil_r.
Qed.

(** No live event is lost silently, even when the history is incomplete:
    what a subscriber has received and is going to receive is its replay
    followed by a prefix of the events broadcast after it subscribed, by all of
    them while it is registered; one that is no longer registered has been
    disconnected or has stopped by itself. *)
Theorem live_not_lost s id p :
  reachable initial step s -> pumps s !! id = Some p ->
  exists sub rep lv, subs (hub s) !! id = Some sub /\ stream p sub = rep ++ lv /\
    lv `prefix_of` since (watermark sub) (hist s) /\
    (registered sub = true -> lv = since (watermark sub) (hist s)) /\
    (registered sub = false -> disconnected sub = true \/ running p = false).
Proof.
  intros Hr Hp. destruct (i_pumps _ (reachable_inv s Hr) id p Hp) as (sub & Hs & []).
  destruct p_live0 as (rep & lv & E & _ & Hpre & Hall). exists sub, rep, lv. done.
Qed.

(** A subscriber whose consumer keeps reading catches up: without any
    further publication it comes to have received everything that was queued
    for it, and its queues are empty. *)
Theorem subscriber_catches_up s id p :
  reachable initial step s -> pumps s !! id = Some p -> running p = true ->
  exists sub s' p' sub', subs (hub s) !! id = Some sub /\ rtc step s s' /\ hist s' = hist s /\
    pumps s' !! id = Some p' /\ subs (hub s') !! id = Some sub' /\ registered sub' = registered sub /\
    sent p' = stream p sub /\ pending p' sub' = 0%nat.
Proof.
  intros Hr Hp Hrun. destruct (i_pumps _ (reachable_inv s Hr) id p Hp) as (sub & Hs & _).
  exists sub. destruct (drain _ s id p sub (reachable_inv s Hr) Hp Hs Hrun (Nat.le_refl _)) as (s' & p' & sub' & H).
  exists s', p', sub'. by split.
Qed.

(** C19: Durable first, and numbers are unique: every key event that was
    broadcast is readable from the journal, whatever the journal did to other
    writes; broadcast events are numbered in strictly increasing order and the
    journal holds no number twice, so a failed write never causes a reuse. *)
Theorem durable_first s :
  reachable initial step s ->
  incr (hist s) /\
  forall j, journal (hub s) = Some j ->
    NoDup (vseq <$> jviews j) /\
    forall e, e ∈ hist s -> IsKeyEvent (Type_ e) = true -> view e ∈ jviews j.
Proof.
  intros Hr. destruct (reachable_inv s Hr) as [Hc Hk _]. split; [apply Hc|]. intros j Hj. split.
  - pose proof (c_nodup _ _ Hc) as Hn. unfold stored in Hn. rewrite Hj, fmap_app in Hn.
    by apply NoDup_app in Hn as [? _].
  - intros e He Hke. by apply (Hk e j).
Qed.

(** Resuming is exact: a subscription from a cursor that is granted on a
    hub that does not report an incomplete history replays exactly the events
    after the cursor, also when the cursor lies inside a merged batch. *)
Theorem resume_is_exact s io readable n h' id es :
  reachable initial step s -> (0 <= n)%Z -> is_Some (journal (hub s)) ->
  Subscribe io readable n (hub s) = (h', Ok (id, es)) -> replayIntegrity h' <> Incomplete ->
  view <$> es = List.filter (after n) (view <$> hist s).
Proof.
  intros Hr Hn Hj Hs Hi. pose proof (i_core _ (reachable_inv s Hr)) as Hc.
  destruct (subscribe_ok _ _ _ _ _ _ _ _ Hc Hn Hs). apply r_full0; [done|].
  by apply (later_journaled _ _ r_later0).
Qed.

End Steps.

(** ** Concrete runs *)

Section Driver.
Context (jlen : json -> Z).

Definition do_publish (io : EventRecord -> append_outcome) (now : Time) (ev : IngressEvent) (s : state) : state :=
  let '(h', r) := Publish jlen io now ev (hub s) in
  mkState h' (pumps s) (match r with Ok out => hist s ++ [out] | Err _ => hist s end).

Definition do_subscribe (io : EventRecord -> append_outcome) (n : Z) (s : state) : state :=
  let '(h', r) := Subscribe io true n (hub s) in
  mkState h' (match r with Ok (id, es) => <[id := mkPump n es None 0%Z [] 0 true]> (pumps s) | Err _ => pumps s end)
    (hist s).

Definition do_pump (id : nat) (s : state) : state := default s (pump_next id s).

Lemma do_publish_reachable io now ev s :
  reachable initial (step jlen) s -> (seq (hub s) < u64_max)%Z ->
  reachable initial (step jlen) (do_publish io now ev s).
Proof.
  intros Hr Hm. eapply reachable_step; [exact Hr|]. unfold do_publish.
  destruct (Publish jlen io now ev (hub s)) as [h' [out|e]] eqn:E;
    [by eapply step_publish|by eapply step_publish_failed].
Qed.

Lemma do_subscribe_reachable io n s :
  reachable initial (step jlen) s -> (0 <= n < u64_max)%Z ->
  reachable initial (step jlen) (do_subscribe io n s).
Proof.
  intros Hr Hn. eapply reachable_step; [exact Hr|]. unfold do_subscribe.
  destruct (Subscribe io true n (hub s)) as [h' [[id es]|e]] eqn:E;
    [by eapply step_subscribe|by eapply step_subscribe_refused].
Qed.

Lemma do_pump_reachable id s :
  reachable initial (step jlen) s -> reachable initial (step jlen) (do_pump id s).
Proof.
  intros Hr. unfold do_pump. destruct (pump_next id s) eqn:E; [|done].
  eapply reachable_step; [exact Hr|]. by eapply pump_next_step.
Qed.
End Driver.

Definition jlen0 (_ : json) : Z := 10%Z.
Definition writes (_ : EventRecord) : append_outcome := AppendOk.
Definition loses_deltas (r : EventRecord) : append_outcome :=
  if IsKeyEvent (rType r) then AppendOk else AppendFailed false.

Definition fresh : state :=
  mkState (mkHub "s" 1 0 0 ReplayIntegrityComplete ∅ 0 (Some []) "" ∅ false false) ∅ [].

Definition key (typ : string) : IngressEvent := mkIngress "r" typ (JOther "{}").
Definition delta (txt : string) : IngressEvent := mkIngress "r" "assistant.message_delta" (JOther txt).

(** Two deltas between key events, a subscription inside their batch, one more
    event behind it, and the delivery loop. *)
Definition demo_history : state :=
  do_publish jlen0 writes 5 (delta "c") (do_publish jlen0 writes 4 (delta "b")
    (do_publish jlen0 writes 3 (key "tool_call") (do_publish jlen0 writes 2 (delta "a")
      (do_publish jlen0 writes 1 (key "run.started") fresh)))).

Definition demo : state :=
  do_pump 0 (do_pump 0 (do_pump 0 (do_pump 0
    (do_publish jlen0 writes 6 (key "run.finished") (do_subscribe writes 3 demo_history))))).

Lemma fresh_initial : initial fresh.
Proof. exists "s", (Some []). split_and!; [done|done|constructor|done|constructor]. Qed.

Lemma demo_history_reachable : reachable initial (step jlen0) demo_history.
Proof.
  repeat (apply do_publish_reachable; [|vm_compute; done]). apply reachable_init, fresh_initial.
Qed.

Lemma demo_reachable : reachable initial (step jlen0) demo.
Proof.
  repeat apply do_pump_reachable. apply do_publish_reachable; [|vm_compute; done].
  apply do_subscribe_reachable; [exact demo_history_reachable|]. by split.
Qed.

(** Everything that was delivered to a subscriber. *)
Definition delivered (id : nat) (s : state) : list (Z * json) :=
  match pumps s !! id with Some p => (fun e => (Seq e, Payload e)) <$> sent p | None => [] end.

Example demo_delivers : delivered 0 demo = [(4, JOther "b"); (5, JOther "c"); (6, JOther "{}")]%Z.
Proof. vm_compute. reflexivity. Qed.
Definition demo_pump : pump :=
  Eval vm_compute in default (mkPump 0 [] None 0 [] 0 false) (pumps demo !! 0%nat).

Lemma demo_pump_eq : pumps demo !! 0%nat = Some demo_pump.
Proof. vm_compute. reflexivity. Qed.

Lemma replay_then_live_witness :
  view <$> sent demo_pump = List.filter (after 3) (view <$> hist demo) /\ length (sent demo_pump) = 3%nat.
Proof.
  destruct (replay_then_live jlen0 demo 0 demo_pump demo_reachable demo_pump_eq) as (sub & Hs & _ & _ & H).
  vm_compute in Hs. injection Hs as <-. split; [|reflexivity].
  apply H; [vm_compute; discriminate|eexists; vm_compute; reflexivity|reflexivity|reflexivity].
Defined.

Lemma live_not_lost_witness :
  exists sub rep lv, subs (hub demo) !! 0%nat = Some sub /\ stream demo_pump sub = rep ++ lv /\
    lv = since (watermark sub) (hist demo).
Proof.
  destruct (live_not_lost jlen0 demo 0 demo_pump demo_reachable demo_pump_eq)
    as (sub & rep & lv & Hs & E & _ & Hall & _).
  exists sub, rep, lv. split; [exact Hs|]. split; [exact E|]. apply Hall.
  vm_compute in Hs. injection Hs as <-. reflexivity.
Defined.

(** The subscription with nothing delivered yet. *)
Definition demo_idle : state := do_subscribe writes 3 demo_history.
Definition idle_pump : pump :=
  Eval vm_compute in default (mkPump 0 [] None 0 [] 0 false) (pumps demo_idle !! 0%nat).

Lemma demo_idle_reachable : reachable initial (step jlen0) demo_idle.
Proof. apply do_subscribe_reachable; [exact demo_history_reachable|]. by split. Qed.

Lemma subscriber_catches_up_witness :
  exists s' p', rtc (step jlen0) demo_idle s' /\ pumps s' !! 0%nat = Some p' /\
    (fun e => Seq e) <$> sent p' = [4; 5]%Z.
Proof.
  destruct (subscriber_catches_up jlen0 demo_idle 0 idle_pump demo_idle_reachable)
    as (sub & s' & p' & sub' & Hs & Hr & _ & Hp & _ & _ & Hsent & _); [vm_compute; reflexivity|reflexivity|].
  exists s', p'. split; [exact Hr|]. split; [exact Hp|]. rewrite Hsent.
  vm_compute in Hs. injection Hs as <-. reflexivity.
Defined.

Lemma durable_first_witness :
  exists j, journal (hub demo) = Some j /\ NoDup (vseq <$> jviews j) /\
    (6%Z, "run.finished", JOther "{}") ∈ jviews j.
Proof.
  destruct (durable_first jlen0 demo demo_reachable) as [_ H].
  destruct (journal (hub demo)) as [j|] eqn:E; [|vm_compute in E; discriminate].
  exists j. split; [reflexivity|]. destruct (H j eq_refl) as [Hn Hk]. split; [exact Hn|].
  apply (Hk (mkSessionEvent "s" "r" 6 "run.finished" 6 (JOther "{}"))); [|reflexivity].
  vm_compute. do 5 right. left.
Defined.

Lemma resume_is_exact_witness :
  exists h' es, Subscribe writes true 3 (hub demo_history) = (h', Ok (0%nat, es)) /\
    view <$> es = List.filter (after 3) (view <$> hist demo_history) /\ (fun e => Seq e) <$> es = [4; 5]%Z.
Proof.
  destruct (Subscribe writes true 3 (hub demo_history)) as [h' [[id es]|e]] eqn:E; [|vm_compute in E; discriminate].
  pose proof E as E'. vm_compute in E'. injection E' as Eh Eid Ees. subst id.
  exists h', es. split; [reflexivity|]. split.
  - apply (resume_is_exact jlen0 demo_history writes true 3 h' 0 es demo_history_reachable); [lia| |exact E|].
    + eexists. vm_compute. reflexivity.
    + subst h'. discriminate.
  - subst es. reflexivity.
Defined.

(** *** Limits, by computation *)

(** A batch that could not be written is missing from later replays; the hub says so. *)
Definition lossy : state :=
  do_subscribe loses_deltas 0 (do_publish jlen0 loses_deltas 2 (delta "a")
    (do_publish jlen0 loses_deltas 1 (key "run.started") fresh)).

Example a_lost_batch_is_reported :
  replayIntegrity (hub lossy) = ReplayIntegrityIncomplete /\
  option_map (fun p => Seq <$> replay p) (pumps lossy !! 0%nat) = Some [1%Z].
Proof. split; vm_compute; reflexivity. Qed.

(** Reopened over a journal whose first record is a batch of events 1 to 3, the
    hub refuses a cursor inside the batch as expired. *)
Definition batch_first : Journal :=
  [batch_record "s" "assistant.message_delta"
     (mkPending "r" 1 3 9 [(1%Z, JOther "a"); (2%Z, JOther "b"); (3%Z, JOther "c")] 30)].

Example a_cursor_inside_the_first_batch_is_refused :
  exists h, NewEventHub "s" (Some batch_first) true = Ok h /\
    snd (Subscribe writes true 1 h) = Err ErrCursorExpired /\
    (Seq <$> (replay_of "s" 1 batch_first).1) = [2; 3]%Z.
Proof. eexists. split; [reflexivity|]. split; vm_compute; reflexivity. Qed.

(** Without a journal, a subscription from 0 skips what was broadcast before. *)
Example without_a_journal_history_is_skipped :
  let h := (Publish jlen0 writes 1 (key "run.started")
              (mkHub "s" 1 0 0 ReplayIntegrityComplete ∅ 0 None "" ∅ false false)).1 in
  latest h = 1%Z /\ snd (Subscribe writes true 0 h) = Ok (0%nat, []) /\
  replayIntegrity h = ReplayIntegrityComplete.
Proof. split_and!; vm_compute; reflexivity. Qed.

(** A key event whose append failed after writing is replayed, though nobody saw it live. *)
Example a_failed_key_event_may_be_replayed :
  let '(h, r) := Publish jlen0 (fun _ => AppendFailed true) 1 (key "run.started") (hub fresh) in
  r = Err ErrAppend /\ latest h = 0%Z /\
  match snd (Subscribe writes true 0 h) with Ok (_, es) => Seq <$> es = [1%Z] | Err _ => False end.
Proof. vm_compute. split_and!; reflexivity. Qed.

End System.
