(* ===== verification/RunJournal.v ===== *)
(** * ai-runtime/session: the run journals on disk

    [journal.go] and [journal_store.go]: one file per run under [runs/], where
    the state records and the events of the run are appended as lines, read
    back after a restart, and repaired when their tails are torn. A file is a
    list of bytes; [encoding/json] is the interface [JournalCodec]; the outcome
    of every I/O call is an argument. The operations of one session are
    serialised by its gate, so they are functions here. *)

From S2P Require Import Prelude GoString JsonLines ScanJsonl.
From S2P Require EventHub.
#[local] Open Scope string_scope.
#[local] Open Scope list_scope.

(** ** Records *)

Record RunStateRecord := mkStateRecord {
  Kind : string;
  SessionID : string;
  RunID : string;
  State : string;
  ErrText : string;
  Persisted : bool;
  At : Time;
}.

Definition stateKind : string := "state".
Definition StateInterrupted : string := "interrupted".
Definition eventKind : string := "event".

(** [Payload] is raw JSON text. *)
Record EventRecord := mkEventRecord {
  EKind : string;
  ESessionID : string;
  ERunID : string;
  EType : string;
  Seq : Z;
  FromSeq : Z;
  ETime : Time;
  Payload : string;
}.

#[export] Instance RunStateRecord_eq_dec : EqDecision RunStateRecord.
Proof. solve_decision. Defined.
#[export] Instance EventRecord_eq_dec : EqDecision EventRecord.
Proof. solve_decision. Defined.

Definition isTerminalRunState (state : string) : bool :=
  String.eqb state "completed" || String.eqb state "failed" || String.eqb state "cancelled"
  || String.eqb state StateInterrupted.

(** [rec.Kind = eventKind], which [AppendEvent] forces. *)
Definition as_event (rec : EventRecord) : EventRecord :=
  mkEventRecord eventKind (ESessionID rec) (ERunID rec) (EType rec) (Seq rec) (FromSeq rec) (ETime rec) (Payload rec).

(** [json.Marshal] and [json.Unmarshal] at the two record types. *)
Class JournalCodec := {
  marshal_state : RunStateRecord -> option bytes;
  marshal_event : EventRecord -> option bytes;
  unmarshal_state : bytes -> option RunStateRecord;
  unmarshal_event : bytes -> option EventRecord;
}.

(** What is documented of them: a marshalled record is one line without blanks
    around it and unmarshals to the record; unmarshalled as the other type it
    keeps the fields of the same name; a proper prefix of it is no JSON. *)
Class JournalLaws `{JournalCodec} := {
  state_line : forall r b, marshal_state r = Some b -> json_line b;
  event_line : forall e b, marshal_event e = Some b -> json_line b;
  state_state : forall r b, marshal_state r = Some b -> unmarshal_state b = Some r;
  event_event : forall e b, marshal_event e = Some b -> unmarshal_event b = Some e;
  event_state : forall e b, marshal_event e = Some b ->
    unmarshal_state b = Some (mkStateRecord (EKind e) (ESessionID e) (ERunID e) "" "" false 0%Z);
  state_event : forall r b, marshal_state r = Some b ->
    exists e, unmarshal_event b = Some e /\ EKind e = Kind r;
  state_prefix : forall r b n, marshal_state r = Some b -> (n < length b)%nat ->
    unmarshal_state (trim (take n b)) = None /\ unmarshal_event (trim (take n b)) = None;
  event_prefix : forall e b n, marshal_event e = Some b -> (n < length b)%nat ->
    unmarshal_state (trim (take n b)) = None /\ unmarshal_event (trim (take n b)) = None;
}.

(** ** Identifiers *)

(** Without a separator [filepath.Base] and [filepath.Clean] are the identity. *)
Definition validSessionID (id : string) : bool :=
  negb (String.eqb id "" || String.eqb id "." || String.eqb id "..")
  && negb (Contains id "/" || Contains id "\").

Definition digit (c : ascii) : bool := (48 <=? rune c)%N && (rune c <=? 57)%N.
Definition all_digits (s : string) : bool := forallb digit (list_ascii_of_string s).

(** [strings.Cut(rest, "-")] and the tests on its two parts. *)
Fixpoint cut_dash (s : string) : option (string * string) :=
  match s with
  | "" => None
  | String c s' =>
      if Ascii.eqb c "-"%char then Some ("", s')
      else match cut_dash s' with Some (a, b) => Some (String c a, b) | None => None end
  end.

Definition validRunID (id : string) : bool :=
  validSessionID id && HasPrefix id "run-" &&
  match cut_dash (string_drop 4 id) with
  | None => false
  | Some (nano, seq) => negb (String.eqb nano "" || String.eqb seq "") && all_digits nano && all_digits seq
  end.

(** ** The store *)

Inductive journal_error : Type :=
  | ErrEmptyRunID
  | ErrSessionNotOpen
  | ErrInvalidRunID
  | ErrRunExists
  | ErrMarshal
  | ErrScan
  | ErrIO.

(** [files]: the directory [runs/], by file name; [handles]: the runs whose
    journal is open; [opened]: the session's store is in the repository's cache. *)
Record RunJournalStore := mkStore {
  sessionID : string;
  opened : bool;
  files : gmap string bytes;
  handles : gset string;
}.

Definition set_files (fs : gmap string bytes) (s : RunJournalStore) : RunJournalStore :=
  mkStore (sessionID s) (opened s) fs (handles s).
Definition set_handles (hs : gset string) (s : RunJournalStore) : RunJournalStore :=
  mkStore (sessionID s) (opened s) (files s) hs.

Definition NewRunJournalStore (sid : string) (opened : bool) (fs : gmap string bytes) : RunJournalStore :=
  mkStore sid opened fs ∅.

(** How the I/O of one call goes: creating directory and file, the write, the
    sync, the close. *)
Record io := mkIO {
  io_open : bool;
  io_write : write_result;
  io_sync : bool;
  io_close : bool;
}.
Definition io_ok : io := mkIO true WriteOk true true.

Definition file_name (runID : string) : string := runID +:+ ".jsonl".

(** [OpenRunJournal]: [O_EXCL], so the file is new and empty. *)
Definition OpenRunJournal (o : io) (runID : string) (s : RunJournalStore) : RunJournalStore * option journal_error :=
  if negb (validSessionID (sessionID s)) then (s, Some ErrSessionNotOpen)
  else if negb (validRunID runID) then (s, Some ErrInvalidRunID)
  else if negb (opened s) then (s, Some ErrSessionNotOpen)
  else match files s !! file_name runID with
  | Some _ => (s, Some (if io_open o then ErrRunExists else ErrIO))
  | None => if io_open o then (set_files (<[file_name runID := []]> (files s)) s, None) else (s, Some ErrIO)
  end.

(** [appendRecordLine]: one write of the whole line, then the sync. *)
Definition appendRecordLine (o : io) (line : option bytes) (content : bytes) : bytes * option journal_error :=
  match line with
  | None => (content, Some ErrMarshal)
  | Some data =>
      let '(content', ok) := file_write (io_write o) content (data ++ [NL]) in
      (content', if ok && io_sync o then None else Some ErrIO)
  end.

(** The cached journal of the run, or a new one. *)
Definition route (o : io) (runID : string) (s : RunJournalStore) : RunJournalStore * option journal_error :=
  if decide (runID ∈ handles s) then (s, None)
  else match OpenRunJournal o runID s with
  | (s', None) => (set_handles ({[runID]} ∪ handles s') s', None)
  | (s', Some e) => (s', Some e)
  end.

Definition append_to (o : io) (runID : string) (line : option bytes) (s : RunJournalStore)
  : RunJournalStore * option journal_error :=
  match files s !! file_name runID with
  | None => (s, Some ErrIO)
  | Some content =>
      let '(content', e) := appendRecordLine o line content in
      (set_files (<[file_name runID := content']> (files s)) s, e)
  end.

(** The error of the append, else that of the close. *)
Definition first_error (a b : option journal_error) : option journal_error :=
  match a with Some e => Some e | None => b end.

Section store.
Context `{JournalCodec}.

Definition AppendState (o : io) (rec : RunStateRecord) (s : RunJournalStore) : RunJournalStore * option journal_error :=
  if String.eqb (RunID rec) "" then (s, Some ErrEmptyRunID)
  else match route o (RunID rec) s with
  | (s1, Some e) => (s1, Some e)
  | (s1, None) =>
      let '(s2, e) := append_to o (RunID rec) (marshal_state rec) s1 in
      if isTerminalRunState (State rec)
      then (set_handles (handles s2 ∖ {[RunID rec]}) s2, first_error e (if io_close o then None else Some ErrIO))
      else (s2, e)
  end.

Definition AppendEvent (o : io) (rec : EventRecord) (s : RunJournalStore) : RunJournalStore * option journal_error :=
  if String.eqb (ERunID rec) "" then (s, Some ErrEmptyRunID)
  else match route o (ERunID rec) s with
  | (s1, Some e) => (s1, Some e)
  | (s1, None) => append_to o (ERunID rec) (marshal_event (as_event rec)) s1
  end.

(** *** Reading *)

(** [loadStateRecords]: every line that unmarshals, events included. *)
Definition loadStateRecords (content : bytes) : option (list RunStateRecord * Z) := scanJSONL unmarshal_state content.

Definition loadEventRecords (content : bytes) : option (list EventRecord) :=
  match scanJSONL unmarshal_event content with
  | Some (recs, _) => Some (List.filter (fun r => String.eqb (EKind r) eventKind) recs)
  | None => None
  end.

(** The names [os.ReadDir] gives, sorted, that are run journals. *)
Definition entries (s : RunJournalStore) : list string :=
  List.filter (fun n => HasSuffix n ".jsonl") (merge_sort string_le (map_to_list (files s)).*1).

(** The bytes of a file [ReadDir] has listed. *)
Definition content_of (s : RunJournalStore) (n : string) : bytes :=
  match files s !! n with Some content => content | None => [] end.

Fixpoint walk (s : RunJournalStore) (names : list string) : result journal_error (list EventRecord) :=
  match names with
  | [] => Ok []
  | n :: names' =>
      match loadEventRecords (content_of s n) with
      | None => Err ErrScan
      | Some recs => rest ← walk s names'; Ok (recs ++ rest)
      end
  end.

Definition walkEventRecords (s : RunJournalStore) : result journal_error (list EventRecord) := walk s (entries s).

Definition mine (s : RunJournalStore) (r : EventRecord) : bool := String.eqb (ESessionID r) (sessionID s).

Definition ReadEvents (afterSeq : Z) (s : RunJournalStore) : result journal_error (list EventRecord) :=
  recs ← walkEventRecords s;
  Ok (List.filter (fun r => mine s r && (afterSeq <? Seq r)%Z) recs).

Definition widen (acc : option (Z * Z)) (r : EventRecord) : option (Z * Z) :=
  match acc with
  | None => Some (Seq r, Seq r)
  | Some (e, l) => Some (if (Seq r <? e)%Z then Seq r else e, if (l <? Seq r)%Z then Seq r else l)
  end.

Definition SeqRange (s : RunJournalStore) : result journal_error (option (Z * Z)) :=
  recs ← walkEventRecords s;
  Ok (foldl widen None (List.filter (mine s) recs)).

(** The last record of kind "state". *)
Definition last_state (recs : list RunStateRecord) : option RunStateRecord :=
  find_last (fun r => String.eqb (Kind r) stateKind) recs.

Definition LastRunState (runID : string) (s : RunJournalStore) : option RunStateRecord :=
  if negb (validRunID runID) then None
  else match files s !! file_name runID with
  | None => None
  | Some content => match loadStateRecords content with Some (recs, _) => last_state recs | None => None end
  end.

(** *** Recovery *)

(** How the recovery of one file goes: the truncation, opening for the marker, and the append. *)
Record mark_io := mkMarkIO {
  m_truncate : bool;
  m_open : bool;
  m_append : io;
}.
Definition mark_ok : mark_io := mkMarkIO true true io_ok.

Definition marker (sid runID : string) (now : Time) : RunStateRecord :=
  mkStateRecord stateKind sid runID StateInterrupted "" false now.

(** One file: its new content and whether it was marked, or an error. *)
Definition mark_file (o : mark_io) (sid runID : string) (now : Time) (content : bytes) : bytes * result journal_error bool :=
  match loadStateRecords content with
  | None => (content, Err ErrScan)
  | Some (recs, good) =>
      if (good <? blen content)%Z && negb (m_truncate o) then (content, Err ErrIO)
      else
        let content := repair content good in
        match last_state recs with
        | None => (content, Ok false)
        | Some r =>
            if isTerminalRunState (State r) then (content, Ok false)
            else if negb (m_open o) then (content, Err ErrIO)
            else
              let '(content', e) := appendRecordLine (m_append o) (marshal_state (marker sid runID now)) content in
              let e := first_error e (if io_close (m_append o) then None else Some ErrIO) in
              (content', match e with None => Ok true | Some e => Err e end)
        end
  end.

Fixpoint mark_all (os : string -> mark_io) (now : Time) (names : list string) (s : RunJournalStore)
  : RunJournalStore * result journal_error (list string) :=
  match names with
  | [] => (s, Ok [])
  | n :: names' =>
      let runID := TrimSuffix n ".jsonl" in
      if String.eqb runID "" then mark_all os now names' s
      else
        let '(content, r) := mark_file (os n) (sessionID s) runID now (content_of s n) in
        let s := set_files (<[n := content]> (files s)) s in
        match r with
        | Err e => (s, Err e)
        | Ok m =>
            match mark_all os now names' s with
            | (s', Ok marked) => (s', Ok (if m then runID :: marked else marked))
            | (s', Err e) => (s', Err e)
            end
        end
  end.

Definition MarkInterruptedRuns (os : string -> mark_io) (now : Time) (s : RunJournalStore)
  : RunJournalStore * result journal_error (list string) :=
  if negb (validSessionID (sessionID s)) then (s, Err ErrSessionNotOpen)
  else if negb (opened s) then (s, Err ErrSessionNotOpen)
  else mark_all os now (entries s) s.
End store.

(** ** What a file holds *)

Inductive line : Type := LState (r : RunStateRecord) | LEvent (e : EventRecord).

Definition line_run (l : line) : string := match l with LState r => RunID r | LEvent e => ERunID e end.

(** The records are of their kind. *)
Definition line_kind (l : line) : Prop :=
  match l with LState r => Kind r = stateKind | LEvent e => EKind e = eventKind end.

(** What the readers of states and of events make of a line. *)
Definition seen_state (l : line) : RunStateRecord :=
  match l with
  | LState r => r
  | LEvent e => mkStateRecord (EKind e) (ESessionID e) (ERunID e) "" "" false 0%Z
  end.
Definition state_of (l : line) : option RunStateRecord := match l with LState r => Some r | LEvent _ => None end.
Definition event_of (l : line) : option EventRecord := match l with LEvent e => Some e | LState _ => None end.

Section laws.
Context `{JournalLaws}.

Definition enc (l : line) : option bytes :=
  match l with LState r => marshal_state r | LEvent e => marshal_event e end.

(** A line that was written and can be read back. *)
Definition written (l : line) (b : bytes) : Prop := enc l = Some b /\ (blen b < maxLine)%Z /\ line_kind l.

(** A tail that neither reader takes for a record. *)
Definition torn (t : bytes) : Prop := torn_ok unmarshal_state t /\ torn_ok unmarshal_event t.

(** The lines of a file, and its tail. *)
Definition holds (content : bytes) (ls : list line) (t : bytes) : Prop :=
  exists bs, content = unlines bs ++ t /\ Forall2 written ls bs.

Lemma written_ok l b : written l b -> line_ok b.
Proof.
  intros (He & Hf & _). assert (json_line b) as (H1 & H2 & H3 & H4).
  { destruct l; [by eapply state_line|by eapply event_line]. }
  by split.
Qed.

Lemma written_state l b : written l b -> unmarshal_state b = Some (seen_state l).
Proof. intros (He & _). destruct l; [by apply state_state|by apply event_state]. Qed.

Lemma written_event l b : written l b ->
  exists e, unmarshal_event b = Some e /\ (if String.eqb (EKind e) eventKind then [e] else []) = option_list (event_of l).
Proof.
  intros (He & _ & Hk). destruct l as [r|e]; cbn in *.
  - destruct (state_event _ _ He) as (e & Hu & Ek). exists e. split; [done|]. by rewrite Ek, Hk.
  - exists e. split; [by apply event_event|]. by rewrite Hk.
Qed.

Lemma load_states bs ls t :
  Forall2 written ls bs -> torn_ok unmarshal_state t ->
  loadStateRecords (unlines bs ++ t) = Some (seen_state <$> ls, blen (unlines bs)).
Proof.
  intros Hw Ht. apply scanJSONL_spec; [|done]. induction Hw as [|l b ls bs Hl _ IH]; [constructor|].
  constructor; [|done]. split; [by eapply written_ok|by apply written_state].
Qed.

Lemma load_events bs ls t :
  Forall2 written ls bs -> torn_ok unmarshal_event t -> loadEventRecords (unlines bs ++ t) = Some (omap event_of ls).
Proof.
  intros Hw Ht. unfold loadEventRecords.
  assert (exists es, Forall2 (fun b e => line_ok b /\ unmarshal_event b = Some e) bs es /\
    List.filter (fun r => String.eqb (EKind r) eventKind) es = omap event_of ls) as (es & He & Hf).
  { induction Hw as [|l b ls bs Hl _ (es & He & Hf)]; [by exists []|].
    destruct (written_event _ _ Hl) as (e & Hu & Hk). exists (e :: es). split.
    - constructor; [|done]. split; [by eapply written_ok|done].
    - cbn. destruct (String.eqb _ _), (event_of l); cbn in Hk; by simplify_eq; rewrite ?Hf. }
  rewrite (scanJSONL_spec _ _ _ _ He Ht). by rewrite Hf.
Qed.

(** The last state record of a file is that of its state lines. *)
Lemma last_state_lines ls :
  Forall line_kind ls -> last_state (seen_state <$> ls) = last (omap state_of ls).
Proof.
  intros Hk. unfold last_state. induction ls as [|l ls IH] using rev_ind; [done|].
  apply Forall_app in Hk as [Hk [Hl _]%Forall_cons]. rewrite fmap_app. cbn [fmap list_fmap].
  rewrite find_last_snoc, IH, omap_app by done. destruct l as [r|e]; cbn in Hl |- *.
  - rewrite Hl, last_snoc. done.
  - rewrite Hl, app_nil_r. done.
Qed.

Lemma written_kinds ls bs : Forall2 written ls bs -> Forall line_kind ls.
Proof. induction 1 as [|l b ls bs (_ & _ & Hk) _ IH]; by constructor. Qed.

Lemma torn_empty : torn [].
Proof. split; apply torn_nil. Qed.

(** *** Appending *)

(** A whole line was appended if the call reports success. *)
Lemma append_line_ok o line content content' :
  appendRecordLine o line content = (content', None) ->
  exists data, line = Some data /\ content' = content ++ data ++ [NL].
Proof.
  unfold appendRecordLine, file_write. destruct line as [data|]; [|done].
  destruct (io_write o); [|done]. destruct (io_sync o); [|done]. intros [= <-]. eauto.
Qed.

Lemma holds_snoc content ls l b :
  holds content ls [] -> written l b -> holds (content ++ b ++ [NL]) (ls ++ [l]) [].
Proof.
  intros (bs & -> & Hw) Hl. exists (bs ++ [b]). rewrite unlines_snoc, !app_nil_r. split; [done|].
  apply Forall2_app; [done|]. by constructor.
Qed.
End laws.
