(* ===== verification/RunJournalProps.v ===== *)
(** * What the run journals keep

    The refinement of the directory of run files to the list of records the
    event hub works on ([EventHub.Journal]), the end of a run, and recovery after
    a crash; then a codec that satisfies [JournalLaws], executions, and the
    limits of the format. *)

From S2P Require Import Prelude GoString JsonLines ScanJsonl RunJournal.
From S2P Require EventHub.
#[local] Open Scope string_scope.
#[local] Open Scope list_scope.

(** ** Refinement: the journal is a list of records *)

Lemma string_rev_append a b : string_rev (a +:+ b) = string_rev b +:+ string_rev a.
Proof.
  assert (Hc : forall c x, string_rev (String c x) = string_rev x +:+ String c "") by (intros c x; exact (string_rev_app_spec x (String c ""))).
  induction a as [|c a IH]; [by rewrite append_nil_r|].
  change (String c a +:+ b) with (String c (a +:+ b)). rewrite !Hc, IH. by rewrite append_assoc.
Qed.

Lemma prefix_append p q : String.prefix p (p +:+ q) = true.
Proof. induction p as [|c p IH]; [by destruct q|]. change (String c p +:+ q) with (String c (p +:+ q)). cbn. by destruct (ascii_dec c c). Qed.

Lemma HasSuffix_append a p : HasSuffix (a +:+ p) p = true.
Proof. unfold HasSuffix, HasPrefix. rewrite string_rev_append. apply prefix_append. Qed.

(** The lines of one file out of the lines of the session. *)
Definition in_file (n : string) (log : list line) : list line :=
  List.filter (fun l => String.eqb (file_name (line_run l)) n) log.

Lemma in_file_app n a b : in_file n (a ++ b) = in_file n a ++ in_file n b.
Proof. apply List.filter_app. Qed.

(** Lines in the order of their files, cut at the files, are the lines. *)
Lemma files_in_order names log :
  StronglySorted string_le names -> NoDup names ->
  StronglySorted (fun a b => string_le (file_name (line_run a)) (file_name (line_run b))) log ->
  Forall (fun l => file_name (line_run l) ∈ names) log ->
  concat ((fun n => in_file n log) <$> names) = log.
Proof.
  intros Hs Hnd. revert log. induction Hs as [|n names Hs IH Hn]; intros log Hl Hin.
  - destruct log as [|l log]; [done|]. apply Forall_cons in Hin as [Hin _]. by apply not_elem_of_nil in Hin.
  - apply NoDup_cons in Hnd as [Hnot Hnd]. specialize (IH Hnd).
    assert (Hsplit : exists a b, log = a ++ b /\ Forall (fun l => file_name (line_run l) = n) a /\
      Forall (fun l => file_name (line_run l) ∈ names) b).
    { clear IH. induction Hl as [|l log Hl IHl Hll]; [by exists [], []|].
      apply Forall_cons in Hin as [Hin1 Hin2]. destruct (IHl Hin2) as (a & b & -> & Ha & Hb).
      destruct (decide (file_name (line_run l) = n)) as [E|E].
      - exists (l :: a), b. by repeat constructor.
      - exists [], (l :: a ++ b). split; [done|]. split; [constructor|].
        apply elem_of_cons in Hin1 as [|Hin1]; [done|]. constructor; [done|]. apply Forall_app. split; [|done].
        destruct a as [|x a]; [constructor|]. exfalso. apply Forall_cons in Ha as [Ha _].
        cbn in Hll. apply Forall_cons in Hll as [Hll _]. rewrite Ha in Hll. apply E. apply (anti_symm string_le); [done|].
        by apply (proj1 (Forall_forall _ _) Hn). }
    destruct Hsplit as (a & b & -> & Ha & Hb). cbn [fmap list_fmap concat].
    assert (E1 : in_file n (a ++ b) = a).
    { rewrite in_file_app. unfold in_file. rewrite (filter_all _ a), (filter_none _ b), app_nil_r; [done| |].
      - eapply Forall_impl; [exact Hb|]. intros l Hlb. apply String.eqb_neq. intros E. apply Hnot. by rewrite <- E.
      - eapply Forall_impl; [exact Ha|]. intros l Hla. by apply String.eqb_eq. }
    rewrite E1. f_equal. 
    transitivity (concat ((fun n => in_file n b) <$> names)); [|apply IH; [by eapply StronglySorted_app_1_r|done]].
    f_equal. apply list_fmap_ext. intros i m Hm. rewrite in_file_app. unfold in_file.
    rewrite (filter_none _ a); [done|]. eapply Forall_impl; [exact Ha|]. intros l Hla.
    apply String.eqb_neq. intros E. apply Hnot. rewrite <- Hla, E. by eapply list_elem_of_lookup_2.
Qed.

Section refinement.
Context `{JournalLaws}.

Definition append (o : io) (l : line) (s : RunJournalStore) : RunJournalStore * option journal_error :=
  match l with LState r => AppendState o r s | LEvent e => AppendEvent o e s end.

(** What is stored of it. *)
Definition stored (l : line) : line := match l with LState r => LState r | LEvent e => LEvent (as_event e) end.

(** Appends that all report success. *)
Fixpoint appends (ops : list (io * line)) (s : RunJournalStore) : option RunJournalStore :=
  match ops with
  | [] => Some s
  | (o, l) :: ops' => match append o l s with (s', None) => appends ops' s' | (_, Some _) => None end
  end.

(** The store's files hold exactly these lines. *)
Definition represents (s : RunJournalStore) (log : list line) : Prop :=
  forall n, match files s !! n with
            | Some content => holds content (in_file n log) []
            | None => in_file n log = []
            end.

Lemma route_ok o rid s s' :
  route o rid s = (s', None) ->
  sessionID s' = sessionID s /\
  (files s' = files s \/ files s !! file_name rid = None /\ files s' = <[file_name rid := []]> (files s)).
Proof.
  unfold route, OpenRunJournal. repeat case_match; intros; simplify_eq/=; auto.
Qed.

Lemma append_to_ok o rid d s s' :
  append_to o rid d s = (s', None) ->
  exists (content data : bytes), files s !! file_name rid = Some content /\ d = Some data /\ sessionID s' = sessionID s /\
    files s' = <[file_name rid := content ++ data ++ [NL]]> (files s).
Proof.
  unfold append_to. destruct (files s !! _) as [content|]; [|done].
  destruct (appendRecordLine o d content) as [content' e] eqn:E. intros [= <- ->].
  apply append_line_ok in E as (data & -> & ->). by exists content, data.
Qed.

(** A successful append extends the file of the run by the line. *)
Lemma append_ok o l s s' :
  append o l s = (s', None) ->
  exists (content data : bytes), (files s !! file_name (line_run l) = Some content \/
      files s !! file_name (line_run l) = None /\ content = []) /\
    enc (stored l) = Some data /\ sessionID s' = sessionID s /\
    files s' = <[file_name (line_run l) := content ++ data ++ [NL]]> (files s).
Proof.
  assert (Hgo : forall rid d s1 s2, route o rid s = (s1, None) -> append_to o rid d s1 = (s2, None) ->
    exists (content data : bytes), (files s !! file_name rid = Some content \/ files s !! file_name rid = None /\ content = []) /\
      d = Some data /\ sessionID s2 = sessionID s /\ files s2 = <[file_name rid := content ++ data ++ [NL]]> (files s)).
  { intros rid d s1 s2 H1 H2. apply route_ok in H1 as [E1 H1].
    apply append_to_ok in H2 as (content & data & Hf & -> & E2 & Hs). exists content, data.
    destruct H1 as [E|[Hn E]]; rewrite E in Hf, Hs.
    - split_and!; [by left|done|congruence|done].
    - rewrite lookup_insert_eq in Hf. injection Hf as <-. rewrite insert_insert_eq in Hs.
      split_and!; [by right|done|congruence|done]. }
  destruct l as [r|e]; cbn [append line_run stored enc]; unfold AppendState, AppendEvent.
  - destruct (String.eqb _ _); [done|]. destruct (route o (RunID r) s) as [s1 [|]] eqn:E1; [done|].
    destruct (append_to o (RunID r) (marshal_state r) s1) as [s2 e2] eqn:E2. intros Hr.
    assert (e2 = None /\ files s' = files s2 /\ sessionID s' = sessionID s2) as (-> & Ef & Es).
    { destruct (isTerminalRunState _); [|by injection Hr as <- ->].
      injection Hr as <- He. destruct e2; [done|]. by split_and!. }
    destruct (Hgo _ _ _ _ E1 E2) as (content & data & ? & ? & ? & ?). exists content, data. split_and!; try done; congruence.
  - destruct (String.eqb _ _); [done|]. destruct (route o (ERunID e) s) as [s1 [|]] eqn:E1; [done|]. intros E2. by eapply Hgo.
Qed.

(** Lines of a kind and size that can be read back. *)
Definition storable (l : line) : Prop :=
  line_kind (stored l) /\ forall b, enc (stored l) = Some b -> (blen b < maxLine)%Z.

Lemma represents_append o l s s' log :
  represents s log -> storable l -> append o l s = (s', None) -> represents s' (log ++ [stored l]).
Proof.
  intros Hr [Hk Hf] Ha. apply append_ok in Ha as (content & data & Hc & He & _ & Hs). intros n.
  assert (Hrun : line_run (stored l) = line_run l) by by destruct l.
  rewrite Hs, in_file_app. unfold in_file at 2 4. cbn [List.filter]. rewrite Hrun.
  destruct (decide (file_name (line_run l) = n)) as [<-|Hn].
  - rewrite lookup_insert_eq, String.eqb_refl. apply holds_snoc; [|by split; [|split; [apply Hf|]]].
    specialize (Hr (file_name (line_run l))). destruct Hc as [E|[E ->]]; rewrite E in Hr; [done|].
    rewrite Hr. by exists [].
  - rewrite lookup_insert_ne by done. rewrite (proj2 (String.eqb_neq _ _)) by done. rewrite !app_nil_r. apply Hr.
Qed.

Lemma represents_appends ops s s' log :
  represents s log -> Forall (fun op => storable op.2) ops -> appends ops s = Some s' ->
  represents s' (log ++ (stored ∘ snd <$> ops)) /\ sessionID s' = sessionID s.
Proof.
  revert s log. induction ops as [|[o l] ops IH]; intros s log Hr Hf Ha.
  - injection Ha as <-. by rewrite app_nil_r.
  - cbn in Ha. apply Forall_cons in Hf as [Hl Hf]. destruct (append o l s) as [s1 [|]] eqn:E; [done|].
    destruct (IH _ _ (represents_append _ _ _ _ _ Hr Hl E) Hf Ha) as [H1 H2].
    apply append_ok in E as (_ & _ & _ & _ & Es & _). rewrite <- app_assoc in H1. split; [done|congruence].
Qed.

Lemma represents_new sid op : represents (NewRunJournalStore sid op ∅) [].
Proof. intros n. cbn. by rewrite lookup_empty. Qed.

(** *** Reading the representation *)

Lemma holds_whole_states content ls :
  holds content ls [] -> exists good, loadStateRecords content = Some (seen_state <$> ls, good).
Proof. intros (bs & -> & Hw). eexists. apply load_states; [done|apply torn_empty]. Qed.

Lemma walk_spec s log names :
  represents s log -> walk s names = Ok (concat ((fun n => omap event_of (in_file n log)) <$> names)).
Proof.
  intros Hr. induction names as [|n names IH]; [done|]. cbn [walk fmap list_fmap concat].
  assert (loadEventRecords (content_of s n) = Some (omap event_of (in_file n log))) as ->.
  { unfold content_of. specialize (Hr n). destruct (files s !! n) as [content|].
    - destruct Hr as (bs & -> & Hw). apply load_events; [done|apply torn_empty].
    - by rewrite Hr. }
  rewrite IH. done.
Qed.

Lemma entries_sorted s : StronglySorted string_le (entries s) /\ NoDup (entries s).
Proof.
  unfold entries. split.
  - apply StronglySorted_filter. apply StronglySorted_merge_sort; apply _.
  - apply NoDup_ListNoDup, List.NoDup_filter, NoDup_ListNoDup. rewrite merge_sort_Permutation. apply NoDup_fst_map_to_list.
Qed.

Lemma entries_elem s n : n ∈ entries s <-> is_Some (files s !! n) /\ HasSuffix n ".jsonl" = true.
Proof.
  unfold entries. rewrite list_elem_of_In, filter_In, <- list_elem_of_In, merge_sort_Permutation, list_elem_of_fmap. split.
  - intros [([k c] & -> & Hk) Hs]. apply elem_of_map_to_list in Hk. split; [by eexists|done].
  - intros [[c Hc] Hs]. split; [|done]. exists (n, c). split; [done|]. by apply elem_of_map_to_list.
Qed.

(** What is in the files, read back in the order of the files. *)
Lemma walk_represents s log :
  represents s log ->
  StronglySorted (fun a b => string_le (file_name (line_run a)) (file_name (line_run b))) log ->
  walkEventRecords s = Ok (omap event_of log).
Proof.
  intros Hr Hs. unfold walkEventRecords. rewrite (walk_spec _ _ _ Hr). f_equal.
  destruct (entries_sorted s) as [Hsort Hnd].
  transitivity (omap event_of (concat ((fun n => in_file n log) <$> entries s))); [|f_equal; apply files_in_order; try done].
  - clear Hnd. induction (entries s) as [|n names IH]; [done|]. cbn [fmap list_fmap concat]. rewrite omap_app. f_equal.
    apply IH. by inversion Hsort.
  - apply Forall_forall. intros l Hl. apply entries_elem. split; [|apply HasSuffix_append].
    specialize (Hr (file_name (line_run l))). destruct (files s !! _) as [c|]; [by eexists|exfalso].
    assert (Hin : l ∈ in_file (file_name (line_run l)) log).
    { apply list_elem_of_In, filter_In. split; [by apply list_elem_of_In|]. apply String.eqb_refl. }
    rewrite Hr in Hin. by apply not_elem_of_nil in Hin.
Qed.

(** *** The hub's view *)

(** A stored event as the hub sees it, its payload decoded. *)
Definition hub_record (payload : string -> EventHub.json) (r : EventRecord) : EventHub.EventRecord :=
  EventHub.mkEventRecord (ESessionID r) (ERunID r) (EType r) (Seq r) (FromSeq r) (ETime r) (payload (Payload r)).

Lemma hub_reads payload sid after (es : list EventRecord) :
  hub_record payload <$> List.filter (fun r => String.eqb (ESessionID r) sid && (after <? Seq r)%Z) es =
  EventHub.ReadEvents sid after (hub_record payload <$> es).
Proof.
  unfold EventHub.ReadEvents. induction es as [|e es IH]; [done|]. cbn [List.filter fmap list_fmap]. cbn in *.
  destruct (String.eqb _ _ && _)%bool; cbn; by rewrite IH.
Qed.

Lemma hub_range payload sid (es : list EventRecord) acc :
  foldl widen acc (List.filter (fun r => String.eqb (ESessionID r) sid) es) =
  foldl (fun acc r => if negb (String.eqb (EventHub.rSessionID r) sid) then acc
    else match acc with
         | None => Some (EventHub.rSeq r, EventHub.rSeq r)
         | Some (e, l) => Some (if (EventHub.rSeq r <? e)%Z then EventHub.rSeq r else e, if (l <? EventHub.rSeq r)%Z then EventHub.rSeq r else l)
         end) acc (hub_record payload <$> es).
Proof.
  revert acc. induction es as [|e es IH]; intros acc; [done|]. cbn.
  destruct (String.eqb (ESessionID e) sid); cbn; by rewrite <- IH.
Qed.

(** The run files are a list of records. After any appends that reported
    success, of runs whose file names follow each other, [ReadEvents] returns the
    events appended, in their order, as [EventHub.ReadEvents] does of the list;
    [SeqRange] the range of the list; [LastRunState] the last state appended for
    the run. *)
Theorem journal_is_a_list payload sid op ops s rid after :
  appends ops (NewRunJournalStore sid op ∅) = Some s ->
  Forall (fun o => storable o.2) ops ->
  StronglySorted (fun a b => string_le (file_name (line_run a)) (file_name (line_run b))) (snd <$> ops) ->
  let log := stored ∘ snd <$> ops in
  let journal := hub_record payload <$> omap event_of log in
  (exists es, ReadEvents after s = Ok es /\ hub_record payload <$> es = EventHub.ReadEvents sid after journal) /\
  SeqRange s = Ok (EventHub.SeqRange sid journal) /\
  (validRunID rid = true ->
   LastRunState rid s = last (omap state_of (List.filter (fun l => String.eqb (line_run l) rid) log))).
Proof.
  intros Ha Hf Hs log journal.
  destruct (represents_appends _ _ _ _ (represents_new sid op) Hf Ha) as [Hr Hsid]. cbn in Hr, Hsid. fold log in Hr.
  assert (Hlog : StronglySorted (fun a b => string_le (file_name (line_run a)) (file_name (line_run b))) log).
  { unfold log. clear -Hs. induction ops as [|[o l] ops IH]; [constructor|]. inversion Hs as [|? ? Hs' Hl]; subst.
    cbn. constructor; [by apply IH|]. clear -Hl. induction ops as [|[o' l'] ops IH]; [constructor|].
    apply Forall_cons in Hl as [H1 H2]. constructor; [|by apply IH]. cbn in *. by destruct l, l'. }
  pose proof (walk_represents s log Hr Hlog) as Hw. split_and!.
  - unfold ReadEvents, mine. rewrite Hw, Hsid. cbn. eexists. split; [done|]. apply hub_reads.
  - unfold SeqRange, mine. rewrite Hw, Hsid. cbn. f_equal. apply hub_range.
  - intros Hv. unfold LastRunState. rewrite Hv. cbn. specialize (Hr (file_name rid)).
    assert (E : in_file (file_name rid) log = List.filter (fun l => String.eqb (line_run l) rid) log).
    { unfold in_file. apply List.filter_ext. intros l. destruct (String.eqb_spec (line_run l) rid) as [->|Hne];
        [apply String.eqb_refl|]. apply String.eqb_neq. intros E. by apply string_append_inj in E. }
    rewrite E in Hr. destruct (files s !! file_name rid) as [content|]; [|by rewrite Hr].
    pose proof Hr as (bs & _ & Hb). destruct (holds_whole_states _ _ Hr) as (good & ->).
    apply last_state_lines. by eapply written_kinds.
Qed.
End refinement.

(** ** A run that ended *)

Section sealed.
Context `{JournalCodec}.

(** Any operations, whatever becomes of them, with the errors they report. *)
Fixpoint run_appends (ops : list (io * line)) (s : RunJournalStore) : RunJournalStore * list (option journal_error) :=
  match ops with
  | [] => (s, [])
  | (o, l) :: ops' =>
      let '(s1, e) := append o l s in
      let '(s2, es) := run_appends ops' s1 in (s2, e :: es)
  end.

(** The file is there and its journal is not open. *)
Definition sealed (rid : string) (s : RunJournalStore) : Prop :=
  is_Some (files s !! file_name rid) /\ rid ∉ handles s.

Lemma file_name_ne a b : a <> b -> file_name a <> file_name b.
Proof. intros Hne E. by apply string_append_inj in E. Qed.

Lemma route_sealed o rid a s :
  sealed rid s ->
  let s' := (route o a s).1 in
  files s' !! file_name rid = files s !! file_name rid /\ (rid ∉ handles s' \/ a = rid) /\
  (a = rid -> is_Some (route o a s).2 /\ s' = s).
Proof.
  intros [[c Hc] Hh]. unfold route, OpenRunJournal.
  destruct (decide (a ∈ handles s)) as [Ha|Ha].
  { cbn. split_and!; [done|by left|]. by intros ->. }
  destruct (negb (validSessionID _)), (negb (validRunID a)), (negb (opened s)); cbn; try (split_and!; [done|by left|by eauto]).
  destruct (decide (a = rid)) as [-> |Hne].
  - rewrite Hc. cbn. split_and!; [done|by right|]. by destruct (io_open o); eauto.
  - destruct (files s !! file_name a) as [x|] eqn:E; cbn; [split_and!; [done|by left|done]|].
    destruct (io_open o); cbn; [|split_and!; [done|by left|done]].
    rewrite lookup_insert_ne by by apply file_name_ne. split_and!; [done|left; set_solver|done].
Qed.

Lemma append_to_other o a rid d s :
  a <> rid -> files (append_to o a d s).1 !! file_name rid = files s !! file_name rid /\
  handles (append_to o a d s).1 = handles s.
Proof.
  intros Hne. unfold append_to. destruct (files s !! file_name a); [|done].
  destruct (appendRecordLine _ _ _). cbn. by rewrite lookup_insert_ne by by apply file_name_ne.
Qed.

Lemma append_sealed o l rid s :
  sealed rid s -> rid <> "" ->
  files (append o l s).1 !! file_name rid = files s !! file_name rid /\ sealed rid (append o l s).1 /\
  (line_run l = rid -> is_Some (append o l s).2).
Proof.
  intros Hs Hne.
  assert (Hgo : forall a d, a <> "" -> forall s1 e, route o a s = (s1, e) ->
    (a = rid -> is_Some e /\ s1 = s) /\ (a <> rid -> files (append_to o a d s1).1 !! file_name rid = files s !! file_name rid /\
       rid ∉ handles (append_to o a d s1).1 /\ files s1 !! file_name rid = files s !! file_name rid /\ rid ∉ handles s1)).
  { intros a d Ha s1 e E. destruct (route_sealed o rid a s Hs) as (H1 & H2 & H3). rewrite E in H1, H2, H3. cbn in *. split; [done|].
    intros Hn. destruct (append_to_other o a rid d s1 Hn) as [-> ->]. destruct H2 as [H2|]; [|done]. by rewrite H1. }
  assert (Hseal : forall s', files s' !! file_name rid = files s !! file_name rid -> rid ∉ handles s' -> sealed rid s').
  { intros s' E Hh. split; [|done]. rewrite E. apply Hs. }
  destruct l as [r|ev]; cbn [append line_run]; unfold AppendState, AppendEvent.
  - destruct (String.eqb_spec (RunID r) "") as [E|E]; [split_and!; try done; intros; by eauto|].
    destruct (route o (RunID r) s) as [s1 e] eqn:Hr. destruct (Hgo (RunID r) (marshal_state r) E _ _ Hr) as [H1 H2].
    destruct (decide (RunID r = rid)) as [Er|Er].
    + destruct (H1 Er) as [[x ->] ->]. cbn. split_and!; [done|done|by eauto].
    + destruct (H2 Er) as (F1 & F2 & F3 & F4). destruct e; [split_and!; [done|by apply Hseal|done]|].
      destruct (append_to o (RunID r) (marshal_state r) s1) as [s2 e2]. cbn in F1, F2.
      destruct (isTerminalRunState _); cbn; (split_and!; [done|apply Hseal; [done|cbn; set_solver]|done]).
  - destruct (String.eqb_spec (ERunID ev) "") as [E|E]; [split_and!; try done; intros; by eauto|].
    destruct (route o (ERunID ev) s) as [s1 e] eqn:Hr. destruct (Hgo (ERunID ev) (marshal_event (as_event ev)) E _ _ Hr) as [H1 H2].
    destruct (decide (ERunID ev = rid)) as [Er|Er].
    + destruct (H1 Er) as [[x ->] ->]. cbn. split_and!; [done|done|by eauto].
    + destruct (H2 Er) as (F1 & F2 & F3 & F4). destruct e; [split_and!; [done|by apply Hseal|done]|].
      split_and!; [done|by apply Hseal|done].
Qed.

Lemma run_appends_sealed ops rid s :
  sealed rid s -> rid <> "" ->
  files (run_appends ops s).1 !! file_name rid = files s !! file_name rid /\
  Forall2 (fun op e => line_run op.2 = rid -> is_Some e) ops (run_appends ops s).2.
Proof.
  revert s. induction ops as [|[o l] ops IH]; intros s Hs Hne; [by split|]. cbn [run_appends].
  destruct (append_sealed o l rid s Hs Hne) as (H1 & H2 & H3).
  destruct (append o l s) as [s1 e]. cbn in *. destruct (IH s1 H2 Hne) as [H4 H5].
  destruct (run_appends ops s1) as [s2 es]. cbn in *. split; [congruence|]. by constructor.
Qed.

(** The end record of a run closes its journal, whatever becomes of the write. *)
Lemma end_closes o r s :
  isTerminalRunState (State r) = true -> RunID r <> "" -> RunID r ∉ handles (AppendState o r s).1.
Proof.
  intros Ht Hne. unfold AppendState. rewrite (proj2 (String.eqb_neq _ _)) by done.
  destruct (route o (RunID r) s) as [s1 [e|]] eqn:E.
  - unfold route, OpenRunJournal in E. repeat case_match; simplify_eq/=; done.
  - destruct (append_to _ _ _ _). rewrite Ht. cbn. set_solver.
Qed.

(** After the end record of a run nothing is ever appended to its file: for
    any end record and any operations afterwards, however their I/O goes, every
    append to the run is refused and the bytes of the file stay as they are. *)
Theorem ended_run_is_sealed o r s ops :
  isTerminalRunState (State r) = true -> RunID r <> "" ->
  let s1 := (AppendState o r s).1 in
  is_Some (files s1 !! file_name (RunID r)) ->
  files (run_appends ops s1).1 !! file_name (RunID r) = files s1 !! file_name (RunID r) /\
  Forall2 (fun op e => line_run op.2 = RunID r -> is_Some e) ops (run_appends ops s1).2.
Proof.
  intros Ht Hne s1 Hf. apply run_appends_sealed; [|done]. split; [done|]. by apply end_closes.
Qed.
End sealed.

(** ** Recovery *)

Section recovery.
Context `{JournalLaws}.

(** The lines of a file after its recovery. *)
Definition recovered (sid : string) (now : Time) (n : string) (ls : list line) : list line :=
  match last (omap state_of ls) with
  | Some r => if isTerminalRunState (State r) then ls else ls ++ [LState (marker sid (TrimSuffix n ".jsonl") now)]
  | None => ls
  end.

Definition is_settled (ls : list line) : Prop :=
  match last (omap state_of ls) with Some r => isTerminalRunState (State r) = true | None => True end.



Lemma settled_recovered sid now n ls : is_settled ls -> recovered sid now n ls = ls.
Proof. unfold is_settled, recovered. destruct (last _) as [r|]; [|done]. by intros ->. Qed.









End recovery.

(** ** A concrete codec *)

#[export] Instance RunStateRecord_countable : Countable RunStateRecord.
Proof.
  apply (inj_countable' (fun r => (Kind r, SessionID r, RunID r, State r, ErrText r, Persisted r, At r))
    (fun '(a, b, c, d, e, f, g) => mkStateRecord a b c d e f g)). by intros [].
Defined.
#[export] Instance EventRecord_countable : Countable EventRecord.
Proof.
  apply (inj_countable' (fun r => (EKind r, ESessionID r, ERunID r, EType r, Seq r, FromSeq r, ETime r, Payload r))
    (fun '(a, b, c, d, e, f, g, h) => mkEventRecord a b c d e f g h)). by intros [].
Defined.

Definition code (x : RunStateRecord + EventRecord) : bytes := pos_digits (encode x).

(** Records as the digits of their number, which say which type it is. *)
Definition digits_codec : JournalCodec := {|
  marshal_state r := Some (code (inl r));
  marshal_event e := Some (code (inr e));
  unmarshal_state b :=
    (digits_pos b ≫= fun p => (decode p : option (RunStateRecord + EventRecord))) ≫= fun x =>
    Some (match x with
          | inl r => r
          | inr e => mkStateRecord (EKind e) (ESessionID e) (ERunID e) "" "" false 0%Z
          end);
  unmarshal_event b :=
    (digits_pos b ≫= fun p => (decode p : option (RunStateRecord + EventRecord))) ≫= fun x =>
    Some (match x with
          | inl r => mkEventRecord (Kind r) (SessionID r) (RunID r) "" 0%Z 0%Z 0%Z ""
          | inr e => e
          end);
|}.

Lemma code_read x : digits_pos (code x) ≫= (fun p => (decode p : option (RunStateRecord + EventRecord))) = Some x.
Proof. unfold code. rewrite digits_pos_digits. cbn [option_bind mbind]. apply decode_encode. Qed.

Lemma code_prefix x n : (n < length (code x))%nat -> digits_pos (trim (take n (code x))) = None.
Proof.
  intros Hn. by apply digits_prefix_trim.
Qed.

Lemma digits_laws : @JournalLaws digits_codec.
Proof.
  split; cbn [marshal_state marshal_event unmarshal_state unmarshal_event digits_codec].
  - intros r b [= <-]. apply json_digits.
  - intros e b [= <-]. apply json_digits.
  - intros r b [= <-]. by rewrite code_read.
  - intros e b [= <-]. by rewrite code_read.
  - intros e b [= <-]. by rewrite code_read.
  - intros r b [= <-]. rewrite code_read. by eexists.
  - intros r b n [= <-] Hn. by rewrite code_prefix.
  - intros e b n [= <-] Hn. by rewrite code_prefix.
Qed.

(** ** Concrete runs *)

Module Examples.
#[local] Existing Instance digits_codec.
#[local] Existing Instance digits_laws.

Definition queued : RunStateRecord := mkStateRecord "state" "s1" "run-1-1" "queued" "" false 10%Z.
Definition completed : RunStateRecord := mkStateRecord "state" "s1" "run-1-1" "completed" "" true 30%Z.
Definition hello : EventRecord := mkEventRecord "" "s1" "run-1-1" "tool_call" 1%Z 0%Z 20%Z "{}".

Definition ops : list (io * line) := [(io_ok, LState queued); (io_ok, LEvent hello); (io_ok, LState completed)].

Lemma ops_storable : Forall (fun o => storable o.2) ops.
Proof. repeat constructor; intros b [= <-]; by apply Z.ltb_lt; vm_compute. Qed.

Lemma journal_is_a_list_witness :
  exists s, appends ops (NewRunJournalStore "s1" true ∅) = Some s /\
    LastRunState "run-1-1" s = Some completed /\
    (exists es, ReadEvents 0 s = Ok es /\ hub_record EventHub.JOther <$> es =
       EventHub.ReadEvents "s1" 0 (hub_record EventHub.JOther <$> [as_event hello])).
Proof.
  destruct (appends ops (NewRunJournalStore "s1" true ∅)) as [s|] eqn:E; [|by vm_compute in E].
  exists s. split; [done|].
  destruct (journal_is_a_list EventHub.JOther "s1" true ops s "run-1-1" 0 E ops_storable ltac:(repeat constructor)) as (H1 & _ & H3).
  split; [|exact H1]. by rewrite H3.
Defined.

Lemma ended_run_is_sealed_witness :
  let s1 := (AppendState io_ok completed (NewRunJournalStore "s1" true ∅)).1 in
  is_Some (files s1 !! "run-1-1.jsonl") /\
  files (run_appends [(io_ok, LEvent hello)] s1).1 !! "run-1-1.jsonl" = files s1 !! "run-1-1.jsonl" /\
  (run_appends [(io_ok, LEvent hello)] s1).2 = [Some ErrRunExists].
Proof.
  intros s1. assert (Hs : is_Some (files s1 !! "run-1-1.jsonl")) by (vm_compute; by eexists).
  split; [exact Hs|].
  split; [|by vm_compute].
  exact (proj1 (ended_run_is_sealed io_ok completed (NewRunJournalStore "s1" true ∅) [(io_ok, LEvent hello)]
    eq_refl ltac:(done) Hs)).
Defined.




(** *** Limits *)

(** A last record that lacks only its newline is complete to the reader; the
    marker is glued to it and both are lost. *)
Definition unterminated : RunJournalStore :=
  NewRunJournalStore "s1" true {["run-1-1.jsonl" := code (inl queued)]}.

Example the_marker_is_glued_to_an_unterminated_record :
  LastRunState "run-1-1" unterminated = Some queued /\
  let '(s', r) := MarkInterruptedRuns (fun _ => mark_ok) 40 unterminated in
  r = Ok ["run-1-1"] /\ LastRunState "run-1-1" s' = None.
Proof. by vm_compute. Qed.

(** After a write that failed half way, the next event is reported as written
    and is glued to the torn line: no reader sees it. *)
Example an_event_after_a_failed_write_is_lost :
  exists s1 s2 s3, AppendState io_ok queued (NewRunJournalStore "s1" true ∅) = (s1, None) /\
    AppendEvent (mkIO true (WriteErr 3) true true) hello s1 = (s2, Some ErrIO) /\
    AppendEvent io_ok hello s2 = (s3, None) /\ ReadEvents 0 s3 = Ok [].
Proof. eexists _, _, _. split_and!; [reflexivity|reflexivity|reflexivity|by vm_compute]. Qed.
End Examples.

(** A line of 1 MiB stops the scan of the file, and with it every reader of the
    session's events and the recovery. *)
Lemma a_long_line_stops_the_readers `{JournalCodec} s n b after :
  files s = {[n := b ++ [NL]]} -> HasSuffix n ".jsonl" = true -> NL ∉ b -> (maxLine <= blen b)%Z ->
  ReadEvents after s = Err ErrScan /\ SeqRange s = Err ErrScan.
Proof.
  intros Hf Hs Hn Hb.
  assert (Hscan : forall A (h : bytes -> option A), scanJSONL h (b ++ [NL]) = None).
  { intros A h. unfold scanJSONL, scan_lines.
    rewrite (raw_tokens_complete_line [] b complete_nil Hn : raw_tokens (b ++ [NL]) = [] ++ [b]). cbn [app].
    by rewrite scan_tokens_too_long. }
  assert (E : entries s = [n]).
  { unfold entries. rewrite Hf, map_to_list_singleton. cbn [fmap list_fmap fst].
    change (merge_sort string_le [n]) with [n]. cbn [List.filter]. by rewrite Hs. }
  assert (Hw : walkEventRecords s = Err ErrScan).
  { unfold walkEventRecords. rewrite E. cbn [walk]. unfold content_of, loadEventRecords.
    rewrite Hf, lookup_singleton_eq, Hscan. done. }
  unfold ReadEvents, SeqRange. by rewrite Hw.
Qed.
