(* ===== verification/AgentRun.v ===== *)
(** * ai-runtime/agent: runs, session runtimes and their registry

    [run.go]: the record of one execution and its states. [runtime.go]: the
    exclusive right to run of one session. [manager.go]: the registry of
    runtimes and the global quotas. Every operation that is one critical section
    is a function here; [Supervisor] composes them into goroutines. *)

From S2P Require Import Prelude.
#[local] Open Scope string_scope.
#[local] Open Scope list_scope.

(** ** run.go *)

Definition RunState : Type := string.
Definition RunQueued : RunState := "queued".
Definition RunRunning : RunState := "running".
Definition RunCompleted : RunState := "completed".
Definition RunFailed : RunState := "failed".
Definition RunCancelled : RunState := "cancelled".
Definition RunWaiting : RunState := "waiting_input".
Definition RunWaitingCapability : RunState := "waiting_capability".

(** The test of [transition] and of [finalizeRun] for an end state. *)
Definition ends (s : RunState) : bool :=
  String.eqb s RunCompleted || String.eqb s RunFailed || String.eqb s RunCancelled.

(** Errors, as far as [errors.Is] looks at them. *)
Inductive error : Type :=
  | Canceled
  | DeadlineExceeded
  | OtherError (msg : string).

Definition is_context_error (e : error) : bool :=
  match e with Canceled | DeadlineExceeded => true | OtherError _ => false end.

Record RunResult := mkResult {
  State : RunState;
  Err : option error;
  Persisted : bool;
}.

(** [cancel]: [Some b] once the cancel function is set, [b] when it was called. *)
Record AgentRun := mkRun {
  ID : string;
  RSessionID : string;
  rstate : RunState;
  startedAt : Time;
  done : bool;
  result : RunResult;
  cancel : option bool;
}.

Definition newAgentRun (id sid : string) : AgentRun :=
  mkRun id sid RunQueued 0%Z false (mkResult "" None false) None.

Definition transition (now : Time) (next : RunState) (run : AgentRun) : AgentRun :=
  if String.eqb (rstate run) next then run
  else
    mkRun (ID run) (RSessionID run) next
      (if String.eqb next RunRunning && IsZero (startedAt run) then now else startedAt run)
      (if ends next then true else done run) (result run) (cancel run).

Definition snapshot (run : AgentRun) : RunResult :=
  mkResult (rstate run) (Err (result run)) (Persisted (result run)).

Definition set_result (res : RunResult) (run : AgentRun) : AgentRun :=
  mkRun (ID run) (RSessionID run) (rstate run) (startedAt run) (done run) res (cancel run).

Definition set_cancel (c : option bool) (run : AgentRun) : AgentRun :=
  mkRun (ID run) (RSessionID run) (rstate run) (startedAt run) (done run) (result run) c.

(** [finish]: the result first, then the end state. *)
Definition finish (now : Time) (res : RunResult) (run : AgentRun) : AgentRun :=
  transition now (State res) (set_result res run).

(** [Cancel]: whether a cancellation was sent. *)
Definition Cancel (run : AgentRun) : AgentRun * bool :=
  match cancel run with
  | None => (run, false)
  | Some _ => (set_cancel (Some true) run, true)
  end.

(** ** Results *)

(** Step 5 of [execute]: a run whose context is over is a cancelled run. *)
Definition settle (ctxErr : option error) (res : RunResult) : RunResult :=
  match ctxErr with
  | None => res
  | Some rerr => mkResult RunCancelled (Some (default rerr (Err res))) (Persisted res)
  end.

(** The first step of [finalizeRun]. *)
Definition normalize (res : RunResult) : RunResult :=
  match Err res with
  | Some e => mkResult (if is_context_error e then RunCancelled else RunFailed) (Some e) (Persisted res)
  | None => if ends (State res) then res else mkResult RunCompleted None (Persisted res)
  end.

(** ** runtime.go *)

Inductive start_error : Type :=
  | ErrManagerClosed
  | ErrSessionNotFound
  | ErrTooManyPending
  | ErrSessionArchived
  | ErrSessionRetired
  | ErrRunActive
  | ErrSessionNotBound
  | ErrEventHub
  | ErrRunJournalWrite.

(** What a runtime needs of its session: does it have a run journal, an event journal. *)
Record Session := mkSession { RunJournal : bool; RunEvents : bool }.

(** [admission]: [admissionMu] is held (by an [Archive] during its commit);
    [events]: the current run of the event hub, once there is one. *)
Record SessionRuntime := mkRuntime {
  RID : string;
  session : option Session;
  gate : bool;
  active : option nat;
  admission : bool;
  archived : bool;
  retired : bool;
  events : option string;
}.

Definition NewSessionRuntime (id : string) (s : option Session) : SessionRuntime :=
  mkRuntime id s false None false false false None.

Definition set_active (a : option nat) (r : SessionRuntime) : SessionRuntime :=
  mkRuntime (RID r) (session r) (gate r) a (admission r) (archived r) (retired r) (events r).
Definition set_gate (g : bool) (r : SessionRuntime) : SessionRuntime :=
  mkRuntime (RID r) (session r) g (active r) (admission r) (archived r) (retired r) (events r).
Definition set_admission (a : bool) (r : SessionRuntime) : SessionRuntime :=
  mkRuntime (RID r) (session r) (gate r) (active r) a (archived r) (retired r) (events r).
Definition set_archived (a : bool) (r : SessionRuntime) : SessionRuntime :=
  mkRuntime (RID r) (session r) (gate r) (active r) (admission r) a (retired r) (events r).
Definition set_retired (r : SessionRuntime) : SessionRuntime :=
  mkRuntime (RID r) (session r) (gate r) (active r) (admission r) (archived r) true (events r).
Definition set_events (h : option string) (r : SessionRuntime) : SessionRuntime :=
  mkRuntime (RID r) (session r) (gate r) (active r) (admission r) (archived r) (retired r) h.

Definition BindSession (s : option Session) (r : SessionRuntime) : SessionRuntime :=
  mkRuntime (RID r) s (gate r) (active r) (admission r) (archived r) (retired r) (events r).

Definition reserveRun (run : nat) (r : SessionRuntime) : SessionRuntime * Prelude.result start_error Session :=
  if archived r then (r, Prelude.Err ErrSessionArchived)
  else if retired r then (r, Prelude.Err ErrSessionRetired)
  else match active r, session r with
  | Some _, _ => (r, Prelude.Err ErrRunActive)
  | None, None => (r, Prelude.Err ErrSessionNotBound)
  | None, Some s => (set_active (Some run) r, Ok s)
  end.

Definition clear_active (run : nat) (r : SessionRuntime) : SessionRuntime :=
  if decide (active r = Some run) then set_active None r else r.

Definition releaseRunReservation (run : nat) (r : SessionRuntime) : SessionRuntime := clear_active run r.

Definition Retire (r : SessionRuntime) : SessionRuntime * option start_error :=
  match active r with
  | Some _ => (r, Some ErrRunActive)
  | None => (set_retired r, None)
  end.

(** [Archive] before and after its commit, which runs with [admissionMu] held. *)
Definition archive_begin (r : SessionRuntime) : SessionRuntime * option start_error :=
  match active r with
  | Some _ => (r, Some ErrRunActive)
  | None => (set_admission true (set_archived true r), None)
  end.

Definition archive_end (committed : bool) (r : SessionRuntime) : SessionRuntime :=
  set_admission false (if committed then r else set_archived false r).

(** [bindEvents]: the hub is made at most once; making it may fail. *)
Definition bindEvents (hub_ok : bool) (s : Session) (r : SessionRuntime) : SessionRuntime * Prelude.result start_error bool :=
  if negb (RunEvents s) then (r, Ok false)
  else match events r with
  | Some _ => (r, Ok true)
  | None => if hub_ok then (set_events (Some "") r, Ok true) else (r, Prelude.Err ErrEventHub)
  end.

(** [EnsureHub]: nothing without a session. *)
Definition EnsureHub (hub_ok : bool) (r : SessionRuntime) : SessionRuntime * Prelude.result start_error bool :=
  match session r with None => (r, Ok false) | Some s => bindEvents hub_ok s r end.

(** The hub's [BeginRun] and [EndRun], as far as its current run goes. *)
Definition hub_begin (id : string) (r : SessionRuntime) : SessionRuntime :=
  match events r with Some _ => set_events (Some id) r | None => r end.
Definition hub_end (r : SessionRuntime) : SessionRuntime :=
  match events r with Some _ => set_events (Some "") r | None => r end.

(** [appendRunState]: no session or no journal is no error. *)
Definition appendRunState (io_ok : bool) (s : option Session) : bool :=
  match s with
  | Some s => if RunJournal s then io_ok else true
  | None => true
  end.

(** ** manager.go *)

Definition defaultMaxConcurrentRuns : Z := 4.
Definition defaultMaxPendingRuns : Z := 16.

(** [runtimes] maps a session id to its runtime instance; [hostCancelled]: the
    host context is over. [runSlots] and [pending] are the tokens in the two
    channels, the other two their capacities. *)
Record SessionManager := mkManager {
  runtimes : gmap string nat;
  closed : bool;
  hostCancelled : bool;
  runSlots : nat;
  pending : nat;
  maxSlots : nat;
  maxPending : nat;
}.

Definition WithRunLimits (maxConcurrent maxPend : Z) (m : SessionManager) : SessionManager :=
  let c := if (maxConcurrent <=? 0)%Z then defaultMaxConcurrentRuns else maxConcurrent in
  let p := if (maxPend <=? 0)%Z then defaultMaxPendingRuns else maxPend in
  mkManager (runtimes m) (closed m) (hostCancelled m) 0 0 (Z.to_nat c) (Z.to_nat p).

Definition NewSessionManager (opts : list (SessionManager -> SessionManager)) : SessionManager :=
  foldl (fun m opt => opt m)
    (mkManager ∅ false false 0 0 (Z.to_nat defaultMaxConcurrentRuns) (Z.to_nat defaultMaxPendingRuns)) opts.

Definition set_runtimes (m : SessionManager) (rs : gmap string nat) : SessionManager :=
  mkManager rs (closed m) (hostCancelled m) (runSlots m) (pending m) (maxSlots m) (maxPending m).
Definition set_closed (m : SessionManager) : SessionManager :=
  mkManager (runtimes m) true (hostCancelled m) (runSlots m) (pending m) (maxSlots m) (maxPending m).
Definition cancel_host (m : SessionManager) : SessionManager :=
  mkManager (runtimes m) (closed m) true (runSlots m) (pending m) (maxSlots m) (maxPending m).
Definition set_slots (m : SessionManager) (n : nat) : SessionManager :=
  mkManager (runtimes m) (closed m) (hostCancelled m) n (pending m) (maxSlots m) (maxPending m).
Definition set_pending (m : SessionManager) (n : nat) : SessionManager :=
  mkManager (runtimes m) (closed m) (hostCancelled m) (runSlots m) n (maxSlots m) (maxPending m).

Inductive register_error : Type :=
  | RegManagerClosed
  | RegRetired
  | RegDuplicate (id : string).

Definition Register (p : nat) (r : SessionRuntime) (m : SessionManager) : SessionManager * option register_error :=
  if closed m then (m, Some RegManagerClosed)
  else if retired r then (m, Some RegRetired)
  else match runtimes m !! RID r with
  | Some _ => (m, Some (RegDuplicate (RID r)))
  | None => (set_runtimes m (<[RID r := p]> (runtimes m)), None)
  end.

Definition Get (id : string) (m : SessionManager) : option nat := runtimes m !! id.

Definition Remove (id : string) (m : SessionManager) : SessionManager := set_runtimes m (delete id (runtimes m)).

Inductive cancel_error : Type := ErrRunNotFound | ErrRunNotCancellable.

(** [CancelRun]: the session's active run, if it is the one meant, is cancelled. *)
Definition CancelRun (sid runID : string) (m : SessionManager) (rts : gmap nat SessionRuntime)
    (runs : gmap nat AgentRun) : gmap nat AgentRun * option cancel_error :=
  match Get sid m ≫= fun p => rts !! p ≫= active with
  | None => (runs, Some ErrRunNotFound)
  | Some r =>
      match runs !! r with
      | None => (runs, Some ErrRunNotFound)
      | Some run =>
          if negb (String.eqb (ID run) runID) then (runs, Some ErrRunNotFound)
          else match Cancel run with
               | (_, false) => (runs, Some ErrRunNotCancellable)
               | (run', true) => (<[r := run']> runs, None)
               end
      end
  end.

(** ** Lemmas *)

Lemma ends_not_queued s : ends s = true -> s <> RunQueued /\ s <> RunRunning.
Proof. intros H. split; intros ->; discriminate. Qed.

Lemma normalize_ends res : ends (State (normalize res)) = true.
Proof.
  unfold normalize. destruct (Err res) as [e|]; [by destruct (is_context_error e)|].
  by destruct (ends (State res)) eqn:E.
Qed.

(** A settled result is a cancellation unless an error of another kind stands in its way. *)
Lemma normalize_settled rerr res :
  is_context_error rerr = true ->
  (forall e, Err res = Some e -> is_context_error e = true) ->
  State (normalize (settle (Some rerr) res)) = RunCancelled.
Proof.
  intros Hr He. unfold settle, normalize. cbn. destruct (Err res) as [e|]; cbn; [by rewrite (He e)|by rewrite Hr].
Qed.

Lemma transition_done now next run : done run = true -> done (transition now next run) = true.
Proof. intros H. unfold transition. destruct (String.eqb _ _); [done|]. cbn. by destruct (ends next). Qed.

Lemma finish_done now res run :
  ends (State res) = true -> ends (rstate run) = false ->
  done (finish now res run) = true /\ rstate (finish now res run) = State res /\
  result (finish now res run) = res.
Proof.
  intros He Hn. unfold finish, transition. cbn. destruct (String.eqb_spec (rstate run) (State res)) as [E|E].
  - rewrite E in Hn. congruence.
  - cbn. by rewrite He.
Qed.
