(* ===== verification/SessionRecord.v ===== *)
(** * ai-runtime/session/record.go: the records of a session file

    Messages, the eight kinds of records, and how a record is flattened to one
    JSON object and dispatched on its kind when it is read back. The encoding
    of structs of strings is [encoding/json], the interface [RecordCodec]; which
    fields of a struct are which keys of the object is the code's (the struct
    tags), so it is written out here. *)

From S2P Require Import Prelude GoString JsonLines ScanJsonl.
#[local] Open Scope string_scope.
#[local] Open Scope list_scope.

(** ** Messages (ai-core/core/spec.go) *)

Record ToolCall := mkToolCall {
  ID : string;
  Type_ : string;
  Name : string;
  Arguments : string;
}.

(** [Custom] holds raw JSON texts. A nil slice or map and an empty one are the
    same value here; the records omit both. *)
Record Message := mkMessage {
  Role : string;
  Content : string;
  ToolCallID : string;
  ToolCalls : list ToolCall;
  Thinking : string;
  Custom : gmap string string;
  MsgID : string;
  CreatedAt : Time;
}.

Definition no_message : Message := mkMessage "" "" "" [] "" ∅ "" 0%Z.

(** ** Records *)

Record msgFields := mkMsgFields {
  msg_ID : string;
  msg_Parent : string;
  msg_Role : string;
  msg_Content : string;
  msg_ToolCalls : list ToolCall;
  msg_ToolCallID : string;
  msg_Thinking : string;
  msg_Custom : gmap string string;
  msg_CloneOf : string;
  msg_CreatedAt : Time;
}.

Record compactFields := mkCompactFields {
  comp_ID : string;
  comp_Parent : string;
  comp_Summary : string;
  comp_CoveredFrom : string;
  comp_CoveredTo : string;
  comp_CreatedAt : Time;
}.

Record headFields := mkHeadFields { head_Tail : string; head_CreatedAt : Time }.
Record checkpointFields := mkCheckpointFields {
  ck_ID : string;
  ck_At : string;
  ck_Preview : string;
  ck_CreatedAt : Time;
}.
Record cursorFields := mkCursorFields { cur_MsgID : string; cur_CreatedAt : Time }.
Record metadataFields := mkMetadataFields { meta_SessionID : string; meta_CreatedAt : Time }.
Record workspaceFields := mkWorkspaceFields { ws_Path : string; ws_CreatedAt : Time }.
Record archivedFields := mkArchivedFields { arc_CreatedAt : Time }.

(** The Go struct [Record]: a kind and eight pointers. *)
Record Rec := mkRec {
  Kind : string;
  Msg : option msgFields;
  Comp : option compactFields;
  Head : option headFields;
  CK : option checkpointFields;
  Cur : option cursorFields;
  Meta : option metadataFields;
  Ws : option workspaceFields;
  Arc : option archivedFields;
}.

Definition kindMsg : string := "msg".
Definition kindCompact : string := "compact".
Definition kindHead : string := "head".
Definition kindCheckpoint : string := "checkpoint".
Definition kindCursor : string := "cursor".
Definition kindMetadata : string := "metadata".
Definition kindWorkspace : string := "workspace".
Definition kindArchived : string := "archived".

(** A record with the kind and no payload; [set_*] fill in one pointer. *)
Definition bare (k : string) : Rec := mkRec k None None None None None None None None.
Definition with_Msg (f : msgFields) (r : Rec) : Rec :=
  mkRec (Kind r) (Some f) (Comp r) (Head r) (CK r) (Cur r) (Meta r) (Ws r) (Arc r).

(** [switch r.Kind]: the case of the kind, or the default. *)
Definition by_kind {A} (k : string) (msg comp head ck cur meta ws arc dflt : A) : A :=
  if String.eqb k kindMsg then msg
  else if String.eqb k kindCompact then comp
  else if String.eqb k kindHead then head
  else if String.eqb k kindCheckpoint then ck
  else if String.eqb k kindCursor then cur
  else if String.eqb k kindMetadata then meta
  else if String.eqb k kindWorkspace then ws
  else if String.eqb k kindArchived then arc
  else dflt.

(** A field through a pointer, or its zero value. *)
Definition field {A B} (f : A -> B) (d : B) (p : option A) : B := match p with Some a => f a | None => d end.

Definition NodeID (r : Rec) : string :=
  by_kind (Kind r) (field msg_ID "" (Msg r)) (field comp_ID "" (Comp r)) "" (field ck_ID "" (CK r)) "" "" "" "" "".

Definition ParentID (r : Rec) : string :=
  by_kind (Kind r) (field msg_Parent "" (Msg r)) (field comp_Parent "" (Comp r)) "" "" "" "" "" "" "".

Definition Created (r : Rec) : Time :=
  by_kind (Kind r) (field msg_CreatedAt 0%Z (Msg r)) (field comp_CreatedAt 0%Z (Comp r))
    (field head_CreatedAt 0%Z (Head r)) (field ck_CreatedAt 0%Z (CK r)) (field cur_CreatedAt 0%Z (Cur r))
    (field meta_CreatedAt 0%Z (Meta r)) (field ws_CreatedAt 0%Z (Ws r)) (field arc_CreatedAt 0%Z (Arc r)) 0%Z.

(** *** The flat object *)

(** The local struct [flat] of [MarshalJSON], with its keys as field names. *)
Record flat := mkFlat {
  f_kind : string;
  f_id : string;
  f_parent : string;
  f_summary : string;
  f_role : string;
  f_content : string;
  f_tool_calls : list ToolCall;
  f_tool_call_id : string;
  f_thinking : string;
  f_custom : gmap string string;
  f_covered_from : string;
  f_covered_to : string;
  f_clone_of : string;
  f_tail : string;
  f_at : string;
  f_preview : string;
  f_msg_id : string;
  f_session_id : string;
  f_path : string;
  f_created_at : Time;
}.

(** [flat{Kind: r.Kind, CreatedAt: r.Created()}] *)
Definition flat0 (k : string) (t : Time) : flat :=
  mkFlat k "" "" "" "" "" [] "" "" ∅ "" "" "" "" "" "" "" "" "" t.

(** [MarshalJSON], up to [json.Marshal] of the struct. *)
Definition flatten (r : Rec) : flat :=
  let k := Kind r in
  let t := Created r in
  let f := flat0 k t in
  by_kind k
    (field (fun m => mkFlat k (msg_ID m) (msg_Parent m) "" (msg_Role m) (msg_Content m) (msg_ToolCalls m)
       (msg_ToolCallID m) (msg_Thinking m) (msg_Custom m) "" "" (msg_CloneOf m) "" "" "" "" "" "" t) f (Msg r))
    (field (fun c => mkFlat k (comp_ID c) (comp_Parent c) (comp_Summary c) "" "" [] "" "" ∅
       (comp_CoveredFrom c) (comp_CoveredTo c) "" "" "" "" "" "" "" t) f (Comp r))
    (field (fun h => mkFlat k "" "" "" "" "" [] "" "" ∅ "" "" "" (head_Tail h) "" "" "" "" "" t) f (Head r))
    (field (fun c => mkFlat k (ck_ID c) "" "" "" "" [] "" "" ∅ "" "" "" "" (ck_At c) (ck_Preview c) "" "" "" t) f (CK r))
    (field (fun c => mkFlat k "" "" "" "" "" [] "" "" ∅ "" "" "" "" "" "" (cur_MsgID c) "" "" t) f (Cur r))
    (field (fun m => mkFlat k "" "" "" "" "" [] "" "" ∅ "" "" "" "" "" "" "" (meta_SessionID m) "" t) f (Meta r))
    (field (fun w => mkFlat k "" "" "" "" "" [] "" "" ∅ "" "" "" "" "" "" "" "" (ws_Path w) t) f (Ws r))
    f f.

(** The keys each payload is read from. *)
Definition read_msg (f : flat) : msgFields :=
  mkMsgFields (f_id f) (f_parent f) (f_role f) (f_content f) (f_tool_calls f) (f_tool_call_id f) (f_thinking f)
    (f_custom f) (f_clone_of f) (f_created_at f).
Definition read_compact (f : flat) : compactFields :=
  mkCompactFields (f_id f) (f_parent f) (f_summary f) (f_covered_from f) (f_covered_to f) (f_created_at f).
Definition read_head (f : flat) : headFields := mkHeadFields (f_tail f) (f_created_at f).
Definition read_checkpoint (f : flat) : checkpointFields :=
  mkCheckpointFields (f_id f) (f_at f) (f_preview f) (f_created_at f).
Definition read_cursor (f : flat) : cursorFields := mkCursorFields (f_msg_id f) (f_created_at f).
Definition read_metadata (f : flat) : metadataFields := mkMetadataFields (f_session_id f) (f_created_at f).
Definition read_workspace (f : flat) : workspaceFields := mkWorkspaceFields (f_path f) (f_created_at f).
Definition read_archived (f : flat) : archivedFields := mkArchivedFields (f_created_at f).

(** [json.Marshal] of the flat struct and [json.Unmarshal] into each of the
    structs it is read as; the probe reads the kind. *)
Class RecordCodec := {
  marshal : flat -> option bytes;
  get_kind : bytes -> option string;
  get_msg : bytes -> option msgFields;
  get_compact : bytes -> option compactFields;
  get_head : bytes -> option headFields;
  get_checkpoint : bytes -> option checkpointFields;
  get_cursor : bytes -> option cursorFields;
  get_metadata : bytes -> option metadataFields;
  get_workspace : bytes -> option workspaceFields;
  get_archived : bytes -> option archivedFields;
}.

(** What is documented of them: an object is one line, each struct gets the
    values of its keys, omitted ones their zero values, and a proper prefix of
    an object is no JSON. *)
Class RecordLaws `{RecordCodec} := {
  one_line : forall f b, marshal f = Some b -> json_line b;
  kind_read : forall f b, marshal f = Some b -> get_kind b = Some (f_kind f);
  msg_read : forall f b, marshal f = Some b -> get_msg b = Some (read_msg f);
  compact_read : forall f b, marshal f = Some b -> get_compact b = Some (read_compact f);
  head_read : forall f b, marshal f = Some b -> get_head b = Some (read_head f);
  checkpoint_read : forall f b, marshal f = Some b -> get_checkpoint b = Some (read_checkpoint f);
  cursor_read : forall f b, marshal f = Some b -> get_cursor b = Some (read_cursor f);
  metadata_read : forall f b, marshal f = Some b -> get_metadata b = Some (read_metadata f);
  workspace_read : forall f b, marshal f = Some b -> get_workspace b = Some (read_workspace f);
  archived_read : forall f b, marshal f = Some b -> get_archived b = Some (read_archived f);
  prefix_bad : forall f b n, marshal f = Some b -> (n < length b)%nat -> get_kind (trim (take n b)) = None;
}.

Section codec.
Context `{RecordCodec}.

Definition MarshalJSON (r : Rec) : option bytes := marshal (flatten r).

Definition UnmarshalJSON (b : bytes) : option Rec :=
  k ← get_kind b;
  by_kind k
    (f ← get_msg b; Some (mkRec k (Some f) None None None None None None None))
    (f ← get_compact b; Some (mkRec k None (Some f) None None None None None None))
    (f ← get_head b; Some (mkRec k None None (Some f) None None None None None))
    (f ← get_checkpoint b; Some (mkRec k None None None (Some f) None None None None))
    (f ← get_cursor b; Some (mkRec k None None None None (Some f) None None None))
    (f ← get_metadata b; Some (mkRec k None None None None None (Some f) None None))
    (f ← get_workspace b; Some (mkRec k None None None None None None (Some f) None))
    (f ← get_archived b; Some (mkRec k None None None None None None None (Some f)))
    (Some (bare k)).
End codec.

(** *** Constructors *)

Definition newMsgRecord (id parent role content : string) (tc : list ToolCall) (toolCallID cloneOf : string)
    (created : Time) : Rec :=
  mkRec kindMsg (Some (mkMsgFields id parent role content tc toolCallID "" ∅ cloneOf created))
    None None None None None None None.
Definition newCompactRecord (id parent summary from to : string) (created : Time) : Rec :=
  mkRec kindCompact None (Some (mkCompactFields id parent summary from to created)) None None None None None None.
Definition newHeadRecord (tail : string) (created : Time) : Rec :=
  mkRec kindHead None None (Some (mkHeadFields tail created)) None None None None None.
Definition newCheckpointRecord (id at_ preview : string) (created : Time) : Rec :=
  mkRec kindCheckpoint None None None (Some (mkCheckpointFields id at_ preview created)) None None None None.
Definition newCursorRecord (msgID : string) (created : Time) : Rec :=
  mkRec kindCursor None None None None (Some (mkCursorFields msgID created)) None None None.
Definition newMetadataRecord (sessionID : string) (created : Time) : Rec :=
  mkRec kindMetadata None None None None None (Some (mkMetadataFields sessionID created)) None None.
Definition newWorkspaceRecord (path : string) (created : Time) : Rec :=
  mkRec kindWorkspace None None None None None None (Some (mkWorkspaceFields path created)) None.
Definition newArchivedRecord (created : Time) : Rec :=
  mkRec kindArchived None None None None None None None (Some (mkArchivedFields created)).

(** *** Records and messages *)

Definition recordToMessage (r : Rec) : Message :=
  match (if String.eqb (Kind r) kindCompact then Comp r else None) with
  | Some c => mkMessage "system" (comp_Summary c) "" [] "" ∅ (comp_ID c) (comp_CreatedAt c)
  | None =>
      match Msg r with
      | Some m => mkMessage (msg_Role m) (msg_Content m) (msg_ToolCallID m) (msg_ToolCalls m) (msg_Thinking m)
                    (msg_Custom m) (msg_ID m) (msg_CreatedAt m)
      | None => no_message
      end
  end.

(** [record.Msg.Thinking] and [record.Msg.Custom] are assigned after the call. *)
Definition set_extras (thinking : string) (custom : gmap string string) (r : Rec) : Rec :=
  match Msg r with
  | Some m => with_Msg (mkMsgFields (msg_ID m) (msg_Parent m) (msg_Role m) (msg_Content m) (msg_ToolCalls m)
      (msg_ToolCallID m) thinking custom (msg_CloneOf m) (msg_CreatedAt m)) r
  | None => r
  end.

Definition messageToRecord (m : Message) : Rec :=
  set_extras (Thinking m) (Custom m)
    (newMsgRecord (MsgID m) "" (Role m) (Content m) (ToolCalls m) (ToolCallID m) "" (CreatedAt m)).

Definition isRealMessage (m : Message) : bool :=
  negb (String.eqb (Role m) "system" && (2 <? slen (MsgID m))%Z && HasPrefix (MsgID m) "s_").

(** ** Typed records

    The kind names the one pointer that is set. *)
Inductive typed : Rec -> Prop :=
  | typed_msg f : typed (mkRec kindMsg (Some f) None None None None None None None)
  | typed_compact f : typed (mkRec kindCompact None (Some f) None None None None None None)
  | typed_head f : typed (mkRec kindHead None None (Some f) None None None None None)
  | typed_checkpoint f : typed (mkRec kindCheckpoint None None None (Some f) None None None None)
  | typed_cursor f : typed (mkRec kindCursor None None None None (Some f) None None None)
  | typed_metadata f : typed (mkRec kindMetadata None None None None None (Some f) None None)
  | typed_workspace f : typed (mkRec kindWorkspace None None None None None None (Some f) None)
  | typed_archived f : typed (mkRec kindArchived None None None None None None None (Some f)).

(** A kind that is none of the eight: a bare record. *)
Definition known (k : string) : bool := by_kind k true true true true true true true true false.

#[export] Hint Constructors typed : gow.

Lemma by_kind_unknown {A} k (a b c d e f g h i : A) : known k = false -> by_kind k a b c d e f g h i = i.
Proof.
  unfold known, by_kind.
  repeat match goal with |- context [String.eqb k ?x] => destruct (String.eqb k x); [done|] end. done.
Qed.

Lemma typed_extras thinking custom r : typed r -> typed (set_extras thinking custom r).
Proof. intros []; cbn; auto with gow. constructor. Qed.

Lemma typed_message m : typed (messageToRecord m).
Proof. constructor. Qed.

(** Reading a marshalled record gives the record, for each of the eight kinds. *)
Lemma unmarshal_marshal `{RecordLaws} r b : typed r -> MarshalJSON r = Some b -> UnmarshalJSON b = Some r.
Proof.
  intros Ht Hm. unfold MarshalJSON in Hm. unfold UnmarshalJSON. rewrite (kind_read _ _ Hm).
  destruct Ht as [[]|[]|[]|[]|[]|[]|[]|[]]; cbn [mbind option_bind];
    match goal with |- by_kind (f_kind (flatten ?r)) _ _ _ _ _ _ _ _ _ = _ =>
      change (f_kind (flatten r)) with (Kind r); cbn [Kind] end; unfold by_kind; cbn -[read_msg flatten];
    first [rewrite (msg_read _ _ Hm)|rewrite (compact_read _ _ Hm)|rewrite (head_read _ _ Hm)
      |rewrite (checkpoint_read _ _ Hm)|rewrite (cursor_read _ _ Hm)|rewrite (metadata_read _ _ Hm)
      |rewrite (workspace_read _ _ Hm)|rewrite (archived_read _ _ Hm)]; reflexivity.
Qed.

(** Whatever is read of any bytes is typed or of an unknown kind. *)
Lemma unmarshal_typed `{RecordCodec} b r : UnmarshalJSON b = Some r -> typed r \/ (known (Kind r) = false /\ r = bare (Kind r)).
Proof.
  unfold UnmarshalJSON. destruct (get_kind b) as [k|]; [cbn|done].
  destruct (known k) eqn:Hk; [|rewrite by_kind_unknown by done; intros [= <-]; auto].
  revert Hk. unfold known, by_kind.
  repeat match goal with |- context [String.eqb k ?x] =>
    destruct (String.eqb_spec k x) as [->|];
      [intros _; match goal with |- context [?g b ≫= _] => destruct (g b); [intros [= <-]; left; constructor|done] end|] end.
  done.
Qed.

(** ** A concrete codec *)

#[export] Instance ToolCall_eq_dec : EqDecision ToolCall.
Proof. solve_decision. Defined.
#[export] Instance ToolCall_countable : Countable ToolCall.
Proof.
  apply (inj_countable' (fun c => (ID c, Type_ c, Name c, Arguments c)) (fun '(a, b, c, d) => mkToolCall a b c d)).
  by intros [].
Defined.
#[export] Instance Message_eq_dec : EqDecision Message.
Proof. solve_decision. Defined.
#[export] Instance flat_eq_dec : EqDecision flat.
Proof. solve_decision. Defined.

(** The texts as one list: pairs would double the length of the code each. *)
Definition flat_texts (f : flat) : list string :=
  [f_kind f; f_id f; f_parent f; f_summary f; f_role f; f_content f; f_tool_call_id f; f_thinking f; f_covered_from f;
   f_covered_to f; f_clone_of f; f_tail f; f_at f; f_preview f; f_msg_id f; f_session_id f; f_path f].
Definition flat_of (ts : list string) (tc : list ToolCall) (cu : gmap string string) (t : Time) : option flat :=
  match ts with
  | [k; i; p; su; r; c; tci; th; cf; ct; cl; ta; at_; pr; mi; si; pa] =>
      Some (mkFlat k i p su r c tc tci th cu cf ct cl ta at_ pr mi si pa t)
  | _ => None
  end.
#[export] Instance flat_countable : Countable flat.
Proof.
  apply (inj_countable (fun f => (flat_texts f, (f_tool_calls f, f_custom f, f_created_at f)))
    (fun '(ts, (tc, cu, t)) => flat_of ts tc cu t)). by intros [].
Defined.

Definition flat_code (f : flat) : bytes := pos_digits (encode f).
Definition flat_decode (b : bytes) : option flat := digits_pos b ≫= fun p => (decode p : option flat).

Definition flat_codec : RecordCodec := {|
  marshal f := Some (flat_code f);
  get_kind b := f_kind <$> flat_decode b;
  get_msg b := read_msg <$> flat_decode b;
  get_compact b := read_compact <$> flat_decode b;
  get_head b := read_head <$> flat_decode b;
  get_checkpoint b := read_checkpoint <$> flat_decode b;
  get_cursor b := read_cursor <$> flat_decode b;
  get_metadata b := read_metadata <$> flat_decode b;
  get_workspace b := read_workspace <$> flat_decode b;
  get_archived b := read_archived <$> flat_decode b;
|}.

Lemma flat_decode_code f : flat_decode (flat_code f) = Some f.
Proof. unfold flat_decode, flat_code. rewrite digits_pos_digits. cbn [option_bind mbind]. apply decode_encode. Qed.

Lemma flat_laws : @RecordLaws flat_codec.
Proof.
  split; cbn [marshal get_kind get_msg get_compact get_head get_checkpoint get_cursor get_metadata get_workspace
    get_archived flat_codec]; intros f b; [|..|intros n]; intros [= <-]; rewrite ?flat_decode_code; try done.
  - apply json_digits.
  - intros Hn. unfold flat_decode, flat_code in *. by rewrite digits_prefix_trim.
Qed.
