(* ===== verification/SessionStore.v ===== *)
(** * ai-runtime/session: the store of one session

    [store.go] with [archiveview.go] and the parsing of [digest.go]: an
    append-only file of records; the nodes form a tree through their parents,
    the active view is the path from the head to the root, compaction puts a
    summary and copies of the kept messages beside the covered ones. The
    operations of a store hold its mutex and are functions here; the outcome of
    every I/O call, the clock and the random ids are arguments. *)

From S2P Require Import Prelude GoString JsonLines ScanJsonl SessionRecord.
#[local] Open Scope string_scope.
#[local] Open Scope list_scope.

Inductive store_error : Type :=
  | ErrDir
  | ErrStoreLocked
  | ErrLoad
  | ErrOpenFile
  | ErrRepair
  | ErrMarshal
  | ErrWrite
  | ErrEmptySession
  | ErrRange
  | ErrEmptyPath
  | ErrClose.

Record Metadata := mkMetadata { SessionID : string; MetaCreatedAt : Time }.

(** The summary type [Checkpoint]. *)
Record CheckpointInfo := mkCheckpointInfo {
  CkID : string;
  CkAt : string;
  CkPreview : string;
  CkCreatedAt : Time;
}.

(** [content]: the bytes of the data file; [file], [lock]: the handles are open. *)
Record Store := mkStore {
  content : bytes;
  file : bool;
  lock : bool;
  recs : list Rec;
  metadata : Metadata;
  head : string;
  cursor : string;
}.

Definition set_content (c : bytes) (s : Store) : Store :=
  mkStore c (file s) (lock s) (recs s) (metadata s) (head s) (cursor s).
Definition add_recs (rs : list Rec) (s : Store) : Store :=
  mkStore (content s) (file s) (lock s) (recs s ++ rs) (metadata s) (head s) (cursor s).
Definition set_head (h : string) (s : Store) : Store :=
  mkStore (content s) (file s) (lock s) (recs s) (metadata s) h (cursor s).
Definition set_cursor (c : string) (s : Store) : Store :=
  mkStore (content s) (file s) (lock s) (recs s) (metadata s) (head s) c.

(** How one append goes, and what a call gets from outside: the outcome of its
    appends, the readings of the clock, the random ids, by position. *)
Record aio := mkAio { a_write : write_result; a_sync : bool }.
Definition aio_ok : aio := mkAio WriteOk true.
Record env := mkEnv { ios : nat -> aio; clock : nat -> Time; ids : nat -> string }.

(** ** The tree *)

Definition is_node (r : Rec) : bool := String.eqb (Kind r) kindMsg || String.eqb (Kind r) kindCompact.

(** [byID]: the last record of an id. *)
Definition index (m : gmap string Rec) (r : Rec) : gmap string Rec := if is_node r then <[NodeID r := r]> m else m.
Definition nodes (rs : list Rec) : gmap string Rec := foldl index ∅ rs.

(** The loop from the head along the parents, with its set of visited nodes;
    the fuel bounds the iterations. *)
Fixpoint walk (byID : gmap string Rec) (fuel : nat) (visited : gset string) (cur : string) : list (string * Rec) :=
  match fuel with
  | O => []
  | S fuel' =>
      if String.eqb cur "" || bool_decide (cur ∈ visited) then []
      else match byID !! cur with
      | None => []
      | Some r => (cur, r) :: walk byID fuel' ({[cur]} ∪ visited) (ParentID r)
      end
  end.

(** The path from the root to the head. *)
Definition path (rs : list Rec) (hd : string) : list (string * Rec) :=
  rev (walk (nodes rs) (S (size (nodes rs))) ∅ hd).

Definition buildActiveView (rs : list Rec) (hd : string) : list Message :=
  if String.eqb hd "" then [] else recordToMessage <$> (path rs hd).*2.

(** The second result, the map of parents, has no reader. *)
Definition activePathIDs (s : Store) : list string := (path (recs s) (head s)).*1.

Definition ActiveView (s : Store) : list Message := buildActiveView (recs s) (head s).

(** ** Reading the records *)

Definition checkpoint_info (c : checkpointFields) : CheckpointInfo :=
  mkCheckpointInfo (ck_ID c) (ck_At c) (ck_Preview c) (ck_CreatedAt c).

(** The pointer that goes with the kind. *)
Definition payload {A} (k : string) (f : Rec -> option A) (r : Rec) : option A :=
  if String.eqb (Kind r) k then f r else None.

(** Latest first, at most [limit] when it is positive. *)
Definition checkpointsFromRecords (rs : list Rec) (limit : Z) : list CheckpointInfo :=
  let all := checkpoint_info <$> omap (payload kindCheckpoint CK) (rev rs) in
  if (0 <? limit)%Z then take (Z.to_nat limit) all else all.

Definition metadataFromRecords (rs : list Rec) : option Metadata :=
  match find_first (fun m => negb (String.eqb (meta_SessionID m) "")) (omap (payload kindMetadata Meta) rs) with
  | Some m => Some (mkMetadata (meta_SessionID m) (meta_CreatedAt m))
  | None => None
  end.

Definition workspaceFromRecords (rs : list Rec) : string :=
  match last (omap (payload kindWorkspace Ws) rs) with Some w => ws_Path w | None => "" end.

Definition archivedFromRecords (rs : list Rec) : bool :=
  existsb (fun r => match payload kindArchived Arc r with Some _ => true | None => false end) rs.

Definition firstNodeID (rs : list Rec) : string :=
  match find_first (fun r => is_node r && negb (String.eqb (NodeID r) "")) rs with Some r => NodeID r | None => "" end.

Definition timeFromRecords (rs : list Rec) : Time :=
  match find_first (fun t => negb (IsZero t)) (Created <$> rs) with Some t => t | None => 0%Z end.

Definition hasID (rs : list Rec) (id : string) : bool := existsb (fun r => is_node r && String.eqb (NodeID r) id) rs.

(** The backward scans of [Open]: the first non-empty value from the end. *)
Definition last_nonempty (f : Rec -> option string) (rs : list Rec) : string :=
  match find_last (fun x => negb (String.eqb x "")) (omap f rs) with Some x => x | None => "" end.

Definition last_head : list Rec -> string := last_nonempty (fun r => head_Tail <$> payload kindHead Head r).
Definition last_cursor : list Rec -> string := last_nonempty (fun r => cur_MsgID <$> payload kindCursor Cur r).

(** ** Operations *)

Section store.
Context `{RecordCodec}.
(** The hexadecimal digits of a SHA-256 sum. *)
Context (sha256 : bytes -> string).

Definition loadRecords (c : bytes) : option (list Rec * Z) := scanJSONL UnmarshalJSON c.

(** [appendRecord]: one write of the line, then the sync; a closed file refuses. *)
Definition appendRecord (o : aio) (r : Rec) (s : Store) : Store * option store_error :=
  match MarshalJSON r with
  | None => (s, Some ErrMarshal)
  | Some data =>
      if negb (file s) then (s, Some ErrWrite)
      else
        let '(c, ok) := file_write (a_write o) (content s) (data ++ [NL]) in
        (set_content c s, if ok && a_sync o then None else Some ErrWrite)
  end.

(** Append, and remember the record when that succeeded. *)
Definition append_rec (o : aio) (r : Rec) (s : Store) : Store * option store_error :=
  match appendRecord o r s with
  | (s, Some e) => (s, Some e)
  | (s, None) => (add_recs [r] s, None)
  end.

(** *** Committing *)

(** The record of a message: its parent and its time are the store's. *)
Definition commit_record (prev : string) (now : Time) (m : Message) : Rec :=
  let r := messageToRecord m in
  match Msg r with
  | Some f => with_Msg (mkMsgFields (msg_ID f) prev (msg_Role f) (msg_Content f) (msg_ToolCalls f) (msg_ToolCallID f)
      (msg_Thinking f) (msg_Custom f) (msg_CloneOf f) now) r
  | None => r
  end.

Definition stamp_time (now : Time) (m : Message) : Message :=
  if IsZero (CreatedAt m)
  then mkMessage (Role m) (Content m) (ToolCallID m) (ToolCalls m) (Thinking m) (Custom m) (MsgID m) now
  else m.

(** One message: its record and the head record are written before either is
    remembered. *)
Definition commit_one (oMsg oHead : aio) (now : Time) (prev : string) (m : Message) (s : Store)
  : Store * option store_error :=
  let r := commit_record prev now m in
  match appendRecord oMsg r s with
  | (s, Some e) => (s, Some e)
  | (s, None) =>
      let h := newHeadRecord (MsgID m) now in
      match appendRecord oHead h s with
      | (s, Some e) => (s, Some e)
      | (s, None) => (set_head (MsgID m) (add_recs [r; h] s), None)
      end
  end.

(** [i] is the position in the batch, [prev] the last message committed. *)
Fixpoint commit_from (e : env) (i : nat) (prev : string) (msgs : list Message) (s : Store)
  : Store * (list Message * option store_error) :=
  match msgs with
  | [] => (s, ([], None))
  | m :: ms =>
      if String.eqb (MsgID m) "" || hasID (recs s) (MsgID m) then commit_from e (S i) prev ms s
      else
        let now := clock e i in
        let m := stamp_time now m in
        match commit_one (ios e (2 * i)) (ios e (2 * i + 1)) now prev m s with
        | (s, Some err) => (s, ([], Some err))
        | (s, None) =>
            let '(s, (committed, err)) := commit_from e (S i) (MsgID m) ms s in (s, (m :: committed, err))
        end
  end.

Definition Commit (e : env) (msgs : list Message) (s : Store) : Store * (list Message * option store_error) :=
  commit_from e 0 (head s) msgs s.

(** *** Compaction *)

(** The last position of an id, as the loop over the path leaves it. *)
Fixpoint index_last (id : string) (l : list string) : option nat :=
  match l with
  | [] => None
  | x :: l' =>
      match index_last id l' with
      | Some i => Some (S i)
      | None => if String.eqb x id then Some O else None
      end
  end.

Definition clone_record (cloneID prev origID : string) (now : Time) (m : msgFields) : Rec :=
  set_extras (msg_Thinking m) (msg_Custom m)
    (newMsgRecord cloneID prev (msg_Role m) (msg_Content m) (msg_ToolCalls m) (msg_ToolCallID m) origID now).

(** The copies of the kept messages: the store, the map from the originals to
    the copies, the last copy. *)
Fixpoint clone_from (e : env) (now : Time) (byID : gmap string Rec) (j : nat) (prev : string)
    (cloneMap : gmap string string) (retain : list string) (s : Store)
  : Store * (gmap string string * string * option store_error) :=
  match retain with
  | [] => (s, (cloneMap, prev, None))
  | origID :: retain' =>
      match byID !! origID ≫= Msg with
      | None => clone_from e now byID (S j) prev cloneMap retain' s
      | Some m =>
          let cloneID := ids e j in
          match append_rec (ios e (S j)) (clone_record cloneID prev origID now m) s with
          | (s, Some err) => (s, (cloneMap, prev, Some err))
          | (s, None) => clone_from e now byID (S j) cloneID (<[origID := cloneID]> cloneMap) retain' s
          end
      end
  end.

Definition remapCursor (retainIDs : list string) (cloneMap : gmap string string) (lastClone : string) (s : Store) : Store :=
  if String.eqb (cursor s) "" then s
  else if existsb (String.eqb (cursor s)) retainIDs
  then match cloneMap !! cursor s with Some c => set_cursor c s | None => s end
  else if String.eqb (cursor s) (head s) then set_cursor lastClone s
  else s.

Definition Compact (e : env) (coveredFrom coveredTo summary : string) (s : Store) : Store * option store_error :=
  if String.eqb (head s) "" then (s, Some ErrEmptySession)
  else
    let activeIDs := activePathIDs s in
    match activeIDs with
    | [] => (s, Some ErrEmptySession)
    | _ =>
        match index_last coveredFrom activeIDs, index_last coveredTo activeIDs with
        | Some fromIdx, Some toIdx =>
            if (toIdx <? fromIdx)%nat then (s, Some ErrRange)
            else
              let compactParent := match fromIdx with O => "" | S p => nth p activeIDs "" end in
              let retainIDs := drop (S toIdx) activeIDs in
              let byID := nodes (recs s) in
              let compactID := "s_" +:+ coveredTo in
              let now := clock e 0 in
              match append_rec (ios e 0) (newCompactRecord compactID compactParent summary coveredFrom coveredTo now) s with
              | (s, Some err) => (s, Some err)
              | (s, None) =>
                  match clone_from e now byID 0 compactID ∅ retainIDs s with
                  | (s, (_, _, Some err)) => (s, Some err)
                  | (s, (cloneMap, prevClone, None)) =>
                      let s := remapCursor retainIDs cloneMap prevClone s in
                      let newHead := prevClone in
                      match append_rec (ios e (S (length retainIDs))) (newHeadRecord newHead now) s with
                      | (s, Some err) => (s, Some err)
                      | (s, None) => (set_head newHead s, None)
                      end
                  end
              end
        | _, _ => (s, Some ErrRange)
        end
    end.

(** *** Head, checkpoints, cursor, declarations *)

Definition SetHead (e : env) (atID : string) (s : Store) : Store * option store_error :=
  match append_rec (ios e 0) (newHeadRecord atID (clock e 0)) s with
  | (s, Some err) => (s, Some err)
  | (s, None) => (set_head atID s, None)
  end.

Definition Checkpoint (e : env) (preview : string) (s : Store) : Store * option store_error :=
  if String.eqb (head s) "" then (s, Some ErrEmptySession)
  else append_rec (ios e 0) (newCheckpointRecord ("ck_" +:+ head s) (head s) preview (clock e 0)) s.

Definition Checkpoints (limit : Z) (s : Store) : list CheckpointInfo := checkpointsFromRecords (recs s) limit.

(** The messages behind the first one with the id, or all of them. *)
Fixpoint after_id (id : string) (msgs : list Message) : option (list Message) :=
  match msgs with
  | [] => None
  | m :: ms => if String.eqb (MsgID m) id then Some ms else after_id id ms
  end.

Definition PendingAfterCursor (s : Store) : list Message :=
  let realMsgs := List.filter (fun m => negb (String.eqb (MsgID m) "") && isRealMessage m) (ActiveView s) in
  if String.eqb (cursor s) "" then realMsgs
  else match after_id (cursor s) realMsgs with Some ms => ms | None => realMsgs end.

Definition AdvanceCursor (e : env) (id : string) (s : Store) : Store * option store_error :=
  match append_rec (ios e 0) (newCursorRecord id (clock e 0)) s with
  | (s, Some err) => (s, Some err)
  | (s, None) => (set_cursor id s, None)
  end.

Definition DeclareWorkspace (e : env) (p : string) (s : Store) : Store * option store_error :=
  if String.eqb p "" then (s, Some ErrEmptyPath)
  else append_rec (ios e 0) (newWorkspaceRecord p (clock e 0)) s.

Definition Workspace (s : Store) : string := workspaceFromRecords (recs s).

Definition MarkArchived (e : env) (s : Store) : Store * option store_error :=
  if archivedFromRecords (recs s) then (s, None)
  else append_rec (ios e 0) (newArchivedRecord (clock e 0)) s.

Definition Archived (s : Store) : bool := archivedFromRecords (recs s).

(** *** Opening and closing *)

(** The outcomes of the calls of [Open], in their order: directory and its
    permissions, the lock, the file, truncation, its sync, reading the file
    again, appending the metadata. *)
Record open_io := mkOpenIO {
  o_dir : bool;
  o_lock : bool;
  o_file : bool;
  o_trunc : bool;
  o_sync : bool;
  o_read : bool;
  o_append : aio;
}.
Definition open_ok : open_io := mkOpenIO true true true true true true aio_ok.

Definition legacySessionID (firstID : string) (c : bytes) : string :=
  let seed := if String.eqb firstID "" then sha256 c else firstID in
  "legacy_" +:+ String.substring 0 16 (sha256 (list_ascii_of_string seed)).

(** The content of the file afterwards, and the store or the error. *)
Definition Open (o : open_io) (now : Time) (newSessionID : string) (c : bytes) : bytes * result store_error Store :=
  if negb (o_dir o) then (c, Err ErrDir)
  else if negb (o_lock o) then (c, Err ErrStoreLocked)
  else match loadRecords c with
  | None => (c, Err ErrLoad)
  | Some (rs, good) =>
      if negb (o_file o) then (c, Err ErrOpenFile)
      else if (good <? blen c)%Z && negb (o_trunc o) then (c, Err ErrRepair)
      else
        let torn := (good <? blen c)%Z in
        let c := repair c good in
        if torn && negb (o_sync o) then (c, Err ErrRepair)
        else
          let opened := fun rs meta c => mkStore c true true rs meta (last_head rs) (last_cursor rs) in
          match metadataFromRecords rs with
          | Some meta => (c, Ok (opened rs meta c))
          | None =>
              let data := if o_read o then c else [] in
              let firstID := firstNodeID rs in
              let sid := if String.eqb firstID "" && (blen data =? 0)%Z then newSessionID
                         else legacySessionID firstID data in
              let r := newMetadataRecord sid now in
              match appendRecord (o_append o) r (mkStore c true true rs (mkMetadata sid now) "" "") with
              | (s, Some _) => (content s, Err ErrWrite)
              | (s, None) => (content s, Ok (opened (rs ++ [r]) (mkMetadata sid now) (content s)))
              end
          end
  end.

(** [oClose]: closing the file, [oLock]: releasing the lock; idempotent. *)
Definition Close (oClose oLock : bool) (s : Store) : Store * option store_error :=
  if file s && negb oClose
  then (mkStore (content s) (file s) false (recs s) (metadata s) (head s) (cursor s), Some ErrClose)
  else
    let s' := mkStore (content s) false false (recs s) (metadata s) (head s) (cursor s) in
    (s', if lock s && negb oLock then Some ErrClose else None).

(** *** Read-only views *)

Record ArchiveView := mkArchiveView { av_recs : list Rec; av_head : string; av_metadata : Metadata }.

(** The last head record, also an empty one. *)
Definition archive_head (rs : list Rec) : string :=
  match last (omap (payload kindHead Head) rs) with Some h => head_Tail h | None => "" end.

Definition resolve_metadata (rs : list Rec) (data : bytes) : Metadata :=
  match metadataFromRecords rs with
  | Some m => m
  | None => mkMetadata (legacySessionID (firstNodeID rs) data) (timeFromRecords rs)
  end.

(** [c]: the file, if it is there; [readable]: the second reading succeeds. *)
Definition OpenArchiveView (readable : bool) (c : option bytes) : result store_error ArchiveView :=
  match c with
  | None => Err ErrLoad
  | Some c =>
      match loadRecords c with
      | None => Err ErrLoad
      | Some (rs, _) => Ok (mkArchiveView rs (archive_head rs) (resolve_metadata rs (if readable then c else [])))
      end
  end.

Definition archive_ActiveView (v : ArchiveView) : list Message := buildActiveView (av_recs v) (av_head v).

Record SessionDigest := mkSessionDigest {
  DigestMetadata : Metadata;
  FirstUserText : string;
  DigestWorkspace : string;
  DigestArchived : bool;
  ModTime : Time;
}.

Definition first_user (rs : list Rec) : string :=
  match find_first (fun m => String.eqb (msg_Role m) "user") (omap (payload kindMsg Msg) rs) with
  | Some m => msg_Content m
  | None => ""
  end.

(** [modTime]: the result of the [Stat] at the end. *)
Definition digestFromPath (readable : bool) (modTime : option Time) (c : option bytes) : option SessionDigest :=
  match loadRecords (match c with Some c => c | None => [] end) with
  | None => None
  | Some (rs, _) =>
      let digest m := mkSessionDigest m (first_user rs) (workspaceFromRecords rs) (archivedFromRecords rs)
        (match modTime with Some t => t | None => 0%Z end) in
      match metadataFromRecords rs with
      | Some m => Some (digest m)
      | None =>
          match (if readable then c else None) with
          | None => None
          | Some data =>
              if String.eqb (firstNodeID rs) "" && (blen data =? 0)%Z then None
              else Some (digest (resolve_metadata rs data))
          end
      end
  end.
End store.

(** ** File names *)

Definition legacyDataFileName : string := "current.jsonl".

Definition isLowerHex (s : string) : bool :=
  negb (String.eqb s "") &&
  forallb (fun c => in_range 48 57 (rune c) || in_range 97 102 (rune c)) (list_ascii_of_string s).

Definition sessionShapedBasename (name : string) : bool :=
  existsb (fun p => HasPrefix name p && isLowerHex (string_drop (String.length p) name)) ["session_"; "legacy_"].

Definition newDataFileName (base : string) : string :=
  if sessionShapedBasename base then base +:+ ".jsonl" else legacyDataFileName.

(** [base]: the name of the directory; the result is the name in it. *)
Definition resolveDataFilePath (exists_ : string -> bool) (base : string) : string :=
  if negb (sessionShapedBasename base) then legacyDataFileName
  else
    let v2 := base +:+ ".jsonl" in
    if exists_ v2 then v2 else if exists_ legacyDataFileName then legacyDataFileName else v2.

(** ** Detecting a compaction *)

(** The first and the last id of a covered segment, if both have one. *)
Definition covered_ends (summary : string) (covered : list Message) : option (string * string * string) :=
  match covered !! O, last covered with
  | Some a, Some b =>
      if String.eqb (MsgID a) "" || String.eqb (MsgID b) "" then None else Some (MsgID a, MsgID b, summary)
  | _, _ => None
  end.

Definition DetectCompact (oldView newConv : list Message) : option (string * string * string) :=
  match newConv with
  | [] => None
  | first :: _ =>
      if (length oldView <=? length newConv)%nat then None
      else if negb (String.eqb (Role first) "system") then None
      else
        let summary := Content first in
        let newIDs := List.filter (fun id => negb (String.eqb id "")) (MsgID <$> newConv) in
        let kept m := negb (String.eqb (MsgID m) "") && bool_decide (MsgID m ∈ newIDs) in
        match list_find (fun m => kept m = true) oldView with
        | None => covered_ends summary oldView
        | Some (i, _) => covered_ends summary (take i oldView)
        end
  end.
