(* ===== verification/SessionTree.v ===== *)
(** * The tree of a session file

    Lemmas on the index of nodes, the loop along the parents and well-formed
    trees: every parent exists and some rank grows along every edge. *)

From S2P Require Import Prelude GoString JsonLines ScanJsonl SessionRecord SessionStore.
#[local] Open Scope string_scope.
#[local] Open Scope list_scope.

(** ** The index *)

Lemma nodes_app rs rs' : nodes (rs ++ rs') = foldl index (nodes rs) rs'.
Proof. unfold nodes. by rewrite foldl_app. Qed.

Lemma nodes_snoc rs r : nodes (rs ++ [r]) = index (nodes rs) r.
Proof. by rewrite nodes_app. Qed.

Lemma index_skip m r : is_node r = false -> index m r = m.
Proof. unfold index. by intros ->. Qed.

Lemma index_node m r : is_node r = true -> index m r = <[NodeID r := r]> m.
Proof. unfold index. by intros ->. Qed.

Lemma nodes_lookup_node rs id r : nodes rs !! id = Some r -> is_node r = true /\ NodeID r = id /\ r ∈ rs.
Proof.
  induction rs as [|x rs IH] using rev_ind; [done|]. rewrite nodes_snoc. unfold index.
  destruct (is_node x) eqn:Hx.
  - rewrite lookup_insert_Some. intros [[<- <-]|[_ Hl]]; [set_solver|]. destruct (IH Hl) as (? & ? & ?). set_solver.
  - intros Hl. destruct (IH Hl) as (? & ? & ?). set_solver.
Qed.

Lemma hasID_nodes rs id : hasID rs id = true <-> is_Some (nodes rs !! id).
Proof.
  unfold hasID. induction rs as [|x rs IH] using rev_ind.
  - cbn. split; [done|by intros [? ?]].
  - rewrite existsb_app, nodes_snoc, orb_true_iff, IH. cbn. rewrite orb_false_r. unfold index.
    destruct (is_node x); cbn; [|naive_solver]. rewrite lookup_insert_is_Some.
    destruct (String.eqb_spec (NodeID x) id); naive_solver.
Qed.

Lemma hasID_false rs id : hasID rs id = false <-> nodes rs !! id = None.
Proof.
  rewrite <- not_true_iff_false, hasID_nodes, <- eq_None_not_Some. done.
Qed.

(** ** The loop ends

    Each round visits a node of the index that was not visited: after as many
    rounds as there are nodes the fuel does not matter, whatever the records
    are, and nothing is visited twice. *)

Lemma walk_visited m n v c : Forall (fun p => p.1 ∉ v) (walk m n v c).
Proof.
  revert v c. induction n as [|n IH]; intros v c; cbn; [constructor|].
  destruct (String.eqb c ""); cbn; [constructor|].
  case_bool_decide as Hv; [constructor|]. destruct (m !! c) as [r|]; [|constructor].
  constructor; [done|]. eapply Forall_impl; [apply IH|]. cbn. set_solver.
Qed.

Lemma walk_nodup m n v c : NoDup (walk m n v c).*1.
Proof.
  revert v c. induction n as [|n IH]; intros v c; cbn; [constructor|].
  destruct (String.eqb c "" || bool_decide (c ∈ v)); cbn; [constructor|].
  destruct (m !! c) as [r|]; [|constructor]. cbn. constructor; [|apply IH].
  intros Hin. apply list_elem_of_fmap in Hin as (p & E & Hin).
  pose proof (walk_visited m n ({[c]} ∪ v) (ParentID r)) as Hf. rewrite Forall_forall in Hf.
  apply Hf in Hin. rewrite <- E in Hin. set_solver.
Qed.

Lemma walk_lookup m n v c : Forall (fun p => m !! p.1 = Some p.2) (walk m n v c).
Proof.
  revert v c. induction n as [|n IH]; intros v c; cbn; [constructor|].
  destruct (String.eqb c "" || bool_decide (c ∈ v)); cbn; [constructor|].
  destruct (m !! c) as [r|] eqn:E; constructor; [done|apply IH].
Qed.

Lemma walk_fuel m n v c : (size (dom m ∖ v) < n)%nat -> walk m n v c = walk m (S n) v c.
Proof.
  revert v c. induction n as [|n IH]; intros v c Hn; [lia|].
  change (walk m (S (S n)) v c) with
    (if String.eqb c "" || bool_decide (c ∈ v) then [] else
     match m !! c with None => [] | Some r => (c, r) :: walk m (S n) ({[c]} ∪ v) (ParentID r) end).
  cbn [walk]. destruct (String.eqb c ""); cbn; [done|]. case_bool_decide as Hv; [done|].
  destruct (m !! c) as [r|] eqn:E; [|done]. f_equal. rewrite IH; [done|].
  assert (Hc : c ∈ dom m ∖ v) by (apply elem_of_difference; split; [by apply elem_of_dom|done]).
  assert (size (dom m ∖ ({[c]} ∪ v)) < size (dom m ∖ v))%nat; [|lia].
  apply subset_size. set_solver.
Qed.

Lemma walk_enough m n v c : (size m < n)%nat -> walk m n v c = walk m (S (size m)) v c.
Proof.
  intros Hn. assert (Hs : (size (dom m ∖ v) <= size m)%nat).
  { rewrite <- size_dom. apply subseteq_size. set_solver. }
  induction n as [|n IH]; [lia|]. destruct (decide (n = size m)) as [->|]; [done|].
  rewrite <- walk_fuel by lia. apply IH. lia.
Qed.

(** What the loop computes: each node, then its parent, until the root, an
    unknown node or a repetition. *)
Lemma walk_unfold m v c :
  walk m (S (size m)) v c =
    if String.eqb c "" || bool_decide (c ∈ v) then []
    else match m !! c with
    | None => []
    | Some r => (c, r) :: walk m (S (size m)) ({[c]} ∪ v) (ParentID r)
    end.
Proof. rewrite <- (walk_enough m (S (S (size m)))) by lia. done. Qed.

(** ** Paths *)

(** [l] is the path from the root to [id]. *)
Inductive rooted (m : gmap string Rec) : string -> list (string * Rec) -> Prop :=
  | rooted_root : rooted m "" []
  | rooted_node id r l : id <> "" -> m !! id = Some r -> rooted m (ParentID r) l -> rooted m id (l ++ [(id, r)]).

Lemma rooted_fun m id l l' : rooted m id l -> rooted m id l' -> l = l'.
Proof.
  intros H. revert l'. induction H as [|id r l Hne Hm _ IH]; intros l' H'; inversion H'; simplify_eq; try done.
  f_equal. by apply IH.
Qed.

Lemma rooted_mono m m' id l : m ⊆ m' -> rooted m id l -> rooted m' id l.
Proof. intros Hs. induction 1; econstructor; eauto using lookup_weaken. Qed.

(** A well-formed tree. *)
Record wf_nodes (m : gmap string Rec) : Prop := {
  w_empty : m !! "" = None;
  w_rank : exists rk : string -> nat, forall id r, m !! id = Some r ->
    ParentID r = "" \/ (is_Some (m !! ParentID r) /\ (rk (ParentID r) < rk id)%nat);
}.

Definition known_node (m : gmap string Rec) (id : string) : Prop := id = "" \/ is_Some (m !! id).

Lemma wf_rooted m id : wf_nodes m -> known_node m id -> exists l, rooted m id l /\ NoDup l.*1.
Proof.
  intros [He [rk Hrk]]. 
  assert (forall n id, (rk id < n)%nat -> known_node m id ->
    exists l, rooted m id l /\ NoDup l.*1 /\ Forall (fun p => (rk p.1 <= rk id)%nat) l) as H.
  { induction n as [|n IH]; intros i Hn Hk; [lia|]. destruct Hk as [->|[r Hr]].
    - exists []. split_and!; constructor.
    - assert (i <> "") as Hi by congruence.
      destruct (Hrk _ _ Hr) as [Hp|[Hp Hlt]].
      + exists ([] ++ [(i, r)]). split_and!; [|cbn; constructor; [set_solver|constructor]|repeat constructor].
        apply rooted_node; [done|done|]. rewrite Hp. constructor.
      + destruct (IH (ParentID r) ltac:(lia) (or_intror Hp)) as (l & Hl & Hd & Hf).
        exists (l ++ [(i, r)]). split_and!.
        * by apply rooted_node.
        * rewrite fmap_app. apply NoDup_app. split_and!; [done| |apply NoDup_singleton].
          intros x Hx Hx'. cbn in Hx'. apply list_elem_of_singleton in Hx' as ->.
          apply list_elem_of_fmap in Hx as ([i' r'] & E & Hin). cbn in E. subst.
          rewrite Forall_forall in Hf. apply Hf in Hin. cbn in Hin. lia.
        * apply Forall_app. split; [eapply Forall_impl; [exact Hf|]; cbn; lia|]. by constructor. }
  intros Hk. destruct (H (S (rk id)) id ltac:(lia) Hk) as (l & ? & ? & _). eauto.
Qed.

Lemma rooted_subset m id l : rooted m id l -> list_to_set l.*1 ⊆ dom m.
Proof.
  induction 1 as [|id r l _ Hr _ IH]; cbn; [set_solver|]. rewrite fmap_app, list_to_set_app_L. cbn.
  apply elem_of_dom_2 in Hr. set_solver.
Qed.

Lemma walk_rooted m id l n v :
  rooted m id l -> NoDup l.*1 -> (length l < n)%nat -> (forall x, x ∈ l.*1 -> x ∉ v) -> walk m n v id = rev l.
Proof.
  intros H. revert n v. induction H as [|id r l Hne Hr Hl IH]; intros n v Hd Hn Hv; (destruct n as [|n]; [cbn in *; lia|]); [done|].
  rewrite rev_app_distr. cbn. rewrite (proj2 (String.eqb_neq _ _) Hne). cbn.
  rewrite length_app in Hn. rewrite fmap_app in Hd, Hv. apply NoDup_app in Hd as (Hd & Hd' & _). cbn in *.
  rewrite bool_decide_false by (apply Hv; set_solver). rewrite Hr. f_equal. apply IH; [done|lia|].
  intros x Hx. specialize (Hd' x Hx). specialize (Hv x). set_solver.
Qed.

(** The path the loop finds is the path of the tree. *)
Lemma path_rooted rs id l : rooted (nodes rs) id l -> NoDup l.*1 -> path rs id = l.
Proof.
  intros Hr Hd. unfold path. rewrite (walk_rooted _ _ l) ; [apply rev_involutive|done|done| |set_solver].
  pose proof (subseteq_size _ _ (rooted_subset _ _ _ Hr)) as Hs.
  rewrite size_dom, size_list_to_set, length_fmap in Hs by done. lia.
Qed.

Lemma view_path rs id : id <> "" -> buildActiveView rs id = recordToMessage <$> (path rs id).*2.
Proof. intros H. unfold buildActiveView. by rewrite (proj2 (String.eqb_neq _ _) H). Qed.

Lemma view_rooted rs id l : rooted (nodes rs) id l -> NoDup l.*1 -> buildActiveView rs id = recordToMessage <$> l.*2.
Proof.
  intros Hr Hd. destruct (decide (id = "")) as [->|Hne].
  - inversion Hr as [|? ? ? Hne']; simplify_eq; done.
  - rewrite view_path by done. by rewrite (path_rooted _ _ l).
Qed.

(** ** Growing the tree *)

Lemma rooted_snoc m id r l :
  m !! id = None -> id <> "" -> rooted m (ParentID r) l -> rooted (<[id := r]> m) id (l ++ [(id, r)]).
Proof.
  intros Hn Hne Hr. apply rooted_node; [done|apply lookup_insert_eq|]. eapply rooted_mono; [|exact Hr].
  by apply insert_subseteq.
Qed.

Lemma wf_nodes_add m id r :
  wf_nodes m -> id <> "" -> m !! id = None -> known_node m (ParentID r) -> wf_nodes (<[id := r]> m).
Proof.
  intros [He [rk Hrk]] Hne Hn Hk. split; [by rewrite lookup_insert_ne|].
  exists (fun x => if decide (x = id) then S (rk (ParentID r)) else rk x).
  intros i x. rewrite lookup_insert_Some. intros [[<- <-]|[Hi Hx]].
  - destruct Hk as [->|Hk]; [by left|]. right. split; [by apply lookup_insert_is_Some'; right|].
    rewrite decide_False; [rewrite decide_True by done; lia|].
    intros E. rewrite E in Hk. rewrite Hn in Hk. by destruct Hk.
  - destruct (Hrk _ _ Hx) as [->|[Hp Hlt]]; [by left|]. right. split; [by apply lookup_insert_is_Some'; right|].
    rewrite (decide_False (P := i = id)) by done. rewrite decide_False; [done|].
    intros E. rewrite E in Hp. rewrite Hn in Hp. by destruct Hp.
Qed.

Lemma known_node_mono m m' id : m ⊆ m' -> known_node m id -> known_node m' id.
Proof. intros Hs [->|[r Hr]]; [by left|right]. exists r. by eapply lookup_weaken. Qed.

Lemma wf_nodes_empty : wf_nodes ∅.
Proof. split; [done|]. exists (fun _ => O). intros id r. by rewrite lookup_empty. Qed.

(** [l] follows the parents from [c] up to [stop]. *)
Fixpoint follows (m : gmap string Rec) (c : string) (l : list (string * Rec)) (stop : string) : Prop :=
  match l with
  | [] => stop = c
  | (id, r) :: l' => id = c /\ m !! id = Some r /\ follows m (ParentID r) l' stop
  end.

Lemma walk_follows m n v c :
  (size (dom m ∖ v) < n)%nat ->
  exists stop, follows m c (walk m n v c) stop /\ (stop = "" \/ m !! stop = None \/ stop ∈ v \/ stop ∈ (walk m n v c).*1).
Proof.
  revert v c. induction n as [|n IH]; intros v c Hn; [lia|]. cbn [walk].
  destruct (String.eqb_spec c "") as [->|Hne]; cbn [orb]; [exists ""; split; [done|by left]|].
  case_bool_decide as Hv; [exists c; split; [done|auto]|].
  destruct (m !! c) as [r|] eqn:E; [|exists c; split; [done|auto]].
  assert (Hc : c ∈ dom m ∖ v) by (apply elem_of_difference; split; [by apply elem_of_dom|done]).
  assert (Hs : (size (dom m ∖ ({[c]} ∪ v)) < size (dom m ∖ v))%nat) by (apply subset_size; set_solver).
  destruct (IH ({[c]} ∪ v) (ParentID r) ltac:(lia)) as (stop & Hf & Hstop). exists stop. cbn. split; [done|].
  destruct Hstop as [?|[?|[Hin|?]]]; auto; [|by right; right; right; right].
  apply elem_of_union in Hin as [->%elem_of_singleton|?]; [|auto]. right; right; right. by left.
Qed.
