(* ===== verification/SessionOps.v ===== *)
(** * The operations of a session store as lists of records

    Every operation appends a list of records, its plan, and stops at the first
    append that fails. What the file holds afterwards, also torn in the middle
    of a record, and what is remembered are prefixes of the plan. *)

From S2P Require Import Prelude GoString JsonLines ScanJsonl SessionRecord SessionStore SessionTree.
#[local] Open Scope string_scope.
#[local] Open Scope list_scope.

(** ** Files *)

Section file.
Context `{RecordLaws}.

(** A typed record whose line the scanner can read. *)
Definition storable (r : Rec) : Prop := typed r /\ forall b, MarshalJSON r = Some b -> (blen b < maxLine)%Z.

Definition line_of (b : bytes) (r : Rec) : Prop := MarshalJSON r = Some b /\ storable r.

(** The file is the lines of the records. *)
Definition clean (c : bytes) (rs : list Rec) : Prop := exists bs, c = unlines bs /\ Forall2 line_of bs rs.

(** What is read of a file, and the file after its repair. *)
Definition reads (c : bytes) (rs : list Rec) (c' : bytes) : Prop :=
  exists good, loadRecords c = Some (rs, good) /\ repair c good = c'.

Lemma line_of_ok b r : line_of b r -> line_ok b /\ UnmarshalJSON b = Some r.
Proof.
  intros [Hm [Ht Hs]]. split; [|by apply unmarshal_marshal].
  apply json_line_ok; [by eapply one_line|by apply Hs].
Qed.

Lemma lines_of_ok bs rs : Forall2 line_of bs rs -> Forall2 (fun b r => line_ok b /\ UnmarshalJSON b = Some r) bs rs.
Proof. induction 1; constructor; eauto using line_of_ok. Qed.

Lemma clean_nil : clean [] [].
Proof. by exists []. Qed.

Lemma clean_reads c rs : clean c rs -> reads c rs c.
Proof.
  intros (bs & -> & Hbs). exists (blen (unlines bs)).
  pose proof (scanJSONL_spec _ _ _ [] (lines_of_ok _ _ Hbs) (torn_nil _)) as Hs. rewrite app_nil_r in Hs.
  split; [done|]. pose proof (repair_spec bs []) as Hr. by rewrite app_nil_r in Hr.
Qed.

Lemma clean_snoc c rs b r : clean c rs -> line_of b r -> clean (c ++ b ++ [NL]) (rs ++ [r]).
Proof.
  intros (bs & -> & Hbs) Hl. exists (bs ++ [b]). rewrite unlines_snoc. split; [done|].
  apply Forall2_app; [done|]. by constructor.
Qed.

Lemma torn_reads c rs b r n : clean c rs -> line_of b r -> (n < length b)%nat -> reads (c ++ take n b) rs c.
Proof.
  intros (bs & -> & Hbs) [Hm [_ Hs]] Hn. exists (blen (unlines bs)). split; [|apply repair_spec].
  destruct (one_line _ _ Hm) as (Hnl & Hcr & _). apply scanJSONL_spec; [by apply lines_of_ok|]. split.
  - intros Hin. apply Hnl. by apply (subseteq_take n b).
  - intros Hin. apply Hcr. by apply (subseteq_take n b).
  - specialize (Hs _ Hm). unfold blen in *. rewrite length_take. lia.
  - right. unfold UnmarshalJSON. by rewrite (prefix_bad _ _ _ Hm Hn).
Qed.

Lemma unterminated_reads c rs b r : clean c rs -> line_of b r -> reads (c ++ b) (rs ++ [r]) (c ++ b).
Proof.
  intros (bs & -> & Hbs) Hl. destruct (line_of_ok _ _ Hl) as [Hok Hu]. exists (blen (unlines bs ++ b)).
  split; [apply scanJSONL_unterminated; [by apply lines_of_ok|done..]|]. unfold repair. by rewrite Z.ltb_irrefl.
Qed.

(** However many bytes of a line were written, the reader finds the records
    before it, or it too; the repaired file is clean unless it ends with the
    whole record but not its newline. *)
Lemma partial_reads c rs b r n :
  clean c rs -> line_of b r ->
  exists c', (reads (c ++ take n (b ++ [NL])) rs c' /\ clean c' rs) \/
    (reads (c ++ take n (b ++ [NL])) (rs ++ [r]) c' /\ (complete c' -> clean c' (rs ++ [r]))).
Proof.
  intros Hc Hl. destruct (decide (n < length b)%nat) as [Hn|Hn]; [|destruct (decide (n = length b)) as [->|Hne]].
  - exists c. left. rewrite take_app_le by lia. split; [by eapply torn_reads|done].
  - exists (c ++ b). right. rewrite take_app_length. split; [by apply unterminated_reads|].
    intros Hcomp. exfalso. destruct Hc as (bs & -> & Hbs). destruct (line_of_ok _ _ Hl) as [Hok _].
    unfold complete in Hcomp. rewrite lines_complete_app in Hcomp.
    + rewrite (lines_no_nl b) in Hcomp by apply (l_nl _ Hok). cbn in Hcomp. by apply (l_full _ Hok).
    + unfold complete. rewrite lines_unlines; [done|].
      apply lines_of_ok in Hbs. clear -Hbs. induction Hbs as [|? ? ? ? [Hk _]]; constructor; [apply (l_nl _ Hk)|done].
  - exists (c ++ b ++ [NL]). right. rewrite take_ge by (rewrite length_app; cbn; lia).
    pose proof (clean_snoc _ _ _ _ Hc Hl). split; [by apply clean_reads|done].
Qed.

(** *** Attempts to write a list of records *)

(** The number is a lower bound on the whole lines. *)
Inductive wrote : bytes -> list Rec -> nat -> bytes -> Prop :=
  | wrote_stop c rs : wrote c rs 0 c
  | wrote_part c b r rs n : MarshalJSON r = Some b -> wrote c (r :: rs) 0 (c ++ take n (b ++ [NL]))
  | wrote_line c b r rs k k' c' :
      MarshalJSON r = Some b -> wrote (c ++ b ++ [NL]) rs k c' -> (k' <= S k)%nat -> wrote c (r :: rs) k' c'.

(** The reader finds a prefix of the list behind what was there. *)
Lemma wrote_reads c rs plan k c' :
  clean c rs -> Forall storable plan -> wrote c plan k c' ->
  exists n c2, (k <= n <= length plan)%nat /\ reads c' (rs ++ take n plan) c2 /\ (complete c2 -> clean c2 (rs ++ take n plan)).
Proof.
  intros Hc Hp Hw. revert rs Hc Hp. induction Hw as [c plan|c b r plan n Hm|c b r plan k k' c' Hm _ IH Hk]; intros rs Hc Hp.
  - exists O, c. rewrite take_0, app_nil_r. split_and!; [lia|lia|by apply clean_reads|done].
  - apply Forall_cons in Hp as [Hr _]. destruct (partial_reads c rs b r n Hc (conj Hm Hr)) as (c2 & [[H1 H2]|[H1 H2]]).
    + exists O, c2. rewrite take_0, app_nil_r. split_and!; [lia|lia|done|done].
    + exists 1%nat, c2. cbn. rewrite take_0. split_and!; [lia|lia|done|done].
  - apply Forall_cons in Hp as [Hr Hp]. destruct (IH (rs ++ [r]) (clean_snoc _ _ _ _ Hc (conj Hm Hr)) Hp) as (n & c2 & Hn & H1 & H2).
    exists (S n), c2. cbn. rewrite <- app_assoc in H1, H2. cbn in H1, H2. split_and!; [lia|lia|done|done].
Qed.

(** Lines written completely, then an attempt at more. *)
Lemma wrote_lines c bs rs plan k c' :
  Forall2 (fun b r => MarshalJSON r = Some b) bs rs -> wrote (c ++ unlines bs) plan k c' ->
  wrote c (rs ++ plan) (length rs + k) c'.
Proof.
  intros Hb. revert c. induction Hb as [|b r bs rs Hr _ IH]; intros c Hw; cbn in *; [by rewrite app_nil_r in Hw|].
  apply wrote_line with b (length rs + k)%nat; [done| |done]. apply IH. by rewrite <- !app_assoc.
Qed.

(** *** One append *)

(** Everything but the bytes of the file. *)
Definition same_but_content (s s' : Store) : Prop := s' = set_content (content s') s.

Lemma appendRecord_same o r s s' e : appendRecord o r s = (s', e) -> same_but_content s s'.
Proof.
  unfold appendRecord, same_but_content. destruct (MarshalJSON r); [|intros [= <- <-]; by destruct s].
  destruct (negb (file s)); [intros [= <- <-]; by destruct s|]. destruct (file_write _ _ _).
  intros [= <- <-]. done.
Qed.

Lemma appendRecord_wrote o r s s' e plan : appendRecord o r s = (s', e) -> wrote (content s) (r :: plan) 0 (content s').
Proof.
  unfold appendRecord. destruct (MarshalJSON r) as [b|] eqn:Hm; [|intros [= <- <-]; constructor].
  destruct (negb (file s)); [intros [= <- <-]; constructor|]. unfold file_write. destruct (a_write o) as [|n].
  - intros [= <- <-]. cbn. apply wrote_line with b O; [done|constructor|lia].
  - intros [= <- <-]. cbn. by apply wrote_part.
Qed.

Lemma appendRecord_ok o r s s' :
  appendRecord o r s = (s', None) -> exists b, MarshalJSON r = Some b /\ content s' = content s ++ b ++ [NL] /\ file s = true.
Proof.
  unfold appendRecord. destruct (MarshalJSON r) as [b|]; [|done].
  destruct (file s); cbn; [|done]. unfold file_write. destruct (a_write o); [|done].
  destruct (a_sync o); [|done]. intros [= <-]. eauto.
Qed.

(** With a working file the append succeeds. *)
Lemma appendRecord_healthy r s b :
  file s = true -> MarshalJSON r = Some b -> appendRecord aio_ok r s = (set_content (content s ++ b ++ [NL]) s, None).
Proof. intros Hf Hm. unfold appendRecord. by rewrite Hm, Hf. Qed.
End file.

(** ** Trees of record lists *)

(** The nodes form a tree and the last head is [hd], with path [l]. *)
Record tree_at (rs : list Rec) (hd : string) (l : list (string * Rec)) : Prop := {
  t_wf : wf_nodes (nodes rs);
  t_head : last_head rs = hd;
  t_path : rooted (nodes rs) hd l;
  t_nodup : NoDup l.*1;
}.

Lemma last_nonempty_snoc f rs r :
  last_nonempty f (rs ++ [r]) =
    match f r with
    | Some x => if String.eqb x "" then last_nonempty f rs else x
    | None => last_nonempty f rs
    end.
Proof.
  unfold last_nonempty. rewrite omap_app. cbn. destruct (f r) as [x|]; cbn; [|by rewrite app_nil_r].
  rewrite find_last_snoc. by destruct (String.eqb x "").
Qed.

Lemma last_head_snoc rs r :
  last_head (rs ++ [r]) =
    match head_Tail <$> payload kindHead Head r with
    | Some x => if String.eqb x "" then last_head rs else x
    | None => last_head rs
    end.
Proof. apply last_nonempty_snoc. Qed.

Lemma is_node_not_head r : is_node r = true -> payload kindHead Head r = None.
Proof.
  unfold is_node, payload. intros [E|E]%orb_true_iff; apply String.eqb_eq in E; by rewrite E.
Qed.

Lemma tree_view rs hd l : tree_at rs hd l -> buildActiveView rs (last_head rs) = recordToMessage <$> l.*2.
Proof. intros [Hw Hh Hp Hd]. rewrite Hh. by apply view_rooted. Qed.

Lemma tree_path rs hd l : tree_at rs hd l -> path rs hd = l.
Proof. intros [Hw Hh Hp Hd]. by apply path_rooted. Qed.

Lemma tree_exists rs : wf_nodes (nodes rs) -> known_node (nodes rs) (last_head rs) -> exists l, tree_at rs (last_head rs) l.
Proof. intros Hw Hk. destruct (wf_rooted _ _ Hw Hk) as (l & Hl & Hd). by exists l. Qed.

Lemma tree_empty : tree_at [] "" [].
Proof. split; [apply wf_nodes_empty|done|constructor|constructor]. Qed.

(** A record that is neither a node nor a head changes nothing. *)
Lemma tree_plain rs hd l r :
  tree_at rs hd l -> is_node r = false -> payload kindHead Head r = None -> tree_at (rs ++ [r]) hd l.
Proof.
  intros [Hw Hh Hp Hd] Hn Hk.
  split; rewrite ?nodes_snoc, ?index_skip by done; try done. rewrite last_head_snoc, Hk. done.
Qed.

Lemma rooted_known m id l : rooted m id l -> known_node m id.
Proof. intros []; [by left|right; eauto]. Qed.

(** A node with a new id leaves the path alone, and can be put on top of any path. *)
Lemma tree_node rs hd l r id :
  tree_at rs hd l -> is_node r = true -> NodeID r = id -> id <> "" -> nodes rs !! id = None ->
  known_node (nodes rs) (ParentID r) -> tree_at (rs ++ [r]) hd l.
Proof.
  intros [Hw Hh Hp Hd] Hn <- Hne Hf Hk.
  split; rewrite ?nodes_snoc, ?index_node by done; try done.
  - by apply wf_nodes_add.
  - by rewrite last_head_snoc, is_node_not_head.
  - eapply rooted_mono; [|done]. by apply insert_subseteq.
Qed.

Lemma rooted_node_snoc rs r id l :
  is_node r = true -> NodeID r = id -> id <> "" -> nodes rs !! id = None ->
  rooted (nodes rs) (ParentID r) l -> rooted (nodes (rs ++ [r])) id (l ++ [(id, r)]).
Proof. intros Hn <- Hne Hf Hp. rewrite nodes_snoc, index_node by done. by apply rooted_snoc. Qed.

Lemma tree_head rs hd l id l' t :
  tree_at rs hd l -> id <> "" -> rooted (nodes rs) id l' -> NoDup l'.*1 -> tree_at (rs ++ [newHeadRecord id t]) id l'.
Proof.
  intros [Hw Hh Hp Hd] Hne Hr Hd'. split; rewrite ?nodes_snoc, ?index_skip by done; try done.
  rewrite last_head_snoc. cbn. by rewrite (proj2 (String.eqb_neq _ _) Hne).
Qed.

(** Ids on a path are ids of nodes. *)
Lemma rooted_fresh m id l x : rooted m id l -> m !! x = None -> x ∉ l.*1.
Proof.
  intros Hr Hx Hin. pose proof (rooted_subset _ _ _ Hr) as Hs.
  assert (x ∈ dom m) as [? ?]%elem_of_dom by set_solver. congruence.
Qed.

Lemma nodup_snoc (l : list (string * Rec)) id r : NoDup l.*1 -> id ∉ l.*1 -> NoDup (l ++ [(id, r)]).*1.
Proof.
  intros Hd Hn. rewrite fmap_app. apply NoDup_app. split_and!; [done| |apply NoDup_singleton].
  cbn. set_solver.
Qed.

(** ** Commit *)

(** The messages of a batch that will be committed, with their positions: those
    with an id that is not known and did not come earlier. *)
Fixpoint fresh (known : gset string) (i : nat) (msgs : list Message) : list (nat * Message) :=
  match msgs with
  | [] => []
  | m :: ms =>
      if String.eqb (MsgID m) "" || bool_decide (MsgID m ∈ known) then fresh known (S i) ms
      else (i, m) :: fresh ({[MsgID m]} ∪ known) (S i) ms
  end.

Definition known_ids (s : Store) : gset string := dom (nodes (recs s)).

(** What [Commit] returns of a message, and what the view shows of it. *)
Definition stamped (e : env) (p : nat * Message) : Message := stamp_time (clock e p.1) p.2.
Definition at_time (t : Time) (m : Message) : Message :=
  mkMessage (Role m) (Content m) (ToolCallID m) (ToolCalls m) (Thinking m) (Custom m) (MsgID m) t.
Definition viewed (e : env) (p : nat * Message) : Message := at_time (clock e p.1) p.2.

(** The node of the tree. *)
Definition commit_node (e : env) (prev : string) (p : nat * Message) : string * Rec :=
  (MsgID p.2, commit_record prev (clock e p.1) p.2).

Fixpoint commit_nodes (e : env) (prev : string) (fs : list (nat * Message)) : list (string * Rec) :=
  match fs with
  | [] => []
  | p :: fs' => commit_node e prev p :: commit_nodes e (MsgID p.2) fs'
  end.

Fixpoint commit_plan (e : env) (prev : string) (fs : list (nat * Message)) : list Rec :=
  match fs with
  | [] => []
  | p :: fs' => (commit_node e prev p).2 :: newHeadRecord (MsgID p.2) (clock e p.1) :: commit_plan e (MsgID p.2) fs'
  end.

Definition last_id (d : string) (fs : list (nat * Message)) : string :=
  match last fs with Some p => MsgID p.2 | None => d end.

Lemma last_id_cons d p fs : last_id d (p :: fs) = last_id (MsgID p.2) fs.
Proof. unfold last_id. rewrite last_cons. by destruct (last fs). Qed.

Lemma fresh_spec known i msgs :
  Forall (fun p => MsgID p.2 <> "" /\ MsgID p.2 ∉ known) (fresh known i msgs) /\
  NoDup (MsgID ∘ snd <$> fresh known i msgs).
Proof.
  revert known i. induction msgs as [|m ms IH]; intros known i; cbn; [split; constructor|].
  destruct (String.eqb_spec (MsgID m) "") as [E|E]; cbn; [apply IH|]. case_bool_decide as Hk; [apply IH|].
  destruct (IH ({[MsgID m]} ∪ known) (S i)) as [Hf Hd]. cbn. split.
  - constructor; [done|]. eapply Forall_impl; [exact Hf|]. cbn. set_solver.
  - constructor; [|done]. intros Hin. apply list_elem_of_fmap in Hin as (p & Ep & Hin).
    rewrite Forall_forall in Hf. apply Hf in Hin. cbn in *. set_solver.
Qed.

Lemma fresh_none known i msgs : Forall (fun m => MsgID m = "" \/ MsgID m ∈ known) msgs -> fresh known i msgs = [].
Proof.
  intros H. revert i. induction H as [|m ms Hm _ IH]; intros i; cbn; [done|].
  destruct Hm as [->|Hm]; [apply IH|]. rewrite (bool_decide_true _ Hm), orb_true_r. apply IH.
Qed.

(** Everything of a batch is known once its fresh messages are. *)
Lemma fresh_covers known i msgs :
  Forall (fun m => MsgID m = "" \/ MsgID m ∈ known ∪ list_to_set (MsgID ∘ snd <$> fresh known i msgs)) msgs.
Proof.
  revert known i. induction msgs as [|m ms IH]; intros known i; cbn; [constructor|].
  destruct (String.eqb_spec (MsgID m) "") as [E|E]; cbn; [constructor; [by left|apply IH]|].
  case_bool_decide as Hk; cbn [fmap list_fmap list_to_set].
  - constructor; [right; by apply elem_of_union_l|apply IH].
  - constructor; [right; apply elem_of_union_r, elem_of_union_l; by apply elem_of_singleton|].
    eapply Forall_impl; [apply IH|]. intros x [Hx|Hx]; [by left|right].
    apply elem_of_union in Hx as [[Hx|Hx]%elem_of_union|Hx].
    + by apply elem_of_union_r, elem_of_union_l.
    + by apply elem_of_union_l.
    + by apply elem_of_union_r, elem_of_union_r.
Qed.

Lemma commit_record_stamp prev t m : commit_record prev t (stamp_time t m) = commit_record prev t m.
Proof. unfold stamp_time. by destruct (IsZero (CreatedAt m)). Qed.

Lemma commit_node_facts e prev p :
  let r := (commit_node e prev p).2 in
  is_node r = true /\ NodeID r = MsgID p.2 /\ ParentID r = prev /\ typed r /\ recordToMessage r = viewed e p.
Proof. intros r. split_and!; try done. constructor. Qed.

Lemma stamp_id t m : MsgID (stamp_time t m) = MsgID m.
Proof. unfold stamp_time. by destruct (IsZero (CreatedAt m)). Qed.

Section commit.
Context `{RecordLaws}.

Lemma commit_one_ok oM oH now prev m s s' :
  commit_one oM oH now prev m s = (s', None) ->
  let r := commit_record prev now m in let h := newHeadRecord (MsgID m) now in
  s' = mkStore (content s') (file s) (lock s) (recs s ++ [r; h]) (metadata s) (MsgID m) (cursor s) /\
  exists b c, MarshalJSON r = Some b /\ MarshalJSON h = Some c /\ content s' = content s ++ unlines [b; c].
Proof.
  intros E r h. unfold commit_one in E.
  destruct (appendRecord oM _ s) as [s1 [e1|]] eqn:E1; [done|].
  destruct (appendRecord oH _ s1) as [s2 [e2|]] eqn:E2; [done|]. simplify_eq.
  pose proof (appendRecord_same _ _ _ _ _ E1) as S1. pose proof (appendRecord_same _ _ _ _ _ E2) as S2.
  destruct (appendRecord_ok _ _ _ _ E1) as (b & Hb & C1 & _). destruct (appendRecord_ok _ _ _ _ E2) as (c & Hc & C2 & _).
  split; [by rewrite S2, S1|]. exists b, c. split_and!; [done..|]. cbn [content set_head add_recs unlines]. rewrite C2, C1. by rewrite <- !app_assoc.
Qed.

Lemma commit_one_fail oM oH now prev m s s' err plan :
  commit_one oM oH now prev m s = (s', Some err) ->
  same_but_content s s' /\ wrote (content s) (commit_record prev now m :: newHeadRecord (MsgID m) now :: plan) 0 (content s').
Proof.
  unfold commit_one. destruct (appendRecord oM _ s) as [s1 [e1|]] eqn:E1.
  - intros [= <- <-]. split; [by eapply appendRecord_same|by eapply appendRecord_wrote].
  - destruct (appendRecord oH _ s1) as [s2 [e2|]] eqn:E2; [|done]. intros [= <- <-].
    pose proof (appendRecord_same _ _ _ _ _ E1) as S1. pose proof (appendRecord_same _ _ _ _ _ E2) as S2.
    split; [unfold same_but_content in *; by rewrite S2, S1|].
    destruct (appendRecord_ok _ _ _ _ E1) as (b & Hb & C1 & _). apply wrote_line with b O; [done| |lia]. rewrite <- C1.
    by eapply appendRecord_wrote.
Qed.

(** What a commit does, however its appends go: [k] messages were committed. *)
Lemma commit_from_spec e i prev msgs s s' committed err :
  commit_from e i prev msgs s = (s', (committed, err)) ->
  let fs := fresh (known_ids s) i msgs in
  exists k, (k <= length fs)%nat /\ (if err is Some _ then (k < length fs)%nat else k = length fs) /\
    committed = stamped e <$> take k fs /\
    s' = mkStore (content s') (file s) (lock s) (recs s ++ commit_plan e prev (take k fs)) (metadata s)
           (last_id (head s) (take k fs)) (cursor s) /\
    wrote (content s) (commit_plan e prev fs) (2 * k) (content s') /\
    (err = None -> exists bs, Forall2 (fun b r => MarshalJSON r = Some b) bs (commit_plan e prev fs) /\
      content s' = content s ++ unlines bs).
Proof.
  revert i prev s s' committed err. induction msgs as [|m ms IH]; intros i prev s s' committed err; cbn [commit_from fresh].
  - intros [= <- <- <-]. exists O. cbn. rewrite app_nil_r. split_and!; try done; [by destruct s|constructor|].
    intros _. exists []. split; [constructor|by rewrite app_nil_r].
  - assert (Hk : hasID (recs s) (MsgID m) = bool_decide (MsgID m ∈ known_ids s)).
    { unfold known_ids. destruct (hasID _ _) eqn:E.
      - apply hasID_nodes in E. symmetry. by apply bool_decide_true, elem_of_dom.
      - apply hasID_false in E. symmetry. by apply bool_decide_false, not_elem_of_dom. }
    rewrite Hk. destruct (String.eqb (MsgID m) "" || _); [apply IH|]. rewrite stamp_id.
    destruct (commit_one _ _ _ _ _ s) as [s1 [e1|]] eqn:E1.
    + intros [= <- <- <-]. apply (commit_one_fail _ _ _ _ _ _ _ _ (commit_plan e (MsgID m) (fresh ({[MsgID m]} ∪ known_ids s) (S i) ms))) in E1 as [Hs Hw].
      exists O. cbn. rewrite app_nil_r. split_and!; [lia|lia|done|by destruct s| |done].
      by rewrite commit_record_stamp, stamp_id in Hw.
    + destruct (commit_from e (S i) (MsgID m) ms s1) as [s2 [c2 e2]] eqn:E2. intros [= <- <- <-].
      destruct (commit_one_ok _ _ _ _ _ _ _ E1) as [Hs1 (b & c & Hb & Hc & Hcont)]. rewrite commit_record_stamp in Hs1, Hb.
      rewrite stamp_id in Hs1, Hc.
      apply IH in E2 as (k & Hk1 & Hk2 & -> & Hs2 & Hw & Hok).
      assert (Hkn : known_ids s1 = {[MsgID m]} ∪ known_ids s).
      { unfold known_ids. rewrite Hs1. cbn [recs]. rewrite nodes_app. cbn [foldl].
        rewrite (index_skip _ (newHeadRecord _ _)), index_node by done. by rewrite dom_insert_L. }
      rewrite Hkn in *. exists (S k). cbn [take fmap list_fmap commit_plan length]. split_and!.
      * lia.
      * destruct e2; lia.
      * done.
      * rewrite Hs2. rewrite Hs1 at 1 2 3 4 5 6. cbn [file lock recs metadata head cursor content].
        rewrite <- app_assoc, last_id_cons. done.
      * apply wrote_line with b (S (2 * k)); [done| |lia]. apply wrote_line with c (2 * k)%nat; [done| |lia].
        rewrite Hcont in Hw. cbn in Hw. by rewrite <- !app_assoc.
      * intros ->. destruct (Hok eq_refl) as (bs & Hbs & Hc2). exists (b :: c :: bs). split; [constructor; [exact Hb|constructor; [exact Hc|exact Hbs]]|].
        rewrite Hc2, Hcont. cbn. rewrite <- !app_assoc. cbn. by rewrite <- app_assoc.
Qed.
End commit.

(** A prefix of the plan of a commit hangs the messages whose head record it
    holds on the path, one after the other. *)
Lemma commit_tree e fs rs hd l n :
  tree_at rs hd l ->
  Forall (fun p => MsgID p.2 <> "" /\ nodes rs !! MsgID p.2 = None) fs -> NoDup (MsgID ∘ snd <$> fs) ->
  (n <= length (commit_plan e hd fs))%nat ->
  tree_at (rs ++ take n (commit_plan e hd fs)) (last_id hd (take (Nat.div2 n) fs))
    (l ++ take (Nat.div2 n) (commit_nodes e hd fs)).
Proof.
  revert rs hd l n. induction fs as [|p fs IH]; intros rs hd l n Ht Hf Hd Hn.
  - cbn in Hn. assert (n = O) as -> by lia. cbn. by rewrite !app_nil_r.
  - destruct n as [|n]; [by cbn; rewrite !app_nil_r|].
    apply Forall_cons in Hf as [[Hne Hnew] Hf]. cbn in Hd. apply NoDup_cons in Hd as [Hni Hd].
    destruct (commit_node_facts e hd p) as (H1 & H2 & H3 & _).
    set (r := (commit_node e hd p).2) in *.
    assert (Ht1 : tree_at (rs ++ [r]) hd l).
    { apply (tree_node _ _ _ _ (MsgID p.2)); try done. rewrite H3. eapply rooted_known, t_path, Ht. }
    destruct n as [|n]; [by cbn; rewrite app_nil_r|].
    assert (Hr : rooted (nodes (rs ++ [r])) (MsgID p.2) (l ++ [(MsgID p.2, r)])).
    { apply rooted_node_snoc; try done. rewrite H3. apply t_path. done. }
    assert (Hl : NoDup (l ++ [(MsgID p.2, r)]).*1).
    { apply nodup_snoc; [apply (t_nodup _ _ _ Ht)|]. eapply rooted_fresh; [apply (t_path _ _ _ Ht)|done]. }
    pose proof (tree_head _ _ _ _ _ (clock e p.1) Ht1 Hne Hr Hl) as Ht2.
    cbn in Hn. change (Nat.div2 (S (S n))) with (S (Nat.div2 n)). cbn [take commit_nodes commit_plan].
    fold r. rewrite last_id_cons.
    assert (Hkn : nodes ((rs ++ [r]) ++ [newHeadRecord (MsgID p.2) (clock e p.1)]) = <[MsgID p.2 := r]> (nodes rs)).
    { by rewrite !nodes_snoc, index_skip, index_node, H2. }
    pose proof (IH _ _ _ n Ht2) as Hi. rewrite <- !app_assoc in Hi. cbn [app] in Hi.
    rewrite <- app_assoc in Hkn. cbn [app] in Hkn. rewrite Hkn in Hi. apply Hi; [|done|lia].
    apply Forall_forall. intros q Hq. rewrite Forall_forall in Hf. destruct (Hf q Hq) as [? ?].
    split; [done|]. rewrite lookup_insert_ne; [done|].
    intros E. apply Hni. rewrite E. apply list_elem_of_fmap. by exists q.
Qed.

Lemma commit_nodes_view e prev fs : recordToMessage <$> (commit_nodes e prev fs).*2 = viewed e <$> fs.
Proof. revert prev. induction fs as [|p fs IH]; intros prev; cbn; [done|]. by rewrite IH. Qed.

Lemma commit_plan_length e prev fs : length (commit_plan e prev fs) = (2 * length fs)%nat.
Proof. revert prev. induction fs as [|p fs IH]; intros prev; cbn; [done|]. rewrite IH. lia. Qed.

Lemma commit_plan_take e prev fs k : commit_plan e prev (take k fs) = take (2 * k) (commit_plan e prev fs).
Proof.
  revert prev k. induction fs as [|p fs IH]; intros prev [|k]; try done.
  replace (2 * S k)%nat with (S (S (2 * k))) by lia. cbn [take commit_plan]. by rewrite IH.
Qed.

Lemma commit_plan_typed e prev fs : Forall typed (commit_plan e prev fs).
Proof. revert prev. induction fs as [|p fs IH]; intros prev; cbn; repeat constructor; auto. Qed.

(** ** Compaction *)

(** The copies of the kept messages: the original's id, the copy's id and the
    copy. Summaries among the kept nodes are not copied. *)
Fixpoint clone_plan (e : env) (now : Time) (j : nat) (prev : string) (kept : list (string * Rec))
  : list (string * (string * Rec)) :=
  match kept with
  | [] => []
  | (origID, r) :: kept' =>
      match Msg r with
      | Some m =>
          let cloneID := ids e j in
          (origID, (cloneID, clone_record cloneID prev origID now m)) :: clone_plan e now (S j) cloneID kept'
      | None => clone_plan e now (S j) prev kept'
      end
  end.

Definition last_clone (prev : string) (plan : list (string * (string * Rec))) : string :=
  match last plan with Some p => p.2.1 | None => prev end.

Definition clone_map (cm : gmap string string) (plan : list (string * (string * Rec))) : gmap string string :=
  foldl (fun m p => <[p.1 := p.2.1]> m) cm plan.

Lemma last_clone_cons prev p plan : last_clone prev (p :: plan) = last_clone p.2.1 plan.
Proof. unfold last_clone. rewrite last_cons. by destruct (last plan). Qed.

Section compact.
Context `{RecordLaws}.

Definition marshalled (bs : list bytes) (rs : list Rec) : Prop := Forall2 (fun b r => MarshalJSON r = Some b) bs rs.

Lemma append_rec_ok o r s s' :
  append_rec o r s = (s', None) ->
  s' = mkStore (content s') (file s) (lock s) (recs s ++ [r]) (metadata s) (head s) (cursor s) /\
  exists b, MarshalJSON r = Some b /\ content s' = content s ++ unlines [b].
Proof.
  unfold append_rec. destruct (appendRecord o r s) as [s1 [e1|]] eqn:E; [done|]. intros [= <-].
  pose proof (appendRecord_same _ _ _ _ _ E) as Hs. destruct (appendRecord_ok _ _ _ _ E) as (b & Hb & Hc & _).
  split; [by rewrite Hs|]. exists b. split; [done|]. cbn. by rewrite Hc.
Qed.

Lemma append_rec_fail o r s s' e plan :
  append_rec o r s = (s', Some e) -> same_but_content s s' /\ wrote (content s) (r :: plan) 0 (content s').
Proof.
  unfold append_rec. destruct (appendRecord o r s) as [s1 [e1|]] eqn:E; [|done]. intros [= <- <-].
  split; [by eapply appendRecord_same|by eapply appendRecord_wrote].
Qed.

Lemma clone_from_spec e now byID j prev cm kept s s' cm' lst err rest :
  Forall (fun p => byID !! p.1 = Some p.2) kept ->
  clone_from e now byID j prev cm kept.*1 s = (s', (cm', lst, err)) ->
  let plan := clone_plan e now j prev kept in
  exists k, (if err is Some _ then (k < length plan)%nat else k = length plan) /\
    s' = mkStore (content s') (file s) (lock s) (recs s ++ (take k plan).*2.*2) (metadata s) (head s) (cursor s) /\
    wrote (content s) (plan.*2.*2 ++ rest) k (content s') /\
    (err = None -> cm' = clone_map cm plan /\ lst = last_clone prev plan /\
      exists bs, marshalled bs plan.*2.*2 /\ content s' = content s ++ unlines bs).
Proof.
  intros Hk. revert j prev cm s. induction Hk as [|[id r] kept Hr _ IH]; intros j prev cm s; cbn [clone_from fmap list_fmap fst snd clone_plan].
  - intros [= <- <- <- <-]. exists O. cbn. rewrite app_nil_r. split_and!; try done; [by destruct s|constructor|].
    intros _. split_and!; try done. exists []. rewrite app_nil_r. by split; [constructor|].
  - cbn [fst snd] in Hr. rewrite Hr. cbn [mbind option_bind]. destruct (Msg r) as [m|]; [|apply IH].
    set (c := clone_record (ids e j) prev id now m).
    destruct (append_rec _ c s) as [s1 [e1|]] eqn:E1.
    + intros [= <- <- <- <-]. apply (append_rec_fail _ _ _ _ _ ((clone_plan e now (S j) (ids e j) kept).*2.*2 ++ rest)) in E1 as [Hs Hw].
      exists O. cbn. rewrite app_nil_r. split_and!; [lia|by destruct s|done|done].
    + intros E2. destruct (append_rec_ok _ _ _ _ E1) as [Hs1 (b & Hb & Hc)]. cbn in Hc.
      apply IH in E2 as (k & Hk & Hs & Hw & Hok). exists (S k). cbn [take fmap list_fmap length fst snd app]. split_and!.
      * destruct err; lia.
      * rewrite Hs. rewrite Hs1 at 1 2 3 4 5 6. cbn [file lock recs metadata head cursor]. by rewrite <- app_assoc.
      * apply wrote_line with b k; [done|by rewrite <- Hc|lia].
      * intros ->. destruct (Hok eq_refl) as (-> & -> & bs & Hbs & Hc2). split_and!; [done|by rewrite last_clone_cons|].
        exists (b :: bs). split; [by constructor|]. rewrite Hc2, Hc, <- app_assoc. cbn. by rewrite <- app_assoc.
Qed.

(** The nodes a compaction appends: the summary, the copies. *)
Definition compact_nodes (e : env) (from to summary parent : string) (kept : list (string * Rec)) : list (string * Rec) :=
  let now := clock e 0 in let id := "s_" +:+ to in
  (id, newCompactRecord id parent summary from to now) :: (clone_plan e now 0 id kept).*2.

Definition compact_plan (e : env) (from to summary parent : string) (kept : list (string * Rec)) : list Rec :=
  let ns := compact_nodes e from to summary parent kept in
  ns.*2 ++ [newHeadRecord (last_clone ("s_" +:+ to) (clone_plan e (clock e 0) 0 ("s_" +:+ to) kept)) (clock e 0)].

Lemma index_last_none id l : id ∉ l -> index_last id l = None.
Proof.
  induction l as [|x l IH]; intros Hn; cbn; [done|]. apply not_elem_of_cons in Hn as [Hne Hn].
  rewrite IH by done. by rewrite (proj2 (String.eqb_neq _ _)).
Qed.

Lemma index_last_app id l l' : id ∉ l' -> index_last id (l ++ id :: l') = Some (length l).
Proof.
  intros Hn. induction l as [|x l IH]; cbn; [by rewrite index_last_none, String.eqb_refl|]. by rewrite IH.
Qed.

Lemma path_nodup rs hd : NoDup (path rs hd).*1.
Proof. unfold path. rewrite (map_rev fst : forall l, (rev l).*1 = rev l.*1). apply NoDup_ListNoDup, NoDup_rev, NoDup_ListNoDup, walk_nodup. Qed.

Lemma path_lookup rs hd : Forall (fun p => nodes rs !! p.1 = Some p.2) (path rs hd).
Proof. unfold path. apply Forall_rev, walk_lookup. Qed.

(** Where the covered segment lies on the path. *)
Record segment (s : Store) (from to : string) (pre covered kept : list (string * Rec)) : Prop := {
  s_path : path (recs s) (head s) = pre ++ covered ++ kept;
  s_from : covered.*1 !! O = Some from;
  s_to : last covered.*1 = Some to;
}.

Definition top_id (l : list (string * Rec)) : string := match last l.*1 with Some id => id | None => "" end.

Lemma segment_indices s from to pre covered kept :
  segment s from to pre covered kept ->
  activePathIDs s <> [] /\
  index_last from (activePathIDs s) = Some (length pre) /\
  index_last to (activePathIDs s) = Some (length pre + length covered - 1)%nat /\
  (0 < length covered)%nat /\
  drop (S (length pre + length covered - 1)) (activePathIDs s) = kept.*1 /\
  match length pre with O => "" | S p => nth p (activePathIDs s) "" end = top_id pre.
Proof.
  intros [Hp Hf Ht]. unfold activePathIDs. pose proof (path_nodup (recs s) (head s)) as Hd. rewrite Hp in *.
  rewrite !fmap_app in *. destruct covered as [|c covered]; [done|]. cbn in Hf. injection Hf as Hf.
  assert (0 < length (c :: covered))%nat by (cbn; lia). split_and!; [| | |lia| |].
  - cbn. by destruct pre.*1.
  - rewrite <- (length_fmap fst pre). cbn [fmap list_fmap app]. rewrite Hf. apply index_last_app.
    apply NoDup_app in Hd as (_ & _ & Hd). cbn [fmap list_fmap app] in Hd. rewrite Hf in Hd. by apply NoDup_cons in Hd as [? _].
  - apply last_Some in Ht as [l Hl]. rewrite Hl in *. rewrite <- app_assoc in *. cbn [app] in *.
    assert (length (c :: covered) = S (length l)) as ->.
    { rewrite <- (length_fmap fst (c :: covered)), Hl, length_app. cbn. lia. }
    replace (length pre + S (length l) - 1)%nat with (length (pre.*1 ++ l)) by (rewrite length_app, length_fmap; lia).
    rewrite app_assoc. apply index_last_app. rewrite app_assoc in Hd. apply NoDup_app in Hd as (_ & _ & Hd).
    by apply NoDup_cons in Hd as [? _].
  - rewrite app_assoc. apply drop_app_length'. rewrite length_app, !length_fmap. lia.
  - unfold top_id. destruct pre as [|p pre] using rev_ind; [done|]. rewrite length_app, fmap_app, last_app. cbn.
    rewrite Nat.add_1_r, <- app_assoc. cbn. rewrite app_nth2; rewrite length_fmap; [by rewrite Nat.sub_diag|lia].
Qed.

(** The cursor after a compaction depends on cursor and head alone. *)
Lemma remapCursor_set retain cm lst t : remapCursor retain cm lst t = set_cursor (cursor (remapCursor retain cm lst t)) t.
Proof.
  unfold remapCursor. destruct (String.eqb (cursor t) ""); [by destruct t|].
  destruct (existsb _ _); [by destruct (_ !! _), t|]. destruct (String.eqb _ _); by destruct t.
Qed.

Lemma remapCursor_cong retain cm lst s t :
  cursor s = cursor t -> head s = head t -> cursor (remapCursor retain cm lst s) = cursor (remapCursor retain cm lst t).
Proof.
  intros Hc Hh. unfold remapCursor. rewrite Hc, Hh. destruct (String.eqb (cursor t) ""); [done|].
  destruct (existsb _ _); [by destruct (_ !! _)|]. by destruct (String.eqb _ _).
Qed.

(** What a compaction does, however its appends go: [k] records were written
    and remembered; the head moves only when all were. *)
Lemma Compact_spec e from to summary s s' err pre covered kept :
  head s <> "" -> segment s from to pre covered kept -> Compact e from to summary s = (s', err) ->
  let clones := clone_plan e (clock e 0) 0 ("s_" +:+ to) kept in
  let lst := last_clone ("s_" +:+ to) clones in
  let plan := compact_plan e from to summary (top_id pre) kept in
  exists k, (if err is Some _ then (k < length plan)%nat else k = length plan) /\
    s' = mkStore (content s') (file s) (lock s) (recs s ++ take k plan) (metadata s)
           (if err is Some _ then head s else lst) (cursor s') /\
    wrote (content s) plan k (content s') /\
    (err = None -> cursor s' = cursor (remapCursor kept.*1 (clone_map ∅ clones) lst s) /\
      exists bs, marshalled bs plan /\ content s' = content s ++ unlines bs).
Proof.
  intros Hh Hseg. destruct (segment_indices _ _ _ _ _ _ Hseg) as (Hne & Hf & Ht & Hc & Hr & Hp).
  intros HC clones lst plan. unfold Compact in HC. rewrite (proj2 (String.eqb_neq _ _) Hh) in HC.
  rewrite Hf, Ht, Hr, Hp in HC. destruct (activePathIDs s) as [|a l]; [done|].
  rewrite (proj2 (Nat.ltb_ge _ _)) in HC by lia.
  set (r0 := newCompactRecord ("s_" +:+ to) (top_id pre) summary from to (clock e 0)) in HC.
  set (hr := newHeadRecord lst (clock e 0)).
  assert (Hplan : plan = r0 :: clones.*2.*2 ++ [hr]) by done.
  destruct (append_rec (ios e 0) r0 s) as [s1 [e1|]] eqn:E1.
  { injection HC as <- <-. destruct (append_rec_fail _ _ _ _ _ (clones.*2.*2 ++ [hr]) E1) as [Hs Hw].
    exists O. rewrite Hplan, take_0, app_nil_r. split_and!; [cbn; lia|rewrite Hs; by destruct s|done|done]. }
  destruct (append_rec_ok _ _ _ _ E1) as [Hs1 (b & Hb & Hc1)]. cbn in Hc1.
  destruct (clone_from e (clock e 0) (nodes (recs s)) 0 ("s_" +:+ to) ∅ kept.*1 s1) as [s2 [[cm lst'] err2]] eqn:E2.
  assert (Hl := path_lookup (recs s) (head s)). rewrite (s_path _ _ _ _ _ _ Hseg), !Forall_app in Hl.
  destruct (clone_from_spec _ _ _ _ _ _ _ _ _ _ _ _ [hr] (proj2 (proj2 Hl)) E2) as (k & Hk & Hs2 & Hw & Hok).
  fold clones in Hk, Hs2, Hw, Hok. rewrite Hc1 in Hw.
  destruct err2 as [e2|].
  { injection HC as <- <-. exists (S k). rewrite Hplan. cbn [take]. split_and!; [| |by apply wrote_line with b k|done].
    - cbn. rewrite length_app, !length_fmap. cbn. lia.
    - rewrite Hs2, Hs1. cbn [file lock recs metadata head cursor content]. rewrite <- app_assoc. cbn.
      rewrite take_app_le by (rewrite !length_fmap; lia). by rewrite !fmap_take. }
  destruct (Hok eq_refl) as (-> & Hlst & bs & Hbs & Hc2). fold lst in Hlst. subst lst' k. rewrite Hc1 in Hc2.
  rewrite firstn_all in Hs2.
  assert (Hcur := remapCursor_cong kept.*1 (clone_map ∅ clones) lst s2 s ltac:(by rewrite Hs2, Hs1) ltac:(by rewrite Hs2, Hs1)).
  rewrite remapCursor_set, Hcur in HC. set (cur' := cursor (remapCursor kept.*1 _ lst s)) in *. fold hr in HC.
  destruct (append_rec _ hr (set_cursor cur' s2)) as [s3 [e3|]] eqn:E3.
  - injection HC as <- <-. destruct (append_rec_fail _ _ _ _ _ [] E3) as [Hs3 Hw3]. cbn [content set_cursor] in Hw3.
    exists (length (r0 :: clones.*2.*2)). rewrite Hplan, app_comm_cons, take_app_length. split_and!; [| | |done].
    + rewrite length_app. cbn. lia.
    + rewrite Hs3, Hs2, Hs1. cbn. by rewrite <- app_assoc.
    + rewrite <- (Nat.add_0_r (length _)). apply wrote_lines with (b :: bs); [by constructor|].
      rewrite Hc2 in Hw3. cbn. by rewrite <- !app_assoc in *.
  - injection HC as <- <-. destruct (append_rec_ok _ _ _ _ E3) as [Hs3 (bh & Hbh & Hc3)]. cbn in Hc3.
    exists (length plan). rewrite firstn_all, Hplan. split_and!; [done| | |].
    + rewrite Hs3, Hs2, Hs1. cbn. by rewrite <- !app_assoc.
    + rewrite app_comm_cons, length_app. apply wrote_lines with (b :: bs); [by constructor|].
      cbn [content set_head]. rewrite Hc3, Hc2.
      apply wrote_line with bh O; [done| |done]. cbn. rewrite <- !app_assoc. constructor.
    + intros _. split; [by rewrite Hs3, Hs2, Hs1|]. exists (b :: bs ++ [bh]). split.
      * constructor; [done|]. apply Forall2_app; [done|]. by constructor.
      * cbn [content set_head unlines]. rewrite unlines_snoc, Hc3, Hc2. by rewrite <- !app_assoc.
Qed.
End compact.

(** *** Chains of new nodes *)

Fixpoint chained (prev : string) (ns : list (string * Rec)) : Prop :=
  match ns with
  | [] => True
  | (id, r) :: ns' => is_node r = true /\ NodeID r = id /\ ParentID r = prev /\ chained id ns'
  end.

Definition end_of (prev : string) (ns : list (string * Rec)) : string :=
  match last ns.*1 with Some id => id | None => prev end.

Lemma end_of_cons prev p ns : end_of prev (p :: ns) = end_of p.1 ns.
Proof. unfold end_of. cbn. rewrite last_cons. by destruct (last ns.*1). Qed.

Lemma rooted_prefix m id l l' : rooted m id (l ++ l') -> rooted m (top_id l) l.
Proof.
  revert id. induction l' as [|p l' IH] using rev_ind; intros id Hr.
  - rewrite app_nil_r in Hr. inversion Hr; subst; [done|]. unfold top_id. by rewrite fmap_app, last_app.
  - rewrite app_assoc in Hr. inversion Hr as [|id' r k Hne Hm Hk]; [by destruct l, l'|].
    apply app_inj_tail in H0 as [-> _]. by eapply IH.
Qed.

(** A chain of nodes with new ids leaves the path alone and continues the path
    it hangs on. *)
Lemma chain_tree rs hd l prev lp ns :
  tree_at rs hd l -> rooted (nodes rs) prev lp -> NoDup lp.*1 -> chained prev ns -> NoDup ns.*1 ->
  Forall (fun p => p.1 <> "" /\ nodes rs !! p.1 = None) ns ->
  tree_at (rs ++ ns.*2) hd l /\ rooted (nodes (rs ++ ns.*2)) (end_of prev ns) (lp ++ ns) /\ NoDup (lp ++ ns).*1.
Proof.
  revert rs prev lp. induction ns as [|[id r] ns IH]; intros rs prev lp Ht Hr Hdl Hc Hd Hf; [by cbn; rewrite !app_nil_r|].
  destruct Hc as (H1 & H2 & H3 & Hc). apply NoDup_cons in Hd as [Hni Hd]. apply Forall_cons in Hf as [[Hne Hn] Hf].
  cbn in Hne, Hn, Hni. rewrite end_of_cons. cbn [fmap list_fmap snd fst].
  destruct (IH (rs ++ [r]) id (lp ++ [(id, r)])) as (Ht' & Hr' & Hd'); try done.
  - apply (tree_node _ _ _ _ id); try done. rewrite H3. by eapply rooted_known.
  - apply rooted_node_snoc; try done. by rewrite H3.
  - apply nodup_snoc; [done|]. by eapply rooted_fresh.
  - apply Forall_forall. intros q Hq. rewrite Forall_forall in Hf. destruct (Hf q Hq) as [? ?]. split; [done|].
    rewrite nodes_snoc, index_node, H2, lookup_insert_ne; [done| |done].
    intros ->. apply Hni. apply list_elem_of_fmap. by exists q.
  - rewrite <- !app_assoc in *. done.
Qed.

Lemma chained_take prev ns n : chained prev ns -> chained prev (take n ns).
Proof.
  revert prev n. induction ns as [|[id r] ns IH]; intros prev [|n]; cbn; try done. intros (? & ? & ? & ?). auto.
Qed.

Lemma clone_plan_chained e now j prev kept : chained prev (clone_plan e now j prev kept).*2.
Proof.
  revert j prev. induction kept as [|[o r] kept IH]; intros j prev; cbn; [done|].
  destruct (Msg r) as [m|]; cbn; [|apply IH]. do 3 (split; [done|]). apply IH.
Qed.

Lemma compact_nodes_chained e from to summary parent kept : chained parent (compact_nodes e from to summary parent kept).
Proof. do 3 (split; [done|]). apply clone_plan_chained. Qed.

Lemma last_clone_end e now j prev kept : end_of prev (clone_plan e now j prev kept).*2 = last_clone prev (clone_plan e now j prev kept).
Proof.
  unfold end_of, last_clone. rewrite !fmap_last. by destruct (last _).
Qed.

(** The ids of the summary and of the copies are new. *)
Definition new_ids (rs : list Rec) (ns : list (string * Rec)) : Prop :=
  NoDup ns.*1 /\ Forall (fun p => p.1 <> "" /\ nodes rs !! p.1 = None) ns.

(** A prefix of the plan of a compaction changes nothing; the whole plan puts
    the summary and the copies in the place of the covered and kept nodes. *)
Lemma compact_tree e from to summary rs hd pre covered kept n :
  tree_at rs hd (pre ++ covered ++ kept) ->
  let ns := compact_nodes e from to summary (top_id pre) kept in
  let plan := compact_plan e from to summary (top_id pre) kept in
  new_ids rs ns -> (n <= length plan)%nat ->
  if decide (n = length plan)
  then tree_at (rs ++ take n plan) (end_of (top_id pre) ns) (pre ++ ns)
  else tree_at (rs ++ take n plan) hd (pre ++ covered ++ kept).
Proof.
  intros Ht ns plan [Hd Hf] Hn. pose proof (rooted_prefix _ _ _ _ (t_path _ _ _ Ht)) as Hp.
  assert (Hdp : NoDup pre.*1).
  { pose proof (t_nodup _ _ _ Ht) as H. rewrite fmap_app in H. by apply NoDup_app in H as (? & _). }
  pose proof (compact_nodes_chained e from to summary (top_id pre) kept) as Hc. fold ns in Hc.
  assert (Hend : plan = ns.*2 ++ [newHeadRecord (end_of (top_id pre) ns) (clock e 0)]).
  { unfold plan, compact_plan. fold ns. do 3 f_equal. unfold ns, compact_nodes. by rewrite end_of_cons, last_clone_end. }
  destruct (decide (n = length plan)) as [->|Hne].
  - rewrite firstn_all, Hend, app_assoc.
    destruct (chain_tree _ _ _ _ _ _ Ht Hp Hdp Hc Hd Hf) as (H1 & H2 & H3).
    apply tree_head with hd (pre ++ covered ++ kept); [done| |done|done].
    unfold end_of. destruct (last ns.*1) as [id|] eqn:E.
    + apply last_Some_elem_of, list_elem_of_fmap in E as (p & -> & Hin). rewrite Forall_forall in Hf. by apply Hf.
    + apply last_None in E. by unfold ns in E.
  - assert (Hl : (n <= length ns)%nat) by (rewrite Hend, length_app, length_fmap in Hn, Hne; cbn [length] in Hn, Hne; lia).
    rewrite Hend, take_app_le by by rewrite length_fmap. rewrite <- fmap_take.
    apply (chain_tree _ _ _ _ _ _ Ht Hp Hdp (chained_take _ _ _ Hc)).
    + rewrite fmap_take. rewrite <- (take_drop n ns.*1) in Hd. by apply NoDup_app in Hd as (? & _).
    + by apply Forall_take.
Qed.

(** What the view shows of the summary and of the copies. *)
Definition summary_message (e : env) (to summary : string) : Message :=
  mkMessage "system" summary "" [] "" ∅ ("s_" +:+ to) (clock e 0).

Definition copied (e : env) (j : nat) (m : msgFields) : Message :=
  mkMessage (msg_Role m) (msg_Content m) (msg_ToolCallID m) (msg_ToolCalls m) (msg_Thinking m) (msg_Custom m)
    (ids e j) (clock e 0).

(** Position and message of the kept nodes that are messages. *)
Fixpoint kept_messages (j : nat) (kept : list (string * Rec)) : list (nat * msgFields) :=
  match kept with
  | [] => []
  | (_, r) :: kept' =>
      match Msg r with Some m => (j, m) :: kept_messages (S j) kept' | None => kept_messages (S j) kept' end
  end.

Lemma clone_plan_view e j prev kept :
  recordToMessage <$> (clone_plan e (clock e 0) j prev kept).*2.*2 = (fun p => copied e p.1 p.2) <$> kept_messages j kept.
Proof.
  revert j prev. induction kept as [|[o r] kept IH]; intros j prev; cbn; [done|].
  destruct (Msg r) as [m|]; cbn; [|apply IH]. by rewrite IH.
Qed.

Lemma compact_nodes_view e from to summary parent kept :
  recordToMessage <$> (compact_nodes e from to summary parent kept).*2 =
    summary_message e to summary :: ((fun p => copied e p.1 p.2) <$> kept_messages 0 kept).
Proof. cbn. by rewrite clone_plan_view. Qed.

Lemma clone_plan_typed e now j prev kept : Forall typed (clone_plan e now j prev kept).*2.*2.
Proof.
  revert j prev. induction kept as [|[o r] kept IH]; intros j prev; cbn; [constructor|].
  destruct (Msg r) as [m|]; cbn; [|apply IH]. constructor; [constructor|apply IH].
Qed.

Lemma compact_plan_typed e from to summary parent kept : Forall typed (compact_plan e from to summary parent kept).
Proof.
  unfold compact_plan. apply Forall_app. split; [|by repeat constructor]. constructor; [constructor|apply clone_plan_typed].
Qed.

(** ** Batches that start with known messages *)

Lemma fresh_skip known i a b :
  Forall (fun m => MsgID m = "" \/ MsgID m ∈ known) a -> fresh known i (a ++ b) = fresh known (i + length a) b.
Proof.
  intros H. revert i. induction H as [|m a Hm _ IH]; intros i; cbn; [by rewrite Nat.add_0_r|].
  rewrite <- plus_n_Sm. destruct Hm as [->|Hm]; [apply IH|]. rewrite (bool_decide_true _ Hm), orb_true_r. apply IH.
Qed.

Lemma fresh_all known i b :
  NoDup (MsgID <$> b) -> Forall (fun m => MsgID m <> "" /\ MsgID m ∉ known) b -> (fresh known i b).*2 = b.
Proof.
  revert known i. induction b as [|m b IH]; intros known i Hd Hf; cbn; [done|].
  apply NoDup_cons in Hd as [Hn Hd]. apply Forall_cons in Hf as [[Hne Hk] Hf].
  rewrite (proj2 (String.eqb_neq _ _) Hne), bool_decide_false by done. cbn. f_equal. apply IH; [done|].
  apply Forall_forall. intros x Hx. rewrite Forall_forall in Hf. destruct (Hf x Hx) as [? ?]. split; [done|].
  rewrite elem_of_union, elem_of_singleton. intros [E|?]; [|done]. apply Hn. rewrite <- E. apply list_elem_of_fmap. by exists x.
Qed.

(** *** What records add to the known ids *)

Lemma nodes_grow rs rs' : dom (nodes rs) ⊆ dom (nodes (rs ++ rs')).
Proof.
  induction rs' as [|r rs' IH] using rev_ind; [by rewrite app_nil_r|]. rewrite app_assoc, nodes_snoc. unfold index.
  destruct (is_node r); [|done]. rewrite dom_insert_L. set_solver.
Qed.

Lemma nodes_chain rs prev ns : chained prev ns -> dom (nodes (rs ++ ns.*2)) ⊆ dom (nodes rs) ∪ list_to_set ns.*1.
Proof.
  revert rs prev. induction ns as [|[id r] ns IH]; intros rs prev; cbn; [rewrite app_nil_r; set_solver|].
  intros (Hn & Hid & _ & Hc). specialize (IH (rs ++ [r]) id Hc). rewrite <- app_assoc in IH. cbn in IH.
  rewrite nodes_snoc, index_node, Hid, dom_insert_L in IH by done. set_solver.
Qed.

Lemma compact_plan_known e from to summary parent kept rs :
  dom (nodes (rs ++ compact_plan e from to summary parent kept)) ⊆
    dom (nodes rs) ∪ list_to_set (compact_nodes e from to summary parent kept).*1.
Proof.
  unfold compact_plan. rewrite app_assoc, nodes_snoc, index_skip by done. by eapply nodes_chain, compact_nodes_chained.
Qed.

(** ** Operations without I/O errors succeed *)

Definition calm_env (e : env) : Prop := forall i, ios e i = aio_ok.

Section calm.
Context `{RecordLaws}.

Definition encodable (r : Rec) : Prop := is_Some (MarshalJSON r).

Lemma append_calm o r s :
  file s = true -> o = aio_ok -> encodable r -> exists s', append_rec o r s = (s', None) /\ file s' = true.
Proof.
  intros Hf -> [b Hb]. unfold append_rec. rewrite (appendRecord_healthy _ _ _ Hf Hb). by eexists.
Qed.

Lemma known_after_commit s s1 e prev p :
  recs s1 = recs s ++ [(commit_node e prev p).2; newHeadRecord (MsgID p.2) (clock e p.1)] ->
  known_ids s1 = {[MsgID p.2]} ∪ known_ids s.
Proof.
  intros Hr. unfold known_ids. rewrite Hr, nodes_app. cbn [foldl].
  rewrite (index_skip _ (newHeadRecord _ _)), index_node by done. by rewrite dom_insert_L.
Qed.

Lemma commit_calm e i prev msgs s :
  file s = true -> calm_env e -> Forall encodable (commit_plan e prev (fresh (known_ids s) i msgs)) ->
  (commit_from e i prev msgs s).2.2 = None.
Proof.
  intros Hf He. revert i prev s Hf. induction msgs as [|m ms IH]; intros i prev s Hf; cbn [commit_from fresh]; [done|].
  assert (Hk : hasID (recs s) (MsgID m) = bool_decide (MsgID m ∈ known_ids s)).
  { unfold known_ids. destruct (hasID _ _) eqn:E.
    - apply hasID_nodes in E. symmetry. by apply bool_decide_true, elem_of_dom.
    - apply hasID_false in E. symmetry. by apply bool_decide_false, not_elem_of_dom. }
  rewrite Hk. destruct (String.eqb (MsgID m) "" || _); [by apply IH|]. rewrite stamp_id. cbn [commit_plan].
  intros [[b Hb] [[c Hc] Hp]%Forall_cons]%Forall_cons.
  assert (E1 : commit_one (ios e (2 * i)) (ios e (2 * i + 1)) (clock e i) prev (stamp_time (clock e i) m) s =
    (set_head (MsgID m) (add_recs [(commit_node e prev (i, m)).2; newHeadRecord (MsgID m) (clock e i)]
       (set_content (content (set_content (content s ++ b ++ [NL]) s) ++ c ++ [NL]) (set_content (content s ++ b ++ [NL]) s))), None)).
  { change (MarshalJSON (commit_record prev (clock e i) m) = Some b) in Hb.
    unfold commit_one. rewrite commit_record_stamp, stamp_id, !He.
    rewrite (appendRecord_healthy _ _ _ Hf Hb). rewrite (appendRecord_healthy _ (set_content _ s) _ Hf Hc). done. }
  rewrite E1. match goal with |- context [commit_from e (S i) _ ms ?t] => set (s1 := t) end.
  specialize (IH (S i) (MsgID m) s1 Hf). rewrite (known_after_commit s s1 e prev (i, m) eq_refl) in IH. specialize (IH Hp).
  destruct (commit_from e (S i) (MsgID m) ms s1) as [s2 [c2 e2]]. exact IH.
Qed.

Lemma clone_calm e now byID j prev cm kept s :
  file s = true -> calm_env e -> Forall (fun p => byID !! p.1 = Some p.2) kept ->
  Forall encodable (clone_plan e now j prev kept).*2.*2 ->
  exists s' cm' lst, clone_from e now byID j prev cm kept.*1 s = (s', (cm', lst, None)) /\ file s' = true.
Proof.
  intros Hf He Hk. revert j prev cm s Hf. induction Hk as [|[id r] kept Hr _ IH]; intros j prev cm s Hf; cbn [clone_from clone_plan fmap list_fmap fst snd].
  - eauto.
  - cbn [fst snd] in Hr. rewrite Hr. cbn [mbind option_bind]. destruct (Msg r) as [m|]; [|by apply IH].
    cbn [fmap list_fmap snd]. intros [Hm Hp]%Forall_cons.
    destruct (append_calm (ios e (S j)) _ s Hf (He _) Hm) as (s1 & -> & Hf1). by apply IH.
Qed.

Lemma compact_calm e from to summary s pre covered kept :
  file s = true -> calm_env e -> head s <> "" -> segment s from to pre covered kept ->
  Forall encodable (compact_plan e from to summary (top_id pre) kept) -> (Compact e from to summary s).2 = None.
Proof.
  intros Hfi He Hh Hseg Hp. destruct (segment_indices _ _ _ _ _ _ Hseg) as (Hne & Hf & Ht & Hc & Hr & Hpar).
  unfold compact_plan, compact_nodes in Hp. apply Forall_app in Hp as [[Hp0 Hp1]%Forall_cons [Hp2 _]%Forall_cons].
  unfold Compact. rewrite (proj2 (String.eqb_neq _ _) Hh), Hf, Ht, Hr, Hpar. destruct (activePathIDs s) as [|a l]; [done|].
  rewrite (proj2 (Nat.ltb_ge _ _)) by lia.
  destruct (append_rec (ios e 0) _ s) as [s1 err1] eqn:E1.
  destruct (append_calm (ios e 0) _ s Hfi (He _) Hp0) as (s1' & E1' & Hf1). injection (eq_trans (eq_sym E1) E1') as -> ->.
  assert (Hl := path_lookup (recs s) (head s)). rewrite (s_path _ _ _ _ _ _ Hseg), !Forall_app in Hl.
  destruct (clone_calm e (clock e 0) (nodes (recs s)) 0 ("s_" +:+ to) ∅ kept s1' Hf1 He (proj2 (proj2 Hl)) Hp1) as (s2 & cm & lst & E2 & Hf2).
  rewrite E2. destruct (clone_from_spec _ _ _ _ _ _ _ _ _ _ _ _ [] (proj2 (proj2 Hl)) E2) as (_ & _ & _ & _ & Hok).
  destruct (Hok eq_refl) as (_ & -> & _).
  destruct (append_calm (ios e (S (length kept.*1))) (newHeadRecord (last_clone ("s_" +:+ to) (clone_plan e (clock e 0) 0 ("s_" +:+ to) kept)) (clock e 0))
    (remapCursor kept.*1 cm (last_clone ("s_" +:+ to) (clone_plan e (clock e 0) 0 ("s_" +:+ to) kept)) s2)) as (s3 & -> & _); try done.
  by rewrite remapCursor_set.
Qed.
End calm.
