(* ===== verification/SessionStoreProps.v ===== *)
(** * What the session store promises

    The sessions that operations, crashes and reopening lead to keep their
    records in the file and their nodes in a tree; commits and compactions are
    atomic for every outcome of their writes, also for the reader after a crash
    in the middle of one. *)

From S2P Require Import Prelude GoString JsonLines ScanJsonl SessionRecord SessionStore SessionTree SessionOps.
#[local] Open Scope string_scope.
#[local] Open Scope list_scope.

(** ** Operations and their plans *)

Inductive op : Type :=
  | OpCommit (msgs : list Message)
  | OpCompact (from to summary : string)
  | OpSetHead (id : string)
  | OpCheckpoint (preview : string)
  | OpAdvanceCursor (id : string)
  | OpDeclareWorkspace (p : string)
  | OpMarkArchived.

Section session.
Context `{RecordLaws}.
Context (sha256 : bytes -> string).

Definition run_op (e : env) (o : op) (s : Store) : Store * option store_error :=
  match o with
  | OpCommit msgs => let '(s', (_, err)) := Commit e msgs s in (s', err)
  | OpCompact from to summary => Compact e from to summary s
  | OpSetHead id => SetHead e id s
  | OpCheckpoint p => Checkpoint e p s
  | OpAdvanceCursor id => AdvanceCursor e id s
  | OpDeclareWorkspace p => DeclareWorkspace e p s
  | OpMarkArchived => MarkArchived e s
  end.

(** What an operation appends, where its callers' obligations hold: a
    compaction names a segment of the path and gets new ids, the head is set to
    a node. *)
Inductive planned (e : env) (s : Store) : op -> list Rec -> Prop :=
  | planned_commit msgs : planned e s (OpCommit msgs) (commit_plan e (head s) (fresh (known_ids s) 0 msgs))
  | planned_compact from to summary pre covered kept :
      segment s from to pre covered kept ->
      new_ids (recs s) (compact_nodes e from to summary (top_id pre) kept) ->
      planned e s (OpCompact from to summary) (compact_plan e from to summary (top_id pre) kept)
  | planned_head id : id <> "" -> is_Some (nodes (recs s) !! id) ->
      planned e s (OpSetHead id) [newHeadRecord id (clock e 0)]
  | planned_checkpoint p : head s <> "" ->
      planned e s (OpCheckpoint p) [newCheckpointRecord ("ck_" +:+ head s) (head s) p (clock e 0)]
  | planned_cursor id : planned e s (OpAdvanceCursor id) [newCursorRecord id (clock e 0)]
  | planned_workspace p : p <> "" -> planned e s (OpDeclareWorkspace p) [newWorkspaceRecord p (clock e 0)]
  | planned_archived : Archived s = false -> planned e s OpMarkArchived [newArchivedRecord (clock e 0)]
  | planned_archived_again : Archived s = true -> planned e s OpMarkArchived [].

(** The records of an operation are short enough to be read back. *)
Definition feasible (e : env) (s : Store) (o : op) (plan : list Rec) : Prop := planned e s o plan /\ Forall storable plan.

(** A session: a store that was created, operations that succeeded, and crashes
    in the middle of an operation, whatever its writes did, followed by opening
    the file again. *)
Inductive session : Store -> Prop :=
  | session_new o now sid c s :
      sid <> "" -> storable (newMetadataRecord sid now) -> Open sha256 o now sid [] = (c, Ok s) -> session s
  | session_op e o plan s s' :
      session s -> feasible e s o plan -> run_op e o s = (s', None) -> session s'
  | session_crash e o plan s s1 err oi now sid c s2 :
      session s -> feasible e s o plan -> run_op e o s = (s1, err) ->
      Open sha256 oi now sid (content s1) = (c, Ok s2) -> complete c -> session s2.

(** The invariant of sessions. *)
Record sound (s : Store) : Prop := {
  i_file : file s = true;
  i_clean : clean (content s) (recs s);
  i_meta : metadataFromRecords (recs s) = Some (metadata s);
  i_tree : exists l, tree_at (recs s) (head s) l;
}.

(** *** Opening *)

Lemma find_first_snoc {A} (p : A -> bool) l x : is_Some (find_first p l) -> find_first p (l ++ x) = find_first p l.
Proof. intros [y Hy]. by rewrite find_first_app, Hy. Qed.

Lemma metadata_app rs rs' m : metadataFromRecords rs = Some m -> metadataFromRecords (rs ++ rs') = Some m.
Proof.
  unfold metadataFromRecords. rewrite omap_app, find_first_app. by destruct (find_first _ _).
Qed.

(** Opening a file whose records have their metadata writes nothing; every I/O
    outcome that lets it succeed gives the same store. *)
Lemma Open_reads o now sid c rs c' m :
  reads c rs c' -> metadataFromRecords rs = Some m ->
  (Open sha256 open_ok now sid c = (c', Ok (mkStore c' true true rs m (last_head rs) (last_cursor rs)))) /\
  (forall c2 s, Open sha256 o now sid c = (c2, Ok s) -> c2 = c' /\ s = mkStore c' true true rs m (last_head rs) (last_cursor rs)).
Proof.
  intros (good & Hl & Hr) Hm. unfold Open. rewrite Hl, Hm, Hr. split.
  - cbn. by rewrite andb_false_r.
  - intros c2 s. repeat case_match; intros; simplify_eq; done.
Qed.

Lemma sound_opened rs c m l hd cur :
  clean c rs -> metadataFromRecords rs = Some m -> tree_at rs hd l -> sound (mkStore c true true rs m (last_head rs) cur).
Proof. intros Hc Hm Ht. split; try done. exists l. cbn [recs head]. by rewrite (t_head _ _ _ Ht). Qed.

Lemma metadata_new sid now : sid <> "" -> metadataFromRecords [newMetadataRecord sid now] = Some (mkMetadata sid now).
Proof. intros Hne. unfold metadataFromRecords. cbn. by rewrite (proj2 (String.eqb_neq _ _) Hne). Qed.

Lemma sound_new o now sid c s :
  sid <> "" -> storable (newMetadataRecord sid now) -> Open sha256 o now sid [] = (c, Ok s) -> sound s.
Proof.
  intros Hne Hst. unfold Open. change (loadRecords []) with (Some (@nil Rec, 0%Z)).
  destruct (o_dir o); cbn [negb]; [|done]. destruct (o_lock o); cbn [negb]; [|done]. destruct (o_file o); cbn [negb]; [|done].
  change (0 <? blen [])%Z with false. change (repair [] 0%Z) with (@nil ascii). cbn [andb metadataFromRecords omap list_omap find_first].
  destruct (o_read o); change (String.eqb (firstNodeID []) "" && (blen [] =? 0)%Z) with true; cbn iota;
    (destruct (appendRecord _ _ _) as [s1 [e1|]] eqn:E; [done|]); intros [= <- <-];
    (destruct (appendRecord_ok _ _ _ _ E) as (b & Hb & Hc & _)); cbn in Hc;
    (split; [done| | |]); cbn [content recs metadata head].
  1, 4: rewrite Hc; apply (clean_snoc [] [] b); [apply clean_nil|done].
  1, 3: by apply metadata_new.
  all: exists []; apply (tree_plain [] "" []); [apply tree_empty|done..].
Qed.

(** *** What every operation does *)

Lemma segment_head s from to pre covered kept : segment s from to pre covered kept -> head s <> "".
Proof. intros [Hl Hf _] Hh. rewrite Hh in Hl. by destruct pre, covered. Qed.

(** The segment's path as the path of the tree. *)
Lemma segment_tree s from to pre covered kept l :
  tree_at (recs s) (head s) l -> segment s from to pre covered kept -> l = pre ++ covered ++ kept.
Proof. intros Ht Hs. rewrite <- (tree_path _ _ _ Ht). apply (s_path _ _ _ _ _ _ Hs). Qed.

Lemma plain_plan rs hd l r n :
  tree_at rs hd l -> is_node r = false -> payload kindHead Head r = None -> exists hd' l', tree_at (rs ++ take n [r]) hd' l'.
Proof.
  intros Ht Hn Hh. exists hd, l. destruct n as [|n]; [by rewrite app_nil_r|]. cbn. rewrite take_nil. by apply tree_plain.
Qed.

(** The fresh messages of a batch have new ids. *)
Lemma fresh_new s msgs :
  let fs := fresh (known_ids s) 0 msgs in
  Forall (fun p => MsgID p.2 <> "" /\ nodes (recs s) !! MsgID p.2 = None) fs /\ NoDup (MsgID ∘ snd <$> fs).
Proof.
  destruct (fresh_spec (known_ids s) 0 msgs) as [Hf Hd]. split; [|done].
  eapply Forall_impl; [exact Hf|]. cbn. intros p [? Hin]. split; [done|]. by apply not_elem_of_dom.
Qed.

(** Each prefix of a plan leaves a tree. *)
Lemma planned_tree e s o plan l n :
  tree_at (recs s) (head s) l -> planned e s o plan -> (n <= length plan)%nat ->
  exists hd' l', tree_at (recs s ++ take n plan) hd' l'.
Proof.
  intros Ht Hp Hn. destruct Hp as [msgs|from to summary pre covered kept Hs Hi|id Hne Hk|p Hh|id|p Hne|Ha|Ha].
  - destruct (fresh_new s msgs) as [Hf Hd]. eexists _, _. by apply (commit_tree _ _ _ _ l).
  - rewrite (segment_tree _ _ _ _ _ _ _ Ht Hs) in Ht.
    pose proof (compact_tree e from to summary _ _ _ _ _ n Ht Hi Hn) as Hc. cbn zeta in Hc.
    destruct (decide _); eauto.
  - destruct n as [|n]; [rewrite take_0, app_nil_r; eauto|]. cbn in Hn. cbn. rewrite take_nil.
    destruct (wf_rooted _ id (t_wf _ _ _ Ht) (or_intror Hk)) as (l' & Hl & Hd). eexists _, _. by apply (tree_head _ _ _ _ _ _ Ht).
  - by eapply plain_plan.
  - by eapply plain_plan.
  - by eapply plain_plan.
  - by eapply plain_plan.
  - exists (head s), l. destruct n; by rewrite app_nil_r.
Qed.

(** The outcome of an operation with the plan [plan], of which at least [k]
    lines are in the file. *)
Record did (s s' : Store) (plan : list Rec) (k : nat) (err : option store_error) : Prop := {
  d_file : file s' = file s;
  d_meta : metadata s' = metadata s;
  d_count : if err is Some _ then (k < length plan)%nat else k = length plan;
  d_wrote : wrote (content s) plan k (content s');
  d_done : err = None -> recs s' = recs s ++ plan /\ exists bs, marshalled bs plan /\ content s' = content s ++ unlines bs;
}.

Lemma did_append io r s s' err :
  append_rec io r s = (s', err) -> exists k, did s s' [r] k err /\ head s' = head s /\ cursor s' = cursor s /\
    (err <> None -> recs s' = recs s).
Proof.
  destruct err as [err|]; intros E.
  - destruct (append_rec_fail _ _ _ _ _ [] E) as [Hs Hw]. exists O. rewrite Hs. cbn. split_and!; try done.
    split; try done. cbn. lia.
  - destruct (append_rec_ok _ _ _ _ E) as [Hs (b & Hb & Hc)]. exists 1%nat. rewrite Hs. cbn. split_and!; try done. split; cbn; try done.
    + rewrite Hc. apply wrote_line with b O; [done|constructor|lia].
    + intros _. split; [done|]. exists [b]. split; [by repeat constructor|done].
Qed.

Lemma op_did e s o plan s' err :
  planned e s o plan -> run_op e o s = (s', err) -> exists k, did s s' plan k err.
Proof.
  intros Hp E. destruct Hp as [msgs|from to summary pre covered kept Hs Hi|id Hne Hk|p Hh|id|p Hne|Ha|Ha]; cbn in E.
  - destruct (Commit e msgs s) as [s1 [committed err1]] eqn:EC. injection E as <- <-.
    destruct (commit_from_spec _ _ _ _ _ _ _ _ EC) as (k & Hk & Hkl & _ & Hst & Hw & Hok).
    exists (2 * k)%nat. split; try (by rewrite Hst); [|].
    + rewrite commit_plan_length. destruct err1; lia.
    + intros ->. rewrite Hst. cbn [recs]. subst k. rewrite firstn_all. by split; [|apply Hok].
  - pose proof (segment_head _ _ _ _ _ _ Hs) as Hh.
    destruct (Compact_spec _ _ _ _ _ _ _ _ _ _ Hh Hs E) as (k & Hk & Hst & Hw & Hok).
    exists k. split; try (by rewrite Hst); try done.
    intros ->. rewrite Hst. cbn [recs]. subst k. rewrite firstn_all. split; [done|]. by apply Hok.
  - unfold SetHead in E. destruct (append_rec _ _ s) as [s1 [e1|]] eqn:EA; injection E as <- <-;
      destruct (did_append _ _ _ _ _ EA) as (k & Hd & _); exists k; destruct Hd; by split.
  - unfold Checkpoint in E. rewrite (proj2 (String.eqb_neq _ _) Hh) in E. destruct (did_append _ _ _ _ _ E) as (k & Hd & _). eauto.
  - unfold AdvanceCursor in E. destruct (append_rec _ _ s) as [s1 [e1|]] eqn:EA; injection E as <- <-;
      destruct (did_append _ _ _ _ _ EA) as (k & Hd & _); exists k; destruct Hd; by split.
  - unfold DeclareWorkspace in E. rewrite (proj2 (String.eqb_neq _ _) Hne) in E. destruct (did_append _ _ _ _ _ E) as (k & Hd & _). eauto.
  - unfold MarkArchived in E. unfold Archived in Ha. rewrite Ha in E. destruct (did_append _ _ _ _ _ E) as (k & Hd & _). eauto.
  - unfold MarkArchived in E. unfold Archived in Ha. rewrite Ha in E. injection E as <- <-. exists O.
    split; try done; [constructor|]. intros _. rewrite app_nil_r. split; [done|]. exists []. by rewrite app_nil_r; split; [constructor|].
Qed.

(** The head a successful operation leaves is the last one in its records. *)
Lemma op_head e s o plan s' l :
  tree_at (recs s) (head s) l -> planned e s o plan -> run_op e o s = (s', None) ->
  head s' = last_head (recs s ++ plan).
Proof.
  intros Ht Hp E. destruct Hp as [msgs|from to summary pre covered kept Hs Hi|id Hne Hk|p Hh|id|p Hne|Ha|Ha]; cbn in E.
  - destruct (Commit e msgs s) as [s1 [committed err1]] eqn:EC. injection E as <- ->.
    destruct (commit_from_spec _ _ _ _ _ _ _ _ EC) as (k & Hk & -> & _ & Hst & _).
    rewrite Hst. cbn [head]. rewrite firstn_all. destruct (fresh_new s msgs) as [Hf Hd].
    pose proof (commit_tree e _ _ _ _ _ Ht Hf Hd (le_n _)) as Hc.
    rewrite firstn_all, commit_plan_length, Nat.div2_double, firstn_all in Hc. symmetry. apply (t_head _ _ _ Hc).
  - pose proof (segment_head _ _ _ _ _ _ Hs) as Hh.
    destruct (Compact_spec _ _ _ _ _ _ _ _ _ _ Hh Hs E) as (k & -> & Hst & _). rewrite Hst. cbn [head].
    rewrite (segment_tree _ _ _ _ _ _ _ Ht Hs) in Ht.
    pose proof (compact_tree e from to summary _ _ _ _ _ _ Ht Hi (le_n _)) as Hc.
    cbn zeta in Hc. rewrite decide_True, firstn_all in Hc by done. rewrite (t_head _ _ _ Hc).
    unfold compact_nodes. by rewrite end_of_cons, last_clone_end.
  - unfold SetHead in E. destruct (append_rec _ _ s) as [s1 [e1|]] eqn:EA; [done|]. injection E as <-.
    rewrite last_head_snoc. cbn. by rewrite (proj2 (String.eqb_neq _ _) Hne).
  - unfold Checkpoint in E. rewrite (proj2 (String.eqb_neq _ _) Hh) in E. destruct (did_append _ _ _ _ _ E) as (_ & _ & -> & _).
    rewrite last_head_snoc. symmetry. apply (t_head _ _ _ Ht).
  - unfold AdvanceCursor in E. destruct (append_rec _ _ s) as [s1 [e1|]] eqn:EA; [done|]. injection E as <-.
    destruct (did_append _ _ _ _ _ EA) as (_ & _ & Hh & _). cbn. rewrite Hh, last_head_snoc. symmetry. apply (t_head _ _ _ Ht).
  - unfold DeclareWorkspace in E. rewrite (proj2 (String.eqb_neq _ _) Hne) in E. destruct (did_append _ _ _ _ _ E) as (_ & _ & -> & _).
    rewrite last_head_snoc. symmetry. apply (t_head _ _ _ Ht).
  - unfold MarkArchived in E. unfold Archived in Ha. rewrite Ha in E. destruct (did_append _ _ _ _ _ E) as (_ & _ & -> & _).
    rewrite last_head_snoc. symmetry. apply (t_head _ _ _ Ht).
  - unfold MarkArchived in E. unfold Archived in Ha. rewrite Ha in E. injection E as <-. rewrite app_nil_r. symmetry. apply (t_head _ _ _ Ht).
Qed.

(** *** The invariant *)

Lemma marshalled_clean c rs bs plan :
  clean c rs -> marshalled bs plan -> Forall storable plan -> clean (c ++ unlines bs) (rs ++ plan).
Proof.
  intros (bs0 & -> & H0') Hm Hs. exists (bs0 ++ bs). rewrite unlines_app. split; [done|].
  apply Forall2_app; [done|]. induction Hm as [|b r bs plan Hb _ IH]; [constructor|].
  apply Forall_cons in Hs as [Hr Hs]. constructor; [by split|by apply IH].
Qed.

(** What is found when the file is opened again after an operation, however it
    went: the metadata and a prefix of the records it was to append. *)
Lemma reopened e s o plan s1 err now sid :
  sound s -> feasible e s o plan -> run_op e o s = (s1, err) ->
  exists k n c m', (k <= n <= length plan)%nat /\ did s s1 plan k err /\
    let rs := recs s ++ take n plan in
    let s2 := mkStore c true true rs m' (last_head rs) (last_cursor rs) in
    m' = metadata s /\
    Open sha256 open_ok now sid (content s1) = (c, Ok s2) /\
    (forall oi c' s', Open sha256 oi now sid (content s1) = (c', Ok s') -> c' = c /\ s' = s2) /\
    (complete c -> sound s2) /\ exists l, tree_at rs (last_head rs) l.
Proof.
  intros [Hf Hc Hm [l Ht]] [Hp Hs] E. destruct (op_did _ _ _ _ _ _ Hp E) as [k Hd].
  destruct (wrote_reads _ _ _ _ _ Hc Hs (d_wrote _ _ _ _ _ Hd)) as (n & c & Hn & Hr & Hcl).
  exists k, n, c, (metadata s). split; [done|]. split; [done|]. cbn zeta.
  pose proof (metadata_app _ (take n plan) _ Hm) as Hm'.
  destruct (Open_reads open_ok now sid _ _ _ _ Hr Hm') as [HO _].
  destruct (planned_tree _ _ _ _ _ n Ht Hp ltac:(lia)) as (hd' & l' & Ht').
  assert (Ht2 := Ht'). rewrite <- (t_head _ _ _ Ht') in Ht2.
  split_and!; [done|done| | |by exists l'].
  - intros oi c' s'. by apply (Open_reads oi now sid _ _ _ _ Hr Hm').
  - intros Hcomp. by apply (sound_opened _ _ _ l' hd'); [apply Hcl|..].
Qed.

Lemma session_sound s : session s -> sound s.
Proof.
  induction 1 as [o now sid c s Hne Hst HO|e o plan s s' _ [Hf Hc Hm [l Ht]] [Hp Hs] E|e o plan s s1 err oi now sid c s2 _ IH Hfe E HO Hcomp].
  - by eapply sound_new.
  - destruct (op_did _ _ _ _ _ _ Hp E) as [k Hd]. destruct (d_done _ _ _ _ _ Hd eq_refl) as (Hr & bs & Hb & Hco). split.
    + by rewrite (d_file _ _ _ _ _ Hd).
    + rewrite Hco, Hr. by apply marshalled_clean.
    + rewrite Hr, (d_meta _ _ _ _ _ Hd). by apply metadata_app.
    + destruct (planned_tree _ _ _ _ _ (length plan) Ht Hp (le_n _)) as (hd' & l' & Ht'). rewrite firstn_all in Ht'.
      exists l'. rewrite Hr, (op_head _ _ _ _ _ _ Ht Hp E), (t_head _ _ _ Ht'). done.
  - destruct (reopened _ _ _ _ _ _ now sid IH Hfe E) as (k & n & c2 & m' & _ & _ & _ & _ & Hu & Hso & _).
    destruct (Hu _ _ _ HO) as [-> ->]. by apply Hso.
Qed.

Lemma sound_view s l : tree_at (recs s) (head s) l -> ActiveView s = recordToMessage <$> l.*2.
Proof. intros Ht. unfold ActiveView. rewrite <- (t_head _ _ _ Ht). by apply (tree_view _ (head s)). Qed.

(** *** Commits *)

Lemma commit_known e prev fs m : dom m ∪ list_to_set (MsgID ∘ snd <$> fs) ⊆ dom (foldl index m (commit_plan e prev fs)).
Proof.
  revert prev m. induction fs as [|p fs IH]; intros prev m; [cbn; set_solver|].
  cbn [commit_plan foldl fmap list_fmap list_to_set compose].
  rewrite (index_skip _ (newHeadRecord _ _)), index_node by done.
  etrans; [|apply IH]. rewrite dom_insert_L. change (NodeID (commit_node e prev p).2) with (MsgID p.2). set_solver.
Qed.

Lemma commit_nothing e i prev msgs s :
  Forall (fun m => MsgID m = "" \/ MsgID m ∈ known_ids s) msgs -> commit_from e i prev msgs s = (s, ([], None)).
Proof.
  intros Hf. revert i prev. induction Hf as [|m ms Hm _ IH]; intros i prev; cbn; [done|].
  destruct Hm as [->|Hm]; [apply IH|]. unfold known_ids in Hm. apply elem_of_dom, hasID_nodes in Hm. rewrite Hm, orb_true_r. apply IH.
Qed.

(** The view after the first [n] records of a commit's plan. *)
Lemma commit_view e msgs s l n :
  tree_at (recs s) (head s) l ->
  let fs := fresh (known_ids s) 0 msgs in
  let rs := recs s ++ take n (commit_plan e (head s) fs) in
  (n <= length (commit_plan e (head s) fs))%nat ->
  last_head rs = last_id (head s) (take (Nat.div2 n) fs) /\
  buildActiveView rs (last_head rs) = ActiveView s ++ (viewed e <$> take (Nat.div2 n) fs).
Proof.
  intros Ht fs rs Hn. destruct (fresh_new s msgs) as [Hf Hd]. pose proof (commit_tree e _ _ _ _ n Ht Hf Hd Hn) as Hc.
  split; [apply (t_head _ _ _ Hc)|]. unfold rs, fs. rewrite (t_head _ _ _ Hc). rewrite (sound_view _ _ Ht).
  rewrite (view_rooted _ _ _ (t_path _ _ _ Hc) (t_nodup _ _ _ Hc)), !fmap_app. f_equal.
  rewrite !fmap_take, commit_nodes_view. done.
Qed.

Lemma halves k n m : (2 * k <= n)%nat -> (n <= 2 * m)%nat -> (k <= Nat.div2 n)%nat /\ (Nat.div2 n <= m)%nat.
Proof. intros H1 H2. pose proof (Nat.div2_odd n) as Hn. destruct (Nat.odd n); cbn in Hn; lia. Qed.

Lemma commit_effect e msgs s s' committed err now sid :
  session s ->
  let fs := fresh (known_ids s) 0 msgs in
  Forall storable (commit_plan e (head s) fs) ->
  Commit e msgs s = (s', (committed, err)) ->
  exists k n s2, (k <= n <= length fs)%nat /\
    (if err is Some _ then (k < length fs)%nat else k = length fs) /\
    committed = stamped e <$> take k fs /\
    ActiveView s' = ActiveView s ++ (viewed e <$> take k fs) /\
    Open sha256 open_ok now sid (content s') = (content s2, Ok s2) /\
    ActiveView s2 = ActiveView s ++ (viewed e <$> take n fs) /\
    (err = None -> forall e', Commit e' msgs s' = (s', ([], None))).
Proof.
  intros Hse fs Hs E. pose proof (session_sound _ Hse) as Hso. destruct (i_tree _ Hso) as [l Ht].
  destruct (commit_from_spec _ _ _ _ _ _ _ _ E) as (k & Hk & Hkl & Hc & Hst & Hw & _). fold fs in Hk, Hkl, Hc, Hst, Hw.
  destruct (wrote_reads _ _ _ _ _ (i_clean _ Hso) Hs Hw) as (n & c & Hn & Hr & _).
  pose proof (metadata_app _ (take n (commit_plan e (head s) fs)) _ (i_meta _ Hso)) as Hm.
  destruct (Open_reads open_ok now sid _ _ _ _ Hr Hm) as [HO _]. rewrite commit_plan_length in Hn.
  destruct (halves k n (length fs) ltac:(lia) ltac:(lia)) as [H1 H2].
  destruct (commit_view e msgs s l n Ht) as [_ Hv2]; [rewrite commit_plan_length; fold fs; lia|].
  destruct (commit_view e msgs s l (2 * k) Ht) as [Hh1 Hv1]; [rewrite commit_plan_length; fold fs; lia|].
  fold fs in Hv1, Hv2, Hh1. rewrite <- commit_plan_take in Hv1, Hh1. rewrite Nat.div2_double in Hh1, Hv1.
  match type of HO with _ = (_, Ok ?x) => exists k, (Nat.div2 n), x end.
  split_and!; [lia|lia|done|done| |exact HO|exact Hv2|].
  - rewrite Hst. unfold ActiveView at 1. cbn [recs head]. by rewrite <- Hh1.
  - intros ->. rewrite Hkl, firstn_all in Hst. intros e'. apply commit_nothing.
    eapply Forall_impl; [exact (fresh_covers (known_ids s) 0 msgs)|]. fold fs. intros m [?|Hm2]; [by left|right].
    unfold known_ids. rewrite Hst. cbn [recs]. rewrite nodes_app. by apply commit_known.
Qed.

(** C11: A commit is atomic message by message, for every outcome of its writes.
    The store is one of a session: created, led on by operations that succeeded
    and by crashes anywhere in an operation, each followed by opening the file
    again where that ends in a whole line; and the records of the commit are
    below the 1 MiB a line may have (a longer one locks the session:
    [a_long_record_locks_the_session]). The messages with a new id are then
    appended to the view in their order up to the first failure; what is returned
    is exactly what the view shows; a store opened from the file afterwards shows
    at least that and at most the one message more whose write was not reported
    as done, and nothing of the history is lost; committing a batch again after a
    success changes nothing. *)
Theorem commit_is_atomic e msgs s s' committed err now sid :
  session s ->
  let fs := fresh (known_ids s) 0 msgs in
  Forall storable (commit_plan e (head s) fs) ->
  Commit e msgs s = (s', (committed, err)) ->
  exists k n s2, (k <= n <= length fs)%nat /\
    (if err is Some _ then (k < length fs)%nat else k = length fs) /\
    committed = stamped e <$> take k fs /\
    ActiveView s' = ActiveView s ++ (viewed e <$> take k fs) /\
    Open sha256 open_ok now sid (content s') = (content s2, Ok s2) /\
    ActiveView s2 = ActiveView s ++ (viewed e <$> take n fs) /\
    (err = None -> forall e', Commit e' msgs s' = (s', ([], None))).
Proof. apply commit_effect. Qed.

(** *** Compaction *)

Lemma compact_effect e from to summary pre covered kept s s' err now sid :
  session s -> segment s from to pre covered kept ->
  new_ids (recs s) (compact_nodes e from to summary (top_id pre) kept) ->
  Forall storable (compact_plan e from to summary (top_id pre) kept) ->
  Compact e from to summary s = (s', err) ->
  let before := recordToMessage <$> (pre ++ covered ++ kept).*2 in
  let after := (recordToMessage <$> pre.*2) ++
    summary_message e to summary :: ((fun p => copied e p.1 p.2) <$> kept_messages 0 kept) in
  ActiveView s = before /\ ActiveView s' = (if err is Some _ then before else after) /\
  exists s2, Open sha256 open_ok now sid (content s') = (content s2, Ok s2) /\
    (ActiveView s2 = before \/ ActiveView s2 = after) /\ (err = None -> ActiveView s2 = after).
Proof.
  intros Hse Hsg Hi Hs E before after. pose proof (session_sound _ Hse) as Hso. destruct (i_tree _ Hso) as [l Ht].
  pose proof (segment_tree _ _ _ _ _ _ _ Ht Hsg) as ->.
  assert (Hp : planned e s (OpCompact from to summary) (compact_plan e from to summary (top_id pre) kept)) by by eapply planned_compact.
  destruct (Compact_spec _ _ _ _ _ _ _ _ _ _ (segment_head _ _ _ _ _ _ Hsg) Hsg E) as (k & Hk & Hst & _ & _).
  set (plan := compact_plan e from to summary (top_id pre) kept) in *.
  assert (Hview : forall n, (n <= length plan)%nat -> exists hd', last_head (recs s ++ take n plan) = hd' /\
    buildActiveView (recs s ++ take n plan) hd' = if decide (n = length plan) then after else before).
  { intros n Hn. pose proof (compact_tree e from to summary _ _ _ _ _ n Ht Hi Hn) as Hc. cbn zeta in Hc. fold plan in Hc.
    destruct (decide _); (eexists; split; [exact (t_head _ _ _ Hc)|]);
      rewrite (view_rooted _ _ _ (t_path _ _ _ Hc) (t_nodup _ _ _ Hc)); [|done].
    rewrite fmap_app, fmap_app, compact_nodes_view. done. }
  destruct (reopened e s _ _ _ _ now sid Hso (conj Hp Hs) E) as (k2 & n & c & m' & Hn & Hd & _ & HO & _).
  split; [by apply sound_view|]. split.
  - destruct (Hview k ltac:(destruct err; lia)) as (hd' & Hh & Hv). rewrite Hst. unfold ActiveView. cbn [recs head].
    assert (hd' = (if err is Some _ then head s else last_clone ("s_" +:+ to) (clone_plan e (clock e 0) 0 ("s_" +:+ to) kept))) as ->.
    { rewrite <- Hh. destruct err as [x|].
      - pose proof (compact_tree e from to summary _ _ _ _ _ k Ht Hi ltac:(fold plan; lia)) as Hc. cbn zeta in Hc. fold plan in Hc.
        rewrite decide_False in Hc by lia. apply (t_head _ _ _ Hc).
      - subst k. rewrite firstn_all. pose proof (op_head _ _ _ _ _ _ Ht Hp E) as Hoh. rewrite Hst in Hoh. by cbn [head] in Hoh. }
    rewrite Hv. destruct err; [by rewrite decide_False by lia|by rewrite decide_True].
  - match type of HO with _ = (_, Ok ?x) => exists x end. split; [exact HO|].
    destruct (Hview n ltac:(lia)) as (hd' & Hh & Hv). unfold ActiveView. cbn [recs head]. rewrite Hh, Hv. split.
    + destruct (decide _); auto.
    + intros ->. rewrite decide_True; [done|]. pose proof (d_count _ _ _ _ _ Hd) as Hc. cbn beta iota in Hc. fold plan in Hc. lia.
Qed.

(** C12: A compaction is atomic, for every outcome of its writes. The store is one
    of a session, as for the commits; the compaction names a segment of the
    active path, its new ids are unused, and its records are below the 1 MiB a
    line may have. It then replaces the covered segment of the view by one
    summary and keeps the messages before it and, under new ids, those behind it
    with their roles, texts and tool calls; if it fails the view is the old one.
    A store opened from the file afterwards shows the old view or the new one,
    the new one if the compaction reported success. *)
Theorem compact_is_atomic e from to summary pre covered kept s s' err now sid :
  session s -> segment s from to pre covered kept ->
  new_ids (recs s) (compact_nodes e from to summary (top_id pre) kept) ->
  Forall storable (compact_plan e from to summary (top_id pre) kept) ->
  Compact e from to summary s = (s', err) ->
  let before := recordToMessage <$> (pre ++ covered ++ kept).*2 in
  let after := (recordToMessage <$> pre.*2) ++
    summary_message e to summary :: ((fun p => copied e p.1 p.2) <$> kept_messages 0 kept) in
  ActiveView s = before /\ ActiveView s' = (if err is Some _ then before else after) /\
  exists s2, Open sha256 open_ok now sid (content s') = (content s2, Ok s2) /\
    (ActiveView s2 = before \/ ActiveView s2 = after) /\ (err = None -> ActiveView s2 = after).
Proof. apply compact_effect. Qed.

(** *** Reopening *)

(** C17: After a crash in any operation of a session, whatever its writes did and
    wherever they stopped, opening the file succeeds and gives back the identity
    of the session, every record from before and a prefix of the new ones, in
    order. The operation is one its callers may ask for (a compaction of a segment
    of the path with unused ids, a head that is a node, a checkpoint of a session
    that has one, a workspace that is not empty), and its records are below the
    1 MiB a line may have: after a longer one the file cannot be opened
    ([a_long_record_locks_the_session]). After a success the whole store comes
    back with its view, workspace, checkpoints and archived mark (the cursor is
    that of the last cursor record). What is opened is a session again when the
    file ends with a whole line ([a_torn_write_hides_the_history] is what comes of
    one that does not), and an archived session stays archived. *)
Theorem reopen_after_crash e o plan s s1 err now sid :
  session s -> feasible e s o plan -> run_op e o s = (s1, err) ->
  exists n s2, (n <= length plan)%nat /\
    Open sha256 open_ok now sid (content s1) = (content s2, Ok s2) /\
    recs s2 = recs s ++ take n plan /\ metadata s2 = metadata s /\ cursor s2 = last_cursor (recs s2) /\
    (err = None -> recs s2 = recs s1 /\ head s2 = head s1 /\ ActiveView s2 = ActiveView s1 /\
       Workspace s2 = Workspace s1 /\ Archived s2 = Archived s1 /\ forall limit, Checkpoints limit s2 = Checkpoints limit s1) /\
    (complete (content s2) -> session s2) /\
    (Archived s = true -> Archived s2 = true).
Proof.
  intros Hse [Hp Hs] E. pose proof (session_sound _ Hse) as Hso. destruct (i_tree _ Hso) as [l Ht].
  destruct (reopened e s _ _ _ _ now sid Hso (conj Hp Hs) E) as (k & n & c & m' & Hn & Hd & Hm & HO & _).
  exists n. match type of HO with _ = (_, Ok ?x) => exists x end. split_and!; [lia|exact HO|done|done|done| | |].
  - intros ->. destruct (d_done _ _ _ _ _ Hd eq_refl) as [Hr _]. pose proof (d_count _ _ _ _ _ Hd) as Hc. cbn in Hc.
    assert (n = length plan) as -> by lia. rewrite firstn_all, <- Hr in *. cbn [recs head].
    assert (Hh : last_head (recs s1) = head s1) by (by rewrite (op_head _ _ _ _ _ _ Ht Hp E), <- Hr).
    unfold ActiveView, Workspace, Archived, Checkpoints. cbn [recs head]. by rewrite Hh.
  - intros Hcomp. by apply (session_crash e o plan s s1 err open_ok now sid c).
  - unfold Archived, archivedFromRecords. cbn [recs]. rewrite existsb_app. by intros ->.
Qed.

(** *** The consolidation cursor *)

Definition real (m : Message) : bool := negb (String.eqb (MsgID m) "") && isRealMessage m.

Lemma after_id_suffix id l l' : after_id id l = Some l' -> exists l0, l = l0 ++ l'.
Proof.
  revert l'. induction l as [|m l IH]; intros l'; cbn; [done|]. destruct (String.eqb _ _).
  - intros [= <-]. by exists [m].
  - intros E. destruct (IH _ E) as [l0 ->]. by exists (m :: l0).
Qed.

Lemma after_id_found l m l' : MsgID m ∉ MsgID <$> l -> after_id (MsgID m) (l ++ m :: l') = Some l'.
Proof.
  induction l as [|x l IH]; cbn; intros Hn; [by rewrite String.eqb_refl|].
  apply not_elem_of_cons in Hn as [Hne Hn]. rewrite (proj2 (String.eqb_neq _ _)) by done. by apply IH.
Qed.

Lemma pending_suffix s : exists l0, List.filter real (ActiveView s) = l0 ++ PendingAfterCursor s.
Proof.
  unfold PendingAfterCursor. fold real. change (fun m => negb (String.eqb (MsgID m) "") && isRealMessage m) with real.
  destruct (String.eqb (cursor s) ""); [by exists []|]. destruct (after_id _ _) eqn:E; [by eapply after_id_suffix|by exists []].
Qed.

(** The records of a session are typed, so the ids the view shows are those of
    its nodes. *)
Lemma session_typed s r : session s -> r ∈ recs s -> typed r.
Proof.
  intros Hse Hin. destruct (i_clean _ (session_sound _ Hse)) as (bs & _ & Hbs).
  apply list_elem_of_lookup_1 in Hin as [i Hi]. by destruct (Forall2_lookup_r _ _ _ _ _ Hbs Hi) as (b & _ & _ & Hty & _).
Qed.

Lemma message_id r : typed r -> is_node r = true -> MsgID (recordToMessage r) = NodeID r.
Proof. by intros []. Qed.

Lemma view_ids_path s l : session s -> tree_at (recs s) (head s) l -> MsgID <$> ActiveView s = l.*1.
Proof.
  intros Hse Ht. rewrite (sound_view _ _ Ht).
  assert (Hl : Forall (fun p => nodes (recs s) !! p.1 = Some p.2) l).
  { rewrite <- (tree_path _ _ _ Ht). apply path_lookup. }
  clear Ht. induction Hl as [|[id r] l Hr _ IH]; cbn; [done|]. f_equal; [|exact IH]. cbn in Hr.
  destruct (nodes_lookup_node _ _ _ Hr) as (Hn & <- & Hin). by apply message_id; [eapply session_typed|].
Qed.

Lemma view_ids s : session s -> NoDup (MsgID <$> ActiveView s).
Proof.
  intros Hse. destruct (i_tree _ (session_sound _ Hse)) as [l Ht]. rewrite (view_ids_path _ _ Hse Ht). apply (t_nodup _ _ _ Ht).
Qed.

Lemma view_known s : session s -> Forall (fun m => MsgID m <> "" /\ MsgID m ∈ known_ids s) (ActiveView s).
Proof.
  intros Hse. destruct (i_tree _ (session_sound _ Hse)) as [l Ht]. apply Forall_forall. intros m Hm.
  assert (Hin : MsgID m ∈ l.*1) by (rewrite <- (view_ids_path _ _ Hse Ht); apply list_elem_of_fmap; by exists m).
  pose proof (rooted_subset _ _ _ (t_path _ _ _ Ht)) as Hs. assert (Hk : MsgID m ∈ known_ids s) by (apply Hs; set_solver).
  split; [|done]. intros E. unfold known_ids in Hk. rewrite E in Hk. apply elem_of_dom in Hk as [? Hk].
  by rewrite (w_empty _ (t_wf _ _ _ Ht)) in Hk.
Qed.

Lemma NoDup_filter_fmap {A B} (f : A -> B) (p : A -> bool) l : NoDup (f <$> l) -> NoDup (f <$> List.filter p l).
Proof.
  induction l as [|x l IH]; cbn; [done|]. intros [Hn Hd]%NoDup_cons. destruct (p x); [|by apply IH].
  cbn. constructor; [|by apply IH]. intros Hin. apply Hn. apply list_elem_of_fmap in Hin as (y & -> & Hy).
  apply list_elem_of_fmap. exists y. split; [done|]. apply list_elem_of_In. apply list_elem_of_In, List.filter_In in Hy. tauto.
Qed.

(** What was consolidated is not handed out again. After the cursor is
    advanced to the last pending message nothing is pending, and after a later
    commit exactly the committed messages are. *)
Theorem consolidated_once e1 e2 m s s1 msgs s2 committed :
  session s -> feasible e1 s (OpAdvanceCursor (MsgID m)) [newCursorRecord (MsgID m) (clock e1 0)] ->
  last (PendingAfterCursor s) = Some m ->
  AdvanceCursor e1 (MsgID m) s = (s1, None) ->
  Forall storable (commit_plan e2 (head s1) (fresh (known_ids s1) 0 msgs)) ->
  Commit e2 msgs s1 = (s2, (committed, None)) ->
  PendingAfterCursor s1 = [] /\
  PendingAfterCursor s2 = List.filter isRealMessage (viewed e2 <$> fresh (known_ids s1) 0 msgs).
Proof.
  intros Hse Hf Hl EA Hs EC.
  assert (Hse1 : session s1) by (eapply (session_op e1 (OpAdvanceCursor _)); eauto).
  destruct (pending_suffix s) as [l0 Hl0]. apply last_Some in Hl as [l1 Hl1]. rewrite Hl1, app_assoc in Hl0.
  unfold AdvanceCursor in EA. destruct (append_rec _ _ s) as [sa [|]] eqn:E; [done|]. injection EA as <-.
  destruct (append_rec_ok _ _ _ _ E) as [Hsa _].
  assert (Hv1 : ActiveView (set_cursor (MsgID m) sa) = ActiveView s).
  { pose proof (session_sound _ Hse) as Hso. destruct (i_tree _ Hso) as [l Ht].
    rewrite (sound_view _ _ Ht). apply sound_view. rewrite Hsa. cbn [set_cursor recs head]. by apply tree_plain. }
  set (s1 := set_cursor (MsgID m) sa) in *.
  pose proof (view_ids _ Hse1) as Hd. rewrite Hv1 in Hd.
  apply (NoDup_filter_fmap _ real) in Hd. rewrite Hl0, fmap_app in Hd. apply NoDup_app in Hd as (_ & Hd & _).
  assert (Hni : MsgID m ∉ MsgID <$> (l0 ++ l1)).
  { intros Hin. apply (Hd _ Hin). cbn. by left. }
  assert (Hne : String.eqb (MsgID m) "" = false).
  { assert (Hin : m ∈ List.filter real (ActiveView s)) by (rewrite Hl0; apply elem_of_app; right; by left).
    apply list_elem_of_In, List.filter_In in Hin as [_ Hre]. unfold real in Hre. by destruct (String.eqb _ _). }
  destruct (commit_effect e2 msgs s1 s2 committed None (clock e2 0) "" Hse1 Hs EC) as (k & n & _ & _ & Hk & _ & Hv2 & _).
  cbn in Hk. subst k. rewrite firstn_all in Hv2.
  destruct (commit_from_spec _ _ _ _ _ _ _ _ EC) as (k2 & _ & _ & _ & Hs2 & _).
  unfold PendingAfterCursor. change (fun m => negb (String.eqb (MsgID m) "") && isRealMessage m) with real.
  rewrite Hv2, Hv1, List.filter_app, Hl0. rewrite Hs2. cbn [cursor set_cursor s1]. rewrite Hne. split.
  - by rewrite after_id_found.
  - rewrite <- app_assoc. cbn [app]. rewrite after_id_found by done.
    destruct (fresh_spec (known_ids s1) 0 msgs) as [Hf2 _]. clear -Hf2.
    induction Hf2 as [|p fs [Hp _] _ IH]; cbn; [done|]. unfold real at 1. cbn [MsgID viewed at_time].
    rewrite (proj2 (String.eqb_neq _ _) Hp). cbn. by rewrite IH.
Qed.
End session.

(** ** The active view *)

(** The active view ends, whatever the records are, also when parents form a
    cycle or are missing: more rounds than there are nodes change nothing; no
    node is shown twice; the path goes from each node to its parent and stops
    only at the root, at an unknown node or at a node it has shown. *)
Theorem active_view_ends rs hd :
  (forall n, (size (nodes rs) < n)%nat -> rev (walk (nodes rs) n ∅ hd) = path rs hd) /\
  NoDup (path rs hd).*1 /\
  (length (buildActiveView rs hd) <= size (nodes rs))%nat /\
  exists stop, follows (nodes rs) hd (rev (path rs hd)) stop /\
    (stop = "" \/ nodes rs !! stop = None \/ stop ∈ (path rs hd).*1).
Proof.
  pose proof (path_nodup rs hd) as Hd. split_and!; [|done| |].
  - intros n Hn. unfold path. by rewrite walk_enough.
  - assert (Hl : (length (path rs hd) <= size (nodes rs))%nat).
    { rewrite <- (length_fmap fst), <- size_dom, <- (size_list_to_set (C := gset string) _ Hd). apply subseteq_size.
      intros id Hin. apply elem_of_list_to_set, list_elem_of_fmap in Hin as (p & -> & Hin).
      pose proof (path_lookup rs hd) as Hf. rewrite Forall_forall in Hf. apply elem_of_dom. eexists. by apply Hf. }
    unfold buildActiveView. destruct (String.eqb hd ""); cbn; [lia|]. by rewrite !length_fmap.
  - destruct (walk_follows (nodes rs) (S (size (nodes rs))) ∅ hd) as (stop & Hf & Hs).
    { rewrite difference_empty_L, size_dom. lia. }
    exists stop. unfold path. rewrite rev_involutive. split; [done|].
    destruct Hs as [?|[?|[?|Hin]]]; auto; [set_solver|]. right. right.
    apply list_elem_of_fmap in Hin as (p & -> & Hin). apply list_elem_of_fmap. exists p. split; [done|].
    apply list_elem_of_In. rewrite <- in_rev. by apply list_elem_of_In.
Qed.

(** ** Concrete sessions *)

Module Examples.
#[local] Existing Instance flat_codec.
#[local] Existing Instance flat_laws.

Definition no_sha : bytes -> string := fun _ => "".
Definition calm (t : Time) (id0 : string) : env := mkEnv (fun _ => aio_ok) (fun i => t + Z.of_nat i)%Z (fun j => id0 +:+ String (ascii_of_nat (48 + j)) "").
Definition said (role text id : string) : Message := mkMessage role text "" [] "" ∅ id 0%Z.

Definition nothing : Store := mkStore [] false false [] (mkMetadata "" 0%Z) "" "".
Definition opened (r : bytes * result store_error Store) : Store := match r.2 with Ok s => s | Err _ => nothing end.

Definition s0 : Store := opened (Open no_sha open_ok 10 "session_ab" []).
Definition hello : list Message := [said "user" "hi" "m_1"; said "assistant" "yes?" "m_2"; said "user" "bye" "m_3"].
Definition s1 : Store := (Commit (calm 20 "m_x") hello s0).1.

Ltac fits := repeat constructor; intros b [= <-]; by apply Z.ltb_lt; vm_compute.

Lemma s0_session : session no_sha s0.
Proof.
  apply (session_new no_sha open_ok 10%Z "session_ab" (content s0)); [done| |by vm_compute].
  split; [constructor|]. intros b [= <-]. by apply Z.ltb_lt; vm_compute.
Qed.

Lemma hello_storable : Forall storable (commit_plan (calm 20 "m_x") (head s0) (fresh (known_ids s0) 0 hello)).
Proof.
  assert (fresh (known_ids s0) 0 hello = [(0%nat, said "user" "hi" "m_1"); (1%nat, said "assistant" "yes?" "m_2"); (2%nat, said "user" "bye" "m_3")]) as -> by by vm_compute.
  assert (head s0 = "") as -> by by vm_compute. fits.
Qed.

Lemma s1_session : session no_sha s1.
Proof.
  eapply (session_op no_sha (calm 20 "m_x") (OpCommit hello) _ s0); [apply s0_session| |].
  - split; [apply planned_commit|apply hello_storable].
  - by vm_compute.
Qed.

(** The second head record is torn after seven bytes. *)
Definition torn_env : env :=
  mkEnv (fun i => if Nat.eqb i 3 then mkAio (WriteErr 7) true else aio_ok) (fun i => 20 + Z.of_nat i)%Z (fun _ => "").

Lemma commit_is_atomic_witness :
  exists s' committed k n s2,
    Commit torn_env hello s0 = (s', (committed, Some ErrWrite)) /\
    committed = stamped torn_env <$> take k (fresh (known_ids s0) 0 hello) /\ k = 1%nat /\
    Open no_sha open_ok 30 "" (content s') = (content s2, Ok s2) /\
    ActiveView s2 = ActiveView s0 ++ (viewed torn_env <$> take n (fresh (known_ids s0) 0 hello)).
Proof.
  destruct (Commit torn_env hello s0) as [s' [committed err]] eqn:E.
  assert (Herr : err = Some ErrWrite) by (change err with ((s', (committed, err)).2.2); rewrite <- E; by vm_compute).
  assert (Hc : length committed = 1%nat) by (change committed with ((s', (committed, err)).2.1); rewrite <- E; by vm_compute).
  destruct (commit_is_atomic no_sha torn_env hello s0 s' committed err 30 "" s0_session hello_storable E)
    as (k & n & s2 & Hn & Hk & Hcs & _ & HO & Hv & _).
  subst err. exists s', committed, k, n, s2. split_and!; [reflexivity|exact Hcs| |exact HO|exact Hv].
  rewrite Hcs, length_fmap, length_take in Hc. lia.
Defined.

(** The first two messages are folded, the third is copied. *)
Definition msg_node (id parent role text : string) (t : Time) : string * Rec :=
  (id, commit_record parent t (said role text id)).
Definition n1 := msg_node "m_1" "" "user" "hi" 20.
Definition n2 := msg_node "m_2" "m_1" "assistant" "yes?" 21.
Definition n3 := msg_node "m_3" "m_2" "user" "bye" 22.

Lemma s1_segment : segment s1 "m_1" "m_2" [] [n1; n2] [n3].
Proof. split; by vm_compute. Qed.

Lemma s1_new : new_ids (recs s1) (compact_nodes (calm 30 "m_x") "m_1" "m_2" "so far" (top_id []) [n3]).
Proof.
  split; [|repeat constructor; by vm_compute].
  assert ((compact_nodes (calm 30 "m_x") "m_1" "m_2" "so far" (top_id []) [n3]).*1 = ["s_m_2"; "m_x0"]) as -> by by vm_compute.
  repeat constructor; set_solver.
Qed.

Lemma s1_fits : Forall storable (compact_plan (calm 30 "m_x") "m_1" "m_2" "so far" (top_id []) [n3]).
Proof. fits. Qed.

Lemma compact_is_atomic_witness :
  exists s', Compact (calm 30 "m_x") "m_1" "m_2" "so far" s1 = (s', None) /\
    (Content <$> ActiveView s1) = ["hi"; "yes?"; "bye"] /\ (Content <$> ActiveView s') = ["so far"; "bye"] /\
    exists s2, Open no_sha open_ok 40 "" (content s') = (content s2, Ok s2) /\ (Content <$> ActiveView s2) = ["so far"; "bye"].
Proof.
  destruct (Compact (calm 30 "m_x") "m_1" "m_2" "so far" s1) as [s' err] eqn:E.
  assert (Herr : err = None) by (change err with ((s', err).2); rewrite <- E; by vm_compute). subst err.
  destruct (compact_is_atomic no_sha _ _ _ _ _ _ _ _ _ _ 40 "" s1_session s1_segment s1_new s1_fits E)
    as (H1 & H2 & s2 & HO & _ & H3).
  exists s'. split; [reflexivity|]. rewrite H1, H2. split; [by vm_compute|]. split; [by vm_compute|].
  exists s2. split; [exact HO|]. rewrite (H3 eq_refl). by vm_compute.
Defined.

(** Moving the head back to the first message, torn in the middle of its line. *)
Lemma reopen_after_crash_witness :
  exists s' s2, SetHead (mkEnv (fun _ => mkAio (WriteErr 100) true) (fun _ => 30%Z) (fun _ => "")) "m_1" s1 = (s', Some ErrWrite) /\
    Open no_sha open_ok 40 "" (content s') = (content s2, Ok s2) /\ metadata s2 = metadata s1 /\ recs s1 `prefix_of` recs s2.
Proof.
  set (e := mkEnv (fun _ => mkAio (WriteErr 100) true) (fun _ => 30%Z) (fun _ => "")).
  destruct (SetHead e "m_1" s1) as [s' err] eqn:E.
  assert (Herr : err = Some ErrWrite) by (change err with ((s', err).2); rewrite <- E; by vm_compute).
  assert (Hf : feasible e s1 (OpSetHead "m_1") [newHeadRecord "m_1" (clock e 0)]).
  { split; [apply planned_head; [done|by exists n1.2; vm_compute]|fits]. }
  destruct (reopen_after_crash no_sha e (OpSetHead "m_1") _ s1 s' err 40 "" s1_session Hf E)
    as (n & s2 & _ & HO & Hr & Hm & _).
  exists s', s2. subst err. split_and!; [reflexivity|exact HO|exact Hm|]. rewrite Hr. by apply prefix_app_r.
Defined.

Definition later : list Message := [said "user" "again" "m_4"].

Lemma consolidated_once_witness :
  exists sa sb committed, AdvanceCursor (calm 30 "") "m_3" s1 = (sa, None) /\
    Commit (calm 40 "") later sa = (sb, (committed, None)) /\
    length (PendingAfterCursor s1) = 3%nat /\ PendingAfterCursor sa = [] /\ (Content <$> PendingAfterCursor sb) = ["again"].
Proof.
  destruct (AdvanceCursor (calm 30 "") "m_3" s1) as [sa err] eqn:EA.
  assert (Herr : err = None) by (change err with ((sa, err).2); rewrite <- EA; by vm_compute). subst err.
  destruct (Commit (calm 40 "") later sa) as [sb [committed err]] eqn:EC.
  assert (Hsa : sa = (AdvanceCursor (calm 30 "") "m_3" s1).1) by by rewrite EA.
  assert (Hfr : fresh (known_ids sa) 0 later = [(0%nat, said "user" "again" "m_4")]) by (rewrite Hsa; by vm_compute).
  assert (Hhd : head sa = "m_3") by (rewrite Hsa; by vm_compute).
  assert (Herr : err = None).
  { change err with ((sb, (committed, err)).2.2). rewrite <- EC, Hsa. by vm_compute. }
  subst err.
  assert (Hs : Forall storable (commit_plan (calm 40 "") (head sa) (fresh (known_ids sa) 0 later))) by (rewrite Hfr, Hhd; fits).
  assert (Hl : last (PendingAfterCursor s1) = Some (mkMessage "user" "bye" "" [] "" ∅ "m_3" 22%Z)) by by vm_compute.
  assert (Hf : feasible (calm 30 "") s1 (OpAdvanceCursor "m_3") [newCursorRecord "m_3" (clock (calm 30 "") 0)]).
  { split; [apply planned_cursor|fits]. }
  destruct (consolidated_once no_sha (calm 30 "") (calm 40 "") (mkMessage "user" "bye" "" [] "" ∅ "m_3" 22%Z)
    s1 sa later sb committed s1_session Hf Hl EA Hs EC) as [H1 H2].
  exists sa, sb, committed. rewrite H1, H2, Hfr. split_and!; [reflexivity|exact EC|by vm_compute|done|by vm_compute].
Defined.

(** *** Limits *)

(** The cursor a compaction moves to a copy is not written: the store opened
    from the file hands the consolidated message out again. *)
Example a_moved_cursor_is_not_persisted :
  let '(sa, ea) := AdvanceCursor (calm 30 "") "m_3" s1 in
  let '(sb, eb) := Compact (calm 40 "m_x") "m_1" "m_2" "so far" sa in
  let sc := opened (Open no_sha open_ok 50 "" (content sb)) in
  ea = None /\ eb = None /\ PendingAfterCursor sa = [] /\ PendingAfterCursor sb = [] /\
  (Content <$> PendingAfterCursor sc) = ["bye"].
Proof. by vm_compute. Qed.

(** A write that failed half way leaves its bytes; the next message is written
    behind them on the same line and cannot be read, but the head record on the
    following line names it: after reopening the whole history is gone from the
    view. *)
Example a_torn_write_hides_the_history :
  let '(sa, (_, ea)) := Commit (mkEnv (fun _ => mkAio (WriteErr 9) true) (fun _ => 30%Z) (fun _ => "")) [said "user" "lost" "m_4"] s1 in
  let '(sb, (_, eb)) := Commit (calm 40 "") [said "user" "kept" "m_5"] sa in
  let sc := opened (Open no_sha open_ok 50 "" (content sb)) in
  ea = Some ErrWrite /\ eb = None /\ (Content <$> ActiveView sb) = ["hi"; "yes?"; "bye"; "kept"] /\
  SessionID (metadata sc) = "session_ab" /\ ActiveView sc = [].
Proof. by vm_compute. Qed.

(** Folding the same segment again after going back reuses the id of the
    summary: the first branch now shows the second summary. *)
Example the_second_summary_replaces_the_first :
  let sa := (Compact (calm 30 "m_x") "m_1" "m_2" "first" s1).1 in
  let sb := (SetHead (calm 40 "") "m_3" sa).1 in
  let sc := (Compact (calm 50 "m_y") "m_1" "m_2" "second" sb).1 in
  let sd := (SetHead (calm 60 "") (head sa) sc).1 in
  (Content <$> ActiveView sa) = ["first"; "bye"] /\ (Content <$> ActiveView sd) = ["second"; "bye"].
Proof. by vm_compute. Qed.
End Examples.

(** A record of 1 MiB is written, but no file that holds it opens again. *)
Lemma a_long_record_locks_the_session `{RecordCodec} sha oi now sid b :
  NL ∉ b -> (maxLine <= blen b)%Z -> o_dir oi = true -> o_lock oi = true ->
  Open sha oi now sid (b ++ [NL]) = (b ++ [NL], Err ErrLoad).
Proof.
  intros Hn Hl Hd Ho. unfold Open. rewrite Hd, Ho. cbn [negb].
  assert (loadRecords (b ++ [NL]) = None) as ->; [|done].
  unfold loadRecords, scanJSONL, scan_lines.
  replace (b ++ [NL]) with (unlines [b] ++ []) by (cbn; by rewrite app_nil_r).
  rewrite raw_tokens_unlines; [|by repeat constructor|apply not_elem_of_nil]. cbn.
  by rewrite (proj2 (Z.leb_le _ _) Hl).
Qed.
