(* ===== verification/Compressor.v ===== *)
(** * ai-runtime/middlewares: chat histories and their compression

    [compressor.go], [compression.go] and the injection of [memory.go], with the
    shape of histories that model providers accept: every message with tool
    calls is followed by exactly one result per call. The provider is an
    argument. *)

From S2P Require Import Prelude GoString SessionRecord.
#[local] Open Scope string_scope.
#[local] Open Scope list_scope.

(** ** Histories *)

Definition is_call (m : Message) : bool :=
  String.eqb (Role m) "assistant" && negb (match ToolCalls m with [] => true | _ => false end).

Definition result_of (c : ToolCall) (m : Message) : Prop := Role m = "tool" /\ ToolCallID m = ID c.

(** The results of the calls of a message follow it, in the order of the calls. *)
Inductive paired : list Message -> Prop :=
  | paired_nil : paired []
  | paired_plain m h : Role m <> "tool" -> is_call m = false -> paired h -> paired (m :: h)
  | paired_call m rs h : is_call m = true -> Forall2 result_of (ToolCalls m) rs -> paired h -> paired (m :: rs ++ h).

(** A place where a history may be cut: no result behind it, no call before it. *)
Definition safe_cut (a b : list Message) : Prop :=
  (forall m b', b = m :: b' -> Role m <> "tool") /\ (forall a' m, a = a' ++ [m] -> is_call m = false).

Lemma paired_app a b : paired a -> paired b -> paired (a ++ b).
Proof.
  induction 1 as [|m h Hr Hc _ IH|m rs h Hc Hrs _ IH]; intros Hb; [done| |]; cbn.
  - apply paired_plain; auto.
  - rewrite <- app_assoc. apply paired_call; auto.
Qed.

Lemma safe_cut_tail x a b : safe_cut (x ++ a) b -> safe_cut a b.
Proof. intros [H1 H2]. split; [done|]. intros a' m ->. apply (H2 (x ++ a')). by rewrite app_assoc. Qed.

Lemma paired_cut a b : paired (a ++ b) -> safe_cut a b -> paired a /\ paired b.
Proof.
  intros Hp. remember (a ++ b) as h eqn:E. revert a b E. induction Hp as [|m h Hr Hc Hp IH|m rs h Hc Hrs Hp IH]; intros a b E Hs.
  - symmetry in E. apply app_eq_nil in E as [-> ->]. split; constructor.
  - destruct a as [|m' a]; [cbn in E; subst; split; [constructor|by apply paired_plain]|].
    cbn in E. injection E as <- ->. destruct (IH a b eq_refl (safe_cut_tail [m] _ _ Hs)). split; [by apply paired_plain|done].
  - destruct a as [|m' a]; [cbn in E; subst; split; [constructor|by apply paired_call]|].
    cbn in E. injection E as <- E. destruct (app_eq_inv _ _ _ _ E) as [(k & -> & ->)|(k & -> & ->)].
    + destruct k as [|x k].
      * cbn in *. rewrite app_nil_r in Hrs. split; [|done]. rewrite <- (app_nil_r a). apply paired_call; [done|done|constructor].
      * exfalso. apply Forall2_app_inv_r in Hrs as (? & l & _ & Hx & _). inversion Hx as [|c y ? ? [Hx1 _]]; subst.
        by apply (proj1 Hs x (k ++ h)).
    + destruct (IH k b eq_refl (safe_cut_tail (m :: rs) k b Hs)). split; [by apply paired_call|done].
Qed.

(** A message that is no call and no result can stand anywhere between pairs. *)
Definition plain_message (m : Message) : Prop := Role m <> "tool" /\ is_call m = false.

Lemma paired_one m : plain_message m -> paired [m].
Proof. intros [? ?]. by apply paired_plain; [..|constructor]. Qed.

Lemma paired_snoc h m : paired h -> plain_message m -> paired (h ++ [m]).
Proof. intros Hh Hm. apply paired_app; [done|by apply paired_one]. Qed.

(** In front of a message that is no result the history may be cut. *)
Lemma paired_before a m b : paired (a ++ m :: b) -> Role m <> "tool" -> paired a /\ paired (m :: b).
Proof.
  intros Hp Hm. apply paired_cut; [done|]. split; [by intros ? ? [= <- <-]|]. intros a' x ->.
  destruct (is_call x) eqn:Hx; [exfalso|done]. rewrite <- app_assoc in Hp. cbn in Hp.
  remember (a' ++ x :: m :: b) as h eqn:E. revert a' E. induction Hp as [|y h Hr Hc Hp IH|y rs h Hc Hrs Hp IH]; intros a' E.
  - by destruct a'.
  - destruct a' as [|y' a']; injection E as <- E; [congruence|]. by eapply IH.
  - assert (Hne : rs <> []).
    { intros ->. apply Forall2_nil_inv_r in Hrs. unfold is_call in Hc. rewrite Hrs in Hc. by rewrite andb_false_r in Hc. }
    destruct a' as [|y' a']; injection E as <- E.
    + destruct rs as [|z rs]; [done|]. injection E as -> _. by apply Forall2_cons_inv_r in Hrs as (c & ? & [? _] & _).
    + destruct (app_eq_inv _ _ _ _ E) as [(k & -> & Ek)|(k & -> & ->)]; [|by eapply IH].
      destruct k as [|z k]; [by eapply (IH []); cbn in Ek |- *; rewrite Ek|]. injection Ek as <- Ek.
      apply Forall2_app_inv_r in Hrs as (? & l & _ & Hz & _). apply Forall2_cons_inv_r in Hz as (c & ? & [Hz _] & _).
      unfold is_call in Hx. by rewrite Hz in Hx.
Qed.

(** ** The compressor *)

(** [history[i].Role != "tool"] and [history[i-1]] is no call. *)
Definition cut_ok (history : list Message) (split : nat) : bool :=
  match history !! split, history !! pred split with
  | Some m, Some prev => negb (String.eqb (Role m) "tool") && negb (is_call prev)
  | _, _ => false
  end.

(** [for split >= 2 { ...; split-- }] *)
Fixpoint split_loop (history : list Message) (split : nat) : option nat :=
  match split with
  | O | 1%nat => None
  | S p => if cut_ok history split then Some split else split_loop history p
  end.

Definition splitPoint (keepLast : Z) (history : list Message) : option nat :=
  if (keepLast <=? 0)%Z || (Z.of_nat (length history) <=? keepLast + 1)%Z then None
  else split_loop history (length history - Z.to_nat keepLast)%nat.

(** The number of leading system messages. *)
Fixpoint leading_system (history : list Message) : nat :=
  match history with
  | [] => O
  | m :: h => if String.eqb (Role m) "system" then S (leading_system h) else O
  end.

Record Compressor := mkCompressor { keepLast : Z; protectSystem : bool }.
Record CompressReport := mkReport { BeforeMsgs : Z; AfterMsgs : Z; Tokens : Z }.

(** A message the middlewares build. *)
Definition system_message (text : string) : Message := mkMessage "system" text "" [] "" ∅ "" 0%Z.

Section compress.
(** [provider.Chat] on the old part: the content of the first choice and the
    reported total of tokens, if any; [None]: an error or no choices.
    [core.EstimateTokens] measures the marshalled messages. *)
Context (chat : list Message -> option (string * option Z)).
Context (EstimateTokens : list Message -> Z).

Definition summaryPrompt : string :=
  "Summarize the conversation below for a coding assistant that must continue the work." +:+ String "010" "" +:+
  "Preserve: decided facts and constraints, file paths, shell commands run and their key " +:+
  "results, tool outputs that matter, the current task state and any pending next steps." +:+ String "010" "" +:+
  "Drop: greetings, repetition, full tool output dumps." +:+ String "010" "" +:+
  "Output a single dense plain-text paragraph, no headers, no bullet lists.".

Definition summarize (old : list Message) : option (string * option Z) :=
  match chat (system_message summaryPrompt :: old) with
  | Some (text, usage) => Some (TrimSpace text, usage)
  | None => None
  end.

(** [None]: an error; the report is the callback's. *)
Definition Compress (c : Compressor) (history : list Message) : option (list Message * option CompressReport) :=
  let keepHead := if protectSystem c then leading_system history else O in
  let body := drop keepHead history in
  match splitPoint (keepLast c) body with
  | None => Some (history, None)
  | Some split =>
      let old := take split body in
      let recent := drop split body in
      match summarize old with
      | None => None
      | Some (summary, usage) =>
          let out := take keepHead history ++ system_message summary :: recent in
          let reported := match usage with Some t => t | None => 0%Z end in
          let tokens := if (reported =? 0)%Z then EstimateTokens old else reported in
          Some (out, Some (mkReport (Z.of_nat (length history)) (Z.of_nat (length out)) tokens))
      end
  end.

(** [CompressionMiddleware.OnBeforeModel]: [threshold] is
    [int(float64(window) * compressAt)]; [enabled]: both are positive. The state
    is the flag [done]. *)
Definition compress_before_model (c : Compressor) (enabled : bool) (threshold : Z) (done : bool) (history : list Message)
  : list Message * bool :=
  if done || negb enabled then (history, done)
  else if (EstimateTokens history <? threshold)%Z then (history, done)
  else match Compress c history with
  | None => (history, done)
  | Some (compacted, _) => (compacted, done || (threshold <=? EstimateTokens compacted)%Z)
  end.
End compress.

(** [insertSystemBlock] of memory.go: before the last user message, or at the end. *)
Fixpoint last_user (h : list Message) : option nat :=
  match h with
  | [] => None
  | m :: h' =>
      match last_user h' with
      | Some i => Some (S i)
      | None => if String.eqb (Role m) "user" then Some O else None
      end
  end.

Definition insertSystemBlock (h : list Message) (block : string) : list Message :=
  let at_ := match last_user h with Some i => i | None => length h end in
  take at_ h ++ system_message block :: drop at_ h.

Definition MemoryBlockPrefix : string := "[记忆]".

(** [stripMemoryBlocks] of agent/session.go. *)
Definition stripMemoryBlocks (msgs : list Message) : list Message :=
  List.filter (fun m => negb (String.eqb (Role m) "system" && HasPrefix (Content m) MemoryBlockPrefix)) msgs.

(** ** The cut *)

Lemma split_loop_spec h n s :
  split_loop h n = Some s <->
  (2 <= s <= n)%nat /\ cut_ok h s = true /\ forall s', (s < s' <= n)%nat -> cut_ok h s' = false.
Proof.
  induction n as [|n IH]; [cbn; split; [done|lia]|]. destruct n as [|n]; [cbn; split; [done|lia]|].
  change (split_loop h (S (S n))) with (if cut_ok h (S (S n)) then Some (S (S n)) else split_loop h (S n)).
  destruct (cut_ok h (S (S n))) eqn:E.
  - split.
    + intros [= <-]. split_and!; [lia|lia|done|]. intros s' Hs'. lia.
    + intros (Hs & Hc & Hm). f_equal. destruct (decide (s = S (S n))); [done|]. rewrite Hm in E by lia. done.
  - rewrite IH. split; intros (Hs & Hc & Hm); split_and!; try lia; try done.
    + intros s' Hs'. destruct (decide (s' = S (S n))) as [->|]; [done|]. apply Hm. lia.
    + destruct (decide (s = S (S n))) as [->|]; [congruence|lia].
    + intros s' Hs'. apply Hm. lia.
Qed.

Lemma split_loop_none h n : split_loop h n = None <-> forall s, (2 <= s <= n)%nat -> cut_ok h s = false.
Proof.
  split.
  - intros Hn s. induction n as [|n IH]; [lia|]. destruct n as [|n]; [lia|]. intros Hs.
    change (split_loop h (S (S n))) with (if cut_ok h (S (S n)) then Some (S (S n)) else split_loop h (S n)) in Hn.
    destruct (cut_ok h (S (S n))) eqn:E; [done|]. destruct (decide (s = S (S n))) as [->|]; [done|]. apply IH; [done|lia].
  - intros Hn. destruct (split_loop h n) as [s|] eqn:E; [|done]. apply split_loop_spec in E as (Hs & Hc & _).
    rewrite Hn in Hc by lia. done.
Qed.

(** The split point is the last safe cut: among all places that leave at
    least two messages in front and [keepLast] behind, the last one with no tool
    result behind it and no call in front of it; there is none exactly when no
    place is safe. *)
Theorem splitPoint_is_the_last_safe_cut k h :
  (forall s, splitPoint k h = Some s <->
     (0 < k)%Z /\ (2 <= s)%nat /\ (Z.of_nat s + k <= Z.of_nat (length h))%Z /\ (k + 1 < Z.of_nat (length h))%Z /\
     cut_ok h s = true /\ forall s', (s < s')%nat -> (Z.of_nat s' + k <= Z.of_nat (length h))%Z -> cut_ok h s' = false) /\
  (splitPoint k h = None <->
     (k <= 0)%Z \/ forall s, (2 <= s)%nat -> (Z.of_nat s + k <= Z.of_nat (length h))%Z -> cut_ok h s = false).
Proof.
  unfold splitPoint. destruct (Z.leb_spec k 0) as [Hk|Hk]; cbn [orb].
  { split; [intros s; split; [done|lia]|]. split; [by left|done]. }
  destruct (Z.leb_spec (Z.of_nat (length h)) (k + 1)) as [Hl|Hl].
  { split; [intros s; split; [done|lia]|]. split; [intros _; right; lia|done]. }
  split.
  - intros s. rewrite split_loop_spec. split.
    + intros (Hs & Hc & Hm). split_and!; try done; try lia. intros s' H1 H2. apply Hm. lia.
    + intros (_ & H2 & H3 & _ & Hc & Hm). split_and!; try done; try lia. intros s' Hs'. apply Hm; lia.
  - rewrite split_loop_none. split.
    + intros Hn. right. intros s H1 H2. apply Hn. lia.
    + intros [?|Hn]; [lia|]. intros s Hs. apply Hn; lia.
Qed.

Lemma cut_ok_safe h s : cut_ok h s = true -> (0 < s)%nat -> safe_cut (take s h) (drop s h).
Proof.
  unfold cut_ok. intros Hc Hs. destruct (h !! s) as [m|] eqn:E1; [|done].
  destruct (h !! pred s) as [p|] eqn:E2; [|done]. apply andb_true_iff in Hc as [H1 H2]. split.
  - intros x b' E. rewrite (drop_S _ _ _ E1) in E. injection E as <- _.
    apply negb_true_iff, String.eqb_neq in H1. done.
  - intros a' x E. destruct s as [|s]; [lia|]. cbn in E2. rewrite (take_S_r _ _ _ E2) in E.
    apply app_inj_tail in E as [_ <-]. by apply negb_true_iff in H2.
Qed.

Lemma splitPoint_safe k h s : splitPoint k h = Some s ->
  safe_cut (take s h) (drop s h) /\ (2 <= s)%nat /\ (Z.of_nat s + k <= Z.of_nat (length h))%Z /\ (0 < k)%Z.
Proof.
  unfold splitPoint. destruct (Z.leb_spec k 0); [done|]. destruct (Z.leb_spec (Z.of_nat (length h)) (k + 1)); [done|].
  cbn [orb]. intros (Hs & Hc & _)%split_loop_spec. split_and!; [apply cut_ok_safe; [done|lia]|lia..].
Qed.

(** ** Compression keeps histories acceptable *)

Lemma leading_system_plain h : Forall (fun m => Role m = "system") (take (leading_system h) h).
Proof.
  induction h as [|m h IH]; cbn; [constructor|]. destruct (String.eqb_spec (Role m) "system"); constructor; auto.
Qed.

Lemma leading_system_le h : (leading_system h <= length h)%nat.
Proof. induction h as [|m h IH]; cbn; [lia|]. destruct (String.eqb _ _); lia. Qed.

Lemma system_plain m : Role m = "system" -> plain_message m.
Proof. intros E. split; [by rewrite E|]. unfold is_call. by rewrite E. Qed.

Lemma paired_systems l : Forall (fun m => Role m = "system") l -> paired l.
Proof. induction 1 as [|m l Hm _ IH]; [constructor|]. destruct (system_plain _ Hm). by apply paired_plain. Qed.

Lemma paired_drop_systems l h : Forall (fun m => Role m = "system") l -> paired (l ++ h) -> paired h.
Proof.
  induction 1 as [|m l Hm _ IH]; [done|]. cbn. intros Hp. apply IH.
  inversion Hp as [|? ? ? ? Hp'|? rs h' Hc]; subst; [done|]. unfold is_call in Hc. by rewrite Hm in Hc.
Qed.

Lemma compress_shape chat estimate c history out report :
  paired history -> Compress chat estimate c history = Some (out, report) ->
  paired out /\
  ((out = history /\ report = None) \/
   exists hd old recent text, history = hd ++ old ++ recent /\ out = hd ++ system_message text :: recent /\
     Forall (fun m => Role m = "system") hd /\ (protectSystem c = false -> hd = []) /\
     paired old /\ paired recent /\ (2 <= length old)%nat /\ (keepLast c <= Z.of_nat (length recent))%Z /\
     (length out < length history)%nat /\ is_Some report).
Proof.
  unfold Compress. intros Hp. set (k := if protectSystem c then leading_system history else O).
  assert (Hhd : Forall (fun m => Role m = "system") (take k history)).
  { unfold k. destruct (protectSystem c); [apply leading_system_plain|constructor]. }
  assert (Hbody : paired (drop k history)).
  { apply (paired_drop_systems (take k history)); [done|]. by rewrite take_drop. }
  destruct (splitPoint (keepLast c) (drop k history)) as [s|] eqn:Es; [|intros [= <- <-]; auto].
  destruct (splitPoint_safe _ _ _ Es) as (Hcut & Hs & Hlen & Hkl).
  destruct (summarize _ _) as [[text usage]|]; [|done]. intros [= <- <-].
  rewrite <- (take_drop s (drop k history)) in Hbody. destruct (paired_cut _ _ Hbody Hcut) as [Hold Hrec].
  split.
  - apply paired_app; [by apply paired_systems|]. by apply paired_plain.
  - right. exists (take k history), (take s (drop k history)), (drop s (drop k history)), text.
    rewrite length_drop in Hlen. split_and!; try done.
    + by rewrite !take_drop.
    + unfold k. by intros ->.
    + rewrite length_take, length_drop. lia.
    + rewrite !length_drop. lia.
    + rewrite length_app, length_take. cbn [length]. rewrite !length_drop. lia.
Qed.

(** Compression keeps a history acceptable and loses only what the summary
    stands for. If it changes the history, it replaces a segment of at least two
    messages, itself made of whole call and result groups, by one summary and
    keeps everything behind it, at least [keepLast] messages, and in front of it
    only the leading system messages, if they are protected; the result is
    shorter. *)
Theorem compress_keeps_pairs chat estimate c history out report :
  paired history -> Compress chat estimate c history = Some (out, report) ->
  paired out /\
  ((out = history /\ report = None) \/
   exists hd old recent text, history = hd ++ old ++ recent /\ out = hd ++ system_message text :: recent /\
     Forall (fun m => Role m = "system") hd /\ (protectSystem c = false -> hd = []) /\
     paired old /\ paired recent /\ (2 <= length old)%nat /\ (keepLast c <= Z.of_nat (length recent))%Z /\
     (length out < length history)%nat /\ is_Some report).
Proof. apply compress_shape. Qed.

(** What the other middlewares do to a history keeps it acceptable too. *)
Lemma compress_before_model_pairs chat estimate c enabled threshold done_ h :
  paired h -> paired (compress_before_model chat estimate c enabled threshold done_ h).1.
Proof.
  intros Hp. unfold compress_before_model. destruct (done_ || negb enabled); [done|].
  destruct (_ <? _)%Z; [done|]. destruct (Compress _ _ _ _) as [[out rep]|] eqn:E; [|done].
  by apply (compress_shape _ _ _ _ _ _ Hp) in E as [? _].
Qed.

Lemma last_user_spec h i : last_user h = Some i -> exists m, h !! i = Some m /\ Role m = "user".
Proof.
  revert i. induction h as [|m h IH]; intros i; cbn; [done|]. destruct (last_user h) as [j|].
  - intros [= <-]. cbn. by apply IH.
  - destruct (String.eqb_spec (Role m) "user"); [|done]. intros [= <-]. by exists m.
Qed.

Lemma insertSystemBlock_pairs h block : paired h -> paired (insertSystemBlock h block).
Proof.
  intros Hp. unfold insertSystemBlock. assert (Hb : plain_message (system_message block)) by by apply system_plain.
  destruct (last_user h) as [i|] eqn:E.
  - destruct (last_user_spec _ _ E) as (m & Hm & Hr). rewrite <- (take_drop i h), (drop_S _ _ _ Hm) in Hp.
    apply paired_before in Hp as [H1 H2]; [|by rewrite Hr]. rewrite (drop_S _ _ _ Hm).
    apply paired_app; [done|]. destruct Hb. by apply paired_plain.
  - rewrite firstn_all, drop_all. by apply paired_snoc.
Qed.

(** What was injected is stripped again. *)
Lemma strip_insert h block :
  HasPrefix block MemoryBlockPrefix = true -> stripMemoryBlocks (insertSystemBlock h block) = stripMemoryBlocks h.
Proof.
  intros Hb. unfold stripMemoryBlocks, insertSystemBlock. set (i := match last_user h with Some i => i | None => length h end).
  rewrite List.filter_app. cbn [List.filter system_message Role Content]. rewrite Hb. cbn.
  by rewrite <- List.filter_app, take_drop.
Qed.

(** ** A concrete compression *)

Module Examples.
Definition said (role text : string) : Message := mkMessage role text "" [] "" ∅ "" 0%Z.
Definition asked : Message := mkMessage "assistant" "" "" [mkToolCall "c1" "function" "bash" "{}"] "" ∅ "" 0%Z.
Definition result : Message := mkMessage "tool" "ok" "c1" [] "" ∅ "" 0%Z.

(** Two messages are to be kept, but the cut may not separate the call from its
    result. *)
Definition chat_log : list Message := [said "system" "prompt"; said "user" "a"; said "assistant" "b"; asked; result; said "user" "c"].
Definition echo : list Message -> option (string * option Z) := fun ms => Some (" short ", Some 9%Z).

Lemma chat_log_paired : paired chat_log.
Proof.
  do 3 (apply paired_plain; [done|done|]). apply (paired_call asked [result]); [done|by repeat constructor|].
  by apply paired_one.
Qed.

Lemma compress_keeps_pairs_witness :
  exists out report, Compress echo (fun _ => 0%Z) (mkCompressor 2 true) chat_log = Some (out, report) /\
    paired out /\ (Content <$> out) = ["prompt"; "short"; ""; "ok"; "c"].
Proof.
  eexists _, _. split; [reflexivity|]. split; [|by vm_compute].
  apply (compress_keeps_pairs echo (fun _ => 0%Z) (mkCompressor 2 true) chat_log _ _ chat_log_paired eq_refl).
Defined.
End Examples.
