(* ===== verification/Capability.v ===== *)
(** * ai-runtime/agent/capability.go: tools that run at the client

    The registry of the connections that can execute a client's tools, and the
    call of such a tool, which waits for a connection to come back. A call is a
    thread: registration, look-up, execution and the select are its steps.
    Channels of capacity one live in a heap, since two calls may share one. The
    epoch of the registry and of a binding are ghosts: they count the calls of
    [Bind]. The schema of a proxy tool is not part of the model. *)

From S2P Require Import Prelude.
#[local] Open Scope string_scope.
#[local] Open Scope list_scope.

Definition defaultCapabilityWaitTimeout : Z := 45 * Second.
Definition maxCapabilityWaitTimeout : Z := 55 * Second.

Definition resolveCapabilityWait (waitTimeout : Z) : Z :=
  if (waitTimeout <=? 0)%Z then defaultCapabilityWaitTimeout
  else if (maxCapabilityWaitTimeout <? waitTimeout)%Z then maxCapabilityWaitTimeout
  else waitTimeout.

(** ** The registry *)

Record capabilityBinding := mkBinding {
  ToolNames : list string;
  ExpiresAt : Time;
  exec : nat;
  b_epoch : nat;
}.

Record CapabilityRegistry := mkRegistry {
  bindings : gmap string (gmap string capabilityBinding);
  waiters : gmap string nat;
  chans : gmap nat bool;
  next_chan : nat;
  epoch : nat;
}.

Definition NewCapabilityRegistry : CapabilityRegistry := mkRegistry ∅ ∅ ∅ 0 0.

Definition capabilityWaitKey (sessionID toolName : string) : string := sessionID +:+ String "000" toolName.

Definition with_bindings (b : gmap string (gmap string capabilityBinding)) (r : CapabilityRegistry) : CapabilityRegistry :=
  mkRegistry b (waiters r) (chans r) (next_chan r) (epoch r).

(** The non-blocking sends of [Bind]. *)
Definition signal_all (sessionID : string) (names : list string) (w : gmap string nat) (c : gmap nat bool) : gmap nat bool :=
  foldl (fun c name => match w !! capabilityWaitKey sessionID name with Some ch => <[ch := true]> c | None => c end) c names.

(** [executor = None]: no channel of execution. *)
Definition Bind (now : Time) (sessionID connectionID : string) (toolNames : list string) (ttl : Z) (executor : option nat)
    (r : CapabilityRegistry) : CapabilityRegistry * bool :=
  match executor with
  | None => (r, false)
  | Some e =>
      let conns := default ∅ (bindings r !! sessionID) in
      let b := mkBinding toolNames (now + ttl) e (S (epoch r)) in
      (mkRegistry (<[sessionID := <[connectionID := b]> conns]> (bindings r)) (waiters r)
         (signal_all sessionID toolNames (waiters r) (chans r)) (next_chan r) (S (epoch r)),
       bool_decide (is_Some (conns !! connectionID)))
  end.

Definition drop_empty (conns : gmap string capabilityBinding) : option (gmap string capabilityBinding) :=
  if decide (conns = ∅) then None else Some conns.

Definition UnbindConnection (connectionID : string) (r : CapabilityRegistry) : CapabilityRegistry :=
  with_bindings (omap (fun conns => drop_empty (delete connectionID conns)) (bindings r)) r.

(** The bucket of a session is put back, or removed when empty. *)
Definition put_conns (sessionID : string) (conns : gmap string capabilityBinding) (r : CapabilityRegistry) : CapabilityRegistry :=
  with_bindings (match drop_empty conns with Some c => <[sessionID := c]> (bindings r) | None => delete sessionID (bindings r) end) r.

Definition Invalidate (sessionID connectionID : string) (r : CapabilityRegistry) : CapabilityRegistry :=
  match bindings r !! sessionID with
  | None => r
  | Some conns => put_conns sessionID (delete connectionID conns) r
  end.

(** The loop of [lookupResolved] over the ids in order. *)
Fixpoint lookup_in (now : Time) (toolName : string) (ids : list string) (conns : gmap string capabilityBinding)
    : gmap string capabilityBinding * option (nat * string) :=
  match ids with
  | [] => (conns, None)
  | id :: ids' =>
      match conns !! id with
      | None => lookup_in now toolName ids' conns
      | Some b =>
          if negb (After (ExpiresAt b) now) then lookup_in now toolName ids' (delete id conns)
          else if existsb (String.eqb toolName) (ToolNames b) then (conns, Some (exec b, id))
          else lookup_in now toolName ids' conns
      end
  end.

Definition sorted_ids (conns : gmap string capabilityBinding) : list string := merge_sort string_le (map_to_list conns).*1.

Definition lookupResolved (now : Time) (sessionID toolName : string) (r : CapabilityRegistry)
    : CapabilityRegistry * option (nat * string) :=
  match bindings r !! sessionID with
  | None => (r, None)
  | Some conns =>
      let '(conns', found) := lookup_in now toolName (sorted_ids conns) conns in
      (put_conns sessionID conns' r, found)
  end.

Definition waitChan (sessionID toolName : string) (r : CapabilityRegistry) : CapabilityRegistry * nat :=
  let key := capabilityWaitKey sessionID toolName in
  match waiters r !! key with
  | Some ch => (r, ch)
  | None =>
      let ch := next_chan r in
      (mkRegistry (bindings r) (<[key := ch]> (waiters r)) (<[ch := false]> (chans r)) (S ch) (epoch r), ch)
  end.

Definition dropWaitChan (sessionID toolName : string) (ch : nat) (r : CapabilityRegistry) : CapabilityRegistry :=
  let key := capabilityWaitKey sessionID toolName in
  if decide (waiters r !! key = Some ch)
  then mkRegistry (bindings r) (delete key (waiters r)) (chans r) (next_chan r) (epoch r) else r.

Definition consume (ch : nat) (r : CapabilityRegistry) : CapabilityRegistry :=
  mkRegistry (bindings r) (waiters r) (<[ch := false]> (chans r)) (next_chan r) (epoch r).

(** ** A call of a client's tool *)

Inductive call_result : Type :=
  | ROk (text : string)
  | RCancelled (text : string)
  | RUnavailable (waited : Z).

(** [CReturn]: the result is known, the deferred [dropWaitChan] is to come. *)
Inductive call_pc : Type :=
  | CLookup
  | CInvoke (executor : nat) (connectionID : string)
  | CSelect
  | CReturn (r : call_result)
  | CDone (r : call_result).

(** [c_timer]: when the timer was started, with its deadline; [c_observed]: the
    calls of [onWait]; [c_seen]: the epoch of the last look-up. *)
Record call := mkCall {
  c_session : string;
  c_tool : string;
  c_chan : nat;
  c_waiting : bool;
  c_timer : option (Time * Time);
  c_observed : list bool;
  c_seen : nat;
  c_pc : call_pc;
}.

Definition goto (pc : call_pc) (c : call) : call :=
  mkCall (c_session c) (c_tool c) (c_chan c) (c_waiting c) (c_timer c) (c_observed c) (c_seen c) pc.

Definition leaveWait (c : call) : call :=
  if c_waiting c
  then mkCall (c_session c) (c_tool c) (c_chan c) false (c_timer c) (c_observed c ++ [false]) (c_seen c) (c_pc c)
  else c.

Definition enterWait (now : Time) (wait : Z) (c : call) : call :=
  if c_waiting c then c
  else mkCall (c_session c) (c_tool c) (c_chan c) true
         (match c_timer c with None => Some (now, (now + wait)%Z) | t => t end)
         (c_observed c ++ [true]) (c_seen c) (c_pc c).

Definition see (n : nat) (c : call) : call :=
  mkCall (c_session c) (c_tool c) (c_chan c) (c_waiting c) (c_timer c) (c_observed c) n (c_pc c).

Definition waited (now : Time) (c : call) : Z :=
  match c_timer c with Some (start, _) => (now - start)%Z | None => 0 end.

(** [NewClientToolProxy]'s Execute up to the loop. *)
Definition start_call (sessionID toolName : string) (r : CapabilityRegistry) : CapabilityRegistry * call :=
  let '(r, ch) := waitChan sessionID toolName r in
  (r, mkCall sessionID toolName ch false None [] 0 CLookup).

(** What a step meets: nothing, the outcome of [Invoke], the branch of the select. *)
Inductive call_input : Type :=
  | ITick
  | IOk (text : string)
  | ICancelled (text : string)
  | IFailed
  | INotify
  | IDone
  | ITimer.

Definition call_step (now : Time) (wait : Z) (i : call_input) (c : call) (r : CapabilityRegistry)
    : option (call * CapabilityRegistry) :=
  match c_pc c, i with
  | CLookup, ITick =>
      let '(r', found) := lookupResolved now (c_session c) (c_tool c) r in
      let c := see (epoch r) c in
      match found with
      | Some (e, conn) => Some (goto (CInvoke e conn) (leaveWait c), r')
      | None => Some (goto CSelect (enterWait now wait c), r')
      end
  | CInvoke _ _, IOk text => Some (goto (CReturn (ROk text)) c, r)
  | CInvoke _ _, ICancelled text => Some (goto (CReturn (RCancelled text)) c, r)
  | CInvoke _ conn, IFailed => Some (goto CSelect (enterWait now wait c), Invalidate (c_session c) conn r)
  | CSelect, INotify =>
      match chans r !! c_chan c with
      | Some true => Some (goto CLookup c, consume (c_chan c) r)
      | _ => None
      end
  | CSelect, IDone => Some (goto (CReturn (RUnavailable (waited now c))) (leaveWait c), r)
  | CSelect, ITimer =>
      match c_timer c with
      | Some (_, deadline) =>
          if (deadline <=? now)%Z then Some (goto (CReturn (RUnavailable (waited now c))) (leaveWait c), r) else None
      | None => None
      end
  | CReturn res, ITick => Some (goto (CDone res) c, dropWaitChan (c_session c) (c_tool c) (c_chan c) r)
  | _, _ => None
  end.

(** ** The system: calls, and the connections that come and go *)

Record world := mkWorld {
  w_reg : CapabilityRegistry;
  w_calls : gmap nat call;
  w_now : Time;
}.

Definition done (c : call) : bool := match c_pc c with CDone _ => true | _ => false end.
Definition c_key (c : call) : string := capabilityWaitKey (c_session c) (c_tool c).

Section steps.
Context (waitTimeout : Z) (exclusive : bool).

(** [exclusive]: no call of a tool of a session starts while another one of the
    same tool and session is on its way. *)
Inductive step (w : world) : world -> Prop :=
  | step_bind s conn tools ttl e :
      step w (mkWorld (Bind (w_now w) s conn tools ttl e (w_reg w)).1 (w_calls w) (w_now w))
  | step_unbind conn :
      step w (mkWorld (UnbindConnection conn (w_reg w)) (w_calls w) (w_now w))
  | step_time t : (w_now w <= t)%Z -> step w (mkWorld (w_reg w) (w_calls w) t)
  | step_start k s tool r c :
      w_calls w !! k = None ->
      (exclusive = true -> forall k' c', w_calls w !! k' = Some c' -> done c' = false -> c_key c' <> capabilityWaitKey s tool) ->
      start_call s tool (w_reg w) = (r, c) ->
      step w (mkWorld r (<[k := c]> (w_calls w)) (w_now w))
  | step_call k c i c' r' :
      w_calls w !! k = Some c ->
      call_step (w_now w) (resolveCapabilityWait waitTimeout) i c (w_reg w) = Some (c', r') ->
      step w (mkWorld r' (<[k := c']> (w_calls w)) (w_now w)).

Definition init (w : world) : Prop := w_reg w = NewCapabilityRegistry /\ w_calls w = ∅.
End steps.
