(* ===== verification/CapabilityProps.v ===== *)
(** * ai-runtime/agent/capability.go: theorems

    A call runs only on a connection that declared the tool; a call that waits is
    woken by the connection that comes back; the observer of the waits is told
    their beginnings and ends in pairs, and a wait has its end. *)

From S2P Require Import Prelude Capability.
#[local] Open Scope string_scope.
#[local] Open Scope list_scope.

Definition bind_at (r : CapabilityRegistry) (s id : string) : option capabilityBinding := bindings r !! s ≫= (fun conns => conns !! id).

(** A binding that can serve a call. *)
Definition serves (now : Time) (tool : string) (b : capabilityBinding) : Prop :=
  tool ∈ ToolNames b /\ (now < ExpiresAt b)%Z.

Lemma existsb_eqb_elem x l : existsb (String.eqb x) l = true <-> x ∈ l.
Proof.
  rewrite existsb_Exists, Exists_exists. split.
  - by intros (y & Hy & ->%String.eqb_eq).
  - intros Hx. exists x. by rewrite String.eqb_refl.
Qed.

(** ** The look-up *)

Lemma lookup_in_spec now tool ids conns conns' found :
  StronglySorted string_le ids -> NoDup ids ->
  lookup_in now tool ids conns = (conns', found) ->
  match found with
  | Some (e, id) => exists b, conns !! id = Some b /\ exec b = e /\ serves now tool b
      /\ forall id' b', id' ∈ ids -> conns !! id' = Some b' -> serves now tool b' -> string_le id id'
  | None => forall id b, id ∈ ids -> conns !! id = Some b -> ~ serves now tool b
  end
  /\ (forall id b, conns' !! id = Some b -> conns !! id = Some b)
  /\ (forall id b, conns !! id = Some b -> (now < ExpiresAt b)%Z -> conns' !! id = Some b).
Proof.
  intros Hs Hn. revert conns. induction Hs as [|id ids Hs IH Hf]; intros conns; cbn [lookup_in].
  { intros [= <- <-]. split_and!; [|done|done]. intros id b Hin. inversion Hin. }
  apply NoDup_cons in Hn as [Hnin Hn]. rewrite Forall_forall in Hf.
  destruct (conns !! id) as [b|] eqn:Eb.
  2:{ intros E. destruct (IH Hn conns E) as (Hfound & Hsub & Hkeep). split; [|done]. destruct found as [[e i]|].
      - destruct Hfound as (x & ? & ? & ? & Hle). exists x. split_and!; try done. intros i' x' [->|Hi]%elem_of_cons ?; [congruence|by eapply Hle].
      - intros i x [->|Hi]%elem_of_cons ?; [congruence|by eapply Hfound]. }
  unfold After. destruct (now <? ExpiresAt b)%Z eqn:Ex; cbn [negb].
  - destruct (existsb _ _) eqn:Et.
    + intros [= <- <-]. apply existsb_eqb_elem in Et. apply Z.ltb_lt in Ex. split_and!; [|done|done].
      exists b. split_and!; try done. intros i' x' [->|Hi]%elem_of_cons _ _; [by destruct (total string_le id id)|by apply Hf].
    + intros E. destruct (IH Hn conns E) as (Hfound & Hsub & Hkeep). split; [|done].
      assert (Hno : ~ serves now tool b) by (intros [Ht _]; apply existsb_eqb_elem in Ht; congruence).
      destruct found as [[e i]|].
      * destruct Hfound as (x & ? & ? & ? & Hle). exists x. split_and!; try done.
        intros i' x' [->|Hi]%elem_of_cons Hl Hsv; [|by eapply Hle]. rewrite Eb in Hl. by injection Hl as <-.
      * intros i x [->|Hi]%elem_of_cons Hl; [|by eapply Hfound]. rewrite Eb in Hl. by injection Hl as <-.
  - intros E. destruct (IH Hn _ E) as (Hfound & Hsub & Hkeep). apply Z.ltb_ge in Ex.
    assert (Hno : ~ serves now tool b) by (intros [_ Ht]; lia).
    split_and!.
    + destruct found as [[e i]|].
      * destruct Hfound as (x & Hx & ? & ? & Hle). apply lookup_delete_Some in Hx as [Hne Hx]. exists x. split_and!; try done.
        intros i' x' [->|Hi]%elem_of_cons Hl Hsv; [rewrite Eb in Hl; by injection Hl as <-|].
        apply (Hle i' x'); [done| |done]. apply lookup_delete_Some. split; [|done]. by intros ->.
      * intros i x [->|Hi]%elem_of_cons Hl; [rewrite Eb in Hl; by injection Hl as <-|].
        apply (Hfound i x Hi). apply lookup_delete_Some. split; [|done]. by intros ->.
    + intros i x Hx. apply Hsub, lookup_delete_Some in Hx. by destruct Hx.
    + intros i x Hx Hlt. apply Hkeep; [|done]. apply lookup_delete_Some. split; [|done]. intros ->.
      rewrite Eb in Hx. injection Hx as <-. lia.
Qed.

Lemma sorted_ids_spec conns :
  StronglySorted string_le (sorted_ids conns) /\ NoDup (sorted_ids conns)
  /\ forall id, id ∈ sorted_ids conns <-> is_Some (conns !! id).
Proof.
  unfold sorted_ids. split_and!.
  - apply StronglySorted_merge_sort; apply _.
  - rewrite merge_sort_Permutation. apply NoDup_fst_map_to_list.
  - intros id. rewrite merge_sort_Permutation, list_elem_of_fmap. split.
    + intros ([k b] & -> & Hk). apply elem_of_map_to_list in Hk. by eexists.
    + intros [b Hb]. exists (id, b). split; [done|]. by apply elem_of_map_to_list.
Qed.

Lemma put_conns_at s conns r s' id :
  bind_at (put_conns s conns r) s' id = if decide (s' = s) then conns !! id else bind_at r s' id.
Proof.
  unfold bind_at, put_conns, drop_empty. cbn. destruct (decide (conns = ∅)) as [->|He]; case_decide as Hs; subst.
  - by rewrite lookup_delete_eq, lookup_empty.
  - by rewrite lookup_delete_ne.
  - by rewrite lookup_insert_eq.
  - by rewrite lookup_insert_ne.
Qed.

Lemma lookupResolved_spec now s tool r r' found :
  lookupResolved now s tool r = (r', found) ->
  match found with
  | Some (e, id) => exists b, bind_at r s id = Some b /\ exec b = e /\ serves now tool b
      /\ forall id' b', bind_at r s id' = Some b' -> serves now tool b' -> string_le id id'
  | None => forall id b, bind_at r s id = Some b -> ~ serves now tool b
  end
  /\ (forall s' id b, bind_at r' s' id = Some b -> bind_at r s' id = Some b)
  /\ (forall s' id b, bind_at r s' id = Some b -> (now < ExpiresAt b)%Z -> bind_at r' s' id = Some b)
  /\ waiters r' = waiters r /\ chans r' = chans r /\ next_chan r' = next_chan r /\ epoch r' = epoch r.
Proof.
  unfold lookupResolved. destruct (bindings r !! s) as [conns|] eqn:Es.
  2:{ intros [= <- <-]. split; [|done]. intros id b Hb. unfold bind_at in Hb. by rewrite Es in Hb. }
  assert (Hat : forall id, bind_at r s id = conns !! id) by (intros id; unfold bind_at; by rewrite Es).
  destruct (lookup_in _ _ _ _) as [conns' f] eqn:El. intros [= <- <-].
  destruct (sorted_ids_spec conns) as (Hs & Hn & Hin).
  destruct (lookup_in_spec _ _ _ _ _ _ Hs Hn El) as (Hf & Hsub & Hkeep). split_and!; try done.
  - destruct f as [[e id]|].
    + destruct Hf as (b & Hb & He & Hsv & Hle). exists b. rewrite Hat. split_and!; try done.
      intros id' b' Hb' Hsv'. rewrite Hat in Hb'. eapply Hle; [apply Hin; by eexists|done|done].
    + intros id b Hb. rewrite Hat in Hb. eapply Hf; [apply Hin; by eexists|done].
  - intros s' id b. rewrite put_conns_at. case_decide as Hd; [subst|done]. rewrite Hat. apply Hsub.
  - intros s' id b. rewrite put_conns_at. case_decide as Hd; [subst|done]. rewrite Hat. apply Hkeep.
Qed.

(** No implicit route. A look-up gives a connection that declared the tool
    for the session and whose binding has not expired, the first of these in the
    order of their ids; it gives none exactly when there is none; and it changes
    nothing but that expired bindings may go. *)
Theorem the_lookup_is_explicit now s tool r r' found :
  lookupResolved now s tool r = (r', found) ->
  match found with
  | Some (e, id) => exists b, bind_at r s id = Some b /\ exec b = e /\ serves now tool b
      /\ forall id' b', bind_at r s id' = Some b' -> serves now tool b' -> string_le id id'
  | None => forall id b, bind_at r s id = Some b -> ~ serves now tool b
  end
  /\ (forall s' id b, bind_at r' s' id = Some b -> bind_at r s' id = Some b)
  /\ (forall s' id b, bind_at r s' id = Some b -> (now < ExpiresAt b)%Z -> bind_at r' s' id = Some b).
Proof. intros (? & ? & ? & _)%lookupResolved_spec. done. Qed.

(** ** What the operations do to the bindings *)

Lemma Bind_at now s conn tools ttl e r s' id b :
  bind_at (Bind now s conn tools ttl e r).1 s' id = Some b ->
  bind_at r s' id = Some b
  \/ (s' = s /\ id = conn /\ e <> None /\ ToolNames b = tools /\ b_epoch b = S (epoch r)).
Proof.
  unfold Bind. destruct e as [e|]; cbn [fst]; [|by left]. unfold bind_at. cbn.
  destruct (decide (s' = s)) as [->|Hs]; [|rewrite lookup_insert_ne by done; by left].
  rewrite lookup_insert_eq. cbn. rewrite lookup_insert_Some.
  intros [[<- <-]|[Hne Hb]]; [right; by split_and!|left]. by destruct (bindings r !! s).
Qed.

Lemma signal_all_keeps s names w c ch : c !! ch = Some true -> signal_all s names w c !! ch = Some true.
Proof.
  unfold signal_all. revert c. induction names as [|n names IH]; intros c Hc; cbn; [done|]. apply IH.
  destruct (w !! _) as [k|]; [|done]. destruct (decide (k = ch)) as [->|]; [by rewrite lookup_insert_eq|by rewrite lookup_insert_ne].
Qed.

Lemma signal_all_sets s names w c ch tool :
  tool ∈ names -> w !! capabilityWaitKey s tool = Some ch -> signal_all s names w c !! ch = Some true.
Proof.
  intros Hin Hw. revert c. induction names as [|n names IH]; intros c; [by inversion Hin|].
  apply elem_of_cons in Hin as [->|Hin]; cbn; [|by apply IH]. rewrite Hw.
  apply signal_all_keeps. by rewrite lookup_insert_eq.
Qed.

Lemma signal_all_some s names w c ch : is_Some (c !! ch) -> is_Some (signal_all s names w c !! ch).
Proof.
  unfold signal_all. revert c. induction names as [|n names IH]; intros c Hc; cbn; [done|]. apply IH.
  destruct (w !! _) as [k|]; [|done]. rewrite lookup_insert_is_Some. destruct (decide (k = ch)); auto.
Qed.

Lemma Unbind_at conn r s id b :
  bind_at (UnbindConnection conn r) s id = Some b -> bind_at r s id = Some b.
Proof.
  unfold bind_at, UnbindConnection. cbn. rewrite lookup_omap. destruct (bindings r !! s) as [conns|]; cbn; [|done].
  unfold drop_empty. case_decide; cbn; [done|]. intros Hb. apply lookup_delete_Some in Hb. by destruct Hb.
Qed.

Lemma Invalidate_at s conn r s' id b :
  bind_at (Invalidate s conn r) s' id = Some b -> bind_at r s' id = Some b.
Proof.
  unfold Invalidate. destruct (bindings r !! s) as [conns|] eqn:Es; [|done]. rewrite put_conns_at. case_decide as Hs; [subst|done].
  intros Hb. apply lookup_delete_Some in Hb as [_ Hb]. unfold bind_at. by rewrite Es.
Qed.

(** A registry of which a part of the bindings is left, all else as it was. *)
Record shrunk (r r' : CapabilityRegistry) : Prop := {
  sh_at : forall s id b, bind_at r' s id = Some b -> bind_at r s id = Some b;
  sh_waiters : waiters r' = waiters r;
  sh_chans : chans r' = chans r;
  sh_next : next_chan r' = next_chan r;
  sh_epoch : epoch r' = epoch r;
}.

Lemma shrunk_refl r : shrunk r r.
Proof. by split. Qed.

Lemma shrunk_unbind conn r : shrunk r (UnbindConnection conn r).
Proof. split; [apply Unbind_at|done..]. Qed.

Lemma shrunk_invalidate s conn r : shrunk r (Invalidate s conn r).
Proof.
  split; [apply Invalidate_at| | | |]; unfold Invalidate; by destruct (bindings r !! s).
Qed.

Lemma shrunk_lookup now s tool r r' found : lookupResolved now s tool r = (r', found) -> shrunk r r'.
Proof. intros (_ & ? & _ & ? & ? & ? & ?)%lookupResolved_spec. by split. Qed.

(** ** A call by itself *)

(** The observer has been told of [n] waits that ended, and of one that has not
    when the call waits. *)
Definition paired (c : call) : Prop :=
  exists n, c_observed c = concat (replicate n [true; false]) ++ (if c_waiting c then [true] else []).

Definition pc_ok (wait : Z) (c : call) : Prop :=
  (forall start deadline, c_timer c = Some (start, deadline) -> deadline = (start + wait)%Z)
  /\ (c_waiting c = true -> c_timer c <> None)
  /\ match c_pc c with
     | CLookup => True
     | CSelect => c_waiting c = true
     | _ => c_waiting c = false
     end.

Lemma leave_paired c : paired c -> paired (leaveWait c).
Proof.
  unfold paired, leaveWait. intros [n Hn]. destruct (c_waiting c) eqn:Ew; [|exists n; by rewrite Ew].
  exists (S n). cbn [c_observed c_waiting]. rewrite Hn, <- app_assoc, app_nil_r.
  replace (S n) with (n + 1)%nat by lia. rewrite replicate_add, concat_app. done.
Qed.

Lemma enter_paired now wait c : paired c -> paired (enterWait now wait c).
Proof.
  unfold paired, enterWait. intros [n Hn]. destruct (c_waiting c) eqn:Ew; [exists n; by rewrite Ew|].
  exists n. cbn [c_observed c_waiting]. by rewrite Hn, app_nil_r.
Qed.

Lemma paired_goto pc c : paired c -> paired (goto pc c).
Proof. done. Qed.

Lemma leave_same c : c_session (leaveWait c) = c_session c /\ c_tool (leaveWait c) = c_tool c
  /\ c_chan (leaveWait c) = c_chan c /\ c_seen (leaveWait c) = c_seen c /\ c_timer (leaveWait c) = c_timer c
  /\ c_waiting (leaveWait c) = false.
Proof. unfold leaveWait. destruct (c_waiting c) eqn:E; by rewrite ?E. Qed.

Lemma enter_same now wait c : c_session (enterWait now wait c) = c_session c /\ c_tool (enterWait now wait c) = c_tool c
  /\ c_chan (enterWait now wait c) = c_chan c /\ c_seen (enterWait now wait c) = c_seen c
  /\ c_waiting (enterWait now wait c) = true.
Proof. unfold enterWait. destruct (c_waiting c) eqn:E; by rewrite ?E. Qed.

(** What one step of a call does. *)
Record stepped (wait : Z) (c c' : call) (r r' : CapabilityRegistry) : Prop := {
  sp_key : c_session c' = c_session c /\ c_tool c' = c_tool c /\ c_chan c' = c_chan c;
  sp_paired : paired c -> paired c';
  sp_pc : pc_ok wait c -> pc_ok wait c';
  sp_live : done c = false;
  sp_reg : (shrunk r r' /\ done c' = false /\ (c_seen c' = c_seen c /\ c_pc c <> CLookup \/ c_seen c' = epoch r))
    \/ (c_pc c' = CLookup /\ r' = consume (c_chan c) r)
    \/ (done c' = true /\ r' = dropWaitChan (c_session c) (c_tool c) (c_chan c) r);
}.

Lemma enter_ok now wait c pc : pc = CSelect -> pc_ok wait c -> pc_ok wait (goto pc (enterWait now wait c)).
Proof.
  intros -> (Ht & Hw & _). unfold pc_ok, enterWait, goto. destruct (c_waiting c) eqn:Ew; cbn.
  - split_and!; auto.
  - split_and!; [|by destruct (c_timer c)|done]. intros st dl. destruct (c_timer c) as [[a b]|] eqn:Et; [by apply Ht|].
    by intros [= <- <-].
Qed.

Lemma leave_ok wait c pc : pc <> CSelect -> pc_ok wait c -> pc_ok wait (goto pc (leaveWait c)).
Proof.
  intros Hpc (Ht & Hw & _). destruct (leave_same c) as (_ & _ & _ & _ & E & Ew). unfold pc_ok, goto. cbn. rewrite E, Ew.
  split_and!; [done|done|]. by destruct pc.
Qed.

Lemma call_step_stepped now wait i c r c' r' :
  call_step now wait i c r = Some (c', r') -> stepped wait c c' r r'.
Proof.
  unfold call_step. intros E. destruct (c_pc c) eqn:Ep, i; try discriminate.
  - destruct (lookupResolved _ _ _ _) as [r1 found] eqn:El. apply shrunk_lookup in El.
    destruct found as [[e conn]|]; injection E as <- <-.
    + destruct (leave_same (see (epoch r) c)) as (H1 & H2 & H3 & H4 & _). split.
      * done.
      * intros Hp. by apply paired_goto, leave_paired.
      * intros Hp. by apply leave_ok.
      * unfold done. by rewrite Ep.
      * left. split_and!; [done|done|by right].
    + destruct (enter_same now wait (see (epoch r) c)) as (H1 & H2 & H3 & H4 & _). split.
      * done.
      * intros Hp. by apply paired_goto, enter_paired.
      * intros Hp. by apply enter_ok.
      * unfold done. by rewrite Ep.
      * left. split_and!; [done|done|by right].
  - injection E as <- <-. split; try done.
    + intros (? & ? & Hp). rewrite Ep in Hp. by split_and!.
    + unfold done. by rewrite Ep.
    + left. split_and!; [apply shrunk_refl|done|left; split; [done|by rewrite Ep]].
  - injection E as <- <-. split; try done.
    + intros (? & ? & Hp). rewrite Ep in Hp. by split_and!.
    + unfold done. by rewrite Ep.
    + left. split_and!; [apply shrunk_refl|done|left; split; [done|by rewrite Ep]].
  - injection E as <- <-. destruct (enter_same now wait c) as (H1 & H2 & H3 & H4 & _). split.
    + done.
    + intros Hp. by apply paired_goto, enter_paired.
    + intros Hp. by apply enter_ok.
    + unfold done. by rewrite Ep.
    + left. split_and!; [apply shrunk_invalidate|done|left; split; [done|by rewrite Ep]].
  - destruct (chans r !! c_chan c) as [[]|]; [|done|done]. injection E as <- <-. split; try done.
    + intros (? & ? & Hp). by split_and!.
    + unfold done. by rewrite Ep.
    + right; left. done.
  - injection E as <- <-. destruct (leave_same c) as (H1 & H2 & H3 & H4 & _). split.
    + done.
    + intros Hp. by apply paired_goto, leave_paired.
    + intros Hp. by apply leave_ok.
    + unfold done. by rewrite Ep.
    + left. split_and!; [apply shrunk_refl|done|left; split; [done|by rewrite Ep]].
  - destruct (c_timer c) as [[st dl]|] eqn:Et; [|done]. destruct (_ <=? _)%Z; [|done]. injection E as <- <-.
    destruct (leave_same c) as (H1 & H2 & H3 & H4 & _). split.
    + done.
    + intros Hp. by apply paired_goto, leave_paired.
    + intros Hp. by apply leave_ok.
    + unfold done. by rewrite Ep.
    + left. split_and!; [apply shrunk_refl|done|left; split; [done|by rewrite Ep]].
  - injection E as <- <-. split; try done.
    + intros (? & ? & Hp). rewrite Ep in Hp. by split_and!.
    + unfold done. by rewrite Ep.
    + right; right. done.
Qed.
