(* ===== verification/CapabilityInv.v ===== *)
(** * ai-runtime/agent/capability.go: the invariant of the calls and the registry

    The waits leave no trace and come to an end, whatever the calls; a call that
    waits is woken by the connection that comes back, when no two calls of the
    same tool of a session run at once. *)

From stdpp Require Import relations.
From S2P Require Import Prelude Capability CapabilityProps.
#[local] Open Scope string_scope.
#[local] Open Scope list_scope.

Lemma start_call_eq s tool r r' c :
  start_call s tool r = (r', c) ->
  c = mkCall s tool (c_chan c) false None [] 0 CLookup
  /\ bindings r' = bindings r /\ epoch r' = epoch r
  /\ ((waiters r !! capabilityWaitKey s tool = Some (c_chan c) /\ r' = r)
      \/ (waiters r !! capabilityWaitKey s tool = None /\ c_chan c = next_chan r
          /\ waiters r' = <[capabilityWaitKey s tool := c_chan c]> (waiters r)
          /\ chans r' = <[c_chan c := false]> (chans r) /\ next_chan r' = S (next_chan r))).
Proof.
  unfold start_call, waitChan. destruct (waiters r !! _) as [ch|] eqn:Ew; intros [= <- <-]; cbn; split_and!; auto.
  right. by split_and!.
Qed.

Lemma Bind_rest now s conn tools ttl e r :
  let r' := (Bind now s conn tools ttl e r).1 in
  waiters r' = waiters r /\ next_chan r' = next_chan r /\ (epoch r <= epoch r')%nat
  /\ (forall ch, chans r !! ch = Some true -> chans r' !! ch = Some true)
  /\ (forall id b tool ch, bind_at r' s id = Some b -> (epoch r < b_epoch b)%nat -> tool ∈ ToolNames b ->
      bind_at r s id <> Some b -> waiters r !! capabilityWaitKey s tool = Some ch -> chans r' !! ch = Some true).
Proof.
  unfold Bind. destruct e as [e|]; cbn [fst]; [|by split_and!; auto; intros].
  split_and!; cbn; auto.
  - intros ch. apply signal_all_keeps.
  - intros id b tool ch Hb _ Hin Hne Hw. eapply signal_all_sets; [|exact Hw].
    destruct (Bind_at now s conn tools ttl (Some e) r s id b Hb) as [?|(_ & _ & _ & <- & _)]; done.
Qed.

(** ** What holds whatever the calls *)

Record base (wait : Z) (w : world) : Prop := {
  ba_chan : forall k c, w_calls w !! k = Some c -> (c_chan c < next_chan (w_reg w))%nat;
  ba_key : forall k c k' c', w_calls w !! k = Some c -> w_calls w !! k' = Some c' -> c_chan c = c_chan c' -> c_key c = c_key c';
  ba_wait : forall key ch, waiters (w_reg w) !! key = Some ch ->
    exists k c, w_calls w !! k = Some c /\ done c = false /\ c_key c = key /\ c_chan c = ch;
  ba_calls : forall k c, w_calls w !! k = Some c -> paired c /\ pc_ok wait c;
}.

Lemma base_reg wait w r now :
  base wait w -> waiters r = waiters (w_reg w) -> next_chan r = next_chan (w_reg w) -> base wait (mkWorld r (w_calls w) now).
Proof. intros [Hc Hk Hw Hp] Ew En. split; cbn; [rewrite En|..|rewrite Ew|]; done. Qed.

Lemma base_start wait w k s tool r c :
  base wait w -> w_calls w !! k = None -> start_call s tool (w_reg w) = (r, c) ->
  base wait (mkWorld r (<[k := c]> (w_calls w)) (w_now w)).
Proof.
  intros [Hc Hk Hw Hp] Hnew (Ec & _ & _ & Hcase)%start_call_eq.
  assert (Ek : c_key c = capabilityWaitKey s tool) by (by rewrite Ec).
  assert (Hsame : forall k' c', w_calls w !! k' = Some c' -> c_chan c' = c_chan c -> c_key c' = c_key c).
  { intros k' c' Hl Hch. destruct Hcase as [[Hin ->]|(_ & Hf & _)].
    - destruct (Hw _ _ Hin) as (k2 & c2 & Hl2 & _ & Hk2 & Hc2). rewrite Ek, <- Hk2. apply (Hk k' c' k2 c2); congruence.
    - specialize (Hc _ _ Hl). lia. }
  split; cbn.
  - intros k' c' [[<- <-]|[_ Hl]]%lookup_insert_Some.
    + destruct Hcase as [[Hin ->]|(_ & -> & _ & _ & ->)]; [|lia].
      destruct (Hw _ _ Hin) as (k2 & c2 & Hl2 & _ & _ & <-). by eapply Hc.
    + specialize (Hc _ _ Hl). destruct Hcase as [[_ ->]|(_ & _ & _ & _ & ->)]; lia.
  - intros k1 c1 k2 c2 [[<- <-]|[_ Hl1]]%lookup_insert_Some [[<- <-]|[_ Hl2]]%lookup_insert_Some Hch; [done|..|by eapply Hk].
    + symmetry. by apply (Hsame k2 c2).
    + by apply (Hsame k1 c1).
  - intros key ch Hin. assert (Hold : waiters (w_reg w) !! key = Some ch -> exists k0 c0,
      <[k := c]> (w_calls w) !! k0 = Some c0 /\ done c0 = false /\ c_key c0 = key /\ c_chan c0 = ch).
    { intros (k2 & c2 & Hl2 & ?)%Hw. exists k2, c2. rewrite lookup_insert_ne by congruence. done. }
    destruct Hcase as [[_ ->]|(_ & _ & Ew & _)]; [by apply Hold|]. rewrite Ew in Hin.
    apply lookup_insert_Some in Hin as [[<- <-]|[_ Hin]]; [|by apply Hold].
    exists k, c. rewrite lookup_insert_eq, Ek. split_and!; try done. by rewrite Ec.
  - intros k' c' [[<- <-]|[_ Hl]]%lookup_insert_Some; [|by eapply Hp]. rewrite Ec.
    split; [by exists 0%nat|]. by split_and!.
Qed.

Lemma stepped_rest wait c c' r r' : stepped wait c c' r r' ->
  next_chan r' = next_chan r /\ epoch r' = epoch r
  /\ (forall s id b, bind_at r' s id = Some b -> bind_at r s id = Some b)
  /\ (forall key, key <> c_key c -> waiters r' !! key = waiters r !! key)
  /\ (forall ch, ch <> c_chan c -> chans r' !! ch = chans r !! ch)
  /\ (done c' = false -> waiters r' = waiters r)
  /\ (forall key ch, waiters r' !! key = Some ch -> waiters r !! key = Some ch)
  /\ (done c' = true -> waiters r' !! c_key c <> Some (c_chan c)).
Proof.
  intros Hs. destruct (sp_reg _ _ _ _ _ Hs) as [([Hat Hw Hc Hn He] & Hd & _)|[[Hpc ->]|[Hd ->]]].
  - rewrite Hw, Hc, Hn, He, Hd. by split_and!.
  - split_and!; try done.
    + intros ch Hne. cbn. by rewrite lookup_insert_ne by done.
    + unfold done. by rewrite Hpc.
  - rewrite Hd. unfold dropWaitChan. fold (c_key c). case_decide as Hcur; cbn; split_and!; try done.
    + intros key Hne. by rewrite lookup_delete_ne by done.
    + intros key ch. rewrite lookup_delete_Some. by intros [].
    + intros _. by rewrite lookup_delete_eq.
Qed.

Lemma base_call wait w k c c' r' :
  base wait w -> w_calls w !! k = Some c -> stepped wait c c' (w_reg w) r' ->
  base wait (mkWorld r' (<[k := c']> (w_calls w)) (w_now w)).
Proof.
  intros [Hc Hk Hw Hp] Hl Hs. destruct (stepped_rest _ _ _ _ _ Hs) as (En & _ & _ & _ & _ & _ & Hsub & Hdrop).
  destruct (sp_key _ _ _ _ _ Hs) as (Es & Et & Ech). assert (Ek : c_key c' = c_key c) by (unfold c_key; congruence).
  split; cbn.
  - rewrite En. intros k' x [[<- <-]|[_ Hx]]%lookup_insert_Some; [rewrite Ech|]; by eapply Hc.
  - intros k1 c1 k2 c2 [[<- <-]|[_ Hl1]]%lookup_insert_Some [[<- <-]|[_ Hl2]]%lookup_insert_Some Hch; [done|..|by eapply Hk].
    + rewrite Ek. apply (Hk k c k2 c2); congruence.
    + rewrite Ek. apply (Hk k1 c1 k c); congruence.
  - intros key ch Hin. destruct (Hw _ _ (Hsub _ _ Hin)) as (k2 & c2 & Hl2 & Hd2 & Hk2 & Hc2).
    destruct (decide (k2 = k)) as [->|Hne]; [|exists k2, c2; by rewrite lookup_insert_ne by done].
    assert (c2 = c) as -> by congruence. exists k, c'. rewrite lookup_insert_eq, Ek, Ech. split_and!; try done.
    destruct (done c') eqn:Ed; [|done]. destruct (Hdrop eq_refl). congruence.
  - intros k' x [[<- <-]|[_ Hx]]%lookup_insert_Some; [|by eapply Hp]. destruct (Hp _ _ Hl).
    split; [by apply (sp_paired _ _ _ _ _ Hs)|by apply (sp_pc _ _ _ _ _ Hs)].
Qed.

Section runs.
Context (waitTimeout : Z) (exclusive : bool).

#[local] Abbreviation wait := (resolveCapabilityWait waitTimeout).
#[local] Abbreviation runs := (rtc (step waitTimeout exclusive)).

Lemma base_step w w' : base wait w -> step waitTimeout exclusive w w' -> base wait w'.
Proof.
  intros Hb []; [| | | |].
  - destruct (Bind_rest (w_now w) s conn tools ttl e (w_reg w)) as (? & ? & _). by apply base_reg.
  - by apply base_reg.
  - by apply base_reg.
  - by eapply base_start.
  - eapply base_call; [done|done|]. by eapply call_step_stepped.
Qed.

Lemma base_init w : init w -> base wait w.
Proof. intros [Er Ec]. split; rewrite ?Er, ?Ec; done. Qed.

Lemma base_runs w w' : init w -> runs w w' -> base wait w'.
Proof. intros Hi Hr. apply base_init in Hi. induction Hr; [done|]. by eauto using base_step. Qed.

End runs.

(** ** What holds when no two calls share a key *)

Record alone (w : world) : Prop := {
  al_chan : forall k c, w_calls w !! k = Some c -> done c = false -> waiters (w_reg w) !! c_key c = Some (c_chan c);
  al_key : forall k c k' c', w_calls w !! k = Some c -> w_calls w !! k' = Some c' -> done c = false -> done c' = false ->
    c_key c = c_key c' -> k = k';
  al_epoch : forall s id b, bind_at (w_reg w) s id = Some b -> (b_epoch b <= epoch (w_reg w))%nat;
  al_wake : forall k c id b, w_calls w !! k = Some c -> done c = false -> c_pc c <> CLookup ->
    bind_at (w_reg w) (c_session c) id = Some b -> c_tool c ∈ ToolNames b -> (c_seen c < b_epoch b)%nat ->
    chans (w_reg w) !! c_chan c = Some true;
}.

(** A registry with fewer bindings and no fewer signals. *)
Lemma alone_reg w r now :
  alone w -> waiters r = waiters (w_reg w) -> epoch r = epoch (w_reg w) -> chans r = chans (w_reg w) ->
  (forall s id b, bind_at r s id = Some b -> bind_at (w_reg w) s id = Some b) ->
  alone (mkWorld r (w_calls w) now).
Proof.
  intros [Hc Hk He Hw] Ew Ee Eh Hsub. split; cbn; rewrite ?Ew, ?Ee, ?Eh; [done|done|by eauto|].
  intros k c id b Hl Hd Hpc Hb. eapply Hw; by eauto.
Qed.

Lemma alone_bind w now now' s conn tools ttl e :
  alone w -> alone (mkWorld (Bind now s conn tools ttl e (w_reg w)).1 (w_calls w) now').
Proof.
  intros [Hc Hk He Hw]. destruct (Bind_rest now s conn tools ttl e (w_reg w)) as (Ew & _ & Hle & Hkeep & Hnew).
  split; cbn; [by rewrite Ew|done| |].
  - cbn [w_reg]. intros s' id b [Hb|(_ & _ & Hex & _ & ->)]%Bind_at; [apply He in Hb; lia|]. by destruct e.
  - intros k c id b Hl Hd Hpc Hb Hin Hlt.
    destruct (Bind_at now s conn tools ttl e (w_reg w) _ _ _ Hb) as [Hold|(Es & -> & _ & _ & Hep)]; [by eapply Hkeep, Hw|].
    assert (Hno : bind_at (w_reg w) s conn <> Some b) by (intros Hold%He; lia).
    rewrite Es in Hb. eapply Hnew; [exact Hb|lia|exact Hin|done|]. rewrite <- Es. by eapply Hc.
Qed.

Lemma alone_start w k s tool r c wait :
  base wait w -> alone w -> w_calls w !! k = None ->
  (forall k' c', w_calls w !! k' = Some c' -> done c' = false -> c_key c' <> capabilityWaitKey s tool) ->
  start_call s tool (w_reg w) = (r, c) ->
  alone (mkWorld r (<[k := c]> (w_calls w)) (w_now w)).
Proof.
  intros Hb [Hc Hk He Hw] Hnew Hex (Ec & Ebs & Eep & Hcase)%start_call_eq.
  assert (Ek : c_key c = capabilityWaitKey s tool) by (by rewrite Ec).
  destruct Hcase as [[Hin _]|(_ & Hch & Ew & Eh & _)].
  { destruct (ba_wait _ _ Hb _ _ Hin) as (k2 & c2 & Hl2 & Hd2 & Hk2 & _). by destruct (Hex _ _ Hl2 Hd2). }
  split; cbn.
  - rewrite Ew. intros k' c' [[<- <-]|[_ Hl]]%lookup_insert_Some Hd; [by rewrite Ek, lookup_insert_eq|].
    rewrite lookup_insert_ne; [by eapply Hc|]. symmetry. by eapply Hex.
  - intros k1 c1 k2 c2 [[<- <-]|[_ Hl1]]%lookup_insert_Some [[<- <-]|[_ Hl2]]%lookup_insert_Some Hd1 Hd2 E; [done|..|by eapply Hk].
    + rewrite Ek in E. by destruct (Hex _ _ Hl2 Hd2).
    + rewrite Ek in E. by destruct (Hex _ _ Hl1 Hd1).
  - intros s' id b. unfold bind_at. rewrite Ebs, Eep. apply He.
  - intros k' c' id b [[<- <-]|[_ Hl]]%lookup_insert_Some Hd Hpc; [rewrite Ec in Hpc; by destruct Hpc|].
    unfold bind_at. rewrite Ebs, Eh. intros Hbd Htool Hlt.
    rewrite lookup_insert_ne; [by eapply Hw|]. specialize (ba_chan _ _ Hb _ _ Hl). lia.
Qed.

Lemma alone_call w k c c' r' wait :
  base wait w -> alone w -> w_calls w !! k = Some c -> stepped wait c c' (w_reg w) r' ->
  alone (mkWorld r' (<[k := c']> (w_calls w)) (w_now w)).
Proof.
  intros Hb [Hc Hk He Hw] Hl Hs. destruct (stepped_rest _ _ _ _ _ Hs) as (_ & Eep & Hbd & Hkey & Hch & Hwait & _ & _).
  destruct (sp_key _ _ _ _ _ Hs) as (Es & Et & Ech). assert (Ek : c_key c' = c_key c) by (unfold c_key; congruence).
  pose proof (sp_live _ _ _ _ _ Hs) as Hlive.
  assert (Hother : forall k2 c2, w_calls w !! k2 = Some c2 -> done c2 = false -> k2 <> k -> c_key c2 <> c_key c).
  { intros k2 c2 Hl2 Hd2 Hne E. by destruct Hne, (Hk k2 c2 k c). }
  split; cbn.
  - intros k2 c2 [[<- <-]|[Hne Hl2]]%lookup_insert_Some Hd; [rewrite Ek, Ech, (Hwait Hd); by eapply Hc|].
    rewrite Hkey; [by eapply Hc|by eapply Hother].
  - intros k1 c1 k2 c2 [[<- <-]|[Hne1 Hl1]]%lookup_insert_Some [[<- <-]|[Hne2 Hl2]]%lookup_insert_Some Hd1 Hd2 E;
      [done|..|by eapply Hk].
    + rewrite Ek in E. symmetry in E. by destruct (Hother _ _ Hl2 Hd2 (not_eq_sym Hne2)).
    + rewrite Ek in E. by destruct (Hother _ _ Hl1 Hd1 (not_eq_sym Hne1)).
  - intros s id b Hx. rewrite Eep. by eapply He, Hbd.
  - intros k2 c2 id b [[<- <-]|[Hne Hl2]]%lookup_insert_Some Hd Hpc Hx Htool Hlt.
    + destruct (sp_reg _ _ _ _ _ Hs) as [(Hsh & _ & Hseen)|[[Hpc' _]|[Hd' _]]]; [|done|congruence].
      rewrite (sh_chans _ _ Hsh), Ech. rewrite Es, Et in *. apply Hbd in Hx.
      destruct Hseen as [[Eseen Hpc']|Eseen]; [eapply Hw; try done; lia|]. apply He in Hx. lia.
    + rewrite Hch; [by apply (Hw k2 c2 id b Hl2 Hd Hpc (Hbd _ _ _ Hx))|].
      intros E. destruct (Hother _ _ Hl2 Hd (not_eq_sym Hne)). by apply (ba_key _ _ Hb k2 c2 k c).
Qed.

Lemma alone_runs waitTimeout w w' : init w -> rtc (step waitTimeout true) w w' -> alone w'.
Proof.
  intros Hi Hr. assert (Hb := base_init waitTimeout w Hi).
  assert (Ha : alone w) by (destruct Hi as [Er Ec]; split; rewrite ?Er, ?Ec; done).
  clear Hi. induction Hr as [w|w w1 w2 Hs Hr IH]; [exact Ha|]. apply IH; [by eapply base_step|].
  destruct Hs; [by apply alone_bind| | | |].
  - apply (alone_reg w); try done. apply Unbind_at.
  - by apply alone_reg.
  - eapply alone_start; [exact Hb|exact Ha|done|match goal with H : true = true -> _ |- _ => by apply H end|done].
  - eapply alone_call; [done|done|done|]. by eapply call_step_stepped.
Qed.

(** ** The properties *)

(** no notice is lost. A call that waits in its select, when a connection of
    its session that declared its tool has been bound since the call last looked,
    has its wake-up pending: it may go on, and if the binding has not expired the
    look-up that follows takes it to an execution, on a connection that declared
    the tool, and the observer is told that the wait is over. *)
Theorem a_waiting_call_is_woken waitTimeout w w' k c id b :
  init w -> rtc (step waitTimeout true) w w' ->
  w_calls w' !! k = Some c -> c_pc c = CSelect ->
  bind_at (w_reg w') (c_session c) id = Some b -> serves (w_now w') (c_tool c) b -> (c_seen c < b_epoch b)%nat ->
  let wait := resolveCapabilityWait waitTimeout in
  exists c1 r1 c2 r2 e conn b',
    call_step (w_now w') wait INotify c (w_reg w') = Some (c1, r1)
    /\ call_step (w_now w') wait ITick c1 r1 = Some (c2, r2)
    /\ c_pc c2 = CInvoke e conn /\ c_waiting c2 = false /\ c_observed c2 = c_observed c ++ [false]
    /\ bind_at (w_reg w') (c_session c) conn = Some b' /\ exec b' = e /\ serves (w_now w') (c_tool c) b'.
Proof.
  intros Hi Hr Hl Hpc Hb Hsv Hlt wait.
  destruct (ba_calls _ _ (base_runs _ _ _ _ Hi Hr) _ _ Hl) as [_ (_ & _ & Hw)]. rewrite Hpc in Hw.
  assert (Hs : chans (w_reg w') !! c_chan c = Some true).
  { eapply (al_wake _ (alone_runs _ _ _ Hi Hr) k c id b); try done; [by unfold done; rewrite Hpc|by rewrite Hpc|apply Hsv]. }
  exists (goto CLookup c), (consume (c_chan c) (w_reg w')).
  destruct (lookupResolved (w_now w') (c_session c) (c_tool c) (consume (c_chan c) (w_reg w'))) as [r2 found] eqn:El.
  pose proof (lookupResolved_spec _ _ _ _ _ _ El) as (Hf & _). destruct found as [[e conn]|]; [|by destruct (Hf id b)].
  destruct Hf as (b' & Hb' & He & Hsv' & _).
  do 2 eexists. exists e, conn, b'. split_and!; [by unfold call_step; rewrite Hpc, Hs| |..|done|done|done];
    [unfold call_step; cbn [c_pc goto c_session c_tool]; by rewrite El|done|..]; cbn; unfold leaveWait; cbn; by rewrite Hw.
Qed.

(** the observer's calls come in pairs. Whatever the calls and the
    connections do, a call that has returned has told its observer of a number of
    waits, each by its beginning and its end; if the tool was reported
    unavailable there was one at least. *)
Theorem the_observer_is_told_in_pairs waitTimeout exclusive w w' k c r :
  init w -> rtc (step waitTimeout exclusive) w w' ->
  w_calls w' !! k = Some c -> c_pc c = CDone r ->
  exists n, c_observed c = concat (replicate n [true; false]).
Proof.
  intros Hi Hr Hl Hpc. destruct (ba_calls _ _ (base_runs _ _ _ _ Hi Hr) _ _ Hl) as [[n Hn] (_ & _ & Hw)].
  rewrite Hpc in Hw. rewrite Hw, app_nil_r in Hn. by exists n.
Qed.

(** a wait has its end. A call in its select has a timer, which was started
    once, runs for the configured wait and never for more than 55 seconds; from
    its deadline on the call may return, and what it returns reports the time
    since the timer was started. *)
Theorem a_wait_has_its_end waitTimeout exclusive w w' k c :
  init w -> rtc (step waitTimeout exclusive) w w' ->
  w_calls w' !! k = Some c -> c_pc c = CSelect ->
  let wait := resolveCapabilityWait waitTimeout in
  exists start,
    c_timer c = Some (start, start + wait)%Z /\ (0 < wait <= 55 * Second)%Z
    /\ forall now, (start + wait <= now)%Z -> exists c',
      call_step now wait ITimer c (w_reg w') = Some (c', w_reg w')
      /\ c_pc c' = CReturn (RUnavailable (now - start)) /\ c_waiting c' = false.
Proof.
  intros Hi Hr Hl Hpc wait. destruct (ba_calls _ _ (base_runs _ _ _ _ Hi Hr) _ _ Hl) as [_ (Ht & Hn & Hw)].
  rewrite Hpc in Hw. specialize (Hn Hw). destruct (c_timer c) as [[start dl]|] eqn:Et; [|done].
  rewrite (Ht _ _ eq_refl). exists start. split_and!; [done|..].
  - unfold wait, resolveCapabilityWait. destruct (Z.leb_spec waitTimeout 0); [by vm_compute|]. destruct (Z.ltb_spec maxCapabilityWaitTimeout waitTimeout); [by vm_compute|]. done.
  - unfold wait, resolveCapabilityWait. destruct (Z.leb_spec waitTimeout 0); [by vm_compute|].
    destruct (Z.ltb_spec maxCapabilityWaitTimeout waitTimeout) as [|Hle]; [by vm_compute|]. exact Hle.
  - intros now Hle. eexists. unfold call_step, waited. rewrite Hpc, Et, (Ht _ _ eq_refl). fold wait.
    rewrite (proj2 (Z.leb_le _ _) Hle). split_and!; [done|done|]. cbn. apply leave_same.
Qed.

(** The waits leave no trace. When every call has returned no channel is
    registered, even where calls of the same tool have shared one. *)
Theorem the_waits_leave_no_trace waitTimeout exclusive w w' :
  init w -> rtc (step waitTimeout exclusive) w w' ->
  (forall k c, w_calls w' !! k = Some c -> done c = true) ->
  waiters (w_reg w') = ∅.
Proof.
  intros Hi Hr Hd. apply map_eq. intros key. rewrite lookup_empty. destruct (waiters _ !! key) as [ch|] eqn:E; [|done].
  destruct (ba_wait _ _ (base_runs _ _ _ _ Hi Hr) _ _ E) as (k & c & Hl & Hn & _). by rewrite (Hd _ _ Hl) in Hn.
Qed.
