(* ===== verification/CapabilityRuns.v ===== *)
(** * ai-runtime/agent/capability.go: schedules

    The steps of the system as a function of a list of events, which is sound for
    the step relation; runs of it are the witnesses of the theorems, and three
    runs show what the shared channel and the lazy invalidation allow. *)

From stdpp Require Import relations.
From S2P Require Import Prelude Capability CapabilityProps CapabilityInv.
#[local] Open Scope string_scope.
#[local] Open Scope list_scope.

Inductive event : Type :=
  | EBind (s conn : string) (tools : list string) (ttl : Z) (e : nat)
  | EUnbind (conn : string)
  | ETime (d : Z)
  | EStart (k : nat) (s tool : string)
  | ECall (k : nat) (i : call_input).

Definition key_free (key : string) (w : world) : bool :=
  forallb (fun kc => done kc.2 || negb (String.eqb (c_key kc.2) key)) (map_to_list (w_calls w)).

Definition exec_event (waitTimeout : Z) (exclusive : bool) (ev : event) (w : world) : option world :=
  match ev with
  | EBind s conn tools ttl e => Some (mkWorld (Bind (w_now w) s conn tools ttl (Some e) (w_reg w)).1 (w_calls w) (w_now w))
  | EUnbind conn => Some (mkWorld (UnbindConnection conn (w_reg w)) (w_calls w) (w_now w))
  | ETime d => if (0 <=? d)%Z then Some (mkWorld (w_reg w) (w_calls w) (w_now w + d)) else None
  | EStart k s tool =>
      if bool_decide (w_calls w !! k = None) && (negb exclusive || key_free (capabilityWaitKey s tool) w) then
        let '(r, c) := start_call s tool (w_reg w) in Some (mkWorld r (<[k := c]> (w_calls w)) (w_now w))
      else None
  | ECall k i =>
      match w_calls w !! k with
      | Some c =>
          match call_step (w_now w) (resolveCapabilityWait waitTimeout) i c (w_reg w) with
          | Some (c', r') => Some (mkWorld r' (<[k := c']> (w_calls w)) (w_now w))
          | None => None
          end
      | None => None
      end
  end.

Fixpoint exec_events (waitTimeout : Z) (exclusive : bool) (evs : list event) (w : world) : option world :=
  match evs with
  | [] => Some w
  | ev :: evs' =>
      match exec_event waitTimeout exclusive ev w with
      | Some w' => exec_events waitTimeout exclusive evs' w'
      | None => None
      end
  end.

Lemma key_free_spec key w k c : key_free key w = true -> w_calls w !! k = Some c -> done c = false -> c_key c <> key.
Proof.
  unfold key_free. rewrite forallb_forall. intros Hf Hl Hd E. assert (Hin : In (k, c) (map_to_list (w_calls w))).
  { apply list_elem_of_In. by apply elem_of_map_to_list. }
  specialize (Hf _ Hin). cbn in Hf. by rewrite Hd, E, String.eqb_refl in Hf.
Qed.

Lemma exec_event_sound waitTimeout exclusive ev w w' :
  exec_event waitTimeout exclusive ev w = Some w' -> step waitTimeout exclusive w w'.
Proof.
  destruct ev; cbn [exec_event].
  - intros [= <-]. apply (step_bind waitTimeout exclusive w s conn tools ttl (Some e)).
  - intros [= <-]. apply step_unbind.
  - destruct (Z.leb_spec 0 d); [|done]. intros [= <-]. apply step_time. lia.
  - case_bool_decide; cbn [andb]; [|done]. destruct (_ || _) eqn:Eg; [|done]. destruct (start_call _ _ _) as [r c] eqn:Es.
    intros [= <-]. eapply step_start; [done| |done]. intros -> k' c' Hl Hd. cbn in Eg. by eapply key_free_spec.
  - destruct (w_calls w !! k) as [c|] eqn:El; [|done]. destruct (call_step _ _ _ _ _) as [[c' r']|] eqn:Es; [|done].
    intros [= <-]. by eapply step_call.
Qed.

Lemma exec_events_sound waitTimeout exclusive evs w w' :
  exec_events waitTimeout exclusive evs w = Some w' -> rtc (step waitTimeout exclusive) w w'.
Proof.
  revert w. induction evs as [|ev evs IH]; intros w; cbn; [by intros [= <-]|].
  destruct (exec_event _ _ ev w) as [w1|] eqn:E; [|done]. intros Hr. eapply rtc_l; [by eapply exec_event_sound|by apply IH].
Qed.

Definition start_world : world := mkWorld NewCapabilityRegistry ∅ 0.

Lemma start_init : init start_world.
Proof. done. Qed.

(** What a run ends with. *)
Definition ends (waitTimeout : Z) (exclusive : bool) (evs : list event) : world :=
  default start_world (exec_events waitTimeout exclusive evs start_world).

Lemma ends_runs waitTimeout exclusive evs :
  is_Some (exec_events waitTimeout exclusive evs start_world) -> rtc (step waitTimeout exclusive) start_world (ends waitTimeout exclusive evs).
Proof. intros [w Hw]. unfold ends. rewrite Hw. by eapply exec_events_sound. Qed.

Definition pc_of (k : nat) (w : world) : option call_pc := c_pc <$> w_calls w !! k.
Definition signal_of (k : nat) (w : world) : option bool := w_calls w !! k ≫= (fun c => chans (w_reg w) !! c_chan c).

(** ** What the shared channel and the late invalidation allow *)

(** Two calls of one tool share a channel of capacity one, and the first of them
    to return unregisters it: a connection that comes back afterwards wakes
    nobody. Both calls wait; the connection comes back and wakes the first, which
    runs and returns; the connection goes, comes back, and the second call, whose
    tool the session now offers, has no wake-up pending. *)
Definition shared_channel : list event :=
  [EStart 0 "s" "camera"; EStart 1 "s" "camera"; ECall 0 ITick; ECall 1 ITick;
   EBind "s" "c1" ["camera"] 1000 7; ECall 0 INotify; ECall 0 ITick; ECall 0 (IOk "ok"); ECall 0 ITick;
   EUnbind "c1"; EBind "s" "c1" ["camera"] 1000 8].

Lemma a_second_waiter_is_not_woken :
  let w := ends 0 false shared_channel in
  rtc (step 0 false) start_world w
  /\ pc_of 0 w = Some (CDone (ROk "ok")) /\ pc_of 1 w = Some CSelect /\ signal_of 1 w = Some false
  /\ (lookupResolved (w_now w) "s" "camera" (w_reg w)).2 = Some (8%nat, "c1").
Proof.
  split; [apply ends_runs; vm_compute; by eexists|]. split_and!; vm_compute; reflexivity.
Qed.

(** The invalidation names the connection, not the binding that failed: a
    connection that came back while its old channel was failing is unbound by the
    failure of the old one. *)
Definition rebound_while_failing : list event :=
  [EBind "s" "c1" ["camera"] 1000 7; EStart 0 "s" "camera"; ECall 0 ITick;
   EBind "s" "c1" ["camera"] 1000 8; ECall 0 IFailed; ECall 0 INotify; ECall 0 ITick].

Lemma a_rebound_connection_is_invalidated :
  let w := ends 0 true rebound_while_failing in
  rtc (step 0 true) start_world w
  /\ pc_of 0 w = Some CSelect /\ signal_of 0 w = Some false
  /\ bind_at (w_reg w) "s" "c1" = None.
Proof.
  split; [apply ends_runs; vm_compute; by eexists|]. split_and!; vm_compute; reflexivity.
Qed.

(** A notice that came while the call was running is read by the wait that the
    failure starts: the call goes to another connection of the session, bound
    before the failure, although nothing was bound after it. *)
Definition stale_notice : list event :=
  [EBind "s" "c1" ["camera"] 1000 7; EBind "s" "c2" ["camera"] 1000 9; EStart 0 "s" "camera"; ECall 0 ITick;
   EBind "s" "c1" ["camera"] 1000 7; ECall 0 IFailed; ECall 0 INotify; ECall 0 ITick].

Lemma a_stale_notice_reroutes_the_call :
  let w := ends 0 true stale_notice in
  rtc (step 0 true) start_world w
  /\ pc_of 0 (ends 0 true (take 4 stale_notice)) = Some (CInvoke 7 "c1")
  /\ pc_of 0 w = Some (CInvoke 9 "c2").
Proof.
  split; [apply ends_runs; vm_compute; by eexists|]. split; vm_compute; reflexivity.
Qed.

(** ** Witnesses *)

Definition waiting_run : list event :=
  [EStart 0 "s" "camera"; ECall 0 ITick; EBind "s" "c1" ["camera"] 1000 7].

Definition call_of (k : nat) (w : world) : call := default (start_call "" "" NewCapabilityRegistry).2 (w_calls w !! k).
Definition binding_of (s id : string) (w : world) : capabilityBinding := default (mkBinding [] 0 0 0) (bind_at (w_reg w) s id).

Lemma a_waiting_call_is_woken_witness :
  let w := ends 0 true waiting_run in
  exists c1 r1 c2 r2 e conn b',
    call_step (w_now w) (resolveCapabilityWait 0) INotify (call_of 0 w) (w_reg w) = Some (c1, r1)
    /\ call_step (w_now w) (resolveCapabilityWait 0) ITick c1 r1 = Some (c2, r2)
    /\ c_pc c2 = CInvoke e conn /\ c_waiting c2 = false /\ c_observed c2 = c_observed (call_of 0 w) ++ [false]
    /\ bind_at (w_reg w) (c_session (call_of 0 w)) conn = Some b' /\ exec b' = e
    /\ serves (w_now w) (c_tool (call_of 0 w)) b'.
Proof.
  apply (a_waiting_call_is_woken 0 start_world (ends 0 true waiting_run) 0 _ "c1" (binding_of "s" "c1" (ends 0 true waiting_run)) start_init).
  - apply ends_runs. vm_compute. by eexists.
  - vm_compute. reflexivity.
  - vm_compute. reflexivity.
  - vm_compute. reflexivity.
  - apply (bool_decide_eq_true_1 (_ ∈ _ /\ (_ < _)%Z)). vm_compute. reflexivity.
  - vm_compute. lia.
Defined.

Lemma the_observer_is_told_in_pairs_witness :
  exists n, [true; false] = concat (replicate n [true; false]).
Proof.
  apply (the_observer_is_told_in_pairs 0 false start_world (ends 0 false shared_channel) 0 (call_of 0 (ends 0 false shared_channel)) (ROk "ok") start_init).
  - apply ends_runs. vm_compute. by eexists.
  - vm_compute. reflexivity.
  - vm_compute. reflexivity.
Defined.

Lemma a_wait_has_its_end_witness :
  let w := ends 0 true waiting_run in
  exists start,
    c_timer (call_of 0 w) = Some (start, start + resolveCapabilityWait 0)%Z /\ (0 < resolveCapabilityWait 0 <= 55 * Second)%Z
    /\ forall now, (start + resolveCapabilityWait 0 <= now)%Z -> exists c',
      call_step now (resolveCapabilityWait 0) ITimer (call_of 0 w) (w_reg w) = Some (c', w_reg w)
      /\ c_pc c' = CReturn (RUnavailable (now - start)) /\ c_waiting c' = false.
Proof.
  apply (a_wait_has_its_end 0 true start_world (ends 0 true waiting_run) 0 _ start_init).
  - apply ends_runs. vm_compute. by eexists.
  - vm_compute. reflexivity.
  - vm_compute. reflexivity.
Defined.

Lemma the_waits_leave_no_trace_witness :
  waiters (w_reg (ends 0 false (shared_channel ++ [ECall 1 IDone; ECall 1 ITick]))) = ∅.
Proof.
  apply (the_waits_leave_no_trace 0 false start_world _ start_init).
  - apply ends_runs. vm_compute. by eexists.
  - intros k c Hl. assert (Ha : map_Forall (fun _ c => done c = true) (w_calls (ends 0 false (shared_channel ++ [ECall 1 IDone; ECall 1 ITick])))).
    { apply (bool_decide_eq_true_1 _). vm_compute. reflexivity. }
    by apply (Ha k c).
Defined.

Lemma the_lookup_is_explicit_witness :
  let r := w_reg (ends 0 true waiting_run) in
  let '(r', found) := lookupResolved 0 "s" "camera" r in
  match found with
  | Some (e, id) => exists b, bind_at r "s" id = Some b /\ exec b = e /\ serves 0 "camera" b
      /\ forall id' b', bind_at r "s" id' = Some b' -> serves 0 "camera" b' -> string_le id id'
  | None => forall id b, bind_at r "s" id = Some b -> ~ serves 0 "camera" b
  end
  /\ (forall s' id b, bind_at r' s' id = Some b -> bind_at r s' id = Some b)
  /\ (forall s' id b, bind_at r s' id = Some b -> (0 < ExpiresAt b)%Z -> bind_at r' s' id = Some b).
Proof.
  cbv zeta. destruct (lookupResolved 0 "s" "camera" (w_reg (ends 0 true waiting_run))) as [r' found] eqn:E.
  exact (the_lookup_is_explicit 0 "s" "camera" _ r' found E).
Defined.
