(* ===== verification/AgentLoop.v ===== *)
(** * ai-core/agent: the ReAct loop

    [agent.go] and [stamp.go]: the messages of a run, the calls of the model and
    of the tools, the tokens offered to the caller in their order (a cancelled
    context may lose one on its way), and how a run ends. The provider, the tools
    and the middlewares are arguments, indexed by the iteration; the decoding of
    a call's arguments is [encoding/json]. *)

From stdpp Require Import pretty.
From S2P Require Import Prelude GoString SessionRecord Compressor.
From S2P Require AgentRun.
#[local] Open Scope string_scope.
#[local] Open Scope list_scope.

(** ** Tokens *)

Record Token := mkToken {
  TType : string;
  TContent : string;
  TDone : bool;
  TCall : ToolCall;
  TCallID : string;
}.

Definition no_call : ToolCall := mkToolCall "" "" "" "".
Definition text_token (content : string) (done : bool) : Token := mkToken "text" content done no_call "".

(** ** The world of a run *)

(** What a streamed chat gives: tokens, then the response put together, or the
    error of the context. *)
Inductive chat_outcome : Type :=
  | NoStream (resp : option (list Message)) (err : option AgentRun.error)
  | Stream (toks : list Token) (final : option (list Message)) (ctxErr : option AgentRun.error).

Definition error_text (e : AgentRun.error) : string :=
  match e with
  | AgentRun.Canceled => "context canceled"
  | AgentRun.DeadlineExceeded => "context deadline exceeded"
  | AgentRun.OtherError s => s
  end.

(** [wrapped e s]: an error with the text [s], as [fmt.Errorf] makes it. *)
Definition plain_error (s : string) : AgentRun.error := AgentRun.OtherError s.

(** A response is the list of the messages of its choices. [args]: the decoded
    arguments. [before_tool] gives the tokens the middlewares emit, the
    arguments they leave, and the messages of an abort. *)
Record world := mkWorld {
  args : Type;
  before_model : nat -> list Message -> list Message;
  chat_model : nat -> list Message -> chat_outcome;
  unmarshal_args : string -> args + string;
  before_tool : nat -> ToolCall -> args -> list Message -> list Token * args * option (list Message);
  tools : list (string * (args -> string * option AgentRun.error));
}.

(** [tm[t.Name] = t] in the order of the tools. *)
Definition toolMap (w : world) : gmap string (args w -> string * option AgentRun.error) :=
  foldl (fun m t => <[t.1 := t.2]> m) ∅ (tools w).

(** ** Steps *)

Definition buildMessages (systemPrompt : string) (history : list Message) (input : string) : list Message :=
  system_message systemPrompt :: history ++ [mkMessage "user" input "" [] "" ∅ "" 0%Z].

(** [chat]: the response, whether its tokens were streamed, the error, the
    tokens. *)
Definition chat (o : chat_outcome) : option (list Message) * bool * option AgentRun.error * list Token :=
  match o with
  | NoStream resp err => (resp, false, err, [])
  | Stream toks final ctxErr =>
      let sent := (fun t => mkToken (TType t) (TContent t) false (TCall t) (TCallID t)) <$> toks in
      match final with
      | Some r => (Some r, true, None, sent)
      | None =>
          match ctxErr with
          | Some e => (None, false, Some e, sent)
          | None => (None, false, Some (plain_error "stream ended without a complete response"), sent)
          end
      end
  end.

Definition emitMessageTokens (m : Message) : list Token :=
  (if String.eqb (Thinking m) "" then [] else [mkToken "thinking" (Thinking m) false no_call ""]) ++
  (if String.eqb (Content m) "" then [] else [text_token (Content m) false]).

Definition abortResult (abort : list Message) (toolCallID : string) : string :=
  match find_first (fun m => String.eqb (Role m) "tool" && String.eqb (ToolCallID m) toolCallID) abort with
  | Some m => Content m
  | None => "tool execution aborted"
  end.

Definition assistant_note (content : string) : Message := mkMessage "assistant" content "" [] "" ∅ "" 0%Z.

(** [emitAgentNote]: the token and the history with the note. *)
Definition emitAgentNote (messages : list Message) (content : string) (done : bool) : list Message * Token :=
  (messages ++ [assistant_note content], text_token (String "010" content) done).

Definition tool_message (result id : string) : Message := mkMessage "tool" result id [] "" ∅ "" 0%Z.

(** The result of one call, and the tokens of its middlewares. *)
Definition call_tool (w : world) (iter : nat) (tc : ToolCall) (messages : list Message) : string * list Token :=
  if negb (String.eqb (Type_ tc) "function") then ("unsupported tool call type: " +:+ Type_ tc, [])
  else match toolMap w !! Name tc with
  | None => ("unknown tool: " +:+ Name tc, [])
  | Some execute =>
      match unmarshal_args w (Arguments tc) with
      | inr err => ("invalid args: " +:+ err, [])
      | inl a =>
          let '(toks, a, abort) := before_tool w iter tc a messages in
          match abort with
          | Some ms => (abortResult ms (ID tc), toks)
          | None =>
              let '(result, execErr) := execute a in
              (match execErr with Some e => "error: " +:+ error_text e | None => result end, toks)
          end
      end
  end.

(** The calls of a message, in their order. *)
Fixpoint run_tools (w : world) (iter : nat) (calls : list ToolCall) (messages : list Message) : list Message * list Token :=
  match calls with
  | [] => (messages, [])
  | tc :: calls' =>
      let '(result, toks) := call_tool w iter tc messages in
      let started := mkToken "tool_call" (Name tc +:+ "(" +:+ Arguments tc +:+ ")") false tc "" in
      let ended := mkToken "tool_result" result false no_call (ID tc) in
      let '(messages', toks') := run_tools w iter calls' (messages ++ [tool_message result (ID tc)]) in
      (messages', started :: toks ++ ended :: toks')
  end.

(** ** The loop *)

(** The messages, [runErr], the tokens, the number of model calls. *)
Record outcome := mkOutcome {
  o_messages : list Message;
  o_err : option AgentRun.error;
  o_tokens : list Token;
  o_calls : nat;
}.

Definition error_prefix : string := "⚠ [harness] ✘ agent error: ".

Definition exhausted_note (maxIterations : nat) : string :=
  "⚠ [harness] 已达最大迭代次数 (" +:+ pretty maxIterations +:+ ")，未能得到最终答复。可 /compact 后继续，或把任务拆小。".

(** An error ends the run: the note is sent as the last token. *)
Definition fail_run (messages : list Message) (err : AgentRun.error) (toks : list Token) (calls : nat) : outcome :=
  let '(messages, tok) := emitAgentNote messages (error_prefix +:+ error_text err) true in
  mkOutcome messages (Some err) (toks ++ [tok]) calls.

Definition finish_run (messages : list Message) (toks : list Token) (calls : nat) : outcome :=
  mkOutcome messages None (toks ++ [text_token "" true]) calls.

Section run.
Context (w : world) (maxIterations : nat).

(** [left]: the iterations that are left. *)
Fixpoint loop (left : nat) (messages : list Message) (toks : list Token) : outcome :=
  let iter := (maxIterations - left)%nat in
  match left with
  | O =>
      let '(messages, tok) := emitAgentNote messages (exhausted_note maxIterations) false in
      finish_run messages (toks ++ [tok]) iter
  | S left' =>
      let messages := before_model w iter messages in
      let '(resp, streamed, err, sent) := chat (chat_model w iter messages) in
      let toks := toks ++ sent in
      match err, resp with
      | Some e, _ => fail_run messages e toks (S iter)
      | None, None => fail_run messages (plain_error "provider returned nil response") toks (S iter)
      | None, Some [] =>
          fail_run messages (plain_error "model returned empty response (backend unhealthy or malformed history)") toks (S iter)
      | None, Some (msg :: _) =>
          let shown := if streamed then [] else emitMessageTokens msg in
          match ToolCalls msg with
          | [] =>
              if String.eqb (Content msg) ""
              then fail_run messages (plain_error "model returned empty content without tool calls") toks (S iter)
              else finish_run (messages ++ [msg]) (toks ++ shown) (S iter)
          | calls =>
              let '(messages, toks') := run_tools w iter calls (messages ++ [msg]) in
              loop left' messages (toks ++ shown ++ toks')
          end
      end
  end.

(** [stampMessageIDs]: an id and a time for the messages without. *)
Definition stamp (ids : nat -> string) (clock : nat -> Time) (i : nat) (m : Message) : Message :=
  mkMessage (Role m) (Content m) (ToolCallID m) (ToolCalls m) (Thinking m) (Custom m)
    (if String.eqb (MsgID m) "" then ids i else MsgID m)
    (if IsZero (CreatedAt m) then clock i else CreatedAt m).

Definition stampMessageIDs (ids : nat -> string) (clock : nat -> Time) (msgs : list Message) : list Message :=
  imap (stamp ids clock) msgs.

Definition Run (ids : nat -> string) (clock : nat -> Time) (systemPrompt : string) (history : list Message) (input : string)
  : outcome :=
  let o := loop maxIterations (buildMessages systemPrompt history input) [] in
  mkOutcome (stampMessageIDs ids clock (o_messages o)) (o_err o) (o_tokens o) (o_calls o).
End run.

(** ** What a run promises *)

(** The middlewares in front of the model keep histories acceptable, the model
    answers as the assistant, and the middlewares of the tools send no final
    token. *)
Record well_behaved (w : world) : Prop := {
  b_history : forall i h, paired h -> paired (before_model w i h);
  b_role : forall i h resp streamed err toks msg rest,
    chat (chat_model w i h) = (resp, streamed, err, toks) -> resp = Some (msg :: rest) -> Role msg = "assistant";
  b_tokens : forall i tc a h toks a' abort, before_tool w i tc a h = (toks, a', abort) -> Forall (fun t => TDone t = false) toks;
}.

Definition quiet (toks : list Token) : Prop := Forall (fun t => TDone t = false) toks.

Lemma quiet_app a b : quiet a -> quiet b -> quiet (a ++ b).
Proof. intros. by apply Forall_app. Qed.

Lemma quiet_sent w i h resp streamed err toks : chat (chat_model w i h) = (resp, streamed, err, toks) -> quiet toks.
Proof.
  unfold chat. destruct (chat_model w i h) as [r e|ts final ctxErr].
  - intros [= <- <- <- <-]. constructor.
  - assert (Hq : quiet ((fun t => mkToken (TType t) (TContent t) false (TCall t) (TCallID t)) <$> ts)).
    { apply Forall_forall. intros t (t' & -> & _)%list_elem_of_fmap. done. }
    destruct final; [intros [= <- <- <- <-]; done|]. destruct ctxErr; intros [= <- <- <- <-]; done.
Qed.

Lemma quiet_message m : quiet (emitMessageTokens m).
Proof. unfold emitMessageTokens. destruct (String.eqb _ _), (String.eqb _ _); repeat constructor. Qed.

(** Each call gets exactly one result. *)
Lemma run_tools_results w i calls messages messages' toks :
  run_tools w i calls messages = (messages', toks) ->
  exists rs, messages' = messages ++ rs /\ Forall2 result_of calls rs /\ (well_behaved w -> quiet toks).
Proof.
  revert messages messages' toks. induction calls as [|tc calls IH]; intros messages messages' toks; cbn [run_tools].
  - intros [= <- <-]. exists []. rewrite app_nil_r. split_and!; [done|constructor|intros; constructor].
  - destruct (call_tool w i tc messages) as [result ts] eqn:Ec.
    destruct (run_tools w i calls _) as [ms ts'] eqn:Er. intros [= <- <-].
    destruct (IH _ _ _ Er) as (rs & -> & Hrs & Hq). exists (tool_message result (ID tc) :: rs).
    split_and!; [by rewrite <- app_assoc|by constructor|]. intros Hw. constructor; [done|].
    apply quiet_app; [|constructor; [done|by apply Hq]].
    unfold call_tool in Ec. destruct (negb _); [injection Ec as <- <-; constructor|].
    destruct (toolMap w !! _) as [execute|]; [|injection Ec as <- <-; constructor].
    destruct (unmarshal_args w _) as [a|]; [|injection Ec as <- <-; constructor].
    destruct (before_tool w i tc a messages) as [[ts1 a'] abort] eqn:Eb.
    assert (ts = ts1) as ->.
    { destruct abort; [by injection Ec|]. destruct (execute a') as [res e]. by injection Ec. }
    by eapply (b_tokens w Hw).
Qed.

(** How a run ends. *)
Definition ends_well (maxIterations : nat) (o : outcome) : Prop :=
  (o_calls o <= maxIterations)%nat /\
  (exists ts t, o_tokens o = ts ++ [t] /\ TDone t = true /\ quiet ts) /\
  exists h m, o_messages o = h ++ [m] /\
    match o_err o with
    | Some e => Content m = error_prefix +:+ error_text e /\ Role m = "assistant"
    | None => (ToolCalls m = [] /\ Content m <> "") \/
              (o_calls o = maxIterations /\ Content m = exhausted_note maxIterations)
    end.

Lemma fail_ends n messages e toks calls : (calls <= n)%nat -> quiet toks -> ends_well n (fail_run messages e toks calls).
Proof. intros Hc Hq. split; [done|]. split; [by eexists _, _|]. by eexists _, _. Qed.

Lemma loop_ends w n left messages toks :
  well_behaved w -> (left <= n)%nat -> quiet toks -> ends_well n (loop w n left messages toks).
Proof.
  intros Hw. revert messages toks. induction left as [|left IH]; intros messages toks Hn Hq; cbn [loop].
  - split; [cbn; lia|]. split; [|eexists _, _; split; [done|right; split; [cbn; lia|done]]].
    eexists _, _. split; [done|]. split; [done|]. by apply quiet_app; [|repeat constructor].
  - set (i := (n - S left)%nat). set (h := before_model w i messages).
    destruct (chat (chat_model w i h)) as [[[resp streamed] err] sent] eqn:Ec.
    pose proof (quiet_sent _ _ _ _ _ _ _ Ec) as Hs. pose proof (quiet_app _ _ Hq Hs) as Hqs.
    assert (Hi : (S i <= n)%nat) by (unfold i; lia).
    destruct err as [e|]; [by apply fail_ends|]. destruct resp as [[|msg rest]|]; [by apply fail_ends| |by apply fail_ends].
    assert (Hqm : quiet (if streamed then [] else emitMessageTokens msg)) by (destruct streamed; [constructor|apply quiet_message]).
    destruct (ToolCalls msg) as [|c cs] eqn:Et.
    + destruct (String.eqb_spec (Content msg) ""); [by apply fail_ends|]. split; [done|]. split.
      * eexists _, _. split; [done|]. split; [done|]. by apply quiet_app.
      * eexists _, _. split; [done|]. by left.
    + destruct (run_tools w i (c :: cs) (h ++ [msg])) as [ms ts] eqn:Er.
      destruct (run_tools_results _ _ _ _ _ _ Er) as (rs & _ & _ & Hts). apply IH; [lia|].
      apply quiet_app; [done|]. apply quiet_app; [done|by apply Hts].
Qed.

Lemma loop_paired w n left messages toks : well_behaved w -> paired messages -> paired (o_messages (loop w n left messages toks)).
Proof.
  intros Hw. revert messages toks. induction left as [|left IH]; intros messages toks Hp; cbn [loop].
  - cbn. by apply paired_snoc.
  - set (i := (n - S left)%nat). pose proof (b_history w Hw i _ Hp) as Hh. set (h := before_model w i messages) in *.
    assert (Hfail : forall e t c, paired (o_messages (fail_run h e t c))) by (intros; by apply paired_snoc).
    destruct (chat (chat_model w i h)) as [[[resp streamed] err] sent] eqn:Ec.
    destruct err as [e|]; [done|]. destruct resp as [[|msg rest]|]; [done| |done].
    pose proof (b_role w Hw _ _ _ _ _ _ _ _ Ec eq_refl) as Hr.
    destruct (ToolCalls msg) as [|c cs] eqn:Et.
    + destruct (String.eqb _ _); [done|]. cbn. apply paired_snoc; [done|]. split; [by rewrite Hr|].
      unfold is_call. by rewrite Et, andb_false_r.
    + destruct (run_tools w i (c :: cs) (h ++ [msg])) as [ms ts] eqn:Er.
      destruct (run_tools_results _ _ _ _ _ _ Er) as (rs & -> & Hrs & _). apply IH.
      rewrite <- app_assoc. apply paired_app; [done|]. cbn. rewrite <- (app_nil_r rs). apply paired_call; [|by rewrite Et|constructor].
      unfold is_call. by rewrite Hr, Et.
Qed.

(** Stamping changes ids and times only. *)
Lemma stamp_is_call ids clock i m : is_call (stamp ids clock i m) = is_call m.
Proof. done. Qed.

Lemma stamp_paired ids clock msgs : paired msgs -> paired (stampMessageIDs ids clock msgs).
Proof.
  unfold stampMessageIDs. intros Hp. revert ids clock. induction Hp as [|m h Hr Hc _ IH|m rs h Hc Hrs _ IH]; intros ids clock; cbn.
  - constructor.
  - apply paired_plain; [done|done|]. apply (IH (ids ∘ S) (clock ∘ S)).
  - rewrite imap_app. apply paired_call; [done| |].
    + clear -Hrs. cbn [ToolCalls stamp]. assert (forall k, Forall2 result_of (ToolCalls m) (imap (fun i => stamp ids clock (k + i)) rs)) as H.
      { induction Hrs as [|c r cs rs [? ?] _ IH]; intros k; cbn; constructor; [done|].
        rewrite (imap_ext _ (fun i => stamp ids clock (S k + i))); [apply IH|]. intros i x _. cbn. f_equal. lia. }
      rewrite (imap_ext _ (fun i => stamp ids clock (1 + i))); [apply H|done].
    + rewrite (imap_ext _ (stamp (fun i => ids (S (length rs + i))) (fun i => clock (S (length rs + i))))); [apply IH|done].
Qed.

Lemma stamp_last ids clock h m : exists h' i, stampMessageIDs ids clock (h ++ [m]) = h' ++ [stamp ids clock i m].
Proof. unfold stampMessageIDs. rewrite imap_app. cbn. eauto. Qed.

(** C15: A run leaves a history that a model accepts again. If the conversation
    was a sequence of messages in which every tool call has its result, so is
    what the run returns, however the model, the tools and the permissions
    behave and wherever the run ends; every message has an id. *)
Theorem history_stays_paired w n ids clock prompt history input :
  well_behaved w -> paired history -> (forall i, ids i <> "") ->
  paired (o_messages (Run w n ids clock prompt history input)) /\
  Forall (fun m => MsgID m <> "") (o_messages (Run w n ids clock prompt history input)).
Proof.
  intros Hw Hp Hids. split.
  - apply stamp_paired, loop_paired; [done|]. unfold buildMessages. apply paired_plain; [done|done|]. by apply paired_snoc.
  - cbn. unfold stampMessageIDs. apply Forall_forall. intros m (i & x & -> & _)%elem_of_lookup_imap_1.
    cbn. destruct (String.eqb_spec (MsgID x) ""); [apply Hids|done].
Qed.

(** C16: Every run ends, once. It calls the model at most as often as it may; of
    all the tokens it offers exactly the last one is final; its last message is
    the answer, a note of the error it reports, or a note that its iterations
    are used up, in which case they are. *)
Theorem every_run_ends_once w n ids clock prompt history input :
  well_behaved w -> ends_well n (Run w n ids clock prompt history input).
Proof.
  intros Hw. destruct (loop_ends w n n (buildMessages prompt history input) [] Hw (le_n _) ltac:(constructor)) as (H1 & H2 & h & m & Hm & H3).
  split; [done|]. split; [done|]. cbn. rewrite Hm. destruct (stamp_last ids clock h m) as (h' & i & ->).
  eexists _, _. split; [done|]. exact H3.
Qed.

(** ** A concrete run *)

Module Examples.
Definition ask : Message :=
  mkMessage "assistant" "" "" [mkToolCall "call_1" "function" "bash" "{}"; mkToolCall "call_2" "function" "none" "{}"] "" ∅ "" 0%Z.
Definition answer : Message := mkMessage "assistant" "done" "" [] "" ∅ "" 0%Z.

(** The model calls two tools, one of which is not there, and answers. *)
Definition small_world : world := {|
  args := unit;
  before_model _ h := h;
  chat_model i _ := NoStream (Some [if Nat.eqb i 0 then ask else answer]) None;
  unmarshal_args _ := inl tt;
  before_tool _ _ a _ := ([], a, None);
  tools := [("bash", fun _ => ("ok", None))];
|}.

Lemma small_world_behaves : well_behaved small_world.
Proof.
  split.
  - done.
  - intros i h resp streamed err toks msg rest [= <- <- <- <-] [= <- <-]. by destruct (Nat.eqb i 0).
  - intros i tc a h toks a' abort [= <- <- <-]. constructor.
Qed.

Definition small_ids (i : nat) : string := "m_" +:+ String (ascii_of_nat (97 + i)) "".
Definition small_run : outcome := Run small_world 5 small_ids (fun _ => 7%Z) "You help." [] "go".

Lemma history_stays_paired_witness :
  paired (o_messages small_run) /\ (Content <$> o_messages small_run) = ["You help."; "go"; ""; "ok"; "unknown tool: none"; "done"].
Proof.
  split; [|by vm_compute].
  apply (history_stays_paired small_world 5 small_ids (fun _ => 7%Z) "You help." [] "go" small_world_behaves paired_nil). done.
Defined.

Lemma every_run_ends_once_witness : ends_well 5 small_run /\ o_calls small_run = 2%nat.
Proof.
  split; [|by vm_compute].
  apply (every_run_ends_once small_world 5 small_ids (fun _ => 7%Z) "You help." [] "go" small_world_behaves).
Defined.
End Examples.
