(* ===== verification/SessionTurn.v ===== *)
(** * ai-runtime/agent/session.go: a turn of a session

    [Session.Run] with its persistence: the agent runs on the conversation, the
    history it returns is stripped and either replaces the conversation in
    memory or is committed, after a compaction when one is detected; then a
    checkpoint is set and the conversation is read back. [Compact] and
    [Consolidate] for a session with a store. *)

From S2P Require Import Prelude GoString JsonLines ScanJsonl SessionRecord SessionStore SessionTree SessionOps Compressor AgentLoop.
From S2P Require AgentRun.
#[local] Open Scope string_scope.
#[local] Open Scope list_scope.

(** The state of a [Session] that a turn changes: the conversation and the store,
    if there is one. *)
Record Session := mkSession { conversation : list Message; Store_ : option Store }.

(** [NewSession] and [refreshConversation]. *)
Definition refreshConversation (s : Session) : Session :=
  match Store_ s with Some st => mkSession (ActiveView st) (Some st) | None => s end.

Definition NewSession (st : option Store) : Session := refreshConversation (mkSession [] st).

(** What the calls of the store get from outside. *)
Record turn_env := mkTurnEnv { e_compact : env; e_commit : env; e_checkpoint : env }.

Section turn.
Context `{RecordCodec}.

(** [Truncate(input, 80)], of valid UTF-8. *)
Definition truncate_input (input : string) : string :=
  let rs := runes input in
  if (length rs <=? 80)%nat then input else raw (take 80 rs) +:+ "…".

(** Compact and commit; [Some stage] is the call that failed. *)
Definition persist (e : turn_env) (conv conv2 : list Message) (st : Store) : Store * option string :=
  match DetectCompact conv conv2 with
  | Some (from, to, summary) =>
      match Compact (e_compact e) from to summary st with
      | (st, Some _) => (st, Some "session: compact conversation")
      | (st, None) =>
          if (1 <? length conv2)%nat then
            match Commit (e_commit e) (drop 1 conv2) st with
            | (st, (_, Some _)) => (st, Some "session: commit conversation")
            | (st, (_, None)) => (st, None)
            end
          else (st, None)
      end
  | None =>
      match Commit (e_commit e) conv2 st with
      | (st, (_, Some _)) => (st, Some "session: commit conversation")
      | (st, (_, None)) => (st, None)
      end
  end.

(** The accounting at the end of [Run]. *)
Definition account (runErr : option AgentRun.error) : AgentRun.RunResult :=
  match runErr with
  | Some e => AgentRun.mkResult (if AgentRun.is_context_error e then AgentRun.RunCancelled else AgentRun.RunFailed) (Some e) true
  | None => AgentRun.mkResult AgentRun.RunCompleted None true
  end.

(** From the messages of the agent to the end of [Run]; [conv] is the
    conversation the agent was started with. *)
Definition finish_turn (e : turn_env) (input : string) (conv : list Message) (o : outcome) (s : Session)
  : Session * AgentRun.RunResult :=
  if (1 <? length (o_messages o))%nat then
    let conv2 := stripMemoryBlocks (drop 1 (o_messages o)) in
    match Store_ s with
    | None => (mkSession conv2 None, account (o_err o))
    | Some st =>
        match persist e conv conv2 st with
        | (st, Some stage) =>
            (mkSession (conversation s) (Some st), AgentRun.mkResult AgentRun.RunFailed (Some (AgentRun.OtherError stage)) false)
        | (st, None) =>
            let st := (Checkpoint (e_checkpoint e) (truncate_input input) st).1 in
            (refreshConversation (mkSession (conversation s) (Some st)), account (o_err o))
        end
    end
  else (s, account (o_err o)).

(** [provider]: [NewProvider] succeeds. *)
Definition SessionRun (provider : option AgentRun.error) (w : world) (maxIterations : nat) (ids : nat -> string) (clock : nat -> Time)
    (systemPrompt : string) (e : turn_env) (input : string) (s : Session) : Session * AgentRun.RunResult :=
  let input := TrimSpace input in
  if String.eqb input "" then (s, AgentRun.mkResult AgentRun.RunCancelled None false)
  else match provider with
  | Some err => (s, AgentRun.mkResult AgentRun.RunFailed (Some err) false)
  | None =>
      let conv := conversation s in
      finish_turn e input conv (AgentLoop.Run w maxIterations ids clock systemPrompt conv input) s
  end.

(** [compactStore], behind the consolidation: what became of the store, and
    whether it was compacted. *)
Definition compactStore (chat : list Message -> option (string * option Z)) (estimate : list Message -> Z) (keep : Z)
    (e : env) (s : Session) : Session * bool :=
  match Store_ s with
  | None => (s, false)
  | Some st =>
      let view := ActiveView st in
      match view with
      | [] => (s, false)
      | _ =>
          match Compress chat estimate (mkCompressor keep false) view with
          | None => (s, false)
          | Some (compacted, _) =>
              if (length view <=? length compacted)%nat then (s, false)
              else match DetectCompact view compacted with
              | None => (s, false)
              | Some (from, to, summary) =>
                  match Compact e from to summary st with
                  | (st, Some _) => (mkSession (conversation s) (Some st), false)
                  | (st, None) => (refreshConversation (mkSession (conversation s) (Some st)), true)
                  end
              end
          end
      end
  end.

(** [Consolidate] with a store. [checkpoint]: the memory system's answer to the
    pending messages: an error, nothing, or a summary; [some]: some of them are
    of the kinds it takes. *)
Definition Consolidate (checkpoint : list Message -> result unit bool) (some : list Message -> bool) (e : env) (st : Store)
  : Store * result unit bool :=
  let pending := PendingAfterCursor st in
  match last pending with
  | None => (st, Ok false)
  | Some m =>
      if negb (some pending) then (st, Ok false)
      else match checkpoint pending with
      | Err err => (st, Err err)
      | Ok false => (st, Ok false)
      | Ok true => ((AdvanceCursor e (MsgID m) st).1, Ok true)
      end
  end.
End turn.
