(* ===== verification/SessionTurnProps.v ===== *)
(** * What a turn of a session promises

    A session with a store goes through its turns as one in memory does: the
    conversation it reads back is the one the agent returned, up to ids and
    times, when the turn continued the conversation or folded a prefix of it. *)

From stdpp Require Import pretty.
From S2P Require Import Prelude GoString JsonLines ScanJsonl SessionRecord SessionStore SessionTree SessionOps SessionStoreProps.
From S2P Require Import Compressor AgentLoop SessionTurn.
From S2P Require AgentRun.
#[local] Open Scope string_scope.
#[local] Open Scope list_scope.

(** What a message says: everything but its id and its time. *)
Definition body (m : Message) : string * string * string * list ToolCall * string * gmap string string :=
  (Role m, Content m, ToolCallID m, ToolCalls m, Thinking m, Custom m).

Lemma body_viewed e fs : body <$> (viewed e <$> fs) = body <$> fs.*2.
Proof. induction fs as [|p fs IH]; cbn; [done|]. by rewrite IH. Qed.

(** ** Detection *)

Lemma detect_none old new : (length old <= length new)%nat -> DetectCompact old new = None.
Proof.
  intros Hl. unfold DetectCompact. destruct new as [|m new]; [done|]. by rewrite (proj2 (Nat.leb_le _ _) Hl).
Qed.

Lemma list_find_skip {A} (P : A -> Prop) `{forall x, Decision (P x)} a b :
  Forall (fun x => ~ P x) a ->
  list_find P (a ++ b) = match list_find P b with Some (i, x) => Some (length a + i, x)%nat | None => None end.
Proof.
  induction 1 as [|x a Hx _ IH]; cbn; [by destruct (list_find P b) as [[]|]|].
  rewrite decide_False by done. rewrite IH. by destruct (list_find P b) as [[]|].
Qed.

(** Folding the prefix [old] into the message [sum] is recognised; the messages
    [again] stand for the kept ones. *)
Lemma detect_fold old kept again new sum a b :
  Role sum = "system" -> MsgID <$> again = MsgID <$> kept -> (length (sum :: again ++ new) < length (old ++ kept))%nat ->
  NoDup (MsgID <$> old ++ kept) -> Forall (fun m => MsgID m <> "") (old ++ kept) ->
  MsgID sum ∉ MsgID <$> old -> Forall (fun m => MsgID m ∉ MsgID <$> old) new ->
  old !! O = Some a -> last old = Some b ->
  DetectCompact (old ++ kept) (sum :: again ++ new) = Some (MsgID a, MsgID b, Content sum).
Proof.
  intros Hr Hag Hl Hd Hne Hs Hnew Ha Hb. unfold DetectCompact. rewrite (proj2 (Nat.leb_gt _ _) Hl), Hr. cbn [String.eqb negb].
  set (newIDs := List.filter _ (MsgID <$> sum :: again ++ new)).
  set (keep := fun m => negb (String.eqb (MsgID m) "") && bool_decide (MsgID m ∈ newIDs)).
  rewrite fmap_app in Hd. apply NoDup_app in Hd as (_ & Hdis & _). rewrite Forall_app in Hne. destruct Hne as [Hno Hnk].
  assert (Hends : covered_ends (Content sum) old = Some (MsgID a, MsgID b, Content sum)).
  { unfold covered_ends. rewrite Ha, Hb. rewrite Forall_forall in Hno.
    rewrite (proj2 (String.eqb_neq _ _)) by (apply Hno; by eapply list_elem_of_lookup_2).
    rewrite (proj2 (String.eqb_neq _ _)) by by apply Hno, last_Some_elem_of. done. }
  rewrite list_find_skip.
  2: { apply Forall_forall. intros m Hm. unfold keep. intros [_ Hk%bool_decide_eq_true]%andb_true_iff.
       apply list_elem_of_In, List.filter_In in Hk as [Hk _]. apply list_elem_of_In in Hk. cbn in Hk.
       assert (Hmo : MsgID m ∈ MsgID <$> old) by (apply list_elem_of_fmap; by exists m).
       apply elem_of_cons in Hk as [E|Hk]; [by rewrite <- E in Hs|]. rewrite fmap_app, Hag in Hk.
       apply elem_of_app in Hk as [Hk|Hk]; [by apply (Hdis (MsgID m))|].
       apply list_elem_of_fmap in Hk as (x & E & Hx). rewrite Forall_forall in Hnew. apply (Hnew x Hx). by rewrite <- E. }
  destruct kept as [|k kept].
  - cbn. rewrite app_nil_r. exact Hends.
  - cbn [list_find]. rewrite decide_True.
    + rewrite Nat.add_0_r, take_app_length. exact Hends.
    + unfold keep. apply Forall_cons in Hnk as [Hk _]. rewrite (proj2 (String.eqb_neq _ _) Hk). cbn [negb andb].
      apply bool_decide_eq_true. apply list_elem_of_In. unfold newIDs. apply List.filter_In.
      split; [|by rewrite (proj2 (String.eqb_neq _ _) Hk)]. apply list_elem_of_In. right.
      change (MsgID k ∈ MsgID <$> again ++ new). rewrite fmap_app, Hag. by left.
Qed.

(** ** What a turn hands to the store *)

Section turn.
Context `{RecordLaws}.
Context (sha256 : bytes -> string).

(** The messages, with their ids, of a part of the history; times may differ. *)
Definition same (a b : list Message) : Prop := MsgID <$> a = MsgID <$> b /\ body <$> a = body <$> b.

(** Messages with ids that are new to the store. *)
Definition new_batch (st : Store) (new : list Message) : Prop :=
  NoDup (MsgID <$> new) /\ Forall (fun m => MsgID m <> "" /\ MsgID m ∉ known_ids st) new.

(** Records that can be written and read back. *)
Definition writable (r : Rec) : Prop := storable r /\ encodable r.

(** The records of a commit of [msgs]. *)
Definition committable (e : env) (msgs : list Message) (st : Store) : Prop :=
  Forall writable (commit_plan e (head st) (fresh (known_ids st) 0 msgs)).

(** A turn either continues the conversation or has folded a beginning of it
    into a summary, for which the view gets shorter. [old] are the messages that
    stand for the history. *)
Inductive handed (e : turn_env) (st : Store) : list Message -> list Message -> Prop :=
  | handed_on old new :
      same old (ActiveView st) -> new_batch st new -> committable (e_commit e) (old ++ new) st -> handed e st old (old ++ new)
  | handed_fold covered kept again new sum a b :
      let ns := compact_nodes (e_compact e) a b (Content sum) "" kept in
      segment st a b [] covered kept -> same again (recordToMessage <$> kept.*2) ->
      Forall (fun p => is_Some (Msg p.2)) kept ->
      body sum = body (system_message (Content sum)) -> MsgID sum ∉ covered.*1 ->
      (length (sum :: again ++ new) < length (covered ++ kept))%nat ->
      new_batch st new -> Forall (fun m => MsgID m ∉ ns.*1) new -> new_ids (recs st) ns ->
      Forall writable (compact_plan (e_compact e) a b (Content sum) "" kept) ->
      committable (e_commit e) (again ++ new) (Compact (e_compact e) a b (Content sum) st).1 ->
      handed e st (sum :: again) ((sum :: again) ++ new).

Lemma writable_storable l : Forall writable l -> Forall storable l.
Proof. intros Hf. eapply Forall_impl; [exact Hf|by intros ? []]. Qed.

Lemma writable_encodable l : Forall writable l -> Forall encodable l.
Proof. intros Hf. eapply Forall_impl; [exact Hf|by intros ? []]. Qed.

(** *** Committing what follows known messages *)

Lemma fresh_batch st old new :
  Forall (fun m => MsgID m = "" \/ MsgID m ∈ known_ids st) old -> new_batch st new ->
  (fresh (known_ids st) 0 (old ++ new)).*2 = new.
Proof. intros Ho [Hd Hn]. rewrite fresh_skip by done. by apply fresh_all. Qed.

Lemma commit_batch e st old new st' committed err :
  session sha256 st -> Forall (fun m => MsgID m = "" \/ MsgID m ∈ known_ids st) old -> new_batch st new ->
  committable e (old ++ new) st -> Commit e (old ++ new) st = (st', (committed, err)) ->
  exists k, (k <= length new)%nat /\ body <$> ActiveView st' = body <$> (ActiveView st ++ take k new) /\
    (err = None -> k = length new /\ session sha256 st') /\ (calm_env e -> err = None).
Proof.
  intros Hse Ho Hn Hc E. pose proof (fresh_batch _ _ _ Ho Hn) as Hf.
  destruct (commit_effect sha256 e _ _ _ _ _ 0%Z "" Hse (writable_storable _ Hc) E) as (k & n & _ & Hkn & Hk & _ & Hv & _).
  assert (Hl : length (fresh (known_ids st) 0 (old ++ new)) = length new) by (rewrite <- Hf at 2; by rewrite length_fmap).
  exists k. split_and!; [lia| | |].
  - by rewrite Hv, !fmap_app, body_viewed, fmap_take, Hf.
  - intros ->. split; [cbn in Hk; lia|].
    eapply (session_op sha256 e (OpCommit (old ++ new))); [exact Hse|split; [apply planned_commit|by apply writable_storable]|].
    cbn. by rewrite E.
  - intros He. pose proof (commit_calm e 0 (head st) (old ++ new) st (i_file _ (session_sound _ _ Hse)) He (writable_encodable _ Hc)) as Hn'.
    unfold Commit in E. by rewrite E in Hn'.
Qed.

Lemma same_ids a b : same a b -> length a = length b.
Proof. intros [Hi _]. rewrite <- (length_fmap MsgID a), Hi. apply length_fmap. Qed.

Lemma same_known st old l :
  same old l -> Forall (fun m => MsgID m <> "" /\ MsgID m ∈ known_ids st) l ->
  Forall (fun m => MsgID m = "" \/ MsgID m ∈ known_ids st) old.
Proof.
  intros [Hi _] Hl. apply Forall_forall. intros m Hm. right.
  assert (Hin : MsgID m ∈ MsgID <$> l) by (rewrite <- Hi; apply list_elem_of_fmap; by exists m).
  apply list_elem_of_fmap in Hin as (x & -> & Hx). rewrite Forall_forall in Hl. by apply Hl.
Qed.

(** *** The copies of a compaction *)

Lemma copied_body e j kept :
  Forall typed kept.*2 -> Forall (fun p => is_Some (Msg p.2)) kept ->
  body <$> ((fun p => copied e p.1 p.2) <$> kept_messages j kept) = body <$> (recordToMessage <$> kept.*2).
Proof.
  revert j. induction kept as [|[o r] kept IH]; intros j; cbn; [done|].
  intros [Ht Hts]%Forall_cons [[m Hm] Hms]%Forall_cons. cbn in Hm. rewrite Hm. cbn. f_equal; [|by apply IH].
  destruct Ht; try done. cbn in Hm. by injection Hm as ->.
Qed.

Lemma path_typed st : session sha256 st -> Forall typed (path (recs st) (head st)).*2.
Proof.
  intros Hse. apply Forall_fmap. eapply Forall_impl; [apply path_lookup|]. intros [id r] Hr. cbn in *.
  destruct (nodes_lookup_node _ _ _ Hr) as (_ & _ & Hin). by eapply session_typed.
Qed.

Lemma segment_view st a b pre covered kept :
  segment st a b pre covered kept -> ActiveView st = recordToMessage <$> (pre ++ covered ++ kept).*2.
Proof.
  intros Hs. unfold ActiveView, buildActiveView. rewrite (proj2 (String.eqb_neq _ _) (segment_head _ _ _ _ _ _ Hs)).
  by rewrite (s_path _ _ _ _ _ _ Hs).
Qed.

(** ** Persisting a turn *)

(** What the store shows after the calls of a turn, and their error. *)
Definition settled (old conv2 : list Message) (st st' : Store) (err : option string) : Prop :=
  (err <> None /\ ActiveView st' = ActiveView st \/
   exists k, (length old <= k)%nat /\ body <$> ActiveView st' = body <$> take k conv2) /\
  (err = None -> body <$> ActiveView st' = body <$> conv2 /\ session sha256 st').

Lemma settled_commit old new st st' view k (err : option string) :
  body <$> view = body <$> old -> (k <= length new)%nat -> body <$> ActiveView st' = body <$> (view ++ take k new) ->
  (err = None -> k = length new /\ session sha256 st') -> settled old (old ++ new) st st' err.
Proof.
  intros Hv Hk Ha He. assert (Hb : body <$> ActiveView st' = body <$> take (length old + k) (old ++ new)).
  { by rewrite take_app_add, Ha, !fmap_app, Hv. }
  split; [right; exists (length old + k)%nat; split; [lia|done]|].
  intros En. destruct (He En) as [-> ?]. split; [|done]. by rewrite Hb, take_app_add, firstn_all.
Qed.

Lemma persist_on e st old new st' err :
  session sha256 st -> same old (ActiveView st) -> new_batch st new -> committable (e_commit e) (old ++ new) st ->
  persist e (ActiveView st) (old ++ new) st = (st', err) ->
  settled old (old ++ new) st st' err /\ (calm_env (e_commit e) -> err = None).
Proof.
  intros Hse Ho Hn Hc. unfold persist. rewrite detect_none by (rewrite length_app, (same_ids _ _ Ho); lia).
  destruct (Commit _ _ st) as [s1 [committed e1]] eqn:E.
  destruct (commit_batch _ _ _ _ _ _ _ Hse (same_known _ _ _ Ho (view_known _ _ Hse)) Hn Hc E) as (k & Hk & Hv & Hok & Hcalm).
  intros Hr. assert (Hs : st' = s1 /\ (err = None -> e1 = None) /\ (e1 = None -> err = None)).
  { destruct e1; by injection Hr as <- <-. }
  destruct Hs as (-> & He1 & He2). split; [|auto].
  apply (settled_commit _ _ _ _ (ActiveView st) k); [symmetry; apply Ho|done|done|auto].
Qed.

(** The summary, and the copies of the kept messages. *)
Lemma folded_body e st a b sum covered kept again :
  session sha256 st -> segment st a b [] covered kept -> same again (recordToMessage <$> kept.*2) ->
  Forall (fun p => is_Some (Msg p.2)) kept -> body sum = body (system_message (Content sum)) ->
  body <$> (summary_message e b (Content sum) :: ((fun p => copied e p.1 p.2) <$> kept_messages 0 kept)) = body <$> sum :: again.
Proof.
  intros Hse Hs [_ Ha] Hk Hsum. cbn. f_equal; [by rewrite Hsum|]. etrans; [|symmetry; exact Ha]. apply copied_body; [|done].
  pose proof (path_typed _ Hse) as Ht. rewrite (s_path _ _ _ _ _ _ Hs), !fmap_app, !Forall_app in Ht. by destruct Ht as (_ & _ & ?).
Qed.

Lemma fold_detected st a b sum covered kept again new :
  session sha256 st -> segment st a b [] covered kept -> same again (recordToMessage <$> kept.*2) ->
  Role sum = "system" -> MsgID sum ∉ covered.*1 -> (length (sum :: again ++ new) < length (covered ++ kept))%nat ->
  new_batch st new -> DetectCompact (ActiveView st) (sum :: again ++ new) = Some (a, b, Content sum).
Proof.
  intros Hse Hs [Hag _] Hr Hni Hl [_ Hn].
  pose proof (view_ids _ _ Hse) as Hd. pose proof (view_known _ _ Hse) as Hk.
  destruct (i_tree _ (session_sound _ _ Hse)) as [l Ht].
  pose proof (view_ids_path _ _ _ Hse Ht) as Hi. rewrite (segment_tree _ _ _ _ _ _ _ Ht Hs) in Hi.
  rewrite (segment_view _ _ _ _ _ _ Hs) in *. cbn [app] in *. rewrite fmap_app, fmap_app in Hi, Hd, Hk |- *.
  set (old := recordToMessage <$> covered.*2) in *. rewrite (fmap_app MsgID), (fmap_app fst) in Hi.
  apply app_inj_1 in Hi as [Hi _]; [|unfold old; by rewrite !length_fmap].
  assert (Ha : (MsgID <$> old) !! O = Some a) by (rewrite Hi; apply (s_from _ _ _ _ _ _ Hs)).
  assert (Hb : last (MsgID <$> old) = Some b) by (rewrite Hi; apply (s_to _ _ _ _ _ _ Hs)).
  rewrite list_lookup_fmap in Ha. apply fmap_Some in Ha as (ma & Ha & ->).
  rewrite fmap_last in Hb. apply fmap_Some in Hb as (mb & Hb & ->).
  apply detect_fold; try done.
  - unfold old. rewrite length_app in Hl |- *. by rewrite !length_fmap.
  - eapply Forall_impl; [exact Hk|by intros ? []].
  - by rewrite Hi.
  - apply Forall_forall. intros m Hm Hin. rewrite Forall_forall in Hn. apply (Hn m Hm).
    apply list_elem_of_fmap in Hin as (x & -> & Hx). apply Forall_app in Hk as [Hk _]. rewrite Forall_forall in Hk. by apply Hk.
Qed.

(** The store between the compaction and the commit of a turn. *)
Lemma compacted e st a b sum covered kept again new s1 :
  let ns := compact_nodes e a b (Content sum) "" kept in
  session sha256 st -> segment st a b [] covered kept -> same again (recordToMessage <$> kept.*2) ->
  Forall (fun p => is_Some (Msg p.2)) kept -> body sum = body (system_message (Content sum)) ->
  new_batch st new -> Forall (fun m => MsgID m ∉ ns.*1) new -> new_ids (recs st) ns ->
  Forall writable (compact_plan e a b (Content sum) "" kept) -> Compact e a b (Content sum) st = (s1, None) ->
  session sha256 s1 /\ body <$> ActiveView s1 = body <$> sum :: again /\
  Forall (fun m => MsgID m = "" \/ MsgID m ∈ known_ids s1) again /\ new_batch s1 new.
Proof.
  intros ns Hse Hs Hag Hk Hsum [Hd Hn] Hnn Hnew Hw EC.
  destruct (compact_effect sha256 _ _ _ _ _ _ _ _ _ _ 0%Z "" Hse Hs Hnew (writable_storable _ Hw) EC) as (_ & Hv & _).
  assert (Hrec : recs s1 = recs st ++ compact_plan e a b (Content sum) "" kept).
  { destruct (Compact_spec _ _ _ _ _ _ _ _ _ _ (segment_head _ _ _ _ _ _ Hs) Hs EC) as (k & -> & -> & _). cbn [recs]. by rewrite firstn_all. }
  split_and!.
  - eapply (session_op sha256 e (OpCompact a b (Content sum))); [exact Hse| |exact EC].
    split; [by apply (planned_compact _ _ _ _ _ [] covered)|by apply writable_storable].
  - rewrite Hv. cbn [app]. by eapply folded_body.
  - pose proof (view_known _ _ Hse) as Hkn. rewrite (segment_view _ _ _ _ _ _ Hs) in Hkn. cbn [app] in Hkn.
    rewrite !fmap_app in Hkn. apply Forall_app in Hkn as [_ Hkn]. eapply Forall_impl; [exact (same_known _ _ _ Hag Hkn)|].
    intros m [?|Hm]; [by left|right]. unfold known_ids. rewrite Hrec. by apply nodes_grow.
  - split; [done|]. rewrite Forall_forall in *. intros m Hm. destruct (Hn m Hm) as [? Hu]. split; [done|].
    intros Hin. unfold known_ids in Hin. rewrite Hrec in Hin. apply compact_plan_known in Hin. apply elem_of_union in Hin as [?|Hin]; [done|].
    apply elem_of_list_to_set in Hin. by apply (Hnn m Hm).
Qed.

Lemma persist_fold e st covered kept again new sum a b st' err :
  let ns := compact_nodes (e_compact e) a b (Content sum) "" kept in
  session sha256 st -> segment st a b [] covered kept -> same again (recordToMessage <$> kept.*2) ->
  Forall (fun p => is_Some (Msg p.2)) kept ->
  body sum = body (system_message (Content sum)) -> MsgID sum ∉ covered.*1 ->
  (length (sum :: again ++ new) < length (covered ++ kept))%nat ->
  new_batch st new -> Forall (fun m => MsgID m ∉ ns.*1) new -> new_ids (recs st) ns ->
  Forall writable (compact_plan (e_compact e) a b (Content sum) "" kept) ->
  committable (e_commit e) (again ++ new) (Compact (e_compact e) a b (Content sum) st).1 ->
  persist e (ActiveView st) ((sum :: again) ++ new) st = (st', err) ->
  settled (sum :: again) ((sum :: again) ++ new) st st' err /\
  (calm_env (e_compact e) -> calm_env (e_commit e) -> err = None).
Proof.
  intros ns Hse Hs Hag Hk Hsum Hni Hl Hn Hnn Hnew Hw Hc. cbn [app]. unfold persist.
  assert (Hr : Role sum = "system") by by injection Hsum.
  rewrite (fold_detected _ _ _ _ _ _ _ _ Hse Hs Hag Hr Hni Hl Hn).
  pose proof (fun Hf He => compact_calm (e_compact e) a b (Content sum) st [] covered kept Hf He (segment_head _ _ _ _ _ _ Hs) Hs (writable_encodable _ Hw)) as Hcalm.
  destruct (Compact _ _ _ _ st) as [s1 e1] eqn:EC. cbn [fst] in Hc. destruct e1 as [x|].
  { destruct (compact_effect sha256 _ _ _ _ _ _ _ _ _ _ 0%Z "" Hse Hs Hnew (writable_storable _ Hw) EC) as (_ & Hv & _).
    intros [= <- <-]. split.
    - split; [|done]. left. rewrite Hv. by rewrite <- (segment_view _ _ _ _ _ _ Hs).
    - intros He _. by specialize (Hcalm (i_file _ (session_sound _ _ Hse)) He). }
  destruct (compacted _ _ _ _ _ _ _ _ _ _ Hse Hs Hag Hk Hsum Hn Hnn Hnew Hw EC) as (Hse1 & Hv & Ho1 & Hn1).
  destruct (1 <? length (sum :: again ++ new))%nat eqn:Elen.
  - cbn [drop]. destruct (Commit _ _ s1) as [s2 [committed e2]] eqn:E.
    destruct (commit_batch _ _ _ _ _ _ _ Hse1 Ho1 Hn1 Hc E) as (k & Hkl & Hv2 & Hok & Hcm).
    intros Hres. assert (H2 : st' = s2 /\ (err = None -> e2 = None) /\ (e2 = None -> err = None)) by (destruct e2; by injection Hres as <- <-).
    destruct H2 as (-> & He1 & He2). split; [|auto]. by apply (settled_commit (sum :: again) new _ _ (ActiveView s1) k); [..|auto].
  - intros [= <- <-]. split; [|done]. apply Nat.ltb_ge in Elen. cbn [length] in Elen. rewrite length_app in Elen.
    destruct again; [|cbn [length] in Elen; lia]. destruct new; [|cbn [length] in Elen; lia].
    by apply (settled_commit [sum] [] _ _ (ActiveView s1) 0); [..|rewrite app_nil_r|].
Qed.

Lemma persist_settled e st old conv2 st' err :
  session sha256 st -> handed e st old conv2 -> persist e (ActiveView st) conv2 st = (st', err) ->
  settled old conv2 st st' err /\ (calm_env (e_compact e) -> calm_env (e_commit e) -> err = None).
Proof.
  intros Hse Hh E. destruct Hh as [old new Ho Hn Hc|].
  - by destruct (persist_on _ _ _ _ _ _ Hse Ho Hn Hc E) as [? ?]; auto.
  - by eapply persist_fold.
Qed.

(** The checkpoint at the end of a turn shows in no view. *)
Lemma checkpoint_view e p st : session sha256 st -> ActiveView (Checkpoint e p st).1 = ActiveView st.
Proof.
  intros Hse. destruct (i_tree _ (session_sound _ _ Hse)) as [l Ht]. unfold Checkpoint.
  destruct (String.eqb _ _); [done|]. destruct (append_rec _ _ st) as [s1 [x|]] eqn:E; cbn [fst].
  - by destruct (append_rec_fail _ _ _ _ _ [] E) as [-> _].
  - destruct (append_rec_ok _ _ _ _ E) as [-> _]. rewrite (sound_view _ _ Ht). apply sound_view. cbn [recs head]. by apply tree_plain.
Qed.

Lemma turn_refines e input st old conv2 o s' r :
  session sha256 st -> handed e st old conv2 ->
  (1 < length (o_messages o))%nat -> stripMemoryBlocks (drop 1 (o_messages o)) = conv2 ->
  finish_turn e input (ActiveView st) o (NewSession (Some st)) = (s', r) ->
  let memory := finish_turn e input (ActiveView st) o (mkSession (ActiveView st) None) in
  (exists st', Store_ s' = Some st' /\
    if AgentRun.Persisted r
    then r = memory.2 /\ body <$> conversation s' = body <$> conversation memory.1 /\ conversation s' = ActiveView st'
    else AgentRun.State r = AgentRun.RunFailed /\ conversation s' = ActiveView st /\
      (ActiveView st' = ActiveView st \/
       exists k, (length old <= k)%nat /\ body <$> ActiveView st' = body <$> take k (conversation memory.1))) /\
  (calm_env (e_compact e) -> calm_env (e_commit e) -> AgentRun.Persisted r = true).
Proof.
  intros Hse Hh Hl <-. unfold finish_turn. rewrite (proj2 (Nat.ltb_lt _ _) Hl). cbn [Store_ NewSession refreshConversation conversation fst snd].
  set (conv2 := stripMemoryBlocks _) in *. destruct (persist e (ActiveView st) conv2 st) as [st1 err] eqn:E.
  destruct (persist_settled _ _ _ _ _ _ Hse Hh E) as [[Hv Hok] Hcalm]. destruct err as [stage|]; intros [= <- <-]; cbn.
  - split; [|intros H1 H2; by specialize (Hcalm H1 H2)]. exists st1. split_and!; try done.
    destruct Hv as [[_ ?]|(k & ? & ?)]; [by left|right; by exists k].
  - destruct (Hok eq_refl) as [Hb Hs]. unfold account. destruct (o_err o); cbn;
      (split; [eexists; split_and!; [done|done|by rewrite checkpoint_view|done]|done]).
Qed.

(** C14: A turn with a store is the turn in memory, over the store of a session as
    it comes of its operations and reopenings, and for the turns [handed] names:
    those whose messages continue the view, with new ids behind it, and those
    that put one summary in front for a whole beginning of the view, keep the
    rest with its ids, add new messages, and are fewer than the messages of the
    view; in both cases with records short enough to be read back. When such a
    turn is reported as persisted, the result is that of a session without a
    store and the conversation, read back from the store, says the same. When it
    is not persisted the run is reported as failed, the conversation is the one
    from before, and the store shows that or a beginning of the turn's messages
    that covers the whole history. Without I/O errors every such turn is
    persisted. (A second compaction and a fold of a long turn are not such turns:
    [a_second_compaction_is_not_folded], [a_long_turn_is_not_folded].) *)
Theorem a_stored_turn_is_the_turn_in_memory e input st old conv2 o s' r :
  session sha256 st -> handed e st old conv2 ->
  (1 < length (o_messages o))%nat -> stripMemoryBlocks (drop 1 (o_messages o)) = conv2 ->
  finish_turn e input (ActiveView st) o (NewSession (Some st)) = (s', r) ->
  let memory := finish_turn e input (ActiveView st) o (mkSession (ActiveView st) None) in
  (exists st', Store_ s' = Some st' /\
    if AgentRun.Persisted r
    then r = memory.2 /\ body <$> conversation s' = body <$> conversation memory.1 /\ conversation s' = ActiveView st'
    else AgentRun.State r = AgentRun.RunFailed /\ conversation s' = ActiveView st /\
      (ActiveView st' = ActiveView st \/
       exists k, (length old <= k)%nat /\ body <$> ActiveView st' = body <$> take k (conversation memory.1))) /\
  (calm_env (e_compact e) -> calm_env (e_commit e) -> AgentRun.Persisted r = true).
Proof. apply turn_refines. Qed.
End turn.

(** ** The agent between two turns *)

(** The histories that a run hands to the middlewares in front of the model, with
    their iterations: the messages it starts from, then those a call of the model
    and its tools left. *)
Fixpoint model_histories (w : world) (n left : nat) (messages : list Message) : list (nat * list Message) :=
  match left with
  | O => []
  | S left' =>
      let iter := (n - left)%nat in
      let h := before_model w iter messages in
      (iter, messages) ::
      match chat (chat_model w iter h) with
      | (Some (msg :: _), _, None, _) =>
          match ToolCalls msg with
          | [] => []
          | calls => model_histories w n left' (run_tools w iter calls (h ++ [msg])).1
          end
      | _ => []
      end
  end.

(** On these histories the middlewares add nothing but memory blocks: the
    compression does not set in. *)
Definition adds_memory (w : world) (hs : list (nat * list Message)) : Prop :=
  Forall (fun '(i, h) => before_model w i h = h \/
    exists block, HasPrefix block MemoryBlockPrefix = true /\ before_model w i h = insertSystemBlock h block) hs.

(** The model's messages come without ids. *)
Definition anonymous (w : world) : Prop :=
  forall i h resp streamed err toks msg rest,
    chat (chat_model w i h) = (resp, streamed, err, toks) -> resp = Some (msg :: rest) -> MsgID msg = "".

Definition unnamed : Message -> Prop := fun m => MsgID m = "".

Lemma run_tools_unnamed w i calls messages messages' toks :
  run_tools w i calls messages = (messages', toks) -> exists rs, messages' = messages ++ rs /\ Forall unnamed rs.
Proof.
  revert messages messages' toks. induction calls as [|tc calls IH]; intros messages messages' toks; cbn [run_tools].
  - intros [= <- <-]. exists []. by rewrite app_nil_r.
  - destruct (call_tool w i tc messages) as [result ts]. destruct (run_tools w i calls _) as [ms ts'] eqn:Er. intros [= <- <-].
    destruct (IH _ _ _ Er) as (rs & -> & Hrs). exists (tool_message result (ID tc) :: rs). split; [by rewrite <- app_assoc|by constructor].
Qed.

Lemma insert_behind p t block : last_user t <> None -> insertSystemBlock (p :: t) block = p :: insertSystemBlock t block.
Proof. unfold insertSystemBlock. cbn. by destruct (last_user t). Qed.

Lemma last_user_snoc t m : last_user t <> None -> last_user (t ++ m) <> None.
Proof. induction t as [|x t IH]; cbn; [done|]. destruct (last_user t); [|by destruct (last_user (t ++ m)), (String.eqb _ _)].
  intros _. specialize (IH ltac:(done)). by destruct (last_user (t ++ m)). Qed.

Lemma strip_app a b : stripMemoryBlocks (a ++ b) = stripMemoryBlocks a ++ stripMemoryBlocks b.
Proof. apply List.filter_app. Qed.

Lemma strip_Forall (P : Message -> Prop) l : Forall P l -> Forall P (stripMemoryBlocks l).
Proof.
  intros Hf. apply Forall_forall. intros m Hm. apply list_elem_of_In, List.filter_In in Hm as [Hm _].
  rewrite Forall_forall in Hf. by apply Hf, list_elem_of_In.
Qed.

Lemma last_user_insert t block : last_user t <> None -> last_user (insertSystemBlock t block) <> None.
Proof.
  unfold insertSystemBlock. destruct (last_user t) as [i|] eqn:E; [|done]. intros _ Hn.
  destruct (last_user_spec _ _ E) as (m & Hm & Hr).
  assert (forall l, m ∈ l -> last_user l <> None) as Hin.
  { clear -Hr. induction 1 as [x l|x y l _ IH]; cbn; [by rewrite Hr; destruct (last_user l)|].
    specialize (IH Hr). by destruct (last_user l). }
  eapply Hin; [|exact Hn]. apply elem_of_app. right. right. rewrite (drop_S _ _ _ Hm). by left.
Qed.

(** What a run adds to the messages it has. *)
Lemma loop_extends w n left p t toks :
  adds_memory w (model_histories w n left (p :: t)) -> anonymous w -> last_user t <> None ->
  exists t' tail, o_messages (loop w n left (p :: t) toks) = p :: t' /\
    stripMemoryBlocks t' = stripMemoryBlocks t ++ tail /\ Forall unnamed tail.
Proof.
  intros Hw Ha. revert t toks Hw. induction left as [|left IH]; intros t toks Hw Hu; cbn [loop].
  - cbn. eexists _, _. split; [done|]. rewrite strip_app. split; [done|]. apply strip_Forall. by repeat constructor.
  - assert (Hb : exists t1, before_model w (n - S left)%nat (p :: t) = p :: t1 /\ stripMemoryBlocks t1 = stripMemoryBlocks t /\ last_user t1 <> None).
    { cbn [model_histories] in Hw. apply Forall_cons in Hw as [[->|(block & Hbl & ->)] _]; [by exists t|].
      exists (insertSystemBlock t block). rewrite insert_behind by done. split_and!; [done|by apply strip_insert|by apply last_user_insert]. }
    cbn [model_histories] in Hw. apply Forall_cons in Hw as [_ Hw].
    destruct Hb as (t1 & E1 & Hs1 & Hu1). rewrite E1 in Hw |- *.
    assert (Hend : forall m, unnamed m -> exists t' tail, p :: t1 ++ [m] = p :: t' /\ stripMemoryBlocks t' = stripMemoryBlocks t ++ tail /\ Forall unnamed tail).
    { intros m Hm. eexists _, _. split; [done|]. rewrite strip_app, Hs1. split; [done|]. apply strip_Forall. by constructor. }
    destruct (chat _) as [[[resp streamed] err] sent] eqn:Ec.
    destruct err as [x|]; [by apply Hend|]. cbn iota in Hw. destruct resp as [[|msg rest]|]; [by apply Hend| |by apply Hend].
    pose proof (Ha _ _ _ _ _ _ _ _ Ec eq_refl) as Hm. destruct (ToolCalls msg) as [|c cs].
    + destruct (String.eqb _ _); by apply Hend.
    + destruct (run_tools w _ (c :: cs) _) as [ms ts] eqn:Er. cbn [fst] in Hw. destruct (run_tools_unnamed _ _ _ _ _ _ Er) as (rs & -> & Hrs).
      replace (((p :: t1) ++ [msg]) ++ rs) with (p :: t1 ++ msg :: rs) in * by (cbn; by rewrite <- app_assoc).
      destruct (IH (t1 ++ msg :: rs) ((toks ++ sent) ++ (if streamed then [] else emitMessageTokens msg) ++ ts)) as (t' & tail & E & Hs & Hf); [done|by apply last_user_snoc|].
      exists t', (stripMemoryBlocks (msg :: rs) ++ tail). rewrite strip_app, Hs1, <- app_assoc in Hs.
      split_and!; [exact E|exact Hs|]. apply Forall_app. split; [|done]. apply strip_Forall. by constructor.
Qed.

(** Stamping and stripping commute, up to the positions that give the ids. *)
Lemma strip_stamp ids clock l :
  exists js, NoDup js /\ length js = length (stripMemoryBlocks l) /\
    stripMemoryBlocks (stampMessageIDs ids clock l) = zip_with (stamp ids clock) js (stripMemoryBlocks l).
Proof.
  revert ids clock. induction l as [|m l IH]; intros ids clock; [exists []; split_and!; [constructor|done..]|].
  destruct (IH (ids ∘ S) (clock ∘ S)) as (js & Hd & Hl & E).
  assert (Hs : zip_with (stamp (ids ∘ S) (clock ∘ S)) js (stripMemoryBlocks l) = zip_with (stamp ids clock) (S <$> js) (stripMemoryBlocks l)).
  { rewrite zip_with_fmap_l. done. }
  unfold stampMessageIDs in *. unfold stripMemoryBlocks in *. cbn [imap List.filter].
  change (Role (stamp ids clock 0 m)) with (Role m). change (Content (stamp ids clock 0 m)) with (Content m).
  change (imap (stamp ids clock ∘ S) l) with (imap (stamp (ids ∘ S) (clock ∘ S)) l). rewrite E, Hs.
  destruct (negb _).
  - exists (0%nat :: (S <$> js)). split_and!; [|cbn; by rewrite length_fmap, Hl|done].
    constructor; [|by apply NoDup_fmap; [apply _|]]. intros (j & ? & _)%list_elem_of_fmap. done.
  - exists (S <$> js). split_and!; [by apply NoDup_fmap; [apply _|]|by rewrite length_fmap|done].
Qed.

Lemma stamp_body ids clock j m : body (stamp ids clock j m) = body m.
Proof. done. Qed.

Lemma stamped_body ids clock js l : length js = length l -> body <$> zip_with (stamp ids clock) js l = body <$> l.
Proof. revert js. induction l as [|m l IH]; intros [|j js]; cbn; intros Hl; simplify_eq; [done|]. f_equal. by apply IH. Qed.

Lemma stamped_named ids clock js l :
  length js = length l -> Forall (fun m => MsgID m <> "") l -> MsgID <$> zip_with (stamp ids clock) js l = MsgID <$> l.
Proof.
  revert js. induction l as [|m l IH]; intros [|j js]; cbn; intros Hl; simplify_eq; [done|].
  intros [Hm Hf]%Forall_cons. rewrite (proj2 (String.eqb_neq _ _) Hm). f_equal. by apply IH.
Qed.

Lemma stamped_unnamed ids clock js l :
  length js = length l -> Forall unnamed l -> MsgID <$> zip_with (stamp ids clock) js l = ids <$> js.
Proof.
  revert js. induction l as [|m l IH]; intros [|j js]; cbn; intros Hl; simplify_eq; [done|].
  intros [Hm Hf]%Forall_cons. unfold unnamed in Hm. rewrite Hm. cbn. f_equal. by apply IH.
Qed.

Section run.
Context `{RecordLaws}.
Context (sha256 : bytes -> string).

(** The generator of ids gives new ones. *)
Definition new_names (ids : nat -> string) (st : Store) : Prop :=
  Inj (=) (=) ids /\ forall i, ids i <> "" /\ ids i ∉ known_ids st.

Definition user_message (input : string) : Message := mkMessage "user" input "" [] "" ∅ "" 0%Z.

Lemma last_user_user l input : last_user (l ++ [user_message input]) <> None.
Proof. induction l as [|x l IH]; cbn; [done|]. by destruct (last_user _). Qed.

Lemma run_hands_on w n ids clock prompt st input :
  session sha256 st -> adds_memory w (model_histories w n n (buildMessages prompt (ActiveView st) input)) ->
  anonymous w -> stripMemoryBlocks (ActiveView st) = ActiveView st -> new_names ids st ->
  let out := o_messages (AgentLoop.Run w n ids clock prompt (ActiveView st) input) in
  (1 < length out)%nat /\
  exists old new rest, stripMemoryBlocks (drop 1 out) = old ++ new /\ same old (ActiveView st) /\ new_batch st new /\
    body <$> new = body (user_message input) :: rest.
Proof.
  intros Hse Hw Ha Hst [Hinj Hids]. cbn zeta. unfold AgentLoop.Run. cbn [o_messages]. unfold buildMessages.
  destruct (loop_extends w n n (system_message prompt) (ActiveView st ++ [user_message input]) [] Hw Ha (last_user_user _ _))
    as (t' & tail & E & Hs & Hf).
  unfold user_message in E at 1. rewrite E. rewrite strip_app, Hst, <- app_assoc in Hs. cbn [app] in Hs.
  assert (Ht : (0 < length t')%nat).
  { destruct t'; [|cbn; lia]. destruct (ActiveView st); discriminate Hs. }
  split; [unfold stampMessageIDs; rewrite length_imap; cbn; lia|].
  change (drop 1 (stampMessageIDs ids clock (system_message prompt :: t'))) with (stampMessageIDs (ids ∘ S) (clock ∘ S) t').
  destruct (strip_stamp (ids ∘ S) (clock ∘ S) t') as (js & Hd & Hl & ->). rewrite Hs in Hl |- *.
  change (stripMemoryBlocks [user_message input]) with [user_message input] in *. cbn [app] in *.
  rewrite <- (take_drop (length (ActiveView st)) js) in Hd |- *. set (j1 := take _ js) in *. set (j2 := drop _ js) in *.
  assert (Hl1 : length j1 = length (ActiveView st)) by (unfold j1; rewrite length_take, Hl, length_app; lia).
  assert (Hl2 : length j2 = length (user_message input :: tail)) by (unfold j2; rewrite length_drop, Hl, length_app; lia).
  rewrite zip_with_app by done. eexists _, _, (body <$> tail). split; [done|]. split_and!.
  - split; [|by apply stamped_body]. apply stamped_named; [done|]. eapply Forall_impl; [by apply (view_known _ _ Hse)|by intros ? []].
  - apply NoDup_app in Hd as (_ & _ & Hd).
    assert (Hn : MsgID <$> zip_with (stamp (ids ∘ S) (clock ∘ S)) j2 (user_message input :: tail) = (ids ∘ S) <$> j2)
      by (apply stamped_unnamed; [done|by constructor]).
    split; [rewrite Hn; apply NoDup_fmap; [apply _|done]|]. apply Forall_forall. intros m Hm.
    assert (Hin : MsgID m ∈ (ids ∘ S) <$> j2) by (rewrite <- Hn; apply list_elem_of_fmap; by exists m).
    apply list_elem_of_fmap in Hin as (j & -> & _). apply Hids.
  - by apply stamped_body.
Qed.

(** C13: A run of the agent extends the conversation. Take the store of a session
    as it comes of its operations and reopenings ([session]), a view without memory
    blocks, an input that is not blank, a model whose messages carry no ids, ids that are
    new to the store, records short enough to be read back, and a run in which,
    on the histories it reaches, the middlewares in front of the model only add
    memory blocks (the compression does not set in). When the run is persisted,
    the conversation says what was said before, then the input, then what the run
    added; it is what the store shows, and what the same run leaves in a session
    without a store. Without I/O errors the run is persisted. *)
Theorem a_run_extends_the_conversation w n ids clock prompt e st input s' r :
  session sha256 st -> adds_memory w (model_histories w n n (buildMessages prompt (ActiveView st) (TrimSpace input))) ->
  anonymous w -> stripMemoryBlocks (ActiveView st) = ActiveView st -> new_names ids st ->
  String.eqb (TrimSpace input) "" = false ->
  committable (e_commit e) (stripMemoryBlocks (drop 1 (o_messages (AgentLoop.Run w n ids clock prompt (ActiveView st) (TrimSpace input))))) st ->
  SessionRun None w n ids clock prompt e input (NewSession (Some st)) = (s', r) ->
  let memory := SessionRun None w n ids clock prompt e input (mkSession (ActiveView st) None) in
  (AgentRun.Persisted r = true ->
    r = memory.2 /\ body <$> conversation s' = body <$> conversation memory.1 /\
    (exists st', Store_ s' = Some st' /\ conversation s' = ActiveView st') /\
    exists rest, body <$> conversation s' = (body <$> ActiveView st) ++ body (user_message (TrimSpace input)) :: rest) /\
  (calm_env (e_compact e) -> calm_env (e_commit e) -> AgentRun.Persisted r = true).
Proof.
  intros Hse Hw Ha Hst Hids Hin. unfold SessionRun. rewrite Hin. cbn [conversation NewSession refreshConversation].
  destruct (run_hands_on w n ids clock prompt st (TrimSpace input) Hse Hw Ha Hst Hids) as (Hl & old & new & rest & E & Ho & Hn & Hb).
  set (o := AgentLoop.Run _ _ _ _ _ _ _) in *. rewrite E. intros Hc Hf.
  pose proof (handed_on e st old new Ho Hn Hc) as Hh. rewrite <- E in Hh.
  destruct (turn_refines sha256 e _ st old _ o s' r Hse Hh Hl eq_refl Hf) as [(st' & Hs' & Hp) Hcalm].
  split; [|exact Hcalm]. intros Hpr. rewrite Hpr in Hp. destruct Hp as (Hr & Hbo & Hv). split_and!; [done|done|by exists st'|].
  exists rest. rewrite Hbo. unfold finish_turn. rewrite (proj2 (Nat.ltb_lt _ _) Hl). cbn [Store_ conversation fst].
  rewrite E, fmap_app, Hb. f_equal. apply Ho.
Qed.
End run.

(** ** Concrete turns *)

Module Examples.
Import SessionStoreProps.Examples.
#[local] Existing Instance flat_codec.
#[local] Existing Instance flat_laws.

Definition short (r : Rec) : bool :=
  match MarshalJSON r with Some b => (blen b <? maxLine)%Z | None => false end.

Lemma short_writable l : Forall typed l -> forallb short l = true -> Forall writable l.
Proof.
  intros Ht Hs. rewrite forallb_forall in Hs. rewrite Forall_forall in Ht |- *. intros r Hr.
  specialize (Hs r (proj1 (list_elem_of_In _ _) Hr)). unfold short in Hs. destruct (MarshalJSON r) as [b|] eqn:E; [|done].
  split; [split; [by apply Ht|]|by exists b]. intros b'. rewrite E. intros [= <-]. by apply Z.ltb_lt.
Qed.

(** *** A turn that continues *)

Ltac decides := apply (bool_decide_eq_true_1 _); by vm_compute.

Definition turn_ids (i : nat) : string := "r_" +:+ pretty i.
Definition calm_turn (t : Time) : turn_env := mkTurnEnv (calm t "m_x") (calm (t + 20) "m_y") (calm (t + 40) "m_z").

Lemma s1_known : known_ids s1 = {["m_1"; "m_2"; "m_3"]}.
Proof. by vm_compute. Qed.

Lemma turn_ids_new : new_names turn_ids s1.
Proof.
  split; [intros i j [= E]; by apply (inj pretty)|]. intros i. split; [done|]. rewrite s1_known. intros Hin.
  repeat (apply elem_of_union in Hin as [Hin|Hin]); apply elem_of_singleton in Hin; unfold turn_ids in Hin; discriminate Hin.
Qed.

(** The compression, which sets in at a thousand messages, and then the memory block. *)
Definition guarded_world : world := {|
  args := unit;
  before_model _ h :=
    insertSystemBlock (compress_before_model (fun _ => None) (fun l => Z.of_nat (length l)) (mkCompressor 6 true) true 1000 false h).1
      "[记忆] likes tea";
  chat_model i _ := NoStream (Some [if Nat.eqb i 0 then AgentLoop.Examples.ask else AgentLoop.Examples.answer]) None;
  unmarshal_args _ := inl tt;
  before_tool _ _ a _ := ([], a, None);
  tools := [("bash", fun _ => ("ok", None))];
|}.

Lemma guarded_adds hs : Forall (fun ih => (length ih.2 < 1000)%nat) hs -> adds_memory guarded_world hs.
Proof.
  intros Hf. eapply Forall_impl; [exact Hf|]. intros [i h] Hl. right. exists "[记忆] likes tea". split; [done|].
  cbn [before_model guarded_world]. unfold compress_before_model. cbn [orb negb].
  rewrite (proj2 (Z.ltb_lt _ _)); [done|]. cbn in Hl. lia.
Qed.

Lemma a_run_extends_the_conversation_witness :
  exists s' r, SessionRun None guarded_world 5 turn_ids (fun _ => 7%Z) "You help." (calm_turn 50) " go " (NewSession (Some s1)) = (s', r) /\
    AgentRun.Persisted r = true /\ (exists rest, body <$> conversation s' = (body <$> ActiveView s1) ++ body (user_message "go") :: rest) /\
    (Content <$> conversation s') = ["hi"; "yes?"; "bye"; "go"; ""; "ok"; "unknown tool: none"; "done"].
Proof.
  destruct (SessionRun None guarded_world 5 turn_ids (fun _ => 7%Z) "You help." (calm_turn 50) " go " (NewSession (Some s1))) as [s' r] eqn:E.
  destruct (a_run_extends_the_conversation no_sha guarded_world 5 turn_ids (fun _ => 7%Z) "You help." (calm_turn 50) s1 " go " s' r) as [H1 H2].
  - exact s1_session.
  - apply guarded_adds. decides.
  - intros i h resp streamed err toks msg rest [= <- <- <- <-] [= <- <-]. by destruct (Nat.eqb i 0).
  - by vm_compute.
  - exact turn_ids_new.
  - reflexivity.
  - apply short_writable; [apply commit_plan_typed|by vm_compute].
  - exact E.
  - specialize (H2 (fun _ => eq_refl) (fun _ => eq_refl)). destruct (H1 H2) as (_ & _ & _ & H3).
    exists s', r. split_and!; [reflexivity|exact H2|exact H3|]. change s' with ((s', r).1). rewrite <- E. by vm_compute.
Defined.

(** *** A turn that folded the beginning *)

Definition six : list Message :=
  [said "user" "a" "m_1"; said "assistant" "b" "m_2"; said "user" "c" "m_3"; said "assistant" "d" "m_4"; said "user" "e" "m_5";
   said "assistant" "f" "m_6"].
Definition s6 : Store := (Commit (calm 20 "m_x") six s0).1.

Lemma six_storable : Forall storable (commit_plan (calm 20 "m_x") (head s0) (fresh (known_ids s0) 0 six)).
Proof. apply writable_storable, short_writable; [apply commit_plan_typed|by vm_compute]. Qed.

Lemma s6_session : session no_sha s6.
Proof.
  apply (session_op no_sha (calm 20 "m_x") (OpCommit six) (commit_plan (calm 20 "m_x") (head s0) (fresh (known_ids s0) 0 six)) s0); [apply s0_session| |].
  - split; [apply planned_commit|apply six_storable].
  - by vm_compute.
Qed.

Definition sum6 : Message := said "system" "so far" "r_0".
Definition again6 : list Message := [said "assistant" "f" "m_6"].
Definition new6 : list Message := [said "user" "go on" "r_1"; said "assistant" "done" "r_2"].
Definition fold6 : outcome := mkOutcome (said "system" "You help." "r_p" :: sum6 :: again6 ++ new6) None [] 1.
Definition env6 : turn_env := mkTurnEnv (calm 50 "m_x") (calm 60 "m_y") (calm 70 "m_z").

Definition path6 : list (string * Rec) := path (recs s6) (head s6).
Definition covered6 : list (string * Rec) := take 5 path6.
Definition kept6 : list (string * Rec) := drop 5 path6.

Lemma s6_known : known_ids s6 = {["m_1"; "m_2"; "m_3"; "m_4"; "m_5"; "m_6"]}.
Proof. by vm_compute. Qed.

Lemma s6_new id : id ∉ (["m_1"; "m_2"; "m_3"; "m_4"; "m_5"; "m_6"] : list string) -> id ∉ known_ids s6.
Proof. rewrite s6_known. set_solver. Qed.

Lemma turn_folds : handed env6 s6 (sum6 :: again6) ((sum6 :: again6) ++ new6).
Proof.
  apply (handed_fold env6 s6 covered6 kept6 again6 new6 sum6 "m_1" "m_5").
  - split; by vm_compute.
  - split; by vm_compute.
  - decides.
  - done.
  - assert (covered6.*1 = ["m_1"; "m_2"; "m_3"; "m_4"; "m_5"]) as -> by by vm_compute. decides.
  - vm_compute. lia.
  - split; [decides|]. repeat constructor; try done; apply s6_new; decides.
  - assert ((compact_nodes (e_compact env6) "m_1" "m_5" (Content sum6) "" kept6).*1 = ["s_m_5"; "m_x0"]) as -> by by vm_compute.
    repeat constructor; decides.
  - assert ((compact_nodes (e_compact env6) "m_1" "m_5" (Content sum6) "" kept6).*1 = ["s_m_5"; "m_x0"]) as E by by vm_compute.
    split; [rewrite E; decides|]. apply (Forall_fmap fst (fun id => id <> "" /\ nodes (recs s6) !! id = None)). rewrite E.
    repeat constructor; by vm_compute.
  - apply short_writable; [apply compact_plan_typed|by vm_compute].
  - apply short_writable; [apply commit_plan_typed|by vm_compute].
Qed.

Lemma a_stored_turn_is_the_turn_in_memory_witness :
  exists s' r, finish_turn env6 "go on" (ActiveView s6) fold6 (NewSession (Some s6)) = (s', r) /\
    AgentRun.Persisted r = true /\ body <$> conversation s' = body <$> (sum6 :: again6 ++ new6) /\
    (Content <$> conversation s') = ["so far"; "f"; "go on"; "done"].
Proof.
  destruct (finish_turn env6 "go on" (ActiveView s6) fold6 (NewSession (Some s6))) as [s' r] eqn:E.
  destruct (a_stored_turn_is_the_turn_in_memory no_sha env6 "go on" s6 (sum6 :: again6) ((sum6 :: again6) ++ new6) fold6 s' r s6_session turn_folds)
    as [(st' & _ & Hp) Hcalm].
  - cbn. lia.
  - by vm_compute.
  - exact E.
  - specialize (Hcalm (fun _ => eq_refl) (fun _ => eq_refl)). rewrite Hcalm in Hp. destruct Hp as (_ & Hb & _).
    exists s', r. split_and!; [reflexivity|exact Hcalm|by rewrite Hb|]. change s' with ((s', r).1). rewrite <- E. by vm_compute.
Defined.

(** *** Limits *)

(** A second compaction by the agent keeps the first summary in front, among the
    system messages: it is not recognised, the new summary is appended as a
    message and nothing is folded. *)
Example a_second_compaction_is_not_folded :
  let st := (Compact (calm 30 "m_x") "m_1" "m_3" "first" s6).1 in
  let view := ActiveView st in
  let folded := match view with m :: _ => m :: [said "system" "second" "r_0"; said "user" "go on" "r_1"] | [] => [] end in
  let '(st2, err) := persist env6 view folded st in
  (Content <$> view) = ["first"; "d"; "e"; "f"] /\ DetectCompact view folded = None /\ err = None /\
  (Content <$> ActiveView st2) = ["first"; "d"; "e"; "f"; "second"; "go on"].
Proof. by vm_compute. Qed.

(** Nor is one after which the turn is as long as the view was. *)
Example a_long_turn_is_not_folded :
  let folded := [said "system" "so far" "r_0"; said "user" "go on" "r_1"; said "assistant" "done" "r_2"] in
  let '(st2, err) := persist env6 (ActiveView s1) folded s1 in
  err = None /\ (Content <$> ActiveView st2) = ["hi"; "yes?"; "bye"; "so far"; "go on"; "done"].
Proof. by vm_compute. Qed.
End Examples.
