(* ===== verification/Supervisor.v ===== *)
(** * ai-runtime/agent/supervisor.go: the goroutines of background runs

    [StartRun] and [execute], [Archive], [Retire], [CancelRun] and [Close], cut
    into their critical sections and run in any interleaving. A thread that has
    submitted a run goes on as its executor: the goroutine [execute] starts
    where [StartRun] ends and the caller has nothing left to do. [Session.Run]
    is any number of waits for approvals or capabilities, then any result. The
    log records what was written to the run journal, published and returned. *)

From S2P Require Import Prelude AgentRun.
#[local] Open Scope string_scope.
#[local] Open Scope list_scope.

(** What [execute] works on: the runtime, the run, whether it has an event hub. *)
Record job := mkJob { jrt : nat; jrun : nat; jhub : bool }.

(** Where a goroutine is; [held] tells an executor that holds the gate and a
    slot from one that gave up before. *)
Inductive pc : Type :=
  (* StartRun *)
  | AtStart (sid : string)
  | AtPending (sid : string) (rt : nat)
  | AtReserve (sid : string) (rt : nat)
  | AtBind (rt r : nat) (s : Session)
  | AtQueue (j : job) (s : Session)
  | AtBegin (j : job)
  | AtSpawn (j : job)
  | AtRelease (rt r : nat) (e : start_error)
  | AtReturn (e : start_error)
  | Refused (e : start_error)
  (* execute *)
  | AtGate (j : job)
  | AtGateFailed (j : job)
  | AtSlot (j : job)
  | AtSlotFailed (j : job)
  | AtDequeue (j : job)
  | AtRunning (j : job)
  | InSession (j : job)
  | InWait (j : job) (st : RunState)
  | AtEvents (j : job) (res : RunResult)
  | AtEndRun (j : job) (res : RunResult)
  (* finalizeRun *)
  | AtFinal (j : job) (res : RunResult) (held : bool)
  | AtClear (j : job) (res : RunResult) (held : bool)
  | AtResult (j : job) (res : RunResult) (held : bool)
  | AtDone (j : job) (res : RunResult) (held : bool)
  | AtHook (j : job) (held : bool)
  (* the deferred calls of execute *)
  | AtSlotRelease (j : job)
  | AtGateRelease (j : job)
  | AtLateEnd (j : job)
  | Finished (r : nat)
  (* Archive *)
  | AtArchive (rt : nat)
  | InCommit (rt : nat)
  | ArchiveReturned (e : option start_error)
  (* Close *)
  | AtClose
  | AtCancelHost (all : list nat)
  | AwaitRuns (rest all : list nat)
  | AwaitDone (r : nat) (rest all : list nat)
  | AtCloseEvents (rest : list nat)
  | AtCloseClear
  | CloseReturned.

Inductive event : Type :=
  | EvState (r : nat) (st : RunState) (ok : bool)
  | EvPublish (r : nat) (typ : string) (st : RunState)
  | EvAccepted (r : nat)
  | EvReturned (r : nat) (ctxErr : option error) (res : RunResult)
  | EvRunDone (r : nat)
  | EvHook (rt : nat)
  | EvHubClosed (rt : nat)
  | EvCloseReturned.

Record state := mkState {
  mgr : SessionManager;
  rts : gmap nat SessionRuntime;
  runs : gmap nat AgentRun;
  threads : gmap nat pc;
  log : list event;
}.

Definition initial (s : state) : Prop :=
  exists limits, mgr s = NewSessionManager ((fun l => WithRunLimits l.1 l.2) <$> limits) /\
    rts s = ∅ /\ runs s = ∅ /\ threads s = ∅ /\ log s = [].

(** The error of a run's context: cancelled itself or with the host. *)
Definition ctx_err (s : state) (r : nat) : option error :=
  if hostCancelled (mgr s) then Some Canceled
  else match cancel <$> runs s !! r with
       | Some (Some true) => Some Canceled
       | _ => None
       end.

Definition move (s : state) (m : SessionManager) (rs : gmap nat SessionRuntime) (us : gmap nat AgentRun)
    (tid : nat) (c : pc) (evs : list event) : state :=
  mkState m rs us (<[tid := c]> (threads s)) (log s ++ evs).

(** Only the thread moves. *)
Definition goto (s : state) (tid : nat) (c : pc) (evs : list event) : state :=
  move s (mgr s) (rts s) (runs s) tid c evs.
Definition at_mgr (s : state) (m : SessionManager) (tid : nat) (c : pc) (evs : list event) : state :=
  move s m (rts s) (runs s) tid c evs.
Definition at_rt (s : state) (p : nat) (f : SessionRuntime -> SessionRuntime) (tid : nat) (c : pc) (evs : list event) : state :=
  move s (mgr s) (alter f p (rts s)) (runs s) tid c evs.
Definition at_run (s : state) (r : nat) (f : AgentRun -> AgentRun) (tid : nat) (c : pc) (evs : list event) : state :=
  move s (mgr s) (rts s) (alter f r (runs s)) tid c evs.

(** [emitRunEvent]: nothing without a hub. *)
Definition emitRunEvent (j : job) (typ : string) (st : RunState) : list event :=
  if jhub j then [EvPublish (jrun j) typ st] else [].

(** [journalRunState] through the session the runtime has now. *)
Definition journalled (s : state) (p : nat) (io_ok : bool) : bool :=
  appendRunState io_ok (rts s !! p ≫= session).

(** Step 1 of [StartRun]. *)
Definition lookup_start (sid : string) (m : SessionManager) : pc :=
  if closed m then Refused ErrManagerClosed
  else match runtimes m !! sid with
       | None => Refused ErrSessionNotFound
       | Some p => AtPending sid p
       end.

(** Step 3: a token, or the refusal. *)
Definition take_pending (sid : string) (p : nat) (m : SessionManager) : SessionManager * pc :=
  if (pending m <? maxPending m)%nat then (set_pending m (S (pending m)), AtReserve sid p)
  else (m, Refused ErrTooManyPending).

Definition untake (m : SessionManager) : SessionManager := set_pending m (pred (pending m)).

(** The events of the end of a run, by its result. *)
Definition end_events (j : job) (res : RunResult) : list event :=
  (if String.eqb (State res) RunFailed then emitRunEvent j "run.error" RunFailed else [])
  ++ emitRunEvent j "run.finished" (State res).

Inductive start_step (s : state) (tid : nat) : state -> Prop :=
  | step_call sid :
      threads s !! tid = None -> start_step s tid (goto s tid (AtStart sid) [])
  | step_lookup sid :
      threads s !! tid = Some (AtStart sid) -> start_step s tid (goto s tid (lookup_start sid (mgr s)) [])
  | step_pending sid p m' c :
      threads s !! tid = Some (AtPending sid p) -> take_pending sid p (mgr s) = (m', c) ->
      start_step s tid (at_mgr s m' tid c [])
  (** [newRunID] never returns an id twice. *)
  | step_reserve sid p r id rt rt' sess :
      threads s !! tid = Some (AtReserve sid p) -> rts s !! p = Some rt -> admission rt = false ->
      runs s !! r = None -> (forall q run, runs s !! q = Some run -> ID run <> id) ->
      reserveRun r rt = (rt', Ok sess) ->
      start_step s tid (move s (mgr s) (<[p := rt']> (rts s)) (<[r := newAgentRun id sid]> (runs s)) tid (AtBind p r sess) [])
  | step_reserve_refused sid p r rt rt' e :
      threads s !! tid = Some (AtReserve sid p) -> rts s !! p = Some rt -> admission rt = false ->
      reserveRun r rt = (rt', Prelude.Err e) ->
      start_step s tid (goto s tid (AtReturn e) [])
  | step_bind p r sess rt rt' hub_ok hub :
      threads s !! tid = Some (AtBind p r sess) -> rts s !! p = Some rt ->
      bindEvents hub_ok sess rt = (rt', Ok hub) ->
      start_step s tid (move s (mgr s) (<[p := rt']> (rts s)) (runs s) tid (AtQueue (mkJob p r hub) sess) [])
  | step_bind_failed p r sess rt rt' hub_ok e :
      threads s !! tid = Some (AtBind p r sess) -> rts s !! p = Some rt ->
      bindEvents hub_ok sess rt = (rt', Prelude.Err e) ->
      start_step s tid (goto s tid (AtRelease p r e) [])
  | step_queue j sess io_ok :
      threads s !! tid = Some (AtQueue j sess) -> appendRunState io_ok (Some sess) = true ->
      start_step s tid (goto s tid (AtBegin j) [EvState (jrun j) RunQueued true])
  | step_queue_failed j sess io_ok :
      threads s !! tid = Some (AtQueue j sess) -> appendRunState io_ok (Some sess) = false ->
      start_step s tid (goto s tid (AtRelease (jrt j) (jrun j) ErrRunJournalWrite) [EvState (jrun j) RunQueued false])
  | step_begin j run :
      threads s !! tid = Some (AtBegin j) -> runs s !! jrun j = Some run ->
      start_step s tid (at_rt s (jrt j) (if jhub j then hub_begin (ID run) else id) tid (AtSpawn j) [])
  | step_spawn j :
      threads s !! tid = Some (AtSpawn j) ->
      start_step s tid (at_run s (jrun j) (set_cancel (Some false)) tid (AtGate j) [EvAccepted (jrun j)])
  | step_release p r e rt :
      threads s !! tid = Some (AtRelease p r e) -> rts s !! p = Some rt -> admission rt = false ->
      start_step s tid (at_rt s p (releaseRunReservation r) tid (AtReturn e) [])
  | step_untoken e :
      threads s !! tid = Some (AtReturn e) -> (0 < pending (mgr s))%nat ->
      start_step s tid (at_mgr s (untake (mgr s)) tid (Refused e) []).

Inductive exec_step (s : state) (tid : nat) : state -> Prop :=
  | step_gate j rt :
      threads s !! tid = Some (AtGate j) -> rts s !! jrt j = Some rt -> gate rt = false ->
      exec_step s tid (at_rt s (jrt j) (set_gate true) tid (AtSlot j) [])
  | step_gate_ctx j e :
      threads s !! tid = Some (AtGate j) -> ctx_err s (jrun j) = Some e ->
      exec_step s tid (goto s tid (AtGateFailed j) [])
  | step_gate_failed j :
      threads s !! tid = Some (AtGateFailed j) -> (0 < pending (mgr s))%nat ->
      exec_step s tid (at_mgr s (untake (mgr s)) tid (AtFinal j (mkResult RunCancelled (Some Canceled) false) false)
                         (emitRunEvent j "run.finished" RunCancelled))
  | step_slot j :
      threads s !! tid = Some (AtSlot j) -> (runSlots (mgr s) < maxSlots (mgr s))%nat ->
      exec_step s tid (at_mgr s (set_slots (mgr s) (S (runSlots (mgr s)))) tid (AtDequeue j) [])
  | step_slot_ctx j e :
      threads s !! tid = Some (AtSlot j) -> ctx_err s (jrun j) = Some e ->
      exec_step s tid (goto s tid (AtSlotFailed j) [])
  | step_slot_failed j rt :
      threads s !! tid = Some (AtSlotFailed j) -> rts s !! jrt j = Some rt -> gate rt = true ->
      exec_step s tid (at_rt s (jrt j) (set_gate false) tid (AtGateFailed j) [])
  | step_dequeue j :
      threads s !! tid = Some (AtDequeue j) -> (0 < pending (mgr s))%nat ->
      exec_step s tid (at_mgr s (untake (mgr s)) tid (AtRunning j) [])
  | step_running j now io_ok :
      threads s !! tid = Some (AtRunning j) ->
      exec_step s tid (at_run s (jrun j) (transition now RunRunning) tid (InSession j)
        (emitRunEvent j "run.started" RunRunning ++ [EvState (jrun j) RunRunning (journalled s (jrt j) io_ok)]))
  (** [decideFunc] and the capability observer: a wait begins and ends. *)
  | step_wait j now st io_ok :
      threads s !! tid = Some (InSession j) -> st = RunWaiting \/ st = RunWaitingCapability ->
      exec_step s tid (at_run s (jrun j) (transition now st) tid (InWait j st)
        ((if String.eqb st RunWaiting then emitRunEvent j "run.state_changed" st else []) ++
         [EvState (jrun j) st (journalled s (jrt j) io_ok)]))
  | step_resume j now st :
      threads s !! tid = Some (InWait j st) ->
      exec_step s tid
        (match ctx_err s (jrun j) with
         | Some _ => goto s tid (InSession j) []
         | None => at_run s (jrun j) (transition now RunRunning) tid (InSession j)
                     (if String.eqb st RunWaiting then emitRunEvent j "run.state_changed" RunRunning else [])
         end)
  (** [Session.Run] returns any result; the context decides what it becomes. *)
  | step_return j res :
      threads s !! tid = Some (InSession j) ->
      exec_step s tid (goto s tid (AtEvents j (settle (ctx_err s (jrun j)) res))
                         [EvReturned (jrun j) (ctx_err s (jrun j)) res])
  | step_events j res :
      threads s !! tid = Some (AtEvents j res) ->
      exec_step s tid (goto s tid (AtEndRun j res) (end_events j res))
  | step_end_run j res :
      threads s !! tid = Some (AtEndRun j res) ->
      exec_step s tid (at_rt s (jrt j) (if jhub j then hub_end else id) tid (AtFinal j res true) [])
  (** [finalizeRun]: the record, the active run, the result, the end state, the hook. *)
  | step_final j res held io_ok :
      threads s !! tid = Some (AtFinal j res held) ->
      exec_step s tid (goto s tid (AtClear j (normalize res) held)
                         [EvState (jrun j) (State (normalize res)) (journalled s (jrt j) io_ok)])
  | step_clear j res held :
      threads s !! tid = Some (AtClear j res held) ->
      exec_step s tid (at_rt s (jrt j) (clear_active (jrun j)) tid (AtResult j res held) [])
  | step_result j res held :
      threads s !! tid = Some (AtResult j res held) ->
      exec_step s tid (at_run s (jrun j) (set_result res) tid (AtDone j res held) [])
  | step_done j res held now :
      threads s !! tid = Some (AtDone j res held) ->
      exec_step s tid (at_run s (jrun j) (transition now (State res)) tid (AtHook j held) [EvRunDone (jrun j)])
  | step_hook j held :
      threads s !! tid = Some (AtHook j held) ->
      exec_step s tid (goto s tid (if held then AtSlotRelease j else AtLateEnd j) [EvHook (jrt j)])
  | step_slot_release j :
      threads s !! tid = Some (AtSlotRelease j) -> (0 < runSlots (mgr s))%nat ->
      exec_step s tid (at_mgr s (set_slots (mgr s) (pred (runSlots (mgr s)))) tid (AtGateRelease j) [])
  | step_gate_release j rt :
      threads s !! tid = Some (AtGateRelease j) -> rts s !! jrt j = Some rt -> gate rt = true ->
      exec_step s tid (at_rt s (jrt j) (set_gate false) tid (AtLateEnd j) [])
  (** The deferred [EndRun], then the deferred [cancel]. *)
  | step_late_end j :
      threads s !! tid = Some (AtLateEnd j) ->
      exec_step s tid (move s (mgr s) (alter (if jhub j then hub_end else id) (jrt j) (rts s))
                         (alter (set_cancel (Some true)) (jrun j) (runs s)) tid (Finished (jrun j)) []).

Inductive host_step (s : state) (tid : nat) : state -> Prop :=
  | step_archive_call p :
      threads s !! tid = None -> host_step s tid (goto s tid (AtArchive p) [])
  | step_archive_begin p rt rt' :
      threads s !! tid = Some (AtArchive p) -> rts s !! p = Some rt -> admission rt = false ->
      archive_begin rt = (rt', None) ->
      host_step s tid (move s (mgr s) (<[p := rt']> (rts s)) (runs s) tid (InCommit p) [])
  | step_archive_refused p rt rt' e :
      threads s !! tid = Some (AtArchive p) -> rts s !! p = Some rt -> admission rt = false ->
      archive_begin rt = (rt', Some e) ->
      host_step s tid (goto s tid (ArchiveReturned (Some e)) [])
  | step_archive_end p committed :
      threads s !! tid = Some (InCommit p) ->
      host_step s tid (at_rt s p (archive_end committed) tid (ArchiveReturned None) [])
  | step_close_call :
      threads s !! tid = None -> host_step s tid (goto s tid AtClose [])
  | step_close :
      threads s !! tid = Some AtClose ->
      host_step s tid
        (if closed (mgr s) then goto s tid CloseReturned [EvCloseReturned]
         else at_mgr s (set_closed (mgr s)) tid (AtCancelHost (map_to_list (runtimes (mgr s))).*2) [])
  | step_cancel_host all :
      threads s !! tid = Some (AtCancelHost all) ->
      host_step s tid (at_mgr s (cancel_host (mgr s)) tid (AwaitRuns all all) [])
  | step_await_active p rest all rt :
      threads s !! tid = Some (AwaitRuns (p :: rest) all) -> rts s !! p = Some rt ->
      host_step s tid (goto s tid (match active rt with Some r => AwaitDone r rest all | None => AwaitRuns rest all end) [])
  | step_await_done r rest all run :
      threads s !! tid = Some (AwaitDone r rest all) -> runs s !! r = Some run -> done run = true ->
      host_step s tid (goto s tid (AwaitRuns rest all) [])
  | step_awaited all :
      threads s !! tid = Some (AwaitRuns [] all) -> host_step s tid (goto s tid (AtCloseEvents all) [])
  | step_close_events p rest :
      threads s !! tid = Some (AtCloseEvents (p :: rest)) ->
      host_step s tid (at_rt s p hub_end tid (AtCloseEvents rest) [EvHubClosed p])
  | step_events_closed :
      threads s !! tid = Some (AtCloseEvents []) -> host_step s tid (goto s tid AtCloseClear [])
  | step_close_clear :
      threads s !! tid = Some AtCloseClear ->
      host_step s tid (at_mgr s (set_runtimes (mgr s) ∅) tid CloseReturned [EvCloseReturned]).

(** Operations that are one critical section. *)
Inductive admin_step (s : state) : state -> Prop :=
  | step_new p id sess :
      rts s !! p = None ->
      admin_step s (mkState (mgr s) (<[p := NewSessionRuntime id sess]> (rts s)) (runs s) (threads s) (log s))
  | step_register p rt m' e :
      rts s !! p = Some rt -> Register p rt (mgr s) = (m', e) ->
      admin_step s (mkState m' (rts s) (runs s) (threads s) (log s))
  | step_remove id :
      admin_step s (mkState (Remove id (mgr s)) (rts s) (runs s) (threads s) (log s))
  | step_bind_session p sess :
      admin_step s (mkState (mgr s) (alter (BindSession sess) p (rts s)) (runs s) (threads s) (log s))
  | step_retire p rt rt' e :
      rts s !! p = Some rt -> admission rt = false -> Retire rt = (rt', e) ->
      admin_step s (mkState (mgr s) (<[p := rt']> (rts s)) (runs s) (threads s) (log s))
  | step_ensure_hub p rt rt' hub_ok e :
      rts s !! p = Some rt -> EnsureHub hub_ok rt = (rt', e) ->
      admin_step s (mkState (mgr s) (<[p := rt']> (rts s)) (runs s) (threads s) (log s))
  | step_cancel_run sid id us e :
      CancelRun sid id (mgr s) (rts s) (runs s) = (us, e) ->
      admin_step s (mkState (mgr s) (rts s) us (threads s) (log s))
  | step_cancel r run :
      runs s !! r = Some run ->
      admin_step s (mkState (mgr s) (rts s) (<[r := (Cancel run).1]> (runs s)) (threads s) (log s)).

Inductive step (s s' : state) : Prop :=
  | by_start tid : start_step s tid s' -> step s s'
  | by_exec tid : exec_step s tid s' -> step s s'
  | by_host tid : host_step s tid s' -> step s s'
  | by_admin : admin_step s s' -> step s s'.

