(* ===== verification/SupervisorInv.v ===== *)
(** * The invariant of the goroutines of background runs

    Who holds a token, a slot, a gate or the place of the active run, counted
    over the threads of [Supervisor]; what is on record about every run; and
    that every step keeps both. [SupervisorProps] states what follows. *)

From S2P Require Import Prelude AgentRun Supervisor.
#[local] Open Scope string_scope.
#[local] Open Scope list_scope.

(** ** Who holds what *)

(** A token of [pending]. *)
Definition token (c : pc) : bool :=
  match c with
  | AtReserve _ _ | AtBind _ _ _ | AtQueue _ _ | AtBegin _ | AtSpawn _ | AtRelease _ _ _ | AtReturn _
  | AtGate _ | AtGateFailed _ | AtSlot _ | AtSlotFailed _ | AtDequeue _ => true
  | _ => false
  end.

(** A slot of [runSlots]. *)
Definition slot (c : pc) : bool :=
  match c with
  | AtDequeue _ | AtRunning _ | InSession _ | InWait _ _ | AtEvents _ _ | AtEndRun _ _ | AtSlotRelease _ => true
  | AtFinal _ _ held | AtClear _ _ held | AtResult _ _ held | AtDone _ _ held | AtHook _ held => held
  | _ => false
  end.

(** The gate of a runtime. *)
Definition gate_of (c : pc) : option nat :=
  match c with
  | AtSlot j | AtSlotFailed j | AtDequeue j | AtRunning j | InSession j | InWait j _ | AtEvents j _ | AtEndRun j _
  | AtSlotRelease j | AtGateRelease j => Some (jrt j)
  | AtFinal j _ held | AtClear j _ held | AtResult j _ held | AtDone j _ held | AtHook j held =>
      if held then Some (jrt j) else None
  | _ => None
  end.

(** A run that is the active one of its runtime. *)
Definition owns (c : pc) : option (nat * nat) :=
  match c with
  | AtBind p r _ | AtRelease p r _ => Some (p, r)
  | AtQueue j _ | AtBegin j | AtSpawn j | AtGate j | AtGateFailed j | AtSlot j | AtSlotFailed j | AtDequeue j
  | AtRunning j | InSession j | InWait j _ | AtEvents j _ | AtEndRun j _ | AtFinal j _ _ | AtClear j _ _ =>
      Some (jrt j, jrun j)
  | _ => None
  end.

(** The run a thread is about, from its reservation on. *)
Definition run_of (c : pc) : option nat :=
  match c with
  | AtBind _ r _ | AtRelease _ r _ | Finished r => Some r
  | AtQueue j _ | AtBegin j | AtSpawn j | AtGate j | AtGateFailed j | AtSlot j | AtSlotFailed j | AtDequeue j
  | AtRunning j | InSession j | InWait j _ | AtEvents j _ | AtEndRun j _ | AtFinal j _ _ | AtClear j _ _
  | AtResult j _ _ | AtDone j _ _ | AtHook j _ | AtSlotRelease j | AtGateRelease j | AtLateEnd j => Some (jrun j)
  | _ => None
  end.

Definition holds_gate (p : nat) (c : pc) : bool := bool_decide (gate_of c = Some p).
Definition owns_run (p r : nat) (c : pc) : bool := bool_decide (owns c = Some (p, r)).
Definition about (r : nat) (c : pc) : bool := bool_decide (run_of c = Some r).

Definition gate_val (rs : gmap nat SessionRuntime) (p : nat) : nat :=
  match rs !! p with Some rt => if gate rt then 1 else 0 | None => 0 end.
Definition active_val (rs : gmap nat SessionRuntime) (p r : nat) : nat :=
  match rs !! p with Some rt => if decide (active rt = Some r) then 1 else 0 | None => 0 end.

(** ** What is on record about a run *)

(** The end states written for it, and what its [Session.Run] came to. *)
Definition terminals (r : nat) (l : list event) : list RunState :=
  omap (fun e => match e with
    | EvState q st _ => if decide (q = r) then if ends st then Some st else None else None
    | _ => None end) l.
Definition outcomes (r : nat) (l : list event) : list RunResult :=
  omap (fun e => match e with
    | EvReturned q ctx res => if decide (q = r) then Some (settle ctx res) else None
    | _ => None end) l.

(** A run that has not ended, and one that has. *)
Definition alive (run : AgentRun) : Prop := ends (rstate run) = false /\ done run = false.

(** The end state of a run: what its [Session.Run] came to, or cancelled without one. *)
Definition verdict (st : RunState) (os : list RunResult) : Prop :=
  os = [] /\ st = RunCancelled \/ exists o, os = [o] /\ st = State (normalize o).

Definition run_ok (c : pc) (run : AgentRun) (ts : list RunState) (os : list RunResult) : Prop :=
  match c with
  | AtEvents _ res | AtEndRun _ res => alive run /\ ts = [] /\ os = [res]
  | AtFinal _ res _ => alive run /\ ts = [] /\ verdict (State (normalize res)) os
  | AtClear _ res _ | AtResult _ res _ | AtDone _ res _ =>
      alive run /\ ends (State res) = true /\ ts = [State res] /\ verdict (State res) os
  | AtHook _ _ | AtSlotRelease _ | AtGateRelease _ | AtLateEnd _ | Finished _ =>
      done run = true /\ ends (rstate run) = true /\ ts = [rstate run] /\ verdict (rstate run) os
  | _ => alive run /\ ts = [] /\ os = []
  end.

(** Once the end state of a run is written, nothing more is recorded or published for it. *)
Definition about_run (r : nat) (e : event) : bool :=
  match e with
  | EvState q _ _ | EvPublish q _ _ | EvReturned q _ _ => bool_decide (q = r)
  | _ => false
  end.
Definition log_closed (l : list event) : Prop :=
  forall l1 l2 r st ok, l = l1 ++ EvState r st ok :: l2 -> ends st = true -> Forall (fun e => about_run r e = false) l2.

Record inv (s : state) : Prop := {
  v_pending : pending (mgr s) = tally token (threads s);
  v_slots : runSlots (mgr s) = tally slot (threads s);
  v_limits : (0 < maxSlots (mgr s) /\ runSlots (mgr s) <= maxSlots (mgr s) /\ pending (mgr s) <= maxPending (mgr s))%nat;
  v_gate : forall p, tally (holds_gate p) (threads s) = gate_val (rts s) p;
  v_active : forall p r, tally (owns_run p r) (threads s) = active_val (rts s) p r;
  v_about : forall r, (tally (about r) (threads s) <= 1)%nat;
  v_run : forall tid c r, threads s !! tid = Some c -> run_of c = Some r ->
    exists run, runs s !! r = Some run /\ run_ok c run (terminals r (log s)) (outcomes r (log s));
  v_dropped : forall r run, runs s !! r = Some run -> tally (about r) (threads s) = 0%nat ->
    done run = false /\ terminals r (log s) = [] /\ outcomes r (log s) = [];
  v_fresh : forall r, runs s !! r = None -> Forall (fun e => about_run r e = false) (log s);
  v_closed : forall p rt, rts s !! p = Some rt -> archived rt = true \/ retired rt = true -> active rt = None;
  v_log : log_closed (log s);
}.

(** ** Lemmas: the log *)

Lemma terminals_app r l l' : terminals r (l ++ l') = terminals r l ++ terminals r l'.
Proof. apply omap_app. Qed.

Lemma outcomes_app r l l' : outcomes r (l ++ l') = outcomes r l ++ outcomes r l'.
Proof. apply omap_app. Qed.

Lemma unrelated r l : Forall (fun e => about_run r e = false) l -> terminals r l = [] /\ outcomes r l = [].
Proof.
  unfold terminals, outcomes. induction 1 as [|e l He _ [IH1 IH2]]; [done|]. cbn. rewrite IH1, IH2.
  destruct e; cbn in *; try done; apply bool_decide_eq_false in He; by rewrite decide_False.
Qed.

Lemma log_closed_nil : log_closed [].
Proof. intros l1 l2 r st ok H. by destruct l1. Qed.

Lemma log_closed_cons e l :
  log_closed l -> (forall r st ok, e = EvState r st ok -> ends st = true -> Forall (fun e => about_run r e = false) l) ->
  log_closed (e :: l).
Proof.
  intros Hl He l1 l2 r st ok Heq Hst. destruct l1 as [|e1 l1]; cbn in Heq; injection Heq as -> Heq.
  - subst. by eapply He.
  - by eapply Hl.
Qed.

Lemma log_closed_app l l' :
  log_closed l -> log_closed l' ->
  (forall r, terminals r l <> [] -> Forall (fun e => about_run r e = false) l') -> log_closed (l ++ l').
Proof.
  intros Hl Hl' Hsep. induction l as [|e l IH]; [done|]. cbn. apply log_closed_cons.
  - apply IH.
    + intros l1 l2 r st ok E. apply (Hl (e :: l1) l2 r st ok). by rewrite E.
    + intros r Hr. apply Hsep. intros Hn. apply Hr. change (e :: l) with ([e] ++ l) in Hn.
      rewrite terminals_app in Hn. by apply app_nil in Hn as [_ ?].
  - intros r st ok -> Hst. apply Forall_app. split.
    + by apply (Hl [] l r st ok).
    + apply Hsep. unfold terminals. cbn. by rewrite decide_True, Hst by done.
Qed.

(** ** Lemmas: moving one thread *)

Definition old {A} (d : A) (f : pc -> A) (o : option pc) : A := match o with Some c => f c | None => d end.
Definition b2n (b : bool) : nat := if b then 1 else 0.

Lemma tally_move (f : pc -> bool) th tid c :
  (tally f (<[tid := c]> th) + b2n (old false f (th !! tid)) = tally f th + b2n (f c))%nat.
Proof.
  unfold old, b2n. destruct (th !! tid) as [c0|] eqn:E; [by apply tally_update|]. rewrite tally_new by done. lia.
Qed.

Definition same_run (run run' : AgentRun) : Prop := rstate run' = rstate run /\ done run' = done run.

Lemma run_ok_same c run run' ts os : same_run run run' -> run_ok c run ts os -> run_ok c run' ts os.
Proof. intros [E1 E2]. unfold run_ok, alive. rewrite E1, E2. done. Qed.

Lemma inv_move s m rs us tid c evs :
  inv s ->
  (pending m + b2n (old false token (threads s !! tid)) = pending (mgr s) + b2n (token c))%nat ->
  (runSlots m + b2n (old false slot (threads s !! tid)) = runSlots (mgr s) + b2n (slot c))%nat ->
  (0 < maxSlots m /\ runSlots m <= maxSlots m /\ pending m <= maxPending m)%nat ->
  (forall p, gate_val rs p + b2n (old false (holds_gate p) (threads s !! tid)) =
             gate_val (rts s) p + b2n (holds_gate p c))%nat ->
  (forall p r, active_val rs p r + b2n (old false (owns_run p r) (threads s !! tid)) =
               active_val (rts s) p r + b2n (owns_run p r c))%nat ->
  (run_of c = None \/ run_of c = old None run_of (threads s !! tid) \/
   exists r, run_of c = Some r /\ runs s !! r = None /\ old None run_of (threads s !! tid) = None) ->
  (forall q, us !! q = None -> runs s !! q = None) ->
  (forall q run', us !! q = Some run' -> run_of c = Some q \/
     (exists run, runs s !! q = Some run /\ same_run run run')) ->
  (forall q, run_of c <> Some q -> Forall (fun e => about_run q e = false) evs) ->
  (forall r, run_of c = Some r -> exists run, us !! r = Some run /\
     run_ok c run (terminals r (log s) ++ terminals r evs) (outcomes r (log s) ++ outcomes r evs)) ->
  (forall r run, run_of c = None -> old None run_of (threads s !! tid) = Some r -> runs s !! r = Some run ->
     done run = false /\ terminals r (log s) = [] /\ outcomes r (log s) = []) ->
  (forall p rt, rs !! p = Some rt -> archived rt = true \/ retired rt = true -> active rt = None) ->
  log_closed evs ->
  (forall r, run_of c = Some r -> Forall (fun e => about_run r e = false) evs \/ terminals r (log s) = []) ->
  inv (move s m rs us tid c evs).
Proof.
  intros Hi Hp Hs Hlim Hg Ha Hrun Hdom Hsame Hev Hok Hdrop Hcl Hlc Hterm.
  assert (Htal : forall f, (tally f (<[tid := c]> (threads s)) + b2n (old false f (threads s !! tid)) =
    tally f (threads s) + b2n (f c))%nat) by (intros; apply tally_move).
  assert (Hab : forall q, b2n (old false (about q) (threads s !! tid)) = b2n (bool_decide (old None run_of (threads s !! tid) = Some q))).
  { intros q. unfold old, about. by destruct (threads s !! tid). }
  assert (Hzero : forall r, runs s !! r = None -> tally (about r) (threads s) = 0%nat).
  { intros r Hr. destruct (tally (about r) (threads s)) eqn:E; [done|].
    destruct (tally_pos (about r) (threads s)) as (k & x & Hk & Hx); [lia|].
    apply bool_decide_eq_true in Hx. destruct (v_run _ Hi _ _ _ Hk Hx) as (run & Hrr & _). congruence. }
  assert (Hrest : forall q, run_of c <> Some q -> terminals q (log s ++ evs) = terminals q (log s) /\
    outcomes q (log s ++ evs) = outcomes q (log s)).
  { intros q Hq. destruct (unrelated q evs (Hev q Hq)) as [E1 E2].
    by rewrite terminals_app, outcomes_app, E1, E2, !app_nil_r. }
  (* Another thread is not about the run this one is about. *)
  assert (Hother : forall t c1 r, t <> tid -> threads s !! t = Some c1 -> run_of c1 = Some r -> run_of c <> Some r).
  { intros t c1 r Hne Ht Hr Hc. destruct Hrun as [H|[H|(q & H & Hq & _)]]; [congruence| |].
    - rewrite Hc in H. unfold old in H. destruct (threads s !! tid) as [c0|] eqn:E; [|done].
      apply Hne, (tally_unique (about r) (threads s) t tid c1 c0 (v_about _ Hi r)); try done;
        by apply bool_decide_eq_true.
    - rewrite Hc in H. injection H as <-. pose proof (tally_zero _ _ _ _ (Hzero r Hq) Ht) as Hz.
      unfold about in Hz. apply bool_decide_eq_false in Hz. done. }
  split; cbn [mgr rts runs threads log move].
  - pose proof (Htal token). pose proof (v_pending _ Hi). lia.
  - pose proof (Htal slot). pose proof (v_slots _ Hi). lia.
  - done.
  - intros p. pose proof (Htal (holds_gate p)). pose proof (v_gate _ Hi p). specialize (Hg p). lia.
  - intros p r. pose proof (Htal (owns_run p r)). pose proof (v_active _ Hi p r). specialize (Ha p r). lia.
  - intros r. pose proof (Htal (about r)) as Ht. pose proof (v_about _ Hi r). rewrite Hab in Ht.
    unfold about at 3, b2n in Ht. destruct (bool_decide_reflect (run_of c = Some r)) as [E|E]; [|lia].
    destruct Hrun as [H1|[H1|(q & H1 & Hq & _)]]; [congruence| |].
    + rewrite <- H1, E, bool_decide_true in Ht by done. lia.
    + assert (q = r) as -> by congruence. rewrite (Hzero r Hq) in Ht. lia.
  - intros t c1 r. rewrite lookup_insert_Some. intros [[<- <-]|[Hne Ht]] Hr.
    + rewrite terminals_app, outcomes_app. by apply Hok.
    + pose proof (Hother t c1 r (not_eq_sym Hne) Ht Hr) as Hc. destruct (Hrest r Hc) as [-> ->].
      destruct (v_run _ Hi _ _ _ Ht Hr) as (run & Hrr & Hk).
      destruct (us !! r) as [run'|] eqn:E; [|rewrite Hdom in Hrr by done; done]. exists run'. split; [done|].
      destruct (Hsame _ _ E) as [?|(run0 & Hr0 & Hs0)]; [done|].
      eapply run_ok_same; [exact Hs0|]. congruence.
  - intros r run' Hr H0. pose proof (Htal (about r)) as Ht. rewrite H0, Hab in Ht. unfold about at 2 in Ht.
    destruct (bool_decide_reflect (run_of c = Some r)) as [E|E].
    { unfold b2n in Ht. destruct (bool_decide _) eqn:Eo; [|lia].
      pose proof (tally_move (about r) (threads s) tid c) as Ht'. unfold about at 4 in Ht'.
      rewrite bool_decide_true in Ht' by done.
      destruct (Hok r E) as (run0 & _ & _).
      assert (Hpos : (0 < tally (about r) (<[tid:=c]> (threads s)))%nat).
      { apply (tally_some _ _ tid c); [by rewrite lookup_insert_eq|by apply bool_decide_eq_true]. }
      lia. }
    destruct (Hsame _ _ Hr) as [?|(run & Hrr & Hsr)]; [done|]. destruct (Hrest r E) as [-> ->].
    destruct Hsr as [_ ->]. unfold b2n in Ht. destruct (bool_decide_reflect (old None run_of (threads s !! tid) = Some r)) as [Eo|Eo].
    + destruct Hrun as [Hn|[Hn|(q & Hn & Hq & Hq')]]; [by apply (Hdrop r run)| |congruence].
      rewrite <- Hn in Eo. done.
    + apply (v_dropped _ Hi); [done|lia].
  - intros r Hr. apply Forall_app. split; [by apply (v_fresh _ Hi), Hdom|]. apply Hev. intros Hc.
    destruct (Hok r Hc) as (run & Hl & _). congruence.
  - done.
  - apply log_closed_app; [apply (v_log _ Hi)|done|]. intros r Hn.
    destruct (decide (run_of c = Some r)) as [E|E]; [|by apply Hev].
    by destruct (Hterm r E).
Qed.

(** Runtimes whose gate and active run did not change. *)
Definition same_rts (rs rs' : gmap nat SessionRuntime) : Prop :=
  forall p, match rs !! p, rs' !! p with
            | Some rt, Some rt' => gate rt' = gate rt /\ active rt' = active rt
            | None, None => True
            | None, Some rt' => gate rt' = false /\ active rt' = None
            | Some _, None => False
            end.

Definition well_closed (rs : gmap nat SessionRuntime) : Prop :=
  forall p rt, rs !! p = Some rt -> archived rt = true \/ retired rt = true -> active rt = None.

Lemma same_gate_val rs rs' p : same_rts rs rs' -> gate_val rs' p = gate_val rs p.
Proof.
  intros H. specialize (H p). unfold gate_val. destruct (rs !! p), (rs' !! p); try done; by destruct H as [-> _].
Qed.

Lemma same_active_val rs rs' p r : same_rts rs rs' -> active_val rs' p r = active_val rs p r.
Proof.
  intros H. specialize (H p). unfold active_val. destruct (rs !! p), (rs' !! p); try done; by destruct H as [_ ->].
Qed.

Lemma same_rts_refl rs : same_rts rs rs.
Proof. intros p. by destruct (rs !! p). Qed.

Lemma same_rts_alter f p rs : (forall rt, gate (f rt) = gate rt /\ active (f rt) = active rt) -> same_rts rs (alter f p rs).
Proof.
  intros H q. destruct (decide (q = p)) as [-> |Hne].
  - rewrite lookup_alter_eq. destruct (rs !! p); cbn; auto.
  - rewrite lookup_alter_ne by done. by destruct (rs !! q).
Qed.

Lemma well_closed_alter f p rs :
  well_closed rs ->
  (forall rt, rs !! p = Some rt -> (archived (f rt) = true \/ retired (f rt) = true) -> active (f rt) = None \/
     (archived rt = true \/ retired rt = true) /\ (active rt = None -> active (f rt) = None)) ->
  well_closed (alter f p rs).
Proof.
  intros Hw Hf q rt. destruct (decide (q = p)) as [-> |Hne].
  - rewrite lookup_alter_eq. destruct (rs !! p) as [rt0|] eqn:E; [|done]. cbn. intros [= <-] Hc.
    destruct (Hf rt0 eq_refl Hc) as [|[Hc0 Ha]]; [done|]. apply Ha. by eapply Hw.
  - rewrite lookup_alter_ne by done. apply Hw.
Qed.

(** A thread with no run goes on without one. *)
Lemma inv_plain s m rs tid c evs :
  inv s ->
  old None run_of (threads s !! tid) = None -> run_of c = None ->
  old None gate_of (threads s !! tid) = None -> gate_of c = None ->
  old None owns (threads s !! tid) = None -> owns c = None ->
  (pending m + b2n (old false token (threads s !! tid)) = pending (mgr s) + b2n (token c))%nat ->
  (runSlots m + b2n (old false slot (threads s !! tid)) = runSlots (mgr s) + b2n (slot c))%nat ->
  (0 < maxSlots m /\ runSlots m <= maxSlots m /\ pending m <= maxPending m)%nat ->
  same_rts (rts s) rs -> well_closed rs ->
  (forall q, Forall (fun e => about_run q e = false) evs) ->
  inv (move s m rs (runs s) tid c evs).
Proof.
  intros Hi Hr Hr' Hg Hg' Ho Ho' Hp Hs Hl Hrs Hw He.
  apply inv_move; try done.
  - intros p. rewrite (same_gate_val _ _ _ Hrs). unfold holds_gate. rewrite Hg'.
    unfold old in *. destruct (threads s !! tid); cbn; [by rewrite Hg|done].
  - intros p r. rewrite (same_active_val _ _ _ _ Hrs). unfold owns_run. rewrite Ho'.
    unfold old in *. destruct (threads s !! tid); cbn; [by rewrite Ho|done].
  - by left.
  - intros q run' Hq. right. exists run'. by split.
  - intros q Hq. by rewrite Hr' in Hq.
  - intros r run _ Hq. by rewrite Hr in Hq.
  - intros l1 l2 r st ok -> Hst. specialize (He r). apply Forall_app in He as [_ He]. by inversion He.
  - intros r Hq. by rewrite Hr' in Hq.
Qed.

(** A thread goes on with its run, whose gate and place it keeps. *)
Lemma inv_local s m rs f tid c0 c r evs :
  inv s -> threads s !! tid = Some c0 -> run_of c0 = Some r -> run_of c = Some r ->
  gate_of c = gate_of c0 -> owns c = owns c0 ->
  (pending m + b2n (token c0) = pending (mgr s) + b2n (token c))%nat ->
  (runSlots m + b2n (slot c0) = runSlots (mgr s) + b2n (slot c))%nat ->
  (0 < maxSlots m /\ runSlots m <= maxSlots m /\ pending m <= maxPending m)%nat ->
  same_rts (rts s) rs -> well_closed rs ->
  (forall q, q <> r -> Forall (fun e => about_run q e = false) evs) -> log_closed evs ->
  (forall run ts os, run_ok c0 run ts os -> Forall (fun e => about_run r e = false) evs \/ ts = []) ->
  (forall run ts os, run_ok c0 run ts os -> run_ok c (f run) (ts ++ terminals r evs) (os ++ outcomes r evs)) ->
  inv (move s m rs (alter f r (runs s)) tid c evs).
Proof.
  intros Hi Ht Hr0 Hr Hg Ho Hp Hs Hl Hrs Hw He Hlc Hts Hok.
  destruct (v_run _ Hi _ _ _ Ht Hr0) as (run & Hrun & Hro).
  apply inv_move; try done; rewrite ?Ht; cbn [old]; try done.
  - intros p. rewrite (same_gate_val _ _ _ Hrs). unfold holds_gate. by rewrite Hg.
  - intros p q. rewrite (same_active_val _ _ _ _ Hrs). unfold owns_run. by rewrite Ho.
  - right. left. congruence.
  - intros q. rewrite lookup_alter_None. done.
  - intros q run'. destruct (decide (q = r)) as [-> |Hne]; [by left|]. rewrite lookup_alter_ne by done.
    intros Hq. right. exists run'. by split.
  - intros q Hq. apply He. congruence.
  - intros q Hq. assert (q = r) as -> by congruence. exists (f run). rewrite lookup_alter_eq, Hrun.
    split; [done|]. by apply Hok.
  - intros q run' Hn. congruence.
  - intros q Hq. assert (q = r) as -> by congruence. by eapply Hts.
Qed.

Lemma alter_nothing {A} (m : gmap nat A) k : alter (fun x => x) k m = m.
Proof.
  apply map_eq. intros i. destruct (decide (i = k)) as [-> |].
  - rewrite lookup_alter_eq. by destruct (m !! k).
  - by rewrite lookup_alter_ne.
Qed.

Lemma inv_local_same s m rs tid c0 c r evs :
  inv s -> threads s !! tid = Some c0 -> run_of c0 = Some r -> run_of c = Some r ->
  gate_of c = gate_of c0 -> owns c = owns c0 ->
  (pending m + b2n (token c0) = pending (mgr s) + b2n (token c))%nat ->
  (runSlots m + b2n (slot c0) = runSlots (mgr s) + b2n (slot c))%nat ->
  (0 < maxSlots m /\ runSlots m <= maxSlots m /\ pending m <= maxPending m)%nat ->
  same_rts (rts s) rs -> well_closed rs ->
  (forall q, q <> r -> Forall (fun e => about_run q e = false) evs) -> log_closed evs ->
  (forall run ts os, run_ok c0 run ts os -> Forall (fun e => about_run r e = false) evs \/ ts = []) ->
  (forall run ts os, run_ok c0 run ts os -> run_ok c run (ts ++ terminals r evs) (os ++ outcomes r evs)) ->
  inv (move s m rs (runs s) tid c evs).
Proof. intros. rewrite <- (alter_nothing (runs s) r). by eapply inv_local. Qed.

(** *** Side conditions *)

Lemma closed_one e : log_closed [e].
Proof. apply log_closed_cons; [apply log_closed_nil|]. intros. constructor. Qed.

Lemma closed_publish j typ st l : log_closed l -> log_closed (emitRunEvent j typ st ++ l).
Proof. intros H. unfold emitRunEvent. destruct (jhub j); [|done]. cbn. by apply log_closed_cons. Qed.

Lemma publish_only j typ st q : q <> jrun j -> Forall (fun e => about_run q e = false) (emitRunEvent j typ st).
Proof.
  intros H. unfold emitRunEvent. destruct (jhub j); repeat constructor. cbn. apply bool_decide_eq_false. congruence.
Qed.

Lemma publish_silent r j typ st : terminals r (emitRunEvent j typ st) = [] /\ outcomes r (emitRunEvent j typ st) = [].
Proof. unfold emitRunEvent. by destruct (jhub j). Qed.

Lemma end_events_facts j res :
  log_closed (end_events j res) /\
  (forall q, q <> jrun j -> Forall (fun e => about_run q e = false) (end_events j res)) /\
  (forall r, terminals r (end_events j res) = [] /\ outcomes r (end_events j res) = []).
Proof.
  unfold end_events, emitRunEvent. destruct (String.eqb _ _), (jhub j); cbn; split_and!; try done;
    try apply log_closed_nil; try apply closed_one;
    try (apply log_closed_cons; [apply closed_one|done]);
    intros q Hq; repeat constructor; apply bool_decide_eq_false; congruence.
Qed.

Lemma terminals_state r st ok : terminals r [EvState r st ok] = if ends st then [st] else [].
Proof. unfold terminals. cbn. rewrite decide_True by done. by destruct (ends st). Qed.

Lemma outcomes_state r q st ok : outcomes r [EvState q st ok] = [].
Proof. done. Qed.

Lemma state_only r q st ok : q <> r -> Forall (fun e => about_run q e = false) [EvState r st ok].
Proof. intros H. repeat constructor. cbn. apply bool_decide_eq_false. congruence. Qed.

Lemma neutral_hub_end j :
  forall rt, gate ((if jhub j then hub_end else id) rt) = gate rt /\ active ((if jhub j then hub_end else id) rt) = active rt /\
    archived ((if jhub j then hub_end else id) rt) = archived rt /\ retired ((if jhub j then hub_end else id) rt) = retired rt.
Proof. intros rt. destruct (jhub j); [|done]. unfold hub_end. by destruct (events rt). Qed.

Lemma well_closed_neutral f p rs :
  well_closed rs ->
  (forall rt, gate (f rt) = gate rt /\ active (f rt) = active rt /\ archived (f rt) = archived rt /\ retired (f rt) = retired rt) ->
  same_rts rs (alter f p rs) /\ well_closed (alter f p rs).
Proof.
  intros Hw Hf. split.
  - apply same_rts_alter. intros rt. by destruct (Hf rt) as (? & ? & _).
  - apply well_closed_alter; [done|]. intros rt _ Hc. right. destruct (Hf rt) as (_ & Ha & E1 & E2).
    rewrite E1, E2 in Hc. rewrite Ha. done.
Qed.

Lemma alive_transition now st run : alive run -> ends st = false -> alive (transition now st run).
Proof.
  intros [H1 H2] H. unfold transition. destruct (String.eqb _ _); [done|]. split; cbn; by rewrite ?H.
Qed.

(** The bookkeeping sides of [inv_local]. *)
Ltac sides Hi :=
  try done;
  try (cbn; lia);
  try (apply same_rts_refl);
  try (exact (v_closed _ Hi));
  try (apply closed_one);
  try (apply log_closed_nil);
  try (apply closed_publish, closed_one);
  try (intros; apply publish_only; done);
  try (intros; apply state_only; done);
  try (intros; apply Forall_app; split; [apply publish_only; done|apply state_only; done]);
  try (intros; left; by repeat constructor);
  try (intros; by repeat constructor);
  try (intros ? ? ?; cbn; intros (? & -> & ?); by right).

Ltac run_facts :=
  intros run ts os; cbn [run_ok]; intros (? & -> & ?); subst; rewrite ?app_nil_r; cbn [app];
  repeat match goal with
  | |- context [emitRunEvent ?j ?t ?st] => destruct (publish_silent (jrun j) j t st) as [-> ->]
  end; auto.

(** Taking and giving back the gate. *)
Lemma inv_gate s b p rt tid c0 c r :
  inv s -> threads s !! tid = Some c0 -> rts s !! p = Some rt -> gate rt = negb b ->
  run_of c0 = Some r -> run_of c = Some r -> owns c = owns c0 -> token c = token c0 -> slot c = slot c0 ->
  gate_of c0 = (if b then None else Some p) -> gate_of c = (if b then Some p else None) ->
  (forall run ts os, run_ok c0 run ts os -> run_ok c run ts os) ->
  inv (at_rt s p (set_gate b) tid c []).
Proof.
  intros Hi Ht Hrt Hg Hr0 Hr Ho Htok Hsl Hg0 Hg1 Hok. destruct (v_run _ Hi _ _ _ Ht Hr0) as (run & Hrun & Hro).
  assert (Hlk : forall q, alter (set_gate b) p (rts s) !! q = if decide (q = p) then Some (set_gate b rt) else rts s !! q).
  { intros q. destruct (decide (q = p)) as [-> |]; [by rewrite lookup_alter_eq, Hrt|by rewrite lookup_alter_ne]. }
  apply inv_move; try done; rewrite ?Ht; cbn [old]; rewrite ?Htok, ?Hsl; try lia; try done.
  - apply (v_limits _ Hi).
  - intros q. unfold gate_val, holds_gate. rewrite Hlk, Hg0, Hg1. destruct (decide (q = p)) as [-> |Hne].
    + rewrite Hrt, Hg. destruct b; cbn [negb gate set_gate]; rewrite (bool_decide_true (Some p = Some p)), (bool_decide_false (None = Some p)) by done; done.
    + destruct b; rewrite (bool_decide_false (Some p = Some q)), (bool_decide_false (None = Some q)) by congruence; done.
  - intros q x. unfold active_val, owns_run. rewrite Hlk, Ho. destruct (decide (q = p)) as [-> |]; [by rewrite Hrt|done].
  - right. left. congruence.
  - intros q run' Hq. right. exists run'. by split.
  - intros q Hq. assert (q = r) as -> by congruence. exists run. split; [done|]. rewrite !app_nil_r. by apply Hok.
  - intros q run' Hn. congruence.
  - intros q rt'. rewrite Hlk. destruct (decide (q = p)) as [-> |]; [|apply (v_closed _ Hi)].
    intros [= <-]. cbn. by apply (v_closed _ Hi p).
  - apply log_closed_nil.
  - intros q _. by left.
Qed.

(** Giving up the place of the active run. *)
Lemma inv_unreserve s p tid c0 c r :
  inv s -> threads s !! tid = Some c0 -> owns c0 = Some (p, r) -> owns c = None ->
  run_of c0 = Some r -> (run_of c = Some r /\ (forall run ts os, run_ok c0 run ts os -> run_ok c run ts os) \/
    run_of c = None /\ (forall run ts os, run_ok c0 run ts os -> done run = false /\ ts = [] /\ os = [])) ->
  token c = token c0 -> slot c = slot c0 -> gate_of c = gate_of c0 ->
  inv (at_rt s p (clear_active r) tid c []).
Proof.
  intros Hi Ht Ho0 Ho Hr0 Hr Htok Hsl Hg. destruct (v_run _ Hi _ _ _ Ht Hr0) as (run & Hrun & Hro).
  assert (Hact : exists rt, rts s !! p = Some rt /\ active rt = Some r).
  { assert (0 < active_val (rts s) p r)%nat as Hpos.
    { rewrite <- (v_active _ Hi). apply (tally_some _ _ tid c0 Ht). by apply bool_decide_eq_true. }
    unfold active_val in Hpos. destruct (rts s !! p) as [rt|]; [|lia]. exists rt.
    destruct (decide (active rt = Some r)); [done|lia]. }
  destruct Hact as (rt & Hrt & Hact).
  assert (Hcl : clear_active r rt = set_active None rt) by (unfold clear_active; by rewrite decide_True).
  assert (Hlk : forall q, alter (clear_active r) p (rts s) !! q = if decide (q = p) then Some (set_active None rt) else rts s !! q).
  { intros q. destruct (decide (q = p)) as [-> |]; [by rewrite lookup_alter_eq, Hrt; cbn; rewrite Hcl|by rewrite lookup_alter_ne]. }
  apply inv_move; try done; rewrite ?Ht; cbn [old]; rewrite ?Htok, ?Hsl; try lia; try done.
  - apply (v_limits _ Hi).
  - intros q. unfold gate_val, holds_gate. rewrite Hlk, Hg. destruct (decide (q = p)) as [-> |]; [by rewrite Hrt|done].
  - intros q x. unfold active_val, owns_run. rewrite Hlk, Ho0, Ho. destruct (decide (q = p)) as [-> |Hne].
    + rewrite Hrt, Hact. cbn. rewrite (bool_decide_false (None = Some (p, x))) by done.
      destruct (decide (Some r = Some x)) as [E|E]; [injection E as ->; by rewrite bool_decide_true|].
      by rewrite bool_decide_false by congruence.
    + rewrite (bool_decide_false (None = Some (q, x))), (bool_decide_false (Some (p, r) = Some (q, x))) by congruence.
      cbn. lia.
  - destruct Hr as [[Hr _]|[Hr _]]; [right; left; congruence|by left].
  - intros q run' Hq. right. exists run'. by split.
  - intros q Hq. destruct Hr as [[Hr Hok]|[Hr _]]; [|congruence]. assert (q = r) as -> by congruence.
    exists run. split; [done|]. rewrite !app_nil_r. by apply Hok.
  - intros q run' Hn Hq Hl. assert (q = r) as -> by congruence. destruct Hr as [[Hr _]|[_ Hd]]; [congruence|].
    rewrite Hrun in Hl. injection Hl as <-. by apply Hd.
  - intros q rt'. rewrite Hlk. destruct (decide (q = p)) as [-> |]; [|apply (v_closed _ Hi)]. by intros [= <-].
  - apply log_closed_nil.
  - intros q _. by left.
Qed.

Lemma run_ok_final j res held run ts os :
  run_ok (AtFinal j res held) run ts os ->
  run_ok (AtClear j (normalize res) held) run (ts ++ [State (normalize res)]) os.
Proof.
  cbn. intros (Ha & -> & Hos). by pose proof (normalize_ends res).
Qed.

Lemma run_ok_done j res held now run ts os :
  run_ok (AtDone j res held) run ts os -> run_ok (AtHook j held) (transition now (State res) run) ts os.
Proof.
  cbn. intros ([Hr Hd] & He & -> & Hos). unfold transition. destruct (String.eqb_spec (rstate run) (State res)) as [E|E].
  - rewrite E in Hr. congruence.
  - cbn. rewrite He. done.
Qed.

Lemma exec_inv s tid s' : inv s -> exec_step s tid s' -> inv s'.
Proof.
  intros Hi Hst. destruct (v_limits _ Hi) as (Hl1 & Hl2 & Hl3).
  destruct Hst as [j rt Ht Hrt Hg|j e Ht Hc|j Ht Hp|j Ht Hsl|j e Ht Hc|j rt Ht Hrt Hg|j Ht Hp|j now io_ok Ht
    |j now st io_ok Ht Hwait|j now st Ht|j res Ht|j res Ht|j res Ht|j res held io_ok Ht|j res held Ht|j res held Ht
    |j res held now Ht|j held Ht|j Ht Hsl|j rt Ht Hrt Hg|j Ht].
  - by eapply (inv_gate s true (jrt j) rt tid (AtGate j) _ (jrun j)).
  - eapply (inv_local_same s _ _ tid (AtGate j) _ (jrun j)); sides Hi. run_facts.
  - eapply (inv_local_same s _ _ tid (AtGateFailed j) _ (jrun j)); sides Hi.
    + unfold emitRunEvent. destruct (jhub j); [apply closed_one|apply log_closed_nil].
    + run_facts. split_and!; try done. by left.
  - eapply (inv_local_same s _ _ tid (AtSlot j) _ (jrun j)); sides Hi. run_facts.
  - eapply (inv_local_same s _ _ tid (AtSlot j) _ (jrun j)); sides Hi. run_facts.
  - by eapply (inv_gate s false (jrt j) rt tid (AtSlotFailed j) _ (jrun j)).
  - eapply (inv_local_same s _ _ tid (AtDequeue j) _ (jrun j)); sides Hi. run_facts.
  - eapply (inv_local s _ _ _ tid (AtRunning j) _ (jrun j)); sides Hi.
    intros run ts os. cbn [run_ok]. intros (Ha & -> & ->). rewrite terminals_app, outcomes_app, terminals_state.
    destruct (publish_silent (jrun j) j "run.started" RunRunning) as [-> ->]. cbn.
    split; [by apply alive_transition|done].
  - assert (He : ends st = false) by (by destruct Hwait as [-> | ->]).
    eapply (inv_local s _ _ _ tid (InSession j) _ (jrun j)); sides Hi.
    + intros q Hq. apply Forall_app. split; [|by apply state_only].
      destruct (String.eqb _ _); [by apply publish_only|constructor].
    + destruct (String.eqb _ _); [apply closed_publish|]; apply closed_one.
    + intros run ts os. cbn [run_ok]. intros (Ha & -> & ->). rewrite terminals_app, outcomes_app, terminals_state, He.
      destruct (publish_silent (jrun j) j "run.state_changed" st) as [E1 E2].
      destruct (String.eqb _ _); rewrite ?E1, ?E2; cbn; (split; [by apply alive_transition|done]).
  - destruct (ctx_err s (jrun j)) as [e|].
    + eapply (inv_local_same s _ _ tid (InWait j st) _ (jrun j)); sides Hi. run_facts.
    + eapply (inv_local s _ _ _ tid (InWait j st) _ (jrun j)); sides Hi.
      * intros q Hq. destruct (String.eqb _ _); [by apply publish_only|constructor].
      * destruct (String.eqb _ _); [|apply log_closed_nil]. rewrite <- (app_nil_r (emitRunEvent _ _ _)).
        apply closed_publish, log_closed_nil.
      * intros run ts os. cbn [run_ok]. intros (Ha & -> & ->).
        destruct (publish_silent (jrun j) j "run.state_changed" RunRunning) as [E1 E2].
        destruct (String.eqb _ _); rewrite ?E1, ?E2; cbn; (split; [by apply alive_transition|done]).
  - eapply (inv_local_same s _ _ tid (InSession j) _ (jrun j)); sides Hi.
    + intros q Hq. repeat constructor. cbn. apply bool_decide_eq_false. congruence.
    + intros run ts os. cbn [run_ok]. intros (Ha & -> & ->). unfold outcomes. cbn. rewrite decide_True by done. done.
  - destruct (end_events_facts j res) as (Hlc & Honly & Hsil).
    eapply (inv_local_same s _ _ tid (AtEvents j res) _ (jrun j)); sides Hi.
    intros run ts os. cbn [run_ok]. destruct (Hsil (jrun j)) as [-> ->]. rewrite !app_nil_r. done.
  - destruct (well_closed_neutral _ (jrt j) _ (v_closed _ Hi) (neutral_hub_end j)) as [Hs1 Hs2].
    eapply (inv_local_same s _ _ tid (AtEndRun j res) _ (jrun j)); sides Hi.
    intros run ts os. cbn [run_ok]. rewrite !app_nil_r. intros (? & -> & ->). split_and!; try done. right. by exists res.
  - eapply (inv_local_same s _ _ tid (AtFinal j res held) _ (jrun j)); sides Hi.
    intros run ts os Hro. rewrite terminals_state, outcomes_state, normalize_ends, app_nil_r. by apply run_ok_final.
  - by apply (inv_unreserve s (jrt j) tid (AtClear j res held) _ (jrun j)); auto.
  - eapply (inv_local s _ _ _ tid (AtResult j res held) _ (jrun j)); sides Hi.
    intros run ts os. cbn [run_ok]. rewrite !app_nil_r. done.
  - eapply (inv_local s _ _ _ tid (AtDone j res held) _ (jrun j)); sides Hi.
    intros run ts os. rewrite !app_nil_r. apply run_ok_done.
  - destruct held; eapply (inv_local_same s _ _ tid (AtHook j _) _ (jrun j)); sides Hi;
      intros run ts os; rewrite !app_nil_r; done.
  - eapply (inv_local_same s _ _ tid (AtSlotRelease j) _ (jrun j)); sides Hi.
    intros run ts os. rewrite !app_nil_r. done.
  - by eapply (inv_gate s false (jrt j) rt tid (AtGateRelease j) _ (jrun j)).
  - destruct (well_closed_neutral _ (jrt j) _ (v_closed _ Hi) (neutral_hub_end j)) as [Hs1 Hs2].
    eapply (inv_local s _ _ _ tid (AtLateEnd j) _ (jrun j)); sides Hi.
    intros run ts os. rewrite !app_nil_r. done.
Qed.

(** *** The submissions *)

Lemma reserveRun_ok r rt rt' sess :
  reserveRun r rt = (rt', Ok sess) ->
  archived rt = false /\ retired rt = false /\ active rt = None /\ rt' = set_active (Some r) rt.
Proof.
  unfold reserveRun. destruct (archived rt); [done|]. destruct (retired rt); [done|].
  destruct (active rt); [done|]. destruct (session rt); [|done]. by intros [= <- _].
Qed.

Lemma inv_reserve s sid p r id rt tid sess :
  inv s -> threads s !! tid = Some (AtReserve sid p) -> rts s !! p = Some rt -> runs s !! r = None ->
  archived rt = false -> retired rt = false -> active rt = None ->
  inv (move s (mgr s) (<[p := set_active (Some r) rt]> (rts s)) (<[r := newAgentRun id sid]> (runs s)) tid (AtBind p r sess) []).
Proof.
  intros Hi Ht Hrt Hr Ha Hre Hac.
  assert (Hlk : forall q, (<[p := set_active (Some r) rt]> (rts s)) !! q =
    if decide (q = p) then Some (set_active (Some r) rt) else rts s !! q).
  { intros q. destruct (decide (q = p)) as [-> |]; [by rewrite lookup_insert_eq|by rewrite lookup_insert_ne]. }
  destruct (unrelated r (log s) (v_fresh _ Hi r Hr)) as [E1 E2].
  apply inv_move; try done; rewrite ?Ht; cbn [old]; try done.
  - apply (v_limits _ Hi).
  - intros q. unfold gate_val. rewrite Hlk. destruct (decide (q = p)) as [-> |]; [by rewrite Hrt|done].
  - intros q x. unfold active_val, owns_run. rewrite Hlk. destruct (decide (q = p)) as [-> |Hne].
    + rewrite Hrt, Hac. cbn [owns active set_active]. rewrite (bool_decide_false (None = Some (p, x))) by done.
      destruct (decide (Some r = Some x)) as [E|E]; [injection E as ->; by rewrite bool_decide_true|].
      by rewrite bool_decide_false by congruence.
    + cbn [owns]. by rewrite (bool_decide_false (None = Some (q, x))), (bool_decide_false (Some (p, r) = Some (q, x))) by congruence.
  - right. right. by exists r.
  - intros q. rewrite lookup_insert_None. by intros [].
  - intros q run'. destruct (decide (q = r)) as [-> |Hne]; [by left|]. rewrite lookup_insert_ne by done.
    right. exists run'. by split.
  - intros q [= <-]. exists (newAgentRun id sid). rewrite lookup_insert_eq, E1, E2. done.
  - intros q rt'. rewrite Hlk. destruct (decide (q = p)) as [-> |]; [|apply (v_closed _ Hi)].
    intros [= <-]. cbn. rewrite Ha, Hre. by intros [].
  - apply log_closed_nil.
  - intros q _. by left.
Qed.

Lemma bindEvents_neutral hub_ok sess rt rt' o :
  bindEvents hub_ok sess rt = (rt', o) ->
  gate rt' = gate rt /\ active rt' = active rt /\ archived rt' = archived rt /\ retired rt' = retired rt.
Proof.
  unfold bindEvents. destruct (negb _); [by intros [= <- _]|]. destruct (events rt); [by intros [= <- _]|].
  destruct hub_ok; by intros [= <- _].
Qed.

Lemma insert_alter (rs : gmap nat SessionRuntime) p rt rt' :
  rs !! p = Some rt -> <[p := rt']> rs = alter (fun _ => rt') p rs.
Proof.
  intros H. apply map_eq. intros q. destruct (decide (q = p)) as [-> |].
  - by rewrite lookup_insert_eq, lookup_alter_eq, H.
  - by rewrite lookup_insert_ne, lookup_alter_ne.
Qed.

Lemma neutral_insert rs p rt rt' :
  well_closed rs -> rs !! p = Some rt ->
  gate rt' = gate rt -> active rt' = active rt -> (archived rt' = true \/ retired rt' = true -> active rt' = None) ->
  same_rts rs (<[p := rt']> rs) /\ well_closed (<[p := rt']> rs).
Proof.
  intros Hw Hrt Hg Ha Hc. split; intros q; destruct (decide (q = p)) as [-> |];
    rewrite ?lookup_insert_eq, ?lookup_insert_ne, ?Hrt by done; [done|by destruct (rs !! q)| |apply Hw].
  by intros rt0 [= <-].
Qed.

Lemma neutral_hub_begin j rid rt :
  gate ((if jhub j then hub_begin rid else id) rt) = gate rt /\ active ((if jhub j then hub_begin rid else id) rt) = active rt /\
  archived ((if jhub j then hub_begin rid else id) rt) = archived rt /\ retired ((if jhub j then hub_begin rid else id) rt) = retired rt.
Proof. destruct (jhub j); [|done]. unfold hub_begin. by destruct (events rt). Qed.

(** [inv_plain] with its usual sides. *)
Ltac plain Hi Ht := apply inv_plain; rewrite ?Ht; cbn [old]; sides Hi.

Lemma start_inv s tid s' : inv s -> start_step s tid s' -> inv s'.
Proof.
  intros Hi Hst. destruct (v_limits _ Hi) as (Hl1 & Hl2 & Hl3).
  destruct Hst as [sid Ht|sid Ht|sid p m' c Ht Htk|sid p r id rt rt' sess Ht Hrt _ Hr _ Hres|sid p r rt rt' e Ht Hrt _ Hres
    |p r sess rt rt' hub_ok hub Ht Hrt Hb|p r sess rt rt' hub_ok e Ht Hrt Hb|j sess io_ok Ht _|j sess io_ok Ht _
    |j run0 Ht Hr|j Ht|p r e rt Ht Hrt _|e Ht Hp].
  - plain Hi Ht.
  - unfold lookup_start. destruct (closed (mgr s)); [plain Hi Ht|]. destruct (runtimes (mgr s) !! sid); plain Hi Ht.
  - unfold take_pending in Htk. destruct (Nat.ltb_spec (pending (mgr s)) (maxPending (mgr s))); injection Htk as <- <-; plain Hi Ht.
  - apply reserveRun_ok in Hres as (Ha & Hre & Hac & ->). by eapply inv_reserve.
  - plain Hi Ht.
  - destruct (bindEvents_neutral _ _ _ _ _ Hb) as (E1 & E2 & E3 & E4).
    destruct (neutral_insert _ p rt rt' (v_closed _ Hi) Hrt E1 E2) as [Hs1 Hs2].
    { rewrite E2, E3, E4. by apply (v_closed _ Hi p). }
    eapply (inv_local_same s _ _ tid (AtBind p r sess) _ r); sides Hi. run_facts.
  - eapply (inv_local_same s _ _ tid (AtBind p r sess) _ r); sides Hi. run_facts.
  - eapply (inv_local_same s _ _ tid (AtQueue j sess) _ (jrun j)); sides Hi. run_facts. by rewrite terminals_state.
  - eapply (inv_local_same s _ _ tid (AtQueue j sess) _ (jrun j)); sides Hi. run_facts. by rewrite terminals_state.
  - destruct (well_closed_neutral _ (jrt j) _ (v_closed _ Hi) (neutral_hub_begin j (ID run0))) as [Hs1 Hs2].
    eapply (inv_local_same s _ _ tid (AtBegin j) _ (jrun j)); sides Hi. run_facts.
  - eapply (inv_local s _ _ _ tid (AtSpawn j) _ (jrun j)); sides Hi.
    intros run ts os. rewrite !app_nil_r. done.
  - eapply (inv_unreserve s p tid (AtRelease p r e) _ r); try done. right. split; [done|].
    intros run ts os ([_ Hd] & -> & ->). done.
  - plain Hi Ht.
Qed.

(** *** The host and single operations *)

Definition same_quota (m m' : SessionManager) : Prop :=
  runSlots m' = runSlots m /\ pending m' = pending m /\ maxSlots m' = maxSlots m /\ maxPending m' = maxPending m.

Definition same_runs (us us' : gmap nat AgentRun) : Prop :=
  forall r, match us !! r, us' !! r with
            | Some run, Some run' => same_run run run'
            | None, None => True
            | _, _ => False
            end.

Lemma same_runs_refl us : same_runs us us.
Proof. intros r. by destruct (us !! r). Qed.

Lemma same_runs_insert us r run run' : us !! r = Some run -> same_run run run' -> same_runs us (<[r := run']> us).
Proof.
  intros Hr Hs q. destruct (decide (q = r)) as [-> |].
  - by rewrite lookup_insert_eq, Hr.
  - rewrite lookup_insert_ne by done. apply same_runs_refl.
Qed.

(** No thread moves and nothing is recorded. *)
Lemma inv_still s m rs us :
  inv s -> same_quota (mgr s) m -> same_rts (rts s) rs -> well_closed rs -> same_runs (runs s) us ->
  inv (mkState m rs us (threads s) (log s)).
Proof.
  intros Hi (E1 & E2 & E3 & E4) Hrs Hw Hus. split; cbn [mgr rts runs threads log]; rewrite ?E1, ?E2, ?E3, ?E4; try apply Hi; try done.
  - intros p. rewrite (same_gate_val _ _ _ Hrs). apply (v_gate _ Hi).
  - intros p r. rewrite (same_active_val _ _ _ _ Hrs). apply (v_active _ Hi).
  - intros tid c r Ht Hr. destruct (v_run _ Hi _ _ _ Ht Hr) as (run & Hl & Hok). specialize (Hus r).
    rewrite Hl in Hus. destruct (us !! r) as [run'|]; [|done]. exists run'. split; [done|]. by eapply run_ok_same.
  - intros r run' Hr H0. specialize (Hus r). rewrite Hr in Hus. destruct (runs s !! r) as [run|] eqn:E; [|done].
    destruct Hus as [_ ->]. by apply (v_dropped _ Hi).
  - intros r Hr. specialize (Hus r). rewrite Hr in Hus. apply (v_fresh _ Hi). by destruct (runs s !! r).
Qed.

Lemma archive_begin_ok rt rt' :
  archive_begin rt = (rt', None) -> active rt = None /\ rt' = set_admission true (set_archived true rt).
Proof. unfold archive_begin. destruct (active rt); [done|]. by intros [= <-]. Qed.

Lemma host_inv s tid s' : inv s -> host_step s tid s' -> inv s'.
Proof.
  intros Hi Hst. destruct (v_limits _ Hi) as (Hl1 & Hl2 & Hl3).
  destruct Hst as [p Ht|p rt rt' Ht Hrt _ Ha|p rt rt' e Ht Hrt _ Ha|p committed Ht|Ht|Ht|all Ht|p rest all rt Ht Hrt
    |r rest all run Ht Hr Hd|all Ht|p rest Ht|Ht|Ht]; try (plain Hi Ht; done).
  - apply archive_begin_ok in Ha as [Hac ->].
    destruct (neutral_insert _ p rt (set_admission true (set_archived true rt)) (v_closed _ Hi) Hrt) as [Hs1 Hs2];
      [done..|plain Hi Ht].
  - assert (Hn : forall rt, gate (archive_end committed rt) = gate rt /\ active (archive_end committed rt) = active rt)
      by (intros rt; by destruct committed).
    plain Hi Ht; [by apply same_rts_alter|]. apply well_closed_alter; [exact (v_closed _ Hi)|].
    intros rt _ Hc. right. destruct committed; cbn in *; [done|]. destruct Hc as [|Hc]; [done|]. auto.
  - destruct (closed (mgr s)); plain Hi Ht.
  - destruct (active rt); plain Hi Ht.
  - destruct (well_closed_neutral hub_end p _ (v_closed _ Hi) (neutral_hub_end (mkJob 0 0 true))) as [Hs1 Hs2]. plain Hi Ht.
Qed.

Lemma Cancel_same run : same_run run (Cancel run).1.
Proof. unfold Cancel. by destruct (cancel run). Qed.

Lemma CancelRun_same sid id m rs us us' e : CancelRun sid id m rs us = (us', e) -> same_runs us us'.
Proof.
  unfold CancelRun. destruct (Get _ _ ≫= _) as [r|]; [|by intros [= <- _]; apply same_runs_refl].
  destruct (us !! r) as [run|] eqn:Hr; [|by intros [= <- _]; apply same_runs_refl].
  destruct (negb _); [by intros [= <- _]; apply same_runs_refl|].
  pose proof (Cancel_same run) as Hs. destruct (Cancel run) as [run' []]; intros [= <- _]; [|apply same_runs_refl].
  by eapply same_runs_insert.
Qed.

Lemma admin_inv s s' : inv s -> admin_step s s' -> inv s'.
Proof.
  intros Hi Hst. destruct Hst as [p id sess Hp|p rt m' e Hrt Hreg|id|p sess|p rt rt' e Hrt _ Hret|p rt rt' hub_ok e Hrt He|sid id us e Hc|r run Hr].
  - apply inv_still; try done; [| |apply same_runs_refl].
    + intros q. destruct (decide (q = p)) as [-> |]; [by rewrite lookup_insert_eq, Hp|].
      rewrite lookup_insert_ne by done. apply same_rts_refl.
    + intros q rt. destruct (decide (q = p)) as [-> |]; [rewrite lookup_insert_eq; by intros [= <-]|].
      rewrite lookup_insert_ne by done. apply (v_closed _ Hi).
  - apply inv_still; try done; [|apply same_rts_refl|exact (v_closed _ Hi)|apply same_runs_refl].
    unfold Register in Hreg. destruct (closed (mgr s)), (retired rt), (runtimes (mgr s) !! RID rt); by injection Hreg as <- _.
  - apply inv_still; try done; [apply same_rts_refl|exact (v_closed _ Hi)|apply same_runs_refl].
  - destruct (well_closed_neutral (BindSession sess) p _ (v_closed _ Hi)) as [Hs1 Hs2]; [done|].
    apply inv_still; try done. apply same_runs_refl.
  - unfold Retire in Hret. destruct (active rt) eqn:Ha; injection Hret as <- _.
    + rewrite insert_id by done. apply inv_still; try done; [apply same_rts_refl|exact (v_closed _ Hi)|apply same_runs_refl].
    + destruct (neutral_insert _ p rt (set_retired rt) (v_closed _ Hi) Hrt) as [Hs1 Hs2]; [done..|].
      apply inv_still; try done. apply same_runs_refl.
  - unfold EnsureHub, bindEvents in He.
    assert (rt' = rt \/ rt' = set_events (Some "") rt) as [-> | ->]
      by (destruct (session rt); [destruct (RunEvents _); [destruct (events rt); [|destruct hub_ok]|]|]; injection He as <- _; auto).
    + rewrite insert_id by done. apply inv_still; try done; [apply same_rts_refl|exact (v_closed _ Hi)|apply same_runs_refl].
    + destruct (neutral_insert _ p rt (set_events (Some "") rt) (v_closed _ Hi) Hrt) as [Hs1 Hs2]; [done..| |].
      { cbn. intros H. exact (v_closed _ Hi p rt Hrt H). }
      apply inv_still; try done. apply same_runs_refl.
  - apply inv_still; try done; [apply same_rts_refl|exact (v_closed _ Hi)|by eapply CancelRun_same].
  - apply inv_still; try done; [apply same_rts_refl|exact (v_closed _ Hi)|]. eapply same_runs_insert; [done|apply Cancel_same].
Qed.

(** *** Every reachable state *)

Lemma limits_positive limits m :
  (0 < maxSlots m)%nat -> runSlots m = 0%nat -> pending m = 0%nat ->
  let m' := foldl (fun m opt => opt m) m ((fun l => WithRunLimits l.1 l.2) <$> limits) in
  (0 < maxSlots m')%nat /\ runSlots m' = 0%nat /\ pending m' = 0%nat.
Proof.
  revert m. induction limits as [|[c p] l IH]; intros m H1 H2 H3; [done|]. cbn. apply IH; [|done..].
  unfold WithRunLimits, defaultMaxConcurrentRuns. cbn [maxSlots fst snd]. destruct (Z.leb_spec c 0); lia.
Qed.

Lemma inv_initial s : initial s -> inv s.
Proof.
  intros (limits & Hm & Hrt & Hr & Ht & Hl).
  destruct (limits_positive limits (mkManager ∅ false false 0 0 (Z.to_nat defaultMaxConcurrentRuns) (Z.to_nat defaultMaxPendingRuns)))
    as (H1 & H2 & H3); [by apply Nat.ltb_lt|done..|].
  split; unfold gate_val, active_val; rewrite ?Hm, ?Hrt, ?Hr, ?Ht, ?Hl; try done.
  - split; [done|]. unfold NewSessionManager. rewrite H2, H3. lia.
  - intros r. unfold tally. rewrite map_to_list_empty. cbn. lia.
  - apply log_closed_nil.
Qed.

Lemma inv_reachable s : reachable initial step s -> inv s.
Proof.
  apply reachable_invariant; [apply inv_initial|].
  intros s1 s2 Hi [tid H|tid H|tid H|H]; eauto using start_inv, exec_inv, host_inv, admin_inv.
Qed.
