(* ===== verification/SupervisorProps.v ===== *)
(** * What the supervisor of background runs guarantees

    One run per session, quotas that are neither exceeded nor leaked, one end
    record per run and nothing after it, cancellation, retirement, progress, and
    what a returned [Close] means; each for every reachable state of
    [Supervisor], from the invariant of [SupervisorInv]. The examples at the end
    are executions in which the code does less than its comments say. *)

From S2P Require Import Prelude AgentRun Supervisor SupervisorInv.
#[local] Open Scope string_scope.
#[local] Open Scope list_scope.
(** ** Who holds what, read off the invariant *)

Lemma owner_active s tid c p r :
  inv s -> threads s !! tid = Some c -> owns c = Some (p, r) -> exists rt, rts s !! p = Some rt /\ active rt = Some r.
Proof.
  intros Hi Ht Ho. assert (0 < active_val (rts s) p r)%nat as Hpos.
  { rewrite <- (v_active _ Hi). apply (tally_some _ _ tid c Ht). by apply bool_decide_eq_true. }
  unfold active_val in Hpos. destruct (rts s !! p) as [rt|]; [|lia]. exists rt.
  destruct (decide (active rt = Some r)); [done|lia].
Qed.

Lemma gate_holder s p rt :
  inv s -> rts s !! p = Some rt -> gate rt = true -> exists tid c, threads s !! tid = Some c /\ gate_of c = Some p.
Proof.
  intros Hi Hrt Hg. destruct (tally_pos (holds_gate p) (threads s)) as (tid & c & Ht & Hc).
  { rewrite (v_gate _ Hi). unfold gate_val. rewrite Hrt, Hg. lia. }
  exists tid, c. split; [done|]. by apply bool_decide_eq_true in Hc.
Qed.

Lemma holder_gate s tid c p :
  inv s -> threads s !! tid = Some c -> gate_of c = Some p -> exists rt, rts s !! p = Some rt /\ gate rt = true.
Proof.
  intros Hi Ht Hg. assert (0 < gate_val (rts s) p)%nat as Hpos.
  { rewrite <- (v_gate _ Hi). apply (tally_some _ _ tid c Ht). by apply bool_decide_eq_true. }
  unfold gate_val in Hpos. destruct (rts s !! p) as [rt|]; [|lia]. exists rt. destruct (gate rt); [done|lia].
Qed.

(** ** One run per session *)

(** C9: At most one run of a session exists between its reservation and its
    end record, and at most one goroutine holds the session's gate: two threads
    that own runs of the same runtime, or hold its gate, are the same thread. *)
Theorem one_run_per_session s t1 t2 c1 c2 p :
  reachable initial step s -> threads s !! t1 = Some c1 -> threads s !! t2 = Some c2 ->
  (exists r1 r2, owns c1 = Some (p, r1) /\ owns c2 = Some (p, r2)) \/ (gate_of c1 = Some p /\ gate_of c2 = Some p) ->
  t1 = t2.
Proof.
  intros Hi%inv_reachable H1 H2 [(r1 & r2 & O1 & O2)|[G1 G2]].
  - destruct (owner_active _ _ _ _ _ Hi H1 O1) as (rt & Hrt & A1), (owner_active _ _ _ _ _ Hi H2 O2) as (rt' & Hrt' & A2).
    assert (r2 = r1) as -> by congruence. apply (tally_unique (owns_run p r1) (threads s) t1 t2 c1 c2); try done;
      [|by apply bool_decide_eq_true..].
    rewrite (v_active _ Hi). unfold active_val. rewrite Hrt. destruct (decide _); lia.
  - apply (tally_unique (holds_gate p) (threads s) t1 t2 c1 c2); try done; [|by apply bool_decide_eq_true..].
    rewrite (v_gate _ Hi). unfold gate_val. destruct (rts s !! p) as [rt|]; [|lia]. destruct (gate rt); lia.
Qed.

(** ** Quotas *)

(** The slots and queue places taken are exactly those the threads hold
    and never exceed the limits; when nobody holds anything, no slot, place, gate
    or active run is left behind. *)
Theorem quotas_conserved s :
  reachable initial step s ->
  (tally slot (threads s) = runSlots (mgr s) /\ runSlots (mgr s) <= maxSlots (mgr s))%nat /\
  (tally token (threads s) = pending (mgr s) /\ pending (mgr s) <= maxPending (mgr s))%nat /\
  ((forall tid c, threads s !! tid = Some c -> token c = false /\ slot c = false /\ gate_of c = None /\ owns c = None) ->
   pending (mgr s) = 0%nat /\ runSlots (mgr s) = 0%nat /\
   forall p rt, rts s !! p = Some rt -> gate rt = false /\ active rt = None).
Proof.
  intros Hi%inv_reachable. destruct (v_limits _ Hi) as (_ & Hl1 & Hl2).
  split; [split; [symmetry; apply (v_slots _ Hi)|done]|]. split; [split; [symmetry; apply (v_pending _ Hi)|done]|].
  intros Hnone. split_and!.
  - rewrite (v_pending _ Hi). apply tally_nobody. intros tid c Ht. apply (Hnone _ _ Ht).
  - rewrite (v_slots _ Hi). apply tally_nobody. intros tid c Ht. apply (Hnone _ _ Ht).
  - intros p rt Hrt. split.
    + destruct (gate rt) eqn:Hg; [|done]. destruct (gate_holder s p rt Hi Hrt Hg) as (tid & c & Ht & Hc).
      destruct (Hnone _ _ Ht) as (_ & _ & ? & _). congruence.
    + destruct (active rt) as [r|] eqn:Ha; [|done].
      destruct (tally_pos (owns_run p r) (threads s)) as (tid & c & Ht & Hc).
      { rewrite (v_active _ Hi). unfold active_val. rewrite Hrt, Ha. rewrite decide_True by done. lia. }
      apply bool_decide_eq_true in Hc. destruct (Hnone _ _ Ht) as (_ & _ & _ & ?). congruence.
Qed.

(** ** What is on record *)

(** The record of a run whose [done] is closed. *)
Lemma done_record s r run :
  inv s -> runs s !! r = Some run -> done run = true ->
  ends (rstate run) = true /\ terminals r (log s) = [rstate run] /\ verdict (rstate run) (outcomes r (log s)).
Proof.
  intros Hi Hr Hd. destruct (decide (tally (about r) (threads s) = 0%nat)) as [H0|H0].
  - destruct (v_dropped _ Hi r run Hr H0) as (Hd' & _). congruence.
  - destruct (tally_pos (about r) (threads s)) as (tid & c & Ht & Hc); [lia|]. apply bool_decide_eq_true in Hc.
    destruct (v_run _ Hi _ _ _ Ht Hc) as (run' & Hr' & Hok). rewrite Hr in Hr'. injection Hr' as <-.
    destruct c; cbn in Hok; unfold alive in Hok; destruct_and?; try congruence; done.
Qed.

(** What the log says of any run. *)
Lemma run_record s r :
  inv s -> terminals r (log s) = [] \/ exists st, terminals r (log s) = [st] /\ ends st = true /\ verdict st (outcomes r (log s)).
Proof.
  intros Hi. destruct (runs s !! r) as [run|] eqn:Hr.
  - destruct (decide (tally (about r) (threads s) = 0%nat)) as [H0|H0].
    + left. by destruct (v_dropped _ Hi r run Hr H0) as (_ & ? & _).
    + destruct (tally_pos (about r) (threads s)) as (tid & c & Ht & Hc); [lia|]. apply bool_decide_eq_true in Hc.
      destruct (v_run _ Hi _ _ _ Ht Hc) as (run' & _ & Hok). destruct c; cbn in Hok; destruct_and?; eauto.
  - left. apply unrelated, (v_fresh _ Hi r Hr).
Qed.

(** The end records written for a run, each with whether the journal took it. *)
Definition end_writes (r : nat) (l : list event) : list (RunState * bool) :=
  omap (fun e => match e with
    | EvState q st ok => if decide (q = r) then if ends st then Some (st, ok) else None else None
    | _ => None end) l.

Lemma end_writes_states r l : (end_writes r l).*1 = terminals r l.
Proof.
  unfold end_writes, terminals. induction l as [|e l IH]; [done|]. destruct e as [q st ok| | | | | | |]; cbn; try done.
  destruct (decide (q = r)); [|done]. destruct (ends st); [|done]. cbn. by f_equal.
Qed.

Lemma one_end_write r l st : terminals r l = [st] -> exists ok, end_writes r l = [(st, ok)].
Proof.
  rewrite <- end_writes_states. destruct (end_writes r l) as [|[st' ok] [|]]; cbn; [done| |done].
  intros [= ->]. by exists ok.
Qed.

(** C10: The end of a run is written exactly once. For a run whose [done] is closed
    exactly one end record was given to the journal, of the state the run ended
    in; the journal holds it when it took it, and no end record of the run when
    that write failed, which the code only warns about and does not repeat. No
    run has two, and after the end record nothing is recorded, published or
    returned for the run. *)
Theorem end_recorded_once s r :
  reachable initial step s ->
  (length (end_writes r (log s)) <= 1)%nat /\
  (forall run, runs s !! r = Some run -> done run = true ->
     ends (rstate run) = true /\ exists ok, end_writes r (log s) = [(rstate run, ok)]) /\
  (forall l1 l2 st ok, log s = l1 ++ EvState r st ok :: l2 -> ends st = true -> Forall (fun e => about_run r e = false) l2).
Proof.
  intros Hi%inv_reachable. split_and!.
  - rewrite <- (length_fmap fst), end_writes_states. destruct (run_record s r Hi) as [-> |(st & -> & _)]; cbn; lia.
  - intros run Hr Hd. destruct (done_record s r run Hi Hr Hd) as (? & ? & _). split; [done|by apply one_end_write].
  - intros l1 l2 st ok. apply (v_log _ Hi).
Qed.

Lemma terminal_split r l : terminals r l <> [] -> exists l1 l2 st ok, l = l1 ++ EvState r st ok :: l2 /\ ends st = true.
Proof.
  intros H. destruct (terminals r l) as [|st ts] eqn:E; [done|].
  assert (Hin : st ∈ terminals r l) by (rewrite E; by left).
  apply list_elem_of_omap in Hin as (e & He & Hst). destruct e as [q st' ok| | | | | | |]; try done.
  destruct (decide (q = r)) as [-> |]; [|done]. destruct (ends st') eqn:Hst'; [|done].
  apply list_elem_of_split in He as (l1 & l2 & ->). by exists l1, l2, st', ok.
Qed.

(** ** The shape of a step *)

Definition shape (s s' : state) : Prop :=
  (exists tid m rs us c evs, s' = move s m rs us tid c evs /\
     (run_of c = None \/ run_of c = old None run_of (threads s !! tid) \/ exists r, run_of c = Some r /\ runs s !! r = None) /\
     (forall q, old None run_of (threads s !! tid) <> Some q -> run_of c <> Some q -> us !! q = runs s !! q)) \/
  (threads s' = threads s /\ log s' = log s /\ same_runs (runs s) (runs s')).

Lemma shape_any s tid m rs us c evs :
  run_of c = None \/ run_of c = old None run_of (threads s !! tid) \/ (exists r, run_of c = Some r /\ runs s !! r = None) ->
  (forall q, old None run_of (threads s !! tid) <> Some q -> run_of c <> Some q -> us !! q = runs s !! q) ->
  shape s (move s m rs us tid c evs).
Proof. intros H1 H2. left. exists tid, m, rs, us, c, evs. done. Qed.

Lemma shape_same s tid m rs c evs :
  run_of c = None \/ run_of c = old None run_of (threads s !! tid) \/ (exists r, run_of c = Some r /\ runs s !! r = None) ->
  shape s (move s m rs (runs s) tid c evs).
Proof. intros H. by apply shape_any. Qed.

Lemma shape_run s tid m rs f r c evs :
  run_of c = Some r -> old None run_of (threads s !! tid) = Some r -> shape s (move s m rs (alter f r (runs s)) tid c evs).
Proof. intros H1 H2. apply shape_any; [right; left; congruence|]. intros q Hq _. rewrite lookup_alter_ne; [done|congruence]. Qed.

(** A step moves one thread, which may change its own run only, or none. *)
Lemma step_shape s s' : step s s' -> shape s s'.
Proof.
  intros [tid H|tid H|tid H|H].
  - destruct H as [sid Ht|sid Ht|sid p m' c Ht Htk|sid p r id rt rt' sess Ht Hrt _ Hr _ Hres|sid p r rt rt' e Ht Hrt _ Hres
    |p r sess rt rt' hub_ok hub Ht Hrt Hb|p r sess rt rt' hub_ok e Ht Hrt Hb|j sess io_ok Ht _|j sess io_ok Ht _
    |j run Ht Hr|j Ht|p r e rt Ht Hrt _|e Ht Hp]; try (apply shape_same; rewrite ?Ht; cbn; auto; fail).
    + apply shape_same. left. unfold lookup_start. by destruct (closed (mgr s)), (runtimes (mgr s) !! sid).
    + apply shape_same. left. unfold take_pending in Htk. destruct (_ <? _)%nat; by injection Htk as _ <-.
    + apply shape_any; [right; right; by exists r|]. intros q _ Hq. rewrite lookup_insert_ne; [done|]. cbn in Hq. congruence.
    + apply shape_run; by rewrite ?Ht.
  - destruct H as [j rt Ht Hrt Hg|j e Ht Hc|j Ht Hp|j Ht Hsl|j e Ht Hc|j rt Ht Hrt Hg|j Ht Hp|j now io_ok Ht
    |j now st io_ok Ht Hwait|j now st Ht|j res Ht|j res Ht|j res Ht|j res held io_ok Ht|j res held Ht|j res held Ht
    |j res held now Ht|j held Ht|j Ht Hsl|j rt Ht Hrt Hg|j Ht];
      try (apply shape_same; rewrite ?Ht; cbn; auto; fail); try (apply shape_run; rewrite ?Ht; cbn; auto; fail).
    + destruct (ctx_err s (jrun j)); [apply shape_same|apply shape_run]; rewrite ?Ht; cbn; auto.
    + destruct held; apply shape_same; rewrite ?Ht; cbn; auto.
  - destruct H as [p Ht|p rt rt' Ht Hrt _ Ha|p rt rt' e Ht Hrt _ Ha|p committed Ht|Ht|Ht|all Ht|p rest all rt Ht Hrt
    |r rest all run Ht Hr Hd|all Ht|p rest Ht|Ht|Ht]; try (apply shape_same; by left).
    + destruct (closed _); apply shape_same; by left.
    + destruct (active rt); apply shape_same; by left.
  - right. destruct H as [| | | | | |sid id us e Hc|r run Hr]; split_and!; try done; try apply same_runs_refl.
    + by eapply CancelRun_same.
    + eapply same_runs_insert; [done|apply Cancel_same].
Qed.

(** The log only grows. *)
Lemma log_grows s s' : rtc step s s' -> exists evs, log s' = log s ++ evs.
Proof.
  induction 1 as [|s s1 s' Hst _ (evs & E)]; [exists []; by rewrite app_nil_r|].
  destruct (step_shape _ _ Hst) as [(tid & m & rs & us & c & evs1 & -> & _)|(_ & El & _)].
  - exists (evs1 ++ evs). rewrite E. cbn. by rewrite app_assoc.
  - exists evs. by rewrite E, El.
Qed.

(** A thread that moved made a step of its own. *)
Lemma thread_step s s' tid c :
  step s s' -> threads s !! tid = Some c ->
  threads s' !! tid = Some c \/ start_step s tid s' \/ exec_step s tid s' \/ host_step s tid s'.
Proof.
  intros Hst Ht. destruct Hst as [t H|t H|t H|H].
  1-3: destruct (decide (t = tid)) as [-> |Hne]; [by auto|]; left.
  - destruct H; cbn; by rewrite lookup_insert_ne.
  - destruct H; cbn; try case_match; cbn; by rewrite lookup_insert_ne.
  - destruct H; cbn; try case_match; cbn; by rewrite lookup_insert_ne.
  - left. by destruct H.
Qed.

(** ** Cancelled runs *)

Lemma ctx_err_canceled s r e : ctx_err s r = Some e -> e = Canceled.
Proof. unfold ctx_err. repeat case_match; by intros [= <-]. Qed.

Definition honest (e : event) : Prop := match e with EvReturned _ (Some x) _ => x = Canceled | _ => True end.

Lemma honest_publish j typ st : Forall honest (emitRunEvent j typ st).
Proof. unfold emitRunEvent. destruct (jhub j); by repeat constructor. Qed.

Lemma honest_end j res : Forall honest (end_events j res).
Proof. unfold end_events. apply Forall_app. split; [destruct (String.eqb _ _); [|constructor]|]; apply honest_publish. Qed.

Lemma honest_log s : reachable initial step s -> Forall honest (log s).
Proof.
  apply (reachable_invariant initial step (fun s => Forall honest (log s))); clear s.
  { intros s (? & _ & _ & _ & _ & ->). constructor. }
  intros s s' IH Hst. destruct Hst as [tid H|tid H|tid H|H].
  - destruct H; cbn; apply Forall_app; split; try done; by repeat constructor.
  - destruct H; cbn; try (destruct (ctx_err s (jrun j)) eqn:Hc; cbn); apply Forall_app; split; try done;
      try apply honest_publish; try apply honest_end; try (apply Forall_app; split); try apply honest_publish;
      try (destruct (String.eqb _ _); try apply honest_publish); repeat constructor.
    cbn. by apply ctx_err_canceled in Hc.
  - destruct H; cbn; try (destruct (closed (mgr s))); cbn; apply Forall_app; split; try done; by repeat constructor.
  - by destruct H.
Qed.

(** A run whose context was over when [Session.Run] returned, or that never got
    there, ends cancelled; only an error of another kind makes it a failed run. *)
Theorem cancelled_never_completed s r :
  reachable initial step s ->
  (forall e res, EvReturned r (Some e) res ∈ log s -> (forall x, Err res = Some x -> is_context_error x = true) ->
     Forall (fun st => st = RunCancelled) (terminals r (log s))) /\
  (outcomes r (log s) = [] -> Forall (fun st => st = RunCancelled) (terminals r (log s))).
Proof.
  intros Hr. pose proof (honest_log _ Hr) as Hh. apply inv_reachable in Hr as Hi.
  destruct (run_record s r Hi) as [E|(st & E & _ & Hv)]; rewrite E; [by split|]. split.
  - intros e res Hin He. apply (proj1 (Forall_forall _ _) Hh) in Hin as Hc. cbn in Hc. subst e. constructor; [|done].
    assert (Ho : settle (Some Canceled) res ∈ outcomes r (log s)).
    { apply list_elem_of_omap. eexists. split; [exact Hin|]. cbn. by rewrite decide_True. }
    destruct Hv as [[E0 _]|(o & E0 & ->)]; rewrite E0 in Ho; [by apply not_elem_of_nil in Ho|].
    apply list_elem_of_singleton in Ho as <-. by apply normalize_settled.
  - intros E0. destruct Hv as [[_ ->]|(o & E1 & _)]; [by constructor|congruence].
Qed.

(** ** Retired runtimes *)

Lemma retired_step s s' p rt :
  step s s' -> rts s !! p = Some rt -> retired rt = true -> exists rt', rts s' !! p = Some rt' /\ retired rt' = true.
Proof.
  intros Hst Hrt Hre.
  assert (Hal : forall f q, (forall x, retired (f x) = retired x) ->
    exists rt', alter f q (rts s) !! p = Some rt' /\ retired rt' = true).
  { intros f q Hf. destruct (decide (q = p)) as [-> |]; [rewrite lookup_alter_eq, Hrt|rewrite lookup_alter_ne by done];
      eexists; split; try done; cbn; by rewrite ?Hf. }
  assert (Hin : forall q x x', rts s !! q = Some x -> (retired x = true -> retired x' = true) ->
    exists rt', <[q := x']> (rts s) !! p = Some rt' /\ retired rt' = true).
  { intros q x x' Hq Hf. destruct (decide (q = p)) as [-> |]; [rewrite lookup_insert_eq|rewrite lookup_insert_ne by done];
      eexists; split; try done. apply Hf. congruence. }
  destruct Hst as [tid H|tid H|tid H|H].
  - destruct H as [ | | |sid q r id x x' sess Ht Hq _ Hr _ Hres| |q r sess x x' hub_ok hub Ht Hq Hb| | | |j run| |q r e x | ]; try (by exists rt).
    + apply reserveRun_ok in Hres as (_ & _ & _ & ->). by eapply Hin.
    + destruct (bindEvents_neutral _ _ _ _ _ Hb) as (_ & _ & _ & E). eapply Hin; [done|]. by rewrite E.
    + apply Hal. apply neutral_hub_begin.
    + apply Hal. intros y. unfold releaseRunReservation, clear_active. by destruct (decide _).
  - destruct H; try (by exists rt); try (apply Hal; try done; try apply neutral_hub_end).
    + destruct (ctx_err _ _); by exists rt.
    + intros y. unfold clear_active. by destruct (decide _).
  - destruct H as [ |q x x' Ht Hq _ Ha| | | | | | | | |q rest| | ]; try (by exists rt).
    + apply archive_begin_ok in Ha as [_ ->]. by eapply Hin.
    + apply Hal. intros y. by destruct committed.
    + destruct (closed _); by exists rt.
    + apply Hal. apply (neutral_hub_end (mkJob 0 0 true)).
  - destruct H as [q id sess Hq| | | |q x x' e Hq _ Hx|q x x' hub_ok e Hq Hx| | ]; try (by exists rt).
    + cbn. rewrite lookup_insert_ne by congruence. by exists rt.
    + by apply Hal.
    + eapply Hin; [done|]. unfold Retire in Hx. by destruct (active x); injection Hx as <- _.
    + eapply Hin; [done|]. unfold EnsureHub, bindEvents in Hx.
      by destruct (session x); [destruct (RunEvents _); [destruct (events x); [|destruct hub_ok]|]|]; injection Hx as <- _.
Qed.

(** An archived or retired runtime has no run; a retired one never has one again. *)
Theorem retired_never_runs s p rt :
  reachable initial step s -> rts s !! p = Some rt -> (archived rt = true \/ retired rt = true) ->
  active rt = None /\ (forall tid c r, threads s !! tid = Some c -> owns c <> Some (p, r)) /\
  (retired rt = true -> forall s', rtc step s s' -> forall tid c r, threads s' !! tid = Some c -> owns c <> Some (p, r)).
Proof.
  intros Hr Hrt Hc.
  assert (Hno : forall s1 rt1, inv s1 -> rts s1 !! p = Some rt1 -> (archived rt1 = true \/ retired rt1 = true) ->
    forall tid c r, threads s1 !! tid = Some c -> owns c <> Some (p, r)).
  { intros s1 rt1 Hi Hrt1 Hc1 tid c r Ht Ho. destruct (owner_active _ _ _ _ _ Hi Ht Ho) as (rt2 & Hrt2 & Ha).
    pose proof (v_closed _ Hi _ _ Hrt1 Hc1). congruence. }
  apply inv_reachable in Hr as Hi. split_and!; [by apply (v_closed _ Hi p)|by eapply Hno|].
  intros Hre s' Hs'. assert (exists rt', rts s' !! p = Some rt' /\ retired rt' = true) as (rt' & Hrt' & Hre').
  { revert rt Hrt Hre Hc. clear Hr Hi Hno. induction Hs' as [|x y z Hxy _ IH]; intros rt Hrt Hre _; [by exists rt|].
    destruct (retired_step _ _ _ _ Hxy Hrt Hre) as (rt1 & ? & ?). eapply (IH rt1); auto. }
  eapply Hno; [|done|by right]. apply inv_reachable. by eapply reachable_rtc.
Qed.

(** ** Progress *)

(** How far an executor is from its end, and the run it is for. *)
Definition rank (c : pc) : nat :=
  match c with
  | AtGate _ => 15 | AtSlot _ => 14 | AtDequeue _ => 13 | AtRunning _ => 12 | InWait _ _ => 12 | InSession _ => 11
  | AtSlotFailed _ => 10 | AtEvents _ _ => 10 | AtGateFailed _ => 9 | AtEndRun _ _ => 9 | AtFinal _ _ _ => 8
  | AtClear _ _ _ => 7 | AtResult _ _ _ => 6 | AtDone _ _ _ => 5 | AtHook _ _ => 4 | AtSlotRelease _ => 3
  | AtGateRelease _ => 2 | AtLateEnd _ => 1
  | _ => 0
  end.

Definition executing (c : pc) : option nat :=
  match c with
  | Finished r => Some r
  | _ => if (0 <? rank c)%nat then run_of c else None
  end.

(** One step of an executor that brings it nearer to its end. *)
Definition advances (s s' : state) : Prop :=
  exists tid c c', exec_step s tid s' /\ threads s !! tid = Some c /\ threads s' = <[tid := c']> (threads s) /\
    (rank c' < rank c)%nat /\ executing c' = executing c.

Definition blocking (c : pc) : bool := match c with AtGate _ | AtSlot _ => true | _ => false end.

Lemma token_taken s tid c : inv s -> threads s !! tid = Some c -> token c = true -> (0 < pending (mgr s))%nat.
Proof. intros Hi Ht Hc. rewrite (v_pending _ Hi). by eapply tally_some. Qed.

Lemma slot_taken s tid c : inv s -> threads s !! tid = Some c -> slot c = true -> (0 < runSlots (mgr s))%nat.
Proof. intros Hi Ht Hc. rewrite (v_slots _ Hi). by eapply tally_some. Qed.

(** Past its two waits an executor can always go on. *)
Lemma free_advances s tid c :
  inv s -> threads s !! tid = Some c -> (0 < rank c)%nat -> blocking c = false -> exists s', advances s s'.
Proof.
  intros Hi Ht Hr Hb.
  assert (Hgo : forall s' c', exec_step s tid s' -> threads s' = <[tid := c']> (threads s) -> (rank c' < rank c)%nat ->
    executing c' = executing c -> exists s', advances s s').
  { intros s' c' H1 H2 H3 H4. exists s', tid, c, c'. done. }
  destruct c; cbn in Hr, Hb; try lia; try done.
  - eapply Hgo; [eapply step_gate_failed; [done|by eapply token_taken]|done|cbn; lia|done].
  - destruct (holder_gate s tid (AtSlotFailed j) (jrt j) Hi Ht eq_refl) as (rt & Hrt & Hg).
    eapply Hgo; [by eapply step_slot_failed|done|cbn; lia|done].
  - eapply Hgo; [eapply step_dequeue; [done|by eapply token_taken]|done|cbn; lia|done].
  - eapply Hgo; [by apply (step_running s tid j 0%Z true)|done|cbn; lia|done].
  - eapply Hgo; [by apply (step_return s tid j (mkResult RunCompleted None true))|done|cbn; lia|done].
  - eapply (Hgo _ (InSession j)); [by apply (step_resume s tid j 0%Z st)| |cbn; lia|done]. by destruct (ctx_err _ _).
  - eapply Hgo; [by eapply step_events|done|cbn; lia|done].
  - eapply Hgo; [by eapply step_end_run|done|cbn; lia|done].
  - eapply Hgo; [by apply (step_final s tid j res held true)|done|cbn; lia|done].
  - eapply Hgo; [by eapply step_clear|done|cbn; lia|done].
  - eapply Hgo; [by eapply step_result|done|cbn; lia|done].
  - eapply Hgo; [by apply (step_done s tid j res held 0%Z)|done|cbn; lia|done].
  - eapply Hgo; [by eapply step_hook|done|destruct held; cbn; lia|by destruct held].
  - eapply Hgo; [eapply step_slot_release; [done|by eapply slot_taken]|done|cbn; lia|done].
  - destruct (holder_gate s tid (AtGateRelease j) (jrt j) Hi Ht eq_refl) as (rt & Hrt & Hg).
    eapply Hgo; [by eapply step_gate_release|done|cbn; lia|done].
  - eapply Hgo; [by eapply step_late_end|done|cbn; lia|done].
Qed.

Lemma slot_waiter_advances s tid j : inv s -> threads s !! tid = Some (AtSlot j) -> exists s', advances s s'.
Proof.
  intros Hi Ht. destruct (v_limits _ Hi) as (Hl & _ & _).
  destruct (Nat.ltb_spec (runSlots (mgr s)) (maxSlots (mgr s))) as [H|H].
  - eexists. exists tid, (AtSlot j), (AtDequeue j). split; [by eapply step_slot|]. split_and!; try done. cbn. lia.
  - destruct (tally_pos slot (threads s)) as (t & c & Hc & Hs); [rewrite <- (v_slots _ Hi); lia|].
    apply (free_advances s t c); try done; destruct c; cbn in Hs |- *; try done; try (destruct held; done); lia.
Qed.

(** The order gate, slot: whoever holds what another waits for can go on. *)
Lemma executor_advances s tid c : inv s -> threads s !! tid = Some c -> (0 < rank c)%nat -> exists s', advances s s'.
Proof.
  intros Hi Ht Hr. destruct (blocking c) eqn:Hb; [|by eapply free_advances]. destruct c; try done.
  - destruct (owner_active s tid (AtGate j) (jrt j) (jrun j) Hi Ht eq_refl) as (rt & Hrt & _).
    destruct (gate rt) eqn:Hg.
    + destruct (gate_holder s (jrt j) rt Hi Hrt Hg) as (t & c & Hc & Hgc).
      destruct (blocking c) eqn:Hbc; [destruct c; try done; by eapply slot_waiter_advances|].
      apply (free_advances s t c); try done. destruct c; cbn in Hgc |- *; try done; try (destruct held; done); lia.
    + eexists. exists tid, (AtGate j), (AtSlot j). split; [by eapply step_gate|]. split_and!; try done. cbn. lia.
  - by eapply slot_waiter_advances.
Qed.

Lemma executing_stays s s' tid c r :
  advances s s' -> threads s !! tid = Some c -> executing c = Some r ->
  exists c', threads s' !! tid = Some c' /\ executing c' = Some r.
Proof.
  intros (t & c0 & c1 & _ & Ht0 & E & _ & He) Ht Hr. destruct (decide (t = tid)) as [-> |].
  - exists c1. rewrite E, lookup_insert_eq. split; [done|]. congruence.
  - exists c. by rewrite E, lookup_insert_ne.
Qed.

Definition idle (s : state) : Prop := forall tid c, threads s !! tid = Some c -> rank c = 0%nat.

(** C20: Left to themselves the executors all come to their ends, whatever state the
    system is in: gates, slots and queue places are handed on. *)
Theorem executors_drain s :
  reachable initial step s ->
  exists s', rtc advances s s' /\ idle s' /\
    forall tid c r, threads s !! tid = Some c -> executing c = Some r ->
      threads s' !! tid = Some (Finished r) /\ (exists run, runs s' !! r = Some run /\ done run = true) /\
      exists st, terminals r (log s') = [st].
Proof.
  intros Hr.
  assert (exists s', rtc advances s s' /\ idle s') as (s' & Hs' & Hidle).
  { remember (weigh rank (threads s)) as n eqn:Hn. revert s Hr Hn. induction (lt_wf n) as [n _ IH]. intros s Hr ->.
    destruct (decide (weigh rank (threads s) = 0%nat)) as [E|E].
    { exists s. split; [done|]. intros tid c Ht. by eapply weigh_zero. }
    destruct (weigh_pos rank (threads s)) as (tid & c & Ht & Hc); [lia|].
    apply inv_reachable in Hr as Hi. destruct (executor_advances s tid c Hi Ht Hc) as (s1 & Hs1).
    assert (Hr1 : reachable initial step s1).
    { destruct Hs1 as (t & c0 & c1 & Hst & _). eapply reachable_step; [done|]. by eapply by_exec. }
    destruct (IH (weigh rank (threads s1))) with (s := s1) as (s' & H1 & H2); try done.
    - destruct Hs1 as (t & c0 & c1 & _ & Ht0 & -> & Hlt & _). pose proof (weigh_update rank (threads s) t c0 c1 Ht0). lia.
    - exists s'. split; [by eapply rtc_l|done]. }
  exists s'. split; [done|]. split; [done|]. intros tid c r Ht Hc.
  assert (exists c', threads s' !! tid = Some c' /\ executing c' = Some r) as (c' & Ht' & Hc').
  { clear Hidle Hr. revert c Ht Hc. induction Hs' as [x|x y z Hxy _ IH]; intros c Ht Hc; [by exists c|].
    destruct (executing_stays _ _ _ _ _ Hxy Ht Hc) as (c1 & H1 & H2). by eapply IH. }
  assert (Hi' : inv s').
  { apply inv_reachable. eapply reachable_rtc; [done|]. clear -Hs'. induction Hs' as [|x y z (t & c0 & c1 & Hst & _) _ IH]; [done|].
    eapply rtc_l; [|exact IH]. by eapply by_exec. }
  assert (c' = Finished r) as ->.
  { pose proof (Hidle _ _ Ht') as H0. destruct c'; cbn in *; try lia; congruence. }
  destruct (v_run _ Hi' _ _ _ Ht' eq_refl) as (run & Hrun & Hd & _ & Hts & _).
  split_and!; [done|by exists run|by exists (rstate run)].
Qed.

(** ** Close *)

(** A run that has been accepted and not ended, and a [Close] that has yet to wait for it. *)
Definition accepted (c : pc) : bool := (0 <? rank c)%nat.
Definition awaits (c : pc) (p r : nat) : Prop :=
  match c with
  | AtCancelHost all => p ∈ all
  | AwaitRuns rest _ => p ∈ rest
  | AwaitDone r' rest _ => r' = r \/ p ∈ rest
  | _ => False
  end.

Definition in_flight (s : state) (t p r : nat) : Prop :=
  exists c, threads s !! t = Some c /\ accepted c = true /\ owns c = Some (p, r).

Lemma terminals_grow s s' r : rtc step s s' -> terminals r (log s) <> [] -> terminals r (log s') <> [].
Proof. intros (evs & ->)%log_grows. rewrite terminals_app. by destruct (terminals r (log s)). Qed.

(** An accepted run keeps its place until its end is on record. *)
Lemma in_flight_step s s' t p r :
  inv s -> step s s' -> in_flight s t p r -> in_flight s' t p r \/ terminals r (log s') <> [].
Proof.
  intros Hi Hst (c & Ht & Hc & Ho). destruct (thread_step _ _ _ _ Hst Ht) as [Ht'|[H|[H|H]]].
  - left. by exists c.
  - exfalso. destruct H; match goal with H : threads s !! t = _ |- _ => rewrite Ht in H end; simplify_eq/=.
  - assert (Hgo : forall c', owns c' = owns c -> accepted c' = true -> threads s' !! t = Some c' ->
      in_flight s' t p r \/ terminals r (log s') <> []).
    { intros c' H1 H2 H3. left. exists c'. split_and!; try done. congruence. }
    destruct H; match goal with H : threads s !! t = _ |- _ => rewrite Ht in H end; simplify_eq/=;
      try (eapply Hgo; [| |apply lookup_insert_eq]; done).
    + destruct (ctx_err s (jrun j)); (eapply Hgo; [| |apply lookup_insert_eq]; done).
    + right. destruct (v_run _ Hi _ _ _ Ht eq_refl) as (run & _ & _ & _ & Hts & _).
      cbn [log at_rt move]. rewrite app_nil_r, Hts. done.
  - exfalso. destruct H; match goal with H : threads s !! t = _ |- _ => rewrite Ht in H end; simplify_eq/=.
Qed.

Lemma awaits_step s s' tid c t p r :
  inv s -> step s s' -> threads s !! tid = Some c -> awaits c p r -> in_flight s t p r ->
  (exists c', threads s' !! tid = Some c' /\ awaits c' p r) \/ terminals r (log s') <> [].
Proof.
  intros Hi Hst Ht Hc Hf. destruct (thread_step _ _ _ _ Hst Ht) as [Ht'|[H|[H|H]]].
  - left. by exists c.
  - exfalso. destruct H; match goal with H : threads s !! tid = _ |- _ => rewrite Ht in H end; simplify_eq/=; done.
  - exfalso. destruct H; match goal with H : threads s !! tid = _ |- _ => rewrite Ht in H end; simplify_eq/=; done.
  - destruct H as [ | | | | | |all Ht0|q rest all rt Ht0 Hrt|r' rest all run Ht0 Hrun Hd|all Ht0| | | ];
      match goal with H : threads s !! tid = _ |- _ => rewrite Ht in H end; simplify_eq/=; try done.
    + left. eexists. by rewrite lookup_insert_eq.
    + left. eexists. rewrite lookup_insert_eq. split; [done|].
      apply elem_of_cons in Hc as [-> |Hc]; [|by destruct (active rt); [right|]].
      destruct Hf as (c & Htc & _ & Ho). destruct (owner_active _ _ _ _ _ Hi Htc Ho) as (rt' & Hrt' & Ha).
      assert (rt' = rt) as -> by congruence. rewrite Ha. by left.
    + destruct Hc as [-> |Hc].
      * right. destruct (done_record _ _ _ Hi Hrun Hd) as (_ & E & _). cbn [log goto move]. rewrite app_nil_r, E. done.
      * left. eexists. by rewrite lookup_insert_eq.
    + by apply not_elem_of_nil in Hc.
Qed.

(** [Close] returns only when every run accepted before it looked has its end on
    record, and nothing is written for that run any more. *)
Theorem close_waits s0 s tid all t p r :
  reachable initial step s0 -> threads s0 !! tid = Some (AtCancelHost all) -> p ∈ all -> in_flight s0 t p r ->
  rtc step s0 s -> threads s !! tid = Some CloseReturned ->
  (exists st, terminals r (log s) = [st]) /\
  forall s', rtc step s s' -> exists evs, log s' = log s ++ evs /\ Forall (fun e => about_run r e = false) evs.
Proof.
  intros Hr0 Ht0 Hp Hf0 Hs Ht.
  assert (terminals r (log s) <> []) as Hterm.
  { assert (terminals r (log s) <> [] \/ in_flight s t p r /\ exists c, threads s !! tid = Some c /\ awaits c p r) as [?|(_ & c & Hc & Ha)];
      [|done|rewrite Ht in Hc; by injection Hc as <-].
    assert (Hstart : terminals r (log s0) <> [] \/ in_flight s0 t p r /\ exists c, threads s0 !! tid = Some c /\ awaits c p r).
    { right. split; [done|]. by exists (AtCancelHost all). }
    clear Ht Ht0 Hp Hf0. revert Hr0 Hstart. induction Hs as [x|x y z Hxy _ IH]; intros Hr Hx; [done|].
    apply IH; [by eapply reachable_step|]. apply inv_reachable in Hr as Hi.
    destruct Hx as [Hx|(Hf & c & Hc & Ha)]; [left; eapply terminals_grow; [by apply rtc_once|done]|].
    destruct (in_flight_step _ _ _ _ _ Hi Hxy Hf) as [Hf'|]; [|by left].
    destruct (awaits_step _ _ _ _ _ _ _ Hi Hxy Hc Ha Hf) as [?|]; [by right|by left]. }
  assert (Hr : reachable initial step s) by (by eapply reachable_rtc). apply inv_reachable in Hr as Hi. split.
  - destruct (run_record s r Hi) as [E|(st & E & _)]; [congruence|by exists st].
  - intros s' Hs'. destruct (log_grows _ _ Hs') as (evs & E). exists evs. split; [done|].
    assert (Hi' : inv s') by (apply inv_reachable; by eapply reachable_rtc).
    pose proof (v_log _ Hi') as Hl. rewrite E in Hl.
    destruct (terminal_split r (log s) Hterm) as (l1 & l2 & st & ok & El & Hst).
    rewrite El, <- app_assoc in Hl. specialize (Hl l1 (l2 ++ evs) r st ok eq_refl Hst). by apply Forall_app in Hl as [_ ?].
Qed.

(** A run that was given up before it was accepted is never done. *)
Definition abandoned (s : state) (r : nat) : Prop :=
  (exists run, runs s !! r = Some run /\ done run = false) /\
  forall t c, threads s !! t = Some c -> run_of c <> Some r.

Lemma abandoned_step s s' r : step s s' -> abandoned s r -> abandoned s' r.
Proof.
  intros Hst [(run & Hrun & Hd) Hno]. destruct (step_shape _ _ Hst) as [(tid & m & rs & us & c & evs & -> & Hc & Hus)|(Et & _ & Hr)].
  - assert (Hold : old None run_of (threads s !! tid) <> Some r).
    { unfold old. destruct (threads s !! tid) as [c0|] eqn:E; [by apply (Hno tid)|done]. }
    assert (Hnew : run_of c <> Some r).
    { destruct Hc as [E|[E|(q & E & Hq)]]; [congruence..|]. rewrite E. intros [= ->]. congruence. }
    split.
    + exists run. split; [|done]. cbn. by rewrite Hus.
    + intros t c1. cbn. rewrite lookup_insert_Some. intros [[<- <-]|[_ Ht]]; [done|by apply (Hno t)].
  - split; [|intros t c; rewrite Et; apply Hno]. specialize (Hr r). rewrite Hrun in Hr.
    destruct (runs s' !! r) as [run'|]; [|done]. exists run'. split; [done|]. destruct Hr as [_ ->]. done.
Qed.

(** A [Close] that waits for such a run waits for ever. *)
Lemma close_stuck s s' tid r rest all :
  threads s !! tid = Some (AwaitDone r rest all) -> abandoned s r -> rtc step s s' ->
  threads s' !! tid = Some (AwaitDone r rest all).
Proof.
  intros Ht Ha Hs. induction Hs as [x|x y z Hxy _ IH]; [done|]. apply IH; [|by eapply abandoned_step].
  destruct (thread_step _ _ _ _ Hxy Ht) as [|[H|[H|H]]]; [done|..]; exfalso;
    destruct H; match goal with H : threads x !! tid = _ |- _ => rewrite Ht in H end; simplify_eq/=.
  destruct Ha as [(run0 & Hrun & Hd) _]. congruence.
Qed.

(** ** Concrete executions *)

Definition w_init : state := mkState (NewSessionManager []) ∅ ∅ ∅ [].

Lemma w_init_ok : reachable initial step w_init.
Proof. apply reachable_init. by exists []. Qed.

(** One step, its state evaluated. *)
Ltac go H tac :=
  advance H tac;
  match type of H with
  | reachable ?i _ ?s => let s' := eval vm_compute in s in change (reachable i step s') in H
  end.

Ltac quick := first [reflexivity | discriminate | by left | idtac].

Lemma fresh_id (us : gmap nat AgentRun) id :
  bool_decide (map_Forall (fun _ run => ID run <> id) us) = true -> forall q run, us !! q = Some run -> ID run <> id.
Proof. intros H. apply bool_decide_eq_true in H. intros q run Hq. by apply (H q run). Qed.

Lemma nobody_about (th : gmap nat pc) r :
  bool_decide (map_Forall (fun _ c => run_of c <> Some r) th) = true -> forall t c, th !! t = Some c -> run_of c <> Some r.
Proof. intros H. apply bool_decide_eq_true in H. intros t c Ht. by apply (H t c). Qed.

Ltac setup H :=
  pose proof w_init_ok as H;
  go H ltac:(eapply by_admin, (step_new _ 0 "s" (Some (mkSession true true))); reflexivity);
  go H ltac:(eapply by_admin, (step_register _ 0); reflexivity).

(** [StartRun] of thread [t], for run [r], as far as its reservation, and to its return. *)
Ltac reserve H t r rid :=
  go H ltac:(apply (by_start _ _ t), (step_call _ t "s"); reflexivity);
  go H ltac:(eapply (by_start _ _ t), step_lookup; reflexivity);
  go H ltac:(eapply (by_start _ _ t), step_pending; reflexivity);
  go H ltac:(eapply (by_start _ _ t), (step_reserve _ t _ _ r rid); [reflexivity..|apply fresh_id; reflexivity|reflexivity]).
Ltac submit H t :=
  go H ltac:(eapply (by_start _ _ t), (step_bind _ t) with (hub_ok := true); reflexivity);
  go H ltac:(eapply (by_start _ _ t), (step_queue _ t) with (io_ok := true); reflexivity);
  go H ltac:(eapply (by_start _ _ t), (step_begin _ t); reflexivity);
  go H ltac:(eapply (by_start _ _ t), (step_spawn _ t); reflexivity).

(** [execute] up to [Session.Run]. *)
Ltac enter H t :=
  go H ltac:(eapply (by_exec _ _ t), (step_gate _ t); reflexivity);
  go H ltac:(eapply (by_exec _ _ t), (step_slot _ t); [reflexivity|by apply Nat.ltb_lt]);
  go H ltac:(eapply (by_exec _ _ t), (step_dequeue _ t); [reflexivity|by apply Nat.ltb_lt]);
  go H ltac:(eapply (by_exec _ _ t), (step_running _ t) with (now := 5%Z) (io_ok := true); reflexivity).

(** [execute] from the return of [Session.Run] to the end record. *)
Ltac conclude H t res :=
  go H ltac:(eapply (by_exec _ _ t), (step_return _ t _ res); reflexivity);
  go H ltac:(eapply (by_exec _ _ t), (step_events _ t); reflexivity);
  go H ltac:(eapply (by_exec _ _ t), (step_end_run _ t); reflexivity);
  go H ltac:(eapply (by_exec _ _ t), (step_final _ t) with (io_ok := true); reflexivity).

Ltac finish_up H t :=
  go H ltac:(eapply (by_exec _ _ t), (step_clear _ t); reflexivity);
  go H ltac:(eapply (by_exec _ _ t), (step_result _ t); reflexivity);
  go H ltac:(eapply (by_exec _ _ t), (step_done _ t) with (now := 6%Z); reflexivity);
  go H ltac:(eapply (by_exec _ _ t), (step_hook _ t); reflexivity);
  go H ltac:(eapply (by_exec _ _ t), (step_slot_release _ t); [reflexivity|by apply Nat.ltb_lt]);
  go H ltac:(eapply (by_exec _ _ t), (step_gate_release _ t); reflexivity).


(** A run inside [Session.Run], and the same run at its deferred calls. *)
Definition w_job : job := mkJob 0 0 true.
Definition w_rt (g : bool) (a : option nat) (ev : string) : SessionRuntime :=
  mkRuntime "s" (Some (mkSession true true)) g a false false false (Some ev).
Definition w_log : list event :=
  [EvState 0 RunQueued true; EvAccepted 0; EvPublish 0 "run.started" RunRunning; EvState 0 RunRunning true].

Definition w_session : state :=
  mkState (mkManager {["s" := 0%nat]} false false 1 0 4 16) {[0%nat := w_rt true (Some 0%nat) "run-1"]}
    {[0%nat := mkRun "run-1" "s" RunRunning 5 false (mkResult "" None false) (Some false)]}
    {[0%nat := InSession w_job]} w_log.

Definition w_ended : state :=
  mkState (mkManager {["s" := 0%nat]} false false 0 0 4 16) {[0%nat := w_rt false None ""]}
    {[0%nat := mkRun "run-1" "s" RunCompleted 5 true (mkResult RunCompleted None true) (Some false)]}
    {[0%nat := AtLateEnd w_job]}
    (w_log ++ [EvReturned 0 None (mkResult RunCompleted None true); EvPublish 0 "run.finished" RunCompleted;
               EvState 0 RunCompleted true; EvRunDone 0; EvHook 0]).

Lemma w_session_ok : reachable initial step w_session.
Proof. setup H. reserve H 0%nat 0%nat "run-1". submit H 0%nat. enter H 0%nat. exact H. Qed.

Lemma w_ended_ok : reachable initial step w_ended.
Proof.
  pose proof w_session_ok as H. conclude H 0%nat (mkResult RunCompleted None true). finish_up H 0%nat. exact H.
Qed.

Lemma rtc_from (s s' : state) : reachable (eq s) step s' -> rtc step s s'.
Proof. induction 1 as [? <-|x y _ IH Hxy]; [done|]. by eapply rtc_r. Qed.

Lemma one_run_per_session_witness :
  exists s c, reachable initial step s /\ threads s !! 0%nat = Some c /\ gate_of c = Some 0%nat /\ 0%nat = 0%nat.
Proof.
  pose proof w_session_ok as H.
  eexists _, (InSession w_job). split; [exact H|]. split; [by vm_compute|]. split; [done|].
  apply (one_run_per_session _ 0%nat 0%nat (InSession w_job) (InSession w_job) 0%nat H);
    [by vm_compute..|by right].
Defined.

Lemma quotas_conserved_witness :
  exists s, reachable initial step s /\ runSlots (mgr s) = 1%nat /\ tally slot (threads s) = 1%nat /\ (runSlots (mgr s) <= maxSlots (mgr s))%nat.
Proof.
  pose proof w_session_ok as H.
  eexists. split; [exact H|]. split; [by vm_compute|]. split; [by vm_compute|].
  apply (quotas_conserved _ H).
Defined.

Lemma end_recorded_once_witness :
  exists s run, reachable initial step s /\ runs s !! 0%nat = Some run /\ done run = true /\ rstate run = RunCompleted /\
    exists ok, end_writes 0 (log s) = [(rstate run, ok)].
Proof.
  pose proof w_ended_ok as H.
  eexists _, _. split; [exact H|]. split; [by vm_compute|]. split; [done|]. split; [done|].
  apply (proj1 (proj2 (end_recorded_once _ 0%nat H))); by vm_compute.
Defined.

(** Cancelled in [Session.Run], which then reports success. *)
Lemma cancelled_never_completed_witness :
  exists s, reachable initial step s /\ terminals 0 (log s) = [RunCancelled] /\
    EvReturned 0 (Some Canceled) (mkResult RunCompleted None true) ∈ log s /\
    Forall (fun st => st = RunCancelled) (terminals 0 (log s)).
Proof.
  pose proof w_session_ok as H.
  go H ltac:(eapply by_admin, (step_cancel_run _ "s" "run-1"); reflexivity).
  conclude H 0%nat (mkResult RunCompleted None true).
  eexists. split; [exact H|]. split; [by vm_compute|].
  match goal with |- ?P /\ _ => assert (Hin : P) by (apply list_elem_of_In; cbn; auto 10) end.
  split; [exact Hin|]. apply (proj1 (cancelled_never_completed _ 0%nat H) _ _ Hin). by intros x.
Defined.

Lemma retired_never_runs_witness :
  exists s rt, reachable initial step s /\ rts s !! 0%nat = Some rt /\ retired rt = true /\ active rt = None.
Proof.
  pose proof w_ended_ok as H.
  go H ltac:(eapply by_admin, (step_retire _ 0); reflexivity).
  eexists _, _. split; [exact H|]. split; [by vm_compute|]. split; [done|].
  eapply (proj1 (retired_never_runs _ 0%nat _ H ltac:(by vm_compute) (or_intror eq_refl))).
Defined.

(** Two sessions, one slot: a run inside, a run that waits for the slot. *)
Lemma executors_drain_witness :
  exists s s', reachable initial step s /\ threads s !! 0%nat = Some (InSession w_job) /\
    rtc advances s s' /\ idle s' /\ threads s' !! 0%nat = Some (Finished 0).
Proof.
  pose proof w_session_ok as H.
  destruct (executors_drain _ H) as (s' & Hs' & Hidle & Hall).
  eexists _, s'. split; [exact H|]. split; [by vm_compute|]. split; [exact Hs'|]. split; [exact Hidle|].
  by apply (Hall 0%nat (InSession w_job) 0%nat).
Defined.

Ltac close_and_await H t :=
  go H ltac:(eapply (by_host _ _ t), (step_cancel_host _ t); reflexivity);
  go H ltac:(eapply (by_host _ _ t), (step_await_active _ t); reflexivity).

Ltac close_rest H t :=
  go H ltac:(eapply (by_host _ _ t), (step_await_done _ t); reflexivity);
  go H ltac:(eapply (by_host _ _ t), (step_awaited _ t); reflexivity);
  go H ltac:(eapply (by_host _ _ t), (step_close_events _ t); reflexivity);
  go H ltac:(eapply (by_host _ _ t), (step_events_closed _ t); reflexivity);
  go H ltac:(eapply (by_host _ _ t), (step_close_clear _ t); reflexivity).

Lemma close_waits_witness :
  exists s0 s, reachable initial step s0 /\ rtc step s0 s /\ threads s !! 1%nat = Some CloseReturned /\
    exists st, terminals 0 (log s) = [st].
Proof.
  pose proof w_session_ok as H.
  go H ltac:(apply (by_host _ _ 1%nat), (step_close_call _ 1%nat); reflexivity).
  go H ltac:(eapply (by_host _ _ 1%nat), (step_close _ 1%nat); reflexivity).
  match type of H with reachable _ _ ?s => assert (H' : reachable (eq s) step s) by by apply reachable_init end.
  close_and_await H' 1%nat. conclude H' 0%nat (mkResult RunCompleted None true). finish_up H' 0%nat. close_rest H' 1%nat.
  eexists _, _. split; [exact H|]. split; [exact (rtc_from _ _ H')|]. split; [by vm_compute|].
  apply (close_waits _ _ 1%nat [0%nat] 0%nat 0%nat 0%nat H); [by vm_compute|by left| |exact (rtc_from _ _ H')|by vm_compute].
  exists (InSession w_job). by vm_compute.
Defined.

(** [Close] read the run of a [StartRun] that then fails to write its queued
    record: it waits for a [done] that nobody will close. *)
Example close_never_returns :
  exists s, reachable initial step s /\ threads s !! 0%nat = Some (Refused ErrRunJournalWrite) /\
    forall s', rtc step s s' -> threads s' !! 1%nat = Some (AwaitDone 0 [] [0%nat]).
Proof.
  setup H. reserve H 0%nat 0%nat "run-1".
  go H ltac:(eapply (by_start _ _ 0%nat), (step_bind _ 0%nat) with (hub_ok := true); reflexivity).
  go H ltac:(apply (by_host _ _ 1%nat), (step_close_call _ 1%nat); reflexivity).
  go H ltac:(eapply (by_host _ _ 1%nat), (step_close _ 1%nat); reflexivity).
  close_and_await H 1%nat.
  go H ltac:(eapply (by_start _ _ 0%nat), (step_queue_failed _ 0%nat) with (io_ok := false); reflexivity).
  go H ltac:(eapply (by_start _ _ 0%nat), (step_release _ 0%nat); reflexivity).
  go H ltac:(eapply (by_start _ _ 0%nat), (step_untoken _ 0%nat); [reflexivity|by apply Nat.ltb_lt]).
  eexists. split; [exact H|]. split; [by vm_compute|]. intros s' Hs'. eapply close_stuck; [| |exact Hs']; [by vm_compute|].
  split; [eexists; by vm_compute|]. by apply nobody_about.
Qed.

(** A [StartRun] that looked its session up before [Close] records and accepts
    its run after [Close] returned. *)
Example accepted_after_close :
  exists s, reachable initial step s /\ log s = [EvHubClosed 0; EvCloseReturned; EvState 0 RunQueued true; EvAccepted 0].
Proof.
  setup H.
  go H ltac:(apply (by_start _ _ 0%nat), (step_call _ 0%nat "s"); reflexivity).
  go H ltac:(eapply (by_start _ _ 0%nat), step_lookup; reflexivity).
  go H ltac:(apply (by_host _ _ 1%nat), (step_close_call _ 1%nat); reflexivity).
  go H ltac:(eapply (by_host _ _ 1%nat), (step_close _ 1%nat); reflexivity).
  close_and_await H 1%nat.
  go H ltac:(eapply (by_host _ _ 1%nat), (step_awaited _ 1%nat); reflexivity).
  go H ltac:(eapply (by_host _ _ 1%nat), (step_close_events _ 1%nat); reflexivity).
  go H ltac:(eapply (by_host _ _ 1%nat), (step_events_closed _ 1%nat); reflexivity).
  go H ltac:(eapply (by_host _ _ 1%nat), (step_close_clear _ 1%nat); reflexivity).
  go H ltac:(eapply (by_start _ _ 0%nat), step_pending; reflexivity).
  go H ltac:(eapply (by_start _ _ 0%nat), (step_reserve _ 0%nat _ _ 0 "run-1"); [reflexivity..|apply fresh_id; reflexivity|reflexivity]).
  submit H 0%nat. eexists. split; [exact H|done].
Qed.

(** A cancelled run whose [Session.Run] also failed is published as cancelled and
    recorded as failed. *)
Example cancelled_published_failed_recorded :
  exists s l, reachable initial step s /\
    log s = l ++ [EvPublish 0 "run.finished" RunCancelled; EvState 0 RunFailed true].
Proof.
  pose proof w_session_ok as H.
  go H ltac:(eapply by_admin, (step_cancel_run _ "s" "run-1"); reflexivity).
  conclude H 0%nat (mkResult RunFailed (Some (OtherError "commit")) false).
  eexists _, [_; _; _; _; _]. split; [exact H|by vm_compute].
Qed.

(** The deferred [EndRun] of a finished run ends the hub's run of the next one. *)
Example late_end_clears_the_next_run :
  exists s, reachable initial step s /\ threads s !! 1%nat = Some (InSession (mkJob 0 1 true)) /\
    (events <$> rts s !! 0%nat) = Some (Some "").
Proof.
  pose proof w_ended_ok as H.
  reserve H 1%nat 1%nat "run-2". submit H 1%nat. enter H 1%nat.
  go H ltac:(eapply (by_exec _ _ 0%nat), (step_late_end _ 0%nat); reflexivity).
  eexists. split; [exact H|]. by vm_compute.
Qed.
