(* ===== verification/ControlService.v ===== *)
(** * daemon/internal/agentcontrol: the service

    service.go, runs.go, approval.go, events.go and sessions.go: what a client
    may do to a session. The service owns no state of a session: it routes the
    name it is given to a runtime, checks the control lease, and calls the
    request registry, the session manager and the approvals, each as modelled in
    its own file. One call is a function on the state of all of them; the
    hypotheses under which another thread may run in between are in those files
    ([ControlLease.Concurrent] for the lease's critical section, [Supervisor]
    for the runs). *)

From S2P Require Import Prelude HitlChannel Approvals EventHub RunJournal ControlLease RequestRegistry AgentRun Supervisor.
#[local] Open Scope string_scope.
#[local] Open Scope list_scope.

(** ** Interfaces of the host *)

(** What [RunStatus] asks of a run journal: the last state, and the latest number
    of its events (0 without events), or a failure to read them. *)
Class RunStatusJournal (J : Type) := {
  last_run_state : string -> J -> option string;
  seq_latest : J -> option Z;
}.

(** [*session.RunJournalStore] as it is. *)
#[export] Instance store_journal `{JournalCodec} : RunStatusJournal RunJournalStore := {|
  last_run_state id j := RunJournal.State <$> LastRunState id j;
  seq_latest j :=
    match RunJournal.SeqRange j with
    | Prelude.Err _ => None
    | Ok None => Some 0%Z
    | Ok (Some (_, latest)) => Some latest
    end;
|}.

(** [SessionRouter] and [JournalSource]. *)
Class SessionRouter (H J : Type) := {
  RouteSession : H -> SessionManager -> gmap nat SessionRuntime -> string -> option nat;
  JournalOf : H -> nat -> option J;
}.

(** The agent plugin: its current runtime, the id of the current store (empty
    without persistence), and the journals of the runtimes. *)
Record plugin (J : Type) := mkPlugin { current : option nat; CurrentSessionID : string; journals : gmap nat J }.
Arguments mkPlugin {J}.
Arguments current {J}.
Arguments CurrentSessionID {J}.
Arguments journals {J}.

Definition plugin_route {J} (h : plugin J) (m : SessionManager) (rs : gmap nat SessionRuntime) (sid : string) : option nat :=
  match current h ≫= fun p => rt ← rs !! p; Some (p, rt) with
  | Some (p, rt) =>
      if String.eqb sid (RID rt) || (String.eqb sid "" && String.eqb (CurrentSessionID h) "") then Some p else Get sid m
  | None => Get sid m
  end.

#[export] Instance plugin_router {J} : SessionRouter (plugin J) J := {|
  RouteSession := plugin_route;
  JournalOf h p := journals h !! p;
|}.

(** ** The state *)

Inductive service_error : Type :=
  | SessionNotFound (sid : string)
  | LeaseLost (sid client : string)
  | SubmitError (e : submit_error)
  | StartFailed (e : start_error)
  | CancelFailed (e : cancel_error)
  | ApprovalUnknown (id : string)
  | ApprovalOwnership (id owner sid : string)
  | ResolveFailed (e : approval_error)
  | RunNotFound (runID : string)
  | SeqRangeFailed (runID : string)
  | EventStreamDisabled (sid : string)
  | HubFailed (e : hub_error).

(** The text of an error a submission carries. *)
Definition describe (e : start_error) : string :=
  match e with
  | ErrManagerClosed => "manager closed"
  | ErrSessionNotFound => "session not found"
  | ErrTooManyPending => "too many pending runs"
  | ErrSessionArchived => "session archived"
  | ErrSessionRetired => "session retired"
  | ErrRunActive => "run active"
  | ErrSessionNotBound => "session not bound"
  | ErrEventHub => "event hub"
  | ErrRunJournalWrite => "run journal write"
  end.

Section service.
Context {Hash : Type} `{EqDecision Hash} (fingerprint : string -> Hash).
Context {H J : Type} `{SessionRouter H J} `{RunStatusJournal J}.
(** The journal of a hub, as in [EventHub]. *)
Context (hio : EventHub.EventRecord -> append_outcome).

(** What the service works on. *)
Record core := mkCore {
  requests : @registry Hash;
  flights_ : gmap nat (@flight Hash);
  mgr : SessionManager;
  rts : gmap nat SessionRuntime;
  runs : gmap nat AgentRun;
  hubs : gmap nat EventHub;
  approvals : ApprovalManager;
}.

Record service := mkService { leases : LeaseRegistry; bindings : BindingRegistry; the_core : core }.

Definition with_requests (r : @registry Hash) (f : gmap nat (@flight Hash)) (c : core) : core :=
  mkCore r f (mgr c) (rts c) (runs c) (hubs c) (approvals c).
Definition with_mgr (m : SessionManager) (c : core) : core :=
  mkCore (requests c) (flights_ c) m (rts c) (runs c) (hubs c) (approvals c).
Definition with_runs (us : gmap nat AgentRun) (c : core) : core :=
  mkCore (requests c) (flights_ c) (mgr c) (rts c) us (hubs c) (approvals c).
Definition with_rts (rs : gmap nat SessionRuntime) (c : core) : core :=
  mkCore (requests c) (flights_ c) (mgr c) rs (runs c) (hubs c) (approvals c).
Definition with_hubs (hs : gmap nat EventHub) (c : core) : core :=
  mkCore (requests c) (flights_ c) (mgr c) (rts c) (runs c) hs (approvals c).
Definition with_approvals (a : ApprovalManager) (c : core) : core :=
  mkCore (requests c) (flights_ c) (mgr c) (rts c) (runs c) (hubs c) a.
Definition with_core (c : core) (s : service) : service := mkService (leases s) (bindings s) c.

(** ** service.go: leases and bindings *)

Definition AcquireControl (sid client : string) (s : service) : bool * service :=
  let '(b, l) := Acquire sid client (leases s) in (b, mkService l (bindings s) (the_core s)).
Definition ReleaseControl (sid client : string) (s : service) : service :=
  mkService (ControlLease.Release sid client (leases s)) (bindings s) (the_core s).
Definition HoldControl (sid client : string) (s : service) : bool * service :=
  let '(b, l) := Hold sid client (leases s) in (b, mkService l (bindings s) (the_core s)).
Definition ReleaseClient (client : string) (s : service) : string * service :=
  let '(sid, b) := Unbind client (bindings s) in (sid, mkService (ReleaseConnection client (leases s)) b (the_core s)).
Definition BindSession_ (client sid : string) (s : service) : string * service :=
  let '(prev, b) := Bind client sid (bindings s) in (prev, mkService (leases s) b (the_core s)).
Definition UnbindSession (client : string) (s : service) : string * service :=
  let '(prev, b) := Unbind client (bindings s) in (prev, mkService (leases s) b (the_core s)).
Definition SessionBindings (sid : string) (s : service) : list string := Bindings sid (bindings s).
Definition TrackedRequest (sid requestID : string) (s : service) : option RunHandle :=
  Tracked sid requestID (requests (the_core s)).

(** [Service.WithControl], for an operation on the rest of the state. *)
Definition FencedBy {A} (sid client : string) (fn : core -> core * Prelude.result service_error A) (s : service)
  : service * Prelude.result service_error A :=
  let '(l, c, r) := WithControl sid client fn (leases s) (the_core s) in
  (mkService l (bindings s) c,
   match r with
   | Ok a => Ok a
   | Prelude.Err (ErrControlLeaseLost sid client) => Prelude.Err (LeaseLost sid client)
   | Prelude.Err (OperationError e) => Prelude.Err e
   end).

(** ** SessionManager.StartRun, as one call *)

(** The outside of a start: the new run object and its id, what [NewEventHub]
    returns if it is called, and whether the journal takes the queued record. *)
Record start_env := mkEnv {
  e_run : nat;
  e_id : string;
  e_hub : Prelude.result hub_error EventHub;
  e_io : bool;
}.

Definition hub_ok (env : start_env) : bool := match e_hub env with Ok _ => true | Prelude.Err _ => false end.

(** The hub [bindEvents] makes. *)
Definition add_hub (made : bool) (env : start_env) (p : nat) (hs : gmap nat EventHub) : gmap nat EventHub :=
  match e_hub env with
  | Ok hub => if made then (match hs !! p with Some _ => hs | None => <[p := hub]> hs end) else hs
  | Prelude.Err _ => hs
  end.

Definition give_back (p r : nat) (c : core) : core :=
  with_mgr (untake (mgr c)) (with_rts (alter (releaseRunReservation r) p (rts c)) c).

Definition StartRun (env : start_env) (sid : string) (c : core) : core * Prelude.result start_error RunHandle :=
  if closed (mgr c) then (c, Prelude.Err ErrManagerClosed)
  else match runtimes (mgr c) !! sid ≫= fun p => rt ← rts c !! p; Some (p, rt) with
  | None => (c, Prelude.Err ErrSessionNotFound)
  | Some (p, rt) =>
      if negb (AgentRun.pending (mgr c) <? maxPending (mgr c))%nat then (c, Prelude.Err ErrTooManyPending)
      else
        let c := with_mgr (set_pending (mgr c) (S (AgentRun.pending (mgr c)))) c in
        match reserveRun (e_run env) rt with
        | (_, Prelude.Err e) => (with_mgr (untake (mgr c)) c, Prelude.Err e)
        | (rt, Ok sess) =>
            let c := with_runs (<[e_run env := newAgentRun (e_id env) sid]> (runs c)) (with_rts (<[p := rt]> (rts c)) c) in
            match bindEvents (hub_ok env) sess rt with
            | (_, Prelude.Err e) => (give_back p (e_run env) c, Prelude.Err e)
            | (rt, Ok hub) =>
                let c := with_hubs (add_hub hub env p (hubs c)) (with_rts (<[p := rt]> (rts c)) c) in
                if negb (appendRunState (e_io env) (Some sess)) then (give_back p (e_run env) c, Prelude.Err ErrRunJournalWrite)
                else
                  let c := if hub then with_hubs (alter (BeginRun hio (e_id env)) p (hubs c))
                                         (with_rts (alter (hub_begin (e_id env)) p (rts c)) c) else c in
                  (with_runs (alter (set_cancel (Some false)) (e_run env) (runs c)) c, Ok (mkHandle (e_id env) sid))
            end
        end
  end.

(** [RunHandle.State]: the run object, by its id. *)
Definition run_of_handle (hd : RunHandle) (c : core) : option AgentRun :=
  find_first (fun run => String.eqb (ID run) (RunID hd)) (snd <$> map_to_list (runs c)).
Definition handle_state (hd : RunHandle) (c : core) : RunState :=
  match run_of_handle hd c with Some run => AgentRun.State (snapshot run) | None => "" end.

(** ** RequestRegistry.Submit, as one call *)

(** [joined]: what the flight that was found in progress comes to. *)
Definition Submit (key : RequestKey) (input : string) (joined : Prelude.result submit_error RunHandle)
    (start : core -> core * Prelude.result start_error RunHandle) (c : core)
  : core * Prelude.result submit_error (RunHandle * bool) :=
  let lift r := match r with Ok h => Ok h | Prelude.Err e => Prelude.Err (StartError (describe e)) end in
  if String.eqb (RequestID key) "" then
    let '(c, r) := start c in (c, (fun h => (h, true)) <$> lift r)
  else match enter key (fingerprint input) (requests c) (flights_ c) with
  | Hit h => (c, Ok (h, false))
  | Conflict => (c, Prelude.Err (ErrRequestConflict (RequestID key)))
  | Join _ => (c, (fun h => (h, false)) <$> joined)
  | Lead =>
      let f := fresh (dom (flights_ c)) in
      let fl o := mkFlight key (fingerprint input) o in
      let c := with_requests (add_flight key f (requests c)) (<[f := fl None]> (flights_ c)) c in
      let '(c, r) := start c in
      let '(reg, _) := RequestRegistry.finish key (fingerprint input) (lift r) (requests c) in
      (with_requests reg (<[f := fl (Some (lift r))]> (flights_ c)) c, (fun h => (h, true)) <$> lift r)
  end.

(** ** runs.go *)

Definition route (h : H) (sid : string) (c : core) : option (nat * SessionRuntime) :=
  p ← RouteSession h (mgr c) (rts c) sid; rt ← rts c !! p; Some (p, rt).

Definition ensureRegistered (p : nat) (rt : SessionRuntime) (c : core) : core :=
  if decide (Get (RID rt) (mgr c) = Some p) then c
  else if retired rt then c
  else with_mgr (Register p rt (Remove (RID rt) (mgr c))).1 c.

Definition request_key (rt : SessionRuntime) (requestID : string) : RequestKey :=
  if String.eqb requestID "" then mkKey "" "" else mkKey (RID rt) requestID.

Definition submit_run (p : nat) (rt : SessionRuntime) (env : start_env) (joined : Prelude.result submit_error RunHandle)
    (input requestID : string) (c : core) : core * Prelude.result service_error (string * string) :=
  match Submit (request_key rt requestID) input joined (fun c => StartRun env (RID rt) (ensureRegistered p rt c)) c with
  | (c, Prelude.Err e) => (c, Prelude.Err (SubmitError e))
  | (c, Ok (hd, fresh)) => (c, Ok (RunID hd, if fresh : bool then RunQueued else handle_state hd c))
  end.

Definition Service_StartRun (h : H) (env : start_env) (joined : Prelude.result submit_error RunHandle)
    (sid client input requestID : string) (s : service) : service * Prelude.result service_error (string * string) :=
  match route h sid (the_core s) with
  | None => (s, Prelude.Err (SessionNotFound sid))
  | Some (p, rt) => FencedBy sid client (submit_run p rt env joined input requestID) s
  end.

Definition StartRunSync (h : H) (env : start_env) (sid : string) (s : service)
  : service * Prelude.result service_error RunHandle :=
  match route h sid (the_core s) with
  | None => (s, Prelude.Err (SessionNotFound sid))
  | Some (p, rt) =>
      match StartRun env (RID rt) (ensureRegistered p rt (the_core s)) with
      | (c, Ok hd) => (with_core c s, Ok hd)
      | (c, Prelude.Err e) => (with_core c s, Prelude.Err (StartFailed e))
      end
  end.

Definition cancel_run (p : nat) (rt : SessionRuntime) (runID : string) (c : core) : core * Prelude.result service_error unit :=
  let c := ensureRegistered p rt c in
  match AgentRun.CancelRun (RID rt) runID (mgr c) (rts c) (runs c) with
  | (us, None) => (with_runs us c, Ok tt)
  | (us, Some e) => (with_runs us c, Prelude.Err (CancelFailed e))
  end.

Definition CancelRunSync (h : H) (sid runID : string) (s : service) : service * Prelude.result service_error unit :=
  match route h sid (the_core s) with
  | None => (s, Prelude.Err (SessionNotFound sid))
  | Some (p, rt) => let '(c, r) := cancel_run p rt runID (the_core s) in (with_core c s, r)
  end.

Definition Service_CancelRun (h : H) (sid client runID : string) (s : service) : service * Prelude.result service_error unit :=
  match route h sid (the_core s) with
  | None => (s, Prelude.Err (SessionNotFound sid))
  | Some (p, rt) => FencedBy sid client (cancel_run p rt runID) s
  end.

Definition hub_latest (p : nat) (c : core) : Z := match hubs c !! p with Some hub => latest hub | None => 0%Z end.
Definition hub_integrity (p : nat) (c : core) : string :=
  match hubs c !! p with Some hub => replayIntegrity hub | None => ReplayIntegrityComplete end.

(** [rt.Active()]. *)
Definition active_run (rt : SessionRuntime) (c : core) : option AgentRun := active rt ≫= fun r => runs c !! r.

(** The state, the latest event number and the integrity of the replay, or an
    error with the integrity. *)
Definition RunStatus (h : H) (sid runID : string) (s : service) : Prelude.result service_error (string * Z) * string :=
  let c := the_core s in
  match route h sid c with
  | None => (Prelude.Err (SessionNotFound sid), ReplayIntegrityComplete)
  | Some (p, rt) =>
      let integrity := hub_integrity p c in
      let memory :=
        match byRun (RID rt) runID (requests c) with
        | Some hd => (Ok (handle_state hd c, hub_latest p c), integrity)
        | None => (Prelude.Err (RunNotFound runID), integrity)
        end in
      let stored :=
        match JournalOf h p with
        | Some j =>
            match last_run_state runID j with
            | None => (Prelude.Err (RunNotFound runID), integrity)
            | Some st =>
                match seq_latest j with
                | None => (Prelude.Err (SeqRangeFailed runID), integrity)
                | Some n => (Ok (st, n), integrity)
                end
            end
        | None => memory
        end in
      match active_run rt c with
      | Some run => if String.eqb (ID run) runID then (Ok (AgentRun.State (snapshot run), hub_latest p c), integrity) else stored
      | None => stored
      end
  end.

(** ** approval.go *)

Definition resolve_approval (rt : SessionRuntime) (now : Time) (id : string) (d : Answer) (c : core)
  : core * Prelude.result service_error unit :=
  match Owner id (approvals c) with
  | None => (c, Prelude.Err (ApprovalUnknown id))
  | Some owner =>
      if negb (String.eqb owner (RID rt)) then (c, Prelude.Err (ApprovalOwnership id owner (RID rt)))
      else match Resolve now id d (approvals c) with
           | (a, None) => (with_approvals a c, Ok tt)
           | (a, Some e) => (with_approvals a c, Prelude.Err (ResolveFailed e))
           end
  end.

Definition ResolveApproval (h : H) (now : Time) (sid client id : string) (d : Answer) (s : service)
  : service * Prelude.result service_error unit :=
  match route h sid (the_core s) with
  | None => (s, Prelude.Err (SessionNotFound sid))
  | Some (_, rt) => FencedBy sid client (resolve_approval rt now id d) s
  end.

(** ** events.go *)

Record AttachResult := mkAttach {
  ALatestSeq : Z;
  AReplayIntegrity : string;
  CurrentRun : option (string * string);
  Subscription : nat;
  Replay : list SessionEvent;
}.

(** [EnsureHub] of the runtime: its state, and the hub it makes. *)
Definition ensure_hub (env : start_env) (p : nat) (rt : SessionRuntime) (c : core) : core * Prelude.result start_error bool :=
  match EnsureHub (hub_ok env) rt with
  | (rt', Ok hub) => (with_hubs (add_hub hub env p (hubs c)) (with_rts (<[p := rt']> (rts c)) c), Ok hub)
  | (_, Prelude.Err e) => (c, Prelude.Err e)
  end.

Definition SubscribeEvents (h : H) (env : start_env) (readable : bool) (sid : string) (afterSeq : Z) (s : service)
  : service * Prelude.result service_error AttachResult :=
  match route h sid (the_core s) with
  | None => (s, Prelude.Err (SessionNotFound sid))
  | Some (p, rt) =>
      match ensure_hub env p rt (the_core s) with
      | (c, Prelude.Err e) => (with_core c s, Prelude.Err (StartFailed e))
      | (c, Ok false) => (with_core c s, Prelude.Err (EventStreamDisabled sid))
      | (c, Ok true) =>
          match hubs c !! p with
          | None => (with_core c s, Prelude.Err (EventStreamDisabled sid))
          | Some hub =>
              let '(hub, r) := Subscribe hio readable afterSeq hub in
              let c := with_hubs (<[p := hub]> (hubs c)) c in
              match r with
              | Prelude.Err e => (with_core c s, Prelude.Err (HubFailed e))
              | Ok (id, replay) =>
                  (with_core c s,
                   Ok (mkAttach (latest hub) (replayIntegrity hub)
                         ((fun run => (ID run, AgentRun.State (snapshot run))) <$> active_run rt c) id replay))
              end
          end
      end
  end.
End service.
