(* ===== verification/ControlServiceProps.v ===== *)
(** * The agent control service: who may do what

    Calls on one session leave every other session alone and need its lease; a
    repeated submission is the run it started; every call is a sequence of steps
    of the supervisor, so that what [SupervisorProps] shows of the runs holds
    under the service too. *)

From S2P Require Import Prelude HitlChannel Approvals EventHub RunJournal ControlLease RequestRegistry AgentRun Supervisor ControlService.
#[local] Open Scope string_scope.
#[local] Open Scope list_scope.

Section props.
Context {Hash : Type} `{EqDecision Hash} (fingerprint : string -> Hash).
Context {H J : Type} `{SessionRouter H J} `{RunStatusJournal J}.
Context (hio : EventHub.EventRecord -> append_outcome).
#[local] Abbreviation core := (@core Hash).
#[local] Abbreviation service := (@service Hash).

(** ** Fenced calls *)

Lemma FencedBy_spec {A} sid client (fn : core -> core * Prelude.result service_error A) s s' r :
  FencedBy sid client fn s = (s', r) ->
  (forall x, holder (leases s') x = holder (leases s) x) /\
  if ControlLease.holds (leases s) sid client then (the_core s', r) = fn (the_core s)
  else the_core s' = the_core s /\ r = Prelude.Err (LeaseLost sid client).
Proof.
  unfold FencedBy, WithControl, ControlLease.holds. rewrite ControlLease.Concurrent.holder_lease.
  destruct (negb (String.eqb client "") && String.eqb (holder (leases s) sid) client); cbn.
  - destruct (fn (the_core s)) as [c' [a|e]]; intros [= <- <-]; (split; [intros x; apply ControlLease.Concurrent.holder_lease|done]).
  - intros [= <- <-]. split; [intros x; apply ControlLease.Concurrent.holder_lease|done].
Qed.

(** ** Sessions are apart *)

(** The registry names its runtimes, and a runtime's run is a run of its session. *)
Record consistent (c : core) : Prop := {
  k_registered : forall id p, runtimes (mgr c) !! id = Some p -> exists rt, rts c !! p = Some rt /\ RID rt = id;
  k_active : forall p rt r, rts c !! p = Some rt -> active rt = Some r -> exists run, runs c !! r = Some run /\ RSessionID run = RID rt;
}.

(** Nothing of a session other than [sid] has changed. *)
Record elsewhere (sid : string) (c c' : core) : Prop := {
  w_rts : forall p rt, rts c !! p = Some rt -> RID rt <> sid -> rts c' !! p = Some rt;
  w_hubs : forall p rt, rts c !! p = Some rt -> RID rt <> sid -> hubs c' !! p = hubs c !! p;
  w_runs : forall r run, runs c !! r = Some run -> RSessionID run <> sid -> runs c' !! r = Some run;
  w_registered : forall id, id <> sid -> runtimes (mgr c') !! id = runtimes (mgr c) !! id;
  w_requests : forall key, KSession key <> sid -> table (requests c') !! key = table (requests c) !! key \/ table (requests c') !! key = None;
  w_approvals : forall p e, Approvals.entries (approvals c) !! p = Some e -> PSessionID (pa e) <> sid -> Approvals.entries (approvals c') !! p = Some e;
}.

Lemma elsewhere_refl sid c : elsewhere sid c c.
Proof. split; auto. Qed.

Lemma elsewhere_trans sid c1 c2 c3 : elsewhere sid c1 c2 -> elsewhere sid c2 c3 -> elsewhere sid c1 c3.
Proof.
  intros [A1 A2 A3 A4 A5 A6] [B1 B2 B3 B4 B5 B6]. split; eauto.
  - intros p rt Hp Hne. by rewrite (B2 p rt), (A2 p rt) by eauto.
  - intros id Hne. by rewrite B4, A4.
  - intros key Hne. destruct (B5 key Hne) as [-> | ->]; auto.
Qed.

(** An operation on session [sid]. *)
Definition touches (sid : string) (c c' : core) : Prop := consistent c -> consistent c' /\ elsewhere sid c c'.

Lemma touches_refl sid c : touches sid c c.
Proof. intros Hc. split; [done|apply elsewhere_refl]. Qed.

Lemma touches_trans sid c1 c2 c3 : touches sid c1 c2 -> touches sid c2 c3 -> touches sid c1 c3.
Proof. intros Ha Hb Hc. destruct (Ha Hc) as [Hc2 He1]. destruct (Hb Hc2) as [Hc3 He2]. split; [done|by eapply elsewhere_trans]. Qed.

Lemma touches_mgr sid m c : runtimes m = runtimes (mgr c) -> touches sid c (with_mgr m c).
Proof. intros E [K1 K2]. split; split; cbn; rewrite ?E; auto. Qed.

Lemma touches_rt sid p rt rt' c :
  rts c !! p = Some rt -> RID rt = sid -> RID rt' = sid ->
  (forall r, active rt' = Some r -> exists run, runs c !! r = Some run /\ RSessionID run = sid) ->
  touches sid c (with_rts (<[p := rt']> (rts c)) c).
Proof.
  intros Hp Hs Hs' Ha [K1 K2]. split; split; cbn; auto.
  - intros id q Hq. destruct (K1 id q Hq) as (x & Hx & Hid). destruct (decide (q = p)) as [-> |].
    + exists rt'. rewrite lookup_insert_eq. split; congruence.
    + exists x. by rewrite lookup_insert_ne.
  - intros q x r. destruct (decide (q = p)) as [-> |]; [|rewrite lookup_insert_ne by done; apply K2].
    rewrite lookup_insert_eq. intros [= <-] Hr. rewrite Hs'. auto.
  - intros q x Hq Hne. rewrite lookup_insert_ne; [done|]. intros ->. congruence.
Qed.

Lemma touches_alter sid p rt f c :
  rts c !! p = Some rt -> RID rt = sid ->
  RID (f rt) = RID rt -> active (f rt) = active rt \/ active (f rt) = None ->
  touches sid c (with_rts (alter f p (rts c)) c).
Proof.
  intros Hp Hs Hf Ha Hc. assert (alter f p (rts c) = <[p := f rt]> (rts c)) as ->.
  { apply map_eq. intros q. destruct (decide (q = p)) as [-> |]; [by rewrite lookup_alter_eq, lookup_insert_eq, Hp|].
    by rewrite lookup_alter_ne, lookup_insert_ne. }
  apply (touches_rt _ _ rt); [done..|congruence| |done]. intros r Hr.
  destruct Ha as [Ha|Ha]; rewrite Ha in Hr; [|done]. rewrite <- Hs. by eapply (k_active _ Hc).
Qed.

Lemma touches_new_run sid r run c :
  runs c !! r = None -> touches sid c (with_runs (<[r := run]> (runs c)) c).
Proof.
  intros Hr [K1 K2]. assert (Hk : forall q x, runs c !! q = Some x -> <[r := run]> (runs c) !! q = Some x).
  { intros q x Hq. rewrite lookup_insert_ne; [done|]. intros ->. congruence. }
  split; split; cbn; auto. intros p rt q Hp Ha. destruct (K2 _ _ _ Hp Ha) as (x & Hx & E). eauto.
Qed.

Lemma touches_alter_run sid r f c :
  (forall run, RSessionID (f run) = RSessionID run) -> (forall run, runs c !! r = Some run -> RSessionID run = sid) ->
  touches sid c (with_runs (alter f r (runs c)) c).
Proof.
  intros Hf Hr [K1 K2]. split; split; cbn; auto.
  - intros p rt q Hp Ha. destruct (K2 _ _ _ Hp Ha) as (x & Hx & E). destruct (decide (q = r)) as [-> |].
    + rewrite lookup_alter_eq, Hx. exists (f x). split; [done|]. by rewrite Hf.
    + rewrite lookup_alter_ne by done. eauto.
  - intros q x Hq Hne. rewrite lookup_alter_ne; [done|]. intros ->. by apply Hne, Hr.
Qed.

Lemma touches_hub sid p rt hs c :
  rts c !! p = Some rt -> RID rt = sid -> (forall q, q <> p -> hs !! q = hubs c !! q) -> touches sid c (with_hubs hs c).
Proof.
  intros Hp Hs Hq [K1 K2]. split; split; cbn; auto. intros q x Hx Hne. apply Hq. intros ->. congruence.
Qed.

Lemma touches_requests sid r fl c :
  (forall key, KSession key <> sid -> table r !! key = table (requests c) !! key \/ table r !! key = None) ->
  touches sid c (with_requests r fl c).
Proof. intros Hr [K1 K2]. split; split; cbn; auto. Qed.

Lemma touches_approvals sid a c :
  (forall p e, Approvals.entries (approvals c) !! p = Some e -> PSessionID (pa e) <> sid -> Approvals.entries a !! p = Some e) ->
  touches sid c (with_approvals a c).
Proof. intros Ha [K1 K2]. split; split; cbn; auto. Qed.

(** *** Starting *)

Lemma reserveRun_gives r rt rt' sess :
  reserveRun r rt = (rt', Ok sess) -> rt' = set_active (Some r) rt /\ session rt = Some sess /\ active rt = None.
Proof.
  unfold reserveRun. destruct (archived rt), (retired rt), (active rt), (session rt); try done. by intros [= <- <-].
Qed.

Lemma bindEvents_cases ok sess rt rt' r :
  bindEvents ok sess rt = (rt', r) -> (rt' = rt \/ rt' = set_events (Some "") rt) /\ forall hub, r = Ok hub -> hub = true -> events rt' <> None.
Proof.
  unfold bindEvents. destruct (RunEvents sess); [|by intros [= <- <-]; split; [left|intros ? [= <-]]].
  destruct (events rt) as [x|] eqn:E; cbn; [intros [= <- <-]; split; [by left|by rewrite E]|].
  destruct ok; intros [= <- <-]; split; try done; [by right|by left].
Qed.

Lemma add_hub_other made env p hs q : q <> p -> add_hub made env p hs !! q = hs !! q.
Proof.
  intros Hq. unfold add_hub. destruct (e_hub env); [|done]. destruct made; [|done].
  destruct (hs !! p); [done|]. by rewrite lookup_insert_ne.
Qed.

Lemma clear_active_cases r rt : RID (clear_active r rt) = RID rt /\ (active (clear_active r rt) = active rt \/ active (clear_active r rt) = None).
Proof. unfold clear_active. destruct (decide _); auto. Qed.

Lemma touches_give_back sid p rt r c : rts c !! p = Some rt -> RID rt = sid -> touches sid c (give_back p r c).
Proof.
  intros Hp Hs. unfold give_back. destruct (clear_active_cases r rt) as [Hi Ha].
  eapply touches_trans; [by eapply (touches_alter _ p rt (releaseRunReservation r))|]. by apply touches_mgr.
Qed.

(** The runtime a start finds under its name. *)
Definition found (sid : string) (c : core) : option (nat * SessionRuntime) :=
  runtimes (mgr c) !! sid ≫= fun p => rt ← rts c !! p; Some (p, rt).

Lemma found_spec sid c p rt : consistent c -> found sid c = Some (p, rt) ->
  runtimes (mgr c) !! sid = Some p /\ rts c !! p = Some rt /\ RID rt = sid.
Proof.
  intros Hc. unfold found. destruct (runtimes (mgr c) !! sid) as [q|] eqn:E; [|done]. cbn.
  destruct (k_registered _ Hc _ _ E) as (x & Hx & Hid). rewrite Hx. cbn. by intros [= <- <-].
Qed.

(** The state in which the run and its reservation are there. *)
Definition reserved (env : start_env) (sid : string) (p : nat) (rt : SessionRuntime) (c : core) : core :=
  let c := with_mgr (set_pending (mgr c) (S (AgentRun.pending (mgr c)))) c in
  with_runs (<[e_run env := newAgentRun (e_id env) sid]> (runs c)) (with_rts (<[p := rt]> (rts c)) c).

Definition bound (env : start_env) (p : nat) (rt : SessionRuntime) (hub : bool) (c : core) : core :=
  with_hubs (add_hub hub env p (hubs c)) (with_rts (<[p := rt]> (rts c)) c).

Definition begun (env : start_env) (p : nat) (hub : bool) (c : core) : core :=
  if hub then with_hubs (alter (BeginRun hio (e_id env)) p (hubs c)) (with_rts (alter (hub_begin (e_id env)) p (rts c)) c) else c.

Definition accepted (env : start_env) (c : core) : core := with_runs (alter (set_cancel (Some false)) (e_run env) (runs c)) c.

(** How a start goes. *)
Inductive started (env : start_env) (sid : string) (c : core) : core -> Prelude.result start_error RunHandle -> Prop :=
  | st_refused e :
      closed (mgr c) = true /\ e = ErrManagerClosed \/
      closed (mgr c) = false /\ found sid c = None /\ e = ErrSessionNotFound \/
      closed (mgr c) = false /\ (exists p rt, found sid c = Some (p, rt)) /\ (maxPending (mgr c) <= AgentRun.pending (mgr c))%nat /\ e = ErrTooManyPending ->
      started env sid c c (Prelude.Err e)
  | st_busy p rt rt' e :
      closed (mgr c) = false -> found sid c = Some (p, rt) -> (AgentRun.pending (mgr c) < maxPending (mgr c))%nat ->
      reserveRun (e_run env) rt = (rt', Prelude.Err e) -> started env sid c c (Prelude.Err e)
  | st_failed p rt sess rt1 rt2 c1 e :
      closed (mgr c) = false -> found sid c = Some (p, rt) -> (AgentRun.pending (mgr c) < maxPending (mgr c))%nat ->
      reserveRun (e_run env) rt = (rt1, Ok sess) ->
      c1 = reserved env sid p rt1 c ->
      bindEvents (hub_ok env) sess rt1 = (rt2, Prelude.Err e) ->
      started env sid c (give_back p (e_run env) c1) (Prelude.Err e)
  | st_unrecorded p rt sess rt1 rt2 c1 hub :
      closed (mgr c) = false -> found sid c = Some (p, rt) -> (AgentRun.pending (mgr c) < maxPending (mgr c))%nat ->
      reserveRun (e_run env) rt = (rt1, Ok sess) ->
      c1 = bound env p rt2 hub (reserved env sid p rt1 c) ->
      bindEvents (hub_ok env) sess rt1 = (rt2, Ok hub) -> appendRunState (e_io env) (Some sess) = false ->
      started env sid c (give_back p (e_run env) c1) (Prelude.Err ErrRunJournalWrite)
  | st_accepted p rt sess rt1 rt2 c1 hub :
      closed (mgr c) = false -> found sid c = Some (p, rt) -> (AgentRun.pending (mgr c) < maxPending (mgr c))%nat ->
      reserveRun (e_run env) rt = (rt1, Ok sess) ->
      c1 = begun env p hub (bound env p rt2 hub (reserved env sid p rt1 c)) ->
      bindEvents (hub_ok env) sess rt1 = (rt2, Ok hub) -> appendRunState (e_io env) (Some sess) = true ->
      started env sid c (accepted env c1) (Ok (mkHandle (e_id env) sid)).

Lemma StartRun_started env sid c c' r : StartRun hio env sid c = (c', r) -> started env sid c c' r.
Proof.
  unfold StartRun. destruct (closed (mgr c)) eqn:Hcl; [intros [= <- <-]; apply st_refused; auto|].
  change (runtimes (mgr c) !! sid ≫= _) with (found sid c). destruct (found sid c) as [[p rt]|] eqn:Hf; cbn [mbind option_bind].
  2: { intros [= <- <-]. apply st_refused. right. left. auto. }
  destruct (Nat.ltb_spec (AgentRun.pending (mgr c)) (maxPending (mgr c))) as [Hlt|Hge]; cbn [negb].
  2: { intros [= <- <-]. apply st_refused. right. right. eauto 10. }
  destruct (reserveRun (e_run env) rt) as [rt1 [sess|e]] eqn:Hr.
  2: { intros [= <- <-]. replace (with_mgr _ _) with c; [by eapply st_busy|]. by destruct c as [? ? [] ? ? ? ?]. }
  destruct (bindEvents (hub_ok env) sess rt1) as [rt2 [hub|e]] eqn:Hb.
  2: { intros [= <- <-]. by eapply st_failed. }
  destruct (appendRunState _ _) eqn:Ha; intros [= <- <-]; [by eapply st_accepted|by eapply st_unrecorded].
Qed.

Lemma touches_reserved env sid p rt rt1 sess c :
  rts c !! p = Some rt -> RID rt = sid -> runs c !! e_run env = None ->
  reserveRun (e_run env) rt = (rt1, Ok sess) -> touches sid c (reserved env sid p rt1 c).
Proof.
  intros Hp Hs Hr (-> & _)%reserveRun_gives. unfold reserved.
  set (c1 := with_mgr (set_pending (mgr c) (S (AgentRun.pending (mgr c)))) c).
  apply (touches_trans _ _ c1); [by apply touches_mgr|].
  set (c2 := with_runs (<[e_run env := newAgentRun (e_id env) sid]> (runs c1)) c1).
  apply (touches_trans _ _ c2); [by apply touches_new_run|].
  apply (touches_rt _ p rt (set_active (Some (e_run env)) rt) c2); [done..|].
  intros r [= <-]. exists (newAgentRun (e_id env) sid). split; [|done]. apply lookup_insert_eq.
Qed.

Lemma touches_bound env sid p rt1 rt2 sess hub c :
  rts c !! p = Some rt1 -> RID rt1 = sid -> bindEvents (hub_ok env) sess rt1 = (rt2, Ok hub) ->
  touches sid c (bound env p rt2 hub c).
Proof.
  intros Hp Hs Hb Hc. destruct (bindEvents_cases _ _ _ _ _ Hb) as [Hrt _].
  assert (RID rt2 = sid /\ active rt2 = active rt1) as [E1 E2] by (by destruct Hrt as [-> | ->]).
  revert Hc. unfold bound. eapply touches_trans.
  - intros Hc. apply (touches_rt _ p rt1 rt2); [done..| |done]. intros r Hr. rewrite E2 in Hr. rewrite <- Hs. by eapply (k_active _ Hc).
  - apply (touches_hub _ p rt2); [apply lookup_insert_eq|done|]. intros q Hq. by apply add_hub_other.
Qed.

Lemma touches_begun env sid p rt hub c : rts c !! p = Some rt -> RID rt = sid -> touches sid c (begun env p hub c).
Proof.
  intros Hp Hs. unfold begun. destruct hub; [|apply touches_refl].
  assert (E : RID (hub_begin (e_id env) rt) = RID rt /\ active (hub_begin (e_id env) rt) = active rt)
    by (unfold hub_begin; by destruct (events rt)). destruct E as [E1 E2].
  apply (touches_trans _ _ (with_rts (alter (hub_begin (e_id env)) p (rts c)) c)).
  { apply (touches_alter _ p rt); auto. }
  apply (touches_hub _ p (hub_begin (e_id env) rt)); [by cbn; rewrite lookup_alter_eq, Hp|congruence|].
  intros q Hq. by rewrite lookup_alter_ne.
Qed.

Lemma bindEvents_RID ok sess rt rt' r : bindEvents ok sess rt = (rt', r) -> RID rt' = RID rt.
Proof. intros [[-> | ->] _]%bindEvents_cases; done. Qed.

Lemma begun_runs env p hub c : runs (begun env p hub c) = runs c.
Proof. by destruct hub. Qed.

Lemma StartRun_touches env sid c c' r :
  runs c !! e_run env = None -> StartRun hio env sid c = (c', r) -> touches sid c c'.
Proof.
  intros Hr Hs%StartRun_started Hc. destruct Hs as [e _|p rt rt' e _ Hf _ _|p rt sess rt1 rt2 c1 e _ Hf _ Hres -> Hb
    |p rt sess rt1 rt2 c1 hub _ Hf _ Hres -> Hb _|p rt sess rt1 rt2 c1 hub _ Hf _ Hres -> Hb _];
    try (by apply touches_refl); revert Hc; pose proof (reserveRun_gives _ _ _ _ Hres) as (E & _);
    intros Hc; destruct (found_spec _ _ _ _ Hc Hf) as (_ & Hp & Hs); revert Hc;
    (apply (touches_trans _ _ (reserved env sid p rt1 c)); [by apply (touches_reserved env sid p rt rt1 sess)|]);
    assert (Hp1 : rts (reserved env sid p rt1 c) !! p = Some rt1) by apply lookup_insert_eq;
    assert (Hs1 : RID rt1 = sid) by (by rewrite E).
  - by apply (touches_give_back _ p rt1).
  - eapply touches_trans; [by apply (touches_bound env _ p rt1 rt2 sess hub)|].
    apply (touches_give_back _ p rt2); [apply lookup_insert_eq|]. by rewrite (bindEvents_RID _ _ _ _ _ Hb).
  - eapply touches_trans; [by apply (touches_bound env _ p rt1 rt2 sess hub)|].
    eapply touches_trans; [apply (touches_begun env _ p rt2 hub); [apply lookup_insert_eq|by rewrite (bindEvents_RID _ _ _ _ _ Hb)]|].
    apply touches_alter_run; [done|]. rewrite begun_runs. cbn. rewrite lookup_insert_eq. by intros run [= <-].
Qed.

(** *** The calls *)

Lemma touches_ensure p rt c : rts c !! p = Some rt -> touches (RID rt) c (ensureRegistered p rt c).
Proof.
  intros Hp. unfold ensureRegistered. destruct (decide _); [apply touches_refl|]. destruct (retired rt) eqn:Hret; [apply touches_refl|].
  assert (Hk : forall id q, runtimes (Register p rt (Remove (RID rt) (mgr c))).1 !! id = Some q ->
    (id = RID rt /\ q = p) \/ id <> RID rt /\ runtimes (mgr c) !! id = Some q).
  { intros id q. unfold Register. cbn. rewrite Hret, lookup_delete_eq. destruct (closed (mgr c)); cbn.
    - intros [Hne Hq]%lookup_delete_Some. auto.
    - intros [[-> ->]|[Hne [_ Hq]%lookup_delete_Some]]%lookup_insert_Some; auto. }
  intros [K1 K2]. split; split; cbn; auto.
  - intros id q Hq. destruct (Hk _ _ Hq) as [[-> ->]|[_ Hq']]; eauto.
  - intros id Hne. unfold Register. cbn. rewrite Hret, lookup_delete_eq. destruct (closed (mgr c)); cbn;
      rewrite ?lookup_insert_ne by done; by rewrite lookup_delete_ne.
Qed.

Lemma evict_lookup o (t : gmap RequestKey (@trackedRun Hash)) key :
  (evict o t).1.2 !! key = t !! key \/ (evict o t).1.2 !! key = None.
Proof.
  revert t. induction o as [|k o IH]; intros t; cbn [evict]; [by left|]. destruct (_ <? _)%Z; [|by left].
  specialize (IH (delete k t)). destruct (evict o (delete k t)) as [[o' t'] out]. cbn in *.
  destruct (decide (k = key)) as [-> |].
  - rewrite lookup_delete_eq in IH. right. by destruct IH.
  - by rewrite lookup_delete_ne in IH.
Qed.

Lemma finish_table key fp o (r : @registry Hash) k :
  k <> key ->
  table (RequestRegistry.finish key fp o r).1 !! k = table r !! k \/ table (RequestRegistry.finish key fp o r).1 !! k = None.
Proof.
  intros Hk. destruct o as [h|e]; [|by left]. unfold RequestRegistry.finish, recordLocked. cbn.
  destruct (table r !! key) as [x|]; cbn; [rewrite lookup_insert_ne by done; by left|].
  pose proof (evict_lookup (order r ++ [key]) (table r) k) as E.
  destruct (evict _ _) as [[o t] out]. cbn in *. by rewrite lookup_insert_ne.
Qed.

Lemma Submit_touches sid key input joined start c c' r :
  KSession key = sid \/ RequestID key = "" ->
  (forall c1 c2 x, start c1 = (c2, x) -> runs c1 = runs c -> rts c1 = rts c -> touches sid c1 c2) ->
  Submit fingerprint key input joined start c = (c', r) -> touches sid c c'.
Proof.
  intros Hkey Hst. unfold Submit. destruct (String.eqb_spec (RequestID key) "") as [Hid|Hid].
  - destruct (start c) as [c1 x] eqn:E. intros [= <- _]. by eapply Hst.
  - destruct Hkey as [Hkey|]; [|done]. destruct (enter _ _ _ _); [intros [= <- _]; apply touches_refl..|].
    set (c1 := with_requests _ _ c). destruct (start c1) as [c2 x] eqn:E.
    destruct (RequestRegistry.finish _ _ _ _) as [reg out] eqn:Ef. intros [= <- _].
    apply (touches_trans _ _ c1); [apply touches_requests; by left|].
    apply (touches_trans _ _ c2); [by eapply Hst|]. apply touches_requests. intros k Hk.
    pose proof (finish_table key (fingerprint input)
      match x with Ok h => Ok h | Prelude.Err e => Prelude.Err (StartError (describe e)) end (requests c2) k) as Hf.
    rewrite Ef in Hf. apply Hf. intros ->. done.
Qed.

Lemma ensure_runs p rt (c : core) : runs (ensureRegistered p rt c) = runs c /\ rts (ensureRegistered p rt c) = rts c.
Proof. unfold ensureRegistered. destruct (decide _), (retired rt); done. Qed.

Lemma submit_run_touches p rt env joined input requestID c c' r :
  rts c !! p = Some rt -> runs c !! e_run env = None ->
  submit_run fingerprint hio p rt env joined input requestID c = (c', r) -> touches (RID rt) c c'.
Proof.
  intros Hp Hr. unfold submit_run.
  destruct (Submit _ _ _ _ _ c) as [c1 x] eqn:E. intros Heq.
  assert (c' = c1) as -> by (destruct x as [[hd f]|e]; by injection Heq).
  eapply Submit_touches; [|intros ca cb y Hst E1 E2|exact E].
  - unfold request_key. destruct (String.eqb requestID ""); auto.
  - apply (touches_trans _ _ (ensureRegistered p rt ca)); [apply touches_ensure; by rewrite E2|].
    eapply StartRun_touches; [|exact Hst]. destruct (ensure_runs p rt ca) as [-> _]. by rewrite E1.
Qed.

Lemma cancel_touches sid id (c : core) :
  consistent c -> touches sid c (with_runs (AgentRun.CancelRun sid id (mgr c) (rts c) (runs c)).1 c).
Proof.
  intros Hc. assert (Hsame : touches sid c (with_runs (runs c) c)) by (destruct c; apply touches_refl). unfold AgentRun.CancelRun, Get. destruct (runtimes (mgr c) !! sid) as [p|] eqn:Hp; cbn.
  2: { done. }
  destruct (k_registered _ Hc _ _ Hp) as (rt & Hrt & Hid). rewrite Hrt. cbn.
  destruct (active rt) as [r|] eqn:Ha; [|done].
  destruct (runs c !! r) as [run|] eqn:Hrun; [|done].
  destruct (negb _); [done|].
  destruct (Cancel run) as [run' b] eqn:E. assert (run' = (Cancel run).1) as -> by by rewrite E.
  destruct b; [|done]. cbn.
  replace (<[r := (Cancel run).1]> (runs c)) with (alter (fun x => (Cancel x).1) r (runs c)).
  - apply touches_alter_run; [intros x; unfold Cancel; by destruct (cancel x)|].
    intros x. rewrite Hrun. intros [= <-]. destruct (k_active _ Hc _ _ _ Hrt Ha) as (y & Hy & Es). congruence.
  - apply map_eq. intros q. destruct (decide (q = r)) as [-> |]; [by rewrite lookup_alter_eq, Hrun, lookup_insert_eq|].
    by rewrite lookup_alter_ne, lookup_insert_ne.
Qed.

Lemma resolve_touches rt now id d (c c' : core) r :
  resolve_approval rt now id d c = (c', r) -> touches (RID rt) c c'.
Proof.
  unfold resolve_approval, Owner. destruct (Approvals.pending (approvals c) !! id) as [p|] eqn:Hp; cbn.
  2: { intros [= <- _]. apply touches_refl. }
  destruct (Approvals.entries (approvals c) !! p) as [e|] eqn:He; cbn; [|intros [= <- _]; apply touches_refl].
  destruct (String.eqb_spec (PSessionID (pa e)) (RID rt)) as [Hs|]; cbn; [|intros [= <- _]; apply touches_refl].
  destruct (Resolve now id d (approvals c)) as [a x] eqn:Er. intros Heq.
  assert (c' = with_approvals a c) as -> by (by destruct x; injection Heq).
  apply touches_approvals. intros q e' Hq Hne. revert Er. unfold Resolve.
  destruct (Approvals.pending (sweepResolvedExpiredLocked now (approvals c)) !! id) as [p'|] eqn:Hp'; cbn.
  2: { by intros [= <- _]. }
  assert (p' = p) as ->. { cbn in Hp'. apply map_lookup_filter_Some in Hp' as [Hp' _]. congruence. }
  rewrite He. cbn. destruct (resolved e); intros [= <- _]; [done|]. cbn.
  rewrite lookup_insert_ne; [done|]. intros ->. congruence.
Qed.

(** What a client asks for. *)
Inductive command : Type :=
  | CStart (env : start_env) (joined : Prelude.result submit_error RunHandle) (input requestID : string)
  | CCancel (runID : string)
  | CResolve (now : Time) (id : string) (d : Answer).

Definition fails {A} (r : Prelude.result service_error A) : option service_error :=
  match r with Ok _ => None | Prelude.Err e => Some e end.

Definition call (h : H) (cmd : command) (sid client : string) (s : service) : service * option service_error :=
  match cmd with
  | CStart env joined input requestID =>
      let '(s, r) := Service_StartRun fingerprint hio h env joined sid client input requestID s in (s, fails r)
  | CCancel runID => let '(s, r) := Service_CancelRun h sid client runID s in (s, fails r)
  | CResolve now id d => let '(s, r) := ResolveApproval h now sid client id d s in (s, fails r)
  end.

(** A run object not in use. *)
Definition fresh_for (cmd : command) (c : core) : Prop :=
  match cmd with CStart env _ _ _ => runs c !! e_run env = None | _ => True end.

(** What a command does behind the fence. *)
Definition behind (cmd : command) (p : nat) (rt : SessionRuntime) (c : core) : core * option service_error :=
  match cmd with
  | CStart env joined input requestID =>
      let '(c, r) := submit_run fingerprint hio p rt env joined input requestID c in (c, fails r)
  | CCancel runID => let '(c, r) := cancel_run p rt runID c in (c, fails r)
  | CResolve now id d => let '(c, r) := resolve_approval rt now id d c in (c, fails r)
  end.

Lemma fenced_call {A} sid client (fn : core -> core * Prelude.result service_error A) s s' e :
  (let '(s, r) := FencedBy sid client fn s in (s, fails r)) = (s', e) ->
  (forall x, holder (leases s') x = holder (leases s) x) /\
  if ControlLease.holds (leases s) sid client then (the_core s', e) = (let '(c, r) := fn (the_core s) in (c, fails r))
  else the_core s' = the_core s /\ e = Some (LeaseLost sid client).
Proof.
  destruct (FencedBy sid client fn s) as [s1 r] eqn:E. intros [= <- <-].
  destruct (FencedBy_spec _ _ _ _ _ _ E) as [Hh Hc]. split; [done|].
  destruct (ControlLease.holds _ _ _); [by rewrite <- Hc|]. by destruct Hc as [-> ->].
Qed.

Lemma call_spec h cmd sid client s s' e :
  call h cmd sid client s = (s', e) ->
  match route h sid (the_core s) with
  | None => s' = s /\ e = Some (SessionNotFound sid)
  | Some (p, rt) =>
      (forall x, holder (leases s') x = holder (leases s) x) /\
      if ControlLease.holds (leases s) sid client then (the_core s', e) = behind cmd p rt (the_core s)
      else the_core s' = the_core s /\ e = Some (LeaseLost sid client)
  end.
Proof.
  destruct cmd; cbn [call]; unfold Service_StartRun, Service_CancelRun, ResolveApproval;
    (destruct (route h sid (the_core s)) as [[p rt]|]; [apply fenced_call|by intros [= <- <-]]).
Qed.

Lemma route_rt h sid (c : core) p rt : route h sid c = Some (p, rt) -> rts c !! p = Some rt.
Proof.
  unfold route. destruct (RouteSession h _ _ sid) as [q|]; [|done]. cbn.
  destruct (rts c !! q) as [x|] eqn:E; [|done]. by intros [= <- <-].
Qed.

Lemma behind_touches cmd p rt c c' e :
  rts c !! p = Some rt -> fresh_for cmd c -> behind cmd p rt c = (c', e) -> touches (RID rt) c c'.
Proof.
  intros Hp Hf. destruct cmd as [env joined input requestID|runID|now id d]; cbn [behind].
  - destruct (submit_run _ _ _ _ _ _ _ _ c) as [c1 r] eqn:E. intros [= <- _]. by eapply submit_run_touches.
  - unfold cancel_run. intros Heq Hc. destruct (touches_ensure p rt c Hp Hc) as [Hc1 He1].
    pose proof (cancel_touches (RID rt) runID _ Hc1) as Ht.
    destruct (AgentRun.CancelRun _ _ _ _ _) as [us [x|]]; injection Heq as <- _;
      (eapply (touches_trans _ _ (ensureRegistered p rt c)); [by intros _|exact (fun _ => Ht Hc1)|done]).
  - destruct (resolve_approval rt now id d c) as [c1 r] eqn:E. intros [= <- _]. by eapply resolve_touches.
Qed.

Lemma behind_not_fenced cmd p rt c c' e sid client : behind cmd p rt c = (c', e) -> e <> Some (LeaseLost sid client).
Proof.
  destruct cmd as [env joined input requestID|runID|now id d]; cbn [behind].
  - unfold submit_run. destruct (Submit _ _ _ _ _ _) as [c1 [[hd f]|x]]; by intros [= _ <-].
  - unfold cancel_run. destruct (AgentRun.CancelRun _ _ _ _ _) as [us [x|]]; by intros [= _ <-].
  - unfold resolve_approval. destruct (Owner _ _); [|by intros [= _ <-]].
    destruct (negb _); [by intros [= _ <-]|]. destruct (Resolve _ _ _ _) as [a [x|]]; by intros [= _ <-].
Qed.

(** C21: Only the holder steers, and only its session. A start, a cancellation or
    an answer to an approval changes anything, whatever comes of it, only if its
    client holds the lease of the session it names, and is refused for the lease
    exactly if it does not; no such call moves a lease; and what it changes
    belongs to the session the name is routed to: every runtime, run, event hub,
    approval and remembered request of another session stays as it is (a request
    may be forgotten). *)
Theorem only_the_holder_steers h cmd sid client s s' e :
  consistent (the_core s) -> fresh_for cmd (the_core s) -> call h cmd sid client s = (s', e) ->
  consistent (the_core s') /\ (forall x, holder (leases s') x = holder (leases s) x) /\
  match route h sid (the_core s) with
  | None => s' = s /\ e = Some (SessionNotFound sid)
  | Some (p, rt) =>
      elsewhere (RID rt) (the_core s) (the_core s') /\
      (e = Some (LeaseLost sid client) <-> ~ (client <> "" /\ holder (leases s) sid = client)) /\
      (the_core s' <> the_core s -> client <> "" /\ holder (leases s) sid = client)
  end.
Proof.
  intros Hc Hf Hcall. pose proof (call_spec _ _ _ _ _ _ _ Hcall) as Hs.
  destruct (route h sid (the_core s)) as [[p rt]|] eqn:Hr; [|by destruct Hs as [-> ->]].
  destruct Hs as [Hh Hs]. unfold ControlLease.holds in Hs.
  assert (Hiff : negb (String.eqb client "") && String.eqb (holder (leases s) sid) client = true <-> client <> "" /\ holder (leases s) sid = client)
    by (rewrite andb_true_iff, negb_true_iff, String.eqb_neq, String.eqb_eq; done).
  destruct (negb _ && _).
  - symmetry in Hs. destruct (behind_touches _ _ _ _ _ _ (route_rt _ _ _ _ _ Hr) Hf Hs Hc) as [Hc' He].
    split_and!; [done..| |by intros _; apply Hiff]. split; [|by intros Hn; destruct Hn; apply Hiff].
    intros ->. by destruct (behind_not_fenced _ _ _ _ _ _ sid client Hs).
  - destruct Hs as [E ->]. rewrite E. split_and!; [done..|apply elsewhere_refl| |done].
    split; [|done]. intros _ Hn. by apply Hiff in Hn.
Qed.

(** ** Repeated submissions *)

(** The entry a submission leaves when no other of its key is in progress. *)
Lemma Submit_records key input joined start c c' hd f :
  RequestID key <> "" -> flights (requests c) !! key = None ->
  Submit fingerprint key input joined start c = (c', Ok (hd, f)) ->
  table (requests c') !! key = Some (mkTracked hd (fingerprint input)).
Proof.
  intros Hid Hfl. unfold Submit. rewrite (proj2 (String.eqb_neq _ _) Hid). unfold enter. rewrite Hfl.
  destruct (table (requests c) !! key) as [[hd' fp]|] eqn:Ht.
  - cbn. destruct (decide (fp = fingerprint input)) as [-> |]; [|done]. intros [= <- <- <-]. done.
  - destruct (start _) as [c1 [h|e]]; cbn -[RequestRegistry.finish].
    2: { destruct (RequestRegistry.finish _ _ _ _). done. }
    destruct (RequestRegistry.finish _ _ _ _) as [reg out] eqn:Ef. intros [= <- <- _]. cbn.
    unfold RequestRegistry.finish, recordLocked in Ef. cbn in Ef.
    destruct (table (requests c1) !! key); [|destruct (evict _ _) as [[o t] out']]; injection Ef as <- _; apply lookup_insert_eq.
Qed.

Lemma Submit_again key input joined start c hd fp :
  RequestID key <> "" -> table (requests c) !! key = Some (mkTracked hd fp) ->
  Submit fingerprint key input joined start c =
    (c, if decide (fp = fingerprint input) then Ok (hd, false) else Prelude.Err (ErrRequestConflict (RequestID key))).
Proof.
  intros Hid Ht. unfold Submit. rewrite (proj2 (String.eqb_neq _ _) Hid). unfold enter. rewrite Ht. cbn.
  by destruct (decide _).
Qed.

Lemma FencedBy_held {A} sid client (fn : core -> core * Prelude.result service_error A) s :
  client <> "" -> holder (leases s) sid = client ->
  exists l, FencedBy sid client fn s = (mkService l (bindings s) (fn (the_core s)).1, (fn (the_core s)).2).
Proof.
  intros Hc Hh. unfold FencedBy, WithControl, ControlLease.holds.
  rewrite ControlLease.Concurrent.holder_lease, Hh, String.eqb_refl, (proj2 (String.eqb_neq _ _) Hc). cbn.
  eexists. by destruct (fn (the_core s)) as [c [a|e]].
Qed.

(** A start can be repeated. Once a request has started its run, every later
    submission of the same request to the same session, under whatever name, by
    whatever client that holds its lease, and whatever the environment would do,
    starts nothing and changes nothing: with the same input it returns the same
    run and the state the run has by then, with another input it is refused,
    until the request is forgotten. *)
Theorem start_is_idempotent h h' env env' joined joined' sid sid' client client' input input' requestID s0 s1 s2 id st p rt p' rt' :
  requestID <> "" ->
  route h sid (the_core s0) = Some (p, rt) ->
  flights (requests (the_core s0)) !! mkKey (RID rt) requestID = None ->
  Service_StartRun fingerprint hio h env joined sid client input requestID s0 = (s1, Ok (id, st)) ->
  table (requests (the_core s2)) !! mkKey (RID rt) requestID = table (requests (the_core s1)) !! mkKey (RID rt) requestID ->
  route h' sid' (the_core s2) = Some (p', rt') -> RID rt' = RID rt ->
  client' <> "" -> holder (leases s2) sid' = client' ->
  exists s3 r, Service_StartRun fingerprint hio h' env' joined' sid' client' input' requestID s2 = (s3, r) /\
    the_core s3 = the_core s2 /\
    (input' = input -> exists hd, RunID hd = id /\ r = Ok (id, handle_state hd (the_core s2))) /\
    (fingerprint input' <> fingerprint input -> r = Prelude.Err (SubmitError (ErrRequestConflict requestID))).
Proof.
  intros Hid Hr Hfl Hs Ht Hr' Hrid Hc Hh. unfold Service_StartRun in Hs. rewrite Hr in Hs.
  destruct (FencedBy_spec _ _ _ _ _ _ Hs) as [_ Hspec]. destruct (ControlLease.holds _ _ _); [|by destruct Hspec].
  unfold submit_run, request_key in Hspec. rewrite (proj2 (String.eqb_neq _ _) Hid) in Hspec.
  destruct (Submit _ _ _ _ _ (the_core s0)) as [c1 [[hd f]|e]] eqn:Hsub; [|done].
  injection Hspec as E1 Eid _. rewrite E1 in Ht.
  rewrite (Submit_records (mkKey (RID rt) requestID) _ _ _ _ _ _ _ Hid Hfl Hsub) in Ht.
  unfold Service_StartRun. rewrite Hr'.
  destruct (FencedBy_held sid' client' (submit_run fingerprint hio p' rt' env' joined' input' requestID) s2 Hc Hh) as (l & ->).
  eexists _, _. split; [done|]. unfold submit_run, request_key. rewrite (proj2 (String.eqb_neq _ _) Hid), Hrid.
  rewrite (Submit_again (mkKey (RID rt) requestID) _ _ _ _ _ _ Hid Ht). cbn.
  destruct (decide _) as [E|E]; cbn; (split; [done|]); split.
  - intros ->. exists hd. by subst.
  - intros Hne. by rewrite E in Hne.
  - intros ->. done.
  - done.
Qed.

(** ** The supervisor's steps *)

(** The supervisor's part of the state. *)
Definition sim (c : core) (t : Supervisor.state) : Prop :=
  Supervisor.mgr t = mgr c /\ Supervisor.rts t = rts c /\ Supervisor.runs t = runs c.

(** What a start needs from outside: a new run object and a new id, and no
    [Archive] at its commit, for which it would wait. *)
Definition start_ok (env : start_env) (c : core) : Prop :=
  runs c !! e_run env = None /\ (forall q run, runs c !! q = Some run -> ID run <> e_id env) /\
  forall p rt, rts c !! p = Some rt -> admission rt = false.

#[local] Abbreviation steps := (rtc Supervisor.step).

Lemma start_steps tid t t' t'' : start_step t tid t' -> steps t' t'' -> steps t t''.
Proof. intros Ha Hb. eapply rtc_l; [by eapply by_start|done]. Qed.

Lemma thread_move t m rs us tid x evs : threads (move t m rs us tid x evs) !! tid = Some x.
Proof. apply lookup_insert_eq. Qed.

(** Giving a place in the queue back, after a failure. *)
Lemma return_steps c t tid e :
  sim c t -> threads t !! tid = Some (AtReturn e) -> (0 < AgentRun.pending (mgr c))%nat ->
  exists t', steps t t' /\ sim (with_mgr (untake (mgr c)) c) t'.
Proof.
  intros (E1 & E2 & E3) Ht Hp. eexists. split; [eapply start_steps; [eapply step_untoken; [done|by rewrite E1]|apply rtc_refl]|].
  split_and!; cbn; congruence.
Qed.

Lemma release_steps c t tid p r e rt :
  sim c t -> threads t !! tid = Some (AtRelease p r e) -> rts c !! p = Some rt -> admission rt = false ->
  (0 < AgentRun.pending (mgr c))%nat -> exists t', steps t t' /\ sim (give_back p r c) t'.
Proof.
  intros (E1 & E2 & E3) Ht Hrt Ha Hp.
  destruct (return_steps (with_rts (alter (releaseRunReservation r) p (rts c)) c)
    (at_rt t p (releaseRunReservation r) tid (AtReturn e) []) tid e) as (t' & Hst & Hsim).
  - split_and!; cbn; congruence.
  - apply thread_move.
  - done.
  - exists t'. split; [|done]. eapply start_steps; [eapply step_release; [done|by rewrite E2|done]|done].
Qed.

(** From the call to the place in the queue. *)
Lemma queue_steps sid c t tid p rt :
  sim c t -> threads t !! tid = None -> closed (mgr c) = false -> found sid c = Some (p, rt) ->
  (AgentRun.pending (mgr c) < maxPending (mgr c))%nat ->
  exists t', steps t t' /\ sim (with_mgr (set_pending (mgr c) (S (AgentRun.pending (mgr c)))) c) t' /\
    threads t' !! tid = Some (AtReserve sid p).
Proof.
  intros (E1 & E2 & E3) Ht Hcl Hf Hlt.
  assert (Hreg : runtimes (mgr c) !! sid = Some p).
  { revert Hf. unfold found. destruct (runtimes (mgr c) !! sid) as [q|]; [|done]. cbn. destruct (rts c !! q); [|done]. by intros [= -> _]. }
  eexists. split_and!.
  - eapply start_steps; [by apply step_call|]. eapply start_steps; [apply step_lookup, thread_move|].
    eapply start_steps; [|apply rtc_refl]. eapply step_pending.
    + cbn. unfold lookup_start. rewrite E1, Hcl, Hreg. apply lookup_insert_eq.
    + cbn. unfold take_pending. rewrite E1, (proj2 (Nat.ltb_lt _ _) Hlt). done.
  - split_and!; cbn; congruence.
  - apply thread_move.
Qed.

Lemma alter_same {A} (f : A -> A) (m : gmap nat A) p : (forall x, f x = x) -> alter f p m = m.
Proof. intros Hf. apply alter_id. auto. Qed.

Lemma reserve_steps env sid c t tid p rt rt1 sess :
  sim c t -> start_ok env c -> threads t !! tid = None -> closed (mgr c) = false -> found sid c = Some (p, rt) ->
  (AgentRun.pending (mgr c) < maxPending (mgr c))%nat -> reserveRun (e_run env) rt = (rt1, Ok sess) ->
  exists t', steps t t' /\ sim (reserved env sid p rt1 c) t' /\ threads t' !! tid = Some (AtBind p (e_run env) sess).
Proof.
  intros Hsim (Hr & Hid & Ha) Ht Hcl Hf Hlt Hres.
  destruct (queue_steps _ _ _ _ _ _ Hsim Ht Hcl Hf Hlt) as (t1 & Hst & (E1 & E2 & E3) & Ht1).
  assert (Hp : rts c !! p = Some rt).
  { revert Hf. unfold found. destruct (runtimes (mgr c) !! sid) as [q|]; [|done]. cbn.
    destruct (rts c !! q) eqn:Eq; [|done]. cbn. by intros [= -> <-]. }
  eexists. split_and!.
  - etrans; [exact Hst|]. eapply start_steps; [|apply rtc_refl].
    eapply (step_reserve _ _ _ _ _ (e_id env) rt); [done|rewrite E2; exact Hp|eauto|by rewrite E3| |done].
    rewrite E3. exact Hid.
  - split_and!; cbn; rewrite ?E1, ?E2, ?E3; done.
  - apply thread_move.
Qed.

Lemma bind_steps env c t tid p rt1 rt2 sess hub :
  sim c t -> threads t !! tid = Some (AtBind p (e_run env) sess) -> rts c !! p = Some rt1 ->
  bindEvents (hub_ok env) sess rt1 = (rt2, Ok hub) ->
  exists t', steps t t' /\ sim (bound env p rt2 hub c) t' /\ threads t' !! tid = Some (AtQueue (mkJob p (e_run env) hub) sess).
Proof.
  intros (E1 & E2 & E3) Ht Hp Hb. eexists. split_and!.
  - eapply start_steps; [|apply rtc_refl]. eapply step_bind; [done|by rewrite E2|exact Hb].
  - split_and!; cbn; congruence.
  - apply thread_move.
Qed.

Lemma accept_steps env c t tid p sess hub run :
  sim c t -> threads t !! tid = Some (AtQueue (mkJob p (e_run env) hub) sess) ->
  appendRunState (e_io env) (Some sess) = true -> runs c !! e_run env = Some run -> ID run = e_id env ->
  exists t', steps t t' /\ sim (accepted env (begun env p hub c)) t' /\ threads t' !! tid = Some (AtGate (mkJob p (e_run env) hub)).
Proof.
  intros (E1 & E2 & E3) Ht Hio Hrun Hid. eexists. split_and!.
  - eapply start_steps; [by eapply step_queue|]. eapply start_steps; [eapply step_begin; [apply thread_move|cbn; by rewrite E3]|].
    eapply start_steps; [|apply rtc_refl]. apply step_spawn, thread_move.
  - unfold begun, accepted. destruct hub; split_and!; cbn; rewrite ?E1, ?E2, ?E3, ?Hid; try done. by apply alter_same.
  - apply thread_move.
Qed.

(** A start is a run of the supervisor's thread, as far as it goes. *)
Lemma StartRun_steps env sid c t tid c' r :
  sim c t -> start_ok env c -> threads t !! tid = None -> StartRun hio env sid c = (c', r) ->
  exists t', steps t t' /\ sim c' t' /\
    forall hd, r = Ok hd -> exists p hub, threads t' !! tid = Some (AtGate (mkJob p (e_run env) hub)).
Proof.
  intros Hsim Hok Ht Hs%StartRun_started. pose proof Hok as (_ & _ & Ha).
  assert (Hfound : forall p rt, found sid c = Some (p, rt) -> rts c !! p = Some rt).
  { intros p rt. unfold found. destruct (runtimes (mgr c) !! sid) as [q|]; [|done]. cbn.
    destruct (rts c !! q) eqn:Eq; [|done]. cbn. by intros [= -> <-]. }
  destruct Hs as [e _|p rt rt' e _ _ _ _|p rt sess rt1 rt2 c1 e Hcl Hf Hlt Hres -> Hb
    |p rt sess rt1 rt2 c1 hub Hcl Hf Hlt Hres -> Hb Hio|p rt sess rt1 rt2 c1 hub Hcl Hf Hlt Hres -> Hb Hio];
    try (exists t; split_and!; [apply rtc_refl|done|by intros hd]).
  all: pose proof (Ha _ _ (Hfound _ _ Hf)) as Hadm; destruct (reserveRun_gives _ _ _ _ Hres) as (Ert & _).
  all: destruct (reserve_steps _ _ _ _ _ _ _ _ _ Hsim Hok Ht Hcl Hf Hlt Hres) as (t1 & Hst1 & Hsim1 & Ht1).
  - destruct (release_steps (reserved env sid p rt1 c) (goto t1 tid (AtRelease p (e_run env) e) []) tid p (e_run env) e rt1)
      as (t2 & Hst2 & Hsim2); [by destruct Hsim1|apply thread_move|apply lookup_insert_eq|by rewrite Ert|cbn; lia|].
    exists t2. split_and!; [|done|by intros hd]. etrans; [exact Hst1|].
    eapply start_steps; [|exact Hst2]. eapply step_bind_failed; [done| |exact Hb].
    destruct Hsim1 as (_ & -> & _). apply lookup_insert_eq.
  - destruct (bind_steps _ _ _ _ _ _ _ _ _ Hsim1 Ht1 (lookup_insert_eq _ _ _) Hb) as (t2 & Hst2 & Hsim2 & Ht2).
    destruct (release_steps (bound env p rt2 hub (reserved env sid p rt1 c))
      (goto t2 tid (AtRelease p (e_run env) ErrRunJournalWrite) [EvState (e_run env) RunQueued false]) tid p (e_run env) ErrRunJournalWrite rt2)
      as (t3 & Hst3 & Hsim3); [by destruct Hsim2|apply thread_move|apply lookup_insert_eq| |cbn; lia|].
    { destruct (bindEvents_cases _ _ _ _ _ Hb) as [Hrt _]. by destruct Hrt as [-> | ->]; rewrite Ert. }
    exists t3. split_and!; [|done|by intros hd]. etrans; [exact Hst1|]. etrans; [exact Hst2|].
    eapply start_steps; [by eapply (step_queue_failed _ _ (mkJob p (e_run env) hub))|exact Hst3].
  - destruct (bind_steps _ _ _ _ _ _ _ _ _ Hsim1 Ht1 (lookup_insert_eq _ _ _) Hb) as (t2 & Hst2 & Hsim2 & Ht2).
    destruct (accept_steps env (bound env p rt2 hub (reserved env sid p rt1 c)) t2 tid p sess hub (newAgentRun (e_id env) sid))
      as (t3 & Hst3 & Hsim3 & Ht3); [done..|apply lookup_insert_eq|done|].
    exists t3. split_and!; [|done|eauto]. etrans; [exact Hst1|]. by etrans.
Qed.

Lemma fresh_thread (t : Supervisor.state) : exists tid, threads t !! tid = None.
Proof. exists (fresh (dom (threads t))). apply not_elem_of_dom, is_fresh. Qed.

Lemma admin_steps t t' t'' : admin_step t t' -> steps t' t'' -> steps t t''.
Proof. intros Ha Hb. eapply rtc_l; [by eapply by_admin|done]. Qed.

Lemma ensure_steps p rt c t : sim c t -> rts c !! p = Some rt -> exists t', steps t t' /\ sim (ensureRegistered p rt c) t'.
Proof.
  intros Hsim Hp. unfold ensureRegistered. destruct (decide _); [exists t; split; [apply rtc_refl|done]|].
  destruct (retired rt); [exists t; split; [apply rtc_refl|done]|]. destruct Hsim as (E1 & E2 & E3).
  destruct (Register p rt (Remove (RID rt) (mgr c))) as [m e] eqn:Er. eexists. split.
  - eapply admin_steps; [apply (step_remove _ (RID rt))|]. eapply admin_steps; [|apply rtc_refl].
    eapply (step_register _ p rt); [cbn; by rewrite E2|]. cbn. rewrite E1. exact Er.
  - split_and!; cbn; done.
Qed.

Lemma start_ok_same env c c' : runs c' = runs c -> rts c' = rts c -> start_ok env c -> start_ok env c'.
Proof. unfold start_ok. by intros -> ->. Qed.

Lemma ensured_start_steps p rt env sid c t c' r :
  sim c t -> rts c !! p = Some rt -> start_ok env c -> StartRun hio env sid (ensureRegistered p rt c) = (c', r) ->
  exists t', steps t t' /\ sim c' t'.
Proof.
  intros Hsim Hp Hok Hst. destruct (ensure_steps _ _ _ _ Hsim Hp) as (t1 & Hst1 & Hsim1).
  destruct (fresh_thread t1) as [tid Ht]. destruct (ensure_runs p rt c) as [Eu Er].
  destruct (StartRun_steps _ _ _ _ _ _ _ Hsim1 (start_ok_same _ _ _ Eu Er Hok) Ht Hst) as (t2 & Hst2 & Hsim2 & _).
  exists t2. split; [by etrans|done].
Qed.

Lemma sim_requests r f c t : sim (with_requests r f c) t <-> sim c t.
Proof. done. Qed.

Lemma submit_steps p rt env joined input requestID c t c' r :
  sim c t -> rts c !! p = Some rt -> start_ok env c ->
  submit_run fingerprint hio p rt env joined input requestID c = (c', r) -> exists t', steps t t' /\ sim c' t'.
Proof.
  intros Hsim Hp Hok. unfold submit_run. destruct (Submit _ _ _ _ _ c) as [c1 x] eqn:E. intros Heq.
  assert (c' = c1) as -> by (destruct x as [[hd f]|e]; by injection Heq). clear Heq.
  assert (Hstay : exists t', steps t t' /\ sim c t') by (exists t; split; [apply rtc_refl|done]).
  revert E. unfold Submit. destruct (String.eqb _ "").
  - destruct (StartRun _ _ _ _) as [c2 y] eqn:Hst. intros [= <- _]. by eapply ensured_start_steps.
  - destruct (enter _ _ _ _); try by intros [= <- _].
    set (c2 := with_requests _ _ c). destruct (StartRun _ _ _ _) as [c3 y] eqn:Hst.
    destruct (RequestRegistry.finish _ _ _ _) as [reg out]. intros [= <- _].
    destruct (ensured_start_steps p rt env _ c2 t c3 y Hsim Hp Hok Hst) as (t' & Ha & Hb). by exists t'.
Qed.

Lemma cancel_steps p rt runID c t c' r :
  sim c t -> rts c !! p = Some rt -> cancel_run p rt runID c = (c', r) -> exists t', steps t t' /\ sim c' t'.
Proof.
  intros Hsim Hp. unfold cancel_run. destruct (ensure_steps _ _ _ _ Hsim Hp) as (t1 & Hst1 & E1 & E2 & E3).
  destruct (AgentRun.CancelRun _ _ _ _ _) as [us x] eqn:E. intros Heq.
  assert (c' = with_runs us (ensureRegistered p rt c)) as -> by (by destruct x; injection Heq).
  eexists. split.
  - etrans; [exact Hst1|]. eapply admin_steps; [|apply rtc_refl].
    eapply (step_cancel_run _ (RID rt) runID). rewrite E1, E2, E3. exact E.
  - split_and!; cbn; done.
Qed.

Lemma subscribe_steps env p rt c t c' r :
  sim c t -> rts c !! p = Some rt -> ensure_hub env p rt c = (c', r) -> exists t', steps t t' /\ sim c' t'.
Proof.
  intros (E1 & E2 & E3) Hp. unfold ensure_hub. destruct (EnsureHub (hub_ok env) rt) as [rt' [hub|e]] eqn:E; intros [= <- <-].
  2: { exists t. split; [apply rtc_refl|done]. }
  eexists. split; [eapply admin_steps; [|apply rtc_refl]; eapply (step_ensure_hub _ p rt rt'); [by rewrite E2|exact E]|].
  split_and!; cbn; congruence.
Qed.

(** Everything a host or a client asks the service for. *)
Inductive request : Type :=
  | RCall (cmd : command) (sid client : string)
  | RStartSync (env : start_env) (sid : string)
  | RCancelSync (sid runID : string)
  | RSubscribe (env : start_env) (readable : bool) (sid : string) (afterSeq : Z)
  | RAcquire (sid client : string)
  | RRelease (sid client : string)
  | RReleaseClient (client : string)
  | RBind (client sid : string).

Definition serve (h : H) (q : request) (s : service) : service :=
  match q with
  | RCall cmd sid client => (call h cmd sid client s).1
  | RStartSync env sid => (StartRunSync hio h env sid s).1
  | RCancelSync sid runID => (CancelRunSync h sid runID s).1
  | RSubscribe env readable sid afterSeq => (SubscribeEvents hio h env readable sid afterSeq s).1
  | RAcquire sid client => (AcquireControl sid client s).2
  | RRelease sid client => ReleaseControl sid client s
  | RReleaseClient client => (ReleaseClient client s).2
  | RBind client sid => (BindSession_ client sid s).2
  end.

Definition request_ok (q : request) (c : core) : Prop :=
  match q with
  | RCall (CStart env _ _ _) _ _ | RStartSync env _ => start_ok env c
  | _ => True
  end.

Lemma behind_steps cmd p rt c t c' e :
  sim c t -> rts c !! p = Some rt -> request_ok (RCall cmd "" "") c -> behind cmd p rt c = (c', e) ->
  exists t', steps t t' /\ sim c' t'.
Proof.
  intros Hsim Hp Hok. destruct cmd as [env joined input requestID|runID|now id d]; cbn [behind].
  - destruct (submit_run _ _ _ _ _ _ _ _ c) as [c1 r] eqn:E. intros [= <- _]. by eapply submit_steps.
  - destruct (cancel_run p rt runID c) as [c1 r] eqn:E. intros [= <- _]. by eapply cancel_steps.
  - destruct (resolve_approval rt now id d c) as [c1 r] eqn:E. intros [= <- _]. exists t. split; [apply rtc_refl|].
    unfold resolve_approval in E. destruct (Owner _ _); [|by injection E as <- _].
    destruct (negb _); [by injection E as <- _|]. by destruct (Resolve _ _ _ _) as [a [x|]]; injection E as <- _.
Qed.

(** C22: Under the service the runs are the supervisor's. Whatever is asked of
    the service, it takes the session manager, the runtimes and the runs from one
    state of the supervisor to another that the supervisor reaches by its own
    steps; so every theorem about the supervisor's reachable states (one run per
    session, quotas, end records) holds at every moment under the service. *)
Theorem service_is_supervised h q s t :
  reachable Supervisor.initial Supervisor.step t -> sim (the_core s) t -> request_ok q (the_core s) ->
  exists t', reachable Supervisor.initial Supervisor.step t' /\ steps t t' /\ sim (the_core (serve h q s)) t'.
Proof.
  intros Ht Hsim Hok.
  assert (Hgoal : exists t', steps t t' /\ sim (the_core (serve h q s)) t').
  2: { destruct Hgoal as (t' & Hst & Hs). exists t'. split_and!; [by eapply reachable_rtc|done..]. }
  assert (Hstay : exists t', steps t t' /\ sim (the_core s) t') by (exists t; split; [apply rtc_refl|done]).
  destruct q as [cmd sid client|env sid|sid runID|env readable sid afterSeq|sid client|sid client|client|client sid]; cbn [serve].
  - destruct (call h cmd sid client s) as [s' e] eqn:E. pose proof (call_spec _ _ _ _ _ _ _ E) as Hs. cbn.
    destruct (route h sid (the_core s)) as [[p rt]|] eqn:Hr; [|by destruct Hs as [-> _]].
    destruct Hs as [_ Hs]. destruct (ControlLease.holds _ _ _); [|by destruct Hs as [-> _]].
    eapply behind_steps; [done|by eapply route_rt| |by symmetry]. by destruct cmd.
  - unfold StartRunSync. destruct (route h sid (the_core s)) as [[p rt]|] eqn:Hr; [|done].
    destruct (StartRun _ _ _ _) as [c [hd|e]] eqn:E; (eapply ensured_start_steps; [done|by eapply route_rt|done|exact E]).
  - unfold CancelRunSync. destruct (route h sid (the_core s)) as [[p rt]|] eqn:Hr; [|done].
    destruct (cancel_run _ _ _ _) as [c r] eqn:E. eapply cancel_steps; [done|by eapply route_rt|exact E].
  - unfold SubscribeEvents. destruct (route h sid (the_core s)) as [[p rt]|] eqn:Hr; [|done].
    destruct (ensure_hub _ _ _ _) as [c r] eqn:E.
    destruct (subscribe_steps _ _ _ _ _ _ _ Hsim (route_rt _ _ _ _ _ Hr) E) as (t' & Hst & Hs).
    exists t'. split; [done|]. destruct r as [[|]|]; try done. destruct (hubs c !! p) as [hub|]; [|done].
    by destruct (Subscribe _ _ _ _) as [hub' [[id replay]|e]].
  - unfold AcquireControl. by destruct (Acquire _ _ _).
  - done.
  - unfold ReleaseClient. by destruct (Unbind _ _).
  - unfold BindSession_. by destruct (Bind _ _ _).
Qed.
End props.

(** ** A host without persistence *)

Module Examples.
(** A journal of run states, oldest first. *)
#[local] Instance list_journal : RunStatusJournal (list (string * string)) := {|
  last_run_state id j := snd <$> find_last (fun x => String.eqb x.1 id) j;
  seq_latest _ := Some 0%Z;
|}.

Definition hio (_ : EventHub.EventRecord) : append_outcome := AppendOk.

(** One session, the current one, known as "current" and as "". *)
Definition host : plugin (list (string * string)) := mkPlugin (Some 0%nat) "" ∅.
Definition world : @core string :=
  mkCore (mkRegistry ∅ [] ∅) ∅
    (set_runtimes (NewSessionManager []) {["current" := 0%nat]})
    {[0%nat := NewSessionRuntime "current" (Some (mkSession false false))]} ∅ ∅ NewApprovalManager.
Definition env : start_env := mkEnv 0 "run-1" (Prelude.Err ErrRead) true.
Definition late : start_env := mkEnv 1 "run-2" (Prelude.Err ErrRead) true.
Definition nothing : Prelude.result submit_error RunHandle := Prelude.Err errFlightAborted.
Definition s0 : @service string := (AcquireControl "" "alice" (mkService ∅ ∅ world)).2.
Definition start_cmd (req : string) : command := CStart env nothing "hello" req.
Definition s1 : @service string := (call (fun x => x) hio host (start_cmd "q1") "" "alice" s0).1.

Lemma only_runtime p rt : rts world !! p = Some rt -> p = 0%nat /\ rt = NewSessionRuntime "current" (Some (mkSession false false)).
Proof. unfold world. cbn [rts]. intros Hp. apply lookup_singleton_Some in Hp as [<- <-]. done. Qed.

Lemma world_consistent : consistent (the_core s0).
Proof.
  split.
  - intros id p Hp. change (({["current" := 0%nat]} : gmap string nat) !! id = Some p) in Hp.
    apply lookup_singleton_Some in Hp as [<- <-]. by eexists.
  - intros p rt r Hp. apply only_runtime in Hp as [_ ->]. done.
Qed.

Lemma only_the_holder_steers_witness :
  elsewhere "current" (the_core s0) (the_core s1) /\ the_core s1 <> the_core s0 /\
  (call (fun x => x) hio host (start_cmd "q1") "current" "alice" s0).2 = Some (LeaseLost "current" "alice").
Proof.
  assert (H1 : call (fun x => x) hio host (start_cmd "q1") "" "alice" s0 = (s1, None)) by (by vm_compute).
  destruct (only_the_holder_steers (fun x => x) hio host (start_cmd "q1") "" "alice" s0 s1 None world_consistent eq_refl H1) as (_ & _ & Hr).
  assert (Hroute : route host "" (the_core s0) = Some (0%nat, NewSessionRuntime "current" (Some (mkSession false false)))) by (by vm_compute).
  rewrite Hroute in Hr. destruct Hr as (He & _). split_and!; [exact He| |by vm_compute].
  intros E. assert (runs (the_core s1) = ∅) by by rewrite E. by vm_compute in H.
Defined.

Lemma start_is_idempotent_witness :
  exists s2, Service_StartRun (fun x => x) hio host late nothing "" "alice" "hello" "q1" s1 = (s2, Ok ("run-1", RunQueued)) /\
    the_core s2 = the_core s1.
Proof.
  destruct (start_is_idempotent (fun x => x) hio host host env late nothing nothing "" "" "alice" "alice" "hello" "hello" "q1"
    s0 s1 s1 "run-1" RunQueued 0 (NewSessionRuntime "current" (Some (mkSession false false))) 0
    (set_active (Some 0%nat) (NewSessionRuntime "current" (Some (mkSession false false))))) as (s2 & r & Hs & Hc & Hsame & _);
    try (by vm_compute); try done.
  exists s2. split; [|done]. rewrite Hs. destruct (Hsame eq_refl) as (hd & Hid & ->).
  assert (handle_state hd (the_core s1) = RunQueued) as ->; [|done].
  unfold handle_state, run_of_handle. rewrite Hid. by vm_compute.
Defined.

(** Nothing has happened in the supervisor; its registration is two steps. *)
Definition idle : Supervisor.state :=
  Supervisor.mkState (mgr world) (rts world) ∅ ∅ [].

Lemma idle_reachable : reachable Supervisor.initial Supervisor.step idle.
Proof.
  apply (reachable_step _ _ (Supervisor.mkState (NewSessionManager []) (rts world) ∅ ∅ []));
    [apply (reachable_step _ _ (Supervisor.mkState (NewSessionManager []) ∅ ∅ ∅ [])); [apply reachable_init; exists []; by split_and!|]|].
  - apply by_admin. exact (step_new (Supervisor.mkState (NewSessionManager []) ∅ ∅ ∅ []) 0 "current" (Some (mkSession false false)) eq_refl).
  - apply by_admin. exact (step_register (Supervisor.mkState (NewSessionManager []) (rts world) ∅ ∅ []) 0
      (NewSessionRuntime "current" (Some (mkSession false false))) _ None eq_refl eq_refl).
Qed.

Lemma service_is_supervised_witness :
  exists t, reachable Supervisor.initial Supervisor.step t /\ sim (the_core s1) t.
Proof.
  destruct (service_is_supervised (fun x => x) hio host (RCall (start_cmd "q1") "" "alice") s0 idle idle_reachable) as (t & Ht & _ & Hs).
  - by split_and!.
  - split_and!; [reflexivity|intros q run Hq; change ((∅ : gmap nat AgentRun) !! q = Some run) in Hq; by rewrite lookup_empty in Hq|].
    intros p rt Hp. apply only_runtime in Hp as [_ ->]. reflexivity.
  - by exists t.
Defined.

(** The leases go by the name the client used, the session by where the name
    leads: under its two names the session has two holders at once, and the one
    cancels the run of the other, with no takeover. *)
Definition two_holders : @service string := (AcquireControl "current" "bob" s1).2.

Lemma two_names_two_holders :
  (AcquireControl "current" "bob" s1).1 = false /\
  (HoldControl "" "alice" two_holders).1 = true /\ (HoldControl "current" "bob" two_holders).1 = true /\
  (call (fun x => x) hio host (CCancel "run-1") "current" "bob" two_holders).2 = None /\
  (call (fun x => x) hio host (CResolve 0 "a" (mkAnswer "" DecisionApprove "" "")) "" "alice" two_holders).2 = Some (ApprovalUnknown "a").
Proof. by vm_compute. Qed.
End Examples.
