(* ===== verification/GoPath.v ===== *)
(** * Go's strings.Split, strings.Join, filepath.Clean and filepath.Join

    As far as the program uses them: a separator of one byte, and Unix paths. *)

From S2P Require Import Prelude GoString.
#[local] Open Scope string_scope.
#[local] Open Scope list_scope.

(** [strings.Split(s, string(c))]: never the empty list. *)
Fixpoint Split (c : ascii) (s : string) : list string :=
  match s with
  | EmptyString => [""]
  | String a s' =>
      if Ascii.eqb a c then "" :: Split c s'
      else match Split c s' with
      | w :: ws => String a w :: ws
      | [] => [String a ""]
      end
  end.

(** [strings.Join(ws, sep)]. *)
Definition Join (sep : string) (ws : list string) : string :=
  match ws with
  | [] => ""
  | w :: ws' => foldl (fun acc x => acc +:+ sep +:+ x) w ws'
  end.

(** One element of a path on the stack of [Clean] (last element first). *)
Definition clean_step (rooted : bool) (stack : list string) (seg : string) : list string :=
  if String.eqb seg "" || String.eqb seg "." then stack
  else if String.eqb seg ".." then
    match stack with
    | top :: below => if String.eqb top ".." then seg :: stack else below
    | [] => if rooted then [] else [seg]
    end
  else seg :: stack.

Definition Clean (path : string) : string :=
  let rooted := HasPrefix path "/" in
  let segs := rev (foldl (clean_step rooted) [] (Split slash path)) in
  if rooted then "/" +:+ Join "/" segs
  else match segs with [] => "." | _ => Join "/" segs end.

(** [filepath.Join]: the empty elements are left out. *)
Definition JoinPath (elems : list string) : string :=
  match List.filter (fun e => negb (String.eqb e "")) elems with
  | [] => ""
  | es => Clean (Join "/" es)
  end.

Lemma Split_nonempty c s : Split c s <> [].
Proof. destruct s as [|a s]; cbn; [done|]. destruct (Ascii.eqb a c); [done|]. by destruct (Split c s). Qed.

(** A piece of [Split] has no separator. *)
Fixpoint has_char (c : ascii) (s : string) : bool :=
  match s with EmptyString => false | String a s' => Ascii.eqb a c || has_char c s' end.

Lemma Split_pieces c s : Forall (fun w => has_char c w = false) (Split c s).
Proof.
  induction s as [|a s IH]; cbn; [by repeat constructor|].
  destruct (Ascii.eqb a c) eqn:E; [by constructor|].
  destruct (Split c s) as [|w ws]; [constructor; [cbn; by rewrite E|constructor]|].
  apply Forall_cons in IH as [Hw Hws]. constructor; [cbn; by rewrite E|done].
Qed.

Example Clean_samples :
  Clean "/a/./b//../c/" = "/a/c" /\ Clean "" = "." /\ Clean "../../x" = "../../x" /\ Clean "/.." = "/"
  /\ JoinPath ["/r/"; ".goworker"; "dispatch"; "t"] = "/r/.goworker/dispatch/t".
Proof. by vm_compute. Qed.

(** [filepath.Dir]: up to the last slash, cleaned. *)
Fixpoint upto_slash (s : string) : string :=
  match s with
  | EmptyString => ""
  | String a s' =>
      if has_char slash s' then String a (upto_slash s')
      else if Ascii.eqb a slash then String a "" else ""
  end.

Definition Dir (path : string) : string := Clean (upto_slash path).
