(* ===== verification/DispatchOrch.v ===== *)
(** * ai-dispatch/orchestrator.go and the dispatcher plugin: running a task

    [Orchestrator.Run] as a thread over the shared task store, with what git and
    the worker do as labels of its steps; [launch] and [dispatchSync], which
    register it; and the decisions of the plugin (approve, complete, reject,
    cancel) as the one thread that holds [transitionMu]. A task is a value here:
    the pointer a run holds is its own copy, and the store keeps copies. A
    command of git started under a cancelled context does not run. *)

From S2P Require Import Prelude GoString GoPath JsonLines DispatchTask DispatchStore.
Import Task Store.
#[local] Open Scope string_scope.
#[local] Open Scope list_scope.

(** ** orchestrator.go: a run *)

(** Where [Run] saves: the queued snapshot, the prepared task, a new status, the
    task for review; and at an end, with whether the workspace is cleaned up. *)
Inductive point : Type :=
  | PQueued
  | PPrepared
  | PDispatching
  | PWorking
  | PReview
  | PFailed (cleanup : bool)
  | PCancelled.

Inductive run_result : Type :=
  | RunOk
  | RunErr (cause : string)
  | RunSkipped.

(** [AtGet], [AtSave]: the two halves of [save], with what the store had.
    [AtFail]: [fail] is called. *)
Inductive pc : Type :=
  | AtCheck
  | AtStart
  | AtGet (n : point) (cause : string)
  | AtSave (n : point) (cause : string) (old : option Task)
  | AtPrepare
  | AtVerify
  | AtWorker
  | AtSession
  | AtPrompt
  | AtCollect
  | AtFail (cause : string)
  | AtCancelInto (cause : string)
  | AtCleanup (cause : string)
  | AtEnd (r : run_result)
  | Ended (r : run_result).

Record run := mkRun {
  r_task : Task;
  r_resuming : bool;
  r_cancelled : bool;
  r_pc : pc;
}.

Definition at_pc (c : pc) (r : run) : run := mkRun (r_task r) (r_resuming r) (r_cancelled r) c.
Definition with_task (t : Task) (r : run) : run := mkRun t (r_resuming r) (r_cancelled r) (r_pc r).
Definition cancel_ctx (r : run) : run := mkRun (r_task r) (r_resuming r) true (r_pc r).
Definition r_id (r : run) : string := ID (r_task r).

Definition set_Workspace (base tree branch : string) (t : Task) : Task :=
  mkTask (ID t) (Source t) (TKind t) (Prompt t) (Repo t) (Worker t) (TStatus t) base tree
    branch (WorkerSession t) (Commits t) (TError t) (CreatedAt t) (UpdatedAt t) (ExpiresAt t).
Definition set_Repo (repo : string) (t : Task) : Task :=
  mkTask (ID t) (Source t) (TKind t) (Prompt t) repo (Worker t) (TStatus t) (BaseCommit t) (Worktree t)
    (Branch t) (WorkerSession t) (Commits t) (TError t) (CreatedAt t) (UpdatedAt t) (ExpiresAt t).
Definition set_Session (sid : string) (t : Task) : Task :=
  mkTask (ID t) (Source t) (TKind t) (Prompt t) (Repo t) (Worker t) (TStatus t) (BaseCommit t) (Worktree t)
    (Branch t) sid (Commits t) (TError t) (CreatedAt t) (UpdatedAt t) (ExpiresAt t).
Definition set_Commits (cs : list string) (t : Task) : Task :=
  mkTask (ID t) (Source t) (TKind t) (Prompt t) (Repo t) (Worker t) (TStatus t) (BaseCommit t) (Worktree t)
    (Branch t) (WorkerSession t) cs (TError t) (CreatedAt t) (UpdatedAt t) (ExpiresAt t).

(** [Run] continues a task that was being worked on. *)
Definition resuming (t : Task) : bool := String.eqb (TStatus t) StatusDispatching || String.eqb (TStatus t) StatusWorking.

Definition start_run (r : run) : run :=
  if resuming (r_task r) then mkRun (r_task r) true (r_cancelled r) AtVerify
  else mkRun (r_task r) false (r_cancelled r) (AtGet PQueued "").

(** ** git

    [runGit]: the output of one command, [None] an error of it; under a context
    that is over ([done_]) the command does not start. *)
Definition git_output : Type := option string.

Definition runGit (done_ : bool) (out : git_output) : git_output := if done_ then None else out.

Definition detectGitWith (out : git_output) : bool :=
  match out with Some o => String.eqb (TrimSpace o) "true" | None => false end.

Definition headCommitWith (out : git_output) : option string := TrimSpace <$> out.

Definition commit_lines (out : string) : list string :=
  List.filter (fun l => negb (String.eqb l "")) (TrimSpace <$> Split NL (TrimSpace out)).

Definition collectCommitsWith (out : git_output) : option (list string) := commit_lines <$> out.

(** [addWorktreeWith]: the worktrees, and whether it succeeded. *)
Definition addWorktreeWith (out : git_output) (path : string) (trees : gset string) : gset string * bool :=
  match out with Some _ => ({[path]} ∪ trees, true) | None => (trees, false) end.

(** [removeWorktreeWith]: the branch is not part of the model. *)
Definition removeWorktreeWith (out : git_output) (path : string) (trees : gset string) : gset string :=
  match out with Some _ => trees ∖ {[path]} | None => trees end.

(** What [prepare] meets: its three git commands and the home directory. *)
Record prepare_env := mkPrepareEnv {
  e_detect : git_output;
  e_head : git_output;
  e_add : git_output;
  e_home : option string;
}.

Definition worktree_path (t : Task) : string := JoinPath [Repo t; ".goworker"; "dispatch"; ID t].

(** The task, the worktrees, and the error. *)
Definition prepare (done_ : bool) (env : prepare_env) (t : Task) (trees : gset string)
  : Task * gset string * option string :=
  if String.eqb (TKind t) KindCode then
    if String.eqb (Repo t) "" then (t, trees, Some "code task requires repo")
    else if negb (detectGitWith (runGit done_ (e_detect env))) then (t, trees, Some "repo is not a git work tree")
    else match headCommitWith (runGit done_ (e_head env)) with
    | None => (t, trees, Some "resolve HEAD")
    | Some base =>
        let t := set_Workspace base (worktree_path t) ("dispatch/" +:+ ID t) t in
        let '(trees, ok) := addWorktreeWith (runGit done_ (e_add env)) (Worktree t) trees in
        (t, trees, if ok then None else Some "add worktree")
    end
  else if String.eqb (TKind t) KindGeneral then
    if negb (String.eqb (Repo t) "") then (t, trees, None)
    else match e_home env with
    | Some home => (set_Repo home t, trees, None)
    | None => (t, trees, Some "general task without repo requires home dir")
    end
  else (t, trees, Some "invalid kind").

Definition verifyWorkspace (done_ : bool) (out : git_output) (t : Task) : option string :=
  if negb (String.eqb (TKind t) KindCode) || String.eqb (Worktree t) "" then None
  else if detectGitWith (runGit done_ out) then None else Some "worktree is gone or not a git work tree".

(** What the worker does when a session is asked for. *)
Record session_env := mkSessionEnv {
  can_load : bool;
  load_ok : bool;
  new_session : option string;
}.

Definition establishSession (env : session_env) (resuming : bool) (t : Task) : Task * option string :=
  if resuming && negb (String.eqb (WorkerSession t) "") && can_load env then
    if load_ok env then (t, None)
    else match new_session env with
    | Some sid => (set_Session sid t, None)
    | None => (t, Some "new session after failed load")
    end
  else match new_session env with
  | Some sid => (set_Session sid t, None)
  | None => (t, Some "new session")
  end.

(** [Transition] in the course of [Run]: the next program point. *)
Definition advance_to (now : Time) (to : Status) (n : point) (r : run) : run :=
  match Transition now to (r_task r) with
  | Ok t => at_pc (AtGet n "") (with_task t r)
  | Err _ => at_pc (AtFail "invalid transition") r
  end.

(** Behind the session: working, unless it already is. *)
Definition to_working (now : Time) (r : run) : run :=
  if String.eqb (TStatus (r_task r)) StatusWorking then at_pc (AtGet PWorking "") r
  else advance_to now StatusWorking PWorking r.

(** Behind a successful [save]. *)
Definition saved (now : Time) (n : point) (cause : string) (r : run) : run :=
  match n with
  | PQueued => at_pc AtPrepare r
  | PPrepared => advance_to now StatusDispatching PDispatching r
  | PDispatching => at_pc AtWorker r
  | PWorking => at_pc AtPrompt r
  | PReview => at_pc (AtEnd RunOk) r
  | PFailed true | PCancelled => at_pc (AtCleanup cause) r
  | PFailed false => at_pc (AtEnd (RunErr cause)) r
  end.

(** Behind a failed one: the queued snapshot ends the run, an end is an end, any
    other is a failure. *)
Definition unsaved (n : point) (cause : string) (r : run) : run :=
  match n with
  | PQueued => at_pc (AtEnd (RunErr "save")) r
  | PFailed true | PCancelled => at_pc (AtCleanup cause) r
  | PFailed false => at_pc (AtEnd (RunErr cause)) r
  | _ => at_pc (AtFail "save") r
  end.

(** [fail] and [cancelInto] before their save. *)
Definition fail (now : Time) (cause : string) (r : run) : run :=
  match FailInto now cause (r_task r) with
  | Ok t => at_pc (AtGet (PFailed true) cause) (with_task t r)
  | Err _ => at_pc (AtGet (PFailed false) cause) r
  end.

Definition cancelInto (now : Time) (cause : string) (r : run) : run :=
  match Transition now StatusCancelled (r_task r) with
  | Ok t => at_pc (AtGet PCancelled cause) (with_task t r)
  | Err _ =>
      match FailInto now cause (r_task r) with
      | Ok t => at_pc (AtGet PCancelled cause) (with_task t r)
      | Err _ => at_pc (AtGet PCancelled cause) r
      end
  end.

(** [cleanupCodeWorkspace], with the context of the run. *)
Definition cleanupCodeWorkspace (done_ : bool) (out : git_output) (t : Task) (trees : gset string) : gset string :=
  if negb (String.eqb (TKind t) KindCode) || String.eqb (Worktree t) "" then trees
  else removeWorktreeWith (runGit done_ out) (Worktree t) trees.

(** ** One step of [Run]

    What comes from outside at a step: nothing, the outcome of a write to the
    store file, the output of git, the worker. *)
Inductive input : Type :=
  | ITick
  | IWrite (w : write_result)
  | IPrepare (env : prepare_env)
  | IGit (out : git_output)
  | IWorker (err : option string)
  | ISession (env : session_env)
  | IPrompt (err : option string).

Definition after_worker (n : pc) (err : option string) (r : run) : run :=
  match err with None => at_pc n r | Some cause => at_pc (AtFail cause) r end.

(** [save] behind its [Get]: [Add] or [Update], with the task as stamped; and
    the change of status it tells the listener. *)
Definition change : Type := string * Status * Status.

Definition told (id : string) (old : option Task) (to : Status) : list change :=
  let from := match old with Some o => TStatus o | None => "" end in
  if String.eqb from to then [] else [(id, from, to)].

Section run.
Context `{JsonCodec Task}.

Definition put (now : Time) (w : write_result) (old : option Task) (t : Task) (s : Store)
  : Task * Store * option store_error :=
  match old with Some _ => Update now w t s | None => Add now w t s end.

(** The run, the store, the worktrees, what is told. [None]: the input does not
    belong to where the run is. *)
Definition run_step (now : Time) (i : input) (r : run) (s : Store) (trees : gset string)
  : option (run * Store * gset string * list change) :=
  let quiet r := Some (r, s, trees, []) in
  match r_pc r, i with
  | AtCheck, ITick =>
      match Get (r_id r) s with
      | Some fresh =>
          if String.eqb (TStatus fresh) (TStatus (r_task r)) then quiet (at_pc AtStart r)
          else quiet (at_pc (AtEnd RunSkipped) r)
      | None => quiet (at_pc AtStart r)
      end
  | AtStart, ITick => quiet (start_run r)
  | AtGet n cause, ITick => quiet (at_pc (AtSave n cause (Get (r_id r) s)) r)
  | AtSave n cause old, IWrite w =>
      let '(t, s', err) := put now w old (r_task r) s in
      let r := with_task t r in
      match err with
      | None => Some (saved now n cause r, s', trees, told (ID t) old (TStatus t))
      | Some _ => Some (unsaved n cause r, s', trees, [])
      end
  | AtPrepare, IPrepare env =>
      let '(t, trees', err) := prepare (r_cancelled r) env (r_task r) trees in
      Some (after_worker (AtGet PPrepared "") err (with_task t r), s, trees', [])
  | AtVerify, IGit out =>
      quiet (after_worker AtWorker (verifyWorkspace (r_cancelled r) out (r_task r)) r)
  | AtWorker, IWorker err => quiet (after_worker AtSession err r)
  | AtSession, ISession env =>
      let '(t, err) := establishSession env (r_resuming r) (r_task r) in
      match err with
      | None => quiet (to_working now (with_task t r))
      | Some cause => quiet (at_pc (AtFail cause) r)
      end
  | AtPrompt, IPrompt (Some err) =>
      quiet (at_pc (if r_cancelled r then AtCancelInto "context canceled" else AtFail err) r)
  | AtPrompt, IPrompt None =>
      if String.eqb (TKind (r_task r)) KindCode then quiet (at_pc AtCollect r)
      else quiet (advance_to now StatusAwaitingReview PReview r)
  | AtCollect, IGit out =>
      match collectCommitsWith (runGit (r_cancelled r) out) with
      | Some cs => quiet (advance_to now StatusAwaitingReview PReview (with_task (set_Commits cs (r_task r)) r))
      | None => quiet (at_pc (AtFail "collect commits") r)
      end
  | AtFail cause, ITick => quiet (fail now cause r)
  | AtCancelInto cause, ITick => quiet (cancelInto now cause r)
  | AtCleanup cause, IGit out =>
      Some (at_pc (AtEnd (RunErr cause)) r, s, cleanupCodeWorkspace (r_cancelled r) out (r_task r) trees, [])
  | _, _ => None
  end.
End run.
