(* ===== verification/Dispatcher.v ===== *)
(** * The dispatcher plugin: runs and decisions over one task store

    daemon/internal/plugins/dispatcher/plugin.go. The runs of ai-dispatch are
    threads, each under the id of its task; [p.running] holds those that have not
    been taken out; a decision (approve, complete, reject, cancel) is the thread
    that holds [transitionMu]. Submitting a task is two steps, the test of the
    capacity and the launch, since the lock is released between them. The events
    of the system are what [notifyStatus] was told. *)

From S2P Require Import Prelude GoString GoPath JsonLines DispatchTask DispatchStore DispatchOrch.
Import Task Store.
#[local] Open Scope string_scope.
#[local] Open Scope list_scope.

(** ** Decisions *)

Inductive verb : Type := Approve | Complete | Reject | Cancel.

(** What the operator is told. *)
Inductive verdict : Type :=
  | VNotFound
  | VStatus (s : Status)
  | VMergeFailed
  | VError
  | VOk
  | VNoNeed (s : Status)
  | VCancelling.

(** What follows [updateTask]: nothing, the removal of the worktree, the rest of
    [finishCodeTask]. *)
Inductive after : Type := ADone | AClean | AFinish.

(** [DGet], [DWrite]: [updateTask] before and behind its [Get]. *)
Inductive dpc : Type :=
  | DStart
  | DMerge (t : Task)
  | DRunning (t : Task)
  | DRecheck (t : Task)
  | DGet (t : Task) (a : after)
  | DWrite (t : Task) (old : option Task) (a : after)
  | DRemove (t : Task) (a : after)
  | DEnd (v : verdict).

Record decision := mkDecision {
  d_verb : verb;
  d_id : string;
  d_pc : dpc;
}.

Definition goto (c : dpc) (d : decision) : decision := mkDecision (d_verb d) (d_id d) c.

Definition transition_then (now : Time) (to : Status) (t : Task) (a : after) : dpc :=
  match Transition now to t with Ok t => DGet t a | Err _ => DEnd VError end.

Definition finishCodeTask (now : Time) (t : Task) : dpc := transition_then now StatusMerging t AFinish.

(** The handlers up to their first effect, with what [store.Get] returned. *)
Definition doApprove (now : Time) (got : option Task) : dpc :=
  match got with
  | None => DEnd VNotFound
  | Some t =>
      if negb (String.eqb (TStatus t) StatusAwaitingReview) then DEnd (VStatus (TStatus t))
      else if String.eqb (TKind t) KindGeneral then transition_then now StatusDone t ADone
      else DMerge t
  end.

Definition doComplete (now : Time) (got : option Task) : dpc :=
  match got with
  | None => DEnd VNotFound
  | Some t =>
      if negb (String.eqb (TKind t) KindCode) then DEnd VNotFound
      else if negb (String.eqb (TStatus t) StatusAwaitingReview) then DEnd (VStatus (TStatus t))
      else finishCodeTask now t
  end.

Definition doReject (now : Time) (got : option Task) : dpc :=
  match got with
  | None => DEnd VNotFound
  | Some t =>
      if negb (String.eqb (TStatus t) StatusAwaitingReview) then DEnd (VStatus (TStatus t))
      else transition_then now StatusRejected t AClean
  end.

Definition doCancel (got : option Task) : dpc :=
  match got with
  | None => DEnd VNotFound
  | Some t => if Terminal (TStatus t) then DEnd (VStatus (TStatus t)) else DRunning t
  end.

Definition begin (now : Time) (v : verb) (got : option Task) : dpc :=
  match v with
  | Approve => doApprove now got
  | Complete => doComplete now got
  | Reject => doReject now got
  | Cancel => doCancel got
  end.

(** Behind a successful [updateTask]. *)
Definition updated (t : Task) (a : after) : dpc :=
  match a with
  | ADone => DEnd VOk
  | AClean =>
      if String.eqb (TKind t) KindCode && negb (String.eqb (Worktree t) "") then DRemove t ADone else DEnd VOk
  | AFinish => DRemove t AFinish
  end.

(** ** The system *)

Section dispatcher.
Context `{JsonCodec Task}.

Record world := mkWorld {
  w_store : Store;
  w_runs : gmap string run;
  w_running : gset string;
  w_trees : gset string;
  w_lock : option decision;
  w_admitted : nat;
  w_events : list change;
  w_answers : list (verb * string * verdict);
}.

Definition set_run (id : string) (r : run) (w : world) : world :=
  mkWorld (w_store w) (<[id := r]> (w_runs w)) (w_running w) (w_trees w) (w_lock w) (w_admitted w)
    (w_events w) (w_answers w).
Definition set_lock (d : option decision) (w : world) : world :=
  mkWorld (w_store w) (w_runs w) (w_running w) (w_trees w) d (w_admitted w) (w_events w) (w_answers w).
Definition set_admitted (n : nat) (w : world) : world :=
  mkWorld (w_store w) (w_runs w) (w_running w) (w_trees w) (w_lock w) n (w_events w) (w_answers w).
Definition effects (s : Store) (trees : gset string) (told : list change) (w : world) : world :=
  mkWorld s (w_runs w) (w_running w) trees (w_lock w) (w_admitted w) (w_events w ++ told) (w_answers w).

(** [p.running[t.ID] = cancel] and the goroutine, or the caller of
    [dispatchSync], which does not look at the store first. *)
Definition register (c : pc) (t : Task) (w : world) : world :=
  mkWorld (w_store w) (<[ID t := mkRun t false false c]> (w_runs w)) ({[ID t]} ∪ w_running w) (w_trees w)
    (w_lock w) (w_admitted w) (w_events w) (w_answers w).

Definition launch (t : Task) (w : world) : world := register AtCheck t w.
Definition dispatchSync (t : Task) (w : world) : world := register AtStart t w.

(** The deferred [delete(p.running, t.ID)]. *)
Definition deregister (id : string) (r : run) (res : run_result) (w : world) : world :=
  mkWorld (w_store w) (<[id := at_pc (Ended res) r]> (w_runs w)) (w_running w ∖ {[id]}) (w_trees w)
    (w_lock w) (w_admitted w) (w_events w) (w_answers w).

(** [atCapacity], and the same test in [addTask]. *)
Definition orOne (n : Z) : Z := if (n <=? 0)%Z then 1 else n.

Definition atCapacity (maxParallel : Z) (w : world) : bool :=
  (orOne maxParallel <=? Z.of_nat (size (w_running w)))%Z.

(** [newTaskFromIngress] and the task of [addTask]: [git]: the directory is in a
    work tree. *)
Definition newTask (source : string) (id : string) (general git : bool) (cwd worker prompt : string) (now : Time) : Task :=
  mkTask id source (if general || negb git then KindGeneral else KindCode) prompt cwd worker StatusQueued
    "" "" "" "" [] "" now now 0.

Definition newTaskFromIngress (id : string) (git : bool) (cwd worker prompt : string) (now : Time) : Task :=
  newTask "acp" id false git cwd worker prompt now.

(** [resumeInterrupted]. *)
Definition skipped (t : Task) : bool :=
  Terminal (TStatus t) || String.eqb (TStatus t) StatusAwaitingReview || String.eqb (TStatus t) StatusMerging.

Definition resumeInterrupted (w : world) : world :=
  foldl (fun w t => if skipped t then w else launch t w) w (default [] (List (w_store w))).

(** [Init] on the file found at the start of the daemon. *)
Definition Init (content : option bytes) (trees : gset string) : option world :=
  match Open content with
  | Ok s => Some (resumeInterrupted (mkWorld s ∅ ∅ trees None 0 [] []))
  | Err _ => None
  end.

(** One step of the decision that holds the lock. *)
Definition decide_step (now : Time) (i : input) (d : decision) (w : world) : option world :=
  let next c := Some (set_lock (Some (goto c d)) w) in
  match d_pc d, i with
  | DStart, ITick => next (begin now (d_verb d) (Get (d_id d) (w_store w)))
  | DMerge t, IGit out => next (match out with Some _ => finishCodeTask now t | None => DEnd VMergeFailed end)
  | DRunning t, ITick =>
      if bool_decide (d_id d ∈ w_running w) then
        let w := match w_runs w !! d_id d with Some r => set_run (d_id d) (cancel_ctx r) w | None => w end in
        Some (set_lock (Some (goto (DRecheck t) d)) w)
      else next (transition_then now StatusCancelled t AClean)
  | DRecheck t, ITick =>
      next (match Get (d_id d) (w_store w) with
      | Some fresh => DEnd (if String.eqb (TStatus fresh) (TStatus t) then VCancelling else VNoNeed (TStatus fresh))
      | None => DEnd VCancelling
      end)
  | DGet t a, ITick => next (DWrite t (Get (ID t) (w_store w)) a)
  | DWrite t old a, IWrite wr =>
      let '(t, s', err) := Update now wr t (w_store w) in
      match err with
      | None =>
          Some (set_lock (Some (goto (updated t a) d)) (effects s' (w_trees w) (told (ID t) old (TStatus t)) w))
      | Some _ => Some (set_lock (Some (goto (DEnd VError) d)) (effects s' (w_trees w) [] w))
      end
  | DRemove t a, IGit out =>
      let w := effects (w_store w) (removeWorktreeWith out (Worktree t) (w_trees w)) [] w in
      match a with
      | AFinish => Some (set_lock (Some (goto (transition_then now StatusDone t ADone) d)) w)
      | _ => Some (set_lock (Some (goto (DEnd VOk) d)) w)
      end
  | _, _ => None
  end.

Definition answer (d : decision) (v : verdict) (w : world) : world :=
  mkWorld (w_store w) (w_runs w) (w_running w) (w_trees w) None (w_admitted w) (w_events w)
    (w_answers w ++ [(d_verb d, d_id d, v)]).

Section steps.
Context (maxParallel : Z) (writes : write_result -> Prop).

(** The writes of a step are among [writes]. *)
Definition allowed (i : input) : Prop := match i with IWrite w => writes w | _ => True end.

(** [step_interrupt]: [Stop], or the end of the connection of a synchronous run.
    [step_submit]: [NewID] is an id nobody has. *)
Inductive step (w : world) : world -> Prop :=
  | step_run id r now i r' s' trees' told' :
      w_runs w !! id = Some r -> allowed i ->
      run_step now i r (w_store w) (w_trees w) = Some (r', s', trees', told') ->
      step w (set_run id r' (effects s' trees' told' w))
  | step_exit id r res :
      w_runs w !! id = Some r -> r_pc r = AtEnd res -> step w (deregister id r res w)
  | step_interrupt id r :
      w_runs w !! id = Some r -> step w (set_run id (cancel_ctx r) w)
  | step_admit :
      atCapacity maxParallel w = false -> step w (set_admitted (S (w_admitted w)) w)
  | step_submit n c source id general git cwd worker prompt now :
      w_admitted w = S n -> c = AtCheck \/ c = AtStart ->
      w_runs w !! id = None -> Get id (w_store w) = None -> id <> "" ->
      step w (register c (newTask source id general git cwd worker prompt now) (set_admitted n w))
  | step_lock v id :
      w_lock w = None -> step w (set_lock (Some (mkDecision v id DStart)) w)
  | step_decide d now i w' :
      w_lock w = Some d -> allowed i -> decide_step now i d w = Some w' -> step w w'
  | step_unlock d v :
      w_lock w = Some d -> d_pc d = DEnd v -> step w (answer d v w).

Definition init (w : world) : Prop := exists content trees, Init content trees = Some w.
End steps.

Definition status_of (w : world) (id : string) : option Status := TStatus <$> Get id (w_store w).
End dispatcher.
