(* ===== verification/DispatcherProps.v ===== *)
(** * The dispatcher plugin: theorems

    Decisions are final and follow a review, the answers to the operator are
    what the store holds, no task is left behind, a run ends; and what a
    cancelled run leaves on the disk. *)

From S2P Require Import Prelude GoString GoPath JsonLines DispatchTask DispatchStore DispatchOrch Dispatcher.
Import Task Store.
#[local] Open Scope string_scope.
#[local] Open Scope list_scope.

(** ** Statuses *)

(** [decided]: nobody changes it; [settled]: the run of the task is over. *)
Definition decided (s : Status) : Prop := s = StatusDone \/ s = StatusRejected.
Definition settled (s : Status) : Prop := s = StatusAwaitingReview \/ s = StatusMerging \/ decided s.

#[local] Instance decided_dec s : Decision (decided s).
Proof. unfold decided. apply _. Defined.
#[local] Instance settled_dec s : Decision (settled s).
Proof. unfold settled. apply _. Defined.

Lemma unsettled_to s to : ~ settled s -> CanTransition s to = true -> to <> StatusAwaitingReview -> ~ settled to.
Proof. unfold settled, decided. intros Hs. successors; naive_solver. Qed.

(** ** The store *)

Section store.
Context `{JsonCodec Task}.

Lemma appendLocked_tasks w t s s' e :
  appendLocked w t s = (s', e) ->
  tasks s' = match e with None => <[ID t := t]> (tasks s) | Some _ => tasks s end.
Proof.
  destruct e as [e|]; intros E.
  - by destruct (appendLocked_err _ _ _ _ _ E) as (-> & _).
  - by destruct (appendLocked_ok _ _ _ _ E) as (? & _ & _ & ->).
Qed.

(** What [Add] and [Update] leave alone of the task. *)
Definition stamped (t t' : Task) : Prop :=
  ID t' = ID t /\ TStatus t' = TStatus t /\ TKind t' = TKind t /\ Worktree t' = Worktree t.

Lemma Update_tasks now w t s t' s' e :
  Update now w t s = (t', s', e) ->
  stamped t t' /\ tasks s' = match e with None => <[ID t := t']> (tasks s) | Some _ => tasks s end.
Proof.
  unfold Update. case_decide.
  - destruct (appendLocked _ _ _) as [s1 e1] eqn:E. intros [= <- <- <-]. split; [done|].
    by apply appendLocked_tasks in E.
  - intros [= <- <- <-]. done.
Qed.

Lemma Add_tasks now w t s t' s' e :
  Add now w t s = (t', s', e) ->
  stamped t t' /\ tasks s' = match e with None => <[ID t := t']> (tasks s) | Some _ => tasks s end.
Proof.
  unfold Add. destruct (String.eqb (ID t) ""); [by intros [= <- <- <-]|].
  destruct (decide _); [by intros [= <- <- <-]|].
  destruct (negb (String.eqb (TStatus t) _)); [by intros [= <- <- <-]|].
  destruct (negb (ValidKind _)); [by intros [= <- <- <-]|].
  cbv zeta. destruct (appendLocked _ _ _) as [s1 e1] eqn:E. intros [= <- <- <-].
  match type of E with appendLocked _ ?u _ = _ => assert (Hs : stamped t u) by (unfold stamped; by repeat case_match) end.
  split; [done|]. apply appendLocked_tasks in E. by rewrite (proj1 Hs) in E.
Qed.

Lemma put_tasks now w old t s t' s' e :
  put now w old t s = (t', s', e) ->
  stamped t t' /\ tasks s' = match e with None => <[ID t := t']> (tasks s) | Some _ => tasks s end.
Proof. unfold put. destruct old; [apply Update_tasks|apply Add_tasks]. Qed.
End store.

(** ** A run *)

Definition ended (c : pc) : bool := match c with Ended _ => true | _ => false end.
Definition over (c : pc) : bool := match c with AtEnd _ | Ended _ => true | _ => false end.

(** Whether the run was skipped by the guard of [launch]. *)
Definition skips (c : pc) : bool :=
  match c with AtEnd RunSkipped | Ended RunSkipped => true | _ => false end.

(** Where a step of [run_step] leads. *)
Definition inside (c : pc) : bool := match c with AtCheck | Ended _ => false | _ => true end.

(** The status of the task of a run that may still write. *)
Definition run_ok (r : run) : Prop :=
  match r_pc r with
  | AtGet PReview _ | AtSave PReview _ _ | AtFail _ => TStatus (r_task r) = StatusAwaitingReview \/ ~ settled (TStatus (r_task r))
  | AtEnd _ | Ended _ => True
  | _ => ~ settled (TStatus (r_task r))
  end.

Lemma prepare_task done_ env t trees t' trees' e :
  prepare done_ env t trees = (t', trees', e) -> ID t' = ID t /\ TStatus t' = TStatus t /\ TKind t' = TKind t.
Proof. unfold prepare. intros. repeat case_match; simplify_eq; done. Qed.

Lemma establish_task env b t t' e :
  establishSession env b t = (t', e) -> ID t' = ID t /\ TStatus t' = TStatus t /\ TKind t' = TKind t.
Proof. unfold establishSession. intros. repeat case_match; simplify_eq; done. Qed.

Lemma FailInto_status now reason t t' :
  FailInto now reason t = Ok t' ->
  ID t' = ID t /\ TKind t' = TKind t
  /\ ((Terminal (TStatus t) = true /\ TStatus t' = TStatus t)
      \/ (CanTransition (TStatus t) StatusFailed = true /\ TStatus t' = StatusFailed)).
Proof.
  unfold FailInto. destruct (Terminal (TStatus t)) eqn:Ht; cbn.
  - intros [= <-]. cbn. auto.
  - destruct (Transition now StatusFailed t) as [u|] eqn:E; cbn; [|done]. intros [= <-]. cbn.
    apply Transition_ok in E as (_ & Hc & ->). cbn. auto.
Qed.

(** Where the run of a step stands, and what it did to the store: nothing, or
    one write of its task. *)
Section run.
Context `{JsonCodec Task}.

(** A run that moves without a write: same task but for its status, same context. *)
Record moved (r r' : run) : Prop := {
  mv_id : r_id r' = r_id r;
  mv_cancelled : r_cancelled r' = r_cancelled r;
  mv_inside : inside (r_pc r') = true;
  mv_ok : run_ok r -> run_ok r';
}.

Lemma moved_pc c r :
  inside c = true -> (run_ok r -> run_ok (at_pc c r)) -> moved r (at_pc c r).
Proof. by split. Qed.

Lemma advance_moved now to n t r :
  ID t = r_id r -> (run_ok r -> ~ settled (TStatus t)) ->
  (to = StatusAwaitingReview -> n = PReview) -> over (r_pc r) = false ->
  moved r (advance_to now to n (with_task t r)).
Proof.
  intros Hid Hs Hn Ho. unfold advance_to, Transition. cbn.
  destruct (Terminal (TStatus t)) eqn:Ht; cbn; [split; cbn; try done; intros Hr; unfold run_ok; cbn; auto|].
  destruct (CanTransition (TStatus t) to) eqn:Hc; cbn; [|split; cbn; try done; intros Hr; unfold run_ok; cbn; auto].
  split; cbn; try done. intros Hr. specialize (Hs Hr). unfold run_ok. cbn.
  destruct (decide (to = StatusAwaitingReview)) as [E|E].
  - rewrite (Hn E). auto.
  - pose proof (unsettled_to _ _ Hs Hc E). destruct n; auto.
Qed.

Lemma run_ok_fail r : run_ok r -> over (r_pc r) = false ->
  TStatus (r_task r) = StatusAwaitingReview \/ ~ settled (TStatus (r_task r)).
Proof. unfold run_ok. intros H1 H2. repeat case_match; auto; done. Qed.

Lemma fail_moved now c r : over (r_pc r) = false -> moved r (fail now c r).
Proof.
  intros Ho. unfold fail. destruct (FailInto now c (r_task r)) as [t|e] eqn:E.
  - destruct (FailInto_status _ _ _ _ E) as (Hid & _ & Hst). split; cbn; try done.
    intros Hr. apply run_ok_fail in Hr; [|done]. unfold run_ok. cbn.
    destruct Hst as [[Ht ->]|[_ ->]]; [|by compute; naive_solver].
    destruct Hr as [Hr|Hr]; [by rewrite Hr in Ht|done].
  - split; cbn; try done. intros Hr. apply run_ok_fail in Hr; [|done]. unfold run_ok. cbn.
    destruct Hr as [Hr|Hr]; [|done]. exfalso. clear -E Hr. unfold FailInto, Transition in E. rewrite Hr in E. done.
Qed.

Lemma cancelInto_moved now c r : r_pc r = AtCancelInto c -> moved r (cancelInto now c r).
Proof.
  intros Hp. unfold cancelInto.
  destruct (Transition now StatusCancelled (r_task r)) as [t|e] eqn:E.
  { apply Transition_ok in E as (_ & _ & ->). split; cbn; try done. intros _.
    unfold run_ok. cbn. compute. naive_solver. }
  destruct (FailInto now c (r_task r)) as [t|e'] eqn:E'.
  - destruct (FailInto_status _ _ _ _ E') as (Hid & _ & Hst). split; cbn; try done.
    unfold run_ok. rewrite Hp. cbn. destruct Hst as [[Ht ->]|[_ ->]]; [done|compute; naive_solver].
  - split; cbn; try done. unfold run_ok. by rewrite Hp.
Qed.

Record step_effect (r r' : run) (s s' : Store) (told' : list change) : Prop := {
  se_id : r_id r' = r_id r;
  se_cancelled : r_cancelled r' = r_cancelled r;
  se_pc : over (r_pc r) = false /\ inside (r_pc r') = true;
  se_store : tasks s' = tasks s \/ (exists n c old t, r_pc r = AtSave n c old
    /\ stamped (r_task r) t /\ tasks s' = <[r_id r := t]> (tasks s)
    /\ (n = PReview -> over (r_pc r') = true));
  se_ok : run_ok r -> run_ok r';
}.

Lemma quiet_effect r r' s told' : over (r_pc r) = false -> moved r r' -> step_effect r r' s s told'.
Proof. intros Ho [? ? ? ?]. split; auto. Qed.

Lemma save_effect now w n cause old t res can s trees r' s' trees' told' :
  run_step now (IWrite w) (mkRun t res can (AtSave n cause old)) s trees = Some (r', s', trees', told') ->
  step_effect (mkRun t res can (AtSave n cause old)) r' s s' told'.
Proof.
  unfold run_step. cbn [r_pc r_task]. destruct (put _ _ _ _ _) as [[t' s1] e] eqn:E.
  destruct (put_tasks _ _ _ _ _ _ _ _ E) as [Hstamp Htasks]. pose proof Hstamp as (Hid & Hst & _ & _).
  destruct e as [e|]; intros [= <- <- <- <-].
  - split; try (by destruct n as [| | | | |[]|]); [left; done|].
    unfold run_ok. cbn. rewrite <- Hst. destruct n as [| | | | |[]|]; cbn; auto.
  - assert (Hmv : moved (mkRun t res can (AtSave n cause old)) (saved now n cause (mkRun t' res can (AtSave n cause old)))).
    { destruct n as [| | | | |[]|]; try (split; cbn; try done; unfold run_ok; cbn; rewrite ?Hst; auto; done).
      apply (advance_moved _ _ _ t' (mkRun t res can _)); try done. unfold run_ok. cbn. by rewrite Hst. }
    destruct Hmv. split; try done. right. exists n, cause, old, t'. split_and!; try done.
    by intros ->.
Qed.

Lemma run_step_effect now i r s trees r' s' trees' told' :
  run_step now i r s trees = Some (r', s', trees', told') -> step_effect r r' s s' told'.
Proof.
  destruct r as [t res can c]. unfold run_step. cbn [r_pc r_task r_cancelled r_resuming].
  destruct c, i; try discriminate.
  - destruct (Get _ s) as [f|]; [destruct (String.eqb _ _)|]; intros [= <- <- <- <-]; apply quiet_effect; try done; by apply moved_pc.
  - intros [= <- <- <- <-]. apply quiet_effect; [done|]. unfold start_run. cbn. destruct (resuming t); by split.
  - intros [= <- <- <- <-]. apply quiet_effect; [done|]. apply moved_pc; [done|]. unfold run_ok. cbn. by destruct n.
  - by intros E%save_effect.
  - destruct (prepare _ _ _ _) as [[t' tr] e] eqn:E. intros [= <- <- <- <-].
    destruct (prepare_task _ _ _ _ _ _ _ E) as (Hid & Hst & _). apply quiet_effect; [done|].
    destruct e; cbn; split; cbn; try done; unfold run_ok; cbn; rewrite Hst; auto.
  - intros [= <- <- <- <-]. apply quiet_effect; [done|].
    destruct (verifyWorkspace _ _ _); cbn; apply moved_pc; try done; unfold run_ok; cbn; auto.
  - intros [= <- <- <- <-]. apply quiet_effect; [done|].
    destruct err; cbn; apply moved_pc; try done; unfold run_ok; cbn; auto.
  - destruct (establishSession _ _ _) as [t' e] eqn:E. destruct (establish_task _ _ _ _ _ E) as (Hid & Hst & _).
    destruct e; intros [= <- <- <- <-]; apply quiet_effect; try done.
    + apply moved_pc; [done|]. unfold run_ok; cbn; auto.
    + unfold to_working. cbn. destruct (String.eqb _ _).
      * split; cbn; try done. unfold run_ok; cbn. by rewrite Hst.
      * apply advance_moved; try done. unfold run_ok. cbn. by rewrite Hst.
  - destruct err; [|destruct (String.eqb _ _)]; intros [= <- <- <- <-]; apply quiet_effect; try done.
    + apply moved_pc; [by destruct can|]. unfold run_ok. cbn. destruct can; auto.
    + by apply (advance_moved _ _ _ t (mkRun t res can AtPrompt)).
  - destruct (collectCommitsWith _); intros [= <- <- <- <-]; apply quiet_effect; try done.
    + by apply advance_moved.
    + apply moved_pc; [done|]. unfold run_ok; cbn; auto.
  - intros [= <- <- <- <-]. apply quiet_effect; [done|]. by apply fail_moved.
  - intros [= <- <- <- <-]. apply quiet_effect; [done|]. by apply cancelInto_moved.
  - intros [= <- <- <- <-]. apply quiet_effect; [done|]. by apply moved_pc.
Qed.
End run.

(** ** The system *)

Section system.
Context `{JsonCodec Task}.
Context (maxParallel : Z) (writes : write_result -> Prop).
#[local] Abbreviation step := (step maxParallel writes).

Definition quiet (w : world) (id : string) : Prop :=
  forall r, w_runs w !! id = Some r -> over (r_pc r) = true.

Definition undecided (w : world) (id : string) : Prop := exists s, status_of w id = Some s /\ ~ decided s.

(** The status a decision is for. *)
Definition target (v : verb) : Status :=
  match v with Approve | Complete => StatusDone | Reject => StatusRejected | Cancel => StatusCancelled end.

Definition finishing (v : verb) : Prop := v = Approve \/ v = Complete.

(** The task that [updateTask] is about to store. *)
Definition wants (v : verb) (t : Task) (a : after) : Prop :=
  match a with
  | AFinish => TStatus t = StatusMerging /\ finishing v
  | _ => TStatus t = target v
  end.

Definition open_for (w : world) (d : decision) : Prop :=
  undecided w (d_id d)
  /\ (d_verb d <> Cancel -> status_of w (d_id d) = Some StatusAwaitingReview \/ status_of w (d_id d) = Some StatusMerging).

(** What the holder of [transitionMu] may rely on. *)
Definition lock_ok (w : world) (d : decision) : Prop :=
  let id := d_id d in
  match d_pc d with
  | DStart => True
  | DMerge t => ID t = id /\ d_verb d = Approve /\ TStatus t = StatusAwaitingReview /\ quiet w id /\ open_for w d
  | DRunning t | DRecheck t => ID t = id /\ d_verb d = Cancel /\ undecided w id
  | DGet t a | DWrite t _ a => ID t = id /\ quiet w id /\ open_for w d /\ wants (d_verb d) t a
  | DRemove t AFinish => ID t = id /\ finishing (d_verb d) /\ quiet w id
      /\ TStatus t = StatusMerging /\ status_of w id = Some StatusMerging
  | DRemove _ _ | DEnd VOk => quiet w id /\ status_of w id = Some (target (d_verb d))
  | DEnd _ => True
  end.

Record Inv (w : world) : Prop := {
  i_key : forall id r, w_runs w !! id = Some r -> r_id r = id;
  i_store : forall id t, Get id (w_store w) = Some t -> ID t = id;
  i_running : forall id, id ∈ w_running w <-> exists r, w_runs w !! id = Some r /\ ended (r_pc r) = false;
  i_run : forall id r, w_runs w !! id = Some r -> over (r_pc r) = false -> run_ok r;
  i_status : forall id r s, w_runs w !! id = Some r -> over (r_pc r) = false -> status_of w id = Some s -> ~ settled s;
  i_check : forall id r s, w_runs w !! id = Some r -> r_pc r = AtCheck -> status_of w id = Some s -> s = TStatus (r_task r);
  i_lock : forall d, w_lock w = Some d -> lock_ok w d;
}.

(** What others do leaves to a decision what it relies on. *)
Lemma lock_frame w w' d :
  (forall s, status_of w (d_id d) = Some s -> quiet w (d_id d) ->
     quiet w' (d_id d) /\ status_of w' (d_id d) = status_of w (d_id d)) ->
  (undecided w (d_id d) -> undecided w' (d_id d)) ->
  lock_ok w d -> lock_ok w' d.
Proof.
  intros Hq Hu. unfold lock_ok, open_for.
  destruct (d_pc d) as [|t|t|t|t a|t old a|t []|[]]; try naive_solver.
  all: intros; destruct_and?.
  all: assert (exists s, status_of w (d_id d) = Some s) as [s Hx] by first [eassumption|by eauto|unfold undecided in *; naive_solver].
  all: edestruct Hq as [? Hs]; [done|done|]; rewrite ?Hs; auto 10.
Qed.

(** One run moves. *)
Lemma inv_run_moves w w' id r r' :
  Inv w -> w_runs w !! id = Some r -> w_runs w' = <[id := r']> (w_runs w) -> w_lock w' = w_lock w ->
  r_id r' = r_id r ->
  (over (r_pc r) = true -> over (r_pc r') = true /\ status_of w' id = status_of w id) ->
  (forall i, i ∈ w_running w' <-> if decide (i = id) then ended (r_pc r') = false else i ∈ w_running w) ->
  (forall i t, Get i (w_store w') = Some t -> ID t = i) ->
  (forall i, i <> id -> status_of w' i = status_of w i) ->
  (undecided w id -> undecided w' id) ->
  (over (r_pc r') = false -> run_ok r' /\ (forall s, status_of w' id = Some s -> ~ settled s)
     /\ (r_pc r' = AtCheck -> forall s, status_of w' id = Some s -> s = TStatus (r_task r'))) ->
  Inv w'.
Proof.
  intros [Hk Hst Hrun Hok Hsta Hch Hl] Hr Hruns Hlock Hid Hover Hrunning Hst' Hother Hund Hnew.
  assert (Hcase : forall i x, w_runs w' !! i = Some x -> (i = id /\ x = r') \/ (i <> id /\ w_runs w !! i = Some x)).
  { intros i x. rewrite Hruns, lookup_insert_Some. naive_solver. }
  split.
  - intros i x [[-> ->]|[_ Hx]]%Hcase; [|by eapply Hk]. rewrite Hid. by eapply Hk.
  - done.
  - intros i. rewrite Hrunning, Hruns. case_decide as Hi.
    + subst i. rewrite lookup_insert_eq. naive_solver.
    + rewrite lookup_insert_ne by done. apply Hrun.
  - intros i x [[-> ->]|[_ Hx]]%Hcase Ho; [by apply Hnew|by eapply Hok].
  - intros i x s [[-> ->]|[Hi Hx]]%Hcase Ho; [by apply Hnew|]. rewrite Hother by done. by eapply Hsta.
  - intros i x s [[-> ->]|[Hi Hx]]%Hcase Ho.
    + apply Hnew; [by rewrite Ho|done].
    + rewrite Hother by done. by eapply Hch.
  - intros d. rewrite Hlock. intros Hd. eapply lock_frame; [| |by apply Hl].
    + intros s _ Hq. destruct (decide (d_id d = id)) as [E|E].
      * rewrite E in *. destruct (Hover (Hq _ Hr)) as [Ho ->]. split; [|done].
        intros x [[_ ->]|[? _]]%Hcase; done.
      * split; [|by apply Hother]. intros x [[? _]|[_ Hx]]%Hcase; [done|by apply Hq].
    + destruct (decide (d_id d = id)) as [->|E]; [done|]. unfold undecided. by rewrite Hother.
Qed.

Lemma status_insert (w : world) t i trees ch :
  forall s', tasks s' = <[i := t]> (tasks (w_store w)) ->
  forall j, status_of (effects s' trees ch w) j = if decide (j = i) then Some (TStatus t) else status_of w j.
Proof.
  intros s' Hs j. unfold status_of, Get. cbn. rewrite Hs. case_decide as Hj.
  - subst. by rewrite lookup_insert_eq.
  - by rewrite lookup_insert_ne.
Qed.

Lemma undecided_status s : s = StatusAwaitingReview \/ ~ settled s -> ~ decided s.
Proof. unfold settled, decided. intros [->|Hs]; [by intros [|]|tauto]. Qed.

Lemma inv_step_run w id r now i r' s' trees' ch :
  Inv w -> w_runs w !! id = Some r ->
  run_step now i r (w_store w) (w_trees w) = Some (r', s', trees', ch) ->
  Inv (set_run id r' (effects s' trees' ch w)).
Proof.
  intros HI Hr E%run_step_effect. destruct E as [Hid _ [Ho Hin] Hs Hok].
  pose proof (i_key _ HI _ _ Hr) as Hkey. pose proof (i_run _ HI _ _ Hr Ho) as Hrok.
  assert (Hlive : ended (r_pc r) = false) by (by destruct (r_pc r)).
  assert (Hlive' : ended (r_pc r') = false) by (by destruct (r_pc r')).
  assert (Hrng : forall j, j ∈ w_running w <-> if decide (j = id) then ended (r_pc r') = false else j ∈ w_running w).
  { intros j. case_decide as Hj; [|done]. subst. rewrite (i_running _ HI). naive_solver. }
  destruct Hs as [Hs|(n & c & old & t & Hpc & Hst & Hs & Hn)].
  - assert (Hsame : forall j, status_of (set_run id r' (effects s' trees' ch w)) j = status_of w j)
      by (intros j; unfold status_of, Get; cbn; by rewrite Hs).
    eapply inv_run_moves; eauto; try done.
    + by rewrite Ho.
    + intros j u. unfold Get. cbn. rewrite Hs. apply (i_store _ HI).
    + unfold undecided. by rewrite Hsame.
    + intros Ho'. split; [auto|]. split; [|by intros Hc; rewrite Hc in Hin].
      intros s. rewrite Hsame. by eapply i_status.
  - destruct Hst as (Hidt & Hstt & _). rewrite Hkey in Hs.
    pose proof (status_insert w t id trees' ch s' Hs) as Hsame.
    change (forall j, status_of (set_run id r' (effects s' trees' ch w)) j = if decide (j = id) then Some (TStatus t) else status_of w j) in Hsame.
    assert (Hw : TStatus t = StatusAwaitingReview \/ ~ settled (TStatus t)).
    { rewrite Hstt. by apply run_ok_fail. }
    eapply inv_run_moves; eauto; try done.
    + by rewrite Ho.
    + intros j u. unfold Get. cbn. rewrite Hs. rewrite lookup_insert_Some. intros [[<- <-]|[_ Hu]].
      * rewrite Hidt. done.
      * by apply (i_store _ HI).
    + intros j Hj. rewrite Hsame. by case_decide.
    + intros _. exists (TStatus t). rewrite Hsame. rewrite decide_True by done. split; [done|by apply undecided_status].
    + intros Ho'. split; [auto|]. split; [|by intros Hc; rewrite Hc in Hin].
      intros s. rewrite Hsame, decide_True by done. intros [= <-].
      unfold run_ok in Hrok. rewrite Hpc in Hrok. rewrite Hstt. destruct n; try done.
      by rewrite Hn in Ho'.
Qed.

Lemma inv_step_exit w id r res :
  Inv w -> w_runs w !! id = Some r -> r_pc r = AtEnd res -> Inv (deregister id r res w).
Proof.
  intros HI Hr Hpc. eapply inv_run_moves; eauto; try done.
  - intros j. cbn. case_decide as Hj; set_solver.
  - apply (i_store _ HI).
Qed.

Lemma inv_step_interrupt w id r : Inv w -> w_runs w !! id = Some r -> Inv (set_run id (cancel_ctx r) w).
Proof.
  intros HI Hr. eapply inv_run_moves; eauto; try done.
  - intros j. cbn. case_decide as Hj; [|done]. subst. rewrite (i_running _ HI). naive_solver.
  - apply (i_store _ HI).
  - intros Ho. cbn in Ho. split; [exact (i_run _ HI _ _ Hr Ho)|]. split; [intros s; exact (i_status _ HI _ _ s Hr Ho)|].
    intros Hc s. exact (i_check _ HI _ _ s Hr Hc).
Qed.

(** A run registered for a task that has none. *)
Lemma disp_inv_register w c t :
  Inv w -> c = AtCheck \/ c = AtStart -> w_runs w !! ID t = None ->
  (forall s, status_of w (ID t) = Some s -> w_lock w = None /\ s = TStatus t) -> ~ settled (TStatus t) ->
  Inv (register c t w).
Proof.
  intros HI Hc Hnone Hsame Hun.
  assert (Hlive : ended c = false /\ over c = false) by (destruct Hc as [-> | ->]; done).
  assert (Hcase : forall i x, w_runs (register c t w) !! i = Some x ->
    (i = ID t /\ x = mkRun t false false c) \/ (i <> ID t /\ w_runs w !! i = Some x)).
  { intros i x. cbn. rewrite lookup_insert_Some. naive_solver. }
  split.
  - intros i x [[-> ->]|[_ Hx]]%Hcase; [done|by eapply i_key].
  - apply (i_store _ HI).
  - intros i. cbn. rewrite elem_of_union, elem_of_singleton, (i_running _ HI).
    destruct (decide (i = ID t)) as [->|Hi].
    + rewrite lookup_insert_eq. split; [|by left]. intros _. eexists. split; [done|]. by destruct Hlive.
    + rewrite lookup_insert_ne by done. naive_solver.
  - intros i x [[-> ->]|[_ Hx]]%Hcase Ho; [|by eapply i_run]. unfold run_ok. cbn. by destruct Hc as [-> | ->].
  - intros i x s [[-> ->]|[_ Hx]]%Hcase Ho; [|exact (i_status _ HI _ _ _ Hx Ho)]. by intros [_ ->]%Hsame.
  - intros i x s [[-> ->]|[_ Hx]]%Hcase Ho; [|exact (i_check _ HI _ _ _ Hx Ho)]. by intros [_ ->]%Hsame.
  - intros d Hd. change (w_lock w = Some d) in Hd. eapply lock_frame; [| |by apply (i_lock _ HI)]; [|done].
    intros s Hs Hq. change (status_of (register c t w)) with (status_of w). split; [|done].
    destruct (decide (d_id d = ID t)) as [E|E].
    + rewrite E in Hs. apply Hsame in Hs as [Hs _]. congruence.
    + intros x [[? _]|[_ Hx]]%Hcase; [done|by apply Hq].
Qed.

(** A step of the lock alone. *)
Lemma inv_set_lock w o :
  Inv w -> (forall d, o = Some d -> lock_ok w d) -> Inv (set_lock o w).
Proof. by intros [] Hd. Qed.

Lemma transition_then_ok w v id now to t a :
  ID t = id -> quiet w id -> open_for w (mkDecision v id DStart) ->
  (a = AFinish /\ to = StatusMerging /\ finishing v) \/ (a <> AFinish /\ to = target v) ->
  lock_ok w (mkDecision v id (transition_then now to t a)).
Proof.
  intros Hid Hq Ho Hw. unfold transition_then. destruct (Transition now to t) as [t'|] eqn:E; [|done].
  apply Transition_ok in E as (_ & _ & ->). unfold lock_ok. cbn. split_and!; [done|done|exact Ho|].
  destruct Hw as [(-> & -> & ?)|[? ->]]; [done|]. by destruct a.
Qed.

(** A task that awaits its review has no run that writes. *)
Lemma settled_quiet w id s : Inv w -> status_of w id = Some s -> settled s -> quiet w id.
Proof.
  intros HI Hs Hse r Hr. destruct (over (r_pc r)) eqn:E; [done|]. by destruct (i_status _ HI _ _ _ Hr E Hs).
Qed.

Lemma Get_status (w : world) id t : Get id (w_store w) = Some t -> status_of w id = Some (TStatus t).
Proof. unfold status_of. by intros ->. Qed.

Lemma awaiting_open w v id :
  status_of w id = Some StatusAwaitingReview -> open_for w (mkDecision v id DStart).
Proof. intros Hs. split; [|by left]. eexists. split; [done|]. by intros [|]. Qed.

Lemma begin_ok w v id now : Inv w -> lock_ok w (mkDecision v id (begin now v (Get id (w_store w)))).
Proof.
  intros HI. destruct (Get id (w_store w)) as [t|] eqn:E; [|by destruct v].
  pose proof (i_store _ HI _ _ E) as Hid. apply Get_status in E.
  assert (Haw : TStatus t = StatusAwaitingReview -> quiet w id /\ open_for w (mkDecision v id DStart)).
  { intros Ht. rewrite Ht in E. split; [eapply settled_quiet; [done|done|by left]|by apply awaiting_open]. }
  destruct v; cbn.
  - destruct (String.eqb_spec (TStatus t) StatusAwaitingReview) as [Ht|]; cbn; [|done].
    destruct (Haw Ht) as [Hq Ho]. destruct (String.eqb _ _).
    + apply transition_then_ok; auto.
    + unfold lock_ok. cbn. auto 10.
  - destruct (String.eqb _ _); cbn; [|done].
    destruct (String.eqb_spec (TStatus t) StatusAwaitingReview) as [Ht|]; cbn; [|done].
    destruct (Haw Ht) as [Hq Ho]. apply transition_then_ok; auto. left. split_and!; [done..|by right].
  - destruct (String.eqb_spec (TStatus t) StatusAwaitingReview) as [Ht|]; cbn; [|done].
    destruct (Haw Ht) as [Hq Ho]. apply transition_then_ok; auto.
  - destruct (Terminal (TStatus t)) eqn:Ht; [done|]. unfold lock_ok. cbn. split_and!; [done..|].
    eexists. split; [done|]. intros [Hd|Hd]; by rewrite Hd in Ht.
Qed.

(** The store changes where no run writes; the lock is the writer's. *)
Lemma inv_write w s' trees' ch t id o :
  Inv w -> quiet w id -> ID t = id -> tasks s' = <[id := t]> (tasks (w_store w)) ->
  (forall d, o = Some d -> lock_ok (effects s' trees' ch w) d) ->
  Inv (set_lock o (effects s' trees' ch w)).
Proof.
  intros HI Hq Hid Hs Hd. pose proof (status_insert w t id trees' ch s' Hs) as Hsame.
  assert (Hne : forall i r, w_runs w !! i = Some r -> over (r_pc r) = false -> status_of (effects s' trees' ch w) i = status_of w i).
  { intros i r Hr Ho. rewrite Hsame. case_decide; [|done]. subst. by rewrite (Hq _ Hr) in Ho. }
  split; try apply HI; try done.
  - intros i u. unfold Get. cbn. rewrite Hs, lookup_insert_Some. intros [[<- <-]|[_ Hu]]; [done|].
    by apply (i_store _ HI).
  - intros i r s Hr Ho Hst. change (status_of (effects s' trees' ch w) i = Some s) in Hst. rewrite (Hne _ _ Hr Ho) in Hst. exact (i_status _ HI _ _ _ Hr Ho Hst).
  - intros i r s Hr Hc Hst. change (status_of (effects s' trees' ch w) i = Some s) in Hst.
    rewrite (Hne _ _ Hr) in Hst by (by rewrite Hc). exact (i_check _ HI _ _ _ Hr Hc Hst).
Qed.

Lemma inv_same w s' trees' ch o :
  Inv w -> tasks s' = tasks (w_store w) ->
  (forall d, o = Some d -> lock_ok w d) -> Inv (set_lock o (effects s' trees' ch w)).
Proof.
  intros HI Hs Hd.
  assert (Hsame : forall j, status_of (effects s' trees' ch w) j = status_of w j)
    by (intros j; unfold status_of, Get; cbn; by rewrite Hs).
  split; try apply HI.
  - intros i u. unfold Get. cbn. rewrite Hs. apply (i_store _ HI).
  - intros i r s Hr Ho Hst. apply (i_status _ HI _ _ s Hr Ho). by rewrite <- Hsame.
  - intros i r s Hr Hc Hst. apply (i_check _ HI _ _ s Hr Hc). by rewrite <- Hsame.
  - intros d Hd'. eapply lock_frame; [| |by apply Hd]; [intros s _ Hq; split; [done|apply Hsame]|].
    unfold undecided. change (status_of (set_lock o (effects s' trees' ch w))) with (status_of (effects s' trees' ch w)).
    by rewrite Hsame.
Qed.

Lemma decide_ok w d now i w' :
  Inv w -> w_lock w = Some d -> decide_step now i d w = Some w' -> Inv w'.
Proof.
  intros HI Hd. pose proof (i_lock _ HI _ Hd) as Hlk. destruct d as [v id c].
  unfold decide_step. cbn [d_pc d_verb d_id].
  assert (Hnext : forall c', lock_ok w (mkDecision v id c') -> Inv (set_lock (Some (mkDecision v id c')) w)).
  { intros c' Hc. apply inv_set_lock; [done|]. by intros d [= <-]. }
  destruct c as [|t|t|t|t a|t old a|t a|vd], i; try discriminate; unfold lock_ok in Hlk; cbn [d_pc d_verb d_id] in Hlk.
  - intros [= <-]. by apply Hnext, begin_ok.
  - intros [= <-]. apply Hnext. destruct out; [|done]. destruct Hlk as (Hid & -> & Ht & Hq & Ho).
    apply transition_then_ok; auto. left. split_and!; [done..|by left].
  - destruct Hlk as (Hid & -> & Hu). case_bool_decide as Hin.
    + destruct (w_runs w !! id) as [r|] eqn:Hr; intros [= <-]; [|by apply Hnext].
      apply inv_set_lock; [by apply inv_step_interrupt|]. intros d [= <-]. done.
    + intros [= <-]. apply Hnext, transition_then_ok; auto. 
      * intros r Hr. destruct (over (r_pc r)) eqn:Eo; [done|]. destruct Hin. apply (i_running _ HI).
        exists r. split; [done|]. by destruct (r_pc r).
      * split; [done|]. done.
  - intros [= <-]. apply Hnext. destruct (Get _ _); [|done]. by destruct (String.eqb _ _).
  - intros [= <-]. by apply Hnext.
  - destruct (Update now w0 t (w_store w)) as [[t' s'] e] eqn:E.
    destruct (Update_tasks _ _ _ _ _ _ _ E) as [(Hidt & Hst & _) Htasks].
    destruct Hlk as (Hid & Hq & Ho & Hw). rewrite Hid in Htasks.
    destruct e as [e|]; intros [= <-].
    + apply inv_same; [done..|]. by intros d [= <-].
    + eapply inv_write; [done|exact Hq|by rewrite Hidt|done|]. intros d [= <-].
      assert (Hst' : status_of (effects s' (w_trees w) (told (ID t') old (TStatus t')) w) id = Some (TStatus t)).
      { erewrite status_insert by done. by rewrite decide_True, Hst. }
      unfold lock_ok, updated. cbn [d_pc d_id d_verb goto]. destruct a; cbn in Hw.
      * split; [done|]. by rewrite Hst', Hw.
      * assert (quiet w id /\ status_of (effects s' (w_trees w) (told (ID t') old (TStatus t')) w) id = Some (target v))
          by (rewrite Hst', Hw; done). by destruct (_ && _).
      * destruct Hw as [Hw ?]. rewrite Hst', Hst, Hw, Hidt. done.
  - assert (Hgo : forall c', lock_ok w (mkDecision v id c') ->
      Inv (set_lock (Some (mkDecision v id c')) (effects (w_store w) (removeWorktreeWith out (Worktree t) (w_trees w)) [] w))).
    { intros c' Hc. apply inv_same; [done..|]. by intros d [= <-]. }
    destruct a; intros [= <-]; apply Hgo; [done|done|].
    destruct Hlk as (Hid & Hv & Hq & Ht & Hs). apply transition_then_ok; [done|done| |].
    + split; [|by right]. exists StatusMerging. split; [done|]. by intros [|].
    + right. split; [done|]. by destruct Hv as [-> | ->].
Qed.

Lemma inv_step w w' : Inv w -> step w w' -> Inv w'.
Proof.
  intros HI Hst. destruct Hst as [id r now i r' s' tr ch Hr _ E|id r res Hr Hp|id r Hr|Hc|n c src id g git cwd wk p now Hn Hc Hr Hg Hid
    |v id Hl|d now i w' Hd _ E|d v Hd Hp].
  - by eapply inv_step_run.
  - by eapply inv_step_exit.
  - by apply inv_step_interrupt.
  - by destruct HI.
  - apply disp_inv_register; [by destruct HI|done|done| |].
    + intros s Hs. change (TStatus <$> Get id (w_store w) = Some s) in Hs. by rewrite Hg in Hs.
    + cbn. by intros [|[|[|]]].
  - apply inv_set_lock; [done|]. by intros d [= <-].
  - by eapply decide_ok.
  - by destruct HI.
Qed.

(** [Init] *)
Lemma inv_resume ts w :
  Inv w -> w_lock w = None -> NoDup (ID <$> ts) ->
  (forall t, t ∈ ts -> Get (ID t) (w_store w) = Some t /\ w_runs w !! ID t = None) ->
  Inv (foldl (fun w t => if skipped t then w else launch t w) w ts).
Proof.
  revert w. induction ts as [|t ts IH]; intros w HI Hl Hnd Hin; [done|].
  apply NoDup_cons in Hnd as [Hnin Hnd]. cbn [foldl].
  destruct (Hin t) as [Hg Hr]; [by left|].
  destruct (skipped t) eqn:Hsk.
  - apply IH; try done. intros u Hu. apply Hin. by right.
  - apply IH; try done.
    + apply disp_inv_register; try done; [by left| |].
      * intros s. unfold status_of. rewrite Hg. by intros [= <-].
      * unfold skipped in Hsk. bools. intros [Ht|[Ht|[Ht|Ht]]]; rewrite Ht in *; done.
    + intros u Hu. destruct (Hin u) as [Hgu Hru]; [by right|]. split; [done|].
      cbn. rewrite lookup_insert_ne; [done|]. intros E. apply Hnin. rewrite E. by apply list_elem_of_fmap_2.
Qed.

Lemma inv_init w : init w -> Inv w.
Proof.
  intros (content & trees & E). unfold Init in E. destruct (Open content) as [s|] eqn:Eo; [|done].
  injection E as <-. pose proof (Open_wf _ _ Eo) as Hwf.
  destruct (List_wf _ Hwf) as (ts & HL & _ & Hnd & Hin).
  unfold resumeInterrupted. cbn [w_store]. rewrite HL. cbn [default].
  apply inv_resume; [|done|done|].
  - split; try done.
    intros id t Ht. by apply (wf_key _ _ Hwf) in Ht as [? _].
    set_solver.
  - intros t Ht. split; [by apply Hin|done].
Qed.

Lemma disp_inv_reachable w : reachable init step w -> Inv w.
Proof. apply reachable_invariant; [apply inv_init|apply inv_step]. Qed.

(** What a step of a decision does: it may cancel a context, and it may store
    the task it wants. *)
Record decide_effect (w w' : world) (d : decision) : Prop := {
  de_back : forall id r', w_runs w' !! id = Some r' ->
    exists r, w_runs w !! id = Some r /\ r_pc r' = r_pc r /\ r_task r' = r_task r;
  de_forth : forall id r, w_runs w !! id = Some r -> exists r', w_runs w' !! id = Some r' /\ r_pc r' = r_pc r;
  de_store : tasks (w_store w') = tasks (w_store w)
    \/ exists t old a t', d_pc d = DWrite t old a /\ stamped t t' /\ tasks (w_store w') = <[ID t := t']> (tasks (w_store w));
}.

Lemma decide_step_effect d now i w w' : decide_step now i d w = Some w' -> decide_effect w w' d.
Proof.
  intros E.
  assert (Hruns : w_runs w' = w_runs w -> forall id, (forall r', w_runs w' !! id = Some r' ->
      exists r, w_runs w !! id = Some r /\ r_pc r' = r_pc r /\ r_task r' = r_task r)
      /\ (forall r, w_runs w !! id = Some r -> exists r', w_runs w' !! id = Some r' /\ r_pc r' = r_pc r)).
  { intros -> id. split; intros r Hr; by exists r. }
  destruct d as [v k c]. unfold decide_step in E. cbn [d_pc d_verb d_id] in E.
  destruct c as [|t|t|t|t a|t old a|t a|vd], i; try discriminate; cbn in E; simplify_eq;
    try (split; [apply Hruns; done|apply Hruns; done|by left]).
  - case_bool_decide; [destruct (w_runs w !! k) as [r0|] eqn:Ek|]; simplify_eq;
      try (split; [apply Hruns; done|apply Hruns; done|by left]).
    split; [| |by left]; cbn; intros id r.
    + rewrite lookup_insert_Some. intros [[<- <-]|[_ Hr]]; [by exists r0|by exists r].
    + intros Hr. destruct (decide (id = k)) as [->|Hne].
      * exists (cancel_ctx r). rewrite lookup_insert_eq. split; [|done]. by rewrite Hr in Ek; injection Ek as <-.
      * exists r. by rewrite lookup_insert_ne.
  - destruct (Update now w0 t (w_store w)) as [[t' s'] e] eqn:Eu.
    destruct (Update_tasks _ _ _ _ _ _ _ Eu) as [Hst Ht].
    destruct e; simplify_eq; (split; [apply Hruns; done|apply Hruns; done|]); [by left|right]. by exists t, old, a, t'.
  - destruct a; simplify_eq; (split; [apply Hruns; done|apply Hruns; done|by left]).
Qed.

Lemma decide_status w w' d now i id :
  Inv w -> w_lock w = Some d -> decide_step now i d w = Some w' ->
  status_of w' id = status_of w id
  \/ exists t a, status_of w' id = Some (TStatus t) /\ d_id d = id /\ (exists old, d_pc d = DWrite t old a)
       /\ open_for w d /\ wants (d_verb d) t a.
Proof.
  intros HI Hd E. destruct (decide_step_effect _ _ _ _ _ E) as [_ _ [Hs|(t & old & a & t' & Hpc & Hst & Hs)]].
  { left. unfold status_of, Get. by rewrite Hs. }
  pose proof (i_lock _ HI _ Hd) as Hlk. unfold lock_ok in Hlk. rewrite Hpc in Hlk. destruct Hlk as (Hid & _ & Ho & Hw).
  destruct (decide (id = d_id d)) as [->|Hne].
  - right. exists t, a. split_and!; try done; [|by eexists]. unfold status_of, Get. rewrite Hs, Hid, lookup_insert_eq.
    cbn. f_equal. apply Hst.
  - left. unfold status_of, Get. by rewrite Hs, Hid, lookup_insert_ne.
Qed.

(** Where the runs of a step come from. *)
Lemma resume_check ts w :
  (forall id r, w_runs w !! id = Some r -> r_pc r = AtCheck) ->
  forall id r, w_runs (foldl (fun w t => if skipped t then w else launch t w) w ts) !! id = Some r -> r_pc r = AtCheck.
Proof.
  revert w. induction ts as [|t ts IH]; intros w Hw; [done|]. cbn [foldl]. apply IH.
  destruct (skipped t); [done|]. cbn. intros id r. rewrite lookup_insert_Some. intros [[_ <-]|[_ Hr]]; eauto.
Qed.

Lemma init_check w : init w -> forall id r, w_runs w !! id = Some r -> r_pc r = AtCheck.
Proof.
  intros (content & trees & E). unfold Init in E. destruct (Open content) as [s|]; [|done]. injection E as <-.
  by apply resume_check.
Qed.

Lemma step_run_of w w' :
  Inv w -> step w w' -> forall id r', w_runs w' !! id = Some r' ->
  (r_pc r' = AtCheck \/ r_pc r' = AtStart)
  \/ (exists r, w_runs w !! id = Some r /\ skips (r_pc r') = skips (r_pc r))
  \/ (exists r, w_runs w !! id = Some r /\ exists now i s' tr ch,
        run_step now i r (w_store w) (w_trees w) = Some (r', s', tr, ch)).
Proof.
  intros HI Hst id x Hx. destruct Hst as [i r now inp r' s' tr ch Hr _ E|i r res Hr Hp|i r Hr|Hc|n c src i g git cwd wk p now Hn Hc Hr Hg Hid
    |v i Hl|d now i w' Hd _ E|d v Hd Hp]; cbn in Hx; try (right; left; by exists x).
  - apply lookup_insert_Some in Hx as [[<- <-]|[_ Hx]]; [|right; left; by exists x].
    right; right. exists r. split; [done|]. by exists now, inp, s', tr, ch.
  - apply lookup_insert_Some in Hx as [[<- <-]|[_ Hx]]; [|right; left; by exists x].
    right; left. exists r. split; [done|]. cbn. by rewrite Hp.
  - apply lookup_insert_Some in Hx as [[<- <-]|[_ Hx]]; [|right; left; by exists x].
    right; left. by exists r.
  - apply lookup_insert_Some in Hx as [[_ <-]|[_ Hx]]; [by left|right; left; by exists x].
  - destruct (decide_step_effect _ _ _ _ _ E) as [Hback _ _].
    destruct (Hback _ _ Hx) as (y & Hy & Hp & _). right; left. exists y. by rewrite Hp.
Qed.

(** ** Who changes a status *)

Inductive changed (w : world) (id : string) (s : Status) : Prop :=
  | by_run r : w_runs w !! id = Some r -> over (r_pc r) = false ->
      s = StatusAwaitingReview \/ ~ settled s -> changed w id s
  | by_decision d t a : w_lock w = Some d -> d_id d = id -> (exists old, d_pc d = DWrite t old a) -> open_for w d ->
      wants (d_verb d) t a -> s = TStatus t -> changed w id s.

Lemma step_status w w' id :
  Inv w -> step w w' -> status_of w' id = status_of w id \/ exists s, status_of w' id = Some s /\ changed w id s.
Proof.
  intros HI Hst. destruct Hst as [i r now inp r' s' tr ch Hr _ E|i r res Hr Hp|i r Hr|Hc|n c src i g git cwd wk p now Hn Hc Hr Hg Hid
    |v i Hl|d now i w' Hd _ E|d v Hd Hp]; try by left.
  - apply run_step_effect in E as [Hid _ [Ho _] Hs _].
    destruct Hs as [Hs|(n & c & old & t & Hpc & Hstamp & Hs & _)].
    + left. unfold status_of, Get. cbn. by rewrite Hs.
    + rewrite (i_key _ HI _ _ Hr) in Hs. pose proof (status_insert w t i tr ch s' Hs id) as Hsame.
      change (status_of (set_run i r' (effects s' tr ch w)) id = if decide (id = i) then Some (TStatus t) else status_of w id) in Hsame.
      rewrite Hsame. case_decide as Hi; [|by left]. subst. right. eexists. split; [done|].
      econstructor 1; [done|done|]. destruct Hstamp as (_ & -> & _). apply run_ok_fail; [|done]. by eapply i_run.
  - destruct (decide_status _ _ _ _ _ id HI Hd E) as [|(t & a & Hs & Hid & Hw & Ho & Hwt)]; [by left|right].
    exists (TStatus t). split; [done|]. by eapply by_decision.
Qed.

(** ** Decisions *)

(** C25: a decision is final. Once the store says that a task is done or
    rejected, it says so for ever, whatever runs, decisions, interruptions and
    failing writes follow. *)
Theorem a_decision_is_final w w' id s :
  reachable init step w -> rtc step w w' -> status_of w id = Some s -> decided s -> status_of w' id = Some s.
Proof.
  intros Hw Hst Hs Hd. apply disp_inv_reachable in Hw. revert Hw Hs.
  induction Hst as [w|w w1 w' H1 _ IH]; intros HI Hs; [done|]. apply IH; [by eapply inv_step|].
  destruct (step_status _ _ id HI H1) as [->|(s' & _ & Hc)]; [done|exfalso].
  destruct Hc as [r Hr Ho _|d t a _ Hid _ [(x & Hx & Hnd) _] _ _].
  - eapply (i_status _ HI); [done|done|done|]. by right; right.
  - rewrite Hid, Hs in Hx. by injection Hx as <-.
Qed.

(** nobody but the operator decides, and only over a task that was handed
    in. A task becomes done or rejected in a step of the decision that holds the
    lock, that decision is for this status, and the task waited for its review
    or was being merged; no run ever sets either status. *)
Theorem decided_by_the_operator w w' id s :
  reachable init step w -> step w w' -> status_of w' id = Some s -> status_of w id <> Some s -> decided s ->
  (exists d, w_lock w = Some d /\ d_id d = id /\ target (d_verb d) = s)
  /\ (status_of w id = Some StatusAwaitingReview \/ status_of w id = Some StatusMerging).
Proof.
  intros Hw Hst Hs Hne Hd. apply disp_inv_reachable in Hw.
  destruct (step_status _ _ id Hw Hst) as [E|(s' & E & Hc)]; [by rewrite E in Hs|].
  rewrite Hs in E. injection E as <-. destruct Hc as [r _ _ Hr|d t a Hl Hid _ [_ Ho] Hwt ->].
  - exfalso. destruct Hr as [-> |Hr]; [by destruct Hd|]. apply Hr. by right; right.
  - rewrite Hid in Ho. assert (target (d_verb d) = TStatus t /\ d_verb d <> Cancel) as [Ht Hv].
    { destruct a; cbn in Hwt.
      - split; [done|]. intros Hv. rewrite Hv in Hwt. rewrite Hwt in Hd. by destruct Hd.
      - split; [done|]. intros Hv. rewrite Hv in Hwt. rewrite Hwt in Hd. by destruct Hd.
      - destruct Hwt as [Hm _]. rewrite Hm in Hd. by destruct Hd. }
    split; [by exists d|by apply Ho].
Qed.

(** The operator is not told a tale. When a decision answers that it is
    done, the store holds the status that was asked for, and the run of the task
    is over. *)
Theorem the_answer_is_true w d :
  reachable init step w -> w_lock w = Some d -> d_pc d = DEnd VOk ->
  status_of w (d_id d) = Some (target (d_verb d)) /\ quiet w (d_id d).
Proof.
  intros Hw Hd Hp. apply disp_inv_reachable in Hw. pose proof (i_lock _ Hw _ Hd) as Hl.
  unfold lock_ok in Hl. rewrite Hp in Hl. by destruct Hl.
Qed.

(** ** The guard of [launch] *)

Lemma run_step_skipped now i r s trees r' s' trees' ch :
  run_step now i r s trees = Some (r', s', trees', ch) -> r_pc r' = AtEnd RunSkipped ->
  r_pc r = AtCheck /\ exists fresh, Get (r_id r) s = Some fresh /\ TStatus fresh <> TStatus (r_task r).
Proof.
  destruct r as [t res can c]. unfold run_step. cbn [r_pc r_task r_cancelled r_resuming].
  assert (Hadv : forall to p u, r_pc (advance_to now to p u) <> AtEnd RunSkipped).
  { intros to p u. unfold advance_to. by destruct (Transition _ _ _). }
  destruct c, i; try discriminate; intros E; simplify_eq/=; repeat (case_match; simplify_eq/=; try done).
  all: intros; try done.
  all: try (unfold start_run, to_working, saved, unsaved, fail, cancelInto, after_worker in *; repeat (case_match; simplify_eq/=); done).
  all: try (exfalso; eapply Hadv; eassumption).
  all: try (exfalso; unfold to_working, saved in *; repeat (case_match; simplify_eq/=); try done; eapply Hadv; eassumption).
  split; [done|]. bools. eauto.
Qed.

Lemma never_skipped w : reachable init step w -> forall id r, w_runs w !! id = Some r -> skips (r_pc r) = false.
Proof.
  intros Hw. induction Hw as [w Hi|w w' Hw IH Hst]; intros id r Hr.
  - by rewrite (init_check _ Hi id r Hr).
  - apply disp_inv_reachable in Hw. destruct (step_run_of _ _ Hw Hst id r Hr) as [Hn|[(r0 & Hr0 & Hp)|(r0 & Hr0 & now & i & s' & tr & ch & E)]].
    + by destruct Hn as [-> | ->].
    + rewrite Hp. by eapply IH.
    + destruct (skips (r_pc r)) eqn:Hk; [exfalso|done]. pose proof E as E'.
      apply run_step_effect in E as [_ _ [Ho Hin] _ _].
      destruct (run_step_skipped _ _ _ _ _ _ _ _ _ E') as (Hc & f & Hg & Hne).
      { destruct (r_pc r) as [| | | | | | | | | | | | |[]|[]]; done. }
      rewrite (i_key _ Hw _ _ Hr0) in Hg. apply Get_status in Hg. by eapply Hne, i_check.
Qed.

(** The guard of [launch] never fires. A run is registered before its
    goroutine looks at the store, so a cancellation finds it there and only
    cancels its context: no run is ever skipped because its task had changed. *)
Theorem launch_is_never_skipped w id r :
  reachable init step w -> w_runs w !! id = Some r -> skips (r_pc r) = false.
Proof. intros Hw Hr. by eapply never_skipped. Qed.
End system.
