(* ===== verification/DispatcherLive.v ===== *)
(** * The dispatcher plugin: no task is left behind, and a run ends

    With writes that succeed, every task of the store has a run that still works
    on it, or rests in a status that waits for the operator or is an end. *)

From S2P Require Import Prelude GoString GoPath JsonLines DispatchTask DispatchStore DispatchOrch Dispatcher DispatcherProps.
Import Task Store.
#[local] Open Scope string_scope.
#[local] Open Scope list_scope.

(** ** No task is left behind

    With writes that succeed and statuses that the program knows. *)

Definition fresh_task (t : Task) : Prop := TStatus t = StatusQueued /\ ValidKind (TKind t) = true /\ ID t <> "".

Definition live (s : Status) : Prop := s = StatusQueued \/ s = StatusDispatching \/ s = StatusWorking.
Definition rests (s : Status) : Prop := Terminal s = true \/ s = StatusAwaitingReview \/ s = StatusMerging.

(** The status of a task that is to be saved at a point. *)
Definition point_status (n : point) : Status :=
  match n with
  | PQueued | PPrepared => StatusQueued
  | PDispatching => StatusDispatching
  | PWorking => StatusWorking
  | PReview => StatusAwaitingReview
  | PFailed _ => StatusFailed
  | PCancelled => StatusCancelled
  end.

(** The run will write no more. *)
Definition written (c : pc) : bool := match c with AtCleanup _ | AtEnd _ | Ended _ => true | _ => false end.

(** What a run knows; [here]: the store has its task. *)
Definition fits (here : Prop) (r : run) : Prop :=
  let t := r_task r in
  match r_pc r with
  | AtCheck | AtStart => live (TStatus t) /\ (here \/ fresh_task t)
  | AtGet PQueued _ => TStatus t = StatusQueued /\ (here \/ fresh_task t)
  | AtSave PQueued _ None => ~ here /\ fresh_task t
  | AtSave n _ old => here /\ is_Some old /\ TStatus t = point_status n /\ n <> PFailed false
  | AtGet n _ => here /\ TStatus t = point_status n /\ n <> PFailed false
  | AtPrepare => here /\ TStatus t = StatusQueued
  | AtVerify | AtWorker | AtSession => here /\ (TStatus t = StatusDispatching \/ TStatus t = StatusWorking)
  | AtPrompt | AtCollect | AtCancelInto _ => here /\ TStatus t = StatusWorking
  | AtFail _ => here /\ (live (TStatus t) \/ TStatus t = StatusAwaitingReview)
  | AtCleanup _ | AtEnd _ | Ended _ => here
  end.

Section nothing_lost.
Context `{JsonCodec Task}.
Context (marshals : forall t : Task, is_Some (marshal t)).

Lemma put_good now old t s :
  (old <> None /\ is_Some (tasks s !! ID t)) \/ (old = None /\ tasks s !! ID t = None /\ fresh_task t) ->
  exists t' s', put now WriteOk old t s = (t', s', None).
Proof.
  assert (Ha : forall u, exists s', appendLocked WriteOk u s = (s', None)).
  { intros u. unfold appendLocked. destruct (marshals u) as [d ->]. cbn. destruct (remember u (tasks s) (order s)); by eexists. }
  unfold put, Update, Add. intros [[Ho Hh]|(-> & Hn & Hs & Hk & Hid)].
  - destruct old; [|done]. rewrite decide_True by done. cbn zeta.
    destruct (Ha (set_UpdatedAt now t)) as [s' ->]. by eexists _, _.
  - rewrite (proj2 (String.eqb_neq _ _) Hid), decide_False by (rewrite Hn; by intros []).
    rewrite Hs, Hk. cbn. match goal with |- context [appendLocked _ ?u _] => destruct (Ha u) as [s' ->] end. by eexists _, _.
Qed.

(** What a good [save] leaves. *)
Lemma put_here now old t s t' s' e :
  put now WriteOk old t s = (t', s', e) ->
  (old <> None /\ is_Some (tasks s !! ID t)) \/ (old = None /\ tasks s !! ID t = None /\ fresh_task t) ->
  e = None /\ ID t' = ID t /\ TStatus t' = TStatus t /\ Get (ID t) s' = Some t'.
Proof.
  intros E Hc. destruct (put_good now old t s Hc) as (u & v & E'). rewrite E in E'. injection E' as -> -> ->.
  destruct (put_tasks _ _ _ _ _ _ _ _ E) as [(Hid & Hst & _) Ht]. split_and!; try done.
  unfold Get. by rewrite Ht, lookup_insert_eq.
Qed.

Lemma advance_good now to n t r :
  Terminal (TStatus t) = false -> CanTransition (TStatus t) to = true ->
  exists t', ID t' = ID t /\ TStatus t' = to
    /\ advance_to now to n (with_task t r) = mkRun t' (r_resuming r) (r_cancelled r) (AtGet n "").
Proof.
  intros Ht Hc. unfold advance_to, Transition. cbn. rewrite Ht, Hc. cbn. by exists (set_UpdatedAt now (set_Status to t)).
Qed.

Lemma fits_save now n cause old t res can s trees r' s' trees' ch :
  run_step now (IWrite WriteOk) (mkRun t res can (AtSave n cause old)) s trees = Some (r', s', trees', ch) ->
  fits (is_Some (Get (ID t) s)) (mkRun t res can (AtSave n cause old)) ->
  fits (is_Some (Get (ID t) s')) r'
  /\ (forall u, Get (ID t) s' = Some u -> written (r_pc r') = true -> rests (TStatus u)).
Proof.
  intros E Hf. unfold run_step in E. cbn [r_pc r_task] in E.
  destruct (put now WriteOk old t s) as [[t' s1] e] eqn:Ep.
  assert (Hc : (old <> None /\ is_Some (tasks s !! ID t)) \/ (old = None /\ tasks s !! ID t = None /\ fresh_task t)).
  { destruct n, old; unfold fits in Hf; cbn in Hf; try naive_solver.
    right. split_and!; [done| |apply Hf]. destruct Hf as [Hf _]. unfold Get in Hf. by rewrite <- eq_None_not_Some in Hf. }
  destruct (put_here _ _ _ _ _ _ _ Ep Hc) as (-> & Hid & Hst & Hg). injection E as <- <- <- <-.
  assert (Hs : TStatus t' = point_status n /\ n <> PFailed false).
  { rewrite Hst. destruct n, old; unfold fits in Hf; cbn in Hf; try naive_solver. destruct Hf as [_ [Hf _]]. by rewrite Hf. }
  destruct Hs as [Hs Hn]. rewrite Hg. assert (Hsome : is_Some (Some t')) by by eexists.
  destruct n as [| | | | |[]|]; cbn [point_status] in Hs; cbn [saved].
  - split; [|done]. unfold fits. cbn. done.
  - destruct (advance_good now StatusDispatching PDispatching t' (mkRun t res can (AtSave PPrepared cause old)))
      as (u & _ & Hu & ->); [by rewrite Hs..|]. split; [|done]. unfold fits. cbn. done.
  - split; [|done]. unfold fits. cbn. auto.
  - split; [|done]. unfold fits. cbn. done.
  - split; [done|]. intros u [= <-] _. right. by left.
  - split; [done|]. intros u [= <-] _. left. by rewrite Hs.
  - done.
  - split; [done|]. intros u [= <-] _. left. by rewrite Hs.
Qed.

Lemma fail_good now cause t :
  live (TStatus t) \/ TStatus t = StatusAwaitingReview ->
  exists t', FailInto now cause t = Ok t' /\ TStatus t' = StatusFailed /\ ID t' = ID t.
Proof.
  intros Hl. assert (Terminal (TStatus t) = false /\ CanTransition (TStatus t) StatusFailed = true) as [Ht Hc].
  { destruct Hl as [[Hl|[Hl|Hl]]|Hl]; by rewrite Hl. }
  unfold FailInto, Transition. rewrite Ht, Hc. cbn.
  by exists (set_UpdatedAt now (set_Error cause (set_UpdatedAt now (set_Status StatusFailed t)))).
Qed.

(** One step of a run: it knows what it needs, and when it has written for the
    last time its task rests. *)
Lemma fits_step now i r s trees r' s' trees' ch :
  (forall w, i = IWrite w -> w = WriteOk) -> skips (r_pc r') = false ->
  run_step now i r s trees = Some (r', s', trees', ch) ->
  (forall t, Get (r_id r) s = Some t -> written (r_pc r) = true -> rests (TStatus t)) ->
  fits (is_Some (Get (r_id r) s)) r ->
  fits (is_Some (Get (r_id r) s')) r'
  /\ (forall t, Get (r_id r) s' = Some t -> written (r_pc r') = true -> rests (TStatus t)).
Proof.
  intros Hi Hsk E Hw Hf. destruct r as [t res can c].
  destruct c, i; try discriminate.
  4:{ rewrite (Hi w eq_refl) in E. by eapply fits_save. }
  all: unfold run_step in E; unfold r_id in *; cbn [r_pc r_task r_cancelled r_resuming] in *.
  all: unfold fits in Hf; cbn in Hf.
  - (* AtCheck *)
    destruct (Get (ID t) s) as [f|] eqn:Eg; [destruct (String.eqb _ _)|]; injection E as <- <- <- <-; try done; rewrite ?Eg; by unfold fits.
  - injection E as <- <- <- <-. unfold start_run. cbn [r_task].
    destruct Hf as [Hl Hf]. unfold resuming. destruct (String.eqb_spec (TStatus t) StatusDispatching) as [Hd|Hd]; cbn.
    { split; [|done]. unfold fits. cbn. split; [|by left]. destruct Hf as [|[Hq _]]; [done|]. by rewrite Hq in Hd. }
    destruct (String.eqb_spec (TStatus t) StatusWorking) as [Hk|Hk]; cbn.
    { split; [|done]. unfold fits. cbn. split; [|by right]. destruct Hf as [|[Hq _]]; [done|]. by rewrite Hq in Hk. }
    split; [|done]. unfold fits. cbn. split; [|done]. by destruct Hl as [|[]].
  - injection E as <- <- <- <-. split; [|done]. unfold fits. cbn. destruct (Get (ID t) s) as [f|] eqn:Eg.
    + destruct n; cbn in *; naive_solver.
    + assert (Hno : ~ is_Some (None : option Task)) by (by intros []). destruct n; cbn in *; naive_solver.
  - destruct (prepare _ _ _ _) as [[t' tr] e] eqn:Ep. injection E as <- <- <- <-.
    destruct (prepare_task _ _ _ _ _ _ _ Ep) as (Hid & Hst & _). destruct Hf as [Hh Hs].
    split; [|by destruct e]. destruct e; unfold fits; cbn; rewrite Hst, Hs; [|done].
    split; [done|]. left. by left.
  - injection E as <- <- <- <-. destruct Hf as [Hh Hs]. destruct (verifyWorkspace _ _ _); cbn; (split; [|done]); unfold fits; cbn; [|done].
    split; [done|]. left. by right.
  - injection E as <- <- <- <-. destruct Hf as [Hh Hs]. destruct err; cbn; (split; [|done]); unfold fits; cbn; [|done].
    split; [done|]. left. by right.
  - destruct (establishSession _ _ _) as [t' e] eqn:Ee. destruct (establish_task _ _ _ _ _ Ee) as (Hid & Hst & _).
    destruct Hf as [Hh Hs]. destruct e; injection E as <- <- <- <-.
    + split; [|done]. unfold fits. cbn. split; [done|]. left. by right.
    + unfold to_working. cbn [r_task with_task]. destruct (String.eqb_spec (TStatus t') StatusWorking) as [Hk|Hk]; cbn.
      * split; [|done]. unfold fits. cbn. done.
      * rewrite Hst in Hk. assert (TStatus t' = StatusDispatching) as Hd by (rewrite Hst; tauto).
        destruct (advance_good now StatusWorking PWorking t' (mkRun t res can AtSession)) as (u & _ & Hu & Ha); [by rewrite Hd..|].
        unfold with_task in *. cbn in Ha |- *. rewrite Ha. split; [|done]. unfold fits. cbn. done.
  - destruct Hf as [Hh Hs]. destruct err as [err|]; [|destruct (String.eqb _ _)]; injection E as <- <- <- <-.
    + split; [|by destruct can]. unfold fits. destruct can; cbn; [done|]. split; [done|]. left. by right; right.
    + split; [|done]. done.
    + destruct (advance_good now StatusAwaitingReview PReview t (mkRun t res can AtPrompt)) as (u & _ & Hu & Ha); [by rewrite Hs..|].
      unfold with_task in Ha. cbn in Ha. rewrite Ha. split; [|done]. unfold fits. cbn. done.
  - destruct Hf as [Hh Hs]. destruct (collectCommitsWith _) as [cs|]; injection E as <- <- <- <-.
    + destruct (advance_good now StatusAwaitingReview PReview (set_Commits cs t) (mkRun t res can AtCollect)) as (u & _ & Hu & Ha); [by cbn; rewrite Hs..|].
      rewrite Ha. split; [|done]. unfold fits. cbn. done.
    + split; [|done]. unfold fits. cbn. split; [done|]. left. by right; right.
  - injection E as <- <- <- <-. destruct Hf as [Hh Hs].
    destruct (fail_good now cause t Hs) as (u & Hu & Hst & Hid). unfold fail. cbn [r_task]. rewrite Hu.
    split; [|done]. unfold fits. cbn. done.
  - injection E as <- <- <- <-. destruct Hf as [Hh Hs]. unfold cancelInto. cbn [r_task].
    unfold Transition. rewrite Hs. cbn. split; [|done]. done.
  - injection E as <- <- <- <-. split; [done|]. cbn. auto.
Qed.

(** ** The system *)

Context (maxParallel : Z).
#[local] Abbreviation good := (fun w => w = WriteOk).
#[local] Abbreviation step := (step maxParallel good).

(** A store file whose statuses the program knows. *)
Definition init_known (w : world) : Prop :=
  init w /\ forall id s, status_of w id = Some s -> live s \/ rests s.

Record Live (w : world) : Prop := {
  l_fits : forall id r, w_runs w !! id = Some r -> fits (is_Some (Get id (w_store w))) r;
  l_rests : forall id s, status_of w id = Some s ->
    rests s \/ exists r, w_runs w !! id = Some r /\ written (r_pc r) = false;
}.

Lemma live_run w id r now i r' s' tr ch :
  Inv w -> Live w -> w_runs w !! id = Some r -> allowed good i -> skips (r_pc r') = false ->
  run_step now i r (w_store w) (w_trees w) = Some (r', s', tr, ch) ->
  Live (set_run id r' (effects s' tr ch w)).
Proof.
  intros HI [Hf Hr] Hid Hgood Hsk E. pose proof (i_key _ HI _ _ Hid) as Hk.
  pose proof (run_step_effect _ _ _ _ _ _ _ _ _ E) as [_ _ _ Hs _].
  destruct (fits_step now i r (w_store w) (w_trees w) r' s' tr ch) as [Hf' Hr']; try done.
  { intros wr ->. exact Hgood. }
  { rewrite Hk. intros t Ht Hw. destruct (Hr id (TStatus t)) as [|(r0 & Hr0 & Hw0)]; [by apply Get_status|done|].
    congruence. }
  { rewrite Hk. by apply Hf. }
  rewrite Hk in Hf', Hr'.
  assert (Hother : forall j, j <> id -> Get j s' = Get j (w_store w)).
  { intros j Hj. unfold Get. destruct Hs as [->|(n & c & old & t & _ & _ & -> & _)]; [done|].
    rewrite Hk. by rewrite lookup_insert_ne. }
  split.
  - intros j x. cbn. rewrite lookup_insert_Some. intros [[<- <-]|[Hj Hx]]; [done|].
    rewrite Hother by done. by apply Hf.
  - intros j s Hst. change (TStatus <$> Get j s' = Some s) in Hst.
    destruct (decide (j = id)) as [->|Hj].
    + destruct (Get id s') as [t|] eqn:Eg; [|done]. injection Hst as <-.
      destruct (written (r_pc r')) eqn:Ew; [left; by apply Hr'|right].
      exists r'. cbn. by rewrite lookup_insert_eq.
    + rewrite Hother in Hst by done. destruct (Hr j s Hst) as [|(x & Hx & Hw)]; [by left|right].
      exists x. cbn. by rewrite lookup_insert_ne.
Qed.

(** A step after which the runs stand where they stood. *)
Lemma live_same w w' :
  Live w ->
  (forall id, is_Some (Get id (w_store w')) <-> is_Some (Get id (w_store w))) ->
  (forall id r', w_runs w' !! id = Some r' -> exists r, w_runs w !! id = Some r
     /\ (r_pc r' = r_pc r \/ written (r_pc r) = true /\ written (r_pc r') = true) /\ r_task r' = r_task r) ->
  (forall id r, w_runs w !! id = Some r -> exists r', w_runs w' !! id = Some r' /\ written (r_pc r') = written (r_pc r)) ->
  (forall id s, status_of w' id = Some s -> status_of w id = Some s \/ rests s) ->
  Live w'.
Proof.
  intros [Hf Hr] Hg Hback Hfwd Hst. split.
  - intros id r' Hx. destruct (Hback _ _ Hx) as (r & Hr0 & Hp & Ht). specialize (Hf _ _ Hr0).
    destruct r as [t re ca c], r' as [t' re' ca' c']. cbn in *. subst t'. unfold fits in *. cbn in *.
    destruct Hp as [->|[Hw Hw']].
    + pose proof (Hg id). destruct c as [| |[]|[] ? []| | | | | | | | | | |]; naive_solver.
    + destruct c, c'; try done; by apply Hg.
  - intros id s Hs. destruct (Hst _ _ Hs) as [Hs'|]; [|by left].
    destruct (Hr _ _ Hs') as [|(r & Hx & Hw)]; [by left|right].
    destruct (Hfwd _ _ Hx) as (r' & Hx' & Hw'). exists r'. by rewrite Hw'.
Qed.

Lemma wants_rests v t a : wants v t a -> rests (TStatus t).
Proof.
  unfold wants, rests. destruct a; [intros -> | intros -> | intros [-> _]]; [left|left|by right; right]; by destruct v.
Qed.

Lemma live_decide w d now i w' :
  Inv w -> Live w -> w_lock w = Some d -> decide_step now i d w = Some w' -> Live w'.
Proof.
  intros HI HL Hd E. pose proof (decide_step_effect _ _ _ _ _ E) as [Hback Hforth Hs].
  apply (live_same w w' HL).
  - intros id. unfold Get. destruct Hs as [->|(t & old & a & t' & Hpc & _ & Hs)]; [done|].
    rewrite Hs, lookup_insert_is_Some. destruct (decide (ID t = id)) as [<-|]; [|naive_solver].
    split; [|by left]. intros _. pose proof (i_lock _ HI _ Hd) as Hlk. unfold lock_ok in Hlk. rewrite Hpc in Hlk.
    destruct Hlk as (-> & _ & [(s & Hst & _) _] & _). unfold status_of, Get in Hst.
    destruct (tasks (w_store w) !! d_id d); [by eexists|done].
  - intros id r' Hr'. destruct (Hback _ _ Hr') as (r & Hr & Hp & Ht). exists r. auto.
  - intros id r Hr. destruct (Hforth _ _ Hr) as (r' & Hr' & Hp). exists r'. by rewrite Hp.
  - intros id s Hst. destruct (decide_status _ _ _ _ _ id HI Hd E) as [Hs'|(t & a & Hs' & _ & _ & _ & Hw)].
    + left. by rewrite <- Hs'.
    + right. rewrite Hst in Hs'. injection Hs' as ->. by eapply wants_rests.
Qed.

Lemma live_register w c t :
  Live w -> c = AtCheck \/ c = AtStart -> w_runs w !! ID t = None -> live (TStatus t) ->
  is_Some (Get (ID t) (w_store w)) \/ fresh_task t -> Live (register c t w).
Proof.
  intros [Hf Hr] Hc Hn Hl Ht. split.
  - intros id r. cbn. rewrite lookup_insert_Some. intros [[<- <-]|[_ Hx]]; [|by apply Hf].
    unfold fits. cbn. by destruct Hc as [-> | ->].
  - intros id s Hs. destruct (Hr id s Hs) as [|(r & Hx & Hw)]; [by left|right].
    exists r. split; [|done]. cbn. rewrite lookup_insert_ne; [done|]. intros E. by rewrite E, Hx in Hn.
Qed.

Lemma live_step w w' : reachable init step w -> Live w -> step w w' -> Live w'.
Proof.
  intros Hw HL Hst. pose proof (disp_inv_reachable _ _ _ Hw) as HI.
  pose proof (never_skipped _ _ w' (reachable_step _ _ _ _ Hw Hst)) as Hskip.
  destruct Hst as [id r now i r' s' tr ch Hr Hg E|id r res Hr Hp|id r Hr|Hc|n c src id g git cwd wk p now Hn Hc Hr Hg Hid
    |v id Hl|d now i w' Hd _ E|d v Hd Hp].
  - eapply live_run; try done. apply (Hskip id). cbn. by rewrite lookup_insert_eq.
  - apply (live_same w); try done; cbn.
    + intros j x. rewrite lookup_insert_Some. intros [[<- <-]|[_ Hx]]; [exists r|by exists x; auto].
      split_and!; [done| |done]. right. by rewrite Hp.
    + intros j x Hx. destruct (decide (id = j)) as [->|Hne].
      * eexists. rewrite lookup_insert_eq. split; [done|]. rewrite Hx in Hr. injection Hr as ->. by rewrite Hp.
      * exists x. by rewrite lookup_insert_ne.
    + auto.
  - apply (live_same w); try done; cbn.
    + intros j x. rewrite lookup_insert_Some. intros [[<- <-]|[_ Hx]]; [exists r|exists x]; auto.
    + intros j x Hx. destruct (decide (id = j)) as [->|Hne].
      * eexists. rewrite lookup_insert_eq. split; [done|]. by rewrite Hx in Hr; injection Hr as ->.
      * exists x. by rewrite lookup_insert_ne.
    + auto.
  - by destruct HL.
  - apply live_register; [by destruct HL|done|done|by left|]. right. split_and!; [done| |done]. cbn. by destruct (g || negb git).
  - by destruct HL.
  - by eapply live_decide.
  - by destruct HL.
Qed.

Lemma skipped_rests t : skipped t = true -> rests (TStatus t).
Proof.
  unfold skipped, rests. intros [[Ht|Ht]%orb_true_iff|Ht]%orb_true_iff; [by left|right; left|right; right];
    by apply String.eqb_eq in Ht.
Qed.

Lemma skipped_live t : skipped t = false -> live (TStatus t) \/ rests (TStatus t) -> live (TStatus t).
Proof. unfold skipped, rests. intros Hs [?|Hr]; [done|exfalso]. bools. destruct Hr as [Hr|[Hr|Hr]]; congruence. Qed.

Lemma live_resume ts w :
  (forall id r, w_runs w !! id = Some r -> fits (is_Some (Get id (w_store w))) r) ->
  (forall id s, status_of w id = Some s ->
     rests s \/ (exists r, w_runs w !! id = Some r /\ written (r_pc r) = false) \/ exists t, t ∈ ts /\ ID t = id) ->
  (forall t, t ∈ ts -> Get (ID t) (w_store w) = Some t /\ (live (TStatus t) \/ rests (TStatus t))) ->
  Live (foldl (fun w t => if skipped t then w else launch t w) w ts).
Proof.
  revert w. induction ts as [|t ts IH]; intros w Hf Hr Hin; cbn [foldl].
  { split; [done|]. intros id s Hs. destruct (Hr id s Hs) as [?|[?|(t & Ht & _)]]; [by left|by right|by inversion Ht]. }
  destruct (Hin t) as [Hg Hl]; [by left|].
  destruct (skipped t) eqn:Hsk; apply IH; try (intros u Hu; apply Hin; by right); try done.
  - intros id s Hs. destruct (Hr id s Hs) as [?|[?|(u & Hu & <-)]]; [by left|by right; left|].
    apply elem_of_cons in Hu as [-> |Hu]; [left|by right; right; exists u].
    apply Get_status in Hg. rewrite Hs in Hg. injection Hg as ->. by apply skipped_rests.
  - intros id r. cbn. rewrite lookup_insert_Some. intros [[<- <-]|[_ Hx]]; [|by apply Hf].
    unfold fits. cbn. split; [by apply skipped_live|left]. by eexists.
  - intros id s Hs. destruct (decide (ID t = id)) as [<-|Hne].
    { right; left. eexists. cbn. rewrite lookup_insert_eq. done. }
    destruct (Hr id s Hs) as [?|[(r & Hx & Hw)|(u & Hu & <-)]]; [by left|right; left|right; right].
    + exists r. cbn. by rewrite lookup_insert_ne.
    + apply elem_of_cons in Hu as [-> |Hu]; [done|by exists u].
Qed.

Lemma resume_status ts w : w_store (foldl (fun w t => if skipped t then w else launch t w) w ts) = w_store w.
Proof. revert w. induction ts as [|t ts IH]; intros w; [done|]. cbn [foldl]. rewrite IH. by destruct (skipped t). Qed.

Lemma live_init w : init_known w -> Live w.
Proof.
  intros [(content & trees & E) Hk]. unfold Init in E. destruct (Open content) as [s|] eqn:Eo; [|done].
  injection E as <-. destruct (List_wf _ (Open_wf _ _ Eo)) as (ts & HL & Hord & _ & Hin).
  unfold resumeInterrupted in *. cbn [w_store] in *. rewrite HL in *. cbn [default] in *.
  assert (Hst : forall id t, Get id s = Some t -> live (TStatus t) \/ rests (TStatus t)).
  { intros id t Ht. apply (Hk id). unfold status_of. rewrite resume_status. cbn. by rewrite Ht. }
  apply live_resume; cbn.
  - done.
  - intros id st Hs. right; right. unfold status_of, Get in Hs. cbn in Hs.
    destruct (tasks s !! id) as [t|] eqn:Et; [|done]. exists t.
    destruct (wf_key _ _ (Open_wf _ _ Eo) _ _ Et) as [<- _]. split; [by apply Hin|done].
  - intros t Ht. apply Hin in Ht. split; [done|by eapply Hst].
Qed.

(** C26: no task is left behind. In every state the daemon reaches while its
    writes to the store succeed, from a store file whose statuses it knows, a
    task of the store rests in a final status, waits for its review or is being
    merged, or has a run that is still registered and has yet to write. *)
Theorem no_task_is_left_behind w id s :
  reachable init_known step w -> status_of w id = Some s ->
  rests s \/ id ∈ w_running w /\ exists r, w_runs w !! id = Some r /\ over (r_pc r) = false.
Proof.
  intros Hw. assert (reachable init step w /\ Live w) as [Hw' HL].
  { induction Hw as [w Hi|w w' Hw [IH1 IH2] Hst].
    - split; [apply reachable_init, Hi|by apply live_init].
    - split; [by eapply reachable_step|by eapply live_step]. }
  intros Hs. destruct (l_rests _ HL _ _ Hs) as [|(r & Hr & Hwr)]; [by left|right].
  assert (over (r_pc r) = false /\ ended (r_pc r) = false) as [Ho He] by (by destruct (r_pc r)).
  split; [|by exists r]. apply (i_running _ (disp_inv_reachable _ _ _ Hw')). by exists r.
Qed.
End nothing_lost.

(** ** A run ends *)

(** The steps a run has left. *)
Definition steps_left (c : pc) : nat :=
  match c with
  | AtCheck => 22 | AtStart => 21
  | AtGet PQueued _ => 20 | AtSave PQueued _ _ => 19 | AtPrepare => 18
  | AtGet PPrepared _ => 17 | AtSave PPrepared _ _ => 16
  | AtGet PDispatching _ => 15 | AtSave PDispatching _ _ => 14
  | AtVerify => 14 | AtWorker => 13 | AtSession => 12
  | AtGet PWorking _ => 11 | AtSave PWorking _ _ => 10 | AtPrompt => 9 | AtCollect => 8
  | AtGet PReview _ => 7 | AtSave PReview _ _ => 6
  | AtFail _ | AtCancelInto _ => 5
  | AtGet _ _ => 4 | AtSave _ _ _ => 3 | AtCleanup _ => 2 | AtEnd _ => 1 | Ended _ => 0
  end.

Section ends.
Context `{JsonCodec Task}.

Lemma run_step_descends now i r s trees r' s' trees' ch :
  run_step now i r s trees = Some (r', s', trees', ch) -> steps_left (r_pc r') < steps_left (r_pc r).
Proof.
  destruct r as [t res can c]. unfold run_step. cbn [r_pc r_task r_cancelled r_resuming].
  assert (Hadv : forall to p u, steps_left (r_pc (advance_to now to p u)) = steps_left (AtGet p "")
      \/ steps_left (r_pc (advance_to now to p u)) = 5).
  { intros to p u. unfold advance_to. destruct (Transition _ _ _); auto. }
  destruct c, i; try discriminate; intros E; simplify_eq/=.
  - destruct (Get _ s); [destruct (String.eqb _ _)|]; simplify_eq/=; lia.
  - unfold start_run. cbn. destruct (resuming t); cbn; lia.
  - destruct n as [| | | | |[]|]; cbn; lia.
  - destruct (put _ _ _ _ _) as [[t' s1] [e|]]; simplify_eq/=.
    + destruct n as [| | | | |[]|]; cbn; lia.
    + destruct n as [| | | | |[]|]; cbn; try lia. unfold saved. destruct (Hadv StatusDispatching PDispatching
        (with_task t' (mkRun t res can (AtSave PPrepared cause old)))) as [-> | ->]; cbn; lia.
  - destruct (prepare _ _ _ _) as [[t' tr] [e|]]; simplify_eq/=; lia.
  - destruct (verifyWorkspace _ _ _); cbn; lia.
  - destruct err; cbn; lia.
  - destruct (establishSession _ _ _) as [t' [e|]]; simplify_eq/=; [lia|].
    unfold to_working. destruct (String.eqb _ _); cbn; [lia|].
    match goal with |- context [advance_to ?a ?b ?c ?d] => destruct (Hadv b c d) as [-> | ->] end; cbn; lia.
  - destruct err as [e|]; [simplify_eq/=; destruct can; cbn; lia|]. destruct (String.eqb _ _); simplify_eq/=; [lia|].
    match goal with |- context [advance_to ?a ?b ?c ?d] => destruct (Hadv b c d) as [-> | ->] end; cbn; lia.
  - destruct (collectCommitsWith _); simplify_eq/=; [|lia].
    match goal with |- context [advance_to ?a ?b ?c ?d] => destruct (Hadv b c d) as [-> | ->] end; cbn; lia.
  - unfold fail. destruct (FailInto _ _ _); cbn; lia.
  - unfold cancelInto. destruct (Transition _ _ _); [cbn; lia|]. destruct (FailInto _ _ _); cbn; lia.
  - lia.
Qed.

Lemma run_step_enabled now r s trees : over (r_pc r) = false -> exists i, is_Some (run_step now i r s trees).
Proof.
  destruct r as [t res can c]. unfold run_step. cbn [r_pc r_task r_cancelled r_resuming].
  destruct c; intros Ho; try discriminate; try (exists ITick; cbn; repeat case_match; by eexists).
  - exists (IWrite WriteOk). by destruct (put _ _ _ _ _) as [[? ?] []]; eexists.
  - exists (IPrepare (mkPrepareEnv None None None None)). by destruct (prepare _ _ _ _) as [[? ?] ?]; eexists.
  - exists (IGit None). by eexists.
  - exists (IWorker None). by eexists.
  - exists (ISession (mkSessionEnv false false None)). by destruct (establishSession _ _ _) as [? []]; eexists.
  - exists (IPrompt (Some "")). by eexists.
  - exists (IGit None). by destruct (collectCommitsWith _); eexists.
  - exists (IGit None). by eexists.
Qed.

(** The steps of one run, the store and the worktrees being whatever the others
    made of them in between. *)
Inductive course : nat -> run -> run -> Prop :=
  | course_nil r : course 0 r r
  | course_cons n r r1 r2 now i s trees s' trees' ch :
      run_step now i r s trees = Some (r1, s', trees', ch) -> course n r1 r2 -> course (S n) r r2.

(** C27: a run ends. Whatever the others do to the store and the worktrees in
    between, and whatever git, the worker and the disk answer, a run takes at
    most 22 steps; and as long as it is not over, it has a step to take. *)
Theorem a_run_ends n r r' :
  course n r r' -> n <= 22
  /\ (over (r_pc r') = false -> forall now s trees, exists i, is_Some (run_step now i r' s trees)).
Proof.
  intros Hc. split; [|intros Ho now s trees; by apply run_step_enabled].
  assert (n + steps_left (r_pc r') <= steps_left (r_pc r)).
  { induction Hc as [|n r r1 r2 now i s tr s' tr' ch E Hc IH]; [lia|]. apply run_step_descends in E. lia. }
  assert (steps_left (r_pc r) <= 22); [|lia].
  destruct (r_pc r) as [| |[]|[]| | | | | | | | | | |]; cbn; lia.
Qed.

(** What a run leaves on the disk. A run removes no worktree but that of its
    own task; and once its context is cancelled it removes none: the command of
    git that should do it runs under that context. *)
Theorem what_a_run_removes now i r s trees r' s' trees' ch :
  run_step now i r s trees = Some (r', s', trees', ch) ->
  trees ⊆ trees' ∪ {[Worktree (r_task r)]} /\ (r_cancelled r = true -> trees ⊆ trees').
Proof.
  destruct r as [t res can c]. unfold run_step. cbn [r_pc r_task r_cancelled r_resuming].
  destruct c, i; try discriminate; intros E; simplify_eq/=;
    try (repeat (case_match; simplify_eq/=); split; intros; set_solver).
  - destruct (prepare _ _ _ _) as [[t' tr] e] eqn:Ep. simplify_eq/=.
    assert (trees ⊆ trees'); [|split; intros; set_solver].
    unfold prepare, addWorktreeWith in Ep. repeat (case_match; simplify_eq/=); set_solver.
  - unfold cleanupCodeWorkspace, removeWorktreeWith, runGit. destruct (_ || _); [split; intros; set_solver|].
    destruct can; [split; intros; set_solver|]. destruct out; split; try done; intros; [|set_solver].
    intros x Hx. destruct (decide (x = Worktree t)); set_solver.
Qed.
End ends.
