(* ===== verification/DispatcherRuns.v ===== *)
(** * The dispatcher plugin: schedules

    Executable schedules of the system of [Dispatcher], with writes that succeed,
    and what they show: a cancellation that overwrites a failure, more runs than
    [max_parallel], a task that is stuck while it is merged, and the witnesses of
    the theorems. *)

From S2P Require Import Prelude GoString GoPath JsonLines DispatchTask DispatchStore DispatchOrch Dispatcher.
From S2P Require Import DispatcherProps DispatcherLive.
Import Task Store.
#[local] Open Scope string_scope.
#[local] Open Scope list_scope.

Inductive label : Type :=
  | LRun (id : string) (now : Time) (i : input)
  | LExit (id : string)
  | LInterrupt (id : string)
  | LAdmit
  | LSubmit (c : pc) (source id : string) (general git : bool) (cwd worker prompt : string) (now : Time)
  | LLock (v : verb) (id : string)
  | LDecide (now : Time) (i : input)
  | LUnlock.

Section schedule.
Context `{JsonCodec Task}.
Context (maxParallel : Z).
#[local] Abbreviation good := (fun w => w = WriteOk).

Definition good_input (i : input) : bool := match i with IWrite WriteOk => true | IWrite _ => false | _ => true end.

Definition do_label (l : label) (w : world) : option world :=
  match l with
  | LRun id now i =>
      if negb (good_input i) then None else
      match w_runs w !! id with
      | Some r =>
          match run_step now i r (w_store w) (w_trees w) with
          | Some (r', s', trees', told') => Some (set_run id r' (effects s' trees' told' w))
          | None => None
          end
      | None => None
      end
  | LExit id =>
      match w_runs w !! id with
      | Some r => match r_pc r with AtEnd res => Some (deregister id r res w) | _ => None end
      | None => None
      end
  | LInterrupt id => (fun r => set_run id (cancel_ctx r) w) <$> w_runs w !! id
  | LAdmit => if atCapacity maxParallel w then None else Some (set_admitted (S (w_admitted w)) w)
  | LSubmit c source id general git cwd worker prompt now =>
      match w_admitted w, w_runs w !! id, Get id (w_store w), c with
      | S n, None, None, AtCheck | S n, None, None, AtStart =>
          if String.eqb id "" then None
          else Some (register c (newTask source id general git cwd worker prompt now) (set_admitted n w))
      | _, _, _, _ => None
      end
  | LLock v id => match w_lock w with None => Some (set_lock (Some (mkDecision v id DStart)) w) | Some _ => None end
  | LDecide now i =>
      if negb (good_input i) then None
      else match w_lock w with Some d => decide_step now i d w | None => None end
  | LUnlock =>
      match w_lock w with
      | Some d => match d_pc d with DEnd v => Some (answer d v w) | _ => None end
      | None => None
      end
  end.

Fixpoint do_labels (ls : list label) (w : world) : option world :=
  match ls with [] => Some w | l :: ls' => match do_label l w with Some w' => do_labels ls' w' | None => None end end.

Lemma do_label_step l w w' : do_label l w = Some w' -> step maxParallel good w w'.
Proof.
  assert (Hg : forall i, good_input i = true -> allowed good i) by (intros [| [] | | | | |]; done).
  destruct l as [id now i|id|id| |c src id g git cwd wk p now|v id|now i|]; cbn; intros E.
  - destruct (good_input i) eqn:Ei; [|done]. cbn in E. destruct (w_runs w !! id) eqn:Er; [|done].
    destruct (run_step _ _ _ _ _) as [[[[r' s'] tr] ch]|] eqn:Es; [|done]. injection E as <-. eapply step_run; eauto.
  - destruct (w_runs w !! id) eqn:Er; [|done]. destruct (r_pc _) eqn:Ep; try done. injection E as <-. by eapply step_exit.
  - destruct (w_runs w !! id) eqn:Er; [|done]. injection E as <-. by apply step_interrupt.
  - destruct (atCapacity _ _) eqn:Ec; [done|]. injection E as <-. by apply step_admit.
  - destruct (w_admitted w) eqn:Ea; [done|]. destruct (w_runs w !! id) eqn:Er; [done|].
    destruct (Get id (w_store w)) eqn:Eg; [done|].
    assert ((c = AtCheck \/ c = AtStart) /\ id <> ""
      /\ w' = register c (newTask src id g git cwd wk p now) (set_admitted n w)) as (Hc & Hid & ->).
    { destruct (String.eqb_spec id ""); [by destruct c|]. destruct c; try done; injection E as <-; auto. }
    eapply step_submit; eauto.
  - destruct (w_lock w) eqn:El; [done|]. injection E as <-. by apply step_lock.
  - destruct (good_input i) eqn:Ei; [|done]. cbn in E. destruct (w_lock w) eqn:El; [|done]. eapply step_decide; eauto.
  - destruct (w_lock w) eqn:El; [|done]. destruct (d_pc _) eqn:Ep; try done. injection E as <-. by apply step_unlock.
Qed.

Lemma do_labels_rtc ls w w' : do_labels ls w = Some w' -> rtc (step maxParallel good) w w'.
Proof.
  revert w. induction ls as [|l ls IH]; intros w; cbn; [by intros [= <-]|].
  destruct (do_label l w) as [w1|] eqn:E; [|done]. intros Hr. eapply rtc_l; [by eapply do_label_step|by apply IH].
Qed.
End schedule.

(** ** Schedules *)

Section samples.
Import Examples.
#[local] Abbreviation runs_to := (fun ls w => do_labels 1 ls w).

Definition w0 : world := mkWorld (mkStore [] ∅ []) ∅ ∅ ∅ None 0 [] [].

(** A synchronous general task up to its review, and one whose worker does not start. *)
Definition submit (id : string) : list label := [LAdmit; LSubmit AtStart "acp" id false false "/r" "w" "p" 1].
Definition tick (id : string) : label := LRun id 2 ITick.
Definition save (id : string) : list label := [tick id; LRun id 2 (IWrite WriteOk)].
Definition no_git : prepare_env := mkPrepareEnv None None None None.
Definition to_worker (id : string) : list label :=
  [tick id] ++ save id ++ [LRun id 2 (IPrepare no_git)] ++ save id ++ save id.
Definition to_review (id : string) : list label :=
  to_worker id ++ [LRun id 2 (IWorker None); LRun id 2 (ISession (mkSessionEnv false false (Some "s")))]
  ++ save id ++ [LRun id 2 (IPrompt None)] ++ save id ++ [LExit id].
Definition to_failed (id : string) : list label :=
  [LRun id 2 (IWorker (Some "no such command")); tick id] ++ save id ++ [LRun id 2 (IGit None); LExit id].

Definition decide_all (v : verb) (id : string) : list label :=
  [LLock v id; LDecide 3 ITick; LDecide 3 ITick; LDecide 3 (IWrite WriteOk)].

(** Where a schedule ends. *)
Definition end_of (ls : list label) : world := default w0 (do_labels 1 ls w0).

Lemma w0_init : init_known w0.
Proof. split; [by exists None, ∅|]. intros id s Hs.
  change (TStatus <$> (∅ : gmap string Task) !! id = Some s) in Hs. by rewrite lookup_empty in Hs. Qed.

#[local] Abbreviation step1 := (step 1 (fun w => w = WriteOk)).

Lemma end_of_reachable ls : is_Some (do_labels 1 ls w0) -> reachable init_known step1 (end_of ls).
Proof.
  intros [w E]. unfold end_of. rewrite E. cbn. eapply reachable_rtc; [apply reachable_init, w0_init|].
  by apply (do_labels_rtc 1 ls).
Qed.

Lemma reachable_known w : reachable init_known step1 w -> reachable init step1 w.
Proof.
  intros Hw. induction Hw as [w [Hi _]|w w' _ IH Hst]; [by apply reachable_init|by eapply reachable_step].
Qed.

Lemma end_of_step ls l :
  is_Some (do_labels 1 ls w0) -> do_label 1 l (end_of ls) = Some (end_of (ls ++ [l])) -> step1 (end_of ls) (end_of (ls ++ [l])).
Proof. intros _. apply do_label_step. Qed.

Definition reviewed : list label := submit "a" ++ to_review "a".
Definition approved : list label := reviewed ++ decide_all Approve "a".
Definition failed_unseen : list label :=
  submit "a" ++ to_worker "a" ++ [LLock Cancel "a"; LDecide 3 ITick] ++ to_failed "a" ++ [LDecide 3 ITick; LDecide 3 ITick].

(** A decision that looked at the task while it ran can store its cancellation
    over the failure that ended the run, a change the state machine forbids, and
    report it to those who listen. *)
Theorem a_cancel_can_overwrite_a_failure :
  let w := end_of failed_unseen in let w' := end_of (failed_unseen ++ [LDecide 3 (IWrite WriteOk)]) in
  reachable init_known step1 w /\ step1 w w'
  /\ status_of w "a" = Some StatusFailed /\ status_of w' "a" = Some StatusCancelled
  /\ CanTransition StatusFailed StatusCancelled = false
  /\ last (w_events w') = Some ("a", StatusFailed, StatusCancelled).
Proof.
  split_and!.
  - apply end_of_reachable. vm_compute. by eexists.
  - apply end_of_step; vm_compute; [by eexists|done].
  - by vm_compute.
  - by vm_compute.
  - done.
  - by vm_compute.
Qed.

(** Two submitters that see the same free place both take it. *)
Definition two_at_once : list label :=
  [LAdmit; LAdmit; LSubmit AtStart "acp" "a" false false "/r" "w" "p" 1; LSubmit AtStart "acp" "b" false false "/r" "w" "p" 1].

Theorem max_parallel_is_not_a_bound :
  reachable init_known step1 (end_of two_at_once) /\ size (w_running (end_of two_at_once)) = 2.
Proof. split; [apply end_of_reachable; vm_compute; by eexists|by vm_compute]. Qed.

(** A task cancelled before its prompt ends as failed. *)
Definition cancelled_early : list label :=
  submit "a" ++ to_worker "a" ++ [LLock Cancel "a"; LDecide 3 ITick; LDecide 3 ITick; LDecide 3 ITick; LUnlock] ++ to_failed "a".

Theorem an_early_cancel_fails_the_task :
  let w := end_of cancelled_early in
  reachable init_known step1 w /\ w_answers w = [(Cancel, "a", VCancelling)] /\ status_of w "a" = Some StatusFailed.
Proof. split_and!; [apply end_of_reachable; vm_compute; by eexists|by vm_compute|by vm_compute]. Qed.

(** What [resumeInterrupted] leaves to [--complete], [--complete] refuses. *)
Theorem complete_refuses_a_merging_task now t :
  TStatus t = StatusMerging -> TKind t = KindCode ->
  skipped t = true /\ doComplete now (Some t) = DEnd (VStatus StatusMerging).
Proof. intros Hs Hk. unfold skipped, doComplete. by rewrite Hs, Hk. Qed.
(** The codec of the samples encodes every task. *)
Lemma countable_marshals (t : Task) : is_Some (marshal t).
Proof. by eexists. Qed.

(** ** Witnesses *)

Definition after_approval : list label := [LUnlock; LLock Reject "a"; LDecide 4 ITick; LUnlock].

Lemma a_decision_is_final_witness :
  status_of (end_of approved) "a" = Some StatusDone
  /\ status_of (default w0 (do_labels 1 after_approval (end_of approved))) "a" = Some StatusDone.
Proof.
  split; [by vm_compute|].
  apply (a_decision_is_final 1 (fun w => w = WriteOk) (end_of approved)).
  - apply reachable_known, end_of_reachable. vm_compute. by eexists.
  - apply (do_labels_rtc 1 after_approval). by vm_compute.
  - by vm_compute.
  - by left.
Defined.

Definition approving : list label := reviewed ++ [LLock Approve "a"; LDecide 3 ITick; LDecide 3 ITick].

Lemma decided_by_the_operator_witness :
  (exists d, w_lock (end_of approving) = Some d /\ d_id d = "a" /\ target (d_verb d) = StatusDone)
  /\ (status_of (end_of approving) "a" = Some StatusAwaitingReview \/ status_of (end_of approving) "a" = Some StatusMerging).
Proof.
  apply (decided_by_the_operator 1 (fun w => w = WriteOk) (end_of approving) (end_of (approving ++ [LDecide 3 (IWrite WriteOk)]))).
  - apply reachable_known, end_of_reachable. vm_compute. by eexists.
  - apply end_of_step; vm_compute; [by eexists|done].
  - by vm_compute.
  - by vm_compute.
  - by left.
Defined.

Lemma the_answer_is_true_witness :
  status_of (end_of approved) "a" = Some StatusDone /\ quiet (end_of approved) "a".
Proof.
  apply (the_answer_is_true 1 (fun w => w = WriteOk) (end_of approved) (mkDecision Approve "a" (DEnd VOk))).
  - apply reachable_known, end_of_reachable. vm_compute. by eexists.
  - by vm_compute.
  - done.
Defined.

Definition launched : list label :=
  [LAdmit; LSubmit AtCheck "repl" "a" true true "/r" "w" "p" 1; LLock Cancel "a"; LDecide 2 ITick; tick "a"].

Lemma launch_is_never_skipped_witness :
  exists r, w_runs (end_of launched) !! "a" = Some r /\ skips (r_pc r) = false.
Proof.
  eexists. split; [by vm_compute|].
  apply (launch_is_never_skipped 1 (fun w => w = WriteOk) (end_of launched) "a").
  - apply reachable_known, end_of_reachable. vm_compute. by eexists.
  - by vm_compute.
Defined.

Definition at_work : list label := submit "a" ++ to_worker "a".

Lemma no_task_is_left_behind_witness :
  status_of (end_of at_work) "a" = Some StatusDispatching
  /\ (rests StatusDispatching \/ "a" ∈ w_running (end_of at_work)
       /\ exists r, w_runs (end_of at_work) !! "a" = Some r /\ over (r_pc r) = false).
Proof.
  split; [by vm_compute|]. apply (no_task_is_left_behind (countable_marshals) 1).
  - apply end_of_reachable. vm_compute. by eexists.
  - by vm_compute.
Defined.

Definition run0 : run := mkRun (newTask "repl" "a" true true "/r" "w" "p" 1) false false AtStart.
Definition run1 : run := at_pc (AtGet PQueued "") run0.

Lemma a_run_ends_witness :
  1 <= 22 /\ forall now s trees, exists i, is_Some (run_step now i run1 s trees).
Proof.
  destruct (a_run_ends 1 run0 run1) as [H1 H2].
  - apply (course_cons 0 run0 run1 run1 1 ITick (mkStore [] ∅ []) ∅ (mkStore [] ∅ []) ∅ []); [done|constructor].
  - split; [exact H1|]. intros now s trees. by apply H2.
Defined.

Definition code_task : Task := set_Workspace "b" "/r/.goworker/dispatch/a" "dispatch/a" (newTask "acp" "a" false true "/r" "w" "p" 1).

Lemma what_a_run_removes_witness :
  ({["/r/.goworker/dispatch/a"]} : gset string) ⊆ {["/r/.goworker/dispatch/a"]} ∪ {[Worktree code_task]}.
Proof.
  apply (what_a_run_removes 1 (IGit (Some "")) (mkRun code_task false true (AtCleanup "c")) (mkStore [] ∅ [])
    {["/r/.goworker/dispatch/a"]} (mkRun code_task false true (AtEnd (RunErr "c"))) (mkStore [] ∅ [])
    {["/r/.goworker/dispatch/a"]} []). by vm_compute.
Defined.
End samples.
