(* ===== verification/GoFloat.v ===== *)
(** * Go's float64

    The operations of IEEE 754 binary64 as the standard library specifies them,
    with the order of the numbers and bounds on their magnitude: positive
    operands of moderate size give a positive, finite result. *)

From Stdlib Require Export SpecFloat.
From S2P Require Import Prelude.
#[local] Open Scope Z_scope.

Definition float64 : Type := spec_float.

Definition f64_of_Z (z : Z) : float64 := binary_normalize 53 1024 z 0 false.
Definition fadd : float64 -> float64 -> float64 := SFadd 53 1024.
Definition fdiv : float64 -> float64 -> float64 := SFdiv 53 1024.
Definition fltb : float64 -> float64 -> bool := SFltb.
Definition feqb : float64 -> float64 -> bool := SFeqb.
Definition fzero : float64 := S754_zero false.

(** ** The order *)

(** A key of a number, ordered as the numbers are. *)
Definition fkey (x : float64) : Z * Z * Z :=
  match x with
  | S754_zero _ | S754_nan => (0, 0, 0)
  | S754_infinity s => (if s then -2 else 2, 0, 0)
  | S754_finite s m e => if s then (-1, - e, Z.neg m) else (1, e, Z.pos m)
  end.

Definition lex3_lt (a b : Z * Z * Z) : Prop :=
  let '(a1, a2, a3) := a in let '(b1, b2, b3) := b in
  a1 < b1 \/ (a1 = b1 /\ (a2 < b2 \/ (a2 = b2 /\ a3 < b3))).

Lemma SFcompare_key x y : x <> S754_nan -> y <> S754_nan ->
  match SFcompare x y with
  | Some Lt => lex3_lt (fkey x) (fkey y)
  | Some Eq => fkey x = fkey y
  | Some Gt => lex3_lt (fkey y) (fkey x)
  | None => False
  end.
Proof.
  intros Hx Hy. destruct x as [sx|sx| |sx mx ex], y as [sy|sy| |sy my ey]; try done;
    try (destruct sx); try (destruct sy); cbn; try reflexivity; try lia.
  - destruct (Z.compare_spec ex ey); cbn; [|lia|lia]. subst.
    change (Pos.compare_cont Eq mx my) with (Pos.compare mx my). destruct (Pos.compare_spec mx my); cbn; [by subst|lia|lia].
  - destruct (Z.compare_spec ex ey); cbn; [|lia|lia]. subst.
    change (Pos.compare_cont Eq mx my) with (Pos.compare mx my). destruct (Pos.compare_spec mx my); cbn; [by subst|lia|lia].
Qed.

Lemma feqb_key x y : x <> S754_nan -> y <> S754_nan -> feqb x y = true <-> fkey x = fkey y.
Proof.
  intros Hx Hy. pose proof (SFcompare_key x y Hx Hy) as Hc. unfold feqb, SFeqb.
  destruct (SFcompare x y) as [[]|]; [done|..|done]; split; try done; intros E; rewrite E in Hc;
    destruct (fkey y) as [[a b] c]; unfold lex3_lt in Hc; lia.
Qed.

Lemma fltb_key x y : x <> S754_nan -> y <> S754_nan -> fltb x y = true <-> lex3_lt (fkey x) (fkey y).
Proof.
  intros Hx Hy. pose proof (SFcompare_key x y Hx Hy) as Hc. unfold fltb, SFltb.
  destruct (SFcompare x y) as [[]|]; [..|done]; split; try done; intros E; exfalso;
    destruct (fkey x) as [[a b] c], (fkey y) as [[a' b'] c']; unfold lex3_lt in *; [injection Hc; lia|lia].
Qed.

Lemma fltb_not_nan x y : fltb x y = true -> x <> S754_nan /\ y <> S754_nan.
Proof. unfold fltb, SFltb. destruct x, y; cbn; try done; by repeat case_match. Qed.

(** ** Magnitudes *)

Lemma digits2_pos_bounds p : 2 ^ (Z.pos (digits2_pos p) - 1) <= Z.pos p < 2 ^ Z.pos (digits2_pos p).
Proof.
  induction p as [p IH|p IH|]; cbn [digits2_pos]; [| |done].
  - rewrite Pos2Z.inj_succ. replace (Z.succ (Z.pos (digits2_pos p)) - 1) with (Z.succ (Z.pos (digits2_pos p) - 1)) by lia.
    rewrite !Z.pow_succ_r by lia. lia.
  - rewrite Pos2Z.inj_succ. replace (Z.succ (Z.pos (digits2_pos p)) - 1) with (Z.succ (Z.pos (digits2_pos p) - 1)) by lia.
    rewrite !Z.pow_succ_r by lia. lia.
Qed.

Lemma Zdigits2_bounds m : 0 < m -> 2 ^ (Zdigits2 m - 1) <= m < 2 ^ Zdigits2 m /\ 1 <= Zdigits2 m.
Proof. destruct m as [|p|p]; [lia| |lia]. intros _. split; [apply digits2_pos_bounds|]. cbn. lia. Qed.

Lemma Zdigits2_unique m d : 0 < m -> 2 ^ (d - 1) <= m < 2 ^ d -> 1 <= d -> Zdigits2 m = d.
Proof.
  intros Hm Hb Hd. destruct (Zdigits2_bounds m Hm) as [Hb' Hd'].
  assert (H1 : Zdigits2 m - 1 < d) by (apply (Z.pow_lt_mono_r_iff 2); lia).
  assert (H2 : d - 1 < Zdigits2 m) by (apply (Z.pow_lt_mono_r_iff 2); lia). lia.
Qed.

(** A number of sign [s] with its absolute value below [2 ^ hi] and not below
    [2 ^ (lo - 1)], with at most 53 digits. *)
Definition sized (s : bool) (lo hi : Z) (x : float64) : Prop :=
  exists m e, x = S754_finite s m e /\ lo <= Zdigits2 (Z.pos m) + e <= hi /\ Zdigits2 (Z.pos m) <= 53.

Lemma iter_pos_iter {A} (f : A -> A) p x : @SpecFloat.iter_pos A f p x = @Pos.iter A f x p.
Proof.
  revert x. induction p as [p IH|p IH|]; intros x; cbn; [|by rewrite IH, IH|done].
  rewrite !IH. by rewrite <- !Pos.iter_swap.
Qed.

Lemma shr_1_m r : 0 <= shr_m r -> shr_m (shr_1 r) = shr_m r / 2.
Proof.
  destruct r as [m b s]. rewrite <- Z.div2_div. cbn [shr_m]. destruct m as [|[p|p|]|p]; try done; lia.
Qed.

Lemma shr_iter_m r p : 0 <= shr_m r -> shr_m (@SpecFloat.iter_pos _ shr_1 p r) = shr_m r / 2 ^ Z.pos p.
Proof.
  rewrite iter_pos_iter. intros Hr. induction p as [|p IH] using Pos.peano_ind.
  - cbn. by apply shr_1_m.
  - rewrite Pos.iter_succ, shr_1_m by (rewrite IH; apply Z.div_pos; lia).
    rewrite IH, Z.div_div by lia. f_equal. rewrite Pos2Z.inj_succ, Z.pow_succ_r by lia. lia.
Qed.

Lemma shift_digits m n : 0 < m -> 0 <= n < Zdigits2 m -> 0 < m / 2 ^ n /\ Zdigits2 (m / 2 ^ n) = Zdigits2 m - n.
Proof.
  intros Hm Hn. destruct (Zdigits2_bounds m Hm) as [[Hlo Hhi] Hd].
  assert (Hp : 0 < 2 ^ n) by (apply Z.pow_pos_nonneg; lia).
  assert (H1 : 2 ^ (Zdigits2 m - n - 1) <= m / 2 ^ n).
  { apply Z.div_le_lower_bound; [done|]. rewrite <- Z.pow_add_r by lia. by replace (n + _) with (Zdigits2 m - 1) by lia. }
  assert (H2 : m / 2 ^ n < 2 ^ (Zdigits2 m - n)).
  { apply Z.div_lt_upper_bound; [done|]. rewrite <- Z.pow_add_r by lia. by replace (n + _) with (Zdigits2 m) by lia. }
  assert (0 < 2 ^ (Zdigits2 m - n - 1)) by (apply Z.pow_pos_nonneg; lia).
  split; [lia|]. apply Zdigits2_unique; lia.
Qed.

Lemma shr_record_m m l : shr_m (shr_record_of_loc m l) = m.
Proof. by destruct l as [|[]]. Qed.

Lemma shr_fexp_pos m e l :
  0 < m -> -1000 <= Zdigits2 m + e ->
  let '(r, e') := shr_fexp 53 1024 m e l in
  0 < shr_m r /\ Zdigits2 (shr_m r) + e' = Zdigits2 m + e /\ e <= e' <= Z.max e (Zdigits2 m + e - 53)
  /\ Zdigits2 m + e - 53 <= e'.
Proof.
  intros Hm He. unfold shr_fexp, fexp, emin. rewrite Z.max_l by lia.
  destruct (Zdigits2_bounds m Hm) as [_ Hd].
  destruct (Zdigits2 m + e - 53 - e) as [|p|p] eqn:En; cbn [shr].
  - rewrite shr_record_m. lia.
  - rewrite shr_iter_m; rewrite shr_record_m; [|lia]. destruct (shift_digits m (Z.pos p) Hm) as [? ->]; lia.
  - rewrite shr_record_m. lia.
Qed.

Lemma round_even_step m l : 0 < m -> round_nearest_even m l = m \/ round_nearest_even m l = m + 1.
Proof. intros Hm. destruct l as [|[]]; cbn; auto. destruct (Z.even m); auto. Qed.

Lemma Zdigits2_succ m : 0 < m -> Zdigits2 (m + 1) = Zdigits2 m \/ Zdigits2 (m + 1) = Zdigits2 m + 1.
Proof.
  intros Hm. destruct (Zdigits2_bounds m Hm) as [[Hlo Hhi] Hd].
  destruct (Z.eq_dec (m + 1) (2 ^ Zdigits2 m)) as [E|Hne].
  - right. apply Zdigits2_unique; [lia| |lia]. replace (Zdigits2 m + 1 - 1) with (Zdigits2 m) by lia.
    rewrite (Z.pow_add_r 2 (Zdigits2 m) 1) by lia. lia.
  - left. apply Zdigits2_unique; lia.
Qed.

Lemma Zdigits2_le a b : 0 < a <= b -> Zdigits2 a <= Zdigits2 b.
Proof.
  intros H. destruct (Zdigits2_bounds a) as [Ha ?]; [lia|]. destruct (Zdigits2_bounds b) as [Hb ?]; [lia|].
  assert (Zdigits2 a - 1 < Zdigits2 b); [|lia]. apply (Z.pow_lt_mono_r_iff 2); lia.
Qed.

(** Rounding a positive number of moderate size moves its magnitude by one at most. *)
Lemma round_aux_sized s m e l :
  0 < m -> -1000 <= Zdigits2 m + e <= 1000 -> e <= 900 ->
  sized s (Zdigits2 m + e) (Zdigits2 m + e + 1) (binary_round_aux 53 1024 s m e l).
Proof.
  intros Hm Hlo He. unfold binary_round_aux. pose proof (shr_fexp_pos m e l Hm ltac:(lia)) as H1.
  destruct (shr_fexp _ _ m e l) as [r1 e1]. destruct H1 as (Hp1 & Hd1 & He1 & Hf1).
  set (m2 := round_nearest_even _ _).
  assert (Hm2 : 0 < m2 /\ Zdigits2 (shr_m r1) <= Zdigits2 m2 <= Zdigits2 (shr_m r1) + 1).
  { unfold m2. destruct (round_even_step (shr_m r1) (loc_of_shr_record r1) Hp1) as [->| ->]; [lia|].
    destruct (Zdigits2_succ (shr_m r1) Hp1); lia. }
  destruct Hm2 as [Hp2 Hd2]. pose proof (shr_fexp_pos m2 e1 loc_Exact Hp2 ltac:(lia)) as H2.
  destruct (shr_fexp _ _ m2 e1 _) as [r2 e2]. destruct H2 as (Hp3 & Hd3 & He2 & Hf2).
  destruct (shr_m r2) as [|m3|m3]; [lia| |lia].
  rewrite (proj2 (Z.leb_le e2 _)) by lia. exists m3, e2. split; [done|]. lia.
Qed.

Lemma shl_align_digits p ex ex' :
  Zdigits2 (Z.pos (shl_align p ex ex').1) + (shl_align p ex ex').2 = Zdigits2 (Z.pos p) + ex
  /\ ((shl_align p ex ex').2 = Z.min ex ex').
Proof.
  unfold shl_align. destruct (ex' - ex) as [|d|d] eqn:Ed; cbn [fst snd]; [split; lia|split; lia|].
  split; [|lia]. assert (E : Z.pos (Pos.iter xO p d) = Z.pos p * 2 ^ Z.pos d).
  { induction d as [|d IH] using Pos.peano_ind in ex', Ed |- *; [cbn; lia|].
    rewrite Pos.iter_succ, Pos2Z.inj_xO, Pos2Z.inj_succ, Z.pow_succ_r by lia.
    rewrite (IH (ex' + 1)) by lia. lia. }
  destruct (Zdigits2_bounds (Z.pos p)) as [Hb Hd]; [done|].
  rewrite (Zdigits2_unique (Z.pos (Pos.iter xO p d)) (Zdigits2 (Z.pos p) + Z.pos d)); [lia|done| |lia].
  rewrite E. replace (Zdigits2 (Z.pos p) + Z.pos d - 1) with (Zdigits2 (Z.pos p) - 1 + Z.pos d) by lia.
  rewrite !Z.pow_add_r by lia. assert (0 < 2 ^ Z.pos d) by (apply Z.pow_pos_nonneg; lia). nia.
Qed.

Lemma binary_round_sized s p e :
  -1000 <= Zdigits2 (Z.pos p) + e <= 1000 -> e <= 900 ->
  sized s (Zdigits2 (Z.pos p) + e) (Zdigits2 (Z.pos p) + e + 1) (binary_round 53 1024 s p e).
Proof.
  intros Hm He. unfold binary_round.
  pose proof (shl_align_digits p e (fexp 53 1024 (Z.pos (digits2_pos p) + e))) as [H1 H2].
  destruct (shl_align p e _) as [mz ez]. cbn [fst snd] in *. rewrite <- H1.
  apply round_aux_sized; lia.
Qed.

Lemma normalize_sized s m e :
  0 < m -> -1000 <= Zdigits2 m + e <= 1000 -> e <= 900 ->
  sized s (Zdigits2 m + e) (Zdigits2 m + e + 1) (binary_normalize 53 1024 (cond_Zopp s m) e false).
Proof. destruct m as [|p|p]; [lia| |lia]. intros _. destruct s; apply binary_round_sized. Qed.

Lemma sized_weaken s lo hi lo' hi' x : sized s lo hi x -> lo' <= lo -> hi <= hi' -> sized s lo' hi' x.
Proof. intros (m & e & -> & ? & ?) ? ?. exists m, e. split; [done|lia]. Qed.

Lemma f64_of_Z_sized s z : 0 < z <= 2 ^ 63 -> sized s 1 65 (f64_of_Z (cond_Zopp s z)).
Proof.
  intros Hz. destruct (Zdigits2_bounds z) as [Hb Hd]; [lia|].
  assert (Zdigits2 z <= 64). { assert (Zdigits2 z - 1 < 64); [|lia]. apply (Z.pow_lt_mono_r_iff 2); lia. }
  eapply sized_weaken; [apply normalize_sized| |]; lia.
Qed.

Lemma div_mantissa m1 m2 s :
  0 < m1 -> 0 < m2 -> 0 <= s -> Zdigits2 m2 < Zdigits2 m1 + s ->
  0 < m1 * 2 ^ s / m2 /\ Zdigits2 m1 + s - Zdigits2 m2 <= Zdigits2 (m1 * 2 ^ s / m2) <= Zdigits2 m1 + s - Zdigits2 m2 + 1.
Proof.
  intros H1 H2 Hs Hd. destruct (Zdigits2_bounds m1 H1) as [Hb1 ?], (Zdigits2_bounds m2 H2) as [Hb2 ?].
  set (D1 := Zdigits2 m1) in *. set (D2 := Zdigits2 m2) in *. set (q := m1 * 2 ^ s / m2).
  assert (Hp : 0 < 2 ^ s) by (apply Z.pow_pos_nonneg; lia).
  assert (Hlo : 2 ^ (D1 + s - D2 - 1) <= q).
  { apply Z.div_le_lower_bound; [done|].
    transitivity (2 ^ D2 * 2 ^ (D1 + s - D2 - 1)); [apply Z.mul_le_mono_nonneg_r; lia|].
    rewrite <- Z.pow_add_r by lia. replace (D2 + _) with (D1 - 1 + s) by lia. rewrite Z.pow_add_r by lia.
    apply Z.mul_le_mono_nonneg_r; lia. }
  assert (Hhi : q < 2 ^ (D1 + s - D2 + 1)).
  { apply Z.div_lt_upper_bound; [done|].
    apply (Z.lt_le_trans _ (2 ^ (D1 + s))); [rewrite Z.pow_add_r by lia; apply Z.mul_lt_mono_pos_r; lia|].
    replace (D1 + s) with (D2 - 1 + (D1 + s - D2 + 1)) at 1 by lia. rewrite Z.pow_add_r by lia.
    apply Z.mul_le_mono_nonneg_r; [apply Z.pow_nonneg; lia|lia]. }
  assert (0 < 2 ^ (D1 + s - D2 - 1)) by (apply Z.pow_pos_nonneg; lia).
  assert (Hq : 0 < q) by lia. split; [done|]. destruct (Zdigits2_bounds q Hq) as [Hbq ?].
  assert (Zdigits2 q - 1 < D1 + s - D2 + 1) by (apply (Z.pow_lt_mono_r_iff 2); lia).
  assert (D1 + s - D2 - 1 < Zdigits2 q) by (apply (Z.pow_lt_mono_r_iff 2); lia). lia.
Qed.

Lemma fdiv_sized s x y lx hx ly hy :
  sized s lx hx x -> sized false ly hy y -> -400 <= lx -> hx <= 400 -> -400 <= ly -> hy <= 400 ->
  sized s (lx - hy) (hx - ly + 2) (fdiv x y).
Proof.
  intros (m1 & e1 & -> & Hr1 & Hd1) (m2 & e2 & -> & Hr2 & Hd2) ? ? ? ?.
  unfold fdiv, SFdiv, SFdiv_core_binary. rewrite xorb_false_r.
  destruct (Zdigits2_bounds (Z.pos m1)) as [_ ?]; [done|]. destruct (Zdigits2_bounds (Z.pos m2)) as [_ ?]; [done|].
  unfold fexp, emin. rewrite Z.max_l by lia. set (e' := Z.min _ _). set (k := e1 - e2 - e').
  assert (Hs : 0 <= k) by lia.
  assert (Em : match k with Z0 => Z.pos m1 | Z.pos _ => Z.shiftl (Z.pos m1) k | Z.neg _ => 0 end = Z.pos m1 * 2 ^ k).
  { destruct k as [|q|q] eqn:Es; [by rewrite Z.mul_1_r|by rewrite Z.shiftl_mul_pow2|lia]. }
  rewrite Em. pose proof (div_mantissa (Z.pos m1) (Z.pos m2) k ltac:(done) ltac:(done) Hs ltac:(lia)) as [Hq Hdq].
  unfold Z.div in Hq, Hdq. destruct (Z.div_eucl (Z.pos m1 * 2 ^ k) (Z.pos m2)) as [q r].
  eapply sized_weaken; [apply round_aux_sized; lia|lia|lia].
Qed.

Lemma fadd_sized s x y lx hx ly hy :
  sized s lx hx x -> sized s ly hy y -> -400 <= lx -> hx <= 400 -> -400 <= ly -> hy <= 400 ->
  sized s (Z.max lx ly) (Z.max hx hy + 2) (fadd x y).
Proof.
  intros (m1 & e1 & -> & Hr1 & Hd1) (m2 & e2 & -> & Hr2 & Hd2) ? ? ? ?. unfold fadd, SFadd. 
  pose proof (shl_align_digits m1 e1 (Z.min e1 e2)) as [A1 B1]. pose proof (shl_align_digits m2 e2 (Z.min e1 e2)) as [A2 B2].
  rewrite B1 in A1. rewrite B2 in A2.
  set (n1 := fst (shl_align m1 e1 (Z.min e1 e2))) in *. set (n2 := fst (shl_align m2 e2 (Z.min e1 e2))) in *.
  destruct (Zdigits2_bounds (Z.pos m1)) as [_ ?]; [done|]. destruct (Zdigits2_bounds (Z.pos m2)) as [_ ?]; [done|].
  assert (L1 : Zdigits2 (Z.pos n1) <= Zdigits2 (Z.pos n1 + Z.pos n2)) by (apply Zdigits2_le; lia).
  assert (L2 : Zdigits2 (Z.pos n2) <= Zdigits2 (Z.pos n1 + Z.pos n2)) by (apply Zdigits2_le; lia).
  assert (L3 : Zdigits2 (Z.pos n1 + Z.pos n2) <= Z.max (Zdigits2 (Z.pos n1)) (Zdigits2 (Z.pos n2)) + 1).
  { destruct (Zdigits2_bounds (Z.pos n1)) as [? ?]; [done|]. destruct (Zdigits2_bounds (Z.pos n2)) as [? ?]; [done|].
    destruct (Zdigits2_bounds (Z.pos n1 + Z.pos n2)) as [? ?]; [done|]. set (D := Z.max _ _).
    assert (2 ^ Zdigits2 (Z.pos n1) <= 2 ^ D) by (apply Z.pow_le_mono_r; lia).
    assert (2 ^ Zdigits2 (Z.pos n2) <= 2 ^ D) by (apply Z.pow_le_mono_r; lia).
    assert (Zdigits2 (Z.pos n1 + Z.pos n2) - 1 < D + 1); [|lia]. apply (Z.pow_lt_mono_r_iff 2); [lia|lia|].
    rewrite (Z.pow_add_r 2 D 1) by lia. lia. }
  replace (cond_Zopp s (Z.pos n1) + cond_Zopp s (Z.pos n2)) with (cond_Zopp s (Z.pos n1 + Z.pos n2)) by (destruct s; cbn; lia).
  revert L1 L2 L3 A1 A2. generalize (normalize_sized s (Z.pos n1 + Z.pos n2) (Z.min e1 e2) ltac:(done)).
  generalize (Zdigits2 (Z.pos n1 + Z.pos n2)) (Zdigits2 (Z.pos n1)) (Zdigits2 (Z.pos n2)).
  intros D D1 D2 Hn L1 L2 L3 A1 A2. eapply sized_weaken; [apply Hn; lia|lia|lia].
Qed.

Lemma fadd_zero_l s lo hi y : sized s lo hi y -> fadd fzero y = y.
Proof. by intros (m & e & -> & _). Qed.

Lemma fadd_zero_r s lo hi x : sized s lo hi x -> fadd x fzero = x.
Proof. by intros (m & e & -> & _). Qed.

Lemma sized_pos lo hi x : sized false lo hi x -> fltb fzero x = true.
Proof. by intros (m & e & -> & _). Qed.

Lemma sized_neg lo hi x : sized true lo hi x -> fltb x fzero = true.
Proof. by intros (m & e & -> & _). Qed.

Lemma sized_not_neg lo hi x : sized false lo hi x -> fltb x fzero = false.
Proof. by intros (m & e & -> & _). Qed.

Example float_samples :
  fdiv (f64_of_Z 1) (f64_of_Z 3) = S754_finite false 6004799503160661 (-54)
  /\ fltb (fdiv (f64_of_Z 4) (f64_of_Z 5)) (fdiv (f64_of_Z 9) (f64_of_Z 10)) = true.
Proof. by vm_compute. Qed.
