(* ===== verification/GoStrconv.v ===== *)
(** * Package strconv: Atoi, ParseBool and ParseFloat

    Integers within 64 bits; decimal and hexadecimal floating-point literals with
    underscores, infinities and NaN, rounded to the nearest float64. *)

From S2P Require Import Prelude GoString GoFloat.
#[local] Open Scope string_scope.
#[local] Open Scope list_scope.

(** ** Atoi *)

Definition digit (a : ascii) : option Z :=
  let n := Z.of_N (N_of_ascii a) in if ((48 <=? n) && (n <=? 57))%Z then Some (n - 48)%Z else None.

Fixpoint digits (acc : Z) (s : string) : option Z :=
  match s with
  | EmptyString => Some acc
  | String a s' => match digit a with Some d => digits (10 * acc + d) s' | None => None end
  end.

(** An optional sign and decimal digits, within 64 bits. *)
Definition Atoi (s : string) : option Z :=
  let '(neg, body) := match s with
    | String "-" s' => (true, s')
    | String "+" s' => (false, s')
    | _ => (false, s)
    end in
  if String.eqb body "" then None
  else match digits 0 body with
  | Some n =>
      let z := if neg then (- n)%Z else n in
      if ((- 2 ^ 63 <=? z) && (z <? 2 ^ 63))%Z then Some z else None
  | None => None
  end.

Lemma Atoi_range s z : Atoi s = Some z -> (- 2 ^ 63 <= z < 2 ^ 63)%Z.
Proof.
  unfold Atoi. destruct (match s with String "-" s' => (true, s') | String "+" s' => (false, s') | _ => (false, s) end) as [neg body].
  destruct (String.eqb body ""); [done|]. destruct (digits 0 body) as [n|]; [|done]. cbv zeta.
  destruct (((- 2 ^ 63 <=? if neg then (- n) else n) && ((if neg then (- n) else n) <? 2 ^ 63))%Z) eqn:E; [|done]. intros [= <-]. lia.
Qed.

(** ** ParseBool *)

Definition ParseBool (s : string) : option bool :=
  if existsb (String.eqb s) ["1"; "t"; "T"; "true"; "TRUE"; "True"] then Some true
  else if existsb (String.eqb s) ["0"; "f"; "F"; "false"; "FALSE"; "False"] then Some false
  else None.

(** ** ParseFloat *)

Definition lower_byte (a : ascii) : ascii :=
  let n := N_of_ascii a in if ((65 <=? n) && (n <=? 90))%N then ascii_of_N (n + 32) else a.

Fixpoint lower_bytes (s : string) : string :=
  match s with EmptyString => "" | String a s' => String (lower_byte a) (lower_bytes s') end.

Definition hex_digit (a : ascii) : option Z :=
  let n := Z.of_N (N_of_ascii (lower_byte a)) in
  if ((97 <=? n) && (n <=? 102))%Z then Some (n - 87)%Z else digit a.

Definition cut_sign (s : string) : bool * string :=
  match s with
  | String "-" s' => (true, s')
  | String "+" s' => (false, s')
  | _ => (false, s)
  end.

(** [special]: infinities may have a sign, NaN not. *)
Definition special (s : string) : option float64 :=
  let '(neg, body) := cut_sign s in
  let l := lower_bytes body in
  if String.eqb l "inf" || String.eqb l "infinity" then Some (S754_infinity neg)
  else if String.eqb (lower_bytes s) "nan" then Some S754_nan
  else None.

(** The mantissa: its digits as an integer, how many stand behind the point,
    whether there were digits and underscores, and the rest. *)
Fixpoint mantissa (value : ascii -> option Z) (base m frac : Z) (dot any under : bool) (s : string) : Z * Z * bool * bool * string :=
  match s with
  | EmptyString => (m, frac, any, under, "")
  | String a s' =>
      if Ascii.eqb a "_" then mantissa value base m frac dot any true s'
      else if Ascii.eqb a "." then if dot then (m, frac, any, under, s) else mantissa value base m frac true any under s'
      else
        match value a with
        | Some d => mantissa value base (m * base + d) (if dot then frac + 1 else frac)%Z dot true under s'
        | None => (m, frac, any, under, s)
        end
  end.

(** The digits of an exponent; it stops growing at 10000. *)
Fixpoint exponent (e : Z) (under : bool) (s : string) : Z * bool * string :=
  match s with
  | EmptyString => (e, under, "")
  | String a s' =>
      if Ascii.eqb a "_" then exponent e true s'
      else match digit a with
      | Some d => exponent (if (e <? 10000)%Z then e * 10 + d else e)%Z under s'
      | None => (e, under, s)
      end
  end.

(** [underscoreOK] on what follows the sign and the prefix; [prev]: ['0'] for a
    digit, ['_'] or anything else. *)
Fixpoint underscores_ok (hex : bool) (prev : ascii) (s : string) : bool :=
  match s with
  | EmptyString => negb (Ascii.eqb prev "_")
  | String a s' =>
      if match digit a with Some _ => true | None => hex && match hex_digit a with Some _ => true | None => false end end
      then underscores_ok hex "0" s'
      else if Ascii.eqb a "_" then if Ascii.eqb prev "0" then underscores_ok hex "_" s' else false
      else if Ascii.eqb prev "_" then false else underscores_ok hex "!" s'
  end.

(** [mantissa * base ^ exp], rounded to the nearest even. *)
Definition scaled (neg : bool) (m base exp : Z) : float64 :=
  match m with
  | Z.pos p =>
      if (0 <=? exp)%Z then
        match binary_normalize 53 1024 (m * base ^ exp) 0 false with
        | S754_zero _ => S754_zero neg
        | S754_finite _ m e => S754_finite neg m e
        | S754_infinity _ => S754_infinity neg
        | S754_nan => S754_nan
        end
      else match (base ^ (- exp))%Z with
      | Z.pos q => SFdiv 53 1024 (S754_finite neg p 0) (S754_finite false q 0)
      | _ => S754_nan
      end
  | _ => S754_zero neg
  end.

Definition after_exponent (e : string) : option (Z * bool * string) :=
  let '(neg, ds) := cut_sign e in
  match ds with
  | String d _ =>
      match digit d with
      | Some _ => let '(e, under, rest) := exponent 0 false ds in Some (if neg then (- e)%Z else e, under, rest)
      | None => None
      end
  | EmptyString => None
  end.

(** [readFloat] and the conversion; the whole text has to be consumed. *)
Definition read_float (s : string) : option float64 :=
  let '(neg, body) := cut_sign s in
  let hex := match body with String "0" (String x (String _ _)) => Ascii.eqb (lower_byte x) "x" | _ => false end in
  let ds := if hex then string_drop 2 body else body in
  let '(m, frac, any, under, rest) :=
    if hex then mantissa hex_digit 16 0 0 false false false ds else mantissa digit 10 0 0 false false false ds in
  let exp :=
    match rest with
    | String a e => if Ascii.eqb (lower_byte a) (if hex then "p" else "e")%char then after_exponent e else Some (0%Z, false, rest)
    | EmptyString => Some (0%Z, false, "")
    end in
  match exp with
  | Some (e, under', "") =>
      let has_exp := negb (String.eqb rest "") in
      if negb any || (hex && negb has_exp) then None
      else if (under || under') && negb (underscores_ok hex (if hex then "0" else "^") ds) then None
      else Some (if hex then scaled neg m 2 (e - 4 * frac) else scaled neg m 10 (e - frac))
  | _ => None
  end.

(** [ParseFloat(s, 64)]; [None] is an error, also when the number is too large. *)
Definition ParseFloat (s : string) : option float64 :=
  match special s with
  | Some f => Some f
  | None =>
      match read_float s with
      | Some (S754_infinity _) => None
      | r => r
      end
  end.

Example ParseFloat_samples :
  ParseFloat "0.8" = Some (fdiv (f64_of_Z 8) (f64_of_Z 10))
  /\ ParseFloat "+1.5e3" = Some (f64_of_Z 1500) /\ ParseFloat "0x1.8p1" = Some (f64_of_Z 3) /\ ParseFloat "1_000.0" = Some (f64_of_Z 1000)
  /\ ParseFloat "-0" = Some (S754_zero true) /\ ParseFloat "NaN" = Some S754_nan /\ ParseFloat "-Inf" = Some (S754_infinity true)
  /\ ParseFloat "5e-324" = Some (S754_finite false 1 (-1074)) /\ ParseFloat "2e-324" = Some fzero
  /\ ParseFloat "1.7976931348623157e308" = Some (S754_finite false 9007199254740991 971)
  /\ ParseFloat "1e309" = None /\ ParseFloat "1e" = None /\ ParseFloat "." = None /\ ParseFloat "0x1" = None /\ ParseFloat "1__0" = None
  /\ ParseFloat "_1" = None /\ ParseFloat "1 " = None /\ ParseFloat "" = None /\ ParseFloat "+nan" = None.
Proof. vm_compute. by split_and!. Qed.
