(* ===== verification/DispatchIngress.v ===== *)
(** * The dispatcher plugin: what comes in

    The configuration of the workers and who is chosen (ai-runtime/config), the
    directives of a prompt on the ACP socket, the streams of a task's events with
    their cursors, the tables of the connections that watch a task, and who may
    answer a worker's permission request (plugin.go). *)

From stdpp Require Import pretty.
From S2P Require Import Prelude GoString GoFloat GoStrconv JsonLines DispatchTask DispatchEventLog.
Import Task EventLog.
#[local] Open Scope string_scope.
#[local] Open Scope list_scope.

(** ** ai-runtime/config/spec.go: the dispatch section *)

Record WorkerConfig := mkWorkerConfig {
  W_Name : string;
  W_Command : string;
  W_Args : list string;
  W_OnPermission : string;
}.

Record RouteConfig := mkRouteConfig {
  R_Keywords : list string;
  R_Worker : string;
}.

Record DispatchConfig := mkDispatchConfig {
  C_Enabled : bool;
  C_Workers : list WorkerConfig;
  C_DefaultWorker : string;
  C_MaxParallel : Z;
  C_Routes : list RouteConfig;
}.

Inductive config_error : Type :=
  | ENameRequired (i : nat)
  | EDuplicateName (i : nat) (name : string)
  | ECommandRequired (i : nat) (name : string)
  | EDefaultUnknown (name : string)
  | EMaxParallel
  | EOnPermission (name value : string)
  | EKeywordsRequired (i : nat)
  | ERouteUnknown (i : nat) (worker : string)
  | ENoWorkers
  | ENoDefault.

(** The three loops of [Validate], and [seen]. *)
Fixpoint check_workers (i : nat) (seen : gset string) (ws : list WorkerConfig) : result config_error (gset string) :=
  match ws with
  | [] => Ok seen
  | w :: ws' =>
      if String.eqb (W_Name w) "" then Err (ENameRequired i)
      else if bool_decide (W_Name w ∈ seen) then Err (EDuplicateName i (W_Name w))
      else if String.eqb (W_Command w) "" then Err (ECommandRequired i (W_Name w))
      else check_workers (S i) ({[W_Name w]} ∪ seen) ws'
  end.

Definition known_policy (s : string) : bool :=
  String.eqb s "" || String.eqb s "deny" || String.eqb s "allow" || String.eqb s "ask".

Fixpoint check_policies (ws : list WorkerConfig) : result config_error unit :=
  match ws with
  | [] => Ok ()
  | w :: ws' =>
      if known_policy (W_OnPermission w) then check_policies ws'
      else Err (EOnPermission (W_Name w) (W_OnPermission w))
  end.

Fixpoint check_routes (i : nat) (seen : gset string) (rs : list RouteConfig) : result config_error unit :=
  match rs with
  | [] => Ok ()
  | r :: rs' =>
      if bool_decide (R_Keywords r = []) then Err (EKeywordsRequired i)
      else if negb (bool_decide (R_Worker r ∈ seen)) then Err (ERouteUnknown i (R_Worker r))
      else check_routes (S i) seen rs'
  end.

Definition Validate (c : DispatchConfig) : result config_error unit :=
  seen ← check_workers 0 ∅ (C_Workers c);
  if negb (String.eqb (C_DefaultWorker c) "") && negb (bool_decide (C_DefaultWorker c ∈ seen))
  then Err (EDefaultUnknown (C_DefaultWorker c))
  else if (C_MaxParallel c <? 0)%Z then Err EMaxParallel
  else
    _ ← check_policies (C_Workers c);
    _ ← check_routes 0 seen (C_Routes c);
    if C_Enabled c then
      if bool_decide (C_Workers c = []) then Err ENoWorkers
      else if String.eqb (C_DefaultWorker c) "" then Err ENoDefault else Ok ()
    else Ok ().

Definition ResolveDefaultWorker (c : DispatchConfig) : option string :=
  if negb (String.eqb (C_DefaultWorker c) "") then Some (C_DefaultWorker c)
  else match C_Workers c with w :: _ => Some (W_Name w) | [] => None end.

Definition WorkerOf (c : DispatchConfig) (name : string) : option WorkerConfig :=
  find_first (fun w => String.eqb (W_Name w) name) (C_Workers c).

(** [ToLower] is [strings.ToLower], whose tables are not part of the model. *)
Definition MatchWorker (ToLower : string -> string) (c : DispatchConfig) (prompt : string) : option string :=
  R_Worker <$> find_first (fun r => existsb (fun kw => negb (String.eqb kw "") && Contains (ToLower prompt) (ToLower kw))
                                      (R_Keywords r)) (C_Routes c).

(** ** plugin.go: which worker *)

Definition resolveWorker (ToLower : string -> string) (c : DispatchConfig) (explicit prompt : string) : option string :=
  if negb (String.eqb explicit "") then
    match WorkerOf c explicit with Some _ => Some explicit | None => None end
  else match MatchWorker ToLower c prompt with
  | Some name => Some name
  | None => ResolveDefaultWorker c
  end.

(** ** plugin.go: the directives of a prompt *)

Inductive directive : Type :=
  | DDetach (prompt : string)
  | DList (filter : string)
  | DConsoleTasks (args : string)
  | DConsoleTask (args : string)
  | DStatus (id : string)
  | DReview (id : string)
  | DEvents (args : string)
  | DAttach (args : string)
  | DApprove (id : string)
  | DComplete (id : string)
  | DReject (id : string)
  | DCancel (id : string)
  | DDispatch (prompt : string).

Inductive run_error : Type :=
  | EMissingCwd
  | EEmptyPrompt
  | EUnknownDirective (text : string).

(** [Run] up to the handler it calls. *)
Definition Run (cwd prompt : string) : result run_error directive :=
  let trim := TrimSpace in
  let rest p := trim (TrimPrefix prompt p) in
  let word p := String.eqb prompt p || HasPrefix prompt (p +:+ " ") in
  if String.eqb cwd "" then Err EMissingCwd
  else if String.eqb (trim prompt) "" || HasPrefix (trim prompt) "#" then Err EEmptyPrompt
  else if HasPrefix prompt "--detach " then Ok (DDetach (rest "--detach "))
  else if word "--ls" then Ok (DList (rest "--ls"))
  else if word "--console/tasks" then Ok (DConsoleTasks (rest "--console/tasks"))
  else if word "--console/task" then Ok (DConsoleTask (rest "--console/task"))
  else if HasPrefix prompt "--status " then Ok (DStatus (rest "--status "))
  else if HasPrefix prompt "--review " then Ok (DReview (rest "--review "))
  else if HasPrefix prompt "--events " then Ok (DEvents (rest "--events "))
  else if word "--attach" then Ok (DAttach (rest "--attach"))
  else if HasPrefix prompt "--approve " then Ok (DApprove (rest "--approve "))
  else if HasPrefix prompt "--complete " then Ok (DComplete (rest "--complete "))
  else if HasPrefix prompt "--reject " then Ok (DReject (rest "--reject "))
  else if HasPrefix prompt "--cancel " then Ok (DCancel (rest "--cancel "))
  else if HasPrefix (trim prompt) "--" then Err (EUnknownDirective (trim prompt))
  else Ok (DDispatch prompt).

Inductive args_error : Type := EUsage | EInvalidCursor (text : string).

(** [parseConsoleTaskArgs] and [parseAttachArgs]. *)
Definition parseOneArg (args : string) : result args_error string :=
  match Fields args with [id] => Ok id | _ => Err EUsage end.

Definition parseEventsArgs (args : string) : result args_error (string * Z) :=
  match Fields args with
  | [id] => Ok (id, 0%Z)
  | [id; c] =>
      match Atoi c with
      | Some cursor => if (cursor <? 0)%Z then Err (EInvalidCursor c) else Ok (id, cursor)
      | None => Err (EInvalidCursor c)
      end
  | _ => Err EUsage
  end.

(** ** plugin.go: the streams of a task's events *)

Definition tailComplete (s : Status) : bool := String.eqb s StatusAwaitingReview || Terminal s.

Definition completes (e : TaskEvent) : bool := String.eqb (EType e) EventStatus && tailComplete (To e).

Definition set_TaskID (id : string) (e : TaskEvent) : TaskEvent :=
  mkTaskEvent id (Timestamp e) (EType e) (Update e) (From e) (To e).

(** The envelopes of [--events]. *)
Inductive envelope : Type :=
  | EnvEvent (cursor : Z) (e : TaskEvent)
  | EnvComplete (next_cursor : Z) (s : Status).

Definition writeEvents (id : string) (cursor : Z) (evs : list TaskEvent) : list envelope :=
  imap (fun index e => EnvEvent (cursor + Z.of_nat index + 1) (set_TaskID id e)) evs.

Inductive stream_error : Type :=
  | SArgs (e : args_error)
  | SNotFound (id : string)
  | SCursor (cursor : Z).

Section streams.
Context `{JsonCodec TaskEvent}.

(** The loop of [events]: [logs] is the log at each signal the loop receives; at
    the end of the list the context is over. Also whether it completed. *)
Fixpoint events_loop (id : string) (cursor : Z) (logs : list EventLog) : list envelope * bool :=
  match logs with
  | [] => ([], false)
  | l :: logs' =>
      let '(evs, next) := EventsAfter id cursor l in
      let out := writeEvents id cursor evs in
      match find_first completes evs with
      | Some e => (out ++ [EnvComplete next (To e)], true)
      | None => let '(rest, b) := events_loop id next logs' in (out ++ rest, b)
      end
  end.

(** [events]: [known]: the store has the task; [l0]: the log at [Subscribe];
    [current]: the status the store gives behind it. *)
Definition events_reply (args : string) (known : string -> bool) (l0 : EventLog) (current : string -> option Status)
    (logs : list EventLog) : result stream_error (list envelope * bool) :=
  match parseEventsArgs args with
  | Err e => Err (SArgs e)
  | Ok (id, cursor) =>
      if negb (known id) then Err (SNotFound id)
      else
        let '(hist, historyCursor, _, _) := Subscribe id l0 in
        if (Z.of_nat historyCursor <? cursor)%Z then Err (SCursor cursor)
        else
          let out := writeEvents id cursor (drop (Z.to_nat cursor) hist) in
          match current id with
          | None => Err (SNotFound id)
          | Some s =>
              if tailComplete s then Ok (out ++ [EnvComplete (Z.of_nat historyCursor) s], true)
              else let '(rest, b) := events_loop id (Z.of_nat historyCursor) logs in Ok (out ++ rest, b)
          end
  end.

(** [attach]: [decode]: [json.Unmarshal] of an update, with its [sessionUpdate]. *)
Context {U : Type} (decode : bytes -> option (U * string)).

Definition attached_update (e : TaskEvent) : option U :=
  if String.eqb (EType e) EventUpdate then
    match decode (Update e) with
    | Some (u, kind) => if String.eqb kind "" then None else Some u
    | None => None
    end
  else None.

(** The updates it relays, and whether the stream is complete. *)
Definition writeAttachedUpdates (evs : list TaskEvent) (completeOnStatus : bool) : list U * bool :=
  (omap attached_update evs, completeOnStatus && existsb completes evs).

Fixpoint attach_loop (id : string) (cursor : Z) (logs : list EventLog) : list U * bool :=
  match logs with
  | [] => ([], false)
  | l :: logs' =>
      let '(evs, next) := EventsAfter id cursor l in
      let '(out, complete) := writeAttachedUpdates evs true in
      if complete then (out, true)
      else let '(rest, b) := attach_loop id next logs' in (out ++ rest, b)
  end.

Definition attach (args : string) (known : string -> bool) (l0 : EventLog) (current : string -> option Status)
    (logs : list EventLog) : result stream_error (list U * bool) :=
  match parseOneArg args with
  | Err e => Err (SArgs e)
  | Ok id =>
      if negb (known id) then Err (SNotFound id)
      else
        let '(hist, cursor, _, _) := Subscribe id l0 in
        let out := (writeAttachedUpdates hist false).1 in
        match current id with
        | None => Err (SNotFound id)
        | Some s =>
            if tailComplete s then Ok (out, true)
            else let '(rest, b) := attach_loop id (Z.of_nat cursor) logs in Ok (out ++ rest, b)
        end
  end.

(** [handleTail]: the events it prints, and whether it ended by itself. *)
Definition historyHasCompletion (hist : list TaskEvent) : bool := existsb completes hist.

Fixpoint up_to_completion (evs : list TaskEvent) : list TaskEvent * bool :=
  match evs with
  | [] => ([], false)
  | e :: evs' => if completes e then ([e], true) else let '(o, b) := up_to_completion evs' in (e :: o, b)
  end.

Fixpoint tail_loop (id : string) (cursor : Z) (logs : list EventLog) : list TaskEvent * bool :=
  match logs with
  | [] => ([], false)
  | l :: logs' =>
      let '(evs, next) := EventsAfter id cursor l in
      let '(out, complete) := up_to_completion evs in
      if complete then (out, true)
      else let '(rest, b) := tail_loop id next logs' in (out ++ rest, b)
  end.

Definition handleTail (id : string) (known : string -> bool) (l0 : EventLog) (current : string -> option Status)
    (logs : list EventLog) : option (list TaskEvent * bool) :=
  if negb (known id) then None
  else
    let '(hist, cursor, _, _) := Subscribe id l0 in
    if match current id with None => true | Some s => tailComplete s || historyHasCompletion hist end
    then Some (hist, true)
    else let '(rest, b) := tail_loop id (Z.of_nat cursor) logs in Some (hist ++ rest, b).
End streams.

(** ** plugin.go: who watches a task

    A route is a connection and its session; the tables hold the synchronous
    submitters and the observers. *)
Definition acpRoute : Type := nat * string.
Abbreviation routes := (gmap string (list acpRoute)).

Definition addACPRoute (id : string) (r : acpRoute) (m : routes) : routes := <[id := default [] (m !! id) ++ [r]]> m.

Fixpoint remove_first (r : acpRoute) (l : list acpRoute) : list acpRoute :=
  match l with [] => [] | x :: l' => if bool_decide (x = r) then l' else x :: remove_first r l' end.

Definition removeACPRoute (id : string) (r : acpRoute) (m : routes) : routes :=
  match remove_first r (default [] (m !! id)) with
  | [] => delete id m
  | l => <[id := l]> m
  end.

Definition addLiveRoute (id : string) (r : acpRoute) (m : routes) : routes :=
  if bool_decide (r ∈ default [] (m !! id)) then m else addACPRoute id r m.

Definition removeLiveRoute : string -> acpRoute -> routes -> routes := removeACPRoute.

Definition snapshotRoutes (id : string) (m : routes) : list acpRoute := default [] (m !! id).

(** ** plugin.go: a worker asks for permission *)

Record PermissionOption := mkPermissionOption {
  O_Kind : string;
  O_ID : string;
}.

Inductive permission_error : Type :=
  | PNoOptions
  | PNoObserver
  | PFailed
  | PEmptyOption
  | PUnsupportedByAll
  | PUnattended.

(** The policy of [runOptions]; [PolicyNone]: the client of the worker denies. *)
Inductive policy : Type := PolicyNone | PolicyAllow | PolicyAsk.

Definition runOptions (c : DispatchConfig) (worker taskID : string) : policy :=
  match WorkerOf c worker with
  | None => PolicyNone
  | Some w =>
      if String.eqb (W_OnPermission w) "allow" then PolicyAllow
      else if String.eqb (W_OnPermission w) "ask" then if String.eqb taskID "" then PolicyNone else PolicyAsk
      else PolicyNone
  end.

Definition allows (o : PermissionOption) : bool := String.eqb (O_Kind o) "allow_once" || String.eqb (O_Kind o) "allow_always".

Definition allowPolicy (options : list PermissionOption) : result permission_error string :=
  match find_first allows options with
  | Some o => Ok (O_ID o)
  | None => match options with o :: _ => Ok (O_ID o) | [] => Err PNoOptions end
  end.

(** What an observer sends back. *)
Inductive observer_answer : Type :=
  | AUnsupported
  | AError
  | AOption (id : string).

(** [askPermissionPolicy]: the answers of the routes, in the order in which they
    arrive; nobody to ask is an answer of nobody. *)
Fixpoint collect (answers : list observer_answer) : result permission_error string :=
  match answers with
  | [] => Err PUnsupportedByAll
  | AUnsupported :: rest => collect rest
  | AError :: _ => Err PFailed
  | AOption o :: _ => if String.eqb o "" then Err PEmptyOption else Ok o
  end.

Definition askPermissionPolicy (answers : list observer_answer) : result permission_error string :=
  match answers with [] => Err PNoObserver | _ => collect answers end.

Definition answer_permission (p : policy) (options : list PermissionOption) (answers : list observer_answer)
  : result permission_error string :=
  match p with
  | PolicyNone => Err PUnattended
  | PolicyAllow => allowPolicy options
  | PolicyAsk => askPermissionPolicy answers
  end.
