(* ===== verification/DispatchIngressProps.v ===== *)
(** * The dispatcher plugin: theorems about what comes in

    A worker that is chosen is configured; a stream of events gives each event
    once, in order and numbered, and the next stream takes up where it ended; a
    permission is granted by the configuration or by an observer, and by nobody
    else; the tables of the watchers keep no trace of who has left. *)

From S2P Require Import Prelude GoString JsonLines DispatchTask DispatchEventLog DispatchIngress.
Import Task EventLog.
#[local] Open Scope string_scope.
#[local] Open Scope list_scope.

(** ** Workers *)

Lemma check_workers_seen i seen ws s :
  check_workers i seen ws = Ok s -> forall name, name ∈ s <-> name ∈ seen \/ exists w, w ∈ ws /\ W_Name w = name.
Proof.
  revert i seen. induction ws as [|w ws IH]; intros i seen; cbn.
  - intros [= ->] name. split; [by left|]. intros [?|(w & Hw & _)]; [done|by inversion Hw].
  - destruct (String.eqb _ _); [done|]. case_bool_decide; [done|]. destruct (String.eqb _ _); [done|].
    intros E name. rewrite (IH _ _ E name), elem_of_union, elem_of_singleton. split.
    + intros [[->|?]|(x & Hx & <-)]; [right; exists w; split; [by left|done]|by left|right; exists x; split; [by right|done]].
    + intros [?|(x & [->|Hx]%elem_of_cons & <-)]; [by left; right|by left; left|right; by exists x].
Qed.

Lemma WorkerOf_some c name : (exists w, w ∈ C_Workers c /\ W_Name w = name) -> is_Some (WorkerOf c name).
Proof.
  intros (w & Hw & Hn). unfold WorkerOf. destruct (find_first _ _) eqn:E; [by eexists|].
  apply find_first_None in E. rewrite Forall_forall in E. apply E in Hw. rewrite Hn, String.eqb_refl in Hw. done.
Qed.

Lemma check_routes_ok i seen rs : check_routes i seen rs = Ok () -> Forall (fun r => R_Worker r ∈ seen) rs.
Proof.
  revert i. induction rs as [|r rs IH]; intros i; cbn; [constructor|].
  case_bool_decide; [done|]. case_bool_decide; cbn; [|done]. intros E. constructor; [done|by eapply IH].
Qed.

Lemma Validate_ok c :
  Validate c = Ok () ->
  (C_DefaultWorker c <> "" -> is_Some (WorkerOf c (C_DefaultWorker c)))
  /\ Forall (fun r => is_Some (WorkerOf c (R_Worker r))) (C_Routes c)
  /\ (C_Enabled c = true -> C_DefaultWorker c <> "").
Proof.
  unfold Validate. destruct (check_workers _ _ _) as [seen|e] eqn:Ew; cbn; [|done].
  assert (Hin : forall name, name ∈ seen -> is_Some (WorkerOf c name)).
  { intros name. rewrite (check_workers_seen _ _ _ _ Ew). intros [?|?]; [set_solver|by apply WorkerOf_some]. }
  destruct (negb _ && negb _) eqn:Ed; [done|]. destruct (_ <? _)%Z; [done|].
  destruct (check_policies _) as [[]|]; cbn; [|done]. destruct (check_routes _ _ _) as [[]|] eqn:Er; cbn; [|done].
  intros E. split_and!.
  - intros Hne. apply Hin. apply andb_false_iff in Ed as [Ed|Ed]; bools; [done|done].
  - apply check_routes_ok in Er. eapply Forall_impl; [exact Er|]. cbn. auto.
  - intros He. rewrite He in E. case_bool_decide; [done|]. destruct (String.eqb _ _) eqn:Ee; [done|]. by apply String.eqb_neq.
Qed.

(** The worker that is chosen for a prompt is configured. With a valid
    configuration, whatever [resolveWorker] returns, for a named worker, by a
    keyword or by default, is one of the workers; and when the dispatcher is
    enabled, a prompt that names none always gets one. *)
Theorem the_worker_is_configured ToLower c explicit prompt :
  Validate c = Ok () ->
  (forall w, resolveWorker ToLower c explicit prompt = Some w -> is_Some (WorkerOf c w))
  /\ (C_Enabled c = true -> explicit = "" -> is_Some (resolveWorker ToLower c explicit prompt)).
Proof.
  intros Hv. destruct (Validate_ok c Hv) as (Hd & Hr & He). split.
  - intros w. unfold resolveWorker. destruct (String.eqb explicit ""); cbn.
    + destruct (MatchWorker ToLower c prompt) as [n|] eqn:Em.
      * intros [= <-]. unfold MatchWorker in Em. apply fmap_Some in Em as (r & Hf & ->).
        apply find_first_Some in Hf as [Hin _]. rewrite Forall_forall in Hr. by apply Hr.
      * unfold ResolveDefaultWorker. destruct (String.eqb_spec (C_DefaultWorker c) ""); cbn; [|intros [= <-]; auto].
        destruct (C_Workers c) as [|x ws] eqn:Ew; [done|]. intros [= <-]. apply WorkerOf_some. exists x. rewrite Ew. split; [by left|done].
    + destruct (WorkerOf c explicit) eqn:Ew; [|done]. intros [= <-]. by rewrite Ew.
  - intros Hen ->. unfold resolveWorker. cbn. destruct (MatchWorker _ _ _); [by eexists|].
    unfold ResolveDefaultWorker. apply He, String.eqb_neq in Hen. rewrite Hen. by eexists.
Qed.

(** ** Streams *)

Section streams.
Context `{JsonCodec TaskEvent}.

(** The events of an answer, with their cursors. *)
Definition event_of (e : envelope) : option (Z * TaskEvent) :=
  match e with EnvEvent c ev => Some (c, ev) | EnvComplete _ _ => None end.
Definition events_of (out : list envelope) : list (Z * TaskEvent) := omap event_of out.

(** Events numbered behind a cursor. *)
Fixpoint numbered (id : string) (k : Z) (evs : list TaskEvent) : list (Z * TaskEvent) :=
  match evs with [] => [] | e :: evs' => ((k + 1)%Z, set_TaskID id e) :: numbered id (k + 1) evs' end.

Lemma numbered_app id k a b :
  numbered id k (a ++ b) = numbered id k a ++ numbered id (k + Z.of_nat (length a)) b.
Proof.
  revert k. induction a as [|e a IH]; intros k; cbn; [by rewrite Z.add_0_r|].
  rewrite IH. do 3 f_equal. lia.
Qed.

Lemma events_of_app a b : events_of (a ++ b) = events_of a ++ events_of b.
Proof. apply omap_app. Qed.

Lemma writeEvents_numbered id k evs : events_of (writeEvents id k evs) = numbered id k evs.
Proof.
  unfold writeEvents.
  assert (forall n, events_of (imap (fun i e => EnvEvent (k + Z.of_nat (n + i) + 1) (set_TaskID id e)) evs)
    = numbered id (k + Z.of_nat n) evs) as Hn.
  { induction evs as [|e evs IH]; intros n; [done|]. rewrite imap_cons. cbn. rewrite Nat.add_0_r. f_equal.
    replace (k + Z.of_nat n + 1)%Z with (k + Z.of_nat (S n))%Z by lia. rewrite <- IH.
    f_equal. apply imap_ext. intros i x _. cbn. do 2 f_equal. lia. }
  specialize (Hn 0). by rewrite Z.add_0_r in Hn.
Qed.

(** The logs of successive moments: the history of the task only grows. *)
Definition growing (id : string) (logs : list EventLog) : Prop :=
  StronglySorted (fun a b => history (events a) id `prefix_of` history (events b) id) logs.

Definition cursor_of (id : string) (l : EventLog) : nat := length (history (events l) id).

Lemma events_loop_spec id l0 logs out b :
  growing id (l0 :: logs) -> events_loop id (Z.of_nat (cursor_of id l0)) logs = (out, b) ->
  exists l, l ∈ l0 :: logs
    /\ (exists more, history (events l) id = history (events l0) id ++ more
         /\ events_of out = numbered id (Z.of_nat (cursor_of id l0)) more)
    /\ (if b then exists s, last out = Some (EnvComplete (Z.of_nat (cursor_of id l)) s) /\ tailComplete s = true
        else last (l0 :: logs) = Some l).
Proof.
  revert l0 out b. induction logs as [|l logs IH]; intros l0 out b; cbn [events_loop].
  { intros _ [= <- <-]. exists l0. split; [by left|]. split; [exists []; by rewrite app_nil_r|done]. }
  intros [Hg Hf]%StronglySorted_inv. destruct (Forall_inv Hf) as [more Hm]. unfold cursor_of at 1.
  rewrite EventsAfter_spec by (rewrite Hm, length_app; lia). rewrite Hm, drop_app_length.
  change (length (history (events l0) id)) with (cursor_of id l0).
  assert (Hlen : Z.of_nat (length (history (events l0) id ++ more)) = Z.of_nat (cursor_of id l))
    by (unfold cursor_of; by rewrite Hm). rewrite Hlen.
  destruct (find_first completes more) as [e|] eqn:Ef.
  - intros [= <- <-]. exists l. split; [right; by left|]. split.
    + exists more. split; [done|]. by rewrite events_of_app, writeEvents_numbered, app_nil_r.
    + exists (To e). rewrite last_snoc. split; [done|]. apply find_first_Some in Ef as [_ Ef].
      unfold completes in Ef. by bools.
  - destruct (events_loop id _ logs) as [rest b'] eqn:El. intros [= <- <-].
    destruct (IH l rest b' Hg El) as (l' & Hin & (more' & Hm' & He) & Hb). exists l'. split; [by right|]. split.
    + exists (more ++ more'). rewrite Hm', Hm, app_assoc. split; [done|].
      rewrite events_of_app, writeEvents_numbered, He, numbered_app. f_equal. f_equal.
      unfold cursor_of. rewrite Hm, length_app. lia.
    + destruct b'.
      * destruct Hb as (s & Hs & Ht). exists s. split; [|done]. rewrite last_app, Hs. done.
      * by rewrite last_cons_cons.
Qed.

Lemma stream_ok args known current id k l0 logs out b :
  parseEventsArgs args = Ok (id, k) -> (0 <= k)%Z -> growing id (l0 :: logs) ->
  events_reply args known l0 current logs = Ok (out, b) ->
  exists l, l ∈ l0 :: logs
    /\ events_of out = numbered id k (drop (Z.to_nat k) (history (events l) id))
    /\ (if b then exists s, last out = Some (EnvComplete (Z.of_nat (cursor_of id l)) s) /\ tailComplete s = true
        else last (l0 :: logs) = Some l)
    /\ Z.to_nat k <= cursor_of id l.
Proof.
  intros Ha Hk Hg. unfold events_reply. rewrite Ha. destruct (known id); cbn [negb]; [|done].
  unfold Subscribe. change (length (history (events l0) id)) with (cursor_of id l0).
  destruct (_ <? k)%Z eqn:Ek; [done|]. bools. destruct (current id) as [s|]; [|done].
  assert (Hle : Z.to_nat k <= length (history (events l0) id)) by (unfold cursor_of in Ek; lia).
  destruct (tailComplete s) eqn:Et.
  - intros [= <- <-]. exists l0. split; [by left|]. split_and!.
    + by rewrite events_of_app, writeEvents_numbered, app_nil_r.
    + exists s. by rewrite last_snoc.
    + done.
  - destruct (events_loop _ _ _) as [rest b'] eqn:El. intros [= <- <-].
    destruct (events_loop_spec _ _ _ _ _ Hg El) as (l & Hin & (more & Hm & He) & Hb). exists l. split; [done|]. split_and!.
    + rewrite events_of_app, writeEvents_numbered, He, Hm, drop_app_le, numbered_app by done.
      f_equal. f_equal. unfold cursor_of. rewrite length_drop. lia.
    + destruct b'; [|done]. destruct Hb as (s' & Hs & Ht). exists s'. by rewrite last_app, Hs.
    + unfold cursor_of. rewrite Hm, length_app. lia.
Qed.

(** a stream of events is the history. Whatever is appended while it runs,
    the events that [--events id k] sends are those of the task behind the
    cursor [k], each once, in order, numbered from [k + 1]; a stream that
    completes has sent everything up to the [next_cursor] it announces, and one
    that is interrupted everything up to the last signal. *)
Theorem a_stream_is_the_history args known current id k l0 logs out b :
  parseEventsArgs args = Ok (id, k) -> (0 <= k)%Z -> growing id (l0 :: logs) ->
  events_reply args known l0 current logs = Ok (out, b) ->
  exists l, l ∈ l0 :: logs
    /\ events_of out = numbered id k (drop (Z.to_nat k) (history (events l) id))
    /\ (if b then exists s, last out = Some (EnvComplete (Z.of_nat (cursor_of id l)) s) /\ tailComplete s = true
        else last (l0 :: logs) = Some l).
Proof.
  intros Ha Hk Hg E. destruct (stream_ok _ _ _ _ _ _ _ _ _ Ha Hk Hg E) as (l & ? & ? & ? & _). by exists l.
Qed.

(** The next stream takes up where the last one ended. A stream that
    completed and one that asks for the cursor it announced, later, send
    together the events of the task behind the first cursor, each once. *)
Theorem streams_join args args' known known' current current' id k c l0 logs out s l1 logs' out' b' :
  parseEventsArgs args = Ok (id, k) -> parseEventsArgs args' = Ok (id, c) -> (0 <= k)%Z ->
  growing id ((l0 :: logs) ++ l1 :: logs') ->
  events_reply args known l0 current logs = Ok (out ++ [EnvComplete c s], true) ->
  events_reply args' known' l1 current' logs' = Ok (out', b') ->
  exists l, l ∈ l1 :: logs'
    /\ events_of out ++ events_of out' = numbered id k (drop (Z.to_nat k) (history (events l) id)).
Proof.
  intros Ha Ha' Hk Hg H1 H2. apply StronglySorted_app in Hg as (Hmid & Hg1 & Hg2).
  destruct (stream_ok _ _ _ _ _ _ _ _ _ Ha Hk Hg1 H1) as (l & Hin & He & (s' & Hl & _) & Hle).
  rewrite last_snoc in Hl. injection Hl as -> _.
  rewrite events_of_app, app_nil_r in He.
  destruct (stream_ok _ _ _ _ _ _ _ _ _ Ha' ltac:(lia) Hg2 H2) as (l' & Hin' & He' & _).
  exists l'. split; [done|]. rewrite He, He'.
  destruct (Hmid _ _ Hin Hin') as [m Hm]. unfold cursor_of in *.
  rewrite Hm, Nat2Z.id, drop_app_length, drop_app_le, numbered_app by done.
  f_equal. f_equal. rewrite length_drop. lia.
Qed.
End streams.

(** ** Permissions *)

Lemma collect_ok answers o :
  collect answers = Ok o <->
  o <> "" /\ exists pre post, answers = pre ++ AOption o :: post /\ Forall (fun a => a = AUnsupported) pre.
Proof.
  split.
  - induction answers as [|a answers IH]; cbn; [done|]. destruct a; [|done|].
    + intros E. destruct (IH E) as (Hne & pre & post & -> & Hp). split; [done|].
      exists (AUnsupported :: pre), post. split; [done|by constructor].
    + destruct (String.eqb_spec id ""); [done|]. intros [= <-]. split; [done|]. by exists [], answers.
  - intros (Hne & pre & post & -> & Hp). induction Hp as [|a pre -> _ IH]; cbn; [|done].
    apply String.eqb_neq in Hne. by rewrite Hne.
Qed.

(** a worker's permission comes from the configuration or from a person.
    Granted an option, the worker is configured, and either its policy is
    "allow" and the option is one of those on offer, one that allows if there is
    any; or its policy is "ask", and an observer answered that very option, all
    who answered before being unable to. *)
Theorem a_permission_is_given_by_somebody c worker taskID options answers o :
  answer_permission (runOptions c worker taskID) options answers = Ok o ->
  exists w, WorkerOf c worker = Some w
    /\ ((W_OnPermission w = "allow"
         /\ exists opt, opt ∈ options /\ O_ID opt = o /\ (existsb allows options = true -> allows opt = true))
        \/ (W_OnPermission w = "ask" /\ taskID <> "" /\ o <> ""
            /\ exists pre post, answers = pre ++ AOption o :: post /\ Forall (fun a => a = AUnsupported) pre)).
Proof.
  unfold runOptions. destruct (WorkerOf c worker) as [w|]; [|done]. intros E. exists w. split; [done|].
  destruct (String.eqb_spec (W_OnPermission w) "allow") as [Ha|_]; [left|].
  - split; [done|]. cbn in E. unfold allowPolicy in E. destruct (find_first allows options) as [opt|] eqn:Ef.
    + injection E as <-. apply find_first_Some in Ef as [Hin Ha']. by exists opt.
    + destruct options as [|opt rest]; [done|]. injection E as <-. exists opt. split_and!; [by left|done|].
      intros Hx. apply find_first_None in Ef. apply existsb_Exists, Exists_exists in Hx as (x & Hx & Hxa).
      rewrite Forall_forall in Ef. by rewrite (Ef x Hx) in Hxa.
  - destruct (String.eqb_spec (W_OnPermission w) "ask") as [Hk|_]; [right|done].
    destruct (String.eqb_spec taskID "") as [|Ht]; [done|]. cbn in E. unfold askPermissionPolicy in E.
    destruct answers as [|a rest]; [done|]. apply collect_ok in E as [? ?]. auto.
Qed.

(** The "allow" policy takes the first option when none allows. *)
Theorem allow_may_take_a_refusal :
  allowPolicy [mkPermissionOption "reject_once" "no"] = Ok "no".
Proof. done. Qed.

(** ** Directives *)

(** What starts like a directive, once trimmed, is never given to a worker. *)
Theorem a_directive_is_never_dispatched cwd prompt p :
  Run cwd prompt = Ok (DDispatch p) ->
  p = prompt /\ cwd <> "" /\ TrimSpace prompt <> ""
  /\ HasPrefix (TrimSpace prompt) "#" = false /\ HasPrefix (TrimSpace prompt) "--" = false.
Proof.
  unfold Run. destruct (String.eqb_spec cwd ""); [done|].
  destruct (String.eqb_spec (TrimSpace prompt) ""); [done|]. cbn [orb].
  destruct (HasPrefix (TrimSpace prompt) "#"); [done|].
  repeat match goal with |- (if ?b then _ else _) = _ -> _ => destruct b eqn:?; [done|] end.
  by intros [= <-].
Qed.

(** ** Watchers *)

Definition no_empty (m : routes) : Prop := forall id, m !! id <> Some [].

Lemma remove_first_snoc r l : r ∉ l -> remove_first r (l ++ [r]) = l.
Proof.
  induction l as [|x l IH]; cbn; [by rewrite bool_decide_true|]. rewrite not_elem_of_cons. intros [Hne Hin].
  rewrite bool_decide_false by congruence. by rewrite IH.
Qed.

Lemma removeACPRoute_no_empty id r m : no_empty m -> no_empty (removeACPRoute id r m).
Proof.
  intros Hm k. unfold removeACPRoute. destruct (remove_first _ _) as [|x l] eqn:E.
  - destruct (decide (k = id)) as [->|]; [by rewrite lookup_delete_eq|]. by rewrite lookup_delete_ne.
  - destruct (decide (k = id)) as [->|]; [by rewrite lookup_insert_eq|]. by rewrite lookup_insert_ne.
Qed.

(** A connection that watches and leaves is forgotten: the tables are what they were. *)
Theorem watchers_leave_no_trace id r m :
  no_empty m -> r ∉ snapshotRoutes id m ->
  removeACPRoute id r (addACPRoute id r m) = m /\ removeLiveRoute id r (addLiveRoute id r m) = m
  /\ addLiveRoute id r (addLiveRoute id r m) = addLiveRoute id r m.
Proof.
  intros Hm Hr. assert (Hrm : removeACPRoute id r (addACPRoute id r m) = m).
  { unfold removeACPRoute, addACPRoute. rewrite lookup_insert_eq. cbn. rewrite remove_first_snoc by done.
    destruct (m !! id) as [[|x l]|] eqn:E; cbn.
    - by destruct (Hm id).
    - by rewrite insert_insert_eq, insert_id.
    - by rewrite delete_insert_eq, delete_id. }
  split; [done|]. unfold removeLiveRoute, addLiveRoute. rewrite (bool_decide_false (r ∈ default [] (m !! id))) by done.
  split; [done|]. rewrite bool_decide_true; [done|]. unfold addACPRoute. rewrite lookup_insert_eq. cbn. set_solver.
Qed.

(** ** Samples *)

Module Samples.
Definition cfg : DispatchConfig :=
  mkDispatchConfig true [mkWorkerConfig "claude" "claude-acp" [] "ask"; mkWorkerConfig "self" "goworker" ["acp"] "allow"]
    "claude" 2 [mkRouteConfig ["docs"] "self"].
Definition st (to : Status) : TaskEvent := mkTaskEvent "a" 1 EventStatus [] "" to.
Definition log_of (es : list TaskEvent) : EventLog := mkEventLog [] {["a" := es]} ∅ 0.
Definition log1 : EventLog := log_of [st "queued"].
Definition log2 : EventLog := log_of [st "queued"; st "dispatching"; st "failed"].
End Samples.
Import Samples.

Lemma the_worker_is_configured_witness :
  resolveWorker (fun s => s) cfg "" "write docs" = Some "self" /\ is_Some (WorkerOf cfg "self").
Proof.
  split; [by vm_compute|]. apply (the_worker_is_configured (fun s => s) cfg "" "write docs"); by vm_compute.
Defined.

Lemma log12_growing : growing "a" [log1; log2].
Proof. repeat constructor. by exists [st "dispatching"; st "failed"]. Qed.

Lemma a_stream_is_the_history_witness :
  exists l, l ∈ [log1; log2]
    /\ events_of (writeEvents "a" 0 [st "queued"] ++ writeEvents "a" 1 [st "dispatching"; st "failed"] ++ [EnvComplete 3 "failed"])
       = numbered "a" 0 (history (events l) "a")
    /\ exists s, last (writeEvents "a" 0 [st "queued"] ++ writeEvents "a" 1 [st "dispatching"; st "failed"] ++ [EnvComplete 3 "failed"])
         = Some (EnvComplete (Z.of_nat (cursor_of "a" l)) s) /\ tailComplete s = true.
Proof.
  apply (a_stream_is_the_history "a" (fun _ => true) (fun _ => Some "working") "a" 0 log1 [log2] _ true);
    [by vm_compute|done|apply log12_growing|by vm_compute].
Defined.

Lemma streams_join_witness :
  exists l, l ∈ [log2]
    /\ events_of (writeEvents "a" 0 [st "queued"]) ++ events_of (writeEvents "a" 1 [st "dispatching"; st "failed"] ++ [EnvComplete 3 "failed"])
       = numbered "a" 0 (history (events l) "a").
Proof.
  apply (streams_join "a" "a 1" (fun _ => true) (fun _ => true) (fun _ => Some "failed") (fun _ => Some "failed") "a" 0 1
    log1 [] (writeEvents "a" 0 [st "queued"]) "failed" log2 []
    (writeEvents "a" 1 [st "dispatching"; st "failed"] ++ [EnvComplete 3 "failed"]) true);
    [by vm_compute|by vm_compute|done|apply log12_growing|by vm_compute|by vm_compute].
Defined.

Lemma a_permission_is_given_by_somebody_witness :
  exists w, WorkerOf cfg "claude" = Some w
    /\ ((W_OnPermission w = "allow"
         /\ exists opt, opt ∈ [mkPermissionOption "allow_once" "y"] /\ O_ID opt = "y"
             /\ (existsb allows [mkPermissionOption "allow_once" "y"] = true -> allows opt = true))
        \/ (W_OnPermission w = "ask" /\ "t" <> "" /\ "y" <> ""
            /\ exists pre post, [AUnsupported; AOption "y"; AError] = pre ++ AOption "y" :: post
               /\ Forall (fun a => a = AUnsupported) pre)).
Proof.
  apply (a_permission_is_given_by_somebody cfg "claude" "t" [mkPermissionOption "allow_once" "y"]
    [AUnsupported; AOption "y"; AError] "y"). by vm_compute.
Defined.
