(* ===== verification/DispatchReview.v ===== *)
(** * The dispatcher plugin: the review of a task

    daemon/internal/plugins/dispatcher/review.go: what the events of a task are
    summed up to, the text that is fit for a terminal, the quoting for a shell,
    and the review that is sent and printed. JSON decoding and the format of
    times are parameters. *)

From S2P Require Import Prelude GoString JsonLines DispatchTask DispatchEventLog.
Import Task EventLog.
#[local] Open Scope string_scope.
#[local] Open Scope list_scope.

(** ** Text *)

(** [unicode.IsControl]: the category Cc. *)
Definition IsControl (r : N) : bool := (r <? 32)%N || ((127 <=? r)%N && (r <? 160)%N).

Definition printable (r : N) : bool := (r =? 10)%N || (r =? 9)%N || negb (IsControl r).

(** U+FFFD, which [strings.Map] writes for a byte that is no rune. *)
Definition replacement : string := String "239" (String "191" (String "189" "")).

Definition map_rune (p : N * string) : string :=
  if printable p.1 then
    if (p.1 =? RuneError)%N && (String.length p.2 =? 1)%nat then replacement else p.2
  else "".

Definition cleanReviewText (value : string) : string := foldr (fun p acc => map_rune p +:+ acc) "" (runes value).

Definition quote : ascii := "'".
Definition dquote : ascii := "034".

(** The quote between double quotes, between the end of a single-quoted part and
    the start of the next one. *)
Definition escaped : string :=
  String quote (String dquote (String quote (String dquote (String quote "")))).

(** [strings.ReplaceAll] of the quote. *)
Fixpoint replace_quotes (s : string) : string :=
  match s with
  | EmptyString => ""
  | String a s' => if Ascii.eqb a quote then escaped +:+ replace_quotes s' else String a (replace_quotes s')
  end.

Definition shellQuote (value : string) : string :=
  String quote (replace_quotes (cleanReviewText value) +:+ String quote "").

(** The command of [writeCodeReview]. *)
Definition diff_command (repo base branch : string) : string :=
  "git -C " +:+ shellQuote repo +:+ " diff " +:+ shellQuote base +:+ ".." +:+ shellQuote branch.

(** ** The sum of the events *)

Record reviewUsage := mkReviewUsage {
  Used : string;
  Size : string;
  Cost : string;
  Currency : string;
}.

Record reviewTool := mkReviewTool {
  Tool_Title : string;
  Tool_Status : string;
}.

#[export] Instance reviewTool_eq_dec : EqDecision reviewTool.
Proof. solve_decision. Defined.

(** An update as [summarizeTaskEvents] reads it: [u_usage] is what
    [parseReviewUsage] finds in it. *)
Record update := mkUpdate {
  u_kind : string;
  u_text : option string;
  u_title : string;
  u_status : string;
  u_call : string;
  u_usage : option reviewUsage;
}.

Record taskReview := mkTaskReview {
  Statuses : list Status;
  Text : string;
  Usage : option reviewUsage;
  Tools : gmap string reviewTool;
}.

Definition UpdateAgentMessageChunk : string := "agent_message_chunk".
Definition UpdateToolCall : string := "tool_call".
Definition UpdateToolCallUpdate : string := "tool_call_update".

Section review.
Context (decode : bytes -> option update).

Definition sum_event (r : taskReview) (e : TaskEvent) : taskReview :=
  if String.eqb (EType e) EventStatus then mkTaskReview (Statuses r ++ [To e]) (Text r) (Usage r) (Tools r)
  else match decode (Update e) with
  | None => r
  | Some u =>
      if String.eqb (u_kind u) UpdateAgentMessageChunk then
        mkTaskReview (Statuses r) (Text r +:+ default "" (u_text u)) (Usage r) (Tools r)
      else if String.eqb (u_kind u) UpdateToolCall || String.eqb (u_kind u) UpdateToolCallUpdate then
        if String.eqb (u_title u) "" then r
        else
          let key := if String.eqb (u_call u) "" then u_title u else u_call u in
          mkTaskReview (Statuses r) (Text r) (Usage r) (<[key := mkReviewTool (u_title u) (u_status u)]> (Tools r))
      else if String.eqb (u_kind u) "usage_update" then
        match u_usage u with
        | Some usage => mkTaskReview (Statuses r) (Text r) (Some usage) (Tools r)
        | None => r
        end
      else r
  end.

Definition summarizeTaskEvents (events : list TaskEvent) : taskReview :=
  foldl sum_event (mkTaskReview [] "" None ∅) events.
End review.

(** The tools in the order in which they are listed: by title; the order of a
    Go map and of [sort.Slice] leave open that of equal titles. *)
Definition listed (tools : gmap string reviewTool) (l : list reviewTool) : Prop :=
  l ≡ₚ (map_to_list tools).*2 /\ StronglySorted (fun a b => string_le (Tool_Title a) (Tool_Title b)) l.

(** ** The review *)

Record reviewCode := mkReviewCode {
  RC_Repo : string;
  RC_Worktree : string;
  RC_Branch : string;
  RC_BaseCommit : string;
  RC_Commits : list string;
  RC_Conclusion : string;
}.

Record reviewDTO := mkReviewDTO {
  DTO_ID : string;
  DTO_Kind : string;
  DTO_Worker : string;
  DTO_Status : string;
  DTO_Prompt : string;
  DTO_CreatedAt : string;
  DTO_UpdatedAt : string;
  DTO_Statuses : list string;
  DTO_Usage : option reviewUsage;
  DTO_Tools : list reviewTool;
  DTO_Artifact : string;
  DTO_Code : option reviewCode;
}.

Definition clean_tool (t : reviewTool) : reviewTool :=
  mkReviewTool (cleanReviewText (Tool_Title t)) (cleanReviewText (Tool_Status t)).

Definition clean_usage (u : reviewUsage) : reviewUsage :=
  mkReviewUsage (Used u) (Size u) (Cost u) (cleanReviewText (Currency u)).

Section dto.
Context (formatReviewTime : Time -> string).

Definition buildReviewDTO (t : Task) (r : taskReview) (tools : list reviewTool) : reviewDTO :=
  let c := cleanReviewText in
  let text := c (Text r) in
  let code := String.eqb (TKind t) KindCode in
  mkReviewDTO (c (ID t)) (c (TKind t)) (c (Worker t)) (c (TStatus t)) (c (Prompt t))
    (formatReviewTime (CreatedAt t)) (formatReviewTime (UpdatedAt t))
    (c <$> Statuses r) (clean_usage <$> Usage r) (clean_tool <$> tools)
    (if code then "" else text)
    (if code then Some (mkReviewCode (c (Repo t)) (c (Worktree t)) (c (Branch t)) (c (BaseCommit t)) (c <$> Commits t) text)
     else None).
End dto.

(** What the reviewer is told he can do. *)
Inductive review_action : Type :=
  | ActReview (id : string)
  | ActTail (id : string)
  | ActFailed (why : string)
  | ActCancelled (why : string)
  | ActDone
  | ActRejected.

Definition reviewError (t : Task) : option string := if String.eqb (TError t) "" then None else Some (cleanReviewText (TError t)).

Definition no_detail : string := "worker 未提供错误详情".

Definition writeReviewAction (t : Task) : option review_action :=
  let s := TStatus t in
  let why := default no_detail (reviewError t) in
  if String.eqb s StatusAwaitingReview then Some (ActReview (cleanReviewText (ID t)))
  else if String.eqb s StatusQueued || String.eqb s StatusDispatching || String.eqb s StatusWorking || String.eqb s StatusMerging
  then Some (ActTail (cleanReviewText (ID t)))
  else if String.eqb s StatusFailed then Some (ActFailed why)
  else if String.eqb s StatusCancelled then Some (ActCancelled why)
  else if String.eqb s StatusDone then Some ActDone
  else if String.eqb s StatusRejected then Some ActRejected
  else None.

(** Whether a command for the diff is printed. *)
Definition writes_diff (t : Task) : option string :=
  if negb (String.eqb (Repo t) "") && negb (String.eqb (BaseCommit t) "") && negb (String.eqb (Branch t) "")
  then Some (diff_command (Repo t) (BaseCommit t) (Branch t)) else None.

(** * The dispatcher plugin: theorems about the review

    The command that is printed means what it says to a shell; no text that the
    reviewer's terminal gets has a control character. *)

(** ** The words of a command line

    The part of the shell's grammar that the command uses: blanks between words,
    letters and the like for themselves, single quotes, and double quotes without
    an expansion; anything else is no command of this grammar. *)
Inductive quoting : Type := Unquoted | Single | Double.

Definition plain (a : ascii) : bool :=
  let n := byte_val a in
  in_range 48 57 n || in_range 65 90 n || in_range 97 122 n || in_range 45 47 n || (n =? 95)%N.

(** What a shell expands between double quotes. *)
Definition expands (a : ascii) : bool := Ascii.eqb a "$" || Ascii.eqb a "`" || Ascii.eqb a "\".

Definition snoc (w : option string) (a : ascii) : option string := Some (default "" w +:+ String a "").

Fixpoint sh_words (m : quoting) (cur : option string) (s : string) : option (list string) :=
  match s with
  | EmptyString => match m with Unquoted => Some (match cur with Some w => [w] | None => [] end) | _ => None end
  | String a s' =>
      match m with
      | Unquoted =>
          if Ascii.eqb a " " then
            match cur with Some w => cons w <$> sh_words Unquoted None s' | None => sh_words Unquoted None s' end
          else if Ascii.eqb a quote then sh_words Single (Some (default "" cur)) s'
          else if Ascii.eqb a dquote then sh_words Double (Some (default "" cur)) s'
          else if plain a then sh_words Unquoted (snoc cur a) s'
          else None
      | Single => if Ascii.eqb a quote then sh_words Unquoted cur s' else sh_words Single (snoc cur a) s'
      | Double =>
          if Ascii.eqb a dquote then sh_words Unquoted cur s'
          else if expands a then None else sh_words Double (snoc cur a) s'
      end
  end.

Lemma append_cons_l a s t : String a s +:+ t = String a (s +:+ t).
Proof. done. Qed.

(** Within single quotes, the escaped text adds the text. *)
Lemma sh_single w s rest :
  sh_words Single (Some w) (replace_quotes s +:+ String quote rest) = sh_words Unquoted (Some (w +:+ s)) rest.
Proof.
  revert w. induction s as [|a s IH]; intros w; cbn [replace_quotes].
  - change ("" +:+ String quote rest) with (String quote rest). cbn [sh_words]. by rewrite append_nil_r.
  - destruct (Ascii.eqb_spec a quote) as [->|Hne].
    + change ((escaped +:+ replace_quotes s) +:+ String quote rest)
        with (escaped +:+ (replace_quotes s +:+ String quote rest)).
      unfold escaped. rewrite !append_cons_l. cbn. rewrite IH. by rewrite <- append_assoc.
    + rewrite append_cons_l. cbn [sh_words]. rewrite (proj2 (Ascii.eqb_neq _ _) Hne). unfold snoc. cbn [default].
      rewrite IH. by rewrite <- append_assoc.
Qed.

Lemma sh_quoted cur v rest :
  sh_words Unquoted cur (shellQuote v +:+ rest) = sh_words Unquoted (Some (default "" cur +:+ cleanReviewText v)) rest.
Proof.
  unfold shellQuote. rewrite append_cons_l. cbn [sh_words].
  change (Ascii.eqb quote " ") with false. change (Ascii.eqb quote quote) with true. cbv iota.
  rewrite <- append_assoc. change (String quote EmptyString +:+ rest) with (String quote rest). by rewrite sh_single.
Qed.

Fixpoint all_plain (w : string) : bool := match w with EmptyString => true | String a w' => plain a && all_plain w' end.

Lemma plain_special a : plain a = true -> Ascii.eqb a " " = false /\ Ascii.eqb a quote = false /\ Ascii.eqb a dquote = false.
Proof.
  intros H. split_and!; apply Ascii.eqb_neq; intros ->; vm_compute in H; discriminate.
Qed.

Lemma sh_plain cur a w s :
  all_plain (String a w) = true ->
  sh_words Unquoted cur (String a w +:+ s) = sh_words Unquoted (Some (default "" cur +:+ String a w)) s.
Proof.
  revert a cur. induction w as [|b w IH]; intros a cur Hp; cbn [all_plain] in Hp; apply andb_true_iff in Hp as [Ha Hp];
    destruct (plain_special a Ha) as (E1 & E2 & E3); rewrite append_cons_l; cbn [sh_words]; rewrite E1, E2, E3, Ha.
  - done.
  - rewrite IH by done. unfold snoc. cbn [from_option id]. unfold id. by rewrite <- append_assoc.
Qed.

Lemma sh_blank w s : sh_words Unquoted (Some w) (String " " s) = cons w <$> sh_words Unquoted None s.
Proof. done. Qed.

(** the command to look at a diff is what it says. Read by a shell, the line
    that the review prints is [git] with exactly four arguments, the last two
    being the repository and the range of commits, cleaned of control
    characters, whatever quotes, blanks, dollars or semicolons they hold. *)
Theorem the_diff_command_is_what_it_says repo base branch :
  sh_words Unquoted None (diff_command repo base branch)
  = Some ["git"; "-C"; cleanReviewText repo; "diff"; cleanReviewText base +:+ ".." +:+ cleanReviewText branch].
Proof.
  transitivity (sh_words Unquoted None ("git" +:+ String " " ("-C" +:+ String " " (shellQuote repo +:+
    String " " ("diff" +:+ String " " (shellQuote base +:+ (".." +:+ (shellQuote branch +:+ ""))))))));
    [unfold diff_command; by rewrite append_nil_r|].
  rewrite sh_plain, sh_blank, sh_plain, sh_blank, sh_quoted, sh_blank, sh_plain, sh_blank, sh_quoted, sh_plain, sh_quoted by done.
  cbn. by rewrite <- append_assoc.
Qed.

(** ** Text without control characters *)

(** A piece of a decoded string: a byte that is no rune, or a rune that decodes
    the same wherever it stands. *)
Definition piece (p : N * string) : Prop :=
  (p.1 = RuneError /\ String.length p.2 = 1) \/ forall t, runes (p.2 +:+ t) = p :: runes t.

Lemma runes_pieces s : Forall piece (runes s).
Proof.
  remember (String.length s) as n eqn:Hn. assert (Hle : String.length s <= n) by lia. clear Hn.
  revert s Hle. induction n as [|n IH]; intros s Hle; (destruct s as [|a s1]; [constructor|]); cbn in Hle; [lia|].
  assert (Hs : forall t, String.length t <= String.length s1 -> Forall piece (runes t)) by (intros t Ht; apply IH; lia).
  cbn [runes]. destruct (byte_val a <? 128)%N eqn:Ea.
  { constructor; [right; intros t; apply runes_ascii, Ea|by apply Hs]. }
  assert (Herr : forall t, String.length t <= String.length s1 -> Forall piece ((RuneError, String a "") :: runes t)).
  { intros t Ht. constructor; [by left|by apply Hs]. }
  destruct s1 as [|b s2]; [by apply (Herr "")|]. lazy beta match zeta. cbn in Hs, Herr.
  destruct (ok2 _ _) eqn:E2.
  { constructor; [right; intros t|apply Hs; lia].
    cbn [snd]. rewrite !append_cons_l. cbn [runes]. by rewrite Ea, E2. }
  destruct s2 as [|c s3]; lazy beta match zeta; [apply (Herr (String b "")); cbn; lia|]. cbn in Hs, Herr.
  destruct (ok3 _ _ _) eqn:E3.
  { constructor; [right; intros t|apply Hs; lia].
    cbn [snd]. rewrite !append_cons_l. cbn [runes]. by rewrite Ea, E2, E3. }
  destruct s3 as [|d s4]; lazy beta match zeta; [apply (Herr (String b (String c ""))); cbn; lia|]. cbn in Hs, Herr.
  destruct (ok4 _ _ _ _) eqn:E4; [|apply (Herr (String b (String c (String d s4)))); cbn; lia].
  constructor; [right; intros t|apply Hs; lia].
  cbn [snd]. rewrite !append_cons_l. cbn [runes]. by rewrite Ea, E2, E3, E4.
Qed.

(** What a piece becomes, as pieces. *)
Definition kept (p : N * string) : list (N * string) :=
  if printable p.1 then
    if (p.1 =? RuneError)%N && (String.length p.2 =? 1)%nat then [(RuneError, replacement)] else [p]
  else [].

Lemma runes_replacement t : runes (replacement +:+ t) = (RuneError, replacement) :: runes t.
Proof. done. Qed.

Lemma runes_kept p t : piece p -> runes (map_rune p +:+ t) = kept p ++ runes t.
Proof.
  intros Hp. unfold map_rune, kept. destruct (printable p.1); [|done].
  destruct ((p.1 =? RuneError)%N && (String.length p.2 =? 1)%nat) eqn:E; [apply runes_replacement|].
  destruct Hp as [[He Hl]|Hp]; [|apply Hp]. by rewrite He, Hl in E.
Qed.

Lemma runes_cleaned ps :
  Forall piece ps -> runes (foldr (fun p acc => map_rune p +:+ acc) "" ps) = concat (kept <$> ps).
Proof. induction 1 as [|p ps Hp _ IH]; cbn; [done|]. by rewrite runes_kept, IH. Qed.

Definition shown (p : N * string) : Prop :=
  printable p.1 = true /\ ~ (p.1 = RuneError /\ String.length p.2 = 1).

Lemma kept_shown p : Forall shown (kept p).
Proof.
  unfold kept. destruct (printable p.1) eqn:Ep; [|constructor].
  destruct ((p.1 =? RuneError)%N && (String.length p.2 =? 1)%nat) eqn:E; repeat constructor.
  - intros [_ Hl]. discriminate Hl.
  - done.
  - intros [He Hl]. by rewrite He, Hl in E.
Qed.

Lemma shown_kept p : shown p -> map_rune p = p.2.
Proof.
  intros [Hp Hn]. unfold map_rune. rewrite Hp. destruct (_ && _) eqn:E; [|done].
  apply andb_true_iff in E as [E1%N.eqb_eq E2%Nat.eqb_eq]. by destruct Hn.
Qed.

Lemma cleaned_shown v : Forall shown (runes (cleanReviewText v)).
Proof.
  unfold cleanReviewText. rewrite runes_cleaned by apply runes_pieces.
  induction (runes v) as [|p ps IH]; cbn; [constructor|]. apply Forall_app. split; [apply kept_shown|apply IH].
Qed.

(** Text whose every rune is printable, and whose every byte belongs to a rune. *)
Definition clean (s : string) : Prop := Forall shown (runes s).

(** What is cleaned is clean, and clean text is left alone. *)
Theorem cleanReviewText_cleans v :
  clean (cleanReviewText v) /\ (clean v -> cleanReviewText v = v).
Proof.
  split; [apply cleaned_shown|]. unfold clean. intros Hc. rewrite <- (raw_runes v) at 2. unfold cleanReviewText.
  induction Hc as [|p ps Hp _ IH]; [done|]. cbn [foldr]. rewrite raw_cons, IH. by rewrite shown_kept.
Qed.

(** ** The review *)

(** The texts of a review, its times and the numbers of its usage apart. *)
Definition texts (d : reviewDTO) : list string :=
  [DTO_ID d; DTO_Kind d; DTO_Worker d; DTO_Status d; DTO_Prompt d; DTO_Artifact d]
  ++ DTO_Statuses d ++ (Tool_Title <$> DTO_Tools d) ++ (Tool_Status <$> DTO_Tools d)
  ++ match DTO_Usage d with Some u => [Currency u] | None => [] end
  ++ match DTO_Code d with
     | Some c => [RC_Repo c; RC_Worktree c; RC_Branch c; RC_BaseCommit c; RC_Conclusion c] ++ RC_Commits c
     | None => []
     end.

Lemma clean_list (A : Type) (f : A -> string) (l : list A) : Forall clean ((fun x => cleanReviewText (f x)) <$> l).
Proof. apply Forall_fmap, Forall_true. intros x. apply cleaned_shown. Qed.

(** a review is clean. None of the texts of a review, whatever the task, the
    worker and git put in, carries a control character but the line feed and the
    tab. *)
Theorem a_review_is_clean format t r tools : Forall clean (texts (buildReviewDTO format t r tools)).
Proof.
  assert (Hc : forall v, clean (cleanReviewText v)) by (intros v; apply cleaned_shown).
  assert (He : clean "") by constructor.
  unfold texts, buildReviewDTO. cbn [DTO_ID DTO_Kind DTO_Worker DTO_Status DTO_Prompt DTO_Artifact DTO_Statuses DTO_Tools DTO_Usage DTO_Code].
  repeat apply Forall_app_2.
  - destruct (String.eqb _ _); repeat constructor; done.
  - apply (clean_list _ id).
  - rewrite <- list_fmap_compose. apply (clean_list _ Tool_Title).
  - rewrite <- list_fmap_compose. apply (clean_list _ Tool_Status).
  - destruct (Usage r); cbn; repeat constructor. apply Hc.
  - destruct (String.eqb _ _); [|constructor]. apply Forall_app_2; [repeat constructor; apply Hc|]. apply (clean_list _ id).
Qed.

(** The order of two tools of one title is left open. *)
Theorem the_order_of_equal_titles_is_open :
  let a := mkReviewTool "Bash" "completed" in let b := mkReviewTool "Bash" "failed" in
  let tools := <["2" := b]> {["1" := a]} in listed tools [a; b] /\ listed tools [b; a].
Proof.
  cbn zeta. assert (Hle : string_le "Bash" "Bash") by done.
  split; (split; [|repeat constructor; done]).
  - apply (bool_decide_eq_true_1 _). by vm_compute.
  - apply (bool_decide_eq_true_1 _). by vm_compute.
Qed.

Lemma cleanReviewText_cleans_witness : clean (cleanReviewText "a") /\ cleanReviewText "a" = "a".
Proof. destruct (cleanReviewText_cleans "a") as [H1 H2]. split; [exact H1|]. apply H2. repeat constructor. intros [He _]. discriminate He. Defined.
