(* ===== verification/GoUtf8.v ===== *)
(** * Go's utf8.AppendRune and the conversions between strings and runes

    Encoding a rune and decoding it again, [string([]rune(s))] and the cuts of
    a text at a number of runes. *)

From S2P Require Import Prelude GoString.
#[local] Open Scope string_scope.
#[local] Open Scope list_scope.

Definition valid_rune (r : N) : bool := (r <=? 1114111)%N && negb (in_range 55296 57343 r).

Definition byte_char (n : N) : ascii := ascii_of_N n.

(** The bytes of a valid rune, by its size. *)
Definition encode_valid (r : N) : string :=
  if (r <? 128)%N then String (byte_char r) ""
  else if (r <? 2048)%N then
    String (byte_char (N.lor 192 (N.shiftr r 6))) (String (byte_char (N.lor 128 (N.land r 63))) "")
  else if (r <? 65536)%N then
    String (byte_char (N.lor 224 (N.shiftr r 12)))
      (String (byte_char (N.lor 128 (N.land (N.shiftr r 6) 63))) (String (byte_char (N.lor 128 (N.land r 63))) ""))
  else
    String (byte_char (N.lor 240 (N.shiftr r 18)))
      (String (byte_char (N.lor 128 (N.land (N.shiftr r 12) 63)))
        (String (byte_char (N.lor 128 (N.land (N.shiftr r 6) 63))) (String (byte_char (N.lor 128 (N.land r 63))) ""))).

(** A rune that is not valid is written as [RuneError]. *)
Definition norm_rune (r : N) : N := if valid_rune r then r else RuneError.
Definition encode_rune (r : N) : string := encode_valid (norm_rune r).

(** [[]rune(s)] and [string(rs)]. *)
Definition rune_list (s : string) : list N := fst <$> runes s.
Definition of_runes (rs : list N) : string := foldr (fun r acc => encode_rune r +:+ acc) "" rs.

Definition runeLen (s : string) : nat := length (runes s).

(** ** Decoding what was encoded *)

Lemma lor_high k a b : (b < 2 ^ k)%N -> N.lor (a * 2 ^ k) b = (a * 2 ^ k + b)%N.
Proof.
  intros Hb. rewrite N.add_nocarry_lxor, <- N.lxor_lor; [done|..].
  all: apply N.bits_inj; intros n; rewrite N.land_spec, N.bits_0.
  all: destruct (N.lt_ge_cases n k) as [Hn|Hn].
  all: try (rewrite N.mul_pow2_bits_low by done; done).
  all: assert (Hz : N.testbit b n = false) by (destruct (N.eq_0_gt_0_cases b) as [->|Hp]; [apply N.bits_0|];
    apply N.bits_above_log2; apply N.log2_lt_pow2 in Hb; [lia|done]).
  all: by rewrite Hz, andb_false_r.
Qed.

Lemma lor_shift k a b : (b < 2 ^ k)%N -> N.lor (N.shiftl a k) b = (a * 2 ^ k + b)%N.
Proof. intros Hb. rewrite N.shiftl_mul_pow2. by apply lor_high. Qed.

Lemma byte_val_char n : (n < 256)%N -> byte_val (byte_char n) = n.
Proof. intros Hn. unfold byte_val, byte_char. by rewrite N_ascii_embedding. Qed.

Lemma land_low6 r : N.land r 63 = (r mod 64)%N.
Proof. change 63%N with (N.ones 6). by rewrite N.land_ones. Qed.

Lemma lor_cont r : N.lor 128 (N.land r 63) = (128 + r mod 64)%N.
Proof.
  rewrite land_low6. change 128%N with (2 * 2 ^ 6)%N. apply lor_high. change (2 ^ 6)%N with 64%N. apply N.mod_lt. done.
Qed.

Lemma cont_ok r : byte_val (byte_char (N.lor 128 (N.land r 63))) = (128 + r mod 64)%N.
Proof. rewrite lor_cont. apply byte_val_char. assert (r mod 64 < 64)%N by (by apply N.mod_lt). lia. Qed.

Lemma cont_back r : N.land (128 + r mod 64) 63 = (r mod 64)%N.
Proof.
  rewrite land_low6. change 128%N with (2 * 64)%N. rewrite N.add_comm, N.Div0.mod_add. by rewrite N.Div0.mod_mod.
Qed.

Lemma cont_range r : in_range 128 191 (128 + r mod 64) = true.
Proof.
  unfold in_range. assert (Hlt : (r mod 64 < 64)%N) by (by apply N.mod_lt). revert Hlt. generalize (r mod 64)%N. intros x Hlt.
  apply andb_true_iff. split; apply N.leb_le; lia.
Qed.

Lemma lead2 r : (r < 2048)%N ->
  byte_val (byte_char (N.lor 192 (N.shiftr r 6))) = (192 + r / 64)%N /\ N.land (192 + r / 64) 31 = (r / 64)%N.
Proof.
  intros Hr. assert (Hq : (r / 64 < 32)%N) by (apply N.Div0.div_lt_upper_bound; lia).
  rewrite N.shiftr_div_pow2. change (2 ^ 6)%N with 64%N. change 192%N with (6 * 2 ^ 5)%N.
  rewrite lor_high by exact Hq. split; [apply byte_val_char; change (6 * 2 ^ 5)%N with 192%N; lia|]. change (6 * 2 ^ 5)%N with (6 * 32)%N.
  change 31%N with (N.ones 5). rewrite N.land_ones, N.add_comm. cbn [N.pow]. rewrite N.Div0.mod_add. by apply N.mod_small.
Qed.

Lemma lead3 r : (r < 65536)%N ->
  byte_val (byte_char (N.lor 224 (N.shiftr r 12))) = (224 + r / 4096)%N /\ N.land (224 + r / 4096) 15 = (r / 4096)%N.
Proof.
  intros Hr. assert (Hq : (r / 4096 < 16)%N) by (apply N.Div0.div_lt_upper_bound; lia).
  rewrite N.shiftr_div_pow2. change (2 ^ 12)%N with 4096%N. change 224%N with (14 * 2 ^ 4)%N.
  rewrite lor_high by exact Hq. split; [apply byte_val_char; change (14 * 2 ^ 4)%N with 224%N; lia|]. change (14 * 2 ^ 4)%N with (14 * 16)%N.
  change 15%N with (N.ones 4). rewrite N.land_ones, N.add_comm. cbn [N.pow]. rewrite N.Div0.mod_add. by apply N.mod_small.
Qed.

Lemma lead4 r : (r <= 1114111)%N ->
  byte_val (byte_char (N.lor 240 (N.shiftr r 18))) = (240 + r / 262144)%N /\ N.land (240 + r / 262144) 7 = (r / 262144)%N.
Proof.
  intros Hr. assert (Hq : (r / 262144 < 8)%N) by (apply N.Div0.div_lt_upper_bound; lia).
  rewrite N.shiftr_div_pow2. change (2 ^ 18)%N with 262144%N. change 240%N with (30 * 2 ^ 3)%N.
  rewrite lor_high by exact Hq. split; [apply byte_val_char; change (30 * 2 ^ 3)%N with 240%N; lia|]. change (30 * 2 ^ 3)%N with (30 * 8)%N.
  change 7%N with (N.ones 3). rewrite N.land_ones, N.add_comm. cbn [N.pow]. rewrite N.Div0.mod_add. by apply N.mod_small.
Qed.

Lemma shiftr_div6 r : N.shiftr r 6 = (r / 64)%N.
Proof. by rewrite N.shiftr_div_pow2. Qed.
Lemma shiftr_div12 r : N.shiftr r 12 = (r / 4096)%N.
Proof. by rewrite N.shiftr_div_pow2. Qed.

Lemma join6 a r : N.lor (N.shiftl a 6) (r mod 64) = (a * 64 + r mod 64)%N.
Proof. rewrite lor_shift by (by apply N.mod_lt). done. Qed.

Lemma runes_ok1 r t : (r < 128)%N -> runes (encode_valid r +:+ t) = (r, encode_valid r) :: runes t.
Proof.
  intros Hr. unfold encode_valid. rewrite (proj2 (N.ltb_lt _ _) Hr).
  change (String (byte_char r) "" +:+ t) with (String (byte_char r) t).
  rewrite runes_ascii; rewrite byte_val_char by lia; [done|]. by apply N.ltb_lt.
Qed.

Lemma runes_lead2 x y (t : string) :
  (byte_val x <? 128)%N = false -> ok2 (byte_val x) (byte_val y) = true ->
  runes (String x (String y t)) =
    (N.lor (N.shiftl (N.land (byte_val x) 31) 6) (N.land (byte_val y) 63), String x (String y "")) :: runes t.
Proof. intros Hx Hy. cbn [runes]. by rewrite Hx, Hy. Qed.

Lemma runes_lead3 x y z (t : string) :
  (byte_val x <? 128)%N = false -> ok2 (byte_val x) (byte_val y) = false -> ok3 (byte_val x) (byte_val y) (byte_val z) = true ->
  runes (String x (String y (String z t))) =
    (N.lor (N.shiftl (N.land (byte_val x) 15) 12) (N.lor (N.shiftl (N.land (byte_val y) 63) 6) (N.land (byte_val z) 63)),
     String x (String y (String z ""))) :: runes t.
Proof. intros Hx Hy Hz. cbn [runes]. by rewrite Hx, Hy, Hz. Qed.

Lemma runes_lead4 x y z w (t : string) :
  (byte_val x <? 128)%N = false -> ok2 (byte_val x) (byte_val y) = false -> ok3 (byte_val x) (byte_val y) (byte_val z) = false ->
  ok4 (byte_val x) (byte_val y) (byte_val z) (byte_val w) = true ->
  runes (String x (String y (String z (String w t)))) =
    (N.lor (N.shiftl (N.land (byte_val x) 7) 18) (N.lor (N.shiftl (N.land (byte_val y) 63) 12)
       (N.lor (N.shiftl (N.land (byte_val z) 63) 6) (N.land (byte_val w) 63))),
     String x (String y (String z (String w "")))) :: runes t.
Proof. intros Hx Hy Hz Hw. cbn [runes]. by rewrite Hx, Hy, Hz, Hw. Qed.

Lemma in_range_spec lo hi x : in_range lo hi x = true <-> (lo <= x <= hi)%N.
Proof. unfold in_range. rewrite andb_true_iff, !N.leb_le. done. Qed.

Lemma in_range_false lo hi x : (hi < x)%N -> in_range lo hi x = false.
Proof. intros Hx. unfold in_range. rewrite (proj2 (N.leb_gt x hi) Hx). apply andb_false_r. Qed.

Lemma runes_ok2 r t : (128 <= r < 2048)%N -> runes (encode_valid r +:+ t) = (r, encode_valid r) :: runes t.
Proof.
  intros [Hlo Hhi]. unfold encode_valid. rewrite (proj2 (N.ltb_ge _ _) Hlo), (proj2 (N.ltb_lt _ _) Hhi).
  destruct (lead2 r Hhi) as [Ex El]. pose proof (cont_ok r) as Ey.
  change (String ?a (String ?b "") +:+ t) with (String a (String b t)).
  assert (Hq : (2 <= r / 64 < 32)%N).
  { split; [apply N.div_le_lower_bound; lia|apply N.Div0.div_lt_upper_bound; lia]. }
  rewrite runes_lead2; rewrite ?Ex, ?Ey; [|apply N.ltb_ge; lia|].
  - rewrite El, cont_back, join6. f_equal. f_equal. rewrite N.mul_comm. symmetry. apply N.div_mod. done.
  - unfold ok2. rewrite cont_range, andb_true_r. apply in_range_spec. lia.
Qed.

(** Quotients and remainders as variables, for linear arithmetic. *)
Ltac name_divs :=
  repeat match goal with
  | H : context [(?a / ?b)%N] |- _ => is_var a; let q := fresh "q" in set (q := (a / b)%N) in *; clearbody q
  | H : context [(?a mod ?b)%N] |- _ => is_var a; let m := fresh "m" in set (m := (a mod b)%N) in *; clearbody m
  end.

Lemma split64 r : (r = 64 * (r / 64) + r mod 64)%N /\ (r mod 64 < 64)%N.
Proof. split; [by apply N.div_mod|by apply N.mod_lt]. Qed.

Lemma mid_bounds r : (r < 65536)%N -> (r / 4096 = 0 -> r / 64 mod 64 = r / 64)%N /\ (r / 64 = (r / 4096) * 64 + r / 64 mod 64)%N.
Proof.
  intros Hr. assert (E : (r / 4096 = r / 64 / 64)%N) by (by rewrite N.Div0.div_div).
  assert (Hd : (r / 64 = 64 * (r / 64 / 64) + r / 64 mod 64)%N) by (by apply N.div_mod). rewrite E. split; [|lia].
  intros Hz. rewrite Hz in Hd. lia.
Qed.

Lemma runes_ok3 r t : (2048 <= r < 65536)%N -> in_range 55296 57343 r = false ->
  runes (encode_valid r +:+ t) = (r, encode_valid r) :: runes t.
Proof.
  intros [Hlo Hhi] Hs. unfold encode_valid.
  rewrite (proj2 (N.ltb_ge r 128)), (proj2 (N.ltb_ge r 2048)), (proj2 (N.ltb_lt r 65536)) by lia.
  destruct (lead3 r Hhi) as [Ex El]. pose proof (cont_ok (N.shiftr r 6)) as Ey. pose proof (cont_ok r) as Ez.
  rewrite shiftr_div6 in *. destruct (mid_bounds r Hhi) as [Hz Hm].
  assert (Hlow : (r / 64 * 64 <= r < r / 64 * 64 + 64)%N).
  { destruct (split64 r). name_divs. lia. }
  assert (Hy : (r / 64 mod 64 < 64)%N) by (by apply N.mod_lt).
  assert (Hq : (r / 4096 < 16)%N) by (apply N.Div0.div_lt_upper_bound; lia).
  change (String ?a (String ?b (String ?c "")) +:+ t) with (String a (String b (String c t))).
  rewrite runes_lead3; rewrite ?Ex, ?Ey, ?Ez.
  - rewrite El, !cont_back, join6, lor_shift; [f_equal; f_equal|].
    + destruct (split64 r). change (2 ^ 12)%N with 4096%N. name_divs. lia.
    + change (2 ^ 12)%N with 4096%N. destruct (split64 r). name_divs. lia.
  - apply N.ltb_ge. name_divs. lia.
  - unfold ok2. by rewrite in_range_false by (name_divs; lia).
  - unfold ok3. rewrite cont_range, andb_true_r. apply andb_true_iff. split; apply in_range_spec; [name_divs; lia|].
    unfold in_range in Hs. apply andb_false_iff in Hs.
    destruct (N.eqb_spec (224 + r / 4096) 224) as [E0|E0], (N.eqb_spec (224 + r / 4096) 237) as [E1|E1];
      destruct Hs as [Hs|Hs]; apply N.leb_gt in Hs; cbv iota; name_divs; lia.
Qed.

Lemma runes_ok4 r t : (65536 <= r <= 1114111)%N -> runes (encode_valid r +:+ t) = (r, encode_valid r) :: runes t.
Proof.
  intros [Hlo Hhi]. unfold encode_valid.
  rewrite (proj2 (N.ltb_ge r 128)), (proj2 (N.ltb_ge r 2048)), (proj2 (N.ltb_ge r 65536)) by lia.
  destruct (lead4 r Hhi) as [Ex El]. pose proof (cont_ok (N.shiftr r 12)) as Ey.
  pose proof (cont_ok (N.shiftr r 6)) as Ez. pose proof (cont_ok r) as Ew.
  rewrite shiftr_div6, shiftr_div12 in *.
  assert (H1 : (r = 64 * (r / 64) + r mod 64)%N) by (by apply N.div_mod).
  assert (H2 : (r / 64 = 64 * (r / 4096) + r / 64 mod 64)%N)
    by (change 4096%N with (64 * 64)%N; rewrite <- N.Div0.div_div; by apply N.div_mod).
  assert (H3 : (r / 4096 = 64 * (r / 262144) + r / 4096 mod 64)%N)
    by (change 262144%N with (4096 * 64)%N; rewrite <- N.Div0.div_div; by apply N.div_mod).
  assert (B1 : (r mod 64 < 64)%N) by (by apply N.mod_lt). assert (B2 : (r / 64 mod 64 < 64)%N) by (by apply N.mod_lt).
  assert (B3 : (r / 4096 mod 64 < 64)%N) by (by apply N.mod_lt).
  change (String ?a (String ?b (String ?c (String ?d "")))  +:+ t) with (String a (String b (String c (String d t)))).
  rewrite runes_lead4; rewrite ?Ex, ?Ey, ?Ez, ?Ew.
  - rewrite El, !cont_back, join6.
    rewrite (lor_shift 12); [|change (2 ^ 12)%N with 4096%N; name_divs; lia]. change (2 ^ 12)%N with 4096%N.
    rewrite lor_shift; [f_equal; f_equal; change (2 ^ 18)%N with 262144%N; name_divs; lia|change (2 ^ 18)%N with 262144%N; name_divs; lia].
  - apply N.ltb_ge. name_divs. lia.
  - unfold ok2. by rewrite in_range_false by (name_divs; lia).
  - unfold ok3. by rewrite in_range_false by (name_divs; lia).
  - unfold ok4. rewrite !cont_range, !andb_true_r. apply andb_true_iff. split; apply in_range_spec; [name_divs; lia|].
    destruct (N.eqb_spec (240 + r / 262144) 240) as [E0|E0], (N.eqb_spec (240 + r / 262144) 244) as [E1|E1]; cbv iota; name_divs; lia.
Qed.

Lemma norm_valid r : valid_rune (norm_rune r) = true.
Proof. unfold norm_rune. by destruct (valid_rune r) eqn:E. Qed.

(** What was encoded is decoded, whatever follows. *)
Lemma runes_encode r t : runes (encode_rune r +:+ t) = (norm_rune r, encode_rune r) :: runes t.
Proof.
  unfold encode_rune. pose proof (norm_valid r) as Hv. revert Hv. generalize (norm_rune r). clear r. intros r.
  unfold valid_rune. rewrite andb_true_iff, N.leb_le, negb_true_iff. intros [Hr Hs].
  destruct (N.lt_ge_cases r 128); [by apply runes_ok1|]. destruct (N.lt_ge_cases r 2048); [by apply runes_ok2|].
  destruct (N.lt_ge_cases r 65536); [by apply runes_ok3|by apply runes_ok4].
Qed.

Lemma runes_of_runes rs : runes (of_runes rs) = (fun r => (norm_rune r, encode_rune r)) <$> rs.
Proof. induction rs as [|r rs IH]; [done|]. cbn [of_runes foldr]. rewrite runes_encode. cbn. by rewrite <- IH. Qed.

Lemma of_runes_app a b : of_runes (a ++ b) = of_runes a +:+ of_runes b.
Proof. induction a as [|r a IH]; [done|]. cbn [of_runes foldr app]. unfold of_runes in IH. by rewrite IH, append_assoc. Qed.

Lemma encode_norm r : encode_rune (norm_rune r) = encode_rune r.
Proof. unfold encode_rune. f_equal. unfold norm_rune at 1. by rewrite norm_valid. Qed.

(** Every rune decoded is valid. *)
Lemma runeLen_of_runes rs : runeLen (of_runes rs) = length rs.
Proof. unfold runeLen. by rewrite runes_of_runes, length_fmap. Qed.

Lemma rune_list_of_runes rs : rune_list (of_runes rs) = norm_rune <$> rs.
Proof. unfold rune_list. rewrite runes_of_runes, <- list_fmap_compose. done. Qed.

Example encode_samples :
  of_runes [97; 233; 20013; 128512]%N = "aé中😀" /\ rune_list "aé中😀" = [97; 233; 20013; 128512]%N
  /\ encode_rune 55296 = encode_rune RuneError.
Proof. by vm_compute. Qed.
