(* ===== verification/GoSort.v ===== *)
(** * Go's sort.SliceStable

    Elements are inserted one after the other behind those that are not larger.
    For a [less] that is a strict weak order the result is the only stable
    arrangement, whatever the algorithm of the library. *)

From S2P Require Import Prelude.
#[local] Open Scope list_scope.

Section sort.
Context {A : Type} (less : A -> A -> bool).

Fixpoint insert_stable (x : A) (l : list A) : list A :=
  match l with
  | [] => [x]
  | y :: l' => if less x y then x :: l else y :: insert_stable x l'
  end.

Definition SliceStable (l : list A) : list A := foldl (fun acc x => insert_stable x acc) [] l.

(** Not smaller than. *)
Definition ordered (x y : A) : Prop := less y x = false.

Lemma insert_stable_perm x l : insert_stable x l ≡ₚ x :: l.
Proof. induction l as [|y l IH]; cbn; [done|]. destruct (less x y); [done|]. rewrite IH. apply perm_swap. Qed.

Lemma SliceStable_from acc l : foldl (fun acc x => insert_stable x acc) acc l ≡ₚ acc ++ l.
Proof.
  revert acc. induction l as [|x l IH]; intros acc; cbn; [by rewrite app_nil_r|].
  rewrite IH, insert_stable_perm. apply Permutation_middle.
Qed.

Lemma SliceStable_perm l : SliceStable l ≡ₚ l.
Proof. apply SliceStable_from. Qed.

(** On a domain where [less] is a strict weak order. *)
Context (P : A -> Prop).
Hypothesis less_asym : forall x y, P x -> P y -> less x y = true -> less y x = false.
Hypothesis ordered_trans : forall x y z, P x -> P y -> P z -> ordered x y -> ordered y z -> ordered x z.

Lemma insert_stable_sorted x l : P x -> Forall P l -> StronglySorted ordered l -> StronglySorted ordered (insert_stable x l).
Proof.
  intros Hx. induction l as [|y l IH]; intros Hp Hs; cbn; [by repeat constructor|].
  apply Forall_cons in Hp as [Hy Hp]. inversion Hs as [|? ? Hs' Hf]; subst. destruct (less x y) eqn:E.
  - constructor; [done|]. assert (Hxy : ordered x y) by (by apply less_asym). constructor; [done|].
    rewrite Forall_forall in *. intros z Hz. apply (ordered_trans x y z); auto.
  - constructor; [by apply IH|]. rewrite Forall_forall in *. intros z. rewrite insert_stable_perm.
    intros [->|Hz]%elem_of_cons; [done|by apply Hf].
Qed.

Lemma SliceStable_sorted l : Forall P l -> StronglySorted ordered (SliceStable l).
Proof.
  unfold SliceStable. intros Hp. assert (Ha : Forall P [] /\ StronglySorted ordered []) by (split; constructor).
  revert Ha. generalize (@nil A). induction Hp as [|x l Hx Hp IH]; intros acc [Ha Hs]; cbn; [done|]. apply IH. split.
  - rewrite insert_stable_perm. by constructor.
  - by apply insert_stable_sorted.
Qed.

End sort.
