(* ===== verification/GoLines.v ===== *)
(** * Trimming and splitting texts in lines

    Rune boundaries are stable under cuts, so trimming is idempotent, and the
    lines of a text are those of its runes. *)

From S2P Require Import Prelude GoString GoUtf8 GoPath.
#[local] Open Scope string_scope.
#[local] Open Scope list_scope.

Abbreviation rune_of := (N * string)%type.

(** ** Cuts at rune boundaries *)

Lemma runes_cons_inv s r l : runes s = r :: l -> exists t, s = r.2 +:+ t /\ l = runes t.
Proof.
  destruct s as [|a s1]; [done|]. cbn [runes]. destruct (byte_val a <? 128)%N; [intros [= <- <-]; by exists s1|].
  destruct s1 as [|b s2]; lazy beta match zeta; [intros [= <- <-]; by exists ""|].
  destruct (ok2 (byte_val a) (byte_val b)); [intros [= <- <-]; by exists s2|].
  destruct s2 as [|c s3]; lazy beta match zeta; [intros [= <- <-]; by exists (String b "")|].
  destruct (ok3 (byte_val a) (byte_val b) (byte_val c)); [intros [= <- <-]; by exists s3|].
  destruct s3 as [|d s4]; lazy beta match zeta; [intros [= <- <-]; by exists (String b (String c ""))|].
  destruct (ok4 (byte_val a) (byte_val b) (byte_val c) (byte_val d)); [intros [= <- <-]; by exists s4|].
  intros [= <- <-]. by exists (String b (String c (String d s4))).
Qed.

Lemma runes_suffix s l1 l2 : runes s = l1 ++ l2 -> runes (raw l2) = l2.
Proof.
  revert s. induction l1 as [|r l1 IH]; intros s E; cbn in E.
  - by rewrite <- E, raw_runes.
  - apply runes_cons_inv in E as (t & _ & E). symmetry in E. by eapply IH.
Qed.

(** The first rune of a text is the first of any cut of it that holds it. *)
Lemma runes_cut r t u : runes (r.2 +:+ (t +:+ u)) = r :: runes (t +:+ u) -> runes (r.2 +:+ t) = r :: runes t.
Proof.
  destruct r as [v w]. cbn [snd]. destruct w as [|a w].
  { intros E. apply (f_equal length) in E. change ("" +:+ (t +:+ u)) with (t +:+ u) in E. cbn in E. lia. }
  change (String a w +:+ ?x) with (String a (w +:+ x)).
  cbn [runes]. destruct (byte_val a <? 128)%N.
  { intros [= <- <-]. done. }
  destruct w as [|b w].
  - change ("" +:+ ?x) with x. destruct t as [|b t].
    { change ("" +:+ u) with u. destruct u as [|b u]; lazy beta match zeta; [by intros [= <-]|].
      destruct (ok2 _ _); [discriminate|]. destruct u as [|c u]; lazy beta match zeta; [by intros [= <-]|].
      destruct (ok3 _ _ _); [discriminate|]. destruct u as [|d u]; lazy beta match zeta; [by intros [= <-]|].
      destruct (ok4 _ _ _ _); [discriminate|]. by intros [= <-]. }
    change (String b t +:+ u) with (String b (t +:+ u)). lazy beta match zeta.
    destruct (ok2 (byte_val a) (byte_val b)); [discriminate|].
    destruct t as [|c t].
    { change ("" +:+ u) with u. destruct u as [|c u]; lazy beta match zeta; [by intros [= <-]|].
      destruct (ok3 _ _ _); [discriminate|]. destruct u as [|d u]; lazy beta match zeta; [by intros [= <-]|].
      destruct (ok4 _ _ _ _); [discriminate|]. by intros [= <-]. }
    change (String c t +:+ u) with (String c (t +:+ u)). lazy beta match zeta.
    destruct (ok3 (byte_val a) (byte_val b) (byte_val c)); [discriminate|].
    destruct t as [|d t].
    { change ("" +:+ u) with u. destruct u as [|d u]; lazy beta match zeta; [by intros [= <-]|].
      destruct (ok4 _ _ _ _); [discriminate|]. by intros [= <-]. }
    change (String d t +:+ u) with (String d (t +:+ u)). lazy beta match zeta.
    destruct (ok4 (byte_val a) (byte_val b) (byte_val c) (byte_val d)); [discriminate|]. by intros [= <-].
  - change (String b w +:+ ?x) with (String b (w +:+ x)). lazy beta match zeta.
    destruct (ok2 (byte_val a) (byte_val b)).
    { destruct w; [by intros [= <-]|discriminate]. }
    destruct w as [|c w].
    { change ("" +:+ ?x) with x. intros E. exfalso. destruct (t +:+ u) as [|c x]; lazy beta match zeta in E; [discriminate E|].
      destruct (ok3 _ _ _); [discriminate E|]. destruct x as [|d x]; lazy beta match zeta in E; [discriminate E|].
      destruct (ok4 _ _ _ _); discriminate E. }
    change (String c w +:+ ?x) with (String c (w +:+ x)). lazy beta match zeta.
    destruct (ok3 (byte_val a) (byte_val b) (byte_val c)).
    { destruct w; [by intros [= <-]|discriminate]. }
    destruct w as [|d w].
    { change ("" +:+ ?x) with x. intros E. exfalso. destruct (t +:+ u) as [|d x]; lazy beta match zeta in E; [discriminate E|].
      destruct (ok4 _ _ _ _); discriminate E. }
    change (String d w +:+ ?x) with (String d (w +:+ x)). lazy beta match zeta.
    destruct (ok4 (byte_val a) (byte_val b) (byte_val c) (byte_val d)); [|discriminate].
    destruct w; [by intros [= <-]|discriminate].
Qed.

Lemma runes_prefix s l1 l2 : runes s = l1 ++ l2 -> runes (raw l1) = l1.
Proof.
  revert s. induction l1 as [|r l1 IH]; intros s E; [done|]. cbn [app] in E.
  pose proof (runes_cons_inv _ _ _ E) as (t & -> & Et). symmetry in Et.
  rewrite raw_cons. specialize (IH _ Et). rewrite <- IH at 2. apply (runes_cut r (raw l1) (raw l2)).
  rewrite <- raw_app, <- Et, raw_runes, Et. by rewrite E, <- Et.
Qed.

Lemma runes_infix s l1 l2 l3 : runes s = l1 ++ l2 ++ l3 -> runes (raw l2) = l2.
Proof. intros E. pose proof (runes_suffix _ _ _ E) as E2. by eapply runes_prefix. Qed.

(** ** Trimming *)

Lemma drop_while_split {A} (p : A -> bool) l : exists a, l = a ++ drop_while p l /\ Forall (fun x => p x = true) a
  /\ match drop_while p l with [] => True | x :: _ => p x = false end.
Proof.
  induction l as [|x l IH]; cbn; [by exists []|]. destruct (p x) eqn:E; [|exists []; cbn; by rewrite E].
  destruct IH as (a & Ea & Ha & Hh). exists (x :: a). cbn. rewrite <- Ea. split_and!; [done|by constructor|done].
Qed.

Lemma drop_while_id {A} (p : A -> bool) l : match l with [] => True | x :: _ => p x = false end -> drop_while p l = l.
Proof. destruct l as [|x l]; cbn; [done|]. by intros ->. Qed.

(** No blank at either end. *)
Definition tight (rs : list rune_of) : Prop :=
  match rs with [] => True | x :: _ => is_space x = false end /\ match rev rs with [] => True | x :: _ => is_space x = false end.

Lemma trim_runes_split rs : exists a b, rs = a ++ trim_runes rs ++ b
  /\ Forall (fun x => is_space x = true) a /\ Forall (fun x => is_space x = true) b /\ tight (trim_runes rs).
Proof.
  unfold trim_runes. destruct (drop_while_split is_space rs) as (a & Ea & Ha & Hh). set (m := drop_while is_space rs) in *.
  destruct (drop_while_split is_space (rev m)) as (b & Eb & Hb & Hr). set (n := drop_while is_space (rev m)) in *.
  exists a, (rev b). assert (Em : m = rev n ++ rev b) by (rewrite <- rev_app_distr, <- Eb; by rewrite rev_involutive).
  split_and!; [by rewrite <- Em|done|by apply Forall_rev|]. split.
  - destruct (rev n) as [|x l] eqn:En; [done|]. rewrite Em in Hh. done.
  - by rewrite rev_involutive.
Qed.

Lemma trim_runes_tight rs : tight rs -> trim_runes rs = rs.
Proof. intros [H1 H2]. unfold trim_runes. rewrite (drop_while_id _ _ H1), (drop_while_id _ _ H2). apply rev_involutive. Qed.

Lemma trim_runes_blank a rs b :
  Forall (fun x => is_space x = true) a -> Forall (fun x => is_space x = true) b -> trim_runes (a ++ rs ++ b) = trim_runes rs.
Proof.
  intros Ha Hb. assert (Hd : forall (l m : list rune_of), Forall (fun x => is_space x = true) l -> drop_while is_space (l ++ m) = drop_while is_space m).
  { intros l m Hl. induction Hl as [|x l Hx Hl IH]; cbn; [done|]. by rewrite Hx. }
  unfold trim_runes. rewrite Hd by done.
  destruct (drop_while_split is_space rs) as (c & Ec & Hc & Hh). set (m := drop_while is_space rs) in *.
  clearbody m. destruct m as [|x m'].
  - rewrite Ec, app_nil_r. assert (E : drop_while is_space (c ++ b) = []).
    { rewrite Hd by done. rewrite <- (app_nil_r b). by rewrite Hd. }
    by rewrite E.
  - assert (E : drop_while is_space (rs ++ b) = (x :: m') ++ b) by (rewrite Ec, <- app_assoc, Hd by done; cbn; by rewrite Hh).
    rewrite E, rev_app_distr, Hd by (by apply Forall_rev). done.
Qed.

Lemma runes_TrimSpace s : runes (TrimSpace s) = trim_runes (runes s).
Proof. unfold TrimSpace. destruct (trim_runes_split (runes s)) as (a & b & E & _). by eapply runes_infix. Qed.

Lemma TrimSpace_idemp s : TrimSpace (TrimSpace s) = TrimSpace s.
Proof.
  unfold TrimSpace at 1. rewrite runes_TrimSpace, trim_runes_tight; [done|]. by destruct (trim_runes_split (runes s)) as (a & b & _ & _ & _ & ?).
Qed.

(** ** Lines *)

Definition nl : ascii := "010"%char.
Definition newline : string := String nl "".
Definition is_nl (r : rune_of) : bool := String.eqb r.2 newline.

Fixpoint split_runes (rs : list rune_of) : list (list rune_of) :=
  match rs with
  | [] => [[]]
  | r :: rs' =>
      if is_nl r then [] :: split_runes rs'
      else match split_runes rs' with
      | w :: ws => (r :: w) :: ws
      | [] => [[r]]
      end
  end.

Lemma split_runes_nonempty rs : split_runes rs <> [].
Proof. destruct rs as [|r rs]; cbn; [done|]. destruct (is_nl r); [done|]. by destruct (split_runes rs). Qed.

Lemma split_runes_nl a r b : is_nl r = true -> Forall (fun x => is_nl x = false) a -> split_runes (a ++ r :: b) = a :: split_runes b.
Proof. intros Hr. induction 1 as [|x a Hx Ha IH]; cbn; [by rewrite Hr|]. by rewrite Hx, IH. Qed.

Lemma split_runes_none a : Forall (fun x => is_nl x = false) a -> split_runes a = [a].
Proof. induction 1 as [|x a Hx Ha IH]; cbn; [done|]. by rewrite Hx, IH. Qed.

Lemma has_char_app c a b : has_char c (a +:+ b) = has_char c a || has_char c b.
Proof.
  induction a as [|x a IH]; [done|]. change (String x a +:+ b) with (String x (a +:+ b)). cbn [has_char]. by rewrite IH, orb_assoc.
Qed.

Lemma no_nl_runes s : has_char nl s = false -> Forall (fun x => is_nl x = false) (runes s).
Proof.
  intros Hs. rewrite <- (raw_runes s) in Hs. revert Hs. induction (runes s) as [|r rs IH]; [constructor|].
  rewrite raw_cons, has_char_app. intros [H1 H2]%orb_false_iff. constructor; [|by apply IH].
  unfold is_nl. apply String.eqb_neq. intros E. by rewrite E in H1.
Qed.

Lemma Split_first s : has_char nl s = false /\ Split nl s = [s]
  \/ exists a b, s = a +:+ String nl b /\ has_char nl a = false /\ Split nl s = a :: Split nl b.
Proof.
  induction s as [|c s IH]; [by left|]. cbn [has_char Split]. destruct (Ascii.eqb_spec c nl) as [->|Hne].
  - right. by exists "", s.
  - destruct IH as [[Hs Es]|(a & b & -> & Ha & Es)]; rewrite Es; [by left|]. right. exists (String c a), b. split_and!; [done| |done].
    cbn. by rewrite (proj2 (Ascii.eqb_neq c nl) Hne).
Qed.

(** The lines of a text, as runes. *)
Lemma runes_Split s : runes <$> Split nl s = split_runes (runes s).
Proof.
  remember (String.length s) as n eqn:En. assert (Hle : String.length s <= n) by lia. clear En. revert s Hle.
  induction n as [|n IH]; intros s Hle.
  { destruct s; [done|cbn in Hle; lia]. }
  destruct (Split_first s) as [[Hs ->]|(a & b & -> & Ha & ->)].
  - cbn. by rewrite split_runes_none by (by apply no_nl_runes).
  - rewrite runes_app_ascii by done. rewrite runes_ascii by done. rewrite split_runes_nl; [|done|by apply no_nl_runes].
    cbn [fmap list_fmap]. f_equal. apply IH. assert (Hl : String.length (a +:+ String nl b) = String.length a + S (String.length b)).
    { clear. induction a as [|x a IHa]; [done|]. change (String x a +:+ String nl b) with (String x (a +:+ String nl b)). cbn [String.length]. by rewrite IHa. }
    lia.
Qed.

(** The lines that hold something, trimmed. *)
Definition full_lines (rs : list rune_of) : list (list rune_of) :=
  List.filter (fun l => negb (length l =? 0)%nat) (trim_runes <$> split_runes rs).

Lemma split_runes_app a r b : is_nl r = true -> split_runes (a ++ r :: b) = split_runes a ++ split_runes b.
Proof.
  intros Hr. induction a as [|x a IH]; cbn; [by rewrite Hr|]. destruct (is_nl x); [by rewrite IH|]. rewrite IH.
  destruct (split_runes a) as [|w ws] eqn:E; [by destruct (split_runes_nonempty a)|]. done.
Qed.

Lemma full_lines_app a r b : is_nl r = true -> full_lines (a ++ r :: b) = full_lines a ++ full_lines b.
Proof. intros Hr. unfold full_lines. by rewrite split_runes_app, fmap_app, List.filter_app. Qed.

Lemma full_lines_front r rs : is_space r = true -> full_lines (r :: rs) = full_lines rs.
Proof.
  intros Hr. unfold full_lines. cbn [split_runes]. destruct (is_nl r); [done|].
  destruct (split_runes rs) as [|w ws] eqn:E; [by destruct (split_runes_nonempty rs)|]. cbn [fmap list_fmap].
  assert (E1 : trim_runes (r :: w) = trim_runes w).
  { pose proof (trim_runes_blank [r] w [] ltac:(by repeat constructor) ltac:(constructor)) as E1. by rewrite app_nil_r in E1. }
  by rewrite E1.
Qed.

Lemma split_runes_snoc a r : is_nl r = false ->
  exists ini last, split_runes a = ini ++ [last] /\ split_runes (a ++ [r]) = ini ++ [last ++ [r]].
Proof.
  intros Hr. induction a as [|x a IH]; cbn.
  - rewrite Hr. by exists [], [].
  - destruct IH as (ini & last & E1 & E2). rewrite E1, E2. destruct (is_nl x); [by exists ([] :: ini), last|].
    destruct ini as [|w ini]; cbn; [by exists [], (x :: last)|by exists ((x :: w) :: ini), last].
Qed.

Lemma full_lines_back r rs : is_space r = true -> full_lines (rs ++ [r]) = full_lines rs.
Proof.
  intros Hr. destruct (is_nl r) eqn:En; [rewrite full_lines_app by done; apply app_nil_r|].
  destruct (split_runes_snoc rs r En) as (ini & last & E1 & E2). unfold full_lines. rewrite E1, E2, !fmap_app. cbn [fmap list_fmap].
  pose proof (trim_runes_blank [] last [r] ltac:(constructor) ltac:(by repeat constructor)) as E. cbn [app] in E. by rewrite E.
Qed.

Lemma full_lines_blank a rs b :
  Forall (fun x => is_space x = true) a -> Forall (fun x => is_space x = true) b -> full_lines (a ++ rs ++ b) = full_lines rs.
Proof.
  intros Ha Hb. assert (Hback : forall l, full_lines (l ++ b) = full_lines l).
  { clear Ha. induction b as [|x b IH] using rev_ind; intros l; [by rewrite app_nil_r|]. apply Forall_app in Hb as [Hb Hx].
    apply Forall_cons in Hx as [Hx _]. rewrite app_assoc, full_lines_back by done. by apply IH. }
  induction Ha as [|x a Hx Ha IH]; [apply Hback|]. change ((x :: a) ++ rs ++ b) with (x :: (a ++ rs ++ b)). rewrite full_lines_front by done. exact IH.
Qed.

Lemma full_lines_trim rs : full_lines (trim_runes rs) = full_lines rs.
Proof. destruct (trim_runes_split rs) as (a & b & E & Ha & Hb & _). rewrite E at 2. by rewrite full_lines_blank. Qed.

Lemma full_lines_one rs : Forall (fun x => is_nl x = false) rs -> tight rs -> rs <> [] -> full_lines rs = [rs].
Proof. intros Hn Ht Hne. unfold full_lines. rewrite split_runes_none by done. cbn [fmap list_fmap]. rewrite trim_runes_tight by done. by destruct rs. Qed.

(** Joining with line feeds. *)
Lemma Join_cons sep w ws : Join sep (w :: ws) = w +:+ foldr (fun x acc => sep +:+ x +:+ acc) "" ws.
Proof.
  cbn [Join]. revert w. induction ws as [|x ws IH]; intros w; cbn; [by rewrite append_nil_r|]. rewrite IH. by rewrite !append_assoc.
Qed.

Lemma full_lines_Join ws :
  Forall (fun w => has_char nl w = false /\ tight (runes w) /\ w <> "") ws ->
  full_lines (runes (Join newline ws)) = runes <$> ws.
Proof.
  destruct ws as [|w ws]; [done|]. rewrite Join_cons. intros Hf. revert w Hf.
  induction ws as [|x ws IH]; intros w Hf; apply Forall_cons in Hf as [(Hn & Ht & Hne) Hf]; cbn [foldr fmap list_fmap].
  - rewrite append_nil_r. apply full_lines_one; [by apply no_nl_runes|done|]. intros E. apply Hne. by rewrite <- (raw_runes w), E.
  - change (newline +:+ x +:+ ?s) with (String nl (x +:+ s)). rewrite runes_app_ascii, runes_ascii by done. rewrite full_lines_app by done.
    rewrite full_lines_one; [|by apply no_nl_runes|done|intros E; apply Hne; by rewrite <- (raw_runes w), E].
    cbn [app]. f_equal. by apply IH.
Qed.

(** ** [strings.Fields] *)

Lemma piece_nl s : Forall (fun r => has_char nl r.2 = true -> r = (10%N, newline)) (runes s).
Proof.
  remember (String.length s) as n eqn:En. assert (Hle : String.length s <= n) by lia. clear En. revert s Hle.
  induction n as [|n IH]; intros s Hle; [destruct s; [constructor|cbn in Hle; lia]|].
  destruct s as [|a s1]; [constructor|]. cbn [String.length] in Hle. cbn [runes].
  destruct (byte_val a <? 128)%N eqn:Ea.
  { constructor; [|apply IH; lia]. cbn. destruct (Ascii.eqb_spec a nl) as [->|]; done. }
  assert (Hna : Ascii.eqb a nl = false) by (apply Ascii.eqb_neq; by intros ->).
  assert (Herr : forall t, Forall (fun r => has_char nl r.2 = true -> r = (10%N, newline)) (runes t) ->
    Forall (fun r => has_char nl r.2 = true -> r = (10%N, newline)) ((RuneError, String a "") :: runes t))
    by (intros t Ht; constructor; [cbn; by rewrite Hna|done]).
  destruct s1 as [|b s2]; lazy beta match zeta; [apply (Herr ""); constructor|].
  destruct (ok2 (byte_val a) (byte_val b)) eqn:E2.
  { constructor; [|apply IH; cbn in Hle; lia]. cbn. rewrite Hna. destruct (Ascii.eqb_spec b nl) as [->|]; [|done].
    unfold ok2 in E2. by rewrite andb_false_r in E2. }
  destruct s2 as [|c s3]; lazy beta match zeta; [apply Herr, IH; cbn in *; lia|].
  destruct (ok3 (byte_val a) (byte_val b) (byte_val c)) eqn:E3.
  { constructor; [|apply IH; cbn in Hle; lia]. cbn. rewrite Hna. unfold ok3 in E3. apply andb_true_iff in E3 as [[_ Ec]%andb_true_iff Eb].
    destruct (Ascii.eqb_spec b nl) as [->|]; [exfalso; revert Eb; by repeat case_match|].
    by destruct (Ascii.eqb_spec c nl) as [->|]. }
  destruct s3 as [|d s4]; lazy beta match zeta; [apply Herr, IH; cbn in *; lia|].
  destruct (ok4 (byte_val a) (byte_val b) (byte_val c) (byte_val d)) eqn:E4; [|apply Herr, IH; cbn in *; lia].
  constructor; [|apply IH; cbn in Hle; lia]. cbn. rewrite Hna. unfold ok4 in E4. apply andb_true_iff in E4 as [[[_ Ec]%andb_true_iff Ed]%andb_true_iff Eb].
  destruct (Ascii.eqb_spec b nl) as [->|]; [exfalso; revert Eb; by repeat case_match|].
  destruct (Ascii.eqb_spec c nl) as [->|]; [done|]. by destruct (Ascii.eqb_spec d nl) as [->|].
Qed.

Lemma raw_no_nl rs : Forall (fun r => has_char nl r.2 = true -> r = (10%N, newline)) rs ->
  Forall (fun r => is_space r = false) rs -> has_char nl (raw rs) = false.
Proof.
  induction rs as [|r rs IH]; [done|]. rewrite !Forall_cons. intros [Hr Hrs] [Hs Hss]. rewrite raw_cons, has_char_app.
  apply orb_false_iff. split; [|by apply IH]. destruct (has_char nl r.2); [|done]. by rewrite Hr in Hs.
Qed.

Lemma fields_go_lines cur rs :
  Forall (fun r => has_char nl r.2 = true -> r = (10%N, newline)) cur -> Forall (fun r => is_space r = false) cur ->
  Forall (fun r => has_char nl r.2 = true -> r = (10%N, newline)) rs ->
  Forall (fun w => has_char nl w = false) (fields_go cur rs).
Proof.
  revert cur. induction rs as [|r rs IH]; intros cur Hc Hs Hr; cbn [fields_go].
  - destruct cur; [constructor|]. constructor; [|constructor]. apply raw_no_nl; by apply Forall_rev.
  - apply Forall_cons in Hr as [Hr Hrs]. destruct (is_space r) eqn:E.
    + apply Forall_app. split; [|apply IH; [constructor|constructor|done]]. destruct cur; [constructor|]. constructor; [|constructor].
      apply raw_no_nl; by apply Forall_rev.
    + apply IH; [by constructor|by constructor|done].
Qed.

Lemma Fields_lines s : Forall (fun w => has_char nl w = false) (Fields s).
Proof. apply fields_go_lines; [constructor|constructor|apply piece_nl]. Qed.

Lemma has_char_trim c s : has_char c s = false -> has_char c (TrimSpace s) = false.
Proof.
  intros Hs. destruct (trim_runes_split (runes s)) as (a & b & E & _). rewrite <- (raw_runes s), E, !raw_app, !has_char_app in Hs.
  apply orb_false_iff in Hs as [_ Hs]. by apply orb_false_iff in Hs as [Hs _].
Qed.

Lemma has_char_Join c sep ws : has_char c sep = false -> Forall (fun w => has_char c w = false) ws -> has_char c (Join sep ws) = false.
Proof.
  intros Hs Hw. destruct Hw as [|w ws Hw Hws]; [done|]. rewrite Join_cons, has_char_app, Hw. cbn [orb].
  induction Hws as [|x ws Hx Hws IH]; cbn [foldr]; [done|]. by rewrite !has_char_app, Hs, Hx.
Qed.
