(* ===== verification/MemorySearch.v ===== *)
(** * ai-memory: the data, and the search by keywords

    store.go (the entries), search.go and retriever.go, and the merged search of
    memory.go. The Unicode tables of the standard library are an interface; the
    scores are float64. *)

From S2P Require Import Prelude GoString GoUtf8 GoPath GoSort GoFloat.
#[local] Open Scope string_scope.
#[local] Open Scope list_scope.

(** ** The entries *)

Record Fact := mkFact {
  f_ID : string;
  f_Content : string;
  f_Topic : string;
  f_Source : string;
  f_CreatedAt : Time;
  f_UpdatedAt : Time;
}.

Record Task := mkTask {
  t_ID : string;
  t_Title : string;
  t_Status : string;
  t_Cwd : string;
  t_CreatedAt : Time;
  t_UpdatedAt : Time;
  t_Runs : list string;
  t_Summary : string;
  t_KeyFiles : list string;
  t_Commands : list string;
  t_NextSteps : list string;
  t_TokenUsage : Z;
}.

(** The tables of package unicode: [ToLower], [In(r, Han)], [IsLetter || IsNumber]. *)
Class Unicode := {
  uni_lower : N -> N;
  uni_han : N -> bool;
  uni_word : N -> bool;
}.

Section search.
Context `{Unicode}.

(** [strings.ToLower]: an invalid byte becomes [RuneError]. *)
Definition ToLower (s : string) : string := of_runes (uni_lower <$> rune_list s).

(** ** Tokens *)

Definition flushLatin (latin : string) : list string := if String.eqb latin "" then [] else [latin].

Fixpoint bigrams (cjk : list N) : list string :=
  match cjk with
  | a :: (b :: _) as tl => of_runes [a; b] :: bigrams tl
  | _ => []
  end.

Definition flushCJK (cjk : list N) : list string :=
  match cjk with
  | [r] => [of_runes [r]]
  | _ => bigrams cjk
  end.

Fixpoint tokens_from (latin : string) (cjk : list N) (rs : list N) : list string :=
  match rs with
  | [] => flushLatin latin ++ flushCJK cjk
  | r :: rs' =>
      if uni_han r then flushLatin latin ++ tokens_from "" (cjk ++ [r]) rs'
      else if uni_word r then flushCJK cjk ++ tokens_from (latin +:+ encode_rune r) [] rs'
      else flushLatin latin ++ flushCJK cjk ++ tokens_from "" [] rs'
  end.

Definition tokenize (s : string) : list string := tokens_from "" [] (rune_list (ToLower s)).

(** ** Scores *)

Definition Hour : Z := 3600 * Second.

(** [Time.Sub], which saturates. *)
Definition Sub (a b : Time) : Z := Z.max (- 2 ^ 63) (Z.min (2 ^ 63 - 1) (a - b)).

(** [Duration.Hours]. *)
Definition Hours (d : Z) : float64 :=
  fadd (f64_of_Z (Z.quot d Hour)) (fdiv (f64_of_Z (Z.rem d Hour)) (f64_of_Z Hour)).

Definition matches (haystack : string) (tokens : list string) : list string := List.filter (Contains haystack) tokens.

(** The body shared by [scoreFact] and [scoreTask]. *)
Definition score (haystack : string) (updatedAt : Time) (tokens : list string) (now : Time) : float64 :=
  let matched := length (matches haystack tokens) in
  if (matched =? 0)%nat then fzero
  else
    let hours := Hours (Sub now updatedAt) in
    let hours := if fltb hours fzero then fzero else hours in
    fdiv (f64_of_Z (Z.of_nat matched)) (fadd (f64_of_Z 1) (fdiv hours (f64_of_Z 24))).

Definition fact_text (f : Fact) : string := ToLower (f_Content f +:+ " " +:+ f_Topic f).
Definition task_text (t : Task) : string := ToLower (t_Title t +:+ " " +:+ t_Summary t +:+ " " +:+ Join " " (t_NextSteps t)).

Definition scoreFact (f : Fact) (tokens : list string) (now : Time) : float64 := score (fact_text f) (f_UpdatedAt f) tokens now.
Definition scoreTask (t : Task) (tokens : list string) (now : Time) : float64 := score (task_text t) (t_UpdatedAt t) tokens now.

(** ** The best of them *)

(** A score and a time of update: what comes first. *)
Definition ranks_before (a b : float64 * Time) : bool :=
  if negb (feqb a.1 b.1) then fltb b.1 a.1 else After a.2 b.2.

Section entries.
Context {E : Type} (scoreE : E -> list string -> Time -> float64) (updated : E -> Time).

Definition before (a b : E * float64) : bool := ranks_before (a.2, updated a.1) (b.2, updated b.1).

Definition scored (tokens : list string) (now : Time) (es : list E) : list (E * float64) :=
  List.filter (fun p => fltb fzero p.2) ((fun e => (e, scoreE e tokens now)) <$> es).

Definition search_scored (now : Time) (query : string) (es : list E) (topK : Z) : list E :=
  let tokens := tokenize query in
  match tokens with
  | [] => []
  | _ => if (topK <=? 0)%Z then [] else fst <$> take (Z.to_nat topK) (SliceStable before (scored tokens now es))
  end.
End entries.

Definition SearchScored : Time -> string -> list Fact -> Z -> list Fact := search_scored scoreFact f_UpdatedAt.
Definition SearchTasksScored : Time -> string -> list Task -> Z -> list Task := search_scored scoreTask t_UpdatedAt.

(** ** [Client.Search] over the keyword retriever *)

Inductive entry : Type :=
  | ETask (t : Task)
  | EFact (f : Fact).

Record Result := mkResult {
  r_entry : entry;
  r_Score : float64;
}.

Definition updatedAt (r : Result) : Time :=
  match r_entry r with ETask t => t_UpdatedAt t | EFact f => f_UpdatedAt f end.

(** The retriever reads the clock again for the scores it returns. *)
Definition retrieve_facts (now now' : Time) (query : string) (topK : Z) (facts : list Fact) : list Result :=
  (fun f => mkResult (EFact f) (scoreFact f (tokenize query) now')) <$> SearchScored now query facts topK.

Definition open_tasks (tasks : list Task) : list Task := List.filter (fun t => String.eqb (t_Status t) "open") tasks.

Definition SearchTasks (now : Time) (query : string) (topK : Z) (includeClosed : bool) (tasks : list Task) : list Task :=
  if includeClosed then SearchTasksScored now query tasks topK else SearchTasksScored now query (open_tasks tasks) topK.

Definition retrieve_tasks (now now' : Time) (query : string) (topK : Z) (includeClosed : bool) (tasks : list Task) : list Result :=
  (fun t => mkResult (ETask t) (scoreTask t (tokenize query) now')) <$> SearchTasks now query topK includeClosed tasks.

Definition result_before (a b : Result) : bool := ranks_before (r_Score a, updatedAt a) (r_Score b, updatedAt b).

(** The four readings of the clock, and the stores as each retrieval found them. *)
Definition Search (n1 n2 n3 n4 : Time) (query : string) (taskTopK factTopK : Z) (includeClosed : bool)
    (tasks : list Task) (facts : list Fact) : list Result :=
  SliceStable result_before
    (retrieve_tasks n1 n2 query taskTopK includeClosed tasks ++ retrieve_facts n3 n4 query factTopK facts).

(** ** Theorems: the tokens *)

Lemma prefix_app p s : String.prefix p (p +:+ s) = true.
Proof. induction p as [|a p IH]; [by destruct s|]. change (String a p +:+ s) with (String a (p +:+ s)). cbn [String.prefix]. destruct (ascii_dec a a); [exact IH|congruence]. Qed.

Lemma Contains_prefix s p : String.prefix p s = true -> Contains s p = true.
Proof. intros E. destruct s; cbn [Contains]; by rewrite E. Qed.

Lemma Contains_app a t b : Contains (a +:+ t +:+ b) t = true.
Proof.
  induction a as [|x a IH]; [change ("" +:+ t +:+ b) with (t +:+ b); apply Contains_prefix, prefix_app|].
  change (String x a +:+ t +:+ b) with (String x (a +:+ t +:+ b)). cbn [Contains]. rewrite IH. by rewrite orb_true_r.
Qed.

Lemma prefix_split p s : String.prefix p s = true -> exists t, s = p +:+ t.
Proof.
  revert s. induction p as [|x p IH]; intros s; [by exists s|]. destruct s as [|y s]; [done|]. cbn [String.prefix].
  destruct (ascii_dec x y) as [->|]; [|done]. intros [t ->]%IH. by exists t.
Qed.

Lemma Contains_split s t : Contains s t = true -> exists a b, s = a +:+ t +:+ b.
Proof.
  induction s as [|x s IH]; cbn [Contains].
  - rewrite orb_false_r. intros [b Hb]%prefix_split. exists "", b. exact Hb.
  - rewrite orb_true_iff. intros [[b Hb]%prefix_split|(a & b & ->)%IH]; [by exists "", b|]. by exists (String x a), b.
Qed.

Lemma of_runes_nil_r : of_runes [] = "".
Proof. done. Qed.

(** Every token is a piece of the runes it was read from. *)
Lemma bigrams_in t cjk : t ∈ bigrams cjk -> exists a b, of_runes cjk = a +:+ t +:+ b.
Proof.
  induction cjk as [|x cjk IH]; [by intros ?%elem_of_nil|]. destruct cjk as [|y cjk]; [by intros ?%elem_of_nil|].
  change (bigrams (x :: y :: cjk)) with (of_runes [x; y] :: bigrams (y :: cjk)).
  intros [->|(a & b & E)%IH]%elem_of_cons.
  - exists "", (of_runes cjk). change (x :: y :: cjk) with ([x; y] ++ cjk). by rewrite of_runes_app.
  - exists (of_runes [x] +:+ a), b. change (x :: y :: cjk) with ([x] ++ y :: cjk). by rewrite of_runes_app, E, append_assoc.
Qed.

Lemma flushCJK_in t cjk : t ∈ flushCJK cjk -> exists a b, of_runes cjk = a +:+ t +:+ b.
Proof.
  destruct cjk as [|x [|y cjk]]; [by intros ?%elem_of_nil| |apply bigrams_in].
  intros ->%list_elem_of_singleton. exists "", "". by rewrite append_nil_r.
Qed.

Lemma flushLatin_in t latin : t ∈ flushLatin latin -> latin = t.
Proof. unfold flushLatin. destruct (String.eqb latin ""); [by intros ?%elem_of_nil|]. by intros ->%list_elem_of_singleton. Qed.

Lemma tokens_from_in t latin cjk rs :
  t ∈ tokens_from latin cjk rs ->
  (exists a b, latin +:+ of_runes rs = a +:+ t +:+ b) \/ (exists a b, of_runes (cjk ++ rs) = a +:+ t +:+ b).
Proof.
  revert latin cjk. induction rs as [|r rs IH]; intros latin cjk; cbn [tokens_from].
  - rewrite elem_of_app, app_nil_r. intros [->%flushLatin_in|?%flushCJK_in]; [left; exists "", ""; done|by right].
  - assert (Hl : t ∈ flushLatin latin -> exists a b, latin +:+ of_runes (r :: rs) = a +:+ t +:+ b)
      by (intros ->%flushLatin_in; by exists "", (of_runes (r :: rs))).
    assert (Hc : t ∈ flushCJK cjk -> exists a b, of_runes (cjk ++ r :: rs) = a +:+ t +:+ b).
    { intros (a & b & E)%flushCJK_in. exists a, (b +:+ of_runes (r :: rs)). by rewrite of_runes_app, E, !append_assoc. }
    assert (Hr : forall a b, of_runes rs = a +:+ t +:+ b -> exists a b, latin +:+ of_runes (r :: rs) = a +:+ t +:+ b).
    { intros a b E. exists (latin +:+ encode_rune r +:+ a), b. cbn [of_runes foldr]. unfold of_runes in E.
      by rewrite E, <- !append_assoc. }
    destruct (uni_han r); [|destruct (uni_word r)]; rewrite ?elem_of_app.
    + intros [?|[(a & b & E)|E]%IH]; [by left; apply Hl|by left; eapply Hr|]. right. by rewrite <- app_assoc in E.
    + intros [?|[(a & b & E)|(a & b & E)]%IH]; [by right; apply Hc| |by left; eapply Hr].
      left. exists a, b. cbn [of_runes foldr]. by rewrite append_assoc.
    + intros [?|[?|[(a & b & E)|(a & b & E)]%IH]]; [by left; apply Hl|by right; apply Hc|..]; left; by eapply Hr.
Qed.

Lemma of_runes_rune_list_lower s : of_runes (rune_list (ToLower s)) = ToLower s.
Proof.
  unfold ToLower. rewrite rune_list_of_runes. generalize (uni_lower <$> rune_list s). intros rs.
  induction rs as [|r rs IH]; [done|]. cbn [fmap list_fmap of_runes foldr]. rewrite encode_norm. unfold of_runes in IH. by rewrite IH.
Qed.

(** A token of a text is a piece of its lower-case form. *)
Lemma tokenize_in t s : t ∈ tokenize s -> Contains (ToLower s) t = true.
Proof.
  intros [(a & b & E)|(a & b & E)]%tokens_from_in; cbn [app] in E; rewrite of_runes_rune_list_lower in E; [change ("" +:+ ToLower s) with (ToLower s) in E|];
    rewrite E; apply Contains_app.
Qed.

Lemma ToLower_app_ascii a c b :
  (byte_val c <? 128)%N = true -> ToLower (a +:+ String c b) = ToLower a +:+ ToLower (String c b).
Proof. intros Hc. unfold ToLower, rune_list. by rewrite runes_app_ascii, fmap_app, fmap_app, of_runes_app. Qed.

Lemma Contains_app_l a b t : Contains a t = true -> Contains (a +:+ b) t = true.
Proof. intros (x & y & ->)%Contains_split. rewrite <- !append_assoc. apply Contains_app. Qed.

Lemma fact_text_contains t f : t ∈ tokenize (f_Content f) -> Contains (fact_text f) t = true.
Proof.
  intros Ht. unfold fact_text. change (" " +:+ f_Topic f) with (String " " (f_Topic f)).
  rewrite ToLower_app_ascii by done. by apply Contains_app_l, tokenize_in.
Qed.

(** ** Theorems: the scores *)

#[local] Open Scope Z_scope.

Lemma Hours_sized s d : 0 < d <= 2 ^ 63 -> sized s (-70) 70 (Hours (cond_Zopp s d)).
Proof.
  intros Hd. unfold Hours.
  assert (Hpos : 0 < Hour <= 2 ^ 63) by (by vm_compute). pose proof (f64_of_Z_sized false Hour Hpos) as Hh. cbn [cond_Zopp] in Hh.
  assert (Eq : Z.quot (cond_Zopp s d) Hour = cond_Zopp s (d / Hour)).
  { rewrite <- Z.quot_div_nonneg by lia. destruct s; [|done]. by apply Z.quot_opp_l. }
  assert (Er : Z.rem (cond_Zopp s d) Hour = cond_Zopp s (d mod Hour)).
  { rewrite <- Z.rem_mod_nonneg by lia. destruct s; [|done]. by apply Z.rem_opp_l. }
  rewrite Eq, Er. pose proof (Z.div_mod d Hour ltac:(lia)) as Hdm. pose proof (Z.mod_pos_bound d Hour ltac:(lia)) as Hm.
  assert (Hq : 0 <= d / Hour) by (apply Z.div_pos; lia).
  assert (Hq2 : d / Hour <= 2 ^ 63) by (transitivity d; [apply Z.div_le_upper_bound; nia|lia]).
  assert (Hf : 0 < d mod Hour -> sized s (-70) 67 (fdiv (f64_of_Z (cond_Zopp s (d mod Hour))) (f64_of_Z Hour))).
  { intros Hr. assert (Hb : 0 < d mod Hour <= 2 ^ 63) by lia. pose proof (fdiv_sized s _ _ _ _ _ _ (f64_of_Z_sized s _ Hb) Hh) as Hv.
    eapply sized_weaken; [apply Hv|..]; lia. }
  destruct (Z.eq_dec (d mod Hour) 0) as [Er0|Er0].
  - rewrite Er0. assert (Hz : fdiv (f64_of_Z (cond_Zopp s 0)) (f64_of_Z Hour) = fzero) by (destruct s; by vm_compute). rewrite Hz.
    assert (Hb : 0 < d / Hour <= 2 ^ 63) by nia. pose proof (f64_of_Z_sized s _ Hb) as Hv. rewrite (fadd_zero_r _ _ _ _ Hv).
    eapply sized_weaken; [exact Hv|lia|lia].
  - assert (Hs := Hf ltac:(lia)). destruct (Z.eq_dec (d / Hour) 0) as [Eq0|Eq0].
    + rewrite Eq0. assert (Hz : f64_of_Z (cond_Zopp s 0) = fzero) by (by destruct s). rewrite Hz, (fadd_zero_l _ _ _ _ Hs).
      eapply sized_weaken; [exact Hs|lia|lia].
    + assert (Hb : 0 < d / Hour <= 2 ^ 63) by lia. pose proof (fadd_sized s _ _ _ _ _ _ (f64_of_Z_sized s _ Hb) Hs) as Hv.
      eapply sized_weaken; [apply Hv; lia|lia|lia].
Qed.

Lemma Sub_range a b : - 2 ^ 63 <= Sub a b <= 2 ^ 63 - 1.
Proof. unfold Sub. lia. Qed.

(** The hours since the update, with those of a future update set to zero. *)
Lemma age_cases d : - 2 ^ 63 <= d <= 2 ^ 63 ->
  let h := if fltb (Hours d) fzero then fzero else Hours d in h = fzero \/ sized false (-70) 70 h.
Proof.
  intros Hd. cbv zeta. destruct (Z.lt_trichotomy d 0) as [Hn|[->|Hp]].
  - pose proof (Hours_sized true (- d) ltac:(lia)) as Hs. cbn [cond_Zopp] in Hs. rewrite Z.opp_involutive in Hs.
    rewrite (sized_neg _ _ _ Hs). by left.
  - left. by vm_compute.
  - pose proof (Hours_sized false d ltac:(lia)) as Hs. cbn [cond_Zopp] in Hs. rewrite (sized_not_neg _ _ _ Hs). by right.
Qed.

Lemma score_pos haystack u tokens now :
  (0 < length (matches haystack tokens))%nat -> Z.of_nat (length tokens) < 2 ^ 63 ->
  fltb fzero (score haystack u tokens now) = true.
Proof.
  intros Hm Hl. unfold score. cbv zeta. rewrite (proj2 (Nat.eqb_neq _ _)) by lia.
  assert (Hb : 0 < Z.of_nat (length (matches haystack tokens)) <= 2 ^ 63).
  { assert (Hle : (length (matches haystack tokens) <= length tokens)%nat) by apply List.filter_length_le. lia. }
  pose proof (f64_of_Z_sized false _ Hb) as Hn. cbn [cond_Zopp] in Hn.
  assert (H24 : sized false 1 65 (f64_of_Z 24)) by (apply (f64_of_Z_sized false 24); by vm_compute).
  assert (H1 : sized false 1 65 (f64_of_Z 1)) by (apply (f64_of_Z_sized false 1); by vm_compute).
  pose proof (age_cases (Sub now u)) as Ha. set (h := if fltb _ _ then _ else _) in *.
  assert (Hden : sized false 1 80 (fadd (f64_of_Z 1) (fdiv h (f64_of_Z 24)))).
  { destruct Ha as [->|Hh]; [pose proof (Sub_range now u); lia| |].
    - assert (Hz : fdiv fzero (f64_of_Z 24) = fzero) by (by vm_compute). rewrite Hz, (fadd_zero_r _ _ _ _ H1).
      eapply sized_weaken; [exact H1|lia|lia].
    - pose proof (fdiv_sized false _ _ _ _ _ _ Hh H24) as Hv.
      pose proof (fadd_sized false _ _ _ _ _ _ H1 (Hv ltac:(lia) ltac:(lia) ltac:(lia) ltac:(lia))) as Hw.
      eapply sized_weaken; [apply Hw; lia|lia|lia]. }
  pose proof (fdiv_sized false _ _ _ _ _ _ Hn Hden) as Hv.
  eapply sized_pos. apply Hv; lia.
Qed.

(** The score is positive exactly when a token occurs. *)
Lemma score_positive haystack u tokens now :
  Z.of_nat (length tokens) < 2 ^ 63 ->
  fltb fzero (score haystack u tokens now) = true <-> exists t, t ∈ tokens /\ Contains haystack t = true.
Proof.
  intros Hl. split.
  - unfold score. destruct (matches haystack tokens) as [|t ts] eqn:E; [done|]. intros _. exists t.
    assert (Hin : In t (matches haystack tokens)) by (rewrite E; by left). apply filter_In in Hin as [Hin ?].
    split; [by apply list_elem_of_In|done].
  - intros (t & Ht & Hc). apply score_pos; [|done]. assert (Hin : In t (matches haystack tokens)).
    { apply filter_In. split; [by apply list_elem_of_In|done]. }
    destruct (matches haystack tokens); [done|cbn; lia].
Qed.

(** ** Theorems: the order of the results *)

(** Larger score first, then the later update, as a relation on keys. *)
Lemma ranks_before_key sa ta sb tb : sa <> S754_nan -> sb <> S754_nan ->
  ranks_before (sa, ta) (sb, tb) = true <-> lex3_lt (fkey sb) (fkey sa) \/ (fkey sa = fkey sb /\ (tb < ta)%Z).
Proof.
  intros Ha Hb. unfold ranks_before. cbn [fst snd]. destruct (feqb sa sb) eqn:E; cbn [negb].
  - apply feqb_key in E; [|done..]. unfold After. rewrite Z.ltb_lt, E. split; [by right|]. intros [Hl|[_ ?]]; [|done].
    destruct (fkey sb) as [[x y] z]. unfold lex3_lt in Hl. lia.
  - rewrite fltb_key by done. split; [by left|]. intros [?|[Hk _]]; [done|]. apply feqb_key in Hk; [|done..]. congruence.
Qed.

Lemma ranks_before_asym a b : a.1 <> S754_nan -> b.1 <> S754_nan -> ranks_before a b = true -> ranks_before b a = false.
Proof.
  destruct a as [sa ta], b as [sb tb]. cbn [fst]. intros Ha Hb H1. apply not_true_iff_false. intros H2.
  apply ranks_before_key in H1; [|done..]. apply ranks_before_key in H2; [|done..].
  destruct (fkey sa) as [[x y] z], (fkey sb) as [[x' y'] z']. unfold lex3_lt in *.
  destruct H1 as [H1|[[= -> -> ->] H1]], H2 as [H2|[E2 H2]]; try injection E2; lia.
Qed.

Lemma ranks_before_trans a b c : a.1 <> S754_nan -> b.1 <> S754_nan -> c.1 <> S754_nan ->
  ranks_before b a = false -> ranks_before c b = false -> ranks_before c a = false.
Proof.
  destruct a as [sa ta], b as [sb tb], c as [sc tc]. cbn [fst]. intros Ha Hb Hc. rewrite <- !not_true_iff_false, !ranks_before_key by done.
  destruct (fkey sa) as [[x y] z], (fkey sb) as [[x' y'] z'], (fkey sc) as [[x'' y''] z'']. unfold lex3_lt.
  intros N1 N2 N3.
  assert (M1 : (~ (x < x' \/ x = x' /\ (y < y' \/ y = y' /\ z < z')))%Z) by (intros ?; apply N1; by left).
  assert (M2 : (~ (x' < x'' \/ x' = x'' /\ (y' < y'' \/ y' = y'' /\ z' < z'')))%Z) by (intros ?; apply N2; by left).
  destruct N3 as [?|[E3 ?]]; [lia|]. injection E3 as -> -> ->.
  assert (M3 : (x' = x /\ y' = y /\ z' = z)%Z) by lia. destruct M3 as (-> & -> & ->).
  destruct (Z.lt_ge_cases ta tb); [apply N1; by right|]. apply N2. right. split; [done|lia].
Qed.

Lemma pos_not_nan s : fltb fzero s = true -> s <> S754_nan.
Proof. by intros [_ ?]%fltb_not_nan. Qed.

Section best.
Context {E : Type} (text : E -> string) (updated : E -> Time).

Definition scoreE (e : E) (tokens : list string) (now : Time) : float64 := score (text e) (updated e) tokens now.

(** An entry is a hit when a token of the query occurs in its text. *)
Definition hit (tokens : list string) (e : E) : bool := negb (length (matches (text e) tokens) =? 0)%nat.

Definition worse (tokens : list string) (now : Time) (a b : E) : Prop :=
  ranks_before (scoreE a tokens now, updated a) (scoreE b tokens now, updated b) = false.

Lemma hit_score tokens now e : (Z.of_nat (length tokens) < 2 ^ 63)%Z -> fltb fzero (scoreE e tokens now) = hit tokens e.
Proof.
  intros Hl. unfold hit, scoreE. destruct (Nat.eqb_spec (length (matches (text e) tokens)) 0) as [E0|E0]; cbn [negb].
  - unfold score. by rewrite E0.
  - apply score_pos; [lia|done].
Qed.

Lemma scored_hits tokens now es : (Z.of_nat (length tokens) < 2 ^ 63)%Z ->
  scored scoreE tokens now es = (fun e => (e, scoreE e tokens now)) <$> List.filter (hit tokens) es.
Proof.
  intros Hl. unfold scored. induction es as [|e es IH]; [done|]. cbn [fmap list_fmap List.filter snd]. rewrite hit_score by done.
  destruct (hit tokens e); cbn; [f_equal|]; exact IH.
Qed.

Lemma scored_positive tokens now es : Forall (fun p => fltb fzero p.2 = true /\ p.2 = scoreE p.1 tokens now) (scored scoreE tokens now es).
Proof.
  unfold scored. rewrite Forall_forall. intros p Hp. apply list_elem_of_In, filter_In in Hp as [Hp Hf].
  apply list_elem_of_In, list_elem_of_fmap in Hp as (e & -> & _). done.
Qed.

Lemma StronglySorted_app_split {A} (R : A -> A -> Prop) l1 l2 :
  StronglySorted R (l1 ++ l2) -> StronglySorted R l1 /\ forall a b, a ∈ l1 -> b ∈ l2 -> R a b.
Proof.
  induction l1 as [|x l1 IH]; cbn; [split; [constructor|by intros ? ? ?%elem_of_nil]|].
  inversion 1 as [|? ? Hs Hf]; subst. destruct (IH Hs) as [? Hr]. rewrite Forall_app in Hf. destruct Hf as [Hf1 Hf2]. split; [by constructor|].
  intros a b [->|Ha]%elem_of_cons Hb; [|by apply Hr]. rewrite Forall_forall in Hf2. by apply Hf2.
Qed.

Lemma StronglySorted_fst tokens now (l : list (E * float64)) :
  Forall (fun p => p.2 = scoreE p.1 tokens now) l -> StronglySorted (ordered (before updated)) l ->
  StronglySorted (fun a b => worse tokens now b a) l.*1.
Proof.
  intros Hf Hs. induction Hs as [|p l Hs IH Hp]; cbn; [constructor|]. apply Forall_cons in Hf as [Ep Hf]. constructor; [by apply IH|].
  rewrite Forall_fmap. rewrite Forall_forall in *. intros q Hq. unfold worse. cbn. rewrite <- Ep, <- (Hf q Hq). by apply Hp.
Qed.

Lemma search_scored_best now query es topK :
  let tokens := tokenize query in
  let out := search_scored scoreE updated now query es topK in
  (Z.of_nat (length tokens) < 2 ^ 63)%Z ->
  exists rest,
    (if (topK <=? 0)%Z then out = [] else out ++ rest ≡ₚ List.filter (hit tokens) es /\ length out = Nat.min (Z.to_nat topK) (length (List.filter (hit tokens) es)))
    /\ StronglySorted (fun a b => worse tokens now b a) out
    /\ forall a b, a ∈ out -> b ∈ rest -> worse tokens now b a.
Proof.
  intros tokens out Hl. unfold out, search_scored. fold tokens.
  assert (Hcase : tokens = [] \/ exists t0 ts, tokens = t0 :: ts) by (destruct tokens; eauto).
  destruct Hcase as [->|(t0 & ts & Et)].
  { exists []. split_and!; [|constructor|by intros ? ? ?%elem_of_nil]. rewrite (filter_none (hit []) es).
    - case_match; [done|]. split; [done|]. cbn. lia.
    - apply Forall_forall. intros e _. done. }
  replace (match tokens with [] => [] | _ => _ end) with
    (if (topK <=? 0)%Z then [] else fst <$> take (Z.to_nat topK) (SliceStable (before updated) (scored scoreE tokens now es))) by (by rewrite Et).
  clear Et t0 ts. destruct (topK <=? 0)%Z; [exists []; split_and!; [done|constructor|by intros ? ? ?%elem_of_nil]|].
  set (sorted := SliceStable (before updated) (scored scoreE tokens now es)).
  assert (Hperm : sorted.*1 ≡ₚ List.filter (hit tokens) es).
  { unfold sorted. rewrite SliceStable_perm, scored_hits by done. rewrite <- list_fmap_compose.
    change (fst ∘ (fun e => (e, scoreE e tokens now))) with (@id E). by rewrite list_fmap_id. }
  assert (Hpos : Forall (fun p => fltb fzero p.2 = true /\ p.2 = scoreE p.1 tokens now) sorted)
    by (unfold sorted; rewrite SliceStable_perm; apply scored_positive).
  assert (Hs : StronglySorted (fun a b => worse tokens now b a) sorted.*1).
  { apply StronglySorted_fst; [eapply Forall_impl; [exact Hpos|by intros ? []]|].
    apply (SliceStable_sorted _ (fun p => p.2 <> S754_nan)).
    - intros x y Hx Hy. by apply ranks_before_asym.
    - intros x y z Hx Hy Hz. by apply ranks_before_trans.
    - eapply Forall_impl; [apply scored_positive|]. intros p [? _]. by apply pos_not_nan. }
  exists (drop (Z.to_nat topK) sorted.*1). split; [split|].
  - by rewrite fmap_take, take_drop.
  - by rewrite fmap_take, length_take, Hperm.
  - rewrite fmap_take. apply StronglySorted_app_split. by rewrite take_drop.
Qed.
End best.

Lemma SearchScored_eq now query facts topK :
  SearchScored now query facts topK = search_scored (scoreE fact_text f_UpdatedAt) f_UpdatedAt now query facts topK.
Proof. done. Qed.

Lemma SearchTasksScored_eq now query tasks topK :
  SearchTasksScored now query tasks topK = search_scored (scoreE task_text t_UpdatedAt) t_UpdatedAt now query tasks topK.
Proof. done. Qed.

(** a search gives the best of the hits. A hit is a fact in whose content or
    topic a token of the query occurs; with a positive limit the result and some
    rest are together exactly the hits, as many as there are up to the limit;
    they come in the order of their scores, of their times where the scores are
    equal, and no hit of the rest ranks before one of the result. A limit that is
    not positive gives nothing. *)
Theorem a_search_gives_the_best now query facts topK :
  let tokens := tokenize query in
  let out := SearchScored now query facts topK in
  (Z.of_nat (length tokens) < 2 ^ 63)%Z ->
  exists rest,
    (if (topK <=? 0)%Z then out = []
     else out ++ rest ≡ₚ List.filter (hit fact_text tokens) facts
          /\ length out = Nat.min (Z.to_nat topK) (length (List.filter (hit fact_text tokens) facts)))
    /\ StronglySorted (fun a b => worse fact_text f_UpdatedAt tokens now b a) out
    /\ forall a b, a ∈ out -> b ∈ rest -> worse fact_text f_UpdatedAt tokens now b a.
Proof. exact (search_scored_best fact_text f_UpdatedAt now query facts topK). Qed.

Theorem a_task_search_gives_the_best now query tasks topK :
  let tokens := tokenize query in
  let out := SearchTasksScored now query tasks topK in
  (Z.of_nat (length tokens) < 2 ^ 63)%Z ->
  exists rest,
    (if (topK <=? 0)%Z then out = []
     else out ++ rest ≡ₚ List.filter (hit task_text tokens) tasks
          /\ length out = Nat.min (Z.to_nat topK) (length (List.filter (hit task_text tokens) tasks)))
    /\ StronglySorted (fun a b => worse task_text t_UpdatedAt tokens now b a) out
    /\ forall a b, a ∈ out -> b ∈ rest -> worse task_text t_UpdatedAt tokens now b a.
Proof. exact (search_scored_best task_text t_UpdatedAt now query tasks topK). Qed.

(** A fact is found by a word of its own content. *)
Theorem a_fact_is_found_by_its_words now query facts topK f t :
  (Z.of_nat (length (tokenize query)) < 2 ^ 63)%Z -> (Z.of_nat (length facts) <= topK)%Z ->
  f ∈ facts -> t ∈ tokenize query -> t ∈ tokenize (f_Content f) -> f ∈ SearchScored now query facts topK.
Proof.
  intros Hl Hk Hf Hq Hc. destruct (search_scored_best fact_text f_UpdatedAt now query facts topK Hl) as (rest & Ho & _).
  rewrite <- SearchScored_eq in Ho. set (out := SearchScored _ _ _ _) in *. set (hits := List.filter _ _) in Ho.
  assert (Hh : f ∈ hits).
  { apply list_elem_of_In, filter_In. split; [by apply list_elem_of_In|]. unfold hit.
    assert (Hin : In t (matches (fact_text f) (tokenize query))).
    { apply filter_In. split; [by apply list_elem_of_In|by apply fact_text_contains]. }
    by destruct (matches (fact_text f) (tokenize query)). }
  assert (Hpos : (0 < length facts)%nat) by (destruct facts; [by apply elem_of_nil in Hf|cbn; lia]).
  destruct (Z.leb_spec topK 0); [lia|]. destruct Ho as [Hp Hn].
  assert (Hle : (length hits <= length facts)%nat) by apply List.filter_length_le.
  pose proof (Permutation_length Hp) as Hlen. rewrite length_app in Hlen.
  assert (rest = []) as -> by (destruct rest; [done|cbn in Hlen; lia]). rewrite app_nil_r in Hp. by rewrite Hp.
Qed.
End search.

(** ** Samples *)

(** Tables for ASCII and the common CJK block. *)
Definition sample_unicode : Unicode := {|
  uni_lower r := if in_range 65 90 r then (r + 32)%N else r;
  uni_han := in_range 19968 40959;
  uni_word r := in_range 48 57 r || in_range 65 90 r || in_range 97 122 r;
|}.

Example tokenize_samples :
  @tokenize sample_unicode "Fix main.go 数据库迁移 长" = ["fix"; "main"; "go"; "数据"; "据库"; "库迁"; "迁移"; "长"].
Proof. by vm_compute. Qed.

Definition sample_facts : list Fact :=
  [mkFact "t_1" "deploy with make release" "build" "user" 0 0;
   mkFact "t_2" "the database is postgres" "infra" "user" 0 0;
   mkFact "t_3" "make test runs the unit tests" "build" "user" 0 (3600 * Second * 48)].

Lemma a_search_gives_the_best_witness :
  let now := (3600 * Second * 48)%Z in
  let out := @SearchScored sample_unicode now "make build" sample_facts 1 in
  f_ID <$> out = ["t_3"]
  /\ exists rest,
    out ++ rest ≡ₚ List.filter (hit (@fact_text sample_unicode) (@tokenize sample_unicode "make build")) sample_facts
    /\ length out = 1.
Proof.
  intros now out. split; [by vm_compute|].
  destruct (@a_search_gives_the_best sample_unicode now "make build" sample_facts 1) as (rest & Ho & _ & _); [by vm_compute|].
  destruct Ho as [Hp Hl]. exists rest. split; [exact Hp|]. exact Hl.
Defined.

Lemma a_fact_is_found_by_its_words_witness :
  exists f, f ∈ @SearchScored sample_unicode 0 "which DATABASE?" sample_facts 3 /\ f_ID f = "t_2".
Proof.
  exists (mkFact "t_2" "the database is postgres" "infra" "user" 0 0). split; [|done].
  apply (@a_fact_is_found_by_its_words sample_unicode 0 "which DATABASE?" sample_facts 3 _ "database"); [by vm_compute|by vm_compute|..].
  - right. left.
  - apply (bool_decide_eq_true_1 _). vm_compute. reflexivity.
  - apply (bool_decide_eq_true_1 _). vm_compute. reflexivity.
Defined.
