(* ===== verification/MemoryStore.v ===== *)
(** * ai-memory/store.go: the file store

    Two lists in memory and two files of JSON lines, each rewritten whole by
    every write: a temporary file, then a rename, so a save that fails leaves
    the file as it was. The codecs, the clock and the random ids are
    arguments. *)

From S2P Require Import Prelude GoString GoSort JsonLines ScanJsonl MemorySearch.
#[local] Open Scope string_scope.
#[local] Open Scope list_scope.

(** A marshalled entry is read back, and is one line. *)
Class LineCodec (A : Type) `{JsonCodec A} := {
  codec_back : forall a b, marshal a = Some b -> unmarshal b = Some a;
  codec_line : forall a b, marshal a = Some b -> json_line b;
}.

Section store.
Context `{Unicode} `{JsonCodec Fact} `{JsonCodec Task}.

Record FileStore := mkFS {
  taskKeep : Z;
  facts : list Fact;
  tasks : list Task;
  ltm : bytes;
  mtm : bytes;
}.

(** ** Loading and writing *)

(** [None]: the scanner met a line that is too long. *)
Definition readJSONL (content : bytes) : option (list bytes) :=
  let '(toks, ok) := scan_lines maxLine content in
  if ok then Some (List.filter (fun l => negb (length l =? 0)%nat) (trim <$> toks)) else None.

Definition load_lines {A} `{JsonCodec A} (content : bytes) : option (list A) :=
  match readJSONL content with Some ls => Some (omap (M := list) unmarshal ls) | None => None end.

(** A missing file is an empty one. *)
Definition NewFileStore (keep : Z) (ltm mtm : bytes) : option FileStore :=
  fs ← load_lines ltm; ts ← load_lines mtm; Some (mkFS keep fs ts ltm mtm).

(** [ok]: neither the write nor the rename failed. *)
Definition writeJSONL {A} `{JsonCodec A} (ok : bool) (items : list A) (file : bytes) : bytes * bool :=
  match mapM marshal items with
  | Some lines => if ok then (unlines lines, true) else (file, false)
  | None => (file, false)
  end.

Definition saveFactsLocked (ok : bool) (s : FileStore) : FileStore * bool :=
  let '(f, r) := writeJSONL ok (facts s) (ltm s) in (mkFS (taskKeep s) (facts s) (tasks s) f (mtm s), r).

Definition saveTasksLocked (ok : bool) (s : FileStore) : FileStore * bool :=
  let '(f, r) := writeJSONL ok (tasks s) (mtm s) in (mkFS (taskKeep s) (facts s) (tasks s) (ltm s) f, r).

Definition with_facts (fs : list Fact) (s : FileStore) : FileStore := mkFS (taskKeep s) fs (tasks s) (ltm s) (mtm s).
Definition with_tasks (ts : list Task) (s : FileStore) : FileStore := mkFS (taskKeep s) (facts s) ts (ltm s) (mtm s).

(** ** The facts *)

Definition same_content (a b : string) : bool := String.eqb (ToLower (TrimSpace a)) (ToLower (TrimSpace b)).
Definition duplicateContent (fs : list Fact) (content : string) : bool := existsb (fun f => same_content (f_Content f) content) fs.

(** [newID]: what [NewID] would give. *)
Definition AddFact (now : Time) (newID : string) (ok : bool) (f : Fact) (s : FileStore) : FileStore * bool :=
  let id := if String.eqb (f_ID f) "" then newID else f_ID f in
  let created := if IsZero (f_CreatedAt f) then now else f_CreatedAt f in
  if duplicateContent (facts s) (f_Content f) then (s, true)
  else saveFactsLocked ok (with_facts (facts s ++ [mkFact id (f_Content f) (f_Topic f) (f_Source f) created now]) s).

(** The first entry of an id, updated. *)
Fixpoint update_first {A} (p : A -> bool) (g : A -> A) (l : list A) : option (list A) :=
  match l with
  | [] => None
  | x :: l' => if p x then Some (g x :: l') else cons x <$> update_first p g l'
  end.

Definition UpdateFact (now : Time) (ok : bool) (f : Fact) (s : FileStore) : FileStore * bool :=
  match update_first (fun x => String.eqb (f_ID x) (f_ID f))
          (fun old => mkFact (f_ID f) (f_Content f) (f_Topic f) (f_Source f) (f_CreatedAt old) now) (facts s) with
  | Some fs => saveFactsLocked ok (with_facts fs s)
  | None => (s, true)
  end.

Definition DeleteFact (id : string) (ok : bool) (s : FileStore) : FileStore * bool :=
  let kept := List.filter (fun f => negb (String.eqb (f_ID f) id)) (facts s) in
  if (length kept =? length (facts s))%nat then (s, true) else saveFactsLocked ok (with_facts kept s).

Definition limited {A} (limit : Z) (l : list A) : list A :=
  if (0 <? limit)%Z && (limit <? Z.of_nat (length l))%Z then take (Z.to_nat limit) l else l.

Definition newer_fact (a b : Fact) : bool := After (f_UpdatedAt a) (f_UpdatedAt b).
Definition newer_task (a b : Task) : bool := After (t_UpdatedAt a) (t_UpdatedAt b).

Definition ListFacts (limit : Z) (s : FileStore) : list Fact := limited limit (SliceStable newer_fact (facts s)).
Definition SearchFacts (now : Time) (query : string) (topK : Z) (s : FileStore) : list Fact := SearchScored now query (facts s) topK.

(** ** The tasks *)

Definition trimAndSaveLocked (ok : bool) (s : FileStore) : FileStore * bool :=
  let s := if (0 <? taskKeep s)%Z && (taskKeep s <? Z.of_nat (length (tasks s)))%Z
           then with_tasks (take (Z.to_nat (taskKeep s)) (SliceStable newer_task (tasks s))) s else s in
  saveTasksLocked ok s.

Definition stamp_new (now : Time) (newID : string) (t : Task) : Task :=
  mkTask newID (t_Title t) (if String.eqb (t_Status t) "" then "open" else t_Status t) (t_Cwd t)
    (if IsZero (t_CreatedAt t) then now else t_CreatedAt t) now (t_Runs t) (t_Summary t) (t_KeyFiles t) (t_Commands t)
    (t_NextSteps t) (t_TokenUsage t).

Definition stamp_old (now : Time) (t old : Task) : Task :=
  mkTask (t_ID t) (t_Title t) (t_Status t) (t_Cwd t) (t_CreatedAt old) now
    (match t_Runs t with [] => t_Runs old | runs => t_Runs old ++ runs end) (t_Summary t) (t_KeyFiles t) (t_Commands t)
    (t_NextSteps t) (t_TokenUsage t).

Definition UpsertTask (now : Time) (newID : string) (ok : bool) (t : Task) (s : FileStore) : FileStore * bool :=
  if String.eqb (t_ID t) "" then trimAndSaveLocked ok (with_tasks (tasks s ++ [stamp_new now newID t]) s)
  else match update_first (fun x => String.eqb (t_ID x) (t_ID t)) (stamp_old now t) (tasks s) with
       | Some ts => trimAndSaveLocked ok (with_tasks ts s)
       | None => (s, true)
       end.

Definition OpenTasks (limit : Z) (s : FileStore) : list Task := limited limit (SliceStable newer_task (open_tasks (tasks s))).
Definition ListTasks (limit : Z) (s : FileStore) : list Task := limited limit (SliceStable newer_task (tasks s)).

Definition close (now : Time) (t : Task) : Task :=
  mkTask (t_ID t) (t_Title t) "closed" (t_Cwd t) (t_CreatedAt t) now (t_Runs t) (t_Summary t) (t_KeyFiles t) (t_Commands t)
    (t_NextSteps t) (t_TokenUsage t).

Definition CloseTask (now : Time) (id : string) (ok : bool) (s : FileStore) : FileStore * bool :=
  match update_first (fun t => String.eqb (t_ID t) id && negb (String.eqb (t_Status t) "closed")) (close now) (tasks s) with
  | Some ts => saveTasksLocked ok (with_tasks ts s)
  | None => (s, true)
  end.

(** ** The writes as data *)

Inductive write : Type :=
  | WAdd (f : Fact)
  | WUpdate (f : Fact)
  | WDelete (id : string)
  | WUpsert (t : Task)
  | WClose (id : string).

(** What a write meets: the clock, a fresh id, whether the disk takes it. *)
Record weather := mkWeather {
  at_time : Time;
  fresh_id : string;
  disk_ok : bool;
}.

Definition apply_write (e : weather) (w : write) : FileStore -> FileStore * bool :=
  match w with
  | WAdd f => AddFact (at_time e) (fresh_id e) (disk_ok e) f
  | WUpdate f => UpdateFact (at_time e) (disk_ok e) f
  | WDelete id => DeleteFact id (disk_ok e)
  | WUpsert t => UpsertTask (at_time e) (fresh_id e) (disk_ok e) t
  | WClose id => CloseTask (at_time e) id (disk_ok e)
  end.

Fixpoint apply_writes (ws : list (weather * write)) (s : FileStore) : FileStore * bool :=
  match ws with
  | [] => (s, true)
  | (e, w) :: ws' =>
      let '(s, r) := apply_write e w s in
      let '(s, r') := apply_writes ws' s in (s, r && r')
  end.
End store.

(** * ai-memory/store.go: theorems

    What was written is what is read, whatever saves fail in between; a line
    longer than the reader's buffer locks the store; an update keeps what it must
    keep, and the trim drops the least recent tasks. *)

(** ** A file of lines *)

Section lines.
Context {A : Type} `{JsonCodec A} `{!LineCodec A}.

(** The file holds the items. *)
Definition encodes (items : list A) (file : bytes) : Prop :=
  exists ls, mapM marshal items = Some ls /\ file = unlines ls.

Definition fits (x : A) : Prop := forall b, marshal x = Some b -> (blen b < maxLine)%Z.

Lemma marshal_lines (items : list A) ls :
  mapM marshal items = Some ls -> Forall json_line ls /\ omap (M := list) unmarshal ls = items.
Proof.
  intros Hm. apply mapM_Some_1 in Hm. induction Hm as [|x b items ls Hb _ [IH1 IH2]]; [by split|].
  cbn. rewrite (codec_back _ _ Hb), IH2. split; [|done]. constructor; [by eapply codec_line|done].
Qed.

Lemma raw_tokens_of_lines ls : Forall json_line ls -> raw_tokens (unlines ls) = ls.
Proof.
  intros Hl. rewrite <- (app_nil_r (unlines ls)), raw_tokens_unlines; [by rewrite app_nil_r| |apply not_elem_of_nil].
  eapply Forall_impl; [exact Hl|]. by intros b (? & _).
Qed.

Lemma load_encodes items file :
  encodes items file -> Forall fits items -> load_lines file = Some items.
Proof.
  intros (ls & Hm & ->) Hf. destruct (marshal_lines _ _ Hm) as [Hj Ho]. unfold load_lines, readJSONL, scan_lines.
  rewrite raw_tokens_of_lines by done. rewrite scan_tokens_clean.
  - f_equal. rewrite filter_all.
    + replace (trim <$> ls) with ls; [done|]. clear -Hj. induction Hj as [|b ls (_ & _ & Ht & _) _ IH]; [done|]. cbn. by rewrite Ht, <- IH.
    + clear -Hj. induction Hj as [|b ls (_ & _ & Ht & Hne) _ IH]; cbn; [constructor|]. constructor; [|done]. rewrite Ht. by destruct b.
  - apply mapM_Some_1 in Hm. clear Ho. induction Hm as [|x b items ls Hb _ IH]; [constructor|].
    apply Forall_cons in Hj as [(_ & Hc & _) Hj]. apply Forall_cons in Hf as [Hx Hf]. constructor; [split; [done|by apply Hx]|by apply IH].
Qed.

Lemma load_too_long items file :
  encodes items file -> Exists (fun x => ~ fits x) items -> load_lines (A := A) file = None.
Proof.
  intros (ls & Hm & ->) He. destruct (marshal_lines _ _ Hm) as [Hj _]. unfold load_lines, readJSONL, scan_lines.
  rewrite raw_tokens_of_lines by done. assert (E : (scan_tokens maxLine ls).2 = false); [|destruct (scan_tokens maxLine ls); cbn in E; by subst].
  apply mapM_Some_1 in Hm. clear Hj. induction Hm as [|x b items ls Hb _ IH]; [by apply Exists_nil in He|].
  cbn. destruct (Z.leb_spec maxLine (blen b)) as [|Hlt]; [done|]. destruct (scan_tokens maxLine ls) as [ts ok] eqn:Es. cbn in *. apply IH.
  apply Exists_cons in He as [Hn|He]; [|done]. destruct Hn. intros b' Hb'. rewrite Hb in Hb'. by injection Hb' as <-.
Qed.

Lemma writeJSONL_spec ok (items : list A) file :
  let '(file', r) := writeJSONL ok items file in
  if r then encodes items file' else file' = file.
Proof. unfold writeJSONL. destruct (mapM marshal items) as [ls|] eqn:E; [|done]. destruct ok; [|done]. by exists ls. Qed.
End lines.

Section props.
Context `{Unicode} `{JsonCodec Fact} `{JsonCodec Task} `{!LineCodec Fact} `{!LineCodec Task}.

(** ** What a write does to the files *)

Lemma save_facts_eq ok s :
  let '(s', r) := saveFactsLocked ok s in
  facts s' = facts s /\ tasks s' = tasks s /\ taskKeep s' = taskKeep s /\ mtm s' = mtm s
  /\ if r then encodes (facts s) (ltm s') else ltm s' = ltm s.
Proof. unfold saveFactsLocked. pose proof (writeJSONL_spec ok (facts s) (ltm s)) as Hw. destruct (writeJSONL _ _ _) as [f r]. by destruct r. Qed.

Lemma save_tasks_eq ok s :
  let '(s', r) := saveTasksLocked ok s in
  facts s' = facts s /\ tasks s' = tasks s /\ taskKeep s' = taskKeep s /\ ltm s' = ltm s
  /\ if r then encodes (tasks s) (mtm s') else mtm s' = mtm s.
Proof. unfold saveTasksLocked. pose proof (writeJSONL_spec ok (tasks s) (mtm s)) as Hw. destruct (writeJSONL _ _ _) as [f r]. by destruct r. Qed.

(** The two ways a write may end: nothing is touched, or one of the lists is
    saved or fails to be. *)
Inductive wrote (s s' : FileStore) (r : bool) : Prop :=
  | wrote_nothing : s' = s -> r = true -> wrote s s' r
  | wrote_facts : tasks s' = tasks s -> mtm s' = mtm s -> taskKeep s' = taskKeep s ->
      (if r then encodes (facts s') (ltm s') else ltm s' = ltm s) -> wrote s s' r
  | wrote_tasks : facts s' = facts s -> ltm s' = ltm s -> taskKeep s' = taskKeep s ->
      (if r then encodes (tasks s') (mtm s') else mtm s' = mtm s) -> wrote s s' r.

Lemma wrote_save_facts ok fs s s' r : saveFactsLocked ok (with_facts fs s) = (s', r) -> wrote s s' r /\ facts s' = fs.
Proof.
  intros E. pose proof (save_facts_eq ok (with_facts fs s)) as Hs. rewrite E in Hs. destruct Hs as (E1 & ? & ? & ? & Hr).
  split; [|done]. apply wrote_facts; [done..|]. rewrite E1. by destruct r.
Qed.

Lemma wrote_save_tasks ok ts s s' r : saveTasksLocked ok (with_tasks ts s) = (s', r) -> wrote s s' r /\ tasks s' = ts.
Proof.
  intros E. pose proof (save_tasks_eq ok (with_tasks ts s)) as Hs. rewrite E in Hs. destruct Hs as (? & E1 & ? & ? & Hr).
  split; [|done]. apply wrote_tasks; [done..|]. rewrite E1. by destruct r.
Qed.

Lemma wrote_trim ok ts s s' r : trimAndSaveLocked ok (with_tasks ts s) = (s', r) -> wrote s s' r.
Proof. unfold trimAndSaveLocked. case_match; intros E; by apply (wrote_save_tasks ok _ s) in E as [? _]. Qed.

Lemma store_wrote e w s s' r : apply_write e w s = (s', r) -> wrote s s' r.
Proof.
  destruct w; cbn [apply_write].
  - unfold AddFact. destruct (duplicateContent _ _); [intros [= <- <-]; by apply wrote_nothing|]. intros E. by apply wrote_save_facts in E as [? _].
  - unfold UpdateFact. destruct (update_first _ _ _); [|intros [= <- <-]; by apply wrote_nothing]. intros E. by apply wrote_save_facts in E as [? _].
  - unfold DeleteFact. destruct (_ =? _)%nat; [intros [= <- <-]; by apply wrote_nothing|]. intros E. by apply wrote_save_facts in E as [? _].
  - unfold UpsertTask. destruct (String.eqb (t_ID t) ""); [apply wrote_trim|]. destruct (update_first _ _ _); [apply wrote_trim|].
    intros [= <- <-]; by apply wrote_nothing.
  - unfold CloseTask. destruct (update_first _ _ _); [|intros [= <- <-]; by apply wrote_nothing]. intros E. by apply wrote_save_tasks in E as [? _].
Qed.

(** The files hold the lists. *)
Record synced (s : FileStore) : Prop := {
  sy_facts : encodes (facts s) (ltm s);
  sy_tasks : encodes (tasks s) (mtm s);
}.

Lemma synced_write s s' : wrote s s' true -> synced s -> synced s' /\ taskKeep s' = taskKeep s.
Proof.
  intros Hw [Hf Ht]. destruct Hw as [->|E1 E2 ? ?|E1 E2 ? ?]; [done|..].
  - split; [|done]. split; [done|]. by rewrite E1, E2.
  - split; [|done]. split; [by rewrite E1, E2|done].
Qed.

Lemma synced_writes ws s s' : synced s -> apply_writes ws s = (s', true) -> synced s' /\ taskKeep s' = taskKeep s.
Proof.
  revert s. induction ws as [|[e w] ws IH]; intros s Hs; cbn [apply_writes]; [by intros [= <-]|].
  destruct (apply_write e w s) as [s1 r1] eqn:E1. destruct (apply_writes ws s1) as [s2 r2] eqn:E2. intros [= -> Hr].
  apply andb_true_iff in Hr as [-> ->]. destruct (synced_write s s1) as [Hs1 <-]; [by eapply store_wrote|done|]. by apply IH.
Qed.

Lemma reopen_synced s : synced s -> Forall fits (facts s) -> Forall fits (tasks s) ->
  NewFileStore (taskKeep s) (ltm s) (mtm s) = Some s.
Proof.
  intros [Hf Ht] Ff Ft. unfold NewFileStore. rewrite (load_encodes _ _ Hf Ff). cbn. rewrite (load_encodes _ _ Ht Ft). cbn. by destruct s.
Qed.

(** C39: what was written is what is read. After any writes that succeeded, of a
    store that was in step with its files, a process that opens the files has
    the facts and the tasks of the one that wrote them, in their order, as long
    as no entry makes a line of a mebibyte. *)
Theorem the_memory_survives ws s s' :
  synced s -> apply_writes ws s = (s', true) ->
  Forall fits (facts s') -> Forall fits (tasks s') ->
  NewFileStore (taskKeep s) (ltm s') (mtm s') = Some s'.
Proof. intros Hs Hw Ff Ft. destruct (synced_writes _ _ _ Hs Hw) as [Hs' <-]. by apply reopen_synced. Qed.

(** Each file is at any time one that the store wrote as a whole. *)
Lemma whole_write e w s s' r : apply_write e w s = (s', r) ->
  (exists fs : list Fact, encodes fs (ltm s)) -> (exists ts : list Task, encodes ts (mtm s)) ->
  (exists fs : list Fact, encodes fs (ltm s')) /\ (exists ts : list Task, encodes ts (mtm s')).
Proof.
  intros Hw Hf Ht. apply store_wrote in Hw. destruct Hw as [->|E1 E2 ? Hr|E1 E2 ? Hr]; [done|..]; rewrite E2.
  - split; [|done]. destruct r; [eexists; exact Hr|by rewrite Hr].
  - split; [done|]. destruct r; [eexists; exact Hr|by rewrite Hr].
Qed.

(** Whatever saves fail, the files are whole files of entries. *)
Theorem a_failed_save_leaves_a_whole_file ws s s' r :
  apply_writes ws s = (s', r) ->
  (exists fs : list Fact, encodes fs (ltm s)) -> (exists ts : list Task, encodes ts (mtm s)) ->
  (exists fs : list Fact, encodes fs (ltm s')) /\ (exists ts : list Task, encodes ts (mtm s')).
Proof.
  revert s r. induction ws as [|[e w] ws IH]; intros s r; cbn [apply_writes]; [by intros [= <- _]|].
  destruct (apply_write e w s) as [s1 r1] eqn:E1. destruct (apply_writes ws s1) as [s2 r2] eqn:E2. intros [= -> _] Hf Ht.
  destruct (whole_write _ _ _ _ _ E1 Hf Ht). by eapply IH.
Qed.

(** A line of a mebibyte locks the store: it is written without complaint, and
    then no process can open the files. *)
Theorem a_long_entry_locks_the_store s :
  synced s -> Exists (fun t => ~ fits t) (tasks s) -> NewFileStore (taskKeep s) (ltm s) (mtm s) = None.
Proof.
  intros [_ Ht] He. unfold NewFileStore. rewrite (load_too_long _ _ Ht He). by destruct (load_lines (ltm s)).
Qed.

(** ** Updates *)

Lemma update_first_spec {A} (p : A -> bool) g l l' :
  update_first p g l = Some l' <->
  exists l1 x l2, l = l1 ++ x :: l2 /\ l' = l1 ++ g x :: l2 /\ p x = true /\ Forall (fun y => p y = false) l1.
Proof.
  revert l'. induction l as [|y l IH]; intros l'; cbn.
  - split; [done|]. by intros ([] & ? & ? & ? & _).
  - destruct (p y) eqn:Ey.
    + split.
      * intros [= <-]. exists [], y, l. by split_and!.
      * intros ([|z l1] & x & l2 & E & -> & Hp & Hf); cbn in E; [by injection E as -> ->|].
        injection E as -> ->. apply Forall_cons in Hf as [? _]. congruence.
    + rewrite fmap_Some. split.
      * intros (l0 & (l1 & x & l2 & -> & -> & ? & ?)%IH & ->). exists (y :: l1), x, l2. split_and!; try done. by constructor.
      * intros ([|z l1] & x & l2 & E & -> & Hp & Hf); cbn in E; injection E as -> ->; [congruence|].
        apply Forall_cons in Hf as [_ Hf]. exists (l1 ++ g x :: l2). split; [|done]. apply IH. by exists l1, x, l2.
Qed.

Lemma update_first_None {A} (p : A -> bool) g l : update_first p g l = None <-> Forall (fun y => p y = false) l.
Proof.
  induction l as [|y l IH]; cbn; [by split|]. rewrite Forall_cons. destruct (p y) eqn:E; [split; [done|by intros []]|].
  rewrite fmap_None, IH. split; [by split|by intros []].
Qed.

(** The most recent of the tasks, when there are too many. *)
Definition trimmed (keep : Z) (ts : list Task) : list Task :=
  if (0 <? keep)%Z && (keep <? Z.of_nat (length ts))%Z then take (Z.to_nat keep) (SliceStable newer_task ts) else ts.

Lemma trim_tasks ok ts s s' r : trimAndSaveLocked ok (with_tasks ts s) = (s', r) -> tasks s' = trimmed (taskKeep s) ts /\ facts s' = facts s.
Proof.
  unfold trimAndSaveLocked, trimmed. cbn [with_tasks taskKeep tasks]. case_match; intros E.
  - pose proof (save_tasks_eq ok (with_tasks (take (Z.to_nat (taskKeep s)) (SliceStable newer_task ts)) (with_tasks ts s))) as Hs.
    rewrite E in Hs. by destruct Hs as (? & ? & _).
  - pose proof (save_tasks_eq ok (with_tasks ts s)) as Hs. rewrite E in Hs. by destruct Hs as (? & ? & _).
Qed.

Lemma newer_sorted ts : StronglySorted (ordered newer_task) (SliceStable newer_task ts).
Proof.
  apply (SliceStable_sorted _ (fun _ => True)); unfold ordered, newer_task, After.
  - intros x y _ _. rewrite Z.ltb_lt, Z.ltb_ge. lia.
  - intros x y z _ _ _. rewrite !Z.ltb_ge. lia.
  - by apply Forall_forall.
Qed.

(** What is kept and what is dropped. *)
Lemma trimmed_spec keep ts :
  exists dropped, trimmed keep ts ++ dropped ≡ₚ ts
    /\ (if (0 <? keep)%Z then (Z.of_nat (length (trimmed keep ts)) <= keep)%Z else dropped = [])
    /\ forall a b, a ∈ trimmed keep ts -> b ∈ dropped -> (t_UpdatedAt b <= t_UpdatedAt a)%Z.
Proof.
  unfold trimmed. destruct (0 <? keep)%Z eqn:Ek; cbn [andb].
  - destruct (Z.ltb_spec keep (Z.of_nat (length ts))) as [Hl|Hl].
    + exists (drop (Z.to_nat keep) (SliceStable newer_task ts)). split_and!.
      * rewrite take_drop. apply SliceStable_perm.
      * rewrite length_take. apply Z.ltb_lt in Ek. lia.
      * intros a b Ha Hb. pose proof (newer_sorted ts) as Hs. rewrite <- (take_drop (Z.to_nat keep) (SliceStable _ ts)) in Hs.
        apply StronglySorted_app_split in Hs as [_ Hs]. specialize (Hs a b Ha Hb). unfold ordered, newer_task, After in Hs.
        by apply Z.ltb_ge in Hs.
    + exists []. rewrite app_nil_r. split_and!; [done|done|]. by intros a b _ ?%elem_of_nil.
  - exists []. rewrite app_nil_r. split_and!; [done|done|]. by intros a b _ ?%elem_of_nil.
Qed.

(** an update of a task. With an id it replaces the first task of that id,
    which keeps its time of creation and its runs before the new ones, and an
    unknown id changes nothing; without an id the task is added under a fresh one.
    Then at most the configured number of tasks is kept, and no task that is
    dropped is more recent than one that is kept. *)
Theorem an_upsert_keeps_what_it_must now newID ok t s s' r :
  UpsertTask now newID ok t s = (s', r) ->
  facts s' = facts s
  /\ ((s' = s /\ r = true /\ t_ID t <> "" /\ Forall (fun x => t_ID x <> t_ID t) (tasks s))
      \/ exists ts dropped,
          tasks s' ++ dropped ≡ₚ ts
          /\ (if (0 <? taskKeep s)%Z then (Z.of_nat (length (tasks s')) <= taskKeep s)%Z else dropped = [])
          /\ (forall a b, a ∈ tasks s' -> b ∈ dropped -> (t_UpdatedAt b <= t_UpdatedAt a)%Z)
          /\ if String.eqb (t_ID t) "" then ts = tasks s ++ [stamp_new now newID t]
             else exists l1 old l2 new,
               tasks s = l1 ++ old :: l2 /\ ts = l1 ++ new :: l2 /\ Forall (fun x => t_ID x <> t_ID t) l1
               /\ t_ID old = t_ID t /\ t_ID new = t_ID t /\ t_CreatedAt new = t_CreatedAt old /\ t_UpdatedAt new = now
               /\ t_Runs new = t_Runs old ++ t_Runs t /\ t_Summary new = t_Summary t /\ t_Status new = t_Status t).
Proof.
  unfold UpsertTask. destruct (String.eqb (t_ID t) "") eqn:Eid.
  - intros E. apply trim_tasks in E as [Et Ef]. split; [done|]. right. rewrite Et.
    destruct (trimmed_spec (taskKeep s) (tasks s ++ [stamp_new now newID t])) as (d & ? & ? & ?). by exists (tasks s ++ [stamp_new now newID t]), d.
  - destruct (update_first _ _ _) as [ts|] eqn:Eu.
    + intros E. apply trim_tasks in E as [Et Ef]. split; [done|]. right. rewrite Et.
      destruct (trimmed_spec (taskKeep s) ts) as (d & ? & ? & ?). exists ts, d. split_and!; try done.
      apply update_first_spec in Eu as (l1 & old & l2 & E1 & E2 & Hp & Hf). exists l1, old, l2, (stamp_old now t old).
      apply String.eqb_eq in Hp. split_and!; try done.
      * eapply Forall_impl; [exact Hf|]. intros x Hx. by apply String.eqb_neq.
      * cbn. destruct (t_Runs t); [by rewrite app_nil_r|done].
    + intros [= <- <-]. split; [done|]. left. apply String.eqb_neq in Eid. split_and!; try done.
      apply update_first_None in Eu. eapply Forall_impl; [exact Eu|]. intros x Hx. by apply String.eqb_neq.
Qed.

(** A fact is not added twice; what is added is the last. *)
Theorem a_fact_is_added_once now newID ok f s s' r :
  AddFact now newID ok f s = (s', r) ->
  tasks s' = tasks s
  /\ if duplicateContent (facts s) (f_Content f) then s' = s /\ r = true
     else exists g, facts s' = facts s ++ [g] /\ f_Content g = f_Content f /\ f_UpdatedAt g = now
          /\ AddFact now newID ok f s' = (s', true).
Proof.
  unfold AddFact. destruct (duplicateContent (facts s) (f_Content f)) eqn:Ed; [by intros [= <- <-]|].
  intros E. pose proof E as E'. apply wrote_save_facts in E as [Hw Ef]. split.
  - pose proof (save_facts_eq ok (with_facts (facts s ++ [mkFact (if String.eqb (f_ID f) "" then newID else f_ID f) (f_Content f) (f_Topic f)
      (f_Source f) (if IsZero (f_CreatedAt f) then now else f_CreatedAt f) now]) s)) as Hs. rewrite E' in Hs. by destruct Hs as (_ & ? & _).
  - eexists. split_and!; [exact Ef|done|done|]. rewrite Ef. unfold duplicateContent. rewrite existsb_app. cbn [existsb f_Content].
    unfold same_content at 2. rewrite String.eqb_refl. cbn. by rewrite orb_true_r.
Qed.
End props.
