(* ===== verification/MemoryCheckpoint.v ===== *)
(** * ai-memory: checkpoints

    checkpoint.go, extract.go and consolidate.go: what a model's answer becomes,
    the decisions on facts and the updates of tasks as programs over the store,
    and the checkpoints of several sessions as threads that share the store and
    a semaphore with the commands of the user. What the model answers is an
    input; the prompt is not part of the model. *)

From S2P Require Import Prelude GoString GoUtf8 GoPath GoFloat JsonLines MemorySearch MemoryStore.
#[local] Open Scope string_scope.
#[local] Open Scope list_scope.

(** ** Programs over the interface [Store]: a write, and what follows its outcome *)

Inductive prog (A : Type) : Type :=
  | Ret (a : A)
  | Do (w : write) (k : bool -> prog A).
Arguments Ret {A} a.
Arguments Do {A} w k.

Fixpoint prog_bind {A B} (f : A -> prog B) (p : prog A) : prog B :=
  match p with
  | Ret a => f a
  | Do w k => Do w (fun r => prog_bind f (k r))
  end.

#[export] Instance prog_ret : MRet prog := fun A a => Ret a.
#[export] Instance prog_mbind : MBind prog := fun A B f p => prog_bind f p.

(** ** Data *)

Record TaskUpdate := mkTaskUpdate {
  u_ID : string;
  u_Title : string;
  u_Done : bool;
  u_SummaryDelta : string;
  u_KeyFiles : list string;
  u_Commands : list string;
  u_NextSteps : list string;
}.

Definition DecisionAdd : string := "add".
Definition DecisionUpdate : string := "update".
Definition DecisionDelete : string := "delete".
Definition DecisionNoop : string := "noop".

Record Decision := mkDecision {
  Action : string;
  d_ID : string;
  d_Content : string;
  d_Topic : string;
}.

Record CheckpointResult := mkCheckpointResult {
  Tasks : list TaskUpdate;
  Decisions : list Decision;
}.

Record AppliedSummary := mkSummary {
  UpdatedTasks : list string;
  ClosedTasks : list string;
  SFacts : list string;
  DeletedFacts : list string;
}.

Definition Count (s : AppliedSummary) : nat :=
  length (UpdatedTasks s) + length (ClosedTasks s) + length (SFacts s) + length (DeletedFacts s).

(** ** The answer of the model *)

Definition validAction (a : string) : bool := existsb (String.eqb a) [DecisionAdd; DecisionUpdate; DecisionDelete; DecisionNoop].

Definition maxFactContentRunes : nat := 2000.

Definition first_runes (n : nat) (s : string) : string :=
  let r := rune_list s in if (n <? length r)%nat then of_runes (take n r) else s.

Fixpoint Index (c : ascii) (s : string) : option nat :=
  match s with
  | EmptyString => None
  | String a s' => if Ascii.eqb a c then Some 0%nat else S <$> Index c s'
  end.

Fixpoint LastIndex (c : ascii) (s : string) : option nat :=
  match s with
  | EmptyString => None
  | String a s' => match LastIndex c s' with Some i => Some (S i) | None => if Ascii.eqb a c then Some 0%nat else None end
  end.

Fixpoint string_take (n : nat) (s : string) : string :=
  match n, s with
  | S n', String a s' => String a (string_take n' s')
  | _, _ => ""
  end.

(** The text between the first brace and the last, both included. *)
Definition json_window (s : string) : option string :=
  match Index "{" s, LastIndex "}" s with
  | Some i, Some j => if (j <=? i)%nat then None else Some (string_drop i (string_take (S j) s))
  | _, _ => None
  end.

Definition valid_update (t : TaskUpdate) : option TaskUpdate :=
  if String.eqb (u_ID t) "" && String.eqb (TrimSpace (u_Title t)) "" then None
  else Some (mkTaskUpdate (u_ID t) (u_Title t) (u_Done t) (first_runes 4000 (u_SummaryDelta t)) (u_KeyFiles t) (u_Commands t) (u_NextSteps t)).

Definition valid_decision (d : Decision) : option Decision :=
  if validAction (Action d) then Some (mkDecision (Action d) (d_ID d) (first_runes maxFactContentRunes (d_Content d)) (d_Topic d)) else None.

(** [decode]: [json.Unmarshal] into a [CheckpointResult]. *)
Definition parseCheckpoint (decode : string -> option CheckpointResult) (s : string) : option CheckpointResult :=
  let s := TrimSpace s in
  if String.eqb s "[]" || String.eqb s "null" then Some (mkCheckpointResult [] [])
  else
    w ← json_window s; out ← decode w;
    Some (mkCheckpointResult (omap valid_update (Tasks out)) (omap valid_decision (Decisions out))).

(** ** Texts *)

Definition singleLine (s : string) : string := Join " " (Fields s).

Definition factLine (topic content : string) : string :=
  let c := singleLine content in if String.eqb topic "" then c else topic +:+ ": " +:+ c.

Definition newline : string := String "010" "".

Definition mergeText (existing delta : string) : string :=
  let existing := TrimSpace existing in
  let delta := TrimSpace delta in
  if String.eqb delta "" then existing
  else if String.eqb existing "" then delta
  else existing +:+ newline +:+ delta.

Record Message := mkMessage { Role : string; Content : string }.

Fixpoint last_parts (limit n : nat) (rev_msgs : list Message) : list string :=
  match rev_msgs with
  | [] => []
  | m :: ms =>
      if String.eqb (Role m) "system" then last_parts limit n ms
      else
        let s := TrimSpace (Content m) in
        if String.eqb s "" then last_parts limit n ms
        else
          let r := rune_list s in
          let '(r, s) := if (limit <? n + length r)%nat then (take (limit - n) r, of_runes (take (limit - n) r)) else (r, s) in
          let n := (n + length r)%nat in
          s :: (if (limit <=? n)%nat then [] else last_parts limit n ms)
  end.

Definition lastRunes (msgs : list Message) (limit : nat) : string := Join " " (rev (last_parts limit 0 (rev msgs))).

Section checkpoint.
Context `{Unicode} `{JsonCodec Fact} `{JsonCodec Task}.

(** ** Facts that are versions of one another *)

Definition tokenSet (s : string) : gset string := list_to_set (tokenize s).

Definition fleb : float64 -> float64 -> bool := SFleb.
Definition ratio (a b : nat) : float64 := fdiv (f64_of_Z (Z.of_nat a)) (f64_of_Z (Z.of_nat b)).
Definition overlapFactThreshold : float64 := fdiv (f64_of_Z 8) (f64_of_Z 10).
Definition supersetThreshold : float64 := fdiv (f64_of_Z 9) (f64_of_Z 10).

Record best_fact := mkBest { b_fact : option Fact; b_cov : float64; b_covers : bool }.

Definition overlap_step (newSet : gset string) (b : best_fact) (f : Fact) : best_fact :=
  let oldSet := tokenSet (f_Content f) in
  if (size oldSet =? 0)%nat then b
  else
    let inter := size (oldSet ∩ newSet) in
    if (inter =? 0)%nat then b
    else
      let minLen := if (size newSet <? size oldSet)%nat then size newSet else size oldSet in
      let cov := ratio inter minLen in
      if fleb overlapFactThreshold cov && fltb (b_cov b) cov
      then mkBest (Some f) cov (fleb supersetThreshold (ratio inter (size oldSet)))
      else b.

Definition findOverlapFact (fs : list Fact) (newContent : string) : option (Fact * bool) :=
  let newSet := tokenSet newContent in
  if (size newSet =? 0)%nat then None
  else
    let b := foldl (overlap_step newSet) (mkBest None fzero false) fs in
    match b_fact b with
    | Some f => Some (f, b_covers b)
    | None => None
    end.

(** ** The decisions *)

(** The fact that an update writes. *)
Definition updated_fact (old : Fact) (content topic : string) : Fact :=
  mkFact (f_ID old) content (if String.eqb topic "" then f_Topic old else topic) (f_Source old) (f_CreatedAt old) 0.

Record decided := mkDecided {
  applied : nat;
  appliedFacts : list string;
  deletedFacts : list string;
  added : gset string;
  deleted : gset string;
}.

Definition count_fact (nf : Fact) (st : decided) : decided :=
  mkDecided (S (applied st)) (appliedFacts st ++ [factLine (f_Topic nf) (f_Content nf)]) (deletedFacts st) (added st) (deleted st).
Definition mark_added (key : string) (st : decided) : decided :=
  mkDecided (applied st) (appliedFacts st) (deletedFacts st) ({[key]} ∪ added st) (deleted st).
Definition count_deleted (old : Fact) (st : decided) : decided :=
  mkDecided (S (applied st)) (appliedFacts st) (deletedFacts st ++ [factLine (f_Topic old) (f_Content old)]) (added st) ({[f_ID old]} ∪ deleted st).

(** One decision: the state behind it, and whether the store failed. *)
Definition apply_decision (byID : gmap string Fact) (current : list Fact) (source : string) (now : Time) (d : Decision)
    (st : decided) : prog (decided * bool) :=
  if String.eqb (Action d) DecisionAdd then
    let key := ToLower (TrimSpace (d_Content d)) in
    if String.eqb key "" || duplicateContent current (d_Content d) || bool_decide (key ∈ added st) then Ret (st, true)
    else
      match findOverlapFact current (d_Content d) with
      | Some (old, newCovers) =>
          let st := mark_added key st in
          if newCovers then
            if bool_decide (f_ID old ∈ deleted st) then Ret (st, true)
            else
              let nf := updated_fact old (d_Content d) (d_Topic d) in
              Do (WUpdate nf) (fun ok => if ok : bool then Ret (count_fact nf st, true) else Ret (st, false))
          else Ret (st, true)
      | None =>
          let nf := mkFact "" (d_Content d) (d_Topic d) source now now in
          Do (WAdd nf) (fun ok => if ok : bool then Ret (count_fact nf (mark_added key st), true) else Ret (st, false))
      end
  else if String.eqb (Action d) DecisionUpdate then
    match byID !! d_ID d with
    | None => Ret (st, true)
    | Some old =>
        if String.eqb (TrimSpace (d_Content d)) "" || bool_decide (d_ID d ∈ deleted st) then Ret (st, true)
        else
          let nf := updated_fact old (d_Content d) (d_Topic d) in
          Do (WUpdate nf) (fun ok => if ok : bool then Ret (count_fact nf st, true) else Ret (st, false))
    end
  else if String.eqb (Action d) DecisionDelete then
    match byID !! d_ID d with
    | None => Ret (st, true)
    | Some old => Do (WDelete (d_ID d)) (fun ok => if ok : bool then Ret (count_deleted old st, true) else Ret (st, false))
    end
  else Ret (st, true).

Fixpoint apply_decisions (byID : gmap string Fact) (current : list Fact) (source : string) (now : Time) (ds : list Decision)
    (st : decided) : prog (decided * bool) :=
  match ds with
  | [] => Ret (st, true)
  | d :: ds' =>
      '(st, ok) ← apply_decision byID current source now d st;
      if ok : bool then apply_decisions byID current source now ds' st else Ret (st, false)
  end.

(** The map of a list by id: the last entry of an id counts. *)
Definition by_id {A} (id : A -> string) (l : list A) : gmap string A := foldl (fun m x => <[id x := x]> m) ∅ l.

Definition ApplyDecisions (ds : list Decision) (current : list Fact) (source : string) (now : Time) : prog (decided * bool) :=
  apply_decisions (by_id f_ID current) current source now ds (mkDecided 0 [] [] ∅ ∅).

(** ** The updates of the tasks *)

Definition merged_task (old : Task) (u : TaskUpdate) (runID : string) (tokens : Z) : Task :=
  mkTask (t_ID old) (t_Title old) (if u_Done u then "closed" else t_Status old) (t_Cwd old) (t_CreatedAt old) (t_UpdatedAt old)
    [runID] (mergeText (t_Summary old) (u_SummaryDelta u)) (u_KeyFiles u) (u_Commands u) (u_NextSteps u) (t_TokenUsage old + tokens).

Definition new_task (u : TaskUpdate) (runID : string) (tokens : Z) (cwd : string) (now : Time) : Task :=
  mkTask "" (u_Title u) (if u_Done u then "closed" else "open") cwd now 0 [runID] (u_SummaryDelta u) (u_KeyFiles u) (u_Commands u)
    (u_NextSteps u) tokens.

Record updating := mkUpdating {
  byTask : gmap string Task;
  existing : gmap string (string * bool);
  existingOrder : list string;
  sum : AppliedSummary;
}.

Definition add_task (title : string) (closed : bool) (s : AppliedSummary) : AppliedSummary :=
  if closed then mkSummary (UpdatedTasks s) (ClosedTasks s ++ [title]) (SFacts s) (DeletedFacts s)
  else mkSummary (UpdatedTasks s ++ [title]) (ClosedTasks s) (SFacts s) (DeletedFacts s).

Definition record_existing (u : TaskUpdate) (merged : Task) (st : updating) : updating :=
  mkUpdating (byTask st) (<[u_ID u := (t_Title merged, u_Done u)]> (existing st))
    (if bool_decide (is_Some (existing st !! u_ID u)) then existingOrder st else existingOrder st ++ [u_ID u]) (sum st).

Definition set_byTask (m : gmap string Task) (st : updating) : updating := mkUpdating m (existing st) (existingOrder st) (sum st).
Definition set_sum (s : AppliedSummary) (st : updating) : updating := mkUpdating (byTask st) (existing st) (existingOrder st) s.

Definition apply_update (runID : string) (tokens : Z) (cwd : string) (now : Time) (u : TaskUpdate) (st : updating) : prog (updating * bool) :=
  if negb (String.eqb (u_ID u) "") then
    match byTask st !! u_ID u with
    | None => Ret (st, true)
    | Some old =>
        let merged := merged_task old u runID tokens in
        let st := set_byTask (<[u_ID u := merged]> (byTask st)) st in
        Do (WUpsert merged) (fun ok => if ok : bool then Ret (record_existing u merged st, true) else Ret (st, false))
    end
  else
    let nt := new_task u runID tokens cwd now in
    Do (WUpsert nt) (fun ok => if ok : bool then Ret (set_sum (add_task (t_Title nt) (u_Done u) (sum st)) st, true) else Ret (st, false)).

Fixpoint apply_updates (runID : string) (tokens : Z) (cwd : string) (now : Time) (us : list TaskUpdate) (st : updating) : prog (updating * bool) :=
  match us with
  | [] => Ret (st, true)
  | u :: us' =>
      '(st, ok) ← apply_update runID tokens cwd now u st;
      if ok : bool then apply_updates runID tokens cwd now us' st else Ret (st, false)
  end.

(** The lines of the summary for the tasks that existed. *)
Definition list_existing (st : updating) : AppliedSummary :=
  foldl (fun s id => match existing st !! id with Some (title, closed) => add_task title closed s | None => add_task "" false s end)
    (sum st) (existingOrder st).

Definition ApplyCheckpoint (res : CheckpointResult) (openTasks : list Task) (fs : list Fact) (runID : string) (tokens : Z) (cwd : string)
    (now : Time) : prog (AppliedSummary * bool) :=
  '(st, ok) ← apply_updates runID tokens cwd now (Tasks res) (mkUpdating (by_id t_ID openTasks) ∅ [] (mkSummary [] [] [] []));
  if ok : bool then
    let s := list_existing st in
    '(dec, ok) ← ApplyDecisions (Decisions res) fs ("checkpoint:" +:+ runID) now;
    if ok : bool then Ret (mkSummary (UpdatedTasks s) (ClosedTasks s) (appliedFacts dec) (deletedFacts dec), true) else Ret (s, false)
  else Ret (sum st, false).
End checkpoint.

(** ** Checkpoints as threads *)

Section threads.
Context `{Unicode} `{JsonCodec Fact} `{JsonCodec Task} (decode : string -> option CheckpointResult).

Definition checkpointFactRecall : Z := 20.
Definition recallFactQueryLen : nat := 4000.

Record CheckpointOptions := mkOptions { LtmExtract : bool; TokenUsage : Z; CWD : string }.

Definition recallFacts (now : Time) (conversation : list Message) (s : FileStore) : list Fact :=
  let query := lastRunes conversation recallFactQueryLen in
  if String.eqb (TrimSpace query) "" then [] else SearchFacts now query checkpointFactRecall s.

Inductive cp_result : Type :=
  | RNothing
  | RCancelled
  | RFailed
  | RApplied (s : AppliedSummary).

Inductive cp_pc : Type :=
  | PWait
  | PHeld
  | PRecall (openTasks : list Task)
  | PList (openTasks : list Task)
  | PAsk (openTasks : list Task) (fs : list Fact)
  | PApply (openTasks : list Task) (fs : list Fact) (p : prog (AppliedSummary * bool))
  | PRelease (r : cp_result)
  | PDone (r : cp_result).

(** [c_seen] and [c_wrote] are ghosts: the store when the semaphore was taken,
    and what the checkpoint has written since. *)
Record cp_thread := mkThread {
  c_id : string;
  c_conv : list Message;
  c_opts : CheckpointOptions;
  c_pc : cp_pc;
  c_seen : FileStore;
  c_wrote : list (weather * write);
}.

Definition goto (pc : cp_pc) (c : cp_thread) : cp_thread := mkThread (c_id c) (c_conv c) (c_opts c) pc (c_seen c) (c_wrote c).

Definition wrote (e : weather) (w : write) (c : cp_thread) : cp_thread :=
  mkThread (c_id c) (c_conv c) (c_opts c) (c_pc c) (c_seen c) (c_wrote c ++ [(e, w)]).

Definition take_semaphore (s : FileStore) (c : cp_thread) : cp_thread := mkThread (c_id c) (c_conv c) (c_opts c) PHeld s [].

(** What a step meets: the semaphore or the cancelled context, the clock, the
    answer of the model ([None]: an error or no choice), the disk. *)
Inductive cp_input : Type :=
  | IStep (now : Time)
  | ICancel
  | IAnswer (text : option string) (now : Time)
  | IWrite (e : weather).

Definition keep_decisions (ltm : bool) (res : CheckpointResult) : CheckpointResult :=
  if ltm then res else mkCheckpointResult (Tasks res) [].

Definition cp_step (k : nat) (i : cp_input) (c : cp_thread) (sem : option nat) (s : FileStore)
    : option (cp_thread * option nat * FileStore) :=
  match c_pc c, i with
  | PWait, IStep _ => match sem with None => Some (take_semaphore s c, Some k, s) | Some _ => None end
  | PWait, ICancel => Some (goto (PDone RCancelled) c, sem, s)
  | PHeld, IStep _ =>
      match c_conv c with
      | [] => Some (goto (PRelease RNothing) c, sem, s)
      | _ => Some (goto (PRecall (OpenTasks 50 s)) c, sem, s)
      end
  | PRecall open, IStep now =>
      match recallFacts now (c_conv c) s with
      | [] => Some (goto (PList open) c, sem, s)
      | fs => Some (goto (PAsk open fs) c, sem, s)
      end
  | PList open, IStep _ => Some (goto (PAsk open (ListFacts 10 s)) c, sem, s)
  | PAsk open fs, IAnswer text now =>
      match text ≫= parseCheckpoint decode with
      | None => Some (goto (PRelease RFailed) c, sem, s)
      | Some res =>
          let res := keep_decisions (LtmExtract (c_opts c)) res in
          Some (goto (PApply open fs (ApplyCheckpoint res open fs (c_id c) (TokenUsage (c_opts c)) (CWD (c_opts c)) now)) c, sem, s)
      end
  | PApply open fs (Do w p), IWrite e =>
      let '(s', r) := apply_write e w s in Some (goto (PApply open fs (p r)) (wrote e w c), sem, s')
  | PApply _ _ (Ret (sum, ok)), IStep _ => Some (goto (PRelease (if ok then RApplied sum else RFailed)) c, sem, s)
  | PRelease r, IStep _ => Some (goto (PDone r) c, None, s)
  | _, _ => None
  end.

Record world := mkWorld {
  w_store : FileStore;
  w_sem : option nat;
  w_threads : gmap nat cp_thread;
}.

(** [quiet]: nobody but the checkpoints writes. *)
Inductive step (quiet : bool) (w : world) : world -> Prop :=
  | step_start k id conv opts :
      w_threads w !! k = None ->
      step quiet w (mkWorld (w_store w) (w_sem w) (<[k := mkThread id conv opts PWait (w_store w) []]> (w_threads w)))
  | step_thread k i c c' sem' s' :
      w_threads w !! k = Some c -> cp_step k i c (w_sem w) (w_store w) = Some (c', sem', s') ->
      step quiet w (mkWorld s' sem' (<[k := c']> (w_threads w)))
  | step_user e u s' r :
      quiet = false -> apply_write e u (w_store w) = (s', r) ->
      step quiet w (mkWorld s' (w_sem w) (w_threads w)).

Definition init (w : world) : Prop := w_sem w = None /\ w_threads w = ∅.
End threads.
