(* ===== verification/MemoryCheckpointProps.v ===== *)
(** * ai-memory: theorems of the checkpoints

    One checkpoint at a time works on what it saw; it touches what it was shown
    and nothing else; each task it updates is extended, not replaced; what a
    model answers is bounded before it is stored. *)

From stdpp Require Import relations.
From S2P Require Import Prelude GoString GoUtf8 GoPath GoSort GoFloat JsonLines ScanJsonl MemorySearch MemoryStore MemoryCheckpoint.
#[local] Open Scope string_scope.
#[local] Open Scope list_scope.

(** ** Bounds on what is stored *)

Lemma first_runes_bound n s : runeLen (first_runes n s) <= n.
Proof.
  unfold first_runes. destruct (Nat.ltb_spec n (length (rune_list s))) as [Hl|Hl].
  - rewrite runeLen_of_runes, length_take. lia.
  - unfold rune_list in Hl. rewrite length_fmap in Hl. exact Hl.
Qed.

(** C40: an answer is bounded. Of an answer that parses, an update names a task or
    gives a title, and its summary has 4000 runes at most; a decision is one of
    the four, and its content has 2000 runes at most. *)
Theorem an_answer_is_bounded decode s res :
  parseCheckpoint decode s = Some res ->
  Forall (fun u => (u_ID u <> "" \/ TrimSpace (u_Title u) <> "") /\ runeLen (u_SummaryDelta u) <= 4000) (Tasks res)
  /\ Forall (fun d => validAction (Action d) = true /\ runeLen (d_Content d) <= maxFactContentRunes) (Decisions res).
Proof.
  unfold parseCheckpoint. destruct (_ || _); [intros [= <-]; split; constructor|].
  destruct (json_window _) as [w|]; [|done]. cbn. destruct (decode w) as [out|]; [|done]. cbn. intros [= <-]. cbn. split.
  - rewrite Forall_forall. intros u (u0 & _ & Hv)%list_elem_of_omap. unfold valid_update in Hv.
    destruct (String.eqb_spec (u_ID u0) "") as [E1|E1], (String.eqb_spec (TrimSpace (u_Title u0)) "") as [E2|E2]; cbn in Hv;
      try done; injection Hv as <-; cbn; (split; [auto|apply first_runes_bound]).
  - rewrite Forall_forall. intros d (d0 & _ & Hv)%list_elem_of_omap. unfold valid_decision in Hv.
    destruct (validAction (Action d0)) eqn:E; [|done]. injection Hv as <-. split; [done|apply first_runes_bound].
Qed.

Lemma last_parts_bound limit n ms : n <= limit -> n + sum_list (runeLen <$> last_parts limit n ms) <= limit.
Proof.
  revert n. induction ms as [|m ms IH]; intros n Hn; cbn [last_parts]; [cbn; lia|].
  destruct (String.eqb (Role m) "system"); [by apply IH|]. cbv zeta. destruct (String.eqb _ ""); [by apply IH|].
  destruct (Nat.ltb_spec limit (n + length (rune_list (TrimSpace (Content m))))) as [Hl|Hl].
  - cbn [fmap list_fmap sum_list]. rewrite runeLen_of_runes.
    set (r := rune_list (TrimSpace (Content m))) in *.
    assert (Ht : length (take (limit - n) r) = limit - n) by (rewrite length_take; apply Nat.min_l; lia).
    rewrite Ht. destruct (Nat.leb_spec limit (n + (limit - n))); [|lia]. unfold id. cbn. lia.
  - cbn [fmap list_fmap sum_list]. assert (E : runeLen (TrimSpace (Content m)) = length (rune_list (TrimSpace (Content m))))
      by (unfold runeLen, rune_list; by rewrite length_fmap). rewrite E.
    destruct (_ <=? _)%nat; [unfold id; cbn; lia|]. specialize (IH _ Hl). cbn in IH |- *. lia.
Qed.

(** ** What a program writes *)

Inductive all_writes {A} (P : write -> Prop) : prog A -> Prop :=
  | aw_ret a : all_writes P (Ret a)
  | aw_do w k : P w -> (forall r, all_writes P (k r)) -> all_writes P (Do w k).

Lemma all_writes_bind {A B} P (p : prog A) (f : A -> prog B) :
  all_writes P p -> (forall a, all_writes P (f a)) -> all_writes P (p ≫= f).
Proof. intros Hp Hf. induction Hp as [a|w k Hw _ IH]; cbn; [apply Hf|]. constructor; [done|exact IH]. Qed.

Section props.
Context `{Unicode} `{JsonCodec Fact} `{JsonCodec Task}.

(** What a checkpoint that was shown these tasks and facts may write. *)
Definition shown (openTasks : list Task) (fs : list Fact) (w : write) : Prop :=
  match w with
  | WAdd f => f_ID f = ""
  | WUpdate f => f_ID f ∈ f_ID <$> fs
  | WDelete id => id ∈ f_ID <$> fs
  | WUpsert t => t_ID t = "" \/ t_ID t ∈ t_ID <$> openTasks
  | WClose _ => False
  end.

Lemma by_id_from {A} (id : A -> string) l (m : gmap string A) i x :
  foldl (fun m x => <[id x := x]> m) m l !! i = Some x -> (x ∈ l /\ id x = i) \/ m !! i = Some x.
Proof.
  revert m. induction l as [|y l IH]; intros m; cbn [foldl]; [by right|]. intros [[? ?]|Hl]%IH; [left; split; [by right|done]|].
  apply lookup_insert_Some in Hl as [[<- <-]|[_ Hl]]; [left; split; [by left|done]|by right].
Qed.

Lemma by_id_in {A} (id : A -> string) l i x : by_id id l !! i = Some x -> x ∈ l /\ id x = i.
Proof. intros [?|E]%by_id_from; [done|]. by rewrite lookup_empty in E. Qed.

Lemma overlap_in newSet fs b f : b_fact (foldl (overlap_step newSet) b fs) = Some f -> f ∈ fs \/ b_fact b = Some f.
Proof.
  revert b. induction fs as [|g fs IH]; intros b; cbn [foldl]; [by right|]. intros [?|E]%IH; [left; by right|].
  unfold overlap_step in E. destruct (_ =? 0)%nat; [by right|]. cbv zeta in E. destruct (_ =? 0)%nat; [by right|].
  destruct (_ && _); [|by right]. cbn in E. injection E as <-. left. by left.
Qed.

Lemma findOverlapFact_in fs content f covers : findOverlapFact fs content = Some (f, covers) -> f ∈ fs.
Proof.
  unfold findOverlapFact. cbv zeta. destruct (_ =? 0)%nat; [done|]. destruct (b_fact _) as [g|] eqn:E; [|done].
  intros [= <- _]. apply overlap_in in E as [?|?]; done.
Qed.

Lemma decision_writes (P : write -> Prop) fs source now d st :
  (forall f, f_ID f = "" -> P (WAdd f)) -> (forall f, f_ID f ∈ f_ID <$> fs -> P (WUpdate f)) ->
  (forall id, id ∈ f_ID <$> fs -> P (WDelete id)) ->
  all_writes P (apply_decision (by_id f_ID fs) fs source now d st).
Proof.
  intros Pa Pu Pd. assert (Hin : forall f, f ∈ fs -> f_ID f ∈ f_ID <$> fs) by (intros f Hf; apply list_elem_of_fmap; by exists f).
  unfold apply_decision. destruct (String.eqb (Action d) DecisionAdd); [|destruct (String.eqb (Action d) DecisionUpdate); [|destruct (String.eqb (Action d) DecisionDelete)]].
  - cbv zeta. destruct (_ || _); [constructor|]. destruct (findOverlapFact _ _) as [[old cov]|] eqn:E.
    + apply findOverlapFact_in in E. destruct cov; [|constructor]. case_bool_decide; [constructor|].
      constructor; [exact (Pu (updated_fact old _ _) (Hin _ E))|]. intros []; constructor.
    + constructor; [by apply Pa|]. intros []; constructor.
  - destruct (by_id f_ID fs !! d_ID d) as [old|] eqn:E; [|constructor]. apply by_id_in in E as [E _].
    destruct (_ || _); [constructor|]. constructor; [exact (Pu (updated_fact old _ _) (Hin _ E))|]. intros []; constructor.
  - destruct (by_id f_ID fs !! d_ID d) as [old|] eqn:E; [|constructor]. apply by_id_in in E as [E <-].
    constructor; [by apply Pd, Hin|]. intros []; constructor.
  - constructor.
Qed.

Lemma decisions_writes (P : write -> Prop) fs source now ds st :
  (forall f, f_ID f = "" -> P (WAdd f)) -> (forall f, f_ID f ∈ f_ID <$> fs -> P (WUpdate f)) ->
  (forall id, id ∈ f_ID <$> fs -> P (WDelete id)) ->
  all_writes P (apply_decisions (by_id f_ID fs) fs source now ds st).
Proof.
  intros Pa Pu Pd. revert st. induction ds as [|d ds IH]; intros st; cbn [apply_decisions]; [constructor|].
  apply all_writes_bind; [by apply decision_writes|]. intros [st' []]; [apply IH|constructor].
Qed.

(** The map of the updates stays a map of what was shown. *)
Definition map_shown (open : list Task) (m : gmap string Task) : Prop :=
  forall i t, m !! i = Some t -> t_ID t = i /\ i ∈ t_ID <$> open.

Lemma updates_shown open fs runID tokens cwd now us st :
  map_shown open (byTask st) -> all_writes (shown open fs) (apply_updates runID tokens cwd now us st).
Proof.
  revert st. induction us as [|u us IH]; intros st Hm; cbn [apply_updates]; [constructor|].
  unfold apply_update. destruct (negb _).
  - destruct (byTask st !! u_ID u) as [old|] eqn:E; [|by apply IH]. destruct (Hm _ _ E) as [Hid Hin].
    assert (Hm' : map_shown open (<[u_ID u := merged_task old u runID tokens]> (byTask st))).
    { intros i t [[<- <-]|[_ Hl]]%lookup_insert_Some; [split; [exact Hid|exact Hin]|by apply Hm]. }
    constructor; [right; cbn; by rewrite Hid|]. intros []; [by apply IH|constructor].
  - constructor; [by left|]. intros []; [by apply IH|constructor].
Qed.

Lemma checkpoint_shown res open fs runID tokens cwd now :
  all_writes (shown open fs) (ApplyCheckpoint res open fs runID tokens cwd now).
Proof.
  unfold ApplyCheckpoint. apply all_writes_bind.
  - apply updates_shown. intros i t E. cbn in E. apply by_id_in in E as [Hin <-]. split; [done|]. apply list_elem_of_fmap. by exists t.
  - intros [st []]; [|constructor]. apply all_writes_bind; [by apply decisions_writes|]. intros [dec []]; constructor.
Qed.

(** ** What a write leaves alone *)

Lemma update_first_keeps {A} (p : A -> bool) g l l' x : update_first p g l = Some l' -> x ∈ l -> p x = false -> x ∈ l'.
Proof.
  intros (l1 & y & l2 & -> & -> & Hp & _)%update_first_spec. rewrite !elem_of_app, !elem_of_cons. intros [?|[->|?]] Hx; [by left|congruence|by right; right].
Qed.

Lemma save_facts_lists ok s : facts (saveFactsLocked ok s).1 = facts s /\ tasks (saveFactsLocked ok s).1 = tasks s /\ taskKeep (saveFactsLocked ok s).1 = taskKeep s.
Proof. unfold saveFactsLocked. by destruct (writeJSONL _ _ _). Qed.

Lemma save_tasks_lists ok s : facts (saveTasksLocked ok s).1 = facts s /\ tasks (saveTasksLocked ok s).1 = tasks s /\ taskKeep (saveTasksLocked ok s).1 = taskKeep s.
Proof. unfold saveTasksLocked. by destruct (writeJSONL _ _ _). Qed.

Lemma trim_lists ok s : facts (trimAndSaveLocked ok s).1 = facts s /\ tasks (trimAndSaveLocked ok s).1 = trimmed (taskKeep s) (tasks s)
  /\ taskKeep (trimAndSaveLocked ok s).1 = taskKeep s.
Proof.
  unfold trimAndSaveLocked, trimmed. destruct (_ && _); by destruct (save_tasks_lists ok (with_tasks (take (Z.to_nat (taskKeep s)) (SliceStable newer_task (tasks s))) s)) as (? & ? & ?), (save_tasks_lists ok s) as (? & ? & ?).
Qed.

(** The lists behind a write. *)
Definition facts_after (e : weather) (w : write) (s : FileStore) : list Fact := facts (apply_write e w s).1.
Definition tasks_after (e : weather) (w : write) (s : FileStore) : list Task := tasks (apply_write e w s).1.

Lemma write_keeps_fact e w s open fs f :
  shown open fs w -> f ∈ facts s -> f_ID f ∉ f_ID <$> fs -> f ∈ facts_after e w s.
Proof.
  intros Hw Hf Hn. unfold facts_after. destruct w; cbn [apply_write shown] in *.
  - unfold AddFact. destruct (duplicateContent _ _); [done|]. rewrite (proj1 (save_facts_lists _ _)). cbn. apply elem_of_app. by left.
  - unfold UpdateFact. destruct (update_first _ _ _) eqn:E; [|done]. rewrite (proj1 (save_facts_lists _ _)). cbn.
    eapply update_first_keeps; [exact E|done|]. apply String.eqb_neq. by intros Eid; rewrite Eid in Hn.
  - unfold DeleteFact. destruct (_ =? _)%nat; [done|]. rewrite (proj1 (save_facts_lists _ _)). cbn.
    apply list_elem_of_In, filter_In. split; [by apply list_elem_of_In|]. apply negb_true_iff, String.eqb_neq. by intros Eid; rewrite Eid in Hn.
  - unfold UpsertTask. destruct (String.eqb _ ""); [by rewrite (proj1 (trim_lists _ _))|].
    destruct (update_first _ _ _); [by rewrite (proj1 (trim_lists _ _))|done].
  - done.
Qed.

Lemma trimmed_off keep ts : (keep <= 0)%Z -> trimmed keep ts = ts.
Proof. intros Hk. unfold trimmed. by rewrite (proj2 (Z.ltb_ge 0 keep) Hk). Qed.

Lemma write_keeps_task e w s open fs t :
  shown open fs w -> (taskKeep s <= 0)%Z -> t ∈ tasks s -> t_ID t ∉ t_ID <$> open -> t ∈ tasks_after e w s.
Proof.
  intros Hw Hk Ht Hn. unfold tasks_after. destruct w as [f|f|id|u|id]; cbn [apply_write shown] in *.
  - unfold AddFact. destruct (duplicateContent _ _); [done|]. by rewrite (proj1 (proj2 (save_facts_lists _ _))).
  - unfold UpdateFact. destruct (update_first _ _ _); [|done]. by rewrite (proj1 (proj2 (save_facts_lists _ _))).
  - unfold DeleteFact. destruct (_ =? _)%nat; [done|]. by rewrite (proj1 (proj2 (save_facts_lists _ _))).
  - unfold UpsertTask. destruct (String.eqb_spec (t_ID u) "") as [Eu|Eu].
    + rewrite (proj1 (proj2 (trim_lists _ _))). cbn. rewrite trimmed_off by done. apply elem_of_app. by left.
    + destruct Hw as [?|Hw]; [done|]. destruct (update_first _ _ _) eqn:E; [|done].
      rewrite (proj1 (proj2 (trim_lists _ _))). cbn. rewrite trimmed_off by done.
      eapply update_first_keeps; [exact E|done|]. apply String.eqb_neq. by intros Eid; rewrite Eid in Hn.
  - done.
Qed.

Lemma apply_writes_snoc ws e w s : (apply_writes (ws ++ [(e, w)]) s).1 = (apply_write e w (apply_writes ws s).1).1.
Proof.
  revert s. induction ws as [|[e0 w0] ws IH]; intros s; cbn.
  - by destruct (apply_write e w s).
  - destruct (apply_write e0 w0 s) as [s1 r1]. specialize (IH s1). destruct (apply_writes (ws ++ _) s1), (apply_writes ws s1). done.
Qed.
End props.

(** ** The checkpoints as threads *)

Section threads.
Context `{Unicode} `{JsonCodec Fact} `{JsonCodec Task} (decode : string -> option CheckpointResult).

Definition holds (c : cp_thread) : bool := match c_pc c with PWait | PDone _ => false | _ => true end.

(** What was read of a store: the open tasks, and the facts recalled or listed. *)
Definition read_of (conv : list Message) (s : FileStore) (open : list Task) (fs : list Fact) : Prop :=
  open = OpenTasks 50 s
  /\ exists now, fs = match recallFacts now conv s with [] => ListFacts 10 s | recalled => recalled end.

(** What a thread that holds the semaphore has written, and what it may write. *)
Definition writes_ok (c : cp_thread) : Prop :=
  match c_pc c with
  | PHeld | PRecall _ | PList _ | PAsk _ _ => c_wrote c = []
  | PApply open fs p => all_writes (shown open fs) p /\ Forall (fun ew => shown open fs ew.2) (c_wrote c)
  | _ => True
  end.

(** What it knows of the store it saw. *)
Definition knows (c : cp_thread) : Prop :=
  match c_pc c with
  | PRecall open => open = OpenTasks 50 (c_seen c)
  | PList open => open = OpenTasks 50 (c_seen c) /\ exists now, recallFacts now (c_conv c) (c_seen c) = []
  | PAsk open fs | PApply open fs _ => read_of (c_conv c) (c_seen c) open fs
  | _ => True
  end.

(** The store is the one it saw with its own writes. *)
Definition alone (c : cp_thread) (s : FileStore) : Prop := (apply_writes (c_wrote c) (c_seen c)).1 = s /\ knows c.

Record inv (quiet : bool) (w : world) : Prop := {
  i_sem : forall k c, w_threads w !! k = Some c -> holds c = true -> w_sem w = Some k;
  i_writes : forall k c, w_threads w !! k = Some c -> writes_ok c;
  i_alone : quiet = true -> forall k c, w_threads w !! k = Some c -> holds c = true -> alone c (w_store w);
}.

(** What one step of a thread does. *)
Record cp_stepped (k : nat) (c c' : cp_thread) (sem sem' : option nat) (s s' : FileStore) : Prop := {
  st_holds : holds c' = true -> sem' = Some k;
  st_sem : sem' = sem \/ (sem = None /\ sem' = Some k) \/ (sem = Some k /\ sem' = None);
  st_writes : writes_ok c';
  st_store : s' = s \/ (sem = Some k /\ exists open fs w q e, c_pc c = PApply open fs (Do w q) /\ shown open fs w /\ s' = (apply_write e w s).1);
  st_alone : (holds c = true -> alone c s) -> holds c' = true -> alone c' s';
}.

Lemma unwritten c s : alone c s -> c_wrote c = [] -> c_seen c = s.
Proof. intros [Hs _] E. by rewrite E in Hs. Qed.

Lemma cp_step_spec k i c sem s c' sem' s' :
  cp_step decode k i c sem s = Some (c', sem', s') ->
  (holds c = true -> sem = Some k) -> writes_ok c ->
  cp_stepped k c c' sem sem' s s'.
Proof.
  unfold cp_step. intros E Hsem Hw. unfold writes_ok in Hw.
  assert (Hh : (match c_pc c with PWait | PDone _ => false | _ => true end) = true -> holds c = true) by (by intros ?).
  destruct (c_pc c) as [| |open|open|open fs|open fs p|r|r] eqn:Ep; try (destruct i; discriminate);
    try (specialize (Hh eq_refl); specialize (Hsem Hh)).
  - destruct i; try discriminate; [destruct sem; [discriminate|]|]; injection E as <- <- <-; split; auto; done.
  - destruct i; try discriminate. destruct (c_conv c) as [|m ms] eqn:Ec; injection E as <- <- <-; split; auto; try done.
    + intros Ha _. by destruct (Ha Hh).
    + intros Ha _. destruct (Ha Hh) as [Hs _]. split; [done|]. cbn. by rewrite (unwritten _ _ (Ha Hh) Hw).
  - destruct i as [now| | |]; try discriminate. destruct (recallFacts now (c_conv c) s) as [|f fs] eqn:Er; injection E as <- <- <-; split; auto; try done;
      intros Ha _; destruct (Ha Hh) as [Hs Hk]; unfold knows in Hk; rewrite Ep in Hk; (split; [done|]); cbn;
      rewrite <- (unwritten _ _ (Ha Hh) Hw) in Er; (split; [done|]); exists now; by rewrite Er.
  - destruct i; try discriminate. injection E as <- <- <-; split; auto; try done.
    intros Ha _. destruct (Ha Hh) as [Hs Hk]. unfold knows in Hk. rewrite Ep in Hk. destruct Hk as (Ho & now' & Hr). split; [done|]. cbn.
    rewrite <- (unwritten _ _ (Ha Hh) Hw). split; [done|]. exists now'. by rewrite Hr.
  - destruct i as [| |text now|]; try discriminate.
    destruct (text ≫= parseCheckpoint decode) as [res|]; injection E as <- <- <-; split; auto; try done.
    + cbn. split; [apply checkpoint_shown|]. rewrite Hw. constructor.
    + intros Ha _. destruct (Ha Hh) as [Hs Hk]. unfold knows in Hk. rewrite Ep in Hk. by split.
    + intros Ha _. by destruct (Ha Hh).
  - destruct Hw as [Hp Hf]. destruct p as [[sum ok]|w q].
    + destruct i; try discriminate. injection E as <- <- <-; split; auto; try done. intros Ha _. by destruct (Ha Hh).
    + destruct i as [| | |e]; try discriminate. destruct (apply_write e w s) as [s1 r1] eqn:Ew. injection E as <- <- <-.
      inversion Hp as [|? ? Hs Hq]; subst. split; auto; try done.
      * cbn. split; [apply Hq|]. apply Forall_app. split; [done|]. by constructor.
      * right. split; [done|]. exists open, fs, w, q, e. by rewrite Ew.
      * intros Ha _. destruct (Ha Hh) as [Hst Hk]. unfold knows in Hk. rewrite Ep in Hk. split; [|done]. cbn.
        rewrite apply_writes_snoc, Hst. by rewrite Ew.
  - destruct i; try discriminate. injection E as <- <- <-; split; auto; done.
Qed.

Lemma checkpoints_step quiet w w' : inv quiet w -> step decode quiet w w' -> inv quiet w'.
Proof.
  intros [Hs Hw Ha] [k id conv opts Hnew|k i c c' sem' s' Hk Hc|e u s' r Hu Hap]; split; cbn.
  - intros k' c' [[<- <-]|[_ Hl]]%lookup_insert_Some; [done|by apply Hs].
  - intros k' c' [[<- <-]|[_ Hl]]%lookup_insert_Some; [done|by eapply Hw].
  - intros Hq k' c' [[<- <-]|[_ Hl]]%lookup_insert_Some; [done|by eapply Ha].
  - pose proof (cp_step_spec _ _ _ _ _ _ _ _ Hc (Hs k c Hk) (Hw k c Hk)) as Hst.
    intros k' c1 [[<- <-]|[Hne Hl]]%lookup_insert_Some Hh; [by apply (st_holds _ _ _ _ _ _ _ Hst)|].
    pose proof (Hs _ _ Hl Hh) as E. destruct (st_sem _ _ _ _ _ _ _ Hst) as [->|[[? _]|[? _]]]; congruence.
  - pose proof (cp_step_spec _ _ _ _ _ _ _ _ Hc (Hs k c Hk) (Hw k c Hk)) as Hst.
    intros k' c1 [[<- <-]|[Hne Hl]]%lookup_insert_Some; [by apply (st_writes _ _ _ _ _ _ _ Hst)|by eapply Hw].
  - pose proof (cp_step_spec _ _ _ _ _ _ _ _ Hc (Hs k c Hk) (Hw k c Hk)) as Hst.
    intros Hq k' c1 [[<- <-]|[Hne Hl]]%lookup_insert_Some Hh.
    + apply (st_alone _ _ _ _ _ _ _ Hst); [|done]. by apply (Ha Hq k).
    + pose proof (Hs _ _ Hl Hh) as E. destruct (st_store _ _ _ _ _ _ _ Hst) as [->|[? _]]; [by eapply Ha|congruence].
  - done.
  - done.
  - intros Hq. congruence.
Qed.

Lemma inv_runs quiet w w' : init w -> rtc (step decode quiet) w w' -> inv quiet w'.
Proof.
  intros [Es Et] Hr. assert (Hi : inv quiet w) by (split; rewrite Et; intros; done).
  clear Es Et. induction Hr; [done|]. by eauto using checkpoints_step.
Qed.

(** checkpoints do not overlap. While only checkpoints write, at most one of
    them holds the semaphore, and the one that applies its answer finds the store
    as it saw it, with its own writes on top: what the model was shown are the
    open tasks of that store and the facts recalled from it, or the latest ones
    where nothing was recalled, and it writes only to these or new entries. *)
Theorem a_checkpoint_works_on_what_it_saw w w' k c open fs p :
  init w -> rtc (step decode true) w w' ->
  w_threads w' !! k = Some c -> c_pc c = PApply open fs p ->
  read_of (c_conv c) (c_seen c) open fs
  /\ w_store w' = (apply_writes (c_wrote c) (c_seen c)).1
  /\ Forall (fun ew => shown open fs ew.2) (c_wrote c) /\ all_writes (shown open fs) p
  /\ forall k' c', w_threads w' !! k' = Some c' -> k' <> k -> holds c' = false.
Proof.
  intros Hi Hr Hl Hpc. pose proof (inv_runs _ _ _ Hi Hr) as [Hs Hw Ha].
  assert (Hh : holds c = true) by (unfold holds; by rewrite Hpc).
  destruct (Ha eq_refl _ _ Hl Hh) as [Hst Hk]. unfold knows in Hk. rewrite Hpc in Hk.
  pose proof (Hw _ _ Hl) as Hwr. unfold writes_ok in Hwr. rewrite Hpc in Hwr. destruct Hwr as [Hp Hf].
  split_and!; [done|done|done|done|]. intros k' c' Hl' Hne. destruct (holds c') eqn:E; [|done].
  pose proof (Hs _ _ Hl Hh). pose proof (Hs _ _ Hl' E). congruence.
Qed.

(** A checkpoint leaves alone what it was not shown. In whatever way
    checkpoints and the user's commands are interleaved, a step of a checkpoint
    removes and changes no fact but those it was shown; the same holds of the
    tasks where no limit on their number makes the store trim them. *)
Theorem a_checkpoint_leaves_the_rest_alone quiet w w' k i c c' sem' s' :
  init w -> rtc (step decode quiet) w w' ->
  w_threads w' !! k = Some c -> cp_step decode k i c (w_sem w') (w_store w') = Some (c', sem', s') ->
  let shows_fact id := exists open fs p, c_pc c = PApply open fs p /\ id ∈ f_ID <$> fs in
  let shows_task id := exists open fs p, c_pc c = PApply open fs p /\ id ∈ t_ID <$> open in
  (forall f, f ∈ facts (w_store w') -> ~ shows_fact (f_ID f) -> f ∈ facts s')
  /\ ((taskKeep (w_store w') <= 0)%Z -> forall t, t ∈ tasks (w_store w') -> ~ shows_task (t_ID t) -> t ∈ tasks s').
Proof.
  intros Hi Hr Hl Hc shows_fact shows_task. pose proof (inv_runs _ _ _ Hi Hr) as [Hs Hw _].
  pose proof (cp_step_spec _ _ _ _ _ _ _ _ Hc (Hs _ _ Hl) (Hw _ _ Hl)) as Hst.
  destruct (st_store _ _ _ _ _ _ _ Hst) as [->|(_ & open & fs & u & q & e & Hpc & Hsh & ->)]; [by split; auto|]. split.
  - intros f Hf Hn. eapply write_keeps_fact; [exact Hsh|done|]. intros Hin. apply Hn. by exists open, fs, (Do u q).
  - intros Hk t Ht Hn. eapply write_keeps_task; [exact Hsh|done|done|]. intros Hin. apply Hn. by exists open, fs, (Do u q).
Qed.
End threads.
