(* ===== verification/MemoryCheckpointTasks.v ===== *)
(** * ai-memory/checkpoint.go: what a checkpoint makes of the tasks

    A program run to its end over a store, the extension of the tasks by a list
    of updates, and runs that show where the answer of a model is applied in a
    way the comments exclude. *)

From S2P Require Import Prelude GoString GoUtf8 GoPath GoSort GoFloat JsonLines ScanJsonl MemorySearch MemoryStore MemoryCheckpoint MemoryCheckpointProps.
#[local] Open Scope string_scope.
#[local] Open Scope list_scope.

Section tasks.
Context `{Unicode} `{JsonCodec Fact} `{JsonCodec Task}.

(** A program alone with the store; [e] is what its writes meet. *)
Fixpoint exec {A} (e : nat -> weather) (p : prog A) (s : FileStore) : FileStore * A :=
  match p with
  | Ret a => (s, a)
  | Do w k => let '(s', r) := apply_write (e 0) w s in exec (fun n => e (S n)) (k r) s'
  end.

(** The update that names a task, and the task it makes of it. *)
Definition names (t : Task) (u : TaskUpdate) : bool := negb (String.eqb (u_ID u) "") && String.eqb (u_ID u) (t_ID t).

Definition extended (u : TaskUpdate) (runID : string) (tokens : Z) (t t' : Task) : Prop :=
  t_ID t' = t_ID t /\ t_Title t' = t_Title t /\ t_CreatedAt t' = t_CreatedAt t
  /\ t_Status t' = (if u_Done u then "closed" else t_Status t)
  /\ t_Runs t' = t_Runs t ++ [runID] /\ t_TokenUsage t' = (t_TokenUsage t + tokens)%Z
  /\ t_Summary t' = mergeText (t_Summary t) (u_SummaryDelta u)
  /\ t_KeyFiles t' = u_KeyFiles u /\ t_Commands t' = u_Commands u /\ t_NextSteps t' = u_NextSteps u.

Definition extended_by (open : list Task) (us : list TaskUpdate) (runID : string) (tokens : Z) (t t' : Task) : Prop :=
  match find_first (names t) us with
  | Some u => if decide (t_ID t ∈ t_ID <$> open) then extended u runID tokens t t' else t' = t
  | None => t' = t
  end.

Definition named_ids (us : list TaskUpdate) : list string := List.filter (fun i => negb (String.eqb i "")) (u_ID <$> us).
Definition new_ones (us : list TaskUpdate) : list TaskUpdate := List.filter (fun u => String.eqb (u_ID u) "") us.

(** The map of the tasks still to be updated is that of the shown ones. *)
Definition pending (open : list Task) (m : gmap string Task) (us : list TaskUpdate) (s : FileStore) : Prop :=
  forall u, u ∈ us -> u_ID u <> "" ->
    match m !! u_ID u with
    | Some t => t_ID t = u_ID u /\ t ∈ tasks s /\ u_ID u ∈ t_ID <$> open
    | None => u_ID u ∉ t_ID <$> open
    end.

Lemma upsert_new e t s : t_ID t = "" -> (taskKeep s <= 0)%Z ->
  tasks_after e (WUpsert t) s = tasks s ++ [stamp_new (at_time e) (fresh_id e) t]
  /\ taskKeep (apply_write e (WUpsert t) s).1 = taskKeep s.
Proof.
  intros Ht Hk. unfold tasks_after. cbn [apply_write]. unfold UpsertTask. rewrite (proj2 (String.eqb_eq _ _) Ht).
  destruct (trim_lists (disk_ok e) (with_tasks (tasks s ++ [stamp_new (at_time e) (fresh_id e) t]) s)) as (_ & -> & ->).
  by rewrite trimmed_off.
Qed.

Lemma upsert_old e t s old l1 l2 : tasks s = l1 ++ old :: l2 -> NoDup (t_ID <$> tasks s) -> t_ID t = t_ID old -> t_ID t <> "" -> (taskKeep s <= 0)%Z ->
  tasks_after e (WUpsert t) s = l1 ++ stamp_old (at_time e) t old :: l2
  /\ taskKeep (apply_write e (WUpsert t) s).1 = taskKeep s.
Proof.
  intros Es Hn Hid Hne Hk. unfold tasks_after. cbn [apply_write]. unfold UpsertTask. rewrite (proj2 (String.eqb_neq _ _) Hne).
  assert (Eu : update_first (fun x => String.eqb (t_ID x) (t_ID t)) (stamp_old (at_time e) t) (tasks s) = Some (l1 ++ stamp_old (at_time e) t old :: l2)).
  { apply update_first_spec. exists l1, old, l2. split_and!; [done|done|by apply String.eqb_eq|]. apply Forall_forall. intros x Hx.
    apply String.eqb_neq. intros E. rewrite Es, fmap_app, fmap_cons in Hn. apply NoDup_app in Hn as (_ & Hd & _).
    destruct (Hd (t_ID x)); [apply list_elem_of_fmap; by exists x|]. apply elem_of_cons. left. congruence. }
  rewrite Eu. destruct (trim_lists (disk_ok e) (with_tasks (l1 ++ stamp_old (at_time e) t old :: l2) s)) as (_ & -> & ->).
  by rewrite trimmed_off.
Qed.

Lemma exec_bind {A B} e (p : prog A) (f : A -> prog B) s :
  exists e', exec e (p ≫= f) s = exec e' (f (exec e p s).2) (exec e p s).1.
Proof.
  revert e s. induction p as [a|w k IH]; intros e s; cbn; [by exists e|].
  destruct (apply_write (e 0) w s) as [s1 r1]. apply IH.
Qed.

Lemma find_first_none_names t us : t_ID t ∉ named_ids us -> find_first (names t) us = None.
Proof.
  intros Hn. apply find_first_None, Forall_forall. intros u Hu. unfold names. destruct (String.eqb_spec (u_ID u) "") as [|Hne]; [done|].
  cbn. apply String.eqb_neq. intros E. apply Hn. rewrite <- E. apply list_elem_of_In, filter_In. split.
  - apply list_elem_of_In, list_elem_of_fmap. by exists u.
  - by apply negb_true_iff, String.eqb_neq.
Qed.

Lemma extended_by_skip open u us runID tokens t t' :
  names t u = false -> extended_by open us runID tokens t t' -> extended_by open (u :: us) runID tokens t t'.
Proof. unfold extended_by. cbn [find_first]. by intros ->. Qed.

Lemma extended_by_new_head open u us runID tokens l l' :
  u_ID u = "" -> Forall2 (extended_by open us runID tokens) l l' -> Forall2 (extended_by open (u :: us) runID tokens) l l'.
Proof.
  intros Hu Hf. eapply Forall2_impl; [exact Hf|]. intros t t' He. apply extended_by_skip; [|done]. unfold names. by rewrite Hu.
Qed.

(** The tasks behind the updates: what was there, extended, then what is new. *)
Definition updates_made (open : list Task) (us : list TaskUpdate) (runID : string) (tokens : Z) (s s' : FileStore) : Prop :=
  exists old' new, tasks s' = old' ++ new
    /\ Forall2 (extended_by open us runID tokens) (tasks s) old'
    /\ (t_Title <$> new) = (u_Title <$> new_ones us).

Lemma Forall2_extended_snoc open us runID tokens l x l' :
  Forall2 (extended_by open us runID tokens) (l ++ [x]) l' -> t_ID x ∉ named_ids us ->
  exists l0, l' = l0 ++ [x] /\ Forall2 (extended_by open us runID tokens) l l0.
Proof.
  intros (l0 & l1 & Hl & Hx & ->)%Forall2_app_inv_l Hn. inversion Hx as [|? y ? ? He Hnil]; subst. inversion Hnil; subst.
  unfold extended_by in He. rewrite find_first_none_names in He by done. subst. by exists l0.
Qed.

(** Fresh ids are new: to the store, to the updates, and to one another. *)
Record fresh (e : nat -> weather) (us : list TaskUpdate) (s : FileStore) : Prop := {
  fr_store : forall n, fresh_id (e n) ∉ t_ID <$> tasks s;
  fr_named : forall n, fresh_id (e n) ∉ named_ids us;
  fr_apart : forall n m, n <> m -> fresh_id (e n) <> fresh_id (e m);
}.

Lemma named_ids_cons u us : named_ids (u :: us) = if String.eqb (u_ID u) "" then named_ids us else u_ID u :: named_ids us.
Proof. unfold named_ids. cbn. by destruct (String.eqb (u_ID u) ""). Qed.

Lemma named_in u us : u ∈ us -> u_ID u <> "" -> u_ID u ∈ named_ids us.
Proof.
  intros Hu Hne. apply list_elem_of_In, filter_In. split; [apply list_elem_of_In, list_elem_of_fmap; by exists u|].
  by apply negb_true_iff, String.eqb_neq.
Qed.

Lemma fresh_cons e u us s : fresh e (u :: us) s -> fresh (fun n => e (S n)) us s.
Proof.
  intros [F1 F2 F3]. split; [auto| |auto]. intros n Hin. apply (F2 (S n)). rewrite named_ids_cons. destruct (String.eqb _ ""); [done|by right].
Qed.

Lemma fresh_ids e us s s' : fresh e us s -> t_ID <$> tasks s' = t_ID <$> tasks s -> fresh e us s'.
Proof. intros [F1 F2 F3] E. split; [|done|done]. intros n. rewrite E. apply F1. Qed.

(** One named update, seen in the lists. *)
Lemma extended_by_cons open u us runID tokens old mid l1 l2 l' :
  NoDup (t_ID <$> l1 ++ old :: l2) -> u_ID u = t_ID old -> u_ID u <> "" -> u_ID u ∉ named_ids us -> t_ID old ∈ t_ID <$> open ->
  t_ID mid = t_ID old -> extended u runID tokens old mid ->
  Forall2 (extended_by open us runID tokens) (l1 ++ mid :: l2) l' ->
  Forall2 (extended_by open (u :: us) runID tokens) (l1 ++ old :: l2) l'.
Proof.
  intros Hnd Hid Hne Hnew Hopen Hmid Hext Hf.
  apply Forall2_app_inv_l in Hf as (o1 & o2 & Hf1 & Hf2 & ->). inversion Hf2 as [|? x ? o2' Hx Hf3]; subst.
  rewrite fmap_app, fmap_cons in Hnd. apply NoDup_app in Hnd as (_ & Hd1 & Hd2). apply NoDup_cons in Hd2 as [Hd2 _].
  assert (Hother : forall (l : list Task) y z, (forall t, t ∈ l -> t_ID t <> t_ID old) -> y ∈ l -> extended_by open us runID tokens y z -> extended_by open (u :: us) runID tokens y z).
  { intros l y z Hl Hy. apply extended_by_skip. unfold names. rewrite Hid. apply andb_false_iff. right. apply String.eqb_neq.
    intros E. by destruct (Hl y Hy). }
  assert (Hlift : forall (l l0 : list Task), (forall t, t ∈ l -> t_ID t <> t_ID old) -> Forall2 (extended_by open us runID tokens) l l0 -> Forall2 (extended_by open (u :: us) runID tokens) l l0).
  { intros l l0 Hl Hf. induction Hf as [|y z l l0 Hy Hf IH]; constructor.
    - eapply (Hother (y :: l)); [exact Hl|by left|done].
    - apply IH. intros t Ht. apply Hl. by right. }
  apply Forall2_app; [|constructor].
  - apply Hlift; [|done]. intros t Ht E. apply (Hd1 (t_ID t)); [apply list_elem_of_fmap; by exists t|]. rewrite E. by left.
  - unfold extended_by. cbn [find_first]. unfold names at 1. rewrite (proj2 (String.eqb_neq _ _) Hne), (proj2 (String.eqb_eq _ _) Hid). cbn [negb andb].
    rewrite decide_True by done. unfold extended_by in Hx. rewrite find_first_none_names in Hx by (by rewrite Hmid, <- Hid). by subst x.
  - apply Hlift; [|done]. intros t Ht E. apply Hd2. rewrite <- E. apply list_elem_of_fmap. by exists t.
Qed.

Lemma stamp_extended now old u runID tokens : extended u runID tokens old (stamp_old now (merged_task old u runID tokens) old).
Proof. by split_and!. Qed.

Lemma updates_spec open runID tokens cwd now us : forall e st s,
  NoDup (named_ids us) -> NoDup (t_ID <$> tasks s) -> (taskKeep s <= 0)%Z -> pending open (byTask st) us s -> fresh e us s ->
  (exec e (apply_updates runID tokens cwd now us st) s).2.2 = true ->
  updates_made open us runID tokens s (exec e (apply_updates runID tokens cwd now us st) s).1.
Proof.
  induction us as [|u us IH]; intros e st s Hnd Hids Hk Hp Hfr; cbn [apply_updates].
  { intros _. exists (tasks s), []. rewrite app_nil_r. split_and!; [done| |done]. apply Forall_Forall2_diag. by apply Forall_forall. }
  rewrite named_ids_cons in Hnd. unfold apply_update. destruct (String.eqb_spec (u_ID u) "") as [Eu|Eu]; cbn [negb].
  - set (nt := new_task u runID tokens cwd now). cbn [mbind prog_mbind prog_bind exec].
    destruct (upsert_new (e 0) nt s eq_refl Hk) as [Ht Hk1]. unfold tasks_after in Ht.
    destruct (apply_write (e 0) (WUpsert nt) s) as [s1 r1]. cbn [fst] in *. destruct r1; [|done]. cbn [prog_bind]. intros Hok.
    assert (Hnew : t_ID (stamp_new (at_time (e 0)) (fresh_id (e 0)) nt) = fresh_id (e 0)) by done.
    assert (Hgoal : updates_made open us runID tokens s1 (exec (fun n => e (S n)) (apply_updates runID tokens cwd now us
        (set_sum (add_task (t_Title nt) (u_Done u) (sum st)) st)) s1).1).
    { apply IH; [done| |by rewrite Hk1| | |exact Hok].
      - rewrite Ht, fmap_app. apply NoDup_app. split_and!; [done| |apply NoDup_singleton].
        intros i Hi ->%list_elem_of_singleton. rewrite Hnew in Hi. by apply (fr_store _ _ _ Hfr 0).
      - intros u' Hu' Hne. specialize (Hp u' ltac:(by right) Hne). cbn [set_sum byTask]. destruct (byTask st !! u_ID u'); [|done].
        destruct Hp as (? & ? & ?). split_and!; [done| |done]. rewrite Ht. apply elem_of_app. by left.
      - pose proof (fresh_cons _ _ _ _ Hfr) as [F1 F2 F3]. split; [|done|done]. intros n. rewrite Ht, fmap_app, not_elem_of_app. split; [apply F1|].
        intros E%list_elem_of_singleton. rewrite Hnew in E. by apply (fr_apart _ _ _ Hfr (S n) 0). }
    destruct Hgoal as (old' & new & E1 & Hf & Hn). rewrite Ht in Hf.
    apply Forall2_extended_snoc in Hf as (l0 & -> & Hf).
    + exists l0, (stamp_new (at_time (e 0)) (fresh_id (e 0)) nt :: new). split_and!.
      * by rewrite E1, <- app_assoc.
      * by apply extended_by_new_head.
      * unfold new_ones in *. cbn. by rewrite Hn, (proj2 (String.eqb_eq _ _) Eu).
    + rewrite Hnew. intros Hin. apply (fr_named _ _ _ Hfr 0). rewrite named_ids_cons. by rewrite (proj2 (String.eqb_eq _ _) Eu).
  - apply NoDup_cons in Hnd as [Hnin Hnd]. pose proof (Hp u ltac:(by left) Eu) as Hu.
    destruct (byTask st !! u_ID u) as [t|] eqn:Em.
    + destruct Hu as (Hid & Ht & Hop). apply list_elem_of_split in Ht as (l1 & l2 & Es). set (merged := merged_task t u runID tokens).
      cbn [mbind prog_mbind prog_bind exec].
      destruct (upsert_old (e 0) merged s t l1 l2 Es Hids eq_refl ltac:(cbn; by rewrite Hid) Hk) as [Ht1 Hk1]. unfold tasks_after in Ht1.
      destruct (apply_write (e 0) (WUpsert merged) s) as [s1 r1]. cbn [fst] in *. destruct r1; [|done]. cbn [prog_bind]. intros Hok.
      assert (Eids : t_ID <$> tasks s1 = t_ID <$> tasks s) by (rewrite Ht1, Es, !fmap_app; done).
      assert (Hgoal : updates_made open us runID tokens s1 (exec (fun n => e (S n)) (apply_updates runID tokens cwd now us
          (record_existing u merged (set_byTask (<[u_ID u := merged]> (byTask st)) st))) s1).1).
      { apply IH; [done|by rewrite Eids|by rewrite Hk1| | |exact Hok].
        - intros u' Hu' Hne. specialize (Hp u' ltac:(by right) Hne). cbn [record_existing set_byTask byTask].
          assert (Hdiff : u_ID u <> u_ID u') by (intros E; apply Hnin; rewrite E; by apply named_in).
          rewrite lookup_insert_ne by done. destruct (byTask st !! u_ID u') as [t'|]; [|done]. destruct Hp as (Hid' & Ht' & ?). split_and!; [done| |done].
          rewrite Ht1. rewrite Es in Ht'. apply elem_of_app in Ht' as [?|[->|?]%elem_of_cons]; apply elem_of_app; [by left|congruence|right; by right].
        - eapply fresh_ids; [by eapply fresh_cons|done]. }
      destruct Hgoal as (old' & new & E1 & Hf & Hn). exists old', new. split_and!; [done| |].
      * rewrite Es. rewrite Ht1 in Hf. eapply (extended_by_cons open u us runID tokens t (stamp_old (at_time (e 0)) merged t)); [by rewrite <- Es|done|done|done|by rewrite Hid|done|apply stamp_extended|exact Hf].
      * unfold new_ones in *. cbn. by rewrite (proj2 (String.eqb_neq _ _) Eu).
    + cbn [mbind prog_mbind prog_bind]. intros Hok.
      assert (Hgoal : updates_made open us runID tokens s (exec e (apply_updates runID tokens cwd now us st) s).1).
      { apply IH; try done.
        - intros u' Hu' Hne. apply Hp; [by right|done].
        - destruct Hfr as [F1 F2 F3]. split; [done| |done]. intros n Hin. apply (F2 n). rewrite named_ids_cons.
          destruct (String.eqb _ ""); [done|by right]. }
      destruct Hgoal as (old' & new & E1 & Hf & Hn). exists old', new. split_and!; [done| |].
      * eapply Forall2_impl; [exact Hf|]. intros t t' He. destruct (names t u) eqn:Ename; [|by apply extended_by_skip].
        unfold extended_by. cbn [find_first]. rewrite Ename. unfold names in Ename. rewrite (proj2 (String.eqb_neq _ _) Eu) in Ename. cbn in Ename.
        apply String.eqb_eq in Ename. rewrite decide_False by (by rewrite <- Ename). unfold extended_by in He.
        by rewrite find_first_none_names in He by (by rewrite <- Ename).
      * unfold new_ones in *. cbn. by rewrite (proj2 (String.eqb_neq _ _) Eu).
Qed.

Lemma by_id_from_none {A} (id : A -> string) l (m : gmap string A) i :
  foldl (fun m x => <[id x := x]> m) m l !! i = None <-> (i ∉ id <$> l) /\ m !! i = None.
Proof.
  revert m. induction l as [|y l IH]; intros m; cbn [foldl]; [split; [|by intros []]|].
  - intros E. split; [by intros ?%elem_of_nil|done].
  - rewrite IH, fmap_cons, not_elem_of_cons, lookup_insert_None. naive_solver.
Qed.

Lemma by_id_none {A} (id : A -> string) l i : by_id id l !! i = None -> i ∉ id <$> l.
Proof. by intros [? _]%by_id_from_none. Qed.

Definition fact_write (w : write) : Prop := match w with WAdd _ | WUpdate _ | WDelete _ => True | _ => False end.

Lemma fact_write_tasks e w s : fact_write w -> tasks (apply_write e w s).1 = tasks s.
Proof.
  destruct w; cbn [apply_write]; try done; intros _.
  - unfold AddFact. destruct (duplicateContent _ _); [done|]. by rewrite (proj1 (proj2 (save_facts_lists _ _))).
  - unfold UpdateFact. destruct (update_first _ _ _); [|done]. by rewrite (proj1 (proj2 (save_facts_lists _ _))).
  - unfold DeleteFact. destruct (_ =? _)%nat; [done|]. by rewrite (proj1 (proj2 (save_facts_lists _ _))).
Qed.

Lemma exec_fact_writes {A} (p : prog A) : all_writes fact_write p -> forall e s, tasks (exec e p s).1 = tasks s.
Proof.
  induction 1 as [a|w k Hw _ IH]; intros e s; cbn; [done|]. pose proof (fact_write_tasks (e 0) w s Hw) as Ht.
  destruct (apply_write (e 0) w s) as [s1 r1]. cbn in Ht. by rewrite IH.
Qed.

(** a checkpoint extends the tasks. When a checkpoint whose answer names no
    task twice ran to its end on a store that keeps all its tasks, every task it
    was shown and named has the run added to its runs, the tokens to its tokens
    and the new text to its summary, keeps its title and its time of creation,
    and is closed if the answer says so; every other task is as it was; the new
    tasks follow, one for each update without an id, in their order. *)
Theorem a_checkpoint_extends_the_tasks res open fs runID tokens cwd now e s s' sum :
  NoDup (named_ids (Tasks res)) -> NoDup (t_ID <$> tasks s) -> (taskKeep s <= 0)%Z ->
  Forall (fun t => t ∈ tasks s) open -> fresh e (Tasks res) s ->
  exec e (ApplyCheckpoint res open fs runID tokens cwd now) s = (s', (sum, true)) ->
  exists old' new, tasks s' = old' ++ new
    /\ Forall2 (extended_by open (Tasks res) runID tokens) (tasks s) old'
    /\ (t_Title <$> new) = (u_Title <$> new_ones (Tasks res)).
Proof.
  intros Hnd Hids Hk Hop Hfr. unfold ApplyCheckpoint.
  set (st0 := mkUpdating (by_id t_ID open) ∅ [] (mkSummary [] [] [] [])).
  assert (Hp : pending open (byTask st0) (Tasks res) s).
  { intros u _ _. cbn [st0 byTask]. destruct (by_id t_ID open !! u_ID u) as [t|] eqn:E.
    - apply by_id_in in E as [Hin Hid]. rewrite Forall_forall in Hop. split_and!; [done|by apply Hop|]. rewrite <- Hid. apply list_elem_of_fmap. by exists t.
    - by apply by_id_none. }
  pose proof (updates_spec open runID tokens cwd now (Tasks res) e st0 s Hnd Hids Hk Hp Hfr) as Hu.
  intros E. match type of E with exec e (mbind ?f ?p) s = _ => destruct (exec_bind e p f s) as [e' Ee] end. rewrite Ee in E. destruct (exec e (apply_updates _ _ _ _ _ _) s) as [s1 [st1 ok]]. cbn [fst snd] in *.
  destruct ok; [|discriminate]. destruct (Hu eq_refl) as (old' & new & E1 & Hf & Hn). exists old', new. split; [|done].
  rewrite <- E1.
  match type of E with exec e' ?p s1 = _ => assert (Hp' : all_writes fact_write p); [|pose proof (exec_fact_writes p Hp' e' s1) as Ht] end.
  { apply all_writes_bind; [by apply decisions_writes|]. intros [dec []]; constructor. }
  by rewrite E in Ht.
Qed.
End tasks.

(** ** Runs *)

Section runs.

#[local] Instance sample_tables : Unicode := sample_unicode.

#[export] Instance Fact_eq_dec : EqDecision Fact.
Proof. solve_decision. Defined.
#[export] Instance Task_eq_dec : EqDecision Task.
Proof. solve_decision. Defined.

(** The fields in a list, whose code is no longer than its parts. *)
Definition fact_fields (f : Fact) : list (string + Z) :=
  [inl (f_ID f); inl (f_Content f); inl (f_Topic f); inl (f_Source f); inr (f_CreatedAt f); inr (f_UpdatedAt f)].
Definition fields_fact (l : list (string + Z)) : option Fact :=
  match l with
  | [inl a; inl b; inl c; inl d; inr x; inr y] => Some (mkFact a b c d x y)
  | _ => None
  end.
#[export] Instance Fact_countable : Countable Fact.
Proof. apply (inj_countable fact_fields fields_fact). by intros []. Defined.

Definition task_fields (t : Task) : list (string + Z + list string) :=
  [inl (inl (t_ID t)); inl (inl (t_Title t)); inl (inl (t_Status t)); inl (inl (t_Cwd t)); inl (inr (t_CreatedAt t)); inl (inr (t_UpdatedAt t));
   inr (t_Runs t); inl (inl (t_Summary t)); inr (t_KeyFiles t); inr (t_Commands t); inr (t_NextSteps t); inl (inr (t_TokenUsage t))].
Definition fields_task (l : list (string + Z + list string)) : option Task :=
  match l with
  | [inl (inl a); inl (inl b); inl (inl c); inl (inl d); inl (inr x); inl (inr y); inr r; inl (inl s); inr k; inr co; inr n; inl (inr u)] =>
      Some (mkTask a b c d x y r s k co n u)
  | _ => None
  end.
#[export] Instance Task_countable : Countable Task.
Proof. apply (inj_countable task_fields fields_task). by intros []. Defined.

#[local] Instance fact_codec : JsonCodec Fact := countable_codec Fact.
#[local] Instance task_codec : JsonCodec Task := countable_codec Task.

Lemma countable_line_codec (A : Type) `{Countable A} : @LineCodec A (countable_codec A).
Proof.
  split; intros a b [= <-].
  - cbn. rewrite digits_pos_digits. apply decode_encode.
  - apply json_digits.
Qed.

#[local] Instance fact_line_codec : LineCodec Fact := countable_line_codec Fact.
#[local] Instance task_line_codec : LineCodec Task := countable_line_codec Task.

Definition calm (n : nat) : weather := mkWeather (100 + Z.of_nat n) ("t_new" +:+ string_of_list_ascii (repeat "x"%char n)) true.

Definition open_task (id title : string) : Task := mkTask id title "open" "/w" 1 1 ["r0"] "begun" [] [] [] 10.
Definition fact (id content : string) : Fact := mkFact id content "topic" "user" 1 1.
Definition store_of (ts : list Task) (fs : list Fact) : FileStore := mkFS 0 fs ts [] [].
Definition update (id title delta : string) (done : bool) : TaskUpdate := mkTaskUpdate id title done delta [] [] [].
Definition decision (action id content : string) : Decision := mkDecision action id content "".

Definition run_checkpoint (res : CheckpointResult) (s : FileStore) : FileStore * (AppliedSummary * bool) :=
  exec calm (ApplyCheckpoint res (OpenTasks 50 s) (facts s) "cp" 5 "/w" 50) s.

(** A task that the answer names twice is charged twice, and has the run twice. *)
Lemma a_task_named_twice_is_charged_twice :
  let s := store_of [open_task "t_1" "fix"] [] in
  let '(s', (sum, ok)) := run_checkpoint (mkCheckpointResult [update "t_1" "" "one" false; update "t_1" "" "two" false] []) s in
  ok = true /\ UpdatedTasks sum = ["fix"] /\ t_TokenUsage <$> tasks s' = [20%Z] /\ t_Runs <$> tasks s' = [["r0"; "cp"; "cp"]].
Proof. vm_compute. by split_and!. Qed.

(** The summary counts by the last update, the store keeps the first: a task
    that is done and then not is closed, and reported as updated. *)
Lemma a_closed_task_is_reported_as_updated :
  let s := store_of [open_task "t_1" "fix"] [] in
  let '(s', (sum, ok)) := run_checkpoint (mkCheckpointResult [update "t_1" "" "one" true; update "t_1" "" "two" false] []) s in
  ok = true /\ UpdatedTasks sum = ["fix"] /\ ClosedTasks sum = [] /\ t_Status <$> tasks s' = ["closed"].
Proof. vm_compute. by split_and!. Qed.

(** A fact that is deleted twice is counted twice. *)
Lemma a_deletion_is_counted_twice :
  let s := store_of [] [fact "t_1" "uses make"] in
  let '(s', (sum, ok)) := run_checkpoint (mkCheckpointResult [] [decision "delete" "t_1" ""; decision "delete" "t_1" ""]) s in
  ok = true /\ facts s' = [] /\ DeletedFacts sum = ["topic: uses make"; "topic: uses make"].
Proof. vm_compute. by split_and!. Qed.

(** An addition that the store skips is reported: an update of the same answer
    has made the content a duplicate. *)
Lemma a_skipped_addition_is_reported :
  let s := store_of [] [fact "t_1" "uses make"] in
  let '(s', (sum, ok)) := run_checkpoint (mkCheckpointResult [] [decision "update" "t_1" "deploys by hand"; decision "add" "" "deploys by hand"]) s in
  ok = true /\ f_Content <$> facts s' = ["deploys by hand"] /\ SFacts sum = ["topic: deploys by hand"; "deploys by hand"].
Proof. vm_compute. by split_and!. Qed.

(** The overlap is judged against the facts as they were read: an addition that
    covers the old content replaces what an update of the same answer has put in
    its place, and its words are lost. *)
Lemma an_update_is_overwritten_by_an_overlap :
  let s := store_of [] [fact "t_1" "build with make"] in
  let '(s', (sum, ok)) := run_checkpoint (mkCheckpointResult [] [decision "update" "t_1" "build with make on host alpha"; decision "add" "" "build with make release"]) s in
  ok = true /\ f_Content <$> facts s' = ["build with make release"].
Proof. vm_compute. by split_and!. Qed.

(** A task that the user closes while the model is asked is open again
    afterwards: the answer is applied to the tasks as they were read. *)
Lemma a_task_closed_meanwhile_is_reopened :
  let s := store_of [open_task "t_1" "fix"] [] in
  let closed := (CloseTask 60 "t_1" true s).1 in
  let res := mkCheckpointResult [update "t_1" "" "one" false] [] in
  let '(s', (_, ok)) := exec calm (ApplyCheckpoint res (OpenTasks 50 s) [] "cp" 5 "/w" 50) closed in
  ok = true /\ t_Status <$> tasks closed = ["closed"] /\ t_Status <$> tasks s' = ["open"].
Proof. vm_compute. by split_and!. Qed.
End runs.
