(* ===== verification/MemoryRuns.v ===== *)
(** * ai-memory: schedules and witnesses

    The steps of the checkpoints as a function of a list of events, sound for the
    step relation, and the concrete instances of the theorems of the store, the
    answers and the checkpoints. *)

From stdpp Require Import relations.
From S2P Require Import Prelude GoString GoUtf8 GoPath GoSort GoFloat JsonLines ScanJsonl MemorySearch MemoryStore MemoryCheckpoint MemoryCheckpointProps MemoryCheckpointTasks.
#[local] Open Scope string_scope.
#[local] Open Scope list_scope.

Section schedules.
Context `{Unicode} `{JsonCodec Fact} `{JsonCodec Task} (decode : string -> option CheckpointResult).

Inductive event : Type :=
  | EStart (k : nat) (id : string) (conv : list Message) (opts : CheckpointOptions)
  | EThread (k : nat) (i : cp_input)
  | EUser (e : weather) (u : write).

Definition exec_event (quiet : bool) (ev : event) (w : world) : option world :=
  match ev with
  | EStart k id conv opts =>
      match w_threads w !! k with
      | None => Some (mkWorld (w_store w) (w_sem w) (<[k := mkThread id conv opts PWait (w_store w) []]> (w_threads w)))
      | Some _ => None
      end
  | EThread k i =>
      match w_threads w !! k with
      | Some c =>
          match cp_step decode k i c (w_sem w) (w_store w) with
          | Some (c', sem', s') => Some (mkWorld s' sem' (<[k := c']> (w_threads w)))
          | None => None
          end
      | None => None
      end
  | EUser e u => if quiet then None else Some (mkWorld (apply_write e u (w_store w)).1 (w_sem w) (w_threads w))
  end.

Definition exec_events (quiet : bool) (evs : list event) (w : world) : option world :=
  foldl (fun ow ev => ow ≫= exec_event quiet ev) (Some w) evs.

Lemma run_event_sound quiet ev w w' : exec_event quiet ev w = Some w' -> step decode quiet w w'.
Proof.
  destruct ev; cbn [exec_event].
  - destruct (w_threads w !! k) eqn:E; [done|]. intros [= <-]. by constructor.
  - destruct (w_threads w !! k) as [c|] eqn:E; [|done]. destruct (cp_step _ _ _ _ _ _) as [[[c' sem'] s']|] eqn:Ec; [|done].
    intros [= <-]. by eapply step_thread.
  - destruct quiet; [done|]. intros [= <-]. destruct (apply_write e u (w_store w)) as [s' r] eqn:E. by eapply step_user.
Qed.

Lemma run_events_none quiet evs : foldl (fun ow ev => ow ≫= exec_event quiet ev) None evs = None.
Proof. induction evs as [|ev evs IH]; [done|]. cbn. exact IH. Qed.

Lemma run_events_sound quiet evs w w' : exec_events quiet evs w = Some w' -> rtc (step decode quiet) w w'.
Proof.
  unfold exec_events. revert w. induction evs as [|ev evs IH]; intros w; cbn; [by intros [= <-]|].
  destruct (exec_event quiet ev w) as [w1|] eqn:E; [|by rewrite run_events_none]. intros Hr.
  eapply rtc_l; [by eapply run_event_sound|by apply IH].
Qed.
End schedules.

Section witnesses.

#[local] Instance sample_tables : Unicode := sample_unicode.
#[local] Instance fact_codec : JsonCodec Fact := countable_codec Fact.
#[local] Instance task_codec : JsonCodec Task := countable_codec Task.
#[local] Instance fact_line_codec : LineCodec Fact := countable_line_codec Fact.
#[local] Instance task_line_codec : LineCodec Task := countable_line_codec Task.

(** ** The store *)

Definition first_writes : list (weather * write) :=
  [(calm 0, WAdd (fact "" "uses make")); (calm 1, WUpsert (new_task (update "" "fix" "begun" false) "cp" 3 "/w" 7));
   (calm 2, WAdd (fact "" " USES make "))].

Definition empty_store : FileStore := mkFS 10 [] [] [] [].

Lemma the_memory_survives_witness :
  let s' := (apply_writes first_writes empty_store).1 in
  f_Content <$> facts s' = ["uses make"] /\ t_Title <$> tasks s' = ["fix"]
  /\ NewFileStore 10 (ltm s') (mtm s') = Some s'.
Proof.
  intros s'. split; [by vm_compute|]. split; [by vm_compute|].
  apply (the_memory_survives first_writes empty_store s').
  - split; by exists [].
  - vm_compute. reflexivity.
  - apply Forall_forall. intros f Hf b Hb. revert b Hb.
    assert (Hall : Forall (fun f => (blen (pos_digits (encode f)) < maxLine)%Z) (facts s')) by (apply (bool_decide_eq_true_1 _); vm_compute; reflexivity).
    rewrite Forall_forall in Hall. intros b [= <-]. by apply Hall.
  - apply Forall_forall. intros f Hf b Hb. revert b Hb.
    assert (Hall : Forall (fun f => (blen (pos_digits (encode f)) < maxLine)%Z) (tasks s')) by (apply (bool_decide_eq_true_1 _); vm_compute; reflexivity).
    rewrite Forall_forall in Hall. intros b [= <-]. by apply Hall.
Defined.

Lemma an_upsert_keeps_what_it_must_witness :
  let s := mkFS 1 [] [open_task "t_1" "old"; open_task "t_2" "newer"] [] [] in
  let t := new_task (update "" "fix" "begun" false) "cp" 3 "/w" 7 in
  let '(s', r) := UpsertTask 9 "t_3" true t s in
  t_ID <$> tasks s' = ["t_3"] /\ facts s' = facts s.
Proof.
  cbv zeta. destruct (UpsertTask 9 "t_3" true (new_task (update "" "fix" "begun" false) "cp" 3 "/w" 7)
    (mkFS 1 [] [open_task "t_1" "old"; open_task "t_2" "newer"] [] [])) as [s' r] eqn:E.
  split; [|exact (proj1 (an_upsert_keeps_what_it_must _ _ _ _ _ _ _ E))].
  change s' with (s', r).1. rewrite <- E. vm_compute. reflexivity.
Defined.

(** ** The answers *)

Definition sample_answer : CheckpointResult :=
  mkCheckpointResult [update "t_1" "" "one more step" false; update "" "docs" "written" true; update "" " " "lost" false]
    [decision "add" "" "deploys with make release"; decision "forget" "f_1" ""].

Lemma an_answer_is_bounded_witness :
  exists res, parseCheckpoint (fun _ => Some sample_answer) " x {...} y " = Some res
  /\ length (Tasks res) = 2 /\ length (Decisions res) = 1
  /\ Forall (fun d => validAction (Action d) = true /\ runeLen (d_Content d) <= maxFactContentRunes) (Decisions res).
Proof.
  eexists. split; [reflexivity|]. split; [by vm_compute|]. split; [by vm_compute|].
  apply (an_answer_is_bounded (fun _ => Some sample_answer) " x {...} y "). reflexivity.
Defined.

(** ** The checkpoints *)

Definition sample_store : FileStore := mkFS 0 [fact "f_1" "uses make"; fact "f_2" "hosted on rocket"] [open_task "t_1" "fix"; open_task "t_2" "other"] [] [].

Lemma length_xs n : String.length (string_of_list_ascii (repeat "x"%char n)) = n.
Proof. induction n as [|n IH]; cbn; [done|]. by rewrite IH. Qed.

Lemma calm_apart n m : n <> m -> fresh_id (calm n) <> fresh_id (calm m).
Proof.
  intros Hne E. apply Hne. apply (f_equal (fun s => String.length (string_drop 5 s))) in E.
  change (String.length (string_of_list_ascii (repeat "x"%char n)) = String.length (string_of_list_ascii (repeat "x"%char m))) in E.
  by rewrite !length_xs in E.
Qed.

Lemma a_checkpoint_extends_the_tasks_witness :
  let '(s', (sum, ok)) := run_checkpoint sample_answer sample_store in
  ok = true /\ exists old' new, tasks s' = old' ++ new
    /\ Forall2 (extended_by (OpenTasks 50 sample_store) (Tasks sample_answer) "cp" 5) (tasks sample_store) old'
    /\ (t_Title <$> new) = ["docs"; " "].
Proof.
  destruct (run_checkpoint sample_answer sample_store) as [s' [sum ok]] eqn:E.
  assert (Hok : ok = true) by (change ok with (s', (sum, ok)).2.2; rewrite <- E; vm_compute; reflexivity).
  split; [exact Hok|]. subst ok.
  apply (a_checkpoint_extends_the_tasks sample_answer (OpenTasks 50 sample_store) (facts sample_store) "cp" 5 "/w" 50 calm sample_store s' sum).
  - apply (bool_decide_eq_true_1 _). vm_compute. reflexivity.
  - apply (bool_decide_eq_true_1 _). vm_compute. reflexivity.
  - done.
  - apply (bool_decide_eq_true_1 _). vm_compute. reflexivity.
  - split; [| |apply calm_apart]; intros n Hin; apply list_elem_of_In in Hin; cbn in Hin; intuition discriminate.
  - exact E.
Defined.

Definition sample_conv : list Message := [mkMessage "user" "deploy with make please"; mkMessage "assistant" "done"].
Definition sample_opts : CheckpointOptions := mkOptions true 5 "/w".
Definition sample_decode (s : string) : option CheckpointResult := Some sample_answer.

(** Two checkpoints; the first holds the semaphore and has made its first write. *)
Definition sample_schedule : list event :=
  [EStart 0 "cp-0" sample_conv sample_opts; EStart 1 "cp-1" sample_conv sample_opts;
   EThread 0 (IStep 10); EThread 0 (IStep 11); EThread 0 (IStep 12); EThread 0 (IAnswer (Some "{ }") 13); EThread 0 (IWrite (calm 0))].

Definition sample_init : world := mkWorld sample_store None ∅.
Definition sample_world : world := default sample_init (exec_events sample_decode true sample_schedule sample_init).
Definition sample_thread : cp_thread := default (mkThread "" [] sample_opts PWait sample_store []) (w_threads sample_world !! 0%nat).

Lemma sample_runs : rtc (step sample_decode true) sample_init sample_world.
Proof.
  apply (run_events_sound sample_decode true sample_schedule). unfold sample_world.
  assert (Hs : is_Some (exec_events sample_decode true sample_schedule sample_init)) by (vm_compute; by eexists).
  destruct Hs as [w Hw]. by rewrite Hw.
Qed.

Lemma a_checkpoint_works_on_what_it_saw_witness :
  exists open fs p, c_pc sample_thread = PApply open fs p
  /\ (f_ID <$> fs) = ["f_1"]
  /\ read_of sample_conv sample_store open fs
  /\ w_store sample_world = (apply_writes (c_wrote sample_thread) (c_seen sample_thread)).1
  /\ length (c_wrote sample_thread) = 1.
Proof.
  destruct (c_pc sample_thread) as [| |o|o|o g|open fs p|r|r] eqn:Epc; try (exfalso; vm_compute in Epc; discriminate).
  exists open, fs, p.
  assert (Hl : w_threads sample_world !! 0%nat = Some sample_thread) by (vm_compute; reflexivity).
  destruct (a_checkpoint_works_on_what_it_saw sample_decode sample_init sample_world 0 sample_thread open fs p (conj eq_refl eq_refl) sample_runs Hl Epc) as (Hr & Hs & _).
  split; [reflexivity|]. split; [|split; [exact Hr|split; [exact Hs|vm_compute; reflexivity]]].
  transitivity (f_ID <$> (match c_pc sample_thread with PApply _ fs _ => fs | _ => [] end)); [by rewrite Epc|vm_compute; reflexivity].
Defined.

Lemma a_checkpoint_leaves_the_rest_alone_witness :
  exists c' sem' s',
    cp_step sample_decode 0 (IWrite (calm 1)) sample_thread (w_sem sample_world) (w_store sample_world) = Some (c', sem', s')
    /\ fact "f_2" "hosted on rocket" ∈ facts s'.
Proof.
  destruct (cp_step sample_decode 0 (IWrite (calm 1)) sample_thread (w_sem sample_world) (w_store sample_world)) as [[[c' sem'] s']|] eqn:E;
    [|exfalso; vm_compute in E; discriminate].
  exists c', sem', s'. split; [reflexivity|].
  assert (Hl : w_threads sample_world !! 0%nat = Some sample_thread) by (vm_compute; reflexivity).
  apply (proj1 (a_checkpoint_leaves_the_rest_alone sample_decode true sample_init sample_world 0 (IWrite (calm 1)) sample_thread c' sem' s' (conj eq_refl eq_refl) sample_runs Hl E)).
  - apply (bool_decide_eq_true_1 _). vm_compute. reflexivity.
  - intros (open & fs & p & Hpc & Hin). assert (Hf : f_ID <$> fs = ["f_1"]).
    { transitivity (f_ID <$> (match c_pc sample_thread with PApply _ fs _ => fs | _ => [] end)); [by rewrite Hpc|vm_compute; reflexivity]. }
    rewrite Hf in Hin. apply list_elem_of_singleton in Hin. discriminate.
Defined.
End witnesses.
