(* ===== verification/MemoryProfile.v ===== *)
(** * ai-memory: the user's profile and the instruction files

    profile.go and rules.go: entries of USER.md, one a line, of bounded capacity;
    the text that is injected; the instruction file that is nearest above the
    working directory. The file is read before every write. *)

From stdpp Require Import pretty.
From S2P Require Import Prelude GoString GoUtf8 GoPath GoLines.
#[local] Open Scope string_scope.
#[local] Open Scope list_scope.

Definition defaultUserMaxChars : Z := 1500.

Inductive profile_error : Type :=
  | ErrProfileFull
  | ErrEmptyEntry
  | ErrEmptyOldText
  | ErrEmptyContent
  | ErrMultiple
  | ErrNotFound
  | ErrRead
  | ErrWrite.

(** The file is outside: anybody may edit it. *)
Record Profile := mkProfile {
  maxChars : Z;
  content : string;
  file : option string;
}.

Definition newProfile (max : Z) (f : option string) : Profile := mkProfile (if (max <=? 0)%Z then defaultUserMaxChars else max) "" f.

Definition nonEmptyLines (s : string) : list string :=
  List.filter (fun l => negb (String.eqb l "")) (TrimSpace <$> Split nl s).

Definition normalizeEntry (s : string) : string := TrimSpace (Join " " (Fields s)).

(** [reads]: the read of an existing file succeeds. *)
Definition sync (reads : bool) (p : Profile) : result profile_error Profile :=
  match file p with
  | None => Ok (mkProfile (maxChars p) "" None)
  | Some s => if reads then Ok (mkProfile (maxChars p) s (file p)) else Err ErrRead
  end.

Definition chars_of (s : string) : Z := Z.of_nat (runeLen s).

(** [writes]: neither the write nor the rename of [atomicWrite] fails. *)
Definition store_content (writes : bool) (next msg : string) (p : Profile) : Profile * result profile_error string :=
  if writes then (mkProfile (maxChars p) next (Some next), Ok msg) else (p, Err ErrWrite).

Definition AddEntry (reads writes : bool) (s : string) (p : Profile) : Profile * result profile_error string :=
  let entry := normalizeEntry s in
  if String.eqb entry "" then (p, Err ErrEmptyEntry)
  else
    match sync reads p with
    | Err e => (p, Err e)
    | Ok p =>
        if existsb (fun l => String.eqb l entry) (nonEmptyLines (content p)) then (p, Ok "duplicate, skipped")
        else
          let next := TrimSpace (content p) in
          let next := (if String.eqb next "" then next else next +:+ newline) +:+ entry in
          if (maxChars p <? chars_of next)%Z then (p, Err ErrProfileFull) else store_content writes next "added" p
    end.

(** The loop of [uniqueHit]: the index of the line being read, and the hit. *)
Fixpoint unique_go (needle : string) (i : nat) (hit : option nat) (lines : list string) : result profile_error nat :=
  match lines with
  | [] => match hit with Some h => Ok h | None => Err ErrNotFound end
  | l :: ls =>
      if Contains l needle then
        match hit with Some _ => Err ErrMultiple | None => unique_go needle (S i) (Some i) ls end
      else unique_go needle (S i) hit ls
  end.

Definition uniqueHit (lines : list string) (needle : string) : result profile_error nat := unique_go needle 0 None lines.

Definition ReplaceEntry (reads writes : bool) (oldText s : string) (p : Profile) : Profile * result profile_error string :=
  let oldText := TrimSpace oldText in
  let repl := normalizeEntry s in
  if String.eqb oldText "" then (p, Err ErrEmptyOldText)
  else if String.eqb repl "" then (p, Err ErrEmptyContent)
  else
    match sync reads p with
    | Err e => (p, Err e)
    | Ok p =>
        let lines := nonEmptyLines (content p) in
        match uniqueHit lines oldText with
        | Err e => (p, Err e)
        | Ok idx =>
            let next := Join newline (<[idx := repl]> lines) in
            if (maxChars p <? chars_of next)%Z then (p, Err ErrProfileFull) else store_content writes next "replaced" p
        end
    end.

Definition RemoveEntry (reads writes : bool) (oldText : string) (p : Profile) : Profile * result profile_error string :=
  let oldText := TrimSpace oldText in
  if String.eqb oldText "" then (p, Err ErrEmptyOldText)
  else
    match sync reads p with
    | Err e => (p, Err e)
    | Ok p =>
        let lines := nonEmptyLines (content p) in
        match uniqueHit lines oldText with
        | Err e => (p, Err e)
        | Ok idx => store_content writes (Join newline (take idx lines ++ drop (S idx) lines)) "removed" p
        end
    end.

(** ** rules.go *)

Definition ellipsis : string := "…".

Definition TruncateRunes (s : string) (n : nat) : string :=
  let r := rune_list s in if (length r <=? n)%nat then s else of_runes (take n r) +:+ ellipsis.

Definition truncateLeading (s : string) (max : nat) : string :=
  let r := rune_list s in if (length r <=? max)%nat then s else ellipsis +:+ of_runes (drop (length r - max) r).

Definition mergeAgents (global project : string) (max : Z) : string :=
  let out := TrimSpace global in
  let p := TrimSpace project in
  let out := if String.eqb p "" then out else (if String.eqb out "" then out else out +:+ newline +:+ newline) +:+ p in
  if (0 <? max)%Z && (max <? chars_of out)%Z then truncateLeading out (Z.to_nat max) else out.

Definition agents_head : string :=
  newline +:+ "[Instructions] The following instructions come from AGENTS.md (global first, project after; project takes precedence on conflict):" +:+ newline.

Definition user_head (used max : Z) : string :=
  newline +:+ "[User] Your user profile, from USER.md (used " +:+ pretty used +:+ "/" +:+ pretty max +:+ " chars):" +:+ newline.

Definition render (user agents : string) (maxUserChars : Z) : string :=
  let a := TrimSpace agents in
  let u := TrimSpace user in
  (if String.eqb a "" then "" else agents_head +:+ a +:+ newline)
  +:+ (if String.eqb u "" then ""
       else
         let used := chars_of u in
         let u := if (0 <? maxUserChars)%Z && (maxUserChars <? used)%Z then TruncateRunes u (Z.to_nat maxUserChars) else u in
         user_head used maxUserChars +:+ u +:+ newline).

Definition defaultInt (v def : Z) : Z := if (v <=? 0)%Z then def else v.

(** The loop of [findUpward], with fuel; [is_file]: [os.Stat] says so. *)
Fixpoint find_from (fuel : nat) (is_file : string -> bool) (dir filename : string) : option string :=
  match fuel with
  | O => None
  | S fuel =>
      let candidate := JoinPath [dir; filename] in
      if is_file candidate then Some candidate
      else if String.eqb (Dir dir) dir then Some ""
      else find_from fuel is_file (Dir dir) filename
  end.

Definition walk_fuel (start : string) : nat := String.length start + 3.

(** [None]: out of fuel. *)
Definition findUpward (is_file : string -> bool) (start filename : string) : option string :=
  find_from (walk_fuel start) is_file start filename.

Record InstructionSet := mkInstructions { snapshot : string; profile : Profile }.
Record Cap := mkCap { UserMaxChars : Z; AgentsMaxChars : Z }.

(** [read]: what a file holds, [None] when it is missing or not readable. *)
Definition LoadInstructions (read : string -> option string) (is_file : string -> bool) (dir cwd : string) (caps : Cap) : option InstructionSet :=
  let userPath := JoinPath [dir; "USER.md"] in
  let globalAgentPath := JoinPath [dir; "AGENTS.md"] in
  let p := newProfile (UserMaxChars caps) (read userPath) in
  let p := match sync true p with Ok p => p | Err _ => p end in
  projPath ← findUpward is_file cwd "AGENTS.md";
  let projPath := if String.eqb projPath globalAgentPath then "" else projPath in
  let global := default "" (read globalAgentPath) in
  let proj := if String.eqb projPath "" then "" else default "" (read projPath) in
  let agents := mergeAgents global proj (defaultInt (AgentsMaxChars caps) 4096) in
  Some (mkInstructions (render (content p) agents (maxChars p)) p).
