(* ===== verification/MemoryProfileProps.v ===== *)
(** * ai-memory: theorems of the profile and the instruction files

    What the operations do to the lines of USER.md; the capacity; what a
    truncation keeps; the walk up the directories ends, at the nearest file. *)

From S2P Require Import Prelude GoString GoUtf8 GoPath GoLines MemoryProfile.
#[local] Open Scope string_scope.
#[local] Open Scope list_scope.

(** ** Lines *)

Lemma raw_empty l s l1 l2 : runes s = l1 ++ l ++ l2 -> raw l = "" -> l = [].
Proof. intros E Er. apply runes_infix in E. by rewrite Er in E. Qed.

Lemma nonEmptyLines_runes s : nonEmptyLines s = raw <$> full_lines (runes s).
Proof.
  unfold nonEmptyLines, full_lines. rewrite <- runes_Split. generalize (Split nl s). intros ws.
  induction ws as [|w ws IH]; [done|]. cbn [fmap list_fmap List.filter]. unfold TrimSpace at 1.
  destruct (trim_runes_split (runes w)) as (a & b & E & _).
  destruct (String.eqb_spec (raw (trim_runes (runes w))) "") as [Er|Er]; cbn [negb].
  - rewrite (raw_empty _ _ _ _ E Er). cbn. exact IH.
  - destruct (trim_runes (runes w)) as [|r l] eqn:Et; [done|]. cbn [length Nat.eqb negb fmap list_fmap]. rewrite <- Et. f_equal. exact IH.
Qed.

(** What a line of a profile is. *)
Definition line (w : string) : Prop := has_char nl w = false /\ tight (runes w) /\ w <> "".

Lemma nonEmptyLines_line s : Forall line (nonEmptyLines s).
Proof.
  unfold nonEmptyLines. apply Forall_forall. intros w Hw. apply list_elem_of_In, filter_In in Hw as [Hw Hne].
  apply list_elem_of_In, list_elem_of_fmap in Hw as (x & -> & Hx). apply negb_true_iff, String.eqb_neq in Hne.
  pose proof (Split_pieces nl s) as Hp. rewrite Forall_forall in Hp. split; [by apply has_char_trim, Hp|]. split; [|done].
  rewrite runes_TrimSpace. by destruct (trim_runes_split (runes x)) as (? & ? & _ & _ & _ & ?).
Qed.

Lemma normalizeEntry_line s : normalizeEntry s <> "" -> line (normalizeEntry s).
Proof.
  intros Hne. unfold normalizeEntry in *. split; [|split; [|done]].
  - apply has_char_trim, has_char_Join; [done|apply Fields_lines].
  - rewrite runes_TrimSpace. by destruct (trim_runes_split (runes (Join " " (Fields s)))) as (? & ? & _ & _ & _ & ?).
Qed.

Lemma lines_of_Join ws : Forall line ws -> nonEmptyLines (Join newline ws) = ws.
Proof.
  intros Hw. rewrite nonEmptyLines_runes, full_lines_Join by exact Hw. clear Hw. induction ws as [|w ws IH]; [done|]. cbn. by rewrite raw_runes, IH.
Qed.

Lemma nonEmptyLines_trim s : nonEmptyLines (TrimSpace s) = nonEmptyLines s.
Proof. by rewrite !nonEmptyLines_runes, runes_TrimSpace, full_lines_trim. Qed.

Lemma nonEmptyLines_one w : line w -> nonEmptyLines w = [w].
Proof. intros Hw. by apply (lines_of_Join [w]); constructor. Qed.

Lemma nonEmptyLines_snoc s w : line w ->
  nonEmptyLines ((if String.eqb (TrimSpace s) "" then TrimSpace s else TrimSpace s +:+ newline) +:+ w) = nonEmptyLines s ++ [w].
Proof.
  intros Hw. destruct (String.eqb_spec (TrimSpace s) "") as [E|E].
  - rewrite E. change ("" +:+ w) with w. rewrite nonEmptyLines_one by done. rewrite <- (nonEmptyLines_trim s), E. done.
  - rewrite <- append_assoc. change (newline +:+ w) with (String nl w).
    rewrite nonEmptyLines_runes, runes_app_ascii, runes_ascii by done. rewrite full_lines_app by reflexivity. rewrite fmap_app.
    rewrite <- !nonEmptyLines_runes, nonEmptyLines_trim. by rewrite (nonEmptyLines_one _ Hw).
Qed.

(** ** The hit *)

Lemma unique_go_spec needle i hit ls idx :
  unique_go needle i hit ls = Ok idx ->
  match hit with
  | Some h => idx = h /\ Forall (fun l => Contains l needle = false) ls
  | None => exists n l, idx = i + n /\ ls !! n = Some l /\ Contains l needle = true
      /\ forall m l', ls !! m = Some l' -> Contains l' needle = true -> m = n
  end.
Proof.
  revert i hit. induction ls as [|l ls IH]; intros i hit; cbn [unique_go]; [destruct hit; [by intros [= <-]|done]|].
  destruct (Contains l needle) eqn:E.
  - destruct hit as [h|]; [done|]. intros [-> Hf]%IH. exists 0, l. split_and!; [lia|done|done|].
    intros [|m] l' Hl Hc; [done|]. cbn in Hl. rewrite Forall_lookup in Hf. by rewrite (Hf _ _ Hl) in Hc.
  - intros Hr%IH. destruct hit as [h|]; [destruct Hr as [-> Hf]; split; [done|by constructor]|].
    destruct Hr as (n & l0 & -> & Hl & Hc & Hu). exists (S n), l0. split_and!; [lia|done|done|].
    intros [|m] l' Hl' Hc'; cbn in Hl'; [congruence|]. f_equal. by eapply Hu.
Qed.

(** The one line that holds the text. *)
Definition only_hit (lines : list string) (needle : string) (idx : nat) : Prop :=
  exists l, lines !! idx = Some l /\ Contains l needle = true /\ forall m l', lines !! m = Some l' -> Contains l' needle = true -> m = idx.

Lemma uniqueHit_only lines needle idx : uniqueHit lines needle = Ok idx -> only_hit lines needle idx.
Proof. intros (n & l & -> & Hl & Hc & Hu)%unique_go_spec. by exists l. Qed.

(** ** The profile *)

(** What the file holds. *)
Definition on_disk (p : Profile) : string := default "" (file p).

Lemma sync_ok reads p p1 : sync reads p = Ok p1 -> content p1 = on_disk p /\ file p1 = file p /\ maxChars p1 = maxChars p.
Proof. unfold sync, on_disk. destruct (file p) eqn:E; [destruct reads|]; intros [= <-]; by rewrite ?E. Qed.

Lemma store_content_spec writes next msg p p' r :
  store_content writes next msg p = (p', r) ->
  match r with Ok m => m = msg /\ on_disk p' = next /\ content p' = next | Err _ => file p' = file p end.
Proof. unfold store_content. destruct writes; by intros [= <- <-]. Qed.

(** An addition. When it succeeds, either a line of the file was the entry and
    the file is as it was, or the lines of the file are those it had with the
    entry, one line, behind them, within the capacity; when it fails the file is
    as it was. *)
Theorem an_entry_is_a_line reads writes s p p' r :
  AddEntry reads writes s p = (p', r) ->
  let entry := normalizeEntry s in
  match r with
  | Ok _ => (entry ∈ nonEmptyLines (on_disk p) /\ file p' = file p)
      \/ (nonEmptyLines (on_disk p') = nonEmptyLines (on_disk p) ++ [entry] /\ line entry /\ (chars_of (on_disk p') <= maxChars p)%Z)
  | Err _ => file p' = file p
  end.
Proof.
  unfold AddEntry. cbv zeta. destruct (String.eqb_spec (normalizeEntry s) "") as [|Hne]; [by intros [= <- <-]|].
  destruct (sync reads p) as [p1|e] eqn:Es; [|by intros [= <- <-]]. apply sync_ok in Es as (Ec & Ef & Em).
  destruct (existsb _ _) eqn:Ex.
  { intros [= <- <-]. left. rewrite Ec in Ex. split; [|done]. apply existsb_Exists, Exists_exists in Ex as (l & Hl & El).
    apply String.eqb_eq in El. by subst. }
  destruct (Z.ltb_spec (maxChars p1) (chars_of ((if String.eqb (TrimSpace (content p1)) "" then TrimSpace (content p1) else TrimSpace (content p1) +:+ newline) +:+ normalizeEntry s))) as [|Hcap]; [by intros [= <- <-]|].
  intros Est%store_content_spec. destruct r as [m|e]; [|by rewrite Est]. destruct Est as (_ & Ed & _). right. rewrite Ed, <- Ec.
  assert (Hl : line (normalizeEntry s)) by (by apply normalizeEntry_line).
  split; [by apply nonEmptyLines_snoc|]. split; [done|]. by rewrite <- Em.
Qed.

(** a replacement and a removal touch one line, the only one that holds the
    given text; when they fail the file is as it was. *)
Theorem one_line_is_replaced reads writes old s p p' r :
  ReplaceEntry reads writes old s p = (p', r) ->
  match r with
  | Ok _ => exists idx, only_hit (nonEmptyLines (on_disk p)) (TrimSpace old) idx
      /\ nonEmptyLines (on_disk p') = <[idx := normalizeEntry s]> (nonEmptyLines (on_disk p)) /\ (chars_of (on_disk p') <= maxChars p)%Z
  | Err _ => file p' = file p
  end.
Proof.
  unfold ReplaceEntry. cbv zeta. destruct (String.eqb (TrimSpace old) ""); [by intros [= <- <-]|].
  destruct (String.eqb_spec (normalizeEntry s) "") as [|Hne]; [by intros [= <- <-]|].
  destruct (sync reads p) as [p1|e] eqn:Es; [|by intros [= <- <-]]. apply sync_ok in Es as (Ec & Ef & Em).
  destruct (uniqueHit _ _) as [idx|e] eqn:Eu; [|by intros [= <- <-]]. apply uniqueHit_only in Eu.
  destruct (Z.ltb_spec (maxChars p1) (chars_of (Join newline (<[idx:=normalizeEntry s]> (nonEmptyLines (content p1)))))) as [|Hcap]; [by intros [= <- <-]|].
  intros Est%store_content_spec. destruct r as [m|e]; [|by rewrite Est]. destruct Est as (_ & Ed & _). rewrite Ed, <- Ec in *.
  exists idx. split; [done|]. split; [|by rewrite <- Em]. apply lines_of_Join. apply Forall_insert; [apply nonEmptyLines_line|by apply normalizeEntry_line].
Qed.

Theorem one_line_is_removed reads writes old p p' r :
  RemoveEntry reads writes old p = (p', r) ->
  match r with
  | Ok _ => exists idx, only_hit (nonEmptyLines (on_disk p)) (TrimSpace old) idx
      /\ nonEmptyLines (on_disk p') = delete idx (nonEmptyLines (on_disk p))
  | Err _ => file p' = file p
  end.
Proof.
  unfold RemoveEntry. cbv zeta. destruct (String.eqb (TrimSpace old) ""); [by intros [= <- <-]|].
  destruct (sync reads p) as [p1|e] eqn:Es; [|by intros [= <- <-]]. apply sync_ok in Es as (Ec & Ef & Em).
  destruct (uniqueHit _ _) as [idx|e] eqn:Eu; [|by intros [= <- <-]]. apply uniqueHit_only in Eu.
  intros Est%store_content_spec. destruct r as [m|e]; [|by rewrite Est]. destruct Est as (_ & Ed & _). rewrite Ed, <- Ec.
  exists idx. split; [done|]. rewrite <- delete_take_drop. apply lines_of_Join. apply Forall_delete, nonEmptyLines_line.
Qed.

(** ** What a truncation keeps *)

Lemma norm_rune_idemp r : norm_rune (norm_rune r) = norm_rune r.
Proof. unfold norm_rune at 1. by rewrite norm_valid. Qed.

Lemma runes_after_nl a b : rune_list (a +:+ String nl b) = rune_list a ++ 10%N :: rune_list b.
Proof. unfold rune_list. rewrite runes_app_ascii, runes_ascii by done. by rewrite fmap_app. Qed.

Lemma list_split_end {A} (l pre suf : list A) n : l = pre ++ suf -> (length suf <= n)%nat -> exists pre', drop (length l - n) l = pre' ++ suf.
Proof.
  intros -> Hn. rewrite length_app. exists (drop (length pre + length suf - n) pre). rewrite drop_app_le by lia. done.
Qed.

(** The project's instructions survive the truncation. When they fit into the
    limit the merged instructions end with them, rune by rune, whatever the
    global ones are; an invalid byte counts as [RuneError]. *)
Theorem the_project_is_kept global project max :
  TrimSpace project <> "" -> (chars_of (TrimSpace project) <= max)%Z ->
  exists before, norm_rune <$> rune_list (mergeAgents global project max) = before ++ (norm_rune <$> rune_list (TrimSpace project)).
Proof.
  intros Hne Hfit. unfold mergeAgents. cbv zeta. rewrite (proj2 (String.eqb_neq _ _) Hne).
  set (p := TrimSpace project) in *. generalize (TrimSpace global). intros g.
  set (out := (if String.eqb g "" then g else g +:+ newline +:+ newline) +:+ p).
  assert (Hout : exists pre, rune_list out = pre ++ rune_list p).
  { unfold out. clear out. destruct (String.eqb_spec g "") as [->|]; [by exists []|].
    exists (rune_list (g +:+ newline) ++ [10%N]).
    replace ((g +:+ newline +:+ newline) +:+ p) with ((g +:+ newline) +:+ String nl p) by (rewrite <- !append_assoc; done).
    rewrite runes_after_nl, <- app_assoc. done. }
  destruct Hout as [pre Hpre]. destruct (_ && _) eqn:Et; [|exists (norm_rune <$> pre); by rewrite Hpre, fmap_app].
  apply andb_true_iff in Et as [Hm Hl]. apply Z.ltb_lt in Hm, Hl. unfold truncateLeading. unfold chars_of, runeLen in Hl, Hfit.
  assert (El : length (rune_list out) = length (runes out)) by (unfold rune_list; by rewrite length_fmap).
  assert (Ep : length (rune_list p) = length (runes p)) by (unfold rune_list; by rewrite length_fmap).
  rewrite (proj2 (Nat.leb_gt _ _)) by lia.
  destruct (list_split_end _ _ _ (Z.to_nat max) Hpre) as [pre' Hd]; [lia|]. rewrite Hd.
  change (ellipsis +:+ of_runes (pre' ++ rune_list p)) with (of_runes (8230%N :: pre' ++ rune_list p)).
  rewrite rune_list_of_runes. exists (norm_rune <$> 8230%N :: pre').
  rewrite <- list_fmap_compose, (list_fmap_ext (norm_rune ∘ norm_rune) norm_rune) by (intros; apply norm_rune_idemp).
  by rewrite <- fmap_app.
Qed.

(** ** The walk up the directories *)

(** The weight of a list of path elements: their bytes, and one for each. *)
Definition weight (ws : list string) : nat := sum_list_with (fun w => S (String.length w)) ws.
Definition full_weight (ws : list string) : nat := sum_list_with (fun w => if String.eqb w "" then 0%nat else S (String.length w)) ws.

Lemma weight_Split s : weight (Split slash s) = S (String.length s).
Proof.
  induction s as [|a s IH]; [done|]. cbn [Split]. destruct (Ascii.eqb a slash).
  - unfold weight in *. cbn. by rewrite IH.
  - destruct (Split slash s) as [|w ws] eqn:E; [by destruct (Split_nonempty slash s)|]. unfold weight in *. cbn in *. lia.
Qed.

Lemma full_weight_le ws : full_weight ws <= weight ws.
Proof. unfold full_weight, weight. induction ws as [|w ws IH]; cbn; [lia|]. destruct (String.eqb w ""); lia. Qed.

Lemma Split_snoc_slash x : Split slash (x +:+ String slash "") = Split slash x ++ [""].
Proof.
  induction x as [|a x IH]; [done|]. change (String a x +:+ String slash "") with (String a (x +:+ String slash "")). cbn [Split].
  rewrite IH. destruct (Ascii.eqb a slash); [done|]. destruct (Split slash x) as [|w ws] eqn:E; [by destruct (Split_nonempty slash x)|done].
Qed.

Lemma clean_weight rooted segs stack : weight (foldl (clean_step rooted) stack segs) <= weight stack + full_weight segs.
Proof.
  revert stack. induction segs as [|g segs IH]; intros stack; cbn [foldl]; [unfold full_weight; cbn; lia|].
  etransitivity; [apply IH|]. unfold full_weight. cbn [sum_list_with]. fold (full_weight segs). unfold clean_step, weight.
  destruct (String.eqb_spec g "") as [->|Hg]; cbn [orb]; [lia|]. destruct (String.eqb g "."); [lia|].
  destruct (String.eqb g ".."); [|cbn; lia]. destruct stack as [|top below]; [destruct rooted; cbn; lia|].
  destruct (String.eqb top ".."); cbn; lia.
Qed.

Lemma length_Join segs : String.length (Join "/" segs) = weight segs - 1.
Proof.
  destruct segs as [|w ws]; [done|]. rewrite Join_cons, length_append. unfold weight. cbn [sum_list_with].
  induction ws as [|x ws IH]; cbn [foldr sum_list_with]; [cbn; lia|]. rewrite !length_append. cbn [String.length]. lia.
Qed.

Lemma weight_rev ws : weight (rev ws) = weight ws.
Proof. unfold weight. induction ws as [|w ws IH]; [done|]. cbn [rev]. rewrite sum_list_with_app, IH. cbn. lia. Qed.

(** A path with a slash at its end is made shorter, but for the root. *)
Lemma Clean_shorter x : x <> "" -> String.length (Clean (x +:+ String slash "")) < String.length (x +:+ String slash "").
Proof.
  intros Hx. rewrite length_append. cbn [String.length]. unfold Clean. rewrite Split_snoc_slash.
  set (rooted := HasPrefix (x +:+ String slash "") "/"). set (stack := foldl (clean_step rooted) [] (Split slash x ++ [""])).
  assert (Hw : weight stack <= full_weight (Split slash x)).
  { unfold stack. etransitivity; [apply clean_weight|]. unfold full_weight. rewrite sum_list_with_app. cbn. lia. }
  destruct x as [|a x]; [done|]. cbn [String.length]. destruct rooted eqn:Er.
  - assert (Hf : full_weight (Split slash (String a x)) <= S (String.length x)).
    { unfold rooted in Er. change (String a x +:+ String slash "") with (String a (x +:+ String slash "")) in Er. unfold HasPrefix in Er. cbn [String.prefix] in Er.
      destruct (ascii_dec "/" a) as [<-|]; [|done]. change (Split slash (String "/" x)) with ("" :: Split slash x). change (full_weight ("" :: Split slash x)) with (full_weight (Split slash x)).
      pose proof (full_weight_le (Split slash x)). rewrite weight_Split in *. cbn. lia. }
    rewrite length_append, length_Join, weight_rev. cbn [String.length]. lia.
  - pose proof (full_weight_le (Split slash (String a x))) as Hf. rewrite weight_Split in Hf. cbn [String.length] in Hf.
    destruct (rev stack) as [|w ws] eqn:Es; [cbn; lia|]. rewrite <- Es, length_Join, weight_rev. lia.
Qed.

Lemma upto_slash_cases s : upto_slash s = "" \/ exists x, upto_slash s = x +:+ String slash "" /\ String.length (x +:+ String slash "") <= String.length s.
Proof.
  induction s as [|a s IH]; [by left|]. cbn [upto_slash]. destruct (has_char slash s) eqn:Eh.
  - destruct IH as [E|(x & E & Hl)].
    + exfalso. revert Eh E. clear. induction s as [|b s IH]; [done|]. cbn. destruct (has_char slash s) eqn:Eh; [done|].
      rewrite orb_false_r. by intros ->.
    + right. exists (String a x). split; [by rewrite E|]. cbn [String.length]. change (String a x +:+ String slash "") with (String a (x +:+ String slash "")). cbn [String.length]. lia.
  - destruct (Ascii.eqb_spec a slash) as [->|]; [|by left]. right. exists "". split; [done|]. change (String.length ("" +:+ String slash "")) with 1. cbn [String.length]. lia.
Qed.

(** The directory above is shorter, or one of the two at which the walk ends. *)
Lemma Dir_shorter d : Dir d = "." \/ Dir d = "/" \/ String.length (Dir d) < String.length d.
Proof.
  unfold Dir. destruct (upto_slash_cases d) as [->|(x & -> & Hl)]; [by left|]. destruct (String.eqb_spec x "") as [->|Hx]; [by right; left|].
  right; right. pose proof (Clean_shorter x Hx). lia.
Qed.

Lemma find_from_ends n is_file d filename : String.length d <= n -> find_from (n + 3) is_file d filename <> None.
Proof.
  assert (Hstop : forall k c, Dir c = c -> find_from (S k) is_file c filename <> None).
  { intros k c Hc. cbn [find_from]. cbv zeta. destruct (is_file _); [done|]. by rewrite Hc, String.eqb_refl. }
  assert (Hroot : forall k c, c = "." \/ c = "/" -> find_from (S k) is_file c filename <> None).
  { intros k c [->| ->]; by apply Hstop. }
  revert d. induction n as [|n IH]; intros d Hd; cbn [Nat.add find_from]; cbv zeta; (destruct (is_file _); [done|]);
    (destruct (String.eqb (Dir d) d); [done|]); destruct (Dir_shorter d) as [E|[E|Hl]].
  1,2: apply (Hroot 1%nat); tauto.
  1: lia.
  1,2: replace (n + 3)%nat with (S (n + 2)) by lia; apply Hroot; tauto.
  apply IH. lia.
Qed.

(** The directories from a start upwards. *)
Definition above (start : string) (k : nat) : string := Nat.iter k Dir start.

Lemma above_S start k : above start (S k) = above (Dir start) k.
Proof. unfold above. apply Nat.iter_succ_r. Qed.

Lemma find_from_nearest fuel is_file d filename c :
  find_from fuel is_file d filename = Some c ->
  (exists k, c = JoinPath [above d k; filename] /\ is_file c = true /\ forall j, j < k -> is_file (JoinPath [above d j; filename]) = false)
  \/ (c = "" /\ forall k, is_file (JoinPath [above d k; filename]) = false).
Proof.
  revert d. induction fuel as [|fuel IH]; intros d; [done|]. cbn [find_from]. cbv zeta. destruct (is_file (JoinPath [d; filename])) eqn:Ef.
  - intros [= <-]. left. exists 0. split_and!; [done|done|lia].
  - destruct (String.eqb_spec (Dir d) d) as [Ed|Ed].
    + intros [= Ec]. right. split; [done|]. intros k. assert (E : above d k = d); [|by rewrite E].
      induction k as [|k IHk]; [done|]. by rewrite above_S, Ed.
    + intros [(k & E & Hf & Hj)|[E Hn]]%IH.
      * left. exists (S k). rewrite above_S. split_and!; [done|done|]. intros [|j] Hlt; [done|]. rewrite above_S. apply Hj. lia.
      * right. split; [done|]. intros [|k]; [done|]. by rewrite above_S.
Qed.

(** the instruction file that is found. The walk up from the working directory
    ends, whatever the directory; it gives the file in the nearest directory that
    has one, and nothing when no directory above has. *)
Theorem the_nearest_file_is_found is_file start filename :
  exists c, findUpward is_file start filename = Some c
  /\ ((exists k, c = JoinPath [above start k; filename] /\ is_file c = true
        /\ forall j, j < k -> is_file (JoinPath [above start j; filename]) = false)
      \/ (c = "" /\ forall k, is_file (JoinPath [above start k; filename]) = false)).
Proof.
  unfold findUpward, walk_fuel. destruct (find_from (String.length start + 3) is_file start filename) as [c|] eqn:E.
  - exists c. split; [done|]. by eapply find_from_nearest.
  - by destruct (find_from_ends (String.length start) is_file start filename).
Qed.

(** ** Samples *)

Definition sample_profile : Profile := newProfile 40 (Some "likes Go
 prefers tabs
").

Example profile_samples :
  (AddEntry true true " speaks
   Chinese " sample_profile).2 = Ok "added"
  /\ file (AddEntry true true " speaks
   Chinese " sample_profile).1 = Some "likes Go
 prefers tabs
speaks Chinese"
  /\ (AddEntry true true "writes long sentences about nothing" sample_profile).2 = Err ErrProfileFull
  /\ (ReplaceEntry true true "s" "x" sample_profile).2 = Err ErrMultiple
  /\ Dir "/a/b/c" = "/a/b" /\ Dir "a" = "." /\ Dir "../.." = ".."
  /\ findUpward (fun p => String.eqb p "/a/AGENTS.md") "/a/b/c" "AGENTS.md" = Some "/a/AGENTS.md".
Proof. vm_compute. by split_and!. Qed.

Lemma an_entry_is_a_line_witness :
  let '(p', r) := AddEntry true true "speaks Chinese" sample_profile in
  r = Ok "added" /\ nonEmptyLines (on_disk p') = ["likes Go"; "prefers tabs"; "speaks Chinese"].
Proof.
  destruct (AddEntry true true "speaks Chinese" sample_profile) as [p' r] eqn:E.
  assert (Hr : r = Ok "added") by (change r with (p', r).2; rewrite <- E; vm_compute; reflexivity).
  split; [exact Hr|]. pose proof (an_entry_is_a_line _ _ _ _ _ _ E) as Ht. rewrite Hr in Ht.
  destruct Ht as [[Hin _]|[Hl _]]; [|rewrite Hl; vm_compute; reflexivity].
  exfalso. revert Hin. apply (bool_decide_eq_true_1 (~ _)). vm_compute. reflexivity.
Defined.

Lemma one_line_is_replaced_witness :
  let '(p', r) := ReplaceEntry true true "Go" "likes Rust" sample_profile in
  r = Ok "replaced" /\ exists idx, only_hit (nonEmptyLines (on_disk sample_profile)) "Go" idx
    /\ nonEmptyLines (on_disk p') = <[idx := "likes Rust"]> ["likes Go"; "prefers tabs"].
Proof.
  destruct (ReplaceEntry true true "Go" "likes Rust" sample_profile) as [p' r] eqn:E.
  assert (Hr : r = Ok "replaced") by (change r with (p', r).2; rewrite <- E; vm_compute; reflexivity).
  split; [exact Hr|]. pose proof (one_line_is_replaced _ _ _ _ _ _ _ E) as Ht. rewrite Hr in Ht.
  destruct Ht as (idx & Hh & Hl & _). exists idx. split; [exact Hh|exact Hl].
Defined.

Lemma one_line_is_removed_witness :
  let '(p', r) := RemoveEntry true true "Go" sample_profile in
  r = Ok "removed" /\ exists idx, nonEmptyLines (on_disk p') = delete idx ["likes Go"; "prefers tabs"].
Proof.
  destruct (RemoveEntry true true "Go" sample_profile) as [p' r] eqn:E.
  assert (Hr : r = Ok "removed") by (change r with (p', r).2; rewrite <- E; vm_compute; reflexivity).
  split; [exact Hr|]. pose proof (one_line_is_removed _ _ _ _ _ _ E) as Ht. rewrite Hr in Ht.
  destruct Ht as (idx & _ & Hl). exists idx. exact Hl.
Defined.

Lemma the_project_is_kept_witness :
  mergeAgents "be brief and be kind" " use gofmt " 12 = "…d

use gofmt"
  /\ exists before, norm_rune <$> rune_list (mergeAgents "be brief and be kind" " use gofmt " 12) = before ++ (norm_rune <$> rune_list "use gofmt").
Proof.
  split; [vm_compute; reflexivity|]. apply (the_project_is_kept "be brief and be kind" " use gofmt " 12); [vm_compute; discriminate|vm_compute; discriminate].
Defined.
