(* ===== verification/Engine.v ===== *)
(** * daemon/internal/core/engine: plugins, commands and the chain of interceptors

    The engine as a state; what a plugin does when it is called (the operations
    of the hub it uses, and whether it succeeds) is an argument. A command and an
    interceptor are functions of the context, which all of them share. *)

From S2P Require Import Prelude GoString.
#[local] Open Scope string_scope.
#[local] Open Scope list_scope.

Section engine.
Context {Env Err : Type}.

(** [model.Context]: the arguments and the rest. *)
Record Context := mkContext { Args : list string; env : Env }.

Definition Handler : Type := Context -> Context * option Err.
Definition Interceptor : Type := Handler -> Handler.

Record Command := mkCommand {
  cmd_Name : string;
  Aliases : list string;
  Description : string;
  cmd_Handler : Handler;
}.

Record Tool := mkTool { tool_Name : string }.

(** [p_deps] is [None] for a plugin that is no [DependentPlugin]; [p_aware]: it is
    an [EventAwarePlugin]. *)
Record Plugin := mkPlugin { p_Name : string; p_deps : option (list string); p_aware : bool }.

Inductive Event : Type :=
  | EventPluginStarted (name : string)
  | EventPluginStopped (name : string)
  | EventOther (id : nat).

Record Engine := mkEngine {
  plugins : gmap string Plugin;
  pluginOrder : list string;
  started : gset string;
  stopped : gset string;
  stopRequested : bool;
  commands : gmap string Command;
  tools : gmap string Tool;
  interceptors : list Interceptor;
  listeners : nat;
  capabilities : gmap string nat;
  fallbackHandler : option Handler;
}.

Inductive engine_error : Type :=
  | ErrPluginTwice (name : string)
  | ErrDependency (name dep : string)
  | ErrInit (name : string)
  | ErrStopped
  | ErrStart (name : string)
  | ErrCommandTwice (name : string)
  | ErrToolTwice (name : string)
  | ErrCapabilityName
  | ErrCapabilityNil (name : string)
  | ErrCapabilityTwice (name : string)
  | ErrEmptyInput
  | ErrUnknownCommand (name : string)
  | ErrHandler (e : Err).

Definition NewEngine : Engine := mkEngine ∅ [] ∅ ∅ false ∅ ∅ [] 0 ∅ None.

Definition set_commands (m : gmap string Command) (e : Engine) : Engine :=
  mkEngine (plugins e) (pluginOrder e) (started e) (stopped e) (stopRequested e) m (tools e) (interceptors e) (listeners e) (capabilities e) (fallbackHandler e).
Definition set_tools (m : gmap string Tool) (e : Engine) : Engine :=
  mkEngine (plugins e) (pluginOrder e) (started e) (stopped e) (stopRequested e) (commands e) m (interceptors e) (listeners e) (capabilities e) (fallbackHandler e).
Definition set_capabilities (m : gmap string nat) (e : Engine) : Engine :=
  mkEngine (plugins e) (pluginOrder e) (started e) (stopped e) (stopRequested e) (commands e) (tools e) (interceptors e) (listeners e) m (fallbackHandler e).
Definition set_lifecycle (st sp : gset string) (req : bool) (e : Engine) : Engine :=
  mkEngine (plugins e) (pluginOrder e) st sp req (commands e) (tools e) (interceptors e) (listeners e) (capabilities e) (fallbackHandler e).
Definition add_plugin (p : Plugin) (e : Engine) : Engine :=
  mkEngine (<[p_Name p := p]> (plugins e)) (pluginOrder e ++ [p_Name p]) (started e) (stopped e) (stopRequested e) (commands e) (tools e) (interceptors e)
    (listeners e) (capabilities e) (fallbackHandler e).

(** ** Commands, tools, capabilities *)

(** An alias that is taken is skipped. *)
Fixpoint add_aliases (cmd : Command) (aliases : list string) (m : gmap string Command) : gmap string Command :=
  match aliases with
  | [] => m
  | a :: aliases' => add_aliases cmd aliases' (match m !! a with Some _ => m | None => <[a := cmd]> m end)
  end.

Definition RegisterCommand (cmd : Command) (e : Engine) : Engine * option engine_error :=
  match commands e !! cmd_Name cmd with
  | Some _ => (e, Some (ErrCommandTwice (cmd_Name cmd)))
  | None => (set_commands (add_aliases cmd (Aliases cmd) (<[cmd_Name cmd := cmd]> (commands e))) e, None)
  end.

(** The commands without repetitions of their names; [iteration] is an iteration
    of the map. *)
Fixpoint Commands (seen : gset string) (iteration : list Command) : list Command :=
  match iteration with
  | [] => []
  | cmd :: cmds => if bool_decide (cmd_Name cmd ∈ seen) then Commands seen cmds else cmd :: Commands ({[cmd_Name cmd]} ∪ seen) cmds
  end.

Definition RegisterTool (t : Tool) (e : Engine) : Engine * option engine_error :=
  match tools e !! tool_Name t with
  | Some _ => (e, Some (ErrToolTwice (tool_Name t)))
  | None => (set_tools (<[tool_Name t := t]> (tools e)) e, None)
  end.

(** [sort.Slice] may leave equal names in any order; the names are distinct. *)
Definition Tools (e : Engine) : list Tool := merge_sort (fun a b => string_le (tool_Name a) (tool_Name b)) (map_to_list (tools e)).*2.

Definition RegisterCapability (name : string) (capability : option nat) (e : Engine) : Engine * option engine_error :=
  if String.eqb (TrimSpace name) "" then (e, Some ErrCapabilityName)
  else
    match capability with
    | None => (e, Some (ErrCapabilityNil name))
    | Some c =>
        match capabilities e !! name with
        | Some _ => (e, Some (ErrCapabilityTwice name))
        | None => (set_capabilities (<[name := c]> (capabilities e)) e, None)
        end
    end.

Definition Capability (name : string) (e : Engine) : option nat := capabilities e !! name.
Definition UnregisterCapability (name : string) (e : Engine) : Engine := set_capabilities (delete name (capabilities e)) e.

Definition Use (i : Interceptor) (e : Engine) : Engine :=
  mkEngine (plugins e) (pluginOrder e) (started e) (stopped e) (stopRequested e) (commands e) (tools e) (interceptors e ++ [i]) (listeners e) (capabilities e)
    (fallbackHandler e).

Definition AddEventListener (e : Engine) : Engine :=
  mkEngine (plugins e) (pluginOrder e) (started e) (stopped e) (stopRequested e) (commands e) (tools e) (interceptors e) (S (listeners e)) (capabilities e)
    (fallbackHandler e).

Definition SetFallbackHandler (h : option Handler) (e : Engine) : Engine :=
  mkEngine (plugins e) (pluginOrder e) (started e) (stopped e) (stopRequested e) (commands e) (tools e) (interceptors e) (listeners e) (capabilities e) h.

(** ** Running a command *)

(** The loop that wraps the handler, from the last interceptor to the first. *)
Fixpoint wrap (is_rev : list Interceptor) (next : Handler) : Handler :=
  match is_rev with
  | [] => next
  | i :: rest => wrap rest (i next)
  end.

Definition with_args (args : list string) (ctx : Context) : Context := mkContext args (env ctx).

Definition of_handler (r : Context * option Err) : Context * option engine_error := (r.1, ErrHandler <$> r.2).

Definition Eval (ctx : Context) (input : string) (e : Engine) : Context * option engine_error :=
  match Fields input with
  | [] => (ctx, Some ErrEmptyInput)
  | name :: rest =>
      match commands e !! name with
      | None =>
          match fallbackHandler e with
          | Some h => of_handler (h (with_args (if HasPrefix input "/" then rest else name :: rest) ctx))
          | None => (ctx, Some (ErrUnknownCommand name))
          end
      | Some cmd => of_handler (wrap (rev (interceptors e)) (cmd_Handler cmd) (with_args rest ctx))
      end
  end.

(** ** Plugins *)

(** What a plugin uses of the hub while it is called. *)
Inductive hub_op : Type :=
  | HCommand (cmd : Command)
  | HTool (t : Tool)
  | HListener
  | HCapability (name : string) (c : option nat)
  | HUnregister (name : string)
  | HFallback (h : option Handler)
  | HNotify (ev : Event).

Record behaviour := mkBehaviour { uses : list hub_op; succeeds : bool }.

(** What is seen from outside. *)
Inductive item : Type :=
  | TInit (name : string) (ok : bool)
  | TStart (name : string) (ok : bool)
  | TStop (name : string) (ok : bool)
  | TEvent (name : string) (ev : Event)
  | TListener (i : nat) (ev : Event).

Definition aware (e : Engine) (name : string) : bool :=
  match plugins e !! name with Some p => p_aware p | None => false end.

Definition Notify (ev : Event) (e : Engine) : list item :=
  ((fun n => TEvent n ev) <$> List.filter (aware e) (pluginOrder e)) ++ ((fun i => TListener i ev) <$> seq 0 (listeners e)).

Definition use (op : hub_op) (e : Engine) : Engine * list item :=
  match op with
  | HCommand cmd => ((RegisterCommand cmd e).1, [])
  | HTool t => ((RegisterTool t e).1, [])
  | HListener => (AddEventListener e, [])
  | HCapability name c => ((RegisterCapability name c e).1, [])
  | HUnregister name => (UnregisterCapability name e, [])
  | HFallback h => (SetFallbackHandler h e, [])
  | HNotify ev => (e, Notify ev e)
  end.

Fixpoint use_all (ops : list hub_op) (e : Engine) : Engine * list item :=
  match ops with
  | [] => (e, [])
  | op :: ops' =>
      let '(e, t1) := use op e in
      let '(e, t2) := use_all ops' e in
      (e, t1 ++ t2)
  end.

Fixpoint missing_dependency (deps : list string) (e : Engine) : option string :=
  match deps with
  | [] => None
  | d :: deps' => match plugins e !! d with Some _ => missing_dependency deps' e | None => Some d end
  end.

Definition Register (b : behaviour) (p : Plugin) (e : Engine) : Engine * list item * option engine_error :=
  match plugins e !! p_Name p with
  | Some _ => (e, [], Some (ErrPluginTwice (p_Name p)))
  | None =>
      match missing_dependency (default [] (p_deps p)) e with
      | Some dep => (e, [], Some (ErrDependency (p_Name p) dep))
      | None =>
          let '(e, t) := use_all (uses b) e in
          if succeeds b then (add_plugin p e, t ++ [TInit (p_Name p) true], None) else (e, t ++ [TInit (p_Name p) false], Some (ErrInit (p_Name p)))
      end
  end.

(** The loop of [StopAll] over the names, last first. *)
Fixpoint stop_from (stops : string -> behaviour) (names_rev : list string) (e : Engine) : Engine * list item :=
  match names_rev with
  | [] => (e, [])
  | name :: rest =>
      if bool_decide (name ∈ stopped e) then stop_from stops rest e
      else
        let wasStarted := bool_decide (name ∈ started e) in
        let '(e, t1) := use_all (uses (stops name)) e in
        if succeeds (stops name) then
          let e := set_lifecycle (started e) ({[name]} ∪ stopped e) (stopRequested e) e in
          let t2 := if wasStarted then Notify (EventPluginStopped name) e else [] in
          let '(e, t3) := stop_from stops rest e in
          (e, t1 ++ TStop name true :: t2 ++ t3)
        else
          let '(e, t3) := stop_from stops rest e in
          (e, t1 ++ TStop name false :: t3)
  end.

Definition StopAll (stops : string -> behaviour) (e : Engine) : Engine * list item :=
  stop_from stops (rev (pluginOrder e)) (set_lifecycle (started e) (stopped e) true e).

(** The loop of [StartAll] over the names. *)
Fixpoint start_from (starts stops : string -> behaviour) (names : list string) (e : Engine) : Engine * list item * option engine_error :=
  match names with
  | [] => (e, [], None)
  | name :: rest =>
      if bool_decide (name ∈ started e) then start_from starts stops rest e
      else
        let '(e, t1) := use_all (uses (starts name)) e in
        if succeeds (starts name) then
          let e := set_lifecycle ({[name]} ∪ started e) (stopped e) (stopRequested e) e in
          let t2 := Notify (EventPluginStarted name) e in
          let '(e, t3, r) := start_from starts stops rest e in
          (e, t1 ++ TStart name true :: t2 ++ t3, r)
        else
          let '(e, t2) := StopAll stops e in
          (e, t1 ++ TStart name false :: t2, Some (ErrStart name))
  end.

Definition StartAll (starts stops : string -> behaviour) (e : Engine) : Engine * list item * option engine_error :=
  if stopRequested e then (e, [], Some ErrStopped) else start_from starts stops (pluginOrder e) e.

Definition HasPlugin (name : string) (e : Engine) : bool := bool_decide (is_Some (plugins e !! name)).
Definition Plugins (e : Engine) : list string := pluginOrder e.
End engine.
Arguments Context : clear implicits.
Arguments Command : clear implicits.
Arguments Engine : clear implicits.
Arguments hub_op : clear implicits.
Arguments behaviour : clear implicits.
Arguments engine_error : clear implicits.
Arguments Handler : clear implicits.
Arguments Interceptor : clear implicits.

(** * The life of the plugins, the commands and the chain of interceptors *)

Section props.
Context {Env Err : Type}.
Implicit Types (e : Engine Env Err) (tr : list item).

(** ** What the life of the plugins reads of an engine *)

Record core := mkCore {
  c_plugins : gmap string Plugin;
  c_order : list string;
  c_started : gset string;
  c_stopped : gset string;
  c_req : bool;
}.

Definition core_of e : core := mkCore (plugins e) (pluginOrder e) (started e) (stopped e) (stopRequested e).

Definition quiet (x : item) : Prop := match x with TEvent _ _ | TListener _ _ => True | _ => False end.

Lemma Notify_quiet ev e : Forall quiet (Notify ev e).
Proof. unfold Notify. apply Forall_app. split; apply Forall_forall; intros x (y & -> & _)%list_elem_of_fmap; exact I. Qed.

Lemma use_core op e e' t : use op e = (e', t) -> core_of e' = core_of e /\ Forall quiet t.
Proof.
  destruct op; cbn [use]; try (intros [= <- <-]; split; [|by constructor]); try done.
  - unfold RegisterCommand. by destruct (commands e !! cmd_Name cmd).
  - unfold RegisterTool. by destruct (tools e !! tool_Name t0).
  - unfold RegisterCapability. destruct (String.eqb _ _); [done|]. destruct c; [|done]. by destruct (capabilities e !! name).
  - intros [= <- <-]. split; [done|apply Notify_quiet].
Qed.

Lemma use_all_core ops : forall e e' t, use_all ops e = (e', t) -> core_of e' = core_of e /\ Forall quiet t.
Proof.
  induction ops as [|op ops IH]; intros e e' t; cbn [use_all]; [intros [= <- <-]; by split|].
  destruct (use op e) as [e1 t1] eqn:E1. destruct (use_all ops e1) as [e2 t2] eqn:E2. intros [= <- <-].
  apply use_core in E1 as [E1 H1t]. apply IH in E2 as [E2 H2t]. split; [by rewrite E2|by apply Forall_app].
Qed.

(** ** The invariant *)

Definition deps (p : Plugin) : list string := default [] (p_deps p).

(** What must have happened before an item. *)
Definition item_ok (c : core) (before : list item) (x : item) : Prop :=
  match x with
  | TInit n _ => TInit n true ∉ before
  | TStart n _ =>
      TStart n true ∉ before /\ (forall m ok, TStop m ok ∉ before) /\ TInit n true ∈ before
      /\ exists p, c_plugins c !! n = Some p /\ forall d, d ∈ deps p -> TStart d true ∈ before
  | TStop n _ =>
      TStop n true ∉ before /\ TInit n true ∈ before
      /\ forall m p, c_plugins c !! m = Some p -> n ∈ deps p -> TInit m true ∈ before -> exists ok, TStop m ok ∈ before
  | _ => True
  end.

Definition good (c : core) tr : Prop := forall before x after, tr = before ++ x :: after -> item_ok c before x.

Record inv (c : core) tr : Prop := {
  v_nodup : NoDup (c_order c);
  v_plugins : forall n, n ∈ c_order c <-> is_Some (c_plugins c !! n);
  v_deps : forall i n p d, c_order c !! i = Some n -> c_plugins c !! n = Some p -> d ∈ deps p -> d ∈ take i (c_order c);
  v_init : forall n, TInit n true ∈ tr <-> n ∈ c_order c;
  v_started : forall n, TStart n true ∈ tr <-> n ∈ c_started c;
  v_stopped : forall n, TStop n true ∈ tr <-> n ∈ c_stopped c;
  v_prefix : forall l1 n l2, c_order c = l1 ++ n :: l2 -> n ∈ c_started c -> Forall (fun m => m ∈ c_started c) l1;
  v_req : forall n ok, TStop n ok ∈ tr -> c_req c = true;
  v_known : forall n, n ∈ c_started c -> n ∈ c_order c;
  v_good : good c tr;
}.

Lemma good_snoc c tr x : good c tr -> item_ok c tr x -> good c (tr ++ [x]).
Proof.
  intros Hg Hx before y after E. destruct (decide (after = [])) as [->|Hne].
  - apply app_inj_tail in E as [-> ->]. done.
  - destruct (exists_last Hne) as (after' & z & ->). apply (Hg before y after').
    rewrite app_comm_cons, app_assoc in E. by apply app_inj_tail in E as [-> _].
Qed.

Lemma quiet_not x y : quiet x -> match y with TEvent _ _ | TListener _ _ => False | _ => True end -> x <> y.
Proof. by destruct x, y. Qed.

Lemma elem_quiet tr t y : Forall quiet t -> match y with TEvent _ _ | TListener _ _ => False | _ => True end -> y ∈ tr ++ t <-> y ∈ tr.
Proof.
  intros Hq Hy. rewrite elem_of_app. split; [|by left]. intros [|Hin]; [done|]. rewrite Forall_forall in Hq. by destruct (quiet_not y y (Hq y Hin) Hy).
Qed.

Lemma engine_quiet c tr t : Forall quiet t -> inv c tr -> inv c (tr ++ t).
Proof.
  intros Hq [? ? ? Hi Hs Hp ? Hr ? Hg]. split; try done.
  - intros n. by rewrite elem_quiet.
  - intros n. by rewrite elem_quiet.
  - intros n. by rewrite elem_quiet.
  - intros n ok. rewrite elem_quiet by done. apply Hr.
  - clear -Hq Hg. induction t as [|x t IH] using rev_ind; [by rewrite app_nil_r|]. apply Forall_app in Hq as [Hq Hx]. rewrite app_assoc.
    apply good_snoc; [by apply IH|]. apply Forall_inv in Hx. by destruct x.
Qed.

(** ** Start and stop *)

Definition start_one (n : string) (c : core) : core := mkCore (c_plugins c) (c_order c) ({[n]} ∪ c_started c) (c_stopped c) (c_req c).
Definition stop_one (n : string) (c : core) : core := mkCore (c_plugins c) (c_order c) (c_started c) ({[n]} ∪ c_stopped c) (c_req c).
Definition request_stop (c : core) : core := mkCore (c_plugins c) (c_order c) (c_started c) (c_stopped c) true.

Lemma snoc_in {A} (x y : A) l : x ∈ l ++ [y] <-> x ∈ l \/ x = y.
Proof. by rewrite elem_of_app, list_elem_of_singleton. Qed.

Lemma snoc_other {A} (x y : A) l : x <> y -> x ∈ l ++ [y] <-> x ∈ l.
Proof. rewrite snoc_in. tauto. Qed.

(** A plugin whose predecessors are started, and nothing is stopped. *)
Lemma start_item_ok c tr pre n post ok : inv c tr -> c_req c = false -> c_order c = pre ++ n :: post ->
  Forall (fun m => m ∈ c_started c) pre -> n ∉ c_started c -> item_ok c tr (TStart n ok).
Proof.
  intros Hi Hr Ho Hpre Hn. assert (Hin : n ∈ c_order c) by (rewrite Ho; set_solver). cbn. split_and!.
  - by rewrite (v_started _ _ Hi).
  - intros m b Hm%(v_req _ _ Hi). congruence.
  - by apply (v_init _ _ Hi).
  - apply (v_plugins _ _ Hi) in Hin as [p Hp]. exists p. split; [done|]. intros d Hd.
    pose proof (v_deps _ _ Hi (length pre) n p d ltac:(rewrite Ho; by apply list_lookup_middle) Hp Hd) as Hin.
    rewrite Ho, take_app_length in Hin. apply (v_started _ _ Hi). rewrite Forall_forall in Hpre. by apply Hpre.
Qed.

Lemma start_true c tr pre n post : inv c tr -> c_req c = false -> c_order c = pre ++ n :: post ->
  Forall (fun m => m ∈ c_started c) pre -> n ∉ c_started c -> inv (start_one n c) (tr ++ [TStart n true]).
Proof.
  intros Hi Hr Ho Hpre Hn. pose proof (start_item_ok c tr pre n post true Hi Hr Ho Hpre Hn) as Hok. destruct Hi. split; cbn; try done.
  - intros m. rewrite snoc_in. naive_solver.
  - intros m. rewrite snoc_in, v_started0. set_solver.
  - intros m. rewrite snoc_in. naive_solver.
  - intros l1 m l2 E [->%elem_of_singleton|Hm]%elem_of_union.
    + rewrite Ho in E. assert (l1 = pre) as ->; [|eapply Forall_impl; [done|intros ? ?; by apply elem_of_union_r]]. rewrite Ho in v_nodup0. clear -E v_nodup0.
      revert l1 E v_nodup0. induction pre as [|x pre IH]; intros [|y l1]; cbn; try done.
      * intros [= -> ->] [Hno _]%NoDup_cons. destruct Hno. apply elem_of_app. right. by left.
      * intros [= -> <-] [Hno _]%NoDup_cons. destruct Hno. apply elem_of_app. right. by left.
      * intros [= -> E] [_ Hnd]%NoDup_cons. by rewrite (IH l1 E Hnd).
    + eapply Forall_impl; [by eapply v_prefix0|intros ? ?; by apply elem_of_union_r].
  - intros m b. rewrite snoc_in. intros [Hm|?]; [by eapply v_req0|done].
  - intros m [->%elem_of_singleton|Hm]%elem_of_union; [rewrite Ho; set_solver|by apply v_known0].
  - apply (good_snoc c); done.
Qed.

Lemma start_false c tr pre n post : inv c tr -> c_req c = false -> c_order c = pre ++ n :: post ->
  Forall (fun m => m ∈ c_started c) pre -> n ∉ c_started c -> inv c (tr ++ [TStart n false]).
Proof.
  intros Hi Hr Ho Hpre Hn. pose proof (start_item_ok c tr pre n post false Hi Hr Ho Hpre Hn) as Hok. destruct Hi. split; try done.
  - intros m. rewrite snoc_in. naive_solver.
  - intros m. rewrite snoc_in. naive_solver.
  - intros m. rewrite snoc_in. naive_solver.
  - intros m b. rewrite snoc_in. intros [Hm|?]; [by eapply v_req0|done].
  - by apply good_snoc.
Qed.

(** A plugin behind which every stop was called. *)
Lemma stop_item_ok c tr pre n post ok : inv c tr -> c_order c = pre ++ n :: post ->
  Forall (fun m => exists b, TStop m b ∈ tr) post -> n ∉ c_stopped c -> item_ok c tr (TStop n ok).
Proof.
  intros Hi Ho Hpost Hn. assert (Hin : n ∈ c_order c) by (rewrite Ho; set_solver). cbn. split_and!.
  - by rewrite (v_stopped _ _ Hi).
  - by apply (v_init _ _ Hi).
  - intros m p Hp Hd Hm%(v_init _ _ Hi). apply list_elem_of_lookup in Hm as [i Hm].
    pose proof (v_deps _ _ Hi i m p n Hm Hp Hd) as (j & Hj & Hlt)%elem_of_take. rewrite Ho in Hm.
    assert (Ej : j = length pre). { apply (NoDup_lookup (c_order c) j (length pre) n); [apply Hi|done|]. rewrite Ho. by apply list_lookup_middle. }
    rewrite lookup_app_r in Hm by lia. destruct (i - length pre) as [|k] eqn:Ek; [lia|]. cbn in Hm.
    rewrite Forall_forall in Hpost. apply Hpost. by eapply list_elem_of_lookup_2.
Qed.

Lemma stop_inv (b : bool) c tr pre n post : inv c tr -> c_req c = true -> c_order c = pre ++ n :: post ->
  Forall (fun m => exists b, TStop m b ∈ tr) post -> n ∉ c_stopped c -> inv (if b then stop_one n c else c) (tr ++ [TStop n b]).
Proof.
  intros Hi Hr Ho Hpost Hn. pose proof (stop_item_ok c tr pre n post b Hi Ho Hpost Hn) as Hok. destruct Hi.
  assert (Hgood : good c (tr ++ [TStop n b])) by by apply good_snoc. destruct b; split; cbn; try done.
  all: try (intros m; rewrite snoc_other by done; done).
  - intros m. rewrite snoc_in, v_stopped0, elem_of_union, elem_of_singleton. split; [intros [?|[= ->]]; tauto|intros [->|?]; tauto].
Qed.

Lemma stop_from_inv stops names_rev : forall e tr post e' t,
  stop_from stops names_rev e = (e', t) -> inv (core_of e) tr -> stopRequested e = true -> pluginOrder e = rev names_rev ++ post ->
  Forall (fun m => exists b, TStop m b ∈ tr) post ->
  inv (core_of e') (tr ++ t) /\ pluginOrder e' = pluginOrder e /\ stopRequested e' = true /\ Forall (fun m => exists b, TStop m b ∈ tr ++ t) (pluginOrder e').
Proof.
  assert (Hmono : forall tr t l, Forall (fun m => exists b, TStop m b ∈ tr) l -> Forall (fun m => exists b, TStop m b ∈ tr ++ t) l).
  { intros tr t l Hl. eapply Forall_impl; [done|]. intros m [b Hb]. exists b. set_solver. }
  induction names_rev as [|n rest IH]; intros e tr post e' t; cbn [stop_from].
  - intros [= <- <-] Hi Hr Ho Hp. rewrite app_nil_r. cbn in Ho. by rewrite Ho.
  - cbn [rev]. intros E Hi Hr Ho Hp. rewrite <- app_assoc in Ho. cbn in Ho. destruct (bool_decide_reflect (n ∈ stopped e)) as [Hs|Hs].
    + eapply IH; try done. constructor; [|done]. exists true. by apply (v_stopped _ _ Hi).
    + cbv zeta in E. destruct (use_all (uses (stops n)) e) as [e1 t1] eqn:E1. apply use_all_core in E1 as [Ec Hq].
      assert (Hcore : plugins e1 = plugins e /\ pluginOrder e1 = pluginOrder e /\ started e1 = started e /\ stopped e1 = stopped e /\ stopRequested e1 = stopRequested e)
        by (unfold core_of in Ec; by injection Ec).
      destruct Hcore as (_ & Eo & _ & Es & Er). pose proof (engine_quiet _ _ _ Hq Hi) as Hi1. rewrite <- Ec in Hi1.
      destruct (succeeds (stops n)).
      * pose proof (stop_inv true _ _ _ n post Hi1 ltac:(cbn; congruence) ltac:(cbn; by rewrite Eo) (Hmono _ _ _ Hp) ltac:(cbn; by rewrite Es)) as Hi2.
        set (e2 := set_lifecycle (started e1) ({[n]} ∪ stopped e1) (stopRequested e1) e1) in *.
        change (stop_one n (core_of e1)) with (core_of e2) in Hi2.
        set (t2 := if bool_decide (n ∈ started e) then Notify (EventPluginStopped n) e2 else []) in *.
        assert (Hq2 : Forall quiet t2) by (unfold t2; destruct (bool_decide _); [apply Notify_quiet|constructor]).
        destruct (stop_from stops rest e2) as [e3 t3] eqn:E3. injection E as <- <-.
        assert (Hl : tr ++ t1 ++ TStop n true :: t2 ++ t3 = (((tr ++ t1) ++ [TStop n true]) ++ t2) ++ t3) by (by rewrite <- !app_assoc).
        rewrite Hl. rewrite <- Eo. change (pluginOrder e1) with (pluginOrder e2).
        eapply (IH _ _ (n :: post)); [done|by apply engine_quiet|cbn; congruence|cbn; by rewrite Eo|].
        apply Hmono. constructor; [exists true; set_solver|]. by apply Hmono, Hmono.
      * pose proof (stop_inv false _ _ _ n post Hi1 ltac:(cbn; congruence) ltac:(cbn; by rewrite Eo) (Hmono _ _ _ Hp) ltac:(cbn; by rewrite Es)) as Hi2.
        destruct (stop_from stops rest e1) as [e3 t3] eqn:E3. injection E as <- <-.
        assert (Hl : tr ++ t1 ++ TStop n false :: t3 = ((tr ++ t1) ++ [TStop n false]) ++ t3) by (by rewrite <- !app_assoc).
        rewrite Hl. rewrite <- Eo. eapply (IH _ _ (n :: post)); [done|done|congruence|by rewrite Eo|].
        constructor; [exists false; set_solver|]. by apply Hmono, Hmono.
Qed.

Lemma StopAll_inv stops e tr e' t : StopAll stops e = (e', t) -> inv (core_of e) tr ->
  inv (core_of e') (tr ++ t) /\ pluginOrder e' = pluginOrder e /\ stopRequested e' = true /\ Forall (fun m => exists b, TStop m b ∈ tr ++ t) (pluginOrder e').
Proof.
  unfold StopAll. intros E Hi. change (pluginOrder e) with (pluginOrder (set_lifecycle (started e) (stopped e) true e)).
  eapply (stop_from_inv _ _ _ tr []); [done| |done|by rewrite rev_involutive, app_nil_r|constructor].
  destruct Hi. split; cbn in *; try done.
Qed.

Lemma start_from_inv starts stops names : forall e tr pre e' t r,
  start_from starts stops names e = (e', t, r) -> inv (core_of e) tr -> stopRequested e = false -> pluginOrder e = pre ++ names ->
  Forall (fun m => m ∈ started e) pre ->
  inv (core_of e') (tr ++ t) /\ pluginOrder e' = pluginOrder e
  /\ match r with
     | None => stopRequested e' = false /\ Forall (fun m => m ∈ started e') (pluginOrder e')
     | Some _ => stopRequested e' = true /\ Forall (fun m => exists b, TStop m b ∈ tr ++ t) (pluginOrder e')
     end.
Proof.
  induction names as [|n rest IH]; intros e tr pre e' t r; cbn [start_from].
  - intros [= <- <- <-] Hi Hr Ho Hp. rewrite !app_nil_r in *. by rewrite Ho.
  - intros E Hi Hr Ho Hp. destruct (bool_decide_reflect (n ∈ started e)) as [Hs|Hs].
    + eapply (IH _ _ (pre ++ [n])); [done..|by rewrite <- app_assoc|]. apply Forall_app. by split; [|apply Forall_singleton].
    + cbv zeta in E. destruct (use_all (uses (starts n)) e) as [e1 t1] eqn:E1. apply use_all_core in E1 as [Ec Hq].
      assert (Hcore : pluginOrder e1 = pluginOrder e /\ started e1 = started e /\ stopRequested e1 = stopRequested e)
        by (unfold core_of in Ec; by injection Ec).
      destruct Hcore as (Eo & Es & Er). pose proof (engine_quiet _ _ _ Hq Hi) as Hi1. rewrite <- Ec in Hi1.
      assert (Hp1 : Forall (fun m => m ∈ c_started (core_of e1)) pre) by (cbn; by rewrite Es).
      destruct (succeeds (starts n)).
      * pose proof (start_true _ _ pre n rest Hi1 ltac:(cbn; congruence) ltac:(cbn; by rewrite Eo) Hp1 ltac:(cbn; by rewrite Es)) as Hi2.
        set (e2 := set_lifecycle ({[n]} ∪ started e1) (stopped e1) (stopRequested e1) e1) in *.
        change (start_one n (core_of e1)) with (core_of e2) in Hi2.
        destruct (start_from starts stops rest e2) as [[e3 t3] r3] eqn:E3. injection E as <- <- <-.
        assert (Hl : tr ++ t1 ++ TStart n true :: Notify (EventPluginStarted n) e2 ++ t3 = (((tr ++ t1) ++ [TStart n true]) ++ Notify (EventPluginStarted n) e2) ++ t3)
          by (by rewrite <- !app_assoc).
        rewrite Hl. rewrite <- Eo. change (pluginOrder e1) with (pluginOrder e2).
        eapply (IH _ _ (pre ++ [n])); [done|by apply engine_quiet, Hi2; apply Notify_quiet|cbn; congruence|cbn; by rewrite Eo, <- app_assoc|].
        apply Forall_app. split; [|apply Forall_singleton; cbn; set_solver]. eapply Forall_impl; [exact Hp1|]. intros m Hm. cbn in *. by apply elem_of_union_r.
      * pose proof (start_false _ _ pre n rest Hi1 ltac:(cbn; congruence) ltac:(cbn; by rewrite Eo) Hp1 ltac:(cbn; by rewrite Es)) as Hi2.
        destruct (StopAll stops e1) as [e2 t2] eqn:E2. injection E as <- <- <-.
        assert (Hl : tr ++ t1 ++ TStart n false :: t2 = ((tr ++ t1) ++ [TStart n false]) ++ t2) by (by rewrite <- !app_assoc).
        rewrite Hl. destruct (StopAll_inv _ _ _ _ _ E2 Hi2) as (Hi3 & Eo3 & Hr3 & Hst). split_and!; try done. by rewrite Eo3.
Qed.

Lemma missing_dependency_None ds e : missing_dependency ds e = None -> forall d, d ∈ ds -> is_Some (plugins e !! d).
Proof.
  induction ds as [|x ds IH]; cbn; [set_solver|]. destruct (plugins e !! x) eqn:Ex; [|done]. intros Hm d [-> |Hd]%elem_of_cons; [by eexists|by apply IH].
Qed.

Lemma good_core c c' tr : good c tr ->
  (forall n p, c_plugins c !! n = Some p -> c_plugins c' !! n = Some p) ->
  (forall n p, c_plugins c' !! n = Some p -> TInit n true ∈ tr -> c_plugins c !! n = Some p) -> good c' tr.
Proof.
  intros Hg Hup Hdown before x after E. specialize (Hg before x after E). destruct x; cbn in *; try done.
  - destruct Hg as (? & ? & ? & p & Hp & Hd). split_and!; try done. exists p. split; [by apply Hup|done].
  - destruct Hg as (? & ? & Hd). split_and!; try done. intros m p Hp Hin Hm. apply (Hd m p); try done. apply Hdown; [done|]. rewrite E. set_solver.
Qed.

Lemma Register_inv b p e tr e' t r : Register b p e = (e', t, r) -> inv (core_of e) tr -> inv (core_of e') (tr ++ t).
Proof.
  unfold Register. destruct (plugins e !! p_Name p) eqn:Ep; [intros [= <- <- <-]; by rewrite app_nil_r|].
  destruct (missing_dependency _ e) eqn:Em; [intros [= <- <- <-]; by rewrite app_nil_r|]. pose proof (missing_dependency_None _ _ Em) as Hdep.
  destruct (use_all (uses b) e) as [e1 t1] eqn:E1. apply use_all_core in E1 as [Ec Hq]. intros E Hi.
  assert (Hcore : plugins e1 = plugins e /\ pluginOrder e1 = pluginOrder e) by (unfold core_of in Ec; by injection Ec). destruct Hcore as [El Eo].
  pose proof (engine_quiet _ _ _ Hq Hi) as Hi1. rewrite <- Ec in Hi1.
  assert (Hnew : p_Name p ∉ pluginOrder e1). { intros Hin%(v_plugins _ _ Hi1). cbn in Hin. rewrite El, Ep in Hin. by destruct Hin. }
  assert (Hok : forall ok, item_ok (core_of e1) (tr ++ t1) (TInit (p_Name p) ok)). { intros ok. cbn. by rewrite (v_init _ _ Hi1). }
  destruct (succeeds b); injection E as <- <- <-; rewrite app_assoc.
  2:{ specialize (Hok false). destruct Hi1. split; try done; try (intros m; rewrite snoc_other by done; done); [|by apply good_snoc].
      intros m b'. rewrite snoc_other by done. apply v_req0. }
  specialize (Hok true). pose proof Hi1 as [Hnd Hpl Hde Hin Hst Hsp Hpre Hreq Hkn Hg]. cbn in *. split; cbn.
  - apply NoDup_app. split_and!; [done| |apply NoDup_singleton]. intros x Hx ->%list_elem_of_singleton. done.
  - intros n. rewrite snoc_in, Hpl. destruct (decide (n = p_Name p)) as [->|Hn]; [rewrite lookup_insert_eq; split; [by eexists|by right]|].
    rewrite lookup_insert_ne by done. split; [by intros [|]|by left].
  - intros i n q d Hi' Hq' Hd. apply lookup_app_Some in Hi' as [Hi'|[Hl Hi']].
    + assert (Hn : n <> p_Name p) by (intros ->; apply list_elem_of_lookup_2 in Hi'; done).
      rewrite lookup_insert_ne in Hq' by done. rewrite take_app_le by (apply lookup_lt_Some in Hi'; lia). by eapply Hde.
    + apply list_lookup_singleton_Some in Hi' as [E0 <-]. rewrite lookup_insert_eq in Hq'. injection Hq' as <-.
      replace i with (length (pluginOrder e1)) by lia. rewrite take_app_length. apply Hpl. rewrite El. by apply Hdep.
  - intros n. rewrite !snoc_in, Hin. split; [intros [?|[= ->]]; tauto|intros [?| ->]; tauto].
  - intros n. by rewrite snoc_other.
  - intros n. by rewrite snoc_other.
  - intros l1 n l2 E Hn. destruct (decide (l2 = [])) as [->|Hne].
    + apply app_inj_tail in E as [_ E2]. subst n. by destruct Hnew; apply Hkn.
    + destruct (exists_last Hne) as (l2' & z & ->). rewrite app_comm_cons, app_assoc in E. apply app_inj_tail in E as [E _]. by eapply Hpre.
  - intros n ok. rewrite snoc_other by done. apply Hreq.
  - intros n Hn. apply snoc_in. left. by apply Hkn.
  - apply good_snoc; [|done]. apply (good_core (core_of e1)); [done| |]; cbn.
    + intros n q Hq'. rewrite lookup_insert_ne; [done|]. intros <-. by rewrite El, Ep in Hq'.
    + intros n q Hq' Hn. rewrite lookup_insert_ne in Hq'; [done|]. intros <-. apply Hnew, Hin, Hn.
Qed.

(** ** Everything that is asked of an engine *)

Inductive engine_op : Type :=
  | ORegister (b : behaviour Env Err) (p : Plugin)
  | OStartAll (starts stops : string -> behaviour Env Err)
  | OStopAll (stops : string -> behaviour Env Err)
  | OUse (op : hub_op Env Err).

Definition apply_op (o : engine_op) (et : Engine Env Err * list item) : Engine Env Err * list item :=
  let '(e, tr) := et in
  match o with
  | ORegister b p => let '(e', t, _) := Register b p e in (e', tr ++ t)
  | OStartAll starts stops => let '(e', t, _) := StartAll starts stops e in (e', tr ++ t)
  | OStopAll stops => let '(e', t) := StopAll stops e in (e', tr ++ t)
  | OUse op => let '(e', t) := use op e in (e', tr ++ t)
  end.

Definition run (ops : list engine_op) : Engine Env Err * list item := foldl (fun et o => apply_op o et) (NewEngine, []) ops.

Lemma apply_op_inv o e tr : inv (core_of e) tr -> inv (core_of (apply_op o (e, tr)).1) (apply_op o (e, tr)).2.
Proof.
  intros Hi. destruct o as [b p|starts stops|stops|op]; cbn [apply_op].
  - destruct (Register b p e) as [[e' t] r] eqn:E. by eapply Register_inv.
  - unfold StartAll. destruct (stopRequested e) eqn:Er; [cbn; by rewrite app_nil_r|].
    destruct (start_from starts stops (pluginOrder e) e) as [[e' t] r] eqn:E. by eapply (start_from_inv _ _ _ _ _ []); try done.
  - destruct (StopAll stops e) as [e' t] eqn:E. by eapply StopAll_inv.
  - destruct (use op e) as [e' t] eqn:E. apply use_core in E as [Ec Hq]. cbn. rewrite Ec. by apply engine_quiet.
Qed.

Lemma engine_run_inv ops : inv (core_of (run ops).1) (run ops).2.
Proof.
  unfold run. assert (Hgen : forall et, inv (core_of et.1) et.2 -> inv (core_of (foldl (fun et o => apply_op o et) et ops).1) (foldl (fun et o => apply_op o et) et ops).2).
  { induction ops as [|o ops IH]; intros [e tr] Hi; [done|]. cbn [foldl]. apply IH. by apply apply_op_inv. }
  apply Hgen. cbn. split; cbn; try set_solver.
  all: try (intros [] x; done).
  - constructor.
  - intros n. rewrite lookup_empty. split; [set_solver|by intros []].
Qed.

(** C35: the life of the plugins. Whatever is registered, started, stopped and used
    in whatever order, a plugin is started only after its initialisation and after
    the start of everything it depends on, at most once, and never after a stop
    was called; it is stopped only after the stop of everything registered that
    depends on it was called, and never again after a stop that succeeded. *)
Theorem plugins_live_in_order ops before x after :
  let '(e, tr) := run ops in tr = before ++ x :: after ->
  match x with
  | TStart n _ =>
      TStart n true ∉ before /\ (forall m ok, TStop m ok ∉ before) /\ TInit n true ∈ before
      /\ exists p, plugins e !! n = Some p /\ forall d, d ∈ deps p -> TStart d true ∈ before
  | TStop n _ =>
      TStop n true ∉ before /\ TInit n true ∈ before
      /\ forall m p, plugins e !! m = Some p -> n ∈ deps p -> TInit m true ∈ before -> exists ok, TStop m ok ∈ before
  | _ => True
  end.
Proof.
  pose proof (engine_run_inv ops) as Hi. destruct (run ops) as [e tr]. cbn in Hi. intros E. pose proof (v_good _ _ Hi before x after E) as Hx.
  by destruct x.
Qed.

(** A start of all is all or nothing. When it succeeds every registered plugin
    is started; when it fails the stop of every one of them was called, also of
    those that were never started, and no later start does anything. *)
Theorem a_start_is_all_or_nothing ops starts stops :
  let '(e, tr) := run ops in
  let '(e', t, r) := StartAll starts stops e in
  match r with
  | None => forall n, n ∈ pluginOrder e' -> TStart n true ∈ tr ++ t
  | Some ErrStopped => e' = e /\ t = []
  | Some _ =>
      (forall n, n ∈ pluginOrder e' -> exists ok, TStop n ok ∈ tr ++ t)
      /\ forall starts' stops', StartAll starts' stops' e' = (e', [], Some ErrStopped)
  end.
Proof.
  pose proof (engine_run_inv ops) as Hi. destruct (run ops) as [e tr]. cbn in Hi. unfold StartAll at 1. destruct (stopRequested e) eqn:Er; [done|].
  destruct (start_from starts stops (pluginOrder e) e) as [[e' t] r] eqn:E.
  destruct (start_from_inv _ _ _ _ _ [] _ _ _ E Hi Er ltac:(done) ltac:(constructor)) as (Hi' & Eo & Hr).
  destruct r as [err|].
  - destruct Hr as [Hreq Hst]. rewrite Forall_forall in Hst.
    assert (Hne : err <> ErrStopped).
    { clear -E. revert E. generalize (pluginOrder e) as names. intros names. revert e t. induction names as [|n names IH]; intros e t; cbn [start_from]; [done|].
      destruct (bool_decide _); [apply IH|]. cbv zeta. destruct (use_all _ e) as [e1 t1]. destruct (succeeds _).
      - destruct (start_from _ _ names _) as [[e3 t3] r3] eqn:E3. intros [= -> <- ->]. by eapply IH.
      - destruct (StopAll stops e1). by intros [= <- <- <-]. }
    destruct err; try done; (split; [done|]; intros; unfold StartAll; by rewrite Hreq).
  - destruct Hr as [_ Hst]. rewrite Forall_forall in Hst. intros n Hn. apply (v_started _ _ Hi'). by apply Hst.
Qed.

(** ** Commands *)

Lemma add_aliases_lookup (cmd : Command Env Err) al : forall m k,
  add_aliases cmd al m !! k = match m !! k with Some c => Some c | None => if decide (k ∈ al) then Some cmd else None end.
Proof.
  induction al as [|a al IH]; intros m k; cbn [add_aliases]; [by destruct (m !! k)|]. rewrite IH. destruct (decide (k = a)) as [->|Hk].
  - destruct (m !! a) eqn:E; [by rewrite E|]. rewrite lookup_insert_eq. by rewrite decide_True by set_solver.
  - assert (E : match m !! a with Some _ => m | None => <[a := cmd]> m end !! k = m !! k) by (destruct (m !! a); [done|by rewrite lookup_insert_ne]).
    rewrite E. destruct (m !! k); [done|]. destruct (decide (k ∈ al)); [rewrite decide_True by set_solver|rewrite decide_False by set_solver]; done.
Qed.

(** A name keeps its first owner: a registration takes the names that are free,
    its own and those of its aliases, and is refused when its own is taken. *)
Theorem a_name_keeps_its_first_owner (cmd : Command Env Err) e :
  let '(e', r) := RegisterCommand cmd e in
  match r with
  | None => forall k, commands e' !! k =
      match commands e !! k with Some c => Some c | None => if decide (k = cmd_Name cmd \/ k ∈ Aliases cmd) then Some cmd else None end
  | Some _ => e' = e /\ is_Some (commands e !! cmd_Name cmd)
  end.
Proof.
  unfold RegisterCommand. destruct (commands e !! cmd_Name cmd) eqn:E; [split; [done|by eexists]|]. intros k. cbn. rewrite add_aliases_lookup.
  destruct (decide (k = cmd_Name cmd)) as [->|Hk].
  - rewrite lookup_insert_eq, E. by rewrite decide_True by (by left).
  - rewrite lookup_insert_ne by done. destruct (commands e !! k); [done|]. destruct (decide (k ∈ Aliases cmd)); [rewrite decide_True by (by right)|rewrite decide_False by tauto]; done.
Qed.

(** ** The chain *)

(** An interceptor with something to do before and after what it wraps. *)
Definition bracket (pre : Context Env -> Context Env) (post : Context Env * option Err -> Context Env * option Err) : Interceptor Env Err :=
  fun next ctx => post (next (pre ctx)).

Lemma wrap_app (xs ys : list (Interceptor Env Err)) h : wrap (xs ++ ys) h = wrap ys (wrap xs h).
Proof. revert h. induction xs as [|i xs IH]; intros h; [done|]. cbn [app wrap]. apply IH. Qed.

Lemma wrap_chain (xs : list (Interceptor Env Err)) h : wrap (rev xs) h = foldr (fun i next => i next) h xs.
Proof. induction xs as [|i xs IH]; [done|]. cbn [rev foldr]. by rewrite wrap_app, IH. Qed.

(** The chain of interceptors. Of interceptors that do something before and
    after, a command runs what comes before in the order of registration, the
    handler with the words behind its name, and what comes after in the reverse
    order; input that names no command goes to the fallback without any of them. *)
Theorem the_chain_is_an_onion e ctx input name rest bs :
  Fields input = name :: rest -> interceptors e = (fun b => bracket b.1 b.2) <$> bs ->
  Eval ctx input e =
    match commands e !! name, fallbackHandler e with
    | Some cmd, _ => of_handler (foldr (fun b r => b.2 r) (cmd_Handler cmd (foldl (fun c b => b.1 c) (mkContext rest (env ctx)) bs)) bs)
    | None, Some h => of_handler (h (mkContext (if HasPrefix input "/" then rest else name :: rest) (env ctx)))
    | None, None => (ctx, Some (ErrUnknownCommand name))
    end.
Proof.
  intros Ef Ei. unfold Eval. rewrite Ef. destruct (commands e !! name) as [cmd|]; [|done]. f_equal. rewrite Ei, wrap_chain. unfold with_args.
  generalize (mkContext rest (env ctx)) as c. clear. induction bs as [|b bs IH]; intros c; [done|]. cbn. unfold bracket at 1. f_equal. apply IH.
Qed.
End props.

(** ** Samples *)

Definition plain (ok : bool) : behaviour (list string) unit := mkBehaviour [] ok.
Definition sample_engine_ops : list (engine_op (Env := list string) (Err := unit)) :=
  [ORegister (plain true) (mkPlugin "agent" None true);
   ORegister (mkBehaviour [HCommand (mkCommand "/task" ["/t"] "tasks" (fun c => (c, None)))] true) (mkPlugin "dispatcher" (Some ["agent"]) false);
   ORegister (plain true) (mkPlugin "lost" (Some ["nobody"]) false);
   OStartAll (fun n => plain (negb (String.eqb n "dispatcher"))) (fun n => plain (negb (String.eqb n "agent")));
   OStopAll (fun _ => plain true)].

Example engine_sample :
  (run sample_engine_ops).2 =
    [TInit "agent" true; TInit "dispatcher" true;
     TStart "agent" true; TEvent "agent" (EventPluginStarted "agent"); TStart "dispatcher" false;
     TStop "dispatcher" true; TStop "agent" false;
     TStop "agent" true; TEvent "agent" (EventPluginStopped "agent")].
Proof. vm_compute. reflexivity. Qed.

Lemma plugins_live_in_order_witness :
  TStart "agent" true ∈ [TInit "agent" true; TInit "dispatcher" true; TStart "agent" true; TEvent "agent" (EventPluginStarted "agent")].
Proof.
  assert (Ht : let '(e, tr) := run sample_engine_ops in
    TStart "dispatcher" true ∉ [TInit "agent" true; TInit "dispatcher" true; TStart "agent" true; TEvent "agent" (EventPluginStarted "agent")]
    /\ exists p, plugins e !! "dispatcher" = Some p /\ forall d, d ∈ deps p -> TStart d true ∈ [TInit "agent" true; TInit "dispatcher" true; TStart "agent" true; TEvent "agent" (EventPluginStarted "agent")]).
  { pose proof (plugins_live_in_order sample_engine_ops
      [TInit "agent" true; TInit "dispatcher" true; TStart "agent" true; TEvent "agent" (EventPluginStarted "agent")] (TStart "dispatcher" false)
      [TStop "dispatcher" true; TStop "agent" false; TStop "agent" true; TEvent "agent" (EventPluginStopped "agent")]) as Ht.
    destruct (run sample_engine_ops) as [e tr] eqn:E. assert (Etr : tr = (run sample_engine_ops).2) by (rewrite E; reflexivity).
    specialize (Ht ltac:(rewrite Etr; vm_compute; reflexivity)). split; [exact (proj1 Ht)|exact (proj2 (proj2 (proj2 Ht)))]. }
  destruct (run sample_engine_ops) as [e tr] eqn:E. destruct Ht as (_ & p & Hp & Hd). apply Hd.
  assert (Ee : e = (run sample_engine_ops).1) by (rewrite E; reflexivity). rewrite Ee in Hp. vm_compute in Hp. injection Hp as <-.
  cbn. by left.
Defined.

Definition noting (mark : string) : (Context (list string) -> Context (list string)) * (Context (list string) * option unit -> Context (list string) * option unit) :=
  (fun c => mkContext (Args c) (env c ++ [mark]), fun r => (mkContext (Args r.1) (env r.1 ++ [mark +:+ "'"]), r.2)).

Definition sample_engine : Engine (list string) unit :=
  (RegisterCommand (mkCommand "/task" ["/t"] "tasks" (fun c => (mkContext (Args c) (env c ++ Args c), None)))
    (Use (bracket (noting "b").1 (noting "b").2) (Use (bracket (noting "a").1 (noting "a").2) NewEngine))).1.

Lemma the_chain_is_an_onion_witness :
  Eval (mkContext [] []) " /t show 3" sample_engine = (mkContext ["show"; "3"] ["a"; "b"; "show"; "3"; "b'"; "a'"], None).
Proof.
  rewrite (the_chain_is_an_onion sample_engine (mkContext [] []) " /t show 3" "/t" ["show"; "3"] [noting "a"; noting "b"]); vm_compute; reflexivity.
Defined.
