(* ===== verification/Logger.v ===== *)
(** * ai-runtime/logger: levels, rotation and retention of the log files

    The log file with its rotations on a disk of named files, where a handle
    stays with its file when the name goes. Paths are resolved against the
    working directory; the outcome of every call of the system is an argument. *)

From stdpp Require Import pretty.
From S2P Require Import Prelude GoString GoPath GoLines.
#[local] Open Scope string_scope.
#[local] Open Scope list_scope.

(** ** config.go and level.go *)

Record LogConfig := mkLogConfig { Level : string; File : string; MaxSizeMB : Z; MaxAgeDays : Z }.

Definition DefaultLog : LogConfig := mkLogConfig "info" "" 10 7.

Definition applyDefaults (c : LogConfig) : LogConfig :=
  mkLogConfig (if String.eqb (Level c) "" then Level DefaultLog else Level c) (File c)
    (if (MaxSizeMB c <=? 0)%Z then MaxSizeMB DefaultLog else MaxSizeMB c) (if (MaxAgeDays c <=? 0)%Z then MaxAgeDays DefaultLog else MaxAgeDays c).

(** [slog.Level]. *)
Definition LevelDebug : Z := -4.
Definition LevelInfo : Z := 0.
Definition LevelWarn : Z := 4.
Definition LevelError : Z := 8.

Definition levelNames : list (string * Z) := [("debug", LevelDebug); ("info", LevelInfo); ("warn", LevelWarn); ("error", LevelError)].

Section levels.
Context (ToLower : string -> string).

Definition normalize (s : string) : string := ToLower (TrimSpace s).
Definition level_of (s : string) : option Z := snd <$> find_first (fun nl => String.eqb nl.1 (normalize s)) levelNames.
Definition ParseLevel (s : string) : Z := default LevelInfo (level_of s).
Definition ValidLevel (s : string) : bool := match level_of s with Some _ => true | None => false end.
End levels.

Definition LevelName (l : Z) : string :=
  if (l =? LevelDebug)%Z then "debug" else if (l =? LevelWarn)%Z then "warn" else if (l =? LevelError)%Z then "error" else "info".

(** ** The disk *)

Record inode := mkInode { data : string; mtime : Time }.
Record disk := mkDisk { names : gmap string nat; inodes : gmap nat inode; next : nat }.

(** [filepath.Abs], with the working directory. *)
Definition Abs (cwd path : string) : string := if HasPrefix path "/" then Clean path else JoinPath [cwd; path].

Definition at_path (cwd path : string) (d : disk) : option nat := names d !! Abs cwd path.
Definition Stat (cwd path : string) (d : disk) : option inode := i ← at_path cwd path d; inodes d !! i.

(** [OpenFile] with O_CREATE and O_APPEND: the file and the disk. *)
Definition OpenFile (cwd path : string) (now : Time) (d : disk) : nat * disk :=
  match at_path cwd path d with
  | Some i => (i, d)
  | None => (next d, mkDisk (<[Abs cwd path := next d]> (names d)) (<[next d := mkInode "" now]> (inodes d)) (S (next d)))
  end.

Definition Append (i : nat) (s : string) (now : Time) (d : disk) : disk :=
  mkDisk (names d) (alter (fun n => mkInode (data n +:+ s) now) i (inodes d)) (next d).

Definition Rename (cwd from to : string) (d : disk) : option disk :=
  match at_path cwd from d with
  | Some i => Some (mkDisk (<[Abs cwd to := i]> (delete (Abs cwd from) (names d))) (inodes d) (next d))
  | None => None
  end.

Definition Remove (cwd path : string) (d : disk) : disk := mkDisk (delete (Abs cwd path) (names d)) (inodes d) (next d).

(** [filepath.Ext]: from the last dot of the last element. *)
Fixpoint ext_rev (acc s_rev : string) : string :=
  match s_rev with
  | EmptyString => ""
  | String a s' => if Ascii.eqb a slash then "" else if Ascii.eqb a "." then String a acc else ext_rev (String a acc) s'
  end.

Definition Ext (path : string) : string := ext_rev "" (string_rev path).

(** ** retention.go *)

(** [filepath.Glob(dir/*.log)] for a directory without characters of a pattern. *)
Definition glob_logs (cwd dir : string) (d : disk) : list string :=
  (fun kv => JoinPath [dir; Base kv.1]) <$> List.filter (fun kv => String.eqb (Dir kv.1) (Abs cwd dir) && HasSuffix kv.1 ".log") (map_to_list (names d)).

(** One file of the loop: [removes] says whether [Remove] succeeds. *)
Definition cleanup_file (cwd active : string) (cutoff : Time) (removes : string -> bool) (d : disk) (f : string) : disk :=
  if String.eqb (Abs cwd f) active then d
  else
    match Stat cwd f d with
    | None => d
    | Some n => if (mtime n <? cutoff)%Z && removes f then Remove cwd f d else d
    end.

Definition CleanupOld (cwd dir active : string) (maxAge : Z) (now : Time) (removes : string -> bool) (d : disk) : disk :=
  if (maxAge <=? 0)%Z then d else foldl (cleanup_file cwd active (now - maxAge)%Z removes) d (glob_logs cwd dir d).

(** ** rotator.go *)

(** [file]: the open file, and whether its handle has been closed. *)
Record RotatingWriter := mkWriter { path : string; maxSize : Z; size : Z; file : option (nat * bool) }.

(** What the system does during one call of the writer. *)
Record weather := mkWeather {
  e_now : Time;
  e_stamp : string;
  e_close : bool;
  e_rename : bool;
  e_removes : string -> bool;
  e_open : bool;
  e_stat : bool;
  e_write : nat;
}.

Section writer.
Context (cwd : string) (maxAge : Z).

Definition base_name (p : string) : string := TrimSuffix (Base p) (Ext p).

Definition open (e : weather) (w : RotatingWriter) (d : disk) : RotatingWriter * disk * bool :=
  if e_open e then
    let '(i, d) := OpenFile cwd (path w) (e_now e) d in
    if e_stat e then
      (mkWriter (path w) (maxSize w) (Z.of_nat (String.length (default "" (data <$> inodes d !! i)))) (Some (i, false)), d, true)
    else (w, d, false)
  else (w, d, false).

Definition defaultMaxSize : Z := 10 * 2 ^ 20.

Definition NewRotatingWriter (p : string) (maxSizeBytes : Z) (e : weather) (d : disk) : option (RotatingWriter * disk) :=
  let w := mkWriter p (if (maxSizeBytes <=? 0)%Z then defaultMaxSize else maxSizeBytes) 0 None in
  let '(w, d, ok) := open e w d in
  if ok then Some (w, d) else None.

Definition rotate_name (p stamp : string) (i : nat) : string :=
  let base := JoinPath [Dir p; base_name p +:+ "." +:+ stamp] in
  match i with O => base +:+ Ext p | _ => base +:+ "." +:+ pretty (N.of_nat i) +:+ Ext p end.

(** The loop of [nextRotateName], with fuel. *)
Fixpoint free_name (fuel i : nat) (p stamp : string) (d : disk) : option string :=
  match fuel with
  | O => None
  | S fuel =>
      let name := rotate_name p stamp i in
      match at_path cwd name d with None => Some name | Some _ => free_name fuel (S i) p stamp d end
  end.

Definition nextRotateName (p stamp : string) (d : disk) : option string := free_name (S (S (base.size (names d)))) 0 p stamp d.

(** [None]: out of fuel. *)
Definition rotate (e : weather) (w : RotatingWriter) (d : disk) : option (RotatingWriter * disk * bool) :=
  renamed ← nextRotateName (path w) (e_stamp e) d;
  match file w with
  | Some (i, false) =>
      let w := mkWriter (path w) (maxSize w) (size w) (Some (i, true)) in
      if e_close e then
        if e_rename e then
          match Rename cwd (path w) renamed d with
          | Some d => Some (open e w (CleanupOld cwd (Dir (path w)) (path w) maxAge (e_now e) (e_removes e) d))
          | None => Some (w, d, false)
          end
        else Some (w, d, false)
      else Some (w, d, false)
  | _ => Some (w, d, false)
  end.

(** The bytes that were written, and whether there was no error. *)
Definition write_file (e : weather) (p : string) (w : RotatingWriter) (d : disk) : RotatingWriter * disk * nat * bool :=
  match file w with
  | Some (i, false) =>
      let n := Nat.min (e_write e) (String.length p) in
      (mkWriter (path w) (maxSize w) (size w + Z.of_nat n) (file w), Append i (String.substring 0 n p) (e_now e) d, n, (n =? String.length p)%nat)
  | _ => (w, d, 0, false)
  end.

Definition Write (e : weather) (p : string) (w : RotatingWriter) (d : disk) : option (RotatingWriter * disk * nat * bool) :=
  match file w with
  | None => Some (w, d, 0, true)
  | Some _ =>
      if (maxSize w <=? size w)%Z then
        match rotate e w d with
        | None => None
        | Some (w, d, false) => Some (w, d, 0, false)
        | Some (w, d, true) => Some (write_file e p w d)
        end
      else Some (write_file e p w d)
  end.

Definition Close (w : RotatingWriter) : RotatingWriter :=
  mkWriter (path w) (maxSize w) (size w) None.
End writer.

(** ** logger.go *)

Definition wrap64 (z : Z) : Z := (z + 2 ^ 63) mod 2 ^ 64 - 2 ^ 63.
Definition Hour : Z := 3600 * Second.

Definition max_age (c : LogConfig) : Z := wrap64 (wrap64 (MaxAgeDays c * 24) * Hour).
Definition max_bytes (c : LogConfig) : Z := wrap64 (MaxSizeMB c * 2 ^ 20).

(** [None]: an error; the writer is [None] when there is no log file. *)
Definition Setup (cwd : string) (c : LogConfig) (mkdir : bool) (e : weather) (d : disk) : option (option RotatingWriter * disk) :=
  let c := applyDefaults c in
  if String.eqb (File c) "" then Some (None, d)
  else if negb mkdir then None
  else
    match NewRotatingWriter cwd (File c) (max_bytes c) e d with
    | None => None
    | Some (w, d) => Some (Some w, CleanupOld cwd (Dir (File c)) (File c) (max_age c) (e_now e) (e_removes e) d)
    end.

(** * The names of the rotated log files

    Cleaned paths of one directory and distinct last elements are distinct, so
    the loop that looks for a free name ends. *)

(** ** Digits *)

Definition is_digit (a : ascii) : bool := in_range 48 57 (N_of_ascii a).

Fixpoint all_chars (p : ascii -> bool) (s : string) : bool :=
  match s with EmptyString => true | String a s' => p a && all_chars p s' end.

Lemma pretty_char_digit x : (x < 10)%N -> is_digit (pretty_N_char x) = true.
Proof. intros Hx. assert (Hc : Forall (fun y => is_digit (pretty_N_char y) = true) [0; 1; 2; 3; 4; 5; 6; 7; 8; 9]%N) by (by repeat constructor).
  rewrite Forall_forall in Hc. apply Hc. repeat rewrite elem_of_cons. lia.
Qed.

Lemma pretty_go_digits x : forall s, all_chars is_digit s = true -> all_chars is_digit (pretty_N_go x s) = true.
Proof.
  induction (N.lt_wf_0 x) as [x _ IH]. intros s Hs. destruct (decide (x = 0)%N) as [->|Hx]; [by rewrite pretty_N_go_0|].
  rewrite pretty_N_go_step by lia. apply IH; [apply N.div_lt; lia|]. cbn [all_chars]. rewrite Hs, pretty_char_digit; [done|]. apply N.mod_lt. lia.
Qed.

Lemma pretty_go_nonempty x s : s <> "" -> pretty_N_go x s <> "".
Proof.
  revert s. induction (N.lt_wf_0 x) as [x _ IH]. intros s Hs. destruct (decide (x = 0)%N) as [->|Hx]; [by rewrite pretty_N_go_0|].
  rewrite pretty_N_go_step by lia. apply IH; [apply N.div_lt; lia|done].
Qed.

Lemma pretty_digits (x : N) : all_chars is_digit (pretty x) = true /\ pretty x <> "".
Proof.
  unfold pretty, pretty_N. destruct (decide (x = 0)%N) as [|Hx]; [done|]. split; [by apply pretty_go_digits|].
  rewrite pretty_N_go_step by lia. by apply pretty_go_nonempty.
Qed.

(** A text with a digit in it is no special element of a path. *)
Definition some_digit (s : string) : Prop := all_chars (fun a => negb (is_digit a)) s = false.

Lemma all_chars_app p a b : all_chars p (a +:+ b) = all_chars p a && all_chars p b.
Proof. induction a as [|x a IH]; [done|]. change (String x a +:+ b) with (String x (a +:+ b)). cbn [all_chars]. by rewrite IH, andb_assoc. Qed.

Lemma has_char_all c s : has_char c s = negb (all_chars (fun a => negb (Ascii.eqb a c)) s).
Proof. induction s as [|a s IH]; [done|]. cbn. rewrite IH, negb_andb, negb_involutive. done. Qed.

Lemma digits_no_slash s : all_chars is_digit s = true -> has_char slash s = false.
Proof.
  induction s as [|a s IH]; [done|]. cbn. intros [Ha Hs]%andb_true_iff. rewrite IH by done. rewrite orb_false_r.
  destruct (Ascii.eqb_spec a slash) as [->|]; done.
Qed.

Lemma digits_some s : all_chars is_digit s = true -> s <> "" -> some_digit s.
Proof. unfold some_digit. destruct s as [|a s]; [done|]. cbn. intros [-> _]%andb_true_iff _. done. Qed.

Lemma some_digit_app a b : some_digit a \/ some_digit b -> some_digit (a +:+ b).
Proof. unfold some_digit. rewrite all_chars_app. intros [-> | ->]; [done|apply andb_false_r]. Qed.

Lemma some_digit_not s : some_digit s -> s <> "" /\ s <> "." /\ s <> "..".
Proof. intros Hs. repeat split; intros ->; done. Qed.

(** ** Paths with one last element *)

Lemma Split_no_slash t : has_char slash t = false -> Split slash t = [t].
Proof. induction t as [|a t IH]; [done|]. cbn. intros [Ha Ht]%orb_false_iff. by rewrite Ha, IH. Qed.

Lemma Split_last b : exists init last, Split slash b = init ++ [last]
  /\ forall t, has_char slash t = false -> Split slash (b +:+ t) = init ++ [last +:+ t].
Proof.
  induction b as [|a b IH].
  - exists [], "". split; [done|]. intros t Ht. exact (Split_no_slash t Ht).
  - destruct IH as (init & last & E & Ht). cbn [Split]. destruct (Ascii.eqb a slash) eqn:Ea.
    + exists ("" :: init), last. split; [by rewrite E|]. intros t H. change (String a b +:+ t) with (String a (b +:+ t)). cbn [Split]. rewrite Ea. by rewrite Ht.
    + destruct init as [|w init].
      * exists [], (String a last). split; [by rewrite E|]. intros t H. change (String a b +:+ t) with (String a (b +:+ t)). cbn [Split]. rewrite Ea. by rewrite Ht.
      * exists (String a w :: init), last. split; [by rewrite E|]. intros t H. change (String a b +:+ t) with (String a (b +:+ t)). cbn [Split]. rewrite Ea. by rewrite Ht.
Qed.

Lemma Join_snoc ws : exists pre, forall s, Join "/" (ws ++ [s]) = pre +:+ s.
Proof.
  destruct ws as [|w ws]; [by exists ""|]. exists (Join "/" (w :: ws) +:+ "/"). intros s. cbn [app Join]. rewrite foldl_app. cbn. by rewrite append_assoc.
Qed.

(** The first byte of a path that goes on. *)
Lemma prefix_slash b x t : Ascii.eqb x slash = false -> HasPrefix (b +:+ String x t) "/" = HasPrefix b "/".
Proof.
  intros Hx. destruct b as [|a b]; [|change (String a b +:+ String x t) with (String a (b +:+ String x t)); unfold HasPrefix; cbn [String.prefix]; by destruct (ascii_dec "/" a), b]. change ("" +:+ String x t) with (String x t). unfold HasPrefix. cbn [String.prefix].
  destruct (ascii_dec "/" x) as [<-|]; done.
Qed.

(** Cleaning keeps a last element with a digit. *)
Lemma Clean_last b : exists pre, forall x t, Ascii.eqb x slash = false -> has_char slash t = false -> some_digit t ->
  exists last, Clean (b +:+ String x t) = pre +:+ last +:+ String x t /\ Split slash b <> [] /\ last = List.last (Split slash b) "".
Proof.
  destruct (Split_last b) as (init & last & E & Ht). set (rooted := HasPrefix b "/"). set (stack := foldl (clean_step rooted) [] init).
  destruct (Join_snoc (rev stack)) as [pre Hpre]. exists ((if rooted then "/" else "") +:+ pre). intros x t Hx Hs Hd. exists last.
  split; [|split; [by rewrite E; destruct init|by rewrite E, List.last_last]].
  unfold Clean. rewrite prefix_slash by done. fold rooted. rewrite Ht by (cbn; by rewrite Hx, Hs). rewrite foldl_app. fold stack. cbn [foldl].
  assert (Hstep : clean_step rooted stack (last +:+ String x t) = (last +:+ String x t) :: stack).
  { assert (Hsd : some_digit (last +:+ String x t)). { apply some_digit_app. right. unfold some_digit in *. cbn. rewrite Hd. apply andb_false_r. }
    apply some_digit_not in Hsd as (H1 & H2 & H3). unfold clean_step. apply String.eqb_neq in H1 as ->. apply String.eqb_neq in H2 as ->. by apply String.eqb_neq in H3 as ->. }
  rewrite Hstep. cbn [rev]. rewrite Hpre. destruct rooted.
  - by rewrite !append_assoc.
  - destruct (rev stack ++ [last +:+ String x t]) eqn:Er; [by destruct (rev stack)|]. done.
Qed.

Lemma Clean_inj b x t t' : Ascii.eqb x slash = false -> has_char slash t = false -> has_char slash t' = false -> some_digit t -> some_digit t' ->
  Clean (b +:+ String x t) = Clean (b +:+ String x t') -> t = t'.
Proof.
  intros Hx Hs Hs' Hd Hd' E. destruct (Clean_last b) as [pre Hpre]. destruct (Hpre x t Hx Hs Hd) as (l & El & _ & Hl). destruct (Hpre x t' Hx Hs' Hd') as (l' & El' & _ & Hl').
  rewrite El, El', Hl, Hl' in E. apply (inj (String.append pre)), (inj (String.append _)) in E. by injection E.
Qed.

Lemma Abs_inj cwd b x t t' : Ascii.eqb x slash = false -> has_char slash t = false -> has_char slash t' = false -> some_digit t -> some_digit t' ->
  Abs cwd (b +:+ String x t) = Abs cwd (b +:+ String x t') -> t = t'.
Proof.
  intros Hx Hs Hs' Hd Hd'. unfold Abs. rewrite !prefix_slash by done. destruct (HasPrefix b "/"); [by apply Clean_inj|].
  assert (Hj : forall u, JoinPath [cwd; b +:+ String x u] = Clean ((if String.eqb cwd "" then b else cwd +:+ "/" +:+ b) +:+ String x u)).
  { intros u. unfold JoinPath. cbn [List.filter]. assert (En : String.eqb (b +:+ String x u) "" = false) by (by destruct b).
    rewrite En. cbn [negb]. destruct (String.eqb cwd ""); cbn [negb Join foldl]; [done|]. by rewrite !append_assoc. }
  rewrite !Hj. by apply Clean_inj.
Qed.

(** ** The loop ends *)

Lemma Ext_no_slash p : has_char slash (Ext p) = false.
Proof.
  unfold Ext. assert (Hgen : forall s acc, has_char slash acc = false -> has_char slash (ext_rev acc s) = false); [|by apply Hgen].
  induction s as [|a s IH]; intros acc Ha; cbn; [done|]. destruct (Ascii.eqb_spec a slash) as [|Hn]; [done|].
  assert (Hc : has_char slash (String a acc) = false). { cbn. rewrite Ha, orb_false_r. by apply Ascii.eqb_neq. }
  destruct (Ascii.eqb_spec a ".") as [->|]; [done|by apply IH].
Qed.

Lemma rotate_names_apart cwd p stamp i j : Abs cwd (rotate_name p stamp (S i)) = Abs cwd (rotate_name p stamp (S j)) -> i = j.
Proof.
  unfold rotate_name. set (b := JoinPath [Dir p; base_name p +:+ "." +:+ stamp]).
  intros E. pose proof (pretty_digits (N.of_nat (S i))) as [Hi Hi']. pose proof (pretty_digits (N.of_nat (S j))) as [Hj Hj'].
  apply (Abs_inj cwd b ".") in E; [|done|..].
  - apply string_append_inj, (inj pretty), (inj N.of_nat) in E. congruence.
  - rewrite has_char_app, digits_no_slash, Ext_no_slash; done.
  - rewrite has_char_app, digits_no_slash, Ext_no_slash; done.
  - apply some_digit_app. left. by apply digits_some.
  - apply some_digit_app. left. by apply digits_some.
Qed.

Lemma free_name_spec cwd fuel i p stamp d :
  match free_name cwd fuel i p stamp d with
  | Some name => at_path cwd name d = None /\ exists j, name = rotate_name p stamp j
  | None => forall j, i <= j < i + fuel -> is_Some (at_path cwd (rotate_name p stamp j) d)
  end.
Proof.
  revert i. induction fuel as [|fuel IH]; intros i; cbn [free_name]; [lia|]. cbv zeta. destruct (at_path cwd (rotate_name p stamp i) d) eqn:E.
  - specialize (IH (S i)). destruct (free_name cwd fuel (S i) p stamp d); [done|]. intros j Hj. destruct (decide (j = i)) as [->|]; [by eexists|]. apply IH. lia.
  - split; [done|by eexists].
Qed.

(** A free name is always found. *)
Lemma nextRotateName_total cwd p stamp d : exists name, nextRotateName cwd p stamp d = Some name /\ at_path cwd name d = None.
Proof.
  unfold nextRotateName. set (n := base.size (names d)). pose proof (free_name_spec cwd (S (S n)) 0 p stamp d) as Hf.
  destruct (free_name cwd (S (S n)) 0 p stamp d) as [name|]; [exists name; split; [done|apply Hf]|]. exfalso.
  set (used := (fun j => Abs cwd (rotate_name p stamp (S j))) <$> seq 0 (S n)).
  assert (Hnd : NoDup used). { apply NoDup_fmap_2_strong; [|apply NoDup_seq]. intros i j _ _. apply rotate_names_apart. }
  assert (Hsub : used ⊆ elements (dom (names d))).
  { intros x (j & -> & Hj%elem_of_seq)%list_elem_of_fmap. apply elem_of_elements, elem_of_dom. apply Hf. lia. }
  apply (NoDup_submseteq _ _ Hnd), submseteq_length in Hsub. unfold used in Hsub. rewrite length_fmap, length_seq in Hsub.
  change (length (elements (dom (names d)))) with (base.size (dom (names d))) in Hsub. rewrite size_dom in Hsub. unfold n in Hsub. lia.
Qed.

(** * What becomes of a line of the log *)

Lemma Forall_both {A} (P Q R : A -> Prop) l : Forall P l -> Forall Q l -> (forall x, P x -> Q x -> R x) -> Forall R l.
Proof. intros Hp Hq H. rewrite Forall_forall in *. auto. Qed.

Section props.
Context (cwd : string) (maxAge : Z).

(** ** Cleaning up *)

Definition bytes_of (i : nat) (d : disk) : string := default "" (data <$> inodes d !! i).

(** What a cleaning may do: only names go, of files that are old and not the one
    that is protected. *)
Record cleaned (active : string) (cutoff : Time) (d d' : disk) : Prop := {
  cl_inodes : inodes d' = inodes d;
  cl_next : next d' = next d;
  cl_names : forall k i, names d' !! k = Some i -> names d !! k = Some i;
  cl_kept : forall k i, names d !! k = Some i -> names d' !! k = Some i
    \/ ((0 < maxAge)%Z /\ k <> active /\ exists n, inodes d !! i = Some n /\ (mtime n < cutoff)%Z);
}.

Lemma cleaned_refl active cutoff d : cleaned active cutoff d d.
Proof. split; try done. intros k i E. by left. Qed.

Lemma cleaned_trans active cutoff d1 d2 d3 : cleaned active cutoff d1 d2 -> cleaned active cutoff d2 d3 -> cleaned active cutoff d1 d3.
Proof.
  intros [I1 N1 A1 K1] [I2 N2 A2 K2]. split; try congruence; [auto|]. intros k i E. destruct (K1 k i E) as [E2|Hr]; [|by right].
  destruct (K2 k i E2) as [|Hr]; [by left|right]. by rewrite I1 in Hr.
Qed.

Lemma cleanup_file_cleaned active cutoff removes d f : (0 < maxAge)%Z -> cleaned active cutoff d (cleanup_file cwd active cutoff removes d f).
Proof.
  intros Hage. unfold cleanup_file. destruct (String.eqb_spec (Abs cwd f) active) as [|Ha]; [apply cleaned_refl|]. unfold Stat, at_path.
  destruct (names d !! Abs cwd f) as [i|] eqn:En; cbn; [|apply cleaned_refl]. destruct (inodes d !! i) as [n|] eqn:Ei; [|apply cleaned_refl].
  destruct (Z.ltb_spec (mtime n) cutoff) as [Hold|]; cbn; [|apply cleaned_refl]. destruct (removes f); [|apply cleaned_refl]. split; cbn; try done.
  - intros k j. by intros [_ E]%lookup_delete_Some.
  - intros k j E. destruct (decide (k = Abs cwd f)) as [->|Hk]; [right|left; by rewrite lookup_delete_ne].
    rewrite En in E. injection E as <-. split_and!; [done|done|by exists n].
Qed.

Lemma CleanupOld_cleaned dir active now removes d : cleaned active (now - maxAge)%Z d (CleanupOld cwd dir active maxAge now removes d).
Proof.
  unfold CleanupOld. destruct (Z.leb_spec maxAge 0) as [|Hage]; [apply cleaned_refl|]. generalize (glob_logs cwd dir d) as fs. intros fs. revert d.
  induction fs as [|f fs IH]; intros d; [apply cleaned_refl|]. cbn [foldl]. eapply cleaned_trans; [by apply cleanup_file_cleaned|apply IH].
Qed.

(** ** A writer and what it has written *)

Record log := mkLog { w : RotatingWriter; d : disk; trail : list nat; accepted : string }.

Definition note (tr : list nat) (w : RotatingWriter) : list nat :=
  match file w with Some (i, _) => if bool_decide (i ∈ tr) then tr else tr ++ [i] | None => tr end.

Inductive op : Type :=
  | OWrite (e : weather) (p : string)
  | OClose.

Definition step (o : op) (l : log) : option log :=
  match o with
  | OWrite e p =>
      '(w', d', n, _) ← Write cwd maxAge e p (w l) (d l);
      Some (mkLog w' d' (note (trail l) w') (accepted l +:+ String.substring 0 n p))
  | OClose => Some (mkLog (Close (w l)) (d l) (trail l) (accepted l))
  end.

Fixpoint run (ops : list op) (l : log) : option log :=
  match ops with
  | [] => Some l
  | o :: ops' => l' ← step o l; run ops' l'
  end.

Definition joined (tr : list nat) (d : disk) : string := foldr (fun i acc => bytes_of i d +:+ acc) "" tr.

(** A file of the trail has a name, or was removed when it was old. *)
Definition kept (ops : list op) (i : nat) (d : disk) : Prop :=
  (exists k, names d !! k = Some i)
  \/ (0 < maxAge)%Z /\ exists e p n, OWrite e p ∈ ops /\ inodes d !! i = Some n /\ (mtime n < e_now e - maxAge)%Z.

Context (p : string) (before : string) (first : nat) (bound : Z) (longest : Z).

(** The disk with the files of the trail. *)
Record files (done : list op) (tr : list nat) (acc : string) (d : disk) : Prop := {
  f_fresh : forall i, is_Some (inodes d !! i) -> (i < next d)%nat;
  f_named : forall k i, names d !! k = Some i -> is_Some (inodes d !! i);
  f_nodup : NoDup tr;
  f_trail : Forall (fun i => is_Some (inodes d !! i)) tr;
  f_joined : joined tr d = before +:+ acc;
  f_kept : Forall (fun i => kept done i d) tr;
  f_bound : Forall (fun i => i = first /\ bytes_of i d = before
                     \/ (Z.of_nat (String.length (bytes_of i d)) < bound + longest)%Z) tr;
}.

Record inv (done : list op) (l : log) : Prop := {
  i_path : path (w l) = p;
  i_max : maxSize (w l) = bound;
  i_files : files done (trail l) (accepted l) (d l);
  i_file : match file (w l) with
    | Some (i, closed) =>
        (exists tr, trail l = tr ++ [i])
        /\ if closed then (bound <= size (w l))%Z
           else at_path cwd p (d l) = Some i /\ size (w l) = Z.of_nat (String.length (bytes_of i (d l)))
    | None => True
    end;
}.

Lemma kept_more done o i d : kept done i d -> kept (done ++ [o]) i d.
Proof. intros [Hk|(Hage & e & q & n & Hin & Hr)]; [by left|right]. split; [done|]. exists e, q, n. split; [|done]. apply elem_of_app. by left. Qed.

Lemma files_more done o tr acc d : files done tr acc d -> files (done ++ [o]) tr acc d.
Proof. intros []. split; try done. eapply Forall_impl; [exact f_kept0|]. intros i. apply kept_more. Qed.

Lemma joined_app t1 t2 d : joined (t1 ++ t2) d = joined t1 d +:+ joined t2 d.
Proof. unfold joined. induction t1 as [|i t1 IH]; [done|]. cbn [app foldr]. by rewrite IH, append_assoc. Qed.

Lemma joined_ext tr d d' : Forall (fun i => bytes_of i d' = bytes_of i d) tr -> joined tr d' = joined tr d.
Proof. unfold joined. induction 1 as [|i tr Hi _ IH]; [done|]. cbn [foldr]. by rewrite Hi, IH. Qed.

(** The rotation of the current file, and the cleaning behind it. *)
Lemma files_rotate done tr acc d i renamed d1 d2 e q active :
  files done tr acc d -> at_path cwd p d = Some i -> at_path cwd renamed d = None -> Rename cwd p renamed d = Some d1 ->
  OWrite e q ∈ done -> cleaned active (e_now e - maxAge)%Z d1 d2 -> files done tr acc d2 /\ at_path cwd p d2 = None.
Proof.
  intros [] Hp Hfree Hr He [Hi Hn Hsub Hk]. unfold Rename in Hr. rewrite Hp in Hr. injection Hr as <-. cbn in *. unfold at_path in *.
  assert (Hne : Abs cwd renamed <> Abs cwd p) by congruence.
  assert (Hnames : forall k j, names d !! k = Some j -> exists k', (<[Abs cwd renamed:=i]> (delete (Abs cwd p) (names d))) !! k' = Some j).
  { intros k j E. destruct (decide (k = Abs cwd p)) as [->|Hkp].
    - exists (Abs cwd renamed). rewrite lookup_insert_eq. congruence.
    - exists k. rewrite lookup_insert_ne, lookup_delete_ne by congruence. done. }
  assert (Hback : forall k j, (<[Abs cwd renamed:=i]> (delete (Abs cwd p) (names d))) !! k = Some j -> exists k', names d !! k' = Some j).
  { intros k j [[_ <-]|[_ [_ E]%lookup_delete_Some]]%lookup_insert_Some; [by exists (Abs cwd p)|by exists k]. }
  split.
  - assert (Hb : forall j, bytes_of j d2 = bytes_of j d) by (intros j; unfold bytes_of; by rewrite Hi).
    split; rewrite ?Hi, ?Hn; try done.
    + intros k j E%Hsub. destruct (Hback _ _ E) as [k' E']. by eapply f_named0.
    + rewrite (joined_ext tr d d2); [done|]. apply Forall_forall. intros j _. apply Hb.
    + eapply Forall_impl; [exact f_kept0|]. intros j [[k E]|(Hage & e' & q' & n & Hin & Hj & Hold)].
      * destruct (Hnames _ _ E) as [k' E']. destruct (Hk _ _ E') as [E2|(Hage & _ & n & Hj & Hold)]; [left; by exists k'|right].
        split; [done|]. exists e, q, n. rewrite Hi. done.
      * right. split; [done|]. exists e', q', n. by rewrite Hi.
    + eapply Forall_impl; [exact f_bound0|]. intros j. by rewrite Hb.
  - destruct (names d2 !! Abs cwd p) as [j|] eqn:E; [|done]. apply Hsub in E. rewrite lookup_insert_ne, lookup_delete_eq in E by done. done.
Qed.

(** A new file at the path. *)
Lemma files_create done tr acc d now : files done tr acc d -> at_path cwd p d = None -> (0 < bound)%Z -> (0 <= longest)%Z ->
  forall i d', OpenFile cwd p now d = (i, d') ->
  files done tr acc d' /\ files done (tr ++ [i]) acc d' /\ at_path cwd p d' = Some i /\ bytes_of i d' = "" /\ i ∉ tr.
Proof.
  intros [] Hp Hb Hl i d'. unfold OpenFile. rewrite Hp. intros [= <- <-]. unfold at_path in *.
  assert (Hnew : inodes d !! next d = None). { destruct (inodes d !! next d) eqn:E; [|done]. assert (next d < next d) by (apply f_fresh0; by eexists). lia. }
  assert (Hnt : next d ∉ tr). { intros Hin. rewrite Forall_forall in f_trail0. apply f_trail0 in Hin as [? Hin]. by rewrite Hnew in Hin. }
  set (d' := mkDisk _ _ _).
  assert (Hbytes : forall j, j <> next d -> bytes_of j d' = bytes_of j d) by (intros j Hj; unfold bytes_of, d'; cbn; by rewrite lookup_insert_ne).
  assert (Hb0 : bytes_of (next d) d' = "") by (unfold bytes_of, d'; cbn; by rewrite lookup_insert_eq).
  assert (Hold : Forall (fun j => j <> next d) tr) by (apply Forall_forall; intros j Hj ->; done).
  assert (Hkept : forall j, j <> next d -> kept done j d -> kept done j d').
  { intros j Hj [[k E]|(Hage & e & q & n & Hin & Hn & Hm)].
    - left. exists k. unfold d'. cbn. rewrite lookup_insert_ne; [done|]. intros <-. congruence.
    - right. split; [done|]. exists e, q, n. unfold d'. cbn. by rewrite lookup_insert_ne. }
  assert (Hf : files done tr acc d').
  { split; cbn; try done.
    - intros j [n [[<- _]|[_ E]]%lookup_insert_Some]; [lia|]. assert (j < next d) by (apply f_fresh0; by eexists). lia.
    - intros k j [[_ <-]|[_ E]]%lookup_insert_Some; [rewrite lookup_insert_eq; by eexists|]. destruct (decide (j = next d)) as [->|Hj]; [rewrite lookup_insert_eq; by eexists|].
      rewrite lookup_insert_ne by done. by eapply f_named0.
    - apply (Forall_both _ _ _ _ f_trail0 Hold). intros j Hj Hne. by rewrite lookup_insert_ne.
    - rewrite (joined_ext tr d d'); [done|]. eapply Forall_impl; [exact Hold|]. intros j. apply Hbytes.
    - apply (Forall_both _ _ _ _ f_kept0 Hold). intros j Hj Hne. by apply Hkept.
    - apply (Forall_both _ _ _ _ f_bound0 Hold). intros j Hj Hne. by rewrite Hbytes. }
  split_and!; try done; [|by cbn; rewrite lookup_insert_eq]. destruct Hf. split; try done.
  - apply NoDup_app. split_and!; [done| |apply NoDup_singleton]. intros j Hj ->%list_elem_of_singleton. done.
  - apply Forall_app. split; [done|]. apply Forall_singleton. cbn. rewrite lookup_insert_eq. by eexists.
  - rewrite joined_app. unfold joined at 2. cbn [foldr]. rewrite Hb0. rewrite f_joined1. change ("" +:+ "") with "". apply append_nil_r.
  - apply Forall_app. split; [done|]. apply Forall_singleton. left. exists (Abs cwd p). cbn. by rewrite lookup_insert_eq.
  - apply Forall_app. split; [done|]. apply Forall_singleton. right. rewrite Hb0. cbn. lia.
Qed.

(** Bytes at the end of the current file. *)
Lemma files_append done tr acc d i now s :
  files done (tr ++ [i]) acc d -> at_path cwd p d = Some i -> (Z.of_nat (String.length (bytes_of i d)) < bound)%Z -> (Z.of_nat (String.length s) <= longest)%Z ->
  files done (tr ++ [i]) (acc +:+ s) (Append i s now d) /\ at_path cwd p (Append i s now d) = Some i
  /\ bytes_of i (Append i s now d) = bytes_of i d +:+ s.
Proof.
  intros [] Hp Hlt Hs. assert (Hin : is_Some (inodes d !! i)) by (by eapply f_named0). destruct Hin as [n Hn].
  assert (Hi : bytes_of i (Append i s now d) = bytes_of i d +:+ s) by (unfold bytes_of; cbn; by rewrite lookup_alter_eq, Hn).
  assert (Hne : forall j, j <> i -> inodes (Append i s now d) !! j = inodes d !! j) by (intros j Hj; cbn; by rewrite lookup_alter_ne).
  assert (Hbytes : forall j, j <> i -> bytes_of j (Append i s now d) = bytes_of j d) by (intros j Hj; unfold bytes_of; by rewrite Hne).
  assert (Hsome : forall j, is_Some (inodes (Append i s now d) !! j) <-> is_Some (inodes d !! j)).
  { intros j. destruct (decide (j = i)) as [->|Hj]; [|by rewrite Hne]. cbn. rewrite lookup_alter_eq, Hn. cbn. split; by eexists. }
  apply NoDup_app in f_nodup0 as (Hnd & Hdis & _). assert (Hold : Forall (fun j => j <> i) tr).
  { apply Forall_forall. intros j Hj ->. apply (Hdis i Hj). by left. }
  split_and!; [|done|done]. split; cbn [names next Append].
  - intros j Hj. apply f_fresh0. by apply Hsome.
  - intros k j E. apply Hsome. by eapply f_named0.
  - apply NoDup_app. split_and!; [done|done|apply NoDup_singleton].
  - eapply Forall_impl; [exact f_trail0|]. intros j Hj. by apply Hsome.
  - rewrite joined_app in *. rewrite (joined_ext tr d); [|eapply Forall_impl; [exact Hold|]; intros j; apply Hbytes]. unfold joined at 2. cbn [foldr].
    rewrite Hi. rewrite append_nil_r, append_assoc. unfold joined at 2 in f_joined0. cbn [foldr] in f_joined0. rewrite append_nil_r in f_joined0. rewrite f_joined0. by rewrite append_assoc.
  - apply Forall_app in f_kept0 as [Hk _]. apply Forall_app. split.
    + apply (Forall_both _ _ _ _ Hk Hold). intros j [[k E]|(Hage & e & q & m & Hin & Hj & Hm)] Hji; [left; by exists k|right].
      split; [done|]. exists e, q, m. by rewrite Hne.
    + apply Forall_singleton. left. by exists (Abs cwd p).
  - apply Forall_app in f_bound0 as [Hb _]. apply Forall_app. split.
    + apply (Forall_both _ _ _ _ Hb Hold). intros j Hj Hji. by rewrite Hbytes.
    + apply Forall_singleton. right. rewrite Hi. rewrite length_append. lia.
Qed.

(** ** One write *)

Context (Hbound : (0 < bound)%Z) (Hlongest : (0 <= longest)%Z).

Lemma substring_take n (s : string) : (String.length (String.substring 0 n s) <= n)%nat.
Proof. revert n. induction s as [|a s IH]; intros [|n]; cbn; [lia..|]. specialize (IH n). lia. Qed.

Lemma substring_length n (s : string) : (String.length (String.substring 0 n s) <= String.length s)%nat.
Proof. revert n. induction s as [|a s IH]; intros [|n]; cbn; [lia..|]. specialize (IH n). lia. Qed.

Lemma substring_exact n (s : string) : (n <= String.length s)%nat -> String.length (String.substring 0 n s) = n.
Proof. revert n. induction s as [|a s IH]; intros [|n] Hle; cbn in *; [lia..|]. by rewrite IH by lia. Qed.

Lemma substring_all (s : string) : String.substring 0 (String.length s) s = s.
Proof. induction s as [|a s IH]; [done|]. cbn. by rewrite IH. Qed.

Lemma substring_zero (s : string) : String.substring 0 0 s = "".
Proof. by destruct s. Qed.

Lemma note_last tr i : note (tr ++ [i]) (mkWriter p bound 0 (Some (i, false))) = tr ++ [i].
Proof. unfold note. cbn. by rewrite bool_decide_true by (apply elem_of_app; right; by left). Qed.

(** What one call leaves, before the trail is noted. *)
Record after (done : list op) (l : log) (w' : RotatingWriter) (d' : disk) (s : string) : Prop := {
  a_path : path w' = p;
  a_max : maxSize w' = bound;
  a_files : files done (note (trail l) w') (accepted l +:+ s) d';
  a_file : match file w' with
    | Some (i, closed) =>
        (exists tr, note (trail l) w' = tr ++ [i])
        /\ if closed then (bound <= size w')%Z
           else at_path cwd p d' = Some i /\ size w' = Z.of_nat (String.length (bytes_of i d'))
    | None => True
    end;
}.

(** Writing to a file below the bound. *)
Lemma write_file_spec done l e q wr dk tr i :
  files done (tr ++ [i]) (accepted l) dk -> path wr = p -> maxSize wr = bound -> file wr = Some (i, false) -> note (trail l) wr = tr ++ [i] ->
  at_path cwd p dk = Some i -> size wr = Z.of_nat (String.length (bytes_of i dk)) -> (size wr < bound)%Z -> (Z.of_nat (String.length q) <= longest)%Z ->
  let '(w', d', n, _) := write_file e q wr dk in after done l w' d' (String.substring 0 n q).
Proof.
  intros Hf Hp Hm Hfile Hn Hat Hsz Hlt Hq. unfold write_file. rewrite Hfile. set (n := Nat.min (e_write e) (String.length q)).
  destruct (files_append done tr (accepted l) dk i (e_now e) (String.substring 0 n q) Hf Hat) as (Hf' & Hat' & Hb); [lia|pose proof (substring_length n q); lia|].
  assert (Hlen : String.length (String.substring 0 n q) = n) by (apply substring_exact; lia).
  assert (Hn' : note (trail l) (mkWriter (path wr) (maxSize wr) (size wr + Z.of_nat n) (Some (i, false))) = tr ++ [i]) by (rewrite <- Hn; unfold note; by rewrite Hfile).
  split; cbn [path maxSize file size]; [done|done|by rewrite Hn'|]. rewrite Hn'. split; [by exists tr|]. split; [done|]. rewrite Hb, length_append, Hlen. lia.
Qed.

Lemma write_nothing done l : inv done l -> after done l (w l) (d l) "".
Proof.
  intros [Hp Hm Hf Hfi]. assert (Hn : note (trail l) (w l) = trail l).
  { unfold note. destruct (file (w l)) as [[i c]|]; [|done]. destruct Hfi as [[tr ->] _]. by rewrite bool_decide_true by (apply elem_of_app; right; by left). }
  split; [done|done|by rewrite Hn, append_nil_r|]. by rewrite Hn.
Qed.

(** A writer whose handle was closed under it. *)
Lemma after_closed done l i wr : inv done l -> file (w l) = Some (i, false) -> (bound <= size (w l))%Z ->
  wr = mkWriter (path (w l)) (maxSize (w l)) (size (w l)) (Some (i, true)) ->
  forall dk, files done (trail l) (accepted l) dk -> after done l wr dk "".
Proof.
  intros [Hp Hm Hf Hfi] Hfile Hle -> dk Hdk. rewrite Hfile in Hfi. destruct Hfi as [[tr Ht] _].
  assert (Hn : forall z, note (trail l) (mkWriter (path (w l)) (maxSize (w l)) z (Some (i, true))) = trail l).
  { intros z. unfold note. cbn. by rewrite bool_decide_true by (rewrite Ht; apply elem_of_app; right; by left). }
  split; cbn [path maxSize file size]; [done|done|by rewrite Hn, append_nil_r|]. rewrite Hn. split; [by exists tr|done].
Qed.

(** A rotation: it fails and leaves what there is, or there is a new empty file. *)
Lemma rotate_spec done l e q i closed : inv done l -> OWrite e q ∈ done -> file (w l) = Some (i, closed) -> (bound <= size (w l))%Z ->
  (exists w' d', rotate cwd maxAge e (w l) (d l) = Some (w', d', false) /\ after done l w' d' "")
  \/ exists wn dn j, rotate cwd maxAge e (w l) (d l) = Some (wn, dn, true) /\ files done (trail l ++ [j]) (accepted l) dn /\ path wn = p /\ maxSize wn = bound
     /\ file wn = Some (j, false) /\ at_path cwd p dn = Some j /\ size wn = 0%Z /\ bytes_of j dn = "" /\ note (trail l) wn = trail l ++ [j].
Proof.
  intros Hi He Efile Hle. pose proof Hi as [Hp Hm Hf Hfi]. rewrite Efile in Hfi. destruct Hfi as [[tr Ht] Hc].
  unfold rotate. destruct (nextRotateName_total cwd (path (w l)) (e_stamp e) (d l)) as (name & -> & Hfree). cbn [mbind option_bind].
  rewrite Efile. destruct closed; [left; exists (w l), (d l); split; [reflexivity|by apply write_nothing]|]. destruct Hc as [Hat Hsz].
  set (wc := mkWriter (path (w l)) (maxSize (w l)) (size (w l)) (Some (i, true))). cbv zeta.
  assert (Hdead : forall dk, files done (trail l) (accepted l) dk -> after done l wc dk "") by (intros dk Hdk; by apply (after_closed done l i)).
  assert (Hpc : path wc = p) by done. assert (Hmc : maxSize wc = bound) by done. rewrite Hpc. clearbody wc.
  destruct (e_close e); [|left; exists wc, (d l); split; [reflexivity|by apply Hdead]].
  destruct (e_rename e); [|left; exists wc, (d l); split; [reflexivity|by apply Hdead]].
  destruct (Rename cwd p name (d l)) as [d1|] eqn:Er; [|left; exists wc, (d l); split; [reflexivity|by apply Hdead]].
  pose proof (CleanupOld_cleaned (Dir p) p (e_now e) (e_removes e) d1) as Hcl.
  set (d2 := CleanupOld cwd (Dir p) p maxAge (e_now e) (e_removes e) d1) in *. clearbody d2.
  destruct (files_rotate _ _ _ _ _ _ _ _ _ _ _ Hf Hat Hfree Er He Hcl) as [Hf2 Hp2].
  unfold open. rewrite Hpc, Hmc. destruct (e_open e); [|left; exists wc, d2; split; [reflexivity|by apply Hdead]].
  destruct (OpenFile cwd p (e_now e) d2) as [j d3] eqn:Eo.
  destruct (files_create done (trail l) (accepted l) d2 (e_now e) Hf2 Hp2 Hbound Hlongest j d3 Eo) as (Hf3 & Hf3' & Hp3 & Hb3 & Hj).
  destruct (e_stat e); [right|left; exists wc, d3; split; [reflexivity|by apply Hdead]].
  fold (bytes_of j d3). rewrite Hb3. exists (mkWriter p bound 0 (Some (j, false))), d3, j.
  split_and!; try done. unfold note. cbn. by rewrite bool_decide_false.
Qed.

Lemma Write_spec done l e q : inv done l -> OWrite e q ∈ done -> (Z.of_nat (String.length q) <= longest)%Z ->
  exists w' d' n ok, Write cwd maxAge e q (w l) (d l) = Some (w', d', n, ok) /\ after done l w' d' (String.substring 0 n q).
Proof.
  intros Hi He Hq. pose proof Hi as [Hp Hm Hf Hfi]. unfold Write. destruct (file (w l)) as [[i closed]|] eqn:Efile.
  2:{ exists (w l), (d l), 0%nat, true. split; [done|]. rewrite substring_zero. by apply write_nothing. }
  destruct Hfi as [[tr Ht] Hc]. rewrite Hm. destruct (Z.leb_spec bound (size (w l))) as [Hle|Hlt].
  2:{ destruct closed; [lia|]. destruct Hc as [Hat Hsz]. destruct (write_file e q (w l) (d l)) as [[[w' d'] n] ok] eqn:Ew. exists w', d', n, ok. split; [done|].
      pose proof (write_file_spec done l e q (w l) (d l) tr i) as Hs. rewrite Ew in Hs. apply Hs; try done; [by rewrite <- Ht|].
      unfold note. rewrite Efile, Ht. by rewrite bool_decide_true by (apply elem_of_app; right; by left). }
  destruct (rotate_spec done l e q i closed Hi He Efile Hle) as [(w' & d' & -> & Ha)|(wn & d3 & j & -> & Hf3 & Hp3 & Hm3 & Hfile3 & Hat3 & Hsz3 & Hb3 & Hn3)].
  - exists w', d', 0%nat, false. split; [done|]. by rewrite substring_zero.
  - destruct (write_file e q wn d3) as [[[w' d'] n] ok] eqn:Ew. exists w', d', n, ok. split; [done|].
    pose proof (write_file_spec done l e q wn d3 (trail l) j) as Hs. rewrite Ew in Hs. apply Hs; try done; [|lia]. by rewrite Hsz3, Hb3.
Qed.

Lemma step_inv done o l : inv done l -> match o with OWrite _ q => (Z.of_nat (String.length q) <= longest)%Z | OClose => True end ->
  exists l', step o l = Some l' /\ inv (done ++ [o]) l'.
Proof.
  intros [Hp Hm Hf Hfi] Ho. assert (Hi : inv (done ++ [o]) l) by (split; try done; by apply files_more). destruct o as [e q|].
  - destruct (Write_spec _ l e q Hi) as (w' & d' & n & ok & Ew & []); [apply elem_of_app; right; by left|done|].
    exists (mkLog w' d' (note (trail l) w') (accepted l +:+ String.substring 0 n q)). split; [unfold step; by rewrite Ew|]. by split.
  - eexists. split; [reflexivity|]. destruct Hi. split; done.
Qed.

Lemma log_run_inv ops : forall done l, inv done l -> Forall (fun o => match o with OWrite _ q => (Z.of_nat (String.length q) <= longest)%Z | OClose => True end) ops ->
  exists l', run ops l = Some l' /\ inv (done ++ ops) l'.
Proof.
  induction ops as [|o ops IH]; intros done l Hi Ho; cbn [run]; [exists l; by rewrite app_nil_r|]. apply Forall_cons in Ho as [Ho Hos].
  destruct (step_inv done o l Hi Ho) as (l1 & -> & Hi1). cbn. destruct (IH _ _ Hi1 Hos) as (l2 & E & Hi2). exists l2. split; [done|]. by rewrite <- app_assoc in Hi2.
Qed.
End props.

(** ** The writer from its start *)

(** A disk as the system keeps it: names lead to files, numbers are fresh. *)
Definition sound_disk (d : disk) : Prop :=
  (forall i, is_Some (inodes d !! i) -> (i < next d)%nat) /\ forall k i, names d !! k = Some i -> is_Some (inodes d !! i).

Definition start (w : RotatingWriter) (d : disk) : log := mkLog w d (note [] w) "".

Definition no_longer (longest : Z) (o : op) : Prop := match o with OWrite _ q => (Z.of_nat (String.length q) <= longest)%Z | OClose => True end.

Lemma log_opened_inv cwd maxAge p max e d0 w0 d1 longest :
  sound_disk d0 -> (0 <= longest)%Z -> NewRotatingWriter cwd p max e d0 = Some (w0, d1) ->
  exists first, inv cwd maxAge p (default "" (data <$> Stat cwd p d0)) first (if (max <=? 0)%Z then defaultMaxSize else max) longest [] (start w0 d1).
Proof.
  intros [Hfr Hnm] Hl. unfold NewRotatingWriter, open. cbn [path maxSize]. set (bound := if (max <=? 0)%Z then _ else _).
  destruct (e_open e); [|done]. destruct (OpenFile cwd p (e_now e) d0) as [i d] eqn:Eo. destruct (e_stat e); [|done]. intros [= <- <-]. exists i.
  fold (bytes_of i d). assert (Hd : sound_disk d /\ at_path cwd p d = Some i /\ bytes_of i d = default "" (data <$> Stat cwd p d0)).
  { unfold OpenFile in Eo. unfold Stat. destruct (at_path cwd p d0) as [j|] eqn:Ej; injection Eo as <- <-; [done|]. unfold at_path, bytes_of. cbn.
    rewrite !lookup_insert_eq. split_and!; [|done|done]. split; cbn.
    - intros j [n [[<- _]|[_ E]]%lookup_insert_Some]; [lia|]. assert (j < next d0) by (apply Hfr; by eexists). lia.
    - intros k j [[_ <-]|[_ E]]%lookup_insert_Some; [rewrite lookup_insert_eq; by eexists|]. apply Hnm in E as [n Hn].
      destruct (decide (j = next d0)) as [->|Hj]; [rewrite lookup_insert_eq; by eexists|rewrite lookup_insert_ne by done; by eexists]. }
  destruct Hd as ([Hfr' Hnm'] & Hat & Hb). split; cbn; try done; [|split; [by exists []|done]]. split; try done.
  - apply NoDup_singleton.
  - apply Forall_singleton. by eapply Hnm'.
  - unfold joined, note. cbn [file foldr]. rewrite bool_decide_false by (by intros ?%elem_of_nil). cbn [app foldr]. by rewrite Hb.
  - apply Forall_singleton. left. by exists (Abs cwd p).
  - apply Forall_singleton. left. by rewrite <- Hb.
Qed.

(** C36: no accepted line of the log is lost, from the opening of the writer on.
    However the writes, the rotations and the clean-ups that come with them go, the
    files of the log in their order hold what the file held at the opening and then
    exactly the bytes whose write was accepted; no file is used twice, and a file
    that has no name any more was too old to be kept; every file is shorter than the limit
    and the longest line together, unless it is the one found at the opening and
    holds what it held then; and the writer either has the current file, under the configured path, or refuses or
    drops every further line. (The clean-up at the start-up, which [Setup]
    makes once behind the opening, is not among the calls: it removes the current
    file when its path is relative, [a_relative_log_is_removed].) *)
Theorem no_log_is_lost cwd maxAge p max e d0 w0 d1 ops longest :
  sound_disk d0 -> NewRotatingWriter cwd p max e d0 = Some (w0, d1) -> (0 <= longest)%Z -> Forall (no_longer longest) ops ->
  exists l, run cwd maxAge ops (start w0 d1) = Some l
    /\ joined (trail l) (d l) = default "" (data <$> Stat cwd p d0) +:+ accepted l
    /\ NoDup (trail l)
    /\ Forall (fun i => kept maxAge ops i (d l)) (trail l)
    /\ (exists first, Forall (fun i => i = first /\ bytes_of i (d l) = default "" (data <$> Stat cwd p d0)
          \/ (Z.of_nat (String.length (bytes_of i (d l))) < (if (max <=? 0)%Z then defaultMaxSize else max) + longest)%Z) (trail l))
    /\ match file (w l) with
       | Some (i, false) => at_path cwd p (d l) = Some i /\ last (trail l) = Some i
       | Some (_, true) => forall e' q', Write cwd maxAge e' q' (w l) (d l) = Some (w l, d l, 0%nat, false)
       | None => forall e' q', Write cwd maxAge e' q' (w l) (d l) = Some (w l, d l, 0%nat, true)
       end.
Proof.
  intros Hd Hnew Hl Hops. destruct (log_opened_inv cwd maxAge p max e d0 w0 d1 longest Hd Hl Hnew) as [first Hi].
  assert (Hb : (0 < (if (max <=? 0)%Z then defaultMaxSize else max))%Z) by (destruct (Z.leb_spec max 0); [done|lia]).
  destruct (log_run_inv cwd maxAge p _ first _ longest Hb Hl ops [] _ Hi) as (l & E & [Hp Hm Hf Hfi]); [exact Hops|]. cbn [app] in *.
  exists l. destruct Hf. split_and!; try done; [by exists first|]. destruct (file (w l)) as [[i [|]]|] eqn:Ef.
  - intros e' q'. unfold Write. rewrite Ef, Hm. destruct Hfi as [_ Hc]. destruct (Z.leb_spec (if (max <=? 0)%Z then defaultMaxSize else max) (size (w l))); [|lia].
    unfold rotate. destruct (nextRotateName_total cwd (path (w l)) (e_stamp e') (d l)) as (name & -> & _). cbn [mbind option_bind]. by rewrite Ef.
  - destruct Hfi as [[tr ->] [Hat _]]. by rewrite last_snoc.
  - intros e' q'. unfold Write. by rewrite Ef.
Qed.

(** A log of eight bytes a file: the second write fills the first file, the third
    rotates. *)
Definition calm : weather := mkWeather 1000 "T" true true (fun _ => true) true true 100.
Definition sample_disk : disk := mkDisk {[ "/var/a.log" := 0%nat ]} {[ 0%nat := mkInode "old-" 10 ]} 1.

Definition sample_writer : RotatingWriter := mkWriter "/var/a.log" 8 4 (Some (0%nat, false)).

Definition outcome (l : log) : list string * list (string * nat) := ((fun i => bytes_of i (d l)) <$> trail l, map_to_list (names (d l))).

Lemma no_log_is_lost_witness :
  sound_disk sample_disk /\ NewRotatingWriter "/" "/var/a.log" 8 calm sample_disk = Some (sample_writer, sample_disk)
  /\ outcome <$> run "/" 0 [OWrite calm "lines"; OWrite calm "next"; OWrite calm "last"] (start sample_writer sample_disk)
     = Some (["old-lines"; "nextlast"], [("/var/a.log", 1%nat); ("/var/a.T.log", 0%nat)])
  /\ exists l, run "/" 0 [OWrite calm "lines"; OWrite calm "next"; OWrite calm "last"] (start sample_writer sample_disk) = Some l
     /\ joined (trail l) (d l) = "old-" +:+ accepted l.
Proof.
  assert (Hd : sound_disk sample_disk).
  { split; cbn.
    - intros i [n [<- _]%lookup_singleton_Some]. lia.
    - intros k i [_ <-]%lookup_singleton_Some. rewrite lookup_singleton_eq. by eexists. }
  assert (Hn : NewRotatingWriter "/" "/var/a.log" 8 calm sample_disk = Some (sample_writer, sample_disk)) by (vm_compute; done).
  split; [done|]. split; [done|]. split; [vm_compute; done|].
  destruct (no_log_is_lost "/" 0 "/var/a.log" 8 calm sample_disk _ _ [OWrite calm "lines"; OWrite calm "next"; OWrite calm "last"] 10 Hd Hn) as (l & E & J & _); [done| |].
  - repeat constructor; cbn; lia.
  - exists l. split; [exact E|exact J].
Defined.

(** After a rename that failed, the writer that was healthy writes nothing more. *)
Definition no_rename : weather := mkWeather 1000 "T" true false (fun _ => true) true true 100.

Theorem a_failed_rename_ends_the_log :
  (l ← run "/" 0 [OWrite calm "lines"; OWrite no_rename "next"; OWrite calm "last"; OWrite calm "more"] (start sample_writer sample_disk);
   Some (outcome l, accepted l)) = Some ((["old-lines"], [("/var/a.log", 0%nat)]), "lines").
Proof. vm_compute. done. Qed.

(** The file that is being written to is removed at the start when its configured
    path is relative: the paths that are compared are never equal. *)
Theorem a_relative_log_is_removed :
  let old := mkDisk {[ "/srv/logs/a.log" := 0%nat ]} {[ 0%nat := mkInode "old" 10 ]} 1 in
  let calm_later := mkWeather (8 * 24 * Hour) "T" true true (fun _ => true) true true 100 in
  (wd ← Setup "/srv" (mkLogConfig "info" "logs/a.log" 10 7) true calm_later old; Some (map_to_list (names wd.2))) = Some []
  /\ (wd ← Setup "/srv" (mkLogConfig "info" "/srv/logs/a.log" 10 7) true calm_later old; Some (map_to_list (names wd.2))) = Some [("/srv/logs/a.log", 0%nat)].
Proof. vm_compute. done. Qed.
