(* ===== verification/PluginRegistry.v ===== *)
(** * daemon/internal/pluginregistry: the factories of the plugins and their order

    Registration, the snapshot of a registry, and the order in which plugins are
    built: a topological sort that takes the first name that is ready. The
    iteration of a map is an argument: any list of the registered descriptors. *)

From stdpp Require Import sorting.
From S2P Require Import Prelude GoString.
#[local] Open Scope string_scope.
#[local] Open Scope list_scope.

Section registry.
Context {Factory : Type}.

(** [New] is [None] when the factory is nil. *)
Record Descriptor := mkDescriptor {
  Name : string;
  Dependencies : list string;
  New : option Factory;
}.

Record Registry := mkRegistry { descriptors : gmap string Descriptor }.

Inductive registry_error : Type :=
  | ErrNameRequired
  | ErrFactoryRequired (name : string)
  | ErrWhitespace (name : string)
  | ErrAlreadyRegistered (name : string)
  | ErrAlreadyDescribed (name : string)
  | ErrMissing (name dependency : string)
  | ErrCycle.

Definition newRegistry : Registry := mkRegistry ∅.

Definition Register (d : Descriptor) (r : Registry) : Registry * option registry_error :=
  let name := TrimSpace (Name d) in
  if String.eqb name "" then (r, Some ErrNameRequired)
  else if bool_decide (New d = None) then (r, Some (ErrFactoryRequired name))
  else if negb (String.eqb name (Name d)) then (r, Some (ErrWhitespace (Name d)))
  else
    match descriptors r !! name with
    | Some _ => (r, Some (ErrAlreadyRegistered name))
    | None => (mkRegistry (<[name := d]> (descriptors r)), None)
    end.

(** ** The order *)

(** The tables of the sort: by name, how many dependencies are open, and who
    waits for a name. *)
Record tables := mkTables {
  byName : gmap string Descriptor;
  indegree : gmap string Z;
  dependents : gmap string (list string);
}.

Definition add_degree (n : string) (k : Z) (m : gmap string Z) : gmap string Z := <[n := (default 0 (m !! n) + k)%Z]> m.
Definition add_dependent (dep n : string) (m : gmap string (list string)) : gmap string (list string) :=
  <[dep := default [] (m !! dep) ++ [n]]> m.

Fixpoint enter_all (ds : list Descriptor) (t : tables) : result registry_error tables :=
  match ds with
  | [] => Ok t
  | d :: ds' =>
      if String.eqb (Name d) "" then Err ErrNameRequired
      else
        match byName t !! Name d with
        | Some _ => Err (ErrAlreadyDescribed (Name d))
        | None => enter_all ds' (mkTables (<[Name d := d]> (byName t)) (<[Name d := 0%Z]> (indegree t)) (dependents t))
        end
  end.

(** The dependencies of one descriptor, each counted once. *)
Fixpoint link_deps (name : string) (seen : gset string) (deps : list string) (t : tables) : result registry_error tables :=
  match deps with
  | [] => Ok t
  | dep :: deps' =>
      if bool_decide (dep ∈ seen) then link_deps name seen deps' t
      else
        match byName t !! dep with
        | None => Err (ErrMissing name dep)
        | Some _ =>
            link_deps name ({[dep]} ∪ seen) deps'
              (mkTables (byName t) (add_degree name 1 (indegree t)) (add_dependent dep name (dependents t)))
        end
  end.

Fixpoint link_all (ds : list Descriptor) (t : tables) : result registry_error tables :=
  match ds with
  | [] => Ok t
  | d :: ds' => match link_deps (Name d) ∅ (Dependencies d) t with Ok t => link_all ds' t | Err e => Err e end
  end.

Definition sort_strings (l : list string) : list string := merge_sort string_le l.

(** The names without open dependencies, in the order of the iteration. *)
Definition ready_names (degrees : gmap string Z) : list string :=
  omap (fun nd => if (nd.2 =? 0)%Z then Some nd.1 else None) (map_to_list degrees).

(** What has waited for a name that is placed: one count less, and ready at zero. *)
Fixpoint release (ns : list string) (degrees : gmap string Z) (ready : list string) : gmap string Z * list string :=
  match ns with
  | [] => (degrees, ready)
  | n :: ns' =>
      let degrees := add_degree n (-1) degrees in
      let ready := if (default 0 (degrees !! n) =? 0)%Z then ready ++ [n] else ready in
      release ns' degrees ready
  end.

(** The loop; [None]: out of fuel. A name that is not described gives the zero
    descriptor. *)
Fixpoint place (fuel : nat) (t : tables) (degrees : gmap string Z) (ready : list string) (ordered : list Descriptor)
    : option (list Descriptor) :=
  match ready with
  | [] => Some ordered
  | name :: ready' =>
      match fuel with
      | O => None
      | S fuel =>
          let ordered := ordered ++ [default (mkDescriptor "" [] None) (byName t !! name)] in
          let '(degrees, ready) := release (default [] (dependents t !! name)) degrees ready' in
          place fuel t degrees (sort_strings ready) ordered
      end
  end.

Definition orderDescriptors (ds : list Descriptor) : option (result registry_error (list Descriptor)) :=
  match enter_all ds (mkTables ∅ ∅ ∅) with
  | Err e => Some (Err e)
  | Ok t =>
      match link_all ds t with
      | Err e => Some (Err e)
      | Ok t =>
          ordered ← place (length ds) t (indegree t) (sort_strings (ready_names (indegree t))) [];
          Some (if (length ordered =? length ds)%nat then Ok ordered else Err ErrCycle)
      end
  end.

(** The descriptors of the registry, in the order of an iteration of the map. *)
Definition iterates (r : Registry) (ds : list Descriptor) : Prop := ds ≡ₚ (map_to_list (descriptors r)).*2.

Definition Snapshot (ds : list Descriptor) : option (result registry_error (list Descriptor)) := orderDescriptors ds.
End registry.
Arguments Descriptor : clear implicits.
Arguments Registry : clear implicits.
Arguments tables : clear implicits.

(** * What the order of the plugins promises *)

Lemma size_snoc (x : string) (X : gset string) : x ∉ X -> size ({[x]} ∪ X) = S (size X).
Proof. intros Hx. rewrite (size_union {[x]} X) by set_solver. by rewrite size_singleton. Qed.

Section props.
Context {Factory : Type}.


Implicit Types (d : Descriptor Factory) (ds placed out : list (Descriptor Factory)) (t : tables Factory).

Definition names ds : list string := Name <$> ds.
Definition deps d : gset string := list_to_set (Dependencies d).

(** Every dependency stands before what depends on it. *)
Definition respects out : Prop := forall i d dep, out !! i = Some d -> dep ∈ Dependencies d -> dep ∈ names (take i out).

Definition available ds placed d : Prop := d ∈ ds /\ d ∉ placed /\ forall dep, dep ∈ Dependencies d -> dep ∈ names placed.

(** At each place stands the first name of those that were available. *)
Definition first_available ds out : Prop :=
  forall i d, out !! i = Some d -> available ds (take i out) d /\ forall d', available ds (take i out) d' -> string_le (Name d) (Name d').

Definition described ds : Prop := NoDup (names ds) /\ "" ∉ names ds.

(** ** The tables *)

Lemma enter_all_spec ds t :
  NoDup (names ds) -> "" ∉ names ds -> (forall d, d ∈ ds -> byName t !! Name d = None) ->
  exists t', enter_all ds t = Ok t' /\ dependents t' = dependents t
    /\ (forall n d, byName t' !! n = Some d <-> (d ∈ ds /\ Name d = n) \/ byName t !! n = Some d)
    /\ (forall n, n ∈ names ds -> indegree t' !! n = Some 0%Z)
    /\ (forall n, n ∉ names ds -> indegree t' !! n = indegree t !! n).
Proof.
  revert t. induction ds as [|d ds IH]; intros t Hnd He Hnew; cbn [enter_all].
  - exists t. split_and!; try done; [|set_solver]. intros n d. set_solver.
  - unfold names in *. cbn [fmap list_fmap] in *. apply NoDup_cons in Hnd as [Hd Hnd]. apply not_elem_of_cons in He as [He1 He].
    destruct (String.eqb_spec (Name d) "") as [E|_]; [by rewrite E in He1|]. rewrite Hnew by set_solver.
    destruct (IH (mkTables (<[Name d := d]> (byName t)) (<[Name d := 0%Z]> (indegree t)) (dependents t))) as (t' & -> & Hdt & Hb & Hi & Hj); try done.
    { intros x Hx. cbn. rewrite lookup_insert_ne; [apply Hnew; set_solver|]. intros E. apply Hd. rewrite E. by apply list_elem_of_fmap_2. }
    exists t'. split_and!; try done.
    + intros n x. rewrite Hb. cbn [byName]. rewrite elem_of_cons, lookup_insert_Some. split.
      * intros [[Hx Hn]|[[Hn Hx]|[Hn Hx]]]; [left; split; [by right|done]|left; subst x; split; [by left|done]|by right].
      * intros [[[-> |Hx] Hn]|Hx]; [right; by left|by left|]. right; right. split; [|done]. intros E.
        rewrite <- E, Hnew in Hx by (apply elem_of_cons; by left). done.
    + intros n [-> |Hn]%elem_of_cons; [|by apply Hi]. rewrite Hj by done. cbn [indegree]. by rewrite lookup_insert_eq.
    + intros n [Hn1 Hn2]%not_elem_of_cons. rewrite Hj by done. cbn [indegree]. by rewrite lookup_insert_ne.
Qed.

Definition waiting t m : list string := default [] (dependents t !! m).
Definition degree (m : gmap string Z) (n : string) : Z := default 0%Z (m !! n).

Lemma degree_add n k m x : degree (add_degree n k m) x = (degree m x + if decide (x = n) then k else 0)%Z.
Proof.
  unfold degree, add_degree. destruct (decide (x = n)) as [->|Hx]; [by rewrite lookup_insert_eq|]. rewrite lookup_insert_ne by done. lia.
Qed.

Lemma waiting_add dep n t bn dg x :
  waiting (mkTables bn dg (add_dependent dep n (dependents t))) x = waiting t x ++ if decide (x = dep) then [n] else [].
Proof.
  unfold waiting, add_dependent. cbn. destruct (decide (x = dep)) as [->|Hx]; [by rewrite lookup_insert_eq|].
  rewrite lookup_insert_ne by done. by rewrite app_nil_r.
Qed.

Lemma link_deps_spec name deps : forall seen t,
  match link_deps name seen deps t with
  | Ok t' =>
      byName t' = byName t /\ (forall dep, dep ∈ deps -> dep ∈ seen \/ is_Some (byName t !! dep))
      /\ (forall n, degree (indegree t') n = degree (indegree t) n + if decide (n = name) then Z.of_nat (size (list_to_set deps ∖ seen : gset string)) else 0)%Z
      /\ (forall m, waiting t' m = waiting t m ++ if decide (m ∈ (list_to_set deps ∖ seen : gset string)) then [name] else [])
  | Err _ => exists dep, dep ∈ deps /\ byName t !! dep = None
  end.
Proof.
  induction deps as [|dep deps IH]; intros seen t; cbn [link_deps].
  - split_and!; try done; [set_solver| |].
    + intros n. replace (size _) with 0%nat; [destruct (decide _); lia|]. symmetry. apply size_empty_iff. set_solver.
    + intros m. rewrite decide_False by set_solver. by rewrite app_nil_r.
  - destruct (bool_decide_reflect (dep ∈ seen)) as [Hs|Hs].
    + specialize (IH seen t). replace (list_to_set (dep :: deps) ∖ seen : gset string) with (list_to_set deps ∖ seen : gset string) by set_solver.
      destruct (link_deps name seen deps t) as [t'|e]; [|destruct IH as (x & Hx & Hn); exists x; split; [by right|done]].
      destruct IH as (Hb & Hd & Hi & Hw). split_and!; try done. intros x [-> |Hx]%elem_of_cons; [by left|by apply Hd].
    + destruct (byName t !! dep) as [b|] eqn:Eb; [|exists dep; split; [by left|done]].
      specialize (IH ({[dep]} ∪ seen) (mkTables (byName t) (add_degree name 1 (indegree t)) (add_dependent dep name (dependents t)))).
      destruct (link_deps name ({[dep]} ∪ seen) deps _) as [t'|e]; [|destruct IH as (x & Hx & Hn); exists x; split; [by right|done]].
      destruct IH as (Hb & Hd & Hi & Hw). cbn [byName indegree] in *.
      assert (Es : list_to_set (dep :: deps) ∖ seen = ({[dep]} ∪ list_to_set deps ∖ ({[dep]} ∪ seen) : gset string)).
      { apply set_eq. intros x. destruct (decide (x = dep)); set_solver. }
      split_and!; try done.
      * intros x [-> |Hx]%elem_of_cons; [right; by eexists|]. destruct (Hd x Hx) as [Hin|]; [|by right].
        destruct (decide (x = dep)) as [->|]; [right; by eexists|left; set_solver].
      * intros n. rewrite Hi, degree_add, Es. rewrite size_snoc by set_solver. destruct (decide (n = name)); lia.
      * intros m. rewrite Hw, waiting_add, Es, <- app_assoc. f_equal. destruct (decide (m = dep)) as [->|Hm].
        -- rewrite decide_False by set_solver. rewrite decide_True by set_solver. done.
        -- cbn. destruct (decide (m ∈ list_to_set deps ∖ ({[dep]} ∪ seen))); [rewrite decide_True by set_solver|rewrite decide_False by set_solver]; done.
Qed.

Lemma link_all_spec ds : forall t,
  NoDup (names ds) ->
  match link_all ds t with
  | Ok t' =>
      byName t' = byName t /\ (forall d dep, d ∈ ds -> dep ∈ Dependencies d -> is_Some (byName t !! dep))
      /\ (forall n, degree (indegree t') n = degree (indegree t) n + foldr (fun d z => (if decide (n = Name d) then Z.of_nat (size (deps d)) else 0) + z) 0 ds)%Z
      /\ (forall m, waiting t' m = waiting t m ++ names (filter (fun d => m ∈ Dependencies d) ds))
  | Err _ => exists d dep, d ∈ ds /\ dep ∈ Dependencies d /\ byName t !! dep = None
  end.
Proof.
  induction ds as [|d ds IH]; intros t Hnd; cbn [link_all foldr].
  - split_and!; try done; [set_solver|intros n; lia|]. intros m. by rewrite app_nil_r.
  - unfold names in Hnd. cbn [fmap list_fmap] in Hnd. apply NoDup_cons in Hnd as [Hd Hnd].
    pose proof (link_deps_spec (Name d) (Dependencies d) ∅ t) as Hl. destruct (link_deps _ _ _ t) as [t1|e].
    2:{ destruct Hl as (dep & Hin & Hn). exists d, dep. split_and!; [by left|done|done]. }
    destruct Hl as (Hb & Hde & Hi & Hw). specialize (IH t1 Hnd). destruct (link_all ds t1) as [t'|e].
    2:{ destruct IH as (x & dep & Hx & Hin & Hn). exists x, dep. rewrite <- Hb. split_and!; [by right|done|done]. }
    destruct IH as (Hb' & Hde' & Hi' & Hw'). rewrite Hb in *. split_and!; try done.
    + intros x dep [-> |Hx]%elem_of_cons Hin; [|by eapply Hde']. destruct (Hde dep Hin); [set_solver|done].
    + intros n. rewrite Hi', Hi, difference_empty_L. unfold deps. destruct (decide (n = Name d)); lia.
    + intros m. rewrite Hw', Hw, <- app_assoc. f_equal. rewrite filter_cons. destruct (decide (m ∈ Dependencies d)) as [Hm|Hm].
      * rewrite decide_True by set_solver. done.
      * rewrite decide_False by set_solver. done.
Qed.

Lemma link_deps_dom name xs seen t t' : link_deps name seen xs t = Ok t' -> is_Some (indegree t !! name) ->
  forall n, is_Some (indegree t' !! n) <-> is_Some (indegree t !! n).
Proof.
  revert seen t. induction xs as [|dep xs IH]; intros seen t; cbn [link_deps]; [by intros [= ->]|].
  destruct (bool_decide _); [by apply IH|]. destruct (byName t !! dep); [|done]. intros E Hn n.
  assert (Hd : forall x, is_Some (add_degree name 1 (indegree t) !! x) <-> is_Some (indegree t !! x)).
  { intros x. unfold add_degree. destruct (decide (x = name)) as [->|Hx]; [|by rewrite lookup_insert_ne].
    rewrite lookup_insert_eq. split; [done|by eexists]. }
  rewrite (IH _ _ E); [apply Hd|by apply Hd].
Qed.

Lemma link_all_dom ds t t' : link_all ds t = Ok t' -> (forall n, n ∈ names ds -> is_Some (indegree t !! n)) ->
  forall n, is_Some (indegree t' !! n) <-> is_Some (indegree t !! n).
Proof.
  revert t. induction ds as [|d ds IH]; intros t; cbn [link_all]; [by intros [= ->]|].
  destruct (link_deps _ _ _ t) as [t1|] eqn:E1; [|done]. intros E Hn n. unfold names in *. cbn [fmap list_fmap] in *.
  pose proof (link_deps_dom _ _ _ _ _ E1 ltac:(apply Hn; by left)) as Hd. rewrite (IH _ E), Hd; [done|].
  intros x Hx. apply Hd, Hn. by right.
Qed.

(** What the tables hold of the descriptors. *)
Record graph ds t : Prop := {
  g_by : forall n d, byName t !! n = Some d <-> d ∈ ds /\ Name d = n;
  g_degree : forall d, d ∈ ds -> degree (indegree t) (Name d) = Z.of_nat (size (deps d));
  g_dom : forall n, is_Some (indegree t !! n) <-> n ∈ names ds;
  g_waiting : forall m, waiting t m = names (filter (fun d => m ∈ Dependencies d) ds);
  g_deps : forall d dep, d ∈ ds -> dep ∈ Dependencies d -> dep ∈ names ds;
}.

Lemma names_inj ds d d' : NoDup (names ds) -> d ∈ ds -> d' ∈ ds -> Name d = Name d' -> d = d'.
Proof.
  unfold names. induction ds as [|x ds IH]; cbn; [set_solver|]. intros [Hx Hnd]%NoDup_cons Hd Hd' E.
  assert (Hno : forall y, y ∈ ds -> Name y <> Name x). { intros y Hy E'. apply Hx. rewrite <- E'. by apply list_elem_of_fmap_2. }
  apply elem_of_cons in Hd as [-> |Hd], Hd' as [-> |Hd']; [done| | |by apply IH].
  - by destruct (Hno d').
  - by destruct (Hno d).
Qed.

Lemma degree_sum ds d : NoDup (names ds) -> d ∈ ds ->
  foldr (fun x z => (if decide (Name d = Name x) then Z.of_nat (size (deps x)) else 0) + z)%Z 0%Z ds = Z.of_nat (size (deps d)).
Proof.
  assert (Hout : forall l n, n ∉ names l -> foldr (fun x z => (if decide (n = Name x) then Z.of_nat (size (deps x)) else 0) + z)%Z 0%Z l = 0%Z).
  { unfold names. induction l as [|x l IH]; intros n Hn; cbn in *; [done|]. apply not_elem_of_cons in Hn as [Hn1 Hn2]. rewrite decide_False by done. by rewrite IH. }
  unfold names. induction ds as [|x ds IH]; cbn; [set_solver|]. intros [Hx Hnd]%NoDup_cons [-> |Hd]%elem_of_cons.
  - rewrite decide_True by done. rewrite Hout by done. lia.
  - rewrite decide_False; [by apply IH|]. intros E. apply Hx. rewrite <- E. by apply list_elem_of_fmap_2.
Qed.

Definition all_tables ds : result registry_error (tables Factory) :=
  match enter_all ds (mkTables ∅ ∅ ∅) with Ok t => link_all ds t | Err e => Err e end.

Lemma tables_spec ds : described ds ->
  match all_tables ds with
  | Ok t => graph ds t
  | Err _ => exists d dep, d ∈ ds /\ dep ∈ Dependencies d /\ dep ∉ names ds
  end.
Proof.
  intros [Hnd He]. unfold all_tables.
  destruct (enter_all_spec ds (mkTables ∅ ∅ ∅) Hnd He ltac:(done)) as (t & -> & Hw & Hb & Hi & Hj).
  assert (Hby : forall n d, byName t !! n = Some d <-> d ∈ ds /\ Name d = n).
  { intros n d. rewrite Hb. cbn. rewrite lookup_empty. naive_solver. }
  assert (Hin : forall n, is_Some (byName t !! n) <-> n ∈ names ds).
  { intros n. unfold names. rewrite list_elem_of_fmap. split; [intros [d [Hd <-]%Hby]; eauto|intros (d & -> & Hd); exists d; by apply Hby]. }
  assert (Hdg : forall n, degree (indegree t) n = 0%Z).
  { intros n. unfold degree. destruct (decide (n ∈ names ds)) as [Hn|Hn]; [by rewrite Hi|]. rewrite Hj by done. cbn. by rewrite lookup_empty. }
  assert (Hdom : forall n, is_Some (indegree t !! n) <-> n ∈ names ds).
  { intros n. destruct (decide (n ∈ names ds)) as [Hn|Hn]; [rewrite Hi by done; split; [done|by eexists]|].
    rewrite Hj by done. cbn. rewrite lookup_empty. split; [by intros []|done]. }
  pose proof (link_all_spec ds t Hnd) as Hl. destruct (link_all ds t) as [t'|e] eqn:El.
  - destruct Hl as (Hb' & Hd & Hi' & Hw'). split.
    + intros n d. by rewrite Hb', Hby.
    + intros d Hd'. rewrite Hi', Hdg. by rewrite (degree_sum ds d).
    + intros n. rewrite (link_all_dom _ _ _ El); [apply Hdom|]. intros x Hx. by apply Hdom.
    + intros m. rewrite Hw'. unfold waiting. by rewrite Hw.
    + intros d dep Hd1 Hd2. apply Hin. by eapply Hd.
  - destruct Hl as (d & dep & Hd & Hdep & Hn). exists d, dep. split_and!; try done. intros [b Hb1]%Hin. by rewrite Hb1 in Hn.
Qed.

(** ** One round of the loop *)

Lemma release_spec ns : NoDup ns -> forall dg r dg' r',
  release ns dg r = (dg', r') ->
  (forall n, degree dg' n = degree dg n - if decide (n ∈ ns) then 1 else 0)%Z
  /\ r' = r ++ filter (fun n => degree dg' n = 0%Z) ns.
Proof.
  induction 1 as [|n ns Hn Hnd IH]; intros dg r dg' r'; cbn [release].
  - intros [= <- <-]. split; [|by rewrite app_nil_r]. intros n. rewrite decide_False by set_solver. lia.
  - intros [Hd ->]%IH. fold (degree (add_degree n (-1) dg) n) in *. split.
    + intros x. rewrite Hd, degree_add. destruct (decide (x = n)) as [->|Hx].
      * rewrite (decide_False (P := n ∈ ns)) by done. rewrite decide_True by set_solver. lia.
      * destruct (decide (x ∈ ns)); [rewrite decide_True by set_solver|rewrite decide_False by set_solver]; lia.
    + rewrite filter_cons. assert (E : degree dg' n = degree (add_degree n (-1) dg) n) by (rewrite Hd, decide_False by done; lia). rewrite E.
      destruct (Z.eqb_spec (degree (add_degree n (-1) dg) n) 0) as [Ez|Ez].
      * rewrite decide_True by done. by rewrite <- app_assoc.
      * by rewrite decide_False by done.
Qed.

Section rounds.
Context (ds : list (Descriptor Factory)) (t : tables Factory) (Hds : described ds) (Hg : graph ds t).

Definition open_deps placed d : gset string := deps d ∖ list_to_set (names placed).

Record inv placed (dg : gmap string Z) (ready : list string) : Prop := {
  i_sub : placed ⊆+ ds;
  i_open : forall d, d ∈ ds -> degree dg (Name d) = Z.of_nat (size (open_deps placed d));
  i_ready : forall n, n ∈ ready <-> exists d, available ds placed d /\ Name d = n;
  i_sorted : StronglySorted string_le ready;
  i_nodup : NoDup ready;
  i_first : first_available ds placed;
}.

Lemma open_zero placed d : size (open_deps placed d) = 0%nat <-> forall dep, dep ∈ Dependencies d -> dep ∈ names placed.
Proof.
  rewrite size_empty_iff. unfold open_deps, deps. split; [|set_solver]. intros E dep Hd.
  destruct (decide (dep ∈ names placed)) as [|Hn]; [done|]. exfalso. apply (not_elem_of_empty (C:=gset string) dep). rewrite <- E. set_solver.
Qed.

(** What is placed has its dependencies placed. *)
Lemma placed_closed placed d dep : first_available ds placed -> d ∈ placed -> dep ∈ Dependencies d -> dep ∈ names placed.
Proof.
  intros Hf [i Hi]%list_elem_of_lookup Hdep. destruct (Hf i d Hi) as [(_ & _ & Hd) _]. specialize (Hd dep Hdep).
  unfold names in *. apply list_elem_of_fmap in Hd as (x & -> & Hx). apply list_elem_of_fmap_2. apply elem_of_take in Hx as (j & Hj & _). by eapply list_elem_of_lookup_2.
Qed.

Lemma open_snoc placed d d' : d ∈ ds -> Name d ∉ names placed ->
  Z.of_nat (size (open_deps (placed ++ [d]) d')) = (Z.of_nat (size (open_deps placed d')) - if decide (Name d ∈ Dependencies d') then 1 else 0)%Z.
Proof.
  intros Hd Hn. unfold open_deps, names, deps. rewrite fmap_app. cbn. destruct (decide (Name d ∈ Dependencies d')) as [Hin|Hin].
  - set (Y := list_to_set (Dependencies d') ∖ list_to_set ((Name <$> placed) ++ [Name d]) : gset string).
    assert (E : list_to_set (Dependencies d') ∖ list_to_set (Name <$> placed) = ({[Name d]} ∪ Y : gset string)).
    { apply set_eq. intros x. unfold Y, names in *. destruct (decide (x = Name d)) as [->|]; set_solver. }
    rewrite E, size_snoc by (unfold Y; set_solver). lia.
  - rewrite Z.sub_0_r. do 2 f_equal. apply set_eq. intros x. destruct (decide (x = Name d)) as [->|]; set_solver.
Qed.

Lemma waiting_in n m : n ∈ waiting t m <-> exists d, d ∈ ds /\ Name d = n /\ m ∈ Dependencies d.
Proof.
  rewrite (g_waiting _ _ Hg). unfold names. rewrite list_elem_of_fmap. split.
  - intros (d & -> & [Hm Hd]%list_elem_of_filter). by exists d.
  - intros (d & Hd & <- & Hm). exists d. split; [done|]. by apply list_elem_of_filter.
Qed.

Lemma waiting_nodup m : NoDup (waiting t m).
Proof.
  rewrite (g_waiting _ _ Hg). destruct Hds as [Hnd _]. unfold names in *. eapply (sublist_NoDup _ (Name <$> ds)); [done|]. apply fmap_sublist, sublist_filter.
Qed.

Lemma available_snoc placed d d' : first_available ds placed -> available ds placed d ->
  available ds (placed ++ [d]) d' <->
  (available ds placed d' /\ d' <> d) \/ (d' ∈ ds /\ Name d ∈ Dependencies d' /\ size (open_deps (placed ++ [d]) d') = 0%nat).
Proof.
  intros Hf (Hd & Hnp & Hdd). rewrite open_zero. unfold available, names in *. rewrite fmap_app. cbn.
  assert (Hnn : Name d ∉ Name <$> placed).
  { intros (x & E & Hx)%list_elem_of_fmap. destruct Hds as [Hnd _]. assert (Hxd : x ∈ ds).
    { apply list_elem_of_lookup in Hx as [i Hi]. by destruct (Hf i x Hi) as [(Hxd & _ & _) _]. }
    rewrite (names_inj ds d x Hnd Hd Hxd E) in Hnp. done. }
  setoid_rewrite elem_of_app. setoid_rewrite list_elem_of_singleton. split.
  - intros (Hd' & Hn' & Hdeps). destruct (decide (Name d ∈ Dependencies d')) as [Hin|Hin]; [by right|]. left. split_and!; [done|tauto| |tauto].
    intros dep Hdep. destruct (Hdeps dep Hdep) as [|E]; [done|]. by rewrite E in Hdep.
  - intros [[(Hd' & Hn' & Hdeps) Hne]|(Hd' & Hin & Hdeps)]; split_and!; try done.
    + tauto.
    + intros dep Hdep. left. by apply Hdeps.
    + intros [Hp|E].
      * apply Hnn. by eapply placed_closed.
      * subst d'. apply Hnn, Hdd, Hin.
Qed.

Lemma sub_snoc placed d : NoDup (names ds) -> placed ⊆+ ds -> d ∈ ds -> d ∉ placed -> placed ++ [d] ⊆+ ds.
Proof.
  intros Hnd Hs Hd Hn. apply NoDup_submseteq.
  - apply NoDup_app. split_and!; [|set_solver|apply NoDup_singleton]. apply submseteq_Permutation in Hs as [k Hk].
    apply (NoDup_fmap_1 Name) in Hnd. rewrite Hk in Hnd. by apply NoDup_app in Hnd as [Hnd _].
  - intros x [Hx|Hx]%elem_of_app; [by eapply elem_of_submseteq|]. by apply list_elem_of_singleton in Hx as ->.
Qed.

Lemma inv_round placed dg name ready : inv placed dg (name :: ready) ->
  exists d, byName t !! name = Some d /\ d ∈ ds /\ d ∉ placed
    /\ forall dg' r', release (waiting t name) dg ready = (dg', r') -> inv (placed ++ [d]) dg' (sort_strings r').
Proof.
  intros [Hs Ho Hr Hso Hnd Hf]. destruct (proj1 (Hr name) ltac:(by left)) as (d & Hav & En). pose proof Hav as (Hd & Hnp & Hdd).
  exists d. split_and!; [by apply (g_by _ _ Hg)|done|done|]. intros dg' r' [Hdg ->]%release_spec; [|apply waiting_nodup].
  destruct Hds as [Hnn _]. apply NoDup_cons in Hnd as [Hnr Hnd]. apply StronglySorted_inv in Hso as [_ Hle].
  assert (Hn0 : Name d ∉ names placed).
  { intros (x & E & Hx)%list_elem_of_fmap. rewrite (names_inj ds d x) in Hnp; try done. by eapply elem_of_submseteq. }
  assert (Hopen : forall d', d' ∈ ds -> degree dg' (Name d') = Z.of_nat (size (open_deps (placed ++ [d]) d'))).
  { intros d' Hd'. rewrite Hdg, Ho, open_snoc by done. f_equal. rewrite En. destruct (decide (name ∈ Dependencies d')) as [Hin|Hin].
    - rewrite decide_True; [done|]. apply waiting_in. by exists d'.
    - rewrite decide_False; [done|]. intros (x & Hx & E & Hxin)%waiting_in. by rewrite (names_inj ds x d') in Hxin. }
  assert (Hready : forall n, n ∈ ready ++ filter (fun n => degree dg' n = 0%Z) (waiting t name) <-> exists d', available ds (placed ++ [d]) d' /\ Name d' = n).
  { intros n. rewrite elem_of_app, list_elem_of_filter, waiting_in. split.
    - intros [Hin|[Hz (d' & Hd' & <- & Hin)]].
      + destruct (proj1 (Hr n) ltac:(by right)) as (d' & Hav' & <-). exists d'. split; [|done]. apply available_snoc; [done|done|]. left. split; [done|].
        intros ->. by rewrite En in Hin.
      + exists d'. split; [|done]. apply available_snoc; [done|done|]. right. rewrite En. split_and!; [done|done|]. rewrite Hopen in Hz by done. lia.
    - intros (d' & [[Hav' Hne]|(Hd' & Hin & Hz)]%available_snoc & <-); try done.
      + left. pose proof (proj2 (Hr (Name d')) ltac:(by exists d')) as [E|Hin]%elem_of_cons; [|done]. destruct Hne. apply (names_inj ds); [done|apply Hav'|done|]. by rewrite En.
      + right. split; [rewrite Hopen by done; lia|]. exists d'. by rewrite <- En. }
  split.
  - by apply sub_snoc.
  - done.
  - intros n. unfold sort_strings. rewrite merge_sort_Permutation. apply Hready.
  - apply StronglySorted_merge_sort; apply _.
  - unfold sort_strings. rewrite merge_sort_Permutation. apply NoDup_app. split_and!; [done| |apply NoDup_filter, waiting_nodup].
    intros n Hin [_ (d' & Hd' & <- & Hdep)%waiting_in]%list_elem_of_filter.
    destruct (proj1 (Hr (Name d')) ltac:(by right)) as (x & (Hx & _ & Hxd) & E). rewrite (names_inj ds x d') in Hxd; try done. apply Hn0. rewrite En. by apply Hxd.
  - intros i x Hx. destruct (decide (i < length placed)%nat) as [Hi|Hi].
    + rewrite lookup_app_l in Hx by done. rewrite take_app_le by lia. by apply Hf.
    + apply lookup_app_Some in Hx as [Hx|[Hl Hx]]; [by apply lookup_lt_Some in Hx|]. apply list_lookup_singleton_Some in Hx as [Hi0 <-].
      replace i with (length placed) by lia. rewrite take_app_length. split; [done|]. intros d' Hav'. rewrite En.
      pose proof (proj2 (Hr (Name d')) ltac:(by exists d')) as [E|Hin]%elem_of_cons; [rewrite E; by destruct (total string_le name name)|]. rewrite Forall_forall in Hle. by apply Hle.
Qed.

Lemma place_inv fuel : forall placed dg ready,
  inv placed dg ready -> (length ds <= fuel + length placed)%nat ->
  exists out dg', place fuel t dg ready placed = Some out /\ inv out dg' [].
Proof.
  induction fuel as [|fuel IH]; intros placed dg ready Hi Hl.
  - destruct ready as [|name ready]; [by exists placed, dg|]. exfalso. destruct (inv_round _ _ _ _ Hi) as (d & _ & Hd & Hn & _).
    pose proof (submseteq_length _ _ (sub_snoc placed d (proj1 Hds) (i_sub _ _ _ Hi) Hd Hn)) as Hlen. rewrite length_app in Hlen. cbn in Hlen. lia.
  - destruct ready as [|name ready]; [by exists placed, dg|]. destruct (inv_round _ _ _ _ Hi) as (d & Hb & Hd & Hn & Hr).
    cbn [place]. fold (waiting t name). destruct (release (waiting t name) dg ready) as [dg' r'] eqn:Er. rewrite Hb. cbn [default].
    apply IH with (dg := dg'); [by apply Hr|]. rewrite length_app. cbn. lia.
Qed.

Lemma inv_start : inv [] (indegree t) (sort_strings (ready_names (indegree t))).
Proof.
  assert (Hin : forall n, n ∈ ready_names (indegree t) <-> n ∈ names ds /\ degree (indegree t) n = 0%Z).
  { intros n. unfold ready_names. rewrite list_elem_of_omap. rewrite <- (g_dom _ _ Hg). unfold degree. split.
    - intros ([m k] & Hm & E). cbn in E. apply elem_of_map_to_list in Hm. destruct (Z.eqb_spec k 0) as [->|]; [|done]. injection E as ->.
      rewrite Hm. split; [by eexists|done].
    - intros [[k Hk] Hz]. rewrite Hk in Hz. cbn in Hz. subst k. exists (n, 0%Z). split; [by apply elem_of_map_to_list|done]. }
  split.
  - apply submseteq_nil_l.
  - intros d Hd. rewrite (g_degree _ _ Hg) by done. do 2 f_equal. unfold open_deps. set_solver.
  - intros n. unfold sort_strings. rewrite merge_sort_Permutation, Hin. unfold names at 1. rewrite list_elem_of_fmap. split.
    + intros [(d & -> & Hd) Hz]. rewrite (g_degree _ _ Hg) in Hz by done. exists d. split; [|done]. split_and!; [done|set_solver|].
      apply open_zero. unfold open_deps. cbn. rewrite difference_empty_L. lia.
    + intros (d & (Hd & _ & Hdd) & <-). split; [by exists d|]. rewrite (g_degree _ _ Hg) by done. apply open_zero in Hdd. unfold open_deps in Hdd. cbn in Hdd.
      rewrite difference_empty_L in Hdd. lia.
  - apply StronglySorted_merge_sort; apply _.
  - unfold sort_strings. rewrite merge_sort_Permutation. unfold ready_names.
    pose proof (NoDup_fst_map_to_list (indegree t)) as Hnd. revert Hnd. generalize (map_to_list (indegree t)) as l.
    induction l as [|[n k] l IH]; cbn; [constructor|]. intros [Hn Hnd]%NoDup_cons. destruct (k =? 0)%Z; [|by apply IH]. constructor; [|by apply IH].
    intros ([m z] & Hm & E)%list_elem_of_omap. cbn in E. destruct (z =? 0)%Z; [|done]. injection E as ->. apply Hn. apply list_elem_of_fmap. by exists (n, z).
  - intros i d Hi. by rewrite lookup_nil in Hi.
Qed.

(** When nothing is ready any more either everything is placed, or there is no
    order at all. *)
Lemma nothing_ready placed dg : inv placed dg [] -> if (length placed =? length ds)%nat then placed ≡ₚ ds else forall out, out ≡ₚ ds -> ~ respects out.
Proof.
  intros [Hs Ho Hr _ _ Hf]. destruct (Nat.eqb_spec (length placed) (length ds)) as [E|E].
  - apply submseteq_length_Permutation; [done|lia].
  - intros out Hout Hresp.
    assert (Hin : forall x, x ∈ ds -> Name x ∈ names placed -> x ∈ placed).
    { intros x Hx (y & Ey & Hy)%list_elem_of_fmap. destruct Hds as [Hnd _]. rewrite (names_inj ds x y); try done. by eapply elem_of_submseteq. }
    assert (Hex : Exists (fun d => Name d ∉ names placed) out).
    { apply Exists_exists. destruct (decide (Forall (fun d => Name d ∈ names placed) ds)) as [Hall|Hno].
      - exfalso. apply E. apply Nat.le_antisymm; [by apply submseteq_length|]. apply submseteq_length, NoDup_submseteq.
        + destruct Hds as [Hnd _]. by apply (NoDup_fmap_1 Name).
        + intros x Hx. rewrite Forall_forall in Hall. by apply Hin, Hall.
      - apply not_Forall_Exists, Exists_exists in Hno as (x & Hx & Hn); [|intros; apply _]. exists x. by rewrite Hout. }
    assert (Hfirst : exists i d, out !! i = Some d /\ Name d ∉ names placed /\ Forall (fun x => Name x ∈ names placed) (take i out)).
    { clear -Hex. induction out as [|x out IH]; [by apply Exists_nil in Hex|]. destruct (decide (Name x ∈ names placed)) as [Hx|Hx].
      - apply Exists_cons in Hex as [|Hex]; [done|]. destruct (IH Hex) as (i & d & Hi & Hd & Hall). exists (S i), d. split_and!; [done|done|]. by constructor.
      - exists 0%nat, x. split_and!; [done|done|constructor]. }
    destruct Hfirst as (i & d & Hi & Hd & Hall). assert (Hav : Name d ∈ []); [|by apply not_elem_of_nil in Hav]. apply Hr.
    exists d. split; [|done]. split_and!; [rewrite <- Hout; by eapply list_elem_of_lookup_2|intros Hp; by apply Hd, list_elem_of_fmap_2|].
    intros dep Hdep. specialize (Hresp i d dep Hi Hdep). unfold names in *. apply list_elem_of_fmap in Hresp as (x & -> & Hx).
    rewrite Forall_forall in Hall. by apply Hall.
Qed.
End rounds.

Lemma first_available_respects ds out : first_available ds out -> respects out.
Proof. intros Hf i d dep Hi Hd. destruct (Hf i d Hi) as [(_ & _ & Hdd) _]. by apply Hdd. Qed.

Lemma orderDescriptors_spec ds : described ds ->
  match orderDescriptors ds with
  | Some (Ok out) => out ≡ₚ ds /\ first_available ds out
  | Some (Err _) => forall out, out ≡ₚ ds -> ~ respects out
  | None => False
  end.
Proof.
  intros Hds. pose proof (tables_spec ds Hds) as Ht. unfold all_tables in Ht. unfold orderDescriptors.
  assert (Hmiss : (exists d dep, d ∈ ds /\ dep ∈ Dependencies d /\ dep ∉ names ds) -> forall out, out ≡ₚ ds -> ~ respects out).
  { intros (d & dep & Hd & Hdep & Hn) out Hout Hresp. rewrite <- Hout in Hd. apply list_elem_of_lookup in Hd as [i Hi]. specialize (Hresp i d dep Hi Hdep).
    apply Hn. unfold names in *. rewrite <- Hout. apply list_elem_of_fmap in Hresp as (x & -> & Hx). apply list_elem_of_fmap_2.
    apply elem_of_take in Hx as (j & Hj & _). by eapply list_elem_of_lookup_2. }
  destruct (enter_all ds _) as [t0|e]; [|by apply Hmiss]. destruct (link_all ds t0) as [t|e]; [|by apply Hmiss].
  destruct (place_inv ds t Hds Ht (length ds) [] (indegree t) _ (inv_start ds t Hds Ht) ltac:(cbn; lia)) as (out & dg & -> & Hi). cbn.
  pose proof (nothing_ready ds Hds out dg Hi) as Hn. destruct (length out =? length ds)%nat; [|done]. split; [done|apply Hi].
Qed.

Lemma available_perm ds ds' placed d : ds ≡ₚ ds' -> available ds placed d -> available ds' placed d.
Proof. intros Hp (Hd & Hn & Hdd). split_and!; [by rewrite <- Hp|done|done]. Qed.

Lemma first_available_unique ds ds' out out' : NoDup (names ds) -> ds ≡ₚ ds' ->
  out ≡ₚ ds -> out' ≡ₚ ds' -> first_available ds out -> first_available ds' out' -> out = out'.
Proof.
  intros Hnd Hp Ho Ho' Hf Hf'. assert (Ht : forall n, take n out = take n out').
  { induction n as [|n IH]; [done|]. assert (El : length out = length out') by (by rewrite Ho, Ho', Hp).
    destruct (out !! n) as [d|] eqn:E.
    - destruct (lookup_lt_is_Some_2 out' n) as [d' E']; [rewrite <- El; by eapply lookup_lt_Some|].
      rewrite (take_S_r _ _ _ E), (take_S_r _ _ _ E'), IH. f_equal. destruct (Hf n d E) as [Hav Hle], (Hf' n d' E') as [Hav' Hle'].
      rewrite IH in *. f_equal. apply (names_inj ds); [done|apply Hav|rewrite Hp; apply Hav'|]. apply (anti_symm string_le).
      + apply Hle. apply (available_perm ds' ds); [by symmetry|done].
      + apply Hle'. by apply (available_perm ds ds').
    - apply lookup_ge_None in E. rewrite !take_ge in * by lia. done. }
  specialize (Ht (length out)). rewrite firstn_all in Ht. rewrite Ht. apply take_ge. by rewrite Ho, Ho', Hp.
Qed.

(** ** The registry *)

(** A registry after any registrations, some of them refused. *)
Definition registrations (l : list (Descriptor Factory)) : Registry Factory := foldl (fun r d => (Register d r).1) newRegistry l.

Lemma registrations_described l : forall n d, descriptors (registrations l) !! n = Some d -> n = Name d /\ n <> "" /\ New d <> None.
Proof.
  unfold registrations. assert (Hgen : forall r, (forall n d, descriptors r !! n = Some d -> n = Name d /\ n <> "" /\ New d <> None) ->
    forall n d, descriptors (foldl (fun r d => (Register d r).1) r l) !! n = Some d -> n = Name d /\ n <> "" /\ New d <> None).
  { induction l as [|x l IH]; intros r Hr; [done|]. cbn [foldl]. apply IH. intros n d. unfold Register. cbv zeta.
    destruct (String.eqb_spec (TrimSpace (Name x)) "") as [|Hne]; [apply Hr|]. destruct (bool_decide_reflect (New x = None)) as [|Hnew]; [apply Hr|].
    destruct (String.eqb_spec (TrimSpace (Name x)) (Name x)) as [E|]; [|apply Hr]. cbn [negb]. destruct (descriptors r !! TrimSpace (Name x)); [apply Hr|].
    cbn. intros [[<- <-]|[_ Hd]]%lookup_insert_Some; [by split_and!|by apply Hr]. }
  apply Hgen. cbn. intros n d. by rewrite lookup_empty.
Qed.

Lemma iterates_described l ds : iterates (registrations l) ds -> described ds.
Proof.
  unfold iterates. intros Hp. assert (E : names ds ≡ₚ (map_to_list (descriptors (registrations l))).*1).
  { unfold names. rewrite Hp. apply reflexive_eq. rewrite <- list_fmap_compose. apply list_fmap_ext. intros i [n d] Hi. cbn.
    apply list_elem_of_lookup_2, elem_of_map_to_list in Hi. by apply registrations_described in Hi as (-> & _). }
  split; rewrite E; [apply NoDup_fst_map_to_list|]. intros ([n d] & En & Hn)%list_elem_of_fmap. cbn in En.
  apply elem_of_map_to_list in Hn. apply registrations_described in Hn as (_ & Hn & _). by subst n.
Qed.

(** the plugins are built in the order of their dependencies. Whatever was
    registered and in whatever order the map is iterated, the sort returns; what
    it returns is every registered plugin once, each behind its dependencies, and
    at each place the first name of those whose dependencies were placed; when it
    fails, no order of the registered plugins has every dependency in front. *)
Theorem the_plugins_are_ordered l ds : iterates (registrations l) ds ->
  match Snapshot ds with
  | Some (Ok out) => out ≡ₚ ds /\ respects out /\ first_available ds out
  | Some (Err _) => forall out, out ≡ₚ ds -> ~ respects out
  | None => False
  end.
Proof.
  intros Hi%iterates_described. pose proof (orderDescriptors_spec ds Hi) as Ho. unfold Snapshot. destruct (orderDescriptors ds) as [[out|e]|]; [|done|done].
  destruct Ho as [Hp Hf]. split_and!; [done|by eapply first_available_respects|done].
Qed.

(** the order is the same at every start, although the map is iterated in
    another order each time. *)
Theorem the_order_is_the_same l ds ds' out :
  iterates (registrations l) ds -> iterates (registrations l) ds' -> Snapshot ds = Some (Ok out) -> Snapshot ds' = Some (Ok out).
Proof.
  intros Hi Hi' E. assert (Hp : ds ≡ₚ ds') by (unfold iterates in *; by rewrite Hi, Hi'). apply iterates_described in Hi, Hi'.
  pose proof (orderDescriptors_spec ds Hi) as Ho. pose proof (orderDescriptors_spec ds' Hi') as Ho'. unfold Snapshot in *. rewrite E in Ho.
  destruct Ho as [Ho Hf]. destruct (orderDescriptors ds') as [[out'|e]|]; [| |done].
  - destruct Ho' as [Ho' Hf']. do 2 f_equal. symmetry. by apply (first_available_unique ds ds' out out' (proj1 Hi) Hp Ho Ho' Hf Hf').
  - exfalso. apply (Ho' out); [by rewrite Ho|by eapply first_available_respects].
Qed.
End props.

(** ** Samples *)

Definition plugin (name : string) (dependencies : list string) : Descriptor unit := mkDescriptor name dependencies (Some tt).
Definition sample_registered : list (Descriptor unit) :=
  [plugin "dispatcher" ["agent"]; plugin "agent" []; plugin " x" []; plugin "agent" ["dispatcher"]; plugin "audit" ["dispatcher"; "agent"; "agent"]].
Definition sample_iteration : list (Descriptor unit) := (map_to_list (descriptors (registrations sample_registered))).*2.

Example registry_samples :
  option_map (fun r => match r with Ok out => Some (names out) | Err _ => None end) (Snapshot sample_iteration) = Some (Some ["agent"; "dispatcher"; "audit"])
  /\ Snapshot [plugin "a" ["b"]; plugin "b" ["a"]] = Some (Err ErrCycle)
  /\ Snapshot [plugin "a" ["c"]] = Some (Err (ErrMissing "a" "c"))
  /\ (Register (plugin " x" []) newRegistry).2 = Some (ErrWhitespace " x").
Proof. vm_compute. by split_and!. Qed.

Lemma the_plugins_are_ordered_witness :
  let out := [plugin "agent" []; plugin "dispatcher" ["agent"]; plugin "audit" ["dispatcher"; "agent"; "agent"]] in
  Snapshot sample_iteration = Some (Ok out) /\ respects out.
Proof.
  split; [vm_compute; reflexivity|]. assert (E : Snapshot sample_iteration = Some (Ok [plugin "agent" []; plugin "dispatcher" ["agent"]; plugin "audit" ["dispatcher"; "agent"; "agent"]]))
    by (vm_compute; reflexivity).
  pose proof (the_plugins_are_ordered sample_registered sample_iteration (Permutation_refl _)) as Ht. rewrite E in Ht. exact (proj1 (proj2 Ht)).
Defined.

Lemma the_order_is_the_same_witness :
  Snapshot (rev sample_iteration) = Some (Ok [plugin "agent" []; plugin "dispatcher" ["agent"]; plugin "audit" ["dispatcher"; "agent"; "agent"]]).
Proof.
  apply (the_order_is_the_same sample_registered sample_iteration); [apply Permutation_refl| |vm_compute; reflexivity].
  unfold iterates. fold sample_iteration. symmetry. apply Permutation_rev.
Defined.
