(* ===== verification/RuntimeConfig.v ===== *)
(** * ai-runtime/config: the configuration of the runtime

    The providers of models with their defaults and their validation, the numbers
    of a configuration as they are parsed. The iteration of the map of providers
    is that of [map_to_list]: which of several faults is reported depends on it,
    whether there is one does not. *)

From S2P Require Import Prelude GoString GoUtf8 GoFloat GoStrconv DispatchIngress SandboxPolicy.
#[local] Open Scope string_scope.
#[local] Open Scope list_scope.

Definition ThinkingRequestAuto : string := "auto".
Definition ThinkingRequestEnable : string := "enable_thinking".
Definition ThinkingRequestEffort : string := "reasoning_effort".
Definition ThinkingEffortLow : string := "low".
Definition ThinkingEffortMedium : string := "medium".
Definition ThinkingEffortHigh : string := "high".
Definition ProviderTypeOpenAI : string := "openai".
Definition ProviderTypeAnthropic : string := "anthropic".
Definition AnthropicAuthBearer : string := "bearer".
Definition AnthropicAuthAPIKey : string := "x-api-key".

Record ProviderThinkingConfig := mkProviderThinking { RequestMode : string; Effort : string }.

Record ProviderConfig := mkProvider {
  p_Type : string;
  Endpoint : string;
  Model : string;
  APIKey : string;
  ContextWindow : Z;
  p_Thinking : ProviderThinkingConfig;
  AuthType : string;
  MaxTokens : Z;
}.

Record ThinkingConfig := mkThinking { Show : bool }.

Record LLMConfig := mkLLM {
  DefaultProvider : string;
  Providers : gmap string ProviderConfig;
  CompressAt : float64;
  CompactKeep : Z;
  MaxIterations : Z;
  l_Thinking : ThinkingConfig;
}.

Record MemoryConfig := mkMemory {
  m_Dir : string;
  m_Enabled : bool;
  TaskKeep : Z;
  TaskInjectN : Z;
  LtmInjectTopK : Z;
  m_LtmExtract : bool;
  InjectBudgetRatio : float64;
  m_UserMaxChars : Z;
  m_AgentsMaxChars : Z;
}.

Record SessionConfig := mkSession {
  s_Dir : string;
  s_Enabled : bool;
  MaxConcurrentRuns : Z;
  MaxPendingRuns : Z;
  CapabilityWaitTimeout : Z;
}.

Record MCPServer := mkMCPServer { mcp_Name : string; mcp_Command : string; mcp_Args : list string }.
Record MCPConfig := mkMCP { Servers : list MCPServer }.

Record Config := mkConfig {
  LLM : LLMConfig;
  Memory : MemoryConfig;
  Sandbox : SandboxConfig;
  Session : SessionConfig;
  MCP : MCPConfig;
  Dispatch : DispatchConfig;
}.

Inductive llm_error : Type :=
  | ErrNoDefault
  | ErrDefaultMissing (name : string)
  | ErrCompressAt
  | ErrCompactKeep
  | ErrMaxIterations
  | ErrProviderName (name : string)
  | ErrEndpointRequired (name : string)
  | ErrEndpointInvalid (name : string)
  | ErrModelRequired (name : string)
  | ErrContextWindow (name : string)
  | ErrAnthropicFields (name : string)
  | ErrRequestModeRequired (name : string)
  | ErrRequestMode (value : string)
  | ErrEffort (value : string)
  | ErrAPIKeyRequired (name : string)
  | ErrMaxTokens (name : string)
  | ErrAuthType (name : string)
  | ErrOpenAIFields (name : string)
  | ErrProviderType (name type : string)
  | ErrShow (value : string)
  | ErrEmptyValue
  | ErrNotAWindow (value : string)
  | ErrWindowTooSmall (value : string)
  | ErrNumber (value : string).

Definition defaultContextWindow : Z := 256000.

Definition DefaultLLM : LLMConfig :=
  mkLLM "openai"
    {["openai" := mkProvider ProviderTypeOpenAI "http://localhost:8000/v1" "gpt-4o" "" defaultContextWindow
                    (mkProviderThinking ThinkingRequestAuto ThinkingEffortMedium) "" 0]}
    (fdiv (f64_of_Z 8) (f64_of_Z 10)) 10 15 (mkThinking true).

Definition provider_defaults (p : ProviderConfig) : ProviderConfig :=
  if String.eqb (p_Type p) ProviderTypeOpenAI then
    let th := p_Thinking p in
    mkProvider (p_Type p) (Endpoint p) (Model p) (APIKey p) (if (ContextWindow p =? 0)%Z then defaultContextWindow else ContextWindow p)
      (mkProviderThinking (if String.eqb (RequestMode th) "" then ThinkingRequestAuto else RequestMode th)
         (if String.eqb (Effort th) "" then ThinkingEffortMedium else Effort th)) (AuthType p) (MaxTokens p)
  else p.

Definition with_providers (m : gmap string ProviderConfig) (c : LLMConfig) : LLMConfig :=
  mkLLM (DefaultProvider c) m (CompressAt c) (CompactKeep c) (MaxIterations c) (l_Thinking c).

Definition WithDefaults (c : LLMConfig) : LLMConfig := with_providers (provider_defaults <$> Providers c) c.

(** A map is a value here; the source copies it wherever the model updates it. *)
Definition Clone (c : LLMConfig) : LLMConfig := c.

Definition ParseThinkingRequestMode (value : string) : result llm_error string :=
  let mode := TrimSpace value in
  if existsb (String.eqb mode) [ThinkingRequestAuto; ThinkingRequestEnable; ThinkingRequestEffort] then Ok mode else Err (ErrRequestMode value).

Definition ParseThinkingEffort (value : string) : result llm_error string :=
  let effort := TrimSpace value in
  if existsb (String.eqb effort) [ThinkingEffortLow; ThinkingEffortMedium; ThinkingEffortHigh] then Ok effort else Err (ErrEffort value).

(** The tables of package unicode ([IsLetter || IsDigit]), [url.ParseRequestURI]
    with the scheme and the host it finds, and what a conversion of a float64 to
    int gives when the number does not fit, which the language leaves open. *)
Class Host := {
  letter_or_digit : N -> bool;
  ParseRequestURI : string -> option (string * string);
  int_overflow : float64 -> Z;
}.

Section host.
Context `{Host}.

Definition validProviderName (name : string) : bool :=
  if String.eqb name "" || Contains name "." then false
  else forallb (fun r => letter_or_digit r || (r =? rune "-")%N || (r =? rune "_")%N) (rune_list name).

Definition valid_endpoint (s : string) : bool :=
  match ParseRequestURI s with
  | Some (scheme, host) => negb (String.eqb scheme "") && negb (String.eqb host "")
  | None => false
  end.

Definition err_of {A} (r : result llm_error A) : option llm_error := match r with Ok _ => None | Err e => Some e end.

Definition validateProvider (name : string) (p : ProviderConfig) : option llm_error :=
  if negb (validProviderName name) then Some (ErrProviderName name)
  else if String.eqb (Endpoint p) "" then Some (ErrEndpointRequired name)
  else if negb (valid_endpoint (Endpoint p)) then Some (ErrEndpointInvalid name)
  else if String.eqb (Model p) "" then Some (ErrModelRequired name)
  else if (ContextWindow p <=? 0)%Z then Some (ErrContextWindow name)
  else if String.eqb (p_Type p) ProviderTypeOpenAI then
    if negb (String.eqb (AuthType p) "") || negb (MaxTokens p =? 0)%Z then Some (ErrAnthropicFields name)
    else if String.eqb (RequestMode (p_Thinking p)) "" then Some (ErrRequestModeRequired name)
    else
      match err_of (ParseThinkingRequestMode (RequestMode (p_Thinking p))) with
      | Some e => Some e
      | None => err_of (ParseThinkingEffort (Effort (p_Thinking p)))
      end
  else if String.eqb (p_Type p) ProviderTypeAnthropic then
    if String.eqb (APIKey p) "" then Some (ErrAPIKeyRequired name)
    else if (MaxTokens p <=? 0)%Z then Some (ErrMaxTokens name)
    else if negb (String.eqb (AuthType p) AnthropicAuthBearer) && negb (String.eqb (AuthType p) AnthropicAuthAPIKey) then Some (ErrAuthType name)
    else if negb (String.eqb (RequestMode (p_Thinking p)) "") || negb (String.eqb (Effort (p_Thinking p)) "") then Some (ErrOpenAIFields name)
    else None
  else Some (ErrProviderType name (p_Type p)).

Definition resolveDefault (c : LLMConfig) : result llm_error (string * ProviderConfig) :=
  if String.eqb (DefaultProvider c) "" then Err ErrNoDefault
  else
    match Providers c !! DefaultProvider c with
    | None => Err (ErrDefaultMissing (DefaultProvider c))
    | Some p => match validateProvider (DefaultProvider c) p with Some e => Err e | None => Ok (DefaultProvider c, p) end
    end.

Definition ResolveDefault (c : LLMConfig) : result llm_error (string * ProviderConfig) := resolveDefault (WithDefaults c).

Definition f64_one : float64 := f64_of_Z 1.
Definition isNaN (x : float64) : bool := match x with S754_nan => true | _ => false end.

Fixpoint first_fault (ps : list (string * ProviderConfig)) : option llm_error :=
  match ps with
  | [] => None
  | (name, p) :: ps' => match validateProvider name p with Some e => Some e | None => first_fault ps' end
  end.

Definition Validate (c : LLMConfig) : option llm_error :=
  let c := WithDefaults c in
  match resolveDefault c with
  | Err e => Some e
  | Ok _ =>
      if fltb (CompressAt c) fzero || fltb f64_one (CompressAt c) || isNaN (CompressAt c) then Some ErrCompressAt
      else if (CompactKeep c <=? 0)%Z then Some ErrCompactKeep
      else if (MaxIterations c <=? 0)%Z then Some ErrMaxIterations
      else first_fault (map_to_list (Providers c))
  end.

Definition DefaultMemory : MemoryConfig := mkMemory "" true 50 3 8 true (fdiv (f64_of_Z 15) (f64_of_Z 100)) 1500 4096.

Definition Default (sandbox : SandboxConfig) (dispatch : DispatchConfig) : Config :=
  mkConfig DefaultLLM DefaultMemory sandbox (mkSession "" true 4 16 45) (mkMCP []) dispatch.

Definition ParseThinkingShow (value : string) : result llm_error bool :=
  match ParseBool (TrimSpace value) with Some b => Ok b | None => Err (ErrShow value) end.

Definition last_byte (s : string) : option ascii := String.get (String.length s - 1) s.
Definition but_last (s : string) : string := String.substring 0 (String.length s - 1) s.

(** [int(f)]: towards zero. *)
Definition int_of (f : float64) : Z :=
  let z := match f with
    | S754_zero _ => Some 0%Z
    | S754_finite s m e => let n := if (0 <=? e)%Z then (Z.pos m * 2 ^ e)%Z else (Z.pos m / 2 ^ (- e))%Z in Some (if s then (- n)%Z else n)
    | _ => None
    end in
  match z with
  | Some z => if ((- 2 ^ 63 <=? z) && (z <? 2 ^ 63))%Z then z else int_overflow f
  | None => int_overflow f
  end.

Definition fmul : float64 -> float64 -> float64 := SFmul 53 1024.
Definition fleb (x y : float64) : bool := SFleb x y.

Definition ParseContextWindow (s : string) : result llm_error Z :=
  let s := TrimSpace s in
  match last_byte s with
  | None => Err ErrEmptyValue
  | Some last =>
      let '(mult, s) :=
        if Ascii.eqb last "k" || Ascii.eqb last "K" then (1024%Z, but_last s)
        else if Ascii.eqb last "m" || Ascii.eqb last "M" then (1024 * 1024, but_last s)%Z
        else (1%Z, s) in
      match ParseFloat s with
      | None => Err (ErrNotAWindow s)
      | Some f =>
          if fleb f fzero then Err (ErrNotAWindow s)
          else
            let n := int_of (fmul f (f64_of_Z mult)) in
            if (n <=? 0)%Z then Err (ErrWindowTooSmall s) else Ok n
      end
  end.

Definition ParseCompressAt (v : string) : result llm_error float64 :=
  match ParseFloat v with
  | Some f => if isNaN f || fltb f fzero || fltb f64_one f then Err (ErrNumber v) else Ok f
  | None => Err (ErrNumber v)
  end.

Definition ParseCompactKeep (v : string) : result llm_error Z :=
  match Atoi v with Some n => if (n <=? 0)%Z then Err (ErrNumber v) else Ok n | None => Err (ErrNumber v) end.

Definition ParseMaxIterations (v : string) : result llm_error Z :=
  match Atoi v with Some n => if (n <=? 0)%Z then Err (ErrNumber v) else Ok n | None => Err (ErrNumber v) end.

(** ** What holds of a configuration that is valid *)

Definition valid (c : LLMConfig) : Prop := Validate c = None.

Lemma first_fault_None ps : first_fault ps = None <-> Forall (fun np => validateProvider np.1 np.2 = None) ps.
Proof.
  induction ps as [|[n p] ps IH]; cbn; [split; [constructor|done]|]. rewrite Forall_cons. cbn. destruct (validateProvider n p); [split; [done|by intros []]|tauto].
Qed.

(** A valid configuration by its parts. *)
Lemma valid_iff c :
  valid c <->
    DefaultProvider c <> "" /\ is_Some (Providers c !! DefaultProvider c)
    /\ (fltb (CompressAt c) fzero = false /\ fltb f64_one (CompressAt c) = false /\ isNaN (CompressAt c) = false)
    /\ (0 < CompactKeep c)%Z /\ (0 < MaxIterations c)%Z
    /\ map_Forall (fun n p => validateProvider n (provider_defaults p) = None) (Providers c).
Proof.
  unfold valid, Validate, resolveDefault, WithDefaults. cbn [with_providers DefaultProvider Providers CompressAt CompactKeep MaxIterations]. rewrite lookup_fmap.
  assert (Hall : first_fault (map_to_list (provider_defaults <$> Providers c)) = None <-> map_Forall (fun n p => validateProvider n (provider_defaults p) = None) (Providers c)).
  { rewrite first_fault_None. transitivity (map_Forall (fun n p => validateProvider n p = None) (provider_defaults <$> Providers c)).
    - rewrite map_Forall_to_list. apply Forall_iff. by intros [n p].
    - by rewrite map_Forall_fmap. }
  destruct (String.eqb_spec (DefaultProvider c) "") as [E|E]; [split; [done|by intros []]|].
  destruct (Providers c !! DefaultProvider c) as [p|] eqn:Ep; cbn [fmap option_fmap option_map].
  2:{ split; [done|]. intros (_ & [? ?] & _). done. }
  destruct (validateProvider (DefaultProvider c) (provider_defaults p)) as [e|] eqn:Ev.
  - split; [done|]. intros (_ & _ & _ & _ & _ & Hm). specialize (Hm _ _ Ep). cbn in Hm. congruence.
  - destruct (fltb (CompressAt c) fzero); cbn [orb]; [split; [done|naive_solver]|]. destruct (fltb f64_one (CompressAt c)); cbn [orb]; [split; [done|naive_solver]|].
    destruct (isNaN (CompressAt c)); cbn [orb]; [split; [done|naive_solver]|].
    destruct (Z.leb_spec (CompactKeep c) 0); [split; [done|]; intros (_ & _ & _ & ? & _); lia|].
    destruct (Z.leb_spec (MaxIterations c) 0); [split; [done|]; intros (_ & _ & _ & _ & ? & _); lia|].
    rewrite Hall. split; [intros Hm; split_and!; try done|by intros (_ & _ & _ & _ & _ & ?)].
Qed.

(** Numbers that parse are in their ranges. *)
Lemma parsed_numbers v :
  (forall f, ParseCompressAt v = Ok f -> fltb f fzero = false /\ fltb f64_one f = false /\ isNaN f = false)
  /\ (forall n, ParseCompactKeep v = Ok n -> (0 < n < 2 ^ 63)%Z)
  /\ (forall n, ParseMaxIterations v = Ok n -> (0 < n < 2 ^ 63)%Z)
  /\ (forall n, ParseContextWindow v = Ok n -> (0 < n)%Z).
Proof.
  split_and!.
  - intros f. unfold ParseCompressAt. destruct (ParseFloat v) as [g|]; [|done]. destruct (isNaN g || fltb g fzero || fltb f64_one g) eqn:E; [done|].
    intros [= <-]. apply orb_false_iff in E as [[E1 E2]%orb_false_iff E3]. done.
  - intros n. unfold ParseCompactKeep. destruct (Atoi v) as [m|] eqn:E; [|done]. apply Atoi_range in E. destruct (Z.leb_spec m 0); [done|]. intros [= <-]. lia.
  - intros n. unfold ParseMaxIterations. destruct (Atoi v) as [m|] eqn:E; [|done]. apply Atoi_range in E. destruct (Z.leb_spec m 0); [done|]. intros [= <-]. lia.
  - intros n. unfold ParseContextWindow. destruct (last_byte _); [|done].
    destruct (if Ascii.eqb a "k" || Ascii.eqb a "K" then (1024%Z, but_last (TrimSpace v)) else _) as [mult t].
    destruct (ParseFloat t) as [f|]; [|done]. destruct (fleb f fzero); [done|]. cbv zeta. destruct (Z.leb_spec (int_of (fmul f (f64_of_Z mult))) 0); [done|]. by intros [= <-].
Qed.
End host.

Definition sample_host : Host := {|
  letter_or_digit r := in_range 48 57 r || in_range 65 90 r || in_range 97 122 r;
  ParseRequestURI s := if HasPrefix s "http://" then Some ("http", string_drop 7 s) else None;
  int_overflow _ := (- 2 ^ 63)%Z;
|}.

#[local] Existing Instance sample_host.

Example runtime_config_samples :
  Validate DefaultLLM = None
  /\ ParseContextWindow " 32k " = Ok 32768%Z /\ ParseContextWindow "1.5m" = Ok 1572864%Z /\ ParseContextWindow "32768" = Ok 32768%Z
  /\ ParseContextWindow "0.5" = Err (ErrWindowTooSmall "0.5") /\ ParseContextWindow "k" = Err (ErrNotAWindow "")
  /\ ParseContextWindow "nan" = Err (ErrWindowTooSmall "nan") /\ ParseContextWindow "1e30" = Err (ErrWindowTooSmall "1e30")
  /\ ParseCompressAt "NaN" = Err (ErrNumber "NaN") /\ ParseCompactKeep "+7" = Ok 7%Z.
Proof. vm_compute. by split_and!. Qed.
