(* ===== verification/ServiceRegistry.v ===== *)
(** * daemon/internal/core/service: the registry of the services

    Services start in the order of their registration and stop in the reverse
    order; a start that fails stops what it had started. What a service answers
    is an argument of the operation. *)

From S2P Require Import Prelude.
#[local] Open Scope string_scope.
#[local] Open Scope list_scope.

Record Service := mkService { svc_Name : string; svc_id : nat }.

Inductive registryState : Type := registryOpen | registryStarted | registryStopped.

(** An error joined of others is their list, in the order in which they were
    joined. *)
Inductive service_error : Type :=
  | ErrNilService
  | ErrServiceName
  | ErrAfterStart
  | ErrDuplicate (name : string)
  | ErrStopped
  | ErrStart (name cause : string) (rollback : list (string * string))
  | ErrStop (causes : list (string * string)).

Record Registry := mkRegistry {
  services : list Service;
  byName : gmap string Service;
  state : registryState;
  startErr : option service_error;
  stopErr : option service_error;
}.

Definition NewRegistry : Registry := mkRegistry [] ∅ registryOpen None None.

Definition Register (service : option Service) (r : Registry) : Registry * option service_error :=
  match service with
  | None => (r, Some ErrNilService)
  | Some s =>
      if String.eqb (svc_Name s) "" then (r, Some ErrServiceName)
      else
        match state r with
        | registryOpen =>
            match byName r !! svc_Name s with
            | Some _ => (r, Some (ErrDuplicate (svc_Name s)))
            | None =>
                (mkRegistry (services r ++ [s]) (<[svc_Name s := s]> (byName r)) (state r) (startErr r) (stopErr r), None)
            end
        | _ => (r, Some ErrAfterStart)
        end
  end.

Definition Get (name : string) (r : Registry) : option Service := byName r !! name.

(** What the services answer, by name: [None] is success. *)
Record answers := mkAnswers { on_start : string -> option string; on_stop : string -> option string }.

(** The calls of services, for the theorems: [Start] and whether it succeeded. *)
Inductive call : Type :=
  | CStart (s : Service) (ok : bool)
  | CStop (s : Service).

(** The services before [end], last first: the calls and the errors. *)
Definition stopStarted (a : answers) (ss : list Service) : list call * list (string * string) :=
  foldr (fun s acc =>
    let '(calls, errs) := acc in
    (calls ++ [CStop s], errs ++ match on_stop a (svc_Name s) with Some e => [(svc_Name s, e)] | None => [] end)) ([], []) ss.

Definition joined (errs : list (string * string)) : option service_error :=
  match errs with [] => None | _ => Some (ErrStop errs) end.

(** The loop of [Start] at the services [todo], behind the services [done]. *)
Fixpoint start_from (a : answers) (done todo : list Service) : list call * option (service_error * option service_error) :=
  match todo with
  | [] => ([], None)
  | s :: todo' =>
      match on_start a (svc_Name s) with
      | Some e =>
          let '(calls, errs) := stopStarted a done in
          (CStart s false :: calls, Some (ErrStart (svc_Name s) e errs, joined errs))
      | None =>
          let '(calls, r) := start_from a (done ++ [s]) todo' in
          (CStart s true :: calls, r)
      end
  end.

Definition startErrOrStopped (r : Registry) : service_error := default ErrStopped (startErr r).

Definition set_state (st : registryState) (se pe : option service_error) (r : Registry) : Registry :=
  mkRegistry (services r) (byName r) st se pe.

Definition Start (a : answers) (r : Registry) : Registry * list call * option service_error :=
  match state r with
  | registryStarted => (r, [], None)
  | registryStopped => (r, [], Some (startErrOrStopped r))
  | registryOpen =>
      match start_from a [] (services r) with
      | (calls, Some (e, rollback)) => (set_state registryStopped (Some e) rollback r, calls, Some e)
      | (calls, None) => (set_state registryStarted (startErr r) (stopErr r) r, calls, None)
      end
  end.

Definition Stop (a : answers) (r : Registry) : Registry * list call * option service_error :=
  match state r with
  | registryStopped => (r, [], stopErr r)
  | registryOpen => (set_state registryStopped (startErr r) (stopErr r) r, [], None)
  | registryStarted =>
      let '(calls, errs) := stopStarted a (services r) in
      (set_state registryStopped (startErr r) (joined errs) r, calls, joined errs)
  end.

(** ** The life of the services *)

Inductive op : Type :=
  | ORegister (s : option Service)
  | OStart (a : answers)
  | OStop (a : answers).

Definition apply_op (o : op) (rl : Registry * list call) : Registry * list call :=
  let '(r, log) := rl in
  match o with
  | ORegister s => ((Register s r).1, log)
  | OStart a => let '(r', calls, _) := Start a r in (r', log ++ calls)
  | OStop a => let '(r', calls, _) := Stop a r in (r', log ++ calls)
  end.

Definition run (ops : list op) : Registry * list call := foldl (fun rl o => apply_op o rl) (NewRegistry, []) ops.

Definition started (ss : list Service) : list call := (fun s => CStart s true) <$> ss.
Definition stopped (ss : list Service) : list call := CStop <$> rev ss.

(** What a registry has done to its services. *)
Definition life (r : Registry) (log : list call) : Prop :=
  match state r with
  | registryOpen => log = []
  | registryStarted => log = started (services r)
  | registryStopped =>
      log = [] \/ log = started (services r) ++ stopped (services r)
      \/ exists k s, services r !! k = Some s /\ log = started (take k (services r)) ++ CStart s false :: stopped (take k (services r))
  end.

Lemma stopStarted_calls a ss : (stopStarted a ss).1 = stopped ss.
Proof.
  unfold stopped. induction ss as [|s ss IH]; [done|]. cbn [rev stopStarted foldr]. fold (stopStarted a ss).
  destruct (stopStarted a ss) as [calls errs]. cbn in *. by rewrite IH, fmap_app.
Qed.

Lemma start_from_spec a todo : forall done calls r, start_from a done todo = (calls, r) ->
  match r with
  | None => calls = started todo /\ Forall (fun s => on_start a (svc_Name s) = None) todo
  | Some _ => exists k s, todo !! k = Some s /\ calls = started (take k todo) ++ CStart s false :: stopped (done ++ take k todo)
  end.
Proof.
  induction todo as [|s todo IH]; intros done calls r; cbn [start_from].
  - by intros [= <- <-].
  - destruct (on_start a (svc_Name s)) as [e|] eqn:Es.
    + destruct (stopStarted a done) as [cs errs] eqn:Ep. intros [= <- <-]. exists 0%nat, s. split; [done|]. cbn.
      rewrite app_nil_r, <- (stopStarted_calls a), Ep. done.
    + destruct (start_from a (done ++ [s]) todo) as [cs r'] eqn:E. intros [= <- <-]. specialize (IH _ _ _ E). destruct r' as [x|].
      * destruct IH as (k & y & Hk & ->). exists (S k), y. split; [done|]. cbn. by rewrite <- app_assoc.
      * destruct IH as [-> Hf]. split; [done|]. by constructor.
Qed.

Lemma life_op o r log : life r log -> NoDup (svc_Name <$> services r) /\ (forall n, is_Some (byName r !! n) <-> n ∈ svc_Name <$> services r) ->
  let '(r', log') := apply_op o (r, log) in
  life r' log' /\ NoDup (svc_Name <$> services r') /\ (forall n, is_Some (byName r' !! n) <-> n ∈ svc_Name <$> services r').
Proof.
  intros Hl [Hnd Hb]. destruct o as [s|a|a]; cbn [apply_op].
  - destruct s as [s|]; [|done]. cbn [Register]. destruct (String.eqb (svc_Name s) ""); [done|]. destruct (state r) eqn:Es; [|done..].
    destruct (byName r !! svc_Name s) eqn:Eb; [done|]. cbn. unfold life in *. cbn. rewrite Es in *. split; [done|]. rewrite fmap_app. cbn. split.
    + apply NoDup_app. split_and!; [done| |apply NoDup_singleton]. intros n Hn ->%list_elem_of_singleton. apply Hb in Hn as [? Hn]. by rewrite Eb in Hn.
    + intros n. rewrite elem_of_app, list_elem_of_singleton, <- Hb. destruct (decide (n = svc_Name s)) as [->|Hn].
      * rewrite lookup_insert_eq. split; [by right|by eexists].
      * rewrite lookup_insert_ne by done. tauto.
  - unfold Start. unfold life in Hl. destruct (state r) eqn:Es.
    + destruct (start_from a [] (services r)) as [calls [[e rb]|]] eqn:E; apply start_from_spec in E; (split; [|done]); unfold life; cbn; rewrite Hl; [|by destruct E].
      right. right. exact E.
    + cbn. rewrite app_nil_r. split; [|done]. unfold life. by rewrite Es.
    + cbn. rewrite app_nil_r. split; [|done]. unfold life. by rewrite Es.
  - unfold Stop. unfold life in Hl. destruct (state r) eqn:Es.
    + cbn. rewrite app_nil_r. split; [|done]. unfold life. cbn. by left.
    + pose proof (stopStarted_calls a (services r)) as Hc. destruct (stopStarted a (services r)) as [calls errs]. cbn in Hc. subst calls. split; [|done].
      unfold life. cbn. right. left. by rewrite Hl.
    + cbn. rewrite app_nil_r. split; [|done]. unfold life. by rewrite Es.
Qed.

(** The life of the services, whatever is asked of the registry and whatever
    they answer: none runs before [Start]; after it they were started once each
    in the order of registration; once the registry is stopped, what was started
    was stopped, once and in the reverse order, and nothing else was called but
    the one service whose start failed. *)
Theorem services_start_and_stop_once ops :
  let '(r, log) := run ops in life r log /\ NoDup (svc_Name <$> services r).
Proof.
  unfold run. assert (Hgen : forall rl, life rl.1 rl.2 /\ NoDup (svc_Name <$> services rl.1) /\ (forall n, is_Some (byName rl.1 !! n) <-> n ∈ svc_Name <$> services rl.1) ->
    let '(r, log) := foldl (fun rl o => apply_op o rl) rl ops in life r log /\ NoDup (svc_Name <$> services r)).
  { induction ops as [|o ops IH]; intros [r log] (Hl & Hnd & Hb); [done|]. cbn [foldl]. apply IH.
    pose proof (life_op o r log Hl (conj Hnd Hb)) as Ho. by destruct (apply_op o (r, log)). }
  apply Hgen. cbn. split_and!; [done|constructor|]. intros n. rewrite lookup_empty. split; [by intros []|by intros ?%not_elem_of_nil].
Qed.

(** A registry that has been stopped answers every further call as before and
    calls no service. *)
Theorem a_second_call_repeats_the_first a a' r :
  let '(r1, _, e) := Stop a r in Stop a' r1 = (r1, [], if state r is registryOpen then stopErr r else e)
  /\ let '(r2, _, e2) := Start a r in e2 <> None -> Start a' r2 = (r2, [], e2).
Proof.
  unfold Stop, Start. destruct (state r) eqn:Es; cbn.
  - split; [done|]. destruct (start_from a [] (services r)) as [calls [[e rb]|]]; cbn; [|done]. done.
  - destruct (stopStarted a (services r)) as [calls errs]. cbn. split; [done|]. done.
  - by rewrite Es.
Qed.

Definition sample_services : list op :=
  [ORegister (Some (mkService "acp" 0)); ORegister (Some (mkService "mobile" 1)); ORegister (Some (mkService "acp" 2)); ORegister None;
   ORegister (Some (mkService "third" 3));
   OStart (mkAnswers (fun n => if String.eqb n "third" then Some "in use" else None) (fun n => if String.eqb n "acp" then Some "busy" else None));
   OStop (mkAnswers (fun _ => None) (fun _ => None))].

Example services_sample :
  (run sample_services).2 = [CStart (mkService "acp" 0) true; CStart (mkService "mobile" 1) true; CStart (mkService "third" 3) false;
    CStop (mkService "mobile" 1); CStop (mkService "acp" 0)]
  /\ startErr (run sample_services).1 = Some (ErrStart "third" "in use" [("acp", "busy")])
  /\ stopErr (run sample_services).1 = Some (ErrStop [("acp", "busy")]).
Proof. vm_compute. by split_and!. Qed.
