(* ===== verification/DaemonConfig.v ===== *)
(** * daemon/internal/app/config: the configuration of the daemon

    The parsed configuration with its two views, the fields a user sets, what a
    file loads to with the migration of the older format, the file that is
    written, and the engine that saves. The decoding of YAML is a parameter. *)

From stdpp Require Import pretty.
From S2P Require Import Prelude GoString GoPath GoFloat GoStrconv DispatchIngress SandboxSpec SandboxPolicy RuntimeConfig Logger.
#[local] Open Scope string_scope.
#[local] Open Scope list_scope.

(** ** The data *)

Record StdinConfig := mkStdin { Theme : string }.
Record ACPFrontendConfig := mkACPFrontend { acp_Enabled : bool; Socket : string }.
Record FrontendConfig := mkFrontend { Stdin : StdinConfig; ACP : ACPFrontendConfig }.

Record RiskPatternConfig := mkRiskPattern { rp_Pattern : string; rp_Desc : string }.
Record AllowRuleConfig := mkAllowRuleC { ar_Match : string; ar_MaxRisk : string; ar_Effects : list string; ar_Desc : string }.
Record ToolAllowRuleConfig := mkToolAllowRuleC { tr_Key : string; tr_MaxRisk : string; tr_Desc : string }.

Record SandboxConfig := mkSandbox {
  sb_Mode : string;
  sb_AutoMaxRisk : string;
  sb_AllowedWorkDir : string;
  sb_DeniedPatterns : list string;
  sb_RiskyPatterns : list RiskPatternConfig;
  sb_SafeCommands : list string;
  sb_AllowRules : list AllowRuleConfig;
  sb_ToolAllowRules : list ToolAllowRuleConfig;
  sb_AuditLog : bool;
}.

Record Config := mkDaemonConfig {
  d_Frontend : FrontendConfig;
  d_LLM : LLMConfig;
  d_Memory : MemoryConfig;
  d_Sandbox : SandboxConfig;
  d_Session : SessionConfig;
  d_MCP : MCPConfig;
  d_Dispatch : DispatchConfig;
  d_Log : LogConfig;
}.

(** ** The two views *)

Definition ToSandbox (s : SandboxConfig) : SandboxPolicy.SandboxConfig :=
  mkSandboxConfig (sb_Mode s) (sb_AutoMaxRisk s) (sb_AllowedWorkDir s) (sb_DeniedPatterns s)
    ((fun r => mkRiskPatternConfig (rp_Pattern r) (rp_Desc r)) <$> sb_RiskyPatterns s) (sb_SafeCommands s)
    ((fun a => mkAllowRuleConfig (ar_Match a) (ar_MaxRisk a) (ar_Effects a) (ar_Desc a)) <$> sb_AllowRules s)
    ((fun a => mkToolAllowRuleConfig (tr_Key a) (tr_MaxRisk a) (tr_Desc a)) <$> sb_ToolAllowRules s) (sb_AuditLog s).

Definition fromSandbox (s : SandboxPolicy.SandboxConfig) : SandboxConfig :=
  mkSandbox (scMode s) (scAutoMaxRisk s) (scAllowedWorkDir s) (scDeniedPatterns s)
    ((fun r => mkRiskPattern (rpPattern r) (rpDesc r)) <$> scRiskyPatterns s) (scSafeCommands s)
    ((fun a => mkAllowRuleC (arMatch a) (arMaxRisk a) (arEffects a) (arDesc a)) <$> scAllowRules s)
    ((fun a => mkToolAllowRuleC (tarKey a) (tarMaxRisk a) (tarDesc a)) <$> scToolAllowRules s) (scAuditLog s).

Definition ToRuntime (c : Config) : RuntimeConfig.Config :=
  mkConfig (Clone (d_LLM c)) (d_Memory c) (ToSandbox (d_Sandbox c)) (d_Session c) (d_MCP c) (d_Dispatch c).

Definition ApplyRuntime (r : RuntimeConfig.Config) (c : Config) : Config :=
  mkDaemonConfig (d_Frontend c) (Clone (LLM r)) (Memory r) (fromSandbox (Sandbox r)) (Session r) (MCP r) (Dispatch r) (d_Log c).

(** ** Defaults *)

Record env := mkEnv { GOWORKER_CONFIG_DIR : string; GOWORKER_SANDBOX_MODE : string; UserHomeDir : option string; TempDir : string; Getuid : Z }.

Definition defaultLogPath (e : env) : string :=
  let base := JoinPath [TempDir e; "goworker"] in
  let base := if (0 <=? Getuid e)%Z then JoinPath [base; pretty (Getuid e)] else base in
  JoinPath [base; "goworker.log"].

Definition DefaultDir (e : env) : string :=
  if negb (String.eqb (GOWORKER_CONFIG_DIR e) "") then GOWORKER_CONFIG_DIR e
  else match UserHomeDir e with None => "." | Some home => JoinPath [home; ".config"; "goworker"] end.

Definition DefaultPath (e : env) : string := JoinPath [DefaultDir e; "config.yaml"].

Definition memory_at (dir : string) (m : MemoryConfig) : MemoryConfig :=
  mkMemory dir (m_Enabled m) (TaskKeep m) (TaskInjectN m) (LtmInjectTopK m) (m_LtmExtract m) (InjectBudgetRatio m) (m_UserMaxChars m) (m_AgentsMaxChars m).

Definition Default (e : env) : Config :=
  mkDaemonConfig (mkFrontend (mkStdin "default") (mkACPFrontend true "")) DefaultLLM (memory_at (JoinPath [DefaultDir e; "memory"]) DefaultMemory)
    (mkSandbox "normal" "" "" [] [] [] [] [] false) (mkSession (JoinPath [DefaultDir e; "sessions"]) true 0 0 0) (mkMCP [])
    (mkDispatchConfig false [] "" 0 []) (mkLogConfig (Level DefaultLog) (defaultLogPath e) (MaxSizeMB DefaultLog) (MaxAgeDays DefaultLog)).

(** ** Fields *)

Definition with_LLM (l : LLMConfig) (c : Config) : Config := mkDaemonConfig (d_Frontend c) l (d_Memory c) (d_Sandbox c) (d_Session c) (d_MCP c) (d_Dispatch c) (d_Log c).
Definition with_frontend (f : FrontendConfig) (c : Config) : Config := mkDaemonConfig f (d_LLM c) (d_Memory c) (d_Sandbox c) (d_Session c) (d_MCP c) (d_Dispatch c) (d_Log c).
Definition with_memory (m : MemoryConfig) (c : Config) : Config := mkDaemonConfig (d_Frontend c) (d_LLM c) m (d_Sandbox c) (d_Session c) (d_MCP c) (d_Dispatch c) (d_Log c).
Definition with_sandbox (s : SandboxConfig) (c : Config) : Config := mkDaemonConfig (d_Frontend c) (d_LLM c) (d_Memory c) s (d_Session c) (d_MCP c) (d_Dispatch c) (d_Log c).
Definition with_session (s : SessionConfig) (c : Config) : Config := mkDaemonConfig (d_Frontend c) (d_LLM c) (d_Memory c) (d_Sandbox c) s (d_MCP c) (d_Dispatch c) (d_Log c).
Definition with_log (l : LogConfig) (c : Config) : Config := mkDaemonConfig (d_Frontend c) (d_LLM c) (d_Memory c) (d_Sandbox c) (d_Session c) (d_MCP c) (d_Dispatch c) l.

Inductive set_error : Type :=
  | SLogLevel (value : string)
  | SNumber (key value : string)
  | SBool (key value : string)
  | SUnknown (key : string)
  | SLLM (e : llm_error)
  | SUnknownLLM (key : string)
  | SNoProvider (name : string)
  | SMaxTokens (value : string)
  | SUnknownProviderField (field : string).

(** [strconv.Atoi] with a lower bound, and [strconv.ParseBool]. *)
Definition at_least (low : Z) (key value : string) : result set_error Z :=
  match Atoi value with Some n => if (n <? low)%Z then Err (SNumber key value) else Ok n | None => Err (SNumber key value) end.
Definition a_bool (key value : string) : result set_error bool := match ParseBool value with Some b => Ok b | None => Err (SBool key value) end.
Definition lift {A} (r : result llm_error A) : result set_error A := match r with Ok a => Ok a | Err e => Err (SLLM e) end.

Section fields.
Context (ToLower : string -> string) `{Host}.

(** The fields of a provider, before the validation of the whole. *)
Definition set_provider_field (field value : string) (p : ProviderConfig) : result set_error ProviderConfig :=
  let th := p_Thinking p in
  if String.eqb field "type" then Ok (mkProvider value (Endpoint p) (Model p) (APIKey p) (ContextWindow p) th (AuthType p) (MaxTokens p))
  else if String.eqb field "endpoint" then Ok (mkProvider (p_Type p) value (Model p) (APIKey p) (ContextWindow p) th (AuthType p) (MaxTokens p))
  else if String.eqb field "model" then Ok (mkProvider (p_Type p) (Endpoint p) value (APIKey p) (ContextWindow p) th (AuthType p) (MaxTokens p))
  else if String.eqb field "api_key" then Ok (mkProvider (p_Type p) (Endpoint p) (Model p) value (ContextWindow p) th (AuthType p) (MaxTokens p))
  else if String.eqb field "context_window" then
    n ← lift (ParseContextWindow value); Ok (mkProvider (p_Type p) (Endpoint p) (Model p) (APIKey p) n th (AuthType p) (MaxTokens p))
  else if String.eqb field "auth_type" then Ok (mkProvider (p_Type p) (Endpoint p) (Model p) (APIKey p) (ContextWindow p) th value (MaxTokens p))
  else if String.eqb field "max_tokens" then
    match Atoi value with
    | Some n => if (n <=? 0)%Z then Err (SMaxTokens value) else Ok (mkProvider (p_Type p) (Endpoint p) (Model p) (APIKey p) (ContextWindow p) th (AuthType p) n)
    | None => Err (SMaxTokens value)
    end
  else if String.eqb field "thinking.request_mode" then
    m ← lift (ParseThinkingRequestMode value);
    Ok (mkProvider (p_Type p) (Endpoint p) (Model p) (APIKey p) (ContextWindow p) (mkProviderThinking m (Effort th)) (AuthType p) (MaxTokens p))
  else if String.eqb field "thinking.effort" then
    m ← lift (ParseThinkingEffort value);
    Ok (mkProvider (p_Type p) (Endpoint p) (Model p) (APIKey p) (ContextWindow p) (mkProviderThinking (RequestMode th) m) (AuthType p) (MaxTokens p))
  else Err (SUnknownProviderField field).

Definition setLLMField (key value : string) (c : Config) : result set_error Config :=
  let l := d_LLM c in
  if String.eqb key "default_provider" then
    let candidate := mkLLM value (Providers l) (CompressAt l) (CompactKeep l) (MaxIterations l) (l_Thinking l) in
    _ ← lift (ResolveDefault candidate); Ok (with_LLM candidate c)
  else if String.eqb key "compress_at" then
    x ← lift (ParseCompressAt value); Ok (with_LLM (mkLLM (DefaultProvider l) (Providers l) x (CompactKeep l) (MaxIterations l) (l_Thinking l)) c)
  else if String.eqb key "compact_keep" then
    x ← lift (ParseCompactKeep value); Ok (with_LLM (mkLLM (DefaultProvider l) (Providers l) (CompressAt l) x (MaxIterations l) (l_Thinking l)) c)
  else if String.eqb key "max_iterations" then
    x ← lift (ParseMaxIterations value); Ok (with_LLM (mkLLM (DefaultProvider l) (Providers l) (CompressAt l) (CompactKeep l) x (l_Thinking l)) c)
  else if String.eqb key "thinking.show" then
    x ← lift (ParseThinkingShow value); Ok (with_LLM (mkLLM (DefaultProvider l) (Providers l) (CompressAt l) (CompactKeep l) (MaxIterations l) (mkThinking x)) c)
  else
    match Split "." key with
    | top :: name :: f :: fs =>
        if negb (String.eqb top "providers") then Err (SUnknownLLM key)
        else
          match Providers l !! name with
          | None => Err (SNoProvider name)
          | Some p =>
              p ← set_provider_field (Join "." (f :: fs)) value p;
              let candidate := with_providers (<[name := p]> (Providers l)) l in
              match RuntimeConfig.Validate candidate with Some e => Err (SLLM e) | None => Ok (with_LLM candidate c) end
          end
    | _ => Err (SUnknownLLM key)
    end.

Definition SetField (key value : string) (c : Config) : result set_error Config :=
  let m := d_Memory c in
  let g := d_Log c in
  let s := d_Sandbox c in
  let n := d_Session c in
  if HasPrefix key "llm." then setLLMField (TrimPrefix key "llm.") value c
  else if String.eqb key "frontend.stdin.theme" then Ok (with_frontend (mkFrontend (mkStdin value) (ACP (d_Frontend c))) c)
  else if String.eqb key "sandbox.mode" then
    Ok (with_sandbox (mkSandbox value (sb_AutoMaxRisk s) (sb_AllowedWorkDir s) (sb_DeniedPatterns s) (sb_RiskyPatterns s) (sb_SafeCommands s) (sb_AllowRules s) (sb_ToolAllowRules s) (sb_AuditLog s)) c)
  else if String.eqb key "sandbox.allowed_work_dir" then
    Ok (with_sandbox (mkSandbox (sb_Mode s) (sb_AutoMaxRisk s) value (sb_DeniedPatterns s) (sb_RiskyPatterns s) (sb_SafeCommands s) (sb_AllowRules s) (sb_ToolAllowRules s) (sb_AuditLog s)) c)
  else if String.eqb key "log.level" then
    if ValidLevel ToLower value then Ok (with_log (mkLogConfig value (File g) (MaxSizeMB g) (MaxAgeDays g)) c) else Err (SLogLevel value)
  else if String.eqb key "log.file" then Ok (with_log (mkLogConfig (Level g) value (MaxSizeMB g) (MaxAgeDays g)) c)
  else if String.eqb key "log.max_size_mb" then x ← at_least 1 key value; Ok (with_log (mkLogConfig (Level g) (File g) x (MaxAgeDays g)) c)
  else if String.eqb key "log.max_age_days" then x ← at_least 1 key value; Ok (with_log (mkLogConfig (Level g) (File g) (MaxSizeMB g) x) c)
  else if String.eqb key "memory.dir" then Ok (with_memory (memory_at value m) c)
  else if String.eqb key "memory.enabled" then
    b ← a_bool key value; Ok (with_memory (mkMemory (m_Dir m) b (TaskKeep m) (TaskInjectN m) (LtmInjectTopK m) (m_LtmExtract m) (InjectBudgetRatio m) (m_UserMaxChars m) (m_AgentsMaxChars m)) c)
  else if String.eqb key "memory.task_keep" then
    x ← at_least 0 key value; Ok (with_memory (mkMemory (m_Dir m) (m_Enabled m) x (TaskInjectN m) (LtmInjectTopK m) (m_LtmExtract m) (InjectBudgetRatio m) (m_UserMaxChars m) (m_AgentsMaxChars m)) c)
  else if String.eqb key "memory.task_inject_n" then
    x ← at_least 0 key value; Ok (with_memory (mkMemory (m_Dir m) (m_Enabled m) (TaskKeep m) x (LtmInjectTopK m) (m_LtmExtract m) (InjectBudgetRatio m) (m_UserMaxChars m) (m_AgentsMaxChars m)) c)
  else if String.eqb key "memory.ltm_inject_top_k" then
    x ← at_least 0 key value; Ok (with_memory (mkMemory (m_Dir m) (m_Enabled m) (TaskKeep m) (TaskInjectN m) x (m_LtmExtract m) (InjectBudgetRatio m) (m_UserMaxChars m) (m_AgentsMaxChars m)) c)
  else if String.eqb key "memory.ltm_extract" then
    b ← a_bool key value; Ok (with_memory (mkMemory (m_Dir m) (m_Enabled m) (TaskKeep m) (TaskInjectN m) (LtmInjectTopK m) b (InjectBudgetRatio m) (m_UserMaxChars m) (m_AgentsMaxChars m)) c)
  else if String.eqb key "memory.inject_budget_ratio" then
    match ParseFloat value with
    | Some f =>
        if isNaN f || fleb f fzero || fltb f64_one f then Err (SNumber key value)
        else Ok (with_memory (mkMemory (m_Dir m) (m_Enabled m) (TaskKeep m) (TaskInjectN m) (LtmInjectTopK m) (m_LtmExtract m) f (m_UserMaxChars m) (m_AgentsMaxChars m)) c)
    | None => Err (SNumber key value)
    end
  else if String.eqb key "session.dir" then Ok (with_session (mkSession value (s_Enabled n) (MaxConcurrentRuns n) (MaxPendingRuns n) (CapabilityWaitTimeout n)) c)
  else if String.eqb key "session.enabled" then
    b ← a_bool key value; Ok (with_session (mkSession (s_Dir n) b (MaxConcurrentRuns n) (MaxPendingRuns n) (CapabilityWaitTimeout n)) c)
  else Err (SUnknown key).
End fields.

(** ** Files *)

(** A node of the tree of a YAML document. *)
Inductive yaml_node : Type := YNode (mapping : bool) (Value : string) (Content : list yaml_node).
Definition y_mapping (n : yaml_node) : bool := let '(YNode m _ _) := n in m.
Definition y_Value (n : yaml_node) : string := let '(YNode _ v _) := n in v.
Definition y_Content (n : yaml_node) : list yaml_node := let '(YNode _ _ c) := n in c.

(** The older section: [leg_Show] is a pointer. *)
Record legacy := mkLegacy {
  leg_Endpoint : string;
  leg_Model : string;
  leg_APIKey : string;
  leg_ContextWindow : Z;
  leg_Show : option bool;
  leg_RequestMode : string;
  leg_Effort : string;
}.

(** gopkg.in/yaml.v3: a document into a configuration that holds values already,
    into the older section, and as a tree ([Content] of its root). *)
Class Yaml := {
  Unmarshal : string -> Config -> option Config;
  UnmarshalLegacy : string -> option legacy;
  UnmarshalNode : string -> option (list yaml_node);
  DecodeString : yaml_node -> option string;
  DecodeRiskPattern : yaml_node -> RiskPatternConfig -> option RiskPatternConfig;
  Marshal : Config -> option string;
}.

Inductive read_result : Type := NotExist | ReadError | Data (data : string).

Section files.
Context `{Host} `{Yaml}.

Definition UnmarshalYAML (value : yaml_node) (r : RiskPatternConfig) : option RiskPatternConfig :=
  match DecodeString value with
  | Some s => Some (mkRiskPattern s (rp_Desc r))
  | None => DecodeRiskPattern value r
  end.

(** The keys of a mapping: every second node. *)
Fixpoint pairs (l : list yaml_node) : list (yaml_node * yaml_node) :=
  match l with k :: v :: l' => (k, v) :: pairs l' | _ => [] end.

Definition llm_keys_of (mapping : yaml_node) : gset string :=
  list_to_set (mbind (fun kv : yaml_node * yaml_node =>
    if String.eqb (y_Value kv.1) "llm" && y_mapping kv.2 then (fun jk => y_Value jk.1) <$> pairs (y_Content kv.2) else []) (pairs (y_Content mapping))).

Definition llmYAMLKeys (data : string) : gset string :=
  match UnmarshalNode data with Some (mapping :: _) => llm_keys_of mapping | _ => ∅ end.

Definition hasProviders (data : string) : bool := bool_decide ("providers" ∈ llmYAMLKeys data).

Definition hasMixedLLMFormats (data : string) : bool :=
  hasProviders data && existsb (fun k => bool_decide (k ∈ llmYAMLKeys data)) ["endpoint"; "model"; "api_key"; "context_window"].

Definition non_empty (s old : string) : string := if String.eqb s "" then old else s.

Definition no_provider : ProviderConfig := mkProvider "" "" "" "" 0 (mkProviderThinking "" "") "" 0.

(** The one provider of the older format. *)
Definition migrate (g : legacy) (l : LLMConfig) : LLMConfig :=
  let p := default no_provider (Providers l !! "openai") in
  let p := mkProvider (p_Type p) (non_empty (leg_Endpoint g) (Endpoint p)) (non_empty (leg_Model g) (Model p)) (non_empty (leg_APIKey g) (APIKey p))
    (if (0 <? leg_ContextWindow g)%Z then leg_ContextWindow g else ContextWindow p)
    (mkProviderThinking (non_empty (leg_RequestMode g) (RequestMode (p_Thinking p))) (non_empty (leg_Effort g) (Effort (p_Thinking p)))) (AuthType p) (MaxTokens p) in
  mkLLM "openai" {[ "openai" := p ]} (CompressAt l) (CompactKeep l) (MaxIterations l)
    (match leg_Show g with Some b => mkThinking b | None => l_Thinking l end).

Definition Load (e : env) (r : read_result) : option Config :=
  match r with
  | NotExist => Some (Default e)
  | ReadError => None
  | Data data =>
      if hasMixedLLMFormats data then None
      else
        cfg ← Unmarshal data (Default e);
        cfg ← (if hasProviders data then Some cfg else g ← UnmarshalLegacy data; Some (with_LLM (migrate g (d_LLM cfg)) cfg));
        let cfg := with_LLM (WithDefaults (d_LLM cfg)) cfg in
        if negb (String.eqb (sb_AutoMaxRisk (d_Sandbox cfg)) "") && bool_decide (ParseRiskLevel (sb_AutoMaxRisk (d_Sandbox cfg)) = None) then None
        else
          match RuntimeConfig.Validate (d_LLM cfg), DispatchIngress.Validate (d_Dispatch cfg) with
          | None, Ok _ => Some cfg
          | _, _ => None
          end
  end.

(** *** Display *)

Definition hide_key (p : ProviderConfig) : ProviderConfig :=
  if String.eqb (APIKey p) "" then p else mkProvider (p_Type p) (Endpoint p) (Model p) "***" (ContextWindow p) (p_Thinking p) (AuthType p) (MaxTokens p).

Definition hidden (c : Config) : Config := with_LLM (with_providers (hide_key <$> Providers (d_LLM c)) (Clone (d_LLM c))) c.

Definition Display (c : Config) : string := default "" (Marshal (hidden c)).

(** *** Save *)

(** The system during a save: the name of the temporary file, how much of the
    data a failing write leaves in it, and whether the last [Remove] succeeds. *)
Record save_weather := mkSave {
  v_mkdir : bool;
  v_temp : option string;
  v_chmod : bool;
  v_written : option nat;
  v_close : bool;
  v_rename : bool;
  v_remove : bool;
}.

(** The deferred [Remove]: after a rename there is nothing of that name. *)
Definition drop_temp (v : save_weather) (tmp : string) (d : gmap string string) : gmap string string := if v_remove v then delete tmp d else d.

Definition Save (v : save_weather) (cfg : Config) (path : string) (d : gmap string string) : gmap string string * bool :=
  match Marshal cfg with
  | None => (d, false)
  | Some data =>
      if negb (v_mkdir v) then (d, false)
      else
        match v_temp v with
        | None => (d, false)
        | Some tmp =>
            let d := <[tmp := ""]> d in
            if negb (v_chmod v) then (drop_temp v tmp d, false)
            else
              match v_written v with
              | Some n => (drop_temp v tmp (<[tmp := String.substring 0 n data]> d), false)
              | None =>
                  let d := <[tmp := data]> d in
                  if negb (v_close v) then (drop_temp v tmp d, false)
                  else if negb (v_rename v) then (drop_temp v tmp d, false)
                  else (<[path := data]> (delete tmp d), true)
              end
        end
  end.

(** ** core/engine: the configuration of the engine *)

(** What a caller passes as [any]. *)
Inductive any_config : Type := ADaemon (c : Config) | ARuntime (r : RuntimeConfig.Config).

Inductive save_error : Type := VType | VInvalid (e : llm_error) | VSave.

Record holder := mkHolder { h_config : Config; h_runtime : RuntimeConfig.Config; h_disk : gmap string string }.

Definition saveConfig (v : save_weather) (path : string) (cfg : any_config) (h : holder) : holder * option save_error :=
  match cfg with
  | ADaemon _ => (h, Some VType)
  | ARuntime rc =>
      match RuntimeConfig.Validate (Clone (LLM rc)) with
      | Some e => (h, Some (VInvalid e))
      | None =>
          let candidateDaemon := ApplyRuntime rc (h_config h) in
          let '(d, ok) := Save v candidateDaemon path (h_disk h) in
          if ok then (mkHolder candidateDaemon rc d, None) else (mkHolder (h_config h) (h_runtime h) d, Some VSave)
      end
  end.

(** [strings.SplitN(s, =, 2)] when there are two parts. *)
Fixpoint cut_equal (s : string) : option (string * string) :=
  match s with
  | EmptyString => None
  | String a s' => if Ascii.eqb a "=" then Some ("", s') else '(k, v) ← cut_equal s'; Some (String a k, v)
  end.

Inductive reply : Type :=
  | RDisplay (text : string)
  | RHelp
  | RUsage
  | RFormat
  | RFieldError (e : set_error)
  | RSaveFailed (e : save_error)
  | RUpdated (key : string)
  | RUnknown.

(** The command /config: [SetField] acts on the configuration of the engine. *)
Definition config_command (ToLower : string -> string) (v : save_weather) (path : string) (args : list string) (h : holder) : holder * reply :=
  match args with
  | [] => (h, RDisplay (Display (h_config h)))
  | sub :: args' =>
      if String.eqb sub "help" then (h, RHelp)
      else if String.eqb sub "set" then
        match args' with
        | [] => (h, RUsage)
        | kv :: _ =>
            match cut_equal kv with
            | None => (h, RFormat)
            | Some (key, val) =>
                match SetField ToLower key val (h_config h) with
                | Err e => (h, RFieldError e)
                | Ok cfg =>
                    let h := mkHolder cfg (h_runtime h) (h_disk h) in
                    match saveConfig v path (ADaemon cfg) h with
                    | (h, Some e) => (h, RSaveFailed e)
                    | (h, None) => (h, RUpdated key)
                    end
                end
            end
        end
      else (h, RUnknown)
  end.
End files.

(** ** app/sandbox_env.go *)

(** [None]: an error. *)
Definition applySandboxModeOverride (e : env) (cfg : RuntimeConfig.Config) : option RuntimeConfig.Config :=
  let mode := GOWORKER_SANDBOX_MODE e in
  if String.eqb mode "" then Some cfg
  else if existsb (String.eqb mode) ["normal"; "auto"; "strict"; "readonly"; "off"] then
    let s := Sandbox cfg in
    Some (mkConfig (LLM cfg) (Memory cfg)
      (mkSandboxConfig mode (scAutoMaxRisk s) (scAllowedWorkDir s) (scDeniedPatterns s) (scRiskyPatterns s) (scSafeCommands s) (scAllowRules s) (scToolAllowRules s) (scAuditLog s))
      (Session cfg) (MCP cfg) (Dispatch cfg))
  else None.

(** * What holds of the configuration of the daemon *)

(** ** The views *)

Lemma sandbox_views s : fromSandbox (ToSandbox s) = s.
Proof.
  destruct s. unfold fromSandbox, ToSandbox. cbn. rewrite <- !list_fmap_compose. f_equal; apply list_eq_Forall2, Forall2_fmap_l, Forall_Forall2_diag, Forall_forall; by intros [].
Qed.

Lemma policy_views s : ToSandbox (fromSandbox s) = s.
Proof.
  destruct s. unfold fromSandbox, ToSandbox. cbn. rewrite <- !list_fmap_compose. f_equal; apply list_eq_Forall2, Forall2_fmap_l, Forall_Forall2_diag, Forall_forall; by intros [].
Qed.

Lemma views_of_runtime r c : ToRuntime (ApplyRuntime r c) = r.
Proof. destruct r. unfold ToRuntime, ApplyRuntime. cbn. by rewrite policy_views. Qed.

(** The two views of the configuration are the same configuration. *)
Theorem the_views_agree c r :
  ApplyRuntime (ToRuntime c) c = c /\ ToRuntime (ApplyRuntime r c) = r
  /\ d_Frontend (ApplyRuntime r c) = d_Frontend c /\ d_Log (ApplyRuntime r c) = d_Log c.
Proof. split_and!; [destruct c; unfold ToRuntime, ApplyRuntime; cbn; by rewrite sandbox_views|apply views_of_runtime|done|done]. Qed.

(** ** Fields *)

Section fields.
Context (ToLower : string -> string) `{Host}.

(** The shape of a provider that is valid tells its type. *)
Lemma valid_provider_type name p : validateProvider name (provider_defaults p) = None ->
  p_Type p = ProviderTypeOpenAI /\ MaxTokens p = 0%Z \/ p_Type p = ProviderTypeAnthropic /\ (0 < MaxTokens p)%Z.
Proof.
  unfold validateProvider. destruct (negb (validProviderName name)); [done|]. destruct (String.eqb (Endpoint _) ""); [done|]. destruct (negb (valid_endpoint _)); [done|].
  destruct (String.eqb (Model _) ""); [done|]. destruct (ContextWindow _ <=? 0)%Z; [done|]. unfold provider_defaults.
  destruct (String.eqb_spec (p_Type p) ProviderTypeOpenAI) as [E|E]; cbn [p_Type AuthType MaxTokens].
  - rewrite E. change (String.eqb ProviderTypeOpenAI ProviderTypeOpenAI) with true. cbv iota. destruct (negb (String.eqb (AuthType p) "")); cbn [orb]; [done|].
    destruct (Z.eqb_spec (MaxTokens p) 0); [by left|done].
  - apply String.eqb_neq in E as ->. destruct (String.eqb_spec (p_Type p) ProviderTypeAnthropic) as [E'|]; [|done]. destruct (String.eqb (APIKey p) ""); [done|].
    destruct (Z.leb_spec (MaxTokens p) 0); [done|]. by right.
Qed.

Lemma provider_field_type field value p p' : set_provider_field field value p = Ok p' -> p_Type p' = p_Type p \/ MaxTokens p' = MaxTokens p.
Proof.
  unfold set_provider_field. repeat (destruct (String.eqb field _); [first
    [ by intros [= <-]; auto | destruct (lift _); [by intros [= <-]; left|done] | destruct (Atoi value); [|done]; destruct (_ <=? 0)%Z; [done|]; by intros [= <-]; left ]|]). done.
Qed.

(** Two configurations of the models with the same providers by name and type. *)
Definition same_providers (l l' : LLMConfig) : Prop := forall n, p_Type <$> Providers l' !! n = p_Type <$> Providers l !! n.

Lemma setLLMField_ok key value c c' : valid (d_LLM c) -> setLLMField key value c = Ok c' ->
  exists l, c' = with_LLM l c /\ valid l /\ same_providers (d_LLM c) l.
Proof.
  intros Hv. pose proof (proj1 (valid_iff _) Hv) as (Hd & Hp & (Hc1 & Hc2 & Hc3) & Hk & Hm & Hall). destruct (parsed_numbers value) as (Pc & Pk & Pm & _).
  unfold setLLMField. destruct (String.eqb key "default_provider").
  { unfold ResolveDefault, resolveDefault. cbn [WithDefaults with_providers DefaultProvider Providers]. rewrite lookup_fmap. destruct (String.eqb_spec value "") as [|Hne]; [done|].
    destruct (Providers (d_LLM c) !! value) as [p|] eqn:Ep; cbn; [|done]. destruct (validateProvider value (provider_defaults p)); [done|]. intros [= <-]. eexists. split; [done|].
    split; [|done]. apply valid_iff. cbn. by split_and!. }
  destruct (String.eqb key "compress_at").
  { destruct (ParseCompressAt value) as [x|]; cbn; [|done]. intros [= <-]. eexists. split; [done|]. split; [|done]. apply valid_iff. cbn. destruct (Pc x eq_refl) as (? & ? & ?). by split_and!. }
  destruct (String.eqb key "compact_keep").
  { destruct (ParseCompactKeep value) as [x|]; cbn; [|done]. intros [= <-]. eexists. split; [done|]. split; [|done]. apply valid_iff. cbn. specialize (Pk x eq_refl). split_and!; try done; lia. }
  destruct (String.eqb key "max_iterations").
  { destruct (ParseMaxIterations value) as [x|]; cbn; [|done]. intros [= <-]. eexists. split; [done|]. split; [|done]. apply valid_iff. cbn. specialize (Pm x eq_refl). split_and!; try done; lia. }
  destruct (String.eqb key "thinking.show").
  { destruct (ParseThinkingShow value) as [x|]; cbn; [|done]. intros [= <-]. eexists. split; [done|]. split; [|done]. apply valid_iff. cbn. by split_and!. }
  destruct (Split "." key) as [|top [|name [|f fs]]]; try done. destruct (negb (String.eqb top "providers")); [done|].
  destruct (Providers (d_LLM c) !! name) as [p|] eqn:Ep; [|done]. destruct (set_provider_field _ value p) as [p'|] eqn:Es; cbn; [|done].
  destruct (RuntimeConfig.Validate _) eqn:Ev; [done|]. intros [= <-]. eexists. split; [done|]. split; [exact Ev|]. intros n. cbn.
  destruct (decide (n = name)) as [->|Hn]; [|by rewrite lookup_insert_ne]. rewrite lookup_insert_eq, Ep. cbn. f_equal.
  apply valid_iff in Ev as (_ & _ & _ & _ & _ & Hall'). cbn in Hall'. pose proof (Hall' name p' (lookup_insert_eq _ _ _)) as H'. pose proof (Hall name p Ep) as H0. cbn in H', H0.
  apply valid_provider_type in H', H0. destruct (provider_field_type _ _ _ _ Es) as [|E]; [done|]. destruct H' as [[-> ?]|[-> ?]], H0 as [[-> ?]|[-> ?]]; done || lia.
Qed.

(** What no key reaches: all that is in no setting of the list below, and not of the models. *)
Definition out_of_reach (c : Config) :=
  (d_MCP c, d_Dispatch c, ACP (d_Frontend c),
   (sb_AutoMaxRisk (d_Sandbox c), sb_DeniedPatterns (d_Sandbox c), sb_RiskyPatterns (d_Sandbox c), sb_SafeCommands (d_Sandbox c),
    sb_AllowRules (d_Sandbox c), sb_ToolAllowRules (d_Sandbox c), sb_AuditLog (d_Sandbox c)),
   (MaxConcurrentRuns (d_Session c), MaxPendingRuns (d_Session c), CapabilityWaitTimeout (d_Session c)),
   (m_UserMaxChars (d_Memory c), m_AgentsMaxChars (d_Memory c))).

(** The settings beside those of the models: a key and where its value is. *)
Inductive setting : Type := Text (s : string) | Number (z : Z) | Flag (b : bool) | Ratio (x : float64).

Definition settings : list (string * (Config -> setting)) :=
  [("frontend.stdin.theme", fun c => Text (Theme (Stdin (d_Frontend c))));
   ("sandbox.mode", fun c => Text (sb_Mode (d_Sandbox c)));
   ("sandbox.allowed_work_dir", fun c => Text (sb_AllowedWorkDir (d_Sandbox c)));
   ("log.level", fun c => Text (Level (d_Log c)));
   ("log.file", fun c => Text (File (d_Log c)));
   ("log.max_size_mb", fun c => Number (MaxSizeMB (d_Log c)));
   ("log.max_age_days", fun c => Number (MaxAgeDays (d_Log c)));
   ("memory.dir", fun c => Text (m_Dir (d_Memory c)));
   ("memory.enabled", fun c => Flag (m_Enabled (d_Memory c)));
   ("memory.task_keep", fun c => Number (TaskKeep (d_Memory c)));
   ("memory.task_inject_n", fun c => Number (TaskInjectN (d_Memory c)));
   ("memory.ltm_inject_top_k", fun c => Number (LtmInjectTopK (d_Memory c)));
   ("memory.ltm_extract", fun c => Flag (m_LtmExtract (d_Memory c)));
   ("memory.inject_budget_ratio", fun c => Ratio (InjectBudgetRatio (d_Memory c)));
   ("session.dir", fun c => Text (s_Dir (d_Session c)));
   ("session.enabled", fun c => Flag (s_Enabled (d_Session c)))].

(** [c'] differs from [c] in the setting of [key] at most. *)
Definition others_kept (key : string) (c c' : Config) : Prop :=
  Forall (fun kf => kf.1 <> key -> kf.2 c' = kf.2 c) settings /\ (HasPrefix key "llm." = false -> d_LLM c' = d_LLM c).

Lemma SetField_others key value c c' : SetField ToLower key value c = Ok c' -> others_kept key c c'.
Proof.
  intros E. unfold SetField in E. unfold others_kept. destruct (HasPrefix key "llm.").
  { assert (Hl : exists l, c' = with_LLM l c).
    { unfold setLLMField, lift, mbind, result_bind in E. repeat case_match; simplify_eq; by eexists. }
    destruct Hl as [l ->]. split; [|done]. unfold settings. repeat (apply Forall_cons_2; [by intros _|]). apply Forall_nil_2. }
  repeat (match type of E with (if String.eqb key ?k then _ else _) = _ => destruct (String.eqb_spec key k) as [->|_] end; [first
    [ injection E as <-
    | destruct (ValidLevel ToLower value); [|done]; injection E as <-
    | destruct (at_least _ _ value) as [n|]; [|done]; injection E as <-
    | destruct (a_bool _ value) as [b|]; [|done]; injection E as <-
    | destruct (ParseFloat value) as [x|]; [|done]; destruct (isNaN x || fleb x fzero || fltb f64_one x); [done|]; injection E as <- ];
    (split; [unfold settings; repeat (apply Forall_cons_2; [first [by intros _ | by intros []]|]); apply Forall_nil_2 | done])|]).
  done.
Qed.

(** The numbers and levels that [SetField] checks. *)
Record ranges (c : Config) : Prop := {
  r_level : ValidLevel ToLower (Level (d_Log c)) = true;
  r_size : (1 <= MaxSizeMB (d_Log c))%Z;
  r_age : (1 <= MaxAgeDays (d_Log c))%Z;
  r_keep : (0 <= TaskKeep (d_Memory c))%Z;
  r_inject : (0 <= TaskInjectN (d_Memory c))%Z;
  r_top : (0 <= LtmInjectTopK (d_Memory c))%Z;
  r_ratio : isNaN (InjectBudgetRatio (d_Memory c)) = false /\ fleb (InjectBudgetRatio (d_Memory c)) fzero = false /\ fltb f64_one (InjectBudgetRatio (d_Memory c)) = false;
}.

Lemma at_least_ok low key value n : at_least low key value = Ok n -> (low <= n)%Z.
Proof. unfold at_least. destruct (Atoi value) as [m|]; [|done]. destruct (Z.ltb_spec m low); [done|]. by intros [= <-]. Qed.

Lemma SetField_ok key value c c' : SetField ToLower key value c = Ok c' -> valid (d_LLM c) -> ranges c ->
  valid (d_LLM c') /\ ranges c' /\ same_providers (d_LLM c) (d_LLM c') /\ out_of_reach c' = out_of_reach c.
Proof.
  intros E Hv Hr. unfold SetField in E. destruct (HasPrefix key "llm.").
  { destruct (setLLMField_ok _ _ _ _ Hv E) as (l & -> & Hl & Hs). destruct Hr. by split_and!. }
  repeat (destruct (String.eqb key _); [destruct Hr; first
    [ injection E as <-; split_and!; [done|by split|done|done]
    | destruct (ValidLevel ToLower value) eqn:El; [|done]; injection E as <-; split_and!; [done|by split|done|done]
    | destruct (at_least _ key value) as [n|] eqn:En; [|done]; apply at_least_ok in En; injection E as <-; split_and!; [done|by split|done|done]
    | destruct (a_bool key value) as [b|]; [|done]; injection E as <-; split_and!; [done|by split|done|done]
    | destruct (ParseFloat value) as [x|]; [|done]; destruct (isNaN x || fleb x fzero || fltb f64_one x) eqn:Ex; [done|];
      apply orb_false_iff in Ex as [[? ?]%orb_false_iff ?]; injection E as <-; split_and!; [done|by split|done|done] ]|]). done.
Qed.

(** The fields that a user sets in turn; one that is refused changes nothing. *)
Definition set_all (kvs : list (string * string)) (c : Config) : Config :=
  foldl (fun c kv => match SetField ToLower kv.1 kv.2 c with Ok c' => c' | Err _ => c end) c kvs.

(** C37: setting keys keeps what is checked, and only what is set changes. After any
    settings, by any keys with any values, a section of the models that is valid is
    still valid, and the levels, sizes, ages, counts and the ratio that [SetField]
    checks are still in their ranges (the mode of the sandbox is not checked: it
    takes any text); no provider appears, disappears or changes its type; a setting
    whose key was not named is as it was, as are the models when no key of theirs
    was; and so is all that no key reaches. *)
Theorem the_configuration_stays_valid kvs c : valid (d_LLM c) -> ranges c ->
  valid (d_LLM (set_all kvs c)) /\ ranges (set_all kvs c) /\ same_providers (d_LLM c) (d_LLM (set_all kvs c)) /\
  (forall key get, (key, get) ∈ settings -> key ∉ kvs.*1 -> get (set_all kvs c) = get c) /\
  (Forall (fun kv => HasPrefix kv.1 "llm." = false) kvs -> d_LLM (set_all kvs c) = d_LLM c) /\
  out_of_reach (set_all kvs c) = out_of_reach c.
Proof.
  unfold set_all. revert c. induction kvs as [|[k v] kvs IH]; intros c Hv Hr; [by split_and!|]. cbn [foldl fst snd fmap list_fmap].
  destruct (SetField ToLower k v c) as [c'|] eqn:E.
  - destruct (SetField_ok _ _ _ _ E Hv Hr) as (Hv' & Hr' & Hs & Ho). destruct (SetField_others _ _ _ _ E) as [Hf Hl].
    destruct (IH c' Hv' Hr') as (Hv2 & Hr2 & Hs2 & Hf2 & Hl2 & Ho2). split_and!; [done|done| | | |congruence].
    + intros n. by rewrite Hs2, Hs.
    + intros key get Hin [Hk Hks]%not_elem_of_cons. rewrite (Hf2 key get Hin Hks). rewrite Forall_forall in Hf. exact (Hf (key, get) Hin Hk).
    + intros [Hk Hks]%Forall_cons. by rewrite (Hl2 Hks), (Hl Hk).
  - destruct (IH c Hv Hr) as (? & ? & ? & Hf2 & Hl2 & ?). split_and!; [done..| | |done].
    + intros key get Hin [_ Hks]%not_elem_of_cons. exact (Hf2 key get Hin Hks).
    + intros [_ Hks]%Forall_cons. by apply Hl2.
Qed.
End fields.

(** ** Files *)

Section files.
Context `{Host} `{Yaml}.

Lemma provider_defaults_twice p : provider_defaults (provider_defaults p) = provider_defaults p.
Proof.
  unfold provider_defaults. destruct (String.eqb_spec (p_Type p) ProviderTypeOpenAI) as [E|E]; cbn [p_Type Endpoint Model APIKey ContextWindow p_Thinking AuthType MaxTokens RequestMode Effort].
  - rewrite E, String.eqb_refl. f_equal; [destruct (ContextWindow p =? 0)%Z eqn:Ew; (done || by rewrite Ew)|]. destruct (p_Thinking p) as [m ef]. cbn.
    f_equal; [destruct (String.eqb m "") eqn:Em|destruct (String.eqb ef "") eqn:Em]; (done || by rewrite Em).
  - by apply String.eqb_neq in E as ->.
Qed.

Lemma WithDefaults_twice l : WithDefaults (WithDefaults l) = WithDefaults l.
Proof.
  unfold WithDefaults, with_providers. cbn. f_equal. rewrite <- map_fmap_compose. apply map_fmap_ext. intros n p _. apply provider_defaults_twice.
Qed.

(** The name that a text from the file takes, when it has one. *)
Definition from_file (s value : string) : Prop := s <> "" -> value = s.

(** What is loaded from a file is valid. *)
Theorem what_loads_is_valid e data c : Load e (Data data) = Some c ->
  valid (d_LLM c) /\ DispatchIngress.Validate (d_Dispatch c) = Ok () /\ WithDefaults (d_LLM c) = d_LLM c
  /\ (sb_AutoMaxRisk (d_Sandbox c) = "" \/ is_Some (ParseRiskLevel (sb_AutoMaxRisk (d_Sandbox c))))
  /\ (hasProviders data = false -> exists g p, UnmarshalLegacy data = Some g /\ Providers (d_LLM c) = {[ "openai" := p ]} /\ DefaultProvider (d_LLM c) = "openai"
        /\ from_file (leg_Endpoint g) (Endpoint p) /\ from_file (leg_Model g) (Model p) /\ from_file (leg_APIKey g) (APIKey p))
  /\ (hasProviders data = true -> forall k, k ∈ ["endpoint"; "model"; "api_key"; "context_window"] -> k ∉ llmYAMLKeys data).
Proof.
  unfold Load. destruct (hasMixedLLMFormats data) eqn:Emix; [done|]. destruct (Unmarshal data (Default e)) as [cfg|]; cbn [mbind option_bind]; [|done].
  destruct (if hasProviders data then Some cfg else _) as [cfg'|] eqn:Em; cbn [mbind option_bind]; [|done]. cbv zeta. cbn [with_LLM d_Sandbox d_LLM d_Dispatch].
  destruct (negb (String.eqb (sb_AutoMaxRisk (d_Sandbox cfg')) "") && _) eqn:Er; [done|]. destruct (RuntimeConfig.Validate _) eqn:Ev; [done|].
  destruct (DispatchIngress.Validate (d_Dispatch cfg')) as [[]|] eqn:Edv; [|done]. intros [= <-]. cbn [with_LLM d_Sandbox d_LLM d_Dispatch].
  split_and!; [exact Ev|done|apply WithDefaults_twice| | |].
  - destruct (String.eqb_spec (sb_AutoMaxRisk (d_Sandbox cfg')) "") as [|Hne]; [by left|right]. cbn in Er. apply bool_decide_eq_false in Er. by apply not_eq_None_Some.
  - intros Eh. rewrite Eh in Em. destruct (UnmarshalLegacy data) as [g|]; cbn in Em; [|done]. injection Em as <-. exists g.
    cbn [with_LLM d_LLM migrate WithDefaults with_providers Providers DefaultProvider]. rewrite map_fmap_singleton. eexists. split_and!; [done|done|done|..];
      intros Hne; unfold provider_defaults, non_empty; cbn; apply String.eqb_neq in Hne as ->; by destruct (String.eqb (p_Type _) ProviderTypeOpenAI).
  - intros Eh k Hk Hin. unfold hasMixedLLMFormats in Emix. rewrite Eh in Emix. cbn [andb] in Emix.
    assert (existsb (fun k => bool_decide (k ∈ llmYAMLKeys data)) ["endpoint"; "model"; "api_key"; "context_window"] = true); [|congruence].
    apply existsb_exists. exists k. split; [by apply list_elem_of_In|by apply bool_decide_true].
Qed.

(** Two configurations that differ in their keys only. *)
Definition same_but_keys (c c' : Config) : Prop :=
  exists m, c' = with_LLM (with_providers m (d_LLM c)) c
    /\ forall n, match Providers (d_LLM c) !! n, m !! n with
       | Some p, Some q => (APIKey p = "" <-> APIKey q = "")
           /\ q = mkProvider (p_Type p) (Endpoint p) (Model p) (APIKey q) (ContextWindow p) (p_Thinking p) (AuthType p) (MaxTokens p)
       | None, None => True
       | _, _ => False
       end.

(** Nothing of a key is displayed but that there is one. *)
Theorem keys_are_not_displayed c c' : same_but_keys c c' -> Display c = Display c'.
Proof.
  intros (m & -> & Hm). unfold Display. do 2 f_equal. unfold hidden. cbn. unfold with_LLM, with_providers. cbn. do 2 f_equal. apply map_eq. intros n. rewrite !lookup_fmap. specialize (Hm n).
  destruct (Providers (d_LLM c) !! n) as [p|], (m !! n) as [q|]; try done. destruct Hm as [Hk ->]. cbn. f_equal. unfold hide_key. cbn.
  destruct (String.eqb_spec (APIKey p) "") as [E|E], (String.eqb_spec (APIKey q) "") as [E'|E']; try done; [|tauto|tauto]. destruct p. cbn in *. congruence.
Qed.

(** *** Save *)

Lemma Save_spec v cfg path d : (forall tmp, v_temp v = Some tmp -> tmp <> path) ->
  let '(d', ok) := Save v cfg path d in
  (if ok then is_Some (Marshal cfg) /\ d' !! path = Marshal cfg else d' !! path = d !! path)
  /\ (forall p, p <> path -> Some p <> v_temp v -> d' !! p = d !! p)
  /\ (forall tmp, v_temp v = Some tmp -> v_remove v = true -> d !! tmp = None -> d' !! tmp = None).
Proof.
  intros Ht. unfold Save. destruct (Marshal cfg) as [data|]; [|by split_and!]. destruct (v_mkdir v); cbn [negb]; [|by split_and!].
  destruct (v_temp v) as [tmp|] eqn:Et; [|by split_and!]. specialize (Ht tmp eq_refl).
  assert (Hdrop : forall x : gmap string string, (forall p, p <> tmp -> x !! p = d !! p) ->
    drop_temp v tmp x !! path = d !! path /\ (forall p, p <> path -> Some p <> Some tmp -> drop_temp v tmp x !! p = d !! p)
    /\ forall t, Some tmp = Some t -> v_remove v = true -> d !! t = None -> drop_temp v tmp x !! t = None).
  { intros x Hx. unfold drop_temp. destruct (v_remove v).
    - split_and!; [rewrite lookup_delete_ne by done; by apply Hx| |intros t [= <-] _ _; by rewrite lookup_delete_eq].
      intros p _ Hp. rewrite lookup_delete_ne by congruence. apply Hx. congruence.
    - split_and!; [by apply Hx| |done]. intros p _ Hp. apply Hx. congruence. }
  destruct (v_chmod v); cbn [negb]; [|refine (Hdrop _ _); intros p Hp; by rewrite lookup_insert_ne].
  destruct (v_written v); [refine (Hdrop _ _); intros p Hp; by rewrite !lookup_insert_ne|].
  destruct (v_close v); cbn [negb]; [|refine (Hdrop _ _); intros p Hp; by rewrite !lookup_insert_ne].
  destruct (v_rename v); cbn [negb]; [|refine (Hdrop _ _); intros p Hp; by rewrite !lookup_insert_ne].
  split_and!; [by eexists|by rewrite lookup_insert_eq| |].
  - intros p Hp Hpt. rewrite lookup_insert_ne by done. rewrite lookup_delete_ne by congruence. by rewrite !lookup_insert_ne by congruence.
  - intros t [= <-] _ _. rewrite lookup_insert_ne by done. by rewrite lookup_delete_eq.
Qed.

(** C38: a save is all or nothing. Whatever call of the system fails, after a save
    the configuration in memory, the view of the runtime and the file on disk are
    the new ones and agree, or each is as it was; other files are not touched, and
    the temporary one is gone if it can be removed. *)
Theorem a_save_is_all_or_nothing v path rc h : (forall tmp, v_temp v = Some tmp -> tmp <> path) ->
  let '(h', err) := saveConfig v path (ARuntime rc) h in
  match err with
  | None => valid (LLM rc) /\ h_runtime h' = rc /\ ToRuntime (h_config h') = rc /\ d_Frontend (h_config h') = d_Frontend (h_config h) /\ d_Log (h_config h') = d_Log (h_config h)
      /\ is_Some (h_disk h' !! path) /\ h_disk h' !! path = Marshal (h_config h')
  | Some _ => h_config h' = h_config h /\ h_runtime h' = h_runtime h /\ h_disk h' !! path = h_disk h !! path
  end
  /\ (forall p, p <> path -> Some p <> v_temp v -> h_disk h' !! p = h_disk h !! p)
  /\ (forall tmp, v_temp v = Some tmp -> v_remove v = true -> h_disk h !! tmp = None -> h_disk h' !! tmp = None).
Proof.
  intros Ht. unfold saveConfig, Clone. destruct (RuntimeConfig.Validate (LLM rc)) eqn:Ev; [by split_and!|].
  pose proof (Save_spec v (ApplyRuntime rc (h_config h)) path (h_disk h) Ht) as Hs. destruct (Save v _ path (h_disk h)) as [d [|]]; cbn [h_config h_runtime h_disk].
  - destruct Hs as ([Hm Hd] & Ho & Htmp). rewrite views_of_runtime. split_and!; try done. by rewrite Hd.
  - destruct Hs as (Hd & Ho & Htmp). by split_and!.
Qed.

(** The command that sets a field: memory changes, nothing else does, and no answer
    says that it was done. *)
Theorem the_set_command_never_saves ToLower v path args h :
  let '(h', r) := config_command ToLower v path args h in
  h_runtime h' = h_runtime h /\ h_disk h' = h_disk h /\ (forall key, r <> RUpdated key)
  /\ match r with RSaveFailed _ => exists kv k x, args = "set" :: kv /\ SetField ToLower k x (h_config h) = Ok (h_config h') | _ => h' = h end.
Proof.
  unfold config_command. destruct args as [|sub args]; [by split_and!|]. destruct (String.eqb sub "help"); [by split_and!|].
  destruct (String.eqb_spec sub "set") as [->|]; [|by split_and!]. destruct args as [|kv args]; [by split_and!|]. destruct (cut_equal kv) as [[key x]|]; [|by split_and!].
  destruct (SetField ToLower key x (h_config h)) as [cfg|] eqn:E; [|by split_and!]. cbn. split_and!; try done. by exists (kv :: args), key, x.
Qed.
End files.

(** ** Samples *)

Definition sample_env : env := mkEnv "/cfg" "" (Some "/home/u") "/tmp" 501.

(** A document is the name of a model in the older format; what is written is the
    keys of the providers. *)
Definition sample_yaml : Yaml := {|
  Unmarshal _ c := Some c;
  UnmarshalLegacy data := Some (mkLegacy "" data "" 0 None "" "");
  UnmarshalNode _ := Some [YNode true "" []];
  DecodeString n := if y_mapping n then None else Some (y_Value n);
  DecodeRiskPattern _ r := Some r;
  Marshal c := Some (Join "," ((fun kv => kv.1 +:+ "=" +:+ APIKey kv.2) <$> map_to_list (Providers (d_LLM c))));
|}.

#[local] Existing Instance sample_host.
#[local] Existing Instance sample_yaml.

Lemma sample_ranges : ranges (fun s => s) (Default sample_env).
Proof. by split; vm_compute. Qed.

Definition sample_fields : list (string * string) := [("llm.providers.openai.model", "m"); ("log.level", "loud"); ("llm.providers.openai.type", "anthropic"); ("log.max_size_mb", "3")].

Lemma Text_inj a b : Text a = Text b -> a = b.
Proof. by intros [=]. Qed.

Lemma the_configuration_stays_valid_witness :
  valid (d_LLM (Default sample_env)) /\ valid (d_LLM (set_all (fun s => s) sample_fields (Default sample_env)))
  /\ sb_Mode (d_Sandbox (set_all (fun s => s) sample_fields (Default sample_env))) = "normal"
  /\ out_of_reach (set_all (fun s => s) sample_fields (Default sample_env)) = out_of_reach (Default sample_env)
  /\ (fun p => (p_Type p, Model p)) <$> Providers (d_LLM (set_all (fun s => s) sample_fields (Default sample_env))) !! "openai" = Some ("openai", "m")
  /\ d_Log (set_all (fun s => s) sample_fields (Default sample_env)) = mkLogConfig "info" "/tmp/goworker/501/goworker.log" 3 7.
Proof.
  assert (Hv : valid (d_LLM (Default sample_env))) by (vm_compute; done). split; [exact Hv|].
  destruct (the_configuration_stays_valid (fun s => s) sample_fields (Default sample_env) Hv sample_ranges) as (H1 & _ & _ & H2 & _ & H3).
  split; [exact H1|]. split; [|split; [exact H3|]].
  - assert (Hk : "sandbox.mode" ∉ sample_fields.*1) by (apply (bool_decide_eq_true_1 _); vm_compute; reflexivity).
    assert (Hs : ("sandbox.mode", fun c => Text (sb_Mode (d_Sandbox c))) ∈ settings) by (right; left).
    specialize (H2 _ _ Hs Hk). cbn beta in H2. rewrite (Text_inj _ _ H2). vm_compute. reflexivity.
  - split; vm_compute; reflexivity.
Defined.

Lemma what_loads_is_valid_witness : exists c, Load sample_env (Data "gpt-5") = Some c /\ valid (d_LLM c) /\ exists p, Providers (d_LLM c) = {[ "openai" := p ]} /\ Model p = "gpt-5".
Proof.
  destruct (Load sample_env (Data "gpt-5")) as [c|] eqn:E; [|by vm_compute in E]. exists c. split; [done|].
  destruct (what_loads_is_valid sample_env "gpt-5" c E) as (Hv & _ & _ & _ & Hl & _). split; [done|].
  destruct (Hl eq_refl) as (g & p & [= <-] & Hp & _ & _ & Hm & _). exists p. split; [done|]. by apply Hm.
Defined.

Definition keyed (k : string) : Config :=
  with_LLM (with_providers {[ "openai" := mkProvider "openai" "http://h" "m" k 9 (mkProviderThinking "auto" "low") "" 0 ]} DefaultLLM) (Default sample_env).

Lemma keys_are_not_displayed_witness : Display (keyed "one") = "openai=***" /\ Display (keyed "one") = Display (keyed "another").
Proof.
  split; [by vm_compute|]. apply keys_are_not_displayed. exists {[ "openai" := mkProvider "openai" "http://h" "m" "another" 9 (mkProviderThinking "auto" "low") "" 0 ]}.
  split; [done|]. intros n. unfold keyed. cbn. destruct (decide (n = "openai")) as [->|Hn]; [by rewrite !lookup_singleton_eq|by rewrite !lookup_singleton_ne].
Defined.

Definition clear : save_weather := mkSave true (Some "/cfg/.config-1.tmp") true None true true true.

Lemma a_save_is_all_or_nothing_witness :
  let h := mkHolder (Default sample_env) (ToRuntime (Default sample_env)) {[ "/cfg/config.yaml" := "old" ]} in
  let rc := ToRuntime (keyed "secret") in
  (saveConfig clear "/cfg/config.yaml" (ARuntime rc) h).2 = None /\ h_disk (saveConfig clear "/cfg/config.yaml" (ARuntime rc) h).1 = {[ "/cfg/config.yaml" := "openai=secret" ]}
  /\ ToRuntime (h_config (saveConfig clear "/cfg/config.yaml" (ARuntime rc) h).1) = rc.
Proof.
  intros h rc. assert (Ht : forall tmp, v_temp clear = Some tmp -> tmp <> "/cfg/config.yaml") by (by intros tmp [= <-]).
  pose proof (a_save_is_all_or_nothing clear "/cfg/config.yaml" rc h Ht) as Hs.
  assert (E : (saveConfig clear "/cfg/config.yaml" (ARuntime rc) h).2 = None) by (vm_compute; reflexivity).
  assert (Ed : h_disk (saveConfig clear "/cfg/config.yaml" (ARuntime rc) h).1 = {[ "/cfg/config.yaml" := "openai=secret" ]}) by (vm_compute; reflexivity).
  split; [exact E|]. split; [exact Ed|]. clear Ed Ht. clearbody rc h. destruct (saveConfig clear "/cfg/config.yaml" (ARuntime rc) h) as [h' err]. cbn [fst snd] in E |- *. subst err.
  destruct Hs as [(_ & _ & Hr & _) _]. exact Hr.
Defined.

(** A mode that no other part of the program knows is taken; the type of a provider
    that is listed among the fields cannot be changed. *)
Example config_samples :
  (c ← SetField (fun s => s) "sandbox.mode" "yolo" (Default sample_env); Ok (sb_Mode (d_Sandbox c))) = Ok "yolo"
  /\ SetField (fun s => s) "llm.providers.openai.type" "anthropic" (Default sample_env) = Err (SLLM (ErrAPIKeyRequired "openai"))
  /\ SetField (fun s => s) "llm.endpoint" "http://h" (Default sample_env) = Err (SUnknownLLM "endpoint")
  /\ applySandboxModeOverride (mkEnv "" "yolo" None "" 0) (ToRuntime (Default sample_env)) = None
  /\ DefaultPath (mkEnv "" "" (Some "/home/u") "/tmp" 0) = "/home/u/.config/goworker/config.yaml".
Proof. vm_compute. by split_and!. Qed.
