(* ===== verification/SessionRepository.v ===== *)
(** * ai-runtime/session/repository.go: the directory of the sessions

    The directories of the sessions with their data files, and the cache that
    keeps one store instance for each. A store is that of [SessionStore]; what
    it writes is in its data file. The directory of a store is locked while the
    store is open, against other processes and against a second instance. *)

From stdpp Require Import sorting.
From S2P Require Import Prelude GoString JsonLines PluginRegistry RunJournal SessionRecord SessionStore.
#[local] Open Scope string_scope.
#[local] Open Scope list_scope.

(** The data file of a directory: its base name and its files. *)
Definition data_file (base : string) (files : gmap string bytes) : string := resolveDataFilePath (fun f => bool_decide (is_Some (files !! f))) base.

(** ** The state *)

(** An instance: its directory, the name of its data file, the store. *)
Record instance := mkInstance { i_dir : string; i_file : string; i_store : Store }.

(** [dirs]: the directories below the root by their names, and the root itself
    under the empty name; [opened] is the cache. *)
Record Repository := mkRepo {
  root_base : string;
  dirs : gmap string (gmap string bytes);
  instances : gmap nat instance;
  opened : gmap string nat;
  next_instance : nat;
}.

Inductive repo_error : Type :=
  | RErrCtx
  | RErrDirExists
  | RErrStat
  | RErrSeed
  | RErrStore (e : store_error)
  | RErrNotFound
  | RErrInUse
  | RErrLegacyImmutable
  | RErrRemove
  | RErrReadDir.

Definition base_of (r : Repository) (d : string) : string := if String.eqb d "" then root_base r else d.

Definition OpenRepository (base : string) (on_disk : gmap string (gmap string bytes)) : Repository := mkRepo base on_disk ∅ ∅ 0.

Definition with_dirs (ds : gmap string (gmap string bytes)) (r : Repository) : Repository :=
  mkRepo (root_base r) ds (instances r) (opened r) (next_instance r).
Definition with_opened (o : gmap string nat) (r : Repository) : Repository :=
  mkRepo (root_base r) (dirs r) (instances r) o (next_instance r).

(** The data file of an instance as its store has it. *)
Definition put_file (d f : string) (c : bytes) (r : Repository) : Repository :=
  with_dirs (alter (fun files => <[f := c]> files) d (dirs r)) r.

Definition set_store (p : nat) (s : Store) (r : Repository) : Repository :=
  match instances r !! p with
  | Some i =>
      put_file (i_dir i) (i_file i) (content s)
        (mkRepo (root_base r) (dirs r) (<[p := mkInstance (i_dir i) (i_file i) s]> (instances r)) (opened r) (next_instance r))
  | None => r
  end.

Definition live (i : instance) : bool := lock (i_store i).

(** Is the directory locked by an instance of this process? *)
Definition held (d : string) (r : Repository) : bool :=
  existsb (fun pi => String.eqb (i_dir pi.2) d && live pi.2) (map_to_list (instances r)).

(** ** Operations *)

Section repository.
Context `{RecordCodec} (sha256 : bytes -> string).

(** [session.Open] on a directory: the instance. *)
Definition open_dir (io : open_io) (now : Time) (fresh_id d : string) (r : Repository) : Repository * result store_error nat :=
  match dirs r !! d with
  | None => (r, Err ErrDir)
  | Some files =>
      let f := data_file (base_of r d) files in
      let io := mkOpenIO (o_dir io) (o_lock io && negb (held d r)) (o_file io) (o_trunc io) (o_sync io) (o_read io) (o_append io) in
      match SessionStore.Open sha256 io now fresh_id (default [] (files !! f)) with
      | (c, Err e) => (match files !! f with Some _ => put_file d f c r | None => r end, Err e)
      | (c, Ok s) =>
          let p := next_instance r in
          (put_file d f c (mkRepo (root_base r) (dirs r) (<[p := mkInstance d f s]> (instances r)) (opened r) (S p)), Ok p)
      end
  end.

(** Metadata of a data file that is not opened. *)
Definition resolveSlotMetadata (c : option bytes) : option Metadata :=
  match loadRecords (default [] c) with
  | None => None
  | Some (rs, _) =>
      match metadataFromRecords rs with
      | Some m => Some m
      | None =>
          content ← c;
          let firstID := firstNodeID rs in
          if String.eqb firstID "" && (blen content =? 0)%Z then None
          else Some (mkMetadata (legacySessionID sha256 firstID content) (timeFromRecords rs))
      end
  end.

Definition legacy_slot (r : Repository) : option Metadata := files ← dirs r !! ""; c ← files !! legacyDataFileName; resolveSlotMetadata (Some c).
Definition legacy_is (id : string) (r : Repository) : bool :=
  match legacy_slot r with Some m => String.eqb (SessionID m) id | None => false end.

(** The outcomes of the calls of [Create]: the check of the directory, making it,
    writing the first line ([Some n]: it failed after n bytes), then opening it,
    declaring its workspace, and closing it again when that failed. *)
Record create_io := mkCreateIO {
  c_ctx : bool;
  c_id : string;
  c_stat : bool;
  c_mkdir : bool;
  c_seed : option nat;
  c_open : open_io;
  c_env : env;
  c_close : bool * bool;
  c_now : Time;
}.

Definition close_instance (cl : bool * bool) (p : nat) (r : Repository) : Repository * option store_error :=
  match instances r !! p with
  | Some i => let '(s, err) := SessionStore.Close cl.1 cl.2 (i_store i) in (set_store p s r, err)
  | None => (r, None)
  end.

Definition seedSessionMetadata (io : create_io) (r : Repository) : Repository * bool :=
  let id := c_id io in
  if negb (c_mkdir io) then (r, false)
  else
    let put c r := with_dirs (<[id := <[newDataFileName id := c]> (default ∅ (dirs r !! id))]> (dirs r)) r in
    match MarshalJSON (newMetadataRecord id (c_now io)) with
    | None => (with_dirs (<[id := default ∅ (dirs r !! id)]> (dirs r)) r, false)
    | Some data =>
        match c_seed io with
        | Some n => (put (take n (data ++ [NL])) r, false)
        | None => (put (data ++ [NL]) r, true)
        end
    end.

Definition Create (io : create_io) (cwd : string) (r : Repository) : Repository * result repo_error nat :=
  let id := c_id io in
  if negb (c_ctx io) then (r, Err RErrCtx)
  else if negb (c_stat io) then (r, Err RErrStat)
  else if bool_decide (is_Some (dirs r !! id)) then (r, Err RErrDirExists)
  else
    match seedSessionMetadata io r with
    | (r, false) => (r, Err RErrSeed)
    | (r, true) =>
        match open_dir (c_open io) (c_now io) "" id r with
        | (r, Err e) => (r, Err (RErrStore e))
        | (r, Ok p) =>
            let declared :=
              if String.eqb cwd "" then (r, None)
              else
                match instances r !! p with
                | Some i => let '(s, err) := DeclareWorkspace (c_env io) cwd (i_store i) in (set_store p s r, err)
                | None => (r, None)
                end in
            match declared with
            | (r, Some e) => ((close_instance (c_close io) p r).1, Err (RErrStore e))
            | (r, None) =>
                match opened r !! id with
                | Some existing => ((close_instance (c_close io) p r).1, Ok existing)
                | None => (with_opened (<[id := p]> (opened r)) r, Ok p)
                end
            end
        end
    end.

(** Where the session [id] is. *)
Definition resolve (id : string) (r : Repository) : option string :=
  match dirs r !! id with
  | Some files =>
      if bool_decide (is_Some (files !! data_file id files)) then Some id
      else if legacy_is id r then Some "" else None
  | None => if legacy_is id r then Some "" else None
  end.

(** The instance that is cached for a directory. *)
Definition mounted (d : string) (r : Repository) : option nat :=
  snd <$> find_first (fun kp => match instances r !! kp.2 with Some i => String.eqb (i_dir i) d | None => false end) (map_to_list (opened r)).

Definition Open (io : open_io) (now : Time) (fresh_id id : string) (r : Repository) : Repository * result repo_error nat :=
  if negb (validSessionID id) then (r, Err RErrNotFound)
  else
    match opened r !! id with
    | Some p => (r, Ok p)
    | None =>
        match resolve id r with
        | None => (r, Err RErrNotFound)
        | Some d =>
            match mounted d r with
            | Some p => (with_opened (<[id := p]> (opened r)) r, Ok p)
            | None =>
                match open_dir io now fresh_id d r with
                | (r, Err e) => (r, Err (RErrStore e))
                | (r, Ok p) => (with_opened (<[id := p]> (opened r)) r, Ok p)
                end
            end
        end
    end.

Definition Peek (id : string) (r : Repository) : option nat := opened r !! id.

(** The directories in the order of their names. *)
Definition List_ (ctx reads : bool) (r : Repository) : result repo_error (list Metadata) :=
  if negb ctx then Err RErrCtx
  else if negb reads then Err RErrReadDir
  else
    let names := sort_strings (List.filter (fun d => negb (String.eqb d "")) (fst <$> map_to_list (dirs r))) in
    Ok (omap (fun d => files ← dirs r !! d; resolveSlotMetadata (files !! data_file d files)) names
        ++ match legacy_slot r with Some m => [m] | None => [] end).

(** [remains]: what [RemoveAll] leaves of the directory when it fails. *)
Definition Delete (ctx : bool) (remains : option (gmap string bytes)) (id : string) (r : Repository) : Repository * option repo_error :=
  if negb ctx then (r, Some RErrCtx)
  else if negb (validSessionID id) then (r, Some RErrNotFound)
  else if bool_decide (is_Some (opened r !! id)) then (r, Some RErrInUse)
  else if bool_decide (is_Some (dirs r !! id)) then
    match remains with
    | None => (with_dirs (delete id (dirs r)) r, None)
    | Some files => (with_dirs (<[id := files]> (dirs r)) r, Some RErrRemove)
    end
  else if legacy_is id r then (r, Some RErrLegacyImmutable)
  else (r, Some RErrNotFound).

(** The entries of the instance leave the cache before it is closed. *)
Definition CloseSession (cl : bool * bool) (id : string) (r : Repository) : Repository * option store_error :=
  match opened r !! id with
  | None => (r, None)
  | Some p => close_instance cl p (with_opened (filter (fun kp => kp.2 <> p) (opened r)) r)
  end.

(** [ps]: the values of the cache, in the order of the iteration. *)
Fixpoint close_all (cl : nat -> bool * bool) (ps : list nat) (r : Repository) : Repository * list store_error :=
  match ps with
  | [] => (r, [])
  | p :: ps' =>
      let '(r, err) := close_instance (cl p) p r in
      let '(r, errs) := close_all cl ps' r in
      (r, match err with Some e => e :: errs | None => errs end)
  end.

Definition Close (cl : nat -> bool * bool) (r : Repository) : Repository * list store_error :=
  close_all cl (snd <$> map_to_list (opened r)) (with_opened ∅ r).
End repository.

(** * One live store for a directory *)

Section props.
Context `{RecordCodec} (sha256 : bytes -> string).

(** A store that opens has the lock, which was free; a store that closes has none. *)
Lemma Open_locks io now sid c c' s : SessionStore.Open sha256 io now sid c = (c', Ok s) -> lock s = true /\ file s = true /\ o_lock io = true.
Proof.
  unfold SessionStore.Open. destruct (o_dir io); cbn [negb]; [|done]. destruct (o_lock io); cbn [negb]; [|done].
  destruct (loadRecords c) as [[rs good]|]; [|done]. repeat (case_match; [done|]). destruct (metadataFromRecords rs); [by intros [= <- <-]|].
  cbv zeta. destruct (appendRecord _ _ _) as [s1 [e|]]; [done|]. by intros [= <- <-].
Qed.

Lemma Close_unlocks a b s : lock (SessionStore.Close a b s).1 = false.
Proof. unfold SessionStore.Close. by destruct (file s && negb a). Qed.

(** ** The cache *)

Record exact (inst : gmap nat instance) (op : gmap string nat) (nx : nat) : Prop := {
  x_live : forall id p, op !! id = Some p -> exists i, inst !! p = Some i /\ live i = true /\ (i_dir i = id \/ i_dir i = "");
  x_one : forall p q i j, inst !! p = Some i -> inst !! q = Some j -> live i = true -> live j = true -> i_dir i = i_dir j -> p = q;
  x_cached : forall p i, inst !! p = Some i -> live i = true -> exists id, op !! id = Some p;
  x_fresh : forall p, is_Some (inst !! p) -> (p < nx)%nat;
}.

Definition cache_exact (r : Repository) : Prop := exact (instances r) (opened r) (next_instance r).

(** All but [p], an instance that is on its way into the cache. *)
Definition exact_but (p : nat) (r : Repository) : Prop :=
  exists i, instances r !! p = Some i /\ live i = true /\ (forall id, opened r !! id <> Some p) /\
  exact (delete p (instances r)) (opened r) (next_instance r) /\ (p < next_instance r)%nat
  /\ (forall q j, instances r !! q = Some j -> live j = true -> i_dir j = i_dir i -> q = p).

Lemma held_false d r : held d r = false -> forall p i, instances r !! p = Some i -> live i = true -> i_dir i <> d.
Proof.
  unfold held. intros Hh p i Hp Hl <-. assert (E : existsb (fun pi : nat * instance => String.eqb (i_dir pi.2) (i_dir i) && live pi.2) (map_to_list (instances r)) = true); [|congruence].
  apply existsb_exists. exists (p, i). split; [by apply list_elem_of_In, elem_of_map_to_list|]. cbn. by rewrite String.eqb_refl, Hl.
Qed.

Lemma put_file_fields d f c r : instances (put_file d f c r) = instances r /\ opened (put_file d f c r) = opened r /\ next_instance (put_file d f c r) = next_instance r.
Proof. done. Qed.

(** Opening a directory: nothing, or a live instance that was not there. *)
Lemma open_dir_spec io now fid d r r' res : open_dir sha256 io now fid d r = (r', res) ->
  opened r' = opened r /\
  match res with
  | Err _ => instances r' = instances r /\ next_instance r' = next_instance r
  | Ok p => p = next_instance r /\ next_instance r' = S p /\ held d r = false
      /\ exists f s, lock s = true /\ instances r' = <[p := mkInstance d f s]> (instances r)
  end.
Proof.
  unfold open_dir. destruct (dirs r !! d) as [files|]; [|by intros [= <- <-]]. cbv zeta.
  destruct (SessionStore.Open _ _ _ _ _) as [c [s|e]] eqn:E.
  - apply Open_locks in E as (Hl & _ & Ho). cbn in Ho. apply andb_true_iff in Ho as [_ Ho%negb_true_iff]. intros [= <- <-]. cbn. split_and!; try done. by eexists _, s.
  - intros [= <- <-]. by destruct (files !! _).
Qed.

(** An instance that is closed is out of the way. *)
Lemma close_instance_spec cl p r i : instances r !! p = Some i ->
  opened (close_instance cl p r).1 = opened r /\ next_instance (close_instance cl p r).1 = next_instance r
  /\ exists j, live j = false /\ i_dir j = i_dir i /\ instances (close_instance cl p r).1 = <[p := j]> (instances r).
Proof.
  intros Hp. unfold close_instance. rewrite Hp. pose proof (Close_unlocks cl.1 cl.2 (i_store i)) as Hc. destruct (SessionStore.Close cl.1 cl.2 (i_store i)) as [s err].
  cbn [fst] in *. unfold set_store. rewrite Hp. cbn. split_and!; [done|done|]. exists (mkInstance (i_dir i) (i_file i) s). by split_and!.
Qed.

Lemma exact_insert_dead inst op nx p j : exact (delete p inst) op nx -> live j = false -> (p < nx)%nat -> exact (<[p := j]> inst) op nx.
Proof.
  intros [L O C F] Hj Hp. rewrite <- insert_delete_eq. split.
  - intros id q Hq. destruct (L id q Hq) as (i & Hi & Hr). exists i. split; [|done]. rewrite lookup_insert_ne; [done|]. intros ->. by rewrite lookup_delete_eq in Hi.
  - intros q q' i i' Hq Hq' Hl Hl' Hd. apply lookup_insert_Some in Hq as [[_ <-]|[_ Hq]], Hq' as [[_ <-]|[_ Hq']]; try congruence. by apply (O q q' i i').
  - intros q i Hq Hl. apply lookup_insert_Some in Hq as [[_ <-]|[_ Hq]]; [congruence|]. by apply (C q i).
  - intros q [i Hq]. apply lookup_insert_Some in Hq as [[<- _]|[_ Hq]]; [done|]. apply F. by eexists.
Qed.

(** An instance that goes into the cache. *)
Lemma exact_enter p id r : exact_but p r -> (exists i, instances r !! p = Some i /\ (i_dir i = id \/ i_dir i = "")) -> opened r !! id = None ->
  cache_exact (with_opened (<[id := p]> (opened r)) r).
Proof.
  intros (i & Hi & Hl & Hn & [L O C F] & Hp & Hu) (i' & Hi' & Hdir) Hid. assert (i' = i) as -> by congruence. unfold cache_exact. cbn. split.
  - intros k q [[<- <-]|[Hk Hq]]%lookup_insert_Some; [by exists i|]. destruct (L k q Hq) as (j & Hj & Hr). exists j. split; [|done]. by apply lookup_delete_Some in Hj as [_ ?].
  - intros q q' j j' Hq Hq' Hlj Hlj' Hdj. destruct (decide (q = p)) as [->|Hqp].
    + assert (j = i) as -> by congruence. symmetry. by apply (Hu q' j').
    + destruct (decide (q' = p)) as [->|Hqp']; [assert (j' = i) as -> by congruence; by apply (Hu q j)|]. apply (O q q' j j'); try done; by rewrite lookup_delete_ne.
  - intros q j Hq Hlj. destruct (decide (q = p)) as [->|Hqp]; [exists id; by rewrite lookup_insert_eq|].
    destruct (C q j) as [k Hk]; [by rewrite lookup_delete_ne|done|]. exists k. rewrite lookup_insert_ne; [done|]. intros <-. by rewrite Hid in Hk.
  - intros q [j Hq]. destruct (decide (q = p)) as [->|Hqp]; [done|]. apply F. exists j. by rewrite lookup_delete_ne.
Qed.

Lemma cache_exact_close p cl r : exact_but p r -> cache_exact (close_instance cl p r).1.
Proof.
  intros (i & Hi & Hl & Hn & He & Hp & Hu). destruct (close_instance_spec cl p r i Hi) as (Ho & Hx & j & Hj & _ & Hin). unfold cache_exact. rewrite Ho, Hx, Hin.
  by apply exact_insert_dead.
Qed.

(** The stores of the owners change, their locks do not. *)
Lemma set_store_spec p s r i : instances r !! p = Some i -> lock s = live i ->
  opened (set_store p s r) = opened r /\ next_instance (set_store p s r) = next_instance r
  /\ exists j, live j = live i /\ i_dir j = i_dir i /\ instances (set_store p s r) = <[p := j]> (instances r).
Proof. intros Hp Hs. unfold set_store. rewrite Hp. cbn. split_and!; [done|done|]. by exists (mkInstance (i_dir i) (i_file i) s). Qed.

Lemma exact_replace inst op nx p i j : exact inst op nx -> inst !! p = Some i -> live j = live i -> i_dir j = i_dir i -> exact (<[p := j]> inst) op nx.
Proof.
  intros [L O C F] Hp Hl Hd. assert (Hback : forall q k, <[p := j]> inst !! q = Some k -> exists k', inst !! q = Some k' /\ live k = live k' /\ i_dir k = i_dir k').
  { intros q k [[<- <-]|[_ Hq]]%lookup_insert_Some; [by exists i|by exists k]. } split.
  - intros id q Hq. destruct (L id q Hq) as (k & Hk & Hlk & Hdk). destruct (decide (q = p)) as [->|Hqp].
    + exists j. rewrite lookup_insert_eq. split; [done|]. assert (k = i) as -> by congruence. by rewrite Hl, Hd.
    + exists k. by rewrite lookup_insert_ne.
  - intros q q' k k' Hq Hq' Hk Hk' Hdd. apply Hback in Hq as (m & Hm & El & Ed), Hq' as (m' & Hm' & El' & Ed'). apply (O q q' m m'); congruence.
  - intros q k Hq Hk. apply Hback in Hq as (m & Hm & El & _). apply (C q m); congruence.
  - intros q [k Hq]. apply Hback in Hq as (m & Hm & _). apply F. by eexists.
Qed.

Lemma exact_opened io now fid d r r' p : cache_exact r -> open_dir sha256 io now fid d r = (r', Ok p) ->
  exact_but p r' /\ (exists i, instances r' !! p = Some i /\ i_dir i = d) /\ opened r' = opened r.
Proof.
  intros Hx E. destruct (open_dir_spec _ _ _ _ _ _ _ E) as (Ho & -> & Hn & Hh & f & s & Hl & Hi). pose proof (held_false _ _ Hh) as Hfree.
  set (j := mkInstance d f s) in *. assert (Hnew : instances r !! next_instance r = None).
  { destruct (instances r !! next_instance r) eqn:En; [|done]. assert (next_instance r < next_instance r)%nat by (apply (x_fresh _ _ _ Hx); by eexists). lia. }
  split; [|split; [exists j; split; [by rewrite Hi, lookup_insert_eq|done]|done]]. exists j. rewrite Hi, Ho, Hn. split_and!.
  - by rewrite lookup_insert_eq.
  - exact Hl.
  - intros id Hid. destruct (x_live _ _ _ Hx id _ Hid) as (i & Hi' & _). congruence.
  - rewrite delete_insert_id by done. destruct Hx as [L O C F]. split; try done. intros q Hq. specialize (F q Hq). lia.
  - lia.
  - intros q k [[<- _]|[_ Hq]]%lookup_insert_Some Hk Hdk; [done|]. by destruct (Hfree q k Hq Hk).
Qed.

Lemma exact_but_set p s r i : exact_but p r -> instances r !! p = Some i -> lock s = live i -> exact_but p (set_store p s r).
Proof.
  intros (i' & Hi' & Hl & Hn & He & Hp & Hu) Hi Hs. assert (i' = i) as -> by congruence. destruct (set_store_spec p s r i Hi Hs) as (Ho & Hx & j & Hj & Hjd & Hin).
  exists j. rewrite Ho, Hx, Hin. split_and!; [by rewrite lookup_insert_eq|congruence|done|by rewrite delete_insert_eq|done|].
  intros q k [[<- _]|[_ Hq]]%lookup_insert_Some Hk Hdk; [done|]. apply (Hu q k Hq Hk). congruence.
Qed.

(** An operation on a store keeps its lock. *)
Lemma DeclareWorkspace_lock e p s s' err : DeclareWorkspace e p s = (s', err) -> lock s' = lock s.
Proof.
  unfold DeclareWorkspace, append_rec, appendRecord. destruct (String.eqb p ""); [by intros [= <- <-]|]. destruct (MarshalJSON _); [|by intros [= <- <-]].
  destruct (negb (file s)); [by intros [= <- <-]|]. destruct (file_write _ _ _) as [c ok]. destruct (ok && _); by intros [= <- <-].
Qed.

Lemma seed_spec io r r' ok : seedSessionMetadata io r = (r', ok) -> instances r' = instances r /\ opened r' = opened r /\ next_instance r' = next_instance r.
Proof. unfold seedSessionMetadata. destruct (negb (c_mkdir io)); [by intros [= <- <-]|]. cbv zeta. destruct (MarshalJSON _); [|by intros [= <- <-]]. by destruct (c_seed io); intros [= <- <-]. Qed.

Lemma exact_dirs r r' : instances r' = instances r -> opened r' = opened r -> next_instance r' = next_instance r -> cache_exact r -> cache_exact r'.
Proof. unfold cache_exact. by intros -> -> ->. Qed.

Lemma Create_exact io cwd r : cache_exact r -> cache_exact (Create sha256 io cwd r).1.
Proof.
  intros Hx. unfold Create. destruct (negb (c_ctx io)); [done|]. destruct (negb (c_stat io)); [done|]. destruct (bool_decide _); [done|].
  destruct (seedSessionMetadata io r) as [r1 ok] eqn:Es. destruct (seed_spec _ _ _ _ Es) as (Ei & Eo & En). pose proof (exact_dirs r r1 Ei Eo En Hx) as Hx1. destruct ok; [|done].
  destruct (open_dir sha256 (c_open io) (c_now io) "" (c_id io) r1) as [r2 [p|e]] eqn:Eop.
  2:{ destruct (open_dir_spec _ _ _ _ _ _ _ Eop) as (E1 & E2 & E3). cbn. by apply (exact_dirs r1 r2). }
  destruct (exact_opened _ _ _ _ _ _ _ Hx1 Eop) as (Hb & (i & Hi & Hd) & E2). rewrite Hi.
  assert (Hdecl : forall r3 err, (if String.eqb cwd "" then (r2, None) else let '(s, err) := DeclareWorkspace (c_env io) cwd (i_store i) in (set_store p s r2, err)) = (r3, err) ->
    exact_but p r3 /\ (exists k, instances r3 !! p = Some k /\ i_dir k = c_id io) /\ opened r3 = opened r1).
  { intros r3 err. destruct (String.eqb cwd ""); [intros [= <- <-]; split_and!; [done|by exists i|done]|]. destruct (DeclareWorkspace _ _ _) as [s e] eqn:Ed.
    apply DeclareWorkspace_lock in Ed. intros [= <- <-]. split; [by apply (exact_but_set p s r2 i)|]. destruct (set_store_spec p s r2 i Hi Ed) as (E3 & _ & j & _ & Hj & Hin).
    split; [exists j; rewrite Hin, lookup_insert_eq; split; [done|congruence]|congruence]. }
  destruct (if String.eqb cwd "" then (r2, None) else _) as [r3 err] eqn:E3. destruct (Hdecl r3 err eq_refl) as (Hb3 & Hi3 & Eo3). destruct err; [cbn; by apply cache_exact_close|].
  destruct (opened r3 !! c_id io) eqn:Ex; cbn; [by apply cache_exact_close|]. apply exact_enter; [done| |done].
  destruct Hi3 as (k & Hk & Hkd). exists k. split; [done|by left].
Qed.

Lemma mounted_spec d r p : mounted d r = Some p -> exists id i, opened r !! id = Some p /\ instances r !! p = Some i /\ i_dir i = d.
Proof.
  unfold mounted. intros ([id q] & Hf & ->)%fmap_Some. apply find_first_Some in Hf as [Hin Hp]. cbn in *. apply elem_of_map_to_list in Hin.
  destruct (instances r !! q) as [i|] eqn:Ei; [|done]. apply String.eqb_eq in Hp. by exists id, i.
Qed.

Lemma resolve_spec id r d : resolve sha256 id r = Some d -> d = id \/ d = "".
Proof. unfold resolve. repeat case_match; intros [= <-]; auto. Qed.

Lemma exact_alias id p r i : cache_exact r -> instances r !! p = Some i -> live i = true -> (i_dir i = id \/ i_dir i = "") -> opened r !! id = None ->
  cache_exact (with_opened (<[id := p]> (opened r)) r).
Proof.
  intros [L O C F] Hi Hl Hd Hid. split; cbn; [|done| |done].
  - intros k q [[<- <-]|[_ Hq]]%lookup_insert_Some; [by exists i|by apply L].
  - intros q j Hq Hj. destruct (C q j Hq Hj) as [k Hk]. exists k. rewrite lookup_insert_ne; [done|]. intros <-. by rewrite Hid in Hk.
Qed.

Lemma Open_exact io now fid id r : cache_exact r -> cache_exact (Open sha256 io now fid id r).1.
Proof.
  intros Hx. unfold Open. destruct (negb (validSessionID id)); [done|]. destruct (opened r !! id) eqn:Eo; [done|]. destruct (resolve sha256 id r) as [d|] eqn:Er; [|done].
  apply resolve_spec in Er. destruct (mounted d r) as [p|] eqn:Em.
  - destruct (mounted_spec _ _ _ Em) as (k & i & Hk & Hi & Hd). destruct (x_live _ _ _ Hx k p Hk) as (i' & Hi' & Hl & _). assert (i' = i) as -> by congruence.
    cbn. apply (exact_alias id p r i); try done. by rewrite Hd.
  - destruct (open_dir sha256 io now fid d r) as [r2 [p|e]] eqn:Eop.
    2:{ destruct (open_dir_spec _ _ _ _ _ _ _ Eop) as (E1 & E2 & E3). cbn. by apply (exact_dirs r r2). }
    destruct (exact_opened _ _ _ _ _ _ _ Hx Eop) as (Hb & (i & Hi & Hd) & E2). cbn. apply exact_enter; [done| |congruence]. exists i. split; [done|]. by rewrite Hd.
Qed.

Lemma CloseSession_spec cl id r : cache_exact r -> cache_exact (CloseSession cl id r).1
  /\ forall p, opened r !! id = Some p -> (forall k, opened (CloseSession cl id r).1 !! k <> Some p) /\ forall i, instances (CloseSession cl id r).1 !! p = Some i -> live i = false.
Proof.
  intros Hx. unfold CloseSession. destruct (opened r !! id) as [p|] eqn:Ep; [|done]. set (r1 := with_opened _ r). destruct (x_live _ _ _ Hx id p Ep) as (i & Hi & Hl & Hd).
  assert (Hout : forall k, opened r1 !! k <> Some p) by (intros k [_ Hk]%map_lookup_filter_Some; done).
  assert (Hb : exact_but p r1).
  { exists i. destruct Hx as [L O C F]. split_and!; [done|done|done| |by apply F; eexists|intros q j Hq Hj Hdj; by apply (O q p j i)]. split.
    - intros k q [Hq Hne]%map_lookup_filter_Some. cbn in Hne. destruct (L k q Hq) as (j & Hj & Hr). exists j. split; [by rewrite lookup_delete_ne|done].
    - intros q q' j j' [_ Hq]%lookup_delete_Some [_ Hq']%lookup_delete_Some. by apply O.
    - intros q j [Hqp Hq]%lookup_delete_Some Hj. destruct (C q j Hq Hj) as [k Hk]. exists k. apply map_lookup_filter_Some. split; [done|by cbn].
    - intros q [j [_ Hq]%lookup_delete_Some]. apply F. by eexists. }
  split; [by apply cache_exact_close|]. intros q [= <-]. destruct (close_instance_spec cl p r1 i Hi) as (Ho & _ & j & Hj & _ & Hin). split; [intros k; rewrite Ho; apply Hout|].
  intros k. rewrite Hin, lookup_insert_eq. by intros [= <-].
Qed.

(** [close_all] leaves alone what is closed, and closes what it is given. *)
Lemma close_all_spec cl ps : forall r, (forall p, p ∈ ps -> is_Some (instances r !! p)) ->
  let r' := (close_all cl ps r).1 in opened r' = opened r /\ next_instance r' = next_instance r
  /\ forall p i, instances r' !! p = Some i -> is_Some (instances r !! p) /\ (live i = true -> (p ∉ ps) /\ instances r !! p = Some i).
Proof.
  induction ps as [|p ps IH]; intros r Hps; cbn [close_all].
  - cbn. split_and!; [done|done|]. intros q i Hq. split; [by eexists|]. intros _. split; [by intros ?%elem_of_nil|done].
  - destruct (Hps p) as [i Hi]; [by left|]. pose proof (close_instance_spec (cl p) p r i Hi) as (Ho & Hn & j & Hj & _ & Hin).
    destruct (close_instance (cl p) p r) as [r1 err]. cbn [fst] in *. specialize (IH r1).
    destruct (close_all cl ps r1) as [r2 errs]. cbn [fst] in *. destruct IH as (Ho2 & Hn2 & H2).
    { intros q Hq. rewrite Hin. destruct (decide (q = p)) as [->|Hqp]; [rewrite lookup_insert_eq; by eexists|rewrite lookup_insert_ne by done; apply Hps; by right]. }
    split_and!; [congruence|congruence|]. intros q k Hk. destruct (H2 q k Hk) as [[m Hm] Hl2]. rewrite Hin in Hm, Hl2. destruct (decide (q = p)) as [->|Hqp].
    + split; [by eexists|]. intros Hk2. destruct (Hl2 Hk2) as [_ E]. rewrite lookup_insert_eq in E. congruence.
    + rewrite lookup_insert_ne in Hm by done. split; [by eexists|]. intros Hk2. destruct (Hl2 Hk2) as [Hq E]. rewrite lookup_insert_ne in E by done.
      split; [|done]. intros [->|?]%elem_of_cons; done.
Qed.

Lemma Close_exact cl r : cache_exact r -> cache_exact (Close cl r).1 /\ forall p i, instances (Close cl r).1 !! p = Some i -> live i = false.
Proof.
  intros [L O C F]. set (ps := snd <$> map_to_list (opened r)).
  assert (Hps : forall p, p ∈ ps -> is_Some (instances (with_opened ∅ r) !! p)).
  { intros p ([k q] & -> & Hin)%list_elem_of_fmap. apply elem_of_map_to_list in Hin. destruct (L k q Hin) as (i & Hi & _). by eexists. }
  pose proof (close_all_spec cl ps (with_opened ∅ r) Hps) as (Ho & Hn & Hc). change (close_all cl ps (with_opened ∅ r)) with (Close cl r) in *. cbn in Ho, Hn.
  assert (Hdead : forall p i, instances (Close cl r).1 !! p = Some i -> live i = false).
  { intros p i Hi. destruct (live i) eqn:El; [|done]. destruct (Hc p i Hi) as [_ Hl]. destruct (Hl El) as [Hnp E]. cbn in E. destruct (C p i E El) as [k Hk].
    destruct Hnp. apply list_elem_of_fmap. exists (k, p). split; [done|]. by apply elem_of_map_to_list. }
  split; [|exact Hdead]. split.
  - intros id p. by rewrite Ho, lookup_empty.
  - intros p q i j Hi Hj Hl. by rewrite (Hdead p i Hi) in Hl.
  - intros p i Hi Hl. by rewrite (Hdead p i Hi) in Hl.
  - intros p [i Hi]. rewrite Hn. apply F. by destruct (Hc p i Hi) as [? _].
Qed.

(** ** Any use of the repository *)

(** The operations with their outcomes, and what the owner of a store does to it. *)
Inductive repo_op : Type :=
  | ROCreate (io : create_io) (cwd : string)
  | ROOpen (io : open_io) (now : Time) (fresh_id id : string)
  | RODelete (ctx : bool) (remains : option (gmap string bytes)) (id : string)
  | ROCloseSession (cl : bool * bool) (id : string)
  | ROClose (cl : nat -> bool * bool)
  | ROStore (p : nat) (f : Store -> Store).

Definition store_op (p : nat) (f : Store -> Store) (r : Repository) : Repository :=
  match instances r !! p with
  | Some i => let s := f (i_store i) in if eqb (lock s) (live i) then set_store p s r else r
  | None => r
  end.

Definition repo_step (r : Repository) (o : repo_op) : Repository :=
  match o with
  | ROCreate io cwd => (Create sha256 io cwd r).1
  | ROOpen io now fid id => (Open sha256 io now fid id r).1
  | RODelete ctx remains id => (Delete sha256 ctx remains id r).1
  | ROCloseSession cl id => (CloseSession cl id r).1
  | ROClose cl => (Close cl r).1
  | ROStore p f => store_op p f r
  end.

Lemma Delete_fields ctx remains id r : instances (Delete sha256 ctx remains id r).1 = instances r /\ opened (Delete sha256 ctx remains id r).1 = opened r
  /\ next_instance (Delete sha256 ctx remains id r).1 = next_instance r.
Proof. unfold Delete. repeat case_match; done. Qed.

Lemma step_exact r o : cache_exact r -> cache_exact (repo_step r o).
Proof.
  intros Hx. destruct o as [io cwd|io now fid id|ctx remains id|cl id|cl|p f]; cbn.
  - by apply Create_exact.
  - by apply Open_exact.
  - destruct (Delete_fields ctx remains id r) as (E1 & E2 & E3). by apply (exact_dirs r).
  - by apply CloseSession_spec.
  - by apply Close_exact.
  - unfold store_op. destruct (instances r !! p) as [i|] eqn:Ei; [|done]. destruct (eqb _ _) eqn:El; [|done]. apply eqb_prop in El.
    destruct (set_store_spec p _ r i Ei El) as (Ho & Hn & j & Hj & Hd & Hin). unfold cache_exact. rewrite Ho, Hn, Hin. by apply (exact_replace _ _ _ p i).
Qed.

Lemma run_exact base on_disk ops : cache_exact (foldl repo_step (OpenRepository base on_disk) ops).
Proof.
  assert (Hgen : forall r, cache_exact r -> cache_exact (foldl repo_step r ops)).
  { induction ops as [|o ops IH]; intros r Hx; [done|]. cbn. apply IH. by apply step_exact. }
  apply Hgen. split; cbn; try done. by intros p [i Hi].
Qed.

(** C29: a session is open at most once, and what is open is known. Whatever is
    created, opened, written, closed and deleted, and whatever fails: what the
    cache answers is a store that is open; no directory has two open stores; every
    open store is in the cache; closing a session closes its store under every
    name; closing the repository closes all; and a directory is removed only when
    no open store is in it. *)
Theorem one_store_for_a_session base on_disk ops :
  let r := foldl repo_step (OpenRepository base on_disk) ops in
  (forall id p, Peek id r = Some p -> exists i, instances r !! p = Some i /\ live i = true)
  /\ (forall p q i j, instances r !! p = Some i -> instances r !! q = Some j -> live i = true -> live j = true -> i_dir i = i_dir j -> p = q)
  /\ (forall p i, instances r !! p = Some i -> live i = true -> exists id, Peek id r = Some p)
  /\ (forall cl id p, Peek id r = Some p -> Peek id (CloseSession cl id r).1 = None /\ forall i, instances (CloseSession cl id r).1 !! p = Some i -> live i = false)
  /\ (forall cl p i, instances (Close cl r).1 !! p = Some i -> live i = false)
  /\ (forall ctx remains id r', Delete sha256 ctx remains id r = (r', None) -> forall p i, instances r !! p = Some i -> live i = true -> i_dir i <> id).
Proof.
  intros r. pose proof (run_exact base on_disk ops) as Hx. fold r in Hx. split_and!.
  - intros id p Hp. destruct (x_live _ _ _ Hx id p Hp) as (i & Hi & Hl & _). by exists i.
  - apply (x_one _ _ _ Hx).
  - apply (x_cached _ _ _ Hx).
  - intros cl id p Hp. destruct (CloseSession_spec cl id r Hx) as [Hx' Hc]. destruct (Hc p Hp) as [Hout Hdead]. split; [|done]. unfold Peek in *.
    unfold CloseSession. rewrite Hp. destruct (x_live _ _ _ Hx id p Hp) as (i & Hi & _). set (r1 := with_opened _ r).
    destruct (close_instance_spec cl p r1 i Hi) as (Ho & _). rewrite Ho. cbn. apply map_lookup_filter_None. right. intros q Hq. cbn. congruence.
  - intros cl. by apply Close_exact.
  - intros ctx remains id r' Hdel p i Hi Hl Hd. destruct (x_cached _ _ _ Hx p i Hi Hl) as [k Hk]. destruct (x_live _ _ _ Hx k p Hk) as (i' & Hi' & _ & Hr). assert (i' = i) as -> by congruence.
    unfold Delete in Hdel. destruct (negb ctx); [done|]. destruct (negb (validSessionID id)) eqn:Ev; [done|]. destruct (bool_decide (is_Some (opened r !! id))) eqn:Eo; [done|].
    destruct Hr as [<-|Hroot].
    + rewrite bool_decide_true in Eo; [done|]. exists p. congruence.
    + rewrite Hroot in Hd. by rewrite <- Hd in Ev.
Qed.
End props.
