(* ===== verification/SessionLifecycle.v ===== *)
(** * daemon/internal/plugins/agent: the life of the sessions

    lifecycle.go, boundsession.go, the session boundary of plugin.go and /new,
    the states of sessions.go: which runtimes are in the manager and which stores
    are open, by the connections that are bound to them. The repository of the
    stores is an interface; what the system does during a call is an argument. *)

From stdpp Require Import pretty.
From S2P Require Import Prelude GoString GoPath RuntimeConfig ControlLease AgentRun.
#[local] Open Scope string_scope.
#[local] Open Scope list_scope.

(** ** The repository as the plugin uses it *)

Record store_facts := mkFacts { st_id : string; st_workspace : string; st_archived : bool }.
Inductive opened_result : Type := OpenedStore (f : store_facts) | OpenNotFound | OpenFailed.

(** [W]: the outcomes of the calls of the system. The name in [repo_declare] and
    [repo_mark] is that of a store in the cache. *)
Class SessionRepo (R W : Type) := {
  repo_create : W -> string -> R -> R * option store_facts;
  repo_open : W -> string -> R -> R * opened_result;
  repo_close : W -> string -> R -> R;
  repo_peek : string -> R -> option store_facts;
  repo_declare : W -> string -> string -> R -> R;
  repo_mark : W -> string -> R -> R * bool;
}.

(** What it promises: the cache has what was opened, and nothing else changes. *)
Class SessionRepoLaws (R W : Type) `{SessionRepo R W} := {
  repo_ok : R -> Prop;
  good : W -> Prop;
  peek_named : forall r k f, repo_ok r -> repo_peek k r = Some f -> st_id f = k /\ k <> "";
  create_law : forall w cwd r r' res, repo_ok r -> good w -> repo_create w cwd r = (r', res) -> repo_ok r' /\
    match res with
    | Some f => repo_peek (st_id f) r = None /\ is_Some (repo_peek (st_id f) r') /\ forall k, k <> st_id f -> is_Some (repo_peek k r') <-> is_Some (repo_peek k r)
    | None => forall k, is_Some (repo_peek k r') <-> is_Some (repo_peek k r)
    end;
  open_law : forall w id r r' res, repo_ok r -> good w -> repo_open w id r = (r', res) -> repo_ok r' /\
    match res with
    | OpenedStore f => st_id f = id /\ is_Some (repo_peek id r') /\ forall k, k <> id -> is_Some (repo_peek k r') <-> is_Some (repo_peek k r)
    | _ => forall k, is_Some (repo_peek k r') <-> is_Some (repo_peek k r)
    end;
  close_law : forall w id r, repo_ok r -> good w -> repo_ok (repo_close w id r) /\ repo_peek id (repo_close w id r) = None
    /\ forall k, k <> id -> is_Some (repo_peek k (repo_close w id r)) <-> is_Some (repo_peek k r);
  declare_law : forall w id p r, repo_ok r -> good w -> repo_ok (repo_declare w id p r) /\ forall k, is_Some (repo_peek k (repo_declare w id p r)) <-> is_Some (repo_peek k r);
  mark_law : forall w id r, repo_ok r -> good w -> repo_ok (repo_mark w id r).1 /\ forall k, is_Some (repo_peek k (repo_mark w id r).1) <-> is_Some (repo_peek k r);
}.

(** ** The state *)

Section lifecycle.
Context {R W : Type} `{SessionRepo R W}.

(** [p_cwds]: what a runtime has declared, and whether that was an error; [p_exec]:
    the working directory of its session; [p_hubs]: the runtimes whose events are closed. *)
Record plugin := mkPlugin {
  p_mgr : SessionManager;
  p_rts : gmap nat SessionRuntime;
  p_next : nat;
  p_cwds : gmap nat (string * bool);
  p_exec : gmap nat string;
  p_hubs : gset nat;
  p_current : option nat;
  p_suspended : gset string;
  p_leases : LeaseRegistry;
  p_bindings : BindingRegistry;
  p_repo : option R;
}.

Definition with_mgr (m : SessionManager) (p : plugin) : plugin := mkPlugin m (p_rts p) (p_next p) (p_cwds p) (p_exec p) (p_hubs p) (p_current p) (p_suspended p) (p_leases p) (p_bindings p) (p_repo p).
Definition with_rts (rs : gmap nat SessionRuntime) (p : plugin) : plugin := mkPlugin (p_mgr p) rs (p_next p) (p_cwds p) (p_exec p) (p_hubs p) (p_current p) (p_suspended p) (p_leases p) (p_bindings p) (p_repo p).
Definition with_cwds (c : gmap nat (string * bool)) (e : gmap nat string) (p : plugin) : plugin := mkPlugin (p_mgr p) (p_rts p) (p_next p) c e (p_hubs p) (p_current p) (p_suspended p) (p_leases p) (p_bindings p) (p_repo p).
Definition with_hubs (h : gset nat) (p : plugin) : plugin := mkPlugin (p_mgr p) (p_rts p) (p_next p) (p_cwds p) (p_exec p) h (p_current p) (p_suspended p) (p_leases p) (p_bindings p) (p_repo p).
Definition with_current (c : option nat) (p : plugin) : plugin := mkPlugin (p_mgr p) (p_rts p) (p_next p) (p_cwds p) (p_exec p) (p_hubs p) c (p_suspended p) (p_leases p) (p_bindings p) (p_repo p).
Definition with_suspended (s : gset string) (p : plugin) : plugin := mkPlugin (p_mgr p) (p_rts p) (p_next p) (p_cwds p) (p_exec p) (p_hubs p) (p_current p) s (p_leases p) (p_bindings p) (p_repo p).
Definition with_control (l : LeaseRegistry) (b : BindingRegistry) (p : plugin) : plugin := mkPlugin (p_mgr p) (p_rts p) (p_next p) (p_cwds p) (p_exec p) (p_hubs p) (p_current p) (p_suspended p) l b (p_repo p).
Definition with_repo (r : option R) (p : plugin) : plugin := mkPlugin (p_mgr p) (p_rts p) (p_next p) (p_cwds p) (p_exec p) (p_hubs p) (p_current p) (p_suspended p) (p_leases p) (p_bindings p) r.

Definition map_repo (f : R -> R) (p : plugin) : plugin := with_repo (f <$> p_repo p) p.

Inductive life_error : Type :=
  | LDisabled
  | LBadCwd (cwd : string)
  | LCreate
  | LRegister (e : register_error)
  | LUnknown (sid : string)
  | LReload (sid : string)
  | LReopen (sid : string)
  | LNoStore (sid : string)
  | LLease (sid client : string)
  | LSettling (sid : string)
  | LRunActive (sid : string)
  | LMark

  | LNoSession.

(** ** plugin.go: who is who *)

Definition storeFor (i : nat) (p : plugin) : option store_facts := rt ← p_rts p !! i; r ← p_repo p; repo_peek (RID rt) r.

Definition CurrentSessionID (p : plugin) : string := match i ← p_current p; storeFor i p with Some f => st_id f | None => "" end.

(** The current runtime by its own name, or by the empty one without a store. *)
Definition RouteSession (sid : string) (p : plugin) : option nat :=
  match i ← p_current p; rt ← p_rts p !! i; Some (i, rt) with
  | Some (i, rt) => if String.eqb sid (RID rt) || (String.eqb sid "" && String.eqb (CurrentSessionID p) "") then Some i else Get sid (p_mgr p)
  | None => Get sid (p_mgr p)
  end.

Definition currentSessionIs (i : nat) (p : plugin) : bool := bool_decide (p_current p = Some i).

(** ** Working directories *)

(** The file system as far as paths go, and the environment. *)
Context (Abs EvalSymlinks : string -> option string) (TempDir : string) (Getuid : Z) (AllowedWorkDir : string).

Definition tmpWorkspaceRoot : string :=
  let root := JoinPath [TempDir; "goworker-workspaces"] in
  if (0 <=? Getuid)%Z then JoinPath [root; pretty Getuid] else root.
Definition tmpWorkspaceDir (sid : string) : string := JoinPath [tmpWorkspaceRoot; sid].
Definition isTmpWorkspacePath (cwd : string) : bool := String.eqb cwd tmpWorkspaceRoot || HasPrefix cwd (tmpWorkspaceRoot +:+ "/").

(** [None]: an error. *)
Definition cwdUnderRoot (resolvedCwd root : string) : option bool :=
  absRoot ← Abs root; resolvedRoot ← EvalSymlinks absRoot;
  Some (String.eqb resolvedCwd resolvedRoot || HasPrefix resolvedCwd (resolvedRoot +:+ "/")).

Definition validateSessionCWD (cwd : string) : bool :=
  if String.eqb AllowedWorkDir "" || String.eqb cwd "" then true
  else
    match EvalSymlinks cwd with
    | None => false
    | Some resolvedCwd =>
        match cwdUnderRoot resolvedCwd AllowedWorkDir with
        | None => false
        | Some true => true
        | Some false => match cwdUnderRoot resolvedCwd tmpWorkspaceRoot with Some true => true | _ => false end
        end
    end.

Definition normalizeSessionCWD (cwd : string) : option string :=
  let cwd := TrimSpace cwd in if String.eqb cwd "" then Some "" else Abs cwd.
Definition normalizeSessionCWDSilent (cwd : string) : string := default (TrimSpace cwd) (normalizeSessionCWD cwd).

Definition DeclareCWD (i : nat) (cwd : string) (err : bool) (p : plugin) : plugin :=
  with_cwds (<[i := (if err then "" else cwd, err)]> (p_cwds p)) (p_exec p) p.
Definition SetCWD (i : nat) (cwd : string) (p : plugin) : plugin :=
  match p_rts p !! i ≫= session with Some _ => with_cwds (p_cwds p) (<[i := cwd]> (p_exec p)) p | None => p end.

(** What the system does during a call: for the repository, [ReloadFromStore],
    and making a directory. *)
Record weather := mkWeather { w_repo : W; w_close : W; w_reload : bool; w_mkdir : bool }.

Definition applySessionCWD (w : W) (i : nat) (cwd : string) (record : bool) (p : plugin) : plugin :=
  if negb (validateSessionCWD cwd) then DeclareCWD i "" true p
  else
    let p :=
      match storeFor i p with
      | Some f => if record && negb (String.eqb (st_workspace f) cwd) then map_repo (repo_declare w (st_id f) cwd) p else p
      | None => p
      end in
    SetCWD i cwd (DeclareCWD i cwd false p).

Definition declareSessionCWD (w : weather) (i : nat) (cwd : string) (p : plugin) : plugin :=
  if String.eqb cwd "" then
    if w_mkdir w then
      match p_rts p !! i with
      | Some rt => applySessionCWD (w_repo w) i (tmpWorkspaceDir (RID rt)) false p
      | None => p
      end
    else DeclareCWD i "" true p
  else applySessionCWD (w_repo w) i cwd true p.

(** ** lifecycle.go *)

Definition markSuspendedRelease (sid : string) (p : plugin) : plugin := with_suspended ({[sid]} ∪ p_suspended p) p.
Definition clearSuspendedRelease (sid : string) (p : plugin) : plugin := with_suspended (p_suspended p ∖ {[sid]}) p.
Definition takeSuspendedRelease (sid : string) (p : plugin) : plugin * bool :=
  if bool_decide (sid ∈ p_suspended p) then (clearSuspendedRelease sid p, true) else (p, false).
Definition isSuspendedRelease (sid : string) (p : plugin) : bool := bool_decide (sid ∈ p_suspended p).

Definition tryReleaseSession (w : W) (sid : string) (p : plugin) : plugin :=
  if String.eqb sid "" then p
  else
    match Bindings sid (p_bindings p) with
    | _ :: _ => clearSuspendedRelease sid p
    | [] =>
        match Get sid (p_mgr p) with
        | None => clearSuspendedRelease sid p
        | Some i =>
            if currentSessionIs i p then clearSuspendedRelease sid p
            else
              match Retire <$> p_rts p !! i with
              | None => p
              | Some (_, Some _) => markSuspendedRelease sid p
              | Some (rt, None) =>
                  let p := clearSuspendedRelease sid (with_rts (<[i := rt]> (p_rts p)) p) in
                  let p := with_hubs ({[i]} ∪ p_hubs p) (with_mgr (Remove sid (p_mgr p)) p) in
                  if negb (String.eqb (CurrentSessionID p) sid) then map_repo (repo_close w sid) p else p
              end
        end
    end.

Definition onSessionRunDone (w : W) (sid : string) (p : plugin) : plugin :=
  let '(p, taken) := takeSuspendedRelease sid p in
  if taken then tryReleaseSession w sid p else p.

Definition BindConnectionSession (w : W) (client sid : string) (p : plugin) : plugin :=
  let '(prev, b) := Bind client sid (p_bindings p) in
  let p := with_control (p_leases p) b p in
  if negb (String.eqb prev "") && negb (String.eqb prev sid) then tryReleaseSession w prev p else p.

Definition ReleaseConnection (w : W) (client : string) (p : plugin) : plugin :=
  let '(prev, b) := Unbind client (p_bindings p) in
  let p := with_control (ControlLease.ReleaseConnection client (p_leases p)) b p in
  if negb (String.eqb prev "") then tryReleaseSession w prev p else p.

(** ** boundsession.go *)

Definition mountRuntime (f : store_facts) (p : plugin) : plugin * Prelude.result life_error nat :=
  let i := p_next p in
  let rt := NewSessionRuntime (st_id f) (Some (mkSession true true)) in
  let rt := if st_archived f then AgentRun.archive_end true (AgentRun.archive_begin rt).1 else rt in
  match Register i rt (p_mgr p) with
  | (_, Some e) => (p, Prelude.Err (LRegister e))
  | (m, None) =>
      (mkPlugin m (<[i := rt]> (p_rts p)) (S i) (p_cwds p) (p_exec p) (p_hubs p) (p_current p) (p_suspended p) (p_leases p) (p_bindings p) (p_repo p), Ok i)
  end.

Definition CreateBoundSession (w : weather) (cwd : string) (p : plugin) : plugin * Prelude.result life_error string :=
  match p_repo p with
  | None => (p, Prelude.Err LDisabled)
  | Some r =>
      match normalizeSessionCWD cwd with
      | None => (p, Prelude.Err (LBadCwd cwd))
      | Some declared =>
          if negb (validateSessionCWD declared) then (p, Prelude.Err (LBadCwd declared))
          else
            match repo_create (w_repo w) declared r with
            | (r, None) => (with_repo (Some r) p, Prelude.Err LCreate)
            | (r, Some f) =>
                match mountRuntime f (with_repo (Some r) p) with
                | (p, Prelude.Err e) => (map_repo (repo_close (w_close w) (st_id f)) p, Prelude.Err e)
                | (p, Ok i) => (declareSessionCWD w i declared p, Ok (st_id f))
                end
            end
      end
  end.

Definition LoadBoundSession (w : weather) (sid cwd : string) (p : plugin) : plugin * option life_error :=
  match RouteSession sid p with
  | Some i =>
      match p_rts p !! i ≫= session with
      | Some _ => if w_reload w then (let c := normalizeSessionCWDSilent cwd in if String.eqb c "" then p else declareSessionCWD w i c p, None) else (p, Some (LReload sid))
      | None => (let c := normalizeSessionCWDSilent cwd in if String.eqb c "" then p else declareSessionCWD w i c p, None)
      end
  | None =>
      match p_repo p with
      | None => (p, Some (LUnknown sid))
      | Some r =>
          match repo_open (w_repo w) sid r with
          | (r, OpenNotFound) => (with_repo (Some r) p, Some (LUnknown sid))
          | (r, OpenFailed) => (with_repo (Some r) p, Some (LReopen sid))
          | (r, OpenedStore f) =>
              match mountRuntime f (with_repo (Some r) p) with
              | (p, Prelude.Err e) => (p, Some e)
              | (p, Ok i) =>
                  let c := normalizeSessionCWDSilent cwd in
                  (declareSessionCWD w i (if String.eqb c "" then st_workspace f else c) p, None)
              end
          end
      end
  end.

(** The store whose active view is replayed, when there is one. *)
Definition SessionHistory (sid : string) (p : plugin) : Prelude.result life_error (option string) :=
  match RouteSession sid p with
  | None => Prelude.Err (LUnknown sid)
  | Some i => Ok (st_id <$> storeFor i p)
  end.

Definition LoadBoundSessionForConnection (w : weather) (sid cwd client : string) (p : plugin) : plugin * Prelude.result life_error (option string) :=
  match LoadBoundSession w sid cwd p with
  | (p, Some e) => (p, Prelude.Err e)
  | (p, None) =>
      match SessionHistory sid p with
      | Prelude.Err e => (tryReleaseSession (w_close w) sid p, Prelude.Err e)
      | Ok h => (BindConnectionSession (w_close w) client sid p, Ok h)
      end
  end.

Definition SessionArchived (w : W) (sid : string) (p : plugin) : plugin * bool :=
  match p_repo p with
  | None => (p, false)
  | Some r =>
      match repo_open w sid r with
      | (r, OpenedStore f) => (with_repo (Some r) p, st_archived f)
      | (r, _) => (with_repo (Some r) p, false)
      end
  end.

(** The branch of [ArchivedSessionHistory] for a session without an archive
    directory: the store whose active view is replayed. *)
Definition archived_history (w w_close : W) (sid : string) (p : plugin) : plugin * option string :=
  match p_repo p with
  | None => (p, None)
  | Some r =>
      match repo_open w sid r with
      | (r, OpenedStore f) =>
          let p := with_repo (Some r) p in
          if st_archived f then
            (match RouteSession sid p with None => map_repo (repo_close w_close sid) p | Some _ => p end, Some (st_id f))
          else (p, None)
      | (r, _) => (with_repo (Some r) p, None)
      end
  end.

Definition ArchiveSession (w : weather) (sid client : string) (p : plugin) : plugin * option life_error :=
  match p_repo p with
  | None => (p, Some LDisabled)
  | Some r =>
      match RouteSession sid p with
      | Some i =>
          match storeFor i p with
          | None => (p, Some (LNoStore sid))
          | Some f =>
              let '(l, p, res) := WithControl sid client (fun p =>
                if isSuspendedRelease sid p then (p, Prelude.Err (LSettling sid))
                else
                  match archive_begin <$> p_rts p !! i with
                  | None => (p, Prelude.Err (LRunActive sid))
                  | Some (_, Some _) => (p, Prelude.Err (LRunActive sid))
                  | Some (rt, None) =>
                      let '(r, ok) := repo_mark (w_repo w) (st_id f) r in
                      (with_rts (<[i := archive_end ok rt]> (p_rts p)) (with_repo (Some r) p), if ok then Ok tt else Prelude.Err LMark)
                  end) (p_leases p) p in
              (with_control l (p_bindings p) p, match res with Ok _ => None | Prelude.Err (ErrControlLeaseLost s c) => Some (LLease s c) | Prelude.Err (OperationError e) => Some e end)
          end
      | None =>
          match repo_open (w_repo w) sid r with
          | (r, OpenNotFound) => (with_repo (Some r) p, Some (LUnknown sid))
          | (r, OpenFailed) => (with_repo (Some r) p, Some (LReopen sid))
          | (r, OpenedStore f) =>
              let '(l, p, res) := WithControl sid client (fun p =>
                let '(r, ok) := repo_mark (w_repo w) sid r in (with_repo (Some r) p, if ok then Ok tt else Prelude.Err LMark)) (p_leases p) (with_repo (Some r) p) in
              (map_repo (repo_close (w_close w) sid) (with_control l (p_bindings p) p),
               match res with Ok _ => None | Prelude.Err (ErrControlLeaseLost s c) => Some (LLease s c) | Prelude.Err (OperationError e) => Some e end)
          end
      end
  end.

(** ** sessions.go *)

Definition sessionIsLive (sid : string) (p : plugin) : bool :=
  match Bindings sid (p_bindings p) with
  | _ :: _ => true
  | [] =>
      match Get sid (p_mgr p) ≫= fun i => p_rts p !! i ≫= active with
      | Some _ => true
      | None => isSuspendedRelease sid p || match p_current p ≫= fun i => p_rts p !! i with Some rt => String.eqb (RID rt) sid | None => false end
      end
  end.

Definition SessionModes (cfg : option LLMConfig) : option (string * list (string * string)) :=
  match cfg with
  | None => None
  | Some l =>
      match merge_sort string_le (fst <$> map_to_list (Providers l)) with
      | [] => None
      | names => Some (DefaultProvider l, (fun n => (n, n +:+ " (" +:+ match Providers l !! n with Some pr => Model pr | None => "" end +:+ ")")) <$> names)
      end
  end.

(** ** plugin.go: the boundary of a session *)

(** [legacy]: the name of the session in the root, at the first boundary. *)
Definition openSessionStore (w : W) (legacy : option string) (p : plugin) : plugin * option store_facts :=
  match p_repo p with
  | None => (p, None)
  | Some r =>
      match legacy with
      | Some id =>
          match repo_open w id r with
          | (r, OpenedStore f) => (with_repo (Some r) p, Some f)
          | (r, _) => (with_repo (Some r) p, None)
          end
      | None => let '(r, f) := repo_create w "" r in (with_repo (Some r) p, f)
      end
  end.

Definition startSession (w : weather) (legacy : option string) (p : plugin) : plugin :=
  let '(p, st) := openSessionStore (w_repo w) legacy p in
  let id := match st with Some f => st_id f | None => "current" end in
  let i := p_next p in
  let has := match st with Some _ => true | None => false end in
  let rt := NewSessionRuntime id (Some (mkSession has has)) in
  let carried := match p_current p ≫= fun c => p_cwds p !! c with Some (cwd, false) => cwd | _ => "" end in
  let inject := String.eqb carried "" || isTmpWorkspacePath carried in
  let cwd := if inject && w_mkdir w then tmpWorkspaceDir id else carried in
  let m := (Register i rt (p_mgr p)).1 in
  let cwds := if inject && negb (w_mkdir w) then p_cwds p else <[i := (cwd, false)]> (p_cwds p) in
  mkPlugin m (<[i := rt]> (p_rts p)) (S i) cwds (<[i := cwd]> (p_exec p)) (p_hubs p) (Some i) (p_suspended p) (p_leases p) (p_bindings p) (p_repo p).

(** [sessionRuntimeIn] for the binding of a connection; the empty one is none. *)
Definition sessionRuntimeIn (binding : string) (p : plugin) : Prelude.result life_error (option nat) :=
  if String.eqb binding "" then Ok (p_current p)
  else
    match p_current p ≫= fun i => rt ← p_rts p !! i; if String.eqb binding (RID rt) then Some i else None with
    | Some i => Ok (Some i)
    | None => match Get binding (p_mgr p) with Some i => Ok (Some i) | None => Prelude.Err (LUnknown binding) end
    end.

(** /new for the client (the empty one is the terminal) and its binding: the
    session that is left, the new current one, and the binding afterwards. *)
Definition handleNew (w : weather) (client binding : string) (p : plugin) : plugin * Prelude.result life_error string :=
  match sessionRuntimeIn binding p with
  | Prelude.Err e => (p, Prelude.Err e)
  | Ok None => (p, Prelude.Err LNoSession)
  | Ok (Some old) =>
      let p := startSession w None p in
      let p := if String.eqb client "" then p else with_control (p_leases p) (Unbind client (p_bindings p)).2 p in
      match p_rts p !! old with
      | Some rt => (tryReleaseSession (w_close w) (RID rt) p, Ok "")
      | None => (p, Ok "")
      end
  end.
End lifecycle.
Arguments plugin : clear implicits.
