(* ===== verification/SessionLifecycleProps.v ===== *)
(** * Sessions live as long as they are used *)

From stdpp Require Import pretty.
From S2P Require Import Prelude GoString GoPath RuntimeConfig ControlLease AgentRun SessionLifecycle.
#[local] Open Scope string_scope.
#[local] Open Scope list_scope.

Section props.
Context {R W : Type} `{SessionRepo R W} `{!SessionRepoLaws R W}.
Context (Abs EvalSymlinks : string -> option string) (TempDir : string) (Getuid : Z) (AllowedWorkDir : string).

(** ** The invariant *)

Definition bound (sid : string) (p : plugin R) : Prop := exists client, p_bindings p !! client = Some sid.
Definition running (sid : string) (p : plugin R) : Prop := exists i rt, Get sid (p_mgr p) = Some i /\ p_rts p !! i = Some rt /\ active rt <> None.

(** [excused]: sessions that nothing accounts for; [stale]: names that a client is
    bound to although they were gone; [ended]: sessions whose run is over, the
    plugin not yet told. *)
Record inv (excused stale ended : string -> Prop) (p : plugin R) : Prop := {
  v_open : closed (p_mgr p) = false;
  v_repo : exists r, p_repo p = Some r /\ repo_ok r /\ forall sid, sid <> "current" -> is_Some (Get sid (p_mgr p)) -> is_Some (repo_peek sid r);
  v_registered : forall sid i, Get sid (p_mgr p) = Some i -> sid <> "" /\ exists rt, p_rts p !! i = Some rt /\ RID rt = sid /\ retired rt = false;
  v_next : forall i, is_Some (p_rts p !! i) -> (i < p_next p)%nat;
  v_current : forall c, p_current p = Some c -> exists rt, p_rts p !! c = Some rt /\ retired rt = false /\ (RID rt <> "current" -> Get (RID rt) (p_mgr p) = Some c);
  v_bound : forall sid, bound sid p -> sid <> "current" -> is_Some (Get sid (p_mgr p)) \/ stale sid;
  v_suspended : forall sid, sid ∈ p_suspended p -> running sid p \/ ended sid;
  v_used : forall sid i, Get sid (p_mgr p) = Some i -> p_current p = Some i \/ bound sid p \/ sid ∈ p_suspended p \/ excused sid;
  v_active : forall i rt, p_rts p !! i = Some rt -> active rt <> None -> retired rt = false;
}.

Lemma inv_weaken (E E' S S' D D' : string -> Prop) p : (forall s, E s -> E' s) -> (forall s, S s -> S' s) -> (forall s, D s -> D' s) -> inv E S D p -> inv E' S' D' p.
Proof. intros HE HS HD []. split; try done; [intros s Hb Hs; destruct (v_bound0 s Hb Hs); auto|intros s Hs; destruct (v_suspended0 s Hs); auto|]. intros sid i Hi. destruct (v_used0 sid i Hi) as [|[|[|]]]; auto. Qed.

(** What the invariant looks at. *)
Lemma inv_frame E S D p p' r : p_repo p' = Some r -> repo_ok r -> (forall r0, p_repo p = Some r0 -> forall k, is_Some (repo_peek k r0) -> k <> "current" -> is_Some (Get k (p_mgr p)) -> is_Some (repo_peek k r)) ->
  p_mgr p' = p_mgr p -> p_rts p' = p_rts p -> p_next p' = p_next p -> p_current p' = p_current p -> p_suspended p' = p_suspended p -> p_bindings p' = p_bindings p ->
  inv E S D p -> inv E S D p'.
Proof.
  intros Hr Hok Hk Em Er En Ec Es Eb []. destruct p', p. cbn in *. subst. destruct v_repo0 as (r0 & Hr0 & _ & Hreg). split; cbn in *; try done.
  exists r. split_and!; [done|done|]. intros sid Hs Hg. apply (Hk r0 Hr0); auto.
Qed.

(** ** The pieces *)

Lemma elem_of_Bindings client sid b : client ∈ Bindings sid b <-> b !! client = Some sid.
Proof.
  unfold Bindings. rewrite (merge_sort_Permutation string_le). rewrite list_elem_of_omap. split.
  - intros ([k v] & Hin & Hx). apply elem_of_map_to_list in Hin. cbn in Hx. destruct (String.eqb_spec v sid) as [->|]; [|done]. by injection Hx as ->.
  - intros Hb. exists (client, sid). split; [by apply elem_of_map_to_list|]. cbn. by rewrite String.eqb_refl.
Qed.

Lemma get_remove sid k m : Get k (Remove sid m) = if decide (k = sid) then None else Get k m.
Proof. unfold Get, Remove. cbn. destruct (decide (k = sid)) as [->|]; [by rewrite lookup_delete_eq|by rewrite lookup_delete_ne]. Qed.

Lemma running_same sid p p' : p_mgr p' = p_mgr p -> p_rts p' = p_rts p -> running sid p -> running sid p'.
Proof. unfold running. by intros -> ->. Qed.

(** The suspension of [sid] is over: something else keeps it. *)
Lemma clear_inv E S D p sid : inv (fun s => s = sid \/ E s) S D p -> (forall i, Get sid (p_mgr p) = Some i -> p_current p = Some i \/ bound sid p) -> inv E S D (clearSuspendedRelease sid p).
Proof.
  intros [] Hk. split; cbn; try done.
  - intros s [Hs _]%elem_of_difference. by apply v_suspended0.
  - intros s i Hi. destruct (v_used0 s i Hi) as [|[|[Hs|[->|]]]]; auto.
    + destruct (decide (s = sid)) as [->|Hne]; [destruct (Hk i Hi); auto|]. right; right; left. set_solver.
    + destruct (Hk i Hi); auto.
Qed.

(** [tryReleaseSession] settles a session, whatever it was. *)
Lemma release_inv E S D w p sid : good w -> inv (fun s => s = sid \/ E s) S D p -> inv E S D (tryReleaseSession w sid p).
Proof.
  intros Hw Hi. pose proof Hi as []. unfold tryReleaseSession. destruct (String.eqb_spec sid "") as [->|Hne].
  { split; try done. intros s i Hs. destruct (v_registered0 s i Hs) as [Hs0 _]. destruct (v_used0 s i Hs) as [|[|[|[->|]]]]; auto; done. }
  destruct (Bindings sid (p_bindings p)) as [|client cs] eqn:Eb.
  2:{ apply clear_inv; [done|]. intros i _. right. exists client. apply elem_of_Bindings. rewrite Eb. by left. }
  assert (Hnb : ~ bound sid p). { intros [cl Hcl]. apply elem_of_Bindings in Hcl. rewrite Eb in Hcl. by apply elem_of_nil in Hcl. }
  destruct (Get sid (p_mgr p)) as [i|] eqn:Eg; [|by apply clear_inv; [done|]; rewrite Eg].
  unfold currentSessionIs. destruct (bool_decide_reflect (p_current p = Some i)) as [Ec|Ec].
  { apply clear_inv; [done|]. rewrite Eg. intros j [= <-]. by left. }
  destruct (v_registered0 sid i Eg) as (_ & rt & Hrt & Hid & Hret). rewrite Hrt. cbn [fmap option_fmap option_map]. unfold Retire. destruct (active rt) as [run|] eqn:Ea.
  - split; cbn; try done.
    + intros s [->%elem_of_singleton|Hs]%elem_of_union; [|by apply v_suspended0]. left. exists i, rt. split_and!; [done|done|by rewrite Ea].
    + intros s j Hs. destruct (v_used0 s j Hs) as [|[|[|[->|]]]]; auto; right; right; left; set_solver.
  - set (p1 := with_hubs _ _). assert (Hp1 : p_mgr p1 = Remove sid (p_mgr p) /\ p_rts p1 = <[i := set_retired rt]> (p_rts p) /\ p_repo p1 = p_repo p) by done.
    assert (Hgoal : inv E S D p1).
    { destruct v_repo0 as (r & Hr & Hok & Hreg).
      change (p_suspended p1) with (p_suspended p ∖ {[sid]}) in *. split; change (p_mgr p1) with (Remove sid (p_mgr p)); change (p_rts p1) with (<[i := set_retired rt]> (p_rts p));
        change (p_repo p1) with (p_repo p); change (p_next p1) with (p_next p); change (p_current p1) with (p_current p); change (p_suspended p1) with (p_suspended p ∖ {[sid]}).
      - done.
      - exists r. split_and!; [done|done|]. intros s Hs. rewrite get_remove. destruct (decide (s = sid)); [by intros [? ?]|]. by apply Hreg.
      - intros s j. rewrite get_remove. destruct (decide (s = sid)) as [|Hs]; [done|]. intros Hj. destruct (v_registered0 s j Hj) as (Hn0 & rt' & Hrt' & Hid' & Hret').
        split; [done|]. exists rt'. split; [|done]. rewrite lookup_insert_ne; [done|]. intros <-. congruence.
      - intros j [x Hj]. apply lookup_insert_Some in Hj as [[<- _]|[_ Hj]]; apply v_next0; by eexists.
      - intros c Hc. destruct (v_current0 c Hc) as (rt' & Hrt' & Hret' & Hg). assert (c <> i) by congruence. exists rt'. split_and!; [by rewrite lookup_insert_ne|done|].
        intros Hcur. rewrite get_remove. specialize (Hg Hcur). destruct (decide (RID rt' = sid)) as [E1|]; [|done]. congruence.
      - intros s Hb Hs. rewrite get_remove. destruct (decide (s = sid)) as [->|]; [by destruct Hnb|]. by apply v_bound0.
      - intros s [Hs Hne']%elem_of_difference. destruct (v_suspended0 s Hs) as [(j & rt' & Hj & Hrt' & Ha)|]; [left|by right].
        exists j, rt'. change (p_mgr p1) with (Remove sid (p_mgr p)); change (p_rts p1) with (<[i := set_retired rt]> (p_rts p)). rewrite get_remove. rewrite decide_False by set_solver. split_and!; [done| |done]. rewrite lookup_insert_ne; [done|]. intros <-. congruence.
      - intros s j. rewrite get_remove. destruct (decide (s = sid)) as [|Hs]; [done|]. intros Hj. destruct (v_used0 s j Hj) as [|[|[|[->|]]]]; auto; [|done]. right; right; left. set_solver.
      - intros j rt' Hj. apply lookup_insert_Some in Hj as [[<- <-]|[_ Hj]]; [cbn; by rewrite Ea|by apply (v_active0 j)]. }
    destruct (negb _); [|done]. pose proof (v_repo _ _ _ _ Hgoal) as (r & Hr & Hok & Hreg). destruct (close_law w sid r Hok Hw) as (Hok' & _ & Hk).
    apply (inv_frame E S D p1 _ (repo_close w sid r)); try done; [change (repo_close w sid <$> p_repo p1 = Some (repo_close w sid r)); by rewrite Hr|].
    intros r0 Hr0 k Hkk _ Hg. assert (r0 = r) as -> by congruence. apply Hk; [|done]. intros ->. change (p_mgr p1) with (Remove sid (p_mgr p)) in Hg. rewrite get_remove, decide_True in Hg by done. by destruct Hg.
Qed.

(** The binding of a client goes to [sid]; what it leaves is settled. *)
Lemma rebound_inv E S D p b l client prev sid :
  inv E S D p -> (forall c s, b !! c = Some s -> p_bindings p !! c = Some s \/ c = client /\ s = sid) -> (forall c s, p_bindings p !! c = Some s -> b !! c = Some s \/ s = prev \/ s = sid /\ b !! client = Some sid) ->
  (sid <> "current" -> bound sid (with_control l b p) -> is_Some (Get sid (p_mgr p)) \/ S sid) -> inv (fun s => s = prev \/ E s) S D (with_control l b p).
Proof.
  intros [] Hnew Hold Hsid. split; try done.
  - intros s [c Hc] Hs. destruct (Hnew c s Hc) as [Hp|[-> ->]]; [apply v_bound0; [by exists c|done]|]. apply Hsid; [done|]. by exists client.
  - intros s i Hi. destruct (v_used0 s i Hi) as [|[[c Hc]|[|]]]; auto. destruct (Hold c s Hc) as [|[->|[-> ?]]]; [right; left; by exists c|auto|right; left; by exists client].
Qed.

Lemma excuse_inv E E' S S' D p : inv E S D p -> (forall s, E s -> s = "" \/ E' s) -> (forall s, S s -> S' s) -> inv E' S' D p.
Proof.
  intros [] He Hs. split; try done; [intros s Hb Hc; destruct (v_bound0 s Hb Hc); auto|]. intros s i Hi. destruct (v_registered0 s i Hi) as [Hne _].
  destruct (v_used0 s i Hi) as [|[|[|Hx]]]; auto. destruct (He s Hx) as [->|]; [done|auto].
Qed.

Lemma bind_inv E S D w client sid p : good w -> client <> "" -> sid <> "" -> (sid <> "current" -> is_Some (Get sid (p_mgr p)) \/ S sid) ->
  inv (fun s => s = sid \/ E s) S D p -> inv E S D (BindConnectionSession w client sid p).
Proof.
  intros Hw Hc Hsne Hsid Hi. unfold BindConnectionSession, Bind. apply String.eqb_neq in Hc as Hc'. apply String.eqb_neq in Hsne as Hs'. rewrite Hc', Hs'.
  set (prev := default "" (p_bindings p !! client)).
  assert (Hb : forall b, b !! client = Some sid -> (forall c, c <> client -> b !! c = p_bindings p !! c) -> (prev = sid -> b = p_bindings p) ->
    inv (fun s => s = prev \/ E s) S D (with_control (p_leases p) b p) /\ (prev = sid -> inv E S D (with_control (p_leases p) b p))).
  { intros b Hb1 Hb2 Hb3. assert (Hbd : bound sid (with_control (p_leases p) b p)) by (by exists client).
    assert (Hgen : inv (fun s => s = prev \/ (s = sid \/ E s)) S D (with_control (p_leases p) b p)).
    { apply (rebound_inv _ S D p b _ client prev sid Hi); [| |auto].
      - intros c s Hcs. destruct (decide (c = client)) as [->|Hn]; [right; split; congruence|left; by rewrite <- Hb2].
      - intros c s Hcs. destruct (decide (c = client)) as [->|Hn]; [right; left; subst prev; by rewrite Hcs|left; by rewrite Hb2]. }
    assert (Hred : forall X, inv (fun s => s = prev \/ (s = sid \/ E s)) S D X -> bound sid X -> inv (fun s => s = prev \/ E s) S D X).
    { intros X [] HbX. split; try done. intros s i Hsi. destruct (v_used0 s i Hsi) as [|[|[|[|[->|]]]]]; auto. }
    split; [by apply Hred|]. intros Hps. destruct (Hred _ Hgen Hbd). split; try done. intros s i Hsi. destruct (v_used0 s i Hsi) as [|[|[|[->|]]]]; auto. right; left. by rewrite Hps. }
  destruct (String.eqb_spec prev sid) as [Eps|Eps].
  - destruct (Hb (p_bindings p)) as [_ Hdone]; [|done|done|].
    { subst prev. destruct (p_bindings p !! client) as [x|]; cbn in Eps; [by subst|]. by subst sid. }
    rewrite (proj2 (String.eqb_eq prev sid) Eps), andb_false_r. by apply Hdone.
  - destruct (Hb (<[client := sid]> (p_bindings p))) as [Hmain _]; [by rewrite lookup_insert_eq|intros c Hn; by rewrite lookup_insert_ne|done|]. rewrite (proj2 (String.eqb_neq prev sid) Eps), andb_true_r.
    destruct (String.eqb_spec prev "") as [Ep|Ep]; cbn [negb].
    + apply (excuse_inv _ _ _ _ _ _ Hmain); [|done]. intros s [->|]; auto.
    + by apply release_inv.
Qed.

Lemma dropped_inv E S D l client p : inv E S D p -> inv (fun s => s = default "" (p_bindings p !! client) \/ E s) S D (with_control l (delete client (p_bindings p)) p).
Proof.
  intros Hi. apply (rebound_inv _ S D p _ _ client _ ""); [done| | |].
  - intros c s [_ Hcs]%lookup_delete_Some. by left.
  - intros c s Hcs. destruct (decide (c = client)) as [->|Hn]; [right; left; by rewrite Hcs|left; by rewrite lookup_delete_ne].
  - intros _ [c Hcs]. change (delete client (p_bindings p) !! c = Some "") in Hcs. apply lookup_delete_Some in Hcs as [_ Hcs]. apply (v_bound _ _ _ _ Hi ""); [by exists c|done].
Qed.

Lemma disconnect_inv E S D w client p : good w -> inv E S D p -> inv E S D (SessionLifecycle.ReleaseConnection w client p).
Proof.
  intros Hw Hi. unfold SessionLifecycle.ReleaseConnection, Unbind. destruct (String.eqb_spec client "") as [->|Hc].
  - change (negb (String.eqb "" "")) with false. cbv iota. pose proof (v_repo _ _ _ _ Hi) as (r & Hr & Hok & _). apply (inv_frame E S D p _ r); try done. intros r0 Hr0. by assert (r0 = r) as -> by congruence.
  - set (prev := default "" (p_bindings p !! client)).
    pose proof (dropped_inv E S D (ControlLease.ReleaseConnection client (p_leases p)) client p Hi) as Hmain. fold prev in Hmain.
    destruct (String.eqb_spec prev "") as [Ep|Ep]; cbn [negb].
    + apply (excuse_inv _ _ _ _ _ _ Hmain); [|done]. intros s [->|]; auto.
    + by apply release_inv.
Qed.

(** Working directories are declared in the stores of the cache. *)
Lemma declare_inv E S D w i cwd p : good (w_repo w) -> inv E S D p -> inv E S D (declareSessionCWD Abs EvalSymlinks TempDir Getuid AllowedWorkDir w i cwd p)
  /\ p_mgr (declareSessionCWD Abs EvalSymlinks TempDir Getuid AllowedWorkDir w i cwd p) = p_mgr p.
Proof.
  intros Hw Hi. pose proof (v_repo _ _ _ _ Hi) as (r & Hr & Hok & _).
  assert (Happly : forall c rec, inv E S D (applySessionCWD Abs EvalSymlinks TempDir Getuid AllowedWorkDir (w_repo w) i c rec p)
    /\ p_mgr (applySessionCWD Abs EvalSymlinks TempDir Getuid AllowedWorkDir (w_repo w) i c rec p) = p_mgr p).
  { intros c rec. unfold applySessionCWD. destruct (negb _).
    - split; [|done]. apply (inv_frame E S D p _ r); try done. intros r0 Hr0. by assert (r0 = r) as -> by congruence.
    - cbv zeta. set (p1 := match storeFor i p with Some f => _ | None => p end).
      assert (H1 : (exists r1, p_repo p1 = Some r1 /\ repo_ok r1 /\ forall k, is_Some (repo_peek k r) -> is_Some (repo_peek k r1)) /\ p_mgr p1 = p_mgr p /\ p_rts p1 = p_rts p /\ p_next p1 = p_next p
        /\ p_current p1 = p_current p /\ p_suspended p1 = p_suspended p /\ p_bindings p1 = p_bindings p).
      { subst p1. destruct (storeFor i p) as [f|]; [destruct (rec && _)|]; try (split_and!; try done; exists r; by split_and!).
        split_and!; try done. destruct (declare_law (w_repo w) (st_id f) c r Hok Hw) as [Hok1 Hk]. exists (repo_declare (w_repo w) (st_id f) c r).
        split_and!; [cbn; by rewrite Hr|done|]. intros k. apply Hk. }
      clearbody p1. destruct H1 as ((r1 & Hr1 & Hok1 & Hk) & Em & Er & En & Ec & Es & Eb). unfold SetCWD, DeclareCWD. cbn [p_rts with_cwds].
      destruct (p_rts p1 !! i ≫= session); (split; [|done]); (apply (inv_frame E S D p _ r1); try done; intros r0 Hr0 k Hkk _ _; assert (r0 = r) as -> by congruence; by apply Hk). }
  unfold declareSessionCWD. destruct (String.eqb cwd ""); [|apply Happly]. destruct (w_mkdir w); [destruct (p_rts p !! i); [apply Happly|done]|].
  split; [|done]. apply (inv_frame E S D p _ r); try done. intros r0 Hr0. by assert (r0 = r) as -> by congruence.
Qed.

(** The cache grows by the store of [sid] at most. *)
Lemma repo_grows_inv E S D p r' : inv E S D p -> repo_ok r' -> (forall r, p_repo p = Some r -> forall k, is_Some (repo_peek k r) -> is_Some (repo_peek k r')) -> inv E S D (with_repo (Some r') p).
Proof. intros Hi Hok Hk. apply (inv_frame E S D p _ r'); try done. intros r0 Hr0 k Hkk _ _. by apply (Hk r0). Qed.

(** A new runtime, and the manager if the name is free there. *)
Lemma enter_inv E E' S D p rt cwds exec cur : inv E S D p -> RID rt <> "" -> retired rt = false -> active rt = None ->
  (RID rt <> "current" -> forall r, p_repo p = Some r -> is_Some (repo_peek (RID rt) r)) -> (forall s, E s -> E' s) ->
  (cur = p_current p /\ E' (RID rt) \/ cur = Some (p_next p) /\ (RID rt <> "current" -> Get (RID rt) (p_mgr p) = None) /\ forall c rt', p_current p = Some c -> p_rts p !! c = Some rt' -> E' (RID rt')) ->
  inv E' S D (mkPlugin (Register (p_next p) rt (p_mgr p)).1 (<[p_next p := rt]> (p_rts p)) (Datatypes.S (p_next p)) cwds exec (p_hubs p) cur (p_suspended p) (p_leases p) (p_bindings p) (p_repo p)).
Proof.
  intros [] Hne Hret Hact Hpk HE Hcur. set (m := (Register _ _ _).1).
  assert (Hnew : p_rts p !! p_next p = None). { destruct (p_rts p !! p_next p) eqn:En; [|done]. assert (p_next p < p_next p)%nat by (apply v_next0; by eexists). lia. }
  assert (Hm : closed m = false /\ forall s, Get s m = if decide (s = RID rt /\ Get s (p_mgr p) = None) then Some (p_next p) else Get s (p_mgr p)).
  { subst m. unfold Register. rewrite v_open0, Hret. unfold Get. destruct (runtimes (p_mgr p) !! RID rt) as [j|] eqn:Ej; cbn.
    - split; [done|]. intros s. destruct (decide _) as [[-> ?]|]; [congruence|done].
    - split; [done|]. intros s. destruct (decide _) as [[-> _]|Hn]; [by rewrite lookup_insert_eq|]. rewrite lookup_insert_ne; [done|]. intros <-. by apply Hn. }
  destruct Hm as [Hcl Hget]. clearbody m.
  assert (Hkeep : forall s i, Get s (p_mgr p) = Some i -> Get s m = Some i). { intros s i Hi. rewrite Hget. destruct (decide _) as [[_ ?]|]; [congruence|done]. }
  assert (Hold : forall j rt', p_rts p !! j = Some rt' -> <[p_next p := rt]> (p_rts p) !! j = Some rt'). { intros j rt' Hj. rewrite lookup_insert_ne; [done|]. intros <-. congruence. }
  destruct v_repo0 as (r & Hr & Hok & Hreg). split; cbn [p_mgr p_repo p_rts p_next p_current p_suspended p_bindings].
  - done.
  - exists r. split_and!; [done|done|]. intros s Hs. rewrite Hget. destruct (decide _) as [[-> _]|]; [intros _; by apply Hpk|by apply Hreg].
  - intros s i. rewrite Hget. destruct (decide _) as [[-> _]|]; [intros [= <-]; split; [done|]; exists rt; by rewrite lookup_insert_eq|].
    intros Hi. destruct (v_registered0 s i Hi) as (Hs & rt' & Hrt' & Hr'). split; [done|]. exists rt'. split; [by apply Hold|done].
  - intros i [x [[<- _]|[_ Hi]]%lookup_insert_Some]; [lia|]. assert (i < p_next p)%nat by (apply v_next0; by eexists). lia.
  - intros c Hc. destruct Hcur as [[-> _]|(-> & Hfree & _)].
    + destruct (v_current0 c Hc) as (rt' & Hrt' & Hr' & Hg). exists rt'. split_and!; [by apply Hold|done|]. intros Hcur. by apply Hkeep, Hg.
    + injection Hc as <-. exists rt. rewrite lookup_insert_eq. split_and!; [done|done|]. intros Hn. rewrite Hget. rewrite decide_True; [done|]. auto.
  - intros s Hb Hs. destruct (v_bound0 s Hb Hs) as [[i Hi]|]; [left; exists i; by apply Hkeep|by right].
  - intros s Hs. destruct (v_suspended0 s Hs) as [(i & rt' & Hi & Hrt' & Ha)|]; [left|by right]. exists i, rt'. cbn [p_mgr p_rts]. split_and!; [by apply Hkeep|by apply Hold|done].
  - intros s i. rewrite Hget. destruct (decide _) as [[-> _]|].
    + intros [= <-]. destruct Hcur as [[_ ?]|(-> & _)]; auto.
    + intros Hi. destruct (v_used0 s i Hi) as [Hc|[|[|]]]; auto. destruct Hcur as [[-> _]|(_ & _ & Hx)]; [by left|]. right; right; right.
      destruct (v_registered0 s i Hi) as (_ & rt' & Hrt' & <- & _). by apply (Hx i).
  - intros i rt' [[<- <-]|[_ Hi]]%lookup_insert_Some; [by rewrite Hact|by apply (v_active0 i)].
Qed.

Lemma mount_inv E S D f p : inv E S D p -> st_id f <> "" -> (forall r, p_repo p = Some r -> is_Some (repo_peek (st_id f) r)) ->
  match mountRuntime f p with
  | (p', Ok i) => inv (fun s => s = st_id f \/ E s) S D p' /\ Get (st_id f) (p_mgr p') = Some i
  | (p', Prelude.Err _) => p' = p
  end.
Proof.
  intros Hi Hne Hpk. unfold mountRuntime. set (rt := if st_archived f then _ else _).
  assert (Hrt : RID rt = st_id f /\ retired rt = false /\ active rt = None) by (subst rt; by destruct (st_archived f)). clearbody rt. destruct Hrt as (Hid & Hret & Hact).
  rewrite <- Hid in *. pose proof (enter_inv E (fun s => s = RID rt \/ E s) S D p rt (p_cwds p) (p_exec p) (p_current p) Hi Hne Hret Hact (fun _ => Hpk)) as Hin.
  pose proof (v_open _ _ _ _ Hi) as Hop. unfold Register in *. rewrite Hop, Hret in *. destruct (runtimes (p_mgr p) !! RID rt) eqn:Ej; [done|].
  split; [apply Hin; auto|]. unfold Get. cbn. by rewrite lookup_insert_eq.
Qed.

(** The next boundary: the session that was current is left. *)
Lemma boundary_inv E E' S D w legacy p : good (w_repo w) -> inv E S D p -> (legacy = None \/ forall s, Get s (p_mgr p) = None) -> (forall s, E s -> E' s) ->
  (forall c rt, p_current p = Some c -> p_rts p !! c = Some rt -> E' (RID rt)) -> inv E' S D (startSession TempDir Getuid w legacy p).
Proof.
  intros Hw Hi Hleg HE Hcur. pose proof (v_repo _ _ _ _ Hi) as (r & Hr & Hok & Hreg). unfold startSession.
  assert (Ho : exists r' st, openSessionStore (w_repo w) legacy p = (with_repo (Some r') p, st) /\ repo_ok r' /\ (forall k, is_Some (repo_peek k r) -> is_Some (repo_peek k r')) /\ match st with Some f => st_id f <> "" /\ is_Some (repo_peek (st_id f) r') /\ (st_id f <> "current" -> Get (st_id f) (p_mgr p) = None) | None => True end).
  { unfold openSessionStore. rewrite Hr. destruct legacy as [id|].
    - destruct Hleg as [|Hnone]; [done|]. destruct (repo_open (w_repo w) id r) as [r' res] eqn:Eo. destruct (open_law _ _ _ _ _ Hok Hw Eo) as [Hok' Hres].
      exists r', (match res with OpenedStore f => Some f | _ => None end). split; [by destruct res|]. split; [done|]. destruct res as [f| |]; [|split; [intros k; apply Hres|done]..].
      destruct Hres as (Hid & Hin & Hk). split; [intros k Hkk; destruct (decide (k = id)) as [->|]; [done|by apply Hk]|]. rewrite Hid. split_and!; [|done|by intros _].
      destruct Hin as [g Hg]. by apply (peek_named _ _ _ Hok' Hg).
    - destruct (repo_create (w_repo w) "" r) as [r' res] eqn:Eo. destruct (create_law _ _ _ _ _ Hok Hw Eo) as [Hok' Hres].
      exists r', res. split; [done|]. split; [done|]. destruct res as [f|]; [|split; [intros k; apply Hres|done]].
      destruct Hres as (Hnone & Hin & Hk). split; [intros k Hkk; destruct (decide (k = st_id f)) as [->|]; [done|by apply Hk]|]. split_and!; [|done|].
      + destruct Hin as [g Hg]. by apply (peek_named _ _ _ Hok' Hg).
      + intros Hn. destruct (Get (st_id f) (p_mgr p)) eqn:Eg; [|done]. destruct (Hreg (st_id f) Hn) as [g Hg]; [by eexists|]. congruence. }
  destruct Ho as (r' & st & -> & Hok' & Hk & Hst). set (id := match st with Some f => st_id f | None => "current" end).
  assert (Hid : id <> "" /\ (id <> "current" -> is_Some (repo_peek id r') /\ Get id (p_mgr p) = None)). { subst id. destruct st as [f|]; [|done]. destruct Hst as (? & ? & ?). auto. }
  cbv zeta. set (cwds := if _ && negb _ then _ else _). set (cwd := if _ && _ then _ else _).
  assert (Hi' : inv E S D (with_repo (Some r') p)). { apply (inv_frame E S D p _ r'); try done. intros r0 Hr0 k Hkk _ _. assert (r0 = r) as -> by congruence. by apply Hk. }
  refine (enter_inv E E' S D (with_repo (Some r') p) (NewSessionRuntime id _) cwds _ (Some (p_next p)) Hi' _ _ _ _ HE _); cbn.
  - apply Hid.
  - done.
  - done.
  - intros Hn r0 [= <-]. by apply Hid.
  - right. split_and!; [done| |done]. intros Hn. by apply Hid.
Qed.

(** What happens to one runtime: it keeps its name. *)
Lemma runtime_inv E S D i rt rt' p : inv E S D p -> p_rts p !! i = Some rt -> RID rt' = RID rt -> retired rt' = retired rt -> (active rt' <> None -> retired rt = false) ->
  inv E S (fun s => D s \/ s = RID rt /\ active rt <> None /\ active rt' = None) (with_rts (<[i := rt']> (p_rts p)) p).
Proof.
  intros [] Hrt Hid Hret Hact.
  assert (Hl : forall j x, p_rts p !! j = Some x -> exists x', <[i := rt']> (p_rts p) !! j = Some x' /\ RID x' = RID x /\ retired x' = retired x /\ (j <> i -> x' = x)).
  { intros j x Hj. destruct (decide (j = i)) as [->|Hn]; [exists rt'; rewrite lookup_insert_eq; assert (x = rt) as -> by congruence; by split_and!|exists x; by rewrite lookup_insert_ne]. }
  split; cbn; try done.
  - intros s j Hj. destruct (v_registered0 s j Hj) as (Hs & x & Hx & Hxi & Hxr). destruct (Hl j x Hx) as (x' & Hx' & H1 & H2 & _). split; [done|]. exists x'. split_and!; congruence.
  - intros j [x [[<- _]|[_ Hj]]%lookup_insert_Some]; apply v_next0; by eexists.
  - intros c Hc. destruct (v_current0 c Hc) as (x & Hx & Hxr & Hg). destruct (Hl c x Hx) as (x' & Hx' & H1 & H2 & _). exists x'. rewrite H1, H2. by split_and!.
  - intros s Hs. destruct (v_suspended0 s Hs) as [(j & x & Hj & Hx & Ha)|]; [|auto]. destruct (Hl j x Hx) as (x' & Hx' & H1 & H2 & H3).
    destruct (active x') eqn:Ea; [left; exists j, x'; cbn; split_and!; [done|done|by rewrite Ea]|]. right; right.
    destruct (decide (j = i)) as [->|Hn]; [|rewrite (H3 Hn) in Ea; congruence]. assert (x = rt) as -> by congruence. rewrite lookup_insert_eq in Hx'. injection Hx' as <-.
    destruct (v_registered0 s i Hj) as (_ & y & Hy & <- & _). assert (y = rt) as -> by congruence. done.
  - intros j x [[<- <-]|[_ Hj]]%lookup_insert_Some; [rewrite Hret; by apply Hact|by apply (v_active0 j)].
Qed.
(** ** The operations *)

Lemma done_inv E S D w sid p : good w -> inv E S D p -> inv E S (fun s => D s /\ s <> sid) (onSessionRunDone w sid p).
Proof.
  intros Hw Hi. unfold onSessionRunDone, takeSuspendedRelease. destruct (bool_decide_reflect (sid ∈ p_suspended p)) as [Hs|Hs].
  - apply release_inv; [done|]. destruct Hi. split; try done.
    + intros s Hin0. change (s ∈ p_suspended p ∖ {[sid]}) in Hin0. apply elem_of_difference in Hin0 as [Hin Hn]. destruct (v_suspended0 s Hin) as [|]; [by left|right; split; [done|set_solver]].
    + intros s i Hsi. destruct (decide (s = sid)) as [->|Hn]; [auto|]. destruct (v_used0 s i Hsi) as [|[|[|]]]; auto. right; right; left. cbn. set_solver.
  - destruct Hi. split; try done. intros s Hin. destruct (v_suspended0 s Hin) as [|]; [by left|right; split; [done|congruence]].
Qed.

Lemma create_inv E S D w cwd p : good (w_repo w) -> good (w_close w) -> inv E S D p ->
  match CreateBoundSession Abs EvalSymlinks TempDir Getuid AllowedWorkDir w cwd p with
  | (p', Ok sid) => inv (fun s => s = sid \/ E s) S D p'
  | (p', Prelude.Err _) => inv E S D p'
  end.
Proof.
  intros Hw Hc Hi. pose proof (v_repo _ _ _ _ Hi) as (r & Hr & Hok & Hreg). unfold CreateBoundSession. rewrite Hr.
  destruct (normalizeSessionCWD Abs cwd) as [d|]; [|done]. destruct (negb _); [done|].
  destruct (repo_create (w_repo w) d r) as [r' [f|]] eqn:Eo; destruct (create_law _ _ _ _ _ Hok Hw Eo) as [Hok' Hres].
  2:{ apply repo_grows_inv; [done|done|]. intros r0 Hr0 k. assert (r0 = r) as -> by congruence. apply Hres. }
  destruct Hres as (Hnone & Hin & Hk).
  assert (Hi' : inv E S D (with_repo (Some r') p)).
  { apply repo_grows_inv; [done|done|]. intros r0 Hr0 k Hkk. assert (r0 = r) as -> by congruence. destruct (decide (k = st_id f)) as [->|]; [done|by apply Hk]. }
  pose proof Hin as [g Hg]. assert (Hne : st_id f <> "") by apply (peek_named _ _ _ Hok' Hg).
  pose proof (mount_inv E S D f (with_repo (Some r') p) Hi' Hne) as Hm. destruct (mountRuntime f (with_repo (Some r') p)) as [p' [i|e]] eqn:Em.
  - destruct Hm as [Hm _]; [by intros r0 [= <-]|]. by apply declare_inv.
  - rewrite Hm by (by intros r0 [= <-]). destruct (close_law (w_close w) (st_id f) r' Hok' Hc) as (Hok2 & _ & Hk2).
    apply (inv_frame E S D p _ (repo_close (w_close w) (st_id f) r')); try done. intros r0 Hr0 k Hkk Hn Hg0. assert (r0 = r) as -> by congruence.
    assert (k <> st_id f). { intros ->. rewrite Hnone in Hkk. by destruct Hkk. } apply Hk2; [done|]. by apply Hk.
Qed.

Lemma route_get E S D sid i p : inv E S D p -> RouteSession sid p = Some i -> sid <> "" -> sid <> "current" -> is_Some (Get sid (p_mgr p)).
Proof.
  intros Hi. unfold RouteSession. destruct (p_current p) as [c|] eqn:Ec; cbn; [|by eexists]. destruct (v_current _ _ _ _ Hi c Ec) as (rt & Hrt & _ & Hg). rewrite Hrt. cbn.
  destruct (String.eqb_spec sid (RID rt)) as [->|]; cbn; [intros _ _ Hn; rewrite (Hg Hn); by eexists|]. destruct (String.eqb_spec sid ""); [done|]. cbn. by eexists.
Qed.

Lemma route_none sid p : RouteSession sid p = None -> Get sid (p_mgr p) = None.
Proof. unfold RouteSession. destruct (p_current p ≫= _) as [[i rt]|]; [|done]. by destruct (_ || _). Qed.

Lemma load_inv E S D w sid cwd p : good (w_repo w) -> inv E S D p ->
  match LoadBoundSession Abs EvalSymlinks TempDir Getuid AllowedWorkDir w sid cwd p with
  | (p', None) => inv (fun s => s = sid \/ E s) S D p' /\ (sid <> "" -> sid <> "current" -> is_Some (Get sid (p_mgr p')))
  | (p', Some _) => inv E S D p'
  end.
Proof.
  intros Hw Hi. unfold LoadBoundSession. destruct (RouteSession sid p) as [i|] eqn:Er.
  - pose proof (route_get E S D sid i p Hi Er) as Hg. assert (Hi' : inv (fun s => s = sid \/ E s) S D p) by (apply (inv_weaken E _ S S D D p); auto).
    assert (Hdone : forall c, inv (fun s => s = sid \/ E s) S D (if String.eqb c "" then p else declareSessionCWD Abs EvalSymlinks TempDir Getuid AllowedWorkDir w i c p)
      /\ (sid <> "" -> sid <> "current" -> is_Some (Get sid (p_mgr (if String.eqb c "" then p else declareSessionCWD Abs EvalSymlinks TempDir Getuid AllowedWorkDir w i c p))))).
    { intros c. destruct (String.eqb c ""); [by split|]. destruct (declare_inv _ S D w i c p Hw Hi') as [H1 ->]. by split. }
    destruct (p_rts p !! i ≫= session); [destruct (w_reload w)|]; [apply Hdone|done|apply Hdone].
  - pose proof (v_repo _ _ _ _ Hi) as (r & Hr & Hok & _). rewrite Hr.
    destruct (repo_open (w_repo w) sid r) as [r' res] eqn:Eo; destruct (open_law _ _ _ _ _ Hok Hw Eo) as [Hok' Hres].
    assert (Hgrow : (forall k, is_Some (repo_peek k r) -> is_Some (repo_peek k r')) -> inv E S D (with_repo (Some r') p)).
    { intros Hk. apply repo_grows_inv; [done|done|]. intros r0 Hr0 k. assert (r0 = r) as -> by congruence. apply Hk. }
    destruct res as [f| |]; [|apply Hgrow; apply Hres..]. destruct Hres as (Hid & Hin & Hk).
    specialize (Hgrow (fun k Hkk => match decide (k = sid) with left e => eq_rect_r (fun k => is_Some (repo_peek k r')) Hin e | right n => proj2 (Hk k n) Hkk end)).
    rewrite <- Hid in *. pose proof Hin as [g Hg]. assert (Hne : st_id f <> "") by apply (peek_named _ _ _ Hok' Hg).
    pose proof (mount_inv E S D f (with_repo (Some r') p) Hgrow Hne) as Hm. destruct (mountRuntime f (with_repo (Some r') p)) as [p' [i|e]] eqn:Em.
    + destruct Hm as [Hm Hgm]; [by intros r0 [= <-]|]. cbv zeta. destruct (declare_inv _ S D w i (if String.eqb (normalizeSessionCWDSilent Abs cwd) "" then st_workspace f else normalizeSessionCWDSilent Abs cwd) p' Hw Hm) as [H1 H2].
      split; [done|]. intros _ _. rewrite H2, Hgm. by eexists.
    + rewrite Hm by (by intros r0 [= <-]). done.
Qed.
Lemma opened_inv E S D w sid r r' res p : good w -> inv E S D p -> p_repo p = Some r -> repo_open w sid r = (r', res) -> inv E S D (with_repo (Some r') p).
Proof.
  intros Hw Hi Hr Eo. pose proof (v_repo _ _ _ _ Hi) as (r0 & Hr0 & Hok & _). assert (r0 = r) as -> by congruence.
  destruct (open_law _ _ _ _ _ Hok Hw Eo) as [Hok' Hres]. apply repo_grows_inv; [done|done|]. intros r1 Hr1 k Hk. assert (r1 = r) as -> by congruence.
  destruct res as [f| |]; [|by apply Hres..]. destruct Hres as (_ & Hin & Hks). destruct (decide (k = sid)) as [->|]; [done|by apply Hks].
Qed.

(** A store that no runtime has is closed. *)
Lemma closed_inv E S D w sid p : good w -> inv E S D p -> Get sid (p_mgr p) = None -> inv E S D (map_repo (repo_close w sid) p).
Proof.
  intros Hw Hi Hg. pose proof (v_repo _ _ _ _ Hi) as (r & Hr & Hok & _). destruct (close_law w sid r Hok Hw) as (Hok' & _ & Hk).
  apply (inv_frame E S D p _ (repo_close w sid r)); try done; [by cbn; rewrite Hr|]. intros r0 Hr0 k Hkk _ Hgk. assert (r0 = r) as -> by congruence.
  apply Hk; [|done]. intros ->. rewrite Hg in Hgk. by destruct Hgk.
Qed.

Lemma archived_inv E S D w sid p : good w -> inv E S D p -> inv E S D (SessionArchived w sid p).1.
Proof.
  intros Hw Hi. unfold SessionArchived. destruct (p_repo p) as [r|] eqn:Hr; [|done]. destruct (repo_open w sid r) as [r' res] eqn:Eo.
  pose proof (opened_inv E S D w sid r r' res p Hw Hi Hr Eo). by destruct res.
Qed.

Lemma history_inv E S D w wc sid p : good w -> good wc -> inv E S D p -> inv E S D (archived_history w wc sid p).1.
Proof.
  intros Hw Hwc Hi. unfold archived_history. destruct (p_repo p) as [r|] eqn:Hr; [|done]. destruct (repo_open w sid r) as [r' res] eqn:Eo.
  pose proof (opened_inv E S D w sid r r' res p Hw Hi Hr Eo) as Hi'. destruct res as [f| |]; [|done..]. cbv zeta. destruct (st_archived f); [|done].
  destruct (RouteSession sid _) eqn:Er; [done|]. apply closed_inv; [done|done|by apply route_none].
Qed.

Lemma marked_inv E S D w k r p : good w -> inv E S D p -> p_repo p = Some r -> inv E S D (with_repo (Some (repo_mark w k r).1) p).
Proof.
  intros Hw Hi Hr. pose proof (v_repo _ _ _ _ Hi) as (r0 & Hr0 & Hok & _). assert (r0 = r) as -> by congruence. destruct (mark_law w k r Hok Hw) as [Hok' Hk].
  apply repo_grows_inv; [done|done|]. intros r1 Hr1 j. assert (r1 = r) as -> by congruence. apply Hk.
Qed.

Lemma control_inv E S D l p : inv E S D p -> inv E S D (with_control l (p_bindings p) p).
Proof. intros Hi. pose proof (v_repo _ _ _ _ Hi) as (r & Hr & Hok & _). apply (inv_frame E S D p _ r); try done. intros r0 Hr0. by assert (r0 = r) as -> by congruence. Qed.

Lemma archive_inv E S D w sid client p : good (w_repo w) -> good (w_close w) -> inv E S D p -> inv E S D (ArchiveSession w sid client p).1.
Proof.
  intros Hw Hc Hi. unfold ArchiveSession. destruct (p_repo p) as [r|] eqn:Hr; [|done]. destruct (RouteSession sid p) as [i|] eqn:Er.
  - destruct (storeFor i p) as [f|]; [|done]. unfold WithControl. destruct (negb _); [by apply control_inv|]. destruct (isSuspendedRelease sid p); [by apply control_inv|].
    destruct (p_rts p !! i) as [rt|] eqn:Ert; cbn [fmap option_fmap option_map]; [|by apply control_inv]. unfold archive_begin. destruct (active rt) as [run|] eqn:Ea; [by apply control_inv|].
    pose proof (marked_inv E S D (w_repo w) (st_id f) r p Hw Hi Hr) as Hm. destruct (repo_mark (w_repo w) (st_id f) r) as [r' ok]. cbn in Hm.
    set (rt' := archive_end ok _). assert (Hrt' : RID rt' = RID rt /\ retired rt' = retired rt /\ active rt' = None) by (subst rt'; by destruct ok). destruct Hrt' as (H1 & H2 & H3).
    assert (Hin : inv E S D (with_rts (<[i := rt']> (p_rts p)) (with_repo (Some r') p))).
    { refine (inv_weaken E E S S _ D _ _ _ _ (runtime_inv E S D i rt rt' (with_repo (Some r') p) Hm Ert H1 H2 _)); [auto|auto| |by rewrite H3]. intros s [|(_ & Hx & _)]; [done|by rewrite Ea in Hx]. }
    destruct ok; exact (control_inv E S D _ _ Hin).
  - destruct (repo_open (w_repo w) sid r) as [r' res] eqn:Eo. pose proof (opened_inv E S D (w_repo w) sid r r' res p Hw Hi Hr Eo) as Hi'. destruct res as [f| |]; [|done..].
    pose proof (marked_inv E S D (w_repo w) sid r' _ Hw Hi' eq_refl) as Hm. apply route_none in Er.
    unfold WithControl. destruct (negb _); cbn [fst]; [apply closed_inv; [done|by apply control_inv|done]|]. destruct (repo_mark (w_repo w) sid r') as [r2 ok]. cbn in Hm.
    destruct ok; cbn [fst]; (apply closed_inv; [done| |done]); exact (control_inv E S D _ _ Hm).
Qed.

(** /new: what it leaves behind are the session that was current and the binding
    of the client, when they are others than the session it settles. *)
Definition name_of (i : option nat) (p : plugin R) : string := match i ≫= fun i => p_rts p !! i with Some rt => RID rt | None => "" end.

Lemma new_inv E S D w client binding p : good (w_repo w) -> good (w_close w) -> inv E S D p ->
  match handleNew TempDir Getuid w client binding p, sessionRuntimeIn binding p with
  | (p', Ok _), Ok old => inv (fun s => (s = name_of (p_current p) p \/ s = default "" (p_bindings p !! client) \/ E s) /\ s <> name_of old p) S D p'
  | (p', _), _ => inv E S D p'
  end.
Proof.
  intros Hw Hc Hi. unfold handleNew. destruct (sessionRuntimeIn binding p) as [[old|]|e] eqn:Es; [|done..]. cbv zeta.
  set (E1 := fun s => s = name_of (p_current p) p \/ E s). set (p1 := startSession _ _ _ _ _).
  assert (H1 : inv E1 S D p1).
  { apply (boundary_inv E E1); [done|done|by left|by right|]. intros c rt Hcur Hrt. left. unfold name_of. rewrite Hcur. cbn. by rewrite Hrt. }
  assert (Hkeep : p_bindings p1 = p_bindings p /\ forall j rt, p_rts p !! j = Some rt -> p_rts p1 !! j = Some rt).
  { subst p1. unfold startSession, openSessionStore. pose proof (v_repo _ _ _ _ Hi) as (r & Hr & _). rewrite Hr. destruct (repo_create _ _ r) as [r' st]. split; [done|]. cbn.
    intros j rt Hj. rewrite lookup_insert_ne; [done|]. intros <-. assert (p_next p < p_next p)%nat by (apply (v_next _ _ _ _ Hi); by eexists). lia. }
  clearbody p1. destruct Hkeep as [Hb Hrts].
  assert (Hold : exists rt, p_rts p !! old = Some rt).
  { unfold sessionRuntimeIn in Es. destruct (String.eqb binding ""); [injection Es as Es; destruct (v_current _ _ _ _ Hi old Es) as (rt & ? & _); by exists rt|].
    destruct (p_current p ≫= _) as [c|] eqn:Ec; [injection Es as ->; apply bind_Some in Ec as (c' & _ & Hx); apply bind_Some in Hx as (rt & Hrt & Hx); case_match; [injection Hx as ->; by exists rt|done]|].
    destruct (Get binding (p_mgr p)) as [j|] eqn:Eg; [injection Es as ->|done]. destruct (v_registered _ _ _ _ Hi _ _ Eg) as (_ & rt & ? & _). by exists rt. }
  destruct Hold as [rt Hrt]. set (p2 := if String.eqb client "" then p1 else _).
  assert (H2 : inv (fun s => s = default "" (p_bindings p !! client) \/ E1 s) S D p2 /\ p_rts p2 = p_rts p1).
  { subst p2. destruct (String.eqb_spec client "") as [->|Hcl]; [split; [|done]; apply (inv_weaken E1 _ S S D D p1); auto|]. split; [|done]. unfold Unbind. apply String.eqb_neq in Hcl as Hcl'. rewrite Hcl', Hb. cbn [snd].
    pose proof (dropped_inv E1 S D (p_leases p1) client p1 H1) as Hd. by rewrite Hb in Hd. }
  destruct H2 as [H2 Hr2]. clearbody p2. rewrite Hr2, (Hrts old rt Hrt). assert (Hname : name_of (Some old) p = RID rt) by (unfold name_of; cbn; by rewrite Hrt). rewrite Hname.
  apply release_inv; [done|]. refine (inv_weaken _ _ S S D D p2 _ _ _ H2); [|auto|auto].
  intros s Hs. destruct (decide (s = RID rt)) as [|Hn]; [by left|right]. split; [|done]. destruct Hs as [|[|]]; auto.
Qed.
(** ** The plugin with its connections and runs *)

(** [loose]: sessions that a session/new made and no connection is bound to yet,
    or that a /new left behind; [stale]: those that were gone when a connection
    was bound to them; [ended]: those whose run is over while the hook is due. *)
Record world := mkWorld { plug : plugin R; loose : gset string; stale : gset string; ended : gset string }.

Inductive event : Type :=
  | Created (w : weather (W := W)) (cwd : string)
  | BoundTo (w : W) (client sid : string)
  | Loaded (w : weather (W := W)) (sid cwd client : string)
  | Disconnected (w : W) (client : string)
  | Renewed (w : weather (W := W)) (client binding : string)
  | RunStarted (sid : string) (run : nat)
  | RunEnded (i run : nat)
  | RunTold (w : W) (sid : string)
  | ArchivedAsked (w : W) (sid : string)
  | HistoryAsked (w wc : W) (sid : string)
  | ArchiveAsked (w : weather (W := W)) (sid client : string)
  | LeasesMoved (l : LeaseRegistry).

Definition fair (e : event) : Prop :=
  match e with
  | Created w _ | Loaded w _ _ _ | Renewed w _ _ | ArchiveAsked w _ _ => good (w_repo w) /\ good (w_close w)
  | BoundTo w _ _ | Disconnected w _ | RunTold w _ | ArchivedAsked w _ => good w
  | HistoryAsked w wc _ => good w /\ good wc
  | _ => True
  end.

Definition with_plug (x : world) (p : plugin R) : world := mkWorld p (loose x) (stale x) (ended x).

Definition step (x : world) (e : event) : world :=
  let p := plug x in
  match e with
  | Created w cwd =>
      match CreateBoundSession Abs EvalSymlinks TempDir Getuid AllowedWorkDir w cwd p with
      | (p', Ok sid) => mkWorld p' ({[sid]} ∪ loose x) (stale x) (ended x)
      | (p', Prelude.Err _) => with_plug x p'
      end
  | BoundTo w client sid =>
      if String.eqb client "" || String.eqb sid "" || negb (bool_decide (sid ∈ loose x)) then x
      else mkWorld (BindConnectionSession w client sid p) (loose x ∖ {[sid]}) (match Get sid (p_mgr p) with None => {[sid]} ∪ stale x | Some _ => stale x end) (ended x)
  | Loaded w sid cwd client =>
      if String.eqb client "" then x
      else
        match LoadBoundSessionForConnection Abs EvalSymlinks TempDir Getuid AllowedWorkDir w sid cwd client p with
        | (p', Ok _) => mkWorld p' (loose x ∖ {[sid]}) (stale x) (ended x)
        | (p', Prelude.Err _) => with_plug x p'
        end
  | Disconnected w client => with_plug x (SessionLifecycle.ReleaseConnection w client p)
  | Renewed w client binding =>
      match handleNew TempDir Getuid w client binding p, sessionRuntimeIn binding p with
      | (p', Ok _), Ok old => mkWorld p' (({[name_of (p_current p) p; default "" (p_bindings p !! client)]} ∪ loose x) ∖ {[name_of old p]}) (stale x) (ended x)
      | (p', _), _ => with_plug x p'
      end
  | RunStarted sid run =>
      match i ← Get sid (p_mgr p); rt ← p_rts p !! i; Some (i, reserveRun run rt) with
      | Some (i, (rt, Ok _)) => with_plug x (with_rts (<[i := rt]> (p_rts p)) p)
      | _ => x
      end
  | RunEnded i run =>
      match p_rts p !! i with
      | Some rt =>
          if bool_decide (active rt = Some run) then mkWorld (with_rts (<[i := clear_active run rt]> (p_rts p)) p) (loose x) (stale x) ({[RID rt]} ∪ ended x) else x
      | None => x
      end
  | RunTold w sid => mkWorld (onSessionRunDone w sid p) (loose x) (stale x) (ended x ∖ {[sid]})
  | ArchivedAsked w sid => with_plug x (SessionArchived w sid p).1
  | HistoryAsked w wc sid => with_plug x (archived_history w wc sid p).1
  | ArchiveAsked w sid client => with_plug x (ArchiveSession w sid client p).1
  | LeasesMoved l => with_plug x (with_control l (p_bindings p) p)
  end.

Definition sound (x : world) : Prop := inv (fun s => s ∈ loose x) (fun s => s ∈ stale x) (fun s => s ∈ ended x) (plug x).

Lemma load_sound x w sid cwd client : good (w_repo w) -> good (w_close w) -> client <> "" -> sound x -> sound (step x (Loaded w sid cwd client)).
Proof.
  intros Hw Hc Hcl Hi. cbn [step]. apply String.eqb_neq in Hcl as Hcl'. rewrite Hcl'. unfold LoadBoundSessionForConnection. pose proof (load_inv _ _ _ w sid cwd (plug x) Hw Hi) as Hl.
  destruct (LoadBoundSession _ _ _ _ _ w sid cwd (plug x)) as [p' [e|]]; [done|]. destruct Hl as [Hl Hg].
  assert (Hl' : inv (fun s => s = sid \/ s ∈ loose x ∖ {[sid]}) (fun s => s ∈ stale x) (fun s => s ∈ ended x) p').
  { apply (inv_weaken (fun s => s = sid \/ s ∈ loose x) _ (fun s => s ∈ stale x) _ (fun s => s ∈ ended x) _ p'); [|auto|auto|done].
    intros s [|Hs]; [by left|]. destruct (decide (s = sid)); [by left|right; set_solver]. }
  destruct (SessionHistory sid p') as [h|e].
  - unfold sound. cbn. destruct (String.eqb_spec sid "") as [->|Hs]; [|apply bind_inv; auto].
    apply (excuse_inv _ (fun s => s ∈ loose x ∖ {[""]}) _ (fun s => s ∈ stale x) (fun s => s ∈ ended x) p') in Hl' as Hl2; [|intros s [|]; auto|auto].
    unfold BindConnectionSession, Bind. rewrite Hcl'. cbn. set (prev := default "" (p_bindings p' !! client)).
    assert (Hmain : inv (fun s => s = prev \/ s ∈ loose x ∖ {[""]}) (fun s => s ∈ stale x) (fun s => s ∈ ended x) (with_control (p_leases p') (delete client (p_bindings p')) p')) by apply (dropped_inv _ _ _ _ _ _ Hl2).
    destruct (String.eqb_spec prev "") as [Ep|Ep]; cbn; [|by apply release_inv]. apply (excuse_inv _ _ _ _ _ _ Hmain); [|done]. intros s [->|]; auto.
  - unfold sound. cbn. apply release_inv; [done|]. refine (inv_weaken _ _ _ _ _ _ _ _ _ _ Hl); auto.
Qed.

Lemma step_sound x e : fair e -> sound x -> sound (step x e).
Proof.
  intros Hf Hi. destruct e as [w cwd|w client sid|w sid cwd client|w client|w client binding|sid run|i run|w sid|w sid|w wc sid|w sid client|l]; cbn [fair] in Hf.
  - destruct Hf as [Hw Hc]. cbn [step]. pose proof (create_inv _ _ _ w cwd (plug x) Hw Hc Hi) as H1. destruct (CreateBoundSession _ _ _ _ _ w cwd (plug x)) as [p' [sid|e]]; [|done].
    refine (inv_weaken _ _ _ _ _ _ _ _ _ _ H1); [|auto|auto]. intros s [->|]; cbn; set_solver.
  - cbn [step]. destruct (String.eqb_spec client "") as [|Hc]; [done|]. destruct (String.eqb_spec sid "") as [|Hs]; [done|]. destruct (bool_decide_reflect (sid ∈ loose x)) as [Hl|]; [|done]. cbn.
    unfold sound. cbn. apply bind_inv; [done|done|done| |].
    + intros _. destruct (Get sid (p_mgr (plug x))); [left; by eexists|right; set_solver].
    + refine (inv_weaken _ _ _ _ _ _ _ _ _ _ Hi); [| |auto]; intros s Hin; [destruct (decide (s = sid)); [by left|right; set_solver]|case_match; set_solver].
  - destruct (decide (client = "")) as [->|Hc]; [done|]. destruct Hf. by apply load_sound.
  - by apply disconnect_inv.
  - destruct Hf as [Hw Hc]. cbn [step]. pose proof (new_inv _ _ _ w client binding (plug x) Hw Hc Hi) as H1. destruct (handleNew _ _ w client binding (plug x)) as [p' [u|e]]; [|done].
    destruct (sessionRuntimeIn binding (plug x)) as [old|]; [|done]. refine (inv_weaken _ _ _ _ _ _ _ _ _ _ H1); [|auto|auto]. cbn. intros s [[->|[->|]] Hn]; set_solver.
  - cbn [step]. destruct (Get sid (p_mgr (plug x))) as [i|] eqn:Eg; [|done]. cbn. destruct (p_rts (plug x) !! i) as [rt|] eqn:Er; [|done]. cbn. unfold reserveRun.
    destruct (archived rt); [done|]. destruct (retired rt) eqn:Ert; [done|]. destruct (active rt) eqn:Ea; [by destruct (session rt)|]. destruct (session rt) as [ses|]; [|done].
    refine (inv_weaken _ _ _ _ _ _ _ _ _ _ (runtime_inv _ _ _ i rt _ _ Hi Er _ _ _)); auto. intros s0 [|(_ & Hx & _)]; [done|by rewrite Ea in Hx].
  - cbn [step]. destruct (p_rts (plug x) !! i) as [rt|] eqn:Er; [|done]. case_bool_decide as Ha; [|done]. unfold clear_active. rewrite decide_True by done.
    refine (inv_weaken _ _ _ _ _ _ _ _ _ _ (runtime_inv _ _ _ i rt _ _ Hi Er _ _ _)); auto; cbn; try done; try (intros s [|[-> _]]; set_solver).
  - cbn [step]. refine (inv_weaken _ _ _ _ _ _ _ _ _ _ (done_inv _ _ _ w sid _ Hf Hi)); auto; cbn; try (intros s []; set_solver).
  - by apply archived_inv.
  - destruct Hf. by apply history_inv.
  - destruct Hf. by apply archive_inv.
  - by apply control_inv.
Qed.

Lemma run_sound evs : Forall fair evs -> forall x, sound x -> sound (foldl step x evs).
Proof. induction 1 as [|e evs He _ IH]; [done|]. intros x Hx. by apply IH, step_sound. Qed.

(** The plugin before its first session. *)
Definition NewPlugin (opts : list (SessionManager -> SessionManager)) (r : R) : plugin R :=
  mkPlugin (NewSessionManager opts) ∅ 0 ∅ ∅ ∅ None ∅ ∅ ∅ (Some r).

Lemma limits_keep opts : Forall (fun o => exists a b, o = WithRunLimits a b) opts -> closed (NewSessionManager opts) = false /\ runtimes (NewSessionManager opts) = ∅.
Proof.
  unfold NewSessionManager. set (m := mkManager _ _ _ _ _ _ _). assert (closed m = false /\ runtimes m = ∅) as Hm by done. clearbody m. revert m Hm.
  induction opts as [|o opts IH]; [done|]. intros m Hm [(a & b & ->) Ho]%Forall_cons. cbn. by apply IH.
Qed.

Lemma boot_sound opts r w legacy : Forall (fun o => exists a b, o = WithRunLimits a b) opts -> repo_ok r -> good (w_repo w) ->
  sound (mkWorld (startSession TempDir Getuid w legacy (NewPlugin opts r)) ∅ ∅ ∅).
Proof.
  intros Ho Hok Hw. destruct (limits_keep opts Ho) as [Hcl Hr]. unfold sound. cbn.
  refine (boundary_inv (fun _ => False) _ _ _ w legacy (NewPlugin opts r) Hw _ _ _ _); [|right; intros s; unfold Get; cbn; by rewrite Hr|done|done].
  split; cbn; try done; unfold Get; cbn; rewrite ?Hr; try done.
  - exists r. split_and!; [done|done|]. intros s _ [i Hi]. done.
  - intros i [x Hx]. done.
  - intros s [c Hc]. done.
Qed.

(** C28: Sessions live as long as they are used, up to the exceptions named here.
    Whatever the connections, the runs and the system do, over a repository that
    keeps the laws of its interface: a session that a connection is bound to has a
    runtime that takes runs and an open store, unless it was already gone when the
    connection was bound to it ([stale], as in
    [a_late_creation_binds_a_dead_connection]); every session with a runtime is the
    current one, or has a connection, or waits for the end of its run, or has not
    been bound since session/new made it or /new left it behind ([loose], as in
    [new_leaves_the_current_session]: such a runtime may stay for good); a session
    waits only while its run is on or its end is still to be told; and no run is
    on in a retired runtime. *)
Theorem sessions_live_as_long_as_they_are_used opts r w legacy evs :
  Forall (fun o => exists a b, o = WithRunLimits a b) opts -> repo_ok r -> good (w_repo w) -> Forall fair evs ->
  let x := foldl step (mkWorld (startSession TempDir Getuid w legacy (NewPlugin opts r)) ∅ ∅ ∅) evs in
  let p := plug x in
  (forall client sid, p_bindings p !! client = Some sid -> sid <> "current" -> sid ∉ stale x ->
     exists i rt r', Get sid (p_mgr p) = Some i /\ p_rts p !! i = Some rt /\ retired rt = false /\ p_repo p = Some r' /\ is_Some (repo_peek sid r')) /\
  (forall sid i, Get sid (p_mgr p) = Some i -> p_current p = Some i \/ (exists client, p_bindings p !! client = Some sid) \/ sid ∈ p_suspended p \/ sid ∈ loose x) /\
  (forall sid, sid ∈ p_suspended p -> sid ∈ ended x \/ exists i rt run, Get sid (p_mgr p) = Some i /\ p_rts p !! i = Some rt /\ active rt = Some run) /\
  forall i rt run, p_rts p !! i = Some rt -> active rt = Some run -> retired rt = false.
Proof.
  intros Ho Hok Hw Hf x p. assert (Hs : sound x) by (apply run_sound, boot_sound; done).
  destruct Hs. subst p. split_and!.
  - intros client sid Hb Hc Hst. destruct (v_bound0 sid) as [[i Hi]|]; [by exists client|done| |done]. destruct (v_registered0 sid i Hi) as (_ & rt & Hrt & _ & Hret).
    destruct v_repo0 as (r' & Hr' & _ & Hpk). exists i, rt, r'. split_and!; try done. apply Hpk; [done|]. by eexists.
  - done.
  - intros sid Hsid. destruct (v_suspended0 sid Hsid) as [(i & rt & Hi & Hrt & Ha)|]; [right|by left]. destruct (active rt) as [run|] eqn:Er; [|done]. by exists i, rt, run.
  - intros i rt run Hrt Ha. apply (v_active0 i rt Hrt). by rewrite Ha.
Qed.
End props.

(** ** A repository in memory: the sessions on disk, and those that are open *)

Record shelf := mkShelf { on_disk : gmap string store_facts; in_cache : gset string }.

#[export] Instance shelf_repo : SessionRepo shelf bool := {
  repo_create ok cwd r :=
    let f := mkFacts ("s" +:+ pretty (size (on_disk r))) cwd false in
    if ok && bool_decide (on_disk r !! st_id f = None) then (mkShelf (<[st_id f := f]> (on_disk r)) ({[st_id f]} ∪ in_cache r), Some f) else (r, None);
  repo_open ok id r :=
    match on_disk r !! id with
    | Some f => if ok then (mkShelf (on_disk r) ({[id]} ∪ in_cache r), OpenedStore f) else (r, OpenFailed)
    | None => (r, OpenNotFound)
    end;
  repo_close _ id r := mkShelf (on_disk r) (in_cache r ∖ {[id]});
  repo_peek id r := if bool_decide (id ∈ in_cache r) then on_disk r !! id else None;
  repo_declare ok id cwd r := if ok then mkShelf (alter (fun f => mkFacts (st_id f) cwd (st_archived f)) id (on_disk r)) (in_cache r) else r;
  repo_mark ok id r := (if ok then mkShelf (alter (fun f => mkFacts (st_id f) (st_workspace f) true) id (on_disk r)) (in_cache r) else r, ok);
}.

Lemma shelf_alter (g : store_facts -> store_facts) id r : (forall f, st_id (g f) = st_id f) -> (forall k f, on_disk r !! k = Some f -> st_id f = k /\ k <> "") ->
  (forall k f, alter g id (on_disk r) !! k = Some f -> st_id f = k /\ k <> "") /\ forall k, is_Some (alter g id (on_disk r) !! k) <-> is_Some (on_disk r !! k).
Proof.
  intros Hg Hok. split; [|intros k; apply lookup_alter_is_Some]. intros k f Hk. destruct (decide (id = k)) as [->|Hn]; [|rewrite lookup_alter_ne in Hk by done; by apply Hok].
  rewrite lookup_alter_eq in Hk. apply fmap_Some in Hk as (f0 & Hf0 & ->). rewrite Hg. by apply Hok.
Qed.

#[export] Instance shelf_laws : SessionRepoLaws shelf bool.
Proof.
  refine {| repo_ok := fun r => forall k f, on_disk r !! k = Some f -> st_id f = k /\ k <> ""; good := fun _ => True |}; cbn.
  - intros r k f Hok. case_bool_decide; [|done]. apply Hok.
  - intros w cwd r r' res Hok _. destruct w; cbn; [|by intros [= <- <-]]. case_bool_decide as Hn; [|by intros [= <- <-]]. intros [= <- <-]. split.
    { cbn. intros k f [[<- <-]|[_ Hk]]%lookup_insert_Some; [done|by apply Hok]. }
    cbn. split_and!; [by destruct (bool_decide _)| |].
    + rewrite bool_decide_true by set_solver. rewrite lookup_insert_eq. by eexists.
    + intros k Hk. rewrite lookup_insert_ne by congruence. by replace (bool_decide (k ∈ _ ∪ in_cache r)) with (bool_decide (k ∈ in_cache r)) by (apply bool_decide_ext; set_solver).
  - intros w id r r' res Hok _. destruct (on_disk r !! id) as [f|] eqn:Ef; [destruct w|]; intros [= <- <-]; (split; [done|]); [|done..]. cbn. split_and!; [by apply Hok| |].
    + rewrite bool_decide_true by set_solver. rewrite Ef. by eexists.
    + intros k Hk. by replace (bool_decide (k ∈ _ ∪ in_cache r)) with (bool_decide (k ∈ in_cache r)) by (apply bool_decide_ext; set_solver).
  - intros w id r Hok _. split_and!; [done|by rewrite bool_decide_false by set_solver|]. intros k Hk. by replace (bool_decide (k ∈ in_cache r ∖ _)) with (bool_decide (k ∈ in_cache r)) by (apply bool_decide_ext; set_solver).
  - intros w id cwd r Hok _. destruct w; [|by split]. destruct (shelf_alter (fun f => mkFacts (st_id f) cwd (st_archived f)) id r ltac:(done) Hok) as [H1 H2]. split; [done|]. cbn. intros k. case_bool_decide; [apply H2|done].
  - intros w id r Hok _. destruct w; [|by split]. destruct (shelf_alter (fun f => mkFacts (st_id f) (st_workspace f) true) id r ltac:(done) Hok) as [H1 H2]. split; [done|]. cbn. intros k. case_bool_decide; [apply H2|done].
Defined.

(** Two connections work on one session, a run is on when both are gone: the
    session waits for its end and is settled then. *)
Definition calm : weather (W := bool) := mkWeather true true true true.
Definition shelf_step : world (R := shelf) -> event (W := bool) -> world := step (R := shelf) (W := bool) Some Some "/tmp" 1000 "".
Definition two_connections : list (event (W := bool)) :=
  [Created calm "/work"; BoundTo true "c1" "s1"; Loaded calm "s1" "" "c2"; RunStarted "s1" 7; Disconnected true "c1"; Disconnected true "c2"].
Definition shelf_boot : world (R := shelf) := mkWorld (startSession (R := shelf) (W := bool) "/tmp" 1000 calm None (NewPlugin [] (mkShelf ∅ ∅))) ∅ ∅ ∅.

Example a_session_waits_for_its_run :
  let x := foldl shelf_step shelf_boot two_connections in
  let y := foldl shelf_step x [RunEnded 1 7; RunTold true "s1"] in
  Get "s1" (p_mgr (plug x)) = Some 1%nat /\ p_suspended (plug x) = {["s1"]} /\ Get "s1" (p_mgr (plug y)) = None /\ p_suspended (plug y) = ∅ /\ (p_repo (plug y) ≫= repo_peek "s1") = None.
Proof. vm_compute. split_and!; reflexivity. Qed.

Lemma sessions_live_as_long_as_they_are_used_witness :
  let x := foldl shelf_step shelf_boot (take 3 two_connections) in
  (forall client sid, p_bindings (plug x) !! client = Some sid -> sid <> "current" -> sid ∉ stale x -> is_Some (Get sid (p_mgr (plug x)))) /\ p_bindings (plug x) !! "c2" = Some "s1" /\ loose x = ∅.
Proof.
  split; [|split; vm_compute; reflexivity].
  intros client sid Hb Hc Hs.
  destruct (sessions_live_as_long_as_they_are_used (R := shelf) (W := bool) Some Some "/tmp" 1000 "" [] (mkShelf ∅ ∅) calm None (take 3 two_connections)) as [H1 _].
  - constructor.
  - intros k f Hk. discriminate Hk.
  - exact I.
  - repeat constructor.
  - destruct (H1 client sid Hb Hc Hs) as (i & _ & _ & Hi & _). by exists i.
Defined.

(** /new from a connection that is bound to another session than the current one:
    the session that was current stays in the manager, its store stays open, and
    nothing accounts for it. *)
Example new_leaves_the_current_session :
  let x := foldl shelf_step shelf_boot [Created calm "/work"; BoundTo true "c1" "s1"; Renewed calm "c1" "s1"] in
  Get "s0" (p_mgr (plug x)) = Some 0%nat /\ p_current (plug x) = Some 2%nat /\ Bindings "s0" (p_bindings (plug x)) = [] /\ p_suspended (plug x) = ∅
  /\ is_Some (p_repo (plug x) ≫= repo_peek "s0") /\ Get "s1" (p_mgr (plug x)) = None.
Proof. vm_compute. split_and!; try reflexivity. by eexists. Qed.

(** A session/new that ends after its connection: the session is bound to a
    connection that does not exist any more. *)
Example a_late_creation_binds_a_dead_connection :
  let x := foldl shelf_step shelf_boot [Created calm "/work"; Disconnected true "c1"; BoundTo true "c1" "s1"] in
  Get "s1" (p_mgr (plug x)) = Some 1%nat /\ Bindings "s1" (p_bindings (plug x)) = ["c1"].
Proof. vm_compute. split_and!; reflexivity. Qed.
