(* ===== verification/Frontend.v ===== *)
(** * daemon/internal/core/service/acp: one connection of a client

    handler.go with mapping.go and coordinator.go: sessions that are made, loaded
    and prompted, over the agent plugin of [SessionLifecycle]; what a command of
    the prompt does to the sessions is /new, anything else of it is an argument.
    xgw.go: the subscriptions of the connection with their pumps, as threads. *)

From S2P Require Import Prelude GoString AcpServer SessionRecord RuntimeConfig ControlLease AgentRun AgentLoop SessionLifecycle SessionLifecycleProps.
#[local] Open Scope string_scope.
#[local] Open Scope list_scope.

(** ** coordinator.go: the gate of the management operations *)

(** The channel of capacity one: is its place taken? *)
Definition SessionGate : Type := bool.
Definition NewSessionGate : SessionGate := false.
Definition tryAcquire (g : SessionGate) : SessionGate * bool := if g then (g, false) else (true, true).
Definition release (g : SessionGate) : SessionGate := false.

(** ** mapping.go *)

Record SessionUpdateBody := mkUpdate { SessionUpdate : string; Content : option ContentBlock; u_ToolCallID : string; u_Title : string; u_Status : string; Raw : option string }.

Record domain_update := mkDomain { d_kind : string; d_content : option (string * string); d_tool_call : string; d_title : string; d_status : string; d_raw : option string }.

Definition SessionUpdateFromDomain (u : domain_update) : SessionUpdateBody :=
  mkUpdate (d_kind u) ((fun c => mkBlock c.1 c.2) <$> d_content u) (d_tool_call u) (d_title u) (d_status u) (d_raw u).

Definition TokenToUpdate (token : Token) : SessionUpdateBody :=
  if String.eqb (TType token) "thinking" then mkUpdate "agent_thought_chunk" (Some (TextBlock (TContent token))) "" "" "" None
  else if String.eqb (TType token) "tool_call" then mkUpdate "tool_call" None (SessionRecord.ID (TCall token)) (TContent token) "pending" None
  else if String.eqb (TType token) "tool_result" then mkUpdate "tool_call_update" None (TCallID token) (TContent token) "completed" None
  else mkUpdate "agent_message_chunk" (Some (TextBlock (TContent token))) "" "" "" None.

Record command := mkCommand { c_name : string; c_aliases : list string; c_description : string }.
Record availableCommand := mkAvailable { a_name : string; a_description : string; a_source : string }.

Definition available (cmd : command) : list availableCommand :=
  mkAvailable (TrimPrefix (c_name cmd) "/") (c_description cmd) "daemon"
  :: ((fun alias => mkAvailable (TrimPrefix alias "/") ("(alias of " +:+ c_name cmd +:+ ")") "daemon") <$> c_aliases cmd).

(** ** The output of commands *)

(** What goes to the client: a chunk of a message, or an update. *)
Inductive wire : Type := MessageChunk (sid text : string) | Update (sid : string) (body : SessionUpdateBody).

Definition commandFence : string := "````".
Definition newline : string := String (ascii_of_nat 10) "".

Record commandOutput := mkOutput { opened : bool; trailing : option ascii }.
Definition new_output : commandOutput := mkOutput false None.

(** [Write]: the chunks. *)
Definition Write (text : string) (w : commandOutput) : commandOutput * list string :=
  if String.eqb text "" then (w, [])
  else if opened w then (mkOutput true (last_byte text), [text])
  else if String.eqb (TrimSpace text) "" then (w, [])
  else (mkOutput true (last_byte text), [commandFence +:+ newline; text]).

Definition CloseOutput (w : commandOutput) : list string :=
  if negb (opened w) then []
  else (if bool_decide (trailing w = Some (ascii_of_nat 10)) then [] else [newline]) ++ [commandFence +:+ newline].

Fixpoint write_all (texts : list string) (w : commandOutput) : list string :=
  match texts with
  | [] => CloseOutput w
  | text :: texts => let '(w, out) := Write text w in out ++ write_all texts w
  end.

(** ** handler.go *)

Inductive frontend_error : Type :=
  | EBusy
  | ECreate (e : life_error)
  | EReadOnly (sid : string)
  | EUnknown (sid : string)
  | ESuperseded (sid last : string)
  | ELoad (sid : string) (e : life_error)
  | EArchive (sid : string)
  | EReload
  | EEval (message : string).

(** The fields of the handler that its calls change. *)
Record FrontendHandler := mkFrontend {
  promptable : gset string;
  readOnly : gset string;
  f_active : string;
  f_binding : string;
}.
Definition new_frontend : FrontendHandler := mkFrontend ∅ ∅ "" "".

Definition remember (sid : string) (h : FrontendHandler) : FrontendHandler := mkFrontend ({[sid]} ∪ promptable h) (readOnly h ∖ {[sid]}) sid (f_binding h).
Definition rememberReadOnly (sid : string) (h : FrontendHandler) : FrontendHandler := mkFrontend (promptable h) ({[sid]} ∪ readOnly h) (f_active h) (f_binding h).
Definition membership (sid : string) (h : FrontendHandler) : bool * bool := (bool_decide (sid ∈ promptable h), bool_decide (sid ∈ readOnly h)).
Definition set_binding (sid : string) (h : FrontendHandler) : FrontendHandler := mkFrontend (promptable h) (readOnly h) (f_active h) sid.

(** The text of a prompt. *)
Definition prompt_input (blocks : list ContentBlock) : string :=
  foldl (fun input b => if negb (String.eqb (BType b) "text") then input else (if String.eqb input "" then "" else input +:+ newline) +:+ Text b) "" blocks.

Section handler.
Context {R W : Type} `{SessionRepo R W}.
Context (Abs EvalSymlinks : string -> option string) (TempDir : string) (Getuid : Z) (AllowedWorkDir : string).

(** [marshal]: encoding/json on the list of commands; [history]: the replay of the
    active view of a store. *)
Context (marshal : list availableCommand -> option string) (history : string -> list domain_update).
Context (connectionID : string) (commands : option (list command)).

Definition availableCommandsUpdateBody (cmds : list command) : SessionUpdateBody :=
  mkUpdate "" None "" "" "" (marshal (mjoin (available <$> cmds))).

Definition send_commands (sid : string) : list wire :=
  match commands with
  | None => []
  | Some cmds => let body := availableCommandsUpdateBody cmds in match Raw body with Some _ => [Update sid body] | None => [] end
  end.

Definition replay (sid : string) (store : option string) : list wire :=
  (fun u => Update sid (SessionUpdateFromDomain u)) <$> match store with Some id => history id | None => [] end.

Definition CreateSession (w : weather (W := W)) (gate : SessionGate) (sid cwd : string) (h : FrontendHandler) (p : plugin R)
    : FrontendHandler * plugin R * list wire * option frontend_error :=
  if negb (tryAcquire gate).2 then (h, p, [], Some EBusy)
  else
    match CreateBoundSession Abs EvalSymlinks TempDir Getuid AllowedWorkDir w cwd p with
    | (p, Prelude.Err e) => (h, p, [], Some (ECreate e))
    | (p, Ok boundTo) =>
        let h := set_binding boundTo (remember sid h) in
        let p := if String.eqb boundTo "" then p else BindConnectionSession (w_close w) connectionID boundTo p in
        (h, p, send_commands sid, None)
    end.

(** [wh]: the calls of the system for the history of an archived session. *)
Definition LoadSession (w wh : weather (W := W)) (gate : SessionGate) (sid cwd : string) (h : FrontendHandler) (p : plugin R)
    : FrontendHandler * plugin R * list wire * option frontend_error :=
  match SessionArchived (w_repo w) sid p with
  | (p, true) =>
      match archived_history (w_repo wh) (w_close wh) sid p with
      | (p, None) => (h, p, [], Some (EArchive sid))
      | (p, Some store) => (rememberReadOnly sid h, p, send_commands sid ++ replay sid (Some store), None)
      end
  | (p, false) =>
      if negb (tryAcquire gate).2 then (h, p, [], Some EBusy)
      else
        match LoadBoundSessionForConnection Abs EvalSymlinks TempDir Getuid AllowedWorkDir w sid cwd connectionID p with
        | (p, Prelude.Err (LUnknown _)) => (h, p, [], Some (EUnknown sid))
        | (p, Prelude.Err e) => (h, p, [], Some (ELoad sid e))
        | (p, Ok store) => (set_binding sid (remember sid h), p, send_commands sid ++ replay sid store, None)
        end
  end.

(** What the engine does with the input: /new if it comes to that, the writes of
    the command, and its error. *)
Record evaluation := mkEval { e_new : option (weather (W := W)); e_writes : list string; e_error : option string }.

(** The two checks of a prompt, each under the lock of the handler on its own. *)
Definition check_member (sid : string) (h : FrontendHandler) : option frontend_error :=
  let '(known, archived) := membership sid h in
  if archived then Some (EReadOnly sid) else if negb known then Some (EUnknown sid) else None.
Definition check_active (sid : string) (h : FrontendHandler) : option frontend_error :=
  if negb (String.eqb (f_active h) "") && negb (String.eqb (f_active h) sid) then Some (ESuperseded sid (f_active h)) else None.

(** What is behind the checks: the evaluation reads the binding of the connection
    when it resolves its session, and /new clears it. The result says which binding
    that was, and the input. *)
Definition run_prompt (evaluate : string -> evaluation) (sid : string) (blocks : list ContentBlock) (h : FrontendHandler) (p : plugin R)
    : FrontendHandler * plugin R * list wire * (string * string) * option frontend_error :=
  let input := prompt_input blocks in
  let r := evaluate input in
  let '(p', binding) :=
    match e_new r with
    | None => (p, f_binding h)
    | Some w => match handleNew TempDir Getuid w connectionID (f_binding h) p with (p, Ok b) => (p, b) | (p, Prelude.Err _) => (p, f_binding h) end
    end in
  (set_binding binding h, p', MessageChunk sid <$> write_all (e_writes r) new_output, (f_binding h, input), EEval <$> e_error r).

(** The prompt, and what it was evaluated with if it was. *)
Definition Prompt (evaluate : string -> evaluation) (sid : string) (blocks : list ContentBlock) (h : FrontendHandler) (p : plugin R)
    : FrontendHandler * plugin R * list wire * option (string * string) * option frontend_error :=
  match check_member sid h with
  | Some e => (h, p, [], None, Some e)
  | None =>
      match check_active sid h with
      | Some e => (h, p, [], None, Some e)
      | None => let '(h, p, out, ran, e) := run_prompt evaluate sid blocks h p in (h, p, out, Some ran, e)
      end
  end.

(** ** The backend without bound sessions *)

Record single := mkSingle { s_current : string; s_reload : bool; s_history : list domain_update; s_listed : gset string; s_archive : string -> option (list domain_update) }.

Definition LoadSingle (gate : SessionGate) (b : single) (sid : string) (h : FrontendHandler) : FrontendHandler * list wire * option frontend_error :=
  let updates us := (fun u => Update sid (SessionUpdateFromDomain u)) <$> us in
  if String.eqb sid (s_current b) then
    if negb (tryAcquire gate).2 then (h, [], Some EBusy)
    else if negb (s_reload b) then (h, [], Some EReload)
    else (set_binding sid (remember sid h), send_commands sid ++ updates (s_history b), None)
  else if bool_decide (sid ∈ s_listed b) then
    match s_archive b sid with
    | None => (h, [], Some (EArchive sid))
    | Some us => (rememberReadOnly sid h, send_commands sid ++ updates us, None)
    end
  else (h, [], Some (EUnknown sid)).
End handler.

(** ** The output is one block *)

Fixpoint drop_blank (texts : list string) : list string :=
  match texts with
  | [] => []
  | text :: rest => if String.eqb (TrimSpace text) "" then drop_blank rest else texts
  end.

Definition joined (texts : list string) : string := foldr String.append "" texts.

Lemma output_joined_app a b : joined (a ++ b) = joined a +:+ joined b.
Proof. induction a as [|x a IH]; [done|]. change (x +:+ joined (a ++ b) = (x +:+ joined a) +:+ joined b). rewrite IH. apply append_assoc. Qed.

Lemma last_byte_app a b : b <> "" -> last_byte (a +:+ b) = last_byte b.
Proof.
  intros Hb. unfold last_byte. rewrite length_append. destruct b as [|c b]; [done|]. cbn [String.length]. replace (String.length a + Datatypes.S (String.length b) - 1)%nat with (String.length a + String.length b)%nat by lia.
  replace (Datatypes.S (String.length b) - 1)%nat with (String.length b) by lia. induction a as [|x a IH]; [done|]. cbn. apply IH.
Qed.

(** The writes after the fence: [body] is what was written since. *)
Lemma written texts : forall w body, opened w = true -> body <> "" -> trailing w = last_byte body ->
  body +:+ joined (write_all texts w) = (body +:+ joined texts) +:+ (if bool_decide (last_byte (body +:+ joined texts) = Some (ascii_of_nat 10)) then "" else newline) +:+ commandFence +:+ newline.
Proof.
  induction texts as [|text texts IH]; intros w body Ho Hb Ht.
  - cbn [write_all]. unfold CloseOutput. rewrite Ho, Ht. change (negb true) with false. cbv iota. rewrite output_joined_app. change (joined []) with "". rewrite append_nil_r. by case_bool_decide.
  - cbn [write_all]. unfold Write. destruct (String.eqb_spec text "") as [->|Hn]; [by apply IH|]. rewrite Ho. cbv iota beta. rewrite output_joined_app. change (joined [text]) with (text +:+ ""). change (joined (text :: texts)) with (text +:+ joined texts). rewrite append_nil_r.
    pose proof (IH (mkOutput true (last_byte text)) (body +:+ text) eq_refl ltac:(by destruct body) ltac:(by rewrite last_byte_app)) as E. rewrite !append_assoc in *. exact E.
Qed.

(** The output of a command is one block. Nothing is sent if the command wrote
    nothing but blanks; otherwise what is sent is a fence, everything written from
    the first text that is not blank on, a line end if it has none, and a fence. *)
Theorem the_output_is_one_block texts :
  match drop_blank texts with
  | [] => write_all texts new_output = []
  | visible =>
      let body := joined visible in
      joined (write_all texts new_output) =
        commandFence +:+ newline +:+ body +:+ (if bool_decide (last_byte body = Some (ascii_of_nat 10)) then "" else newline) +:+ commandFence +:+ newline
  end.
Proof.
  induction texts as [|text texts IH]; [done|]. cbn [drop_blank write_all]. unfold Write at 1 2. cbn [opened new_output].
  destruct (String.eqb_spec text "") as [->|Hn]; [exact IH|]. destruct (String.eqb_spec (TrimSpace text) "") as [|Hv]; [exact IH|]. cbv zeta iota beta.
  rewrite output_joined_app. change (joined [commandFence +:+ newline; text]) with ((commandFence +:+ newline) +:+ (text +:+ "")). rewrite append_nil_r, <- !append_assoc. do 2 f_equal.
  by apply (written texts (mkOutput true (last_byte text)) text).
Qed.

(** ** Where a prompt goes *)

Section where_a_prompt_goes.
Context {R W : Type} `{SessionRepo R W}.
Context (Abs EvalSymlinks : string -> option string) (TempDir : string) (Getuid : Z) (AllowedWorkDir : string).
Context (connectionID : string).

Lemma release_bindings w sid (p : plugin R) : p_bindings (tryReleaseSession w sid p) = p_bindings p.
Proof.
  unfold tryReleaseSession. destruct (String.eqb sid ""); [done|]. destruct (Bindings sid (p_bindings p)); [|done]. destruct (Get sid (p_mgr p)); [|done].
  destruct (currentSessionIs _ p); [done|]. destruct (Retire <$> _) as [[rt [e|]]|]; [done| |done]. by destruct (negb _).
Qed.

Lemma declare_bindings w i cwd (p : plugin R) : p_bindings (declareSessionCWD Abs EvalSymlinks TempDir Getuid AllowedWorkDir w i cwd p) = p_bindings p.
Proof.
  assert (Ha : forall c rec, p_bindings (applySessionCWD Abs EvalSymlinks TempDir Getuid AllowedWorkDir (w_repo w) i c rec p) = p_bindings p).
  { intros c rec. unfold applySessionCWD. destruct (negb _); [done|]. cbv zeta. unfold SetCWD. destruct (storeFor i p); [destruct (rec && _)|]; by case_match. }
  unfold declareSessionCWD. destruct (String.eqb cwd ""); [|apply Ha]. destruct (w_mkdir w); [|done]. destruct (p_rts p !! i); [apply Ha|done].
Qed.

Lemma mount_bindings f (p : plugin R) : p_bindings (mountRuntime f p).1 = p_bindings p.
Proof. unfold mountRuntime. by destruct (Register _ _ _) as [m [e|]]. Qed.

Lemma create_bindings w cwd (p : plugin R) : p_bindings (CreateBoundSession Abs EvalSymlinks TempDir Getuid AllowedWorkDir w cwd p).1 = p_bindings p.
Proof.
  unfold CreateBoundSession. destruct (p_repo p) as [r|]; [|done]. destruct (normalizeSessionCWD Abs cwd); [|done]. destruct (negb _); [done|].
  destruct (repo_create _ _ r) as [r' [f|]]; [|done]. pose proof (mount_bindings f (with_repo (Some r') p)) as Hm. destruct (mountRuntime f _) as [p' [i|e]]; [|done]. cbn. by rewrite declare_bindings.
Qed.

Lemma load_bindings w sid cwd (p : plugin R) : p_bindings (LoadBoundSession Abs EvalSymlinks TempDir Getuid AllowedWorkDir w sid cwd p).1 = p_bindings p.
Proof.
  unfold LoadBoundSession. cbv zeta. destruct (RouteSession sid p) as [i|].
  - destruct (p_rts p !! i ≫= session); [destruct (w_reload w); [|done]|]; destruct (String.eqb _ ""); cbn; by rewrite ?declare_bindings.
  - destruct (p_repo p) as [r|]; [|done]. destruct (repo_open _ _ r) as [r' [f| |]]; [|done..].
    pose proof (mount_bindings f (with_repo (Some r') p)) as Hm. destruct (mountRuntime f _) as [p' [i|e]]; [|done]. cbn. by rewrite declare_bindings.
Qed.

Lemma archived_bindings w sid (p : plugin R) : p_bindings (SessionArchived w sid p).1 = p_bindings p.
Proof. unfold SessionArchived. destruct (p_repo p) as [r|]; [|done]. by destruct (repo_open _ _ r) as [r' [f| |]]. Qed.

Lemma history_bindings w wc sid (p : plugin R) : p_bindings (archived_history w wc sid p).1 = p_bindings p.
Proof.
  unfold archived_history. destruct (p_repo p) as [r|]; [|done]. destruct (repo_open _ _ r) as [r' [f| |]]; [|done..]. cbv zeta. destruct (st_archived f); [|done]. by destruct (RouteSession _ _).
Qed.

Lemma start_bindings w legacy (p : plugin R) : p_bindings (startSession TempDir Getuid w legacy p) = p_bindings p.
Proof.
  unfold startSession. assert (Ho : p_bindings (openSessionStore (w_repo w) legacy p).1 = p_bindings p).
  { unfold openSessionStore. destruct (p_repo p) as [r|]; [|done]. destruct legacy; [by destruct (repo_open _ _ r) as [r' [f| |]]|by destruct (repo_create _ _ r)]. }
  by destruct (openSessionStore _ _ p).
Qed.

(** The registry follows the selector of the connection. *)
Lemma bind_lookup w sid (p : plugin R) : connectionID <> "" -> p_bindings (BindConnectionSession w connectionID sid p) !! connectionID = if String.eqb sid "" then None else Some sid.
Proof.
  intros Hc. apply String.eqb_neq in Hc. unfold BindConnectionSession, Bind. rewrite Hc. destruct (String.eqb_spec sid "") as [->|Hs].
  - cbv zeta. destruct (negb _ && _); rewrite ?release_bindings; cbn; apply lookup_delete_eq.
  - cbv zeta. destruct (String.eqb_spec (default "" (p_bindings p !! connectionID)) sid) as [E|E].
    + destruct (negb _ && _); rewrite ?release_bindings; cbn; (destruct (p_bindings p !! connectionID); cbn in E; congruence).
    + destruct (negb _ && _); rewrite ?release_bindings; cbn; apply lookup_insert_eq.
Qed.

Lemma new_lookup w binding (p : plugin R) : connectionID <> "" ->
  match handleNew TempDir Getuid w connectionID binding p with
  | (p', Ok b) => b = "" /\ p_bindings p' !! connectionID = None
  | (p', Prelude.Err _) => p' = p
  end.
Proof.
  intros Hc. apply String.eqb_neq in Hc. unfold handleNew. destruct (sessionRuntimeIn binding p) as [[old|]|e]; [|done..]. cbv zeta. rewrite Hc.
  set (q := with_control _ _ _). assert (Hq : p_bindings q !! connectionID = None). { subst q. cbn. unfold Unbind. rewrite Hc. apply lookup_delete_eq. }
  clearbody q. destruct (p_rts q !! old); [|done]. by rewrite release_bindings.
Qed.

Lemma split_twice {A} (x y : A) l2 l2' : forall l1 l1', l1 ++ x :: l2 = l1' ++ y :: l2' -> x = y /\ l2 = l2' \/ y ∈ l2 \/ x ∈ l2'.
Proof.
  induction l1 as [|a l1 IH]; intros [|a' l1']; cbn; intros [= E1 E2]; subst; [auto| | |by apply (IH l1')].
  - right; left. apply elem_of_app; right; by left.
  - right; right. apply elem_of_app; right; by left.
Qed.

(** *** The calls of a connection, step by step *)

(** What happens to the declarations of the connection: one is remembered, its
    session is selected, a session is remembered as an archive, /new clears the
    selection; and to its prompts: one passes the first check, the second, runs
    with a binding. *)
Inductive note : Type :=
  | Declared (sid bound : string)
  | Selected (bound : string)
  | ReadOnly (sid : string)
  | Renewal
  | Asked (sid : string)
  | Passed (sid : string)
  | Ran (sid binding input : string).

#[local] Instance note_eq_dec : EqDecision note.
Proof. solve_decision. Defined.

(** A call on its way, each in a goroutine of its own. A session that is to be
    remembered may be registered for the connection already. *)
Inductive thread : Type :=
  | Loading (w wh : weather (W := W)) (gate : SessionGate) (sid cwd : string) (archived : bool)
  | Archiving (sid : string)
  | Remembering (w : weather (W := W)) (sid bound : string) (registered : bool)
  | Selecting (w : weather (W := W)) (sid bound : string) (registered : bool)
  | Registering (w : weather (W := W)) (bound : string)
  | Asking (evaluate : string -> evaluation (W := W)) (sid : string) (blocks : list ContentBlock)
  | Allowed (evaluate : string -> evaluation (W := W)) (sid : string) (blocks : list ContentBlock).

(** A declaration is under way, from the change of the plugin to its last step. *)
Definition declaring (t : thread) : bool :=
  match t with Remembering _ _ _ _ | Selecting _ _ _ _ | Registering _ _ => true | _ => false end.

(** [c_crossed]: a declaration or a /new has met another declaration under way. *)
Record conn := mkConn { c_h : FrontendHandler; c_p : plugin R; c_threads : gmap nat thread; c_log : list note; c_crossed : bool }.

Definition at_rest (x : conn) : bool := bool_decide (map_Forall (fun _ t => declaring t = false) (c_threads x)).

Definition with_p (p : plugin R) (x : conn) : conn := mkConn (c_h x) p (c_threads x) (c_log x) (c_crossed x).
Definition finish (k : nat) (x : conn) : conn := mkConn (c_h x) (c_p x) (delete k (c_threads x)) (c_log x) (c_crossed x).
Definition goes_on (k : nat) (t : thread) (x : conn) : conn := mkConn (c_h x) (c_p x) (<[k := t]> (c_threads x)) (c_log x) (c_crossed x).
Definition noted (n : note) (h : FrontendHandler) (x : conn) : conn := mkConn h (c_p x) (c_threads x) (c_log x ++ [n]) (c_crossed x).
Definition meets (x : conn) : conn := mkConn (c_h x) (c_p x) (c_threads x) (c_log x) (c_crossed x || negb (at_rest x)).

(** The next step of a call. *)
Definition step_thread (k : nat) (t : thread) (x : conn) : conn :=
  match t with
  | Loading w wh gate sid cwd true =>
      match archived_history (w_repo wh) (w_close wh) sid (c_p x) with
      | (p, None) => finish k (with_p p x)
      | (p, Some _) => goes_on k (Archiving sid) (with_p p x)
      end
  | Loading w wh gate sid cwd false =>
      if negb (tryAcquire gate).2 then finish k x
      else
        match LoadBoundSessionForConnection Abs EvalSymlinks TempDir Getuid AllowedWorkDir w sid cwd connectionID (c_p x) with
        | (p, Prelude.Err _) => finish k (with_p p x)
        | (p, Ok _) => goes_on k (Remembering w sid sid true) (meets (with_p p x))
        end
  | Archiving sid => finish k (noted (ReadOnly sid) (rememberReadOnly sid (c_h x)) x)
  | Remembering w sid bound registered => goes_on k (Selecting w sid bound registered) (noted (Declared sid bound) (remember sid (c_h x)) x)
  | Selecting w sid bound registered =>
      let x := noted (Selected bound) (set_binding bound (c_h x)) x in
      if registered then finish k x else goes_on k (Registering w bound) x
  | Registering w bound => finish k (if String.eqb bound "" then x else with_p (BindConnectionSession (w_close w) connectionID bound (c_p x)) x)
  | Asking evaluate sid blocks =>
      match check_active sid (c_h x) with
      | Some _ => finish k x
      | None => goes_on k (Allowed evaluate sid blocks) (noted (Passed sid) (c_h x) x)
      end
  | Allowed evaluate sid blocks =>
      let '(h, p, _, (binding, input), _) := run_prompt TempDir Getuid connectionID evaluate sid blocks (c_h x) (c_p x) in
      let renewed := match e_new (evaluate input) with Some w => is_ok (handleNew TempDir Getuid w connectionID binding (c_p x)).2 | None => false end in
      let x' := noted (Ran sid binding input) h (with_p p x) in
      finish k (if renewed then meets (noted Renewal h x') else x')
  end.

(** What happens on a connection: a call begins, under a name no call on its way
    has; one takes its next step; others change the plugin, not the binding of
    this connection. *)
Inductive act : Type :=
  | ACreate (k : nat) (w : weather (W := W)) (gate : SessionGate) (sid cwd : string)
  | ALoad (k : nat) (w wh : weather (W := W)) (gate : SessionGate) (sid cwd : string)
  | APrompt (k : nat) (evaluate : string -> evaluation (W := W)) (sid : string) (blocks : list ContentBlock)
  | AStep (k : nat)
  | AOthers (p : plugin R).

Definition named (a : act) : Prop := match a with ACreate _ _ _ sid _ | ALoad _ _ _ _ sid _ => sid <> "" | _ => True end.

Definition begins (k : nat) (x x' : conn) : conn := match c_threads x !! k with None => x' | Some _ => x end.

Definition do_act (a : act) (x : conn) : conn :=
  match a with
  | ACreate k w gate sid cwd =>
      begins k x
        (if negb (tryAcquire gate).2 then x
         else match CreateBoundSession Abs EvalSymlinks TempDir Getuid AllowedWorkDir w cwd (c_p x) with
              | (p, Prelude.Err _) => with_p p x
              | (p, Ok bound) => goes_on k (Remembering w sid bound false) (meets (with_p p x))
              end)
  | ALoad k w wh gate sid cwd =>
      begins k x (let '(p, archived) := SessionArchived (w_repo w) sid (c_p x) in goes_on k (Loading w wh gate sid cwd archived) (with_p p x))
  | APrompt k evaluate sid blocks =>
      begins k x
        (match check_member sid (c_h x) with
         | Some _ => x
         | None => goes_on k (Asking evaluate sid blocks) (noted (Asked sid) (c_h x) x)
         end)
  | AStep k => match c_threads x !! k with Some t => step_thread k t x | None => x end
  | AOthers q => if decide (p_bindings q !! connectionID = p_bindings (c_p x) !! connectionID) then with_p q x else x
  end.

Definition run_acts (acts : list act) (x : conn) : conn := foldl (fun x a => do_act a x) x acts.

Hypothesis connected : connectionID <> "".
Hypothesis new_ids : forall w cwd r r' f, repo_create (R := R) (W := W) w cwd r = (r', Some f) -> st_id f <> "".

Lemma create_named w cwd (p p' : plugin R) sid : CreateBoundSession Abs EvalSymlinks TempDir Getuid AllowedWorkDir w cwd p = (p', Ok sid) -> sid <> "".
Proof.
  unfold CreateBoundSession. destruct (p_repo p) as [r|]; [|done]. destruct (normalizeSessionCWD Abs cwd); [|done]. destruct (negb _); [done|].
  destruct (repo_create _ _ r) as [r' [f|]] eqn:Ec; [|done]. destruct (mountRuntime f _) as [q [i|e]]; [|done]. intros [= _ <-]. by apply (new_ids _ _ _ _ _ Ec).
Qed.

(** *** What the log says *)

(** The session was declared, and not loaded as an archive since. *)
Definition declared_in (sid : string) (log : list note) : Prop :=
  exists before bound since, log = before ++ Declared sid bound :: since /\ ReadOnly sid ∉ since.

(** The last declaration and what came after it. *)
Definition declared_last (log : list note) (sid bound : string) (since : list note) : Prop :=
  exists before, log = before ++ Declared sid bound :: since /\ (forall s b, Declared s b ∉ since).

(** What the connection has selected: the last selection, or the current session
    before the first and after a /new. *)
Definition selected_in (log : list note) (binding : string) : Prop :=
  (forall b, Selected b ∉ log) /\ binding = "" \/
  exists before b since, log = before ++ Selected b :: since /\ (forall b', Selected b' ∉ since) /\
    binding = if bool_decide (Renewal ∈ since) then "" else b.

(** A prompt that runs was declared when it was asked, was the last declared when it
    was let through, and runs with what is selected when it runs. *)
Definition asked_well (sid : string) (log : list note) : Prop := exists a1 a2, log = a1 ++ Asked sid :: a2 /\ declared_in sid a1.
Definition passed_well (sid : string) (log : list note) : Prop := exists a1 a2 a3,
  log = a1 ++ Asked sid :: a2 ++ Passed sid :: a3 /\ declared_in sid a1 /\ exists bound since, declared_last (a1 ++ Asked sid :: a2) sid bound since.
Definition ran_well (log : list note) : Prop := forall l1 l2 sid b input,
  log = l1 ++ Ran sid b input :: l2 -> passed_well sid l1 /\ selected_in l1 b.

Lemma snoc_middle {A} (l : list A) n l1 x l2 : l ++ [n] = l1 ++ x :: l2 -> l2 = [] /\ l = l1 /\ n = x \/ exists l2', l2 = l2' ++ [n] /\ l = l1 ++ x :: l2'.
Proof.
  destruct l2 as [|y l2 _] using rev_ind; intros E.
  - apply app_inj_2 in E as [-> [= ->]]; [by left|done].
  - right. exists l2. rewrite app_comm_cons, app_assoc in E. apply app_inj_2 in E as [-> [= ->]]; done.
Qed.

Lemma not_in_snoc {A} (x n : A) l : x ∉ l -> x <> n -> x ∉ l ++ [n].
Proof. intros Hl Hn [H1|H1]%elem_of_app; [done|]. by apply list_elem_of_singleton in H1. Qed.

Lemma declared_in_note sid log n : n <> ReadOnly sid -> declared_in sid log -> declared_in sid (log ++ [n]).
Proof. intros Hn (u & b & v & -> & Hv). exists u, b, (v ++ [n]). split; [by rewrite <- app_assoc|]. by apply not_in_snoc. Qed.

Lemma declared_last_note log n sid bound since :
  (forall s b, n <> Declared s b) -> declared_last log sid bound since -> declared_last (log ++ [n]) sid bound (since ++ [n]).
Proof.
  intros Hx (before & -> & Hno). exists before. split; [by rewrite <- app_assoc|]. intros s b. apply not_in_snoc; [done|]. intros E. by apply (Hx s b).
Qed.

Lemma selected_note log n b : n <> Renewal -> (forall b', n <> Selected b') -> selected_in log b -> selected_in (log ++ [n]) b.
Proof.
  intros Hr Hs [[H1 ->]|(u & b0 & v & -> & Hv & ->)].
  - left. split; [|done]. intros b'. apply not_in_snoc; [done|]. intros E. by apply (Hs b').
  - right. exists u, b0, (v ++ [n]). split; [by rewrite <- app_assoc|]. split.
    + intros b'. apply not_in_snoc; [done|]. intros E. by apply (Hs b').
    + rewrite (bool_decide_ext (Renewal ∈ v ++ [n]) (Renewal ∈ v)); [done|]. rewrite elem_of_app, list_elem_of_singleton. split; [by intros [|]|by left].
Qed.

Lemma selected_renewal log b : selected_in log b -> selected_in (log ++ [Renewal]) "".
Proof.
  intros [[H1 ->]|(u & b0 & v & -> & Hv & ->)].
  - left. split; [|done]. intros b'. by apply not_in_snoc.
  - right. exists u, b0, (v ++ [Renewal]). split; [by rewrite <- app_assoc|]. split; [intros b'; by apply not_in_snoc|].
    rewrite bool_decide_true; [done|]. apply elem_of_app. right. by left.
Qed.

Lemma selected_now log b : selected_in (log ++ [Selected b]) b.
Proof. right. exists log, b, []. split_and!; [done|intros b'; apply not_elem_of_nil|done]. Qed.

Lemma asked_well_note sid log n : asked_well sid log -> asked_well sid (log ++ [n]).
Proof. intros (a1 & a2 & -> & Hd). exists a1, (a2 ++ [n]). split; [by rewrite <- app_assoc|done]. Qed.

Lemma passed_well_note sid log n : passed_well sid log -> passed_well sid (log ++ [n]).
Proof. intros (a1 & a2 & a3 & -> & Hd). exists a1, a2, (a3 ++ [n]). split; [by rewrite <- !app_assoc; cbn; rewrite <- app_assoc|done]. Qed.

Lemma ran_well_note log n : (forall sid b i, n <> Ran sid b i) -> ran_well log -> ran_well (log ++ [n]).
Proof. intros Hn Hr l1 l2 sid b i E. destruct (snoc_middle _ _ _ _ _ E) as [(_ & _ & ->)|(l2' & -> & ->)]; [by destruct (Hn sid b i)|by eapply Hr]. Qed.

(** *** What holds of a connection, however its calls interleave *)

Definition thread_ok (log : list note) (t : thread) : Prop :=
  match t with
  | Loading _ _ _ sid _ _ => sid <> ""
  | Archiving _ => True
  | Remembering _ sid bound _ | Selecting _ sid bound _ => sid <> "" /\ bound <> ""
  | Registering _ bound => bound <> ""
  | Asking _ sid _ => asked_well sid log
  | Allowed _ sid _ => passed_well sid log
  end.

Record follows (h : FrontendHandler) (log : list note) : Prop := {
  w_member : forall sid, sid ∈ promptable h -> sid ∉ readOnly h -> declared_in sid log;
  w_active : f_active h = "" /\ (forall s b, Declared s b ∉ log) \/ f_active h <> "" /\ exists bound since, declared_last log (f_active h) bound since;
  w_binding : selected_in log (f_binding h);
  w_ran : ran_well log;
}.

Definition follows_conn (x : conn) : Prop := follows (c_h x) (c_log x) /\ map_Forall (fun _ t => thread_ok (c_log x) t) (c_threads x).

Lemma follows_note h log n :
  (forall s b, n <> Declared s b) -> (forall s, n <> ReadOnly s) -> n <> Renewal -> (forall b, n <> Selected b) -> (forall sid b i, n <> Ran sid b i) ->
  follows h log -> follows h (log ++ [n]).
Proof.
  intros H1 H2 H3 H4 H5 [Hm Ha Hb Hr]. split.
  - intros sid Hp Hro. apply declared_in_note; [apply H2|by apply Hm].
  - destruct Ha as [[Hact Hno]|[Hne (b & v & Hd)]]; [left; split; [done|]; intros s b; apply not_in_snoc; [done|]; intros E; by apply (H1 s b)|right]. split; [done|]. exists b, (v ++ [n]). by apply declared_last_note.
  - by apply selected_note.
  - by apply ran_well_note.
Qed.

Lemma follows_declared h log sid bound : sid <> "" -> follows h log -> follows (remember sid h) (log ++ [Declared sid bound]).
Proof.
  intros Hne [Hm Ha Hb Hr]. split; cbn.
  - intros s Hp Hro. destruct (decide (s = sid)) as [->|Hs].
    + exists log, bound, []. split; [done|apply not_elem_of_nil].
    + apply declared_in_note; [done|]. apply Hm; set_solver.
  - right. split; [done|]. exists bound, [], log. split; [done|]. intros s b. apply not_elem_of_nil.
  - by apply selected_note.
  - by apply ran_well_note.
Qed.

Lemma follows_readonly h log sid : follows h log -> follows (rememberReadOnly sid h) (log ++ [ReadOnly sid]).
Proof.
  intros [Hm Ha Hb Hr]. split; cbn.
  - intros s Hp Hro. apply declared_in_note; [set_solver|]. apply Hm; set_solver.
  - destruct Ha as [[Hact Hno]|[Hne (b & v & Hd)]]; [left; split; [done|]; intros s b; by apply not_in_snoc|right]. split; [done|]. exists b, (v ++ [ReadOnly sid]). by apply declared_last_note.
  - by apply selected_note.
  - by apply ran_well_note.
Qed.

Lemma follows_selected h log b : follows h log -> follows (set_binding b h) (log ++ [Selected b]).
Proof.
  intros [Hm Ha Hb Hr]. split; cbn.
  - intros s Hp Hro. apply declared_in_note; [done|by apply Hm].
  - destruct Ha as [[Hact Hno]|[Hne (b' & v & Hd)]]; [left; split; [done|]; intros s b'; by apply not_in_snoc|right]. split; [done|]. exists b', (v ++ [Selected b]). by apply declared_last_note.
  - apply selected_now.
  - by apply ran_well_note.
Qed.

Lemma follows_renewal h log : follows h log -> follows (set_binding "" h) (log ++ [Renewal]).
Proof.
  intros [Hm Ha Hb Hr]. split; cbn.
  - intros s Hp Hro. apply declared_in_note; [done|by apply Hm].
  - destruct Ha as [[Hact Hno]|[Hne (b' & v & Hd)]]; [left; split; [done|]; intros s b'; by apply not_in_snoc|right]. split; [done|]. exists b', (v ++ [Renewal]). by apply declared_last_note.
  - by eapply selected_renewal.
  - by apply ran_well_note.
Qed.

Lemma follows_ran h log sid i : passed_well sid log -> follows h log -> follows h (log ++ [Ran sid (f_binding h) i]).
Proof.
  intros Hp [Hm Ha Hb Hr]. split.
  - intros s Hpr Hro. apply declared_in_note; [done|by apply Hm].
  - destruct Ha as [[Hact Hno]|[Hne (b' & v & Hd)]]; [left; split; [done|]; intros s b'; by apply not_in_snoc|right]. split; [done|]. exists b', (v ++ [Ran sid (f_binding h) i]). by apply declared_last_note.
  - by apply selected_note.
  - intros l1 l2 s b i' E. destruct (snoc_middle _ _ _ _ _ E) as [(_ & -> & [= <- <- _])|(l2' & -> & ->)]; [done|by eapply Hr].
Qed.

Lemma thread_ok_note log n t : thread_ok log t -> thread_ok (log ++ [n]) t.
Proof. destruct t; cbn; auto using asked_well_note, passed_well_note. Qed.

Lemma threads_note log n (ts : gmap nat thread) : map_Forall (fun _ t => thread_ok log t) ts -> map_Forall (fun _ t => thread_ok (log ++ [n]) t) ts.
Proof. intros Hf k t Hk. by apply thread_ok_note, (Hf k). Qed.

Lemma threads_set log k t (ts : gmap nat thread) : thread_ok log t -> map_Forall (fun _ t => thread_ok log t) ts -> map_Forall (fun _ t => thread_ok log t) (<[k := t]> ts).
Proof. intros. by apply map_Forall_insert_2. Qed.

Lemma threads_end log k (ts : gmap nat thread) : map_Forall (fun _ t => thread_ok log t) ts -> map_Forall (fun _ t => thread_ok log t) (delete k ts).
Proof. apply map_Forall_delete. Qed.

Lemma check_member_ok sid h : check_member sid h = None -> sid ∈ promptable h /\ sid ∉ readOnly h.
Proof. unfold check_member, membership. repeat case_bool_decide; naive_solver. Qed.

Lemma check_active_ok sid h : check_active sid h = None -> f_active h = "" \/ f_active h = sid.
Proof. unfold check_active. destruct (String.eqb_spec (f_active h) ""); [by left|]. destruct (String.eqb_spec (f_active h) sid); [by right|done]. Qed.

Lemma goes_on_ok k t x : thread_ok (c_log x) t -> follows_conn x -> follows_conn (goes_on k t x).
Proof. intros Ht [Hf Hts]. split; [done|]. by apply threads_set. Qed.

Lemma finish_ok k x : follows_conn x -> follows_conn (finish k x).
Proof. intros [Hf Hts]. split; [done|]. by apply threads_end. Qed.

Lemma with_p_ok p x : follows_conn x -> follows_conn (with_p p x).
Proof. done. Qed.

Lemma meets_ok x : follows_conn x -> follows_conn (meets x).
Proof. done. Qed.

#[local] Hint Resolve goes_on_ok finish_ok with_p_ok meets_ok : core.

(** A call that notes something keeps what the other calls rely on. *)
Lemma noted_ok n h x : follows h (c_log x ++ [n]) -> follows_conn x -> follows_conn (noted n h x).
Proof. intros Hf [_ Hts]. split; [done|]. by apply threads_note. Qed.

Lemma plain_note_ok n x : n = Asked (match n with Asked s | Passed s => s | _ => "" end) \/ n = Passed (match n with Asked s | Passed s => s | _ => "" end) ->
  follows_conn x -> follows_conn (noted n (c_h x) x).
Proof. intros Hn Hx. apply noted_ok; [|done]. destruct Hx as [Hf _]. destruct Hn as [-> | ->]; by apply follows_note. Qed.

Lemma run_prompt_binding evaluate sid blocks h (p : plugin R) :
  let '(h', p', _, (b, i), _) := run_prompt TempDir Getuid connectionID evaluate sid blocks h p in
  b = f_binding h /\ i = prompt_input blocks /\
  match e_new (evaluate i) with
  | Some w => match handleNew TempDir Getuid w connectionID b p with
              | (q, Ok _) => h' = set_binding "" h /\ p' = q /\ p_bindings q !! connectionID = None
              | (_, Prelude.Err _) => h' = h /\ p' = p
              end
  | None => h' = h /\ p' = p
  end.
Proof.
  unfold run_prompt. cbv zeta. destruct (e_new (evaluate (prompt_input blocks))) as [w|] eqn:Ew; [|cbv iota beta; rewrite Ew; by destruct h].
  pose proof (new_lookup w (f_binding h) p connected) as Hn.
  destruct (handleNew TempDir Getuid w connectionID (f_binding h) p) as [q [b|e]] eqn:E; cbv iota beta; rewrite Ew, E.
  - destruct Hn as [-> Hn]. done.
  - subst q. by destruct h.
Qed.

Lemma step_follows k t x : c_threads x !! k = Some t -> follows_conn x -> follows_conn (step_thread k t x).
Proof.
  intros Hk Hx. assert (Ht : thread_ok (c_log x) t) by (destruct Hx as [_ Hts]; by apply (Hts k)).
  destruct t as [w wh gate sid cwd [|]|sid|w sid bound reg|w sid bound reg|w bound|evaluate sid blocks|evaluate sid blocks]; cbn [step_thread].
  - destruct (archived_history _ _ _ _) as [p [|]]; [apply goes_on_ok; [done|by auto]|by auto].
  - destruct (negb _); [by auto|]. destruct (LoadBoundSessionForConnection _ _ _ _ _ _ _ _ _ _) as [p [|]]; [apply goes_on_ok; [done|by auto]|by auto].
  - apply finish_ok, noted_ok; [|done]. apply follows_readonly, Hx.
  - apply goes_on_ok; [done|]. apply noted_ok; [|done]. apply follows_declared; [apply Ht|apply Hx].
  - cbv zeta. assert (Hn : follows_conn (noted (Selected bound) (set_binding bound (c_h x)) x)) by (apply noted_ok; [apply follows_selected, Hx|done]).
    destruct reg; [by apply finish_ok|]. apply goes_on_ok; [apply Ht|done].
  - apply finish_ok. by destruct (String.eqb bound "").
  - destruct (check_active sid (c_h x)) eqn:Ea; [by apply finish_ok|]. apply goes_on_ok; [|apply plain_note_ok; [by right|done]].
    apply check_active_ok in Ea. destruct Hx as [[Hm Ha _ _] _]. destruct Ht as (a1 & a2 & E & Hd). cbn [thread_ok noted c_log].
    exists a1, a2, []. split; [by rewrite E, <- app_assoc|]. split; [done|]. rewrite <- E. destruct Ha as [[Hact Hno]|[Hne Ha]].
    + exfalso. destruct Hd as (u & b & v & -> & _). apply (Hno sid b). rewrite E, <- app_assoc. apply elem_of_app. right. by left.
    + destruct Ea as [?|<-]; [done|exact Ha].
  - pose proof (run_prompt_binding evaluate sid blocks (c_h x) (c_p x)) as Hr. destruct (run_prompt _ _ _ _ _ _ _ _) as [[[[h p] out] [b i]] e]. cbv zeta.
    destruct Hr as (-> & -> & Hr). assert (Hran : follows_conn (noted (Ran sid (f_binding (c_h x)) (prompt_input blocks)) (c_h x) (with_p p x))).
    { apply noted_ok; [|done]. apply follows_ran; [exact Ht|apply Hx]. }
    apply finish_ok. destruct (e_new _) as [w|]; [|by destruct Hr as [-> _]].
    destruct (handleNew _ _ _ _ _ _) as [q [u|u]]; cbn [is_ok snd]; [|by destruct Hr as [-> _]].
    destruct Hr as (-> & _). split; [|apply threads_note, Hran]. apply follows_renewal, Hran.
Qed.

Lemma act_follows a x : named a -> follows_conn x -> follows_conn (do_act a x).
Proof.
  intros Hn Hx. destruct a as [k w gate sid cwd|k w wh gate sid cwd|k evaluate sid blocks|k|q]; cbn [do_act].
  - unfold begins. destruct (c_threads x !! k); [done|]. destruct (negb _); [done|].
    destruct (CreateBoundSession _ _ _ _ _ _ _ _) as [p [bound|e]] eqn:Ec; [|by auto]. apply goes_on_ok; [|by auto]. split; [exact Hn|by eapply create_named].
  - unfold begins. destruct (c_threads x !! k); [done|]. destruct (SessionArchived _ _ _) as [p arch]. by apply goes_on_ok; [|auto].
  - unfold begins. destruct (c_threads x !! k); [done|]. destruct (check_member sid (c_h x)) eqn:Em; [done|].
    apply goes_on_ok; [|apply plain_note_ok; [by left|done]]. apply check_member_ok in Em as [Hp Hro]. exists (c_log x), []. split; [done|]. by apply Hx.
  - destruct (c_threads x !! k) as [t|] eqn:E; [by apply step_follows|done].
  - by case_decide.
Qed.

Lemma not_member sid h e : check_member sid h = Some e -> sid ∉ promptable h \/ sid ∈ readOnly h.
Proof. unfold check_member, membership. repeat case_bool_decide; naive_solver. Qed.

Lemma declared_once log s b v s' b' v' : declared_last log s b v -> declared_last log s' b' v' -> s = s' /\ b = b' /\ v = v'.
Proof. intros (l1 & -> & H1) (l2 & E & H2). apply split_twice in E as [([= -> ->] & ->)|[Hx|Hx]]; [done|by apply H1 in Hx|by apply H2 in Hx]. Qed.

(** *** When declarations do not meet *)

(** The last declaration, with [binding] selected: what the handler knows of it. *)
Definition latest (h : FrontendHandler) (log : list note) (binding : string) : Prop :=
  f_active h = "" /\ promptable h = ∅ /\ (forall s b, Declared s b ∉ log) /\ binding = "" \/
  exists sid bound since, declared_last log sid bound since /\ sid <> "" /\ f_active h = sid /\ sid ∈ promptable h /\ (sid ∈ readOnly h <-> ReadOnly sid ∈ since)
    /\ binding = if bool_decide (Renewal ∈ since) then "" else bound.

Definition registered (p : plugin R) : string := default "" (p_bindings p !! connectionID).

(** Where the one declaration under way has come to, or that there is none. *)
Definition phase (ot : option thread) (h : FrontendHandler) (p : plugin R) (log : list note) : Prop :=
  match ot with
  | Some (Remembering _ _ bound true) => latest h log (f_binding h) /\ registered p = bound
  | Some (Selecting _ _ bound r) => latest h log bound /\ (r = true -> registered p = bound)
  | Some (Registering _ bound) => latest h log (f_binding h) /\ f_binding h = bound
  | _ => latest h log (f_binding h) /\ f_binding h = registered p
  end.

Definition sole (ts : gmap nat thread) (ot : option thread) : Prop :=
  match ot with
  | None => map_Forall (fun _ t => declaring t = false) ts
  | Some t => exists k, ts !! k = Some t /\ declaring t = true /\ forall k' t', ts !! k' = Some t' -> declaring t' = true -> k' = k
  end.

Definition in_order (x : conn) : Prop := c_crossed x = false -> exists ot, sole (c_threads x) ot /\ phase ot (c_h x) (c_p x) (c_log x).

Lemma sole_other ts ot k t : sole ts ot -> (forall t0, ts !! k = Some t0 -> declaring t0 = false) -> declaring t = false -> sole (<[k := t]> ts) ot.
Proof.
  intros Hs Hk Ht. destruct ot as [t0|]; cbn in *.
  - destruct Hs as (k0 & Hk0 & Hd & Hone). assert (k <> k0) by (intros ->; rewrite (Hk _ Hk0) in Hd; done). exists k0. split; [by rewrite lookup_insert_ne|]. split; [done|].
    intros k' t' [[<- <-]|[_ Hk']]%lookup_insert_Some Hd'; [congruence|by apply (Hone k' t')].
  - by apply map_Forall_insert_2.
Qed.

Lemma sole_other_end ts ot k : sole ts ot -> (forall t0, ts !! k = Some t0 -> declaring t0 = false) -> sole (delete k ts) ot.
Proof.
  intros Hs Hk. destruct ot as [t0|]; cbn in *; [|by apply map_Forall_delete].
  destruct Hs as (k0 & Hk0 & Hd & Hone). assert (k <> k0) by (intros ->; rewrite (Hk _ Hk0) in Hd; done). exists k0. split; [by rewrite lookup_delete_ne|]. split; [done|].
  intros k' t' [_ Hk']%lookup_delete_Some. by apply Hone.
Qed.

Lemma sole_own ts ot k t : sole ts ot -> ts !! k = Some t -> declaring t = true ->
  ot = Some t /\ sole (delete k ts) None /\ forall t', declaring t' = true -> sole (<[k := t']> ts) (Some t').
Proof.
  intros Hs Hk Ht. destruct ot as [t0|]; cbn in *; [|by rewrite (Hs k t Hk) in Ht].
  destruct Hs as (k0 & Hk0 & _ & Hone). pose proof (Hone k t Hk Ht) as ->. rewrite Hk in Hk0. injection Hk0 as <-. split; [done|]. split.
  - intros k' t' [Hne Hk']%lookup_delete_Some. destruct (declaring t') eqn:E; [by rewrite (Hone k' t') in Hne|done].
  - intros t' Ht'. exists k0. split; [by rewrite lookup_insert_eq|]. split; [done|]. intros k' t1 [[<- _]|[_ Hk']]%lookup_insert_Some Hd; [done|by apply (Hone k' t1)].
Qed.

Lemma sole_new ts k t : sole ts None -> declaring t = true -> sole (<[k := t]> ts) (Some t).
Proof.
  intros Hs Ht. exists k. split; [by rewrite lookup_insert_eq|]. split; [done|]. intros k' t' [[<- _]|[_ Hk']]%lookup_insert_Some Hd; [done|].
  by rewrite (Hs k' t' Hk') in Hd.
Qed.

Lemma sole_at_rest x ot : sole (c_threads x) ot -> at_rest x = true -> ot = None.
Proof.
  intros Hs Hr. apply bool_decide_eq_true in Hr. destruct ot as [t|]; [|done]. destruct Hs as (k & Hk & Hd & _). by rewrite (Hr k t Hk) in Hd.
Qed.

Lemma latest_note h log n b :
  (forall s b, n <> Declared s b) -> n <> Renewal -> (forall s, n <> ReadOnly s) -> latest h log b -> latest h (log ++ [n]) b.
Proof.
  intros H1 H2 H3 [(Ha & Hp & Hn & ->)|(s & b0 & v & Hl & Hs & Ha & Hin & Hro & ->)].
  - left. split_and!; [done|done| |done]. intros s b. apply not_in_snoc; [done|]. intros E. by apply (H1 s b).
  - right. exists s, b0, (v ++ [n]). split_and!; try done; [by apply declared_last_note| |].
    + rewrite Hro, elem_of_app, list_elem_of_singleton. split; [by left|]. intros [|E]; [done|]. by destruct (H3 s).
    + rewrite (bool_decide_ext (Renewal ∈ v ++ [n]) (Renewal ∈ v)); [done|]. rewrite elem_of_app, list_elem_of_singleton. split; [by intros [|]|by left].
Qed.

Lemma latest_declared h log sid bound : sid <> "" -> latest (remember sid h) (log ++ [Declared sid bound]) bound.
Proof.
  intros Hs. right. exists sid, bound, []. split_and!; cbn; try done.
  - exists log. split; [done|]. intros s b. apply not_elem_of_nil.
  - set_solver.
  - split; [set_solver|]. by intros ?%not_elem_of_nil.
Qed.

Lemma latest_readonly h log b sid : latest h log b -> latest (rememberReadOnly sid h) (log ++ [ReadOnly sid]) b.
Proof.
  intros [(Ha & Hp & Hn & ->)|(s & b0 & v & Hl & Hs & Ha & Hin & Hro & ->)].
  - left. split_and!; [done|done| |done]. intros s b. by apply not_in_snoc.
  - right. exists s, b0, (v ++ [ReadOnly sid]). split_and!; try done; [by apply declared_last_note| |].
    + cbn. rewrite elem_of_union, elem_of_singleton, elem_of_app, list_elem_of_singleton, Hro. split; [intros [->|]; auto|intros [|[=]]; auto].
    + rewrite (bool_decide_ext (Renewal ∈ v ++ [ReadOnly sid]) (Renewal ∈ v)); [done|]. rewrite elem_of_app, list_elem_of_singleton. split; [by intros [|]|by left].
Qed.

Lemma latest_renewed h log b : latest h log b -> latest h (log ++ [Renewal]) "".
Proof.
  intros [(Ha & Hp & Hn & ->)|(s & b0 & v & Hl & Hs & Ha & Hin & Hro & ->)].
  - left. split_and!; [done|done| |done]. intros s b. by apply not_in_snoc.
  - right. exists s, b0, (v ++ [Renewal]). split_and!; try done; [by apply declared_last_note| |].
    + rewrite Hro, elem_of_app, list_elem_of_singleton. split; [by left|by intros [|]].
    + rewrite bool_decide_true; [done|]. apply elem_of_app. right. by left.
Qed.

(** Notes that change nothing, archives, and others keep a declaration where it is. *)
Lemma phase_note ot h p log n :
  (forall s b, n <> Declared s b) -> n <> Renewal -> (forall s, n <> ReadOnly s) -> phase ot h p log -> phase ot h p (log ++ [n]).
Proof. intros H1 H2 H3. destruct ot as [[| |? ? ? []| | | |]|]; cbn; intros [Hl Hr]; (split; [by apply latest_note|done]). Qed.

Lemma phase_readonly ot h p log sid : phase ot h p log -> phase ot (rememberReadOnly sid h) p (log ++ [ReadOnly sid]).
Proof. destruct ot as [[| |? ? ? []| | | |]|]; cbn; intros [Hl Hr]; (split; [by apply latest_readonly|done]). Qed.

Lemma phase_others ot h p q log : p_bindings q !! connectionID = p_bindings p !! connectionID -> phase ot h p log -> phase ot h q log.
Proof. intros E. destruct ot as [[| |? ? ? []| | | |]|]; unfold phase, registered; by rewrite ?E. Qed.

(** A call that is no declaration goes on or ends. *)
Lemma in_order_next k t x h p log :
  in_order x -> (forall t0, c_threads x !! k = Some t0 -> declaring t0 = false) -> declaring t = false ->
  (forall ot, phase ot (c_h x) (c_p x) (c_log x) -> phase ot h p log) ->
  in_order (goes_on k t (mkConn h p (c_threads x) log (c_crossed x))).
Proof. intros Hi Hk Ht Hp Hc. destruct (Hi Hc) as (ot & Hs & Hph). exists ot. split; [by apply sole_other|by apply Hp]. Qed.

Lemma in_order_end k x h p log :
  in_order x -> (forall t0, c_threads x !! k = Some t0 -> declaring t0 = false) ->
  (forall ot, phase ot (c_h x) (c_p x) (c_log x) -> phase ot h p log) ->
  in_order (finish k (mkConn h p (c_threads x) log (c_crossed x))).
Proof. intros Hi Hk Hp Hc. destruct (Hi Hc) as (ot & Hs & Hph). exists ot. split; [by apply sole_other_end|by apply Hp]. Qed.

(** What may only happen with no declaration under way. *)
Lemma in_order_met x : in_order x -> c_crossed (meets x) = false -> sole (c_threads x) None /\ phase None (c_h x) (c_p x) (c_log x).
Proof.
  intros Hi [Hc Hr%negb_false_iff]%orb_false_iff. destruct (Hi Hc) as (ot & Hs & Hp). pose proof (sole_at_rest x ot Hs Hr) as ->. done.
Qed.

Lemma step_in_order k t x : c_threads x !! k = Some t -> follows_conn x -> in_order x -> in_order (step_thread k t x).
Proof.
  intros Hk Hx Hi. assert (Ht : thread_ok (c_log x) t) by (destruct Hx as [_ Hts]; by apply (Hts k)).
  assert (Hq : declaring t = false -> forall t0, c_threads x !! k = Some t0 -> declaring t0 = false) by (intros Hd t0; rewrite Hk; by intros [= <-]).
  assert (Hown : c_crossed x = false -> declaring t = true -> phase (Some t) (c_h x) (c_p x) (c_log x) /\ sole (delete k (c_threads x)) None /\
    forall t', declaring t' = true -> sole (<[k := t']> (c_threads x)) (Some t')).
  { intros Hc Hd. destruct (Hi Hc) as (ot & Hs & Hp). by destruct (sole_own _ _ _ _ Hs Hk Hd) as (-> & ? & ?). }
  destruct t as [w wh gate sid cwd [|]|sid|w sid bound reg|w sid bound reg|w bound|evaluate sid blocks|evaluate sid blocks]; cbn [step_thread].
  - pose proof (history_bindings (w_repo wh) (w_close wh) sid (c_p x)) as Hb. destruct (archived_history _ _ _ _) as [p [|]]; cbn in Hb.
    + apply in_order_next; auto. intros ot. apply phase_others. by rewrite Hb.
    + apply in_order_end; auto. intros ot. apply phase_others. by rewrite Hb.
  - destruct (negb _); [apply (in_order_end k x (c_h x) (c_p x) (c_log x)); auto|].
    unfold LoadBoundSessionForConnection. pose proof (load_bindings w sid cwd (c_p x)) as Hb.
    destruct (LoadBoundSession _ _ _ _ _ w sid cwd (c_p x)) as [p [e|]]; cbn in Hb.
    { apply in_order_end; auto. intros ot. apply phase_others. by rewrite Hb. }
    destruct (SessionHistory sid p) as [st|e].
    + intros Hc. destruct (in_order_met x Hi Hc) as [Hs [Hl Hr]]. exists (Some (Remembering w sid sid true)). split; [by apply sole_new|].
      split; [done|]. unfold registered. cbn [goes_on meets with_p c_p]. rewrite bind_lookup by done. cbn in Ht. apply String.eqb_neq in Ht. by rewrite Ht.
    + apply in_order_end; auto. intros ot. apply phase_others. by rewrite release_bindings, Hb.
  - apply in_order_end; auto. intros ot. apply phase_readonly.
  - intros Hc. destruct (Hown Hc eq_refl) as (Hp & _ & Hs). exists (Some (Selecting w sid bound reg)). split; [by apply Hs|].
    split; [by apply latest_declared, Ht|]. intros ->. by destruct Hp.
  - cbv zeta. destruct reg; intros Hc; destruct (Hown Hc eq_refl) as ([Hl Hr] & Hn & Hs).
    + exists None. split; [done|]. split; [by apply latest_note|]. symmetry. by apply Hr.
    + exists (Some (Registering w bound)). split; [by apply Hs|]. split; [by apply latest_note|done].
  - cbn in Ht. apply String.eqb_neq in Ht as Hne. rewrite Hne. intros Hc. destruct (Hown Hc eq_refl) as ([Hl Hr] & Hn & _). exists None. split; [done|].
    split; [done|]. unfold registered. cbn [finish with_p c_p c_h]. rewrite bind_lookup, Hne by done. done.
  - destruct (check_active sid (c_h x)); [apply (in_order_end k x (c_h x) (c_p x) (c_log x)); auto|].
    apply (in_order_next k _ x (c_h x) (c_p x)); auto. intros ot. by apply phase_note.
  - pose proof (run_prompt_binding evaluate sid blocks (c_h x) (c_p x)) as Hr. destruct (run_prompt _ _ _ _ _ _ _ _) as [[[[h p] out] [b i]] e]. cbv zeta.
    destruct Hr as (-> & -> & Hr).
    assert (Hsame : h = c_h x -> p = c_p x -> in_order (finish k (noted (Ran sid (f_binding (c_h x)) (prompt_input blocks)) h (with_p p x)))).
    { intros -> ->. apply (in_order_end k x (c_h x) (c_p x)); auto. intros ot. by apply phase_note. }
    destruct (e_new _) as [w|]; [|destruct Hr; auto].
    destruct (handleNew _ _ _ _ _ _) as [q [u|u]]; cbn [is_ok snd]; [|destruct Hr; auto].
    destruct Hr as (-> & -> & Hno). intros Hc. destruct (in_order_met x Hi Hc) as [Hs [Hl Hr]]. exists None.
    split; [by apply map_Forall_delete|]. split; [|unfold registered; cbn; by rewrite Hno].
    cbn. eapply latest_renewed, latest_note; [done..|exact Hl].
Qed.

Lemma act_in_order a x : named a -> follows_conn x -> in_order x -> in_order (do_act a x).
Proof.
  intros Hn Hx Hi. destruct a as [k w gate sid cwd|k w wh gate sid cwd|k evaluate sid blocks|k|q]; cbn [do_act].
  - unfold begins. destruct (c_threads x !! k) eqn:Ek; [done|]. destruct (negb _); [done|]. pose proof (create_bindings w cwd (c_p x)) as Hb.
    destruct (CreateBoundSession _ _ _ _ _ w cwd (c_p x)) as [p [bound|e]]; cbn in Hb.
    + intros Hc. destruct (in_order_met x Hi Hc) as [Hs Hp]. exists (Some (Remembering w sid bound false)). split; [by apply sole_new|].
      apply (phase_others None _ (c_p x)); [cbn; by rewrite Hb|done].
    + intros Hc. destruct (Hi Hc) as (ot & Hs & Hp). exists ot. split; [done|]. apply (phase_others ot _ (c_p x)); [cbn; by rewrite Hb|done].
  - unfold begins. destruct (c_threads x !! k) eqn:Ek; [done|]. pose proof (archived_bindings (w_repo w) sid (c_p x)) as Hb.
    destruct (SessionArchived (w_repo w) sid (c_p x)) as [p arch]; cbn in Hb. apply (in_order_next k _ x (c_h x) p (c_log x)); auto; [by rewrite Ek|]. intros ot. apply phase_others. by rewrite Hb.
  - unfold begins. destruct (c_threads x !! k) eqn:Ek; [done|]. destruct (check_member sid (c_h x)); [done|].
    apply (in_order_next k _ x (c_h x) (c_p x)); auto; [by rewrite Ek|]. intros ot. by apply phase_note.
  - destruct (c_threads x !! k) as [t|] eqn:E; [by apply step_in_order|done].
  - case_decide; [|done]. intros Hc. destruct (Hi Hc) as (ot & Hs & Hp). exists ot. split; [done|]. by apply (phase_others ot _ (c_p x)).
Qed.

Definition connected_to (p : plugin R) : conn := mkConn new_frontend p ∅ [] false.

Lemma acts_ok acts p : p_bindings p !! connectionID = None -> Forall named acts ->
  follows_conn (run_acts acts (connected_to p)) /\ in_order (run_acts acts (connected_to p)).
Proof.
  intros Hp Hn. assert (H0 : follows_conn (connected_to p) /\ in_order (connected_to p)).
  { split; [split|].
    - split; cbn; [set_solver|left|left|].
      + split; [done|]. intros s b. apply not_elem_of_nil.
      + split; [|done]. intros b. apply not_elem_of_nil.
      + intros l1 l2 sid b i E. by destruct l1.
    - apply map_Forall_empty.
    - intros _. exists None. split; [apply map_Forall_empty|]. split; [|unfold registered; cbn; by rewrite Hp]. left. split_and!; [done|done| |done].
      intros s b. apply not_elem_of_nil. }
  revert H0. generalize (connected_to p). unfold run_acts. induction Hn as [|a acts Ha _ IH]; intros x [Hf Ho]; [done|]. cbn. apply IH.
  split; [by apply act_follows|by apply act_in_order].
Qed.

(** C30: a prompt goes where the client last said. Let the calls of a connection
    interleave step by step (each session/new, session/load and session/prompt in
    a goroutine of its own), and others do what they do; ids are not empty. Every prompt that is
    evaluated had passed its two checks: when it was asked, its session had been
    declared and not loaded as an archive since, and when it was let through, its
    session was the last one declared; and it runs with what the connection has
    selected when it resolves its session: the last selection, or the current
    session after a /new (so a declaration that comes between the second check and
    the evaluation takes the prompt along: [a_redeclaration_takes_the_prompt]).
    If no declaration has met another one or a /new under way, then, whenever none
    is under way, the registry of the bindings says the same as the connection, and
    a prompt that is not disturbed is evaluated exactly when its session is the one
    the last session/new or session/load declared and that was not loaded as an
    archive since; it then runs on the session made or loaded for it, or on the
    current one after a /new. (What comes of declarations that meet:
    [crossed_declarations_part_ways].) *)
Theorem a_prompt_goes_where_it_was_declared p0 acts :
  p_bindings p0 !! connectionID = None -> Forall named acts ->
  let x := run_acts acts (connected_to p0) in
  (forall l1 l2 sid b input, c_log x = l1 ++ Ran sid b input :: l2 ->
     (exists a1 a2 a3, l1 = a1 ++ Asked sid :: a2 ++ Passed sid :: a3 /\ declared_in sid a1 /\
        exists bound since, declared_last (a1 ++ Asked sid :: a2) sid bound since) /\
     selected_in l1 b) /\
  (c_crossed x = false -> at_rest x = true ->
     f_binding (c_h x) = default "" (p_bindings (c_p x) !! connectionID) /\
     forall evaluate sid blocks,
       let '(_, _, _, ran, _) := Prompt TempDir Getuid connectionID evaluate sid blocks (c_h x) (c_p x) in
       match ran with
       | Some (binding, input) =>
           input = prompt_input blocks /\ exists bound since, declared_last (c_log x) sid bound since /\ (ReadOnly sid ∉ since) /\
             binding = (if bool_decide (Renewal ∈ since) then "" else bound)
       | None => forall bound since, declared_last (c_log x) sid bound since -> ReadOnly sid ∈ since
       end).
Proof.
  intros Hp Hn. destruct (acts_ok acts p0 Hp Hn) as [Hf Ho]. cbv zeta. set (x := run_acts acts (connected_to p0)) in *. split; [apply Hf|].
  intros Hc Hr. destruct (Ho Hc) as (ot & Hs & Hph). pose proof (sole_at_rest x ot Hs Hr) as ->. destruct Hph as [Hl Hb]. split; [exact Hb|].
  intros evaluate sid blocks. unfold Prompt. destruct (check_member sid (c_h x)) eqn:Em; [|destruct (check_active sid (c_h x)) eqn:Ea].
  - intros bound since Hd. destruct Hl as [(_ & _ & Hno & _)|(s & b & v & Hd' & Hs' & Ha & Hin & Hro & _)].
    { destruct Hd as (u & E & _). destruct (Hno sid bound). rewrite E. apply elem_of_app. right. by left. }
    destruct (declared_once _ _ _ _ _ _ _ Hd Hd') as (<- & _ & <-). apply Hro. apply not_member in Em as [Hx|Hx]; [by destruct Hx|done].
  - intros bound since Hd. destruct Hl as [(_ & _ & Hno & _)|(s & b & v & Hd' & Hs' & Ha & Hin & Hro & _)].
    { destruct Hd as (u & E & _). destruct (Hno sid bound). rewrite E. apply elem_of_app. right. by left. }
    destruct (declared_once _ _ _ _ _ _ _ Hd Hd') as (<- & _ & _). unfold check_active in Ea. by rewrite Ha, String.eqb_refl, andb_false_r in Ea.
  - pose proof (run_prompt_binding evaluate sid blocks (c_h x) (c_p x)) as Hrun. destruct (run_prompt _ _ _ _ _ _ _ _) as [[[[h p] out] [b i]] e].
    destruct Hrun as (-> & -> & _). split; [done|]. apply check_member_ok in Em as [Hm Hro']. apply check_active_ok in Ea.
    destruct Hl as [(_ & Hpr & _)|(s & b & v & Hd' & Hs' & Ha & Hin & Hro & ->)]; [rewrite Hpr in Hm; set_solver|].
    destruct Ea as [Ea|Ea]; [by rewrite Ha in Ea|]. assert (s = sid) as -> by congruence. exists b, v. split; [exact Hd'|]. split; [by rewrite <- Hro|reflexivity].
Qed.

(** With nothing in between, the steps of a call are the call. *)
Section in_a_row.
Context (marshal : list availableCommand -> option string) (history : string -> list domain_update) (commands : option (list command)).

Ltac gone := repeat (cbn [finish with_p c_threads c_h c_p c_log]; rewrite lookup_delete_eq; cbv beta iota).
Ltac idle H := repeat (rewrite H; cbv beta iota; cbn [with_p finish c_threads c_h c_p]); done.

Lemma create_in_a_row k w gate sid cwd x : c_threads x !! k = None ->
  let x' := run_acts [ACreate k w gate sid cwd; AStep k; AStep k; AStep k] x in
  let '(h, p, _, _) := CreateSession Abs EvalSymlinks TempDir Getuid AllowedWorkDir marshal connectionID commands w gate sid cwd (c_h x) (c_p x) in
  c_h x' = h /\ c_p x' = p.
Proof.
  intros Hk. unfold run_acts, CreateSession. cbn [foldl do_act]. unfold begins. rewrite Hk. destruct (negb _); [idle Hk|].
  destruct (CreateBoundSession _ _ _ _ _ w cwd (c_p x)) as [p [bound|e]]; [|cbn [with_p c_threads]; idle Hk].
  cbn [goes_on c_threads]. rewrite lookup_insert_eq. cbn [step_thread goes_on noted c_threads]. rewrite lookup_insert_eq. cbv zeta. cbn [step_thread goes_on noted c_threads].
  rewrite lookup_insert_eq. cbn [step_thread]. by destruct (String.eqb bound "").
Qed.

Lemma load_in_a_row k w wh gate sid cwd x : c_threads x !! k = None ->
  let x' := run_acts [ALoad k w wh gate sid cwd; AStep k; AStep k; AStep k] x in
  let '(h, p, _, _) := LoadSession Abs EvalSymlinks TempDir Getuid AllowedWorkDir marshal history connectionID commands w wh gate sid cwd (c_h x) (c_p x) in
  c_h x' = h /\ c_p x' = p.
Proof.
  intros Hk. unfold run_acts, LoadSession. cbn [foldl do_act]. unfold begins. rewrite Hk. destruct (SessionArchived (w_repo w) sid (c_p x)) as [p [|]]; cbn [goes_on with_p c_threads c_h c_p]; rewrite lookup_insert_eq; cbn [step_thread c_p goes_on with_p].
  - destruct (archived_history _ _ sid p) as [q [st|]].
    + cbn [goes_on c_threads]. rewrite lookup_insert_eq. cbn [step_thread finish c_threads]. by rewrite lookup_delete_eq.
    + by gone.
  - destruct (negb _); [by gone|].
    destruct (LoadBoundSessionForConnection _ _ _ _ _ w sid cwd connectionID p) as [q [st|e]].
    + cbn [goes_on c_threads]. rewrite lookup_insert_eq. cbn [step_thread goes_on noted c_threads]. by rewrite lookup_insert_eq.
    + gone. by destruct e.
Qed.

Lemma prompt_in_a_row k evaluate sid blocks x : c_threads x !! k = None ->
  let x' := run_acts [APrompt k evaluate sid blocks; AStep k; AStep k] x in
  let '(h, p, _, ran, _) := Prompt TempDir Getuid connectionID evaluate sid blocks (c_h x) (c_p x) in
  c_h x' = h /\ c_p x' = p /\
  match ran with
  | Some (b, i) => Asked sid ∈ c_log x' /\ Passed sid ∈ c_log x' /\ Ran sid b i ∈ c_log x'
  | None => forall b i, Ran sid b i ∈ c_log x' -> Ran sid b i ∈ c_log x
  end.
Proof.
  intros Hk. unfold run_acts, Prompt. cbn [foldl do_act]. unfold begins. rewrite Hk. destruct (check_member sid (c_h x)); [idle Hk|].
  cbn [goes_on noted c_threads]. rewrite lookup_insert_eq. cbn [step_thread goes_on noted c_h]. destruct (check_active sid (c_h x)).
  { cbn [finish c_threads c_h c_p c_log]. rewrite lookup_delete_eq. split_and!; [done..|]. intros b i [H1|H1]%elem_of_app; [done|]. by apply list_elem_of_singleton in H1. }
  cbn [goes_on noted c_threads]. rewrite lookup_insert_eq. cbn [step_thread goes_on noted c_h c_p].
  pose proof (run_prompt_binding evaluate sid blocks (c_h x) (c_p x)) as Hr. destruct (run_prompt _ _ _ _ _ _ _ _) as [[[[h p] out] [b i]] e]. cbv zeta.
  cbn [finish c_threads c_h c_p c_log noted with_p meets].
  match goal with |- context [if ?c then _ else _] => destruct c end; cbn [finish c_threads c_h c_p c_log noted with_p meets goes_on]; (split_and!; [done|done|set_solver..]).
Qed.
End in_a_row.
End where_a_prompt_goes.

(** One session is made and prompted, another loaded, then /new. *)
Definition say (text : string) : string -> evaluation (W := bool) := fun _ => mkEval None [text] None.
Definition sample_acts : list (act (R := shelf) (W := bool)) :=
  [ACreate 0 calm false "t1" "/work"; AStep 0; AStep 0; AStep 0; APrompt 1 (say "hi") "t1" [TextBlock "x"]; AStep 1; AStep 1;
   ALoad 2 calm calm false "s0" ""; AStep 2; AStep 2; AStep 2; APrompt 3 (fun _ => mkEval (Some calm) [] None) "s0" [TextBlock "/new"]; AStep 3; AStep 3].
Definition sample_plugin : plugin shelf := startSession (R := shelf) (W := bool) "/tmp" 1000 calm None (NewPlugin [] (mkShelf ∅ ∅)).
#[local] Notation sample_run acts := (run_acts (R := shelf) (W := bool) Some Some "/tmp" 1000 "" "c1" acts (connected_to sample_plugin)).

Lemma a_prompt_goes_where_it_was_declared_witness :
  c_log (sample_run sample_acts) =
    [Declared "t1" "s1"; Selected "s1"; Asked "t1"; Passed "t1"; Ran "t1" "s1" "x"; Declared "s0" "s0"; Selected "s0"; Asked "s0"; Passed "s0"; Ran "s0" "s0" "/new"; Renewal]
  /\ f_binding (c_h (sample_run sample_acts)) = default "" (p_bindings (c_p (sample_run sample_acts)) !! "c1")
  /\ selected_in [Declared "t1" "s1"; Selected "s1"; Asked "t1"; Passed "t1"] "s1".
Proof.
  assert (Hids : forall (w : bool) cwd r r' f, repo_create w cwd r = (r', Some f) -> st_id f <> "").
  { intros w cwd r r' f. cbn. destruct (w && _); [|done]. by intros [= _ <-]. }
  destruct (a_prompt_goes_where_it_was_declared (R := shelf) (W := bool) Some Some "/tmp" 1000 "" "c1" ltac:(discriminate) Hids sample_plugin sample_acts) as [H1 H2].
  - vm_compute. reflexivity.
  - repeat constructor; discriminate.
  - assert (E : c_log (sample_run sample_acts) =
      [Declared "t1" "s1"; Selected "s1"; Asked "t1"; Passed "t1"; Ran "t1" "s1" "x"; Declared "s0" "s0"; Selected "s0"; Asked "s0"; Passed "s0"; Ran "s0" "s0" "/new"; Renewal])
      by (vm_compute; reflexivity).
    split; [exact E|]. split.
    + assert (Hc : c_crossed (sample_run sample_acts) = false) by (vm_compute; reflexivity).
      assert (Hr : at_rest (sample_run sample_acts) = true) by (vm_compute; reflexivity).
      destruct (H2 Hc Hr) as [H3 _]. exact H3.
    + exact (proj2 (H1 [Declared "t1" "s1"; Selected "s1"; Asked "t1"; Passed "t1"] _ "t1" "s1" "x" E)).
Defined.

(** A session/new between the second check of a prompt and its evaluation: the
    prompt of the first session runs on the second. *)
Example a_redeclaration_takes_the_prompt :
  c_log (sample_run [ACreate 0 calm false "t1" "/work"; AStep 0; AStep 0; AStep 0; APrompt 1 (say "hi") "t1" [TextBlock "x"]; AStep 1;
    ACreate 2 calm false "t2" "/work"; AStep 2; AStep 2; AStep 2; AStep 1]) =
  [Declared "t1" "s1"; Selected "s1"; Asked "t1"; Passed "t1"; Declared "t2" "s2"; Selected "s2"; Ran "t1" "s2" "x"].
Proof. vm_compute. reflexivity. Qed.

(** A prompt that overtakes its own session/load: the session is remembered before it
    is selected, so that the prompt runs on the session selected before. *)
Example a_prompt_overtakes_its_load :
  c_log (sample_run [ACreate 0 calm false "t1" "/work"; AStep 0; AStep 0; AStep 0; ALoad 1 calm calm false "s0" ""; AStep 1; AStep 1;
    APrompt 2 (say "hi") "s0" [TextBlock "x"]; AStep 2; AStep 2; AStep 1]) =
  [Declared "t1" "s1"; Selected "s1"; Declared "s0" "s0"; Asked "s0"; Passed "s0"; Ran "s0" "s1" "x"; Selected "s0"].
Proof. vm_compute. reflexivity. Qed.

(** Two session/new at once: the gate is free again before either is remembered, so
    that their last steps may come in any order. The session declared last is the
    second one, its prompts run on the first, and the registry counts the second. *)
Example crossed_declarations_part_ways :
  let x := sample_run [ACreate 0 calm false "t1" "/work"; ACreate 1 calm false "t2" "/work"; AStep 0; AStep 1; AStep 1; AStep 0; AStep 0; AStep 1] in
  c_crossed x = true /\ at_rest x = true /\ f_active (c_h x) = "t2" /\ f_binding (c_h x) = "s1" /\ p_bindings (c_p x) !! "c1" = Some "s2" /\
  (Prompt (R := shelf) (W := bool) "/tmp" 1000 "c1" (say "hi") "t2" [TextBlock "x"] (c_h x) (c_p x)).1.2 = Some ("s1", "x").
Proof. vm_compute. auto 10. Qed.


(** ** Points of interest *)

(** A session that was prompted and is then loaded as an archive is in both sets. *)
Example a_session_in_both_sets : membership "s" (rememberReadOnly "s" (remember "s" new_frontend)) = (true, true).
Proof. vm_compute. reflexivity. Qed.

(** Nothing but the line end every turn writes leaves no empty block. *)
Example no_empty_block : write_all [newline] new_output = [] /\ write_all [newline; "ok"; newline] new_output = [commandFence +:+ newline; "ok"; newline; commandFence +:+ newline].
Proof. vm_compute. auto. Qed.
