(* ===== verification/FrontendEvents.v ===== *)
(** * daemon/internal/core/service/acp/xgw.go: the subscriptions of a connection

    Attach, detach, the pump of each subscription and the end of the connection as
    threads: what is done with the mutex of the connection held is one step. The
    hub is the other end of the channels; other clients move the leases. *)

From S2P Require Import Prelude ControlLease.
#[local] Open Scope string_scope.
#[local] Open Scope list_scope.

(** ** xproto.go *)

Definition XAttachModeObserve : string := "observe".
Definition XAttachModeControl : string := "control".

Definition xgwAttachMode (mode : string) : option string :=
  if String.eqb mode "" || String.eqb mode XAttachModeObserve || String.eqb mode XAttachModeControl then Some mode else None.

(** ** The state *)

(** The subscription of the hub with its channel, and the handle: [sub_done] is
    the closed channel of [stop], [sub_closed] says that the contract was closed.
    [sub_open]: the hub has not closed the channel. What was put into the channel,
    what was notified, how many of these after [sub_done], and whether the pump
    has ended on a failed notification, are kept for the theorems. *)
Record xgwSubscription := mkSub {
  sub_session : string;
  sub_channel : list nat;
  sub_open : bool;
  sub_done : bool;
  sub_closed : bool;
  sub_put : list nat;
  sub_sent : list nat;
  sub_late : nat;
  sub_failed : bool;
}.

Definition new_sub (sid : string) (replay : list nat) : xgwSubscription := mkSub sid replay true false false replay [] 0 false.
Definition stop (s : xgwSubscription) : xgwSubscription :=
  if sub_done s then s else mkSub (sub_session s) (sub_channel s) (sub_open s) true true (sub_put s) (sub_sent s) (sub_late s) (sub_failed s).
Definition close_contract (s : xgwSubscription) : xgwSubscription :=
  mkSub (sub_session s) (sub_channel s) (sub_open s) (sub_done s) true (sub_put s) (sub_sent s) (sub_late s) (sub_failed s).
Definition put (e : nat) (s : xgwSubscription) : xgwSubscription :=
  mkSub (sub_session s) (sub_channel s ++ [e]) (sub_open s) (sub_done s) (sub_closed s) (sub_put s ++ [e]) (sub_sent s) (sub_late s) (sub_failed s).
Definition close_channel (s : xgwSubscription) : xgwSubscription :=
  mkSub (sub_session s) (sub_channel s) false (sub_done s) (sub_closed s) (sub_put s) (sub_sent s) (sub_late s) (sub_failed s).
Definition take_one (rest : list nat) (s : xgwSubscription) : xgwSubscription :=
  mkSub (sub_session s) rest (sub_open s) (sub_done s) (sub_closed s) (sub_put s) (sub_sent s) (sub_late s) (sub_failed s).
Definition notify (e : nat) (s : xgwSubscription) : xgwSubscription :=
  mkSub (sub_session s) (sub_channel s) (sub_open s) (sub_done s) (sub_closed s) (sub_put s) (sub_sent s ++ [e]) ((if sub_done s then 1 else 0) + sub_late s) (sub_failed s).
Definition notify_fails (s : xgwSubscription) : xgwSubscription :=
  mkSub (sub_session s) (sub_channel s) (sub_open s) (sub_done s) (sub_closed s) (sub_put s) (sub_sent s) (sub_late s) true.

(** Where a goroutine is: an attach behind its preparation, one that is refused,
    one behind its commit with what it replaced; the pump; a detach and the end of
    the connection with what they still stop. What [Close] does last, with the
    capabilities, is of the capability registry. *)
Inductive pump_pc : Type := PTop | PSelect | PGot (e : nat) | PSending (e : nat) | PLeaving.
Inductive thread : Type :=
  | Prepared (i : nat) (control : bool)
  | Refused (i : nat)
  | Committed (old : option nat) (i : nat)
  | Pump (i : nat) (pc : pump_pc)
  | Detached (i : nat)
  | Closing (l : list nat).

Record connection := mkConnection {
  closed : bool;
  subs : gmap string nat;
  heap : gmap nat xgwSubscription;
  leases : LeaseRegistry;
  threads : gmap nat thread;
}.

Definition with_subs (t : gmap string nat) (c : connection) : connection := mkConnection (closed c) t (heap c) (leases c) (threads c).
Definition with_heap (h : gmap nat xgwSubscription) (c : connection) : connection := mkConnection (closed c) (subs c) h (leases c) (threads c).
Definition with_leases (l : LeaseRegistry) (c : connection) : connection := mkConnection (closed c) (subs c) (heap c) l (threads c).
Definition at_pc (tid : nat) (t : thread) (c : connection) : connection := mkConnection (closed c) (subs c) (heap c) (leases c) (<[tid := t]> (threads c)).
Definition ended (tid : nat) (c : connection) : connection := mkConnection (closed c) (subs c) (heap c) (leases c) (delete tid (threads c)).
Definition on_sub (i : nat) (f : xgwSubscription -> xgwSubscription) (c : connection) : connection := with_heap (alter f i (heap c)) c.

(** ** The steps *)

Section steps.
Context (connectionID : string).

(** [xgwSessionAttach] after [SubscribeEvents] gave the subscription [i]. *)
Definition attach_commit (tid i : nat) (control : bool) (c : connection) : connection :=
  if closed c then at_pc tid (Refused i) c
  else
    match heap c !! i with
    | None => c
    | Some s =>
        let old := subs c !! sub_session s in
        let l := if control then (Acquire (sub_session s) connectionID (leases c)).2 else leases c in
        at_pc tid (Committed old i) (with_leases l (with_subs (<[sub_session s := i]> (subs c)) c))
    end.

(** [xgwSessionDetach] up to the end of its critical section. *)
Definition detach_commit (tid : nat) (sid : string) (control : bool) (c : connection) : connection :=
  let c' := with_leases (if control then Release sid connectionID (leases c) else leases c) (with_subs (delete sid (subs c)) c) in
  match subs c !! sid with Some i => at_pc tid (Detached i) c' | None => c' end.

(** [Close] up to the end of its critical section. *)
Definition close_commit (tid : nat) (c : connection) : connection :=
  mkConnection true ∅ (heap c) (leases c) (<[tid := Closing (map_to_list (subs c)).*2]> (threads c)).

(** One round of [pumpSessionEvents]: [d]: where the select has a choice, whether
    it takes the end; [ok]: whether the notification succeeds. *)
Definition pump_step (tid i : nat) (pc : pump_pc) (d ok : bool) (c : connection) : option connection :=
  match heap c !! i with
  | None => None
  | Some s =>
      match pc with
      | PTop => Some (at_pc tid (Pump i (if sub_done s then PLeaving else PSelect)) c)
      | PSelect =>
          if d then if sub_done s then Some (at_pc tid (Pump i PLeaving) c) else None
          else
            match sub_channel s with
            | e :: rest => Some (at_pc tid (Pump i (PGot e)) (on_sub i (take_one rest) c))
            | [] => if sub_open s then None else Some (at_pc tid (Pump i PLeaving) c)
            end
      | PGot e => Some (at_pc tid (Pump i (if sub_done s then PLeaving else PSending e)) c)
      | PSending e =>
          if ok then Some (at_pc tid (Pump i PTop) (on_sub i (notify e) c))
          else Some (at_pc tid (Pump i PLeaving) (on_sub i notify_fails c))
      | PLeaving => Some (ended tid (if bool_decide (subs c !! sub_session s = Some i) then with_subs (delete (sub_session s) (subs c)) c else c))
      end
  end.

(** [clearSub] is the step of [PLeaving]. What can happen next: *)
Inductive label : Type :=
  | LSubscribed (tid i : nat) (sid : string) (control : bool) (replay : list nat)
  | LDetach (tid : nat) (sid : string) (control : bool)
  | LClose (tid : nat)
  | LRun (tid : nat) (d ok : bool)
  | LPut (i e : nat)
  | LCloseChannel (i : nat)
  | LOthers (l : LeaseRegistry).

Definition fire (x : label) (c : connection) : option connection :=
  match x with
  | LSubscribed tid i sid control replay =>
      if bool_decide (threads c !! tid = None /\ heap c !! i = None) then Some (at_pc tid (Prepared i control) (with_heap (<[i := new_sub sid replay]> (heap c)) c)) else None
  | LDetach tid sid control => if bool_decide (threads c !! tid = None) then Some (detach_commit tid sid control c) else None
  | LClose tid => if bool_decide (threads c !! tid = None) then Some (close_commit tid c) else None
  | LRun tid d ok =>
      match threads c !! tid with
      | None => None
      | Some (Prepared i control) => Some (attach_commit tid i control c)
      | Some (Refused i) => Some (ended tid (on_sub i close_contract c))
      | Some (Committed (Some old) i) => Some (at_pc tid (Committed None i) (on_sub old stop c))
      | Some (Committed None i) => Some (at_pc tid (Pump i PTop) c)
      | Some (Pump i pc) => pump_step tid i pc d ok c
      | Some (Detached i) => Some (ended tid (on_sub i stop c))
      | Some (Closing (i :: l)) => Some (at_pc tid (Closing l) (on_sub i stop c))
      | Some (Closing []) => Some (ended tid (with_leases (ReleaseConnection connectionID (leases c)) c))
      end
  | LPut i e => match heap c !! i with Some s => if sub_open s then Some (on_sub i (put e) c) else None | None => None end
  | LCloseChannel i => Some (on_sub i close_channel c)
  | LOthers l => if bool_decide (map_Forall (fun sid h => h = connectionID -> holder (leases c) sid = connectionID) l) then Some (with_leases l c) else None
  end.
End steps.

(** ** The invariant *)

Definition owned (t : thread) : option nat :=
  match t with Prepared i _ | Refused i | Committed _ i | Pump i _ => Some i | _ => None end.
Definition waits (t : thread) : option nat := match t with Prepared i _ | Refused i => Some i | _ => None end.
Definition stops (t : thread) : list nat := match t with Committed (Some j) _ | Detached j => [j] | Closing l => l | _ => [] end.

(** Nobody needs the subscription any more, or it is over. *)
Definition over (s : xgwSubscription) : Prop := sub_closed s = true \/ sub_open s = false \/ sub_failed s = true.

Definition phase (t : thread) (s : xgwSubscription) : Prop :=
  match t with
  | Prepared _ _ => sub_put s = sub_sent s ++ sub_channel s /\ sub_late s = 0%nat /\ sub_closed s = false
  | Refused _ | Committed _ _ | Pump _ PSelect => sub_put s = sub_sent s ++ sub_channel s /\ sub_late s = 0%nat
  | Pump _ PTop => sub_put s = sub_sent s ++ sub_channel s
  | Pump _ (PGot e) | Pump _ (PSending e) => sub_put s = sub_sent s ++ e :: sub_channel s /\ sub_late s = 0%nat
  | Pump _ PLeaving => over s
  | _ => True
  end.

Section invariant.
Context (connectionID : string).

Definition held (c : connection) (i : nat) : Prop := exists tid t, threads c !! tid = Some t /\ (waits t = Some i \/ i ∈ stops t).

Record sub_ok (s : xgwSubscription) : Prop := {
  k_done : sub_done s = true -> sub_closed s = true;
  k_late : (sub_late s <= 1)%nat;
  k_early : sub_done s = false -> sub_late s = 0%nat;
  k_sent : sub_sent s `prefix_of` sub_put s;
}.

Record inv (c : connection) : Prop := {
  v_table : forall sid i, subs c !! sid = Some i -> exists s, heap c !! i = Some s /\ sub_session s = sid /\ sub_closed s = false;
  v_closed : closed c = true -> subs c = ∅;
  v_owner : forall t1 t2 a b i, threads c !! t1 = Some a -> threads c !! t2 = Some b -> owned a = Some i -> owned b = Some i -> t1 = t2;
  v_thread : forall tid t i, threads c !! tid = Some t -> owned t = Some i -> exists s, heap c !! i = Some s /\ phase t s;
  v_waiting : forall tid t i, threads c !! tid = Some t -> waits t = Some i -> (forall sid, subs c !! sid <> Some i) /\ forall tid' t', threads c !! tid' = Some t' -> i ∉ stops t';
  v_stops : forall tid t j, threads c !! tid = Some t -> j ∈ stops t -> is_Some (heap c !! j) /\ forall sid, subs c !! sid <> Some j;
  v_sub : forall i s, heap c !! i = Some s -> sub_ok s /\ (over s \/ subs c !! sub_session s = Some i \/ held c i);
  v_lease : forall sid, holder (leases c) sid = connectionID -> closed c = false \/ exists tid l, threads c !! tid = Some (Closing l);
}.

(** One subscription changes. *)
Lemma on_sub_inv c i f : inv c -> (forall s, heap c !! i = Some s -> sub_session (f s) = sub_session s /\ (sub_ok s -> sub_ok (f s)) /\ (over s -> over (f s))
    /\ (sub_closed (f s) = true -> sub_closed s = true \/ forall sid, subs c !! sid <> Some i)
    /\ forall tid t, threads c !! tid = Some t -> owned t = Some i -> phase t s -> phase t (f s)) -> inv (on_sub i f c).
Proof.
  intros [] Hf.
  assert (Hl : forall j s', alter f i (heap c) !! j = Some s' -> exists s, heap c !! j = Some s /\ s' = (if decide (j = i) then f s else s)).
  { intros j s'. destruct (decide (j = i)) as [->|Hn]; [rewrite lookup_alter_eq; intros (s & ? & ->)%fmap_Some; by exists s|rewrite lookup_alter_ne by done; intros Hs; by exists s']. }
  assert (Hr : forall j s, heap c !! j = Some s -> alter f i (heap c) !! j = Some (if decide (j = i) then f s else s)).
  { intros j s Hs. destruct (decide (j = i)) as [->|Hn]; [by rewrite lookup_alter_eq, Hs|by rewrite lookup_alter_ne]. }
  split; cbn; try done.
  - intros sid j Hj. destruct (v_table0 sid j Hj) as (s & Hs & Hsid & Hc). exists (if decide (j = i) then f s else s). split; [by apply Hr|]. destruct (decide (j = i)) as [->|]; [|done].
    destruct (Hf s Hs) as (H1 & _ & _ & H4 & _). split; [congruence|]. destruct (sub_closed (f s)); [|done]. destruct (H4 eq_refl) as [|Hn]; [congruence|by destruct (Hn sid)].
  - intros tid t j Ht Ho. destruct (v_thread0 tid t j Ht Ho) as (s & Hs & Hp). exists (if decide (j = i) then f s else s). split; [by apply Hr|]. destruct (decide (j = i)) as [->|]; [|done]. by apply (Hf s Hs) with tid.
  - intros tid t j Ht Hj. destruct (v_stops0 tid t j Ht Hj) as [[s Hs] Hn]. split; [|done]. rewrite (Hr j s Hs). by eexists.
  - intros j s' (s & Hs & ->)%Hl. destruct (v_sub0 j s Hs) as [Hok Hacc]. destruct (decide (j = i)) as [->|]; [|done]. destruct (Hf s Hs) as (H1 & H2 & H3 & _ & _). rewrite H1. split; [by apply H2|].
    destruct Hacc as [|[|]]; auto.
Qed.

(** One thread moves on. *)
Lemma move_inv c tid t t' : inv c -> threads c !! tid = Some t -> (owned t' = None \/ owned t' = owned t) ->
  (forall i s, owned t' = Some i -> heap c !! i = Some s -> phase t s -> phase t' s) -> (waits t' = None \/ waits t' = waits t) -> (forall j, j ∈ stops t' -> j ∈ stops t) ->
  (forall i s, heap c !! i = Some s -> waits t = Some i \/ i ∈ stops t -> waits t' = Some i \/ i ∈ stops t' \/ over s) ->
  (forall l, t = Closing l -> exists l', t' = Closing l') -> inv (at_pc tid t' c).
Proof.
  intros [] Ht Ho Hp Hw Hs Hacc Hcl.
  assert (Hth : forall k x, <[tid := t']> (threads c) !! k = Some x -> exists y, threads c !! k = Some y /\ (k = tid /\ y = t /\ x = t' \/ x = y)).
  { intros k x [[<- <-]|[_ Hk]]%lookup_insert_Some; [exists t; auto|exists x; auto]. }
  split; cbn; try done.
  - intros t1 t2 a b i (a' & Ha & Hea)%Hth (b' & Hb & Heb)%Hth Hoa Hob. apply (v_owner0 t1 t2 a' b' i); [done|done| |].
    + destruct Hea as [(-> & -> & ->)| ->]; [|done]. destruct Ho; congruence.
    + destruct Heb as [(-> & -> & ->)| ->]; [|done]. destruct Ho; congruence.
  - intros k x i (y & Hy & [(-> & -> & ->)| ->])%Hth Hx; [|by apply (v_thread0 k)]. destruct Ho as [Ho|Ho]; [congruence|]. rewrite Hx in Ho. destruct (v_thread0 tid t i Ht (eq_sym Ho)) as (s & Hs' & Hph). exists s. split; [done|]. by apply (Hp i).
  - intros k x i (y & Hy & Hx)%Hth Hwx. assert (Hwy : waits y = Some i). { destruct Hx as [(-> & -> & ->)| ->]; [destruct Hw; congruence|done]. }
    destruct (v_waiting0 k y i Hy Hwy) as [H1 H2]. split; [done|]. intros k' x' (y' & Hy' & Hx')%Hth Hin. apply (H2 k' y' Hy'). destruct Hx' as [(-> & -> & ->)| ->]; auto.
  - intros k x j (y & Hy & Hx)%Hth Hj. apply (v_stops0 k y j Hy). destruct Hx as [(-> & -> & ->)| ->]; auto.
  - intros i s Hi. destruct (v_sub0 i s Hi) as [Hok [|[|(k & y & Hy & Hx)]]]; auto. split; [done|]. destruct (decide (k = tid)) as [->|Hn].
    + assert (y = t) as -> by congruence. destruct (Hacc i s Hi Hx) as [Hx'|[Hx'|]]; auto; right; right; exists tid, t'; cbn; rewrite lookup_insert_eq; auto.
    + right; right. exists k, y. cbn. rewrite lookup_insert_ne by done. auto.
  - intros sid Hh. destruct (v_lease0 sid Hh) as [|(k & l & Hk)]; [by left|right]. destruct (decide (k = tid)) as [->|Hn].
    + assert (t = Closing l) as E by congruence. destruct (Hcl l E) as [l' ->]. exists tid, l'. by rewrite lookup_insert_eq.
    + exists k, l. by rewrite lookup_insert_ne.
Qed.

(** One thread ends. *)
Lemma end_inv c tid t : inv c -> threads c !! tid = Some t -> (forall i s, heap c !! i = Some s -> waits t = Some i \/ i ∈ stops t -> over s) ->
  (forall l, t <> Closing l) \/ (forall sid, holder (leases c) sid <> connectionID) -> inv (ended tid c).
Proof.
  intros [] Ht Hacc Hcl.
  assert (Hth : forall k x, delete tid (threads c) !! k = Some x -> threads c !! k = Some x) by (by intros k x [_ ?]%lookup_delete_Some).
  split; cbn; try done.
  - intros t1 t2 a b i Ha%Hth Hb%Hth. by apply (v_owner0 t1 t2 a b).
  - intros k x i Hx%Hth. by apply (v_thread0 k).
  - intros k x i Hx%Hth Hw. destruct (v_waiting0 k x i Hx Hw) as [H1 H2]. split; [done|]. intros k' x' Hx'%Hth. by apply (H2 k').
  - intros k x j Hx%Hth. by apply (v_stops0 k).
  - intros i s Hi. destruct (v_sub0 i s Hi) as [Hok [|[|(k & y & Hy & Hx)]]]; auto. split; [done|]. destruct (decide (k = tid)) as [->|Hn].
    + assert (y = t) as -> by congruence. left. by apply (Hacc i).
    + right; right. exists k, y. cbn. rewrite lookup_delete_ne by done. auto.
  - intros sid Hh. destruct Hcl as [Hcl|Hcl]; [|by destruct (Hcl sid)]. destruct (v_lease0 sid Hh) as [|(k & l & Hk)]; [by left|right]. exists k, l. rewrite lookup_delete_ne; [done|]. intros <-. apply (Hcl l). congruence.
Qed.

Lemma lease_inv c l : inv c -> (forall sid, holder l sid = connectionID -> holder (leases c) sid = connectionID \/ closed c = false) -> inv (with_leases l c).
Proof. intros [] Hl. split; cbn; try done. intros sid Hh. destruct (Hl sid Hh) as [Hc|Hc]; [by apply v_lease0 in Hc|by left]. Qed.

Lemma untable_inv c sid i s : inv c -> subs c !! sid = Some i -> heap c !! i = Some s -> over s -> inv (with_subs (delete sid (subs c)) c).
Proof.
  intros [] Hsid Hi Hov. split; cbn; try done.
  - intros sid' j [_ Hj]%lookup_delete_Some. by apply v_table0.
  - intros Hc. rewrite (v_closed0 Hc) in Hsid. done.
  - intros tid t j Ht Hw. destruct (v_waiting0 tid t j Ht Hw) as [H1 H2]. split; [|done]. intros sid' [_ Hj]%lookup_delete_Some. by apply (H1 sid').
  - intros tid t j Ht Hj. destruct (v_stops0 tid t j Ht Hj) as [H1 H2]. split; [done|]. intros sid' [_ Hs']%lookup_delete_Some. by apply (H2 sid').
  - intros j s' Hj. destruct (v_sub0 j s' Hj) as [Hok [|[Ht|]]]; auto. split; [done|]. destruct (decide (sub_session s' = sid)) as [E|Hn]; [|right; left; by rewrite lookup_delete_ne].
    rewrite E, Hsid in Ht. injection Ht as ->. left. congruence.
Qed.

(** Entries leave the table for a thread that will stop them. *)
Lemma take_inv c cl t' subs' ls tid : inv c -> threads c !! tid = None -> owned t' = None -> waits t' = None ->
  (forall sid i, subs' !! sid = Some i -> subs c !! sid = Some i) -> (forall j, j ∈ stops t' -> exists sid, subs c !! sid = Some j /\ subs' !! sid = None) ->
  (forall sid i, subs c !! sid = Some i -> subs' !! sid = None -> i ∈ stops t') -> (cl = true -> subs' = ∅) ->
  (forall sid, holder ls sid = connectionID -> cl = false \/ (exists l, t' = Closing l) \/ holder (leases c) sid = connectionID /\ cl = closed c) ->
  inv (mkConnection cl subs' (heap c) ls (<[tid := t']> (threads c))).
Proof.
  intros [] Ht Ho Hw Hsub Hst Hdrop Hcl Hls.
  assert (Hold : forall k x, threads c !! k = Some x -> <[tid := t']> (threads c) !! k = Some x). { intros k x Hk. rewrite lookup_insert_ne; [done|]. intros <-. congruence. }
  split; cbn.
  - intros sid i Hi. by apply v_table0, Hsub.
  - done.
  - intros t1 t2 a b i [[<- <-]|[_ Ha]]%lookup_insert_Some [[<- <-]|[_ Hb]]%lookup_insert_Some Hoa Hob; [done|congruence|congruence|]. by apply (v_owner0 t1 t2 a b i).
  - intros k x i [[<- <-]|[_ Hx]]%lookup_insert_Some Hox; [congruence|]. by apply (v_thread0 k).
  - intros k x i [[<- <-]|[_ Hx]]%lookup_insert_Some Hwx; [congruence|]. destruct (v_waiting0 k x i Hx Hwx) as [H1 H2]. split; [intros sid Hi%Hsub; by apply (H1 sid)|].
    intros k' x' [[<- <-]|[_ Hx']]%lookup_insert_Some; [|by apply (H2 k')]. intros (sid & Hi & _)%Hst. by apply (H1 sid).
  - intros k x j [[<- <-]|[_ Hx]]%lookup_insert_Some Hj.
    + destruct (Hst j Hj) as (sid & Hi & Hnone). destruct (v_table0 sid j Hi) as (s & Hs & Hss & _). split; [by eexists|]. intros sid' Hi'. destruct (v_table0 sid' j (Hsub _ _ Hi')) as (s' & Hs' & Hss' & _).
      assert (sid = sid') as -> by congruence. congruence.
    + destruct (v_stops0 k x j Hx Hj) as [H1 H2]. split; [done|]. intros sid Hi%Hsub. by apply (H2 sid).
  - intros i s Hi. destruct (v_sub0 i s Hi) as [Hok [|[Hin|(k & x & Hx & Hw')]]]; auto.
    + split; [done|]. destruct (subs' !! sub_session s) as [j|] eqn:Ej; [right; left; rewrite (Hsub _ _ Ej) in Hin; by injection Hin as ->|].
      right; right. exists tid, t'. cbn. rewrite lookup_insert_eq. split; [done|]. right. by apply (Hdrop (sub_session s)).
    + split; [done|]. right; right. exists k, x. split; [by apply Hold|done].
  - intros sid Hh. destruct (Hls sid Hh) as [|[[l ->]|[Hh' ->]]]; [by left|right; exists tid, l; by rewrite lookup_insert_eq|].
    destruct (v_lease0 sid Hh') as [|(k & l & Hk)]; [by left|right]. exists k, l. by apply Hold.
Qed.

Lemma subscribed_inv c tid i sid control replay : inv c -> threads c !! tid = None -> heap c !! i = None ->
  inv (at_pc tid (Prepared i control) (with_heap (<[i := new_sub sid replay]> (heap c)) c)).
Proof.
  intros [] Ht Hi.
  assert (Hth : forall k x, threads c !! k = Some x -> <[tid := Prepared i control]> (threads c) !! k = Some x). { intros k x Hk. rewrite lookup_insert_ne; [done|]. intros <-. congruence. }
  assert (Hh : forall j s, heap c !! j = Some s -> <[i := new_sub sid replay]> (heap c) !! j = Some s). { intros j s Hj. rewrite lookup_insert_ne; [done|]. intros <-. congruence. }
  assert (Hnew : forall k x, threads c !! k = Some x -> owned x = Some i -> False). { intros k x Hk Ho. destruct (v_thread0 k x i Hk Ho) as (s & Hs & _). congruence. }
  split; cbn; try done.
  - intros sid' j Hj. destruct (v_table0 sid' j Hj) as (s & Hs & Hx). exists s. split; [by apply Hh|done].
  - intros t1 t2 a b j [[<- <-]|[_ Ha]]%lookup_insert_Some [[<- <-]|[_ Hb]]%lookup_insert_Some Hoa Hob; [done| | |by apply (v_owner0 t1 t2 a b j)]; cbn in *; exfalso; [injection Hoa as <-; by eapply (Hnew t2 b)|injection Hob as <-; by eapply (Hnew t1 a)].
  - intros k x j [[<- <-]|[_ Hx]]%lookup_insert_Some Ho; [injection Ho as <-; exists (new_sub sid replay); rewrite lookup_insert_eq; by split|].
    destruct (v_thread0 k x j Hx Ho) as (s & Hs & Hp). exists s. split; [by apply Hh|done].
  - intros k x j [[<- <-]|[_ Hx]]%lookup_insert_Some Hw.
    + injection Hw as <-. split; [intros sid' Hs; destruct (v_table0 sid' i Hs) as (s & Hs' & _); congruence|].
      intros k' x' [[<- <-]|[_ Hx']]%lookup_insert_Some Hin; [by apply elem_of_nil in Hin|]. destruct (v_stops0 k' x' i Hx' Hin) as [[s Hs] _]. congruence.
    + destruct (v_waiting0 k x j Hx Hw) as [H1 H2]. split; [done|]. intros k' x' [[<- <-]|[_ Hx']]%lookup_insert_Some; [apply not_elem_of_nil|by apply (H2 k')].
  - intros k x j [[<- <-]|[_ Hx]]%lookup_insert_Some Hj; [by apply elem_of_nil in Hj|]. destruct (v_stops0 k x j Hx Hj) as [[s Hs] H2]. split; [|done]. exists s. by apply Hh.
  - intros j s [[<- <-]|[_ Hj]]%lookup_insert_Some.
    + split; [split; cbn; try done; [lia|apply prefix_nil]|]. right; right. exists tid, (Prepared i control). cbn. rewrite lookup_insert_eq. auto.
    + destruct (v_sub0 j s Hj) as [Hok [|[|(k & x & Hx & Hw)]]]; auto. split; [done|]. right; right. exists k, x. split; [by apply Hth|done].
  - intros sid' Hl. destruct (v_lease0 sid' Hl) as [|(k & l & Hk)]; [by left|right]. exists k, l. by apply Hth.
Qed.

Lemma attach_inv c tid i control : inv c -> threads c !! tid = Some (Prepared i control) -> inv (attach_commit connectionID tid i control c).
Proof.
  intros Hi Ht. pose proof Hi as []. unfold attach_commit. destruct (closed c) eqn:Ec.
  { apply (move_inv c tid _ (Refused i) Hi Ht); cbn; auto; [|by intros j s _ [|]; auto|done]. intros j s _ _ (H1 & H2 & _). by split. }
  destruct (v_thread0 tid _ i Ht eq_refl) as (s & Hs & Hput & Hlate & Hopen). rewrite Hs. cbv zeta. set (sid := sub_session s). set (old := subs c !! sid). set (l := if control then _ else _). clearbody l.
  destruct (v_waiting0 tid _ i Ht eq_refl) as [Hnt Hns].
  assert (Hth : forall k x, <[tid := Committed old i]> (threads c) !! k = Some x -> k = tid /\ x = Committed old i \/ k <> tid /\ threads c !! k = Some x) by (by intros k x [[<- <-]|[? ?]]%lookup_insert_Some; auto).
  split; cbn; try done.
  - intros sid' j [[<- <-]|[_ Hj]]%lookup_insert_Some; [by exists s|by apply v_table0].
  - congruence.
  - intros t1 t2 a b j [[-> ->]|[Hn1 Ha]]%Hth [[-> ->]|[Hn2 Hb]]%Hth Hoa Hob; [done| | |by apply (v_owner0 t1 t2 a b j)].
    + by apply (v_owner0 tid t2 (Prepared i control) b j).
    + by apply (v_owner0 t1 tid a (Prepared i control) j).
  - intros k x j [[-> ->]|[_ Hx]]%Hth Ho; [injection Ho as <-; by exists s|by apply (v_thread0 k)].
  - intros k x j [[-> ->]|[Hn Hx]]%Hth Hw; [done|]. destruct (v_waiting0 k x j Hx Hw) as [H1 H2].
    assert (Hji : j <> i). { intros ->. apply Hn. apply (v_owner0 k tid x (Prepared i control) i); [done|done| |done]. destruct x; cbn in *; congruence. }
    split; [intros sid' [[_ <-]|[_ Hj]]%lookup_insert_Some; [done|by apply (H1 sid')]|].
    intros k' x' [[-> ->]|[_ Hx']]%Hth; [|by apply (H2 k')]. cbn. destruct old as [o|] eqn:Eo; [|apply not_elem_of_nil]. intros ->%list_elem_of_singleton. by apply (H1 sid).
  - intros k x j [[-> ->]|[Hn Hx]]%Hth Hj.
    + cbn in Hj. destruct old as [o|] eqn:Eo; [|by apply elem_of_nil in Hj]. apply list_elem_of_singleton in Hj as ->. destruct (v_table0 sid o Eo) as (so & Hso & Hsid & _). split; [by eexists|].
      intros sid' [[<- <-]|[Hne Hj]]%lookup_insert_Some; [by apply (Hnt sid)|]. destruct (v_table0 sid' o Hj) as (so' & Hso' & Hsid' & _). congruence.
    + destruct (v_stops0 k x j Hx Hj) as [H1 H2]. split; [done|]. intros sid' [[_ <-]|[_ Hj']]%lookup_insert_Some; [by apply (Hns k x Hx)|by apply (H2 sid')].
  - intros j sj Hj. destruct (v_sub0 j sj Hj) as [Hok Hacc]. split; [done|]. destruct (decide (j = i)) as [->|Hji].
    { assert (sj = s) as -> by congruence. right; left. subst sid. by rewrite lookup_insert_eq. }
    destruct Hacc as [|[Hin|(k & x & Hx & Hw)]]; [by left| |].
    + destruct (decide (sub_session sj = sid)) as [E|Hn]; [|right; left; by rewrite lookup_insert_ne]. right; right. exists tid, (Committed old i). cbn. rewrite lookup_insert_eq. split; [done|]. right.
      subst old. rewrite <- E, Hin. by left.
    + right; right. destruct (decide (k = tid)) as [->|Hn].
      * assert (x = Prepared i control) as -> by congruence. cbn in Hw. destruct Hw as [[= ->]|Hw]; [done|by apply elem_of_nil in Hw].
      * exists k, x. cbn. rewrite lookup_insert_ne; auto.
  - intros sid' Hh. by left.
Qed.

Lemma stopping_inv c tid t j : inv c -> threads c !! tid = Some t -> j ∈ stops t -> inv (on_sub j stop c).
Proof.
  intros Hi Ht Hj. pose proof Hi as []. destruct (v_stops0 tid t j Ht Hj) as [_ Hnt]. apply on_sub_inv; [done|]. intros s Hs. unfold stop. destruct (sub_done s) eqn:Ed; [split_and!; auto|]. split_and!; cbn; try done.
  - intros []. by split; cbn; auto.
  - intros _. by left.
  - auto.
  - intros k x Hx Ho. destruct x as [i' ctl|i'|old i'|i' pc| |]; cbn; try done; [|by destruct pc; auto; intros; left]. injection Ho as ->. destruct (v_waiting0 k _ j Hx eq_refl) as [_ Hn]. by destruct (Hn tid t Ht).
Qed.

Lemma pump_inv c tid i pc pc' f s : inv c -> threads c !! tid = Some (Pump i pc) -> heap c !! i = Some s -> sub_session (f s) = sub_session s -> sub_closed (f s) = sub_closed s ->
  sub_ok (f s) -> (over s -> over (f s)) -> phase (Pump i pc') (f s) -> inv (at_pc tid (Pump i pc') (on_sub i f c)).
Proof.
  intros [] Ht Hs Hses Hcl Hok Hov Hph.
  assert (Hth : forall k x, <[tid := Pump i pc']> (threads c) !! k = Some x -> exists y, threads c !! k = Some y /\ owned x = owned y /\ waits x = waits y /\ stops x = stops y /\ (k = tid /\ x = Pump i pc' \/ k <> tid /\ x = y)).
  { intros k x [[<- <-]|[? Hk]]%lookup_insert_Some; [exists (Pump i pc); by split_and!; auto|exists x; by split_and!; auto]. }
  assert (Hl : forall j, alter f i (heap c) !! j = if decide (j = i) then Some (f s) else heap c !! j).
  { intros j. destruct (decide (j = i)) as [->|]; [by rewrite lookup_alter_eq, Hs|by rewrite lookup_alter_ne]. }
  split; cbn; try done.
  - intros sid j Hj. destruct (v_table0 sid j Hj) as (sj & Hsj & H1 & H2). rewrite Hl. destruct (decide (j = i)) as [->|]; [|by exists sj]. exists (f s). split; [done|]. split; congruence.
  - intros t1 t2 a b j (a' & Ha & Eoa & _)%Hth (b' & Hb & Eob & _)%Hth Hoa Hob. apply (v_owner0 t1 t2 a' b' j); congruence.
  - intros k x j (y & Hy & Eo & _ & _ & [[-> ->]|[Hn ->]])%Hth Ho; rewrite Hl.
    + injection Ho as <-. rewrite decide_True by done. by exists (f s).
    + rewrite decide_False; [by apply (v_thread0 k)|]. intros ->. apply Hn. by apply (v_owner0 k tid y (Pump i pc) i).
  - intros k x j (y & Hy & _ & Ew & _)%Hth Hw. rewrite Ew in Hw. destruct (v_waiting0 k y j Hy Hw) as [H1 H2]. split; [done|]. intros k' x' (y' & Hy' & _ & _ & Es & _)%Hth. rewrite Es. by apply (H2 k').
  - intros k x j (y & Hy & _ & _ & Es & _)%Hth Hj. rewrite Es in Hj. destruct (v_stops0 k y j Hy Hj) as [[sj Hsj] H2]. split; [|done]. rewrite Hl. destruct (decide (j = i)); by eexists.
  - intros j sj. rewrite Hl. intros Hj.
    assert (Hacc : exists s0, heap c !! j = Some s0 /\ sub_session sj = sub_session s0 /\ sub_ok sj /\ (over s0 -> over sj)).
    { destruct (decide (j = i)) as [->|]; [injection Hj as <-; by exists s|exists sj; split_and!; auto; by apply (v_sub0 j)]. }
    destruct Hacc as (s0 & Hs0 & -> & Hoks & Hovs). split; [done|]. destruct (v_sub0 j s0 Hs0) as [_ [|[|(k & x & Hx & Hw)]]]; auto. right; right. destruct (decide (k = tid)) as [->|Hn].
    + assert (x = Pump i pc) as -> by congruence. by destruct Hw as [|?%elem_of_nil].
    + exists k, x. cbn. by rewrite lookup_insert_ne.
  - intros sid Hh. destruct (v_lease0 sid Hh) as [|(k & l & Hk)]; [by left|right]. exists k, l. rewrite lookup_insert_ne; [done|]. intros <-. congruence.
Qed.

Lemma pump_step_inv c c' tid i pc d ok : inv c -> threads c !! tid = Some (Pump i pc) -> pump_step tid i pc d ok c = Some c' -> inv c'.
Proof.
  intros Hi Ht. pose proof Hi as []. unfold pump_step. destruct (v_thread0 tid _ i Ht eq_refl) as (s & Hs & Hp). rewrite Hs. destruct (v_sub0 i s Hs) as [Hok _].
  assert (Hmove : forall pc', (phase (Pump i pc) s -> phase (Pump i pc') s) -> inv (at_pc tid (Pump i pc') c)).
  { intros pc' Hph. apply (move_inv c tid _ _ Hi Ht); auto; [|by intros j sj _ [|?%elem_of_nil]|done]. intros j sj [= <-] Hsj. by assert (sj = s) as -> by congruence. }
  destruct pc as [| |e|e|]; cbn [phase] in Hp.
  - intros [= <-]. destruct (sub_done s) eqn:Ed; apply Hmove; cbn; intros Hph; [left; by apply Hok|split; [done|by apply Hok]].
  - destruct d; [destruct (sub_done s) eqn:Ed; [|done]; intros [= <-]; apply Hmove; cbn; intros _; left; by apply Hok|].
    destruct (sub_channel s) as [|e rest] eqn:Ech.
    + destruct (sub_open s) eqn:Eo; [done|]. intros [= <-]. apply Hmove. cbn. intros _. right; by left.
    + intros [= <-]. apply (pump_inv c tid i PSelect (PGot e) (take_one rest) s); try done; by destruct Hok; split.
  - intros [= <-]. destruct (sub_done s) eqn:Ed; apply Hmove; cbn; intros Hph; [left; by apply Hok|done].
  - destruct Hp as [Hput Hlate]. destruct ok; intros [= <-].
    + apply (pump_inv c tid i (PSending e) PTop (notify e) s); try done; [|cbn; by rewrite Hput, <- app_assoc]. destruct Hok. split; cbn; try done.
      * rewrite Hlate. destruct (sub_done s); lia.
      * intros Hd. by rewrite Hd.
      * rewrite Hput. exists (sub_channel s). by rewrite <- app_assoc.
    + apply (pump_inv c tid i (PSending e) PLeaving notify_fails s); try done; [by destruct Hok; split|by right; right|by right; right].
  - intros [= <-]. assert (Hend : forall c0, threads c0 = threads c -> heap c0 = heap c -> inv c0 -> inv (ended tid c0)).
    { intros c0 Et Eh Hi0. apply (end_inv c0 tid (Pump i PLeaving) Hi0); [by rewrite Et| |left; by intros l]. intros j sj _ [|?%elem_of_nil]; done. }
    case_bool_decide as Hin; [|by apply Hend]. apply Hend; [done|done|]. by apply (untable_inv c (sub_session s) i s).
Qed.

Lemma released_all sid r : connectionID <> "" -> holder (ReleaseConnection connectionID r) sid <> connectionID.
Proof.
  intros Hc. unfold ReleaseConnection. apply String.eqb_neq in Hc as Hc'. rewrite Hc'.
  assert (Hl : forall l, (sid ∈ l -> holder (foldr (clear_holder connectionID) r l) sid <> connectionID) /\ (sid ∉ l -> holder (foldr (clear_holder connectionID) r l) sid = holder r sid)).
  { induction l as [|x l [IH1 IH2]]; [split; [by intros ?%elem_of_nil|done]|]. cbn [foldr]. split.
    - intros Hin. destruct (decide (x = sid)) as [->|Hn]; [by apply Concurrent.holder_clear_same|]. rewrite Concurrent.clear_other by done. apply IH1. by apply elem_of_cons in Hin as [->|].
    - intros [Hn Hin]%not_elem_of_cons. rewrite Concurrent.clear_other by done. by apply IH2. }
  destruct (decide (sid ∈ (map_to_list r).*1)) as [Hin|Hin]; [by apply Hl|]. rewrite (proj2 (Hl _) Hin), Concurrent.holder_not_member by done. congruence.
Qed.

Hypothesis connected : connectionID <> "".

Lemma released_mine sid x r : holder (Release sid connectionID r) x = connectionID -> holder r x = connectionID.
Proof. rewrite Concurrent.holder_release. apply String.eqb_neq in connected as Hc. rewrite Hc. destruct (Concurrent.holder_clear sid connectionID r x) as [->| ->]; [done|]. intros E. by destruct connected. Qed.

Lemma fire_inv x c c' : inv c -> fire connectionID x c = Some c' -> inv c'.
Proof.
  intros Hi. destruct x as [tid i sid control replay|tid sid control|tid|tid d ok|i e|i|l]; cbn [fire].
  - case_bool_decide as Hf; [|done]. destruct Hf. intros [= <-]. by apply subscribed_inv.
  - case_bool_decide as Ht; [|done]. intros [= <-]. unfold detach_commit. cbv zeta. set (ls := if control then Release sid connectionID (leases c) else leases c).
    assert (Hls : forall s, holder ls s = connectionID -> holder (leases c) s = connectionID) by (intros s; subst ls; destruct control; [apply released_mine|done]). clearbody ls. destruct (subs c !! sid) as [i|] eqn:Es.
    + apply (take_inv c (closed c) (Detached i) _ ls tid Hi Ht); try done; cbn.
      * by intros s j [_ ?]%lookup_delete_Some.
      * intros j ->%list_elem_of_singleton. exists sid. split; [done|apply lookup_delete_eq].
      * intros s j Hs Hnone. apply lookup_delete_None in Hnone as [<-|]; [|congruence]. assert (j = i) as -> by congruence. by left.
      * intros Hc. by rewrite (v_closed _ Hi Hc), delete_empty.
      * intros s Hs. right; right. auto.
    + apply (lease_inv (with_subs _ c)); [|intros s Hs; left; by apply Hls]. replace (delete sid (subs c)) with (subs c) by (symmetry; by apply delete_id). by destruct c.
  - case_bool_decide as Ht; [|done]. intros [= <-]. apply (take_inv c true (Closing (map_to_list (subs c)).*2) ∅ (leases c) tid Hi Ht); try done; cbn.
    + intros j ([k v] & -> & Hin)%list_elem_of_fmap. apply elem_of_map_to_list in Hin. by exists k.
    + intros s j Hs _. apply list_elem_of_fmap. exists (s, j). split; [done|]. by apply elem_of_map_to_list.
    + intros s _. right; left. by eexists.
  - destruct (threads c !! tid) as [t|] eqn:Et; [|done]. destruct t as [i control|i|[old|] i|i pc|i|[|i l]].
    + intros [= <-]. by apply attach_inv.
    + intros [= <-]. pose proof (v_waiting _ Hi tid _ i Et eq_refl) as [Hnt _].
      assert (H1 : inv (on_sub i close_contract c)).
      { apply on_sub_inv; [done|]. intros s Hs. split_and!; cbn; try done; [intros []; by split|by left|by right|]. intros k y Hy Ho.
        assert (k = tid) as -> by (by apply (v_owner _ Hi k tid y (Refused i) i)). assert (y = Refused i) as -> by congruence. done. }
      apply (end_inv _ tid (Refused i) H1 Et); [|left; by intros l]. cbn. intros j s Hj [[= <-]|?%elem_of_nil]; [|done]. rewrite lookup_alter_eq in Hj. apply fmap_Some in Hj as (s0 & _ & ->). by left.
    + intros [= <-]. assert (H1 : inv (on_sub old stop c)) by (apply (stopping_inv c tid (Committed (Some old) i) old Hi Et); by left).
      apply (move_inv _ tid (Committed (Some old) i) _ H1 Et); cbn; auto; [by intros j ?%elem_of_nil| |done]. intros j s Hj [|Hin]; [done|]. apply list_elem_of_singleton in Hin as ->. right; right.
      rewrite lookup_alter_eq in Hj. apply fmap_Some in Hj as (s0 & Hs0 & ->). left. unfold stop. destruct (sub_done s0) eqn:Ed; [|done]. by apply (v_sub _ Hi old s0 Hs0).
    + intros [= <-]. apply (move_inv c tid _ _ Hi Et); cbn; auto; [by intros j s _ _ []|by intros j s _ [|?%elem_of_nil]|done].
    + intros Hp. by eapply pump_step_inv.
    + intros [= <-]. assert (H1 : inv (on_sub i stop c)) by (apply (stopping_inv c tid (Detached i) i Hi Et); by left).
      apply (end_inv _ tid (Detached i) H1 Et); [|left; by intros l]. cbn. intros j s Hj [|Hin]; [done|]. apply list_elem_of_singleton in Hin as ->.
      rewrite lookup_alter_eq in Hj. apply fmap_Some in Hj as (s0 & Hs0 & ->). left. unfold stop. destruct (sub_done s0) eqn:Ed; [|done]. by apply (v_sub _ Hi i s0 Hs0).
    + intros [= <-]. assert (H1 : inv (with_leases (ReleaseConnection connectionID (leases c)) c)). { apply lease_inv; [done|]. intros s Hs. by apply released_all in Hs. }
      apply (end_inv _ tid (Closing []) H1 Et); [by intros j s _ [|?%elem_of_nil]|right]. intros s. by apply released_all.
    + intros [= <-]. assert (H1 : inv (on_sub i stop c)) by (apply (stopping_inv c tid (Closing (i :: l)) i Hi Et); by left).
      apply (move_inv _ tid (Closing (i :: l)) _ H1 Et); cbn; auto; [by right| |intros l' _; by exists l]. intros j s Hj [|[->|Hin]%elem_of_cons]; [done| |auto]. right; right.
      rewrite lookup_alter_eq in Hj. apply fmap_Some in Hj as (s0 & Hs0 & ->). left. unfold stop. destruct (sub_done s0) eqn:Ed; [|done]. by apply (v_sub _ Hi i s0 Hs0).
  - destruct (heap c !! i) as [s|] eqn:Es; [|done]. destruct (sub_open s); [|done]. intros [= <-]. apply on_sub_inv; [done|]. intros s' Hs'. split_and!; cbn; try done; [|auto|].
    + intros []. split; cbn; auto. by apply prefix_app_r.
    + intros k t Ht Ho. assert (Hput : forall r, sub_put s' = sub_sent s' ++ r -> sub_put s' ++ [e] = sub_sent s' ++ r ++ [e]) by (intros r ->; by rewrite <- app_assoc).
      destruct t as [i' ctl|i'|o i'|i' [| |e'|e'|]| |]; cbn; try done; [intros (Hp & ? & ?)|intros [Hp ?]|intros [Hp ?]|intros Hp|intros [Hp ?]|intros [Hp ?]|intros [Hp ?]]; repeat split; auto; by apply (Hput _ Hp).
  - intros [= <-]. apply on_sub_inv; [done|]. intros s Hs. split_and!; cbn; try done; [intros []; by split|right; by left|auto|]. intros k t Ht Ho. destruct t as [|i'|o i'|i' pc| |]; cbn; try done. destruct pc; cbn; try done. intros _. right; by left.
  - case_bool_decide as Hl; [|done]. intros [= <-]. apply lease_inv; [done|]. intros sid Hs. left. unfold holder in *. destruct (l !! sid) as [h|] eqn:El; cbn in Hs; [|congruence]. subst h. by apply (Hl sid connectionID El).
Qed.
End invariant.

(** ** Any interleaving *)

Fixpoint fire_all (connectionID : string) (l : list label) (c : connection) : option connection :=
  match l with
  | [] => Some c
  | x :: l => match fire connectionID x c with Some c' => fire_all connectionID l c' | None => None end
  end.

Definition fresh_connection (r : LeaseRegistry) : connection := mkConnection false ∅ ∅ r ∅.

Lemma fresh_inv connectionID r : inv connectionID (fresh_connection r).
Proof. split; cbn; try done. intros sid _. by left. Qed.

Lemma fire_all_inv connectionID l c c' : connectionID <> "" -> inv connectionID c -> fire_all connectionID l c = Some c' -> inv connectionID c'.
Proof.
  intros Hc. revert c. induction l as [|x l IH]; intros c Hi; cbn; [by intros [= <-]|]. destruct (fire connectionID x c) as [c1|] eqn:E; [|done]. intros Hl.
  apply (IH c1); [|done]. by apply (fire_inv connectionID Hc x c).
Qed.

(** C31: However the attaches, detaches, pumps, the hub, the other connections and
    the end of the connection interleave: an entry of the table is a subscription
    of that very session whose contract is open; what a client was sent is a
    prefix of what the hub delivered to it, in order and without a gap, and at
    most one event goes out after the subscription was stopped; once the
    connection is closed the table is empty and stays so, and when the goroutine
    of Close is through it holds no control lease, whatever attach was half way;
    and a subscription that is neither in the table nor still to be stopped by a
    goroutine is over: stopped, ended by the hub, or dead on a failed write. *)
Theorem a_closed_connection_leaves_nothing connectionID r l c : connectionID <> "" -> fire_all connectionID l (fresh_connection r) = Some c ->
  (forall sid i, subs c !! sid = Some i -> exists s, heap c !! i = Some s /\ sub_session s = sid /\ sub_closed s = false)
  /\ (forall i s, heap c !! i = Some s -> sub_sent s `prefix_of` sub_put s /\ (sub_late s <= 1)%nat)
  /\ (closed c = true -> subs c = ∅)
  /\ (closed c = true -> (forall tid k, threads c !! tid <> Some (Closing k)) -> forall sid, holder (leases c) sid <> connectionID)
  /\ (forall i s, heap c !! i = Some s -> subs c !! sub_session s <> Some i -> ~ held c i -> over s).
Proof.
  intros Hc Hl. apply (fire_all_inv connectionID l _ c Hc (fresh_inv connectionID r)) in Hl as [Htab Hcl _ _ _ _ Hsub Hls]. split_and!; try done.
  - intros i s Hs. by destruct (Hsub i s Hs) as [[] _].
  - intros Hcc Hno sid Hh. destruct (Hls sid Hh) as [|(tid & k & Hk)]; [congruence|by destruct (Hno tid k)].
  - intros i s Hs Hnt Hnh. by destruct (Hsub i s Hs) as [_ [|[|]]].
Qed.

(** An attach with control, an event, a second attach that replaces it, the end of
    the connection while a third one is between its preparation and its commit. *)
Definition a_day : list label :=
  [LSubscribed 1 1 "s" true [7]; LRun 1 false true; LRun 1 false true; LRun 1 false true; LPut 1 8; LRun 1 false true; LRun 1 false true; LRun 1 false true;
   LSubscribed 2 2 "s" false [8]; LRun 2 false true; LRun 2 false true; LRun 1 false true; LSubscribed 3 3 "t" true []; LClose 4; LRun 3 false true; LRun 4 false true; LRun 4 false true;
   LRun 2 false true; LRun 2 false true; LRun 2 false true; LRun 3 false true; LRun 1 false true].

Lemma a_closed_connection_leaves_nothing_witness : exists c, fire_all "conn_a" a_day (fresh_connection ∅) = Some c /\ closed c = true /\ subs c = ∅ /\ threads c = ∅
  /\ holder (leases c) "s" <> "conn_a" /\ holder (leases c) "t" <> "conn_a" /\ (exists s, heap c !! 1%nat = Some s /\ sub_sent s = [7] /\ over s) /\ exists s, heap c !! 3%nat = Some s /\ over s.
Proof.
  destruct (fire_all "conn_a" a_day (fresh_connection ∅)) as [c|] eqn:E; [|vm_compute in E; discriminate E].
  assert (Hc : closed c = true) by (vm_compute in E; injection E as <-; reflexivity).
  assert (Ht : threads c = ∅) by (vm_compute in E; injection E as <-; reflexivity).
  assert (H1 : exists s, heap c !! 1%nat = Some s /\ sub_sent s = [7]) by (vm_compute in E; injection E as <-; eexists; split; reflexivity).
  assert (H3 : exists s, heap c !! 3%nat = Some s) by (vm_compute in E; injection E as <-; eexists; reflexivity).
  destruct (a_closed_connection_leaves_nothing "conn_a" ∅ a_day c ltac:(discriminate) E) as (_ & _ & Hsubs & Hl & Hover).
  assert (Hno : forall i, ~ held c i) by (intros i (tid & t & Hk & _); rewrite Ht in Hk; discriminate Hk).
  assert (Hnone : forall tid k, threads c !! tid <> Some (Closing k)) by (intros tid k; rewrite Ht; discriminate).
  exists c. split_and!; try done; [by apply Hsubs|by apply Hl|by apply Hl| |].
  - destruct H1 as (s & Hs & Hsent). exists s. split_and!; [done|done|]. apply (Hover 1%nat); [done| |apply Hno]. rewrite (Hsubs Hc). discriminate.
  - destruct H3 as (s & Hs). exists s. split; [done|]. apply (Hover 3%nat); [done| |apply Hno]. rewrite (Hsubs Hc). discriminate.
Defined.

(** ** Points of interest *)

(** A pump whose notification failed takes its entry out of the table and does not
    close the contract; [Close] then finds nothing to stop: everything has ended,
    and the hub still has the subscriber. *)
Example a_failed_write_leaves_the_subscriber :
  match fire_all "conn_a" [LSubscribed 1 1 "s" false [7]; LRun 1 false true; LRun 1 false true; LRun 1 false true; LRun 1 false true; LRun 1 false true; LRun 1 false false; LRun 1 false true;
      LClose 2; LRun 2 false true] (fresh_connection ∅) with
  | Some c => threads c = ∅ /\ closed c = true /\ option_map (fun s => (sub_closed s, sub_open s)) (heap c !! 1%nat) = Some (false, true)
  | None => False
  end.
Proof. vm_compute. auto. Qed.

(** A detach that comes between the preparation of an attach and its commit does
    not make the commit fail: the attach is there afterwards, with the lease. *)
Example a_detach_does_not_stop_an_attach :
  match fire_all "conn_a" [LSubscribed 1 1 "s" true []; LDetach 2 "s" true; LRun 1 false true] (fresh_connection ∅) with
  | Some c => subs c !! "s" = Some 1%nat /\ holder (leases c) "s" = "conn_a"
  | None => False
  end.
Proof. vm_compute. auto. Qed.
