(* ===== verification/ProviderOpenAI.v ===== *)
(** * ai-runtime/provider/openai: a provider behind the OpenAI interface

    The request that is built from a history, the answer that is put together from
    the pieces of a stream, the answer of a request without streaming, and what of
    its thinking goes back with the next request. encoding/json is a class; the
    connection is the bytes of the body and whether they end or break off. *)

From S2P Require Import Prelude GoString GoPath JsonLines SessionRecord AgentLoop RuntimeConfig.
#[local] Open Scope string_scope.
#[local] Open Scope list_scope.

(** ** Data (ai-core/core/spec.go and spec.go) *)

Record UsageInfo := mkUsage {
  PromptTokens : Z;
  PromptCacheHitTokens : Z;
  PromptCacheMissTokens : Z;
  CompletionTokens : Z;
  TotalTokens : Z;
}.

(** The pieces of a stream, without the fields that nobody reads. *)
Record DeltaToolCall := mkDeltaCall { DIndex : Z; DID : string; DType : string; DName : string; DArguments : string }.
Record Delta := mkDelta { DContent : string; DReasoningContent : string; DReasoning : string; DToolCalls : list DeltaToolCall }.
Record DeltaChoice := mkDeltaChoice { CDelta : Delta; CFinish : string }.
Record StreamChunk := mkChunk { CChoices : list DeltaChoice; CUsage : option UsageInfo }.

Record ResponseChoice := mkChoice { RIndex : Z; RMessage : Message; RFinish : string }.
Record ChatResponse := mkResponse {
  RID : string;
  RObject : string;
  RCreated : Z;
  RModel : string;
  RChoices : list ResponseChoice;
  RUsage : option UsageInfo;
}.

(** A token of a stream: the last one carries the response. *)
Record stream_token := mkStreamToken { s_token : Token; s_response : option ChatResponse }.

(** What is on the wire; raw JSON values are texts, the empty one is absent. *)
Record OpenAIResponseMessage := mkWire {
  WRole : string;
  WContent : string;
  WToolCallID : string;
  WToolCalls : list ToolCall;
  ReasoningContent : string;
  Reasoning : string;
  ReasoningDetails : string;
}.
Record OpenAIResponseChoice := mkWireChoice { WIndex : Z; WMessage : OpenAIResponseMessage; WFinish : string }.
Record OpenAIChatResponse := mkWireResponse { WID : string; WObject : string; WCreated : Z; WModel : string; WChoices : list OpenAIResponseChoice; WUsage : option UsageInfo }.

(** The map of a message of the request: the fixed keys, those that may be absent,
    and what is replayed. *)
Record wireMessage := mkWireMessage {
  m_role : string;
  m_content : string;
  m_tool_call_id : option string;
  m_tool_calls : option (list ToolCall);
  m_custom : gmap string string;
}.

(** The parameters of a tool are a JSON schema, here its text. *)
Record Tool := mkTool { ToolName : string; ToolDescription : string; Parameters : string }.
Record ChatRequest := mkRequest { QModel : string; QMessages : list Message; QStream : bool; QTools : list Tool; QToolChoice : string; QJSONMode : bool }.
Record OpenAIChatRequest := mkWireRequest {
  q_model : string;
  q_messages : list wireMessage;
  q_stream : bool;
  q_include_usage : option bool;
  q_tools : list (string * Tool);
  q_tool_choice : option string;
  q_response_format : option string;
  q_enable_thinking : bool;
  q_reasoning_effort : string;
}.

(** [encoding/json] as the provider uses it. *)
Class OpenAIJson := {
  decode_chunk : string -> option StreamChunk;
  decode_response : string -> option OpenAIChatResponse;
  marshal_request : OpenAIChatRequest -> option string;
  marshal_string : string -> string;
  unmarshal_string : string -> option string;
  unmarshal_details : string -> option (list (gmap string string));
  json_valid : string -> bool;
  marshal_custom : Z -> gmap string string -> option string;
  unmarshal_custom : string -> option (Z * gmap string string);
}.

(** ** provider.go: requests *)

Record Provider := mkProvider { p_name : string; p_endpoint : string; p_apiKey : string; p_model : string; p_thinking : ProviderThinkingConfig }.

Definition TrimRightSlash (s : string) : string := string_rev (strip_slashes (string_rev s)).
Definition NewProvider (name endpoint apiKey model : string) (thinking : ProviderThinkingConfig) : Provider :=
  mkProvider name (TrimRightSlash (if String.eqb endpoint "" then "http://localhost:8000/v1" else endpoint)) apiKey
    (if String.eqb model "" then "gpt-4o" else model) thinking.

Section provider.
Context `{OpenAIJson}.

Definition reasoning_keys : list string := ["reasoning_content"; "reasoning"; "reasoning_details"].

Definition replayCustom (raw : string) (message : gmap string string) : gmap string string :=
  match unmarshal_custom raw with
  | Some (1%Z, fields) =>
      foldl (fun m key => match fields !! key with Some v => if json_valid v then <[key := v]> m else m | None => m end) message reasoning_keys
  | _ => message
  end.

Definition wire_message (p : Provider) (m : Message) : wireMessage :=
  let raw := default "" (Custom m !! p_name p) in
  mkWireMessage (Role m) (Content m)
    (if String.eqb (ToolCallID m) "" then None else Some (ToolCallID m))
    (match ToolCalls m with [] => None | calls => Some calls end)
    (if String.eqb raw "" then ∅ else replayCustom raw ∅).

Definition toolSpec (definitions : list Tool) : list (string * Tool) := (fun d => ("function", d)) <$> definitions.

Definition openAIToolChoice (choice : string) : option string :=
  if String.eqb choice "required" then Some "required" else if String.eqb choice "none" then Some "none" else None.

Definition openAIResponseFormat (jsonMode : bool) : option string := if jsonMode then Some "json_object" else None.

Definition buildChatRequest (p : Provider) (req : ChatRequest) : OpenAIChatRequest :=
  let mode := RequestMode (p_thinking p) in
  mkWireRequest (QModel req) (wire_message p <$> QMessages req) false None (toolSpec (QTools req)) (openAIToolChoice (QToolChoice req)) (openAIResponseFormat (QJSONMode req))
    (String.eqb mode ThinkingRequestEnable) (if String.eqb mode ThinkingRequestEffort then Effort (p_thinking p) else "").

(** ** provider.go: the answer *)

Definition line_feed : string := String "010" "".

Fixpoint first_text (keys : list string) (detail : gmap string string) : option string :=
  match keys with
  | [] => None
  | key :: keys =>
      match unmarshal_string (default "" (detail !! key)) with
      | Some text => if String.eqb (TrimSpace text) "" then first_text keys detail else Some (TrimSpace text)
      | None => first_text keys detail
      end
  end.

Definition thinkingText (name raw : string) : string :=
  if String.eqb raw "" || String.eqb raw "null" then ""
  else if negb (String.eqb name "reasoning_details") then match unmarshal_string raw with Some text => TrimSpace text | None => "" end
  else match unmarshal_details raw with Some details => Join line_feed (omap (first_text ["text"; "content"]) details) | None => "" end.

Definition reasoning_fields (m : OpenAIResponseMessage) : list (string * string) :=
  [("reasoning_content", ReasoningContent m); ("reasoning", Reasoning m); ("reasoning_details", ReasoningDetails m)].

Definition normalizeThinking (m : OpenAIResponseMessage) : string :=
  foldl (fun text f => if String.eqb text "" then thinkingText f.1 f.2 else text) "" (reasoning_fields m).

Definition present_fields (fs : list (string * string)) : gmap string string :=
  foldl (fun m f => if String.eqb f.2 "" then m else <[f.1 := f.2]> m) ∅ fs.

Definition custom_of (name : string) (fields : gmap string string) : gmap string string :=
  if bool_decide (fields = ∅) then ∅ else match marshal_custom 1 fields with Some payload => {[name := payload]} | None => ∅ end.

Definition openAICustom (m : OpenAIResponseMessage) (name : string) : gmap string string := custom_of name (present_fields (reasoning_fields m)).

Definition normalize_message (name : string) (m : OpenAIResponseMessage) : Message :=
  mkMessage (WRole m) (WContent m) (WToolCallID m) (WToolCalls m) (normalizeThinking m) (openAICustom m name) "" 0%Z.

Definition normalizeChatResponse (wire : OpenAIChatResponse) (name : string) : ChatResponse :=
  mkResponse (WID wire) (WObject wire) (WCreated wire) (WModel wire)
    ((fun c => mkChoice (WIndex c) (normalize_message name (WMessage c)) (WFinish c)) <$> WChoices wire) (WUsage wire).

(** ** provider.go: the stream *)

(** [live n]: the context is not done before line [n]; [send_ok k]: the [k]-th token
    is received before the context is done. *)
Section stream.
Context (live send_ok : nat -> bool) (name : string).

Definition plain (type content : string) (done : bool) : stream_token := mkStreamToken (mkToken type content done no_call "") None.

Definition send (tok : stream_token) (sent : list stream_token) : list stream_token * bool :=
  if send_ok (length sent) then (sent ++ [tok], true) else (sent, false).

Record streamAcc := mkAcc { content : string; rcText : string; rText : string; calls : list ToolCall; finish : string }.
Definition no_acc : streamAcc := mkAcc "" "" "" [] "".

Definition keep (new old : string) : string := if String.eqb new "" then old else new.

Definition merge_call (calls : list ToolCall) (dt : DeltaToolCall) : list ToolCall :=
  if (DIndex dt <? 0)%Z then calls
  else
    let i := Z.to_nat (DIndex dt) in
    alter (fun c => mkToolCall (keep (DID dt) (ID c)) (keep (DType dt) (Type_ c)) (keep (DName dt) (Name c)) (Arguments c +:+ DArguments dt))
      i (calls ++ replicate (Datatypes.S i - length calls) no_call).

Definition send_text (type text : string) (sent : list stream_token) : list stream_token * bool :=
  if String.eqb text "" then (sent, true) else send (plain type text false) sent.

Definition handleStreamDelta (d : Delta) (a : streamAcc) (sent : list stream_token) : streamAcc * list stream_token * bool :=
  let a := mkAcc (content a) (rcText a +:+ DReasoningContent d) (rText a) (calls a) (finish a) in
  let '(sent, ok) := send_text "thinking" (DReasoningContent d) sent in
  if negb ok then (a, sent, false)
  else
    let a := mkAcc (content a) (rcText a) (rText a +:+ DReasoning d) (calls a) (finish a) in
    let '(sent, ok) := send_text "thinking" (DReasoning d) sent in
    if negb ok then (a, sent, false)
    else
      let a := mkAcc (content a +:+ DContent d) (rcText a) (rText a) (calls a) (finish a) in
      let '(sent, ok) := send_text "text" (DContent d) sent in
      if negb ok then (a, sent, false)
      else (mkAcc (content a) (rcText a) (rText a) (foldl merge_call (calls a) (DToolCalls d)) (finish a), sent, true).

(** [strings.TrimRight(line, CR LF)]. *)
Fixpoint strip_ends (s : string) : string :=
  match s with
  | String c s' => if Ascii.eqb c "013" || Ascii.eqb c "010" then strip_ends s' else s
  | EmptyString => EmptyString
  end.
Definition trim_line (s : string) : string := string_rev (strip_ends (string_rev s)).

(** What a line holds: nothing of interest, the end of the stream, or a chunk. *)
Inductive event : Type := Nothing | DoneMark | Chunk (c : StreamChunk).

Definition event_of (line : string) : event :=
  let line := trim_line line in
  if negb (HasPrefix line "data:") then Nothing
  else
    let data := TrimSpace (TrimPrefix line "data:") in
    if String.eqb data "[DONE]" then DoneMark else match decode_chunk data with Some c => Chunk c | None => Nothing end.

Definition take_chunk (c : StreamChunk) (a : streamAcc) (sent : list stream_token) : streamAcc * list stream_token * bool :=
  match CChoices c with
  | [] => (a, sent, true)
  | choice :: _ =>
      let '(a, sent, ok) := handleStreamDelta (CDelta choice) a sent in
      if negb ok then (a, sent, false)
      else if String.eqb (CFinish choice) "" then (a, sent, true)
      else
        let a := mkAcc (content a) (rcText a) (rText a) (calls a) (CFinish choice) in
        let '(sent, ok) := send (plain "text" "" true) sent in (a, sent, ok)
  end.

Inductive read_end : Type :=
  | Stopped (sent : list stream_token)
  | Ended (a : streamAcc) (usage : option UsageInfo) (sent : list stream_token).

(** The lines of the body, the last one without its end; [clean]: behind it is the
    end of the body, not an error. *)
Fixpoint read_lines (clean : bool) (n : nat) (ls : list string) (a : streamAcc) (usage : option UsageInfo) (sent : list stream_token) : read_end :=
  match ls with
  | [] => Ended a usage sent
  | line :: rest =>
      if negb (live n) then Stopped sent
      else if bool_decide (rest = []) && negb clean then Stopped sent
      else
        match event_of line with
        | Nothing => read_lines clean (Datatypes.S n) rest a usage sent
        | DoneMark => Ended a usage sent
        | Chunk c =>
            let usage := match CUsage c with Some u => Some u | None => usage end in
            let '(a, sent, ok) := take_chunk c a sent in
            if ok then read_lines clean (Datatypes.S n) rest a usage sent else Stopped sent
        end
  end.

Definition nothing_came (a : streamAcc) : bool := String.eqb (content a) "" && String.eqb (rcText a) "" && String.eqb (rText a) "" && bool_decide (calls a = []).

Definition stream_fields (a : streamAcc) : gmap string string :=
  (if String.eqb (rText a) "" then id else <["reasoning" := marshal_string (rText a)]>) (if String.eqb (rcText a) "" then ∅ else {["reasoning_content" := marshal_string (rcText a)]}).

Definition named_call (c : ToolCall) : bool := negb (String.eqb (ID c) "" && String.eqb (Name c) "").

Definition assemble (a : streamAcc) : Message :=
  mkMessage "assistant" (content a) "" (List.filter named_call (calls a)) (rcText a +:+ rText a) (custom_of name (stream_fields a)) "" 0%Z.

Definition final_token (a : streamAcc) (usage : option UsageInfo) : stream_token :=
  mkStreamToken (mkToken "text" "" true no_call "") (Some (mkResponse "" "" 0 "" [mkChoice 0 (assemble a) (finish a)] usage)).

Definition readSSE (body : string) (clean : bool) : list stream_token :=
  match read_lines clean 0 (Split NL body) no_acc None [] with
  | Stopped sent => sent
  | Ended a usage sent => if nothing_came a then sent else (send (final_token a usage) sent).1
  end.
End stream.

(** ** provider.go: Chat and ChatStream *)

(** What the HTTP client gives: an error, or a status and a body with whether it
    could be read to its end. *)
Inductive http_result : Type := HttpError (e : string) | HttpResponse (status : Z) (body : string) (whole : bool).
Inductive chat_error : Type := EMarshal | ERequest (e : string) | EStatus (status : Z) | ERead | EDecode.

Context (post : string -> list (string * string) -> string -> http_result).

Definition headers (p : Provider) : list (string * string) := [("Content-Type", "application/json"); ("Authorization", "Bearer " +:+ p_apiKey p)].
Definition with_model (p : Provider) (req : ChatRequest) : ChatRequest :=
  mkRequest (if String.eqb (QModel req) "" then p_model p else QModel req) (QMessages req) (QStream req) (QTools req) (QToolChoice req) (QJSONMode req).

Definition Chat (p : Provider) (req : ChatRequest) : result chat_error ChatResponse :=
  match marshal_request (buildChatRequest p (with_model p req)) with
  | None => Prelude.Err EMarshal
  | Some body =>
      match post (p_endpoint p +:+ "/chat/completions") (headers p) body with
      | HttpError e => Prelude.Err (ERequest e)
      | HttpResponse status raw whole =>
          if negb (status =? 200)%Z then Prelude.Err (EStatus status)
          else if negb whole then Prelude.Err ERead
          else match decode_response raw with Some wire => Ok (normalizeChatResponse wire (p_name p)) | None => Prelude.Err EDecode end
      end
  end.

(** The fields that only a streamed request has. *)
Definition streamed (q : OpenAIChatRequest) : OpenAIChatRequest :=
  mkWireRequest (q_model q) (q_messages q) true (Some true) (q_tools q) (q_tool_choice q) (q_response_format q) (q_enable_thinking q) (q_reasoning_effort q).

Definition ChatStream (live send_ok : nat -> bool) (p : Provider) (req : ChatRequest) : result chat_error (list stream_token) :=
  match marshal_request (streamed (buildChatRequest p (with_model p req))) with
  | None => Prelude.Err EMarshal
  | Some body =>
      match post (p_endpoint p +:+ "/chat/completions") (headers p) body with
      | HttpError e => Prelude.Err (ERequest e)
      | HttpResponse status raw whole => if negb (status =? 200)%Z then Prelude.Err (EStatus status) else Ok (readSSE live send_ok (p_name p) raw whole)
      end
  end.

(** What the agent makes of the channel ([chat] of ai-core/agent/agent.go). *)
Definition chat_messages (r : ChatResponse) : list Message := RMessage <$> RChoices r.
Definition error_of (e : chat_error) : AgentRun.error := plain_error match e with ERequest t => t | _ => "provider" end.

Definition chat_outcome_of (live send_ok : nat -> bool) (ctxErr : option AgentRun.error) (p : Provider) (req : ChatRequest) : chat_outcome :=
  match ChatStream live send_ok p req with
  | Prelude.Err _ => match Chat p req with Ok r => NoStream (Some (chat_messages r)) None | Prelude.Err e => NoStream None (Some (error_of e)) end
  | Ok toks =>
      Stream (s_token <$> List.filter (fun t => match s_response t with None => true | Some _ => false end) toks)
        (chat_messages <$> last (omap s_response toks)) ctxErr
  end.
End provider.

(** * The stream is the answer *)

(** ** Concatenation *)

Definition together (parts : list string) : string := foldr String.append "" parts.

Lemma together_app a b : together (a ++ b) = together a +:+ together b.
Proof. induction a as [|x a IH]; [done|]. change (x +:+ together (a ++ b) = (x +:+ together a) +:+ together b). rewrite IH. apply append_assoc. Qed.

Lemma together_snoc a x : together (a ++ [x]) = together a +:+ x.
Proof. rewrite together_app. cbn. by rewrite append_nil_r. Qed.

(** ** The calls of a stream *)

(** The last of the texts that is not empty. *)
Definition last_text (texts : list string) : string := foldl (fun old new => keep new old) "" texts.

Definition whole_call (pieces : list DeltaToolCall) : ToolCall :=
  mkToolCall (last_text (DID <$> pieces)) (last_text (DType <$> pieces)) (last_text (DName <$> pieces)) (together (DArguments <$> pieces)).

Definition at_index (i : nat) (dt : DeltaToolCall) : bool := (DIndex dt =? Z.of_nat i)%Z.
Definition slots (pieces : list DeltaToolCall) : nat := foldl (fun n dt => if (DIndex dt <? 0)%Z then n else Nat.max n (Datatypes.S (Z.to_nat (DIndex dt)))) 0%nat pieces.

(** The calls: of every index up to the highest one what its pieces say together. *)
Definition whole_calls (pieces : list DeltaToolCall) : list ToolCall := (fun i => whole_call (List.filter (at_index i) pieces)) <$> seq 0 (slots pieces).

Lemma whole_call_snoc ps dt : whole_call (ps ++ [dt]) =
  let c := whole_call ps in mkToolCall (keep (DID dt) (ID c)) (keep (DType dt) (Type_ c)) (keep (DName dt) (Name c)) (Arguments c +:+ DArguments dt).
Proof. unfold whole_call, last_text. rewrite !fmap_app, !foldl_app, together_app. cbn. by rewrite append_nil_r. Qed.

Lemma filter_snoc i ps dt : List.filter (at_index i) (ps ++ [dt]) = List.filter (at_index i) ps ++ if bool_decide (DIndex dt = Z.of_nat i) then [dt] else [].
Proof. rewrite List.filter_app. f_equal. change (List.filter (at_index i) [dt]) with (if at_index i dt then [dt] else []). unfold at_index. case_bool_decide as E; [by rewrite (proj2 (Z.eqb_eq _ _) E)|by rewrite (proj2 (Z.eqb_neq _ _) E)]. Qed.

Lemma pieces_are_merged ps : foldl merge_call [] ps = whole_calls ps.
Proof.
  induction ps as [|dt ps IH] using rev_ind; [done|]. rewrite foldl_app. cbn [foldl]. rewrite IH. unfold merge_call, whole_calls, slots. rewrite foldl_app. cbn [foldl]. fold (slots ps).
  destruct (Z.ltb_spec (DIndex dt) 0) as [Hneg|Hpos].
  - apply list_fmap_ext. intros k i Hi%lookup_seq. f_equal. rewrite filter_snoc, bool_decide_false by lia. by rewrite app_nil_r.
  - set (n := Z.to_nat (DIndex dt)). rewrite length_fmap, length_seq. apply list_eq. intros k.
    assert (Hnone : forall i, (slots ps <= i)%nat -> List.filter (at_index i) ps = []).
    { intros i. unfold slots. clear. induction ps as [|x ps IH] using rev_ind; [done|]. rewrite foldl_app. cbn [foldl]. intros Hi. rewrite filter_snoc.
      destruct (Z.ltb_spec (DIndex x) 0); rewrite IH by lia; by rewrite bool_decide_false by lia. }
    assert (Hat : forall i, List.filter (at_index i) (ps ++ [dt]) = List.filter (at_index i) ps ++ if bool_decide (i = n) then [dt] else []).
    { intros i. rewrite filter_snoc. f_equal. rewrite (bool_decide_ext (DIndex dt = Z.of_nat i) (i = n)); [done|lia]. }
    assert (Hold : (((fun i => whole_call (List.filter (at_index i) ps)) <$> seq 0 (slots ps)) ++ replicate (Datatypes.S n - slots ps) no_call) !! k
        = if decide (k < Nat.max (slots ps) (Datatypes.S n))%nat then Some (whole_call (List.filter (at_index k) ps)) else None).
    { destruct (decide (k < slots ps)%nat) as [Hk|Hk].
      - rewrite lookup_app_l by (by rewrite length_fmap, length_seq). rewrite list_lookup_fmap, lookup_seq_lt by done. cbn. rewrite decide_True by lia. done.
      - rewrite lookup_app_r by (rewrite length_fmap, length_seq; lia). rewrite length_fmap, length_seq. case_decide as Hm.
        + rewrite lookup_replicate_2 by lia. rewrite Hnone by lia. done.
        + apply lookup_ge_None_2. rewrite length_replicate. lia. }
    destruct (decide (k = n)) as [->|Hkn].
    + rewrite list_lookup_alter_eq, Hold, decide_True by lia. cbn. rewrite list_lookup_fmap, lookup_seq_lt by lia. cbn. rewrite Hat, bool_decide_true by done. by rewrite whole_call_snoc.
    + rewrite list_lookup_alter_ne by done. rewrite Hold, list_lookup_fmap. case_decide as Hm.
      * rewrite lookup_seq_lt by done. cbn. rewrite Hat, bool_decide_false, app_nil_r by done. done.
      * rewrite lookup_seq_ge by lia. done.
Qed.

(** ** The stream as a whole *)

Section whole.
Context `{OpenAIJson}.

(** What the lines say, and whether they say it to the end: [DONE], or the end of
    the body. *)
Fixpoint heard (clean : bool) (ls : list string) : list StreamChunk * bool :=
  match ls with
  | [] => ([], true)
  | line :: rest =>
      if bool_decide (rest = []) && negb clean then ([], false)
      else
        match event_of line with
        | Nothing => heard clean rest
        | DoneMark => ([], true)
        | Chunk c => let '(cs, w) := heard clean rest in (c :: cs, w)
        end
  end.

Definition deltas (cs : list StreamChunk) : list Delta := CDelta <$> omap (fun c => head (CChoices c)) cs.

Definition shown (type text : string) : list stream_token := if String.eqb text "" then [] else [plain type text false].
Definition spoken (d : Delta) : list stream_token := shown "thinking" (DReasoningContent d) ++ shown "thinking" (DReasoning d) ++ shown "text" (DContent d).
Definition chunk_tokens (c : StreamChunk) : list stream_token :=
  match CChoices c with [] => [] | choice :: _ => spoken (CDelta choice) ++ (if String.eqb (CFinish choice) "" then [] else [plain "text" "" true]) end.

Definition whole_answer (cs : list StreamChunk) : streamAcc :=
  let ds := deltas cs in
  mkAcc (together (DContent <$> ds)) (together (DReasoningContent <$> ds)) (together (DReasoning <$> ds)) (whole_calls (mjoin (DToolCalls <$> ds)))
    (last_text (CFinish <$> omap (fun c => head (CChoices c)) cs)).

Definition the_stream (name body : string) (clean : bool) : list stream_token :=
  let '(cs, w) := heard clean (Split NL body) in
  let a := whole_answer cs in
  mjoin (chunk_tokens <$> cs) ++ (if w && negb (nothing_came a) then [final_token name a (last (omap CUsage cs))] else []).

Section reading.
Context (live send_ok : nat -> bool) (name : string).

Fixpoint send_all (toks sent : list stream_token) : list stream_token * bool :=
  match toks with
  | [] => (sent, true)
  | tok :: toks => let '(sent, ok) := send send_ok tok sent in if ok then send_all toks sent else (sent, false)
  end.

Lemma send_all_app a b sent : send_all (a ++ b) sent = let '(sent, ok) := send_all a sent in if ok then send_all b sent else (sent, false).
Proof. revert sent. induction a as [|t a IH]; intros sent; [done|]. cbn. destruct (send send_ok t sent) as [s [|]]; [apply IH|done]. Qed.

Lemma send_all_prefix toks sent : exists pre, (send_all toks sent).1 = sent ++ pre /\ pre `prefix_of` toks /\ ((send_all toks sent).2 = true -> pre = toks) /\ ((forall k, send_ok k = true) -> (send_all toks sent).2 = true).
Proof.
  revert sent. induction toks as [|t toks IH]; intros sent; [exists []; by rewrite app_nil_r|]. cbn. unfold send. destruct (send_ok (length sent)) eqn:Eo.
  - destruct (IH (sent ++ [t])) as (pre & -> & Hp & Hd & Ha). exists (t :: pre). rewrite <- app_assoc. split_and!; [done|by apply prefix_cons|by intros ->%Hd|done].
  - exists []. rewrite app_nil_r. split_and!; [done|apply prefix_nil|done|]. intros Hall. by rewrite Hall in Eo.
Qed.

Lemma send_shown type text sent : send_text send_ok type text sent = send_all (shown type text) sent.
Proof. unfold send_text, shown. destruct (String.eqb text ""); [done|]. cbn. by destruct (send _ _ _) as [s [|]]. Qed.

Definition add_delta (a : streamAcc) (d : Delta) : streamAcc :=
  mkAcc (content a +:+ DContent d) (rcText a +:+ DReasoningContent d) (rText a +:+ DReasoning d) (foldl merge_call (calls a) (DToolCalls d)) (finish a).
Definition add_chunk (a : streamAcc) (c : StreamChunk) : streamAcc :=
  match CChoices c with
  | [] => a
  | choice :: _ => let a := add_delta a (CDelta choice) in mkAcc (content a) (rcText a) (rText a) (calls a) (keep (CFinish choice) (finish a))
  end.

Lemma delta_sends d a sent : let '(a', sent', ok) := handleStreamDelta send_ok d a sent in send_all (spoken d) sent = (sent', ok) /\ (ok = true -> a' = add_delta a d).
Proof.
  unfold handleStreamDelta, spoken. rewrite !send_all_app, !send_shown. destruct (send_all (shown _ (DReasoningContent d)) sent) as [s1 [|]]; [|done]. cbn [negb].
  rewrite !send_all_app, !send_shown. destruct (send_all (shown _ (DReasoning d)) s1) as [s2 [|]]; [|done]. cbn [negb].
  rewrite send_shown. by destruct (send_all (shown _ (DContent d)) s2) as [s3 [|]].
Qed.

Lemma chunk_sends c a sent : let '(a', sent', ok) := take_chunk send_ok c a sent in send_all (chunk_tokens c) sent = (sent', ok) /\ (ok = true -> a' = add_chunk a c).
Proof.
  unfold take_chunk, chunk_tokens, add_chunk. destruct (CChoices c) as [|choice rest]; [done|]. pose proof (delta_sends (CDelta choice) a sent) as Hd.
  destruct (handleStreamDelta _ _ a sent) as [[a1 s1] ok]. destruct Hd as [Hd Ha]. rewrite send_all_app, Hd. destruct ok; [|done]. rewrite (Ha eq_refl). cbn [negb]. unfold keep.
  destruct (String.eqb (CFinish choice) ""); [done|]. cbn [send_all]. by destruct (send send_ok _ s1) as [s2 [|]].
Qed.

Lemma reads clean ls : forall n a usage sent,
  let '(cs, w) := heard clean ls in let toks := mjoin (chunk_tokens <$> cs) in
  match read_lines live send_ok clean n ls a usage sent with
  | Stopped s => exists pre, s = sent ++ pre /\ pre `prefix_of` toks /\ ((forall k, live k = true) -> (forall k, send_ok k = true) -> w = false /\ pre = toks)
  | Ended a' usage' s => w = true /\ s = sent ++ toks /\ a' = foldl add_chunk a cs /\ usage' = foldl (fun u c => match CUsage c with Some x => Some x | None => u end) usage cs
  end.
Proof.
  induction ls as [|line ls IH]; intros n a usage sent; cbn [heard read_lines]; [by rewrite app_nil_r|].
  destruct (live n) eqn:El; cbn [negb].
  2: { destruct (if bool_decide _ && _ then _ else _) as [cs w]. exists []. rewrite app_nil_r. split_and!; [done|apply prefix_nil|]. intros Hl. by rewrite Hl in El. }
  destruct (bool_decide (ls = []) && negb clean); [exists []; by rewrite app_nil_r|]. destruct (event_of line) as [| |c]; [apply IH|by rewrite app_nil_r|].
  pose proof (chunk_sends c a sent) as Hc. destruct (take_chunk send_ok c a sent) as [[a1 s1] ok]. destruct Hc as [Hs Ha]. destruct (send_all_prefix (chunk_tokens c) sent) as (pre & E & Hp & Hd & Hall). rewrite Hs in E, Hd, Hall. cbn in E, Hd, Hall. subst s1.
  set (u := match CUsage c with Some x => Some x | None => usage end). specialize (IH (Datatypes.S n) a1 u (sent ++ pre)). destruct (heard clean ls) as [cs w]. destruct ok.
  - rewrite (Hd eq_refl) in *. rewrite (Ha eq_refl) in *. destruct (read_lines _ _ _ _ _ _ _ _) as [s|a' u' s].
    + destruct IH as (pre' & -> & Hp' & Hw). exists (chunk_tokens c ++ pre'). rewrite <- app_assoc. split_and!; [done|by apply prefix_app|]. intros Hl Ho. destruct (Hw Hl Ho) as [-> ->]. done.
    + destruct IH as (-> & -> & -> & ->). rewrite <- app_assoc. done.
  - exists pre. split_and!; [done|by apply prefix_app_r|]. intros _ Ho. by specialize (Hall Ho).
Qed.

Lemma chunks_together cs : forall a, foldl add_chunk a cs =
  mkAcc (content a +:+ together (DContent <$> deltas cs)) (rcText a +:+ together (DReasoningContent <$> deltas cs)) (rText a +:+ together (DReasoning <$> deltas cs))
    (foldl merge_call (calls a) (mjoin (DToolCalls <$> deltas cs))) (foldl (fun old new => keep new old) (finish a) (CFinish <$> omap (fun c => head (CChoices c)) cs)).
Proof.
  induction cs as [|c cs IH]; intros a; [cbn; rewrite !append_nil_r; by destruct a|]. cbn [foldl]. rewrite IH. unfold add_chunk, deltas. cbn [omap list_omap]. destruct (CChoices c) as [|choice rest]; [done|]. cbn.
  by rewrite !append_assoc, foldl_app.
Qed.

Lemma last_usage cs : forall u, foldl (fun u c => match CUsage c with Some x => Some x | None => u end) u cs = match last (omap CUsage cs) with Some x => Some x | None => u end.
Proof.
  induction cs as [|c cs IH]; intros u; [done|]. cbn. rewrite IH. destruct (CUsage c) as [x|]; [|done]. rewrite last_cons. by destruct (last (omap CUsage cs)).
Qed.

Lemma whole_of cs : foldl add_chunk no_acc cs = whole_answer cs.
Proof. rewrite chunks_together. unfold whole_answer. cbn. by rewrite pieces_are_merged. Qed.

Lemma read_stream body clean :
  readSSE live send_ok name body clean `prefix_of` the_stream name body clean
  /\ ((forall k, live k = true) -> (forall k, send_ok k = true) -> readSSE live send_ok name body clean = the_stream name body clean).
Proof.
  unfold readSSE, the_stream. pose proof (reads clean (Split NL body) 0%nat no_acc None []) as Hr. destruct (heard clean (Split NL body)) as [cs w]. cbv zeta in Hr. destruct (read_lines _ _ _ _ _ _ _ _) as [s|a u s].
  - destruct Hr as (pre & -> & Hp & Hall). cbn [app]. split; [by apply prefix_app_r|]. intros Hl Ho. destruct (Hall Hl Ho) as [-> ->]. by rewrite app_nil_r.
  - destruct Hr as (-> & -> & -> & ->). rewrite whole_of, last_usage. cbn [app andb]. replace (match last (omap CUsage cs) with Some x => Some x | None => None end) with (last (omap CUsage cs)) by (by destruct (last _)).
    destruct (nothing_came _); cbn [negb]; [by rewrite app_nil_r|]. unfold send. destruct (send_ok (length _)) eqn:Eo; [done|]. split; [by apply prefix_app_r|]. intros _ Ho. by rewrite Ho in Eo.
Qed.
End reading.

Lemma said_quiet cs t : t ∈ mjoin (chunk_tokens <$> cs) -> s_response t = None.
Proof.
  intros (l & Hin & (c & -> & _)%list_elem_of_fmap)%list_elem_of_join. unfold chunk_tokens, spoken, shown in Hin. revert t Hin. apply Forall_forall. destruct (CChoices c); [constructor|]. rewrite !Forall_app.
  split_and!; destruct (String.eqb _ _); by repeat constructor.
Qed.

Lemma response_is_last name body clean pre tok rest r : the_stream name body clean = pre ++ tok :: rest -> s_response tok = Some r ->
  rest = [] /\ (heard clean (Split NL body)).2 = true /\ RMessage <$> RChoices r = [assemble name (whole_answer (heard clean (Split NL body)).1)].
Proof.
  unfold the_stream. destruct (heard clean (Split NL body)) as [cs w]. cbn [fst snd]. intros E Hs.
  assert (Hno : forall rest', mjoin (chunk_tokens <$> cs) <> pre ++ tok :: rest'). { intros rest' E'. rewrite (said_quiet cs) in Hs; [done|]. rewrite E'. apply elem_of_app. right. by left. }
  destruct (w && _) eqn:Ew; [|rewrite app_nil_r in E; by destruct (Hno rest)]. apply andb_true_iff in Ew as [-> _]. destruct rest as [|x rest _] using rev_ind.
  - apply app_inj_2 in E as [_ [= <-]]; [|done]. by injection Hs as <-.
  - rewrite app_comm_cons, app_assoc in E. apply app_inj_2 in E as [E _]; [|done]. by destruct (Hno rest).
Qed.

(** C33: what the reader of a stream is given is a beginning of what the stream says,
    and all of it if the context lives: the texts in their order, and at the end, if
    the body came to its end or to [DONE], one response with the texts put together,
    the calls put together by their index from pieces in any order, the last finish
    reason and the last usage. A response is only ever the last token, it is whole,
    and a body that breaks off gives none. *)
Theorem a_stream_is_whole_or_cut live send_ok name body clean :
  let toks := readSSE live send_ok name body clean in
  toks `prefix_of` the_stream name body clean
  /\ ((forall k, live k = true) -> (forall k, send_ok k = true) -> toks = the_stream name body clean)
  /\ (forall pre tok post r, toks = pre ++ tok :: post -> s_response tok = Some r ->
        post = [] /\ (heard clean (Split NL body)).2 = true /\ RMessage <$> RChoices r = [assemble name (whole_answer (heard clean (Split NL body)).1)]).
Proof.
  intros toks. subst toks. destruct (read_stream live send_ok name body clean) as [Hp Ha]. split_and!; [done|done|]. intros pre tok post r E Hs. destruct Hp as [k Hk]. rewrite E, <- app_assoc in Hk. cbn [app] in Hk.
  destruct (response_is_last _ _ _ _ _ _ _ Hk Hs) as [Hn H2]. by apply app_eq_nil in Hn as [-> _].
Qed.

(** ** Streamed or not, the answer is the same *)

(** The pieces of an answer: the texts in order, and of every call first a piece
    with its names, then pieces of its arguments, with the pieces of other calls in
    between. *)
Record splits (ds : list Delta) (text rc r : string) (cs : list ToolCall) : Prop := {
  f_text : together (DContent <$> ds) = text;
  f_rc : together (DReasoningContent <$> ds) = rc;
  f_r : together (DReasoning <$> ds) = r;
  f_index : forall dt, dt ∈ mjoin (DToolCalls <$> ds) -> (0 <= DIndex dt < Z.of_nat (length cs))%Z;
  f_call : forall i c, cs !! i = Some c -> exists dt rest, List.filter (at_index i) (mjoin (DToolCalls <$> ds)) = dt :: rest
    /\ DID dt = ID c /\ DType dt = Type_ c /\ DName dt = Name c /\ Forall (fun d => DID d = "" /\ DType d = "" /\ DName d = "") rest
    /\ together (DArguments <$> dt :: rest) = Arguments c;
}.

Lemma slots_le ps n : (forall dt, dt ∈ ps -> (DIndex dt < Z.of_nat n)%Z) -> (slots ps <= n)%nat.
Proof.
  unfold slots. induction ps as [|x ps IH] using rev_ind; intros Hn; [cbn; lia|]. rewrite foldl_app. cbn [foldl].
  assert (Hx : (DIndex x < Z.of_nat n)%Z) by (apply Hn, elem_of_app; right; by left).
  assert (Hps : (foldl (fun n dt => if (DIndex dt <? 0)%Z then n else Nat.max n (Datatypes.S (Z.to_nat (DIndex dt)))) 0 ps <= n)%nat) by (apply IH; intros dt Hd; apply Hn, elem_of_app; by left).
  destruct (Z.ltb_spec (DIndex x) 0); lia.
Qed.

Lemma slots_ge ps i dt rest : List.filter (at_index i) ps = dt :: rest -> (i < slots ps)%nat.
Proof.
  unfold slots. induction ps as [|x ps IH] using rev_ind in rest |- *; [done|]. rewrite filter_snoc, foldl_app. cbn [foldl]. case_bool_decide as E.
  - intros _. destruct (Z.ltb_spec (DIndex x) 0); lia.
  - rewrite app_nil_r. intros Hf. specialize (IH _ Hf). destruct (Z.ltb_spec (DIndex x) 0); lia.
Qed.

Lemma last_text_quiet l x : Forall (fun t => t = "") l -> last_text (x :: l) = x.
Proof.
  unfold last_text. cbn [foldl]. assert (E : keep x "" = x) by (unfold keep; by destruct (String.eqb_spec x "")). rewrite E. clear E. induction 1 as [|y l -> _ IH]; [done|]. exact IH.
Qed.

Lemma calls_come_together ds text rc r cs : splits ds text rc r cs -> whole_calls (mjoin (DToolCalls <$> ds)) = cs.
Proof.
  intros [_ _ _ Hi Hc]. set (ps := mjoin (DToolCalls <$> ds)) in *. unfold whole_calls.
  assert (Hs : slots ps = length cs).
  { apply Nat.le_antisymm; [apply slots_le; intros dt Hd; by apply Hi|]. destruct (length cs) as [|n] eqn:En; [lia|]. destruct (lookup_lt_is_Some_2 cs n) as [c Hcn]; [lia|].
    destruct (Hc n c Hcn) as (dt & rest & Hf & _). apply slots_ge in Hf. lia. }
  rewrite Hs. apply list_eq. intros i. rewrite list_lookup_fmap. destruct (decide (i < length cs)%nat) as [Hl|Hl].
  - rewrite lookup_seq_lt by done. cbn. destruct (lookup_lt_is_Some_2 cs i Hl) as [c E]. rewrite E. destruct (Hc i c E) as (dt & rest & Hf & H1 & H2 & H3 & Hq & Ha). rewrite Hf. f_equal. unfold whole_call.
    assert (Hlast : forall f : DeltaToolCall -> string, Forall (fun d => f d = "") rest -> last_text (f <$> dt :: rest) = f dt) by (intros f Hn; change (last_text (f dt :: (f <$> rest)) = f dt); apply last_text_quiet; by rewrite Forall_fmap).
    rewrite Ha, !Hlast; [destruct c; cbn in *; congruence| | |]; by (eapply Forall_impl; [exact Hq|]; intros d (? & ? & ?)).
  - rewrite lookup_seq_ge by lia. rewrite lookup_ge_None_2 by lia. done.
Qed.

Class OpenAIJsonLaws : Prop := {
  string_literal : forall s, exists rest, marshal_string s = String "034" rest;
  string_back : forall s, unmarshal_string (marshal_string s) = Some s;
  custom_total : forall v fields, map_Forall (fun _ raw => json_valid raw = true) fields -> is_Some (marshal_custom v fields);
  custom_back : forall v fields payload, marshal_custom v fields = Some payload -> unmarshal_custom payload = Some (v, fields) /\ payload <> "";
}.
Context `{!OpenAIJsonLaws}.

Definition raw_text (s : string) : string := if String.eqb s "" then "" else marshal_string s.

Lemma raw_text_empty s : String.eqb (raw_text s) "" = String.eqb s "".
Proof. unfold raw_text. destruct (String.eqb_spec s ""); [done|]. by destruct (string_literal s) as [rest ->]. Qed.

Lemma raw_thinking key s : key <> "reasoning_details" -> TrimSpace s = s -> thinkingText key (raw_text s) = s.
Proof.
  intros Hk Ht. unfold thinkingText. rewrite raw_text_empty. destruct (String.eqb_spec s "") as [->|Hn]; [done|]. unfold raw_text. rewrite (proj2 (String.eqb_neq s "") Hn).
  apply String.eqb_neq in Hk. rewrite Hk. destruct (string_literal s) as [rest E]. rewrite E. change (String.eqb (String "034" rest) "null") with false. cbn [orb negb]. by rewrite <- E, string_back.
Qed.

Lemma assembled name chunks text rc r cs :
  splits (deltas chunks) text rc r cs -> rc = "" \/ r = "" -> TrimSpace rc = rc -> TrimSpace r = r -> Forall (fun c => named_call c = true) cs ->
  assemble name (whole_answer chunks) = normalize_message name (mkWire "assistant" text "" cs (raw_text rc) (raw_text r) "").
Proof.
  intros Hsp Hone Hrc Hr Hcs. pose proof (calls_come_together _ _ _ _ _ Hsp) as Hcalls. destruct Hsp as [H1 H2 H3 _ _]. unfold assemble, whole_answer, normalize_message. cbn.
  rewrite H1, H2, H3, Hcalls, filter_all by done. f_equal.
  - unfold normalizeThinking, reasoning_fields. cbn [foldl fst snd ReasoningContent Reasoning ReasoningDetails]. rewrite !raw_thinking by done. change (String.eqb "" "") with true. cbv iota. change (thinkingText "reasoning_details" "") with "".
    destruct Hone as [-> | ->]; [change (String.eqb "" "") with true; cbn; by destruct (String.eqb_spec r "")|]. rewrite append_nil_r. destruct (String.eqb_spec rc "") as [->|Hn]; [done|]. apply String.eqb_neq in Hn. by rewrite Hn.
  - unfold openAICustom, custom_of, stream_fields, present_fields, reasoning_fields. cbn [foldl fst snd ReasoningContent Reasoning ReasoningDetails rText rcText]. rewrite !raw_text_empty. change (String.eqb "" "") with true. cbv iota.
    unfold raw_text. destruct (String.eqb rc "") eqn:E1, (String.eqb r "") eqn:E2; reflexivity.
Qed.

(** C32: a streamed answer is the answer of a request without streaming. Take an
    answer that is not empty, whose thinking comes in one of the two fields without
    blanks at its ends and without reasoning details, and whose calls have an id or
    a name each. However its texts and the arguments of its calls are cut into pieces
    (the id, type and name of a call come with its first piece), and the pieces of
    the calls interleaved, if the body says all of them and ends, and the context
    lives, the reader is given the texts and then, as the last token, a response
    with the very message that [normalizeChatResponse] makes of the answer. (Of a
    thinking in both fields the two paths make different messages:
    [two_fields_are_thought_twice].) *)
Theorem a_streamed_answer_is_the_answer name body clean chunks text rc r cs :
  heard clean (Split NL body) = (chunks, true) -> splits (deltas chunks) text rc r cs ->
  (text, rc, r) <> ("", "", "") \/ cs <> [] -> rc = "" \/ r = "" -> TrimSpace rc = rc -> TrimSpace r = r -> Forall (fun c => named_call c = true) cs ->
  exists toks last_tok response, readSSE (fun _ => true) (fun _ => true) name body clean = toks ++ [last_tok]
    /\ Forall (fun t => s_response t = None) toks /\ s_response last_tok = Some response
    /\ RMessage <$> RChoices response = [normalize_message name (mkWire "assistant" text "" cs (raw_text rc) (raw_text r) "")].
Proof.
  intros Hh Hsp Hsome Hone Hrc Hr Hcs. rewrite <- (assembled name chunks _ _ _ _ Hsp Hone Hrc Hr Hcs). destruct (read_stream (fun _ => true) (fun _ => true) name body clean) as [_ ->]; [|done|done].
  unfold the_stream. rewrite Hh. cbn [andb]. assert (En : nothing_came (whole_answer chunks) = false).
  { pose proof (calls_come_together _ _ _ _ _ Hsp) as Hcalls. destruct Hsp as [H1 H2 H3 _ _]. unfold nothing_came, whole_answer. cbn. rewrite H1, H2, H3, Hcalls. apply not_true_is_false. intros [[[Ht Hc]%andb_true_iff Hx]%andb_true_iff Hd]%andb_true_iff.
    apply String.eqb_eq in Ht, Hc, Hx. apply bool_decide_eq_true in Hd. destruct Hsome as [Hs|Hs]; [congruence|done]. }
  rewrite En. cbn [negb]. eexists _, (final_token name _ _), _. split_and!; [done| |done|done]. apply Forall_forall. intros t. apply said_quiet.
Qed.

(** What the backend said of its thinking goes back with the next request as it
    came: of a message that was made from an answer, the request has the role, the
    text, the calls and exactly the reasoning fields of that answer, byte for byte. *)
Theorem the_thinking_goes_back p w :
  Forall (fun f => f.2 = "" \/ json_valid f.2 = true) (reasoning_fields w) ->
  wire_message p (normalize_message (p_name p) w) =
    mkWireMessage (WRole w) (WContent w) (if String.eqb (WToolCallID w) "" then None else Some (WToolCallID w)) (match WToolCalls w with [] => None | calls => Some calls end) (present_fields (reasoning_fields w)).
Proof.
  intros Hv. unfold wire_message, normalize_message. cbn [Role Content ToolCallID ToolCalls Custom]. f_equal. unfold openAICustom, custom_of. set (fs := present_fields (reasoning_fields w)).
  assert (Hvalid : map_Forall (fun _ raw => json_valid raw = true) fs).
  { subst fs. unfold present_fields, reasoning_fields in *. cbn [foldl fst snd] in *. rewrite !Forall_cons in Hv. destruct Hv as (H1 & H2 & H3 & _). cbn in H1, H2, H3.
    assert (Hadd : forall m key raw, map_Forall (fun _ raw => json_valid raw = true) m -> raw = "" \/ json_valid raw = true -> map_Forall (fun _ raw => json_valid raw = true) (if String.eqb raw "" then m else <[key := raw]> m : gmap string string)).
    { intros m key raw Hm Hr. destruct (String.eqb_spec raw ""); [done|]. apply map_Forall_insert_2; [by destruct Hr|done]. }
    apply Hadd; [|done]. apply Hadd; [|done]. apply Hadd; [|done]. apply map_Forall_empty. }
  case_bool_decide as He; [by rewrite He, lookup_empty|]. destruct (custom_total 1 fs Hvalid) as [payload Hp]. rewrite Hp, lookup_singleton_eq. change (default "" (Some payload)) with payload. cbv zeta. destruct (custom_back _ _ _ Hp) as [Hb Hne].
  apply String.eqb_neq in Hne. rewrite Hne. unfold replayCustom. rewrite Hb.
  assert (Hkeys : forall key, key ∉ reasoning_keys -> fs !! key = None).
  { intros key Hk. subst fs. unfold present_fields, reasoning_fields, reasoning_keys in *. cbn [foldl fst snd]. rewrite !not_elem_of_cons in Hk. destruct Hk as (K1 & K2 & K3 & _).
    repeat case_match; rewrite ?lookup_insert_ne by done; apply lookup_empty. }
  clearbody fs. clear Hv Hp Hb Hne He. apply map_eq. intros key.
  assert (Hfold : forall ks (m : gmap string string), NoDup ks -> foldl (fun m key => match fs !! key with Some v => if json_valid v then <[key := v]> m else m | None => m end) m ks !! key = if decide (key ∈ ks) then match fs !! key with Some v => Some v | None => m !! key end else m !! key).
  { induction ks as [|k ks IH]; intros m Hnd; [done|]. apply NoDup_cons in Hnd as [Hk Hnd]. cbn [foldl]. rewrite IH by done. destruct (decide (key = k)) as [->|Hn].
    - rewrite decide_False by done. rewrite decide_True by left. destruct (fs !! k) as [v|] eqn:E; [|done]. rewrite (Hvalid k v E). apply lookup_insert_eq.
    - assert (Em : (match fs !! k with Some v => if json_valid v then <[k := v]> m else m | None => m end : gmap string string) !! key = m !! key) by (repeat case_match; by rewrite ?lookup_insert_ne by done).
      rewrite Em. destruct (decide (key ∈ ks)) as [Hin|Hin]; [rewrite decide_True by (by right)|rewrite decide_False by (intros [|]%elem_of_cons; done)]; done. }
  rewrite Hfold by (unfold reasoning_keys; rewrite !NoDup_cons, !not_elem_of_cons; split_and!; try done; try apply not_elem_of_nil; apply NoDup_nil_2). case_decide as Hin; [by destruct (fs !! key)|]. by rewrite (Hkeys key Hin).
Qed.
End whole.

(** ** A concrete encoding *)

Fixpoint drop_last (s : string) : string :=
  match s with
  | EmptyString => EmptyString
  | String c EmptyString => EmptyString
  | String c s' => String c (drop_last s')
  end.

Lemma drop_last_snoc s c : drop_last (s +:+ String c "") = s.
Proof. induction s as [|x s IH]; [done|]. destruct s as [|y s]; [done|]. change (String x (drop_last (String y s +:+ String c "")) = String x (String y s)). by rewrite IH. Qed.

Definition sample_delta (i : Z) (id name arguments : string) : DeltaToolCall := mkDeltaCall i id (if String.eqb id "" then "" else "function") name arguments.
Definition sample_chunk (text rc : string) (calls : list DeltaToolCall) (finish : string) : StreamChunk := mkChunk [mkDeltaChoice (mkDelta text rc "" calls) finish] None.

#[local] Instance sample_json : OpenAIJson := {|
  decode_chunk s :=
    if String.eqb s "think" then Some (sample_chunk "" "hm" [] "")
    else if String.eqb s "first" then Some (sample_chunk "he" "" [sample_delta 1 "c1" "read" "{"; sample_delta 0 "c0" "list" ""] "")
    else if String.eqb s "second" then Some (sample_chunk "llo" "" [sample_delta 1 "" "" "}"; sample_delta 0 "" "" "{}"] "tool_calls")
    else if String.eqb s "usage" then Some (mkChunk [] (Some (mkUsage 3 0 0 4 7)))
    else None;
  decode_response _ := None;
  marshal_request _ := Some "request";
  marshal_string s := String "034" (s +:+ String "034" "");
  unmarshal_string s := match s with String c s => if Ascii.eqb c "034" then Some (drop_last s) else None | EmptyString => None end;
  unmarshal_details _ := None;
  json_valid _ := true;
  marshal_custom v fields := Some (string_of_list_ascii (pos_digits (encode (v, fields))));
  unmarshal_custom s := digits_pos (list_ascii_of_string s) ≫= decode;
|}.

#[local] Instance sample_json_laws : OpenAIJsonLaws.
Proof.
  split.
  - intros s. by eexists.
  - intros s. change (Some (drop_last (s +:+ String "034" "")) = Some s). by rewrite drop_last_snoc.
  - intros v fields _. by eexists.
  - intros v fields payload [= <-]. cbn. rewrite list_ascii_of_string_of_list_ascii, digits_pos_digits. cbn. split; [by rewrite decode_encode|]. by destruct (encode (v, fields)).
Qed.

Definition sample_body : string := "data: think" +:+ line_feed +:+ ": note" +:+ line_feed +:+ "data:first" +:+ line_feed +:+ "data: second" +:+ line_feed +:+ "data: usage" +:+ line_feed +:+ "data: [DONE]" +:+ line_feed.
Definition always (_ : nat) : bool := true.
Definition sample_chunks : list StreamChunk := (heard true (Split NL sample_body)).1.
Definition sample_calls : list ToolCall := [mkToolCall "c0" "function" "list" "{}"; mkToolCall "c1" "function" "read" "{}"].

Example the_calls_come_together : whole_calls (mjoin (DToolCalls <$> deltas sample_chunks)) = sample_calls
  /\ (s_token <$> readSSE always always "p" sample_body true) =
     [mkToken "thinking" "hm" false no_call ""; text_token "he" false; text_token "llo" false; text_token "" true; text_token "" true].
Proof. vm_compute. auto. Qed.

Lemma a_streamed_answer_is_the_answer_witness :
  splits (deltas sample_chunks) "hello" "hm" "" sample_calls /\
  exists toks last_tok response, readSSE (fun _ => true) (fun _ => true) "p" sample_body true = toks ++ [last_tok]
    /\ Forall (fun t => s_response t = None) toks /\ s_response last_tok = Some response
    /\ RMessage <$> RChoices response = [normalize_message "p" (mkWire "assistant" "hello" "" sample_calls (raw_text "hm") (raw_text "") "")].
Proof.
  assert (Hs : splits (deltas sample_chunks) "hello" "hm" "" sample_calls).
  { split; [vm_compute; reflexivity..| |].
    - intros dt Hd. assert (Hall : Forall (fun dt => (0 <= DIndex dt < 2)%Z) (mjoin (DToolCalls <$> deltas sample_chunks))) by (vm_compute; repeat constructor; discriminate).
      rewrite Forall_forall in Hall. by apply Hall.
    - intros [|[|i]] c Hc; [| |discriminate Hc]; injection Hc as <-; eexists; eexists; (split; [vm_compute; reflexivity|]); vm_compute; repeat split; repeat constructor. }
  split; [exact Hs|]. apply (a_streamed_answer_is_the_answer "p" sample_body true sample_chunks "hello" "hm" "" sample_calls); [vm_compute; reflexivity|exact Hs|left; discriminate|by right|vm_compute; reflexivity|vm_compute; reflexivity|].
  repeat constructor.
Defined.

(** ** Points of interest *)

(** The table of the calls grows to whatever index the backend sends. *)
Example an_index_is_an_allocation : length (foldl merge_call [] [sample_delta 4999 "c" "read" ""]) = 5000%nat.
Proof. vm_compute. reflexivity. Qed.

(** A body that ends in the middle of an answer, without a finish reason, is
    delivered like a whole one; only a broken connection is not. *)
Example half_an_answer_is_delivered :
  RFinish <$> (mjoin (RChoices <$> omap s_response (readSSE always always "p" ("data: first" +:+ line_feed) true))) = [""]
  /\ omap s_response (readSSE always always "p" ("data: first" +:+ line_feed) false) = [].
Proof. vm_compute. auto. Qed.

(** A backend that sends its thinking in both fields: the stream has it twice, the
    answer without streaming once. *)
Example two_fields_are_thought_twice :
  Thinking (assemble "p" (whole_answer [mkChunk [mkDeltaChoice (mkDelta "" "hm" "hm" []) ""] None])) = "hmhm"
  /\ Thinking (normalize_message "p" (mkWire "assistant" "" "" [] (raw_text "hm") (raw_text "hm") "")) = "hm".
Proof. vm_compute. auto. Qed.
