(* ===== verification/ProviderAnthropic.v ===== *)
(** * ai-runtime/provider/anthropic: a provider of the Messages API

    A history becomes system texts and messages whose roles alternate, with the
    results of tools in the messages of the user; an answer becomes a message that
    carries its own blocks, and these go back with the next request as they came.
    encoding/json is a class. *)

From S2P Require Import Prelude GoString GoPath JsonLines SessionRecord Compressor AgentLoop RuntimeConfig ProviderOpenAI.
#[local] Open Scope string_scope.
#[local] Open Scope list_scope.

(** ** Data (spec.go) *)

Definition AnthropicAuthBearer : string := "bearer".
Definition AnthropicAuthAPIKey : string := "x-api-key".
Definition anthropicVersion : string := "2023-06-01".
Definition anthropicJSONInstruction : string := "Respond with valid JSON only.".
Definition maxAnthropicResponseSize : Z := Z.shiftl 10 20.

(** A block of a message that the provider makes; on the wire it is raw JSON. *)
Inductive block : Type :=
  | TextBlock (text : string)
  | ToolResult (id content : string)
  | ToolUse (id name input : string).

Record anthropicWireMessage := mkWireMessage { w_role : string; w_content : list string }.
Record anthropicToolDefinition := mkDefinition { d_name : string; d_description : string; d_schema : string }.
Record anthropicMessageRequest := mkMessageRequest {
  a_model : string;
  a_max_tokens : Z;
  a_system : list string;
  a_messages : list anthropicWireMessage;
  a_tools : list anthropicToolDefinition;
  a_tool_choice : option string;
}.
Record anthropicUsage := mkAnthropicUsage { InputTokens : Z; OutputTokens : Z; CacheReadInputTokens : Z; CacheCreationInputTokens : Z }.
Record anthropicMessageResponse := mkMessageResponse {
  r_id : string;
  r_type : string;
  r_role : string;
  r_model : string;
  r_content : string;
  r_stop_reason : string;
  r_usage : anthropicUsage;
}.

(** [encoding/json] as the provider uses it: blocks and lists of raw values, the
    fields of a block that are read, and the payload that a message carries. *)
Class AnthropicJson := {
  marshal_block : block -> option string;
  marshal_body : anthropicMessageRequest -> option string;
  decode_body : string -> option anthropicMessageResponse;
  unmarshal_list : string -> option (list string);
  unmarshal_raw : string -> option string;
  block_type : string -> option string;
  block_text : string -> option string;
  block_thinking : string -> option string;
  block_tool : string -> option (string * string * string);
  marshal_payload : Z -> string -> option string;
  unmarshal_payload : string -> option (Z * string);
}.

Inductive anthropic_error : Type :=
  | EMarshalBlock
  | EToolInput (id : string)
  | EMarshalRequest
  | EAuthType (t : string)
  | ERequestFailed (e : string)
  | EStatusCode (status : Z)
  | EReadBody
  | ETooLarge
  | EDecodeResponse
  | EDecodeContent
  | ENoStreaming.

Record AnthropicProvider := mkAnthropic { n_name : string; n_endpoint : string; n_apiKey : string; n_model : string; n_authType : string; n_maxTokens : Z }.

(** ** provider.go: requests *)

Definition or_default (s d : string) : string := if String.eqb s "" then d else s.

Definition NewProvider (name endpoint apiKey model authType : string) (maxTokens : option Z) : AnthropicProvider :=
  mkAnthropic (or_default name "anthropic") (TrimRightSlash (or_default endpoint "https://api.anthropic.com")) apiKey (or_default model "claude-sonnet-4-6") (or_default authType AnthropicAuthAPIKey)
    (match maxTokens with Some n => if (0 <? n)%Z then n else 8192 | None => 8192 end).

Section provider.
Context `{AnthropicJson}.

Fixpoint marshalAnthropicBlocks (blocks : list block) : result anthropic_error (list string) :=
  match blocks with
  | [] => Ok []
  | b :: blocks =>
      match marshal_block b with
      | None => Prelude.Err EMarshalBlock
      | Some raw => match marshalAnthropicBlocks blocks with Ok raws => Ok (raw :: raws) | Prelude.Err e => Prelude.Err e end
      end
  end.

(** The blocks of the calls, whose arguments must be JSON. *)
Fixpoint call_blocks (calls : list ToolCall) : result anthropic_error (list block) :=
  match calls with
  | [] => Ok []
  | c :: calls =>
      match unmarshal_raw (Arguments c) with
      | None => Prelude.Err (EToolInput (ID c))
      | Some input => match call_blocks calls with Ok bs => Ok (ToolUse (ID c) (Name c) input :: bs) | Prelude.Err e => Prelude.Err e end
      end
  end.

(** The blocks an assistant's message carries from the answer it was made of. *)
Definition carried (raw : string) : option (list string) :=
  if String.eqb raw "" then None
  else match unmarshal_payload raw with Some (1%Z, content) => unmarshal_list content | _ => None end.

Definition anthropicBlocks (m : Message) (providerName : string) : result anthropic_error (list string) :=
  if String.eqb (Role m) "tool" then marshalAnthropicBlocks [ToolResult (ToolCallID m) (Content m)]
  else
    match (if String.eqb (Role m) "assistant" then carried (default "" (Custom m !! providerName)) else None) with
    | Some blocks => Ok blocks
    | None =>
        match call_blocks (ToolCalls m) with
        | Prelude.Err e => Prelude.Err e
        | Ok calls => marshalAnthropicBlocks ((if String.eqb (Content m) "" then [] else [TextBlock (Content m)]) ++ calls)
        end
    end.

(** A message joins the last one if that has its role. *)
Definition push (wire : list anthropicWireMessage) (role : string) (blocks : list string) : list anthropicWireMessage :=
  match last wire with
  | Some m => if String.eqb (w_role m) role then removelast wire ++ [mkWireMessage role (w_content m ++ blocks)] else wire ++ [mkWireMessage role blocks]
  | None => [mkWireMessage role blocks]
  end.

Fixpoint wire_messages (messages : list Message) (providerName : string) (system : list string) (wire : list anthropicWireMessage)
    : result anthropic_error (list string * list anthropicWireMessage) :=
  match messages with
  | [] => Ok (system, wire)
  | m :: messages =>
      if String.eqb (Role m) "system" then wire_messages messages providerName (system ++ [Content m]) wire
      else
        match anthropicBlocks m providerName with
        | Prelude.Err e => Prelude.Err e
        | Ok blocks => wire_messages messages providerName system (push wire (if String.eqb (Role m) "tool" then "user" else Role m) blocks)
        end
  end.

Definition with_instruction (jsonMode : bool) (system : list string) : list string :=
  if negb jsonMode then system
  else match last system with None => [anthropicJSONInstruction] | Some t => removelast system ++ [t +:+ line_feed +:+ line_feed +:+ anthropicJSONInstruction] end.

Definition anthropicMessages (messages : list Message) (jsonMode : bool) (providerName : string) : result anthropic_error (list string * list anthropicWireMessage) :=
  match wire_messages messages providerName [] [] with
  | Ok (system, wire) => Ok (with_instruction jsonMode system, wire)
  | Prelude.Err e => Prelude.Err e
  end.

Definition anthropicTools (source : list Tool) : list anthropicToolDefinition := (fun t => mkDefinition (ToolName t) (ToolDescription t) (Parameters t)) <$> source.

Definition anthropicToolChoice (choice : string) : option string :=
  if String.eqb choice "required" then Some "any" else if String.eqb choice "none" then Some "none" else None.

Definition buildMessageRequest (p : AnthropicProvider) (req : ChatRequest) : result anthropic_error anthropicMessageRequest :=
  match anthropicMessages (QMessages req) (QJSONMode req) (n_name p) with
  | Prelude.Err e => Prelude.Err e
  | Ok (system, messages) =>
      Ok (mkMessageRequest (if String.eqb (QModel req) "" then n_model p else QModel req) (n_maxTokens p) system messages (anthropicTools (QTools req)) (anthropicToolChoice (QToolChoice req)))
  end.

(** ** provider.go: the answer *)

Definition anthropicFinishReason (stopReason : string) : string :=
  if String.eqb stopReason "tool_use" then "tool_calls" else if String.eqb stopReason "max_tokens" then "length" else if String.eqb stopReason "end_turn" then "stop" else stopReason.

Definition anthropicCustom (content providerName : string) : gmap string string :=
  match marshal_payload 1 content with Some payload => {[providerName := payload]} | None => ∅ end.

(** What a block adds: to the text, to the thinking, to the calls. *)
Definition read_block (acc : string * list string * list ToolCall) (b : string) : string * list string * list ToolCall :=
  let '(text, thinking, calls) := acc in
  match block_type b with
  | None => acc
  | Some type =>
      if String.eqb type "text" then match block_text b with Some t => (text +:+ t, thinking, calls) | None => acc end
      else if String.eqb type "thinking" then match block_thinking b with Some t => if String.eqb t "" then acc else (text, thinking ++ [t], calls) | None => acc end
      else if String.eqb type "tool_use" then match block_tool b with Some (id, name, input) => (text, thinking, calls ++ [mkToolCall id "function" name input]) | None => acc end
      else acc
  end.

Definition normalizeAnthropicResponse (r : anthropicMessageResponse) (providerName : string) : result anthropic_error ChatResponse :=
  match unmarshal_list (r_content r) with
  | None => Prelude.Err EDecodeContent
  | Some blocks =>
      let '(text, thinking, calls) := foldl read_block ("", [], []) blocks in
      let m := mkMessage (r_role r) text "" calls (Join line_feed thinking) (anthropicCustom (r_content r) providerName) "" 0%Z in
      let u := r_usage r in
      Ok (mkResponse (r_id r) (r_type r) 0 (r_model r) [mkChoice 0 m (anthropicFinishReason (r_stop_reason r))]
        (Some (mkUsage (InputTokens u) (CacheReadInputTokens u) (CacheCreationInputTokens u) (OutputTokens u) (InputTokens u + OutputTokens u))))
  end.

(** ** provider.go: Chat *)

Definition auth_header (p : AnthropicProvider) : option (string * string) :=
  if String.eqb (n_authType p) AnthropicAuthBearer then Some ("Authorization", "Bearer " +:+ n_apiKey p)
  else if String.eqb (n_authType p) AnthropicAuthAPIKey then Some ("x-api-key", n_apiKey p)
  else None.

(** The body is what came before its end, or before the connection broke. *)
Definition Chat (post : string -> list (string * string) -> string -> http_result) (p : AnthropicProvider) (req : ChatRequest) : result anthropic_error ChatResponse :=
  match buildMessageRequest p req with
  | Prelude.Err e => Prelude.Err e
  | Ok q =>
      match marshal_body q with
      | None => Prelude.Err EMarshalRequest
      | Some body =>
          match auth_header p with
          | None => Prelude.Err (EAuthType (n_authType p))
          | Some auth =>
              match post (n_endpoint p +:+ "/v1/messages") [("Content-Type", "application/json"); ("anthropic-version", anthropicVersion); auth] body with
              | HttpError e => Prelude.Err (ERequestFailed e)
              | HttpResponse status data whole =>
                  if negb (status =? 200)%Z then Prelude.Err (EStatusCode status)
                  else if (maxAnthropicResponseSize <? slen data)%Z then Prelude.Err ETooLarge
                  else if negb whole then Prelude.Err EReadBody
                  else match decode_body data with Some r => normalizeAnthropicResponse r (n_name p) | None => Prelude.Err EDecodeResponse end
              end
          end
      end
  end.

Definition ChatStream (p : AnthropicProvider) (req : ChatRequest) : result anthropic_error (list stream_token) := Prelude.Err ENoStreaming.
End provider.

(** * Properties *)

Section properties.
Context `{AnthropicJson}.

(** ** Reading a message back *)

Class AnthropicJsonLaws : Prop := {
  payload_total : forall v content blocks, unmarshal_list content = Some blocks -> is_Some (marshal_payload v content);
  payload_back : forall v content payload, marshal_payload v content = Some payload -> unmarshal_payload payload = Some (v, content) /\ payload <> "";
  block_total : forall b, (forall id name input, b = ToolUse id name input -> unmarshal_raw input = Some input) -> is_Some (marshal_block b);
  raw_stable : forall s input, unmarshal_raw s = Some input -> unmarshal_raw input = Some input;
  block_back : forall b raw, marshal_block b = Some raw ->
    match b with
    | TextBlock t => block_type raw = Some "text"
    | ToolResult id _ => block_type raw = Some "tool_result"
    | ToolUse id name input => block_type raw = Some "tool_use" /\ block_tool raw = Some (id, name, input)
    end;
}.

(** The ids of the calls in the blocks of a message, as an answer is read. *)
Definition call_ids (blocks : list string) : list string :=
  omap (fun b => match block_type b with Some t => if String.eqb t "tool_use" then (fun c => c.1.1) <$> block_tool b else None | None => None end) blocks.

Lemma read_calls blocks : forall text thinking calls, (ID <$> (foldl read_block (text, thinking, calls) blocks).2) = (ID <$> calls) ++ call_ids blocks.
Proof.
  induction blocks as [|b blocks IH]; intros text thinking calls; [cbn; by rewrite app_nil_r|]. cbn [foldl]. unfold read_block at 2. cbn [call_ids omap list_omap].
  destruct (block_type b) as [t|]; [|apply IH]. destruct (String.eqb_spec t "text") as [->|H1]; [destruct (block_text b); apply IH|].
  destruct (String.eqb_spec t "thinking") as [->|H2]; [destruct (block_thinking b) as [x|]; [destruct (String.eqb x "")|]; apply IH|].
  destruct (String.eqb_spec t "tool_use"); [|apply IH]. destruct (block_tool b) as [[[id name] input]|]; [|apply IH]. rewrite IH, fmap_app, <- app_assoc. done.
Qed.

Context `{!AnthropicJsonLaws}.

Lemma answer_blocks name r resp :
  normalizeAnthropicResponse r name = Ok resp -> r_role r = "assistant" ->
  exists m blocks, RMessage <$> RChoices resp = [m] /\ Role m = "assistant" /\ unmarshal_list (r_content r) = Some blocks /\ anthropicBlocks m name = Ok blocks /\ ID <$> ToolCalls m = call_ids blocks
    /\ carried (default "" (Custom m !! name)) = Some blocks.
Proof.
  unfold normalizeAnthropicResponse. destruct (unmarshal_list (r_content r)) as [blocks|] eqn:El; [|done]. intros Hn Hr. pose proof (read_calls blocks "" [] []) as Hids.
  destruct (foldl read_block _ blocks) as [[text thinking] calls]. injection Hn as <-. cbn [RChoices RMessage fmap list_fmap].
  assert (Hc : carried (default "" (anthropicCustom (r_content r) name !! name)) = Some blocks).
  { unfold anthropicCustom. destruct (payload_total 1 _ _ El) as [payload Hp]. rewrite Hp, lookup_singleton_eq.
    destruct (payload_back _ _ _ Hp) as [Hb Hne]. change (default "" (Some payload)) with payload. unfold carried. apply String.eqb_neq in Hne. by rewrite Hne, Hb, El. }
  eexists _, blocks. split_and!; [done|done|done| |done|exact Hc].
  unfold anthropicBlocks. cbn [Role Custom]. rewrite Hr. cbn [String.eqb Ascii.eqb Bool.eqb]. by rewrite Hc.
Qed.

(** ** The order of the messages on the wire *)

(** The blocks [anthropicBlocks] gives a result of a tool. *)
Definition is_result (id : string) (raw : string) : Prop := exists content, marshal_block (ToolResult id content) = Some raw.

(** The results begin the content, in the order of the ids. *)
Definition answers (ids : list string) (content : list string) : Prop := exists rs rest, content = rs ++ rest /\ Forall2 is_result ids rs.

Definition follows (m m' : anthropicWireMessage) : Prop :=
  w_role m <> w_role m' /\ (call_ids (w_content m) = [] \/ w_role m' = "user" /\ answers (call_ids (w_content m)) (w_content m')).

Definition linked (wire : list anthropicWireMessage) : Prop := forall a m m' b, wire = a ++ m :: m' :: b -> follows m m'.
Definition settled (wire : list anthropicWireMessage) : Prop := forall a m, wire = a ++ [m] -> call_ids (w_content m) = [].

Lemma call_ids_app a b : call_ids (a ++ b) = call_ids a ++ call_ids b.
Proof. unfold call_ids. apply omap_app. Qed.

Lemma call_ids_cons raw raws : call_ids (raw :: raws) = call_ids [raw] ++ call_ids raws.
Proof. exact (call_ids_app [raw] raws). Qed.

Lemma linked_snoc a x y : linked (a ++ [x]) -> follows x y -> linked (a ++ [x; y]).
Proof.
  intros Hl Hf p m m' b E. destruct b as [|z b _] using rev_ind.
  - change (p ++ [m; m']) with (p ++ [m] ++ [m']) in E. rewrite app_assoc in E. change (a ++ [x; y]) with (a ++ [x] ++ [y]) in E. rewrite app_assoc in E. apply app_inj_2 in E as [E [= <-]]; [|done]. apply app_inj_2 in E as [_ [= <-]]; [done|done].
  - change (a ++ [x; y]) with (a ++ [x] ++ [y]) in E. rewrite app_assoc in E. rewrite !app_comm_cons, app_assoc in E. apply app_inj_2 in E as [E _]; [|done]. by apply (Hl p m m' b).
Qed.

(** More blocks of the same role at the end. *)
Lemma linked_grow a x blocks : linked (a ++ [x]) -> linked (a ++ [mkWireMessage (w_role x) (w_content x ++ blocks)]).
Proof.
  intros Hl p m m' b E. destruct b as [|z b _] using rev_ind.
  - change (p ++ [m; m']) with (p ++ [m] ++ [m']) in E. rewrite app_assoc in E. apply app_inj_2 in E as [-> [= <-]]; [|done]. destruct (Hl p m x [] ltac:(by rewrite <- app_assoc)) as [Hr Hc]. split; [done|].
    destruct Hc as [|[Hu (rs & rest & Ec & Hrs)]]; [by left|right]. split; [done|]. exists rs, (rest ++ blocks). cbn. by rewrite Ec, <- app_assoc.
  - rewrite !app_comm_cons, app_assoc in E. apply app_inj_2 in E as [-> _]; [|done]. apply (Hl p m m' (b ++ [x])). by rewrite <- app_assoc.
Qed.

Lemma push_snoc a x role blocks : push (a ++ [x]) role blocks = if String.eqb (w_role x) role then a ++ [mkWireMessage role (w_content x ++ blocks)] else a ++ [x; mkWireMessage role blocks].
Proof. unfold push. rewrite last_snoc. destruct (String.eqb (w_role x) role); [by rewrite removelast_last|by rewrite <- app_assoc]. Qed.

Lemma push_linked wire role blocks : linked wire -> settled wire -> linked (push wire role blocks) /\ exists a x, push wire role blocks = a ++ [x] /\ w_role x = role /\ call_ids (w_content x) = call_ids blocks.
Proof.
  destruct wire as [|x a _] using rev_ind; intros Hl Hs.
  - split; [|by exists [], (mkWireMessage role blocks)]. intros [|? [|? p]] m m' b; cbn; discriminate.
  - pose proof (Hs a x eq_refl) as Hx. rewrite push_snoc. destruct (String.eqb_spec (w_role x) role) as [<-|Hn].
    + split; [by apply linked_grow|]. exists a, (mkWireMessage (w_role x) (w_content x ++ blocks)). cbn. by rewrite call_ids_app, Hx.
    + split; [apply linked_snoc; [done|]; split; [done|by left]|]. exists (a ++ [x]), (mkWireMessage role blocks). by rewrite <- app_assoc.
Qed.

Lemma settled_snoc a x : call_ids (w_content x) = [] -> settled (a ++ [x]).
Proof. intros Hx p m E. by apply app_inj_2 in E as [_ [= <-]]. Qed.

Lemma result_block m name : Role m = "tool" -> exists raw, anthropicBlocks m name = Ok [raw] /\ is_result (ToolCallID m) raw /\ call_ids [raw] = [].
Proof.
  intros Hr. unfold anthropicBlocks. rewrite Hr. cbn. destruct (block_total (ToolResult (ToolCallID m) (Content m))) as [raw E]; [done|]. rewrite E. exists raw. split_and!; [done|by eexists|]. cbn. by rewrite (block_back _ _ E).
Qed.

Definition wire_role (m : Message) : string := if String.eqb (Role m) "tool" then "user" else Role m.

Lemma results_on_wire name rs : forall a x, w_role x = "user" -> Forall (fun m => Role m = "tool") rs ->
  exists raws, Forall2 is_result (ToolCallID <$> rs) raws /\ call_ids raws = [] /\
  forall rest system, wire_messages (rs ++ rest) name system (a ++ [x]) = wire_messages rest name system (a ++ [mkWireMessage "user" (w_content x ++ raws)]).
Proof.
  induction rs as [|m rs IH]; intros a x Hx Hrs.
  - exists []. split_and!; [constructor|done|]. intros rest system. rewrite app_nil_r. rewrite <- Hx. by destruct x.
  - apply Forall_cons in Hrs as [Hm Hrs]. destruct (result_block m name Hm) as (raw & Hb & Hres & Hc). destruct (IH a (mkWireMessage "user" (w_content x ++ [raw])) eq_refl Hrs) as (raws & H1 & H2 & H3).
    exists (raw :: raws). split_and!; [by constructor|by rewrite call_ids_cons, Hc, H2|]. intros rest system. cbn [app wire_messages]. rewrite Hb. rewrite Hm. cbn [String.eqb Ascii.eqb Bool.eqb].
    rewrite push_snoc, Hx. cbn [String.eqb Ascii.eqb Bool.eqb]. rewrite H3. cbn [w_content]. by rewrite <- app_assoc.
Qed.

(** A message whose blocks make its calls and no others. *)
Definition says_its_calls (name : string) (m : Message) : Prop :=
  Role m <> "tool" -> Role m <> "system" -> exists blocks, anthropicBlocks m name = Ok blocks /\ call_ids blocks = if is_call m then ID <$> ToolCalls m else [].

Lemma wire_is_linked name h : paired h -> Forall (says_its_calls name) h -> forall system wire, linked wire -> settled wire ->
  exists system' wire', wire_messages h name system wire = Ok (system', wire') /\ linked wire' /\ settled wire'.
Proof.
  induction 1 as [|m h Hr Hc Hp IH|m rs h Hc Hrs Hp IH]; intros Hf system wire Hl Hs.
  - by exists system, wire.
  - apply Forall_cons in Hf as [Hm Hf]. cbn [wire_messages]. destruct (String.eqb_spec (Role m) "system") as [|Hsys]; [by apply IH|]. destruct (Hm Hr Hsys) as (blocks & -> & Hids). rewrite Hc in Hids.
    apply String.eqb_neq in Hr. rewrite Hr. destruct (push_linked wire (Role m) blocks Hl Hs) as [Hl' (a & x & E & _ & Hx)]. apply IH; [done|done|]. rewrite E. apply settled_snoc. by rewrite Hx.
  - apply Forall_cons in Hf as [Hm Hf]. apply Forall_app in Hf as [_ Hf]. assert (Hrole : Role m = "assistant" /\ ToolCalls m <> []).
    { unfold is_call in Hc. destruct (String.eqb_spec (Role m) "assistant") as [E|]; [|done]. split; [done|]. by destruct (ToolCalls m). }
    destruct Hrole as [Hrole Hne]. destruct (Hm ltac:(by rewrite Hrole) ltac:(by rewrite Hrole)) as (blocks & Hb & Hids). rewrite Hc in Hids. cbn [wire_messages]. rewrite Hb, Hrole. cbn [String.eqb Ascii.eqb Bool.eqb].
    destruct (push_linked wire "assistant" blocks Hl Hs) as [Hl' (a & x & E & Hx & Hxi)]. rewrite E in *. rewrite Hids in Hxi.
    assert (Htools : Forall (fun m => Role m = "tool") rs) by (clear -Hrs; induction Hrs as [|c r cs rs [Ht _] _ IH]; by constructor).
    assert (Hcids : ToolCallID <$> rs = ID <$> ToolCalls m) by (clear -Hrs; induction Hrs as [|c r cs rs [_ Ht] _ IH]; [done|]; cbn; by rewrite Ht, IH).
    destruct rs as [|r rs]; [destruct (ToolCalls m); [done|inversion Hrs]|]. apply Forall_cons in Htools as [Hrt Htools]. destruct (result_block r name Hrt) as (raw & Hbr & Hres & Hcr).
    cbn [app wire_messages]. rewrite Hbr, Hrt. cbn [String.eqb Ascii.eqb Bool.eqb]. rewrite push_snoc, Hx. cbn [String.eqb Ascii.eqb Bool.eqb].
    destruct (results_on_wire name rs (a ++ [x]) (mkWireMessage "user" [raw]) eq_refl Htools) as (raws & H1 & H2 & H3). rewrite <- app_assoc in H3. cbn [app] in H3. rewrite H3. rewrite <- app_assoc. cbn [app w_content].
    apply IH; [done| |].
    + apply linked_snoc; [done|]. split; [by rewrite Hx|right]. split; [done|]. exists (raw :: raws), []. rewrite app_nil_r. split; [done|]. rewrite Hxi, <- Hcids. by constructor.
    + change (a ++ [x; ?y]) with (a ++ [x] ++ [y]). rewrite app_assoc. apply settled_snoc. cbn [w_content]. by rewrite call_ids_cons, Hcr, H2.
Qed.

(** What the agent writes itself says its calls, if their arguments are JSON. *)
Lemma own_messages_say_their_calls name m :
  Custom m !! name = None -> (is_call m = false -> ToolCalls m = []) -> Forall (fun c => is_Some (unmarshal_raw (Arguments c))) (ToolCalls m) -> says_its_calls name m.
Proof.
  intros Hcu Hnc Hargs Ht Hsys. unfold anthropicBlocks. apply String.eqb_neq in Ht. rewrite Ht, Hcu. change (carried (default "" None)) with (@None (list string)). assert (Enone : (if String.eqb (Role m) "assistant" then None else None) = @None (list string)) by (destruct (String.eqb (Role m) "assistant"); reflexivity). rewrite Enone.
  assert (Hcalls : forall calls, Forall (fun c => is_Some (unmarshal_raw (Arguments c))) calls -> exists bs raws, call_blocks calls = Ok bs /\ marshalAnthropicBlocks bs = Ok raws /\ call_ids raws = ID <$> calls).
  { induction 1 as [|c calls [input Hin] _ (bs & raws & H1 & H2 & H3)]; [by exists [], []|]. cbn [call_blocks]. rewrite Hin, H1. destruct (block_total (ToolUse (ID c) (Name c) input)) as [raw Hraw]; [intros ? ? ? [= _ _ <-]; by apply (raw_stable (Arguments c))|].
    exists (ToolUse (ID c) (Name c) input :: bs), (raw :: raws). split_and!; [done|cbn; by rewrite Hraw, H2|]. destruct (block_back _ _ Hraw) as [Hty Hto]. cbn. rewrite Hty. cbn. rewrite Hto. cbn. by rewrite <- H3. }
  destruct (Hcalls _ Hargs) as (bs & raws & -> & H2 & H3). assert (Hids : (if is_call m then ID <$> ToolCalls m else []) = ID <$> ToolCalls m) by (destruct (is_call m) eqn:Ec; [done|by rewrite (Hnc eq_refl)]). rewrite Hids.
  destruct (String.eqb (Content m) ""); [by exists raws|]. destruct (block_total (TextBlock (Content m))) as [raw Hraw]; [done|]. exists (raw :: raws). cbn. rewrite Hraw, H2. split; [done|]. by rewrite (block_back _ _ Hraw).
Qed.

(** ** A request or the call that prevents it *)

Lemma call_blocks_spec calls :
  match call_blocks calls with
  | Ok _ => Forall (fun c => is_Some (unmarshal_raw (Arguments c))) calls
  | Prelude.Err e => exists c, c ∈ calls /\ unmarshal_raw (Arguments c) = None /\ e = EToolInput (ID c)
  end.
Proof.
  induction calls as [|c calls IH]; cbn [call_blocks]; [constructor|].
  destruct (unmarshal_raw (Arguments c)) as [input|] eqn:E; [|by exists c; split; [left|]].
  destruct (call_blocks calls); [constructor; [by rewrite E|done]|]. destruct IH as (c' & Hc & H1 & H2).
  exists c'. split; [by right|done].
Qed.

(** A message made of an answer of this provider, as the agent keeps it; or one
    that carries nothing of this provider, in which only the assistant calls. *)
Definition of_an_answer (name : string) (m : Message) : Prop := exists r resp a,
  normalizeAnthropicResponse r name = Ok resp /\ r_role r = "assistant" /\ RMessage <$> RChoices resp = [a] /\
  Role m = Role a /\ ToolCalls m = ToolCalls a /\ Custom m !! name = Custom a !! name.
Definition of_another (name : string) (m : Message) : Prop :=
  Custom m !! name = None /\ (ToolCalls m <> [] -> Role m = "assistant").

Lemma own_calls name m : of_another name m -> is_call m = false -> ToolCalls m = [].
Proof.
  intros [_ Hr]. unfold is_call. destruct (ToolCalls m) as [|c cs]; [done|]. by rewrite (Hr ltac:(done)).
Qed.

Lemma blocks_of name m :
  of_an_answer name m \/ of_another name m -> Role m <> "tool" ->
  match anthropicBlocks m name with
  | Ok blocks => call_ids blocks = (if is_call m then ID <$> ToolCalls m else []) /\
      (Custom m !! name = None -> Forall (fun c => is_Some (unmarshal_raw (Arguments c))) (ToolCalls m))
  | Prelude.Err e => Custom m !! name = None /\
      exists c, c ∈ ToolCalls m /\ unmarshal_raw (Arguments c) = None /\ e = EToolInput (ID c)
  end.
Proof.
  intros [(r & resp & a & Hn & Hr & Ha & H1 & H2 & H3)|Ho] Ht.
  - destruct (answer_blocks name r resp Hn Hr) as (a' & blocks & Ha' & Hra & _ & _ & Hids & Hc).
    rewrite Ha in Ha'. injection Ha' as <-. unfold anthropicBlocks. rewrite H1, Hra. cbn [String.eqb Ascii.eqb Bool.eqb].
    rewrite H3, Hc. split.
    + rewrite <- Hids, <- H2. unfold is_call. rewrite H1, Hra. by destruct (ToolCalls m).
    + intros E. by rewrite E in Hc.
  - pose proof (own_calls name m Ho) as Hno. destruct Ho as [Hcu Ha]. pose proof (call_blocks_spec (ToolCalls m)) as Hs.
    destruct (call_blocks (ToolCalls m)) as [bs|e] eqn:Ec.
    + destruct (decide (Role m = "system")) as [Hsys|Hsys].
      * destruct (ToolCalls m) as [|c cs] eqn:Et; [|by rewrite (Ha ltac:(done)) in Hsys].
        injection Ec as <-. unfold anthropicBlocks. apply String.eqb_neq in Ht. rewrite Ht, Hsys, Et.
        cbn [String.eqb Ascii.eqb Bool.eqb call_blocks]. rewrite app_nil_r. unfold is_call. rewrite Hsys. cbn [String.eqb Ascii.eqb Bool.eqb andb].
        destruct (String.eqb (Content m) ""); [done|]. destruct (block_total (TextBlock (Content m))) as [raw Hraw]; [done|].
        cbn. rewrite Hraw. cbn. by rewrite (block_back _ _ Hraw).
      * destruct (own_messages_say_their_calls name m Hcu Hno Hs Ht Hsys) as (blocks & -> & Hb). done.
    + unfold anthropicBlocks. apply String.eqb_neq in Ht. rewrite Ht, Hcu, Ec. change (carried (default "" None)) with (@None (list string)).
      assert (Enone : (if String.eqb (Role m) "assistant" then None else None) = @None (list string)) by (destruct (String.eqb (Role m) "assistant"); reflexivity).
      by rewrite Enone.
Qed.

Definition not_of_system (m : Message) : bool := negb (String.eqb (Role m) "system").

Lemma push_content wire role blocks : concat (w_content <$> push wire role blocks) = concat (w_content <$> wire) ++ blocks.
Proof.
  destruct wire as [|x a _] using rev_ind; [cbn; by rewrite app_nil_r|]. rewrite push_snoc.
  destruct (String.eqb _ _); rewrite !fmap_app, !concat_app; cbn; rewrite ?app_nil_r, <- ?app_assoc; done.
Qed.

(** What is on the wire: the texts of the system, and the blocks of the others in their order. *)
Lemma wire_messages_spec name h : forall system wire,
  match wire_messages h name system wire with
  | Ok (system', wire') => system' = system ++ (Content <$> List.filter (fun m => negb (not_of_system m)) h) /\
      exists parts, Forall2 (fun m bs => anthropicBlocks m name = Ok bs) (List.filter not_of_system h) parts /\
        concat (w_content <$> wire') = concat (w_content <$> wire) ++ concat parts
  | Prelude.Err e => exists m, m ∈ h /\ Role m <> "system" /\ anthropicBlocks m name = Prelude.Err e
  end.
Proof.
  induction h as [|m h IH]; intros system wire; cbn [wire_messages List.filter].
  - rewrite app_nil_r. split; [done|]. exists []. split; [constructor|]. by rewrite app_nil_r.
  - assert (Hm : not_of_system m = negb (String.eqb (Role m) "system")) by done. rewrite Hm.
    destruct (String.eqb_spec (Role m) "system") as [Hs|Hs]; cbn [negb]; clear Hm.
    + specialize (IH (system ++ [Content m]) wire). destruct (wire_messages _ _ _ _) as [[system' wire']|e].
      * destruct IH as [-> IH]. split; [by rewrite <- app_assoc|done].
      * destruct IH as (m' & Hm & ?). exists m'. split; [by right|done].
    + destruct (anthropicBlocks m name) as [blocks|e] eqn:Eb; [|by exists m; split; [left|]].
      specialize (IH system (push wire (if String.eqb (Role m) "tool" then "user" else Role m) blocks)).
      destruct (wire_messages _ _ _ _) as [[system' wire']|e].
      * destruct IH as [-> (parts & Hp & E)]. split; [done|]. exists (blocks :: parts). split; [by constructor|].
        rewrite E, push_content, <- app_assoc. done.
      * destruct IH as (m' & Hm & ?). exists m'. split; [by right|done].
Qed.

(** C34: A history becomes a request the Messages API accepts, or the call that
    prevents it is named. Let the calls of the history have their results, and let
    each message be made of an answer of this provider or carry nothing of it. The
    conversion succeeds exactly when every call in the latter has JSON arguments;
    else it fails on such a call. When it succeeds the request has the texts of the
    system messages and, in their order, the blocks of all the others; the roles
    alternate; the message after one with calls is the user's and begins with the
    results of these calls, in their order; and the last message has no call left
    open. *)
Theorem a_history_becomes_a_request name jsonMode h :
  paired h -> Forall (fun m => of_an_answer name m \/ of_another name m) h ->
  match anthropicMessages h jsonMode name with
  | Ok (system, wire) =>
      (forall m c, m ∈ h -> Custom m !! name = None -> c ∈ ToolCalls m -> is_Some (unmarshal_raw (Arguments c)))
      /\ system = with_instruction jsonMode (Content <$> List.filter (fun m => negb (not_of_system m)) h)
      /\ (exists parts, Forall2 (fun m bs => anthropicBlocks m name = Ok bs) (List.filter not_of_system h) parts
           /\ concat (w_content <$> wire) = concat parts)
      /\ (forall a m m' b, wire = a ++ m :: m' :: b -> w_role m <> w_role m' /\ (call_ids (w_content m) = [] \/ w_role m' = "user" /\ answers (call_ids (w_content m)) (w_content m')))
      /\ (forall a m, wire = a ++ [m] -> call_ids (w_content m) = [])
  | Prelude.Err e => exists m c, m ∈ h /\ Custom m !! name = None /\ c ∈ ToolCalls m
      /\ unmarshal_raw (Arguments c) = None /\ e = EToolInput (ID c)
  end.
Proof.
  intros Hp Hf. rewrite Forall_forall in Hf. unfold anthropicMessages. pose proof (wire_messages_spec name h [] []) as Hw.
  destruct (wire_messages h name [] []) as [[system wire]|e] eqn:E.
  - destruct Hw as [-> (parts & Hparts & Hcat)].
    assert (Hok : forall m, m ∈ h -> Role m <> "system" -> exists bs, anthropicBlocks m name = Ok bs).
    { intros m Hm Hs. apply String.eqb_neq in Hs. assert (Hin : m ∈ List.filter not_of_system h).
      { apply list_elem_of_In, List.filter_In. split; [by apply list_elem_of_In|]. unfold not_of_system. by rewrite Hs. }
      apply list_elem_of_lookup in Hin as [i Hi]. destruct (Forall2_lookup_l _ _ _ _ _ Hparts Hi) as (bs & _ & Hb). by exists bs. }
    assert (Hsay : Forall (says_its_calls name) h).
    { apply Forall_forall. intros m Hm Ht Hs. destruct (Hok m Hm Hs) as [bs Hb].
      pose proof (blocks_of name m (Hf m Hm) Ht) as Hbl. rewrite Hb in Hbl. exists bs. split; [done|apply Hbl]. }
    destruct (wire_is_linked name h Hp Hsay [] []) as (system' & wire' & E' & Hl & Hs); [by intros [|? [|? a]] m m' b|by intros [|? [|? a]] m|].
    rewrite E in E'. injection E' as _ <-. split_and!; [|done|by exists parts|exact Hl|exact Hs].
    intros m c Hm Hcu Hc. assert (Hr : Role m = "assistant").
    { destruct (Hf m Hm) as [(r & resp & a & Hn & Hra & Ha & H1 & _ & H3)|[_ Ha]]; [|apply Ha; intros Et; rewrite Et in Hc; by apply elem_of_nil in Hc].
      destruct (answer_blocks name r resp Hn Hra) as (a' & ? & Ha' & Hrole & _). rewrite Ha in Ha'. injection Ha' as <-. by rewrite H1. }
    pose proof (blocks_of name m (Hf m Hm) ltac:(by rewrite Hr)) as Hbl. destruct (Hok m Hm ltac:(by rewrite Hr)) as [bs Hb]. rewrite Hb in Hbl.
    destruct Hbl as [_ Hj]. specialize (Hj Hcu). rewrite Forall_forall in Hj. by apply Hj.
  - destruct Hw as (m & Hm & Hs & Hb). destruct (decide (Role m = "tool")) as [Ht|Ht].
    { destruct (result_block m name Ht) as (raw & Hr & _). congruence. }
    pose proof (blocks_of name m (Hf m Hm) Ht) as Hbl. rewrite Hb in Hbl. destruct Hbl as [Hcu (c & ? & ? & ?)]. by exists m, c.
Qed.

(** An answer goes back with the next request block by block as it came, the
    signed thinking and the blocks nobody reads included; the calls the agent sees
    in it are the calls that the blocks make, so that it may stand in a history
    like a message the agent wrote itself. *)
Theorem an_answer_goes_back_as_it_came name r resp :
  normalizeAnthropicResponse r name = Ok resp -> r_role r = "assistant" ->
  exists m blocks, RMessage <$> RChoices resp = [m] /\ unmarshal_list (r_content r) = Some blocks /\ anthropicBlocks m name = Ok blocks /\ ID <$> ToolCalls m = call_ids blocks
    /\ says_its_calls name m.
Proof.
  intros Hn Hr. destruct (answer_blocks name r resp Hn Hr) as (m & blocks & H1 & H2 & H3 & H4 & H5 & _). exists m, blocks. split_and!; [done..|]. intros _ _. exists blocks. split; [done|].
  rewrite <- H5. unfold is_call. rewrite H2. by destruct (ToolCalls m).
Qed.
End properties.

(** ** A concrete encoding *)

Definition enc {A} `{Countable A} (a : A) : string := string_of_list_ascii (pos_digits (encode a)).
Definition dec {A} `{Countable A} (s : string) : option A := digits_pos (list_ascii_of_string s) ≫= decode.

Lemma dec_enc {A} `{Countable A} (a : A) : dec (enc a) = Some a.
Proof. unfold dec, enc. rewrite list_ascii_of_string_of_list_ascii, digits_pos_digits. cbn. apply decode_encode. Qed.

Definition sample_blocks : list string := ["Thi"; "Xsigned"; "U" +:+ enc ("c1", "read", "{}")].

#[local] Instance sample_anthropic : AnthropicJson := {|
  marshal_block b := Some match b with TextBlock t => "T" +:+ t | ToolResult id content => "R" +:+ enc (id, content) | ToolUse id name input => "U" +:+ enc (id, name, input) end;
  marshal_body _ := Some "";
  decode_body _ := None;
  unmarshal_list s := if String.eqb s "blocks" then Some sample_blocks else None;
  unmarshal_raw s := if String.eqb s "" then None else Some s;
  block_type s := match s with String c _ => if Ascii.eqb c "T" then Some "text" else if Ascii.eqb c "R" then Some "tool_result" else if Ascii.eqb c "U" then Some "tool_use" else None | EmptyString => None end;
  block_text s := Some (string_drop 1 s);
  block_thinking _ := None;
  block_tool s := dec (A := string * string * string) (string_drop 1 s);
  marshal_payload v content := Some (enc (v, content));
  unmarshal_payload s := dec (A := Z * string) s;
|}.

#[local] Instance sample_anthropic_laws : AnthropicJsonLaws.
Proof.
  split.
  - intros v content blocks _. by eexists.
  - intros v content payload [= <-]. split; [apply dec_enc|]. unfold enc. by destruct (encode (v, content)).
  - intros b _. by eexists.
  - intros s input. cbn. destruct (String.eqb s "") eqn:E; [done|]. intros [= <-]. by rewrite E.
  - intros [t|id content|id name input] raw [= <-]; [done|done|]. split; [done|]. apply dec_enc.
Qed.

Definition a_message (role content : string) : Message := mkMessage role content "" [] "" ∅ "" 0%Z.
Definition a_call (id arguments : string) : ToolCall := mkToolCall id "function" "read" arguments.
Definition a_history (arguments : string) : list Message :=
  [a_message "system" "be kind"; a_message "user" "go"; a_message "assistant" "well"; mkMessage "assistant" "" "" [a_call "c1" arguments; a_call "c2" "{}"] "" ∅ "" 0%Z;
   tool_message "one" "c1"; tool_message "two" "c2"; a_message "user" "and?"].

Definition an_answer : anthropicMessageResponse :=
  mkMessageResponse "m" "message" "assistant" "c" "blocks" "tool_use" (mkAnthropicUsage 5 2 1 0).

Lemma a_history_of_another arguments : Forall (fun m => of_an_answer "p" m \/ of_another "p" m) (a_history arguments).
Proof. unfold a_history. repeat (apply Forall_cons_2; [right; split; [reflexivity|done]|]). apply Forall_nil_2. Qed.

Lemma a_history_paired arguments : paired (a_history arguments).
Proof.
  do 3 (apply paired_plain; [discriminate|reflexivity|]). apply (paired_call _ [tool_message "one" "c1"; tool_message "two" "c2"]); [reflexivity|repeat constructor|].
  apply paired_plain; [discriminate|reflexivity|constructor].
Qed.

Definition an_answered_history : list Message :=
  [a_message "user" "go"; mkMessage "assistant" "hi" "" [a_call "c1" "{}"] "" {["p" := enc (1%Z, "blocks")]} "m1" 7%Z; tool_message "one" "c1"].

(** A history of the agent's own, one with an answer of the provider, and one with
    arguments that are no JSON. *)
Lemma a_history_becomes_a_request_witness :
  (exists system wire, anthropicMessages (a_history "{}") true "p" = Ok (system, wire)
     /\ (forall a m, wire = a ++ [m] -> call_ids (w_content m) = []) /\ (w_role <$> wire) = ["user"; "assistant"; "user"] /\ (length ∘ w_content <$> wire) = [1; 3; 3]%nat) /\
  (exists system wire, anthropicMessages an_answered_history false "p" = Ok (system, wire)
     /\ (forall a m, wire = a ++ [m] -> call_ids (w_content m) = []) /\ (length ∘ w_content <$> wire) = [1; 3; 1]%nat) /\
  exists m c, m ∈ a_history "" /\ c ∈ ToolCalls m /\ Arguments c = "" /\ anthropicMessages (a_history "") true "p" = Prelude.Err (EToolInput (ID c)).
Proof.
  split; [|split].
  - pose proof (a_history_becomes_a_request "p" true (a_history "{}") (a_history_paired "{}") (a_history_of_another "{}")) as Ht.
    destruct (anthropicMessages (a_history "{}") true "p") as [[system wire]|e] eqn:E; [|vm_compute in E; discriminate E].
    exists system, wire. split; [reflexivity|]. destruct Ht as (_ & _ & _ & _ & Hs). split; [exact Hs|].
    vm_compute in E. injection E as <- <-. split; vm_compute; reflexivity.
  - assert (Hp : paired an_answered_history).
    { apply paired_plain; [discriminate|reflexivity|]. apply (paired_call _ [tool_message "one" "c1"] []); [reflexivity|repeat constructor|constructor]. }
    assert (Hf : Forall (fun m => of_an_answer "p" m \/ of_another "p" m) an_answered_history).
    { constructor; [right; by split|]. constructor; [left|constructor; [right; by split|constructor]].
      destruct (normalizeAnthropicResponse an_answer "p") as [resp|e] eqn:E; [|vm_compute in E; discriminate E].
      exists an_answer, resp. vm_compute in E. injection E as <-. eexists. repeat split; vm_compute; reflexivity. }
    pose proof (a_history_becomes_a_request "p" false an_answered_history Hp Hf) as Ht.
    destruct (anthropicMessages an_answered_history false "p") as [[system wire]|e] eqn:E; [|vm_compute in E; discriminate E].
    exists system, wire. split; [reflexivity|]. destruct Ht as (_ & _ & _ & _ & Hs). split; [exact Hs|].
    vm_compute in E. injection E as <- <-. vm_compute. reflexivity.
  - pose proof (a_history_becomes_a_request "p" true (a_history "") (a_history_paired "") (a_history_of_another "")) as Ht.
    destruct (anthropicMessages (a_history "") true "p") as [[system wire]|e] eqn:E; [vm_compute in E; discriminate E|].
    destruct Ht as (m & c & Hm & _ & Hc & Hj & ->). exists m, c. split; [exact Hm|]. split; [exact Hc|]. split; [|reflexivity].
    cbn in Hj. by destruct (String.eqb_spec (Arguments c) "").
Defined.

Lemma an_answer_goes_back_as_it_came_witness :
  exists resp m, normalizeAnthropicResponse an_answer "p" = Ok resp /\ RMessage <$> RChoices resp = [m] /\ Content m = "hi" /\ ToolCalls m = [a_call "c1" "{}"]
    /\ anthropicBlocks m "p" = Ok sample_blocks.
Proof.
  destruct (normalizeAnthropicResponse an_answer "p") as [resp|e] eqn:E; [|vm_compute in E; discriminate E].
  destruct (an_answer_goes_back_as_it_came "p" an_answer resp E eq_refl) as (m & blocks & H1 & H2 & H3 & _). injection H2 as <-.
  exists resp, m. split; [reflexivity|]. split; [exact H1|]. split; [|split; [|exact H3]]; vm_compute in E; injection E as <-; vm_compute in H1; injection H1 as <-; vm_compute; reflexivity.
Defined.

(** ** Points of interest *)

(** A call without arguments, or with arguments that are not JSON, which another
    provider has brought into the history, makes every later request fail. *)
Example a_bad_argument_blocks_the_session : anthropicMessages (a_history "") false "p" = Prelude.Err (EToolInput "c1").
Proof. vm_compute. reflexivity. Qed.
